(* ===== verification/_CoqProject ===== *)
-Q . S2P
Prelude.v
MemoryAddr.v
Extern.v
PageTableEntry.v
PageTable.v
PageTableSpec.v
LinkedList.v
BTree.v
Scheduler.v
Ratio.v
TimerList.v
Utf8.v
AxErrno.v
FlattenObjects.v
PollState.v
FdTable.v
IoMpx.v
IoMpxSpec.v
Pipe.v
Allocator.v
PageAllocSpec.v
SlabSpec.v
AxAlloc.v
AxHalMem.v
AxRuntime.v
AxMp.v
Path.v
Vfs.v
VfsSpec.v
AxIo.v
AxFs.v
AxFsSpec.v
CFile.v
CFileSpec.v
Shell.v
ShellSpec.v
BlockDev.v
NetBuf.v
NetBufSpec.v
AxNet.v
AxNetSpec.v
AxSocketSpec.v
AxNetExample.v
CSocket.v
CSocketSpec.v
CString.v
CStringSpec.v
CAlloc.v
CStrstr.v
TwoWay.v
CStrstrSpec.v
CTime.v
CStdlib.v
CPrintf.v
CPrintfSpec.v
CFormatSpec.v
CStdio.v
CNetwork.v
CNetworkSpec.v
AxTask.v
AxTaskSpec.v
Spinlock.v
AxSync.v
HvMem.v
HvVcpu.v
HvScheduler.v
HvDevices.v
Gic.v
