(* ===== verification/Prelude.v ===== *)
(** * A verification library for ArceOS

    ArceOS is a modular operating system kernel in Rust, here with the
    hypervisor extension of its task module and with a C library.  Its parts
    are small crates ([crates/]), the kernel modules built from them
    ([modules/]), the libraries of applications ([ulib/]) and the applications
    themselves ([apps/]).  This library
    translates them into executable definitions and proves what makes them
    correct.  All paths below are relative to [src/].

    ** How the code is translated

    - Machine integers are [Z] with their wrap-around written out ([wrap],
      and the operators of [word_scope]); the semantics is that of the release
      build, which the Makefile selects: arithmetic wraps silently and
      [debug_assert!] is compiled out.
    - A panic, and what Rust or C leave undefined, is [Panic] of [outcome];
      errors of the code are [Err] of [result] or [None]; [stm] is the monad
      of a state, an error and a panic.
    - Shared objects ([Arc], raw pointers, intrusive links, C memory) are
      addresses into a finite map, so that aliasing is that of the code.
    - Code that is not in the repository is a type class of the operations
      used, with a second class for what its documentation promises and an
      instance showing that the promises can be kept ([Extern.v],
      [TimerList.v], [HvMem.v], [HvDevices.v], [NetBuf.v], [AxNet.v] and the
      files using them).
      Traits of the repository are type classes too, and their laws are proved
      for every implementation.
    - Concurrency is a step relation whose steps are the parts of the code
      between two accesses to shared state; invariants are proved for every
      interleaving.
    - Loops are structural where they can be and otherwise take fuel; the fuel
      is an expression in the arguments, running out of it is [Panic], and the
      theorems show that it does not happen.  The fuel is: for page tables, the
      length of the index path and the number of pages of the region; for
      linked lists, the number of links; for paths, the number of components
      and two; for readers, the bytes left and one; for C strings, the number
      of addresses in memory ([mem_fuel]), since every round reads a new one;
      for formats, likewise; for waking tasks, the length of the queue; for
      ephemeral ports and the receive queue of the network, the number of
      ports and places and one; for [alloc], the free pages and one; for
      [realloc] and [fgets], the bytes asked for and one; for the shell's [cat],
      any number above the bytes of the file.  The waiting loops of
      [select] and [epoll_wait] take the number of rounds as fuel, and their
      theorems hold for every number that reaches the round in question.

    ** Memory

    - [MemoryAddr.v]: [crates/memory_addr], addresses and alignment.
    - [PageTableEntry.v]: [crates/page_table_entry], the class [GenericPTE]
      and its four formats (x86-64, EPT, AArch64, RISC-V), each shown to meet
      [GenericPTELaws].
    - [PageTable.v], [PageTableSpec.v]: [crates/page_table/src/bits64.rs].
      The tables are words in memory.  [map], [unmap], [map_region] and
      [unmap_region] refine updates of the translation that [query] computes,
      errors have the stated causes, and [drop] frees every table once.
    - [Allocator.v], [PageAllocSpec.v], [SlabSpec.v], [AxAlloc.v]:
      [crates/allocator], [crates/slab_allocator] and [modules/axalloc].  For
      every history of calls the memory handed out is aligned, large enough
      and disjoint, and the counters are right.

    ** Boot

    - [AxHalMem.v]: the regions of physical memory of each platform
      ([modules/axhal/src/mem.rs], [platform/*/mem.rs]) and what the linker
      script makes of them; [crates/lazy_init].
    - [AxRuntime.v]: [modules/axruntime/src/lib.rs] and the provider of frames
      of [modules/axhal/src/paging.rs].  It composes the allocator with the
      page tables: the kernel's table is the linear mapping of the regions,
      built of pages the allocator has handed out.  Also the periodic timer.
    - [AxMp.v]: [modules/axruntime/src/mp.rs], the start of the other CPUs and
      the barrier before the application, for every order of their turns.
    - [Gic.v]: [crates/arm_gic], [crates/handler_table] and their use in
      [modules/axhal]: the controller is configured as stated, and an
      interrupt reaches the handler registered for it.

    ** Tasks

    - [LinkedList.v]: [crates/linked_list], which refines a sequence.
    - [BTree.v]: the part of [BTreeMap] used.
    - [Scheduler.v]: [crates/scheduler], three schedulers with one contract,
      [SchedulerLaws].
    - [Ratio.v], [TimerList.v]: [crates/ratio], [crates/timer_list].
    - [AxTask.v], [AxTaskSpec.v]: [modules/axtask], for any number of CPUs
      and any scheduler: no task is lost, the operations complete, and an
      exit wakes the joiners.
    - [Spinlock.v], [AxSync.v]: [crates/kernel_guard], [crates/spinlock] and
      [modules/axsync]: mutual exclusion, restoration of the interrupt state,
      no lost wake-up.

    ** Files and C bindings

    - [Path.v], [Vfs.v], [VfsSpec.v]: [crates/axfs_vfs], [crates/axfs_ramfs],
      [crates/axfs_devfs].  The nodes stay trees; [lookup], [create] and
      [remove] act on exactly the node a path names.
    - [AxIo.v]: [crates/axio], loops over readers and writers.
    - [AxFs.v], [AxFsSpec.v]: [modules/axfs] and [crates/capability]: what is
      written under a path is read back from it, through any mounts.
    - [Utf8.v]: characters and their bytes, as Rust has them; a text comes back
      from its bytes, and bytes that are accepted are those of the text given.
    - [FlattenObjects.v], [FdTable.v], [Pipe.v], [AxErrno.v]:
      [crates/flatten_objects], the descriptor table and the pipes of
      [ulib/libax/src/cbindings], [crates/axerrno].
    - [CFile.v], [CFileSpec.v]: [cbindings/file.rs].  Open files are arrays of
      bytes with positions that duplicated descriptors share, whatever calls
      are made on them; four examples show where flags and offsets are handled
      differently from POSIX.
    - [Shell.v], [ShellSpec.v]: the shell [apps/fs/shell].  Its line editor is
      an editor of a list of bytes ([shell_edits_lines]), and what
      [echo text > file] stores, [cat file] prints ([echo_then_cat]).
    - [PollState.v], [IoMpx.v], [IoMpxSpec.v]: [select] and [epoll] of
      [ulib/libax/src/cbindings/io_mpx]: they report exactly the descriptors
      that are ready and asked for, in the first round with one.

    ** The C library ([ulib/c_libax/src])

    - [CString.v], [CStringSpec.v]: [string.c]; [CStrstr.v], [TwoWay.v],
      [CStrstrSpec.v]: [strstr] and the theory of its two-way search.
    - [CTime.v]: [__secs_to_tm] against the calendar.
    - [CStdlib.v]: [strtol] and its relatives against the value of the digits.
    - [CPrintf.v], [CPrintfSpec.v], [CFormatSpec.v]: [printf.c] against the
      rules for each conversion, and that numbers printed are read back.
    - [CStdio.v]: [stdio.c]; what is printed to a stream arrives in order.
    - [CAlloc.v]: [malloc] and its relatives over [cbindings/malloc.rs] and the
      global allocator: a map from addresses to blocks of bytes.

    ** The hypervisor ([modules/axtask/src/hv])

    - [HvMem.v]: guest physical memory over a nested page table.
    - [HvVcpu.v], [HvScheduler.v]: virtual CPUs, messages between CPUs, the
      scheduler.
    - [HvDevices.v]: emulated interrupt controller, serial port and power
      switch, and the instructions that reach them.

    ** Devices and network

    - [BlockDev.v]: [crates/driver_block], [modules/axfs/src/dev.rs] and the
      reading, writing and seeking of [modules/axfs/src/fs/fatfs.rs]: a disk
      is an array of bytes with a cursor, over any healthy block device.
    - [NetBuf.v], [NetBufSpec.v]: [crates/driver_net] and the network driver of
      [crates/driver_virtio]: every buffer of the pool has one owner, and each
      operation changes the bytes of no other.
    - [AxNet.v], [AxNetSpec.v], [AxSocketSpec.v], [AxNetExample.v]:
      [modules/axnet], sockets over the crate [smoltcp].  Polling hands the
      packets of the device to the stack and the frames of the stack to the
      device, and loses no buffer; in every history of calls each socket of
      the stack has one owner; [accept] returns the first connection; the
      search for a port ends with a free one.  The last file has a device and
      a stack that satisfy the laws.
    - [CNetwork.v], [CNetworkSpec.v]: [ulib/c_libax/src/network.c], texts of
      internet addresses and back.
    - [CSocket.v], [CSocketSpec.v]: [cbindings/socket.rs] over the descriptor
      table and [modules/axnet].  Whatever calls a C program makes, each socket
      object has a descriptor and each socket of the stack one owner; [accept]
      gives the first connection the least free descriptor.  Calls that wait
      take the number of rounds as fuel.

    ** Not modelled

    - Code that only talks to hardware or other software: the rest of
      [modules/axhal] and of [modules/axruntime], the block and display devices
      of [crates/driver_virtio], [crates/arm_pl011], [crates/dw_apb_uart], the
      drivers and buses of [modules/axdriver], [modules/axdisplay], and the
      loop that runs a virtual CPU.  What it does is a sequence of accesses to
      registers whose meaning lies in the device.
    - The network protocols, which are those of the crate [smoltcp]; the locks
      of [modules/axnet], so that a call, or a round of a call that blocks, is
      one step.
    - FAT file systems, which are those of the crate [fatfs].
    - Procedural macros and build code: [crates/percpu_macros],
      [crates/crate_interface], [crates/tuple_for_each],
      [crates/axconfig], build scripts and [tools/].  They compute Rust
      source, not behaviour.
    - Floating point: [math.c], [strtod], the conversions [%f], [%e] and [%g].
    - The rest of the C library and of the C bindings, which passes its
      arguments on to calls that are modelled or to the above. *)

From stdpp Require Import base list numbers option gmap.

#[export] Set Default Goal Selector "!".
#[export] Set Warnings "-clear-no-such-hyp".
Open Scope Z_scope.

(** ** Machine integers

    A [w]-bit unsigned integer is a [Z] in [[0, 2^w)].  The default build of
    the kernel is a release build ([MODE ?= release] in the Makefile), in
    which [+], [-] and [*] wrap around silently and [debug_assert!] is
    compiled out; the definitions below are that semantics. *)

Definition wrap (w z : Z) : Z := z mod 2 ^ w.

Definition usize_max : Z := Z.ones 64.

Definition wadd (a b : Z) : Z := wrap 64 (a + b).
Definition wsub (a b : Z) : Z := wrap 64 (a - b).
Definition wmul (a b : Z) : Z := wrap 64 (a * b).
Definition wnot (a : Z) : Z := Z.lxor a usize_max.
Definition wshl (a n : Z) : Z := wrap 64 (Z.shiftl a n).

(** A value of the type [usize] (equally [u64]) of the 64-bit targets. *)
Definition is_usize (z : Z) : Prop := 0 ≤ z < 2 ^ 64.

(** Two's complement reading of a 64-bit word, for [isize]. *)
Definition to_isize (z : Z) : Z :=
  let u := wrap 64 z in if u <? 2 ^ 63 then u else u - 2 ^ 64.

Definition is_isize (z : Z) : Prop := - 2 ^ 63 ≤ z < 2 ^ 63.

Declare Scope word_scope.
Delimit Scope word_scope with W.
Infix "⊕" := wadd (at level 50, left associativity) : word_scope.
Infix "⊖" := wsub (at level 50, left associativity) : word_scope.
Infix "⊗" := wmul (at level 40, left associativity) : word_scope.
Infix ".&" := Z.land (at level 40, left associativity) : word_scope.
Infix ".|" := Z.lor (at level 50, left associativity) : word_scope.
Infix ".<<" := wshl (at level 35, right associativity) : word_scope.
Infix ".>>" := Z.shiftr (at level 35, right associativity) : word_scope.
Notation "~. a" := (wnot a) (at level 30, right associativity) : word_scope.

(** ** Results and panics *)

(** Rust's [Result<T, E>]. *)
Inductive result (E T : Type) : Type :=
| Ok (t : T)
| Err (e : E).
Arguments Ok {E T} _.
Arguments Err {E T} _.

#[global] Instance result_eq_dec {E T} `{!EqDecision E, !EqDecision T} : EqDecision (result E T).
Proof. solve_decision. Defined.

#[global] Instance result_ret {E} : MRet (result E) := λ T t, Ok t.
#[global] Instance result_bind {E} : MBind (result E) := λ T U f r,
  match r with Ok t => f t | Err e => Err e end.
#[global] Instance result_fmap {E} : FMap (result E) := λ T U f r,
  match r with Ok t => Ok (f t) | Err e => Err e end.

Definition is_ok {E T} (r : result E T) : bool :=
  match r with Ok _ => true | Err _ => false end.

(** [Option::ok_or]. *)
Definition ok_or {E T} (e : E) (o : option T) : result E T :=
  match o with Some t => Ok t | None => Err e end.

(** Code that can reach a [panic!], a failed [assert!], an index out of
    range, an [unwrap] of [None] or an [unreachable!]. *)
Inductive outcome (T : Type) : Type :=
| Done (t : T)
| Panic.
Arguments Done {T} _.
Arguments Panic {T}.

#[global] Instance outcome_ret : MRet outcome := λ T t, Done t.
#[global] Instance outcome_bind : MBind outcome := λ T U f r,
  match r with Done t => f t | Panic => Panic end.
#[global] Instance outcome_fmap : FMap outcome := λ T U f r,
  match r with Done t => Done (f t) | Panic => Panic end.

(** [assert!(b)]. *)
Definition assert_true (b : bool) : outcome unit := if b then Done tt else Panic.

(** [Option::unwrap] and indexing [v[i]]. *)
Definition unwrap {T} (o : option T) : outcome T :=
  match o with Some t => Done t | None => Panic end.

Definition is_done {T} (o : outcome T) : bool :=
  match o with Done _ => true | Panic => false end.

(** ** Stateful fallible code

    [stm S E T] is code that reads and writes a state [S], can panic, and
    returns a [Result<T, E>]; an error keeps the state reached so far, as the
    operator [?] does. *)
Definition stm (S E T : Type) : Type := S → outcome (S * result E T).

#[global] Instance stm_ret {S E} : MRet (stm S E) := λ T t s, Done (s, Ok t).
#[global] Instance stm_bind {S E} : MBind (stm S E) := λ T U f m s,
  match m s with
  | Done (s', Ok t) => f t s'
  | Done (s', Err e) => Done (s', Err e)
  | Panic => Panic
  end.

Definition get {S E} : stm S E S := λ s, Done (s, Ok s).
Definition gets {S E T} (f : S → T) : stm S E T := λ s, Done (s, Ok (f s)).
Definition modify {S E} (f : S → S) : stm S E unit := λ s, Done (f s, Ok tt).
Definition throw {S E T} (e : E) : stm S E T := λ s, Done (s, Err e).
Definition panic {S E T} : stm S E T := λ _, Panic.
Definition of_result {S E T} (r : result E T) : stm S E T := λ s, Done (s, r).
Definition of_outcome {S E T} (o : outcome T) : stm S E T := λ s,
  match o with Done t => Done (s, Ok t) | Panic => Panic end.

(** ** Automation of the library *)

Create HintDb arceos.

(** Splits hypotheses and goals made of boolean tests into propositions. *)
Ltac bool_to_prop :=
  repeat match goal with
  | H : _ && _ = true |- _ => apply andb_true_iff in H; destruct H
  | H : _ && _ = false |- _ => apply andb_false_iff in H
  | H : _ || _ = true |- _ => apply orb_true_iff in H
  | H : _ || _ = false |- _ => apply orb_false_iff in H; destruct H
  | H : negb _ = true |- _ => apply negb_true_iff in H
  | H : negb _ = false |- _ => apply negb_false_iff in H
  | H : (_ =? _)%Z = true |- _ => apply Z.eqb_eq in H
  | H : (_ =? _)%Z = false |- _ => apply Z.eqb_neq in H
  | H : (_ <? _)%Z = true |- _ => apply Z.ltb_lt in H
  | H : (_ <? _)%Z = false |- _ => apply Z.ltb_ge in H
  | H : (_ <=? _)%Z = true |- _ => apply Z.leb_le in H
  | H : (_ <=? _)%Z = false |- _ => apply Z.leb_gt in H
  end.

(** One case split on the scrutinee of a [match] or [if] of the goal or of a
    hypothesis, then inversion of the constructor equations. *)
Ltac split_match :=
  match goal with
  | H : context [match ?x with _ => _ end] |- _ => destruct x eqn:?; simplify_eq/=
  | |- context [match ?x with _ => _ end] => destruct x eqn:?; simplify_eq/=
  end.

(** ** Lemmas on machine integers *)

Section words.

Lemma wrap_small (w z : Z) : 0 ≤ z < 2 ^ w → wrap w z = z.
Proof. apply Z.mod_small. Qed.

Lemma wrap_range (w z : Z) : 0 ≤ w → 0 ≤ wrap w z < 2 ^ w.
Proof. intros. apply Z.mod_pos_bound. lia. Qed.

Lemma is_usize_wadd (a b : Z) : is_usize (wadd a b).
Proof. by apply wrap_range. Qed.

Lemma is_usize_wsub (a b : Z) : is_usize (wsub a b).
Proof. by apply wrap_range. Qed.

Lemma wadd_small (a b : Z) : is_usize (a + b) → wadd a b = a + b.
Proof. apply wrap_small. Qed.

Lemma wsub_small (a b : Z) : is_usize (a - b) → wsub a b = a - b.
Proof. apply wrap_small. Qed.

Lemma wmul_small (a b : Z) : is_usize (a * b) → wmul a b = a * b.
Proof. apply wrap_small. Qed.

Lemma testbit_usize_high (a i : Z) : is_usize a → 64 ≤ i → Z.testbit a i = false.
Proof.
  intros [Ha1 Ha2] Hi. destruct (decide (a = 0)) as [->|]; [by rewrite Z.testbit_0_l|].
  apply Z.bits_above_log2; [done|].
  apply Z.log2_lt_pow2; [lia|]. eapply Z.lt_le_trans; [exact Ha2|].
  apply Z.pow_le_mono_r; lia.
Qed.

(** The bit-level characterisation of the range of [usize]. *)
Lemma usize_of_bits (a : Z) :
  (∀ i, 64 ≤ i → Z.testbit a i = false) → is_usize a.
Proof.
  intros Ha. replace a with (a mod 2 ^ 64); [by apply wrap_range|].
  apply Z.bits_inj'. intros i Hi. destruct (decide (i < 64)).
  - by apply Z.mod_pow2_bits_low.
  - rewrite Z.mod_pow2_bits_high by lia. symmetry. apply Ha. lia.
Qed.

Lemma land_usize (a b : Z) : is_usize a → is_usize (Z.land a b).
Proof.
  intros Ha. apply usize_of_bits. intros i Hi.
  by rewrite Z.land_spec, (testbit_usize_high a).
Qed.

Lemma lor_usize (a b : Z) : is_usize a → is_usize b → is_usize (Z.lor a b).
Proof.
  intros Ha Hb. apply usize_of_bits. intros i Hi.
  by rewrite Z.lor_spec, (testbit_usize_high a), (testbit_usize_high b).
Qed.

(** [x & (2^k - 1)] is [x mod 2^k]. *)
Lemma land_mask (x k : Z) : 0 ≤ k → Z.land x (2 ^ k - 1) = x mod 2 ^ k.
Proof. intros. rewrite <- Z.land_ones by done. by rewrite Z.ones_equiv, <- Z.sub_1_r. Qed.

(** [x & !(2^k - 1)] clears the low [k] bits. *)
Lemma land_not_mask (x k : Z) :
  is_usize x → 0 ≤ k → Z.land x (wnot (2 ^ k - 1)) = x - x mod 2 ^ k.
Proof.
  intros Hx Hk.
  replace (Z.land x (wnot (2 ^ k - 1))) with (Z.ldiff x (Z.ones k)).
  - rewrite Z.ldiff_ones_r by lia.
    rewrite Z.shiftl_mul_pow2, Z.shiftr_div_pow2 by lia.
    pose proof (Z.div_mod x (2 ^ k)). lia.
  - apply Z.bits_inj'. intros i Hi.
    rewrite Z.ldiff_spec, Z.land_spec. unfold wnot, usize_max.
    rewrite Z.lxor_spec, Z.sub_1_r, <- Z.ones_equiv.
    destruct (decide (i < 64)).
    + rewrite (Z.ones_spec_low 64) by lia. by destruct (Z.testbit (Z.ones k) i).
    + rewrite (testbit_usize_high x i) by (done || lia). done.
Qed.

Lemma pow2_pos (k : Z) : 0 ≤ k → 0 < 2 ^ k.
Proof. intros. lia. Qed.

Lemma pow2_lt_usize (k : Z) : 0 ≤ k < 64 → is_usize (2 ^ k).
Proof. intros. split; [lia|]. apply Z.pow_lt_mono_r; lia. Qed.

Lemma pow2_divides (j k : Z) : 0 ≤ j ≤ k → (2 ^ j | 2 ^ k).
Proof.
  intros. exists (2 ^ (k - j)). rewrite <- Z.pow_add_r by lia. f_equal. lia.
Qed.

(** A mask of the bits [lo, hi) keeps every multiple of [2^lo] below [2^hi]. *)
Lemma land_field (p lo hi : Z) :
  0 ≤ lo ≤ hi → (2 ^ lo | p) → 0 ≤ p < 2 ^ hi → Z.land p (2 ^ hi - 2 ^ lo) = p.
Proof.
  intros Hl [q ->] Hp.
  assert (2 ^ hi = 2 ^ (hi - lo) * 2 ^ lo) as Hhi
    by (rewrite <- Z.pow_add_r by lia; f_equal; lia).
  replace (2 ^ hi - 2 ^ lo) with (Z.shiftl (Z.ones (hi - lo)) lo).
  2: { rewrite Z.shiftl_mul_pow2, Z.ones_equiv by lia. lia. }
  rewrite <- Z.shiftl_mul_pow2, <- Z.shiftl_land, Z.land_ones by lia.
  f_equal. apply Z.mod_small. split; nia.
Qed.

(** Reading a field of a word made of disjoint parts. *)
Lemma land_lor_drop_r (a p m n : Z) :
  Z.land m n = 0 → Z.land (Z.lor a (Z.land p m)) n = Z.land a n.
Proof.
  intros Hmn. by rewrite Z.land_lor_distr_l, <- Z.land_assoc, Hmn, Z.land_0_r, Z.lor_0_r.
Qed.

Lemma land_lor_drop_l (a p m : Z) :
  Z.land a m = 0 → Z.land (Z.lor a (Z.land p m)) m = Z.land p m.
Proof.
  intros Ham. by rewrite Z.land_lor_distr_l, <- Z.land_assoc, Ham, Z.land_diag.
Qed.

Lemma lor_nonzero_l (a b : Z) : a ≠ 0 → Z.lor a b ≠ 0.
Proof. intros Ha Hab. by apply Z.lor_eq_0_iff in Hab as [? _]. Qed.

(** Every integer of a small range is one of finitely many. *)
Lemma elem_of_range (n : nat) (z : Z) : 0 ≤ z < Z.of_nat n → z ∈ Z.of_nat <$> seq 0 n.
Proof.
  intros Hz. apply list_elem_of_fmap. exists (Z.to_nat z).
  split; [lia|]. apply elem_of_seq. lia.
Qed.

Lemma sub_mod_div (x m : Z) : 0 < m → x - x mod m = m * (x `div` m).
Proof. intros. pose proof (Z.div_mod x m). lia. Qed.

Lemma multiple_le_floor (x m q : Z) : 0 < m → q * m ≤ x → q * m ≤ x - x mod m.
Proof.
  intros. rewrite sub_mod_div by done.
  assert (q ≤ x `div` m) by (apply Z.div_le_lower_bound; lia). nia.
Qed.

Lemma ceil_le_multiple (x m q : Z) :
  0 < m → x ≤ q * m → (x + m - 1) - (x + m - 1) mod m ≤ q * m.
Proof.
  intros. rewrite sub_mod_div by done.
  assert ((x + m - 1) `div` m < q + 1) by (apply Z.div_lt_upper_bound; lia). nia.
Qed.

End words.

(** Replaces [z], known to lie in [[0, n)] by [H], by each of its values. *)
Ltac enum_range n z H :=
  let Hin := fresh in
  assert (z ∈ Z.of_nat <$> seq 0 n) as Hin by (apply elem_of_range; exact H);
  clear H; simpl in Hin;
  repeat (apply elem_of_cons in Hin as [->|Hin]);
  [..|by apply elem_of_nil in Hin].

#[export] Hint Resolve is_usize_wadd is_usize_wsub land_usize lor_usize
  wrap_range pow2_lt_usize : arceos.
