(* ===== verification/MemoryAddr.v ===== *)
(** * Physical and virtual addresses ([crates/memory_addr])

    The alignment helpers of [crates/memory_addr/src/lib.rs] and the wrapper
    types [PhysAddr] and [VirtAddr].  Both wrappers are [repr(transparent)]
    newtypes of [usize]; they are modelled by [Z] kept in the range
    [is_usize], and every method is one definition. *)

From S2P Require Import Prelude.
From stdpp Require Import base numbers.

Open Scope Z_scope.
Open Scope word_scope.

Definition PAGE_SIZE_4K : Z := 0x1000.

Definition align_down (addr align : Z) : Z := addr .& ~. (align ⊖ 1).

Definition align_up (addr align : Z) : Z := (addr ⊕ align ⊖ 1) .& ~. (align ⊖ 1).

Definition align_offset (addr align : Z) : Z := addr .& (align ⊖ 1).

Definition is_aligned (addr align : Z) : bool := align_offset addr align =? 0.

Definition align_down_4k (addr : Z) : Z := align_down addr PAGE_SIZE_4K.
Definition align_up_4k (addr : Z) : Z := align_up addr PAGE_SIZE_4K.
Definition align_offset_4k (addr : Z) : Z := align_offset addr PAGE_SIZE_4K.
Definition is_aligned_4k (addr : Z) : bool := is_aligned addr PAGE_SIZE_4K.

(** ** [PhysAddr] *)

Abbreviation PhysAddr := Z (only parsing).

Definition PhysAddr_from (addr : Z) : PhysAddr := addr.
Definition PhysAddr_as_usize (a : PhysAddr) : Z := a.
Definition PhysAddr_align_down (a : PhysAddr) (align : Z) : PhysAddr := align_down a align.
Definition PhysAddr_align_up (a : PhysAddr) (align : Z) : PhysAddr := align_up a align.
Definition PhysAddr_align_offset (a : PhysAddr) (align : Z) : Z := align_offset a align.
Definition PhysAddr_is_aligned (a : PhysAddr) (align : Z) : bool := is_aligned a align.
Definition PhysAddr_align_down_4k (a : PhysAddr) : PhysAddr := PhysAddr_align_down a PAGE_SIZE_4K.
Definition PhysAddr_align_up_4k (a : PhysAddr) : PhysAddr := PhysAddr_align_up a PAGE_SIZE_4K.
Definition PhysAddr_align_offset_4k (a : PhysAddr) : Z := PhysAddr_align_offset a PAGE_SIZE_4K.
Definition PhysAddr_is_aligned_4k (a : PhysAddr) : bool := PhysAddr_is_aligned a PAGE_SIZE_4K.
Definition PhysAddr_add (a : PhysAddr) (rhs : Z) : PhysAddr := a ⊕ rhs.
Definition PhysAddr_sub (a : PhysAddr) (rhs : Z) : PhysAddr := a ⊖ rhs.

(** ** [VirtAddr] *)

Abbreviation VirtAddr := Z (only parsing).

Definition VirtAddr_from (addr : Z) : VirtAddr := addr.
Definition VirtAddr_as_usize (a : VirtAddr) : Z := a.
Definition VirtAddr_align_down (a : VirtAddr) (align : Z) : VirtAddr := align_down a align.
Definition VirtAddr_align_up (a : VirtAddr) (align : Z) : VirtAddr := align_up a align.
Definition VirtAddr_align_offset (a : VirtAddr) (align : Z) : Z := align_offset a align.
Definition VirtAddr_is_aligned (a : VirtAddr) (align : Z) : bool := is_aligned a align.
Definition VirtAddr_align_down_4k (a : VirtAddr) : VirtAddr := VirtAddr_align_down a PAGE_SIZE_4K.
Definition VirtAddr_align_up_4k (a : VirtAddr) : VirtAddr := VirtAddr_align_up a PAGE_SIZE_4K.
Definition VirtAddr_align_offset_4k (a : VirtAddr) : Z := VirtAddr_align_offset a PAGE_SIZE_4K.
Definition VirtAddr_is_aligned_4k (a : VirtAddr) : bool := VirtAddr_is_aligned a PAGE_SIZE_4K.
Definition VirtAddr_add (a : VirtAddr) (rhs : Z) : VirtAddr := a ⊕ rhs.
Definition VirtAddr_sub (a : VirtAddr) (rhs : Z) : VirtAddr := a ⊖ rhs.

(** ** Closed forms of the bit tricks *)

Section lemmas.
Implicit Types addr k : Z.

Lemma wsub_pow2_1 k : 0 ≤ k < 64 → 2 ^ k ⊖ 1 = 2 ^ k - 1.
Proof.
  intros Hk. apply wsub_small. pose proof (pow2_lt_usize k Hk). unfold is_usize in *. lia.
Qed.

Lemma align_down_eq addr k :
  is_usize addr → 0 ≤ k < 64 → align_down addr (2 ^ k) = (addr - addr mod 2 ^ k).
Proof.
  intros Ha Hk. unfold align_down. rewrite wsub_pow2_1 by done.
  apply land_not_mask; [done|lia].
Qed.

Lemma align_offset_eq addr k : 0 ≤ k < 64 → align_offset addr (2 ^ k) = addr mod 2 ^ k.
Proof.
  intros Hk. unfold align_offset. rewrite wsub_pow2_1 by done. apply land_mask. lia.
Qed.

Lemma is_aligned_divide addr k :
  0 ≤ k < 64 → is_aligned addr (2 ^ k) = true ↔ (2 ^ k | addr).
Proof.
  intros Hk. unfold is_aligned. rewrite align_offset_eq by done.
  rewrite Z.eqb_eq. apply Z.mod_divide. lia.
Qed.

(** The intermediate [addr + align - 1] wraps around when it leaves [usize];
    the mask then leaves zero. *)
Lemma align_up_eq addr k :
  is_usize addr → 0 ≤ k < 64 →
  align_up addr (2 ^ k) =
    (if addr + 2 ^ k - 1 <? 2 ^ 64
     then (addr + 2 ^ k - 1) - (addr + 2 ^ k - 1) mod 2 ^ k else 0).
Proof.
  intros Ha Hk. unfold align_up. pose proof (pow2_lt_usize k Hk) as Hp.
  rewrite wsub_pow2_1 by done. rewrite land_not_mask by (auto with arceos; lia).
  assert (wsub (wadd addr (2 ^ k)) 1 = wrap 64 (addr + 2 ^ k - 1)) as ->.
  { unfold wsub, wadd, wrap. by rewrite Zminus_mod_idemp_l. }
  destruct (Z.ltb_spec (addr + 2 ^ k - 1) (2 ^ 64)) as [Hlt|Hge].
  - rewrite wrap_small; [done|]. unfold is_usize in *. lia.
  - unfold is_usize in *. unfold wrap.
    rewrite (Z.mod_eq _ (2 ^ 64)) by lia.
    assert ((addr + 2 ^ k - 1) `div` 2 ^ 64 = 1) as ->.
    { symmetry. apply Z.div_unique with (addr + 2 ^ k - 1 - 2 ^ 64); lia. }
    rewrite (Z.mod_small _ (2 ^ k)); lia.
Qed.

End lemmas.

(** ** Properties *)

(** [align_down addr align], for a power of two [align], is the greatest
    multiple of [align] that is at most [addr]. *)
Theorem align_down_greatest (addr k : Z) :
  is_usize addr → 0 ≤ k < 64 →
  (2 ^ k | align_down addr (2 ^ k)) ∧
  align_down addr (2 ^ k) ≤ addr ∧
  ∀ y, (2 ^ k | y) → y ≤ addr → y ≤ align_down addr (2 ^ k).
Proof.
  intros Ha Hk. rewrite align_down_eq by done.
  pose proof (Z.mod_pos_bound addr (2 ^ k)). pose proof (Z.div_mod addr (2 ^ k)).
  split_and!; [exists (addr `div` 2 ^ k); lia|lia|].
  intros y [q ->] Hy. apply multiple_le_floor; lia.
Qed.

Lemma align_down_greatest_witness :
  (2 ^ 12 | align_down 0x12345 (2 ^ 12)) ∧
  align_down 0x12345 (2 ^ 12) ≤ 0x12345 ∧
  ∀ y, (2 ^ 12 | y) → y ≤ 0x12345 → y ≤ align_down 0x12345 (2 ^ 12).
Proof. apply (align_down_greatest 0x12345 12); unfold is_usize; lia. Defined.

(** [align_up addr align], for a power of two [align], is the least
    multiple of [align] that is at least [addr] whenever [addr + align - 1]
    fits in [usize]; otherwise the addition wraps around and the result is 0. *)
Theorem align_up_least_or_wraps (addr k : Z) :
  is_usize addr → 0 ≤ k < 64 →
  (addr + 2 ^ k - 1 < 2 ^ 64 →
     (2 ^ k | align_up addr (2 ^ k)) ∧
     addr ≤ align_up addr (2 ^ k) ∧
     ∀ y, (2 ^ k | y) → addr ≤ y → align_up addr (2 ^ k) ≤ y) ∧
  (2 ^ 64 ≤ addr + 2 ^ k - 1 → align_up addr (2 ^ k) = 0).
Proof.
  intros Ha Hk. rewrite align_up_eq by done.
  destruct (Z.ltb_spec (addr + 2 ^ k - 1) (2 ^ 64)); [|split; lia].
  split; [intros _|lia].
  pose proof (Z.mod_pos_bound (addr + 2 ^ k - 1) (2 ^ k)).
  pose proof (Z.div_mod (addr + 2 ^ k - 1) (2 ^ k)).
  split_and!; [exists ((addr + 2 ^ k - 1) `div` 2 ^ k); lia|lia|].
  intros y [q ->] Hy. apply ceil_le_multiple; lia.
Qed.

Lemma align_up_least_or_wraps_witness :
  (0x12345 + 2 ^ 12 - 1 < 2 ^ 64 →
     (2 ^ 12 | align_up 0x12345 (2 ^ 12)) ∧
     0x12345 ≤ align_up 0x12345 (2 ^ 12) ∧
     ∀ y, (2 ^ 12 | y) → 0x12345 ≤ y → align_up 0x12345 (2 ^ 12) ≤ y) ∧
  (2 ^ 64 ≤ 0x12345 + 2 ^ 12 - 1 → align_up 0x12345 (2 ^ 12) = 0).
Proof. apply (align_up_least_or_wraps 0x12345 12); unfold is_usize; lia. Defined.
