(* ===== verification/Extern.v ===== *)
(** * Interfaces of the third-party crates the modelled code calls

    The repository depends on crates that are not part of it.  Each one the
    model needs is a type class of the operations the code uses, with a
    second class for the documented behaviour of those operations.  The
    definitions of the library take the first class as an argument, the
    theorems also the second, and the [*_ref] instances show that the laws
    can be met. *)

From S2P Require Import Prelude.
From stdpp Require Import base numbers list.

Open Scope Z_scope.
Open Scope word_scope.

(** ** [bitflags]: the methods generated for a flag set, on its raw bits *)

Class Bitflags := {
  bf_contains : Z → Z → bool;
  bf_intersects : Z → Z → bool;
  bf_union : Z → Z → Z;
  bf_is_empty : Z → bool;
  (** [Self::from_bits_truncate(bits)], the first argument being the union
      of all the declared flags. *)
  bf_from_bits_truncate : Z → Z → Z;
}.

Class BitflagsLaws `{BF : Bitflags} : Prop := {
  bf_contains_spec a b : bf_contains a b = (a .& b =? b);
  bf_intersects_spec a b : bf_intersects a b = negb (a .& b =? 0);
  bf_union_spec a b : bf_union a b = a .| b;
  bf_is_empty_spec a : bf_is_empty a = (a =? 0);
  bf_truncate_spec all a : bf_from_bits_truncate all a = a .& all;
}.

(** [if cond { acc |= flag }]. *)
Definition bf_insert_if `{Bitflags} (cond : bool) (flag acc : Z) : Z :=
  if cond then bf_union acc flag else acc.

Lemma bf_insert_if_spec `{BitflagsLaws} (c : bool) (flag acc : Z) :
  bf_insert_if c flag acc = acc .| (if c then flag else 0).
Proof. destruct c; simpl; [apply bf_union_spec|by rewrite Z.lor_0_r]. Qed.

#[global] Instance bitflags_ref : Bitflags | 100 := {|
  bf_contains a b := a .& b =? b;
  bf_intersects a b := negb (a .& b =? 0);
  bf_union a b := a .| b;
  bf_is_empty a := a =? 0;
  bf_from_bits_truncate all a := a .& all;
|}.

#[global] Instance bitflags_ref_laws : @BitflagsLaws bitflags_ref.
Proof. split; reflexivity. Qed.

(** Rewrites every flag operation into its meaning on the bits. *)
Ltac bitflags_simpl :=
  rewrite ?bf_insert_if_spec, ?bf_contains_spec, ?bf_intersects_spec,
    ?bf_union_spec, ?bf_is_empty_spec, ?bf_truncate_spec.

(** ** [bit_field::BitField] on unsigned integers *)

Class BitField := {
  get_bit : Z → Z → bool;
  (** [x.get_bits(lo..hi)]. *)
  get_bits : Z → Z → Z → Z;
  (** [x.set_bits(lo..hi, v)]. *)
  set_bits : Z → Z → Z → Z → Z;
}.

Class BitFieldLaws `{B : BitField} : Prop := {
  get_bit_spec x i : get_bit x i = Z.testbit x i;
  get_bits_spec x lo hi : get_bits x lo hi = (x .>> lo) .& Z.ones (hi - lo);
  set_bits_spec x lo hi v :
    0 ≤ v < 2 ^ (hi - lo) →
    set_bits x lo hi v = Z.ldiff x (Z.shiftl (Z.ones (hi - lo)) lo) .| Z.shiftl v lo;
}.

#[global] Instance bit_field_ref : BitField | 100 := {|
  get_bit x i := Z.testbit x i;
  get_bits x lo hi := (x .>> lo) .& Z.ones (hi - lo);
  set_bits x lo hi v := Z.ldiff x (Z.shiftl (Z.ones (hi - lo)) lo) .| Z.shiftl v lo;
|}.

#[global] Instance bit_field_ref_laws : @BitFieldLaws bit_field_ref.
Proof. split; reflexivity. Qed.

(** ** [x86_64::structures::paging::PageTableFlags] *)

Class PageTableFlags := {
  PTF_PRESENT : Z;
  PTF_WRITABLE : Z;
  PTF_USER_ACCESSIBLE : Z;
  PTF_WRITE_THROUGH : Z;
  PTF_NO_CACHE : Z;
  PTF_HUGE_PAGE : Z;
  PTF_NO_EXECUTE : Z;
  (** The union of all the flags the crate declares. *)
  PTF_ALL : Z;
}.

(** The bit positions are the architectural ones; the crate declares no flag
    inside the address field (bits 12 to 51). *)
Class PageTableFlagsLaws `{P : PageTableFlags} : Prop := {
  ptf_present : PTF_PRESENT = 2 ^ 0;
  ptf_writable : PTF_WRITABLE = 2 ^ 1;
  ptf_user : PTF_USER_ACCESSIBLE = 2 ^ 2;
  ptf_write_through : PTF_WRITE_THROUGH = 2 ^ 3;
  ptf_no_cache : PTF_NO_CACHE = 2 ^ 4;
  ptf_huge_page : PTF_HUGE_PAGE = 2 ^ 7;
  ptf_no_execute : PTF_NO_EXECUTE = 2 ^ 63;
  ptf_all : PTF_ALL = 0xFFF00000_00000FFF;
}.

#[global] Instance ptf_ref : PageTableFlags | 100 := {|
  PTF_PRESENT := 2 ^ 0; PTF_WRITABLE := 2 ^ 1; PTF_USER_ACCESSIBLE := 2 ^ 2;
  PTF_WRITE_THROUGH := 2 ^ 3; PTF_NO_CACHE := 2 ^ 4; PTF_HUGE_PAGE := 2 ^ 7;
  PTF_NO_EXECUTE := 2 ^ 63; PTF_ALL := 0xFFF00000_00000FFF;
|}.

#[global] Instance ptf_ref_laws : @PageTableFlagsLaws ptf_ref.
Proof. split; reflexivity. Qed.

(** Replaces the flag constants by their bits. *)
Ltac ptf_simpl :=
  rewrite ?ptf_present, ?ptf_writable, ?ptf_user, ?ptf_write_through,
    ?ptf_no_cache, ?ptf_huge_page, ?ptf_no_execute, ?ptf_all.
