(* ===== verification/PageTableEntry.v ===== *)
(** * Page table entries ([crates/page_table_entry])

    The trait [GenericPTE] of [src/lib.rs] is a type class over the raw
    64-bit word; its four implementations, one section each, are
    [X64PTE] and [EPTEntry] ([arch/x86_64/pte.rs], [arch/x86_64/epte.rs]),
    [A64PTE] ([arch/aarch64.rs]) and [Rv64PTE] ([arch/riscv.rs]).  The class
    [GenericPTELaws] is what the page table of [PageTable.v] relies on; every
    implementation is shown to meet it. *)

From S2P Require Import Prelude MemoryAddr Extern.
From stdpp Require Import base numbers list.

Open Scope Z_scope.
Open Scope word_scope.

(** ** Generic flags and the trait *)

Definition MF_READ : Z := 2 ^ 0.
Definition MF_WRITE : Z := 2 ^ 1.
Definition MF_EXECUTE : Z := 2 ^ 2.
Definition MF_USER : Z := 2 ^ 3.
Definition MF_DEVICE : Z := 2 ^ 4.

(** A value of the type [MappingFlags] built from its declared flags. *)
Definition is_mapping_flags (f : Z) : Prop := 0 ≤ f < 2 ^ 5.

(** [flags] can panic: decoding an AArch64 descriptor with an unknown memory
    attribute index does. *)
Class GenericPTE := {
  pte_new_page : PhysAddr → Z → bool → Z;
  pte_new_table : PhysAddr → Z;
  pte_paddr : Z → PhysAddr;
  pte_flags : Z → outcome Z;
  pte_is_unused : Z → bool;
  pte_is_present : Z → bool;
  pte_is_huge : Z → bool;
  pte_clear : Z → Z;
}.

(** What the page table relies on.  [pte_pa_ok] are the frame addresses the
    entry format can hold, [pte_fl_ok] the flags a page can be mapped with
    and [pte_fl_view] the flags that are read back. *)
Class GenericPTELaws (PTE : GenericPTE) (pte_pa_ok pte_fl_ok : Z → Prop)
    (pte_fl_view : Z → Z) : Prop := {
  law_unused e : pte_is_unused e = (e =? 0);
  law_clear e : pte_clear e = 0;
  law_zero_present : pte_is_present 0 = false;
  law_table_nonzero p : pte_pa_ok p → pte_new_table p ≠ 0;
  law_table_present p : pte_pa_ok p → pte_is_present (pte_new_table p) = true;
  law_table_huge p : pte_pa_ok p → pte_is_huge (pte_new_table p) = false;
  law_table_paddr p : pte_pa_ok p → pte_paddr (pte_new_table p) = p;
  law_page_nonzero p f h : pte_pa_ok p → pte_fl_ok f → pte_new_page p f h ≠ 0;
  law_page_paddr p f h : pte_pa_ok p → pte_fl_ok f → pte_paddr (pte_new_page p f h) = p;
  law_page_flags p f h :
    pte_pa_ok p → pte_fl_ok f → pte_flags (pte_new_page p f h) = Done (pte_fl_view f);
  law_page_huge p f : pte_pa_ok p → pte_fl_ok f → pte_is_huge (pte_new_page p f true) = true;
}.

(** ** x86-64 ([arch/x86_64/pte.rs]) *)

Section x64_defs.
Context `{BF : Bitflags, PTF : PageTableFlags}.

Definition X64_PHYS_ADDR_MASK : Z := 0x000f_ffff_ffff_f000.

(** [impl From<PTF> for MappingFlags]. *)
Definition X64_flags_to_mapping (f : Z) : Z :=
  if bf_is_empty f then 0 else
  let ret := MF_READ in
  let ret := bf_insert_if (bf_contains f PTF_WRITABLE) MF_WRITE ret in
  let ret := bf_insert_if (negb (bf_contains f PTF_NO_EXECUTE)) MF_EXECUTE ret in
  let ret := bf_insert_if (bf_contains f PTF_USER_ACCESSIBLE) MF_USER ret in
  bf_insert_if (bf_contains f PTF_NO_CACHE) MF_DEVICE ret.

(** [impl From<MappingFlags> for PTF]. *)
Definition X64_flags_from_mapping (f : Z) : Z :=
  if bf_is_empty f then 0 else
  let ret := PTF_PRESENT in
  let ret := bf_insert_if (bf_contains f MF_WRITE) PTF_WRITABLE ret in
  let ret := bf_insert_if (negb (bf_contains f MF_EXECUTE)) PTF_NO_EXECUTE ret in
  let ret := bf_insert_if (bf_contains f MF_USER) PTF_USER_ACCESSIBLE ret in
  bf_insert_if (bf_contains f MF_DEVICE) (bf_union PTF_NO_CACHE PTF_WRITE_THROUGH) ret.

Definition X64_new_page (paddr : PhysAddr) (flags : Z) (is_huge : bool) : Z :=
  let flags := X64_flags_from_mapping flags in
  let flags := bf_insert_if is_huge PTF_HUGE_PAGE flags in
  flags .| (PhysAddr_as_usize paddr .& X64_PHYS_ADDR_MASK).

Definition X64_new_table (paddr : PhysAddr) : Z :=
  let flags := bf_union (bf_union PTF_PRESENT PTF_WRITABLE) PTF_USER_ACCESSIBLE in
  flags .| (PhysAddr_as_usize paddr .& X64_PHYS_ADDR_MASK).

Definition X64_paddr (e : Z) : PhysAddr := PhysAddr_from (e .& X64_PHYS_ADDR_MASK).

Definition X64_flags (e : Z) : Z := X64_flags_to_mapping (bf_from_bits_truncate PTF_ALL e).

Definition X64_is_unused (e : Z) : bool := e =? 0.

Definition X64_is_present (e : Z) : bool :=
  bf_contains (bf_from_bits_truncate PTF_ALL e) PTF_PRESENT.

Definition X64_is_huge (e : Z) : bool :=
  bf_contains (bf_from_bits_truncate PTF_ALL e) PTF_HUGE_PAGE.

Definition X64_clear (e : Z) : Z := 0.

Definition X64PTE : GenericPTE := {|
  pte_new_page := X64_new_page; pte_new_table := X64_new_table;
  pte_paddr := X64_paddr; pte_flags e := Done (X64_flags e);
  pte_is_unused := X64_is_unused; pte_is_present := X64_is_present;
  pte_is_huge := X64_is_huge; pte_clear := X64_clear;
|}.

End x64_defs.

(** ** x86 extended page tables ([arch/x86_64/epte.rs]) *)

Definition EPT_READ : Z := 2 ^ 0.
Definition EPT_WRITE : Z := 2 ^ 1.
Definition EPT_EXECUTE : Z := 2 ^ 2.
Definition EPT_HUGE_PAGE : Z := 2 ^ 7.

(** The union of the declared [EPTFlags]: bits 0 to 10. *)
Definition EPT_ALL : Z := 0x7ff.

Definition EPT_PHYS_ADDR_MASK : Z := 0x000f_ffff_ffff_f000.

Inductive EPTMemType :=
| Uncached
| WriteCombining
| WriteThrough
| WriteProtected
| WriteBack.

#[global] Instance EPTMemType_eq_dec : EqDecision EPTMemType.
Proof. solve_decision. Defined.

Definition EPTMemType_as_u8 (t : EPTMemType) : Z :=
  match t with
  | Uncached => 0
  | WriteCombining => 1
  | WriteThrough => 4
  | WriteProtected => 5
  | WriteBack => 6
  end.

Definition EPTMemType_try_from (v : Z) : result Z EPTMemType :=
  match v with
  | 0 => Ok Uncached
  | 1 => Ok WriteCombining
  | 4 => Ok WriteThrough
  | 5 => Ok WriteProtected
  | 6 => Ok WriteBack
  | _ => Err v
  end.

Section ept_defs.
Context `{BF : Bitflags, B : BitField}.

Definition EPT_set_mem_type (flags : Z) (mem_type : EPTMemType) : Z :=
  let bits := set_bits flags 3 6 (EPTMemType_as_u8 mem_type) in
  bf_from_bits_truncate EPT_ALL bits.

Definition EPT_mem_type (flags : Z) : result Z EPTMemType :=
  EPTMemType_try_from (wrap 8 (get_bits flags 3 6)).

(** [impl From<MappingFlags> for EPTFlags]. *)
Definition EPT_flags_from_mapping (f : Z) : Z :=
  if bf_is_empty f then 0 else
  let ret := 0 in
  let ret := bf_insert_if (bf_contains f MF_READ) EPT_READ ret in
  let ret := bf_insert_if (bf_contains f MF_WRITE) EPT_WRITE ret in
  let ret := bf_insert_if (bf_contains f MF_EXECUTE) EPT_EXECUTE ret in
  if negb (bf_contains f MF_DEVICE) then EPT_set_mem_type ret WriteBack else ret.

(** [impl From<EPTFlags> for MappingFlags]. *)
Definition EPT_flags_to_mapping (f : Z) : Z :=
  let ret := 0 in
  let ret := bf_insert_if (bf_contains f EPT_READ) MF_READ ret in
  let ret := bf_insert_if (bf_contains f EPT_WRITE) MF_WRITE ret in
  let ret := bf_insert_if (bf_contains f EPT_EXECUTE) MF_EXECUTE ret in
  match EPT_mem_type f with
  | Ok Uncached => bf_union ret MF_DEVICE
  | _ => ret
  end.

Definition EPT_new_page (paddr : PhysAddr) (flags : Z) (is_huge : bool) : Z :=
  let flags := EPT_flags_from_mapping flags in
  let flags := bf_insert_if is_huge EPT_HUGE_PAGE flags in
  flags .| (PhysAddr_as_usize paddr .& EPT_PHYS_ADDR_MASK).

Definition EPT_new_table (paddr : PhysAddr) : Z :=
  let flags := bf_union (bf_union EPT_READ EPT_WRITE) EPT_EXECUTE in
  flags .| (PhysAddr_as_usize paddr .& EPT_PHYS_ADDR_MASK).

Definition EPT_paddr (e : Z) : PhysAddr := PhysAddr_from (e .& EPT_PHYS_ADDR_MASK).

Definition EPT_flags (e : Z) : Z := EPT_flags_to_mapping (bf_from_bits_truncate EPT_ALL e).

Definition EPT_is_unused (e : Z) : bool := e =? 0.

Definition EPT_is_present (e : Z) : bool := negb (e .& 0x7 =? 0).

Definition EPT_is_huge (e : Z) : bool :=
  bf_contains (bf_from_bits_truncate EPT_ALL e) EPT_HUGE_PAGE.

Definition EPT_clear (e : Z) : Z := 0.

Definition EPTEntry : GenericPTE := {|
  pte_new_page := EPT_new_page; pte_new_table := EPT_new_table;
  pte_paddr := EPT_paddr; pte_flags e := Done (EPT_flags e);
  pte_is_unused := EPT_is_unused; pte_is_present := EPT_is_present;
  pte_is_huge := EPT_is_huge; pte_clear := EPT_clear;
|}.

End ept_defs.

(** ** AArch64 ([arch/aarch64.rs]) *)

Definition A64_VALID : Z := 2 ^ 0.
Definition A64_NON_BLOCK : Z := 2 ^ 1.
Definition A64_AP_EL0 : Z := 2 ^ 6.
Definition A64_AP_RO : Z := 2 ^ 7.
Definition A64_INNER : Z := 2 ^ 8.
Definition A64_SHAREABLE : Z := 2 ^ 9.
Definition A64_AF : Z := 2 ^ 10.
Definition A64_PXN : Z := 2 ^ 53.
Definition A64_UXN : Z := 2 ^ 54.

(** The union of the declared [DescriptorAttr]: bits 0 to 11, 52 to 54 and
    59 to 63. *)
Definition A64_ALL : Z := 0xf870_0000_0000_0fff.

Definition A64_ATTR_INDEX_MASK : Z := 0x1c.
Definition A64_PHYS_ADDR_MASK : Z := 0x0000_ffff_ffff_f000.

Inductive MemType :=
| Device
| Normal.

#[global] Instance MemType_eq_dec : EqDecision MemType.
Proof. solve_decision. Defined.

Section a64_defs.
Context `{BF : Bitflags}.

(** [hv] is the cargo feature of that name. *)
Context (hv : bool).

Definition A64_from_mem_type (t : MemType) : Z :=
  let bits := (match t with Device => 0 | Normal => 1 end) .<< 2 in
  match t with
  | Normal => bits .| (A64_INNER .| A64_SHAREABLE)
  | Device => bits
  end.

Definition A64_mem_type (attr : Z) : outcome MemType :=
  let idx := (attr .& A64_ATTR_INDEX_MASK) .>> 2 in
  match idx with
  | 0 => Done Device
  | 1 => Done Normal
  | _ => Panic
  end.

(** [impl From<DescriptorAttr> for MappingFlags]. *)
Definition A64_flags_to_mapping (attr : Z) : outcome Z :=
  let flags := 0 in
  let flags := bf_insert_if (bf_contains attr A64_VALID) MF_READ flags in
  let flags := bf_insert_if (negb (bf_contains attr A64_AP_RO)) MF_WRITE flags in
  let flags :=
    if bf_contains attr A64_AP_EL0 then
      let flags := bf_union flags MF_USER in
      bf_insert_if (negb (bf_contains attr A64_UXN)) MF_EXECUTE flags
    else
      bf_insert_if (negb (bf_intersects attr A64_PXN)) MF_EXECUTE flags in
  t ← A64_mem_type attr;
  Done (bf_insert_if (bool_decide (t = Device)) MF_DEVICE flags).

(** [impl From<MappingFlags> for DescriptorAttr]. *)
Definition A64_flags_from_mapping (flags : Z) : Z :=
  let attr := if bf_contains flags MF_DEVICE then A64_from_mem_type Device
              else A64_from_mem_type Normal in
  let attr := bf_insert_if (bf_contains flags MF_READ) A64_VALID attr in
  let attr := bf_insert_if (negb (bf_contains flags MF_WRITE)) A64_AP_RO attr in
  if bf_contains flags MF_USER then
    if hv then
      bf_union attr (bf_union (bf_union A64_AP_RO A64_AP_EL0) A64_PXN)
    else
      let attr := bf_union attr (bf_union A64_AP_EL0 A64_PXN) in
      bf_insert_if (negb (bf_contains flags MF_EXECUTE)) A64_UXN attr
  else
    if hv then attr
    else
      let attr := bf_union attr A64_UXN in
      bf_insert_if (negb (bf_contains flags MF_EXECUTE)) A64_PXN attr.

Definition A64_new_page (paddr : PhysAddr) (flags : Z) (is_huge : bool) : Z :=
  let attr := bf_union (A64_flags_from_mapping flags) A64_AF in
  let attr := bf_insert_if (negb is_huge) A64_NON_BLOCK attr in
  attr .| (PhysAddr_as_usize paddr .& A64_PHYS_ADDR_MASK).

Definition A64_new_table (paddr : PhysAddr) : Z :=
  let attr := bf_union A64_NON_BLOCK A64_VALID in
  attr .| (PhysAddr_as_usize paddr .& A64_PHYS_ADDR_MASK).

Definition A64_paddr (e : Z) : PhysAddr := PhysAddr_from (e .& A64_PHYS_ADDR_MASK).

Definition A64_flags (e : Z) : outcome Z :=
  A64_flags_to_mapping (bf_from_bits_truncate A64_ALL e).

Definition A64_is_unused (e : Z) : bool := e =? 0.

Definition A64_is_present (e : Z) : bool :=
  bf_contains (bf_from_bits_truncate A64_ALL e) A64_VALID.

Definition A64_is_huge (e : Z) : bool :=
  negb (bf_contains (bf_from_bits_truncate A64_ALL e) A64_NON_BLOCK).

Definition A64_clear (e : Z) : Z := 0.

Definition A64PTE : GenericPTE := {|
  pte_new_page := A64_new_page; pte_new_table := A64_new_table;
  pte_paddr := A64_paddr; pte_flags := A64_flags;
  pte_is_unused := A64_is_unused; pte_is_present := A64_is_present;
  pte_is_huge := A64_is_huge; pte_clear := A64_clear;
|}.

End a64_defs.

(** ** RISC-V ([arch/riscv.rs]) *)

Definition RV_V : Z := 2 ^ 0.
Definition RV_R : Z := 2 ^ 1.
Definition RV_W : Z := 2 ^ 2.
Definition RV_X : Z := 2 ^ 3.
Definition RV_U : Z := 2 ^ 4.
Definition RV_A : Z := 2 ^ 6.
Definition RV_D : Z := 2 ^ 7.

(** The union of the declared [PTEFlags]: bits 0 to 7. *)
Definition RV_ALL : Z := 0xff.

Definition RV_PHYS_ADDR_MASK : Z := 2 ^ 54 - 2 ^ 10.

Section rv_defs.
Context `{BF : Bitflags}.

(** [impl From<PTEFlags> for MappingFlags]. *)
Definition RV_flags_to_mapping (f : Z) : Z :=
  let ret := 0 in
  let ret := bf_insert_if (bf_contains f RV_R) MF_READ ret in
  let ret := bf_insert_if (bf_contains f RV_W) MF_WRITE ret in
  let ret := bf_insert_if (bf_contains f RV_X) MF_EXECUTE ret in
  bf_insert_if (bf_contains f RV_U) MF_USER ret.

(** [impl From<MappingFlags> for PTEFlags]. *)
Definition RV_flags_from_mapping (f : Z) : Z :=
  if bf_is_empty f then 0 else
  let ret := RV_V in
  let ret := bf_insert_if (bf_contains f MF_READ) RV_R ret in
  let ret := bf_insert_if (bf_contains f MF_WRITE) RV_W ret in
  let ret := bf_insert_if (bf_contains f MF_EXECUTE) RV_X ret in
  bf_insert_if (bf_contains f MF_USER) RV_U ret.

Definition RV_new_page (paddr : PhysAddr) (flags : Z) (is_huge : bool) : Z :=
  let flags := bf_union (bf_union (RV_flags_from_mapping flags) RV_A) RV_D in
  flags .| ((PhysAddr_as_usize paddr .>> 2) .& RV_PHYS_ADDR_MASK).

Definition RV_new_table (paddr : PhysAddr) : Z :=
  RV_V .| ((PhysAddr_as_usize paddr .>> 2) .& RV_PHYS_ADDR_MASK).

Definition RV_paddr (e : Z) : PhysAddr := PhysAddr_from ((e .& RV_PHYS_ADDR_MASK) .<< 2).

Definition RV_flags (e : Z) : Z := RV_flags_to_mapping (bf_from_bits_truncate RV_ALL e).

Definition RV_is_unused (e : Z) : bool := e =? 0.

Definition RV_is_present (e : Z) : bool :=
  bf_contains (bf_from_bits_truncate RV_ALL e) RV_V.

Definition RV_is_huge (e : Z) : bool :=
  bf_intersects (bf_from_bits_truncate RV_ALL e) (bf_union RV_R RV_X).

Definition RV_clear (e : Z) : Z := 0.

Definition Rv64PTE : GenericPTE := {|
  pte_new_page := RV_new_page; pte_new_table := RV_new_table;
  pte_paddr := RV_paddr; pte_flags e := Done (RV_flags e);
  pte_is_unused := RV_is_unused; pte_is_present := RV_is_present;
  pte_is_huge := RV_is_huge; pte_clear := RV_clear;
|}.

End rv_defs.

(** ** The entries meet the laws *)

(** A frame address below [2^bits]. *)
Definition frame_ok (bits p : Z) : Prop := (2 ^ 12 | p) ∧ 0 ≤ p < 2 ^ bits.

Section x64_laws.
Context `{BFL : BitflagsLaws, PTFL : PageTableFlagsLaws}.

(** On x86 every present page is readable. *)
Definition X64_fl_view (f : Z) : Z := MF_READ .| f.

Lemma X64_from_mapping_eq (f : Z) :
  X64_flags_from_mapping f =
    if f =? 0 then 0 else
    2 ^ 0 .| (if f .& MF_WRITE =? MF_WRITE then 2 ^ 1 else 0)
          .| (if negb (f .& MF_EXECUTE =? MF_EXECUTE) then 2 ^ 63 else 0)
          .| (if f .& MF_USER =? MF_USER then 2 ^ 2 else 0)
          .| (if f .& MF_DEVICE =? MF_DEVICE then 2 ^ 4 .| 2 ^ 3 else 0).
Proof. unfold X64_flags_from_mapping. by bitflags_simpl; ptf_simpl. Qed.

Lemma X64_to_mapping_eq (f : Z) :
  X64_flags_to_mapping f =
    if f =? 0 then 0 else
    MF_READ .| (if f .& 2 ^ 1 =? 2 ^ 1 then MF_WRITE else 0)
            .| (if negb (f .& 2 ^ 63 =? 2 ^ 63) then MF_EXECUTE else 0)
            .| (if f .& 2 ^ 2 =? 2 ^ 2 then MF_USER else 0)
            .| (if f .& 2 ^ 4 =? 2 ^ 4 then MF_DEVICE else 0).
Proof. unfold X64_flags_to_mapping. by bitflags_simpl; ptf_simpl. Qed.

Lemma X64_page_flags_lemma (p f : Z) (h : bool) :
  is_mapping_flags f → f ≠ 0 → X64_flags (X64_new_page p f h) = X64_fl_view f.
Proof.
  intros Hf Hne. unfold X64_flags, X64_new_page. bitflags_simpl. ptf_simpl.
  rewrite land_lor_drop_r by reflexivity.
  rewrite X64_to_mapping_eq, X64_from_mapping_eq.
  unfold is_mapping_flags in Hf. enum_range 32%nat f Hf; destruct h; by vm_compute.
Qed.

Lemma X64_attr_addr (f : Z) (h : bool) :
  is_mapping_flags f →
  (X64_flags_from_mapping f .| (if h then 2 ^ 7 else 0)) .& X64_PHYS_ADDR_MASK = 0.
Proof.
  intros Hf. rewrite X64_from_mapping_eq. unfold is_mapping_flags in Hf.
  enum_range 32%nat f Hf; destruct h; by vm_compute.
Qed.

Definition X64_fl_ok (f : Z) : Prop := is_mapping_flags f ∧ f ≠ 0.

#[global] Instance X64PTE_laws : GenericPTELaws X64PTE (frame_ok 52) X64_fl_ok X64_fl_view.
Proof.
  assert (∀ p, frame_ok 52 p → p .& X64_PHYS_ADDR_MASK = p) as Hpa.
  { intros p [??]. by apply (land_field p 12 52). }
  assert (∀ f, X64_fl_ok f → X64_flags_from_mapping f ≠ 0) as Hnz.
  { intros f [Hf Hne]. rewrite X64_from_mapping_eq. unfold is_mapping_flags in Hf.
    enum_range 32%nat f Hf; by vm_compute. }
  split; simpl.
  - done.
  - done.
  - unfold X64_is_present. bitflags_simpl. by ptf_simpl.
  - intros p _. unfold X64_new_table. bitflags_simpl. ptf_simpl. by apply lor_nonzero_l.
  - intros p _. unfold X64_is_present, X64_new_table. bitflags_simpl. ptf_simpl.
    by rewrite land_lor_drop_r.
  - intros p _. unfold X64_is_huge, X64_new_table. bitflags_simpl. ptf_simpl.
    by rewrite land_lor_drop_r.
  - intros p Hp. unfold X64_paddr, X64_new_table. bitflags_simpl. ptf_simpl.
    unfold PhysAddr_from, PhysAddr_as_usize. rewrite land_lor_drop_l by done. auto.
  - intros p f h _ Hf. unfold X64_new_page. bitflags_simpl. ptf_simpl.
    by apply lor_nonzero_l, lor_nonzero_l, Hnz.
  - intros p f h Hp [Hf _]. unfold X64_paddr, X64_new_page. bitflags_simpl. ptf_simpl.
    unfold PhysAddr_from, PhysAddr_as_usize.
    rewrite land_lor_drop_l by (by apply X64_attr_addr). auto.
  - intros p f h _ [??]. f_equal. by apply X64_page_flags_lemma.
  - intros p f _ [Hf _]. unfold X64_is_huge, X64_new_page. bitflags_simpl. ptf_simpl.
    rewrite land_lor_drop_r by reflexivity. rewrite X64_from_mapping_eq.
    unfold is_mapping_flags in Hf. enum_range 32%nat f Hf; by vm_compute.
Qed.

End x64_laws.

Section ept_laws.
Context `{BFL : BitflagsLaws, BL : BitFieldLaws}.

(** The second-level tables have no user bit. *)
Definition EPT_fl_view (f : Z) : Z := Z.ldiff f MF_USER.

(** A guest page must be accessible in some way for the entry to be present. *)
Definition EPT_fl_ok (f : Z) : Prop :=
  is_mapping_flags f ∧ f .& (MF_READ .| MF_WRITE .| MF_EXECUTE) ≠ 0.

Lemma EPT_from_mapping_eq (f : Z) :
  EPT_flags_from_mapping f =
    if f =? 0 then 0 else
    let ret := (if f .& MF_READ =? MF_READ then EPT_READ else 0)
          .| (if f .& MF_WRITE =? MF_WRITE then EPT_WRITE else 0)
          .| (if f .& MF_EXECUTE =? MF_EXECUTE then EPT_EXECUTE else 0) in
    if negb (f .& MF_DEVICE =? MF_DEVICE)
    then (Z.ldiff ret (Z.shiftl (Z.ones 3) 3) .| Z.shiftl 6 3) .& EPT_ALL else ret.
Proof.
  unfold EPT_flags_from_mapping, EPT_set_mem_type. bitflags_simpl.
  rewrite set_bits_spec by (simpl; lia). by rewrite !Z.lor_0_l.
Qed.

Lemma EPT_to_mapping_eq (f : Z) :
  EPT_flags_to_mapping f =
    let ret := (if f .& EPT_READ =? EPT_READ then MF_READ else 0)
            .| (if f .& EPT_WRITE =? EPT_WRITE then MF_WRITE else 0)
            .| (if f .& EPT_EXECUTE =? EPT_EXECUTE then MF_EXECUTE else 0) in
    match EPTMemType_try_from (wrap 8 ((f .>> 3) .& Z.ones 3)) with
    | Ok Uncached => ret .| MF_DEVICE
    | _ => ret
    end.
Proof.
  unfold EPT_flags_to_mapping, EPT_mem_type. bitflags_simpl.
  rewrite get_bits_spec, !Z.lor_0_l. cbv zeta. destruct (EPTMemType_try_from _) as [[]|]; done.
Qed.

Lemma EPT_page_flags_lemma (p f : Z) (h : bool) :
  is_mapping_flags f → f ≠ 0 → EPT_flags (EPT_new_page p f h) = EPT_fl_view f.
Proof.
  intros Hf Hne. unfold EPT_flags, EPT_new_page. bitflags_simpl.
  rewrite land_lor_drop_r by reflexivity.
  rewrite EPT_to_mapping_eq, EPT_from_mapping_eq.
  unfold is_mapping_flags in Hf. enum_range 32%nat f Hf; destruct h; by vm_compute.
Qed.

#[global] Instance EPTEntry_laws : GenericPTELaws EPTEntry (frame_ok 52) EPT_fl_ok EPT_fl_view.
Proof.
  assert (∀ p, frame_ok 52 p → p .& EPT_PHYS_ADDR_MASK = p) as Hpa.
  { intros p [??]. by apply (land_field p 12 52). }
  assert (∀ f (h : bool), is_mapping_flags f →
    (EPT_flags_from_mapping f .| (if h then EPT_HUGE_PAGE else 0)) .& EPT_PHYS_ADDR_MASK = 0) as Hattr.
  { intros f h Hf. rewrite EPT_from_mapping_eq. unfold is_mapping_flags in Hf.
    enum_range 32%nat f Hf; destruct h; by vm_compute. }
  split; simpl.
  - done.
  - done.
  - done.
  - intros p _. unfold EPT_new_table. bitflags_simpl. by apply lor_nonzero_l.
  - intros p _. unfold EPT_is_present, EPT_new_table. bitflags_simpl.
    by rewrite land_lor_drop_r.
  - intros p _. unfold EPT_is_huge, EPT_new_table. bitflags_simpl.
    by rewrite land_lor_drop_r.
  - intros p Hp. unfold EPT_paddr, EPT_new_table. bitflags_simpl.
    unfold PhysAddr_from, PhysAddr_as_usize. rewrite land_lor_drop_l by done. auto.
  - intros p f h _ [Hf Hrwx]. unfold EPT_new_page. bitflags_simpl.
    apply lor_nonzero_l, lor_nonzero_l. rewrite EPT_from_mapping_eq.
    unfold is_mapping_flags in Hf.
    enum_range 32%nat f Hf; first [by destruct Hrwx|by vm_compute].
  - intros p f h Hp [Hf _]. unfold EPT_paddr, EPT_new_page. bitflags_simpl.
    unfold PhysAddr_from, PhysAddr_as_usize.
    rewrite land_lor_drop_l by auto. auto.
  - intros p f h _ [? Hrwx]. f_equal. apply EPT_page_flags_lemma; [done|].
    by intros ->.
  - intros p f _ [Hf _]. unfold EPT_is_huge, EPT_new_page. bitflags_simpl.
    rewrite land_lor_drop_r by reflexivity. rewrite EPT_from_mapping_eq.
    unfold is_mapping_flags in Hf. enum_range 32%nat f Hf; by vm_compute.
Qed.

End ept_laws.

Section a64_laws.
Context `{BFL : BitflagsLaws}.

(** The flags an AArch64 entry gives back.  With the [hv] feature the
    execute-never bits are left clear and user pages are made read-only. *)
Definition A64_fl_view (hv : bool) (f : Z) : Z :=
  if hv then
    if f .& MF_USER =? 0 then f .| MF_EXECUTE
    else Z.ldiff f MF_WRITE .| MF_EXECUTE
  else f.

Lemma A64_from_mapping_eq (hv : bool) (f : Z) :
  A64_flags_from_mapping hv f =
    let attr := (if f .& MF_DEVICE =? MF_DEVICE then 0 else 2 ^ 2 .| (2 ^ 8 .| 2 ^ 9))
      .| (if f .& MF_READ =? MF_READ then 2 ^ 0 else 0)
      .| (if negb (f .& MF_WRITE =? MF_WRITE) then 2 ^ 7 else 0) in
    if f .& MF_USER =? MF_USER then
      if hv then attr .| (2 ^ 7 .| 2 ^ 6 .| 2 ^ 53)
      else attr .| (2 ^ 6 .| 2 ^ 53)
             .| (if negb (f .& MF_EXECUTE =? MF_EXECUTE) then 2 ^ 54 else 0)
    else
      if hv then attr
      else attr .| 2 ^ 54 .| (if negb (f .& MF_EXECUTE =? MF_EXECUTE) then 2 ^ 53 else 0).
Proof. unfold A64_flags_from_mapping. by bitflags_simpl. Qed.

Lemma A64_to_mapping_eq (a : Z) :
  A64_flags_to_mapping a =
    (let flags := 0 .| (if a .& 2 ^ 0 =? 2 ^ 0 then MF_READ else 0)
      .| (if negb (a .& 2 ^ 7 =? 2 ^ 7) then MF_WRITE else 0) in
    let flags := if a .& 2 ^ 6 =? 2 ^ 6
      then flags .| MF_USER .| (if negb (a .& 2 ^ 54 =? 2 ^ 54) then MF_EXECUTE else 0)
      else flags .| (if negb (negb (a .& 2 ^ 53 =? 0)) then MF_EXECUTE else 0) in
    t ← A64_mem_type a;
    Done (flags .| (if bool_decide (t = Device) then MF_DEVICE else 0))).
Proof.
  unfold A64_flags_to_mapping. bitflags_simpl. cbv zeta.
  destruct (A64_mem_type a); simpl; [|done]. by bitflags_simpl.
Qed.

Lemma A64_page_flags_lemma (hv : bool) (p f : Z) (h : bool) :
  is_mapping_flags f → A64_flags (A64_new_page hv p f h) = Done (A64_fl_view hv f).
Proof.
  intros Hf. unfold A64_flags, A64_new_page. bitflags_simpl.
  rewrite land_lor_drop_r by reflexivity.
  rewrite A64_to_mapping_eq, A64_from_mapping_eq.
  unfold is_mapping_flags in Hf. enum_range 32%nat f Hf; destruct h, hv; by vm_compute.
Qed.

#[global] Instance A64PTE_laws (hv : bool) :
  GenericPTELaws (A64PTE hv) (frame_ok 48) is_mapping_flags (A64_fl_view hv).
Proof.
  assert (∀ p, frame_ok 48 p → p .& A64_PHYS_ADDR_MASK = p) as Hpa.
  { intros p [??]. by apply (land_field p 12 48). }
  assert (∀ f (h : bool), is_mapping_flags f →
    (A64_flags_from_mapping hv f .| A64_AF .| (if negb h then A64_NON_BLOCK else 0))
      .& A64_PHYS_ADDR_MASK = 0) as Hattr.
  { intros f h Hf. rewrite A64_from_mapping_eq. unfold is_mapping_flags in Hf.
    enum_range 32%nat f Hf; destruct h, hv; by vm_compute. }
  split; simpl.
  - done.
  - done.
  - unfold A64_is_present. by bitflags_simpl.
  - intros p _. unfold A64_new_table. bitflags_simpl. by apply lor_nonzero_l.
  - intros p _. unfold A64_is_present, A64_new_table. bitflags_simpl.
    by rewrite land_lor_drop_r.
  - intros p _. unfold A64_is_huge, A64_new_table. bitflags_simpl.
    by rewrite land_lor_drop_r.
  - intros p Hp. unfold A64_paddr, A64_new_table. bitflags_simpl.
    unfold PhysAddr_from, PhysAddr_as_usize. rewrite land_lor_drop_l by done. auto.
  - intros p f h _ Hf. unfold A64_new_page. bitflags_simpl.
    apply lor_nonzero_l, lor_nonzero_l. rewrite Z.lor_comm. by apply lor_nonzero_l.
  - intros p f h Hp Hf. unfold A64_paddr, A64_new_page. bitflags_simpl.
    unfold PhysAddr_from, PhysAddr_as_usize. rewrite land_lor_drop_l by auto. auto.
  - intros p f h _ Hf. by apply A64_page_flags_lemma.
  - intros p f _ Hf. unfold A64_is_huge, A64_new_page. bitflags_simpl.
    rewrite land_lor_drop_r by reflexivity. rewrite A64_from_mapping_eq.
    unfold is_mapping_flags in Hf. enum_range 32%nat f Hf; destruct hv; by vm_compute.
Qed.

End a64_laws.

Section rv_laws.
Context `{BFL : BitflagsLaws}.

(** RISC-V has no device attribute. *)
Definition RV_fl_view (f : Z) : Z := Z.ldiff f MF_DEVICE.

(** An entry with neither R nor X is a pointer to the next table. *)
Definition RV_fl_ok (f : Z) : Prop :=
  is_mapping_flags f ∧ f .& (MF_READ .| MF_EXECUTE) ≠ 0.

Lemma RV_from_mapping_eq (f : Z) :
  RV_flags_from_mapping f =
    if f =? 0 then 0 else
    2 ^ 0 .| (if f .& MF_READ =? MF_READ then 2 ^ 1 else 0)
          .| (if f .& MF_WRITE =? MF_WRITE then 2 ^ 2 else 0)
          .| (if f .& MF_EXECUTE =? MF_EXECUTE then 2 ^ 3 else 0)
          .| (if f .& MF_USER =? MF_USER then 2 ^ 4 else 0).
Proof. unfold RV_flags_from_mapping. by bitflags_simpl. Qed.

Lemma RV_to_mapping_eq (f : Z) :
  RV_flags_to_mapping f =
    0 .| (if f .& 2 ^ 1 =? 2 ^ 1 then MF_READ else 0)
      .| (if f .& 2 ^ 2 =? 2 ^ 2 then MF_WRITE else 0)
      .| (if f .& 2 ^ 3 =? 2 ^ 3 then MF_EXECUTE else 0)
      .| (if f .& 2 ^ 4 =? 2 ^ 4 then MF_USER else 0).
Proof. unfold RV_flags_to_mapping. by bitflags_simpl. Qed.

Lemma RV_page_flags_lemma (p f : Z) (h : bool) :
  RV_fl_ok f → RV_flags (RV_new_page p f h) = RV_fl_view f.
Proof.
  intros [Hf Hrx]. unfold RV_flags, RV_new_page. bitflags_simpl.
  rewrite land_lor_drop_r by reflexivity.
  rewrite RV_to_mapping_eq, RV_from_mapping_eq. unfold is_mapping_flags in Hf.
  enum_range 32%nat f Hf; first [by destruct Hrx|by vm_compute].
Qed.

Lemma RV_addr_field (p : Z) :
  frame_ok 56 p → ((p .>> 2) .& RV_PHYS_ADDR_MASK) .<< 2 = p.
Proof.
  intros [[q ->] Hp]. rewrite Z.shiftr_div_pow2 by done.
  replace (q * 2 ^ 12) with ((q * 2 ^ 10) * 2 ^ 2) by lia.
  rewrite Z.div_mul by done. unfold RV_PHYS_ADDR_MASK.
  rewrite (land_field _ 10 54) by (first [lia|by exists q]).
  unfold wshl. rewrite Z.shiftl_mul_pow2 by done. apply wrap_small. lia.
Qed.

#[global] Instance Rv64PTE_laws : GenericPTELaws Rv64PTE (frame_ok 56) RV_fl_ok RV_fl_view.
Proof.
  assert (∀ f, is_mapping_flags f →
    (RV_flags_from_mapping f .| RV_A .| RV_D) .& RV_PHYS_ADDR_MASK = 0) as Hattr.
  { intros f Hf. rewrite RV_from_mapping_eq. unfold is_mapping_flags in Hf.
    enum_range 32%nat f Hf; by vm_compute. }
  split; simpl.
  - done.
  - done.
  - unfold RV_is_present. by bitflags_simpl.
  - intros p _. by apply lor_nonzero_l.
  - intros p _. unfold RV_is_present, RV_new_table. bitflags_simpl.
    by rewrite land_lor_drop_r.
  - intros p _. unfold RV_is_huge, RV_new_table. bitflags_simpl.
    by rewrite land_lor_drop_r.
  - intros p Hp. unfold RV_paddr, RV_new_table.
    unfold PhysAddr_from, PhysAddr_as_usize. rewrite land_lor_drop_l by done.
    by apply RV_addr_field.
  - intros p f h _ _. unfold RV_new_page. bitflags_simpl.
    apply lor_nonzero_l. rewrite Z.lor_comm. by apply lor_nonzero_l.
  - intros p f h Hp [Hf _]. unfold RV_paddr, RV_new_page. bitflags_simpl.
    unfold PhysAddr_from, PhysAddr_as_usize. rewrite land_lor_drop_l by auto.
    by apply RV_addr_field.
  - intros p f h _ Hf. f_equal. by apply RV_page_flags_lemma.
  - intros p f _ [Hf Hrx]. unfold RV_is_huge, RV_new_page. bitflags_simpl.
    rewrite land_lor_drop_r by reflexivity. rewrite RV_from_mapping_eq.
    unfold is_mapping_flags in Hf. enum_range 32%nat f Hf; first [by destruct Hrx|by vm_compute].
Qed.

End rv_laws.

(** ** Properties *)

(** On every entry format (x86-64, the extended tables, AArch64 with and
    without the [hv] feature and RISC-V), a page entry built for a frame the
    format can hold and for flags it can express is in use, gives back the
    frame, and gives back the flags up to what the format drops: x86 pages
    are always readable, the extended tables have no user bit, RISC-V has no
    device bit, AArch64 keeps everything unless [hv] is on. *)
Theorem new_page_roundtrip `{BitflagsLaws, !BitField, !BitFieldLaws, !PageTableFlags,
    !PageTableFlagsLaws} (p f : Z) (h hv : bool) :
  is_mapping_flags f → (2 ^ 12 | p) → 0 ≤ p < 2 ^ 48 → f .& (MF_READ .| MF_EXECUTE) ≠ 0 →
  (X64_is_unused (X64_new_page p f h) = false ∧
   X64_paddr (X64_new_page p f h) = p ∧
   X64_flags (X64_new_page p f h) = MF_READ .| f) ∧
  (EPT_is_unused (EPT_new_page p f h) = false ∧
   EPT_paddr (EPT_new_page p f h) = p ∧
   EPT_flags (EPT_new_page p f h) = Z.ldiff f MF_USER) ∧
  (A64_is_unused (A64_new_page hv p f h) = false ∧
   A64_paddr (A64_new_page hv p f h) = p ∧
   A64_flags (A64_new_page hv p f h) = Done (A64_fl_view hv f) ∧
   A64_flags (A64_new_page false p f h) = Done f) ∧
  (RV_is_unused (RV_new_page p f h) = false ∧
   RV_paddr (RV_new_page p f h) = p ∧
   RV_flags (RV_new_page p f h) = Z.ldiff f MF_DEVICE).
Proof.
  intros Hf Hd Hp Hrx.
  assert (∀ b, 48 ≤ b → frame_ok b p) as Hfr.
  { intros b Hb. split; [done|]. split; [lia|].
    eapply Z.lt_le_trans; [apply Hp|]. apply Z.pow_le_mono_r; lia. }
  assert (X64_fl_ok f) as HX by (split; [done|by intros ->]).
  assert (EPT_fl_ok f) as HE.
  { split; [done|]. unfold is_mapping_flags in Hf.
    enum_range 32%nat f Hf; first [by destruct Hrx|by vm_compute]. }
  assert (RV_fl_ok f) as HR by done.
  split_and!.
  - apply Z.eqb_neq, (law_page_nonzero (PTE := X64PTE) p f h); auto with lia.
  - apply (law_page_paddr (PTE := X64PTE) p f h); auto with lia.
  - apply X64_page_flags_lemma; [done|by intros ->].
  - apply Z.eqb_neq, (law_page_nonzero (PTE := EPTEntry) p f h); auto with lia.
  - apply (law_page_paddr (PTE := EPTEntry) p f h); auto with lia.
  - apply EPT_page_flags_lemma; [done|by intros ->].
  - apply Z.eqb_neq, (law_page_nonzero (PTE := A64PTE hv) p f h); auto with lia.
  - apply (law_page_paddr (PTE := A64PTE hv) p f h); auto with lia.
  - by apply A64_page_flags_lemma.
  - by apply (A64_page_flags_lemma false).
  - apply Z.eqb_neq, (law_page_nonzero (PTE := Rv64PTE) p f h); auto with lia.
  - apply (law_page_paddr (PTE := Rv64PTE) p f h); auto with lia.
  - by apply RV_page_flags_lemma.
Qed.

Lemma new_page_roundtrip_witness :
  X64_flags (X64_new_page 0x1000 MF_READ false) = MF_READ .| MF_READ.
Proof.
  apply (new_page_roundtrip 0x1000 MF_READ false true);
    [by split|by exists 1|by split|done].
Defined.
