(* ===== verification/PageTable.v ===== *)
(** * The generic page table ([crates/page_table])

    [PageTable64<M, PTE, IF>] of [src/bits64.rs] over an entry format [PTE]
    (a [GenericPTE] of [PageTableEntry.v]), a metadata [M] and a frame
    provider [IF], both classes here as they are traits in [src/lib.rs].

    The tables live in memory: [ps_mem] gives the 64-bit word at an (8-byte
    aligned) virtual address, a table is the virtual address [phys_to_virt]
    gives for its frame and a reference [&mut PTE] is the address of the
    entry.  The frame provider's own state is [ps_alloc]. *)

From S2P Require Import Prelude MemoryAddr Extern PageTableEntry.
From stdpp Require Import base numbers list gmap.

Open Scope Z_scope.
Open Scope word_scope.

Inductive PagingError :=
| NoMemory
| NotAligned
| NotMapped
| AlreadyMapped
| MappedToHugePage.

#[global] Instance PagingError_eq_dec : EqDecision PagingError.
Proof. solve_decision. Defined.

Inductive PageSize :=
| Size4K
| Size2M
| Size1G.

#[global] Instance PageSize_eq_dec : EqDecision PageSize.
Proof. solve_decision. Defined.

Definition PageSize_as_usize (s : PageSize) : Z :=
  match s with
  | Size4K => 0x1000
  | Size2M => 0x20_0000
  | Size1G => 0x4000_0000
  end.

Definition PageSize_is_huge (s : PageSize) : bool :=
  match s with
  | Size1G | Size2M => true
  | Size4K => false
  end.

(** ** The traits *)

Class PagingMetaData := {
  LEVELS : Z;
  PA_MAX_BITS : Z;
  VA_MAX_BITS : Z;
  (** The two provided methods, which an implementation may override. *)
  paddr_is_valid : Z → bool;
  vaddr_is_valid : Z → bool;
}.

Definition PA_MAX_ADDR (pa_max_bits : Z) : Z := (1 .<< pa_max_bits) ⊖ 1.

Definition paddr_is_valid_default (pa_max_bits paddr : Z) : bool :=
  paddr <=? PA_MAX_ADDR pa_max_bits.

Definition vaddr_is_valid_default (va_max_bits vaddr : Z) : bool :=
  let top_mask := usize_max .<< (va_max_bits ⊖ 1) in
  (vaddr .& top_mask =? 0) || (vaddr .& top_mask =? top_mask).

Definition X64PagingMetaData : PagingMetaData := {|
  LEVELS := 4; PA_MAX_BITS := 52; VA_MAX_BITS := 48;
  paddr_is_valid := paddr_is_valid_default 52;
  vaddr_is_valid := vaddr_is_valid_default 48;
|}.

Definition A64PagingMetaData : PagingMetaData := {|
  LEVELS := 4; PA_MAX_BITS := 48; VA_MAX_BITS := 48;
  paddr_is_valid := paddr_is_valid_default 48;
  vaddr_is_valid vaddr :=
    let top_bits := vaddr .>> 48 in (top_bits =? 0) || (top_bits =? 0xffff);
|}.

Definition Sv39MetaData : PagingMetaData := {|
  LEVELS := 3; PA_MAX_BITS := 56; VA_MAX_BITS := 39;
  paddr_is_valid := paddr_is_valid_default 56;
  vaddr_is_valid := vaddr_is_valid_default 39;
|}.

Definition Sv48MetaData : PagingMetaData := {|
  LEVELS := 4; PA_MAX_BITS := 56; VA_MAX_BITS := 48;
  paddr_is_valid := paddr_is_valid_default 56;
  vaddr_is_valid := vaddr_is_valid_default 48;
|}.

(** The frame provider.  The Rust functions are static and act on the global
    allocator, whose state is the explicit argument [A]. *)
Class PagingIf (A : Type) := {
  alloc_frame : A → option (PhysAddr * A);
  alloc_frames : Z → A → option (PhysAddr * A);
  dealloc_frame : PhysAddr → A → A;
  phys_to_virt : PhysAddr → VirtAddr;
}.

(** What the page table relies on: [owned a] are the frames handed out and not
    yet returned in the allocator state [a]. *)
Class PagingIfLaws {A} (IF : PagingIf A) (owned : A → gset Z) (pa_ok : Z → Prop) : Prop := {
  law_alloc_fresh a p a' :
    alloc_frame a = Some (p, a') → (p ∉ owned a) ∧ owned a' = {[p]} ∪ owned a ∧ pa_ok p;
  law_dealloc a p : p ∈ owned a → owned (dealloc_frame p a) = (owned a) ∖ {[p]};
  law_frames_disjoint p q i j :
    pa_ok p → pa_ok q → 0 ≤ i < 0x1000 → 0 ≤ j < 0x1000 →
    phys_to_virt p + i = phys_to_virt q + j → p = q;
}.

(** ** Memory *)

Definition mem_write (m : Z → Z) (a w : Z) : Z → Z := λ x, if x =? a then w else m x.

(** [core::ptr::write_bytes(ptr, 0, n)]. *)
Definition mem_zero (m : Z → Z) (ptr n : Z) : Z → Z := λ x,
  if (ptr <=? x) && (x <? ptr + n) then 0 else m x.

Record PageTable64 := {
  root_paddr : PhysAddr;
  intrm_tables : list PhysAddr;
}.

Record world (A : Type) := {
  w_mem : Z → Z;
  w_alloc : A;
}.
Arguments w_mem {A} _.
Arguments w_alloc {A} _.

Record pstate (A : Type) := {
  ps_mem : Z → Z;
  ps_alloc : A;
  ps_pt : PageTable64;
}.
Arguments ps_mem {A} _.
Arguments ps_alloc {A} _.
Arguments ps_pt {A} _.

Definition ENTRY_COUNT : Z := 512.

Definition p4_index (vaddr : VirtAddr) : Z :=
  (VirtAddr_as_usize vaddr .>> (12 + 27)) .& (ENTRY_COUNT - 1).
Definition p3_index (vaddr : VirtAddr) : Z :=
  (VirtAddr_as_usize vaddr .>> (12 + 18)) .& (ENTRY_COUNT - 1).
Definition p2_index (vaddr : VirtAddr) : Z :=
  (VirtAddr_as_usize vaddr .>> (12 + 9)) .& (ENTRY_COUNT - 1).
Definition p1_index (vaddr : VirtAddr) : Z :=
  (VirtAddr_as_usize vaddr .>> 12) .& (ENTRY_COUNT - 1).

(** [&mut table[i]]: the address of an entry of the table at [table]. *)
Definition entry_at (table i : Z) : Z := table + 8 * i.

Section page_table.
Context {PTE : GenericPTE} {MD : PagingMetaData} {A : Type} {IF : PagingIf A}.

(** The private functions take no [self]; they run on the memory and the
    allocator. *)
Definition alloc_table : stm (world A) PagingError PhysAddr := λ w,
  match alloc_frame (w_alloc w) with
  | Some (paddr, a) =>
      let ptr := phys_to_virt paddr in
      Done ({| w_mem := mem_zero (w_mem w) ptr PAGE_SIZE_4K; w_alloc := a |}, Ok paddr)
  | None => Done (w, Err NoMemory)
  end.

Definition alloc_guest_page_table : stm (world A) PagingError PhysAddr := λ w,
  match alloc_frames 4 (w_alloc w) with
  | Some (paddr, a) =>
      let ptr := phys_to_virt paddr in
      Done ({| w_mem := mem_zero (w_mem w) ptr (PAGE_SIZE_4K ⊗ 4); w_alloc := a |}, Ok paddr)
  | None => Done (w, Err NoMemory)
  end.

Definition try_new : stm (world A) PagingError PageTable64 :=
  root_paddr ← alloc_table;
  mret {| root_paddr := root_paddr; intrm_tables := [root_paddr] |}.

Definition try_new_gpt : stm (world A) PagingError PageTable64 :=
  root_paddr ← alloc_guest_page_table;
  mret {| root_paddr := root_paddr;
          intrm_tables := [root_paddr; PhysAddr_add root_paddr 0x1000;
                           PhysAddr_add root_paddr 0x2000; PhysAddr_add root_paddr 0x3000] |}.

Definition table_of (paddr : PhysAddr) : Z := phys_to_virt paddr.
Definition table_of_mut (paddr : PhysAddr) : Z := phys_to_virt paddr.

Definition next_table_mut (entry : Z) : result PagingError Z :=
  if negb (pte_is_present entry) then Err NotMapped
  else if pte_is_huge entry then Err MappedToHugePage
  else Ok (table_of_mut (pte_paddr entry)).

Definition read_entry (a : Z) : stm (pstate A) PagingError Z := gets (λ s, ps_mem s a).

Definition write_entry (a w : Z) : stm (pstate A) PagingError unit :=
  modify (λ s, {| ps_mem := mem_write (ps_mem s) a w; ps_alloc := ps_alloc s;
                  ps_pt := ps_pt s |}).

(** Runs code without [self] inside a method. *)
Definition on_world {T} (f : stm (world A) PagingError T) : stm (pstate A) PagingError T := λ s,
  match f {| w_mem := ps_mem s; w_alloc := ps_alloc s |} with
  | Done (w, r) => Done ({| ps_mem := w_mem w; ps_alloc := w_alloc w; ps_pt := ps_pt s |}, r)
  | Panic => Panic
  end.

Definition push_intrm_table (paddr : PhysAddr) : stm (pstate A) PagingError unit :=
  modify (λ s, {| ps_mem := ps_mem s; ps_alloc := ps_alloc s;
    ps_pt := {| root_paddr := root_paddr (ps_pt s);
                intrm_tables := intrm_tables (ps_pt s) ++ [paddr] |} |}).

Definition next_table_mut_or_create (entry : Z) : stm (pstate A) PagingError Z :=
  e ← read_entry entry;
  if pte_is_unused e then
    paddr ← on_world alloc_table;
    _ ← push_intrm_table paddr;
    _ ← write_entry entry (pte_new_table paddr);
    mret (table_of_mut paddr)
  else of_result (next_table_mut e).

Definition get_root : stm (pstate A) PagingError Z :=
  gets (λ s, table_of_mut (root_paddr (ps_pt s))).

Definition get_entry_mut (vaddr : VirtAddr) : stm (pstate A) PagingError (Z * PageSize) :=
  p3 ← (if LEVELS =? 3 then get_root
        else if LEVELS =? 4 then
          p4 ← get_root;
          p4e ← read_entry (entry_at p4 (p4_index vaddr));
          of_result (next_table_mut p4e)
        else panic);
  let p3e := entry_at p3 (p3_index vaddr) in
  e3 ← read_entry p3e;
  if pte_is_huge e3 then mret (p3e, Size1G) else
  p2 ← of_result (next_table_mut e3);
  let p2e := entry_at p2 (p2_index vaddr) in
  e2 ← read_entry p2e;
  if pte_is_huge e2 then mret (p2e, Size2M) else
  p1 ← of_result (next_table_mut e2);
  mret (entry_at p1 (p1_index vaddr), Size4K).

Definition get_entry_mut_or_create (vaddr : VirtAddr) (page_size : PageSize) :
    stm (pstate A) PagingError Z :=
  p3 ← (if LEVELS =? 3 then get_root
        else if LEVELS =? 4 then
          p4 ← get_root;
          next_table_mut_or_create (entry_at p4 (p4_index vaddr))
        else panic);
  let p3e := entry_at p3 (p3_index vaddr) in
  if bool_decide (page_size = Size1G) then mret p3e else
  p2 ← next_table_mut_or_create p3e;
  let p2e := entry_at p2 (p2_index vaddr) in
  if bool_decide (page_size = Size2M) then mret p2e else
  p1 ← next_table_mut_or_create p2e;
  mret (entry_at p1 (p1_index vaddr)).

Definition map (vaddr : VirtAddr) (target : PhysAddr) (page_size : PageSize) (flags : Z) :
    stm (pstate A) PagingError unit :=
  entry ← get_entry_mut_or_create vaddr page_size;
  e ← read_entry entry;
  if negb (pte_is_unused e) then throw AlreadyMapped else
  write_entry entry
    (pte_new_page (PhysAddr_align_down target (PageSize_as_usize page_size)) flags
       (PageSize_is_huge page_size)).

Definition unmap (vaddr : VirtAddr) : stm (pstate A) PagingError (PhysAddr * PageSize) :=
  '(entry, size) ← get_entry_mut vaddr;
  e ← read_entry entry;
  if pte_is_unused e then throw NotMapped else
  let paddr := pte_paddr e in
  _ ← write_entry entry (pte_clear e);
  mret (paddr, size).

Definition query (vaddr : VirtAddr) : stm (pstate A) PagingError (PhysAddr * Z * PageSize) :=
  '(entry, size) ← get_entry_mut vaddr;
  e ← read_entry entry;
  if pte_is_unused e then throw NotMapped else
  let off := VirtAddr_align_offset vaddr (PageSize_as_usize size) in
  flags ← of_outcome (pte_flags e);
  mret (PhysAddr_add (pte_paddr e) off, flags, size).

(** The page size chosen by one round of [map_region]. *)
Definition region_page_size (vaddr : VirtAddr) (paddr : PhysAddr) (size : Z)
    (allow_huge : bool) : PageSize :=
  if allow_huge then
    if VirtAddr_is_aligned vaddr (PageSize_as_usize Size1G) &&
       PhysAddr_is_aligned paddr (PageSize_as_usize Size1G) &&
       (PageSize_as_usize Size1G <=? size)
    then Size1G
    else if VirtAddr_is_aligned vaddr (PageSize_as_usize Size2M) &&
       PhysAddr_is_aligned paddr (PageSize_as_usize Size2M) &&
       (PageSize_as_usize Size2M <=? size)
    then Size2M
    else Size4K
  else Size4K.

Fixpoint map_region_loop (fuel : nat) (vaddr : VirtAddr) (paddr : PhysAddr) (size flags : Z)
    (allow_huge : bool) : stm (pstate A) PagingError unit :=
  if size >? 0 then
    match fuel with
    | O => panic
    | S fuel =>
        let page_size := region_page_size vaddr paddr size allow_huge in
        _ ← map vaddr paddr page_size flags;
        map_region_loop fuel (VirtAddr_add vaddr (PageSize_as_usize page_size))
          (PhysAddr_add paddr (PageSize_as_usize page_size))
          (size ⊖ PageSize_as_usize page_size) flags allow_huge
    end
  else mret tt.

(** Each round of the loops below takes at least 4K off [size]. *)
Definition region_fuel (size : Z) : nat := S (Z.to_nat (size `div` 0x1000)).

Definition map_region (vaddr : VirtAddr) (paddr : PhysAddr) (size flags : Z)
    (allow_huge : bool) : stm (pstate A) PagingError unit :=
  if negb (VirtAddr_is_aligned vaddr (PageSize_as_usize Size4K))
     || negb (PhysAddr_is_aligned paddr (PageSize_as_usize Size4K))
     || negb (is_aligned size (PageSize_as_usize Size4K))
  then throw NotAligned
  else map_region_loop (region_fuel size) vaddr paddr size flags allow_huge.

Fixpoint unmap_region_loop (fuel : nat) (vaddr : VirtAddr) (size : Z) :
    stm (pstate A) PagingError unit :=
  if size >? 0 then
    match fuel with
    | O => panic
    | S fuel =>
        '(_, page_size) ← unmap vaddr;
        _ ← of_outcome (assert_true (VirtAddr_is_aligned vaddr (PageSize_as_usize page_size)));
        _ ← of_outcome (assert_true (PageSize_as_usize page_size <=? size));
        unmap_region_loop fuel (VirtAddr_add vaddr (PageSize_as_usize page_size))
          (size ⊖ PageSize_as_usize page_size)
    end
  else mret tt.

Definition unmap_region (vaddr : VirtAddr) (size : Z) : stm (pstate A) PagingError unit :=
  unmap_region_loop (region_fuel size) vaddr size.

(** [walk_recursive] calls [func] on every present entry it meets; [func] has
    no access to the table, so the model returns the list of its arguments
    (level, index, address, entry), also when the walk stops at an error.
    [depth] is the number of tables left on a path, [todo] the entries of the
    slice not yet visited. *)
Fixpoint walk_recursive (m : Z → Z) (depth : nat) (table level start_vaddr limit : Z) :
    list (Z * Z * VirtAddr * Z) * result PagingError unit :=
  match depth with
  | O => ([], Ok tt)
  | S depth =>
      (fix entries (todo : list Z) (n : Z) :=
        match todo with
        | [] => ([], Ok tt)
        | i :: todo =>
            let entry := m (entry_at table i) in
            let vaddr := VirtAddr_add start_vaddr (i .<< (12 + (LEVELS - 1 - level) * 9)) in
            if pte_is_present entry then
              let call := (level, i, vaddr, entry) in
              let '(below, r) :=
                if (level <? LEVELS - 1) && negb (pte_is_huge entry) then
                  match next_table_mut entry with
                  | Ok t => walk_recursive m depth t (level + 1) vaddr limit
                  | Err e => ([], Err e)
                  end
                else ([], Ok tt) in
              match r with
              | Ok _ =>
                  if limit <=? n + 1 then (call :: below, Ok tt)
                  else let '(rest, r) := entries todo (n + 1) in (call :: below ++ rest, r)
              | Err e => (call :: below, Err e)
              end
            else entries todo n
        end) (Z.of_nat <$> seq 0 512) 0
  end.

Definition walk (limit : Z) (s : pstate A) :
    list (Z * Z * VirtAddr * Z) * result PagingError unit :=
  walk_recursive (ps_mem s) (Z.to_nat LEVELS) (table_of (root_paddr (ps_pt s))) 0
    (VirtAddr_from 0) limit.

(** [Drop::drop]. *)
Definition drop_table (s : pstate A) : A :=
  foldl (λ a frame, dealloc_frame frame a) (ps_alloc s) (intrm_tables (ps_pt s)).

End page_table.
