(* ===== verification/PageTableSpec.v ===== *)
(** * Correctness of the page table

    The invariant [pt_inv] relates the tables in memory to a ghost map
    [owner] from the frame of a table to the path of indices that leads to it
    from the root.  The methods of [PageTable.v], unrolled level by level in
    the source, are first shown equal to recursive walks over the list of
    indices of an address; the theorems at the end say what [map], [unmap],
    [map_region], [unmap_region] and [drop] do to the translation [query]
    computes, for every entry format and any number of levels the code
    accepts. *)

From S2P Require Import Prelude MemoryAddr Extern PageTableEntry PageTable.
From stdpp Require Import base numbers list gmap.

Open Scope Z_scope.
Open Scope word_scope.

#[local] Arguments entry_at : simpl never.

(** ** Reference definitions *)

(** The addresses a table with this many levels distinguishes. *)
Definition va_span `{PagingMetaData} : Z := 2 ^ (12 + 9 * LEVELS).

(** Two addresses in one page of size [sz]. *)
Definition same_page `{PagingMetaData} (sz : PageSize) (va va' : Z) : bool :=
  (va mod va_span) `div` PageSize_as_usize sz =? (va' mod va_span) `div` PageSize_as_usize sz.

(** The addresses of a region, up to the bits no table distinguishes. *)
Definition in_region `{PagingMetaData} (va size va' : Z) : bool :=
  (va' - va) mod va_span <? size.

(** The indices of an address from the root table down. *)
Definition indices `{PagingMetaData} (va : VirtAddr) : list Z :=
  if LEVELS =? 4 then [p4_index va; p3_index va; p2_index va; p1_index va]
  else [p3_index va; p2_index va; p1_index va].

(** The size of a page whose entry has [n] more levels below it. *)
Definition rest_size (n : nat) : PageSize :=
  match n with O => Size4K | 1%nat => Size2M | _ => Size1G end.

Definition size_rest (sz : PageSize) : nat :=
  match sz with Size4K => 0 | Size2M => 1 | Size1G => 2 end.

Section spec.
Context {PTE : GenericPTE} {MD : PagingMetaData} {A : Type} {IF : PagingIf A}.

(** [get_entry_mut] and [get_entry_mut_or_create] by recursion on the indices. *)
Fixpoint lookup_entry (m : Z → Z) (table : Z) (idxs : list Z) :
    result PagingError (Z * PageSize) :=
  match idxs with
  | [] => Err NotMapped
  | i :: rest =>
      let a := entry_at table i in
      match rest with
      | [] => Ok (a, Size4K)
      | _ =>
          if bool_decide (length rest ≤ 2)%nat && pte_is_huge (m a)
          then Ok (a, rest_size (length rest))
          else t ← next_table_mut (m a); lookup_entry m t rest
      end
  end.

Fixpoint create_entry (table : Z) (idxs : list Z) (stop : nat) :
    stm (pstate A) PagingError Z :=
  match idxs with
  | [] => panic
  | i :: rest =>
      let a := entry_at table i in
      if bool_decide (length rest = stop) then mret a
      else t ← next_table_mut_or_create a; create_entry t rest stop
  end.

(** The entry in use for a list of indices, with the size of its page. *)
Definition tr (m : Z → Z) (p : PhysAddr) (idxs : list Z) : option (Z * PageSize) :=
  match lookup_entry m (phys_to_virt p) idxs with
  | Ok (a, sz) => if m a =? 0 then None else Some (m a, sz)
  | Err _ => None
  end.

Context {pa_ok fl_ok : Z → Prop} {fl_view : Z → Z} {owned : A → gset Z}.

Definition L : nat := Z.to_nat LEVELS.

Definition in_table (i : Z) : Prop := 0 ≤ i < 512.

(** What entry [i] of the table at [path] may hold: nothing, a page, or a
    pointer to the table at [path ++ [i]]. *)
Definition page_wf (path : list Z) (e : Z) : Prop :=
  ∃ p f, (length path < L ≤ length path + 3)%nat ∧ pa_ok p ∧ fl_ok f ∧
    e = pte_new_page p f (bool_decide (S (length path) < L)%nat).

Definition table_wf (owner : gmap Z (list Z)) (path : list Z) (i e : Z) : Prop :=
  ∃ q, (S (length path) < L)%nat ∧ pa_ok q ∧ e = pte_new_table q ∧
    owner !! q = Some (path ++ [i]).

Definition entry_wf (owner : gmap Z (list Z)) (path : list Z) (i e : Z) : Prop :=
  e = 0 ∨ page_wf path e ∨ table_wf owner path i e.

Definition tables_wf (owner : gmap Z (list Z)) (m : Z → Z) : Prop :=
  ∀ p path, owner !! p = Some path →
    pa_ok p ∧ (length path < L)%nat ∧
    ∀ i, in_table i → entry_wf owner path i (m (entry_at (phys_to_virt p) i)).

Record pt_inv (owner : gmap Z (list Z)) (s : pstate A) : Prop := {
  inv_root : owner !! root_paddr (ps_pt s) = Some [];
  inv_tables : tables_wf owner (ps_mem s);
  inv_dom : dom owner = list_to_set (intrm_tables (ps_pt s));
  inv_nodup : NoDup (intrm_tables (ps_pt s));
  inv_owned : dom owner ⊆ owned (ps_alloc s);
}.

Definition pt_ok (s : pstate A) : Prop := ∃ owner, pt_inv owner s.

(** Following table pointers along [idxs]. *)
Inductive reaches (m : Z → Z) : Z → list Z → Z → Prop :=
| reaches_nil p : reaches m p [] p
| reaches_cons p i q rest r :
    pa_ok q → m (entry_at (phys_to_virt p) i) = pte_new_table q →
    reaches m q rest r → reaches m p (i :: rest) r.

(** [m'] is [m] on the tables of [owner] but for entry [j] of [q]. *)
Definition agree_except (owner : gmap Z (list Z)) (m m' : Z → Z) (q j : Z) : Prop :=
  ∀ p path i, owner !! p = Some path → in_table i → (p, i) ≠ (q, j) →
    m' (entry_at (phys_to_virt p) i) = m (entry_at (phys_to_virt p) i).

Definition full (idxs : list Z) : Prop := length idxs = L ∧ Forall in_table idxs.

(** ** Entries and walks *)

Context {PTEL : GenericPTELaws PTE pa_ok fl_ok fl_view}
  {IFL : PagingIfLaws IF owned pa_ok}.

Lemma next_table_table (q : Z) :
  pa_ok q → next_table_mut (pte_new_table q) = Ok (phys_to_virt q).
Proof.
  intros Hq. unfold next_table_mut, table_of_mut.
  by rewrite law_table_present, law_table_huge, law_table_paddr.
Qed.

Lemma next_table_zero : next_table_mut 0 = Err NotMapped.
Proof. unfold next_table_mut. by rewrite law_zero_present. Qed.

Lemma entry_at_inj (p q i j : Z) :
  pa_ok p → pa_ok q → in_table i → in_table j →
  entry_at (phys_to_virt p) i = entry_at (phys_to_virt q) j → p = q ∧ i = j.
Proof.
  unfold entry_at, in_table. intros Hp Hq Hi Hj Heq.
  assert (p = q) as -> by (eapply (law_frames_disjoint p q (8 * i) (8 * j)); eauto; lia).
  split; [done|lia].
Qed.

Lemma lookup_table (m : Z → Z) (p q i : Z) (rest : list Z) :
  pa_ok q → m (entry_at (phys_to_virt p) i) = pte_new_table q → rest ≠ [] →
  lookup_entry m (phys_to_virt p) (i :: rest) = lookup_entry m (phys_to_virt q) rest.
Proof.
  intros Hq Hm Hr. simpl. rewrite Hm, law_table_huge, andb_false_r by done.
  rewrite next_table_table by done. simpl. by destruct rest.
Qed.

Lemma lookup_reaches (m : Z → Z) (p q : Z) (mid rest : list Z) :
  reaches m p mid q → rest ≠ [] →
  lookup_entry m (phys_to_virt p) (mid ++ rest) = lookup_entry m (phys_to_virt q) rest.
Proof.
  induction 1 as [|p i q mid r Hq Hm Hr IH]; intros Hne; [done|].
  simpl app. rewrite (lookup_table m p q) by (auto; by destruct mid, rest). auto.
Qed.

Lemma tr_reaches (m : Z → Z) (p q : Z) (mid rest : list Z) :
  reaches m p mid q → rest ≠ [] → tr m p (mid ++ rest) = tr m q rest.
Proof. intros Hr Hne. unfold tr. by rewrite (lookup_reaches m p q). Qed.

Lemma reaches_snoc (m : Z → Z) (p q r j : Z) (mid : list Z) :
  reaches m p mid q → pa_ok r → m (entry_at (phys_to_virt q) j) = pte_new_table r →
  reaches m p (mid ++ [j]) r.
Proof.
  induction 1 as [p|p i q mid q' Hq Hm Hr IH]; intros Hok Hj; simpl.
  - by apply (reaches_cons m p j r); [..|apply reaches_nil].
  - by apply (reaches_cons m p i q); [..|apply IH].
Qed.

Lemma tr_zero (m : Z → Z) (p i : Z) (rest : list Z) :
  m (entry_at (phys_to_virt p) i) = 0 → tr m p (i :: rest) = None.
Proof.
  intros Hm. unfold tr. destruct rest; simpl; [by rewrite Hm|].
  rewrite Hm, next_table_zero. destruct (_ && _); simpl; [by rewrite Hm|done].
Qed.

Lemma tr_page (m : Z → Z) (p i q f : Z) (rest : list Z) (h : bool) :
  pa_ok q → fl_ok f → m (entry_at (phys_to_virt p) i) = pte_new_page q f h →
  (length rest ≤ 2)%nat → (rest ≠ [] → h = true) →
  tr m p (i :: rest) = Some (pte_new_page q f h, rest_size (length rest)).
Proof.
  intros Hq Hf Hm Hlen Hh. unfold tr. simpl.
  pose proof (law_page_nonzero q f h Hq Hf) as Hnz%Z.eqb_neq.
  destruct rest as [|i' rest]; [by rewrite Hm, Hnz|].
  rewrite Hh in * by done. rewrite Hm, law_page_huge by done.
  rewrite bool_decide_eq_true_2 by done. simpl. by rewrite Hm, Hnz.
Qed.

(** Where the walk from an owned table stops: at an entry that is free or a
    page, with every table on the way owned. *)
Lemma lookup_cases (owner : gmap Z (list Z)) (m : Z → Z) (idxs : list Z) : ∀ p path,
  tables_wf owner m → owner !! p = Some path →
  (length path + length idxs = L)%nat → idxs ≠ [] → Forall in_table idxs →
  (lookup_entry m (phys_to_virt p) idxs = Err NotMapped) ∨
  ∃ mid i rest q,
    let a := entry_at (phys_to_virt q) i in
    idxs = mid ++ i :: rest ∧ reaches m p mid q ∧ owner !! q = Some (path ++ mid) ∧
    (length rest ≤ 2)%nat ∧
    lookup_entry m (phys_to_virt p) idxs = Ok (a, rest_size (length rest)) ∧
    (m a = 0 ∨ page_wf (path ++ mid) (m a)).
Proof.
  induction idxs as [|i rest IH]; [done|].
  intros p path Htab Hp Hlen _ Hall. apply Forall_cons in Hall as [Hi Hall].
  destruct (Htab p path Hp) as (Hpa & Hpl & Hent). specialize (Hent i Hi).
  simpl in Hlen. destruct Hent as [Hz|[Hpg|(q & Hd & Hq & Hm & Hown)]].
  - simpl. destruct rest as [|i' rest].
    { right. exists [], i, [], p. rewrite app_nil_r. split_and!; eauto using reaches_nil. }
    rewrite Hz, next_table_zero.
    destruct (bool_decide_reflect (length (i' :: rest) ≤ 2)%nat); simpl; [|by left].
    destruct (pte_is_huge 0); simpl; [|by left].
    right. exists [], i, (i' :: rest), p. rewrite app_nil_r. split_and!; eauto using reaches_nil.
  - right. exists [], i, rest, p. rewrite app_nil_r.
    pose proof Hpg as (q & f & [??] & Hq & Hf & Hm).
    assert (length rest ≤ 2)%nat by lia.
    split_and!; eauto using reaches_nil. simpl. destruct rest as [|i' rest]; [done|].
    rewrite Hm, bool_decide_eq_true_2 by done.
    rewrite (bool_decide_eq_true_2 (_ < _)%nat) by (simpl in *; lia).
    by rewrite law_page_huge.
  - assert (rest ≠ []) as Hne by (intros ->; simpl in *; lia).
    rewrite (lookup_table m p q) by done.
    destruct (IH q (path ++ [i])) as [?|(mid & j & rest' & r & -> & Hr & Hor & Hl & Hlk & He)];
      try done.
    { rewrite length_app. simpl. lia. }
    { by left. }
    right. exists (i :: mid), j, rest', r. rewrite <- app_assoc in *.
    split_and!; eauto using reaches_cons.
Qed.

(** A walk only depends on the entries of the tables on its path. *)
Lemma tr_frame (owner : gmap Z (list Z)) (m m' : Z → Z) (idxs : list Z) : ∀ p path,
  tables_wf owner m → owner !! p = Some path →
  (length path + length idxs = L)%nat → Forall in_table idxs →
  (∀ q mid i rest, idxs = mid ++ i :: rest → owner !! q = Some (path ++ mid) →
     m' (entry_at (phys_to_virt q) i) = m (entry_at (phys_to_virt q) i)) →
  tr m' p idxs = tr m p idxs.
Proof.
  induction idxs as [|i rest IH]; [done|].
  intros p path Htab Hp Hlen Hall Hagree.
  pose proof (Hagree p [] i rest eq_refl) as Hpi. rewrite app_nil_r in Hpi.
  specialize (Hpi Hp). apply Forall_cons in Hall as [Hi Hall].
  destruct (Htab p path Hp) as (Hpa & Hpl & Hent). simpl in Hlen.
  destruct (Hent i Hi) as [Hz|[(q & f & ? & Hq & Hf & Hm)|(q & Hd & Hq & Hm & Hown)]].
  - by rewrite !tr_zero by congruence.
  - by rewrite !(tr_page _ _ _ q f rest (bool_decide (S (length path) < L)%nat))
      by first [congruence|lia|intros; apply bool_decide_eq_true_2; destruct rest;
        [done|simpl in *; lia]].
  - assert (rest ≠ []) as Hne by (intros ->; simpl in *; lia).
    unfold tr. rewrite !(lookup_table _ p q) by congruence.
    apply (IH q (path ++ [i])); try done.
    { rewrite length_app. simpl. lia. }
    intros r mid j rest' -> Hr. apply (Hagree r (i :: mid) j rest'); [done|].
    by rewrite <- app_assoc in Hr.
Qed.

Lemma tr_other (owner : gmap Z (list Z)) (m m' : Z → Z) (root q j : Z) (path idxs : list Z) :
  tables_wf owner m → owner !! root = Some [] → owner !! q = Some path →
  agree_except owner m m' q j → full idxs → ¬ (path ++ [j]) `prefix_of` idxs →
  tr m' root idxs = tr m root idxs.
Proof.
  intros Htab Hroot Hq Hag [Hlen Hall] Hnp. apply (tr_frame owner m m' idxs root []); try done.
  intros r mid i rest -> Hr. apply (Hag r mid i); [done| |].
  - apply Forall_app in Hall as [_ Hall]. by apply Forall_cons in Hall as [? _].
  - intros [= -> ->]. simpl in Hr. simplify_map_eq.
    destruct Hnp. exists rest. by rewrite <- app_assoc.
Qed.

(** The walk to [q] survives a change of [q]'s own entries. *)
Lemma reaches_keep (owner : gmap Z (list Z)) (m m' : Z → Z) (q j : Z) (path : list Z) :
  tables_wf owner m → owner !! q = Some path → agree_except owner m m' q j →
  ∀ p pre mid, owner !! p = Some pre → path = pre ++ mid → Forall in_table mid →
    reaches m p mid q → reaches m' p mid q.
Proof.
  intros Htab Hq Hag p pre mid Hp -> Hall Hr.
  revert pre Hp Hq Hall. induction Hr as [p|p i r mid q Hr Hm Hrs IH]; intros pre Hp Hq Hall.
  { apply reaches_nil. }
  apply Forall_cons in Hall as [Hi Hall]. destruct (Htab p pre Hp) as (Hpa & Hpl & Hent).
  assert (owner !! r = Some (pre ++ [i])) as Hor.
  { destruct (Hent i Hi) as [Hz|[(p' & f & ? & Hp' & Hf & He)|(r' & ? & Hr' & He & Ho)]].
    - pose proof (law_table_nonzero r Hr). congruence.
    - exfalso. destruct (decide (S (length pre) < L)%nat) as [Hlt|Hge].
      + pose proof (law_page_huge p' f Hp' Hf) as Hh.
        rewrite bool_decide_eq_true_2 in He by done.
        rewrite <- He, Hm, law_table_huge in Hh by done. done.
      + apply Htab in Hq as (_ & Hlen & _). rewrite length_app in Hlen. simpl in Hlen. lia.
    - rewrite Hm in He. apply (f_equal pte_paddr) in He.
      rewrite !law_table_paddr in He by done. by subst. }
  apply (reaches_cons m' p i r); [done| |].
  - rewrite (Hag p pre i); [done..|]. intros [= Hpq _].
    assert (length pre = length (pre ++ i :: mid)) as Hl by congruence.
    rewrite length_app in Hl. simpl in Hl. lia.
  - apply (IH Hag (pre ++ [i])); try done. by rewrite <- app_assoc.
Qed.

(** ** Changing one entry *)

Lemma mem_write_same (m : Z → Z) (a w : Z) : mem_write m a w a = w.
Proof. unfold mem_write. by rewrite Z.eqb_refl. Qed.

Lemma mem_write_other (m : Z → Z) (a b w : Z) : b ≠ a → mem_write m a w b = m b.
Proof. intros Hne. unfold mem_write. by rewrite (proj2 (Z.eqb_neq b a) Hne). Qed.

Lemma write_agree (owner : gmap Z (list Z)) (m : Z → Z) (q j w : Z) (path : list Z) :
  tables_wf owner m → owner !! q = Some path → in_table j →
  agree_except owner m (mem_write m (entry_at (phys_to_virt q) j) w) q j.
Proof.
  intros Htab Hq Hj p path' i Hp Hi Hne. apply mem_write_other. intros Heq.
  apply entry_at_inj in Heq as [-> ->]; eauto; by eapply Htab.
Qed.

Lemma tables_agree (owner : gmap Z (list Z)) (m m' : Z → Z) (q j : Z) (path : list Z) :
  tables_wf owner m → owner !! q = Some path → agree_except owner m m' q j →
  entry_wf owner path j (m' (entry_at (phys_to_virt q) j)) → tables_wf owner m'.
Proof.
  intros Htab Hq Hag Hw p path' Hp. destruct (Htab p path' Hp) as (? & ? & Hent).
  split_and!; [done..|]. intros i Hi. destruct (decide ((p, i) = (q, j))) as [[= -> ->]|Hne].
  - by simplify_map_eq.
  - rewrite (Hag p path' i); auto.
Qed.

Lemma entry_wf_mono (owner owner' : gmap Z (list Z)) (path : list Z) (i e : Z) :
  owner ⊆ owner' → entry_wf owner path i e → entry_wf owner' path i e.
Proof.
  intros Hsub [?|[?|(q & ? & ? & ? & ?)]]; [by left|by right; left|].
  right; right. exists q. split_and!; eauto using lookup_weaken.
Qed.

(** The memory after a table is created for entry [j] of [q]. *)
Definition linked (m : Z → Z) (q j f : Z) : Z → Z :=
  mem_write (mem_zero m (phys_to_virt f) PAGE_SIZE_4K) (entry_at (phys_to_virt q) j)
    (pte_new_table f).

Lemma mem_zero_other (m : Z → Z) (f p i : Z) :
  pa_ok f → pa_ok p → in_table i → p ≠ f →
  mem_zero m (phys_to_virt f) PAGE_SIZE_4K (entry_at (phys_to_virt p) i) =
    m (entry_at (phys_to_virt p) i).
Proof.
  intros Hf Hp Hi Hne. unfold mem_zero, PAGE_SIZE_4K.
  destruct (_ && _) eqn:Hin; [|done]. bool_to_prop. destruct Hne.
  unfold entry_at, in_table in *.
  apply (law_frames_disjoint p f (8 * i) (phys_to_virt p + 8 * i - phys_to_virt f)); try done; lia.
Qed.

Lemma mem_zero_in (m : Z → Z) (f i : Z) :
  in_table i →
  mem_zero m (phys_to_virt f) PAGE_SIZE_4K (entry_at (phys_to_virt f) i) = 0.
Proof.
  intros Hi. unfold mem_zero, PAGE_SIZE_4K, entry_at, in_table in *.
  destruct (_ && _) eqn:Hin; [done|]. bool_to_prop. destruct Hin; bool_to_prop; lia.
Qed.

Section link.
Context (owner : gmap Z (list Z)) (m : Z → Z) (root q j f : Z) (path : list Z).
Hypothesis Htab : tables_wf owner m.
Hypothesis Hroot : owner !! root = Some [].
Hypothesis Hq : owner !! q = Some path.
Hypothesis Hj : in_table j.
Hypothesis Hpath : Forall in_table path.
Hypothesis Hlen : (S (length path) < L)%nat.
Hypothesis Hfresh : owner !! f = None.
Hypothesis Hf : pa_ok f.
Hypothesis Hfree : m (entry_at (phys_to_virt q) j) = 0.
Hypothesis Hreach : reaches m root path q.

Lemma link_entry : linked m q j f (entry_at (phys_to_virt q) j) = pte_new_table f.
Proof. apply mem_write_same. Qed.

Lemma link_agree : agree_except owner m (linked m q j f) q j.
Proof.
  intros p path' i Hp Hi Hne. unfold linked.
  assert (p ≠ f) by congruence. destruct (Htab p path' Hp) as (Hpa & _).
  destruct (Htab q path Hq) as (Hqa & _).
  rewrite mem_write_other; [by apply mem_zero_other|].
  intros Heq. by apply entry_at_inj in Heq as [-> ->].
Qed.

Lemma link_new_entries (i : Z) :
  in_table i → linked m q j f (entry_at (phys_to_virt f) i) = 0.
Proof.
  intros Hi. unfold linked. destruct (Htab q path Hq) as (Hqa & _).
  rewrite mem_write_other; [by apply mem_zero_in|].
  intros Heq. apply entry_at_inj in Heq as [-> ->]; [congruence|done..].
Qed.

Lemma link_tables : tables_wf (<[f := path ++ [j]]> owner) (linked m q j f).
Proof.
  assert (owner ⊆ <[f := path ++ [j]]> owner) as Hsub by by apply insert_subseteq.
  intros p path' [[<- <-]|[Hne Hp]]%lookup_insert_Some.
  - split_and!; [done|rewrite length_app; simpl; lia|].
    intros i Hi. left. by apply link_new_entries.
  - destruct (Htab p path' Hp) as (? & ? & Hent). split_and!; [done..|]. intros i Hi.
    destruct (decide ((p, i) = (q, j))) as [[= -> ->]|].
    + simplify_map_eq. right; right. exists f. rewrite lookup_insert_eq.
      split_and!; eauto using link_entry.
    + rewrite (link_agree p path' i); [|done..]. eauto using entry_wf_mono.
Qed.

Lemma link_reaches : reaches (linked m q j f) root (path ++ [j]) f.
Proof.
  eapply reaches_snoc; [|done|apply link_entry].
  by apply (reaches_keep owner m _ q j path) with (pre := []); eauto using link_agree.
Qed.

Lemma link_tr (idxs : list Z) :
  full idxs → tr (linked m q j f) root idxs = tr m root idxs.
Proof.
  intros Hfull. destruct (decide ((path ++ [j]) `prefix_of` idxs)) as [[rest ->]|Hnp].
  2: { eapply tr_other; eauto using link_agree. }
  destruct Hfull as [Hl Hall]. rewrite !length_app in Hl. simpl in Hl.
  apply Forall_app in Hall as [_ Hall].
  destruct rest as [|i rest]; [simpl in Hl; lia|]. apply Forall_cons in Hall as [Hi _].
  rewrite (tr_reaches _ root f) by (done || apply link_reaches).
  rewrite tr_zero by by apply link_new_entries.
  rewrite <- app_assoc. rewrite (tr_reaches _ root q) by done. simpl. by rewrite tr_zero.
Qed.

End link.

(** ** The methods *)

Definition tr_va (s : pstate A) (idxs : list Z) : option (Z * PageSize) :=
  tr (ps_mem s) (root_paddr (ps_pt s)) idxs.

(** [s'] has the root and the translation of [s]. *)
Definition tr_same (s s' : pstate A) : Prop :=
  root_paddr (ps_pt s') = root_paddr (ps_pt s) ∧
  ∀ idxs, full idxs → tr_va s' idxs = tr_va s idxs.

#[local] Instance tr_same_preorder : PreOrder tr_same.
Proof.
  split; [by split|]. intros s1 s2 s3 [H1 H1'] [H2 H2'].
  split; [congruence|]. intros idxs Hi. rewrite H2', H1'; done.
Qed.

(** Table [p] is at [path] in state [s]. *)
Definition located (owner : gmap Z (list Z)) (s : pstate A) (path : list Z) (p : Z) : Prop :=
  owner !! p = Some path ∧ reaches (ps_mem s) (root_paddr (ps_pt s)) path p ∧
  Forall in_table path.

(** The ways the search for the entry of a page of [n] lower levels fails. *)
Definition create_error (s : pstate A) (idxs : list Z) (n : nat) (e : PagingError) : Prop :=
  match e with
  | NoMemory => ∃ a, alloc_frame a = None
  | NotMapped | MappedToHugePage =>
      ∃ p f h k, (n < k ≤ 2)%nat ∧ pa_ok p ∧ fl_ok f ∧
        tr_va s idxs = Some (pte_new_page p f h, rest_size k)
  | _ => False
  end.

Lemma entry_case (owner : gmap Z (list Z)) (s : pstate A) (path : list Z) (p i : Z) :
  pt_inv owner s → located owner s path p → in_table i →
  entry_wf owner path i (ps_mem s (entry_at (phys_to_virt p) i)).
Proof. intros Hinv (Hp & _) Hi. by apply (inv_tables _ _ Hinv p path Hp). Qed.

Lemma tr_located (owner : gmap Z (list Z)) (s : pstate A) (path rest : list Z) (p : Z) :
  located owner s path p → rest ≠ [] → tr_va s (path ++ rest) = tr (ps_mem s) p rest.
Proof. intros (_ & Hr & _) Hne. by apply tr_reaches. Qed.

Lemma next_table_page (p f : Z) :
  pa_ok p → fl_ok f →
  next_table_mut (pte_new_page p f true) = Err NotMapped ∨
  next_table_mut (pte_new_page p f true) = Err MappedToHugePage.
Proof.
  intros Hp Hf. unfold next_table_mut. rewrite law_page_huge by done.
  destruct (pte_is_present _); auto.
Qed.

(** The state after a table in frame [f] is linked at entry [i] of [p]. *)
Definition with_table (s : pstate A) (p i f : Z) (a : A) : pstate A := {|
  ps_mem := linked (ps_mem s) p i f;
  ps_alloc := a;
  ps_pt := {| root_paddr := root_paddr (ps_pt s);
              intrm_tables := intrm_tables (ps_pt s) ++ [f] |};
|}.

Lemma create_table (owner : gmap Z (list Z)) (s : pstate A) (path : list Z) (p i f : Z) (a : A) :
  pt_inv owner s → located owner s path p → in_table i → (S (length path) < L)%nat →
  ps_mem s (entry_at (phys_to_virt p) i) = 0 → alloc_frame (ps_alloc s) = Some (f, a) →
  let owner' := <[f := path ++ [i]]> owner in
  let s' := with_table s p i f a in
  pt_inv owner' s' ∧ tr_same s s' ∧ located owner' s' (path ++ [i]) f.
Proof.
  intros Hinv Hloc Hi Hlen Hz Hal. simpl.
  destruct (law_alloc_fresh _ _ _ Hal) as (Hfr & Hown & Hfok).
  destruct Hinv as [Hr Ht Hdom Hnd Hsub]. destruct Hloc as (Hp & Hrs & Hall).
  assert (f ∉ dom owner) as Hfd by by intros ?%Hsub.
  assert (owner !! f = None) as Hfo by by apply not_elem_of_dom.
  split_and!.
  - split; simpl.
    + rewrite lookup_insert_ne; [done|]. intros ->. by rewrite Hr in Hfo.
    + eapply link_tables; eauto.
    + rewrite dom_insert_L, list_to_set_app_L, <- Hdom. set_solver.
    + apply NoDup_app. split_and!; [done| |apply NoDup_singleton].
      intros x Hx ->%list_elem_of_singleton. rewrite Hdom in Hfd. set_solver.
    + rewrite dom_insert_L, Hown. set_solver.
  - split; [done|]. intros idxs Hidx. by apply (link_tr owner _ _ p i f path).
  - split_and!; simpl.
    + by rewrite lookup_insert_eq.
    + by eapply (link_reaches owner).
    + by apply Forall_app_2; [|apply Forall_singleton].
Qed.

(** The tables of [owner'] that are new are frames taken from the provider. *)
Definition takes (owner owner' : gmap Z (list Z)) (s s' : pstate A) : Prop :=
  dom owner ⊆ dom owner' ∧ owned (ps_alloc s') = owned (ps_alloc s) ∪ dom owner' ∧
  dom owner' ∩ owned (ps_alloc s) ⊆ dom owner.

Lemma takes_refl (owner : gmap Z (list Z)) (s : pstate A) : pt_inv owner s → takes owner owner s s.
Proof. intros Hinv. pose proof (inv_owned _ _ Hinv). unfold takes. set_solver. Qed.

Lemma takes_trans (owner1 owner2 owner3 : gmap Z (list Z)) (s1 s2 s3 : pstate A) :
  takes owner1 owner2 s1 s2 → takes owner2 owner3 s2 s3 → takes owner1 owner3 s1 s3.
Proof. unfold takes. intros (H1 & H2 & H3) (H4 & H5 & H6). split_and!; [set_solver..|]. rewrite H2 in H6. set_solver. Qed.

Lemma next_or_create_spec (owner : gmap Z (list Z)) (s : pstate A) (path : list Z) (p i : Z) :
  pt_inv owner s → located owner s path p → in_table i → (S (length path) < L)%nat →
  ∃ s' r owner',
    next_table_mut_or_create (entry_at (phys_to_virt p) i) s = Done (s', r) ∧
    pt_inv owner' s' ∧ tr_same s s' ∧
    (∀ q path', owner' !! q = Some path' → owner !! q = Some path' ∨ path' = path ++ [i]) ∧
    takes owner owner' s s' ∧
    match r with
    | Ok t => ∃ q, t = phys_to_virt q ∧ located owner' s' (path ++ [i]) q
    | Err e => ∀ rest n, (n < length rest)%nat → (length path + S (length rest) = L)%nat →
        create_error s (path ++ i :: rest) n e
    end.
Proof.
  intros Hinv Hloc Hi Hlen. unfold next_table_mut_or_create. simpl.
  pose proof (entry_case _ _ _ _ _ Hinv Hloc Hi) as Hent.
  unfold mbind, stm_bind, read_entry, gets. rewrite law_unused.
  destruct Hent as [Hz|[(q & f & Hd & Hq & Hf & He)|(q & Hd & Hq & He & Ho)]].
  - rewrite Hz. simpl. unfold on_world, alloc_table. simpl.
    destruct (alloc_frame (ps_alloc s)) as [[f a]|] eqn:Hal; simpl.
    2: { exists s, (Err NoMemory), owner. destruct s; simpl.
      split_and!; [done..|by auto|by apply takes_refl|]. intros. by eexists. }
    eexists _, _, (<[f := path ++ [i]]> owner). split; [done|].
    destruct (create_table owner s path p i f a) as (? & ? & ?); try done.
    split_and!; [done..| | |by eauto].
    + intros q path' [[_ <-]|[_ ?]]%lookup_insert_Some; auto.
    + destruct (law_alloc_fresh _ _ _ Hal) as (Hfr & Hown & _). pose proof (inv_owned _ _ Hinv).
      unfold takes. simpl. rewrite Hown, dom_insert_L. set_solver.
  - rewrite He. rewrite bool_decide_eq_true_2 in * by done.
    rewrite (proj2 (Z.eqb_neq _ _)) by by apply law_page_nonzero.
    exists s, (next_table_mut (pte_new_page q f true)), owner.
    split_and!; [done|done|reflexivity|by auto|by apply takes_refl|].
    assert (∀ rest n, (n < length rest)%nat → (length path + S (length rest) = L)%nat →
      ∃ p f h k, (n < k ≤ 2)%nat ∧ pa_ok p ∧ fl_ok f ∧
        tr_va s (path ++ i :: rest) = Some (pte_new_page p f h, rest_size k)) as Hblk.
    { intros rest n Hn Hl. exists q, f, true, (length rest). split_and!; [lia|lia|done..|].
      rewrite (tr_located owner s path _ p) by done. apply (tr_page _ _ _ q f); auto; lia. }
    destruct (next_table_page q f Hq Hf) as [-> | ->]; intros rest n Hn Hl; simpl; eauto.
  - rewrite He. rewrite (proj2 (Z.eqb_neq _ _)) by by apply law_table_nonzero.
    exists s, (Ok (phys_to_virt q)), owner. rewrite next_table_table by done.
    split_and!; [done|done|reflexivity|by auto|by apply takes_refl|]. exists q. split; [done|].
    destruct Hloc as (Hp & Hrs & Hall). split_and!; [done| |].
    + by eapply reaches_snoc.
    + by apply Forall_app_2; [|apply Forall_singleton].
Qed.

Lemma create_error_same (s s' : pstate A) (idxs : list Z) (n : nat) (e : PagingError) :
  tr_same s s' → full idxs → create_error s' idxs n e → create_error s idxs n e.
Proof. intros [_ Htr] Hfull. destruct e; simpl; rewrite ?(Htr idxs Hfull); done. Qed.

(** The tables of [owner'] that [owner] does not have lie on the way of [idxs]
    to an entry with [n] lower levels. *)
Definition grows (n : nat) (idxs : list Z) (owner owner' : gmap Z (list Z)) : Prop :=
  ∀ q path, owner' !! q = Some path →
    owner !! q = Some path ∨ path `prefix_of` idxs ∧ (length path + n < length idxs)%nat.

Lemma create_entry_spec (stop : nat) (idxs : list Z) : ∀ owner s path p,
  pt_inv owner s → located owner s path p → (length path + length idxs = L)%nat →
  Forall in_table idxs → (stop < length idxs)%nat →
  ∃ s' r owner',
    create_entry (phys_to_virt p) idxs stop s = Done (s', r) ∧
    pt_inv owner' s' ∧ tr_same s s' ∧ grows stop (path ++ idxs) owner owner' ∧ takes owner owner' s s' ∧
    match r with
    | Ok a => ∃ mid i rest q,
        idxs = mid ++ i :: rest ∧ length rest = stop ∧ in_table i ∧
        located owner' s' (path ++ mid) q ∧ a = entry_at (phys_to_virt q) i
    | Err e => create_error s (path ++ idxs) stop e
    end.
Proof.
  induction idxs as [|i rest IH]; intros owner s path p Hinv Hloc Hlen Hall Hstop.
  { simpl in Hstop. lia. }
  simpl in *. apply Forall_cons in Hall as [Hi Hall].
  case_bool_decide as Hs.
  { exists s, (Ok (entry_at (phys_to_virt p) i)), owner. split_and!; [done..|by left|by apply takes_refl|].
    exists [], i, rest, p. by rewrite app_nil_r. }
  destruct (next_or_create_spec owner s path p i) as (s1 & r1 & owner1 & Hrun & Hinv1 & Hsm1 & Hg1 & Ht1 & Hr);
    [done..|lia|].
  assert (grows stop (path ++ i :: rest) owner owner1) as Hgr.
  { intros q path' [?| ->]%Hg1; [by left|right]. split; [exists rest; by rewrite <- app_assoc|].
    rewrite !length_app. simpl. lia. }
  unfold mbind, stm_bind. rewrite Hrun. destruct r1 as [t|e].
  2: { exists s1, (Err e), owner1. split_and!; try done. apply Hr; lia. }
  destruct Hr as (q & -> & Hloc1).
  destruct (IH owner1 s1 (path ++ [i]) q) as (s2 & r2 & owner2 & Hrun2 & Hinv2 & Hsm2 & Hg2 & Ht2 & Hr2);
    try done.
  { rewrite length_app. simpl. lia. }
  { lia. }
  rewrite <- app_assoc in Hg2. exists s2, r2, owner2. split_and!; [done|done|by etrans| |by eapply takes_trans|].
  { intros q' path' [?%Hgr|?]%Hg2; auto. }
  destruct r2 as [a|e].
  - destruct Hr2 as (mid & j & rest' & r & -> & Hl & Hj & Hlr & ->).
    exists (i :: mid), j, rest', r. rewrite <- app_assoc in Hlr. done.
  - rewrite <- app_assoc in Hr2. eapply create_error_same; [done| |done].
    destruct Hloc as (_ & _ & Hp). split; [rewrite length_app; simpl; lia|].
    apply Forall_app_2; [done|]. by apply Forall_cons.
Qed.

(** [*entry = w] for an entry of a table. *)
Definition with_entry (s : pstate A) (a w : Z) : pstate A := {|
  ps_mem := mem_write (ps_mem s) a w; ps_alloc := ps_alloc s; ps_pt := ps_pt s;
|}.

Lemma page_wf_nonzero (path : list Z) (w : Z) : page_wf path w → w ≠ 0.
Proof. intros (p & f & _ & Hp & Hf & ->). by apply law_page_nonzero. Qed.

Lemma write_leaf (owner : gmap Z (list Z)) (s : pstate A) (path : list Z) (q i w : Z) :
  pt_inv owner s → located owner s path q → in_table i → (w = 0 ∨ page_wf path w) →
  let s' := with_entry s (entry_at (phys_to_virt q) i) w in
  pt_inv owner s' ∧
  (∀ idxs, full idxs → ¬ (path ++ [i]) `prefix_of` idxs → tr_va s' idxs = tr_va s idxs) ∧
  (∀ rest, full (path ++ i :: rest) →
     tr_va s' (path ++ i :: rest) =
       if w =? 0 then None else Some (w, rest_size (length rest))).
Proof.
  intros Hinv Hloc Hi Hw s'. destruct Hloc as (Hq & Hr & Hall).
  pose proof Hinv as [Hroot Htab Hdom Hnd Hown].
  assert (agree_except owner (ps_mem s) (ps_mem s') q i) as Hag by by eapply write_agree.
  assert (ps_mem s' (entry_at (phys_to_virt q) i) = w) as Hnew by apply mem_write_same.
  split_and!.
  - split; [done| |done..]. apply (tables_agree owner (ps_mem s) _ q i path); try done.
    rewrite Hnew. destruct Hw; [by left|by right; left].
  - intros idxs Hf Hnp. by apply (tr_other owner (ps_mem s) (ps_mem s') (root_paddr (ps_pt s)) q i path).
  - intros rest [Hlen _]. unfold tr_va.
    assert (reaches (ps_mem s') (root_paddr (ps_pt s)) path q) as Hr'
      by by eapply (reaches_keep owner (ps_mem s) _ q i path).
    unfold s' at 2. simpl. rewrite (tr_reaches _ _ q) by done.
    destruct Hw as [-> | Hpg]; [by apply tr_zero|].
    rewrite (proj2 (Z.eqb_neq _ _) (page_wf_nonzero _ _ Hpg)).
    destruct Hpg as (p & f & Hl & Hp & Hfl & ->). rewrite length_app in Hlen. simpl in Hlen.
    apply (tr_page _ _ _ p f); [done..|lia|].
    intros Hne. apply bool_decide_eq_true_2. destruct rest; [done|simpl in Hlen; lia].
Qed.

(** ** Addresses *)

Context (Hlev : LEVELS = 3 ∨ LEVELS = 4).

Lemma index_eq (va k : Z) : 0 ≤ k → (va .>> k) .& (ENTRY_COUNT - 1) = (va `div` 2 ^ k) mod 512.
Proof. intros Hk. rewrite Z.shiftr_div_pow2 by done. by apply (land_mask _ 9). Qed.

Lemma index_in_table (va k : Z) : 0 ≤ k → in_table ((va .>> k) .& (ENTRY_COUNT - 1)).
Proof. intros Hk. rewrite index_eq by done. by apply Z.mod_pos_bound. Qed.

Lemma indices_full (va : Z) : full (indices va).
Proof.
  unfold full, indices, L.
  destruct Hlev as [H|H]; rewrite H; simpl; (split; [done|]);
    repeat (apply Forall_cons; split; [by apply index_in_table|]); by apply Forall_nil.
Qed.

(** Peeling one base-512 digit off an equation between remainders. *)
Lemma digit_split (a b m : Z) :
  0 < m →
  a mod (512 * m) = b mod (512 * m) ↔
  a mod 512 = b mod 512 ∧ (a `div` 512) mod m = (b `div` 512) mod m.
Proof.
  intros Hm. rewrite !Z.rem_mul_r by lia.
  pose proof (Z.mod_pos_bound a 512). pose proof (Z.mod_pos_bound b 512).
  split; [intros; split; lia|intros [-> ->]; done].
Qed.

Lemma page_number (va k n : Z) :
  0 ≤ k → 0 ≤ n → (va mod 2 ^ (k + n)) `div` 2 ^ k = (va `div` 2 ^ k) mod 2 ^ n.
Proof.
  intros Hk Hn. rewrite Z.pow_add_r by done. rewrite Z.rem_mul_r by lia.
  rewrite Z.mul_comm, Z.div_add by lia.
  rewrite Z.div_small by (apply Z.mod_pos_bound; lia). lia.
Qed.

(** Equality of two page numbers is equality of their digits. *)
Local Ltac digits_eq :=
  rewrite ?digit_split, ?Z.div_div by done;
  repeat match goal with
  | |- context [_ `div` ?k] =>
      let k' := eval vm_compute in k in progress change k with k'
  end;
  split; [intros; destruct_and?; congruence|intros [=]; split_and?; congruence].

Lemma same_page_iff (sz : PageSize) (va va' : Z) :
  same_page sz va va' = true ↔
  take (L - size_rest sz) (indices va) = take (L - size_rest sz) (indices va').
Proof.
  unfold same_page, indices, va_span, L. rewrite Z.eqb_eq.
  destruct Hlev as [H|H]; rewrite H; destruct sz; simpl take;
    unfold p1_index, p2_index, p3_index, p4_index, VirtAddr_as_usize, PageSize_as_usize;
    rewrite ?index_eq by done.
  - change 4096 with (2 ^ 12). rewrite !(page_number _ 12 27) by done.
    change (2 ^ 27) with (512 * (512 * 512)). digits_eq.
  - change 2097152 with (2 ^ 21). rewrite !(page_number _ 21 18) by done.
    change (2 ^ 18) with (512 * 512). digits_eq.
  - change 1073741824 with (2 ^ 30). rewrite !(page_number _ 30 9) by done.
    change (2 ^ 9) with 512. digits_eq.
  - change 4096 with (2 ^ 12). rewrite !(page_number _ 12 36) by done.
    change (2 ^ 36) with (512 * (512 * (512 * 512))). digits_eq.
  - change 2097152 with (2 ^ 21). rewrite !(page_number _ 21 27) by done.
    change (2 ^ 27) with (512 * (512 * 512)). digits_eq.
  - change 1073741824 with (2 ^ 30). rewrite !(page_number _ 30 18) by done.
    change (2 ^ 18) with (512 * 512). digits_eq.
Qed.

(** The entry of a page is on the path of exactly the addresses of the page. *)
Lemma prefix_same_page (sz : PageSize) (va va' i : Z) (path rest : list Z) :
  indices va = path ++ i :: rest → length rest = size_rest sz →
  (path ++ [i]) `prefix_of` indices va' ↔ same_page sz va va' = true.
Proof.
  intros Hva Hrest. rewrite same_page_iff, Hva, <- Hrest.
  destruct (indices_full va) as [Hl _]. destruct (indices_full va') as [Hl' _].
  rewrite Hva, length_app in Hl. simpl in Hl.
  replace (L - length rest)%nat with (length (path ++ [i])) by (rewrite length_app; simpl; lia).
  change (path ++ i :: rest) with (path ++ ([i] ++ rest)).
  rewrite (app_assoc path), take_app_length. split.
  - intros [k ->]. by rewrite take_app_length.
  - intros Htk. exists (drop (length (path ++ [i])) (indices va')).
    rewrite Htk at 1. by rewrite take_drop.
Qed.

(** ** The methods are the recursive walks *)

Lemma get_entry_mut_eq (va : Z) (s : pstate A) :
  get_entry_mut va s =
    Done (s, lookup_entry (ps_mem s) (phys_to_virt (root_paddr (ps_pt s))) (indices va)).
Proof.
  unfold get_entry_mut, indices, get_root, read_entry, gets, of_result, table_of_mut.
  destruct Hlev as [H|H]; rewrite H; simpl;
    unfold mbind, stm_bind, result_bind, mret, stm_ret; simpl;
    repeat first [done | case_match; simplify_eq/=].
Qed.

Lemma get_entry_mut_or_create_eq (va : Z) (sz : PageSize) (s : pstate A) :
  get_entry_mut_or_create va sz s =
    create_entry (phys_to_virt (root_paddr (ps_pt s))) (indices va) (size_rest sz) s.
Proof.
  unfold get_entry_mut_or_create, indices, get_root, gets, table_of_mut.
  destruct Hlev as [H|H]; rewrite H; destruct sz; simpl;
    unfold mbind, stm_bind, mret, stm_ret; simpl;
    repeat first [done | case_match; simplify_eq/=].
Qed.

(** The result of [query], for every address. *)
Definition translate (s : pstate A) (va : Z) : outcome (result PagingError (Z * Z * PageSize)) :=
  snd <$> query va s.

Definition tr_view (va : Z) (o : option (Z * PageSize)) :
    outcome (result PagingError (Z * Z * PageSize)) :=
  match o with
  | None => Done (Err NotMapped)
  | Some (w, sz) =>
      f ← pte_flags w;
      Done (Ok (pte_paddr w ⊕ align_offset va (PageSize_as_usize sz), f, sz))
  end.

(** The entry of an address: where it is and what it holds. *)
Lemma root_located (owner : gmap Z (list Z)) (s : pstate A) :
  pt_inv owner s → located owner s [] (root_paddr (ps_pt s)).
Proof. intros Hinv. split_and!; [by apply inv_root|apply reaches_nil|by apply Forall_nil]. Qed.

Lemma indices_lookup (owner : gmap Z (list Z)) (s : pstate A) (va : Z) :
  pt_inv owner s →
  let t := phys_to_virt (root_paddr (ps_pt s)) in
  (lookup_entry (ps_mem s) t (indices va) = Err NotMapped ∧ tr_va s (indices va) = None) ∨
  ∃ path i rest q sz,
    let a := entry_at (phys_to_virt q) i in
    indices va = path ++ i :: rest ∧ length rest = size_rest sz ∧ in_table i ∧
    located owner s path q ∧
    lookup_entry (ps_mem s) t (indices va) = Ok (a, sz) ∧
    ((ps_mem s a = 0 ∧ tr_va s (indices va) = None) ∨
     page_wf path (ps_mem s a) ∧ tr_va s (indices va) = Some (ps_mem s a, sz)).
Proof.
  intros Hinv. cbv zeta. destruct (indices_full va) as [Hl Hall].
  assert (indices va ≠ []) as Hne by (unfold indices; by case_match).
  unfold tr_va, tr.
  destruct (lookup_cases owner (ps_mem s) (indices va) (root_paddr (ps_pt s)) [])
    as [He|(path & i & rest & q & Hi & Hr & Hq & Hlen & He & Hw)];
    try done; try apply Hinv; rewrite He.
  { by left. }
  right. exists path, i, rest, q, (rest_size (length rest)).
  assert (Forall in_table path ∧ in_table i) as [Hp Hi'].
  { rewrite Hi in Hall. apply Forall_app in Hall as [? Hall].
    by apply Forall_cons in Hall as [? _]. }
  split_and!; try done.
  - by destruct (length rest) as [|[|[|]]]; [..|lia].
  - destruct Hw as [Hz|Hpg]; [left|right].
    + by rewrite Hz.
    + by rewrite (proj2 (Z.eqb_neq _ _) (page_wf_nonzero _ _ Hpg)).
Qed.

Lemma page_wf_flags (path : list Z) (w : Z) : page_wf path w → ∃ f, pte_flags w = Done f.
Proof. intros (p & f & _ & Hp & Hf & ->). eexists. by apply law_page_flags. Qed.

Lemma query_eq (owner : gmap Z (list Z)) (s : pstate A) (va : Z) :
  pt_inv owner s →
  ∃ r, query va s = Done (s, r) ∧ tr_view va (tr_va s (indices va)) = Done r.
Proof.
  intros Hinv. unfold query. unfold mbind at 1, stm_bind at 1. rewrite get_entry_mut_eq.
  destruct (indices_lookup owner s va Hinv)
    as [[-> ->]|(path & i & rest & q & sz & _ & _ & _ & _ & -> & Hw)]; [by eexists|].
  unfold mbind, stm_bind, read_entry, gets. rewrite law_unused.
  destruct Hw as [[-> ->]|[Hpg ->]]; [by eexists|].
  rewrite (proj2 (Z.eqb_neq _ _) (page_wf_nonzero _ _ Hpg)).
  destruct (page_wf_flags _ _ Hpg) as [f Hf]. simpl. unfold of_outcome. rewrite Hf.
  by eexists.
Qed.

Lemma translate_eq (owner : gmap Z (list Z)) (s : pstate A) (va : Z) :
  pt_inv owner s → translate s va = tr_view va (tr_va s (indices va)).
Proof.
  intros Hinv. destruct (query_eq owner s va Hinv) as (r & Hq & ->).
  unfold translate. by rewrite Hq.
Qed.

Lemma translate_same (owner owner' : gmap Z (list Z)) (s s' : pstate A) (va : Z) :
  pt_inv owner s → pt_inv owner' s' → tr_same s s' → translate s' va = translate s va.
Proof.
  intros Hs Hs' [_ Htr]. rewrite (translate_eq owner' s'), (translate_eq owner s) by done.
  by rewrite Htr by apply indices_full.
Qed.

(** Reading back a page entry. *)
Lemma tr_view_page (va p f : Z) (h : bool) (sz : PageSize) :
  pa_ok p → fl_ok f →
  tr_view va (Some (pte_new_page p f h, sz)) =
    Done (Ok (p ⊕ align_offset va (PageSize_as_usize sz), fl_view f, sz)).
Proof. intros Hp Hf. simpl. by rewrite law_page_flags, law_page_paddr. Qed.

(** Changing the entry of the page of [va] changes the translation of that
    page only. *)
Lemma translate_leaf (owner : gmap Z (list Z)) (s : pstate A) (va : Z) (sz : PageSize)
    (path rest : list Z) (q i w : Z) :
  pt_inv owner s → located owner s path q → indices va = path ++ i :: rest →
  length rest = size_rest sz → in_table i → (w = 0 ∨ page_wf path w) →
  let s' := with_entry s (entry_at (phys_to_virt q) i) w in
  pt_inv owner s' ∧
  ∀ va', translate s' va' =
    if same_page sz va va'
    then tr_view va' (if w =? 0 then None else Some (w, sz)) else translate s va'.
Proof.
  intros Hinv Hloc Hva Hrest Hi Hw s'.
  destruct (write_leaf owner s path q i w) as (Hinv' & Hout & Hin); [done..|].
  split; [done|]. intros va'. rewrite (translate_eq owner) by done.
  pose proof (prefix_same_page sz va va' i path rest Hva Hrest) as Hiff.
  destruct (same_page sz va va').
  - destruct (proj2 Hiff eq_refl) as [rest' Hva']. rewrite <- app_assoc in Hva'.
    simpl in Hva'. pose proof (indices_full va') as Hfull. rewrite Hva' in *.
    assert (length rest' = length rest) as Hlr.
    { destruct Hfull as [Hl _]. destruct (indices_full va) as [Hl' _].
      rewrite Hva in Hl'. rewrite !length_app in *. simpl in *. lia. }
    rewrite Hin, Hlr, Hrest by done. by destruct sz.
  - rewrite (translate_eq owner) by done. rewrite Hout; [done|apply indices_full|].
    intros Hp. by apply Hiff in Hp.
Qed.

(** A page whose entry is free is not mapped anywhere. *)
Lemma translate_free (owner : gmap Z (list Z)) (s : pstate A) (va : Z) (sz : PageSize)
    (path rest : list Z) (q i : Z) :
  pt_inv owner s → located owner s path q → indices va = path ++ i :: rest →
  length rest = size_rest sz → ps_mem s (entry_at (phys_to_virt q) i) = 0 →
  ∀ va', same_page sz va va' = true → translate s va' = Done (Err NotMapped).
Proof.
  intros Hinv Hloc Hva Hrest Hz va' Hsp.
  apply (prefix_same_page sz va va' i path rest Hva Hrest) in Hsp as [rest' Hva'].
  rewrite <- app_assoc in Hva'. simpl in Hva'. rewrite (translate_eq owner), Hva' by done.
  by rewrite (tr_located owner s path _ q), tr_zero.
Qed.

(** Why [map] may fail. *)
Definition map_error (s : pstate A) (va : Z) (sz : PageSize) (e : PagingError) : Prop :=
  match e with
  | NoMemory => ∃ a, alloc_frame a = None
  | NotMapped | MappedToHugePage => ∃ pa fl sz',
      translate s va = Done (Ok (pa, fl, sz')) ∧ PageSize_as_usize sz < PageSize_as_usize sz'
  | AlreadyMapped => sz = Size4K → ∃ pa fl, translate s va = Done (Ok (pa, fl, Size4K))
  | NotAligned => False
  end.

Lemma create_map_error (owner : gmap Z (list Z)) (s : pstate A) (va : Z) (sz : PageSize)
    (e : PagingError) :
  pt_inv owner s → create_error s (indices va) (size_rest sz) e → map_error s va sz e.
Proof.
  intros Hinv He. assert (∀ p f h k, (size_rest sz < k ≤ 2)%nat → pa_ok p → fl_ok f →
    tr_va s (indices va) = Some (pte_new_page p f h, rest_size k) → ∃ pa fl sz',
      translate s va = Done (Ok (pa, fl, sz')) ∧ PageSize_as_usize sz < PageSize_as_usize sz')
    as Hbig.
  { intros p f h k Hk Hp Hf Htr. eexists _, _, (rest_size k).
    rewrite (translate_eq owner), Htr, tr_view_page by done. split; [done|].
    destruct sz, k as [|[|[|]]]; simpl in *; lia. }
  destruct e; simpl in *; naive_solver.
Qed.

Lemma page_of_size (path rest : list Z) (va i p f : Z) (sz : PageSize) :
  indices va = path ++ i :: rest → length rest = size_rest sz → pa_ok p → fl_ok f →
  page_wf path (pte_new_page p f (PageSize_is_huge sz)).
Proof.
  intros Hva Hrest Hp Hf. destruct (indices_full va) as [Hl _].
  rewrite Hva, length_app in Hl. simpl in Hl. exists p, f. 
  split_and!; [lia|destruct sz; simpl in *; lia|done..|].
  f_equal. symmetry. destruct sz; simpl in *;
    first [apply bool_decide_eq_true_2; lia|apply bool_decide_eq_false_2; lia].
Qed.

Lemma map_spec_grows (owner : gmap Z (list Z)) (s : pstate A) (va target flags : Z) (sz : PageSize) :
  let tgt := align_down target (PageSize_as_usize sz) in
  pt_inv owner s → pa_ok tgt → fl_ok flags →
  ∃ s' r owner', PageTable.map va target sz flags s = Done (s', r) ∧ pt_inv owner' s' ∧
  grows (size_rest sz) (indices va) owner owner' ∧ takes owner owner' s s' ∧
  match r with
  | Ok _ =>
      (∀ va', same_page sz va va' = true → translate s va' = Done (Err NotMapped)) ∧
      ∀ va', translate s' va' =
        if same_page sz va va'
        then Done (Ok (tgt ⊕ align_offset va' (PageSize_as_usize sz), fl_view flags, sz))
        else translate s va'
  | Err e => (∀ va', translate s' va' = translate s va') ∧ map_error s va sz e ∧
      (e = AlreadyMapped → (∃ x, translate s va = Done (Ok x)) ∨
        ∃ q path i rest, indices va = path ++ i :: rest ∧ length rest = size_rest sz ∧
          owner !! q = Some (path ++ [i]))
  end.
Proof.
  intros tgt Hinv Htgt Hfl. unfold PageTable.map. unfold mbind at 1, stm_bind at 1.
  rewrite get_entry_mut_or_create_eq. destruct (indices_full va) as [Hl Hall].
  destruct (create_entry_spec (size_rest sz) (indices va) owner s [] (root_paddr (ps_pt s)))
    as (s1 & r1 & owner1 & -> & Hinv1 & Hsame & Hgr & Htk & Hr1); auto using root_located.
  { rewrite Hl. unfold L. destruct Hlev as [-> | ->], sz; simpl; lia. }
  destruct r1 as [a|e].
  2: { exists s1, (Err e), owner1. split_and!; eauto using translate_same, create_map_error. by intros ->. }
  destruct Hr1 as (path & i & rest & q & Hva & Hrest & Hi & Hloc & ->). simpl in Hloc.
  unfold mbind, stm_bind, read_entry, gets. rewrite law_unused.
  destruct (Z.eqb_spec (ps_mem s1 (entry_at (phys_to_virt q) i)) 0) as [Hz|Hnz]; simpl.
  - destruct (translate_leaf owner1 s1 va sz path rest q i
      (pte_new_page tgt flags (PageSize_is_huge sz))) as (Hinv' & Htr);
      eauto using page_of_size.
    eexists _, _, owner1. split; [done|]. split; [done|]. split; [done|]. split; [done|]. split.
    + intros va' Hsp. rewrite <- (translate_same owner owner1 s s1) by done.
      by eapply (translate_free owner1).
    + intros va'. unfold with_entry in Htr. rewrite Htr. destruct (same_page sz va va').
      * rewrite (proj2 (Z.eqb_neq _ _)) by by apply law_page_nonzero. by apply tr_view_page.
      * by apply (translate_same owner owner1).
  - assert ((∃ pa fl, translate s va = Done (Ok (pa, fl, rest_size (size_rest sz)))) ∨
      ∃ q', owner !! q' = Some (path ++ [i])) as Hcase.
    { destruct (entry_case owner1 s1 path q i Hinv1 Hloc Hi)
        as [?|[(p & f & Hd & Hp & Hf & He)|(q' & _ & _ & _ & Ho)]]; [done|left|right].
      - rewrite <- (translate_same owner owner1 s s1), (translate_eq owner1) by done.
        rewrite Hva, length_app in Hl. simpl in Hl.
        rewrite Hva, (tr_located owner1 s1 path (i :: rest) q) by done.
        rewrite (tr_page _ _ _ p f rest _ Hp Hf He); [|lia|].
        2: { intros Hne. apply bool_decide_eq_true_2. destruct rest; simpl in *; [done|lia]. }
        rewrite tr_view_page, Hrest by done. by eexists _, _.
      - exists q'. destruct (Hgr _ _ Ho) as [?|[_ Hlen]]; [done|].
        simpl in Hlen. rewrite Hva, !length_app in Hlen. simpl in Hlen. lia. }
    exists s1, (Err AlreadyMapped), owner1. split_and!; eauto using translate_same.
    + simpl. intros ->. destruct Hcase as [?|[q' Ho]]; [done|].
      destruct (inv_tables _ _ Hinv q' _ Ho) as (_ & Hlt & _). rewrite Hva in Hl.
      rewrite !length_app in *. simpl in *. lia.
    + intros _. destruct Hcase as [(pa & fl & ?)|[q' Ho]]; eauto 10.
Qed.

Lemma map_spec (owner : gmap Z (list Z)) (s : pstate A) (va target flags : Z) (sz : PageSize) :
  let tgt := align_down target (PageSize_as_usize sz) in
  pt_inv owner s → pa_ok tgt → fl_ok flags →
  ∃ s' r owner', PageTable.map va target sz flags s = Done (s', r) ∧ pt_inv owner' s' ∧
  match r with
  | Ok _ =>
      (∀ va', same_page sz va va' = true → translate s va' = Done (Err NotMapped)) ∧
      ∀ va', translate s' va' =
        if same_page sz va va'
        then Done (Ok (tgt ⊕ align_offset va' (PageSize_as_usize sz), fl_view flags, sz))
        else translate s va'
  | Err e => (∀ va', translate s' va' = translate s va') ∧ map_error s va sz e
  end.
Proof.
  intros tgt Hinv Htgt Hfl.
  destruct (map_spec_grows owner s va target flags sz Hinv Htgt Hfl) as (s' & r & owner' & ? & ? & _ & _ & Hr).
  exists s', r, owner'. split_and!; [done..|]. by destruct r as [|e]; [|destruct Hr as (? & ? & _)].
Qed.

Lemma unmap_spec (owner : gmap Z (list Z)) (s : pstate A) (va : Z) :
  pt_inv owner s →
  ∃ s' r, unmap va s = Done (s', r) ∧ pt_inv owner s' ∧
  match r with
  | Ok (p, sz) =>
      (∃ fl, translate s va = Done (Ok (p ⊕ align_offset va (PageSize_as_usize sz), fl, sz))) ∧
      ∀ va', translate s' va' =
        if same_page sz va va' then Done (Err NotMapped) else translate s va'
  | Err e => e = NotMapped ∧ s' = s ∧ translate s va = Done (Err NotMapped)
  end.
Proof.
  intros Hinv. unfold unmap. unfold mbind at 1, stm_bind at 1. rewrite get_entry_mut_eq.
  rewrite (translate_eq owner) by done.
  destruct (indices_lookup owner s va Hinv)
    as [[-> ->]|(path & i & rest & q & sz & Hva & Hrest & Hi & Hloc & -> & Hw)].
  { by eexists _, _. }
  unfold mbind, stm_bind, read_entry, gets. rewrite law_unused.
  destruct Hw as [[-> ->]|[Hpg ->]]; [by eexists _, _|].
  rewrite (proj2 (Z.eqb_neq _ _) (page_wf_nonzero _ _ Hpg)). simpl.
  rewrite law_clear. destruct (page_wf_flags _ _ Hpg) as [f ->].
  destruct (translate_leaf owner s va sz path rest q i 0) as (Hinv' & Htr); eauto.
  eexists _, _. split; [done|]. split; [done|]. split; [by eexists|done].
Qed.

(** ** Regions *)

Lemma span_pos : 0 < va_span.
Proof. unfold va_span. destruct Hlev as [-> | ->]; done. Qed.

Lemma size_pos (sz : PageSize) : 0 < PageSize_as_usize sz.
Proof. by destruct sz. Qed.

Lemma size_divides_span (sz : PageSize) : (PageSize_as_usize sz | va_span).
Proof.
  apply Z.mod_divide; [by destruct sz|].
  unfold va_span. destruct Hlev as [-> | ->], sz; done.
Qed.

Lemma span_divides_usize : (va_span | 2 ^ 64).
Proof. apply Z.mod_divide; unfold va_span; destruct Hlev as [-> | ->]; done. Qed.

Lemma same_page_region (sz : PageSize) (va va' : Z) :
  (PageSize_as_usize sz | va) →
  same_page sz va va' = in_region va (PageSize_as_usize sz) va'.
Proof.
  intros Hdiv. unfold same_page, in_region.
  pose proof span_pos. pose proof (size_pos sz) as Hsz.
  pose proof (size_divides_span sz) as [k Hk].
  set (n := PageSize_as_usize sz) in *.
  pose proof (Z.mod_pos_bound va va_span). pose proof (Z.mod_pos_bound va' va_span).
  assert ((n | va mod va_span)) as [t Ht].
  { apply Z.mod_divide; [lia|]. rewrite Z.mod_mod_divide by by exists k.
    by apply Z.mod_divide; [lia|]. }
  rewrite Zminus_mod. rewrite Ht, Z.div_mul by lia.
  set (b := va' mod va_span) in *. pose proof (Z.div_mod b n). pose proof (Z.mod_pos_bound b n).
  apply eq_true_iff_eq. rewrite Z.eqb_eq, Z.ltb_lt. split.
  - intros Heq. rewrite Z.mod_small; nia.
  - intros Hlt. destruct (decide (t * n ≤ b)).
    + rewrite Z.mod_small in Hlt by lia. nia.
    + exfalso. rewrite <- (Z.mod_unique (b - t * n) va_span (-1) (b - t * n + va_span)) in Hlt by lia.
      assert (t < k) by nia. nia.
Qed.

Lemma region_shift (va n va' : Z) :
  (va' - (va ⊕ n)) mod va_span = ((va' - va) mod va_span - n) mod va_span.
Proof.
  rewrite Zminus_mod_idemp_l. unfold wadd, wrap.
  rewrite Zminus_mod, (Z.mod_mod_divide _ _ va_span) by apply span_divides_usize.
  rewrite <- Zminus_mod. f_equal. lia.
Qed.

Lemma in_region_split (va n size va' : Z) :
  0 ≤ n ≤ size → size ≤ va_span →
  in_region va size va' = in_region va n va' || in_region (va ⊕ n) (size - n) va'.
Proof.
  intros Hn Hsize. unfold in_region. pose proof span_pos.
  rewrite region_shift.
  pose proof (Z.mod_pos_bound (va' - va) va_span).
  set (d := (va' - va) mod va_span) in *.
  apply eq_true_iff_eq. rewrite orb_true_iff, !Z.ltb_lt.
  destruct (decide (n ≤ d)).
  - rewrite Z.mod_small by lia. lia.
  - rewrite <- (Z.mod_unique (d - n) va_span (-1) (d - n + va_span)) by lia. lia.
Qed.

Lemma size_pow2 (sz : PageSize) : ∃ k, 12 ≤ k ≤ 30 ∧ PageSize_as_usize sz = 2 ^ k.
Proof. destruct sz; [exists 12|exists 21|exists 30]; (split; [lia|done]). Qed.

Lemma align_down_aligned (a : Z) (sz : PageSize) :
  is_usize a → (PageSize_as_usize sz | a) → align_down a (PageSize_as_usize sz) = a.
Proof.
  intros Ha Hdiv. destruct (size_pow2 sz) as (k & Hk & Heq). rewrite Heq in *.
  rewrite align_down_eq by (done || lia). apply Z.mod_divide in Hdiv; lia.
Qed.

Lemma page_offset (va va' : Z) (sz : PageSize) :
  (PageSize_as_usize sz | va) → in_region va (PageSize_as_usize sz) va' = true →
  align_offset va' (PageSize_as_usize sz) = (va' - va) mod va_span.
Proof.
  unfold in_region. intros Hdiv Hin. bool_to_prop.
  pose proof span_pos. pose proof (Z.mod_pos_bound (va' - va) va_span).
  destruct (size_pow2 sz) as (k & Hk & Heq). pose proof (size_divides_span sz) as Hspan.
  rewrite Heq in *. rewrite align_offset_eq by lia.
  rewrite <- (Z.mod_small ((va' - va) mod va_span) (2 ^ k)) by lia.
  rewrite Z.mod_mod_divide by done. rewrite Zminus_mod.
  apply Z.mod_divide in Hdiv; [|lia]. rewrite Hdiv, Z.sub_0_r. by rewrite Z.mod_mod by lia.
Qed.

Lemma region_offset (va n size va' : Z) :
  0 ≤ n ≤ size → size ≤ va_span → in_region (va ⊕ n) (size - n) va' = true →
  (va' - (va ⊕ n)) mod va_span = (va' - va) mod va_span - n.
Proof.
  intros Hn Hsize Hin. pose proof span_pos.
  pose proof (in_region_split va n size va' Hn Hsize) as Hsp.
  rewrite Hin, orb_true_r in Hsp. unfold in_region in *. bool_to_prop.
  rewrite region_shift in *. pose proof (Z.mod_pos_bound (va' - va) va_span).
  set (d := (va' - va) mod va_span) in *. destruct (decide (n ≤ d)).
  - apply Z.mod_small. lia.
  - rewrite <- (Z.mod_unique (d - n) va_span (-1) (d - n + va_span)) in Hin by lia. lia.
Qed.

Lemma region_page_size_ok (va pa size : Z) (allow_huge : bool) :
  (0x1000 | va) → (0x1000 | pa) → 0x1000 ≤ size →
  let n := PageSize_as_usize (region_page_size va pa size allow_huge) in
  (n | va) ∧ (n | pa) ∧ n ≤ size ∧
  (allow_huge = false → region_page_size va pa size allow_huge = Size4K).
Proof.
  intros Hva Hpa Hsize. unfold region_page_size.
  assert (∀ a sz, is_aligned a (PageSize_as_usize sz) = true → (PageSize_as_usize sz | a)) as Hal.
  { intros a sz Ha. destruct (size_pow2 sz) as (k & Hk & Heq). rewrite Heq in *.
    by apply is_aligned_divide; [lia|]. }
  unfold VirtAddr_is_aligned, PhysAddr_is_aligned.
  destruct allow_huge; [|done].
  destruct (_ && _) eqn:H1; bool_to_prop; [split_and!; auto; done|].
  clear H1. destruct (_ && _) eqn:H2; bool_to_prop; [split_and!; auto; done|done].
Qed.

(** The region is covered by whole mapped pages, of the sizes listed. *)
Fixpoint covered (s : pstate A) (va size : Z) (pages : list PageSize) : Prop :=
  match pages with
  | [] => size = 0
  | sz :: pages =>
      let n := PageSize_as_usize sz in
      (∃ pa fl, translate s va = Done (Ok (pa, fl, sz))) ∧ (n | va) ∧ n ≤ size ∧
      covered s (va ⊕ n) (size - n) pages
  end.

Definition keeps_mapped (s s' : pstate A) : Prop :=
  ∀ va x, translate s va = Done (Ok x) → translate s' va = Done (Ok x).

(** What one more page does. *)
Definition maps_to (s : pstate A) (va pa size fl : Z) (allow_huge : bool) : Prop :=
  ∀ va', in_region va size va' = true → ∃ sz,
    translate s va' = Done (Ok (pa + (va' - va) mod va_span, fl, sz)) ∧
    (allow_huge = false → sz = Size4K).

Lemma in_region_self (va size : Z) : 0 < size → in_region va size va = true.
Proof.
  intros. unfold in_region. pose proof span_pos. rewrite Z.sub_diag, Z.mod_0_l by lia. lia.
Qed.

Lemma in_region_disjoint (va n size va' : Z) :
  0 ≤ n ≤ size → size ≤ va_span → in_region (va ⊕ n) (size - n) va' = true →
  in_region va n va' = false.
Proof.
  intros Hn Hsize Hin. pose proof (region_offset va n size va' Hn Hsize Hin).
  pose proof (Z.mod_pos_bound (va' - (va ⊕ n)) va_span span_pos).
  unfold in_region. apply Z.ltb_ge. lia.
Qed.

(** Every table but the root has a page below it, as in a table from which
    nothing has been unmapped. *)
Definition all_used (owner : gmap Z (list Z)) (s : pstate A) : Prop :=
  ∀ q path, owner !! q = Some path → path ≠ [] →
    ∃ va x, path `prefix_of` indices va ∧ translate s va = Done (Ok x).

(** In such a table a page that is free can be mapped unless memory runs out. *)
Definition stays_used (owner owner' : gmap Z (list Z)) (s s' : pstate A) (va size : Z)
    (r : result PagingError unit) : Prop :=
  all_used owner s → (∀ va', in_region va size va' = true → translate s va' = Done (Err NotMapped)) →
  match r with Ok _ => all_used owner' s' | Err e => e = NoMemory end.

Lemma map_stays_used (owner owner' : gmap Z (list Z)) (s s' : pstate A) (va : Z) (sz : PageSize)
    (r : result PagingError unit) :
  let n := PageSize_as_usize sz in
  (n | va) → grows (size_rest sz) (indices va) owner owner' →
  match r with
  | Ok _ => ∀ va', same_page sz va va' = true ∧ (∃ x, translate s' va' = Done (Ok x)) ∨
      translate s' va' = translate s va'
  | Err e => map_error s va sz e ∧ (e = AlreadyMapped → (∃ x, translate s va = Done (Ok x)) ∨
      ∃ q path i rest, indices va = path ++ i :: rest ∧ length rest = size_rest sz ∧
        owner !! q = Some (path ++ [i]))
  end →
  (∀ x, r = Ok x → ∃ y, translate s' va = Done (Ok y)) → stays_used owner owner' s s' va n r.
Proof.
  intros n Hva Hgr Hr Hself Hused Hfree. pose proof (size_pos sz).
  assert (∀ x, translate s va ≠ Done (Ok x)) as Hno.
  { intros x. rewrite Hfree; [done|]. apply in_region_self. lia. }
  destruct r as [u|e].
  - intros q path [Ho|[Hpre _]]%Hgr Hne.
    + destruct (Hused q path Ho Hne) as (va' & x & Hpre & Hx). exists va'.
      destruct (Hr va') as [(_ & y & Hy)|Hy]; [by exists y|exists x; by rewrite Hy].
    + destruct (Hself u eq_refl) as [y Hy]. by exists va, y.
  - destruct Hr as [Herr Ham]. destruct e; simpl in Herr; try done.
    + destruct Herr as (? & ? & ? & Hx & _). by destruct (Hno _ Hx).
    + destruct (Ham eq_refl) as [[x Hx]|(q & path & i & rest & Hidx & Hlen & Ho)]; [by destruct (Hno _ Hx)|].
      destruct (Hused q _ Ho) as (va' & x & Hpre & Hx); [by destruct path|].
      apply (prefix_same_page sz va va' i path rest Hidx Hlen) in Hpre.
      rewrite (same_page_region sz va va' Hva) in Hpre. by rewrite (Hfree va' Hpre) in Hx.
    + destruct Herr as (? & ? & ? & Hx & _). by destruct (Hno _ Hx).
Qed.

Lemma map_one_page (owner : gmap Z (list Z)) (s : pstate A) (va pa flags : Z) (sz : PageSize) :
  let n := PageSize_as_usize sz in
  pt_inv owner s → (n | va) → (n | pa) → 0 ≤ pa → pa + n ≤ 2 ^ 64 → pa_ok pa → fl_ok flags →
  ∃ s' r owner', PageTable.map va pa sz flags s = Done (s', r) ∧ pt_inv owner' s' ∧
    takes owner owner' s s' ∧ stays_used owner owner' s s' va n r ∧ keeps_mapped s s' ∧
    (∀ va', in_region va n va' = false → translate s' va' = translate s va') ∧
    match r with
    | Ok _ => ∀ va', in_region va n va' = true →
        translate s va' = Done (Err NotMapped) ∧
        translate s' va' = Done (Ok (pa + (va' - va) mod va_span, fl_view flags, sz))
    | Err e => e ≠ NotAligned
    end.
Proof.
  intros n Hinv Hva Hpa H0 H64 Hok Hfl. pose proof (size_pos sz).
  pose proof (align_down_aligned pa sz) as Hal.
  rewrite <- Hal in Hok by (done || (unfold is_usize; lia)).
  destruct (map_spec_grows owner s va pa flags sz Hinv Hok Hfl)
    as (s' & r & owner' & Hrun & Hinv' & Hgr & Htk & Hr).
  rewrite Hal in Hr by (done || (unfold is_usize; lia)).
  exists s', r, owner'. split; [done|]. split; [done|]. split; [done|]. split.
  { apply map_stays_used; [done..| |].
    - destruct r as [u|e]; [|by destruct Hr as (_ & ? & ?)]. destruct Hr as [_ Hnew]. intros va'.
      rewrite Hnew. destruct (same_page sz va va'); [left|by right]. split; [done|by eexists].
    - intros u ->. destruct Hr as [_ Hnew]. rewrite Hnew. unfold same_page. rewrite Z.eqb_refl. by eexists. }
  destruct r as [[]|e].
  - destruct Hr as [Hfree Hnew]. unfold keeps_mapped.
    assert (∀ va', same_page sz va va' = in_region va n va') as Hsp
      by by intros; apply same_page_region.
    split_and!; intros va' Hx.
    + intros Hx'. rewrite Hnew. destruct (same_page sz va va') eqn:Hin; [|done].
      rewrite Hfree in Hx' by done. done.
    + by rewrite Hnew, Hsp, Hx.
    + split; [apply Hfree; by rewrite Hsp|]. rewrite Hnew, Hsp, Hx. unfold n in *.
      rewrite (page_offset va) by done. repeat f_equal.
      apply wadd_small. unfold is_usize, in_region in *. bool_to_prop.
      pose proof span_pos. pose proof (Z.mod_pos_bound (va' - va) va_span). lia.
  - destruct Hr as (Hsame & He & _). unfold keeps_mapped.
    split_and!; intros; rewrite ?Hsame; try done. by intros ->.
Qed.

Lemma covered_keep (s s' : pstate A) (pages : list PageSize) : ∀ va size,
  keeps_mapped s s' → covered s va size pages → covered s' va size pages.
Proof.
  induction pages as [|sz pages IH]; intros va size Hk; simpl; [done|].
  intros ((pa & fl & Htr) & ? & ? & ?). split_and!; eauto 6.
Qed.

(** What [map_region] promises, the error case included. *)
Definition region_post (s s' : pstate A) (va pa size fl : Z) (allow_huge : bool)
    (r : result PagingError unit) : Prop :=
  keeps_mapped s s' ∧
  (∀ va', in_region va size va' = false → translate s' va' = translate s va') ∧
  match r with
  | Ok _ =>
      (∀ va', in_region va size va' = true → translate s va' = Done (Err NotMapped)) ∧
      maps_to s' va pa size fl allow_huge ∧ ∃ pages, covered s' va size pages
  | Err e => e ≠ NotAligned
  end.

Lemma in_region_nil (va va' : Z) : in_region va 0 va' = false.
Proof.
  unfold in_region. apply Z.ltb_ge, Z.mod_pos_bound, span_pos.
Qed.

Lemma region_post_nil (s : pstate A) (va pa fl : Z) (allow_huge : bool) :
  region_post s s va pa 0 fl allow_huge (Ok tt).
Proof.
  split_and!; [by intros ??|done| | |by exists []]; intros va' Hin;
    by rewrite in_region_nil in Hin.
Qed.

Lemma region_post_step (s s1 s2 : pstate A) (va pa size fl : Z) (allow_huge : bool)
    (sz : PageSize) (r : result PagingError unit) :
  let n := PageSize_as_usize sz in
  (n | va) → n ≤ size ≤ va_span → 0 ≤ pa → pa + size ≤ 2 ^ 64 →
  (allow_huge = false → sz = Size4K) →
  keeps_mapped s s1 →
  (∀ va', in_region va n va' = false → translate s1 va' = translate s va') →
  (∀ va', in_region va n va' = true → translate s va' = Done (Err NotMapped) ∧
     translate s1 va' = Done (Ok (pa + (va' - va) mod va_span, fl, sz))) →
  region_post s1 s2 (va ⊕ n) (pa ⊕ n) (size - n) fl allow_huge r →
  region_post s s2 va pa size fl allow_huge r.
Proof.
  intros n Hva Hsize H0 H64 Hh Hk1 Hout1 Hin1 (Hk2 & Hout2 & Hr).
  assert (0 < n) by apply size_pos.
  assert (∀ va', in_region va size va' = in_region va n va' || in_region (va ⊕ n) (size - n) va')
    as Hsplit by (intros; apply in_region_split; lia).
  assert (in_region va n va = true) as Hself.
  { unfold in_region. rewrite Z.sub_diag, Z.mod_0_l by (pose proof span_pos; lia). lia. }
  split_and!.
  - intros va' x Hx. auto.
  - intros va' Hin. rewrite Hsplit in Hin. apply orb_false_iff in Hin as [??].
    rewrite Hout2, Hout1; done.
  - destruct r as [[]|e]; [|done]. destruct Hr as (Hfree2 & Hmap2 & pages & Hcov).
    split_and!.
    + intros va' Hin. destruct (in_region va n va') eqn:Hn; [by apply Hin1|].
      rewrite Hsplit, Hn in Hin. rewrite <- Hout1 by done. auto.
    + intros va' Hin. destruct (in_region va n va') eqn:Hn.
      { exists sz. split; [|done]. apply Hk2. by apply Hin1. }
      rewrite Hsplit, Hn in Hin. simpl in Hin. destruct (Hmap2 va' Hin) as (sz' & Htr & ?).
      exists sz'. split; [|done]. rewrite Htr. do 4 f_equal.
      rewrite (region_offset va n size) by (done || lia).
      rewrite wadd_small; [lia|]. unfold in_region in Hin. bool_to_prop.
      pose proof (Z.mod_pos_bound (va' - (va ⊕ n)) va_span span_pos). unfold is_usize. lia.
    + exists (sz :: pages). simpl. split_and!; [|done|lia|done].
      do 2 eexists. apply Hk2. by apply Hin1.
Qed.

Lemma wadd_4k (a b : Z) : (0x1000 | a) → (0x1000 | b) → (0x1000 | a ⊕ b).
Proof.
  intros Ha Hb. apply Z.mod_divide; [done|]. unfold wadd, wrap.
  rewrite Z.mod_mod_divide by by apply (pow2_divides 12 64).
  apply Z.mod_divide; [done|]. by apply Z.divide_add_r.
Qed.

(** Adding within a region that ends at the top of the address space. *)
Lemma wadd_end (pa n size : Z) :
  0 ≤ pa → 0 < n ≤ size → pa + size ≤ 2 ^ 64 →
  (pa ⊕ n = pa + n ∧ pa + n < 2 ^ 64) ∨ (pa ⊕ n = 0 ∧ size = n).
Proof.
  intros H0 Hn H64. destruct (decide (pa + n < 2 ^ 64)).
  - left. split; [|done]. apply wadd_small. unfold is_usize. lia.
  - right. assert (pa + n = 2 ^ 64) as Heq by lia. unfold wadd, wrap. rewrite Heq.
    split; [done|lia].
Qed.

Lemma map_region_loop_spec (flags : Z) (allow_huge : bool) (fuel : nat) :
  fl_ok flags → ∀ owner s va pa size,
  pt_inv owner s → (0x1000 | va) → (0x1000 | pa) → (0x1000 | size) → 0 ≤ size ≤ va_span →
  0 ≤ pa → pa + size ≤ 2 ^ 64 → (∀ k, 0 ≤ k < size → (0x1000 | k) → pa_ok (pa + k)) →
  (Z.to_nat (size `div` 0x1000) < fuel)%nat →
  ∃ s' r owner', map_region_loop fuel va pa size flags allow_huge s = Done (s', r) ∧
    pt_inv owner' s' ∧ takes owner owner' s s' ∧ stays_used owner owner' s s' va size r ∧
    region_post s s' va pa size (fl_view flags) allow_huge r.
Proof.
  intros Hfl. induction fuel as [|fuel IH]; [lia|].
  intros owner s va pa size Hinv Hva Hpa Hsz Hspan H0 H64 Hok Hfuel. simpl.
  destruct (Z.gtb_spec size 0) as [Hpos|Hneg].
  2: { assert (size = 0) as -> by lia. exists s, (Ok tt), owner.
    split_and!; [done|done|by apply takes_refl|by intros ? _|apply region_post_nil]. }
  assert (0x1000 ≤ size) as Hmin by (destruct Hsz; lia).
  destruct (region_page_size_ok va pa size allow_huge Hva Hpa Hmin) as (Hdv & Hdp & Hle & H4k).
  set (sz := region_page_size va pa size allow_huge) in *.
  destruct (map_one_page owner s va pa flags sz) as
    (s1 & r1 & owner1 & Hrun & Hinv1 & Ht1 & Hu1 & Hk1 & Hout1 & Hr1); try done; [lia| |].
  { replace pa with (pa + 0) by lia. apply Hok; [lia|apply Z.divide_0_r]. }
  unfold mbind, stm_bind. rewrite Hrun.
  destruct r1 as [[]|e].
  2: { pose proof (size_pos sz). exists s1, (Err e), owner1. unfold region_post. split_and!; try done.
    - intros Hused Hfree. apply Hu1; [done|]. intros va' Hin. apply Hfree.
      by rewrite (in_region_split va (PageSize_as_usize sz)), Hin by lia.
    - intros va' Hin. apply Hout1. rewrite (in_region_split va (PageSize_as_usize sz)) in Hin by lia.
      by apply orb_false_iff in Hin as [? _]. }
  set (n := PageSize_as_usize sz) in *. assert (0x1000 ≤ n) by (unfold n; by destruct sz).
  assert ((0x1000 | n)) as Hdn by (unfold n; destruct sz; by apply Z.mod_divide).
  assert (va_span < 2 ^ 64) as Hsm
    by (unfold va_span; destruct Hlev as [-> | ->]; reflexivity).
  assert (size ⊖ n = size - n) as -> by (apply wsub_small; unfold is_usize; lia).
  destruct (IH owner1 s1 (va ⊕ n) (pa ⊕ n) (size - n)) as (s2 & r2 & owner2 & Hrun2 & Hinv2 & Ht2 & Hu2 & Hpost);
    eauto using wadd_4k, Z.divide_sub_r; try lia.
  { destruct (wadd_end pa n size) as [[-> _]|[-> ?]]; lia. }
  { destruct (wadd_end pa n size) as [[-> _]|[-> ?]]; lia. }
  { intros k Hk Hdk. destruct (wadd_end pa n size) as [[-> ?]|[_ ?]]; [lia..| |lia].
    rewrite <- Z.add_assoc. apply Hok; [lia|]. by apply Z.divide_add_r. }
  { apply Nat.lt_le_trans with (Z.to_nat (size `div` 0x1000)); [|lia].
    destruct Hsz as [k ->], Hdn as [j Hj]. rewrite Hj in *.
    replace (k * 4096 - j * 4096) with ((k - j) * 4096) by lia.
    rewrite !Z.div_mul by done. lia. }
  exists s2, r2, owner2. split_and!; [done..|by eapply takes_trans| |eapply (region_post_step s s1 s2 _ _ _ _ _ sz); try done; lia].
  intros Hused Hfree. apply Hu2.
  - apply Hu1; [done|]. intros va' Hin. apply Hfree. by rewrite (in_region_split va n), Hin by lia.
  - intros va' Hin. rewrite Hout1 by (eapply in_region_disjoint; [..|done]; lia).
    apply Hfree. rewrite (in_region_split va n), Hin by lia. apply orb_true_r.
Qed.

Lemma covered_frame (s s' : pstate A) (pages : list PageSize) : ∀ va size,
  size ≤ va_span → covered s va size pages →
  (∀ va', in_region va size va' = true → translate s' va' = translate s va') →
  covered s' va size pages.
Proof.
  induction pages as [|sz pages IH]; intros va size Hsize Hcov Hsame; simpl in *; [done|].
  destruct Hcov as ((pa & fl & Htr) & Hd & Hle & Hcov). pose proof (size_pos sz).
  split_and!; [|done..|].
  - exists pa, fl. rewrite Hsame; [done|]. apply in_region_self. lia.
  - apply IH; [lia|done|]. intros va' Hin. apply Hsame.
    rewrite (in_region_split va (PageSize_as_usize sz)), Hin by lia. apply orb_true_r.
Qed.

Lemma is_aligned_size (va : Z) (sz : PageSize) :
  (PageSize_as_usize sz | va) → is_aligned va (PageSize_as_usize sz) = true.
Proof.
  intros Hd. destruct (size_pow2 sz) as (k & Hk & Heq). rewrite Heq in *.
  by apply is_aligned_divide; [lia|].
Qed.

Lemma unmap_region_loop_spec (pages : list PageSize) : ∀ fuel owner s va size,
  pt_inv owner s → covered s va size pages → 0 ≤ size ≤ va_span →
  (Z.to_nat (size `div` 0x1000) < fuel)%nat →
  ∃ s', unmap_region_loop fuel va size s = Done (s', Ok tt) ∧ pt_inv owner s' ∧
    ∀ va', translate s' va' =
      if in_region va size va' then Done (Err NotMapped) else translate s va'.
Proof.
  induction pages as [|sz pages IH]; intros fuel owner s va size Hinv Hcov Hsize Hfuel;
    (destruct fuel as [|fuel]; [lia|]); simpl in *.
  { subst size. exists s. split_and!; [done..|]. intros va'. by rewrite in_region_nil. }
  destruct Hcov as ((pa & fl & Htr) & Hd & Hle & Hcov). pose proof (size_pos sz) as Hpos.
  destruct (Z.gtb_spec size 0); [|lia].
  destruct (unmap_spec owner s va Hinv) as (s1 & r & Hrun & Hinv1 & Hr).
  unfold mbind, stm_bind. rewrite Hrun. destruct r as [[p sz']|e].
  2: { destruct Hr as (_ & _ & Hr). congruence. }
  destruct Hr as ((fl' & Htr') & Hnew). assert (sz' = sz) as -> by congruence.
  unfold VirtAddr_is_aligned. rewrite is_aligned_size by done. simpl.
  rewrite (proj2 (Z.leb_le _ _) Hle). simpl.
  set (n := PageSize_as_usize sz) in *.
  assert (va_span < 2 ^ 64) as Hsm
    by (unfold va_span; destruct Hlev as [-> | ->]; reflexivity).
  assert (size ⊖ n = size - n) as -> by (apply wsub_small; unfold is_usize; lia).
  unfold VirtAddr_add. assert (∀ va', same_page sz va va' = in_region va n va') as Hsp
    by by intros; apply (same_page_region sz).
  destruct (IH fuel owner s1 (va ⊕ n) (size - n)) as (s2 & -> & Hinv2 & Hnew2); [done| |lia| |].
  { apply (covered_frame s); [lia|done|]. intros va' Hin.
    rewrite Hnew, Hsp, (in_region_disjoint va n size) by (done || lia). done. }
  { assert (0x1000 ≤ n) by (unfold n; by destruct sz).
    assert (0 ≤ (size - n) `div` 0x1000) by (apply Z.div_pos; lia).
    assert ((size - n) `div` 0x1000 < size `div` 0x1000); [|lia].
    pose proof (Z.div_le_mono (size - n) (size - 0x1000) 0x1000).
    replace (size - 4096) with (size + (-1) * 4096) in * by lia.
    rewrite Z.div_add in * by done. lia. }
  exists s2. split_and!; [done..|]. intros va'. rewrite Hnew2, Hnew, Hsp.
  rewrite (in_region_split va n size) by lia. destruct (in_region va n va'), (in_region _ _ va'); done.
Qed.

Lemma try_new_spec (w : world A) :
  ∃ w' r, try_new w = Done (w', r) ∧
  match r with
  | Ok pt => ∃ a, alloc_frame (w_alloc w) = Some (root_paddr pt, a) ∧
      let s := {| ps_mem := w_mem w'; ps_alloc := w_alloc w'; ps_pt := pt |} in
      pt_inv {[root_paddr pt := []]} s ∧ ∀ va, translate s va = Done (Err NotMapped)
  | Err e => e = NoMemory ∧ w' = w ∧ alloc_frame (w_alloc w) = None
  end.
Proof.
  unfold try_new, alloc_table, mbind, stm_bind.
  destruct (alloc_frame (w_alloc w)) as [[p a]|] eqn:Hal; [|by eexists _, _].
  destruct (law_alloc_fresh _ _ _ Hal) as (Hfr & Hown & Hok).
  eexists _, _. split; [done|]. exists a. split; [done|]. simpl.
  match goal with |- pt_inv ?o ?s ∧ _ => assert (pt_inv o s) as Hinv; [|split; [done|]] end.
  - split; simpl.
    + by rewrite lookup_singleton_eq.
    + intros q path [<- <-]%lookup_singleton_Some. split_and!; [done| |].
      * unfold L. destruct Hlev as [-> | ->]; simpl; lia.
      * intros i Hi. left. by apply mem_zero_in.
    + rewrite dom_singleton_L. set_solver.
    + apply NoDup_singleton.
    + rewrite dom_singleton_L, Hown. set_solver.
  - intros va. rewrite (translate_eq _ _ _ Hinv). unfold tr_va. simpl.
    destruct (indices_full va) as [_ Hall]. destruct (indices va) as [|i rest]; [done|].
    apply Forall_cons in Hall as [Hi _]. by rewrite tr_zero by by apply mem_zero_in.
Qed.

Lemma drop_owned (l : list Z) : ∀ a,
  NoDup l → list_to_set l ⊆ owned a →
  owned (foldl (λ a frame, dealloc_frame frame a) a l) = owned a ∖ list_to_set l.
Proof.
  induction l as [|f l IH]; intros a Hnd Hsub; simpl in *; [set_solver|].
  apply NoDup_cons in Hnd as [Hf Hnd]. pose proof (law_dealloc a f) as Hd.
  rewrite IH; [rewrite Hd; set_solver|done|]. rewrite Hd; set_solver.
Qed.

Lemma map_region_aligned (vaddr paddr size flags : Z) (allow_huge : bool) :
  (0x1000 | vaddr) → (0x1000 | paddr) → (0x1000 | size) →
  map_region vaddr paddr size flags allow_huge =
    map_region_loop (region_fuel size) vaddr paddr size flags allow_huge.
Proof.
  intros. unfold map_region, VirtAddr_is_aligned, PhysAddr_is_aligned.
  by rewrite !(is_aligned_size _ Size4K).
Qed.

(** ** Properties *)

(** C1: [map] refines an update of the translation.  It always returns; the
    table stays well formed; on success the page of [vaddr], free before,
    translates every address in it to the aligned target plus the offset, with
    the flags the entry format keeps and the page size given, and no other
    address changes; on failure no address changes. *)
Theorem map_refines (s : pstate A) (vaddr target flags : Z) (page_size : PageSize) :
  let size := PageSize_as_usize page_size in
  pt_ok s → pa_ok (align_down target size) → fl_ok flags →
  ∃ s' r, PageTable.map vaddr target page_size flags s = Done (s', r) ∧ pt_ok s' ∧
  match r with
  | Ok _ => ∀ va,
      (same_page page_size vaddr va = true → translate s va = Done (Err NotMapped)) ∧
      translate s' va =
        if same_page page_size vaddr va
        then Done (Ok (align_down target size ⊕ align_offset va size, fl_view flags, page_size))
        else translate s va
  | Err _ => ∀ va, translate s' va = translate s va
  end.
Proof.
  intros size [owner Hinv] Htgt Hfl.
  destruct (map_spec owner s vaddr target flags page_size Hinv Htgt Hfl)
    as (s' & r & owner' & Hrun & Hinv' & Hr).
  exists s', r. split_and!; [done|by exists owner'|]. destruct r; [|by destruct Hr].
  destruct Hr as [Hfree Hnew]. auto.
Qed.

(** Why [map] fails.  [NoMemory] only when the allocator refused a frame;
    [NotMapped] and [MappedToHugePage] only when a strictly larger page already
    covers the address; [AlreadyMapped] for a 4K page only when the address is
    mapped by a 4K page; [NotAligned] never. *)
Theorem map_error_meaning (s s' : pstate A) (vaddr target flags : Z) (page_size : PageSize)
    (e : PagingError) :
  pt_ok s → pa_ok (align_down target (PageSize_as_usize page_size)) → fl_ok flags →
  PageTable.map vaddr target page_size flags s = Done (s', Err e) →
  match e with
  | NoMemory => ∃ a, alloc_frame a = None
  | NotMapped | MappedToHugePage => ∃ pa fl sz,
      translate s vaddr = Done (Ok (pa, fl, sz)) ∧
      PageSize_as_usize page_size < PageSize_as_usize sz
  | AlreadyMapped =>
      page_size = Size4K → ∃ pa fl, translate s vaddr = Done (Ok (pa, fl, Size4K))
  | NotAligned => False
  end.
Proof.
  intros [owner Hinv] Htgt Hfl Hrun.
  destruct (map_spec owner s vaddr target flags page_size Hinv Htgt Hfl)
    as (s1 & r & owner' & Hrun' & _ & Hr).
  rewrite Hrun in Hrun'. simplify_eq. by destruct Hr.
Qed.

(** C3: [unmap] always returns; it fails with [NotMapped] exactly when [query]
    does, leaving the state as it was; otherwise it returns the frame and the
    size [query] reports, and clears the translation of that page only. *)
Theorem unmap_refines (s : pstate A) (vaddr : Z) :
  pt_ok s →
  ∃ s' r, unmap vaddr s = Done (s', r) ∧ pt_ok s' ∧
  match r with
  | Ok (p, sz) =>
      (∃ fl, translate s vaddr =
         Done (Ok (p ⊕ align_offset vaddr (PageSize_as_usize sz), fl, sz))) ∧
      ∀ va, translate s' va =
        if same_page sz vaddr va then Done (Err NotMapped) else translate s va
  | Err e => e = NotMapped ∧ s' = s ∧ translate s vaddr = Done (Err NotMapped)
  end.
Proof.
  intros [owner Hinv]. destruct (unmap_spec owner s vaddr Hinv) as (s' & r & ? & ? & ?).
  exists s', r. split_and!; [done|by exists owner|done].
Qed.

(** A table from [try_new] is well formed and maps nothing; creation fails
    only with [NoMemory], when the allocator has no frame, and then changes
    nothing. *)
Theorem try_new_empty (w : world A) :
  ∃ w' r, try_new w = Done (w', r) ∧
  match r with
  | Ok pt =>
      let s := {| ps_mem := w_mem w'; ps_alloc := w_alloc w'; ps_pt := pt |} in
      pt_ok s ∧ ∀ va, translate s va = Done (Err NotMapped)
  | Err e => e = NoMemory ∧ w' = w ∧ alloc_frame (w_alloc w) = None
  end.
Proof.
  destruct (try_new_spec w) as (w' & r & Hrun & Hr). exists w', r. split; [done|].
  destruct r; [|done]. destruct Hr as (a & _ & ? & ?). split; [by eexists|done].
Qed.

(** C2: [map_region] on 4K-aligned arguments (a region no larger than the
    address space, frames the entries can hold) always returns.  On success
    every address of the region, unmapped before, translates to the address at
    the same offset from [paddr], through 4K pages unless huge ones were
    allowed; addresses outside never change, mapped ones keep their
    translation even on failure, and the failure is never [NotAligned]. *)
Theorem map_region_refines (s : pstate A) (vaddr paddr size flags : Z) (allow_huge : bool) :
  pt_ok s → fl_ok flags → (0x1000 | vaddr) → (0x1000 | paddr) → (0x1000 | size) →
  0 ≤ size ≤ va_span → 0 ≤ paddr → paddr + size ≤ 2 ^ 64 →
  (∀ k, 0 ≤ k < size → (0x1000 | k) → pa_ok (paddr + k)) →
  ∃ s' r, map_region vaddr paddr size flags allow_huge s = Done (s', r) ∧ pt_ok s' ∧
    (∀ va x, translate s va = Done (Ok x) → translate s' va = Done (Ok x)) ∧
    (∀ va, in_region vaddr size va = false → translate s' va = translate s va) ∧
    match r with
    | Ok _ => ∀ va, in_region vaddr size va = true →
        translate s va = Done (Err NotMapped) ∧
        ∃ sz, translate s' va = Done (Ok (paddr + (va - vaddr) mod va_span, fl_view flags, sz)) ∧
          (allow_huge = false → sz = Size4K)
    | Err e => e ≠ NotAligned
    end.
Proof.
  intros [owner Hinv] Hfl Hva Hpa Hsz Hspan H0 H64 Hok.
  rewrite map_region_aligned by done.
  destruct (map_region_loop_spec flags allow_huge (region_fuel size) Hfl owner s vaddr paddr size)
    as (s' & r & owner' & Hrun & Hinv' & _ & _ & Hk & Hout & Hr); try done; [unfold region_fuel; lia|].
  exists s', r. split_and!; try done; [by exists owner'|].
  destruct r; [|done]. destruct Hr as (Hfree & Hmap & _). intros va Hin.
  split; [auto|]. by apply Hmap.
Qed.

(** [map_region] refuses arguments that are not aligned to 4K and leaves
    the state as it was. *)
Theorem map_region_not_aligned (s : pstate A) (vaddr paddr size flags : Z) (allow_huge : bool) :
  ¬ ((0x1000 | vaddr) ∧ (0x1000 | paddr) ∧ (0x1000 | size)) →
  map_region vaddr paddr size flags allow_huge s = Done (s, Err NotAligned).
Proof.
  intros Hn. unfold map_region, VirtAddr_is_aligned, PhysAddr_is_aligned.
  assert (∀ a, is_aligned a (PageSize_as_usize Size4K) = true → (0x1000 | a)) as Hal
    by (intros a Ha; by apply (is_aligned_divide a 12)).
  destruct (is_aligned vaddr _) eqn:?, (is_aligned paddr _) eqn:?, (is_aligned size _) eqn:?;
    try done. destruct Hn. auto.
Qed.

(** C5: [unmap_region] undoes [map_region]: after a successful [map_region] it
    succeeds on the same region, no assertion failing, and every address
    translates as it did at first. *)
Theorem map_unmap_region (s s1 : pstate A) (vaddr paddr size flags : Z) (allow_huge : bool) :
  pt_ok s → fl_ok flags → (0x1000 | vaddr) → (0x1000 | paddr) → (0x1000 | size) →
  0 ≤ size ≤ va_span → 0 ≤ paddr → paddr + size ≤ 2 ^ 64 →
  (∀ k, 0 ≤ k < size → (0x1000 | k) → pa_ok (paddr + k)) →
  map_region vaddr paddr size flags allow_huge s = Done (s1, Ok tt) →
  ∃ s2, unmap_region vaddr size s1 = Done (s2, Ok tt) ∧ pt_ok s2 ∧
    ∀ va, translate s2 va = translate s va.
Proof.
  intros [owner Hinv] Hfl Hva Hpa Hsz Hspan H0 H64 Hok Hrun.
  rewrite map_region_aligned in Hrun by done.
  destruct (map_region_loop_spec flags allow_huge (region_fuel size) Hfl owner s vaddr paddr size)
    as (s' & r & owner' & Hrun' & Hinv' & _ & _ & Hk & Hout & Hr); try done; [unfold region_fuel; lia|].
  rewrite Hrun in Hrun'. simplify_eq. destruct Hr as (Hfree & _ & pages & Hcov).
  destruct (unmap_region_loop_spec pages (region_fuel size) owner' s' vaddr size)
    as (s2 & Hrun2 & Hinv2 & Hnew); try done; [unfold region_fuel; lia|].
  exists s2. split_and!; [done|by exists owner'|]. intros va. rewrite Hnew.
  destruct (in_region vaddr size va) eqn:Hin; [by rewrite Hfree|auto].
Qed.

(** C12: dropping a table returns exactly its intermediate tables to the
    allocator, each of them once and while it is still allocated. *)
Theorem drop_frees_tables (s : pstate A) :
  pt_ok s →
  owned (drop_table s) = owned (ps_alloc s) ∖ list_to_set (intrm_tables (ps_pt s)) ∧
  root_paddr (ps_pt s) ∈ intrm_tables (ps_pt s) ∧
  ∀ l1 f l2, intrm_tables (ps_pt s) = l1 ++ f :: l2 →
    f ∈ owned (foldl (λ a frame, dealloc_frame frame a) (ps_alloc s) l1).
Proof.
  intros [owner [Hroot Htab Hdom Hnd Hown]]. rewrite Hdom in Hown. split_and!.
  - by apply drop_owned.
  - apply elem_of_dom_2 in Hroot. rewrite Hdom in Hroot. set_solver.
  - intros l1 f l2 Heq. rewrite Heq in *. apply NoDup_app in Hnd as (Hnd & Hdis & _).
    rewrite list_to_set_app_L in Hown. simpl in Hown. rewrite drop_owned; [|done|set_solver].
    specialize (Hdis f). set_solver.
Qed.

End spec.

(** ** Instances *)

(** A frame provider with a list of free frames and identity mapping of
    physical memory: it meets [PagingIfLaws], so the theorems above apply to
    x86-64 tables over it. *)
Definition list_if : PagingIf (list Z * gset Z) := {|
  alloc_frame a :=
    match a.1 with
    | p :: free =>
        if bool_decide (p ∉ a.2) && (p mod 2 ^ 12 =? 0) && (0 <=? p) && (p <? 2 ^ 52)
        then Some (p, (free, {[p]} ∪ a.2)) else None
    | [] => None
    end;
  alloc_frames n a := None;
  dealloc_frame p a := (p :: a.1, a.2 ∖ {[p]});
  phys_to_virt p := p;
|}.

Lemma list_if_laws : PagingIfLaws list_if snd (frame_ok 52).
Proof.
  split; simpl.
  - intros [[|p free] own] q a' Hal; simpl in *; [done|].
    destruct (_ && _) eqn:Hc; simplify_eq. bool_to_prop. apply bool_decide_eq_true_1 in H.
    split_and!; [done..|]. split; [|lia]. by apply Z.mod_divide.
  - done.
  - intros p q i j [[k ->] ?] [[l ->] ?] ? ? ?. f_equal. lia.
Qed.

#[local] Existing Instance list_if_laws.
#[local] Existing Instance list_if.
#[local] Existing Instance X64PTE.
#[local] Existing Instance X64PagingMetaData.

Definition demo_world (free : list Z) : world (list Z * gset Z) :=
  {| w_mem := λ _, 0; w_alloc := (0x1000 :: free, ∅) |}.

(** A fresh table with root frame 0x1000. *)
Definition demo_state (free : list Z) : pstate (list Z * gset Z) := {|
  ps_mem := mem_zero (λ _, 0) 0x1000 0x1000;
  ps_alloc := (free, {[0x1000]} ∪ ∅);
  ps_pt := {| root_paddr := 0x1000; intrm_tables := [0x1000] |};
|}.

Lemma x64_levels : LEVELS = 3 ∨ LEVELS = 4.
Proof. by right. Qed.

Lemma demo_ok (free : list Z) :
  pt_ok (pa_ok := frame_ok 52) (fl_ok := X64_fl_ok) (owned := snd) (demo_state free).
Proof.
  destruct (try_new_spec x64_levels (demo_world free)) as (w' & r & Hrun & Hr).
  change (try_new (demo_world free)) with
    (Done (Build_world (list Z * gset Z) (mem_zero (λ _, 0) 0x1000 0x1000) (free, {[0x1000]} ∪ ∅),
       Ok (E := PagingError) {| root_paddr := 0x1000; intrm_tables := [0x1000] |})) in Hrun.
  simplify_eq. destruct Hr as (a & _ & Hinv & _). by eexists.
Qed.

Definition demo_free : list Z := [0x2000; 0x3000; 0x4000; 0x5000].

Definition state_after {S T} (o : outcome (S * T)) (d : S) : S :=
  match o with Done (s, _) => s | Panic => d end.

Lemma run_ok {S E} (o : outcome (S * result E unit)) (d : S) :
  match o with Done (_, Ok _) => true | _ => false end = true →
  o = Done (state_after o d, Ok tt).
Proof. by destruct o as [[s [[]|e]]|]. Qed.

Lemma map_refines_witness :
  ∃ s' r, PageTable.map 0x40001000 0x8000 Size4K MF_READ (demo_state demo_free) = Done (s', r) ∧
    pt_ok (pa_ok := frame_ok 52) (fl_ok := X64_fl_ok) (owned := snd) s'.
Proof.
  destruct (map_refines x64_levels (demo_state demo_free) 0x40001000 0x8000 MF_READ Size4K)
    as (s' & r & Hrun & Hok & _).
  - apply demo_ok.
  - vm_compute. split; [by exists 8|done].
  - by split.
  - by exists s', r.
Defined.

Lemma map_error_meaning_witness : ∃ a, alloc_frame (PagingIf := list_if) a = None.
Proof.
  apply (map_error_meaning x64_levels (demo_state []) (demo_state []) 0x40001000 0x8000 MF_READ
    Size4K NoMemory).
  - apply demo_ok.
  - vm_compute. split; [by exists 8|done].
  - by split.
  - reflexivity.
Defined.

Lemma unmap_refines_witness :
  ∃ s' r, unmap 0x40001000 (demo_state demo_free) = Done (s', r) ∧
    pt_ok (pa_ok := frame_ok 52) (fl_ok := X64_fl_ok) (owned := snd) s'.
Proof.
  destruct (unmap_refines x64_levels (demo_state demo_free) 0x40001000)
    as (s' & r & Hrun & Hok & _); [apply demo_ok|]. by exists s', r.
Defined.

Lemma try_new_empty_witness :
  ∃ w' r, try_new (demo_world demo_free) = Done (w', r).
Proof.
  destruct (try_new_empty x64_levels (demo_world demo_free)) as (w' & r & Hrun & _).
  by exists w', r.
Defined.

Lemma demo_frames (k : Z) : 0 ≤ k < 0x1000 → (0x1000 | k) → frame_ok 52 (0x8000 + k).
Proof. intros Hk [q ->]. split; [|lia]. exists (8 + q). lia. Qed.

Lemma map_region_refines_witness :
  ∃ s' r, map_region 0x40001000 0x8000 0x1000 MF_READ false (demo_state demo_free) = Done (s', r) ∧
    pt_ok (pa_ok := frame_ok 52) (fl_ok := X64_fl_ok) (owned := snd) s'.
Proof.
  destruct (map_region_refines x64_levels (demo_state demo_free) 0x40001000 0x8000 0x1000 MF_READ
    false) as (s' & r & Hrun & Hok & _);
    [apply demo_ok|done|by exists 0x40001|by exists 8|by exists 1|done..|apply demo_frames|].
  by exists s', r.
Defined.

Lemma map_region_not_aligned_witness :
  map_region 0x40001001 0x8000 0x1000 MF_READ false (demo_state demo_free) =
    Done (demo_state demo_free, Err NotAligned).
Proof.
  apply map_region_not_aligned. intros (Hd & _). apply Z.mod_divide in Hd; [|done].
  by vm_compute in Hd.
Defined.

Lemma map_unmap_region_witness :
  ∃ s2, unmap_region 0x40001000 0x1000
    (state_after (map_region 0x40001000 0x8000 0x1000 MF_READ false (demo_state demo_free))
       (demo_state [])) = Done (s2, Ok tt).
Proof.
  destruct (map_unmap_region x64_levels (demo_state demo_free)
    (state_after (map_region 0x40001000 0x8000 0x1000 MF_READ false (demo_state demo_free))
       (demo_state [])) 0x40001000 0x8000 0x1000 MF_READ false) as (s2 & Hrun & _);
    [apply demo_ok|done|by exists 0x40001|by exists 8|by exists 1|done..|apply demo_frames| |].
  - by apply run_ok.
  - by exists s2.
Defined.

Lemma drop_frees_tables_witness :
  (drop_table (demo_state demo_free)).2 =
    (ps_alloc (demo_state demo_free)).2 ∖ list_to_set (intrm_tables (ps_pt (demo_state demo_free))).
Proof.
  destruct (drop_frees_tables (pa_ok := frame_ok 52) (fl_ok := X64_fl_ok) (owned := snd)
    x64_levels (demo_state demo_free)) as [Hown _]; [apply demo_ok|exact Hown].
Defined.
