(* ===== verification/LinkedList.v ===== *)
(** * The intrusive doubly linked list ([crates/linked_list])

    [unsafe_list::List] is a circular list threaded through a [Links] field of
    its entries.  An entry is its address, the [Links] fields of all entries
    are one finite map in which an uninitialised field is absent, and reading
    an uninitialised field, undefined in the source, is [Panic].  The safe
    wrapper [List] of [linked_list.rs] hands out owned pointers ([Box], [Arc]
    or references); its conversions to and from raw pointers are the identity
    on addresses. *)

From S2P Require Import Prelude.
From stdpp Require Import base numbers list gmap.

Open Scope Z_scope.

(** ** [unsafe_list] *)

Record LinksInner := {
  link_next : Z;
  link_prev : Z;
}.

Record UList := {
  links : gmap Z LinksInner;
  first : option Z;
}.

Definition with_links (s : UList) (m : gmap Z LinksInner) : UList :=
  {| links := m; first := first s |}.
Definition with_first (s : UList) (f : option Z) : UList :=
  {| links := links s; first := f |}.

(** [List::new]; the links of the entries are uninitialised. *)
Definition ul_new : UList := {| links := ∅; first := None |}.

Definition ul_is_empty (s : UList) : bool := bool_decide (first s = None).

(** [inner_ref], and the two assignments the code makes through [inner]. *)
Definition inner_ref (s : UList) (ptr : Z) : outcome LinksInner := unwrap (links s !! ptr).

Definition set_next (s : UList) (ptr v : Z) : outcome UList :=
  i ← inner_ref s ptr;
  Done (with_links s (<[ptr := {| link_next := v; link_prev := link_prev i |}]> (links s))).

Definition set_prev (s : UList) (ptr v : Z) : outcome UList :=
  i ← inner_ref s ptr;
  Done (with_links s (<[ptr := {| link_next := link_next i; link_prev := v |}]> (links s))).

(** [MaybeUninit::write] and [assume_init_drop] on the links of an entry. *)
Definition write_links (s : UList) (ptr : Z) (i : LinksInner) : UList :=
  with_links s (<[ptr := i]> (links s)).
Definition drop_links (s : UList) (ptr : Z) : UList := with_links s (delete ptr (links s)).

Definition insert_only_entry (obj : Z) (s : UList) : UList :=
  with_first (write_links s obj {| link_next := obj; link_prev := obj |}) (Some obj).

Definition ul_insert_after (existing new : Z) (s : UList) : outcome UList :=
  existing_inner ← inner_ref s existing;
  let next := link_next existing_inner in
  let s := write_links s new {| link_next := next; link_prev := existing |} in
  s ← set_next s existing new;
  set_prev s next new.

Definition ul_push_back (obj : Z) (s : UList) : outcome UList :=
  match first s with
  | Some first => i ← inner_ref s first; ul_insert_after (link_prev i) obj s
  | None => Done (insert_only_entry obj s)
  end.

Definition ul_insert_before (existing new : Z) (s : UList) : outcome UList :=
  i ← inner_ref s existing;
  s ← ul_insert_after (link_prev i) new s;
  f ← unwrap (first s);
  Done (if f =? existing then with_first s (Some new) else s).

Definition ul_push_front (obj : Z) (s : UList) : outcome UList :=
  match first s with
  | Some first => ul_insert_before first obj s
  | None => Done (insert_only_entry obj s)
  end.

Definition ul_remove (entry : Z) (s : UList) : outcome UList :=
  inner ← inner_ref s entry;
  let next := link_next inner in
  let prev := link_prev inner in
  let s := drop_links s entry in
  if next =? entry then Done (with_first s None)
  else
    s ← set_next s prev next;
    s ← set_prev s next prev;
    f ← unwrap (first s);
    Done (if f =? entry then with_first s (Some next) else s).

Definition ul_front (s : UList) : option Z := first s.

Definition ul_back (s : UList) : outcome (option Z) :=
  match first s with
  | Some f => i ← inner_ref s f; Done (Some (link_prev i))
  | None => Done None
  end.

(** A cursor is the entry it is on; the list it borrows is the argument. *)
Definition cursor_front (s : UList) : option Z := ul_front s.
Definition cursor_back (s : UList) : outcome (option Z) := ul_back s.
Definition cursor_current (cur : option Z) : option Z := cur.

Definition move_next (s : UList) (cur : option Z) : outcome (option Z) :=
  match cur with
  | None => Done (first s)
  | Some cur =>
      match first s with
      | Some head =>
          i ← inner_ref s cur;
          Done (if negb (link_next i =? head) then Some (link_next i) else None)
      | None => Done None
      end
  end.

Definition move_prev (s : UList) (cur : option Z) : outcome (option Z) :=
  match first s with
  | None => Done None
  | Some head =>
      match cur with
      | None => i ← inner_ref s head; Done (Some (link_prev i))
      | Some cur =>
          if cur =? head then Done None
          else i ← inner_ref s cur; Done (Some (link_prev i))
      end
  end.

(** [Iterator::next] and [next_back]. *)
Definition iter_next (s : UList) (cur : option Z) : outcome (option Z * option Z) :=
  match cursor_current cur with
  | None => Done (None, cur)
  | Some ret => cur ← move_next s cur; Done (Some ret, cur)
  end.

Definition iter_next_back (s : UList) (cur : option Z) : outcome (option Z * option Z) :=
  match cursor_current cur with
  | None => Done (None, cur)
  | Some ret => cur ← move_prev s cur; Done (Some ret, cur)
  end.

(** Running an iterator until it returns [None], in at most [fuel] calls. *)
Fixpoint iter_collect (step : option Z → outcome (option Z * option Z)) (fuel : nat)
    (cur : option Z) : outcome (list Z) :=
  match fuel with
  | O => Panic
  | S fuel =>
      r ← step cur;
      match r with
      | (None, _) => Done []
      | (Some x, cur) => l ← iter_collect step fuel cur; Done (x :: l)
      end
  end.

Definition ul_iter (fuel : nat) (s : UList) : outcome (list Z) :=
  iter_collect (iter_next s) fuel (cursor_front s).

Definition ul_iter_back (fuel : nat) (s : UList) : outcome (list Z) :=
  cur ← cursor_back s; iter_collect (iter_next_back s) fuel cur.

(** ** [linked_list] *)

Definition list_push_back (data : Z) (s : UList) : outcome UList := ul_push_back data s.

Definition list_insert_after (existing data : Z) (s : UList) : outcome UList :=
  ul_insert_after existing data s.

Definition list_remove (data : Z) (s : UList) : outcome (option Z * UList) :=
  s ← ul_remove data s; Done (Some data, s).

Definition list_pop_front (s : UList) : outcome (option Z * UList) :=
  match ul_front s with
  | None => Done (None, s)
  | Some entry => s ← ul_remove entry s; Done (Some entry, s)
  end.

Definition list_front (s : UList) : option Z := ul_front s.
Definition list_back (s : UList) : outcome (option Z) := ul_back s.

(** [Drop]: pop until empty; returns the entries released, in order. *)
Fixpoint list_drop (fuel : nat) (s : UList) : outcome (list Z * UList) :=
  match fuel with
  | O => Panic
  | S fuel =>
      r ← list_pop_front s;
      match r with
      | (None, s) => Done ([], s)
      | (Some x, s) => r ← list_drop fuel s; Done (x :: r.1, r.2)
      end
  end.

(** ** Representation *)

(** The entries [l] are linked in order, the first after [p], the last
    before [n]. *)
Fixpoint seg (m : gmap Z LinksInner) (p : Z) (l : list Z) (n : Z) : Prop :=
  match l with
  | [] => True
  | x :: l =>
      m !! x = Some {| link_next := default n (head l); link_prev := p |} ∧ seg m x l n
  end.

Definition ring (m : gmap Z LinksInner) (l : list Z) : Prop :=
  seg m (default 0 (last l)) l (default 0 (head l)).

(** The list holds the entries [l]. *)
Definition is_list (s : UList) (l : list Z) : Prop :=
  first s = head l ∧ NoDup l ∧ ring (links s) l.

Section lemmas.
Implicit Types (m : gmap Z LinksInner) (l : list Z).

Lemma seg_app m p l1 l2 n :
  seg m p (l1 ++ l2) n ↔
  seg m p l1 (default n (head l2)) ∧ seg m (default p (last l1)) l2 n.
Proof.
  revert p. induction l1 as [|x l1 IH]; intros p; simpl; [naive_solver|].
  rewrite IH. assert (default n (head (l1 ++ l2)) = default (default n (head l2)) (head l1))
    as -> by by destruct l1.
  assert (default p (last (x :: l1)) = default x (last l1)) as ->
    by by rewrite last_cons; destruct (last l1).
  naive_solver.
Qed.

Lemma seg_frame m m' p l n :
  (∀ x, x ∈ l → m' !! x = m !! x) → seg m p l n → seg m' p l n.
Proof.
  revert p. induction l as [|x l IH]; intros p Hm; simpl; [done|].
  intros [Hx Hl]. split; [rewrite Hm; [done|set_solver]|]. apply IH; [set_solver|done].
Qed.

(** A ring can start at any of its entries. *)
Lemma ring_rotate m l1 l2 : ring m (l1 ++ l2) → ring m (l2 ++ l1).
Proof.
  destruct l1 as [|x l1]; [by rewrite app_nil_r|].
  destruct l2 as [|y l2]; [by rewrite app_nil_r|].
  unfold ring. rewrite !seg_app, !last_app. simpl head. simpl default.
  destruct (last (x :: l1)) eqn:H1; [|by apply last_None in H1].
  destruct (last (y :: l2)) eqn:H2; [|by apply last_None in H2].
  simpl default. naive_solver.
Qed.

Lemma ring_lookup m l x : ring m l → x ∈ l → ∃ i, m !! x = Some i.
Proof.
  intros Hr [l1 [l2 ->]]%list_elem_of_split. unfold ring in Hr.
  apply seg_app in Hr as [_ [Hx _]]. by eexists.
Qed.

(** Inserting after the last entry of a ring. *)
Lemma insert_after_end (s : UList) (l : list Z) (e x : Z) :
  ring (links s) (l ++ [e]) → NoDup (l ++ [e]) → x ∉ l ++ [e] →
  ∃ s', ul_insert_after e x s = Done s' ∧ first s' = first s ∧
    ring (links s') (l ++ [e] ++ [x]) ∧
    ∀ y, y ∉ l ++ [e; x] → links s' !! y = links s !! y.
Proof.
  intros Hr Hnd Hx. destruct s as [m f]. simpl in *.
  unfold ul_insert_after, inner_ref, set_next, set_prev. simpl.
  destruct l as [|h t]; simpl in *.
  - unfold ring in Hr. simpl in Hr. destruct Hr as [He _].
    assert (x ≠ e) by set_solver. unfold mbind, outcome_bind, inner_ref. rewrite He. simpl.
    rewrite (lookup_insert_ne m x e) by done. rewrite He. simpl.
    rewrite lookup_insert_eq. simpl. eexists. split; [done|]. simpl. split_and!; [done| |].
    + unfold ring. simpl. by simplify_map_eq.
    + intros y Hy. assert (y ≠ e ∧ y ≠ x) as [??] by set_solver. by simplify_map_eq.
  - unfold ring in Hr. rewrite app_comm_cons, last_snoc in Hr. simpl in Hr.
    destruct Hr as [Hh Ht]. apply seg_app in Ht as [Ht He]. simpl in *. destruct He as [He _].
    apply NoDup_cons in Hnd as [Hh1 Hnd]. apply NoDup_app in Hnd as (Hnt & Het & _).
    assert (h ≠ e ∧ x ≠ e ∧ x ≠ h ∧ x ∉ t) as (? & ? & ? & ?) by set_solver.
    unfold mbind, outcome_bind, inner_ref. rewrite He. simpl.
    rewrite (lookup_insert_ne m x e), He by done. simpl.
    rewrite (lookup_insert_ne _ e h), (lookup_insert_ne m x h), Hh by done. simpl.
    eexists. split; [done|]. simpl. split_and!; [done| |].
    + unfold ring. change (h :: t ++ [e; x]) with (h :: t ++ [e] ++ [x]).
      rewrite app_comm_cons, app_assoc, last_snoc. simpl. split.
      { simplify_map_eq. by destruct t. }
      rewrite <- app_assoc. apply seg_app. simpl. split_and!; [|by simplify_map_eq..|done].
      eapply seg_frame; [|exact Ht]. intros y Hy.
      assert (y ≠ h ∧ y ≠ e ∧ y ≠ x) as (? & ? & ?) by set_solver. by simplify_map_eq.
    + intros y Hy. assert (y ≠ h ∧ y ≠ e ∧ y ≠ x) as (? & ? & ?) by set_solver.
      by simplify_map_eq.
Qed.

(** Removing the last entry of a ring. *)
Lemma remove_end (s : UList) (l : list Z) (e : Z) :
  ring (links s) (l ++ [e]) → NoDup (l ++ [e]) → is_Some (first s) →
  ∃ s', ul_remove e s = Done s' ∧ ring (links s') l ∧
    first s' = (match l with
                | [] => None
                | h :: _ => if bool_decide (first s = Some e) then Some h else first s
                end) ∧
    links s' !! e = None ∧
    ∀ y, y ∉ l ++ [e] → links s' !! y = links s !! y.
Proof.
  intros Hr Hnd [f Hf]. destruct s as [m f0]. simpl in *. subst f0.
  unfold ul_remove, inner_ref, set_next, set_prev, drop_links. simpl.
  unfold mbind, outcome_bind, inner_ref.
  destruct l as [|h t]; simpl in *.
  { unfold ring in Hr. simpl in Hr. destruct Hr as [He _]. rewrite He. simpl.
    rewrite Z.eqb_refl. eexists. split; [done|]. simpl. split_and!; [done..|by simplify_map_eq|].
    intros y Hy. assert (y ≠ e) by set_solver. by simplify_map_eq. }
  unfold ring in Hr. rewrite app_comm_cons, last_snoc in Hr. simpl in Hr.
  destruct Hr as [Hh Ht]. apply seg_app in Ht as [Ht He]. simpl in *. destruct He as [He _].
  apply NoDup_cons in Hnd as [Hh1 Hnd]. apply NoDup_app in Hnd as (Hnt & Het & _).
  assert (h ≠ e ∧ h ∉ t) as (Hhe & Hht) by set_solver. rewrite He. simpl.
  rewrite (proj2 (Z.eqb_neq h e) Hhe).
  destruct t as [|p t _] using rev_ind; simpl in *.
  - rewrite lookup_delete_ne, Hh by done. simpl. rewrite lookup_insert_eq. simpl.
    eexists. split; [done|]. destruct (Z.eqb_spec f e) as [->|]; simpl;
      (split_and!; [|case_bool_decide; naive_solver|by simplify_map_eq|]).
    all: try (unfold ring; simpl; by simplify_map_eq).
    all: intros y Hy; assert (y ≠ h ∧ y ≠ e) as [??] by set_solver; by simplify_map_eq.
  - rewrite last_snoc in *. simpl in *. apply seg_app in Ht as [Ht [Hp _]]. simpl in Hp.
    assert (p ≠ e ∧ p ≠ h ∧ (e ∉ t) ∧ p ∉ t) as (? & ? & ? & ?).
    { apply NoDup_app in Hnt as (_ & Hd & _). set_solver. }
    rewrite lookup_delete_ne, Hp by done. simpl.
    rewrite lookup_insert_ne, lookup_delete_ne, Hh by done. simpl.
    eexists. split; [done|]. destruct (Z.eqb_spec f e) as [->|]; simpl;
      (split_and!; [|case_bool_decide; naive_solver|by simplify_map_eq|]).
    all: try (intros y Hy; assert (y ≠ h ∧ y ≠ e ∧ y ≠ p) as (?&?&?) by set_solver;
      by simplify_map_eq).
    all: unfold ring; rewrite app_comm_cons, last_snoc; simpl; split;
      [simplify_map_eq; by destruct t|].
    all: apply seg_app; simpl; split; [|split; [by simplify_map_eq|done]].
    all: eapply seg_frame; [|exact Ht]; intros y Hy;
      assert (y ≠ h ∧ y ≠ e ∧ y ≠ p) as (?&?&?) by set_solver; by simplify_map_eq.
Qed.

(** ** Each operation against the sequence of entries *)

Lemma insert_after_spec (s : UList) (l1 l2 : list Z) (e x : Z) :
  is_list s (l1 ++ e :: l2) → x ∉ l1 ++ e :: l2 →
  ∃ s', ul_insert_after e x s = Done s' ∧ is_list s' (l1 ++ e :: x :: l2).
Proof.
  intros (Hf & Hnd & Hr) Hx.
  assert (l1 ++ e :: l2 ≡ₚ (l2 ++ l1) ++ [e]) as Hperm.
  { by rewrite <- app_assoc, (Permutation_app_comm l2), <- app_assoc. }
  destruct (insert_after_end s (l2 ++ l1) e x) as (s' & Hrun & Hf' & Hr' & _).
  - rewrite <- app_assoc. apply ring_rotate. by rewrite <- app_assoc.
  - by rewrite <- Hperm.
  - intros Hin. by rewrite <- Hperm in Hin.
  - exists s'. split; [done|]. split_and!.
    + rewrite Hf', Hf. by destruct l1.
    + assert (l1 ++ e :: x :: l2 ≡ₚ x :: l1 ++ e :: l2) as ->.
      { solve_Permutation. }
      by apply NoDup_cons.
    + rewrite <- app_assoc in Hr'. apply ring_rotate in Hr'.
      by rewrite <- app_assoc in Hr'.
Qed.

Lemma ring_prev_first (m : gmap Z LinksInner) (h : Z) (t : list Z) :
  ring m (h :: t) →
  ∃ i, m !! h = Some i ∧ Some (link_prev i) = last (h :: t).
Proof.
  unfold ring. destruct (last (h :: t)) eqn:Hl; [|by apply last_None in Hl].
  simpl. intros [Hh _]. by eexists.
Qed.

Lemma insert_only_spec (s : UList) (x : Z) : is_list (insert_only_entry x s) [x].
Proof.
  split_and!; [done|apply NoDup_singleton|]. unfold ring. simpl. by rewrite lookup_insert_eq.
Qed.

Lemma push_back_spec (s : UList) (l : list Z) (x : Z) :
  is_list s l → x ∉ l → ∃ s', ul_push_back x s = Done s' ∧ is_list s' (l ++ [x]).
Proof.
  intros Hl Hx. pose proof Hl as (Hf & Hnd & Hr). unfold ul_push_back. rewrite Hf.
  destruct l as [|h t]; simpl; [eauto using insert_only_spec|].
  destruct (ring_prev_first _ _ _ Hr) as (i & Hi & Hlast).
  unfold mbind, outcome_bind, inner_ref. rewrite Hi. simpl.
  symmetry in Hlast. apply last_Some in Hlast as [l' Hl']. rewrite app_comm_cons, Hl' in *.
  destruct (insert_after_spec s l' [] (link_prev i) x) as (s' & ? & ?); [done..|].
  exists s'. split; [done|]. by rewrite <- app_assoc.
Qed.

Lemma head_in_first (s : UList) (h e : Z) (l1 l2 : list Z) :
  is_list s (l1 ++ e :: l2) → NoDup (l1 ++ e :: l2) →
  first s = Some e ↔ l1 = [].
Proof.
  intros (Hf & _ & _) Hnd. rewrite Hf. destruct l1 as [|y l1]; simpl; [done|].
  split; [|done]. intros [= ->]. apply NoDup_cons in Hnd as [Hy _]. set_solver.
Qed.

Lemma remove_spec (s : UList) (l1 l2 : list Z) (e : Z) :
  is_list s (l1 ++ e :: l2) →
  ∃ s', ul_remove e s = Done s' ∧ is_list s' (l1 ++ l2).
Proof.
  intros Hl. pose proof Hl as (Hf & Hnd & Hr).
  assert (l1 ++ e :: l2 ≡ₚ (l2 ++ l1) ++ [e]) as Hperm.
  { by rewrite <- app_assoc, (Permutation_app_comm l2), <- app_assoc. }
  destruct (remove_end s (l2 ++ l1) e) as (s' & Hrun & Hr' & Hf' & _).
  - rewrite <- app_assoc. apply ring_rotate. by rewrite <- app_assoc.
  - by rewrite <- Hperm.
  - rewrite Hf. by destruct l1.
  - exists s'. split; [done|]. split_and!.
    + rewrite Hf'. pose proof (head_in_first s e e l1 l2 Hl Hnd) as Hhd.
      destruct l1 as [|h l1]; simpl.
      * rewrite app_nil_r. rewrite bool_decide_eq_true_2 by by apply Hhd. by destruct l2.
      * rewrite bool_decide_eq_false_2 by naive_solver. rewrite Hf. simpl.
        destruct (l2 ++ h :: l1) eqn:Heq; [by apply app_eq_nil in Heq as [_ ?]|done].
    + apply NoDup_app in Hnd as (? & Hd & [? ?]%NoDup_cons). apply NoDup_app.
      split_and!; [done|set_solver|done].
    + by apply ring_rotate.
Qed.

Lemma insert_before_spec (s : UList) (l1 l2 : list Z) (e x : Z) :
  is_list s (l1 ++ e :: l2) → x ∉ l1 ++ e :: l2 →
  ∃ s', ul_insert_before e x s = Done s' ∧ is_list s' (l1 ++ x :: e :: l2).
Proof.
  intros Hl Hx. pose proof Hl as (Hf & Hnd & Hr). unfold ul_insert_before.
  apply (ring_rotate _ l1) in Hr as Hr'. simpl in Hr'.
  destruct (ring_prev_first _ _ _ Hr') as (i & Hi & Hlast).
  unfold mbind, outcome_bind, inner_ref. rewrite Hi. simpl.
  destruct l1 as [|y l1 _] using rev_ind.
  - rewrite app_nil_r in Hlast. symmetry in Hlast. apply last_Some in Hlast as [l' Hl'].
    simpl in *. rewrite Hl' in *.
    destruct (insert_after_spec s l' [] (link_prev i) x) as (s' & -> & Hf' & Hnd' & Hring); [done..|].
    assert (first s' = Some e) as ->.
    { rewrite Hf'. destruct l' as [|? l']; simpl in *; congruence. }
    simpl. rewrite Z.eqb_refl. eexists. split; [done|]. rewrite <- Hl' in *.
    change (l' ++ [link_prev i; x]) with (l' ++ [link_prev i] ++ [x]) in *.
    rewrite app_assoc, <- Hl' in *. split_and!; [done| |].
    + rewrite Permutation_app_comm in Hnd'. done.
    + by apply ring_rotate in Hring.
  - rewrite app_comm_cons, app_assoc, last_snoc in Hlast. injection Hlast as Hy.
    rewrite Hy in *. rewrite <- app_assoc in *. simpl in *.
    destruct (insert_after_spec s l1 (e :: l2) y x Hl Hx) as (s' & -> & Hl').
    pose proof Hl' as (Hf' & Hnd' & _).
    assert (first s' ≠ Some e ∧ is_Some (first s')) as [Hne [f Hfs]].
    { rewrite Hf'. apply NoDup_app in Hnd' as (_ & Hd & Hnd'). destruct l1 as [|z l1]; simpl.
      - split; [|by eexists]. intros [= ->]. apply NoDup_cons in Hnd' as [? _]. set_solver.
      - split; [|by eexists]. intros [= ->]. specialize (Hd e). set_solver. }
    rewrite Hfs in *. simpl. destruct (Z.eqb_spec f e); [congruence|]. eauto.
Qed.

Lemma push_front_spec (s : UList) (l : list Z) (x : Z) :
  is_list s l → x ∉ l → ∃ s', ul_push_front x s = Done s' ∧ is_list s' (x :: l).
Proof.
  intros Hl Hx. pose proof Hl as (Hf & Hnd & Hr). unfold ul_push_front. rewrite Hf.
  destruct l as [|h t]; simpl; [eauto using insert_only_spec|].
  by apply (insert_before_spec s [] t h x).
Qed.

Lemma pop_front_spec (s : UList) (l : list Z) :
  is_list s l →
  ∃ s', list_pop_front s = Done (head l, s') ∧ is_list s' (tail l).
Proof.
  intros Hl. pose proof Hl as (Hf & _). unfold list_pop_front, ul_front. rewrite Hf.
  destruct l as [|h t]; simpl; [by exists s|].
  destruct (remove_spec s [] t h Hl) as (s' & Hrun & Hl').
  unfold mbind, outcome_bind. rewrite Hrun. by exists s'.
Qed.

Lemma back_spec (s : UList) (l : list Z) : is_list s l → ul_back s = Done (last l).
Proof.
  intros (Hf & _ & Hr). unfold ul_back. rewrite Hf. destruct l as [|h t]; [done|]. cbn [head].
  destruct (ring_prev_first _ _ _ Hr) as (i & Hi & Hlast).
  unfold mbind, outcome_bind, inner_ref. rewrite Hi. simpl. by rewrite Hlast.
Qed.

Lemma seg_next (m : gmap Z LinksInner) (p n x : Z) (l1 l2 : list Z) :
  seg m p (l1 ++ x :: l2) n → ∃ i, m !! x = Some i ∧ link_next i = default n (head l2).
Proof. intros [_ [Hx _]]%seg_app. by eexists. Qed.

(** Moving forward from an entry reaches the following one, or ends. *)
Lemma move_next_spec (s : UList) (l1 l2 : list Z) (x : Z) :
  is_list s (l1 ++ x :: l2) → move_next s (Some x) = Done (head l2).
Proof.
  intros (Hf & Hnd & Hr). unfold move_next. rewrite Hf.
  destruct (seg_next _ _ _ _ _ _ Hr) as (i & Hi & Hn).
  assert (∃ h, head (l1 ++ x :: l2) = Some h ∧ h ∉ l2) as (h & Hh & Hh2).
  { destruct l1 as [|y l1]; simpl in *; eexists; (split; [done|]).
    - by apply NoDup_cons in Hnd as [? _].
    - apply NoDup_cons in Hnd as [? _]. set_solver. }
  rewrite Hh in *. simpl in Hn. unfold mbind, outcome_bind, inner_ref. rewrite Hi. simpl.
  rewrite Hn. destruct l2 as [|y l2]; simpl; [by rewrite Z.eqb_refl|].
  rewrite (proj2 (Z.eqb_neq y h)); [done|]. set_solver.
Qed.

Lemma iter_collect_spec (s : UList) (l2 : list Z) : ∀ l1 fuel,
  is_list s (l1 ++ l2) → (length l2 < fuel)%nat →
  iter_collect (iter_next s) fuel (head l2) = Done l2.
Proof.
  induction l2 as [|x l2 IH]; intros l1 [|fuel] Hl Hfuel; simpl in *; try lia; [done|].
  unfold mbind, outcome_bind, iter_next. simpl cursor_current. cbv iota.
  rewrite (move_next_spec s l1 l2 x Hl). simpl.
  rewrite (IH (l1 ++ [x])); [done| |lia]. by rewrite <- app_assoc.
Qed.

Lemma seg_prev (m : gmap Z LinksInner) (p n x : Z) (l1 l2 : list Z) :
  seg m p (l1 ++ x :: l2) n → ∃ i, m !! x = Some i ∧ link_prev i = default p (last l1).
Proof. intros [_ [Hx _]]%seg_app. by eexists. Qed.

Lemma move_prev_spec (s : UList) (l1 l2 : list Z) (x : Z) :
  is_list s (l1 ++ x :: l2) → move_prev s (Some x) = Done (last l1).
Proof.
  intros (Hf & Hnd & Hr). unfold move_prev. rewrite Hf.
  destruct (seg_prev _ _ _ _ _ _ Hr) as (i & Hi & Hp).
  destruct l1 as [|h l1]; simpl app; cbn [head]; [by rewrite Z.eqb_refl|].
  assert (x ≠ h) as Hne by (apply NoDup_cons in Hnd as [? _]; set_solver).
  rewrite (proj2 (Z.eqb_neq _ _) Hne). unfold mbind, outcome_bind, inner_ref.
  rewrite Hi. simpl. rewrite Hp. destruct (last (h :: l1)) eqn:Hl; [done|by apply last_None in Hl].
Qed.

Lemma iter_back_collect_spec (s : UList) (l1 : list Z) : ∀ l2 fuel,
  is_list s (l1 ++ l2) → (length l1 < fuel)%nat →
  iter_collect (iter_next_back s) fuel (last l1) = Done (rev l1).
Proof.
  induction l1 as [|x l1 IH] using rev_ind; intros l2 [|fuel] Hl Hfuel; try lia; [done|].
  rewrite length_app in Hfuel. simpl in Hfuel. rewrite last_snoc, rev_unit.
  rewrite <- app_assoc in Hl. simpl in *. unfold mbind, outcome_bind, iter_next_back.
  simpl cursor_current. cbv iota. rewrite (move_prev_spec s l1 l2 x Hl). simpl.
  rewrite (IH (x :: l2)); [done|done|lia].
Qed.

Lemma list_drop_spec (l : list Z) : ∀ fuel s,
  is_list s l → (length l < fuel)%nat →
  ∃ s', list_drop fuel s = Done (l, s') ∧ is_list s' [].
Proof.
  induction l as [|x l IH]; intros [|fuel] s Hl Hfuel; simpl in *; try lia;
    destruct (pop_front_spec s _ Hl) as (s1 & Hrun & Hl1); unfold mbind, outcome_bind;
    rewrite Hrun; simpl in *; [by exists s1|].
  destruct (IH fuel s1 Hl1) as (s2 & -> & ?); [lia|]. by exists s2.
Qed.

End lemmas.

(** ** Properties *)


Definition demo_list : UList :=
  {| links := <[1 := {| link_next := 2; link_prev := 2 |}]>
      (<[2 := {| link_next := 1; link_prev := 1 |}]> ∅); first := Some 1 |}.

Lemma demo_is_list : is_list demo_list [1; 2].
Proof.
  split_and!; [done| |by vm_compute].
  apply NoDup_cons. split; [set_solver|apply NoDup_singleton].
Qed.


(** Iterating forwards and backwards terminates within one call more than
    the number of entries, visits every entry exactly once and in order, and
    dropping the list releases exactly those entries and leaves it empty. *)
Theorem linked_list_traversal (s : UList) (l : list Z) (fuel : nat) :
  is_list s l → (length l < fuel)%nat →
  ul_iter fuel s = Done l ∧ ul_iter_back fuel s = Done (rev l) ∧
  ∃ s', list_drop fuel s = Done (l, s') ∧ is_list s' [].
Proof.
  intros Hl Hfuel. split_and!; [| |by apply list_drop_spec].
  - unfold ul_iter, cursor_front, ul_front. pose proof Hl as (-> & _).
    by apply (iter_collect_spec s l []).
  - unfold ul_iter_back, cursor_back, mbind, outcome_bind. rewrite (back_spec s l Hl).
    apply (iter_back_collect_spec s l []); [by rewrite app_nil_r|done].
Qed.

Lemma linked_list_traversal_witness : ul_iter 3 demo_list = Done [1; 2].
Proof. apply linked_list_traversal; [apply demo_is_list|simpl; lia]. Defined.
