(* ===== verification/BTree.v ===== *)
(** * Ordered maps: the part of [alloc::collections::BTreeMap] the code uses

    A map is the list of its bindings in increasing key order, which is what
    iteration, [first_key_value] and [pop_first] expose. *)

From S2P Require Import Prelude.
From stdpp Require Import base numbers list sets strings.
From Stdlib Require Import Sorting.Sorted.

Open Scope Z_scope.

(** [Ord] on keys. *)
Class KeyOrder (K : Type) := key_ltb : K → K → bool.

Class KeyOrderLaws (K : Type) `{KeyOrder K} : Prop := {
  key_irrefl (k : K) : key_ltb k k = false;
  key_trans (a b c : K) : key_ltb a b = true → key_ltb b c = true → key_ltb a c = true;
  key_total (a b : K) : key_ltb a b = false → key_ltb b a = false → a = b;
}.

#[global] Instance Z_key_order : KeyOrder Z := Z.ltb.
#[global] Instance Z_key_order_laws : KeyOrderLaws Z.
Proof. split; unfold key_ltb, Z_key_order; intros; lia. Qed.

(** Tuples compare lexicographically. *)
#[global] Instance prod_key_order {A B} `{KeyOrder A, KeyOrder B} : KeyOrder (A * B) := λ x y,
  key_ltb x.1 y.1 || (negb (key_ltb y.1 x.1) && key_ltb x.2 y.2).

#[global] Instance prod_key_order_laws {A B} `{KeyOrderLaws A, KeyOrderLaws B} :
  KeyOrderLaws (A * B).
Proof.
  split; unfold key_ltb, prod_key_order; fold (key_ltb (K := A)); fold (key_ltb (K := B)).
  - intros [a b]. simpl. by rewrite !key_irrefl.
  - intros [a1 b1] [a2 b2] [a3 b3]. simpl. rewrite !orb_true_iff, !andb_true_iff, !negb_true_iff.
    intros [H12|[H21 Hb]] [H23|[H32 Hb']].
    + left. by eapply key_trans.
    + left. destruct (key_ltb a2 a3) eqn:E; [by eapply key_trans|].
      by rewrite <- (key_total a2 a3 E H32).
    + left. destruct (key_ltb a1 a2) eqn:E; [by eapply key_trans|].
      by rewrite (key_total a1 a2 E H21).
    + destruct (key_ltb a1 a3) eqn:E; [by left|right]. split; [|by eapply key_trans].
      destruct (key_ltb a3 a1) eqn:E'; [|done].
      destruct (key_ltb a1 a2) eqn:E12; [by rewrite <- H32, (key_trans a3 a1 a2)|].
      rewrite (key_total a1 a2 E12 H21) in E'. congruence.
  - intros [a1 b1] [a2 b2]. simpl. rewrite !orb_false_iff, !andb_false_iff, !negb_false_iff.
    intros [E1 E2] [E3 E4].
    destruct E2 as [E2|E2], E4 as [E4|E4]; try congruence.
    by rewrite (key_total a1 a2 E1 E3), (key_total b1 b2 E2 E4).
Qed.

#[global] Instance string_key_order : KeyOrder string := String.ltb.

Section btree.
Context {K V : Type} `{KeyOrderLaws K}.
Implicit Types (t : list (K * V)) (k : K) (v : V).

Fixpoint bt_get t k : option V :=
  match t with
  | [] => None
  | (k', v) :: t =>
      if key_ltb k k' then None else if key_ltb k' k then bt_get t k else Some v
  end.

(** [insert]: replaces the value of an existing key. *)
Fixpoint bt_insert t k v : list (K * V) :=
  match t with
  | [] => [(k, v)]
  | (k', v') :: t =>
      if key_ltb k k' then (k, v) :: (k', v') :: t
      else if key_ltb k' k then (k', v') :: bt_insert t k v
      else (k, v) :: t
  end.

(** [remove], which keeps the other bindings. *)
Fixpoint bt_remove t k : list (K * V) :=
  match t with
  | [] => []
  | (k', v') :: t =>
      if key_ltb k k' then (k', v') :: t
      else if key_ltb k' k then (k', v') :: bt_remove t k
      else t
  end.

(** [pop_first]. *)
Definition bt_pop_first t : option ((K * V) * list (K * V)) :=
  match t with [] => None | b :: t => Some (b, t) end.

Definition key_lt (x y : K * V) : Prop := key_ltb x.1 y.1 = true.

Definition bt_wf t : Prop := StronglySorted key_lt t.

Lemma key_antisym k k' : key_ltb k k' = true → key_ltb k' k = false.
Proof.
  intros Hk. destruct (key_ltb k' k) eqn:E; [|done].
  by rewrite <- (key_irrefl k), (key_trans k k' k).
Qed.

Lemma bt_get_above t k :
  Forall (λ b, key_ltb k b.1 = true) t → bt_get t k = None.
Proof. destruct t as [|[k' v] t]; [done|]. intros [Hk _]%Forall_cons. simpl in *. by rewrite Hk. Qed.

Lemma bt_wf_cons k v t :
  bt_wf ((k, v) :: t) ↔ Forall (λ b, key_ltb k b.1 = true) t ∧ bt_wf t.
Proof.
  unfold bt_wf. split.
  - intros Hs. by apply StronglySorted_inv in Hs as [??].
  - intros [??]. by constructor.
Qed.

Lemma bt_insert_Forall (P : K * V → Prop) t k v :
  P (k, v) → Forall P t → Forall P (bt_insert t k v).
Proof.
  intros Hk. induction t as [|[k' v'] t IH]; simpl; [by constructor|].
  intros [Hk' Ht]%Forall_cons. repeat case_match; repeat constructor; auto.
Qed.

Lemma bt_remove_Forall (P : K * V → Prop) t k : Forall P t → Forall P (bt_remove t k).
Proof.
  induction t as [|[k' v'] t IH]; simpl; [done|].
  intros [Hk' Ht]%Forall_cons. repeat case_match; repeat constructor; auto.
Qed.

Lemma Forall_above_trans k k' t :
  key_ltb k k' = true → Forall (λ b, key_ltb k' b.1 = true) t →
  Forall (λ b, key_ltb k b.1 = true) t.
Proof. intros Hk Ht. eapply Forall_impl; [exact Ht|]. intros b. by apply key_trans. Qed.

Lemma bt_insert_wf t k v : bt_wf t → bt_wf (bt_insert t k v).
Proof.
  induction t as [|[k' v'] t IH]; simpl; intros Hwf.
  { by apply bt_wf_cons; split; [apply Forall_nil|]. }
  pose proof Hwf as [Hk' Ht]%bt_wf_cons.
  destruct (key_ltb k k') eqn:E1.
  { apply bt_wf_cons. split; [|done]. apply Forall_cons. split; [done|].
    by eapply Forall_above_trans. }
  destruct (key_ltb k' k) eqn:E2; apply bt_wf_cons.
  - split; [by apply bt_insert_Forall|auto].
  - rewrite (key_total k k' E1 E2). done.
Qed.

Lemma bt_remove_wf t k : bt_wf t → bt_wf (bt_remove t k).
Proof.
  induction t as [|[k' v'] t IH]; simpl; [done|]. intros Hwf.
  pose proof Hwf as [Hk' Ht]%bt_wf_cons. repeat case_match; [done| |done].
  apply bt_wf_cons. split; [by apply bt_remove_Forall|auto].
Qed.

Lemma bt_get_insert_eq t k v : bt_get (bt_insert t k v) k = Some v.
Proof.
  induction t as [|[k' v'] t IH]; simpl; [by rewrite key_irrefl|].
  destruct (key_ltb k k') eqn:E1; simpl; [by rewrite key_irrefl|].
  destruct (key_ltb k' k) eqn:E2; simpl; [by rewrite E1, E2|by rewrite key_irrefl].
Qed.

Lemma bt_get_insert_ne t k k' v :
  bt_wf t → k ≠ k' → bt_get (bt_insert t k v) k' = bt_get t k'.
Proof.
  intros Hwf Hne. induction t as [|[k1 v1] t IH]; simpl.
  { repeat case_match; try done. destruct Hne. by apply key_total. }
  pose proof Hwf as [Hk1 Ht]%bt_wf_cons.
  destruct (key_ltb k k1) eqn:E1; simpl.
  - destruct (key_ltb k' k) eqn:E2.
    { by rewrite (key_trans k' k k1). }
    destruct (key_ltb k k') eqn:E3; [done|]. destruct Hne. by apply key_total.
  - destruct (key_ltb k1 k) eqn:E2; simpl; [by rewrite IH|].
    rewrite (key_total k k1 E1 E2) in *. repeat case_match; try done.
    destruct Hne. by apply key_total.
Qed.

Lemma bt_get_remove_eq t k : bt_wf t → bt_get (bt_remove t k) k = None.
Proof.
  induction t as [|[k' v'] t IH]; simpl; [done|]. intros [Hk' Ht]%bt_wf_cons.
  destruct (key_ltb k k') eqn:E1; simpl; [by rewrite E1|].
  destruct (key_ltb k' k) eqn:E2; simpl; [rewrite E1, E2; auto|].
  rewrite (key_total k k' E1 E2). by apply bt_get_above.
Qed.

Lemma bt_get_remove_ne t k k' :
  bt_wf t → k ≠ k' → bt_get (bt_remove t k) k' = bt_get t k'.
Proof.
  intros Hwf Hne. induction t as [|[k1 v1] t IH]; simpl; [done|].
  pose proof Hwf as [Hk1 Ht]%bt_wf_cons.
  destruct (key_ltb k k1) eqn:E1; simpl; [done|].
  destruct (key_ltb k1 k) eqn:E2; simpl; [by rewrite IH|].
  rewrite (key_total k k1 E1 E2) in *. destruct (key_ltb k' k1) eqn:E3.
  { apply bt_get_above. by eapply Forall_above_trans. }
  destruct (key_ltb k1 k') eqn:E4; [done|]. destruct Hne. symmetry. by apply key_total.
Qed.

Lemma bt_get_elem t k v : bt_wf t → bt_get t k = Some v ↔ (k, v) ∈ t.
Proof.
  intros Hwf. induction t as [|[k1 v1] t IH]; simpl; [split; [done|set_solver]|].
  pose proof Hwf as [Hk1 Ht]%bt_wf_cons. rewrite elem_of_cons, <- IH by done.
  destruct (key_ltb k k1) eqn:E1.
  - split; [done|]. intros [[= -> ->]|Hg].
    + by rewrite key_irrefl in E1.
    + rewrite bt_get_above in Hg; [done|]. by eapply Forall_above_trans.
  - destruct (key_ltb k1 k) eqn:E2.
    + split; [by right|]. intros [[= -> ->]|?]; [by rewrite key_irrefl in E2|done].
    + rewrite (key_total k k1 E1 E2). split; [by intros [= ->]; left|].
      intros [[= ->]|Hg]; [done|]. by rewrite bt_get_above in Hg.
Qed.

Lemma bt_insert_perm t k v :
  bt_wf t → bt_get t k = None → bt_insert t k v ≡ₚ (k, v) :: t.
Proof.
  intros Hwf. induction t as [|[k1 v1] t IH]; simpl; [done|].
  pose proof Hwf as [Hk1 Ht]%bt_wf_cons.
  destruct (key_ltb k k1); [done|]. destruct (key_ltb k1 k); [|done].
  intros Hg. rewrite IH by done. apply Permutation_swap.
Qed.

Lemma bt_remove_perm t k v :
  bt_wf t → bt_get t k = Some v → t ≡ₚ (k, v) :: bt_remove t k.
Proof.
  intros Hwf. induction t as [|[k1 v1] t IH]; simpl; [done|].
  pose proof Hwf as [Hk1 Ht]%bt_wf_cons.
  destruct (key_ltb k k1) eqn:E1; [done|]. destruct (key_ltb k1 k) eqn:E2.
  - intros Hg. rewrite IH at 1 by done. apply Permutation_swap.
  - intros [= ->]. by rewrite (key_total k k1 E1 E2).
Qed.

Lemma bt_remove_none t k : bt_get t k = None → bt_remove t k = t.
Proof.
  induction t as [|[k1 v1] t IH]; simpl; [done|].
  destruct (key_ltb k k1); [done|]. destruct (key_ltb k1 k); [|done].
  intros Hg. by rewrite IH.
Qed.

(** The first binding has the least key. *)
Lemma bt_first_least t k v :
  bt_wf ((k, v) :: t) → ∀ b, b ∈ t → key_ltb k b.1 = true.
Proof. intros [Hk _]%bt_wf_cons. by apply Forall_forall. Qed.

Lemma bt_keys_nodup t : bt_wf t → NoDup t.*1.
Proof.
  induction t as [|[k v] t IH]; simpl; [by constructor|]. intros [Hk Ht]%bt_wf_cons.
  apply NoDup_cons. split; [|auto]. intros ([k' v'] & ? & Hin)%list_elem_of_fmap. simpl in *. subst k'.
  rewrite Forall_forall in Hk. apply Hk in Hin. simpl in Hin. by rewrite key_irrefl in Hin.
Qed.

End btree.

#[export] Hint Resolve bt_insert_wf bt_remove_wf bt_get_insert_eq bt_get_remove_eq : arceos.
