(* ===== verification/Scheduler.v ===== *)
(** * The schedulers ([crates/scheduler])

    The trait [BaseScheduler] is a type class over the state of a scheduler
    together with the fields it keeps inside the tasks; a task is the address
    of its [Arc].  The FIFO scheduler runs on the intrusive list of
    [LinkedList.v], the round-robin one on a [VecDeque] (a list) and the
    completely fair one on a [BTreeMap] ([BTree.v]).  [SchedulerLaws] is the
    contract the run queue of [AxTask.v] relies on; every scheduler is shown
    to meet it. *)

From S2P Require Import Prelude LinkedList BTree.
From stdpp Require Import base numbers sets gmap functions list.

Open Scope Z_scope.

(** ** The trait and its contract *)

Class BaseScheduler (S : Type) := {
  sched_new : S;
  add_task : Z → S → outcome S;
  remove_task : Z → S → outcome (option Z * S);
  pick_next_task : S → outcome (option Z * S);
  put_prev_task : Z → bool → S → outcome S;
  task_tick : Z → S → outcome (bool * S);
  set_priority : Z → Z → S → outcome (bool * S);
}.

(** [ready s l]: the tasks of the ready queue, in the order of the
    implementation; [can_add]: the scheduler can still number a task. *)
Class SchedulerLaws (S : Type) `{BaseScheduler S} (ready : S → list Z → Prop)
    (can_add : S → Prop) : Prop := {
  law_new : ready sched_new [];
  law_nodup s l : ready s l → NoDup l;
  law_add s l t :
    ready s l → can_add s → t ∉ l →
    ∃ s' l', add_task t s = Done s' ∧ ready s' l' ∧ l' ≡ₚ t :: l;
  law_put s l t preempt :
    ready s l → can_add s → t ∉ l →
    ∃ s' l', put_prev_task t preempt s = Done s' ∧ ready s' l' ∧ l' ≡ₚ t :: l;
  law_pick s l :
    ready s l →
    ∃ o s', pick_next_task s = Done (o, s') ∧
      match o with
      | None => l = [] ∧ ready s' []
      | Some t => ∃ l', ready s' l' ∧ l ≡ₚ t :: l'
      end;
  law_tick s l t :
    ready s l → t ∉ l → ∃ resched s', task_tick t s = Done (resched, s') ∧ ready s' l;
  law_set_priority s l t prio :
    ready s l → t ∉ l → ∃ b s', set_priority t prio s = Done (b, s') ∧ ready s' l;
}.

(** ** FIFO ([fifo.rs]) *)

Definition fifo_add_task (task : Z) (s : UList) : outcome UList := list_push_back task s.
Definition fifo_remove_task (task : Z) (s : UList) : outcome (option Z * UList) :=
  list_remove task s.
Definition fifo_pick_next_task (s : UList) : outcome (option Z * UList) := list_pop_front s.
Definition fifo_put_prev_task (prev : Z) (_preempt : bool) (s : UList) : outcome UList :=
  list_push_back prev s.
Definition fifo_task_tick (_current : Z) (s : UList) : outcome (bool * UList) := Done (false, s).
Definition fifo_set_priority (_task _prio : Z) (s : UList) : outcome (bool * UList) :=
  Done (false, s).

#[global] Instance FifoScheduler : BaseScheduler UList := {|
  sched_new := ul_new;
  add_task := fifo_add_task;
  remove_task := fifo_remove_task;
  pick_next_task := fifo_pick_next_task;
  put_prev_task := fifo_put_prev_task;
  task_tick := fifo_task_tick;
  set_priority := fifo_set_priority;
|}.

(** ** Round robin ([round_robin.rs]) *)

(** The ready queue and the [time_slice] of every task. *)
Record RRScheduler := {
  rr_queue : list Z;
  rr_slice : Z → Z;
}.

Section rr_defs.
(** [MAX_TIME_SLICE], the constant parameter [S]. *)
Context (MAX_TIME_SLICE : Z).

(** [new]; a task starts with a full time slice ([RRTask::new]). *)
Definition rr_new : RRScheduler :=
  {| rr_queue := []; rr_slice := λ _, to_isize MAX_TIME_SLICE |}.

Definition rr_time_slice (task : Z) (s : RRScheduler) : Z := rr_slice s task.

Definition rr_reset_time_slice (task : Z) (s : RRScheduler) : RRScheduler :=
  {| rr_queue := rr_queue s; rr_slice := <[task := to_isize MAX_TIME_SLICE]> (rr_slice s) |}.

Definition rr_push_back (t : Z) (s : RRScheduler) : RRScheduler :=
  {| rr_queue := rr_queue s ++ [t]; rr_slice := rr_slice s |}.

Definition rr_push_front (t : Z) (s : RRScheduler) : RRScheduler :=
  {| rr_queue := t :: rr_queue s; rr_slice := rr_slice s |}.

Definition rr_add_task (task : Z) (s : RRScheduler) : outcome RRScheduler :=
  Done (rr_push_back task s).

(** [position] with [Arc::ptr_eq], then [VecDeque::remove]. *)
Definition rr_remove_task (task : Z) (s : RRScheduler) : outcome (option Z * RRScheduler) :=
  match list_find (λ t, t = task) (rr_queue s) with
  | Some (idx, t) =>
      Done (Some t, {| rr_queue := delete idx (rr_queue s); rr_slice := rr_slice s |})
  | None => Done (None, s)
  end.

Definition rr_pick_next_task (s : RRScheduler) : outcome (option Z * RRScheduler) :=
  match rr_queue s with
  | [] => Done (None, s)
  | t :: q => Done (Some t, {| rr_queue := q; rr_slice := rr_slice s |})
  end.

Definition rr_put_prev_task (prev : Z) (preempt : bool) (s : RRScheduler) : outcome RRScheduler :=
  if (rr_time_slice prev s >? 0) && preempt then Done (rr_push_front prev s)
  else Done (rr_push_back prev (rr_reset_time_slice prev s)).

(** [fetch_sub(1)] wraps around at the width of [isize]. *)
Definition rr_task_tick (current : Z) (s : RRScheduler) : outcome (bool * RRScheduler) :=
  let old_slice := rr_slice s current in
  Done (old_slice <=? 1,
    {| rr_queue := rr_queue s; rr_slice := <[current := to_isize (old_slice - 1)]> (rr_slice s) |}).

Definition rr_set_priority (_task _prio : Z) (s : RRScheduler) : outcome (bool * RRScheduler) :=
  Done (false, s).

Definition RRSchedulerImpl : BaseScheduler RRScheduler := {|
  sched_new := rr_new;
  add_task := rr_add_task;
  remove_task := rr_remove_task;
  pick_next_task := rr_pick_next_task;
  put_prev_task := rr_put_prev_task;
  task_tick := rr_task_tick;
  set_priority := rr_set_priority;
|}.

End rr_defs.

(** ** Completely fair ([cfs.rs]) *)

Definition NICE2WEIGHT_POS : list Z :=
  [1024; 820; 655; 526; 423; 335; 272; 215; 172; 137; 110; 87; 70; 56; 45; 36; 29; 23; 18; 15].
Definition NICE2WEIGHT_NEG : list Z :=
  [1024; 1277; 1586; 1991; 2501; 3121; 3906; 4904; 6100; 7620; 9548; 11916; 14949; 18705; 23254;
   29154; 36291; 46273; 56483; 71755; 88761].

Record CFSTask := {
  init_vruntime : Z;
  delta : Z;
  nice : Z;
  cfs_id : Z;
}.

Definition cfs_task_new : CFSTask :=
  {| init_vruntime := 0; delta := 0; nice := 0; cfs_id := 0 |}.

Definition get_weight (t : CFSTask) : outcome Z :=
  if nice t >=? 0 then unwrap (NICE2WEIGHT_POS !! Z.to_nat (nice t))
  else unwrap (NICE2WEIGHT_NEG !! Z.to_nat (- nice t)).

Definition get_id (t : CFSTask) : Z := cfs_id t.

(** [isize] arithmetic: [+] and [*] wrap, [/] truncates towards zero. *)
Definition get_vruntime (t : CFSTask) : outcome Z :=
  if nice t =? 0 then Done (to_isize (init_vruntime t + delta t))
  else
    w ← get_weight t;
    Done (to_isize (init_vruntime t + Z.quot (to_isize (delta t * 1024)) w)).

Definition set_vruntime (v : Z) (t : CFSTask) : CFSTask :=
  {| init_vruntime := v; delta := delta t; nice := nice t; cfs_id := cfs_id t |}.

Definition cfs_task_set_priority (n : Z) (t : CFSTask) : outcome CFSTask :=
  v ← get_vruntime t;
  Done {| init_vruntime := v; delta := 0; nice := n; cfs_id := cfs_id t |}.

Definition set_id (id : Z) (t : CFSTask) : CFSTask :=
  {| init_vruntime := init_vruntime t; delta := delta t; nice := nice t; cfs_id := id |}.

Definition cfs_tick (t : CFSTask) : CFSTask :=
  {| init_vruntime := init_vruntime t; delta := to_isize (delta t + 1); nice := nice t;
     cfs_id := cfs_id t |}.

(** The scheduler and the fields of every task. *)
Record CFScheduler := {
  ready_queue : list ((Z * Z) * Z);
  min_vruntime : option Z;
  id_pool : Z;
  cfs_tasks : Z → CFSTask;
}.

Definition cfs_new : CFScheduler :=
  {| ready_queue := []; min_vruntime := None; id_pool := 0; cfs_tasks := λ _, cfs_task_new |}.

(** The key of the first binding, as [min_vruntime] is recomputed. *)
Definition first_vruntime (q : list ((Z * Z) * Z)) : option Z :=
  match q with [] => None | (k, _) :: _ => Some k.1 end.

Definition cfs_add_task (task : Z) (s : CFScheduler) : outcome CFScheduler :=
  let vruntime := default 0 (min_vruntime s) in
  let taskid := id_pool s in
  let t := set_id taskid (set_vruntime vruntime (cfs_tasks s task)) in
  let q := bt_insert (ready_queue s) (vruntime, taskid) task in
  Done {| ready_queue := q; min_vruntime := first_vruntime q; id_pool := to_isize (taskid + 1);
          cfs_tasks := <[task := t]> (cfs_tasks s) |}.

Definition cfs_remove_task (task : Z) (s : CFScheduler) : outcome (option Z * CFScheduler) :=
  v ← get_vruntime (cfs_tasks s task);
  let key := (v, get_id (cfs_tasks s task)) in
  match bt_get (ready_queue s) key with
  | Some tmp =>
      let q := bt_remove (ready_queue s) key in
      Done (Some tmp, {| ready_queue := q; min_vruntime := first_vruntime q;
                         id_pool := id_pool s; cfs_tasks := cfs_tasks s |})
  | None => Done (None, s)
  end.

Definition cfs_pick_next_task (s : CFScheduler) : outcome (option Z * CFScheduler) :=
  match bt_pop_first (ready_queue s) with
  | Some ((_, v), q) =>
      Done (Some v, {| ready_queue := q; min_vruntime := min_vruntime s;
                       id_pool := id_pool s; cfs_tasks := cfs_tasks s |})
  | None => Done (None, s)
  end.

Definition cfs_put_prev_task (prev : Z) (_preempt : bool) (s : CFScheduler) :
    outcome CFScheduler :=
  let taskid := id_pool s in
  let t := set_id taskid (cfs_tasks s prev) in
  v ← get_vruntime t;
  Done {| ready_queue := bt_insert (ready_queue s) (v, taskid) prev;
          min_vruntime := min_vruntime s; id_pool := to_isize (taskid + 1);
          cfs_tasks := <[prev := t]> (cfs_tasks s) |}.

Definition cfs_task_tick (current : Z) (s : CFScheduler) : outcome (bool * CFScheduler) :=
  let t := cfs_tick (cfs_tasks s current) in
  let s := {| ready_queue := ready_queue s; min_vruntime := min_vruntime s; id_pool := id_pool s;
              cfs_tasks := <[current := t]> (cfs_tasks s) |} in
  match min_vruntime s with
  | None => Done (true, s)
  | Some m => v ← get_vruntime t; Done (v >? m, s)
  end.

Definition cfs_set_priority (task prio : Z) (s : CFScheduler) : outcome (bool * CFScheduler) :=
  if (-20 <=? prio) && (prio <=? 19) then
    t ← cfs_task_set_priority prio (cfs_tasks s task);
    Done (true, {| ready_queue := ready_queue s; min_vruntime := min_vruntime s;
                   id_pool := id_pool s; cfs_tasks := <[task := t]> (cfs_tasks s) |})
  else Done (false, s).

#[global] Instance CFSchedulerImpl : BaseScheduler CFScheduler := {|
  sched_new := cfs_new;
  add_task := cfs_add_task;
  remove_task := cfs_remove_task;
  pick_next_task := cfs_pick_next_task;
  put_prev_task := cfs_put_prev_task;
  task_tick := cfs_task_tick;
  set_priority := cfs_set_priority;
|}.

(** ** The contract holds *)

Lemma to_isize_small (z : Z) : is_isize z → to_isize z = z.
Proof.
  unfold is_isize, to_isize, wrap. intros Hz. destruct (decide (0 ≤ z)).
  - rewrite Z.mod_small by lia. destruct (Z.ltb_spec z (2 ^ 63)); lia.
  - rewrite <- (Z.mod_unique z (2 ^ 64) (-1) (z + 2 ^ 64)) by lia.
    destruct (Z.ltb_spec (z + 2 ^ 64) (2 ^ 63)); lia.
Qed.

Lemma new_is_list : is_list ul_new [].
Proof. split_and!; [done|apply NoDup_nil_2|done]. Qed.

#[global] Instance fifo_laws : SchedulerLaws UList is_list (λ _, True).
Proof.
  split; simpl.
  - apply new_is_list.
  - intros s l Hl. apply Hl.
  - intros s l t Hl _ Ht. destruct (push_back_spec s l t Hl Ht) as (s' & ? & ?).
    exists s', (l ++ [t]). split_and!; [done..|solve_Permutation].
  - intros s l t preempt Hl _ Ht. destruct (push_back_spec s l t Hl Ht) as (s' & ? & ?).
    exists s', (l ++ [t]). split_and!; [done..|solve_Permutation].
  - intros s l Hl. destruct (pop_front_spec s l Hl) as (s' & Hrun & Hl').
    exists (head l), s'. split; [done|]. destruct l as [|t l]; simpl in *; [done|].
    by exists l.
  - intros s l t Hl _. by exists false, s.
  - intros s l t prio Hl _. by exists false, s.
Qed.

(** The ready queue of the round-robin scheduler. *)
Definition rr_ready (s : RRScheduler) (l : list Z) : Prop := rr_queue s = l ∧ NoDup l.

Lemma rr_laws (slice : Z) :
  @SchedulerLaws RRScheduler (RRSchedulerImpl slice) rr_ready (λ _, True).
Proof.
  split; simpl.
  - split; [done|apply NoDup_nil_2].
  - intros s l Hl. apply Hl.
  - intros s l t [<- Hnd] _ Ht. eexists _, (rr_queue s ++ [t]). split; [done|].
    assert (rr_queue s ++ [t] ≡ₚ t :: rr_queue s) as Hp by solve_Permutation.
    split; [split; [done|by rewrite Hp; apply NoDup_cons]|done].
  - intros s l t preempt [<- Hnd] _ Ht. unfold rr_put_prev_task. case_match.
    + eexists _, (t :: rr_queue s). split; [done|]. split; [|done]. split; [done|].
      by apply NoDup_cons.
    + eexists _, (rr_queue s ++ [t]). split; [done|].
      assert (rr_queue s ++ [t] ≡ₚ t :: rr_queue s) as Hp by solve_Permutation.
      split; [split; [done|by rewrite Hp; apply NoDup_cons]|done].
  - intros s l [<- Hnd]. unfold rr_pick_next_task. destruct (rr_queue s) as [|t q] eqn:Hq.
    + by exists None, s.
    + eexists (Some t), _. split; [done|]. exists q. split; [|done].
      split; [done|]. by apply NoDup_cons in Hnd as [_ ?].
  - intros s l t [<- Hnd] _. by do 2 eexists.
  - intros s l t prio Hl _. by exists false, s.
Qed.

(** The invariant of the fair scheduler: keys carry the number of the task,
    numbers are below the next one and priorities are in range. *)
Record cfs_ready (s : CFScheduler) (l : list Z) : Prop := {
  cfs_wf : bt_wf (ready_queue s);
  cfs_tasks_of : l = (ready_queue s).*2;
  cfs_nodup : NoDup l;
  cfs_ids : ∀ k t, (k, t) ∈ ready_queue s → k.2 = cfs_id (cfs_tasks s t) ∧ k.2 < id_pool s;
  cfs_pool : 0 ≤ id_pool s < 2 ^ 63;
  cfs_nice : ∀ t, -20 ≤ nice (cfs_tasks s t) ≤ 19;
}.

Definition cfs_can_add (s : CFScheduler) : Prop := id_pool s < 2 ^ 63 - 1.

Lemma get_weight_ok (t : CFSTask) :
  -20 ≤ nice t ≤ 19 → ∃ w, get_weight t = Done w ∧ 0 < w.
Proof.
  intros Hn. unfold get_weight. destruct (Z.geb_spec (nice t) 0) as [Hp|Hm].
  - assert (0 ≤ nice t < Z.of_nat 20) as Hr by lia. revert Hr. generalize (nice t) as n.
    intros n Hr. clear Hn Hp. enum_range 20%nat n Hr; by eexists.
  - assert (0 ≤ - nice t < Z.of_nat 21) as Hr by lia. revert Hr. generalize (- nice t) as n.
    intros n Hr. clear Hn Hm. enum_range 21%nat n Hr; by eexists.
Qed.

Lemma get_vruntime_ok (t : CFSTask) : -20 ≤ nice t ≤ 19 → ∃ v, get_vruntime t = Done v.
Proof.
  intros Hn. unfold get_vruntime. destruct (nice t =? 0); [by eexists|].
  destruct (get_weight_ok t Hn) as (w & Hw & _). unfold mbind, outcome_bind. rewrite Hw.
  by eexists.
Qed.

Lemma bt_get_fresh (q : list ((Z * Z) * Z)) (v id : Z) :
  bt_wf q → (∀ k t, (k, t) ∈ q → k.2 < id) → bt_get q (v, id) = None.
Proof.
  intros Hwf Hid. destruct (bt_get q (v, id)) as [t|] eqn:Hg; [|done].
  apply bt_get_elem in Hg; [|done]. apply Hid in Hg. simpl in Hg. lia.
Qed.

(** Queueing [task] under a fresh number keeps the invariant. *)
Lemma cfs_enqueue (s : CFScheduler) (l : list Z) (task v : Z) (t : CFSTask) (m : option Z) :
  cfs_ready s l → cfs_can_add s → task ∉ l →
  cfs_id t = id_pool s → -20 ≤ nice t ≤ 19 →
  let s' := {| ready_queue := bt_insert (ready_queue s) (v, id_pool s) task; min_vruntime := m;
               id_pool := to_isize (id_pool s + 1);
               cfs_tasks := <[task := t]> (cfs_tasks s) |} in
  ∃ l', cfs_ready s' l' ∧ l' ≡ₚ task :: l.
Proof.
  intros [Hwf Hl Hnd Hids Hpool Hnice] Hadd Hnew Hid Hn s'. unfold cfs_can_add in Hadd.
  assert (bt_get (ready_queue s) (v, id_pool s) = None) as Hfresh.
  { apply bt_get_fresh; [done|]. intros k t' Hin. by apply Hids in Hin as [_ ?]. }
  pose proof (bt_insert_perm _ _ task Hwf Hfresh) as Hperm.
  assert (to_isize (id_pool s + 1) = id_pool s + 1) as Hi
    by (apply to_isize_small; unfold is_isize; lia).
  assert ((bt_insert (ready_queue s) (v, id_pool s) task).*2 ≡ₚ task :: l) as Hp2.
  { rewrite Hperm. by subst l. }
  exists (ready_queue s').*2. split; [|done]. split; simpl.
  - by apply bt_insert_wf.
  - done.
  - rewrite Hp2. by apply NoDup_cons.
  - rewrite Hi. intros k t'. rewrite Hperm. intros [[= -> ->]|Hin]%elem_of_cons.
    + rewrite fn_lookup_insert. simpl. lia.
    + rewrite fn_lookup_insert_ne.
      * apply Hids in Hin. lia.
      * intros ->. destruct Hnew. subst l. apply list_elem_of_fmap. by exists (k, t').
  - rewrite Hi. lia.
  - intros t'. destruct (decide (t' = task)) as [->|].
    + by rewrite fn_lookup_insert.
    + rewrite fn_lookup_insert_ne by done. apply Hnice.
Qed.

Lemma cfs_retask (s : CFScheduler) (l : list Z) (task : Z) (t : CFSTask) :
  cfs_ready s l → task ∉ l → -20 ≤ nice t ≤ 19 →
  cfs_ready {| ready_queue := ready_queue s; min_vruntime := min_vruntime s;
               id_pool := id_pool s; cfs_tasks := <[task := t]> (cfs_tasks s) |} l.
Proof.
  intros [Hwf Hl Hnd Hids Hpool Hnice] Hnew Hn. split; simpl; try done.
  - intros k t' Hin. rewrite fn_lookup_insert_ne; [by apply Hids|].
    intros ->. destruct Hnew. subst l. apply list_elem_of_fmap. by exists (k, t').
  - intros t'. destruct (decide (t' = task)) as [->|].
    + by rewrite fn_lookup_insert.
    + rewrite fn_lookup_insert_ne by done. apply Hnice.
Qed.

Lemma cfs_pop (s : CFScheduler) (l : list Z) (b : (Z * Z) * Z) (q : list ((Z * Z) * Z)) :
  cfs_ready s l → ready_queue s = b :: q →
  cfs_ready {| ready_queue := q; min_vruntime := min_vruntime s;
               id_pool := id_pool s; cfs_tasks := cfs_tasks s |} q.*2 ∧ l = b.2 :: q.*2.
Proof.
  intros [Hwf Hl Hnd Hids Hpool Hnice] Hq. rewrite Hq in *. simpl in Hl. subst l.
  split; [|done]. apply NoDup_cons in Hnd as [_ Hnd]. destruct b as [k t].
  split; simpl; try done.
  - by apply bt_wf_cons in Hwf as [_ ?].
  - intros k' t' Hin. apply Hids. by right.
Qed.

#[global] Instance cfs_laws : SchedulerLaws CFScheduler cfs_ready cfs_can_add.
Proof.
  split; simpl.
  - split; simpl; try done; [by constructor|apply NoDup_nil_2|set_solver].
  - intros s l Hl. apply Hl.
  - intros s l t Hr Hadd Ht. unfold cfs_add_task.
    destruct (cfs_enqueue s l t (default 0 (min_vruntime s))
      (set_id (id_pool s) (set_vruntime (default 0 (min_vruntime s)) (cfs_tasks s t)))
      (first_vruntime (bt_insert (ready_queue s) (default 0 (min_vruntime s), id_pool s) t)))
      as (l' & ? & ?); try done; [apply Hr|]. by eexists _, l'.
  - intros s l t preempt Hr Hadd Ht. unfold cfs_put_prev_task, mbind, outcome_bind.
    destruct (get_vruntime_ok (set_id (id_pool s) (cfs_tasks s t))) as [v ->]; [apply Hr|].
    destruct (cfs_enqueue s l t v (set_id (id_pool s) (cfs_tasks s t)) (min_vruntime s))
      as (l' & ? & ?); try done; [apply Hr|]. by eexists _, l'.
  - intros s l Hr. unfold cfs_pick_next_task. destruct (ready_queue s) as [|b q] eqn:Hq; simpl.
    + exists None, s. split; [done|]. assert (l = []) as ->; [|done].
      rewrite (cfs_tasks_of s l Hr), Hq. done.
    + destruct (cfs_pop s l b q Hr Hq) as [Hr' ->]. destruct b as [k t].
      eexists (Some t), _. split; [done|]. by exists q.*2.
  - intros s l t Hr Ht. unfold cfs_task_tick. simpl.
    pose proof (cfs_retask s l t (cfs_tick (cfs_tasks s t)) Hr Ht (cfs_nice s l Hr t)) as Hr'.
    destruct (min_vruntime s); [|by do 2 eexists].
    destruct (get_vruntime_ok (cfs_tick (cfs_tasks s t))) as [v Hv]; [apply Hr|].
    unfold mbind, outcome_bind. rewrite Hv. by do 2 eexists.
  - intros s l t prio Hr Ht. unfold cfs_set_priority.
    destruct ((-20 <=? prio) && (prio <=? 19)) eqn:Hp; [|by do 2 eexists].
    unfold cfs_task_set_priority, mbind, outcome_bind.
    destruct (get_vruntime_ok (cfs_tasks s t)) as [v ->]; [apply Hr|].
    do 2 eexists. split; [done|]. apply cfs_retask; [done..|]. bool_to_prop. simpl. lia.
Qed.

(** ** Order of service *)

(** A call made by the run queue. *)
Inductive sched_op :=
| OpAdd (t : Z)
| OpPut (t : Z) (preempt : bool)
| OpPick.

(** Runs the calls, collecting the results of [pick_next_task]. *)
Fixpoint sched_run {S} `{BaseScheduler S} (ops : list sched_op) (s : S) :
    outcome (list (option Z) * S) :=
  match ops with
  | [] => Done ([], s)
  | OpAdd t :: ops => s ← add_task t s; sched_run ops s
  | OpPut t b :: ops => s ← put_prev_task t b s; sched_run ops s
  | OpPick :: ops =>
      r ← pick_next_task s;
      r' ← sched_run ops r.2;
      Done (r.1 :: r'.1, r'.2)
  end.

(** First in, first out; [None] when a task is queued twice. *)
Fixpoint queue_run (ops : list sched_op) (l : list Z) : option (list (option Z) * list Z) :=
  match ops with
  | [] => Some ([], l)
  | OpAdd t :: ops | OpPut t _ :: ops =>
      if bool_decide (t ∈ l) then None else queue_run ops (l ++ [t])
  | OpPick :: ops =>
      '(outs, l') ← queue_run ops (tail l);
      Some (head l :: outs, l')
  end.

(** Running a task for [n] ticks, with the answers of [task_tick]. *)
Fixpoint rr_ticks (n : nat) (t : Z) (s : RRScheduler) : outcome (list bool * RRScheduler) :=
  match n with
  | O => Done ([], s)
  | S n =>
      r ← rr_task_tick t s;
      r' ← rr_ticks n t r.2;
      Done (r.1 :: r'.1, r'.2)
  end.

Lemma rr_ticks_spec (t : Z) (n : nat) : ∀ s k,
  rr_slice s t = k → is_isize k → Z.of_nat n < k →
  ∃ s', rr_ticks n t s = Done (replicate n false, s') ∧ rr_queue s' = rr_queue s ∧
    rr_slice s' t = k - Z.of_nat n.
Proof.
  induction n as [|n IH]; intros s k Hk Hr Hn; simpl; [exists s; split_and!; [done..|lia]|].
  unfold rr_task_tick, mbind, outcome_bind. rewrite Hk. cbn [fst snd].
  unfold is_isize in *. rewrite to_isize_small by (unfold is_isize; lia).
  match goal with |- context [rr_ticks n t ?s1] => destruct (IH s1 (k - 1)) as (s' & -> & Hq & Hs) end;
    [by simpl; rewrite fn_lookup_insert|lia..|].
  exists s'. simpl. split_and!; [|done|lia]. by destruct (Z.leb_spec k 1); [lia|].
Qed.

(** The FIFO scheduler serves tasks in the order they were queued: any
    sequence of calls that never queues a task twice gives the answers of a
    first-in-first-out queue and ends with its contents. *)
Theorem fifo_serves_in_order (ops : list sched_op) : ∀ (s : UList) (l : list Z) outs l',
  is_list s l → queue_run ops l = Some (outs, l') →
  ∃ s', sched_run ops s = Done (outs, s') ∧ is_list s' l'.
Proof.
  induction ops as [|[t|t b|] ops IH]; intros s l outs l' Hl Hq; simpl in *.
  - simplify_eq. by exists s.
  - case_bool_decide; [done|]. destruct (push_back_spec s l t Hl) as (s1 & Hrun & Hl1); [done|].
    unfold fifo_add_task, list_push_back, mbind, outcome_bind. rewrite Hrun. eauto.
  - case_bool_decide; [done|]. destruct (push_back_spec s l t Hl) as (s1 & Hrun & Hl1); [done|].
    unfold fifo_put_prev_task, list_push_back, mbind, outcome_bind. rewrite Hrun. eauto.
  - destruct (queue_run ops (tail l)) as [[outs1 l1]|] eqn:Hq1; [|done]. simplify_eq/=.
    destruct (pop_front_spec s l Hl) as (s1 & Hrun & Hl1).
    unfold fifo_pick_next_task, mbind, outcome_bind. rewrite Hrun. simpl.
    destruct (IH s1 _ _ _ Hl1 Hq1) as (s2 & -> & ?). by exists s2.
Qed.

Lemma fifo_serves_in_order_witness :
  ∃ s', sched_run [OpAdd 7; OpAdd 8; OpPick; OpPut 7 true; OpPick; OpPick; OpPick] ul_new
    = Done ([Some 7; Some 8; Some 7; None], s') ∧ is_list s' [].
Proof. apply (fifo_serves_in_order _ ul_new []); [apply new_is_list|reflexivity]. Defined.

(** A round-robin task that starts with a full slice of [n] ticks is asked
    to reschedule at its [n]-th tick and at no earlier one; when it is put
    back before that because of a preemption it keeps its place at the front
    and its remaining slice, and otherwise it goes to the back with a full
    slice. *)
Theorem rr_time_slice_spec (slice t : Z) (k : nat) (s : RRScheduler) :
  1 ≤ slice < 2 ^ 63 → rr_slice s t = slice → Z.of_nat k < slice →
  ∃ s1, rr_ticks k t s = Done (replicate k false, s1) ∧
    (∃ s2, rr_task_tick t s1 = Done (bool_decide (Z.of_nat k = slice - 1), s2)) ∧
    (∃ s2, rr_put_prev_task slice t true s1 = Done s2 ∧
       rr_queue s2 = t :: rr_queue s ∧ rr_slice s2 t = slice - Z.of_nat k) ∧
    (∃ s2, rr_put_prev_task slice t false s1 = Done s2 ∧
       rr_queue s2 = rr_queue s ++ [t] ∧ rr_slice s2 t = slice).
Proof.
  intros Hs Ht Hk.
  destruct (rr_ticks_spec t k s slice Ht) as (s1 & Hrun & Hq & Hsl); [unfold is_isize; lia|done|].
  exists s1. split_and!; [done| | |].
  - unfold rr_task_tick. rewrite Hsl. eexists. repeat f_equal.
    by destruct (Z.leb_spec (slice - Z.of_nat k) 1); case_bool_decide; try lia.
  - unfold rr_put_prev_task, rr_time_slice. rewrite Hsl.
    destruct (Z.gtb_spec (slice - Z.of_nat k) 0); [|lia]. eexists. split; [done|].
    simpl. by rewrite Hq.
  - unfold rr_put_prev_task. rewrite andb_false_r. eexists. split; [done|]. simpl.
    rewrite Hq, fn_lookup_insert. split; [done|]. apply to_isize_small. unfold is_isize. lia.
Qed.

Lemma rr_time_slice_spec_witness :
  ∃ s1, rr_ticks 2 7 (rr_new 5) = Done ([false; false], s1).
Proof.
  destruct (rr_time_slice_spec 5 7 2 (rr_new 5)) as (s1 & Hrun & _); [lia|done|lia|].
  by exists s1.
Defined.

(** The fair scheduler picks the task of the least key, virtual runtime
    first and queueing order second, and leaves the other tasks queued.  Hence
    when every queued task is keyed by its current virtual runtime, no queued
    task has a smaller one. *)
Theorem cfs_picks_least (s : CFScheduler) (l : list Z) (t : Z) (s' : CFScheduler) :
  cfs_ready s l → cfs_pick_next_task s = Done (Some t, s') →
  ∃ k, ready_queue s = (k, t) :: ready_queue s' ∧
    (∀ k' t', (k', t') ∈ ready_queue s' → k.1 < k'.1 ∨ (k.1 = k'.1 ∧ k.2 < k'.2)) ∧
    ((∀ k' t', (k', t') ∈ ready_queue s → get_vruntime (cfs_tasks s t') = Done k'.1) →
     ∀ t' v', t' ∈ l → get_vruntime (cfs_tasks s t') = Done v' →
       ∃ v, get_vruntime (cfs_tasks s t) = Done v ∧ v ≤ v').
Proof.
  intros Hr. unfold cfs_pick_next_task. destruct (ready_queue s) as [|[k t0] q] eqn:Hq; [done|].
  simpl. intros [= -> <-]. simpl.
  assert (∀ k' t', (k', t') ∈ q → k.1 < k'.1 ∨ (k.1 = k'.1 ∧ k.2 < k'.2)) as Hleast.
  { intros k' t' Hin. pose proof (cfs_wf s l Hr) as Hwf. rewrite Hq in Hwf.
    apply (bt_first_least _ _ _ Hwf) in Hin. simpl in Hin.
    unfold key_ltb, prod_key_order, key_ltb, Z_key_order in Hin. lia. }
  exists k. split_and!; [done..|]. intros Hkey t' v' Ht' Hv'. exists k.1.
  split; [apply (Hkey k t); by left|].
  rewrite (cfs_tasks_of s l Hr), Hq in Ht'. simpl in Ht'.
  apply elem_of_cons in Ht' as [->|Ht'].
  - rewrite (Hkey k t) in Hv' by by left. simplify_eq. lia.
  - apply list_elem_of_fmap in Ht' as ([k' t''] & -> & Hin). simpl in Hv'.
    rewrite (Hkey k' t'') in Hv' by by right. simplify_eq. apply Hleast in Hin. lia.
Qed.

(** Two tasks, one of which ran for a tick before it was queued again. *)
Definition cfs_demo : outcome CFScheduler :=
  s ← add_task 7 (sched_new : CFScheduler);
  s ← add_task 8 s;
  Done s.

Definition cfs_demo_state : CFScheduler :=
  match cfs_demo with Done s => s | Panic => cfs_new end.

Lemma cfs_demo_ready : cfs_ready cfs_demo_state [7; 8].
Proof.
  split; simpl.
  - repeat constructor.
  - done.
  - apply NoDup_cons. split; [set_solver|apply NoDup_singleton].
  - intros k t [[= -> ->]|[[= -> ->]|[]%elem_of_nil]%elem_of_cons]%elem_of_cons; vm_compute;
      split; congruence.
  - vm_compute. split; congruence.
  - intros t. unfold insert, fn_insert. repeat case_decide; simpl; lia.
Qed.

Lemma cfs_picks_least_witness :
  ∃ k s', cfs_pick_next_task cfs_demo_state = Done (Some 7, s') ∧
    ready_queue cfs_demo_state = (k, 7) :: ready_queue s'.
Proof.
  destruct (cfs_picks_least cfs_demo_state [7; 8] 7
    {| ready_queue := [((0, 1), 8)]; min_vruntime := Some 0; id_pool := 2;
       cfs_tasks := cfs_tasks cfs_demo_state |}) as (k & Hk & _);
    [apply cfs_demo_ready|reflexivity|]. eexists k, _. split; [reflexivity|exact Hk].
Defined.

(** The fair scheduler can fail to find a queued task.  [add_task] keys the
    task by the current minimum while [remove_task] looks it up by its virtual
    runtime, which still contains the ticks the task ran before; so a task
    that ran, left the queue and was added again cannot be removed. *)
Theorem cfs_remove_misses_readded_task :
  ∃ s0 s1 s2 s3 : CFScheduler,
    cfs_add_task 7 cfs_new = Done s0 ∧
    cfs_pick_next_task s0 = Done (Some 7, s1) ∧
    (∃ b, cfs_task_tick 7 s1 = Done (b, s2)) ∧
    cfs_add_task 7 s2 = Done s3 ∧
    7 ∈ (ready_queue s3).*2 ∧ cfs_remove_task 7 s3 = Done (None, s3).
Proof.
  do 4 eexists. split; [reflexivity|]. split; [reflexivity|].
  split; [eexists; reflexivity|]. split; [reflexivity|]. split; [|reflexivity].
  vm_compute. left.
Qed.
