(* ===== verification/Ratio.v ===== *)
(** * Fast multiplication by a ratio ([crates/ratio])

    [Ratio::new] replaces [numerator / denominator] by [mult / 2^shift]; the
    timers convert ticks to nanoseconds with it.  All values are kept at the
    widths of the source ([u32] fields, [u64] and [u128] intermediates). *)

From S2P Require Import Prelude.
From stdpp Require Import base numbers list.

Open Scope Z_scope.

Definition u32_max : Z := 2 ^ 32 - 1.

Record Ratio := {
  numerator : Z;
  denominator : Z;
  mult : Z;
  shift : Z;
}.

Definition ratio_zero : Ratio := {| numerator := 0; denominator := 0; mult := 0; shift := 0 |}.

(** [(((numerator as u64) << shift) + denominator as u64 / 2) / denominator as u64]. *)
Definition ratio_mult (numerator denominator shift : Z) : Z :=
  wrap 64 (wrap 64 (Z.shiftl numerator shift) + denominator `div` 2) `div` denominator.

(** The first loop, for [shift] from its value down to 0. *)
Fixpoint ratio_search (numerator denominator : Z) (shift : nat) : Z * nat :=
  let mult := ratio_mult numerator denominator (Z.of_nat shift) in
  match shift with
  | O => (mult, O)
  | S shift' =>
      if mult <=? u32_max then (mult, shift) else ratio_search numerator denominator shift'
  end.

(** The second loop: [while mult % 2 == 0 && shift > 0]. *)
Fixpoint ratio_reduce (mult : Z) (shift : nat) : Z * nat :=
  match shift with
  | O => (mult, O)
  | S shift' => if mult mod 2 =? 0 then ratio_reduce (mult `div` 2) shift' else (mult, shift)
  end.

Definition ratio_new (numerator denominator : Z) : outcome Ratio :=
  _ ← assert_true (negb ((denominator =? 0) && negb (numerator =? 0)));
  if numerator =? 0 then
    Done {| numerator := numerator; denominator := denominator; mult := 0; shift := 0 |}
  else
    let '(mult, shift) := ratio_search numerator denominator 32 in
    let '(mult, shift) := ratio_reduce mult shift in
    Done {| numerator := numerator; denominator := denominator;
            mult := wrap 32 mult; shift := Z.of_nat shift |}.

Definition ratio_inverse (r : Ratio) : outcome Ratio := ratio_new (denominator r) (numerator r).

Definition mul_trunc (r : Ratio) (value : Z) : Z :=
  wrap 64 (Z.shiftr (wrap 128 (value * mult r)) (shift r)).

Definition mul_round (r : Ratio) (value : Z) : Z :=
  wrap 64 (Z.shiftr
    (wrap 128 (wrap 128 (value * mult r) + Z.shiftr (wrap 128 (Z.shiftl 1 (shift r))) 1))
    (shift r)).

(** [PartialEq]: equality of the approximations. *)
Definition ratio_eqb (a b : Ratio) : bool := (mult a =? mult b) && (shift a =? shift b).

(** ** Lemmas *)

(** [m / 2^s] is [n / d] rounded to the nearest multiple of [1 / 2^s]. *)
Definition approximates (n d m s : Z) : Prop := 2 * Z.abs (m * d - n * 2 ^ s) ≤ d.

Section lemmas.
Context (n d : Z) (Hn : 0 < n < 2 ^ 32) (Hd : 0 < d < 2 ^ 32).

(** No intermediate value of the search overflows. *)
Lemma ratio_mult_eq (s : Z) :
  0 ≤ s ≤ 32 → ratio_mult n d s = (n * 2 ^ s + d `div` 2) `div` d.
Proof.
  intros Hs. unfold ratio_mult. rewrite Z.shiftl_mul_pow2 by lia.
  assert (2 ^ s ≤ 2 ^ 32) by (apply Z.pow_le_mono_r; lia).
  assert (0 < 2 ^ s) by lia.
  assert (n * 2 ^ s ≤ (2 ^ 32 - 1) * 2 ^ 32) by nia.
  assert (d `div` 2 < 2 ^ 32) by (apply Z.div_lt_upper_bound; lia).
  assert (0 ≤ d `div` 2) by (apply Z.div_pos; lia).
  rewrite (wrap_small 64 (n * 2 ^ s)) by nia. rewrite wrap_small by nia. done.
Qed.

Lemma ratio_mult_approximates (s : Z) : 0 ≤ s ≤ 32 → approximates n d (ratio_mult n d s) s.
Proof.
  intros Hs. rewrite ratio_mult_eq by done. unfold approximates.
  pose proof (Z.div_mod (n * 2 ^ s + d `div` 2) d) as Hdiv.
  pose proof (Z.mod_pos_bound (n * 2 ^ s + d `div` 2) d).
  pose proof (Z.div_mod d 2). pose proof (Z.mod_pos_bound d 2). nia.
Qed.

Lemma ratio_mult_pos (s : Z) : 0 ≤ s ≤ 32 → 0 ≤ ratio_mult n d s.
Proof.
  intros Hs. rewrite ratio_mult_eq by done. apply Z.div_pos; [|lia].
  assert (0 ≤ d `div` 2) by (apply Z.div_pos; lia). assert (0 < 2 ^ s) by lia. nia.
Qed.

Lemma ratio_mult_zero_small : ratio_mult n d 0 ≤ u32_max.
Proof.
  rewrite ratio_mult_eq by lia. rewrite Z.mul_1_r. unfold u32_max.
  apply Z.lt_succ_r. apply Z.div_lt_upper_bound; [lia|].
  pose proof (Z.div_mod d 2). pose proof (Z.mod_pos_bound d 2). nia.
Qed.

(** The search stops with a multiplier that fits, and only lowers [shift]
    when the multiplier does not fit. *)
Lemma ratio_search_spec (s : nat) :
  (s ≤ 32)%nat →
  let '(m, s') := ratio_search n d s in
  (s' ≤ s)%nat ∧ m = ratio_mult n d (Z.of_nat s') ∧ m ≤ u32_max ∧
  ∀ k, (s' < k ≤ s)%nat → u32_max < ratio_mult n d (Z.of_nat k).
Proof.
  induction s as [|s IH]; intros Hs; cbn [ratio_search].
  { split_and!; [lia|done|apply ratio_mult_zero_small|lia]. }
  destruct (Z.leb_spec (ratio_mult n d (Z.of_nat (S s))) u32_max).
  { split_and!; [lia|done|done|lia]. }
  specialize (IH ltac:(lia)). destruct (ratio_search n d s) as [m s'].
  destruct IH as (? & ? & ? & Hk). split_and!; [lia|done|done|].
  intros k Hk'. destruct (decide (k = S s)) as [->|]; [done|]. apply Hk. lia.
Qed.

Lemma ratio_reduce_spec (s : nat) : ∀ m,
  0 ≤ m → approximates n d m (Z.of_nat s) →
  let '(m', s') := ratio_reduce m s in
  0 ≤ m' ≤ m ∧ (s' ≤ s)%nat ∧ approximates n d m' (Z.of_nat s') ∧
  m' * 2 ^ Z.of_nat s = m * 2 ^ Z.of_nat s' ∧ (m' mod 2 = 1 ∨ s' = O).
Proof.
  induction s as [|s IH]; intros m Hm Happ; cbn [ratio_reduce].
  { split_and!; [lia..|done|done|by right]. }
  destruct (Z.eqb_spec (m mod 2) 0) as [Heven|Hodd].
  2: { split_and!; [lia..|done|done|left]. pose proof (Z.mod_pos_bound m 2). lia. }
  pose proof (Z.div_mod m 2 ltac:(lia)) as Hm2. rewrite Heven, Z.add_0_r in Hm2.
  assert (2 ^ Z.of_nat (S s) = 2 * 2 ^ Z.of_nat s) as Hpow.
  { rewrite Nat2Z.inj_succ, Z.pow_succ_r by lia. done. }
  specialize (IH (m `div` 2)). destruct (ratio_reduce (m `div` 2) s) as [m' s'].
  destruct IH as (? & ? & ? & ? & ?); [lia| |split_and!; [lia|lia|lia|done|nia|done]].
  unfold approximates in *. rewrite Hpow in Happ. nia.
Qed.

Lemma ratio_new_spec :
  ∃ r, ratio_new n d = Done r ∧ numerator r = n ∧ denominator r = d ∧
    0 ≤ mult r ≤ u32_max ∧ 0 ≤ shift r ≤ 32 ∧
    approximates n d (mult r) (shift r) ∧ (mult r mod 2 = 1 ∨ shift r = 0).
Proof.
  unfold ratio_new, mbind, outcome_bind, assert_true.
  rewrite (proj2 (Z.eqb_neq d 0)) by lia. cbn [andb negb]. cbv iota.
  rewrite (proj2 (Z.eqb_neq n 0)) by lia.
  pose proof (ratio_search_spec 32 ltac:(lia)) as Hs.
  destruct (ratio_search n d 32) as [m s]. destruct Hs as (? & Hm & Hle & _).
  assert (0 ≤ m) by (rewrite Hm; apply ratio_mult_pos; lia).
  pose proof (ratio_reduce_spec s m) as Hr. destruct (ratio_reduce m s) as [m' s'].
  destruct Hr as (? & ? & ? & ? & ?); [lia|rewrite Hm; apply ratio_mult_approximates; lia|].
  eexists. split; [done|]. simpl. unfold u32_max in *. rewrite wrap_small by lia.
  split_and!; try done; lia.
Qed.

End lemmas.

(** ** Properties *)

(** [Ratio::new] always returns for a non-zero denominator, and its
    [mult / 2^shift] is within [1 / 2^(shift+1)] of the exact ratio, with
    [mult] a 32-bit number, [shift] at most 32 and the fraction in lowest
    terms; no intermediate value wraps. *)
Theorem ratio_new_approximates (n d : Z) :
  0 < n < 2 ^ 32 → 0 < d < 2 ^ 32 →
  ∃ r, ratio_new n d = Done r ∧ numerator r = n ∧ denominator r = d ∧
    0 ≤ mult r < 2 ^ 32 ∧ 0 ≤ shift r ≤ 32 ∧
    2 * Z.abs (mult r * d - n * 2 ^ shift r) ≤ d ∧
    (mult r mod 2 = 1 ∨ shift r = 0).
Proof.
  intros Hn Hd. destruct (ratio_new_spec n d Hn Hd) as (r & ? & ? & ? & ? & ? & ? & ?).
  exists r. unfold u32_max in *. split_and!; try done; lia.
Qed.

Lemma ratio_new_approximates_witness :
  ∃ r, ratio_new 2 3 = Done r ∧ 2 * Z.abs (mult r * 3 - 2 * 2 ^ shift r) ≤ 3.
Proof.
  destruct (ratio_new_approximates 2 3) as (r & ? & _ & _ & _ & _ & ? & _); [lia..|].
  by exists r.
Defined.

(** [mul_trunc] and [mul_round] compute [value * mult / 2^shift] rounded
    down and to the nearest, without overflow before the final cast to
    [u64], and differ from the exact product [value * n / d] by at most
    [value / 2^(shift+1)] plus the rounding. *)
Theorem ratio_mul_bounds (n d value : Z) (r : Ratio) :
  0 < n < 2 ^ 32 → 0 < d < 2 ^ 32 → is_usize value → ratio_new n d = Done r →
  let p := value * mult r in
  mul_trunc r value = wrap 64 (p `div` 2 ^ shift r) ∧
  mul_round r value = wrap 64 ((p + 2 ^ shift r `div` 2) `div` 2 ^ shift r) ∧
  2 * Z.abs (p * d - value * n * 2 ^ shift r) ≤ value * d.
Proof.
  intros Hn Hd [Hv1 Hv2] Hr p.
  destruct (ratio_new_spec n d Hn Hd) as (r' & Hr' & _ & _ & Hm & Hs & Happ & _).
  rewrite Hr in Hr'. simplify_eq. unfold u32_max in Hm.
  assert (0 ≤ p < 2 ^ 64 * 2 ^ 32) by (unfold p; nia).
  assert (1 ≤ 2 ^ shift r' ≤ 2 ^ 32) as Hpow.
  { split; [lia|]. apply Z.pow_le_mono_r; lia. }
  assert (0 ≤ 2 ^ shift r' `div` 2 ≤ 2 ^ 32) as Hhalf.
  { split; [apply Z.div_pos; lia|]. pose proof (Z.div_mod (2 ^ shift r') 2).
    pose proof (Z.mod_pos_bound (2 ^ shift r') 2). lia. }
  unfold mul_trunc, mul_round. fold p. split_and!.
  - rewrite (wrap_small 128 p) by lia. by rewrite Z.shiftr_div_pow2 by lia.
  - rewrite (wrap_small 128 p) by lia. rewrite Z.shiftl_mul_pow2, Z.mul_1_l by lia.
    rewrite (wrap_small 128 (2 ^ shift r')) by lia. rewrite (Z.shiftr_div_pow2 _ 1) by lia.
    change (2 ^ 1) with 2. rewrite (wrap_small 128) by lia. by rewrite Z.shiftr_div_pow2 by lia.
  - unfold approximates in Happ. unfold p. revert Happ.
    replace (value * mult r' * d - value * n * 2 ^ shift r')
      with (value * (mult r' * d - n * 2 ^ shift r')) by lia.
    rewrite Z.abs_mul, (Z.abs_eq value) by lia. nia.
Qed.

Lemma ratio_mul_bounds_witness :
  mul_trunc {| numerator := 1; denominator := 2; mult := 1; shift := 1 |} 7 =
    wrap 64 ((7 * 1) `div` 2 ^ 1).
Proof.
  apply (ratio_mul_bounds 1 2 7 {| numerator := 1; denominator := 2; mult := 1; shift := 1 |});
    [lia|lia|unfold is_usize; lia|reflexivity].
Defined.
