(* ===== verification/TimerList.v ===== *)
(** * The timer list ([crates/timer_list])

    A min-heap of events by deadline.  The order in which [BinaryHeap]
    returns events of equal deadline is not specified by its documentation,
    so the heap is an interface, [MinHeap], with the laws the documentation
    gives; [sorted_heap] shows that they can be met.  A deadline is the number
    of nanoseconds of a [Duration]. *)

From S2P Require Import Prelude.
From stdpp Require Import base numbers list sorting.
From Stdlib Require Import Sorting.Sorted.

Open Scope Z_scope.

(** [TimerEventWrapper], whose reversed order makes the max-heap a min-heap. *)
Record TimerEventWrapper (E : Type) := {
  deadline : Z;
  event : E;
}.
Arguments deadline {E} _.
Arguments event {E} _.
Arguments Build_TimerEventWrapper {E} _ _.

(** [BinaryHeap]. *)
Class MinHeap (H E : Type) := {
  heap_new : H;
  heap_push : TimerEventWrapper E → H → H;
  heap_peek : H → option (TimerEventWrapper E);
  heap_pop : H → option (TimerEventWrapper E * H);
  heap_retain : (TimerEventWrapper E → bool) → H → H;
}.

Class MinHeapLaws (H E : Type) `{MinHeap H E} (elems : H → list (TimerEventWrapper E)) : Prop := {
  heap_new_elems : elems heap_new = [];
  heap_push_elems e h : elems (heap_push e h) ≡ₚ e :: elems h;
  heap_peek_none h : heap_peek h = None ↔ elems h = [];
  heap_peek_least h e :
    heap_peek h = Some e → ∀ e', e' ∈ elems h → deadline e ≤ deadline e';
  heap_pop_none h : heap_pop h = None ↔ elems h = [];
  heap_pop_peek h e h' :
    heap_pop h = Some (e, h') → heap_peek h = Some e ∧ elems h ≡ₚ e :: elems h';
  heap_retain_elems f h : elems (heap_retain f h) ≡ₚ filter (λ e, f e = true) (elems h);
}.

Section timer_list.
Context {H E : Type} `{MinHeap H E}.

Definition tl_new : H := heap_new.

Definition tl_is_empty (events : H) : bool :=
  match heap_peek events with None => true | Some _ => false end.

Definition tl_set (d : Z) (e : E) (events : H) : H :=
  heap_push {| deadline := d; event := e |} events.

Definition tl_cancel (condition : E → bool) (events : H) : H :=
  heap_retain (λ e, negb (condition (event e))) events.

Definition next_deadline (events : H) : option Z := deadline <$> heap_peek events.

Definition expire_one (now : Z) (events : H) : option (Z * E) * H :=
  match heap_peek events with
  | Some e =>
      if deadline e <=? now then
        match heap_pop events with
        | Some (e, events) => (Some (deadline e, event e), events)
        | None => (None, events)
        end
      else (None, events)
  | None => (None, events)
  end.

(** [check_events] of [axtask/src/timers.rs]: expire until [None], reading the
    clock anew in every round ([clock k] in round [k]) and running the
    callbacks of the events returned, in order. *)
Fixpoint check_events (fuel : nat) (clock : nat → Z) (k : nat) (events : H) :
    outcome (list (Z * E) * H) :=
  match fuel with
  | O => Panic
  | S fuel =>
      match expire_one (clock k) events with
      | (Some e, events) => r ← check_events fuel clock (S k) events; Done (e :: r.1, r.2)
      | (None, events) => Done ([], events)
      end
  end.

Context {elems : H → list (TimerEventWrapper E)} {HL : MinHeapLaws H E elems}.

Lemma expire_one_spec (now : Z) (h : H) :
  match expire_one now h with
  | (Some (d, e), h') =>
      elems h ≡ₚ Build_TimerEventWrapper d e :: elems h' ∧ d ≤ now ∧
      ∀ e', e' ∈ elems h → d ≤ deadline e'
  | (None, h') => h' = h ∧ ∀ e', e' ∈ elems h → now < deadline e'
  end.
Proof.
  unfold expire_one. destruct (heap_peek h) as [e|] eqn:Hp.
  2: { apply heap_peek_none in Hp. split; [done|]. rewrite Hp. by intros ? ?%elem_of_nil. }
  pose proof (heap_peek_least h e Hp) as Hleast.
  destruct (Z.leb_spec (deadline e) now) as [Hle|Hgt].
  2: { split; [done|]. intros e' He'. apply Hleast in He'. lia. }
  destruct (heap_pop h) as [[e1 h1]|] eqn:Hpop.
  - apply heap_pop_peek in Hpop as [Hp1 Hperm]. rewrite Hp in Hp1. simplify_eq.
    destruct e1 as [d e]. simpl in *. done.
  - apply heap_pop_none in Hpop. rewrite (proj2 (heap_peek_none h)) in Hp; done.
Qed.

(** The events due, and the ones left. *)
Definition due (now : Z) (l : list (TimerEventWrapper E)) : list (TimerEventWrapper E) :=
  filter (λ e, deadline e ≤ now) l.
Definition pending (now : Z) (l : list (TimerEventWrapper E)) : list (TimerEventWrapper E) :=
  filter (λ e, ¬ deadline e ≤ now) l.

Definition of_wrapper (e : TimerEventWrapper E) : Z * E := (deadline e, event e).

Lemma filter_all {A} (P : A → Prop) `{∀ x, Decision (P x)} (l : list A) :
  (∀ x, x ∈ l → P x) → filter P l = l.
Proof.
  induction l as [|x l IH]; intros Hl; [done|].
  rewrite filter_cons_True by (apply Hl; left). rewrite IH; [done|].
  intros y Hy. apply Hl. by right.
Qed.

Lemma filter_none {A} (P : A → Prop) `{∀ x, Decision (P x)} (l : list A) :
  (∀ x, x ∈ l → ¬ P x) → filter P l = [].
Proof.
  induction l as [|x l IH]; intros Hl; [done|].
  rewrite filter_cons_False by (apply Hl; left). apply IH.
  intros y Hy. apply Hl. by right.
Qed.

Lemma check_events_spec (clock : nat → Z) (fuel : nat) :
  (∀ i j, (i ≤ j)%nat → clock i ≤ clock j) → ∀ k h,
  (length (elems h) < fuel)%nat →
  ∃ fired h', check_events fuel clock k h = Done (fired, h') ∧
    let now := clock (k + length fired)%nat in
    fired ≡ₚ of_wrapper <$> due now (elems h) ∧ elems h' ≡ₚ pending now (elems h) ∧
    Sorted Z.le fired.*1.
Proof.
  intros Hmono. induction fuel as [|fuel IH]; intros k h Hfuel; [lia|]. simpl.
  pose proof (expire_one_spec (clock k) h) as Hone.
  destruct (expire_one (clock k) h) as [[[d e]|] h1].
  - destruct Hone as (Hperm & Hd & Hleast).
    destruct (IH (S k) h1) as (fired & h2 & Hrun & Hf & Hp & Hs).
    { rewrite Hperm in Hfuel. simpl in Hfuel. lia. }
    unfold mbind, outcome_bind. rewrite Hrun. simpl.
    exists ((d, e) :: fired), h2. simpl length. rewrite Nat.add_succ_r. simpl in *.
    pose proof (Hmono k (S (k + length fired)) ltac:(lia)) as Hnow. split_and!; [done| | |].
    + unfold due. rewrite Hperm, filter_cons_True by (simpl; lia). simpl. by rewrite Hf.
    + unfold pending. rewrite Hperm, filter_cons_False by (simpl; lia). done.
    + constructor; [done|]. destruct fired as [|[d' e'] fired]; [by constructor|].
      constructor. assert ((d', e') ∈ of_wrapper <$> due (clock (S (k + S (length fired)))) (elems h1))
        as Hin by (rewrite <- Hf; left).
      apply list_elem_of_fmap in Hin as (w & [= -> ->] & [_ Hin]%list_elem_of_filter).
      apply Hleast. rewrite Hperm. by right.
  - destruct Hone as [-> Hlate]. exists [], h. simpl. rewrite Nat.add_0_r.
    split_and!; [done| | |by constructor].
    + unfold due. rewrite filter_none; [done|]. intros e He. apply Hlate in He. lia.
    + unfold pending. rewrite filter_all; [done|]. intros e He. apply Hlate in He. lia.
Qed.

(** [check_events] terminates for any clock that does not run backwards,
    fires exactly the events due at its last reading of the clock, in order of
    deadline, and keeps exactly the others; this holds for any heap that meets
    the documentation of [BinaryHeap]. *)
Theorem timer_expiry (clock : nat → Z) (h : H) (fuel : nat) :
  (∀ i j, (i ≤ j)%nat → clock i ≤ clock j) → (length (elems h) < fuel)%nat →
  ∃ fired h', check_events fuel clock 0 h = Done (fired, h') ∧
    let now := clock (length fired) in
    fired ≡ₚ of_wrapper <$> filter (λ e, deadline e ≤ now) (elems h) ∧
    elems h' ≡ₚ filter (λ e, ¬ deadline e ≤ now) (elems h) ∧
    Sorted Z.le fired.*1.
Proof. intros Hmono. by apply check_events_spec. Qed.

(** [set] adds one event, [cancel] removes exactly the events that meet the
    condition, and [next_deadline] is the least deadline, [None] exactly when
    the list is empty. *)
Theorem timer_list_contents (h : H) (d : Z) (e : E) (condition : E → bool) :
  elems (tl_set d e h) ≡ₚ Build_TimerEventWrapper d e :: elems h ∧
  elems (tl_cancel condition h) ≡ₚ filter (λ w, condition (event w) = false) (elems h) ∧
  (tl_is_empty h = true ↔ elems h = []) ∧
  match next_deadline h with
  | None => elems h = []
  | Some n => ∀ w, w ∈ elems h → n ≤ deadline w
  end.
Proof.
  unfold tl_set, tl_cancel, tl_is_empty, next_deadline. split_and!.
  - apply heap_push_elems.
  - rewrite heap_retain_elems. erewrite list_filter_iff; [done|].
    intros w. simpl. by destruct (condition (event w)).
  - rewrite <- heap_peek_none. by destruct (heap_peek h).
  - destruct (heap_peek h) as [w|] eqn:Hp; simpl; [by apply heap_peek_least|].
    by apply heap_peek_none.
Qed.

End timer_list.

(** ** An instance *)

Section sorted_heap.
Context {E : Type}.

Fixpoint insert_by_deadline (e : TimerEventWrapper E) (l : list (TimerEventWrapper E)) :=
  match l with
  | [] => [e]
  | x :: l => if deadline e <=? deadline x then e :: x :: l else x :: insert_by_deadline e l
  end.

#[global] Instance sorted_heap : MinHeap (list (TimerEventWrapper E)) E := {|
  heap_new := [];
  heap_push e h := e :: h;
  heap_peek h := head (foldr insert_by_deadline [] h);
  heap_pop h :=
    match foldr insert_by_deadline [] h with [] => None | e :: h => Some (e, h) end;
  heap_retain f h := filter (λ e, f e = true) h;
|}.

Lemma insert_by_deadline_perm (e : TimerEventWrapper E) (l : list (TimerEventWrapper E)) :
  insert_by_deadline e l ≡ₚ e :: l.
Proof.
  induction l as [|x l IH]; simpl; [done|]. case_match; [done|]. rewrite IH. solve_Permutation.
Qed.

Lemma sort_perm (l : list (TimerEventWrapper E)) : foldr insert_by_deadline [] l ≡ₚ l.
Proof. induction l as [|x l IH]; simpl; [done|]. by rewrite insert_by_deadline_perm, IH. Qed.

Lemma insert_by_deadline_sorted (e : TimerEventWrapper E) (l : list (TimerEventWrapper E)) :
  StronglySorted (λ a b, deadline a ≤ deadline b) l →
  StronglySorted (λ a b, deadline a ≤ deadline b) (insert_by_deadline e l).
Proof.
  induction 1 as [|x l Hl IH Hx]; simpl; [by repeat constructor|].
  destruct (Z.leb_spec (deadline e) (deadline x)).
  - constructor; [by constructor|]. constructor; [done|].
    eapply Forall_impl; [exact Hx|]. simpl. lia.
  - constructor; [done|]. apply Forall_forall. intros y Hy.
    rewrite insert_by_deadline_perm in Hy. apply elem_of_cons in Hy as [->|Hy]; [lia|].
    rewrite Forall_forall in Hx. auto.
Qed.

#[global] Instance sorted_heap_laws : MinHeapLaws (list (TimerEventWrapper E)) E id.
Proof.
  assert (∀ h, StronglySorted (λ a b, deadline a ≤ deadline b) (foldr insert_by_deadline [] h))
    as Hs by (induction h; simpl; [constructor|by apply insert_by_deadline_sorted]).
  split; simpl; unfold id; try done.
  - intros h. pose proof (sort_perm h) as Hp. destruct (foldr insert_by_deadline [] h); simpl.
    + by apply Permutation_nil_l in Hp as ->.
    + split; [done|]. intros ->. by apply Permutation_nil_r in Hp.
  - intros h e Hh e' He'. specialize (Hs h). pose proof (sort_perm h) as Hp.
    destruct (foldr insert_by_deadline [] h) as [|x l]; simplify_eq/=.
    rewrite <- Hp in He'. apply StronglySorted_inv in Hs as [_ Hx].
    rewrite Forall_forall in Hx. apply elem_of_cons in He' as [->|?]; [lia|auto].
  - intros h. pose proof (sort_perm h) as Hp. destruct (foldr insert_by_deadline [] h); simpl.
    + by apply Permutation_nil_l in Hp as ->.
    + split; [done|]. intros ->. by apply Permutation_nil_r in Hp.
  - intros h e h' Hh. pose proof (sort_perm h) as Hp.
    destruct (foldr insert_by_deadline [] h) as [|x l]; simplify_eq/=. done.
Qed.

End sorted_heap.

Definition demo_timers : list (TimerEventWrapper nat) :=
  [Build_TimerEventWrapper 30 1%nat; Build_TimerEventWrapper 10 2%nat].

Lemma timer_expiry_witness :
  ∃ fired h', check_events (H := list (TimerEventWrapper nat)) 3 (λ _, 20) 0 demo_timers =
      Done (fired, h') ∧ Sorted Z.le fired.*1.
Proof.
  destruct (timer_expiry (elems := id) (λ _, 20) demo_timers 3) as (fired & h' & ? & _ & _ & ?);
    [done|simpl; lia|]. by exists fired, h'.
Defined.

Lemma timer_list_contents_witness :
  tl_is_empty (H := list (TimerEventWrapper nat)) demo_timers = true ↔ demo_timers = [].
Proof. apply (timer_list_contents (elems := id) demo_timers 5 3%nat (λ _, false)). Defined.
