(* ===== verification/Utf8.v ===== *)
(** * Text in UTF-8 (the [str] and [char] of Rust)

    A string is the list of its characters.  [as_bytes] gives its bytes,
    [from_utf8] is [core::str::from_utf8]: it accepts the bytes that encode a
    string, and no others, and gives that string. *)

From S2P Require Import Prelude.
From stdpp Require Import base numbers list.

Open Scope Z_scope.

(** The values of a [char]. *)
Definition is_scalar (c : Z) : Prop := 0 ≤ c < 0xd800 ∨ 0xe000 ≤ c < 0x110000.

(** [char::encode_utf8]. *)
Definition encode_char (c : Z) : list Z :=
  if c <? 0x80 then [c]
  else if c <? 0x800 then [0xc0 + c / 64; 0x80 + c mod 64]
  else if c <? 0x10000 then [0xe0 + c / 4096; 0x80 + (c / 64) mod 64; 0x80 + c mod 64]
  else [0xf0 + c / 262144; 0x80 + (c / 4096) mod 64; 0x80 + (c / 64) mod 64; 0x80 + c mod 64].

(** [s.as_bytes()]. *)
Definition as_bytes (s : list Z) : list Z := s ≫= encode_char.

(** A byte that continues a character. *)
Definition utf8_cont (c : Z) : bool := (0x80 <=? c) && (c <=? 0xbf).

(** The second byte of a character of three, or of four, bytes. *)
Definition second_of_three (b c : Z) : bool :=
  (0xe0 <=? b) && (b <=? 0xef) &&
  (if b =? 0xe0 then 0xa0 <=? c else 0x80 <=? c) && (if b =? 0xed then c <=? 0x9f else c <=? 0xbf).

Definition second_of_four (b c : Z) : bool :=
  (0xf0 <=? b) && (b <=? 0xf4) &&
  (if b =? 0xf0 then 0x90 <=? c else 0x80 <=? c) && (if b =? 0xf4 then c <=? 0x8f else c <=? 0xbf).

Fixpoint from_utf8 (l : list Z) : option (list Z) :=
  match l with
  | [] => Some []
  | b :: l =>
      if b <? 0x80 then cons b <$> from_utf8 l
      else match l with
      | [] => None
      | c :: l =>
          if (0xc2 <=? b) && (b <=? 0xdf) then
            if utf8_cont c then cons ((b - 0xc0) * 64 + (c - 0x80)) <$> from_utf8 l else None
          else match l with
          | [] => None
          | d :: l =>
              if second_of_three b c then
                if utf8_cont d then cons ((b - 0xe0) * 4096 + (c - 0x80) * 64 + (d - 0x80)) <$> from_utf8 l
                else None
              else match l with
              | [] => None
              | e :: l =>
                  if second_of_four b c && utf8_cont d && utf8_cont e then
                    cons ((b - 0xf0) * 262144 + (c - 0x80) * 4096 + (d - 0x80) * 64 + (e - 0x80)) <$> from_utf8 l
                  else None
              end
          end
      end
  end.

(** ** Round trips *)

Lemma as_bytes_cons c s : as_bytes (c :: s) = encode_char c ++ as_bytes s.
Proof. done. Qed.

Ltac utf8_case :=
  repeat match goal with
  | |- context [?a <? ?b] => destruct (Z.ltb_spec a b); try lia
  | |- context [?a <=? ?b] => destruct (Z.leb_spec a b); try lia
  | |- context [?a =? ?b] => destruct (Z.eqb_spec a b); try lia
  end.

(** A character in front. *)
Lemma from_utf8_char c l : is_scalar c → from_utf8 (encode_char c ++ l) = cons c <$> from_utf8 l.
Proof.
  unfold is_scalar, encode_char. intros Hc.
  destruct (Z.ltb_spec c 0x80); [cbn; by rewrite (proj2 (Z.ltb_lt c 128))|].
  destruct (Z.ltb_spec c 0x800).
  - cbn [app from_utf8]. unfold utf8_cont. Z.to_euclidean_division_equations. utf8_case. cbn. f_equal. f_equal. lia.
  - destruct (Z.ltb_spec c 0x10000); cbn [app from_utf8]; unfold second_of_three, second_of_four, utf8_cont;
      Z.to_euclidean_division_equations; utf8_case; cbn; f_equal; f_equal; lia.
Qed.

(** A string comes back from its bytes. *)
Theorem from_as_bytes s : Forall is_scalar s → from_utf8 (as_bytes s) = Some s.
Proof.
  induction 1 as [|c s Hc Hs IH]; [done|]. rewrite as_bytes_cons, from_utf8_char by done. by rewrite IH.
Qed.

(** What was read is what the bytes encode. *)
Lemma encode_two b c : 0xc2 ≤ b ≤ 0xdf → 0x80 ≤ c ≤ 0xbf →
  let v := (b - 0xc0) * 64 + (c - 0x80) in is_scalar v ∧ encode_char v = [b; c].
Proof.
  intros Hb Hc v. split; [unfold is_scalar; lia|]. unfold encode_char.
  rewrite (proj2 (Z.ltb_ge _ _)), (proj2 (Z.ltb_lt _ _)) by lia.
  assert (v / 64 = b - 0xc0 ∧ v mod 64 = c - 0x80) as [-> ->] by (Z.to_euclidean_division_equations; lia).
  repeat f_equal; lia.
Qed.

Lemma encode_three b c d : second_of_three b c = true → 0x80 ≤ d ≤ 0xbf →
  let v := (b - 0xe0) * 4096 + (c - 0x80) * 64 + (d - 0x80) in is_scalar v ∧ encode_char v = [b; c; d].
Proof.
  intros Hs Hd v. assert (0xe0 ≤ b ≤ 0xef ∧ 0x80 ≤ c ≤ 0xbf ∧ (b = 0xe0 → 0xa0 ≤ c) ∧ (b = 0xed → c ≤ 0x9f)) as (Hb & Hc & H1 & H2).
  { revert Hs. unfold second_of_three. utf8_case; cbn; try done; lia. }
  split; [unfold is_scalar; lia|]. unfold encode_char.
  rewrite (proj2 (Z.ltb_ge _ _)), (proj2 (Z.ltb_ge _ _)), (proj2 (Z.ltb_lt _ _)) by lia.
  assert (v / 4096 = b - 0xe0) as -> by (Z.to_euclidean_division_equations; lia).
  assert (v / 64 = (b - 0xe0) * 64 + (c - 0x80)) as -> by (Z.to_euclidean_division_equations; lia).
  assert (((b - 0xe0) * 64 + (c - 0x80)) mod 64 = c - 0x80) as -> by (Z.to_euclidean_division_equations; lia).
  assert (v mod 64 = d - 0x80) as -> by (Z.to_euclidean_division_equations; lia).
  repeat f_equal; lia.
Qed.

Lemma encode_four b c d e : second_of_four b c = true → 0x80 ≤ d ≤ 0xbf → 0x80 ≤ e ≤ 0xbf →
  let v := (b - 0xf0) * 262144 + (c - 0x80) * 4096 + (d - 0x80) * 64 + (e - 0x80) in
  is_scalar v ∧ encode_char v = [b; c; d; e].
Proof.
  intros Hs Hd He v. assert (0xf0 ≤ b ≤ 0xf4 ∧ 0x80 ≤ c ≤ 0xbf ∧ (b = 0xf0 → 0x90 ≤ c) ∧ (b = 0xf4 → c ≤ 0x8f)) as (Hb & Hc & H1 & H2).
  { revert Hs. unfold second_of_four. utf8_case; cbn; try done; lia. }
  split; [unfold is_scalar; lia|]. unfold encode_char.
  rewrite (proj2 (Z.ltb_ge _ _)), (proj2 (Z.ltb_ge _ _)), (proj2 (Z.ltb_ge _ _)) by lia.
  assert (v / 262144 = b - 0xf0) as -> by (Z.to_euclidean_division_equations; lia).
  assert (v / 4096 = (b - 0xf0) * 64 + (c - 0x80)) as -> by (Z.to_euclidean_division_equations; lia).
  assert (((b - 0xf0) * 64 + (c - 0x80)) mod 64 = c - 0x80) as -> by (Z.to_euclidean_division_equations; lia).
  assert (v / 64 = ((b - 0xf0) * 64 + (c - 0x80)) * 64 + (d - 0x80)) as -> by (Z.to_euclidean_division_equations; lia).
  assert ((((b - 0xf0) * 64 + (c - 0x80)) * 64 + (d - 0x80)) mod 64 = d - 0x80) as -> by (Z.to_euclidean_division_equations; lia).
  assert (v mod 64 = e - 0x80) as -> by (Z.to_euclidean_division_equations; lia).
  repeat f_equal; lia.
Qed.

Lemma utf8_cont_range c : utf8_cont c = true → 0x80 ≤ c ≤ 0xbf.
Proof. unfold utf8_cont. intros H. bool_to_prop. lia. Qed.

Lemma from_utf8_cons_inv v bs l s : encode_char v = bs → is_scalar v →
  (∀ s, from_utf8 l = Some s → Forall is_scalar s ∧ as_bytes s = l) →
  cons v <$> from_utf8 l = Some s → Forall is_scalar s ∧ as_bytes s = bs ++ l.
Proof.
  intros <- Hv IH (s' & Hs & ->)%fmap_Some. destruct (IH s' Hs) as [H1 H2].
  split; [by constructor|]. by rewrite as_bytes_cons, H2.
Qed.

(** [from_utf8] accepts only encodings. *)
Theorem from_utf8_sound l : ∀ s, Forall (λ b, 0 ≤ b) l → from_utf8 l = Some s → Forall is_scalar s ∧ as_bytes s = l.
Proof.
  induction l as [l IH] using (induction_ltof1 _ (@length Z)); unfold ltof in IH. intros s Hl.
  assert (∀ l', (length l' < length l)%nat → l' `suffix_of` l → ∀ s, from_utf8 l' = Some s → Forall is_scalar s ∧ as_bytes s = l') as IH'.
  { intros l' Hlt [k ->] s'. apply IH; [done|]. by apply Forall_app in Hl as [_ ?]. }
  clear IH. destruct l as [|b l]; [by intros [= <-]|]. cbn [from_utf8].
  assert (0 ≤ b) as Hb0 by by apply Forall_inv in Hl. clear Hl.
  destruct (Z.ltb_spec b 0x80) as [Hb|Hb].
  { apply (from_utf8_cons_inv b [b]); [|unfold is_scalar; lia|apply IH'; [cbn; lia|by exists [b]]].
    unfold encode_char. by rewrite (proj2 (Z.ltb_lt _ _)). }
  destruct l as [|c l]; [done|]. destruct ((0xc2 <=? b) && (b <=? 0xdf)) eqn:H2.
  { destruct (utf8_cont c) eqn:Hc; [|done]. apply utf8_cont_range in Hc. bool_to_prop.
    destruct (encode_two b c) as [Hv He]; [lia..|].
    apply (from_utf8_cons_inv _ [b; c]); [done|done|apply IH'; [cbn; lia|by exists [b; c]]]. }
  destruct l as [|d l]; [done|]. destruct (second_of_three b c) eqn:H3.
  { destruct (utf8_cont d) eqn:Hd; [|done]. apply utf8_cont_range in Hd.
    destruct (encode_three b c d) as [Hv He]; [done..|].
    apply (from_utf8_cons_inv _ [b; c; d]); [done|done|apply IH'; [cbn; lia|by exists [b; c; d]]]. }
  destruct l as [|e l]; [done|]. destruct (second_of_four b c) eqn:H4; [|done].
  destruct (utf8_cont d) eqn:Hd; [|done]. destruct (utf8_cont e) eqn:He; [|done]. cbn [andb].
  apply utf8_cont_range in Hd, He. destruct (encode_four b c d e) as [Hv Hen]; [done..|].
  apply (from_utf8_cons_inv _ [b; c; d; e]); [done|done|apply IH'; [cbn; lia|by exists [b; c; d; e]]].
Qed.

Lemma from_as_bytes_witness : from_utf8 (as_bytes [72; 228; 8364; 128512]) = Some [72; 228; 8364; 128512].
Proof. apply from_as_bytes. repeat constructor; unfold is_scalar; lia. Defined.

Lemma from_utf8_sound_witness : as_bytes [72; 228; 8364; 128512] = [72; 195; 164; 226; 130; 172; 240; 159; 152; 128].
Proof.
  apply (from_utf8_sound [72; 195; 164; 226; 130; 172; 240; 159; 152; 128]); [repeat constructor; lia|reflexivity].
Defined.

(** ASCII text is its own encoding. *)
Lemma from_utf8_ascii l : Forall (λ c, 0 ≤ c < 0x80) l → from_utf8 l = Some l.
Proof.
  induction 1 as [|c l Hc Hl IH]; [done|]. cbn [from_utf8]. rewrite (proj2 (Z.ltb_lt _ _)) by lia. by rewrite IH.
Qed.

Lemma as_bytes_ascii l : Forall (λ c, 0 ≤ c < 0x80) l → as_bytes l = l.
Proof.
  induction 1 as [|c l Hc Hl IH]; [done|]. rewrite as_bytes_cons, IH. unfold encode_char.
  by rewrite (proj2 (Z.ltb_lt _ _)) by lia.
Qed.
