(* ===== verification/AxErrno.v ===== *)
(** * Error codes ([crates/axerrno])

    The generic error type of the kernel, the Linux error numbers that
    [build.rs] generates from [errno.h], and the conversion between them. *)

From S2P Require Import Prelude.
From stdpp Require Import base numbers strings.

Open Scope Z_scope.

(** The error numbers of [errno.h] that the modelled code uses. *)
Inductive LinuxError :=
| EPERM
| ENOENT
| EIO
| EBADF
| EAGAIN
| ENOMEM
| EACCES
| EFAULT
| EBUSY
| EEXIST
| ENOTDIR
| EISDIR
| EINVAL
| EMFILE
| ENOSPC
| ERANGE
| ENOSYS
| ENOTEMPTY
| EOPNOTSUPP
| EADDRINUSE
| EISCONN
| ENOTCONN
| ECONNREFUSED.

#[global] Instance LinuxError_eq_dec : EqDecision LinuxError.
Proof. solve_decision. Defined.

Definition code (e : LinuxError) : Z :=
  match e with
  | EPERM => 1
  | ENOENT => 2
  | EIO => 5
  | EBADF => 9
  | EAGAIN => 11
  | ENOMEM => 12
  | EACCES => 13
  | EFAULT => 14
  | EBUSY => 16
  | EEXIST => 17
  | ENOTDIR => 20
  | EISDIR => 21
  | EINVAL => 22
  | EMFILE => 24
  | ENOSPC => 28
  | ERANGE => 34
  | ENOSYS => 38
  | ENOTEMPTY => 39
  | EOPNOTSUPP => 95
  | EADDRINUSE => 98
  | EISCONN => 106
  | ENOTCONN => 107
  | ECONNREFUSED => 111
  end.

(** The comments of [errno.h]. *)
Definition linux_as_str (e : LinuxError) : string :=
  match e with
  | EPERM => "Operation not permitted"
  | ENOENT => "No such file or directory"
  | EIO => "I/O error"
  | EBADF => "Bad file number"
  | EAGAIN => "Try again"
  | ENOMEM => "Out of memory"
  | EACCES => "Permission denied"
  | EFAULT => "Bad address"
  | EBUSY => "Device or resource busy"
  | EEXIST => "File exists"
  | ENOTDIR => "Not a directory"
  | EISDIR => "Is a directory"
  | EINVAL => "Invalid argument"
  | EMFILE => "Too many open files"
  | ENOSPC => "No space left on device"
  | ERANGE => "Math result not representable"
  | ENOSYS => "Invalid system call number"
  | ENOTEMPTY => "Directory not empty"
  | EOPNOTSUPP => "Operation not supported on transport endpoint"
  | EADDRINUSE => "Address already in use"
  | EISCONN => "Transport endpoint is already connected"
  | ENOTCONN => "Transport endpoint is not connected"
  | ECONNREFUSED => "Connection refused"
  end.

Inductive AxError :=
| AddrInUse
| AlreadyExists
| BadAddress
| BadState
| ConnectionRefused
| DirectoryNotEmpty
| InvalidData
| InvalidInput
| Io
| IsADirectory
| NoMemory
| NotADirectory
| NotConnected
| NotFound
| PermissionDenied
| ResourceBusy
| StorageFull
| UnexpectedEof
| Unsupported
| WouldBlock
| WriteZero.

#[global] Instance AxError_eq_dec : EqDecision AxError.
Proof. solve_decision. Defined.

(** [impl From<AxError> for LinuxError]. *)
Definition linux_error_from (e : AxError) : LinuxError :=
  match e with
  | AddrInUse => EADDRINUSE
  | AlreadyExists => EEXIST
  | BadAddress | BadState => EFAULT
  | ConnectionRefused => ECONNREFUSED
  | DirectoryNotEmpty => ENOTEMPTY
  | InvalidInput | InvalidData => EINVAL
  | Io => EIO
  | IsADirectory => EISDIR
  | NoMemory => ENOMEM
  | NotADirectory => ENOTDIR
  | NotConnected => ENOTCONN
  | NotFound => ENOENT
  | PermissionDenied => EACCES
  | ResourceBusy => EBUSY
  | StorageFull => ENOSPC
  | Unsupported => ENOSYS
  | UnexpectedEof | WriteZero => EIO
  | WouldBlock => EAGAIN
  end.

Definition as_str (e : AxError) : string :=
  match e with
  | BadState => "Bad internal state"
  | InvalidData => "Invalid data"
  | Unsupported => "Operation not supported"
  | UnexpectedEof => "Unexpected end of file"
  | WriteZero => "Write zero"
  | _ => linux_as_str (linux_error_from e)
  end.

(** The operator [?] on a result, where the caller returns Linux errors. *)
Definition to_linux {T} (r : result AxError T) : result LinuxError T :=
  match r with Ok t => Ok t | Err e => Err (linux_error_from e) end.
