(* ===== verification/FlattenObjects.v ===== *)
(** * Numbered objects ([crates/flatten_objects])

    [FlattenObjects<T, CAP>]: an array of [CAP] possibly uninitialised cells
    and a bitmap of the cells in use.  The [bitmaps] crate is an interface;
    its documented behaviour covers indices below the size of the bitmap. *)

From S2P Require Import Prelude.
From stdpp Require Import base numbers gmap sets list.

Open Scope Z_scope.

(** [bitmaps::Bitmap<1024>]; [set] beyond the size is not specified. *)
Class Bitmap (B : Type) := {
  bm_zeroed : B;
  bm_get : B → Z → bool;
  bm_set : Z → bool → B → outcome B;
  bm_first_false_index : B → option Z;
}.

Class BitmapLaws (B : Type) `{Bitmap B} : Prop := {
  bm_get_zeroed i : bm_get bm_zeroed i = false;
  bm_set_get b i v :
    0 ≤ i < 1024 → ∃ b', bm_set i v b = Done b' ∧
      ∀ j, 0 ≤ j < 1024 → bm_get b' j = if decide (i = j) then v else bm_get b j;
  bm_first_false_some b i :
    bm_first_false_index b = Some i →
    0 ≤ i < 1024 ∧ bm_get b i = false ∧ ∀ j, 0 ≤ j < i → bm_get b j = true;
  bm_first_false_none b :
    bm_first_false_index b = None → ∀ j, 0 ≤ j < 1024 → bm_get b j = true;
}.

Record FlattenObjects (B T : Type) := {
  objects : list (option T);
  id_bitmap : B;
  count : Z;
}.
Arguments objects {B T} _.
Arguments id_bitmap {B T} _.
Arguments count {B T} _.
Arguments Build_FlattenObjects {B T} _ _ _.

Section flatten_objects.
Context {B T : Type} `{BM : Bitmap B} (CAP : Z).
Implicit Types fo : FlattenObjects B T.

Definition fo_new : outcome (FlattenObjects B T) :=
  _ ← assert_true (CAP <=? 1024);
  Done {| objects := replicate (Z.to_nat CAP) None; id_bitmap := bm_zeroed; count := 0 |}.

Definition fo_capacity fo : Z := CAP.
Definition fo_count fo : Z := count fo.

Definition is_assigned fo (id : Z) : bool := (id <? CAP) && bm_get (id_bitmap fo) id.

(** Reading [objects[id]]: panics out of range or when uninitialised. *)
Definition read_object fo (id : Z) : outcome T :=
  c ← unwrap (objects fo !! Z.to_nat id); unwrap c.

(** [objects[id].write(value)]: panics out of range. *)
Definition write_object (id : Z) (value : T) (l : list (option T)) : outcome (list (option T)) :=
  if id <? Z.of_nat (length l) then Done (<[Z.to_nat id := Some value]> l) else Panic.

Definition fo_get fo (id : Z) : outcome (option T) :=
  if is_assigned fo id then v ← read_object fo id; Done (Some v) else Done None.

(** The body [add] and [add_at] share. *)
Definition fo_install (id : Z) (value : T) fo : outcome (FlattenObjects B T) :=
  b ← bm_set id true (id_bitmap fo);
  l ← write_object id value (objects fo);
  Done {| objects := l; id_bitmap := b; count := wadd (count fo) 1 |}.

Definition fo_add (value : T) fo : outcome (option Z * FlattenObjects B T) :=
  match bm_first_false_index (id_bitmap fo) with
  | None => Done (None, fo)
  | Some id =>
      if id <? CAP then fo ← fo_install id value fo; Done (Some id, fo)
      else Done (None, fo)
  end.

Definition fo_add_at (id : Z) (value : T) fo : outcome (option Z * FlattenObjects B T) :=
  if is_assigned fo id then Done (None, fo)
  else fo ← fo_install id value fo; Done (Some id, fo).

Definition fo_remove (id : Z) fo : outcome (option T * FlattenObjects B T) :=
  if is_assigned fo id then
    b ← bm_set id false (id_bitmap fo);
    v ← read_object fo id;
    Done (Some v, {| objects := objects fo; id_bitmap := b; count := wsub (count fo) 1 |})
  else Done (None, fo).

(** ** Refinement of a finite map *)

Context {BML : BitmapLaws B}.
Hypothesis Hcap : 0 ≤ CAP ≤ 1024.

Record fo_repr fo (m : gmap Z T) : Prop := {
  repr_len : length (objects fo) = Z.to_nat CAP;
  repr_dom : ∀ id, id ∈ dom m → 0 ≤ id < CAP;
  repr_bit : ∀ id, 0 ≤ id < 1024 → bm_get (id_bitmap fo) id = bool_decide (id ∈ dom m);
  repr_obj : ∀ id v, m !! id = Some v → objects fo !! Z.to_nat id = Some (Some v);
  repr_count : count fo = Z.of_nat (size m);
}.

Lemma size_le_cap (m : gmap Z T) : (∀ id, id ∈ dom m → 0 ≤ id < CAP) → Z.of_nat (size m) ≤ CAP.
Proof.
  intros Hd. rewrite <- size_dom.
  assert (dom m ⊆ (list_to_set (Z.of_nat <$> seq 0 (Z.to_nat CAP)) : gset Z)) as Hsub.
  { intros id Hid. apply elem_of_list_to_set, elem_of_range. apply Hd in Hid. lia. }
  apply subseteq_size in Hsub. rewrite size_list_to_set in Hsub.
  - rewrite length_fmap, length_seq in Hsub. lia.
  - apply NoDup_fmap_2; [typeclasses eauto|apply NoDup_seq].
Qed.

Lemma is_assigned_eq fo (m : gmap Z T) (id : Z) :
  fo_repr fo m → 0 ≤ id → is_assigned fo id = bool_decide (id ∈ dom m).
Proof.
  intros Hr Hid. unfold is_assigned. destruct (Z.ltb_spec id CAP) as [Hlt|Hge]; simpl.
  - apply (repr_bit fo m Hr). lia.
  - rewrite bool_decide_eq_false_2; [done|]. intros Hin%(repr_dom fo m Hr). lia.
Qed.

Lemma read_object_eq fo (m : gmap Z T) (id : Z) (v : T) :
  fo_repr fo m → m !! id = Some v → read_object fo id = Done v.
Proof.
  intros Hr Hv. unfold read_object, mbind, outcome_bind. by rewrite (repr_obj fo m Hr id v Hv).
Qed.

Lemma fo_new_spec : ∃ fo, fo_new = Done fo ∧ fo_repr fo ∅.
Proof.
  unfold fo_new. rewrite (proj2 (Z.leb_le CAP 1024)) by lia. eexists. split; [done|].
  split; simpl; [by rewrite length_replicate|set_solver| |by intros|done].
  intros id Hid. by rewrite bm_get_zeroed, bool_decide_eq_false_2 by set_solver.
Qed.

Lemma fo_get_spec fo (m : gmap Z T) (id : Z) :
  fo_repr fo m → 0 ≤ id → fo_get fo id = Done (m !! id).
Proof.
  intros Hr Hid. unfold fo_get. rewrite (is_assigned_eq fo m) by done.
  case_bool_decide as Hin.
  - apply elem_of_dom in Hin as [v Hv]. unfold mbind, outcome_bind.
    by rewrite (read_object_eq fo m id v), Hv.
  - by rewrite (proj1 (not_elem_of_dom m id) Hin).
Qed.

Lemma fo_install_spec fo (m : gmap Z T) (id : Z) (v : T) :
  fo_repr fo m → 0 ≤ id < CAP → m !! id = None →
  ∃ fo', fo_install id v fo = Done fo' ∧ fo_repr fo' (<[id := v]> m).
Proof.
  intros Hr Hid Hfree. unfold fo_install, write_object, mbind, outcome_bind.
  destruct (bm_set_get (id_bitmap fo) id true) as (b & -> & Hb); [lia|].
  rewrite (repr_len fo m Hr), (proj2 (Z.ltb_lt _ _)) by lia.
  assert (Z.of_nat (size (<[id:=v]> m)) ≤ CAP) as Hsz.
  { apply size_le_cap. intros i. rewrite dom_insert. intros [->%elem_of_singleton|Hi]%elem_of_union;
      [lia|]. by apply (repr_dom fo m Hr). }
  eexists. split; [done|]. split; simpl.
  - rewrite length_insert. apply Hr.
  - intros i. rewrite dom_insert. intros [->%elem_of_singleton|Hi]%elem_of_union; [lia|].
    by apply (repr_dom fo m Hr).
  - intros i Hi. rewrite Hb by done. case_decide as Heq.
    + subst. by rewrite bool_decide_eq_true_2 by set_solver.
    + rewrite (repr_bit fo m Hr) by done. apply bool_decide_ext. set_solver.
  - intros i w. rewrite lookup_insert_Some. intros [[<- <-]|[Hne Hi]].
    + apply list_lookup_insert_eq. rewrite (repr_len fo m Hr). lia.
    + rewrite list_lookup_insert_ne; [by apply Hr|].
      assert (i ∈ dom m) as Hd by by apply elem_of_dom_2 in Hi.
      apply (repr_dom fo m Hr) in Hd. lia.
  - rewrite map_size_insert_None in * by done. rewrite (repr_count fo m Hr).
    rewrite wadd_small; unfold is_usize; lia.
Qed.

Lemma fo_add_spec fo (m : gmap Z T) (v : T) :
  fo_repr fo m →
  ∃ r fo', fo_add v fo = Done (r, fo') ∧
  match r with
  | Some id => 0 ≤ id < CAP ∧ m !! id = None ∧ (∀ j, 0 ≤ j < id → is_Some (m !! j)) ∧
      fo_repr fo' (<[id := v]> m)
  | None => fo' = fo ∧ ∀ j, 0 ≤ j < CAP → is_Some (m !! j)
  end.
Proof.
  intros Hr. unfold fo_add. destruct (bm_first_false_index (id_bitmap fo)) as [id|] eqn:Hff.
  - destruct (bm_first_false_some _ _ Hff) as (Hid & Hfree & Hless).
    assert (∀ j, 0 ≤ j < id → is_Some (m !! j)) as Hbelow.
    { intros j Hj. specialize (Hless j Hj). rewrite (repr_bit fo m Hr) in Hless by lia.
      apply elem_of_dom. by apply bool_decide_eq_true_1 in Hless. }
    rewrite (repr_bit fo m Hr) in Hfree by done. apply bool_decide_eq_false_1 in Hfree.
    apply not_elem_of_dom in Hfree. destruct (Z.ltb_spec id CAP).
    + destruct (fo_install_spec fo m id v Hr) as (fo' & Hrun & Hr'); [lia|done|].
      unfold mbind, outcome_bind. rewrite Hrun. exists (Some id), fo'. split_and!; auto; lia.
    + exists None, fo. split_and!; auto. intros j Hj. apply Hbelow. lia.
  - exists None, fo. split_and!; auto. intros j Hj.
    pose proof (bm_first_false_none _ Hff j) as Hj'. rewrite (repr_bit fo m Hr) in Hj' by lia.
    apply elem_of_dom. apply (bool_decide_eq_true_1 (j ∈ dom m)). apply Hj'. lia.
Qed.

Lemma fo_add_at_cases fo (m : gmap Z T) (id : Z) (v : T) :
  fo_repr fo m → 0 ≤ id →
  if bool_decide (CAP ≤ id) then fo_add_at id v fo = Panic
  else match m !! id with
       | Some _ => fo_add_at id v fo = Done (None, fo)
       | None => ∃ fo', fo_add_at id v fo = Done (Some id, fo') ∧ fo_repr fo' (<[id := v]> m)
       end.
Proof.
  intros Hr Hid. unfold fo_add_at. rewrite (is_assigned_eq fo m) by done.
  case_bool_decide as Hc.
  - rewrite bool_decide_eq_false_2 by (intros ?%(repr_dom fo m Hr); lia).
    unfold mbind, outcome_bind, fo_install, write_object.
    destruct (bm_set id true (id_bitmap fo)); [|done]. simpl.
    rewrite (repr_len fo m Hr), (proj2 (Z.ltb_ge _ _)) by lia. done.
  - destruct (m !! id) as [w|] eqn:Hm.
    + by rewrite bool_decide_eq_true_2 by by apply elem_of_dom_2 in Hm.
    + rewrite bool_decide_eq_false_2 by by apply not_elem_of_dom.
      destruct (fo_install_spec fo m id v Hr) as (fo' & Hrun & Hr'); [lia|done|].
      unfold mbind, outcome_bind. rewrite Hrun. by exists fo'.
Qed.

Lemma fo_remove_get fo (m : gmap Z T) (id : Z) :
  fo_repr fo m → 0 ≤ id →
  fo_get fo id = Done (m !! id) ∧ fo_count fo = Z.of_nat (size m) ∧
  ∃ fo', fo_remove id fo = Done (m !! id, fo') ∧ fo_repr fo' (delete id m).
Proof.
  intros Hr Hid. split_and!; [by apply fo_get_spec|apply Hr|].
  unfold fo_remove. rewrite (is_assigned_eq fo m) by done. case_bool_decide as Hin.
  2: { rewrite (proj1 (not_elem_of_dom m id) Hin). exists fo. split; [done|].
    by rewrite delete_id by by apply not_elem_of_dom. }
  pose proof (repr_dom fo m Hr id Hin) as Hrange.
  pose proof Hin as [v Hv]%elem_of_dom. unfold mbind, outcome_bind.
  destruct (bm_set_get (id_bitmap fo) id false) as (b & -> & Hb); [lia|].
  rewrite (read_object_eq fo m id v), Hv by done. eexists. split; [done|]. split; simpl.
  - apply Hr.
  - intros i. rewrite dom_delete. intros [Hi _]%elem_of_difference. by apply Hr.
  - intros i Hi. rewrite Hb by done. case_decide as Heq.
    + subst. by rewrite bool_decide_eq_false_2 by set_solver.
    + rewrite (repr_bit fo m Hr) by done. apply bool_decide_ext. set_solver.
  - intros i w [_ Hi]%lookup_delete_Some. by apply Hr.
  - rewrite map_size_delete_Some in * by done. rewrite (repr_count fo m Hr).
    assert (size m ≠ 0)%nat by (intros ->%map_size_empty_inv; by rewrite lookup_empty in Hv).
    pose proof (size_le_cap m (repr_dom fo m Hr)). rewrite wsub_small; unfold is_usize; lia.
Qed.

(** [add] gives the value the least free number below the capacity and
    returns [None], changing nothing, exactly when all numbers are in use. *)
Theorem fo_add_least_free fo (m : gmap Z T) (v : T) :
  fo_repr fo m →
  ∃ r fo', fo_add v fo = Done (r, fo') ∧
  match r with
  | Some id => 0 ≤ id < CAP ∧ m !! id = None ∧ (∀ j, 0 ≤ j < id → is_Some (m !! j)) ∧
      fo_repr fo' (<[id := v]> m)
  | None => fo' = fo ∧ ∀ j, 0 ≤ j < CAP → is_Some (m !! j)
  end.
Proof. apply fo_add_spec. Qed.

(** [add_at] on a number below the capacity refuses a number in use and
    otherwise binds exactly that number; on a number at or above the capacity
    it does not return [None] but fails. *)
Theorem fo_add_at_spec fo (m : gmap Z T) (id : Z) (v : T) :
  fo_repr fo m → 0 ≤ id →
  if bool_decide (CAP ≤ id) then fo_add_at id v fo = Panic
  else match m !! id with
       | Some _ => fo_add_at id v fo = Done (None, fo)
       | None => ∃ fo', fo_add_at id v fo = Done (Some id, fo') ∧ fo_repr fo' (<[id := v]> m)
       end.
Proof. apply fo_add_at_cases. Qed.

(** [remove] returns the object bound to a number, if any, and frees
    exactly that number; [get] and [count] agree with the bindings. *)
Theorem fo_remove_spec fo (m : gmap Z T) (id : Z) :
  fo_repr fo m → 0 ≤ id →
  fo_get fo id = Done (m !! id) ∧ fo_count fo = Z.of_nat (size m) ∧
  ∃ fo', fo_remove id fo = Done (m !! id, fo') ∧ fo_repr fo' (delete id m).
Proof. apply fo_remove_get. Qed.

End flatten_objects.

(** ** An instance *)

Definition bitmap_ids : list Z := Z.of_nat <$> seq 0 1024.

Lemma bitmap_ids_lookup (k : nat) (i : Z) :
  bitmap_ids !! k = Some i ↔ i = Z.of_nat k ∧ (k < 1024)%nat.
Proof.
  unfold bitmap_ids. rewrite list_lookup_fmap_Some. split.
  - intros (n & -> & [-> Hn]%lookup_seq). done.
  - intros [-> Hk]. exists k. by rewrite lookup_seq.
Qed.

#[local] Opaque bitmap_ids.

#[global] Instance gset_bitmap : Bitmap (gset Z) := {|
  bm_zeroed := ∅;
  bm_get b i := bool_decide (i ∈ b);
  bm_set i v b := Done (if v then {[i]} ∪ b else b ∖ {[i]});
  bm_first_false_index b := snd <$> list_find (λ i, i ∉ b) bitmap_ids;
|}.

#[global] Instance gset_bitmap_laws : BitmapLaws (gset Z).
Proof.
  split; cbn [bm_zeroed bm_get bm_set bm_first_false_index gset_bitmap].
  - done.
  - intros b i v Hi. eexists. split; [done|]. intros j Hj. destruct v; case_decide; subst.
    + by apply bool_decide_eq_true_2; set_solver.
    + apply bool_decide_ext. set_solver.
    + by apply bool_decide_eq_false_2; set_solver.
    + apply bool_decide_ext. set_solver.
  - intros b i. destruct (list_find (λ i, i ∉ b) bitmap_ids) as [[k x]|] eqn:Hf; [|done]. intros [= <-].
    apply list_find_Some in Hf as (Hk & Hx & Hless).
    rewrite bitmap_ids_lookup in Hk. destruct Hk as [-> Hn].
    split_and!; [lia|lia|by apply bool_decide_eq_false_2|].
    intros j Hj. apply bool_decide_eq_true_2. destruct (decide (j ∈ b)); [done|].
    exfalso. apply (Hless (Z.to_nat j) j); [|lia|done].
    apply bitmap_ids_lookup. lia.
  - intros b. destruct (list_find (λ i, i ∉ b) bitmap_ids) eqn:Hf; [done|]. intros _ j Hj.
    apply list_find_None in Hf. apply bool_decide_eq_true_2.
    rewrite Forall_forall in Hf. destruct (decide (j ∈ b)); [done|].
    exfalso. apply (Hf j); [|done].
    apply (list_elem_of_lookup_2 _ (Z.to_nat j)). apply bitmap_ids_lookup. lia.
Qed.

Definition demo_objects : FlattenObjects (gset Z) nat :=
  {| objects := [Some 5%nat; None]; id_bitmap := {[0]}; count := 1 |}.

Lemma demo_objects_repr : fo_repr 2 demo_objects {[0 := 5%nat]}.
Proof.
  split; simpl; try done.
  - intros id. rewrite dom_singleton. intros ->%elem_of_singleton. lia.
  - intros id v [<- <-]%lookup_singleton_Some. done.
Qed.

Lemma fo_add_least_free_witness :
  ∃ r fo', fo_add 2 7%nat demo_objects = Done (r, fo').
Proof.
  destruct (fo_add_least_free 2 ltac:(lia) demo_objects {[0 := 5%nat]} 7%nat)
    as (r & fo' & Hrun & _); [apply demo_objects_repr|]. by exists r, fo'.
Defined.

Lemma fo_add_at_spec_witness : fo_add_at 2 2 7%nat demo_objects = Panic.
Proof. apply (fo_add_at_spec 2 ltac:(lia) demo_objects {[0 := 5%nat]} 2 7%nat); [apply demo_objects_repr|lia]. Defined.

Lemma fo_remove_spec_witness :
  fo_get 2 demo_objects 0 = Done (({[0 := 5%nat]} : gmap Z nat) !! 0).
Proof.
  apply (fo_remove_spec 2 ltac:(lia) demo_objects {[0 := 5%nat]} 0); [apply demo_objects_repr|lia].
Defined.
