(* ===== verification/PollState.v ===== *)
(** * The readiness of a file ([PollState] of [crates/axio/src/lib.rs]) *)

From stdpp Require Import base.

Record PollState := { readable : bool; writable : bool }.
