(* ===== verification/FdTable.v ===== *)
(** * File descriptors ([ulib/libax/src/cbindings/fd_ops.rs])

    The global [FD_TABLE] is a [FlattenObjects] of 1024 cells holding
    [Arc<dyn FileLike>] values.  The trait [FileLike] is a type class over the
    handles [F] and the rest of the system [W] the files act on.  The calls of
    the C interface return [-1] and set [errno] on an error, as
    [ax_call_body!] does. *)

From S2P Require Import Prelude Utf8 AxErrno FlattenObjects PollState.
From stdpp Require Import base numbers gmap sets list.

Open Scope Z_scope.
Open Scope word_scope.

(** [char_ptr_to_str] of [utils.rs], on the bytes of a C string up to its
    end. *)
Definition char_ptr_to_str (str : option (list Z)) : result LinuxError (list Z) :=
  match str with
  | None => Err EFAULT
  | Some bytes => ok_or EINVAL (from_utf8 bytes)
  end.

Definition AX_FILE_LIMIT : Z := 1024.

(** Constants of [ulib/c_libax/include/fcntl.h]. *)
Definition O_NONBLOCK : Z := 2048.
Definition O_CLOEXEC : Z := 524288.
Definition F_DUPFD : Z := 0.
Definition F_SETFD : Z := 2.
Definition F_SETFL : Z := 4.
Definition F_DUPFD_CLOEXEC : Z := 1030.
Definition FD_CLOEXEC : Z := 1.

(** [ctypes::stat], without the device and the times, which are 0. *)
Record stat := {
  st_ino : Z; st_mode : Z; st_nlink : Z; st_uid : Z; st_gid : Z; st_size : Z; st_blksize : Z; st_blocks : Z }.

Definition stat_default : stat :=
  {| st_ino := 0; st_mode := 0; st_nlink := 0; st_uid := 0; st_gid := 0; st_size := 0; st_blksize := 0; st_blocks := 0 |}.

(** The trait [FileLike]; [read] gets the length of the buffer and returns
    the bytes stored in it. *)
Class FileLike (F W : Type) := {
  file_read : F → Z → stm W LinuxError (list Z);
  file_write : F → list Z → stm W LinuxError Z;
  file_stat : F → stm W LinuxError stat;
  file_poll : F → stm W LinuxError PollState;
  file_set_nonblocking : F → bool → stm W LinuxError unit;
}.

Record fd_state (B F W : Type) := {
  fd_table : FlattenObjects B F;
  errno : option LinuxError;
  fd_world : W;
}.
Arguments fd_table {B F W} _.
Arguments errno {B F W} _.
Arguments fd_world {B F W} _.

(** [fd as usize] for a [c_int]. *)
Definition fd_as_usize (fd : Z) : Z := wrap 64 fd.

Section fd_ops.
Context {B F W : Type} `{BM : Bitmap B} `{FL : FileLike F W}.
#[local] Abbreviation st := (fd_state B F W).

Definition with_table (s : st) (t : FlattenObjects B F) : st :=
  {| fd_table := t; errno := errno s; fd_world := fd_world s |}.

(** The initial table, with the handles of [stdin] and [stdout]. *)
Definition fd_table_init (stdin stdout1 stdout2 : F) : outcome (FlattenObjects B F) :=
  t ← fo_new AX_FILE_LIMIT;
  r ← fo_add_at AX_FILE_LIMIT 0 stdin t;
  _ ← unwrap r.1;
  r ← fo_add_at AX_FILE_LIMIT 1 stdout1 r.2;
  _ ← unwrap r.1;
  r ← fo_add_at AX_FILE_LIMIT 2 stdout2 r.2;
  _ ← unwrap r.1;
  Done r.2.

Definition get_file_like (fd : Z) : stm st LinuxError F :=
  s ← get;
  f ← of_outcome (fo_get AX_FILE_LIMIT (fd_table s) (fd_as_usize fd));
  of_result (ok_or EBADF f).

Definition add_file_like (f : F) : stm st LinuxError Z :=
  s ← get;
  r ← of_outcome (fo_add AX_FILE_LIMIT f (fd_table s));
  _ ← modify (λ s, with_table s r.2);
  of_result (ok_or EMFILE r.1).

Definition close_file_like (fd : Z) : stm st LinuxError unit :=
  s ← get;
  r ← of_outcome (fo_remove AX_FILE_LIMIT (fd_as_usize fd) (fd_table s));
  _ ← modify (λ s, with_table s r.2);
  _ ← of_result (ok_or EBADF r.1);
  mret tt.

(** [ax_call_body!]. *)
Definition ax_call_body (body : stm st LinuxError Z) (s : st) : outcome (st * Z) :=
  match body s with
  | Done (s, Ok v) => Done (s, v)
  | Done (s, Err e) =>
      Done ({| fd_table := fd_table s; errno := Some e; fd_world := fd_world s |}, -1)
  | Panic => Panic
  end.

Definition ax_close (fd : Z) (s : st) : outcome (st * Z) :=
  if (0 <=? fd) && (fd <? 2) then Done (s, 0)
  else ax_call_body (_ ← close_file_like fd; mret 0) s.

(** Runs a method of a file on the rest of the system. *)
Definition on_file {T} (m : stm W LinuxError T) : stm st LinuxError T := λ s,
  match m (fd_world s) with
  | Done (w, r) => Done ({| fd_table := fd_table s; errno := errno s; fd_world := w |}, r)
  | Panic => Panic
  end.

(** [ax_read] and [ax_write]; [buf] is [None] for a null pointer.  The bytes
    read are returned next to the result. *)
Definition ax_read (fd : Z) (buf_is_null : bool) (count : Z) : stm st LinuxError (list Z) :=
  if buf_is_null then throw EFAULT
  else f ← get_file_like fd; on_file (file_read f count).

Definition ax_write (fd : Z) (buf : option (list Z)) : stm st LinuxError Z :=
  match buf with
  | None => throw EFAULT
  | Some src => f ← get_file_like fd; on_file (file_write f src)
  end.

(** The bytes of [buf] are returned. *)
Definition ax_fstat (fd : Z) (buf_is_null : bool) : stm st LinuxError stat :=
  if buf_is_null then throw EFAULT
  else f ← get_file_like fd; on_file (file_stat f).

Definition dup_fd (old_fd : Z) : stm st LinuxError Z :=
  f ← get_file_like old_fd;
  new_fd ← add_file_like f;
  mret new_fd.

Definition ax_dup (old_fd : Z) : st → outcome (st * Z) := ax_call_body (dup_fd old_fd).

Definition ax_fcntl (fd cmd arg : Z) : st → outcome (st * Z) :=
  ax_call_body
    (if wrap 32 cmd =? F_DUPFD then dup_fd fd
     else if wrap 32 cmd =? F_DUPFD_CLOEXEC then dup_fd fd
     else if wrap 32 cmd =? F_SETFL then
       f ← get_file_like fd;
       _ ← on_file (file_set_nonblocking f (0 <? arg .& O_NONBLOCK));
       mret 0
     else mret 0).

(** The call to [ax_fcntl] inside [ax_dup3], whose result is dropped. *)
Definition call_fcntl (fd cmd arg : Z) : stm st LinuxError unit := λ s,
  match ax_fcntl fd cmd arg s with
  | Done (s, _) => Done (s, Ok tt)
  | Panic => Panic
  end.

Definition ax_dup3 (old_fd new_fd flags : Z) : st → outcome (st * Z) :=
  ax_call_body
    (if old_fd =? new_fd then throw EINVAL
     else if AX_FILE_LIMIT <=? fd_as_usize new_fd then throw EBADF
     else
       f ← get_file_like old_fd;
       s ← get;
       r ← of_outcome (fo_add_at AX_FILE_LIMIT (fd_as_usize new_fd) f (fd_table s));
       _ ← modify (λ s, with_table s r.2);
       _ ← of_result (ok_or EMFILE r.1);
       _ ← (if negb (wrap 32 flags .& O_CLOEXEC =? 0)
            then call_fcntl new_fd F_SETFD FD_CLOEXEC else mret tt);
       mret new_fd).

(** ** Behaviour against the bindings *)

Context {BML : BitmapLaws B}.

(** The descriptors in use and the files behind them. *)
Definition fd_repr (s : st) (m : gmap Z F) : Prop := fo_repr AX_FILE_LIMIT (fd_table s) m.

Definition is_cint (z : Z) : Prop := - 2 ^ 31 ≤ z < 2 ^ 31.

Lemma limit_ok : 0 ≤ AX_FILE_LIMIT ≤ 1024.
Proof. unfold AX_FILE_LIMIT. lia. Qed.

(** The table at the start. *)
Lemma fd_table_init_spec (f0 f1 f2 : F) :
  ∃ t, fd_table_init f0 f1 f2 = Done t ∧ fo_repr AX_FILE_LIMIT t (<[2 := f2]> (<[1 := f1]> (<[0 := f0]> ∅))).
Proof.
  unfold fd_table_init. destruct (fo_new_spec (T := F) AX_FILE_LIMIT limit_ok) as (t0 & -> & H0). cbn [mbind outcome_bind].
  assert (∀ (t : FlattenObjects B F) (m : gmap Z F) id f, fo_repr AX_FILE_LIMIT t m → 0 ≤ id < 1024 → m !! id = None →
    ∃ t', fo_add_at AX_FILE_LIMIT id f t = Done (Some id, t') ∧ fo_repr AX_FILE_LIMIT t' (<[id := f]> m)) as Hadd.
  { intros t m id f Hr Hid Hn. pose proof (fo_add_at_cases AX_FILE_LIMIT limit_ok t m id f Hr ltac:(lia)) as H.
    rewrite bool_decide_eq_false_2, Hn in H by (unfold AX_FILE_LIMIT; lia). exact H. }
  destruct (Hadd t0 ∅ 0 f0 H0) as (t1 & -> & H1); [lia|done|]. cbn [mbind outcome_bind unwrap fst snd].
  destruct (Hadd t1 _ 1 f1 H1) as (t2 & -> & H2); [lia|done|]. cbn [mbind outcome_bind unwrap fst snd].
  destruct (Hadd t2 _ 2 f2 H2) as (t3 & -> & H3); [lia|done|]. by exists t3.
Qed.

Lemma fd_as_usize_nonneg (fd : Z) : 0 ≤ fd_as_usize fd.
Proof. by apply wrap_range. Qed.

Lemma fd_as_usize_small (fd : Z) : 0 ≤ fd → is_cint fd → fd_as_usize fd = fd.
Proof. unfold is_cint. intros. apply wrap_small. lia. Qed.

(** A negative descriptor is out of range. *)
Lemma fd_as_usize_neg (fd : Z) : fd < 0 → is_cint fd → AX_FILE_LIMIT ≤ fd_as_usize fd.
Proof.
  unfold is_cint, fd_as_usize, wrap, AX_FILE_LIMIT. intros.
  rewrite <- (Z.mod_unique fd (2 ^ 64) (-1) (fd + 2 ^ 64)); lia.
Qed.

Lemma repr_bound (s : st) (m : gmap Z F) (fd : Z) (f : F) :
  fd_repr s m → m !! fd = Some f → 0 ≤ fd < AX_FILE_LIMIT.
Proof. intros Hr Hf. apply (repr_dom _ _ _ Hr). by apply elem_of_dom_2 in Hf. Qed.

Lemma lookup_usize (s : st) (m : gmap Z F) (fd : Z) :
  fd_repr s m → is_cint fd → m !! fd_as_usize fd = m !! fd.
Proof.
  intros Hr Hc. destruct (decide (0 ≤ fd)); [by rewrite fd_as_usize_small|].
  assert (m !! fd = None) as ->.
  { apply eq_None_not_Some. intros [f Hf]. apply (repr_bound s m fd f Hr) in Hf. lia. }
  apply eq_None_not_Some. intros [f Hf]. apply (repr_bound s m _ f Hr) in Hf.
  pose proof (fd_as_usize_neg fd ltac:(lia) Hc). lia.
Qed.

Lemma get_file_like_spec (s : st) (m : gmap Z F) (fd : Z) :
  fd_repr s m → is_cint fd → get_file_like fd s = Done (s, ok_or EBADF (m !! fd)).
Proof.
  intros Hr Hc. unfold get_file_like, mbind, stm_bind, get, of_outcome.
  rewrite (fo_get_spec AX_FILE_LIMIT limit_ok _ m) by (done || apply fd_as_usize_nonneg).
  by rewrite (lookup_usize s m fd Hr Hc).
Qed.

Lemma add_file_like_spec (s : st) (m : gmap Z F) (f : F) :
  fd_repr s m →
  ∃ s' r, add_file_like f s = Done (s', r) ∧ errno s' = errno s ∧ fd_world s' = fd_world s ∧
  match r with
  | Ok new => 0 ≤ new < AX_FILE_LIMIT ∧ m !! new = None ∧
      (∀ j, 0 ≤ j < new → is_Some (m !! j)) ∧ fd_repr s' (<[new := f]> m)
  | Err e => e = EMFILE ∧ fd_repr s' m ∧ ∀ j, 0 ≤ j < AX_FILE_LIMIT → is_Some (m !! j)
  end.
Proof.
  intros Hr. unfold add_file_like, mbind, stm_bind, get, of_outcome.
  destruct (fo_add_spec AX_FILE_LIMIT limit_ok (fd_table s) m f Hr) as ([id|] & fo' & -> & Hid); simpl.
  - eexists _, (Ok id). split; [done|]. destruct Hid as (? & ? & ? & ?). split_and!; done || lia.
  - destruct Hid as [-> Hfull]. eexists _, (Err EMFILE). split; [done|]. split_and!; done.
Qed.

Lemma dup_fd_spec (s : st) (m : gmap Z F) (old_fd : Z) :
  fd_repr s m → is_cint old_fd →
  ∃ s' r, dup_fd old_fd s = Done (s', r) ∧ errno s' = errno s ∧ fd_world s' = fd_world s ∧
  match r with
  | Ok new => ∃ f, m !! old_fd = Some f ∧ 0 ≤ new < AX_FILE_LIMIT ∧ m !! new = None ∧
      (∀ j, 0 ≤ j < new → is_Some (m !! j)) ∧ fd_repr s' (<[new := f]> m)
  | Err e => fd_repr s' m ∧
      ((e = EBADF ∧ m !! old_fd = None) ∨
       (e = EMFILE ∧ ∀ j, 0 ≤ j < AX_FILE_LIMIT → is_Some (m !! j)))
  end.
Proof.
  intros Hr Hc. unfold dup_fd. unfold mbind, stm_bind.
  rewrite (get_file_like_spec s m) by done. destruct (m !! old_fd) as [f|] eqn:Hm; simpl.
  2: { exists s, (Err EBADF). split_and!; auto. }
  destruct (add_file_like_spec s m f Hr) as (s' & r & -> & ? & ? & Hres). destruct r as [id|e].
  - eexists _, (Ok id). split; [done|]. split_and!; [done..|]. by exists f.
  - destruct Hres as (-> & ? & ?). eexists _, (Err EMFILE). split; [done|].
    split_and!; [done..|by right].
Qed.

Lemma close_spec (s : st) (m : gmap Z F) (fd : Z) :
  fd_repr s m → is_cint fd →
  ∃ s', close_file_like fd s =
      Done (s', match m !! fd with Some _ => Ok tt | None => Err EBADF end) ∧
    errno s' = errno s ∧ fd_world s' = fd_world s ∧ fd_repr s' (delete fd m).
Proof.
  intros Hr Hc. unfold close_file_like, mbind, stm_bind, get, of_outcome.
  destruct (fo_remove_get AX_FILE_LIMIT limit_ok (fd_table s) m (fd_as_usize fd) Hr
    (fd_as_usize_nonneg fd)) as (_ & _ & fo' & -> & Hr').
  simpl. rewrite (lookup_usize s m fd Hr Hc).
  assert (fo_repr AX_FILE_LIMIT fo' (delete fd m)) as Hd.
  { destruct (decide (0 ≤ fd)); [by rewrite fd_as_usize_small in Hr'|].
    pose proof (lookup_usize s m fd Hr Hc) as Hl.
    assert (m !! fd = None) as Hn.
    { apply eq_None_not_Some. intros [f Hf]. apply (repr_bound s m fd f Hr) in Hf. lia. }
    rewrite delete_id by done. by rewrite delete_id in Hr' by congruence. }
  destruct (m !! fd); eexists; (split; [done|]); done.
Qed.

Lemma dup3_spec (s : st) (m : gmap Z F) (old_fd new_fd flags : Z) :
  fd_repr s m → is_cint old_fd → is_cint new_fd →
  ∃ s' ret, ax_dup3 old_fd new_fd flags s = Done (s', ret) ∧
  let fails e := ret = -1 ∧ errno s' = Some e ∧ fd_repr s' m in
  if old_fd =? new_fd then fails EINVAL
  else if bool_decide (0 ≤ new_fd < AX_FILE_LIMIT) then
    match m !! old_fd, m !! new_fd with
    | None, _ => fails EBADF
    | Some _, Some _ => fails EMFILE
    | Some f, None => ret = new_fd ∧ fd_repr s' (<[new_fd := f]> m)
    end
  else fails EBADF.
Proof.
  intros Hr Hc Hc'. unfold ax_dup3, ax_call_body.
  destruct (Z.eqb_spec old_fd new_fd) as [->|Hne]; [by do 2 eexists|].
  case_bool_decide as Hrange.
  2: { assert (AX_FILE_LIMIT ≤ fd_as_usize new_fd) as Hbig.
    { destruct (decide (0 ≤ new_fd)); [rewrite fd_as_usize_small by done; lia|].
      apply fd_as_usize_neg; [lia|done]. }
    rewrite (proj2 (Z.leb_le _ _) Hbig). by do 2 eexists. }
  rewrite fd_as_usize_small by (done || lia). rewrite (proj2 (Z.leb_gt _ _)) by lia.
  unfold mbind at 1, stm_bind at 1. rewrite (get_file_like_spec s m) by done.
  destruct (m !! old_fd) as [f|] eqn:Hold; simpl; [|by do 2 eexists].
  unfold mbind, stm_bind, get, of_outcome.
  pose proof (fo_add_at_cases AX_FILE_LIMIT limit_ok (fd_table s) m new_fd f Hr) as Hadd.
  rewrite bool_decide_eq_false_2 in Hadd by lia.
  destruct (m !! new_fd) as [g|] eqn:Hnew.
  - rewrite Hadd by lia. simpl. by do 2 eexists.
  - destruct Hadd as (fo' & -> & Hr'); [lia|]. simpl.
    destruct (negb _); simpl; by do 2 eexists.
Qed.

(** The calls on the table made by a program. *)
Inductive fd_call :=
| CallClose (fd : Z)
| CallDup (fd : Z)
| CallDup3 (old_fd new_fd flags : Z).

Definition run_fd_call (c : fd_call) : st → outcome (st * Z) :=
  match c with
  | CallClose fd => ax_close fd
  | CallDup fd => ax_dup fd
  | CallDup3 o n fl => ax_dup3 o n fl
  end.

Definition fd_call_ok (c : fd_call) : Prop :=
  match c with
  | CallClose fd | CallDup fd => is_cint fd
  | CallDup3 o n fl => is_cint o ∧ is_cint n
  end.

Fixpoint run_fd_calls (cs : list fd_call) (s : st) : outcome st :=
  match cs with
  | [] => Done s
  | c :: cs => r ← run_fd_call c s; run_fd_calls cs r.1
  end.

Lemma run_fd_call_keeps (s : st) (m : gmap Z F) (c : fd_call) :
  fd_repr s m → fd_call_ok c →
  ∃ s' ret m', run_fd_call c s = Done (s', ret) ∧ fd_repr s' m' ∧
    ∀ i f, 0 ≤ i < 2 → m !! i = Some f → m' !! i = Some f.
Proof.
  intros Hr Hc. destruct c as [fd|fd|o n fl]; simpl in *.
  - unfold ax_close. destruct (_ && _) eqn:Hb.
    { exists s, 0, m. done. }
    destruct (close_spec s m fd Hr Hc) as (s' & Hrun & _ & _ & Hr').
    assert (∀ i f, 0 ≤ i < 2 → m !! i = Some f → delete fd m !! i = Some f) as Hk.
    { intros i f Hi Hf. rewrite lookup_delete_ne; [done|]. bool_to_prop. lia. }
    unfold ax_call_body, mbind, stm_bind. rewrite Hrun.
    destruct (m !! fd); simpl; eexists _, _, (delete fd m); split_and!; try done.
  - unfold ax_dup, ax_call_body. destruct (dup_fd_spec s m fd Hr Hc) as (s' & r & -> & _ & _ & Hres).
    destruct r as [new|e].
    + destruct Hres as (f & _ & _ & Hfree & _ & Hr'). eexists _, _, _. split_and!; [done..|].
      intros i g _ Hg. rewrite lookup_insert_ne; [done|congruence].
    + destruct Hres as [Hr' _]. eexists _, _, m. split_and!; done.
  - destruct Hc as [Ho Hn]. destruct (dup3_spec s m o n fl Hr Ho Hn) as (s' & ret & Hrun & Hres).
    rewrite Hrun. simpl in Hres.
    destruct (o =? n); [destruct Hres as (_ & _ & ?); by eexists _, _, m|].
    case_bool_decide; [|destruct Hres as (_ & _ & ?); by eexists _, _, m].
    destruct (m !! o), (m !! n) eqn:Hn'; try (destruct Hres as (_ & _ & ?); by eexists _, _, m).
    destruct Hres as [_ Hr']. eexists _, _, _. split_and!; [done..|].
    intros i g _ Hg. rewrite lookup_insert_ne; [done|congruence].
Qed.

(** Duplicating a descriptor.  [ax_dup] returns the least free descriptor,
    bound to the same file, and otherwise [-1] with [EBADF] when the source is
    not open or [EMFILE] when all 1024 descriptors are in use. *)
Theorem ax_dup_spec (s : st) (m : gmap Z F) (old_fd : Z) :
  fd_repr s m → is_cint old_fd →
  ∃ s' ret, ax_dup old_fd s = Done (s', ret) ∧
  ((∃ f, m !! old_fd = Some f ∧ 0 ≤ ret < AX_FILE_LIMIT ∧ m !! ret = None ∧
      (∀ j, 0 ≤ j < ret → is_Some (m !! j)) ∧ fd_repr s' (<[ret := f]> m)) ∨
   (ret = -1 ∧ fd_repr s' m ∧ errno s' = Some EBADF ∧ m !! old_fd = None) ∨
   (ret = -1 ∧ fd_repr s' m ∧ errno s' = Some EMFILE ∧
      ∀ j, 0 ≤ j < AX_FILE_LIMIT → is_Some (m !! j))).
Proof.
  intros Hr Hc. unfold ax_dup, ax_call_body.
  destruct (dup_fd_spec s m old_fd Hr Hc) as (s' & r & -> & _ & _ & Hres). destruct r as [new|e].
  - eexists _, new. split; [done|]. by left.
  - eexists _, (-1). split; [done|]. right. destruct Hres as [Hr' [[-> ?]|[-> ?]]]; [by left|by right].
Qed.

(** [ax_dup3] fails with [EINVAL] on equal descriptors, with [EBADF] on a
    source that is not open or a target out of range, and with [EMFILE] on a
    target that is open; only a free target is bound.  (The documentation
    above the function says it is the same as [dup2], which closes an open
    target first.) *)
Theorem ax_dup3_spec (s : st) (m : gmap Z F) (old_fd new_fd flags : Z) :
  fd_repr s m → is_cint old_fd → is_cint new_fd →
  ∃ s' ret, ax_dup3 old_fd new_fd flags s = Done (s', ret) ∧
  let fails e := ret = -1 ∧ errno s' = Some e ∧ fd_repr s' m in
  if old_fd =? new_fd then fails EINVAL
  else if bool_decide (0 ≤ new_fd < AX_FILE_LIMIT) then
    match m !! old_fd, m !! new_fd with
    | None, _ => fails EBADF
    | Some _, Some _ => fails EMFILE
    | Some f, None => ret = new_fd ∧ fd_repr s' (<[new_fd := f]> m)
    end
  else fails EBADF.
Proof. apply dup3_spec. Qed.

(** No sequence of [ax_close], [ax_dup] and [ax_dup3] calls closes or
    rebinds descriptors 0 and 1, and the table stays well formed; descriptor 2
    has no such protection: closing it unbinds it. *)
Theorem std_fds_stay_open (cs : list fd_call) : ∀ (s : st) (m : gmap Z F),
  fd_repr s m → Forall fd_call_ok cs →
  (∃ s' m', run_fd_calls cs s = Done s' ∧ fd_repr s' m' ∧
    ∀ i f, 0 ≤ i < 2 → m !! i = Some f → m' !! i = Some f) ∧
  (∃ s' ret, ax_close 2 s = Done (s', ret) ∧ fd_repr s' (delete 2 m)).
Proof.
  intros s m Hr Hcs. split.
  - revert s m Hr. induction Hcs as [|c cs Hc Hcs IH]; intros s m Hr; simpl.
    { by exists s, m. }
    destruct (run_fd_call_keeps s m c Hr Hc) as (s1 & ret & m1 & Hrun & Hr1 & Hk1).
    unfold mbind, outcome_bind. rewrite Hrun.
    destruct (IH s1 m1 Hr1) as (s2 & m2 & ? & ? & Hk2). exists s2, m2. split_and!; auto.
  - unfold ax_close. simpl. destruct (close_spec s m 2 Hr) as (s' & Hrun & _ & _ & Hr').
    { by unfold is_cint. }
    unfold ax_call_body, mbind, stm_bind. rewrite Hrun. by destruct (m !! 2); do 2 eexists.
Qed.

End fd_ops.

(** ** Instances *)

#[global] Instance null_file : FileLike nat unit := {|
  file_read _ _ := mret [];
  file_write _ l := mret (Z.of_nat (length l));
  file_stat _ := mret stat_default;
  file_poll _ := mret {| readable := true; writable := true |};
  file_set_nonblocking _ _ := mret tt;
|}.

Definition demo_fds : fd_state (gset Z) nat unit := {|
  fd_table := {| objects := Some 5%nat :: replicate 1023 None; id_bitmap := {[0]}; count := 1 |};
  errno := None;
  fd_world := tt;
|}.

Lemma demo_fds_repr : fd_repr demo_fds {[0 := 5%nat]}.
Proof.
  split; simpl.
  - done.
  - intros id. rewrite dom_singleton. intros ->%elem_of_singleton. unfold AX_FILE_LIMIT. lia.
  - intros id _. apply bool_decide_ext. rewrite dom_singleton. done.
  - intros id v [<- <-]%lookup_singleton_Some. done.
  - done.
Qed.

Lemma ax_dup_spec_witness : ∃ s' ret, ax_dup 0 demo_fds = Done (s', ret).
Proof.
  destruct (ax_dup_spec demo_fds {[0 := 5%nat]} 0) as (s' & ret & Hrun & _);
    [apply demo_fds_repr|by unfold is_cint|]. by exists s', ret.
Defined.

Lemma ax_dup3_spec_witness : ∃ s' ret, ax_dup3 0 7 0 demo_fds = Done (s', ret).
Proof.
  destruct (ax_dup3_spec demo_fds {[0 := 5%nat]} 0 7 0) as (s' & ret & Hrun & _);
    [apply demo_fds_repr|by unfold is_cint|by unfold is_cint|]. by exists s', ret.
Defined.

Lemma std_fds_stay_open_witness :
  ∃ s' m', run_fd_calls [CallDup 0; CallClose 0] demo_fds = Done s' ∧
    fd_repr s' m' ∧ ∀ i f, 0 ≤ i < 2 → ({[0 := 5%nat]} : gmap Z nat) !! i = Some f → m' !! i = Some f.
Proof.
  apply (std_fds_stay_open [CallDup 0; CallClose 0] demo_fds {[0 := 5%nat]});
    [apply demo_fds_repr|repeat constructor; by unfold is_cint].
Defined.
