(* ===== verification/IoMpx.v ===== *)
(** * Waiting for many files ([ulib/libax/src/cbindings/io_mpx])

    [select] and [epoll] over the descriptor table.  An epoll instance is a
    file like others, whose events are kept at an address.  The sets of
    [select] are arrays of words in the memory of the caller; other threads
    run at each [yield_now], and [env] is what they do.  Times are in
    nanoseconds, as the clock of the system gives them. *)

From S2P Require Import Prelude AxErrno BTree FlattenObjects PollState FdTable.
From stdpp Require Import base numbers gmap list.

Open Scope Z_scope.
Local Open Scope word_scope.

(** ** Durations *)

Definition NANOS_PER_SEC : Z := 1000000000.

(** [Duration::new] and the addition of durations panic when the seconds do
    not fit in 64 bits. *)
Definition duration (nanos : Z) : outcome Z :=
  if nanos / NANOS_PER_SEC <? 2 ^ 64 then Done nanos else Panic.

Definition duration_new (secs nanos : Z) : outcome Z := duration (secs * NANOS_PER_SEC + nanos).

Record timeval := { tv_sec : Z; tv_usec : Z }.

(** [impl From<ctypes::timeval> for Duration]. *)
Definition duration_from (tv : timeval) : outcome Z :=
  duration_new (wrap 64 (tv_sec tv)) (wrap 32 (wrap 32 (tv_usec tv) * 1000)).

(** ** Files *)

(** [Arc<dyn FileLike>]: an epoll instance, or another file. *)
Inductive file (F : Type) :=
| OtherFile (f : F)
| EpollFile (a : nat).
Arguments OtherFile {F} _.
Arguments EpollFile {F} _.

(** [impl FileLike for EpollInstance]. *)
#[global] Instance file_FileLike {F W} `{!FileLike F W} : FileLike (file F) W := {|
  file_read f n := match f with OtherFile f => file_read f n | EpollFile _ => throw ENOSYS end;
  file_write f l := match f with OtherFile f => file_write f l | EpollFile _ => throw ENOSYS end;
  file_stat f :=
    match f with
    | OtherFile f => file_stat f
    | EpollFile _ =>
        mret {| st_ino := 1; st_mode := 0x180; st_nlink := 1; st_uid := 0; st_gid := 0; st_size := 0;
                st_blksize := 0; st_blocks := 0 |}
    end;
  file_poll f := match f with OtherFile f => file_poll f | EpollFile _ => throw ENOSYS end;
  file_set_nonblocking f b :=
    match f with OtherFile f => file_set_nonblocking f b | EpollFile _ => mret tt end;
|}.

(** [events] is a [u32], [data] the 64 bits of the union. *)
Record epoll_event := { ev_events : Z; ev_data : Z }.

Definition EPOLLIN : Z := 0x001.
Definition EPOLLOUT : Z := 0x004.
Definition EPOLLERR : Z := 0x008.
Definition EPOLL_CTL_ADD : Z := 1.
Definition EPOLL_CTL_DEL : Z := 2.
Definition EPOLL_CTL_MOD : Z := 3.

Definition FD_SETSIZE : Z := 1024.
Definition BITS_PER_USIZE : Z := 64.
Definition FD_SETSIZE_USIZES : Z := 16.

(** [div_ceil(BITS_PER_USIZE)]. *)
Definition usizes (nfds : Z) : Z := (nfds + 63) / 64.

(** A value as a [c_int]. *)
Definition as_cint (z : Z) : Z := (z + 2 ^ 31) mod 2 ^ 32 - 2 ^ 31.

(** The state: the descriptors; the events of the epoll instances, in the
    order of the descriptors; the array the caller of [epoll_wait] gives; the
    sets of the callers of [select]. *)
Record mpx (B F W : Type) := {
  fds : fd_state B (file F) W;
  epolls : gmap nat (list (Z * epoll_event));
  ev_buf : list epoll_event;
  fd_sets : gmap nat (list Z);
}.
Arguments fds {B F W} _.
Arguments epolls {B F W} _.
Arguments ev_buf {B F W} _.
Arguments fd_sets {B F W} _.

Section io_mpx.
Context {B F W : Type} `{BM : Bitmap B} `{FL : FileLike F W}.
Context (clock : W → Z).
#[local] Abbreviation st := (mpx B F W).
#[local] Abbreviation m := (stm st LinuxError).

Definition with_fds (f : fd_state B (file F) W) (s : st) : st :=
  {| fds := f; epolls := epolls s; ev_buf := ev_buf s; fd_sets := fd_sets s |}.

Definition with_epoll (a : nat) (l : list (Z * epoll_event)) (s : st) : st :=
  {| fds := fds s; epolls := <[a := l]> (epolls s); ev_buf := ev_buf s; fd_sets := fd_sets s |}.

Definition with_ev_buf (l : list epoll_event) (s : st) : st :=
  {| fds := fds s; epolls := epolls s; ev_buf := l; fd_sets := fd_sets s |}.

Definition with_fd_set (p : nat) (l : list Z) (s : st) : st :=
  {| fds := fds s; epolls := epolls s; ev_buf := ev_buf s; fd_sets := <[p := l]> (fd_sets s) |}.

(** An operation on the descriptors. *)
Definition on_fds {T} (c : stm (fd_state B (file F) W) LinuxError T) : m T := λ s,
  match c (fds s) with Done (f, r) => Done (with_fds f s, r) | Panic => Panic end.

Definition current_time (s : st) : Z := clock (fd_world (fds s)).

(** The result of a call as a value. *)
Definition as_value {T} (c : m T) : m (result LinuxError T) := λ s,
  match c s with Done (s, r) => Done (s, Ok r) | Panic => Panic end.

(** [get_file_like(fd)?.poll()]: the error of the table ends the caller, that
    of the file is a value. *)
Definition poll_fd (fd : Z) : m (result LinuxError PollState) :=
  f ← on_fds (get_file_like fd);
  as_value (on_fds (on_file (file_poll (F := file F) f))).

(** ** [EpollInstance] *)

Definition from_fd (fd : Z) : m nat :=
  f ← on_fds (get_file_like fd);
  match f with EpollFile a => mret a | OtherFile _ => throw EINVAL end.

(** The events of the instance; the caller holds a reference to it. *)
Definition get_events (a : nat) : m (list (Z * epoll_event)) := λ s,
  match epolls s !! a with Some l => Done (s, Ok l) | None => Panic end.

Definition control (a : nat) (op fd : Z) (event : epoll_event) : m Z :=
  _ ← on_fds (get_file_like (as_cint fd));
  events ← get_events a;
  if wrap 32 op =? EPOLL_CTL_ADD then
    match bt_get events fd with
    | None => _ ← modify (with_epoll a (bt_insert events fd event)); mret 0
    | Some _ => throw EEXIST
    end
  else if wrap 32 op =? EPOLL_CTL_MOD then
    match bt_get events fd with
    | Some _ => _ ← modify (with_epoll a (bt_insert events fd event)); mret 0
    | None => throw ENOENT
    end
  else if wrap 32 op =? EPOLL_CTL_DEL then
    match bt_get events fd with
    | Some _ => _ ← modify (with_epoll a (bt_remove events fd)); mret 0
    | None => throw ENOENT
    end
  else throw EINVAL.

(** [events[events_num] = ..; events_num += 1]. *)
Definition report (n : nat) (mask data : Z) : m nat := λ s,
  if (n <? length (ev_buf s))%nat
  then Done (with_ev_buf (<[n := {| ev_events := mask; ev_data := data |}]> (ev_buf s)) s, Ok (S n))
  else Panic.

Definition report_if (c : bool) (n : nat) (mask data : Z) : m nat :=
  if c then report n mask data else mret n.

(** The loop of [poll_all] over the events, with the number reported so far. *)
Fixpoint poll_events (events : list (Z * epoll_event)) (n : nat) : m nat :=
  match events with
  | [] => mret n
  | (infd, ev) :: events =>
      r ← poll_fd (as_cint infd);
      n ← match r with
          | Err _ => report_if (negb (ev_events ev .& EPOLLERR =? 0)) n EPOLLERR (ev_data ev)
          | Ok state =>
              n ← report_if (readable state && negb (ev_events ev .& EPOLLIN =? 0)) n EPOLLIN (ev_data ev);
              report_if (writable state && negb (ev_events ev .& EPOLLOUT =? 0)) n EPOLLOUT (ev_data ev)
          end;
      poll_events events n
  end.

Definition epoll_poll_all (a : nat) : m nat :=
  events ← get_events a;
  poll_events events 0.

(** [ax_call_body!]: sets [errno] on an error. *)
Definition call_body {T} (r : outcome (st * result LinuxError T)) (ret : T → Z) : outcome (st * Z) :=
  match r with
  | Done (s, Ok v) => Done (s, ret v)
  | Done (s, Err e) =>
      Done (with_fds {| fd_table := fd_table (fds s); errno := Some e; fd_world := fd_world (fds s) |} s, -1)
  | Panic => Panic
  end.

(** A new instance gets an address of its own. *)
Definition ax_epoll_create (size : Z) (s : st) : outcome (st * Z) :=
  call_body
    ((if size <? 0 then throw EINVAL
      else
        let a := fresh (dom (epolls s)) in
        _ ← modify (with_epoll a []);
        on_fds (add_file_like (EpollFile a))) s) id.

Definition ax_epoll_ctl (epfd op fd : Z) (event : epoll_event) (s : st) : outcome (st * Z) :=
  call_body ((a ← from_fd epfd; control a (wrap 64 op) (wrap 64 fd) event) s) id.

(** The loop of [ax_epoll_wait]; [None] is a call that has not returned after
    [fuel] rounds. *)
Fixpoint epoll_loop (env : nat → st → st) (a : nat) (deadline : option Z) (fuel k : nat) (s : st)
    : option (outcome (st * result LinuxError nat)) :=
  match fuel with
  | O => None
  | S fuel =>
      match epoll_poll_all a s with
      | Done (s, Ok n) =>
          if (0 <? n)%nat then Some (Done (s, Ok n))
          else if match deadline with Some ddl => ddl <=? current_time s | None => false end
          then Some (Done (s, Ok 0%nat))
          else epoll_loop env a deadline fuel (S k) (env k s)
      | r => Some r
      end
  end.

(** [timeout] is in milliseconds. *)
Definition epoll_deadline (timeout : Z) (s : st) : outcome (option Z) :=
  if timeout <? 0 then Done None
  else ddl ← duration (current_time s + timeout * 1000000); Done (Some ddl).

Definition ax_epoll_wait (env : nat → st → st) (fuel : nat) (epfd maxevents timeout : Z) (s : st)
    : option (outcome (st * Z)) :=
  if maxevents <=? 0 then Some (call_body (Done (s, Err EINVAL)) id)
  else if negb (Z.of_nat (length (ev_buf s)) =? maxevents) then Some Panic
  else match epoll_deadline timeout s with
       | Panic => Some Panic
       | Done deadline =>
           match from_fd epfd s with
           | Panic => Some Panic
           | Done (s, Err e) => Some (call_body (Done (s, Err e)) id)
           | Done (s, Ok a) =>
               (λ r, call_body r Z.of_nat) <$> epoll_loop env a deadline fuel 0 s
           end
       end.

(** ** [FdSets] *)

(** Words that were not written are [None]. *)
Record FdSets := { nfds : Z; bits : list (option Z) }.

(** The words behind a pointer to a set; a null pointer is [None]. *)
Definition set_words (p : option nat) (s : st) : outcome (list Z) :=
  match p with
  | None => Done (replicate (Z.to_nat FD_SETSIZE_USIZES) 0)
  | Some p => unwrap (fd_sets s !! p)
  end.

(** [copy_from_fd_set]. *)
Definition copy_from_fd_set (n : Z) (off : Z) (p : option nat) (s : st) (bits : list (option Z))
    : outcome (list (option Z)) :=
  src ← set_words p s;
  if (n <=? Z.of_nat (length src)) && (off + n <=? Z.of_nat (length bits))
  then Done (take (Z.to_nat off) bits ++ (Some <$> take (Z.to_nat n) src) ++ drop (Z.to_nat (off + n)) bits)
  else Panic.

Definition fd_sets_from (n : Z) (rd wr ex : option nat) (s : st) : outcome FdSets :=
  let nfds := Z.min n FD_SETSIZE in
  let bits := replicate (Z.to_nat (FD_SETSIZE_USIZES * 3)) None in
  bits ← copy_from_fd_set (usizes nfds) 0 rd s bits;
  bits ← copy_from_fd_set (usizes nfds) FD_SETSIZE_USIZES wr s bits;
  bits ← copy_from_fd_set (usizes nfds) (FD_SETSIZE_USIZES * 2) ex s bits;
  Done {| nfds := nfds; bits := bits |}.

Definition zero_fd_set (p : option nat) (n : Z) : m unit := λ s,
  match p with
  | None => Done (s, Ok tt)
  | Some p =>
      match fd_sets s !! p with
      | None => Panic
      | Some l =>
          if usizes n <=? Z.of_nat (length l)
          then Done (with_fd_set p (replicate (Z.to_nat (usizes n)) 0 ++ drop (Z.to_nat (usizes n)) l) s, Ok tt)
          else Panic
      end
  end.

Definition set_fd_set (p : option nat) (fd : Z) : m unit := λ s,
  match p with
  | None => Done (s, Ok tt)
  | Some p =>
      match fd_sets s !! p with
      | None => Panic
      | Some l =>
          match l !! Z.to_nat (fd / BITS_PER_USIZE) with
          | None => Panic
          | Some w =>
              Done (with_fd_set p (<[Z.to_nat (fd / BITS_PER_USIZE) := w .| (1 .<< (fd mod BITS_PER_USIZE))]> l) s, Ok tt)
          end
      end
  end.

(** [if c { set_fd_set(p, fd); res_num += 1 }]. *)
Definition set_if (c : bool) (p : option nat) (fd : Z) (res : Z) : m Z :=
  if c then _ ← set_fd_set p fd; mret (res + 1) else mret res.

(** The body of the inner loop for a descriptor of one of the sets. *)
Definition visit (rd wr ex : option nat) (in_rd in_wr in_ex : bool) (fd res : Z) : m Z :=
  r ← poll_fd fd;
  match r with
  | Ok state =>
      res ← set_if (readable state && in_rd) rd fd res;
      set_if (writable state && in_wr) wr fd res
  | Err _ => set_if in_ex ex fd res
  end.

(** The inner loop, from the bit [j] of the word at [i]. *)
Fixpoint bit_loop (fuel : nat) (rd wr ex : option nat) (read_bits write_bits except_bits i nfds j res : Z) : m Z :=
  match fuel with
  | O => panic
  | S fuel =>
      if (j <? BITS_PER_USIZE) && (i + j <? nfds) then
        let bit := 1 .<< j in
        if (read_bits .| write_bits .| except_bits) .& bit =? 0
        then bit_loop fuel rd wr ex read_bits write_bits except_bits i nfds (j + 1) res
        else
          res ← visit rd wr ex (negb (read_bits .& bit =? 0)) (negb (write_bits .& bit =? 0))
                  (negb (except_bits .& bit =? 0)) (i + j) res;
          bit_loop fuel rd wr ex read_bits write_bits except_bits i nfds (j + 1) res
      else mret res
  end.

(** A read of the array [bits]. *)
Definition read_word (sets : FdSets) (k : Z) : outcome Z := w ← unwrap (bits sets !! Z.to_nat k); unwrap w.

(** The outer loop, at the word [i / 64]. *)
Fixpoint word_loop (fuel : nat) (sets : FdSets) (rd wr ex : option nat) (i res : Z) : m Z :=
  match fuel with
  | O => panic
  | S fuel =>
      if i <? nfds sets then
        read_bits ← of_outcome (read_word sets (i / BITS_PER_USIZE));
        write_bits ← of_outcome (read_word sets (FD_SETSIZE_USIZES + i / BITS_PER_USIZE));
        except_bits ← of_outcome (read_word sets (FD_SETSIZE_USIZES * 2 + i / BITS_PER_USIZE));
        if read_bits .| write_bits .| except_bits =? 0
        then word_loop fuel sets rd wr ex (i + BITS_PER_USIZE) res
        else
          res ← bit_loop 65 rd wr ex read_bits write_bits except_bits i (nfds sets) 0 res;
          word_loop fuel sets rd wr ex (i + BITS_PER_USIZE) res
      else mret res
  end.

Definition select_poll_all (sets : FdSets) (rd wr ex : option nat) : m Z :=
  word_loop 17 sets rd wr ex 0 0.

Fixpoint select_loop (env : nat → st → st) (sets : FdSets) (rd wr ex : option nat) (deadline : option Z)
    (fuel k : nat) (s : st) : option (outcome (st * result LinuxError Z)) :=
  match fuel with
  | O => None
  | S fuel =>
      if match deadline with Some ddl => ddl <=? current_time s | None => false end
      then Some (Done (s, Ok 0))
      else
        match select_poll_all sets rd wr ex s with
        | Done (s, Ok res) =>
            if 0 <? res then Some (Done (s, Ok res))
            else select_loop env sets rd wr ex deadline fuel (S k) (env k s)
        | r => Some r
        end
  end.

Definition select_deadline (timeout : option timeval) (s : st) : outcome (option Z) :=
  match timeout with
  | None => Done None
  | Some tv => d ← duration_from tv; ddl ← duration (current_time s + d); Done (Some ddl)
  end.

Definition ax_select (env : nat → st → st) (fuel : nat) (n : Z) (rd wr ex : option nat)
    (timeout : option timeval) (s : st) : option (outcome (st * Z)) :=
  if n <? 0 then Some (call_body (Done (s, Err EINVAL)) id)
  else
    let n := Z.min n FD_SETSIZE in
    match select_deadline timeout s, fd_sets_from n rd wr ex s with
    | Done deadline, Done sets =>
        match (_ ← zero_fd_set rd n; _ ← zero_fd_set wr n; zero_fd_set ex n) s with
        | Done (s, _) => (λ r, call_body r id) <$> select_loop env sets rd wr ex deadline fuel 0 s
        | Panic => Some Panic
        end
    | _, _ => Some Panic
    end.

End io_mpx.
