(* ===== verification/IoMpxSpec.v ===== *)
(** * What [epoll_wait] and [select] report

    The loops over arrays and words against lists of descriptors: [epoll_wait]
    stores the events of the registered files that are ready, [select] leaves
    in its sets exactly the descriptors that were asked for and are ready. *)

From S2P Require Import Prelude AxErrno BTree FlattenObjects PollState FdTable IoMpx.
From stdpp Require Import base numbers gmap list.

Open Scope Z_scope.
Local Open Scope word_scope.

Section spec.
Context {B F W : Type} `{BM : Bitmap B} `{FL : FileLike F W} `{BML : !BitmapLaws B}.
Context (clock : W → Z).
#[local] Abbreviation st := (mpx B F W).
Implicit Types (s : st) (w : W) (files : gmap Z (file F)).

(** ** Polling a descriptor *)

Definition world s : W := fd_world (fds s).

Definition with_world w s : st :=
  with_fds {| fd_table := fd_table (fds s); errno := errno (fds s); fd_world := w |} s.

(** The descriptors in use and the files behind them. *)
Definition opens s files : Prop := fd_repr (fds s) files.

Lemma opens_world s files w : opens s files → opens (with_world w s) files.
Proof. done. Qed.

Lemma poll_fd_eq s files fd : opens s files → is_cint fd →
  poll_fd fd s =
    match files !! fd with
    | None => Done (s, Err EBADF)
    | Some f => match file_poll f (world s) with
                | Done (w, r) => Done (with_world w s, Ok r)
                | Panic => Panic
                end
    end.
Proof.
  intros Hr Hc. unfold poll_fd, mbind, stm_bind, on_fds. rewrite (get_file_like_spec (fds s) files fd Hr Hc).
  destruct (files !! fd) as [f|]; cbn [ok_or]; [|by destruct s].
  unfold as_value, on_file, world. cbn [fds with_fds]. by destruct (file_poll f (fd_world (fds s))) as [[w r]|].
Qed.

Lemma wrap_32_64 z : wrap 32 (wrap 64 z) = wrap 32 z.
Proof.
  unfold wrap. change (2 ^ 64) with (2 ^ 32 * 2 ^ 32). rewrite Z.rem_mul_r by lia.
  rewrite Z.mul_comm, Z_mod_plus_full. by rewrite Zmod_mod.
Qed.

Lemma as_cint_id z : is_cint z → as_cint (wrap 64 z) = z.
Proof.
  unfold is_cint, as_cint. intros Hz. rewrite Zplus_mod. change (wrap 64 z mod 2 ^ 32) with (wrap 32 (wrap 64 z)).
  rewrite wrap_32_64. unfold wrap. rewrite <- Zplus_mod, Z.mod_small; lia.
Qed.

Lemma as_cint_cint z : is_cint (as_cint z).
Proof. unfold is_cint, as_cint. pose proof (Z.mod_pos_bound (z + 2 ^ 31) (2 ^ 32)). lia. Qed.

(** ** [epoll] *)

(** The events stored for a registration whose file answers [r]. *)
Definition reports (ev : epoll_event) (r : result LinuxError PollState) : list epoll_event :=
  let answer c mask := if (c && negb (ev_events ev .& mask =? 0) : bool)
                       then [{| ev_events := mask; ev_data := ev_data ev |}] else [] in
  match r with
  | Err _ => answer true EPOLLERR
  | Ok state => answer (readable state) EPOLLIN ++ answer (writable state) EPOLLOUT
  end.

(** The registered files asked in turn: the events, up to the first
    descriptor that is closed. *)
Fixpoint ask files (events : list (Z * epoll_event)) w : outcome (W * list epoll_event * option LinuxError) :=
  match events with
  | [] => Done (w, [], None)
  | (fd, ev) :: events =>
      match files !! as_cint fd with
      | None => Done (w, [], Some EBADF)
      | Some f =>
          match file_poll f w with
          | Panic => Panic
          | Done (w, r) =>
              match ask files events w with
              | Panic => Panic
              | Done (w, l, e) => Done (w, reports ev r ++ l, e)
              end
          end
      end
  end.

(** The array after [l] was stored from the index [n] on. *)
Definition store_at (n : nat) (l : list epoll_event) (buf : list epoll_event) : list epoll_event :=
  take n buf ++ l ++ drop (n + length l) buf.

Lemma store_at_nil n buf : store_at n [] buf = buf.
Proof. unfold store_at. cbn. by rewrite Nat.add_0_r, take_drop. Qed.

Lemma store_at_app n l l' buf : (n + length l ≤ length buf)%nat →
  store_at (n + length l) l' (store_at n l buf) = store_at n (l ++ l') buf.
Proof.
  intros Hl. unfold store_at. rewrite (assoc_L (++) (take n buf) l (drop (n + length l) buf)).
  assert (length (take n buf ++ l) = n + length l)%nat as Hlen by (rewrite length_app, length_take; lia).
  rewrite take_app_length' by done. rewrite drop_app_ge by lia. rewrite Hlen, drop_drop, length_app.
  rewrite <- !(assoc_L (++)). do 4 f_equal. lia.
Qed.

Lemma store_at_length n l buf : (n + length l ≤ length buf)%nat → length (store_at n l buf) = length buf.
Proof. intros Hl. unfold store_at. rewrite !length_app, length_take, length_drop. lia. Qed.

Lemma report_if_eq c n mask data s :
  report_if c n mask data s =
    let l := if c then [{| ev_events := mask; ev_data := data |}] else [] in
    if (n + length l <=? length (ev_buf s))%nat || negb c
    then Done (with_ev_buf (store_at n l (ev_buf s)) s, Ok (n + length l)%nat) else Panic.
Proof.
  destruct c; cbn; [|rewrite orb_true_r, store_at_nil, Nat.add_0_r; by destruct s].
  unfold report. rewrite orb_false_r. destruct (Nat.ltb_spec n (length (ev_buf s))), (Nat.leb_spec (n + 1) (length (ev_buf s))); try lia; [|done].
  rewrite insert_take_drop by done. unfold store_at. cbn. by rewrite Nat.add_1_r.
Qed.

(** Two results in a row. *)
Lemma report_two n l l' (s : st) : (n ≤ length (ev_buf s))%nat →
  (if (n + length l <=? length (ev_buf s))%nat
   then if (n + length l + length l' <=? length (ev_buf (with_ev_buf (store_at n l (ev_buf s)) s)))%nat
        then Done (with_ev_buf (store_at (n + length l) l' (store_at n l (ev_buf s))) s, @Ok LinuxError _ (n + length l + length l')%nat)
        else Panic
   else Panic) =
  if (n + length (l ++ l') <=? length (ev_buf s))%nat
  then Done (with_ev_buf (store_at n (l ++ l') (ev_buf s)) s, Ok (n + length (l ++ l'))%nat) else Panic.
Proof.
  intros Hn. rewrite length_app. cbn [ev_buf with_ev_buf].
  destruct (Nat.leb_spec (n + length l) (length (ev_buf s))).
  2: { destruct (Nat.leb_spec (n + (length l + length l')) (length (ev_buf s))); [lia|done]. }
  rewrite store_at_length, store_at_app, (assoc_L (Nat.add)) by done. done.
Qed.

Lemma report_answer c mask n ev s : (n ≤ length (ev_buf s))%nat →
  report_if (c && negb (ev_events ev .& mask =? 0)) n mask (ev_data ev) s =
    let l := if c && negb (ev_events ev .& mask =? 0) then [{| ev_events := mask; ev_data := ev_data ev |}] else [] in
    if (n + length l <=? length (ev_buf s))%nat
    then Done (with_ev_buf (store_at n l (ev_buf s)) s, Ok (n + length l)%nat) else Panic.
Proof.
  intros Hn. rewrite report_if_eq. cbv zeta. destruct (c && _); cbn [negb]; [by rewrite orb_false_r|].
  rewrite orb_true_r. cbn [length]. destruct (Nat.leb_spec (n + 0) (length (ev_buf s))); [done|lia].
Qed.

Lemma reports_eq ev r n s : (n ≤ length (ev_buf s))%nat →
  match r with
  | Err _ => report_if (negb (ev_events ev .& EPOLLERR =? 0)) n EPOLLERR (ev_data ev)
  | Ok state =>
      n ← report_if (readable state && negb (ev_events ev .& EPOLLIN =? 0)) n EPOLLIN (ev_data ev);
      report_if (writable state && negb (ev_events ev .& EPOLLOUT =? 0)) n EPOLLOUT (ev_data ev)
  end s =
    if (n + length (reports ev r) <=? length (ev_buf s))%nat
    then Done (with_ev_buf (store_at n (reports ev r) (ev_buf s)) s, Ok (n + length (reports ev r))%nat) else Panic.
Proof.
  intros Hn. destruct r as [state|e]; [|by apply (report_answer true)].
  unfold mbind, stm_bind. rewrite report_answer by done. cbv zeta. unfold reports.
  set (l := if readable state && _ then _ else _). set (l' := if writable state && _ then _ else _).
  rewrite <- report_two by done. destruct (Nat.leb_spec (n + length l) (length (ev_buf s))) as [Hl|]; [|done].
  rewrite report_answer; [done|]. cbn [ev_buf with_ev_buf]. by rewrite store_at_length.
Qed.

Lemma poll_events_eq files events : ∀ n s w l e, opens s files → (n ≤ length (ev_buf s))%nat →
  ask files events (world s) = Done (w, l, e) →
  poll_events events n s =
    if (n + length l <=? length (ev_buf s))%nat
    then Done (with_world w (with_ev_buf (store_at n l (ev_buf s)) s),
           match e with None => Ok (n + length l)%nat | Some e => Err e end)
    else Panic.
Proof.
  induction events as [|[fd ev] events IH]; intros n s w l e Ho Hn Ha.
  { injection Ha as <- <- <-. cbn. rewrite Nat.add_0_r, store_at_nil.
    destruct (Nat.leb_spec n (length (ev_buf s))); [|lia]. by destruct s as [[] ? ? ?]. }
  cbn [ask poll_events] in *. unfold mbind at 1, stm_bind at 1.
  rewrite (poll_fd_eq s files) by (done || apply as_cint_cint).
  destruct (files !! as_cint fd) as [f|].
  2: { injection Ha as <- <- <-. cbn. rewrite Nat.add_0_r, store_at_nil.
    destruct (Nat.leb_spec n (length (ev_buf s))); [|lia]. by destruct s as [[] ? ? ?]. }
  destruct (file_poll f (world s)) as [[w1 r]|]; [|done].
  destruct (ask files events w1) as [[[w2 l2] e2]|] eqn:Ha2; [|done]. injection Ha as <- <- <-.
  unfold mbind at 1, stm_bind at 1. rewrite reports_eq by done. cbn [ev_buf with_world with_fds]. rewrite length_app.
  destruct (Nat.leb_spec (n + length (reports ev r)) (length (ev_buf s))) as [Hl|Hl].
  2: { destruct (Nat.leb_spec (n + (length (reports ev r) + length l2)) (length (ev_buf s))); [lia|done]. }
  rewrite (IH _ (with_ev_buf _ (with_world w1 s)) w2 l2 e2); [|done|cbn; by rewrite store_at_length|done].
  cbn [ev_buf with_ev_buf]. rewrite store_at_length, (assoc_L Nat.add) by done.
  destruct (Nat.leb_spec (n + length (reports ev r) + length l2) (length (ev_buf s))); [|done].
  rewrite store_at_app by done. by destruct e2.
Qed.

(** The registrations of an instance. *)
Definition registered s (a : nat) (events : list (Z * epoll_event)) : Prop := epolls s !! a = Some events.

Lemma epoll_poll_all_eq files events s a w l e : opens s files → registered s a events →
  ask files events (world s) = Done (w, l, e) →
  epoll_poll_all a s =
    if (length l <=? length (ev_buf s))%nat
    then Done (with_world w (with_ev_buf (l ++ drop (length l) (ev_buf s)) s),
           match e with None => Ok (length l) | Some e => Err e end)
    else Panic.
Proof.
  intros Ho Hr Ha. unfold epoll_poll_all, mbind, stm_bind, get_events. rewrite Hr.
  by rewrite (poll_events_eq files events 0 s w l e Ho ltac:(lia) Ha).
Qed.

(** The first [n] rounds of the loop find nothing, before the deadline; [s']
    is the state in which the round after them starts. *)
Fixpoint quiet (env : nat → st → st) (a : nat) (ddl : option Z) (n k : nat) s s' : Prop :=
  match n with
  | O => s' = s
  | S n => ∃ files events w, opens s files ∧ registered s a events ∧ ask files events (world s) = Done (w, [], None) ∧
      (∀ d, ddl = Some d → clock w < d) ∧ quiet env a ddl n (S k) (env k (with_world w s)) s'
  end.

Lemma quiet_loop env a ddl n : ∀ k s s' fuel, quiet env a ddl n k s s' →
  epoll_loop clock env a ddl (n + fuel) k s = epoll_loop clock env a ddl fuel (k + n) s'.
Proof.
  induction n as [|n IH]; intros k s s' fuel; cbn [quiet Nat.add]; [intros ->; by rewrite Nat.add_0_r|].
  intros (files & events & w & Ho & Hr & Ha & Hd & Hq). cbn [epoll_loop].
  rewrite (epoll_poll_all_eq files events s a w [] None Ho Hr Ha). cbn [length Nat.leb app]. rewrite drop_0.
  rewrite Nat.ltb_irrefl. assert (with_world w (with_ev_buf (ev_buf s) s) = with_world w s) as -> by (by destruct s).
  assert (match ddl with Some d => d <=? current_time clock (with_world w s) | None => false end = false) as ->.
  { destruct ddl as [d|]; [|done]. apply Z.leb_gt. by apply Hd. }
  rewrite (IH _ _ _ _ Hq). f_equal. lia.
Qed.

Lemma epoll_round env a ddl files events s w l e fuel k : opens s files → registered s a events →
  ask files events (world s) = Done (w, l, e) → (length l ≤ length (ev_buf s))%nat →
  let s1 := with_world w (with_ev_buf (l ++ drop (length l) (ev_buf s)) s) in
  (∀ err, e = Some err → epoll_loop clock env a ddl (S fuel) k s = Some (Done (s1, Err err))) ∧
  (e = None → l ≠ [] → epoll_loop clock env a ddl (S fuel) k s = Some (Done (s1, Ok (length l)))) ∧
  (e = None → l = [] → (∃ d, ddl = Some d ∧ d ≤ clock w) →
     epoll_loop clock env a ddl (S fuel) k s = Some (Done (s1, Ok 0%nat))).
Proof.
  intros Ho Hr Ha Hl s1. cbn [epoll_loop]. rewrite (epoll_poll_all_eq files events s a w l e Ho Hr Ha).
  rewrite (proj2 (Nat.leb_le _ _) Hl). fold s1. split; [by intros err ->|]. split.
  - intros -> Hne. destruct l as [|x l]; [done|]. done.
  - intros -> -> (d & -> & Hd). rewrite Nat.ltb_irrefl. unfold current_time.
    change (fd_world (fds s1)) with w. by rewrite (proj2 (Z.leb_le _ _) Hd).
Qed.


(** More events than the array has places: the store is out of range. *)
Theorem epoll_wait_overflows env a ddl files events s w l e fuel k : opens s files → registered s a events →
  ask files events (world s) = Done (w, l, e) → (length (ev_buf s) < length l)%nat →
  epoll_loop clock env a ddl (S fuel) k s = Some Panic.
Proof.
  intros Ho Hr Ha Hl. cbn [epoll_loop]. rewrite (epoll_poll_all_eq files events s a w l e Ho Hr Ha).
  destruct (Nat.leb_spec (length l) (length (ev_buf s))); [lia|done].
Qed.

(** ** Registering *)

Lemma insert_get (t : list (Z * epoll_event)) fd ev k : bt_wf t →
  bt_get (bt_insert t fd ev) k = if decide (k = fd) then Some ev else bt_get t k.
Proof. intros Hwf. case_decide as Hk; [subst k; apply bt_get_insert_eq|apply bt_get_insert_ne; congruence]. Qed.

Lemma remove_get (t : list (Z * epoll_event)) fd k : bt_wf t →
  bt_get (bt_remove t fd) k = if decide (k = fd) then None else bt_get t k.
Proof. intros Hwf. case_decide as Hk; [subst k; by apply bt_get_remove_eq|apply bt_get_remove_ne; congruence]. Qed.

(** [ax_epoll_ctl] keeps a finite map from descriptors to events: ADD binds
    a descriptor that is not bound, MOD replaces and DEL removes a binding
    that is there, each fails with the error of Linux otherwise and for a
    descriptor that is not open, and the bindings stay in order. *)
Theorem epoll_ctl_updates s files epfd op fd ev a events :
  opens s files → is_cint epfd → is_cint fd → files !! epfd = Some (EpollFile a) →
  registered s a events → bt_wf events →
  let bound := bt_get events (wrap 64 fd) in
  let fails err := ∃ s', ax_epoll_ctl epfd op fd ev s = Done (s', -1) ∧ errno (fds s') = Some err ∧ epolls s' = epolls s in
  let becomes v := ∃ s' events', ax_epoll_ctl epfd op fd ev s = Done (s', 0) ∧ registered s' a events' ∧ bt_wf events' ∧
    ∀ k, bt_get events' k = if decide (k = wrap 64 fd) then v else bt_get events k in
  if bool_decide (files !! fd = None) then fails EBADF
  else if wrap 32 op =? EPOLL_CTL_ADD then if bound is Some _ then fails EEXIST else becomes (Some ev)
  else if wrap 32 op =? EPOLL_CTL_MOD then if bound is Some _ then becomes (Some ev) else fails ENOENT
  else if wrap 32 op =? EPOLL_CTL_DEL then if bound is Some _ then becomes None else fails ENOENT
  else fails EINVAL.
Proof.
  intros Ho Hce Hcf Hep Hr Hwf bound fails becomes.
  assert (ax_epoll_ctl epfd op fd ev s = call_body (control a (wrap 64 op) (wrap 64 fd) ev s) id) as Hcall.
  { unfold ax_epoll_ctl, from_fd, mbind, stm_bind, on_fds. rewrite (get_file_like_spec (fds s) files epfd Ho Hce), Hep.
    cbn [ok_or]. by destruct s. }
  unfold control, mbind, stm_bind, on_fds in Hcall.
  rewrite (as_cint_id fd Hcf), (get_file_like_spec (fds s) files fd Ho Hcf), wrap_32_64 in Hcall.
  assert (with_fds (fds s) s = s) as Hs by (by destruct s). rewrite Hs in Hcall.
  case_bool_decide as Hfd.
  { unfold fails. rewrite Hcall, Hfd. by eexists. }
  destruct (files !! fd) as [f|] eqn:Hff; [|done]. cbn [ok_or] in Hcall. unfold get_events in Hcall. rewrite Hr in Hcall.
  fold bound in Hcall.
  assert (∀ events', registered (with_epoll a events' s) a events') as Hreg by (intros; apply lookup_insert_eq).
  destruct (wrap 32 op =? EPOLL_CTL_ADD); [|destruct (wrap 32 op =? EPOLL_CTL_MOD); [|destruct (wrap 32 op =? EPOLL_CTL_DEL)]];
    try (destruct bound); unfold fails, becomes; rewrite Hcall; try (by eexists).
  - eexists _, _. split; [done|]. split; [apply Hreg|]. split; [by apply bt_insert_wf|]. intros k. by apply insert_get.
  - eexists _, _. split; [done|]. split; [apply Hreg|]. split; [by apply bt_insert_wf|]. intros k. by apply insert_get.
  - eexists _, _. split; [done|]. split; [apply Hreg|]. split; [by apply bt_remove_wf|]. intros k. by apply remove_get.
Qed.

(** ** [select] *)

(** Membership in a set of words. *)
Definition member (l : list Z) (fd : Z) : bool :=
  match l !! Z.to_nat (fd / 64) with Some x => Z.testbit x (fd mod 64) | None => false end.

Lemma land_bit x j : 0 ≤ j < 64 → (x .& (1 .<< j) =? 0) = negb (Z.testbit x j).
Proof.
  intros Hj. assert (1 .<< j = 2 ^ j) as ->.
  { unfold wshl. rewrite Z.shiftl_1_l, wrap_small; [done|]. split; [lia|]. apply Z.pow_lt_mono_r; lia. }
  destruct (Z.testbit x j) eqn:Hb; cbn.
  - apply Z.eqb_neq. intros H0. apply (f_equal (λ z, Z.testbit z j)) in H0.
    by rewrite Z.land_spec, Hb, Z.pow2_bits_true, Z.testbit_0_l in H0 by lia.
  - apply Z.eqb_eq, Z.bits_inj'. intros k Hk. rewrite Z.land_spec, Z.testbit_0_l.
    destruct (decide (k = j)) as [->|Hne]; [by rewrite Hb|]. rewrite Z.pow2_bits_false by lia. apply andb_false_r.
Qed.

Lemma member_word l q x j : 0 ≤ q → 0 ≤ j < 64 → l !! Z.to_nat q = Some x → member l (64 * q + j) = Z.testbit x j.
Proof.
  intros Hq Hj Hx. unfold member.
  rewrite (Z.mul_comm 64 q), Z.div_add_l, (Z.div_small j), Z.add_0_r, Hx by lia.
  by rewrite Z.add_comm, Z_mod_plus_full, Z.mod_small by lia.
Qed.

Section select.
Context (rd wr ex : option nat) (rw ww ew : list Z).

Definition asked (fd : Z) : bool := member rw fd || member ww fd || member ew fd.

(** The descriptors visited one after the other. *)
Fixpoint visit_all (l : list Z) (res : Z) : stm st LinuxError Z :=
  match l with
  | [] => mret res
  | fd :: l =>
      if asked fd
      then res ← visit rd wr ex (member rw fd) (member ww fd) (member ew fd) fd res; visit_all l res
      else visit_all l res
  end.

Lemma visit_all_app l l' : ∀ res s,
  visit_all (l ++ l') res s = (res ← visit_all l res; visit_all l' res) s.
Proof.
  induction l as [|fd l IH]; intros res s; [done|]. cbn [visit_all app]. destruct (asked fd); [|apply IH].
  unfold mbind, stm_bind. destruct (visit rd wr ex _ _ _ fd res s) as [[s1 [r|e]]|]; [|done|done]. apply IH.
Qed.

Lemma visit_none l : ∀ res s, (∀ fd, fd ∈ l → asked fd = false) → visit_all l res s = Done (s, Ok res).
Proof.
  induction l as [|fd l IH]; intros res s Hl; [done|]. cbn [visit_all]. rewrite Hl by left. apply IH.
  intros fd' Hfd. apply Hl. by right.
Qed.

(** The inner loop visits the descriptors of a word from the bit [j] on. *)
Lemma bit_loop_eq n q r x y fuel : ∀ j res s,
  0 ≤ q → rw !! Z.to_nat q = Some r → ww !! Z.to_nat q = Some x → ew !! Z.to_nat q = Some y →
  0 ≤ j ≤ 64 → (Z.to_nat (64 - j) < fuel)%nat →
  bit_loop fuel rd wr ex r x y (64 * q) n j res s = visit_all (seqZ (64 * q + j) (Z.min 64 (n - 64 * q) - j)) res s.
Proof.
  induction fuel as [|fuel IH]; intros j res s Hq Hr Hx Hy Hj Hf; [lia|]. cbn [bit_loop].
  unfold BITS_PER_USIZE. destruct (Z.ltb_spec j 64), (Z.ltb_spec (64 * q + j) n); cbn [andb];
    try (rewrite seqZ_nil by lia; done).
  rewrite seqZ_cons by lia. cbn [visit_all]. unfold asked.
  rewrite (member_word rw q r j), (member_word ww q x j), (member_word ew q y j) by (done || lia).
  rewrite !land_bit, !negb_involutive, !Z.lor_spec by lia.
  replace (Z.succ (64 * q + j)) with (64 * q + (j + 1)) by lia.
  replace (Z.pred (Z.min 64 (n - 64 * q) - j)) with (Z.min 64 (n - 64 * q) - (j + 1)) by lia.
  destruct (Z.testbit r j || Z.testbit x j || Z.testbit y j); cbn [negb]; [|apply IH; done || lia].
  unfold mbind, stm_bind. destruct (visit rd wr ex _ _ _ (64 * q + j) res s) as [[s1 [r1|e]]|]; [|done|done].
  apply IH; done || lia.
Qed.

(** The words the caller asked for are those [select] reads. *)
Record sets_of (sets : FdSets) : Prop := {
  so_nfds : 0 ≤ nfds sets ≤ 1024;
  so_words q : 0 ≤ q → 64 * q < nfds sets →
    ∃ r x y, rw !! Z.to_nat q = Some r ∧ ww !! Z.to_nat q = Some x ∧ ew !! Z.to_nat q = Some y ∧
      read_word sets q = Done r ∧ read_word sets (16 + q) = Done x ∧ read_word sets (16 * 2 + q) = Done y;
}.

Lemma word_loop_eq sets fuel : ∀ q res s, sets_of sets → 0 ≤ q ≤ 16 → (Z.to_nat (16 - q) < fuel)%nat →
  word_loop fuel sets rd wr ex (64 * q) res s = visit_all (seqZ (64 * q) (nfds sets - 64 * q)) res s.
Proof.
  induction fuel as [|fuel IH]; intros q res s Hs Hq Hf; [lia|]. cbn [word_loop].
  pose proof (so_nfds _ Hs) as Hn. destruct (Z.ltb_spec (64 * q) (nfds sets)) as [Hlt|Hge].
  2: { by rewrite seqZ_nil by lia. }
  destruct (so_words _ Hs q ltac:(lia) Hlt) as (r & x & y & Hr & Hx & Hy & Hr1 & Hx1 & Hy1).
  unfold BITS_PER_USIZE, FD_SETSIZE_USIZES. rewrite (Z.mul_comm 64 q), Z.div_mul, (Z.mul_comm q 64) by lia.
  unfold mbind at 1 2 3, stm_bind at 1 2 3, of_outcome. rewrite Hr1, Hx1, Hy1.
  assert (seqZ (64 * q) (nfds sets - 64 * q) =
    seqZ (64 * q) (Z.min 64 (nfds sets - 64 * q)) ++ seqZ (64 * q + 64) (nfds sets - (64 * q + 64))) as ->.
  { destruct (decide (nfds sets - 64 * q ≤ 64)).
    - rewrite (seqZ_nil (64 * q + 64)), app_nil_r by lia. f_equal. lia.
    - rewrite Z.min_l by lia. rewrite <- seqZ_app by lia. f_equal. lia. }
  rewrite visit_all_app. replace (64 * q + 64) with (64 * (q + 1)) by lia.
  destruct (Z.eqb_spec (r .| x .| y) 0) as [H0|H0].
  - unfold mbind, stm_bind. rewrite visit_none; [apply IH; done || lia|].
    intros fd Hfd%elem_of_seqZ. replace fd with (64 * q + (fd - 64 * q)) by lia. unfold asked.
    rewrite (member_word rw q r), (member_word ww q x), (member_word ew q y) by (done || lia).
    rewrite <- !Z.lor_spec, H0. apply Z.testbit_0_l.
  - unfold mbind, stm_bind. rewrite (bit_loop_eq (nfds sets) q r x y) by (done || lia).
    rewrite Z.add_0_r, Z.sub_0_r. destruct (visit_all _ res s) as [[s1 [r1|e]]|]; [|done|done]. apply IH; done || lia.
Qed.

Lemma select_poll_all_eq sets s : sets_of sets →
  select_poll_all sets rd wr ex s = visit_all (seqZ 0 (nfds sets)) 0 s.
Proof.
  intros Hs. unfold select_poll_all. rewrite <- (Z.mul_0_r 64) at 1. rewrite (word_loop_eq sets) by (done || lia).
  by rewrite Z.mul_0_r, Z.sub_0_r.
Qed.

(** ** The answers *)

(** The descriptors [l] are asked in turn, up to the first that is closed. *)
Fixpoint ask_fds files (l : list Z) w : outcome (W * list (Z * result LinuxError PollState) * option LinuxError) :=
  match l with
  | [] => Done (w, [], None)
  | fd :: l =>
      match files !! fd with
      | None => Done (w, [], Some EBADF)
      | Some f =>
          match file_poll f w with
          | Panic => Panic
          | Done (w, r) =>
              match ask_fds files l w with
              | Panic => Panic
              | Done (w, log, e) => Done (w, (fd, r) :: log, e)
              end
          end
      end
  end.

(** The descriptors of a log that are ready for reading, for writing, or
    have an error, and were asked for that. *)
Definition hits (f : PollState → bool) (words : list Z) (log : list (Z * result LinuxError PollState)) : list Z :=
  omap (λ '(fd, r), match r with Ok p => if f p && member words fd then Some fd else None | Err _ => None end) log.

Definition failures (words : list Z) (log : list (Z * result LinuxError PollState)) : list Z :=
  omap (λ '(fd, r), match r with Ok _ => None | Err _ => if member words fd then Some fd else None end) log.

(** The bits a log sets in the set at [q]. *)
Definition marks (log : list (Z * result LinuxError PollState)) (q : nat) : list Z :=
  (if decide (rd = Some q) then hits readable rw log else []) ++
  (if decide (wr = Some q) then hits writable ww log else []) ++
  (if decide (ex = Some q) then failures ew log else []).

Definition score (log : list (Z * result LinuxError PollState)) : Z :=
  Z.of_nat (length (hits readable rw log) + length (hits writable ww log) + length (failures ew log)).

(** [s'] is [s] with the world [w] and the bits [added] set. *)
Record effect s s' w (added : nat → list Z) : Prop := {
  ef_fds : fds s' = fds (with_world w s);
  ef_rest : epolls s' = epolls s ∧ ev_buf s' = ev_buf s;
  ef_sets q : match fd_sets s !! q, fd_sets s' !! q with
              | Some l, Some l' => length l' = length l ∧
                  ∀ fd, 0 ≤ fd → member l' fd = member l fd || bool_decide (fd ∈ added q)
              | None, None => True
              | _, _ => False
              end;
}.

Lemma effect_id s w : effect s (with_world w s) w (λ _, []).
Proof.
  split; [done|done|]. intros q. cbn. destruct (fd_sets s !! q) as [l|]; [|done]. split; [done|].
  intros fd _. rewrite bool_decide_false by apply not_elem_of_nil. by rewrite orb_false_r.
Qed.

Lemma effect_trans s1 s2 s3 w2 w3 a b :
  effect s1 s2 w2 a → effect s2 s3 w3 b → effect s1 s3 w3 (λ q, a q ++ b q).
Proof.
  intros [Hf (He & Hb) Hs] [Hf' (He' & Hb') Hs']. split; [|split; congruence|].
  - rewrite Hf'. cbn. by rewrite Hf.
  - intros q. specialize (Hs q). specialize (Hs' q).
    destruct (fd_sets s1 !! q) as [l1|], (fd_sets s2 !! q) as [l2|], (fd_sets s3 !! q) as [l3|]; try done.
    destruct Hs as [Hl Hm], Hs' as [Hl' Hm']. split; [congruence|]. intros fd Hfd. rewrite Hm', Hm by done.
    rewrite <- orb_assoc. f_equal. rewrite <- bool_decide_or. apply bool_decide_ext. by rewrite elem_of_app.
Qed.

Lemma effect_ext s s' w a b : effect s s' w a → (∀ q, b q ≡ₚ a q) → effect s s' w b.
Proof.
  intros [Hf Hr Hs] Hab. split; [done|done|]. intros q. specialize (Hs q).
  destruct (fd_sets s !! q), (fd_sets s' !! q); try done. destruct Hs as [Hl Hm]. split; [done|].
  intros fd Hfd. rewrite Hm by done. f_equal. apply bool_decide_ext. by rewrite Hab.
Qed.

(** A pointer to a set of 1024 bits, or null. *)
Definition valid s (p : option nat) : Prop := ∀ q, p = Some q → ∃ l, fd_sets s !! q = Some l ∧ length l = 16%nat.

Lemma effect_valid s s' w a p : effect s s' w a → valid s p → valid s' p.
Proof.
  intros He Hv q Hq. destruct (Hv q Hq) as (l & Hl & Hlen). pose proof (ef_sets _ _ _ _ He q) as Hs. rewrite Hl in Hs.
  destruct (fd_sets s' !! q) as [l'|]; [|done]. exists l'. split; [done|]. destruct Hs as [-> _]. done.
Qed.

Lemma member_set l fd x fd' : 0 ≤ fd → 0 ≤ fd' → l !! Z.to_nat (fd / 64) = Some x →
  member (<[Z.to_nat (fd / 64) := x .| (1 .<< (fd mod 64))]> l) fd' = member l fd' || bool_decide (fd' = fd).
Proof.
  intros Hfd Hfd' Hx. pose proof (Z.mod_pos_bound fd 64) as Hm. pose proof (Z.mod_pos_bound fd' 64) as Hm'.
  pose proof (Z.div_mod fd 64) as Hd. pose proof (Z.div_mod fd' 64) as Hd'. unfold member.
  assert (1 .<< (fd mod 64) = 2 ^ (fd mod 64)) as ->.
  { unfold wshl. rewrite Z.shiftl_1_l, wrap_small; [done|]. split; [lia|]. apply Z.pow_lt_mono_r; lia. }
  destruct (decide (fd' / 64 = fd / 64)) as [Heq|Hne].
  - rewrite Heq, list_lookup_insert_eq, Hx by (by eapply lookup_lt_Some). rewrite Z.lor_spec. f_equal.
    destruct (decide (fd' mod 64 = fd mod 64)) as [Hmod|Hmod].
    + rewrite bool_decide_true by lia. rewrite Hmod. apply Z.pow2_bits_true. lia.
    + rewrite bool_decide_false by congruence. apply Z.pow2_bits_false. lia.
  - rewrite list_lookup_insert_ne by (intros Hn; apply Hne; pose proof (Z.div_pos fd 64); pose proof (Z.div_pos fd' 64); lia).
    rewrite bool_decide_false by congruence. by rewrite orb_false_r.
Qed.

Lemma set_if_spec c p fd res s : valid s p → 0 ≤ fd < 1024 →
  ∃ s', set_if c p fd res s = Done (s', Ok (res + Z.of_nat (if c then 1 else 0)%nat)) ∧
    effect s s' (world s) (λ q, if decide (p = Some q) then if c then [fd] else [] else []).
Proof.
  intros Hv Hfd. assert (with_world (world s) s = s) as Hsame by (by destruct s as [[] ? ? ?]).
  assert (effect s s (world s) (λ _, [])) as Hid by (rewrite <- Hsame at 2; apply effect_id).
  destruct c; cbn [set_if].
  2: { exists s. rewrite Z.add_0_r. split; [done|]. eapply effect_ext; [exact Hid|]. intros q. by case_decide. }
  unfold set_if, mbind, stm_bind, set_fd_set. destruct p as [q|].
  2: { exists s. split; [done|]. eapply effect_ext; [exact Hid|]. intros q. by case_decide. }
  destruct (Hv q eq_refl) as (l & Hl & Hlen). rewrite Hl. unfold BITS_PER_USIZE.
  destruct (lookup_lt_is_Some_2 l (Z.to_nat (fd / 64))) as [x Hx].
  { rewrite Hlen. assert (fd / 64 < 16) by (apply Z.div_lt_upper_bound; lia). lia. }
  rewrite Hx. eexists. split; [done|]. split; [by destruct s as [[] ? ? ?]|done|].
  intros q'. cbn [fd_sets with_fd_set]. destruct (decide (Some q = Some q')) as [[= <-]|Hne].
  - rewrite Hl, lookup_insert_eq. split; [by rewrite length_insert|]. intros fd' Hfd'.
    rewrite member_set by (done || lia). f_equal. apply bool_decide_ext. by rewrite list_elem_of_singleton.
  - rewrite lookup_insert_ne by congruence. destruct (fd_sets s !! q'); [|done]. split; [done|]. intros fd' _.
    rewrite bool_decide_false by apply not_elem_of_nil. by rewrite orb_false_r.
Qed.

Lemma marks_cons x log q : marks (x :: log) q ≡ₚ marks [x] q ++ marks log q.
Proof.
  unfold marks, hits, failures. change (x :: log) with ([x] ++ log). rewrite !omap_app.
  do 3 case_decide; cbn [app]; rewrite ?app_nil_r; solve_Permutation.
Qed.

Lemma score_cons x log : score (x :: log) = score [x] + score log.
Proof. unfold score, hits, failures. change (x :: log) with ([x] ++ log). rewrite !omap_app, !length_app. lia. Qed.

Lemma opens_effect s s' w a files : effect s s' w a → opens s files → opens s' files.
Proof. intros [Hf _ _] Ho. unfold opens. by rewrite Hf. Qed.

Lemma visit_spec s files f fd w r res : opens s files → 0 ≤ fd < 1024 → files !! fd = Some f →
  file_poll f (world s) = Done (w, r) → valid s rd → valid s wr → valid s ex →
  ∃ s', visit rd wr ex (member rw fd) (member ww fd) (member ew fd) fd res s =
    Done (s', Ok (res + score [(fd, r)])) ∧ effect s s' w (marks [(fd, r)]).
Proof.
  intros Ho Hfd Hf Hp Hrd Hwr Hex. unfold visit. unfold mbind at 1, stm_bind at 1.
  rewrite (poll_fd_eq s files) by (done || (unfold is_cint; lia)). rewrite Hf, Hp.
  set (s1 := with_world w s). assert (effect s s1 w (λ _, [])) as H1 by apply effect_id.
  destruct r as [st1|e].
  - destruct (set_if_spec (readable st1 && member rw fd) rd fd res s1) as (s2 & Hs2 & H2); [done|done|].
    set (res1 := res + _) in Hs2.
    destruct (set_if_spec (writable st1 && member ww fd) wr fd res1 s2) as (s3 & Hs3 & H3); [by eapply effect_valid|done|].
    exists s3. unfold mbind, stm_bind. rewrite Hs2, Hs3. split.
    + unfold res1, score, hits, failures. cbn [omap list_omap]. do 3 f_equal.
      destruct (readable st1 && member rw fd), (writable st1 && member ww fd); cbn [length]; lia.
    + assert (world s2 = w) as Hw2 by (unfold world; by rewrite (ef_fds _ _ _ _ H2)).
      rewrite Hw2 in H3. eapply effect_ext; [exact (effect_trans _ _ _ _ _ _ _ H1 (effect_trans _ _ _ _ _ _ _ H2 H3))|].
      intros q. unfold marks, hits, failures. cbn [omap list_omap app].
      destruct (readable st1 && member rw fd), (writable st1 && member ww fd);
        destruct (decide (rd = Some q)), (decide (wr = Some q)), (decide (ex = Some q)); reflexivity.
  - destruct (set_if_spec (member ew fd) ex fd res s1) as (s2 & Hs2 & H2); [done|done|].
    exists s2. split.
    + rewrite Hs2. unfold score, hits, failures. cbn [omap list_omap]. do 3 f_equal. destruct (member ew fd); cbn [length]; lia.
    + eapply effect_ext; [exact (effect_trans _ _ _ _ _ _ _ H1 H2)|].
      intros q. unfold marks, hits, failures. cbn [omap list_omap app].
      destruct (member ew fd), (decide (rd = Some q)), (decide (wr = Some q)), (decide (ex = Some q)); reflexivity.
Qed.

Lemma effect_same s : effect s s (world s) (λ _, []).
Proof.
  assert (with_world (world s) s = s) as Hs by (by destruct s as [[] ? ? ?]).
  pose proof (effect_id s (world s)) as He. by rewrite Hs in He.
Qed.

Lemma effect_none s : effect s s (world s) (marks []).
Proof.
  eapply effect_ext; [apply effect_same|].
  intros q. unfold marks. cbn. by repeat case_decide.
Qed.

Lemma visit_all_spec files l : ∀ s w log e res, opens s files → Forall (λ fd, 0 ≤ fd < 1024) l →
  valid s rd → valid s wr → valid s ex →
  ask_fds files (filter (λ fd, Is_true (asked fd)) l) (world s) = Done (w, log, e) →
  ∃ s', visit_all l res s = Done (s', match e with None => Ok (res + score log) | Some e => Err e end) ∧
    effect s s' w (marks log).
Proof.
  induction l as [|fd l IH]; intros s w log e res Ho Hl Hrd Hwr Hex Ha.
  { injection Ha as <- <- <-. exists s. cbn. rewrite Z.add_0_r. split; [done|].
    apply effect_none. }
  apply Forall_cons in Hl as [Hfd Hl]. cbn [visit_all].
  destruct (asked fd) eqn:Has.
  2: { rewrite filter_cons_False in Ha by (rewrite Has; exact id). by apply IH. }
  rewrite filter_cons_True in Ha by (rewrite Has; exact I). cbn [ask_fds] in Ha. destruct (files !! fd) as [f|] eqn:Hf.
  2: { exists s. injection Ha as <- <- <-. split.
    - unfold visit, mbind, stm_bind. by rewrite (poll_fd_eq s files), Hf by (done || (unfold is_cint; lia)).
    - apply effect_none. }
  destruct (file_poll f (world s)) as [[w1 r]|] eqn:Hp; [|done].
  destruct (ask_fds files _ w1) as [[[w2 log2] e2]|] eqn:Ha2; [|done]. injection Ha as <- <- <-.
  destruct (visit_spec s files f fd w1 r res Ho Hfd Hf Hp Hrd Hwr Hex) as (s1 & Hv & H1).
  assert (world s1 = w1) as Hw1 by (unfold world; by rewrite (ef_fds _ _ _ _ H1)).
  destruct (IH s1 w2 log2 e2 (res + score [(fd, r)])) as (s2 & Hv2 & H2); try done;
    [by eapply opens_effect|by eapply effect_valid..|by rewrite Hw1|].
  exists s2. unfold mbind, stm_bind. rewrite Hv, Hv2, (score_cons (fd, r) log2). split; [by rewrite Z.add_assoc|].
  eapply effect_ext; [exact (effect_trans _ _ _ _ _ _ _ H1 H2)|]. intros q. apply marks_cons.
Qed.

(** A round that finds nothing writes nothing. *)
Lemma visit_all_quiet files l : ∀ s w log res, opens s files → Forall (λ fd, 0 ≤ fd < 1024) l →
  ask_fds files (filter (λ fd, Is_true (asked fd)) l) (world s) = Done (w, log, None) → score log = 0 →
  visit_all l res s = Done (with_world w s, Ok res).
Proof.
  induction l as [|fd l IH]; intros s w log res Ho Hl Ha H0.
  { injection Ha as <- <-. by destruct s as [[] ? ? ?]. }
  apply Forall_cons in Hl as [Hfd Hl]. cbn [visit_all]. destruct (asked fd) eqn:Has.
  2: { rewrite filter_cons_False in Ha by (rewrite Has; exact id). by eapply IH. }
  rewrite filter_cons_True in Ha by (rewrite Has; exact I). cbn [ask_fds] in Ha.
  destruct (files !! fd) as [f|] eqn:Hf; [|done].
  destruct (file_poll f (world s)) as [[w1 r]|] eqn:Hp; [|done].
  destruct (ask_fds files _ w1) as [[[w2 log2] e2]|] eqn:Ha2; [|done]. injection Ha as <- <- ->.
  rewrite score_cons in H0. assert (score [(fd, r)] = 0 ∧ score log2 = 0) as [H1 H2] by (unfold score in *; lia).
  unfold visit, mbind, stm_bind. rewrite (poll_fd_eq s files), Hf, Hp by (done || (unfold is_cint; lia)).
  unfold score, hits, failures in H1. destruct r as [st1|e]; cbn [omap list_omap] in H1.
  - destruct (readable st1 && member rw fd), (writable st1 && member ww fd); cbn in H1; try lia.
    by apply (IH (with_world w1 s) w2 log2).
  - destruct (member ew fd); cbn in H1; [lia|]. by apply (IH (with_world w1 s) w2 log2).
Qed.

(** ** Copying and clearing the sets *)

Lemma copy_lookup n off p s bits src : 0 ≤ n ≤ Z.of_nat (length src) → 0 ≤ off → off + n ≤ Z.of_nat (length bits) →
  set_words p s = Done src →
  ∃ bits', copy_from_fd_set n off p s bits = Done bits' ∧ length bits' = length bits ∧
    ∀ i, 0 ≤ i → bits' !! Z.to_nat i =
      if decide (off ≤ i < off + n) then Some <$> src !! Z.to_nat (i - off) else bits !! Z.to_nat i.
Proof.
  intros Hn Hoff Hlen Hw. unfold copy_from_fd_set. rewrite Hw. cbn [mbind outcome_bind].
  rewrite (proj2 (Z.leb_le _ _)), (proj2 (Z.leb_le _ _)) by lia. cbn [andb].
  eexists. split; [done|]. rewrite !length_app, length_take, length_drop, length_fmap, length_take.
  split; [lia|]. intros i Hi. case_decide.
  - rewrite lookup_app_r, lookup_app_l by (rewrite ?length_fmap, ?length_take; lia).
    rewrite list_lookup_fmap, length_take, lookup_take_lt by lia. do 2 f_equal. lia.
  - destruct (decide (i < off)).
    + rewrite lookup_app_l, lookup_take_lt by (rewrite ?length_take; lia). done.
    + rewrite !lookup_app_r by (rewrite ?length_fmap, ?length_take; lia).
      rewrite lookup_drop, length_fmap, !length_take. f_equal. lia.
Qed.

Lemma usizes_bounds n : 0 ≤ n ≤ 1024 → 0 ≤ usizes n ≤ 16 ∧ n ≤ 64 * usizes n ∧ 64 * usizes n < n + 64.
Proof.
  intros Hn. unfold usizes. pose proof (Z.div_mod (n + 63) 64). pose proof (Z.mod_pos_bound (n + 63) 64).
  assert ((n + 63) / 64 ≤ 16) by (apply Z.lt_succ_r, Z.div_lt_upper_bound; lia).
  assert (0 ≤ (n + 63) / 64) by (apply Z.div_pos; lia). lia.
Qed.

Lemma set_words_length p s l : valid s p → set_words p s = Done l → length l = 16%nat.
Proof.
  intros Hv Hl. destruct p as [q|]; cbn in Hl; [|by injection Hl as <-].
  destruct (Hv q eq_refl) as (l' & Hl' & Hlen). rewrite Hl' in Hl. cbn in Hl. by injection Hl as <-.
Qed.

Lemma fd_sets_from_spec n s : 0 ≤ n ≤ 1024 → valid s rd → valid s wr → valid s ex →
  set_words rd s = Done rw → set_words wr s = Done ww → set_words ex s = Done ew →
  ∃ sets, fd_sets_from n rd wr ex s = Done sets ∧ nfds sets = n ∧ sets_of sets.
Proof.
  intros Hn Vr Vw Ve Hr Hw He. pose proof (usizes_bounds n Hn) as (Hu & Hle & Hlt).
  pose proof (set_words_length _ _ _ Vr Hr) as Lr. pose proof (set_words_length _ _ _ Vw Hw) as Lw.
  pose proof (set_words_length _ _ _ Ve He) as Le.
  unfold fd_sets_from, FD_SETSIZE, FD_SETSIZE_USIZES. rewrite Z.min_l by lia.
  set (b0 := replicate (Z.to_nat (16 * 3)) None). assert (length b0 = 48%nat) as L0 by done. clearbody b0.
  destruct (copy_lookup (usizes n) 0 rd s b0 rw) as (b1 & E1 & L1 & H1); [lia..|done|].
  destruct (copy_lookup (usizes n) 16 wr s b1 ww) as (b2 & E2 & L2 & H2); [lia..|done|].
  destruct (copy_lookup (usizes n) (16 * 2) ex s b2 ew) as (b3 & E3 & L3 & H3); [lia..|done|].
  rewrite E1. cbn [mbind outcome_bind]. rewrite E2. cbn [mbind outcome_bind]. rewrite E3.
  eexists. split; [done|]. split; [done|]. split; [done|]. cbn [nfds]. intros q Hq Hqn.
  assert (q < usizes n) as Hqu by lia.
  destruct (lookup_lt_is_Some_2 rw (Z.to_nat q)) as [r Hrq]; [lia|].
  destruct (lookup_lt_is_Some_2 ww (Z.to_nat q)) as [x Hxq]; [lia|].
  destruct (lookup_lt_is_Some_2 ew (Z.to_nat q)) as [y Hyq]; [lia|].
  exists r, x, y. split_and!; [done..| | |]; unfold read_word; cbn [bits].
  - rewrite H3, decide_False, H2, decide_False, H1, decide_True, Z.sub_0_r, Hrq by lia. done.
  - rewrite H3, decide_False, H2, decide_True by lia. replace (16 + q - 16) with q by lia. by rewrite Hxq.
  - rewrite H3, decide_True by lia. replace (16 * 2 + q - 16 * 2) with q by lia. by rewrite Hyq.
Qed.

(** The set at a pointer with its first words cleared. *)
Definition clear (p : option nat) (n : Z) s : st :=
  match p with
  | Some q => match fd_sets s !! q with
              | Some l => with_fd_set q (replicate (Z.to_nat (usizes n)) 0 ++ drop (Z.to_nat (usizes n)) l) s
              | None => s
              end
  | None => s
  end.

Lemma zero_fd_set_eq p n s : 0 ≤ n ≤ 1024 → valid s p → zero_fd_set p n s = Done (clear p n s, Ok tt).
Proof.
  intros Hn Hv. pose proof (usizes_bounds n Hn). unfold zero_fd_set, clear. destruct p as [q|]; [|done].
  destruct (Hv q eq_refl) as (l & -> & Hl). by rewrite (proj2 (Z.leb_le _ _)) by lia.
Qed.

Lemma member_cleared u (l : list Z) fd : (u ≤ length l)%nat → 0 ≤ fd →
  member (replicate u 0 ++ drop u l) fd = if decide (fd < 64 * Z.of_nat u) then false else member l fd.
Proof.
  intros Hu Hfd. unfold member. pose proof (Z.div_pos fd 64 Hfd ltac:(lia)). case_decide as Hlt.
  - assert (fd / 64 < Z.of_nat u) by (apply Z.div_lt_upper_bound; lia).
    rewrite lookup_app_l by (rewrite length_replicate; lia). rewrite lookup_replicate_2 by lia. apply Z.testbit_0_l.
  - assert (Z.of_nat u ≤ fd / 64) by (apply Z.div_le_lower_bound; lia).
    rewrite lookup_app_r by (rewrite length_replicate; lia). rewrite length_replicate, lookup_drop.
    by replace (u + (Z.to_nat (fd / 64) - u))%nat with (Z.to_nat (fd / 64)) by lia.
Qed.

(** In [s'] the first words of the sets [ps] of [s] are 0. *)
Record cleared (n : Z) (ps : list (option nat)) s s' : Prop := {
  cl_fds : fds s' = fds s;
  cl_sets q l : fd_sets s !! q = Some l → length l = 16%nat →
    ∃ l', fd_sets s' !! q = Some l' ∧ length l' = 16%nat ∧
      ∀ fd, 0 ≤ fd → member l' fd = if decide (Some q ∈ ps ∧ fd < 64 * usizes n) then false else member l fd;
}.

Lemma clear_cleared n p ps s s' : 0 ≤ n ≤ 1024 → cleared n ps s s' → cleared n (p :: ps) s (clear p n s').
Proof.
  intros Hn [Hf Hs]. pose proof (usizes_bounds n Hn) as (Hu & _). split.
  { rewrite <- Hf. unfold clear. by repeat case_match. }
  intros q l Hq Hl. destruct (Hs q l Hq Hl) as (l' & Hq' & Hl' & Hm). unfold clear.
  destruct (decide (p = Some q)) as [->|Hne].
  - rewrite Hq'. cbn [fd_sets with_fd_set]. rewrite lookup_insert_eq. eexists. split; [done|].
    split; [rewrite length_app, length_replicate, length_drop; lia|]. intros fd Hfd.
    rewrite member_cleared by lia. rewrite Z2Nat.id, Hm by lia. repeat case_decide; set_solver.
  - exists l'. split.
    { destruct p as [q'|]; [|done]. destruct (fd_sets s' !! q') as [l''|]; [|done]. cbn [fd_sets with_fd_set].
      by rewrite lookup_insert_ne by congruence. }
    split; [done|]. intros fd Hfd. rewrite Hm by done. repeat case_decide; set_solver.
Qed.

Lemma cleared_valid n ps s s' p : cleared n ps s s' → valid s p → valid s' p.
Proof.
  intros Hc Hv q Hq. destruct (Hv q Hq) as (l & Hl & Hlen). destruct (cl_sets _ _ _ _ Hc q l Hl Hlen) as (l' & ? & ? & _). eauto.
Qed.

Lemma cleared_nil n s : cleared n [] s s.
Proof.
  split; [done|]. intros q l Hq Hl. exists l. split_and!; [done..|]. intros fd _. case_decide; [set_solver|done].
Qed.

Definition clear_all (n : Z) s : st := clear ex n (clear wr n (clear rd n s)).

Lemma clear_all_cleared n s : 0 ≤ n ≤ 1024 → cleared n [ex; wr; rd] s (clear_all n s).
Proof.
  intros Hn. do 3 (apply clear_cleared; [done|]). apply cleared_nil.
Qed.

Lemma zero_all_eq n s : 0 ≤ n ≤ 1024 → valid s rd → valid s wr → valid s ex →
  (_ ← zero_fd_set rd n; _ ← zero_fd_set wr n; zero_fd_set ex n) s = Done (clear_all n s, Ok tt).
Proof.
  intros Hn Vr Vw Ve. unfold mbind, stm_bind. rewrite zero_fd_set_eq by done.
  pose proof (clear_cleared n rd [] s s Hn (cleared_nil n s)) as H1. pose proof (clear_cleared n wr _ s _ Hn H1) as H2.
  rewrite zero_fd_set_eq by (done || by eapply cleared_valid). by rewrite zero_fd_set_eq by (done || by eapply cleared_valid).
Qed.

(** ** The rounds of [select] *)

(** The descriptors asked for. *)
Definition wanted (n : Z) : list Z := filter (λ fd, Is_true (asked fd)) (seqZ 0 n).

(** The first [k] rounds find nothing, before the deadline; [s'] is the state
    in which the round after them starts. *)
Fixpoint idle (env : nat → st → st) (ddl : option Z) (n : Z) (k i : nat) s s' : Prop :=
  match k with
  | O => s' = s
  | S k => ∃ files w log, opens s files ∧ (∀ d, ddl = Some d → clock (world s) < d) ∧
      ask_fds files (wanted n) (world s) = Done (w, log, None) ∧ score log = 0 ∧
      idle env ddl n k (S i) (env i (with_world w s)) s'
  end.

Lemma before_deadline (ddl : option Z) s : (∀ d, ddl = Some d → clock (world s) < d) →
  match ddl with Some d => d <=? current_time clock s | None => false end = false.
Proof. intros Hd. destruct ddl as [d|]; [|done]. apply Z.leb_gt. by apply Hd. Qed.

Lemma range_1024 n : 0 ≤ n ≤ 1024 → Forall (λ fd, 0 ≤ fd < 1024) (seqZ 0 n).
Proof. intros Hn. apply Forall_forall. intros fd ?%elem_of_seqZ. lia. Qed.

Lemma idle_loop env sets ddl k : sets_of sets → ∀ i s s' fuel, idle env ddl (nfds sets) k i s s' →
  select_loop clock env sets rd wr ex ddl (k + fuel) i s = select_loop clock env sets rd wr ex ddl fuel (i + k) s'.
Proof.
  intros Hs. induction k as [|k IH]; intros i s s' fuel; cbn [idle Nat.add]; [intros ->; by rewrite Nat.add_0_r|].
  intros (files & w & log & Ho & Hd & Ha & H0 & Hi). cbn [select_loop]. rewrite before_deadline by done.
  rewrite select_poll_all_eq by done.
  rewrite (visit_all_quiet files _ s w log 0 Ho (range_1024 _ (so_nfds _ Hs)) Ha H0). rewrite Z.ltb_irrefl.
  rewrite (IH _ _ _ _ Hi). f_equal. lia.
Qed.

Lemma idle_sets env ddl n k : (∀ i s, fd_sets (env i s) = fd_sets s) → ∀ i s s',
  idle env ddl n k i s s' → fd_sets s' = fd_sets s.
Proof.
  intros He. induction k as [|k IH]; intros i s s'; cbn [idle]; [by intros ->|].
  intros (files & w & log & _ & _ & _ & _ & Hi). rewrite (IH _ _ _ Hi), He. done.
Qed.

(** The round that ends the call. *)
Lemma select_round env sets ddl files s w log e fuel i : sets_of sets → opens s files →
  valid s rd → valid s wr → valid s ex →
  (∀ d, ddl = Some d → clock (world s) < d) → ask_fds files (wanted (nfds sets)) (world s) = Done (w, log, e) →
  (e = None → score log ≠ 0) →
  ∃ s', select_loop clock env sets rd wr ex ddl (S fuel) i s =
      Some (Done (s', match e with None => Ok (score log) | Some err => Err err end)) ∧
    effect s s' w (marks log).
Proof.
  intros Hs Ho Vr Vw Ve Hd Ha H0. cbn [select_loop]. rewrite before_deadline, select_poll_all_eq by done.
  destruct (visit_all_spec files _ s w log e 0 Ho (range_1024 _ (so_nfds _ Hs)) Vr Vw Ve Ha) as (s' & Hv & He).
  exists s'. split; [|done]. rewrite Hv. destruct e as [err|]; [done|].
  rewrite Z.add_0_l. destruct (Z.ltb_spec 0 (score log)); [done|].
  specialize (H0 eq_refl). unfold score in *. lia.
Qed.

Lemma ax_select_eq env fuel n timeout s ddl :
  0 ≤ n → valid s rd → valid s wr → valid s ex →
  set_words rd s = Done rw → set_words wr s = Done ww → set_words ex s = Done ew →
  select_deadline clock timeout s = Done ddl →
  ∃ sets, sets_of sets ∧ nfds sets = Z.min n 1024 ∧
    ax_select clock env fuel n rd wr ex timeout s =
      (λ r, call_body r id) <$> select_loop clock env sets rd wr ex ddl fuel 0 (clear_all (Z.min n 1024) s).
Proof.
  intros Hn Vr Vw Ve Hr Hw He Hd.
  destruct (fd_sets_from_spec (Z.min n 1024) s ltac:(lia) Vr Vw Ve Hr Hw He) as (sets & Hfrom & Hnf & Hs).
  exists sets. split; [done|]. split; [done|]. unfold ax_select. destruct (Z.ltb_spec n 0); [lia|].
  unfold FD_SETSIZE. rewrite Hd, Hfrom, zero_all_eq by (done || lia). done.
Qed.

(** The sets of the caller in [s2]: below [n], rounded up to whole words, the
    descriptors [added]; above, what they hold in [s]. *)
Definition leaves (n : Z) s s2 (added : nat → list Z) : Prop :=
  ∀ q l, Some q ∈ [rd; wr; ex] → fd_sets s !! q = Some l → ∃ l', fd_sets s2 !! q = Some l' ∧
    ∀ fd, 0 ≤ fd → member l' fd = if decide (fd < 64 * usizes n) then bool_decide (fd ∈ added q) else member l fd.

Lemma log_asked files l : ∀ w w' log e fd r, ask_fds files l w = Done (w', log, e) → (fd, r) ∈ log → fd ∈ l.
Proof.
  induction l as [|fd' l IH]; intros w w' log e fd r Ha Hin; cbn [ask_fds] in Ha.
  { injection Ha as <- <- <-. set_solver. }
  destruct (files !! fd'); [|injection Ha as <- <- <-; set_solver].
  destruct (file_poll _ w) as [[w1 r1]|]; [|done]. destruct (ask_fds files l w1) as [[[w2 log2] e2]|] eqn:Ha2; [|done].
  injection Ha as <- <- <-. apply elem_of_cons in Hin as [[= -> ->]|Hin]; [left|right; by eapply IH].
Qed.

Lemma marks_below files n w w' log e q fd :
  ask_fds files (wanted n) w = Done (w', log, e) → fd ∈ marks log q → fd < n.
Proof.
  intros Ha Hin. assert (∃ r, (fd, r) ∈ log) as [r Hr].
  { unfold marks, hits, failures in Hin. rewrite !elem_of_app in Hin.
    destruct Hin as [Hin|[Hin|Hin]]; (case_decide; [|set_solver]); apply list_elem_of_omap in Hin as ([fd' r] & Hl & Hf);
      exists r; destruct r; repeat case_match; by simplify_eq. }
  apply (log_asked _ _ _ _ _ _ _ _ Ha) in Hr. apply list_elem_of_filter in Hr as [_ Hr]. apply elem_of_seqZ in Hr. lia.
Qed.

Lemma effect_leaves n s s' s2 w added : 0 ≤ n ≤ 1024 → valid s rd → valid s wr → valid s ex →
  fd_sets s' = fd_sets (clear_all n s) → effect s' s2 w added → (∀ q fd, fd ∈ added q → fd < n) →
  leaves n s s2 added.
Proof.
  intros Hn Vr Vw Ve Hs' Heff Hlt q l Hin Hq. pose proof (usizes_bounds n Hn) as (_ & Hu & _).
  assert (length l = 16%nat) as Hlen.
  { assert (∀ p, p = Some q → valid s p → length l = 16%nat) as Hv.
    { intros p -> Hv. destruct (Hv q eq_refl) as (l0 & Hl0 & ?). congruence. }
    rewrite !elem_of_cons in Hin. destruct Hin as [Hp|[Hp|[Hp|Hp%elem_of_nil]]]; [by eapply Hv..|done]. }
  destruct (cl_sets _ _ _ _ (clear_all_cleared n s Hn) q l Hq Hlen) as (l1 & Hl1 & _ & Hm1). rewrite <- Hs' in Hl1.
  pose proof (ef_sets _ _ _ _ Heff q) as Hs2. rewrite Hl1 in Hs2. destruct (fd_sets s2 !! q) as [l2|]; [|done].
  exists l2. split; [done|]. intros fd Hfd. rewrite (proj2 Hs2), Hm1 by done.
  destruct (decide (fd < 64 * usizes n)) as [Hb|Hb].
  - by rewrite decide_True by (split; [set_solver|done]).
  - rewrite decide_False by (by intros []). rewrite bool_decide_false; [apply orb_false_r|]. intros Ha.
    specialize (Hlt q fd Ha). lia.
Qed.

(** C25: [ax_select] asks the files of the descriptors below [nfds] in the three
    sets, round after round, until one of them is ready or the deadline is
    over, which it checks before asking.  It returns the number of answers,
    and the sets then hold exactly the descriptors that were asked for and are
    ready ([marks]: for reading and for writing, and those whose file reports
    an error); the words above [nfds] are unchanged.  It returns 0 with empty
    sets at the deadline, and -1 with [EBADF] when a descriptor asked for is
    not open. *)
Theorem select_reports env fuel n timeout s s' ddl k files w log e :
  0 ≤ n → valid s rd → valid s wr → valid s ex →
  set_words rd s = Done rw → set_words wr s = Done ww → set_words ex s = Done ew →
  select_deadline clock timeout s = Done ddl → (∀ i s, fd_sets (env i s) = fd_sets s) →
  let N := Z.min n 1024 in
  idle env ddl N k 0 (clear_all N s) s' → (k < fuel)%nat →
  opens s' files → ask_fds files (wanted N) (world s') = Done (w, log, e) →
  let run := ax_select clock env fuel n rd wr ex timeout s in
  if match ddl with Some d => d <=? clock (world s') | None => false end
  then run = Some (Done (s', 0)) ∧ leaves N s s' (λ _, [])
  else match e with
       | Some err => ∃ s2, run = Some (Done (s2, -1)) ∧ errno (fds s2) = Some err
       | None => score log ≠ 0 → ∃ s2, run = Some (Done (s2, score log)) ∧ leaves N s s2 (marks log)
       end.
Proof.
  intros Hn Vr Vw Ve Hr Hw He Hddl Henv N Hi Hk Ho Ha run.
  destruct (ax_select_eq env fuel n timeout s ddl Hn Vr Vw Ve Hr Hw He Hddl) as (sets & Hs & Hnf & Hrun).
  assert (0 ≤ N ≤ 1024) as HN by lia. pose proof (clear_all_cleared N s HN) as Hc.
  pose proof (idle_sets _ _ _ _ Henv _ _ _ Hi) as Hsets. fold N in Hnf, Hrun. unfold run. rewrite Hrun.
  replace fuel with (k + S (fuel - S k))%nat by lia. rewrite <- Hnf in Hi at 1.
  rewrite (idle_loop env sets ddl k Hs _ _ _ _ Hi). clear Hrun Hi Hk run.
  destruct (match ddl with Some d => d <=? clock (world s') | None => false end) eqn:Hdl.
  { cbn [select_loop]. change (clock (world s')) with (current_time clock s') in Hdl. rewrite Hdl. split; [done|].
    eapply effect_leaves; [done..|apply effect_same|set_solver]. }
  assert (∀ p, valid s p → valid s' p) as Hv.
  { intros p Hp. eapply cleared_valid in Hp; [|exact Hc]. unfold valid in *. by rewrite Hsets. }
  assert (∀ d, ddl = Some d → clock (world s') < d) as Hd by (intros d ->; by apply Z.leb_gt).
  pose proof (λ H0, select_round env sets ddl files s' w log e (fuel - S k) (0 + k) Hs Ho (Hv _ Vr) (Hv _ Vw) (Hv _ Ve)
    Hd (eq_trans (f_equal (λ m, ask_fds files (wanted m) _) Hnf) Ha) H0) as Hround.
  destruct e as [err|].
  - destruct (Hround ltac:(done)) as (s2 & Hloop & _). rewrite Hloop. by eexists.
  - intros H0. destruct (Hround (λ _, H0)) as (s2 & Hloop & Heff). exists s2. rewrite Hloop. split; [done|].
    eapply effect_leaves; [done..|]. intros q fd. by eapply marks_below.
Qed.

End select.

End spec.

(** A timeout of zero: the deadline is over before the first round, and no
    file is asked. *)
Theorem select_zero_timeout {B F W : Type} `{BM : Bitmap B} `{FL : FileLike F W} `{BML : !BitmapLaws B} (clock : W → Z) env fuel n rd wr ex
    (s : mpx B F W) :
  0 ≤ n → valid s rd → valid s wr → valid s ex → duration (clock (world s)) = Done (clock (world s)) →
  ax_select clock env (S fuel) n rd wr ex (Some {| tv_sec := 0; tv_usec := 0 |}) s =
    Some (Done (clear_all rd wr ex (Z.min n 1024) s, 0)).
Proof.
  intros Hn Vr Vw Ve Hd.
  assert (∀ p, valid s p → ∃ l, set_words p s = Done l) as Hw.
  { intros [q|] Hv; [|by eexists]. destruct (Hv q eq_refl) as (l & Hl & _). exists l. cbn. by rewrite Hl. }
  destruct (Hw rd Vr) as [rw Hrw], (Hw wr Vw) as [ww Hww], (Hw ex Ve) as [ew Hew].
  assert (select_deadline clock (Some {| tv_sec := 0; tv_usec := 0 |}) s = Done (Some (clock (world s)))) as Hdl.
  { unfold select_deadline. change (duration_from _) with (Done 0). cbn [mbind outcome_bind]. rewrite Z.add_0_r.
    unfold current_time. fold (world s). by rewrite Hd. }
  destruct (ax_select_eq clock rd wr ex rw ww ew env (S fuel) n _ s _ Hn Vr Vw Ve Hrw Hww Hew Hdl) as (sets & _ & _ & ->).
  cbn [select_loop]. change (current_time clock (clear_all rd wr ex (Z.min n 1024) s))
    with (clock (world (clear_all rd wr ex (Z.min n 1024) s))).
  assert (world (clear_all rd wr ex (Z.min n 1024) s) = world s) as ->.
  { unfold world. by rewrite (cl_fds _ _ _ _ (clear_all_cleared rd wr ex (Z.min n 1024) s ltac:(lia))). }
  by rewrite Z.leb_refl.
Qed.

(** A negative timeout is taken for a duration near [2 ^ 64] seconds, and the
    addition of the current time panics. *)
Theorem select_negative_timeout {B F W : Type} `{BM : Bitmap B} `{FL : FileLike F W} (clock : W → Z) env fuel n rd wr ex
    (s : mpx B F W) : 0 ≤ n → NANOS_PER_SEC ≤ clock (world s) →
  ax_select clock env fuel n rd wr ex (Some {| tv_sec := -1; tv_usec := 0 |}) s = Some Panic.
Proof.
  intros Hn Hc. unfold ax_select. destruct (Z.ltb_spec n 0); [lia|].
  assert (select_deadline clock (Some {| tv_sec := -1; tv_usec := 0 |}) s = Panic) as ->; [|done].
  unfold select_deadline. change (duration_from _) with (Done ((2 ^ 64 - 1) * NANOS_PER_SEC)).
  cbn [mbind outcome_bind]. unfold duration, current_time. fold (world s).
  destruct (Z.ltb_spec ((clock (world s) + (2 ^ 64 - 1) * NANOS_PER_SEC) / NANOS_PER_SEC) (2 ^ 64)) as [Hlt|]; [|done].
  rewrite Z.div_add in Hlt by done. assert (1 ≤ clock (world s) / NANOS_PER_SEC) by (by apply Z.div_le_lower_bound).
  lia.
Qed.

(** ** An example: a file that is always ready, and an epoll instance *)

Definition demo_files : gmap Z (file nat) := {[0 := OtherFile 5%nat; 1 := EpollFile 0]}.

Definition demo_mpx : mpx (gset Z) nat unit := {|
  fds := {| fd_table := {| objects := Some (OtherFile 5%nat) :: Some (EpollFile 0) :: replicate 1022 None;
                           id_bitmap := {[0; 1]}; count := 2 |};
            errno := None; fd_world := tt |};
  epolls := {[0%nat := [(0, {| ev_events := 5; ev_data := 42 |})]]};
  ev_buf := replicate 3 {| ev_events := 0; ev_data := 0 |};
  fd_sets := {[0%nat := 1 :: replicate 15 0]};
|}.

Lemma demo_opens : opens demo_mpx demo_files.
Proof.
  split; cbn [fd_table fds demo_mpx objects id_bitmap count].
  - done.
  - intros id Hid. assert (id = 0 ∨ id = 1) as Hi by (unfold demo_files in Hid; set_solver). unfold AX_FILE_LIMIT. lia.
  - intros id _. apply bool_decide_ext. unfold demo_files. set_solver.
  - intros id v Hv. unfold demo_files in Hv. apply lookup_insert_Some in Hv as [[<- <-]|[_ Hv]]; [done|].
    by apply lookup_singleton_Some in Hv as [<- <-].
  - done.
Qed.


Lemma epoll_ctl_updates_witness : ∃ s', ax_epoll_ctl 1 1 0 {| ev_events := 1; ev_data := 7 |} demo_mpx = Done (s', -1) ∧
  errno (fds s') = Some EEXIST ∧ epolls s' = epolls demo_mpx.
Proof.
  apply (epoll_ctl_updates demo_mpx demo_files 1 1 0 {| ev_events := 1; ev_data := 7 |} 0
    [(0, {| ev_events := 5; ev_data := 42 |})]);
    [apply demo_opens|by unfold is_cint|by unfold is_cint|done|done|repeat constructor].
Defined.

Lemma select_reports_witness : ∃ s2, ax_select (λ _, 0) (λ _ s, s) 1 1 (Some 0%nat) None None None demo_mpx =
    Some (Done (s2, 1)).
Proof.
  assert (∀ p, p = Some 0%nat ∨ p = None → valid demo_mpx p) as Hv.
  { intros p [->| ->] q [= <-]. by eexists. }
  destruct (select_reports (λ _, 0) (Some 0%nat) None None (1 :: replicate 15 0) (replicate 16 0) (replicate 16 0)
    (λ _ s, s) 1 1 None demo_mpx (clear_all (Some 0%nat) None None 1 demo_mpx) None 0 demo_files tt
    [(0, Ok {| readable := true; writable := true |})] None) as (s2 & Hrun & _); try done; try apply Hv; eauto.
  apply demo_opens.
Defined.
