(* ===== verification/Pipe.v ===== *)
(** * Pipes ([ulib/libax/src/cbindings/pipe.rs])

    The ring buffer, and the [read] and [write] methods of its two ends.  The
    buffer is behind a mutex: one round of the loop of [read] or [write] runs
    with the lock held, and between two rounds, where the lock is released,
    other threads may change the buffer and close ends.  That is the argument
    [env]: what they do before round [k]. *)

From S2P Require Import Prelude AxErrno FdTable.
From stdpp Require Import base numbers gmap list.

Open Scope Z_scope.

Inductive RingBufferStatus :=
| Full
| Empty
| Normal.

#[global] Instance RingBufferStatus_eq_dec : EqDecision RingBufferStatus.
Proof. solve_decision. Defined.

Definition RING_BUFFER_SIZE : Z := 256.

Record PipeRingBuffer := {
  arr : list Z;
  rb_head : Z;
  rb_tail : Z;
  status : RingBufferStatus;
}.

Definition rb_new : PipeRingBuffer :=
  {| arr := replicate 256 0; rb_head := 0; rb_tail := 0; status := Empty |}.

(** [arr[i] = byte] and [arr[i]], which panic out of range. *)
Definition arr_set (l : list Z) (i v : Z) : outcome (list Z) :=
  if i <? Z.of_nat (length l) then Done (<[Z.to_nat i := v]> l) else Panic.
Definition arr_get (l : list Z) (i : Z) : outcome Z := unwrap (l !! Z.to_nat i).

Definition write_byte (byte : Z) (b : PipeRingBuffer) : outcome PipeRingBuffer :=
  a ← arr_set (arr b) (rb_tail b) byte;
  let tail := (rb_tail b + 1) mod RING_BUFFER_SIZE in
  Done {| arr := a; rb_head := rb_head b; rb_tail := tail;
          status := if tail =? rb_head b then Full else Normal |}.

Definition read_byte (b : PipeRingBuffer) : outcome (Z * PipeRingBuffer) :=
  c ← arr_get (arr b) (rb_head b);
  let head := (rb_head b + 1) mod RING_BUFFER_SIZE in
  Done (c, {| arr := arr b; rb_head := head; rb_tail := rb_tail b;
              status := if head =? rb_tail b then Empty else Normal |}).

Definition available_read (b : PipeRingBuffer) : Z :=
  if bool_decide (status b = Empty) then 0
  else if rb_tail b >? rb_head b then rb_tail b - rb_head b
  else rb_tail b + RING_BUFFER_SIZE - rb_head b.

Definition available_write (b : PipeRingBuffer) : Z :=
  if bool_decide (status b = Full) then 0
  else RING_BUFFER_SIZE - available_read b.

(** The shared buffer and [Arc::strong_count] of it. *)
Record pipe_sys := {
  pbuf : PipeRingBuffer;
  strong_count : Z;
}.

Definition with_buf (s : pipe_sys) (b : PipeRingBuffer) : pipe_sys :=
  {| pbuf := b; strong_count := strong_count s |}.

(** One of the two ends. *)
Record Pipe := { pipe_is_readable : bool }.

(** [Pipe::new]: both ends share one buffer. *)
Definition pipe_new : Pipe * Pipe * pipe_sys :=
  ({| pipe_is_readable := true |}, {| pipe_is_readable := false |},
   {| pbuf := rb_new; strong_count := 2 |}).

Definition readable (p : Pipe) : bool := pipe_is_readable p.
Definition writable (p : Pipe) : bool := negb (pipe_is_readable p).
Definition write_end_close (s : pipe_sys) : bool := strong_count s =? 1.

(** How a round of a loop ends. *)
Inductive control :=
| Return
| Again.

(** [for _ in 0..loop_read]: [acc] are the bytes stored in [buf] so far. *)
Fixpoint read_bytes (n : nat) (max_len : nat) (acc : list Z) (b : PipeRingBuffer) :
    outcome (control * list Z * PipeRingBuffer) :=
  match n with
  | O => Done (Again, acc, b)
  | S n =>
      if bool_decide (length acc = max_len) then Done (Return, acc, b)
      else r ← read_byte b; read_bytes n max_len (acc ++ [r.1]) r.2
  end.

Definition read_round (max_len : nat) (acc : list Z) (s : pipe_sys) :
    outcome (control * list Z * pipe_sys) :=
  let loop_read := available_read (pbuf s) in
  if loop_read =? 0 then
    if write_end_close s then Done (Return, acc, s) else Done (Again, acc, s)
  else
    r ← read_bytes (Z.to_nat loop_read) max_len acc (pbuf s);
    Done (r.1.1, r.1.2, with_buf s r.2).

(** The loop, for at most [fuel] rounds: [true] when the call returned. *)
Fixpoint read_loop (env : nat → pipe_sys → pipe_sys) (fuel : nat) (k : nat) (max_len : nat)
    (acc : list Z) (s : pipe_sys) : outcome (bool * list Z * pipe_sys) :=
  match fuel with
  | O => Done (false, acc, s)
  | S fuel =>
      r ← read_round max_len acc s;
      match r with
      | (Return, acc, s) => Done (true, acc, s)
      | (Again, acc, s) => read_loop env fuel (S k) max_len acc (env k s)
      end
  end.

Definition pipe_read (p : Pipe) (env : nat → pipe_sys → pipe_sys) (fuel : nat) (max_len : nat)
    (s : pipe_sys) : outcome (result LinuxError (bool * list Z) * pipe_sys) :=
  if negb (readable p) then Done (Err EPERM, s)
  else r ← read_loop env fuel 0 max_len [] s; Done (Ok r.1, r.2).

(** [for _ in 0..loop_write]: [todo] is the part of [buf] not yet written. *)
Fixpoint write_bytes (n : nat) (todo : list Z) (b : PipeRingBuffer) :
    outcome (control * list Z * PipeRingBuffer) :=
  match n with
  | O => Done (Again, todo, b)
  | S n =>
      match todo with
      | [] => Done (Return, [], b)
      | x :: todo => b ← write_byte x b; write_bytes n todo b
      end
  end.

Definition write_round (todo : list Z) (s : pipe_sys) : outcome (control * list Z * pipe_sys) :=
  let loop_write := available_write (pbuf s) in
  if loop_write =? 0 then Done (Again, todo, s)
  else
    r ← write_bytes (Z.to_nat loop_write) todo (pbuf s);
    Done (r.1.1, r.1.2, with_buf s r.2).

Fixpoint write_loop (env : nat → pipe_sys → pipe_sys) (fuel : nat) (k : nat) (todo : list Z)
    (s : pipe_sys) : outcome (bool * list Z * pipe_sys) :=
  match fuel with
  | O => Done (false, todo, s)
  | S fuel =>
      r ← write_round todo s;
      match r with
      | (Return, todo, s) => Done (true, todo, s)
      | (Again, todo, s) => write_loop env fuel (S k) todo (env k s)
      end
  end.

(** Returns the bytes not written; [write_size] is the rest. *)
Definition pipe_write (p : Pipe) (env : nat → pipe_sys → pipe_sys) (fuel : nat) (buf : list Z)
    (s : pipe_sys) : outcome (result LinuxError (bool * list Z) * pipe_sys) :=
  if negb (writable p) then Done (Err EPERM, s)
  else r ← write_loop env fuel 0 buf s; Done (Ok r.1, r.2).

(** [poll]. *)
Definition pipe_poll (p : Pipe) (s : pipe_sys) : bool * bool :=
  (readable p && (0 <? available_read (pbuf s)), writable p && (0 <? available_write (pbuf s))).

(** ** The ring buffer holds a queue *)

Record rb_repr (b : PipeRingBuffer) (q : list Z) : Prop := {
  rb_len : length (arr b) = 256%nat;
  rb_head_range : 0 ≤ rb_head b < 256;
  rb_size : (length q ≤ 256)%nat;
  rb_tail_eq : rb_tail b = (rb_head b + Z.of_nat (length q)) mod 256;
  rb_status : status b =
    (if bool_decide (length q = 0%nat) then Empty
     else if bool_decide (length q = 256%nat) then Full else Normal);
  rb_bytes : ∀ i x, q !! i = Some x →
    arr b !! Z.to_nat ((rb_head b + Z.of_nat i) mod 256) = Some x;
}.

Lemma rb_tail_cases (b : PipeRingBuffer) (q : list Z) :
  rb_repr b q →
  rb_tail b = rb_head b + Z.of_nat (length q) ∧ rb_tail b < 256 ∨
  rb_tail b = rb_head b + Z.of_nat (length q) - 256 ∧ 0 ≤ rb_tail b.
Proof.
  intros [_ Hh Hs Ht _ _]. rewrite Ht.
  destruct (decide (rb_head b + Z.of_nat (length q) < 256)).
  - left. rewrite Z.mod_small by lia. lia.
  - right. rewrite <- (Z.mod_unique _ 256 1 (rb_head b + Z.of_nat (length q) - 256)) by lia. lia.
Qed.

Lemma available_read_spec (b : PipeRingBuffer) (q : list Z) :
  rb_repr b q → available_read b = Z.of_nat (length q).
Proof.
  intros Hr. pose proof (rb_tail_cases b q Hr) as Ht. destruct Hr as [_ Hh Hs _ Hst _].
  unfold available_read, RING_BUFFER_SIZE. rewrite Hst. repeat case_bool_decide; try done; try lia.
  all: destruct (Z.gtb_spec (rb_tail b) (rb_head b)); lia.
Qed.

Lemma available_write_spec (b : PipeRingBuffer) (q : list Z) :
  rb_repr b q → available_write b = 256 - Z.of_nat (length q).
Proof.
  intros Hr. unfold available_write, RING_BUFFER_SIZE. rewrite (available_read_spec b q Hr).
  destruct Hr as [_ _ _ _ Hst _]. rewrite Hst. repeat case_bool_decide; try done; lia.
Qed.

Lemma write_byte_spec (b : PipeRingBuffer) (q : list Z) (x : Z) :
  rb_repr b q → (length q < 256)%nat →
  ∃ b', write_byte x b = Done b' ∧ rb_repr b' (q ++ [x]).
Proof.
  intros Hr Hq. pose proof (rb_tail_cases b q Hr) as Ht. destruct Hr as [Hl Hh Hs Htl Hst Hb].
  unfold write_byte, arr_set, mbind, outcome_bind. rewrite Hl, (proj2 (Z.ltb_lt _ _)) by lia.
  eexists. split; [done|]. unfold RING_BUFFER_SIZE. split; simpl; rewrite ?length_app; simpl.
  - by rewrite length_insert.
  - done.
  - lia.
  - rewrite Htl, Zplus_mod_idemp_l. f_equal. lia.
  - rewrite Htl, Zplus_mod_idemp_l, bool_decide_eq_false_2 by lia.
    destruct (decide (length q = 255%nat)) as [H255|].
    + rewrite bool_decide_eq_true_2 by lia. rewrite H255.
      rewrite <- (Z.mod_unique _ 256 1 (rb_head b)) by lia. by rewrite Z.eqb_refl.
    + rewrite bool_decide_eq_false_2 by lia. rewrite (proj2 (Z.eqb_neq _ _)); [done|].
      destruct (decide (rb_head b + Z.of_nat (length q) + 1 < 256)).
      * rewrite Z.mod_small; lia.
      * rewrite <- (Z.mod_unique _ 256 1 (rb_head b + Z.of_nat (length q) + 1 - 256)); lia.
  - intros i y Hi. destruct (decide (i = length q)) as [->|Hne].
    + rewrite list_lookup_middle in Hi by done. simplify_eq. rewrite Htl.
      apply list_lookup_insert_eq. rewrite Hl.
      pose proof (Z.mod_pos_bound (rb_head b + Z.of_nat (length q)) 256). lia.
    + assert (i < length q)%nat.
      { apply lookup_lt_Some in Hi. rewrite length_app in Hi. simpl in Hi. lia. }
      rewrite lookup_app_l in Hi by done. rewrite list_lookup_insert_ne; [by apply Hb|].
      intros Heq. apply Z2Nat.inj in Heq; [|lia|apply Z.mod_pos_bound; lia].
      destruct (decide (rb_head b + Z.of_nat i < 256)).
      * rewrite Z.mod_small in Heq by lia. lia.
      * rewrite <- (Z.mod_unique _ 256 1 (rb_head b + Z.of_nat i - 256)) in Heq by lia. lia.
Qed.

Lemma read_byte_spec (b : PipeRingBuffer) (q : list Z) (x : Z) :
  rb_repr b (x :: q) → ∃ b', read_byte b = Done (x, b') ∧ rb_repr b' q.
Proof.
  intros [Hl Hh Hs Htl Hst Hb]. unfold read_byte, arr_get, mbind, outcome_bind.
  pose proof (Hb 0%nat x eq_refl) as H0. rewrite Z.add_0_r, Z.mod_small in H0 by lia.
  rewrite H0. simpl. eexists. split; [done|]. unfold RING_BUFFER_SIZE. simpl in *.
  split; simpl; try done.
  - apply Z.mod_pos_bound. lia.
  - lia.
  - rewrite Htl, Zplus_mod_idemp_l. f_equal. lia.
  - rewrite Htl. destruct (decide (length q = 0%nat)) as [H00|Hn0].
    + rewrite H00. change (Z.of_nat 1) with 1. by rewrite Z.eqb_refl.
    + rewrite bool_decide_eq_false_2, bool_decide_eq_false_2 by lia.
      rewrite (proj2 (Z.eqb_neq _ _)); [done|]. intros Heq.
      destruct (decide (rb_head b + Z.of_nat (S (length q)) < 256)).
      * rewrite !Z.mod_small in Heq by lia. lia.
      * rewrite <- (Z.mod_unique (rb_head b + Z.of_nat (S (length q))) 256 1
          (rb_head b + Z.of_nat (S (length q)) - 256)) in Heq by lia.
        destruct (decide (rb_head b = 255)) as [E|];
          [rewrite <- (Z.mod_unique (rb_head b + 1) 256 1 0) in Heq by lia; lia|].
        rewrite Z.mod_small in Heq by lia. lia.
  - intros i y Hi. rewrite Zplus_mod_idemp_l.
    replace (rb_head b + 1 + Z.of_nat i) with (rb_head b + Z.of_nat (S i)) by lia.
    by apply (Hb (S i)).
Qed.

(** ** The loops *)

(** A round of the [for] loop of [read] moves bytes from the queue to [acc]. *)
Lemma read_bytes_spec (max_len n : nat) : ∀ acc b q,
  rb_repr b q → (n ≤ length q)%nat → (length acc ≤ max_len)%nat →
  ∃ b', let k := Nat.min n (max_len - length acc) in
    read_bytes n max_len acc b =
      Done (if bool_decide (k < n)%nat then Return else Again, acc ++ take k q, b') ∧
    rb_repr b' (drop k q).
Proof.
  induction n as [|n IH]; intros acc b q Hr Hn Hacc; cbn [read_bytes].
  { exists b. simpl. by rewrite app_nil_r. }
  case_bool_decide as Hfull.
  { exists b. rewrite Hfull, Nat.sub_diag, Nat.min_0_r, bool_decide_eq_true_2 by lia.
    by rewrite take_0, app_nil_r, drop_0. }
  destruct q as [|x q]; [simpl in Hn; lia|].
  destruct (read_byte_spec b q x Hr) as (b1 & Hrun & Hr1).
  unfold mbind, outcome_bind. rewrite Hrun. simpl in *.
  destruct (IH (acc ++ [x]) b1 q Hr1) as (b2 & Hrun2 & Hr2); [lia|rewrite length_app; simpl; lia|].
  rewrite length_app in Hrun2, Hr2. simpl in Hrun2, Hr2.
  replace (max_len - (length acc + 1))%nat with (max_len - length acc - 1)%nat in * by lia.
  destruct (max_len - length acc)%nat as [|r] eqn:Hm; [lia|]. simpl.
  replace (S r - 1)%nat with r in * by lia. exists b2.
  rewrite Hrun2, <- app_assoc. simpl. split; [|done]. repeat f_equal.
  by repeat case_bool_decide; try lia.
Qed.

Lemma read_round_spec (max_len : nat) (acc : list Z) (s : pipe_sys) (q : list Z) :
  rb_repr (pbuf s) q → (length acc ≤ max_len)%nat →
  ∃ c s', let k := Nat.min (length q) (max_len - length acc) in
    read_round max_len acc s = Done (c, acc ++ take k q, s') ∧
    rb_repr (pbuf s') (drop k q) ∧ strong_count s' = strong_count s ∧
    (c = Return ↔ (k < length q)%nat ∨ (q = [] ∧ strong_count s = 1)).
Proof.
  intros Hr Hacc. unfold read_round. rewrite (available_read_spec _ q Hr).
  destruct q as [|x q']; simpl length.
  { simpl. unfold write_end_close. destruct (Z.eqb_spec (strong_count s) 1).
    - exists Return, s. rewrite app_nil_r. split_and!; try done. split; [by right|done].
    - exists Again, s. rewrite app_nil_r. split_and!; try done.
      split; [done|]. intros [?|[_ ?]]; [lia|done]. }
  rewrite (proj2 (Z.eqb_neq _ _)) by lia. set (q := x :: q') in *.
  destruct (read_bytes_spec max_len (length q) acc (pbuf s) q Hr) as (b & Hrun & Hb); [lia..|].
  change (S (length q')) with (length q). rewrite Nat2Z.id.
  unfold mbind, outcome_bind. rewrite Hrun. cbn [fst snd]. eexists _, _. split; [done|].
  split; [done|]. split; [done|]. case_bool_decide as Hk.
  - split; [by left|done].
  - split; [done|]. intros [?|[? _]]; done.
Qed.

(** Other threads only append: the bytes [w k] arrive before round [k + 1]. *)
Definition appends (env : nat → pipe_sys → pipe_sys) (w : nat → list Z) : Prop :=
  ∀ k s q, rb_repr (pbuf s) q → rb_repr (pbuf (env k s)) (q ++ w k).

Lemma read_loop_prefix (env : nat → pipe_sys → pipe_sys) (w : nat → list Z) (max_len : nat) :
  appends env w → ∀ fuel k acc s q,
  rb_repr (pbuf s) q → (length acc ≤ max_len)%nat →
  ∃ ret acc' s' n, read_loop env fuel k max_len acc s = Done (ret, acc', s') ∧
    (length acc' ≤ max_len)%nat ∧
    acc' `prefix_of` acc ++ q ++ mjoin (w <$> seq k n).
Proof.
  intros Henv. induction fuel as [|fuel IH]; intros k acc s q Hr Hacc; simpl.
  { exists false, acc, s, 0%nat. split_and!; [done..|]. by eexists. }
  destruct (read_round_spec max_len acc s q Hr Hacc) as (c & s1 & Hrun & Hr1 & _ & _).
  set (j := Nat.min (length q) (max_len - length acc)) in *.
  assert (length (acc ++ take j q) ≤ max_len)%nat as Hacc1
    by (rewrite length_app, length_take; lia).
  unfold mbind, outcome_bind. rewrite Hrun. destruct c.
  - exists true, (acc ++ take j q), s1, 0%nat. split_and!; [done..|].
    exists (drop j q). simpl. by rewrite app_nil_r, <- app_assoc, take_drop.
  - destruct (IH (S k) (acc ++ take j q) (env k s1) (drop j q ++ w k)) as
      (ret & acc' & s' & n & Hrun' & Hlen & Hpre); [by apply Henv|done|].
    exists ret, acc', s', (S n). split_and!; [done..|]. simpl.
    rewrite <- !app_assoc in Hpre. by rewrite (app_assoc (take j q)), take_drop in Hpre.
Qed.

(** With nothing left to transfer and no change by others, a round changes
    nothing. *)
Lemma read_loop_stuck (fuel : nat) : ∀ k max_len acc s,
  rb_repr (pbuf s) [] → strong_count s ≠ 1 →
  read_loop (λ _ s, s) fuel k max_len acc s = Done (false, acc, s).
Proof.
  induction fuel as [|fuel IH]; intros k max_len acc s Hr Hc; simpl; [done|].
  unfold read_round. rewrite (available_read_spec _ [] Hr). simpl.
  unfold write_end_close. rewrite (proj2 (Z.eqb_neq _ _) Hc). by apply IH.
Qed.

Lemma write_loop_stuck (fuel : nat) : ∀ k todo s q,
  rb_repr (pbuf s) q → length q = 256%nat →
  write_loop (λ _ s, s) fuel k todo s = Done (false, todo, s).
Proof.
  induction fuel as [|fuel IH]; intros k todo s q Hr Hq; simpl; [done|].
  unfold write_round. rewrite (available_write_spec _ q Hr), Hq. simpl. by apply (IH _ _ _ q).
Qed.

Lemma write_bytes_spec (n : nat) : ∀ todo b q,
  rb_repr b q → (length q + n ≤ 256)%nat →
  ∃ b', write_bytes n todo b =
      Done (if bool_decide (length todo < n)%nat then Return else Again, drop n todo, b') ∧
    rb_repr b' (q ++ take n todo).
Proof.
  induction n as [|n IH]; intros todo b q Hr Hn; cbn [write_bytes].
  { exists b. rewrite bool_decide_eq_false_2 by lia. by rewrite take_0, app_nil_r, drop_0. }
  destruct todo as [|x todo].
  { exists b. rewrite bool_decide_eq_true_2 by (simpl; lia). by rewrite app_nil_r. }
  destruct (write_byte_spec b q x Hr) as (b1 & Hrun & Hr1); [lia|].
  unfold mbind, outcome_bind. rewrite Hrun.
  destruct (IH todo b1 (q ++ [x]) Hr1) as (b2 & -> & Hr2); [rewrite length_app; simpl; lia|].
  exists b2. rewrite <- app_assoc in Hr2. split; [|done]. simpl. repeat f_equal.
  by repeat case_bool_decide; try lia.
Qed.

(** ** Properties *)

(** The ring buffer is a bounded first-in-first-out queue of 256 bytes.
    With [rb_repr b q], the two counters report the length of the queue and
    the space left, [write_byte] on a queue that is not full appends, and
    [read_byte] on a queue that is not empty takes the oldest byte; neither
    panics. *)
Theorem ring_buffer_refines (b : PipeRingBuffer) (q : list Z) (x : Z) :
  rb_repr b q →
  available_read b = Z.of_nat (length q) ∧
  available_write b = 256 - Z.of_nat (length q) ∧
  ((length q < 256)%nat → ∃ b', write_byte x b = Done b' ∧ rb_repr b' (q ++ [x])) ∧
  (∀ y q', q = y :: q' → ∃ b', read_byte b = Done (y, b') ∧ rb_repr b' q').
Proof.
  intros Hr. split_and!.
  - by apply available_read_spec.
  - by apply available_write_spec.
  - by apply write_byte_spec.
  - intros y q' ->. by apply read_byte_spec.
Qed.

Lemma rb_new_repr : rb_repr rb_new [].
Proof. split; simpl; try done; lia. Qed.

Lemma ring_buffer_refines_witness : available_read rb_new = 0.
Proof. apply (ring_buffer_refines rb_new [] 7). apply rb_new_repr. Defined.

(** Whatever other writers append meanwhile, a [read] on the read end
    stores at most the bytes asked for, and they are the first bytes of the
    stream: what was in the pipe followed by what arrived, in order, with
    nothing skipped or repeated.  The write end refuses to read. *)
Theorem pipe_read_in_order (env : nat → pipe_sys → pipe_sys) (w : nat → list Z) (p : Pipe)
    (fuel max_len : nat) (s : pipe_sys) (q : list Z) :
  appends env w → rb_repr (pbuf s) q →
  if readable p then
    ∃ ret acc s' n, pipe_read p env fuel max_len s = Done (Ok (ret, acc), s') ∧
      (length acc ≤ max_len)%nat ∧ acc `prefix_of` q ++ mjoin (w <$> seq 0 n)
  else pipe_read p env fuel max_len s = Done (Err EPERM, s).
Proof.
  intros Henv Hr. unfold pipe_read. destruct (readable p); simpl; [|done].
  destruct (read_loop_prefix env w max_len Henv fuel 0 [] s q Hr) as
    (ret & acc & s' & n & Hrun & Hlen & Hpre); [simpl; lia|].
  unfold mbind, outcome_bind. rewrite Hrun. by exists ret, acc, s', n.
Qed.

Lemma pipe_read_in_order_witness :
  ∃ ret acc s' n, pipe_read {| pipe_is_readable := true |} (λ _ s, s) 3 5
      {| pbuf := rb_new; strong_count := 2 |} = Done (Ok (ret, acc), s') ∧
    (length acc ≤ 5)%nat ∧ acc `prefix_of` [] ++ mjoin ((λ _, []) <$> seq 0 n).
Proof.
  apply (pipe_read_in_order (λ _ s, s) (λ _, []) {| pipe_is_readable := true |}).
  - intros k s q Hq. by rewrite app_nil_r.
  - apply rb_new_repr.
Defined.

(** When a [read] returns.  If the pipe holds more bytes than asked for,
    the first round returns them; if the write end is closed, two rounds are
    enough and return all there is, up to the size asked for. *)
Theorem pipe_read_returns (max_len : nat) (s : pipe_sys) (q : list Z)
    (env : nat → pipe_sys → pipe_sys) :
  rb_repr (pbuf s) q →
  ((max_len < length q)%nat →
     ∃ s', read_loop env 1 0 max_len [] s = Done (true, take max_len q, s') ∧
       rb_repr (pbuf s') (drop max_len q)) ∧
  (strong_count s = 1 → (length q ≤ max_len)%nat →
     ∃ s', read_loop (λ _ s, s) 2 0 max_len [] s = Done (true, q, s') ∧ rb_repr (pbuf s') []).
Proof.
  intros Hr. destruct (read_round_spec max_len [] s q Hr) as (c & s1 & Hrun & Hr1 & Hsc & Hc);
    [simpl; lia|]. simpl in *. rewrite Nat.sub_0_r in *. split.
  - intros Hlt. rewrite Nat.min_r in * by lia.
    assert (c = Return) as -> by (apply Hc; left; lia).
    unfold mbind, outcome_bind. rewrite Hrun. by exists s1.
  - intros H1 Hle. rewrite Nat.min_l in * by lia. rewrite take_ge, drop_ge in * by lia.
    unfold mbind, outcome_bind. rewrite Hrun. destruct c; [by exists s1|].
    destruct (read_round_spec max_len q s1 [] Hr1 Hle) as (c2 & s2 & Hrun2 & Hr2 & _ & Hc2).
    simpl in *. rewrite app_nil_r in Hrun2. rewrite Hrun2.
    assert (c2 = Return) as -> by (apply Hc2; right; split; [done|congruence]). by exists s2.
Qed.

Lemma pipe_read_returns_witness :
  ∃ s', read_loop (λ _ s, s) 2 0 5 [] {| pbuf := rb_new; strong_count := 1 |} = Done (true, [], s') ∧
    rb_repr (pbuf s') [].
Proof.
  apply (pipe_read_returns 5 {| pbuf := rb_new; strong_count := 1 |} [] (λ _ s, s));
    [apply rb_new_repr|done|simpl; lia].
Defined.

(** A [read] that asks for exactly the bytes in the pipe, and a [write] that
    exactly fills it, do not return although their work is done: as long as
    nobody else touches the pipe they loop for any number of rounds, holding
    all the bytes asked for, respectively having written every byte. *)
Theorem pipe_exact_transfer_blocks (s : pipe_sys) (q buf : list Z) (fuel : nat) :
  rb_repr (pbuf s) q → strong_count s ≠ 1 → q ≠ [] →
  (length q + length buf = 256)%nat → buf ≠ [] →
  (∃ s', read_loop (λ _ s, s) (S fuel) 0 (length q) [] s = Done (false, q, s')) ∧
  (∃ s', write_loop (λ _ s, s) (S fuel) 0 buf s = Done (false, [], s')).
Proof.
  intros Hr Hsc Hq Hfill Hbuf. split.
  - destruct (read_round_spec (length q) [] s q Hr) as (c & s1 & Hrun & Hr1 & Hsc1 & Hc);
      [simpl; lia|]. simpl in *. rewrite Nat.sub_0_r, Nat.min_id in *.
    rewrite take_ge, drop_ge in * by lia. unfold mbind, outcome_bind. rewrite Hrun.
    destruct c; [destruct (proj1 Hc eq_refl) as [?|[? _]]; [lia|done]|].
    exists s1. apply read_loop_stuck; [done|congruence].
  - destruct (write_bytes_spec (length buf) buf (pbuf s) q Hr) as (b & Hrun & Hb); [lia|].
    rewrite drop_ge, take_ge in * by lia. rewrite bool_decide_eq_false_2 in Hrun by lia.
    simpl. unfold mbind, outcome_bind, write_round. rewrite (available_write_spec _ q Hr).
    assert (length buf ≠ 0)%nat by by destruct buf.
    rewrite (proj2 (Z.eqb_neq _ _)) by lia.
    replace (Z.to_nat (256 - Z.of_nat (length q))) with (length buf) by lia.
    unfold mbind, outcome_bind. rewrite Hrun. simpl. eexists.
    apply (write_loop_stuck fuel _ _ _ (q ++ buf)); [done|rewrite length_app; lia].
Qed.

Definition demo_pipe : pipe_sys :=
  match write_byte 7 rb_new with
  | Done b => {| pbuf := b; strong_count := 2 |}
  | Panic => {| pbuf := rb_new; strong_count := 2 |}
  end.

Lemma demo_pipe_repr : rb_repr (pbuf demo_pipe) [7].
Proof.
  destruct (write_byte_spec rb_new [] 7 rb_new_repr) as (b & Hrun & Hb); [simpl; lia|].
  unfold demo_pipe. by rewrite Hrun.
Qed.

Lemma pipe_exact_transfer_blocks_witness :
  ∃ s', read_loop (λ _ s, s) 10 0 1 [] demo_pipe = Done (false, [7], s').
Proof.
  apply (pipe_exact_transfer_blocks demo_pipe [7] (replicate 255 0) 9);
    [apply demo_pipe_repr|done..].
Defined.
