(* ===== verification/Allocator.v ===== *)
(** * The allocators ([crates/allocator], [crates/slab_allocator])

    The bitmap page allocator over the external crate [bitmap_allocator], the
    slab heap over the external buddy allocator [buddy_system_allocator], and
    the byte allocators that wrap them.  The free blocks of a slab are chained
    through their own memory: the store [blkmem] maps a block address to the
    [next] field found there, and whoever holds a block may overwrite it.

    The theorems show that the blocks handed out and not yet returned never
    overlap, are large enough and aligned, whatever the history of calls. *)

From S2P Require Import Prelude MemoryAddr.
From stdpp Require Import base numbers sets gmap functions list.

Open Scope Z_scope.
Open Scope word_scope.

(** ** Errors and layouts *)

Inductive AllocError :=
| AE_InvalidParam
| AE_MemoryOverlap
| AE_NoMemory
| AE_NotAllocated.

(** [usize::is_power_of_two]. *)
Definition is_power_of_two (x : Z) : bool := (0 <? x) && (2 ^ Z.log2 x =? x).

(** [core::alloc::Layout]. *)
Record Layout := { lay_size : Z; lay_align : Z }.

(** [Layout::from_size_align]: the alignment is a power of two and the size,
    rounded up to it, does not exceed [isize::MAX]. *)
Definition from_size_align (size align : Z) : option Layout :=
  if is_power_of_two align && (size <=? 2 ^ 63 - 1 - (align - 1))
  then Some {| lay_size := size; lay_align := align |} else None.

(** ** The bitmap page allocator ([bitmap.rs]) *)

(** The interface of [bitmap_allocator::BitAlloc]; the second argument of
    [ba_alloc_contiguous] is the alignment the caller passes. *)
Class BitAlloc (A : Type) := {
  ba_default : A;
  ba_insert : Z → Z → A → outcome A;
  ba_alloc : A → option Z * A;
  ba_alloc_contiguous : Z → Z → A → option Z * A;
  ba_dealloc : Z → A → outcome A;
}.

(** The integers of the range [lo..hi]. *)
Definition zrange (lo hi : Z) : gset Z := list_to_set (seqZ lo (hi - lo)).

(** [BitAlloc1M] holds one bit for each of [CAP] numbers. *)
Definition CAP : Z := 0x100000.

(** What is relied on: [free a] are the bits that can be allocated. *)
Class BitAllocLaws {A} (BA : BitAlloc A) (free : A → gset Z) : Prop := {
  law_default : free ba_default = ∅;
  law_insert lo hi a :
    0 ≤ lo ≤ hi → hi ≤ CAP →
    ∃ a', ba_insert lo hi a = Done a' ∧ free a' = zrange lo hi ∪ free a;
  law_alloc a :
    match ba_alloc a with
    | (Some i, a') => i ∈ free a ∧ free a' = free a ∖ {[i]}
    | (None, a') => free a = ∅ ∧ free a' = ∅
    end;
  law_alloc_contiguous n align a :
    0 < n →
    match ba_alloc_contiguous n align a with
    | (Some i, a') => zrange i (i + n) ⊆ free a ∧ free a' = free a ∖ zrange i (i + n)
    | (None, a') => free a' = free a
    end;
  law_ba_dealloc i a :
    0 ≤ i < CAP → i ∉ free a → ∃ a', ba_dealloc i a = Done a' ∧ free a' = {[i]} ∪ free a;
}.

Record BitmapPageAllocator (A : Type) := {
  pa_base : Z;
  pa_total_pages : Z;
  pa_used_pages : Z;
  pa_inner : A;
}.
Arguments pa_base {A} _.
Arguments pa_total_pages {A} _.
Arguments pa_used_pages {A} _.
Arguments pa_inner {A} _.

Section page_allocator.
Context {A : Type} `{BA : !BitAlloc A} (PAGE_SIZE : Z).

Definition pa_new : BitmapPageAllocator A :=
  {| pa_base := 0; pa_total_pages := 0; pa_used_pages := 0; pa_inner := ba_default |}.

Definition pa_init (start size : Z) (p : BitmapPageAllocator A) : outcome (BitmapPageAllocator A) :=
  _ ← assert_true (is_power_of_two PAGE_SIZE);
  let end_ := align_down (start ⊕ size) PAGE_SIZE in
  let start := align_up start PAGE_SIZE in
  let total := (end_ ⊖ start) `div` PAGE_SIZE in
  inner ← ba_insert 0 total (pa_inner p);
  Done {| pa_base := start; pa_total_pages := total;
          pa_used_pages := pa_used_pages p; pa_inner := inner |}.

Definition pa_add_memory (_start _size : Z) (p : BitmapPageAllocator A)
    : result AllocError unit * BitmapPageAllocator A := (Err AE_NoMemory, p).

Definition pa_took (num_pages : Z) (r : option Z * A) (p : BitmapPageAllocator A)
    : result AllocError Z * BitmapPageAllocator A :=
  match r.1 with
  | Some idx =>
      (Ok (idx ⊗ PAGE_SIZE ⊕ pa_base p),
       {| pa_base := pa_base p; pa_total_pages := pa_total_pages p;
          pa_used_pages := pa_used_pages p ⊕ num_pages; pa_inner := r.2 |})
  | None =>
      (Err AE_NoMemory,
       {| pa_base := pa_base p; pa_total_pages := pa_total_pages p;
          pa_used_pages := pa_used_pages p; pa_inner := r.2 |})
  end.

Definition pa_alloc_pages (num_pages align_pow2 : Z) (p : BitmapPageAllocator A)
    : result AllocError Z * BitmapPageAllocator A :=
  if negb (align_pow2 mod PAGE_SIZE =? 0) || negb (is_power_of_two align_pow2)
  then (Err AE_InvalidParam, p)
  else match num_pages ?= 1 with
       | Eq => pa_took num_pages (ba_alloc (pa_inner p)) p
       | Gt => pa_took num_pages
                 (ba_alloc_contiguous num_pages (align_pow2 `div` PAGE_SIZE) (pa_inner p)) p
       | Lt => (Err AE_InvalidParam, p)
       end.

Definition pa_dealloc_pages (pos num_pages : Z) (p : BitmapPageAllocator A)
    : outcome (BitmapPageAllocator A) :=
  inner ← ba_dealloc ((pos ⊖ pa_base p) `div` PAGE_SIZE) (pa_inner p);
  Done {| pa_base := pa_base p; pa_total_pages := pa_total_pages p;
          pa_used_pages := pa_used_pages p ⊖ num_pages; pa_inner := inner |}.

Definition pa_available_pages (p : BitmapPageAllocator A) : Z :=
  pa_total_pages p ⊖ pa_used_pages p.

End page_allocator.

(** ** The slab heap ([slab_allocator]) *)

(** The interface of [buddy_system_allocator::Heap<32>]. *)
Class BuddyHeap (B : Type) := {
  bh_new : B;
  bh_init : Z → Z → B → B;
  bh_add_to_heap : Z → Z → B → B;
  bh_alloc : Layout → B → option Z * B;
  bh_dealloc : Z → Layout → B → B;
  bh_stats_total_bytes : B → Z;
  bh_stats_alloc_actual : B → Z;
}.

(** A region of memory is its first address and its length. *)
Abbreviation region := (Z * Z)%type (only parsing).

Definition rdisj (r s : region) : Prop := r.1 + r.2 ≤ s.1 ∨ s.1 + s.2 ≤ r.1.
Definition rsub (r s : region) : Prop := s.1 ≤ r.1 ∧ r.1 + r.2 ≤ s.1 + s.2.

(** What is relied on: [managed b] are the regions given to the heap, [owned
    b] the blocks it has handed out and not got back. *)
Class BuddyHeapLaws {B} (BH : BuddyHeap B) (ok : B → Prop)
    (managed owned : B → list region) : Prop := {
  law_bh_init start size :
    0 < start → 0 ≤ size → start + size ≤ 2 ^ 64 →
    let b := bh_init start size bh_new in
    ok b ∧ managed b = [(start, size)] ∧ owned b = [];
  law_bh_add lo hi b :
    ok b → 0 < lo ≤ hi → hi ≤ 2 ^ 64 → Forall (rdisj (lo, hi - lo)) (managed b) →
    let b' := bh_add_to_heap lo hi b in
    ok b' ∧ managed b' ≡ₚ (lo, hi - lo) :: managed b ∧ owned b' ≡ₚ owned b;
  law_bh_alloc l b :
    ok b → is_power_of_two (lay_align l) = true → 0 ≤ lay_size l →
    match bh_alloc l b with
    | (Some p, b') =>
        ok b' ∧ managed b' ≡ₚ managed b ∧ owned b' ≡ₚ (p, lay_size l) :: owned b ∧
        Forall (rdisj (p, lay_size l)) (owned b) ∧
        0 < p ∧ p + lay_size l ≤ 2 ^ 64 ∧ (lay_align l | p)
    | (None, b') => ok b' ∧ managed b' ≡ₚ managed b ∧ owned b' ≡ₚ owned b
    end;
  law_bh_dealloc p l b rest :
    ok b → owned b ≡ₚ (p, lay_size l) :: rest →
    let b' := bh_dealloc p l b in
    ok b' ∧ managed b' ≡ₚ managed b ∧ owned b' ≡ₚ rest;
  law_bh_inside b r : ok b → r ∈ owned b → ∃ s, s ∈ managed b ∧ rsub r s;
}.

(** The [next] fields of the free blocks, by block address. *)
Abbreviation blkmem := (Z → option Z) (only parsing).

Definition SET_SIZE : Z := 64.
Definition MIN_HEAP_SIZE : Z := 0x8000.

Record FreeBlockList := { fbl_len : Z; fbl_head : option Z }.

Definition fbl_new_empty : FreeBlockList := {| fbl_len := 0; fbl_head := None |}.

(** [pop] takes the [next] field out of the block, leaving [None]. *)
Definition fbl_pop (l : FreeBlockList) (m : blkmem) : option Z * FreeBlockList * blkmem :=
  match fbl_head l with
  | None => (None, l, m)
  | Some node => (Some node, {| fbl_len := fbl_len l ⊖ 1; fbl_head := m node |}, <[node := None]> m)
  end.

Definition fbl_push (b : Z) (l : FreeBlockList) (m : blkmem) : FreeBlockList * blkmem :=
  ({| fbl_len := fbl_len l ⊕ 1; fbl_head := Some b |}, <[b := fbl_head l]> m).

Definition fbl_is_empty (l : FreeBlockList) : bool := bool_decide (fbl_head l = None).

Fixpoint fbl_push_all (bs : list Z) (l : FreeBlockList) (m : blkmem) : FreeBlockList * blkmem :=
  match bs with
  | [] => (l, m)
  | b :: bs => let '(l, m) := fbl_push b l m in fbl_push_all bs l m
  end.

(** [new]: the blocks are pushed from the last one to the first. *)
Definition fbl_new (start_addr block_size num_of_blocks : Z) (m : blkmem)
    : FreeBlockList * blkmem :=
  fbl_push_all ((λ i, start_addr ⊕ i ⊗ block_size) <$> reverse (seqZ 0 num_of_blocks))
    fbl_new_empty m.

(** [drop]: pops until the list is empty. *)
Fixpoint fbl_drop (fuel : nat) (l : FreeBlockList) (m : blkmem) : outcome blkmem :=
  match fuel with
  | O => Panic
  | S fuel =>
      match fbl_pop l m with
      | (None, _, m) => Done m
      | (Some _, l, m) => fbl_drop fuel l m
      end
  end.

Record Slab := { free_block_list : FreeBlockList; total_blocks : Z }.

Definition slab_new (BLK_SIZE start_addr slab_size : Z) (m : blkmem) : Slab * blkmem :=
  let num_of_blocks := slab_size `div` BLK_SIZE in
  let '(l, m) := fbl_new start_addr BLK_SIZE num_of_blocks m in
  ({| free_block_list := l; total_blocks := num_of_blocks |}, m).

Definition used_blocks (s : Slab) : Z := total_blocks s ⊖ fbl_len (free_block_list s).

(** The loop of [grow], which moves every block of the new list. *)
Fixpoint fbl_move (fuel : nat) (src dst : FreeBlockList) (m : blkmem)
    : outcome (FreeBlockList * FreeBlockList * blkmem) :=
  match fuel with
  | O => Panic
  | S fuel =>
      match fbl_pop src m with
      | (None, src, m) => Done (src, dst, m)
      | (Some block, src, m) => let '(dst, m) := fbl_push block dst m in fbl_move fuel src dst m
      end
  end.

(** [grow]; the loops run once per new block, so that [num_of_blocks + 1]
    rounds are enough.  The emptied list is dropped at the end. *)
Definition slab_grow (BLK_SIZE start_addr slab_size : Z) (s : Slab) (m : blkmem)
    : outcome (Slab * blkmem) :=
  let num_of_blocks := slab_size `div` BLK_SIZE in
  let fuel := S (Z.to_nat num_of_blocks) in
  let '(block_list, m) := fbl_new start_addr BLK_SIZE num_of_blocks m in
  '(block_list, l, m) ← fbl_move fuel block_list (free_block_list s) m;
  m ← fbl_drop fuel block_list m;
  Done ({| free_block_list := l; total_blocks := total_blocks s ⊕ num_of_blocks |}, m).

Definition slab_deallocate (ptr : Z) (s : Slab) (m : blkmem) : Slab * blkmem :=
  let '(l, m) := fbl_push ptr (free_block_list s) m in
  ({| free_block_list := l; total_blocks := total_blocks s |}, m).

Inductive HeapAllocator :=
| Slab64Bytes
| Slab128Bytes
| Slab256Bytes
| Slab512Bytes
| Slab1024Bytes
| Slab2048Bytes
| Slab4096Bytes
| BuddyAllocator.

#[global] Instance HeapAllocator_eq_dec : EqDecision HeapAllocator.
Proof. solve_decision. Defined.

Definition layout_to_allocator (layout : Layout) : HeapAllocator :=
  if lay_size layout >? 4096 then BuddyAllocator
  else if (lay_size layout <=? 64) && (lay_align layout <=? 64) then Slab64Bytes
  else if (lay_size layout <=? 128) && (lay_align layout <=? 128) then Slab128Bytes
  else if (lay_size layout <=? 256) && (lay_align layout <=? 256) then Slab256Bytes
  else if (lay_size layout <=? 512) && (lay_align layout <=? 512) then Slab512Bytes
  else if (lay_size layout <=? 1024) && (lay_align layout <=? 1024) then Slab1024Bytes
  else if (lay_size layout <=? 2048) && (lay_align layout <=? 2048) then Slab2048Bytes
  else Slab4096Bytes.

Definition usable_size (layout : Layout) : Z * Z :=
  match layout_to_allocator layout with
  | Slab64Bytes => (lay_size layout, 64)
  | Slab128Bytes => (lay_size layout, 128)
  | Slab256Bytes => (lay_size layout, 256)
  | Slab512Bytes => (lay_size layout, 512)
  | Slab1024Bytes => (lay_size layout, 1024)
  | Slab2048Bytes => (lay_size layout, 2048)
  | Slab4096Bytes => (lay_size layout, 4096)
  | BuddyAllocator => (lay_size layout, lay_size layout)
  end.

Record Heap (B : Type) := {
  slab_64_bytes : Slab;
  slab_128_bytes : Slab;
  slab_256_bytes : Slab;
  slab_512_bytes : Slab;
  slab_1024_bytes : Slab;
  slab_2048_bytes : Slab;
  slab_4096_bytes : Slab;
  buddy_allocator : B;
}.
Arguments slab_64_bytes {B} _.
Arguments slab_128_bytes {B} _.
Arguments slab_256_bytes {B} _.
Arguments slab_512_bytes {B} _.
Arguments slab_1024_bytes {B} _.
Arguments slab_2048_bytes {B} _.
Arguments slab_4096_bytes {B} _.
Arguments buddy_allocator {B} _.

Section heap.
Context {B : Type} `{BH : !BuddyHeap B}.

Definition slab_allocate (BLK_SIZE : Z) (_layout : Layout) (s : Slab) (buddy : B) (m : blkmem)
    : outcome (result unit Z * Slab * B * blkmem) :=
  match fbl_pop (free_block_list s) m with
  | (Some block, l, m) =>
      Done (Ok block, {| free_block_list := l; total_blocks := total_blocks s |}, buddy, m)
  | (None, _, m) =>
      let layout := {| lay_size := SET_SIZE * BLK_SIZE; lay_align := 4096 |} in
      match bh_alloc layout buddy with
      | (Some ptr, buddy) =>
          '(s, m) ← slab_grow BLK_SIZE ptr (SET_SIZE * BLK_SIZE) s m;
          match fbl_pop (free_block_list s) m with
          | (Some block, l, m) =>
              Done (Ok block, {| free_block_list := l; total_blocks := total_blocks s |}, buddy, m)
          | (None, _, _) => Panic
          end
      | (None, buddy) => Done (Err tt, s, buddy, m)
      end
  end.

(** The fields of the heap by allocator; [BuddyAllocator] has no slab. *)
Definition slab_of (c : HeapAllocator) (h : Heap B) : option Slab :=
  match c with
  | Slab64Bytes => Some (slab_64_bytes h)
  | Slab128Bytes => Some (slab_128_bytes h)
  | Slab256Bytes => Some (slab_256_bytes h)
  | Slab512Bytes => Some (slab_512_bytes h)
  | Slab1024Bytes => Some (slab_1024_bytes h)
  | Slab2048Bytes => Some (slab_2048_bytes h)
  | Slab4096Bytes => Some (slab_4096_bytes h)
  | BuddyAllocator => None
  end.

Definition with_slab (c : HeapAllocator) (s : Slab) (h : Heap B) : Heap B :=
  let pick c' s' := if decide (c = c') then s else s' in
  {| slab_64_bytes := pick Slab64Bytes (slab_64_bytes h);
     slab_128_bytes := pick Slab128Bytes (slab_128_bytes h);
     slab_256_bytes := pick Slab256Bytes (slab_256_bytes h);
     slab_512_bytes := pick Slab512Bytes (slab_512_bytes h);
     slab_1024_bytes := pick Slab1024Bytes (slab_1024_bytes h);
     slab_2048_bytes := pick Slab2048Bytes (slab_2048_bytes h);
     slab_4096_bytes := pick Slab4096Bytes (slab_4096_bytes h);
     buddy_allocator := buddy_allocator h |}.

Definition with_buddy (b : B) (h : Heap B) : Heap B :=
  {| slab_64_bytes := slab_64_bytes h; slab_128_bytes := slab_128_bytes h;
     slab_256_bytes := slab_256_bytes h; slab_512_bytes := slab_512_bytes h;
     slab_1024_bytes := slab_1024_bytes h; slab_2048_bytes := slab_2048_bytes h;
     slab_4096_bytes := slab_4096_bytes h; buddy_allocator := b |}.

Definition heap_new (heap_start_addr heap_size : Z) (m : blkmem) : outcome (Heap B * blkmem) :=
  _ ← assert_true (heap_start_addr mod 4096 =? 0);
  _ ← assert_true (MIN_HEAP_SIZE <=? heap_size);
  _ ← assert_true (heap_size mod MIN_HEAP_SIZE =? 0);
  let '(s64, m) := slab_new 64 0 0 m in
  let '(s128, m) := slab_new 128 0 0 m in
  let '(s256, m) := slab_new 256 0 0 m in
  let '(s512, m) := slab_new 512 0 0 m in
  let '(s1024, m) := slab_new 1024 0 0 m in
  let '(s2048, m) := slab_new 2048 0 0 m in
  let '(s4096, m) := slab_new 4096 0 0 m in
  Done ({| slab_64_bytes := s64; slab_128_bytes := s128; slab_256_bytes := s256;
           slab_512_bytes := s512; slab_1024_bytes := s1024; slab_2048_bytes := s2048;
           slab_4096_bytes := s4096;
           buddy_allocator := bh_init heap_start_addr heap_size bh_new |}, m).

Definition heap_add_memory (heap_start_addr heap_size : Z) (h : Heap B) : outcome (Heap B) :=
  _ ← assert_true (heap_start_addr mod 4096 =? 0);
  _ ← assert_true (heap_size mod 4096 =? 0);
  Done (with_buddy
    (bh_add_to_heap heap_start_addr (heap_start_addr ⊕ heap_size) (buddy_allocator h)) h).

Definition alloc_in (c : HeapAllocator) (BLK_SIZE : Z) (layout : Layout) (s : Slab) (h : Heap B)
    (m : blkmem) : outcome (result unit Z * Heap B * blkmem) :=
  '(r, s, b, m) ← slab_allocate BLK_SIZE layout s (buddy_allocator h) m;
  Done (r, with_slab c s (with_buddy b h), m).

Definition heap_allocate (layout : Layout) (h : Heap B) (m : blkmem)
    : outcome (result unit Z * Heap B * blkmem) :=
  match layout_to_allocator layout with
  | Slab64Bytes => alloc_in Slab64Bytes 64 layout (slab_64_bytes h) h m
  | Slab128Bytes => alloc_in Slab128Bytes 128 layout (slab_128_bytes h) h m
  | Slab256Bytes => alloc_in Slab256Bytes 256 layout (slab_256_bytes h) h m
  | Slab512Bytes => alloc_in Slab512Bytes 512 layout (slab_512_bytes h) h m
  | Slab1024Bytes => alloc_in Slab1024Bytes 1024 layout (slab_1024_bytes h) h m
  | Slab2048Bytes => alloc_in Slab2048Bytes 2048 layout (slab_2048_bytes h) h m
  | Slab4096Bytes => alloc_in Slab4096Bytes 4096 layout (slab_4096_bytes h) h m
  | BuddyAllocator =>
      let '(o, b) := bh_alloc layout (buddy_allocator h) in
      Done (ok_or tt o, with_buddy b h, m)
  end.

Definition dealloc_in (c : HeapAllocator) (ptr : Z) (s : Slab) (h : Heap B) (m : blkmem)
    : Heap B * blkmem :=
  let '(s, m) := slab_deallocate ptr s m in (with_slab c s h, m).

(** [NonNull::new(ptr).unwrap()] panics on a null pointer. *)
Definition heap_deallocate (ptr : Z) (layout : Layout) (h : Heap B) (m : blkmem)
    : outcome (Heap B * blkmem) :=
  match layout_to_allocator layout with
  | Slab64Bytes => Done (dealloc_in Slab64Bytes ptr (slab_64_bytes h) h m)
  | Slab128Bytes => Done (dealloc_in Slab128Bytes ptr (slab_128_bytes h) h m)
  | Slab256Bytes => Done (dealloc_in Slab256Bytes ptr (slab_256_bytes h) h m)
  | Slab512Bytes => Done (dealloc_in Slab512Bytes ptr (slab_512_bytes h) h m)
  | Slab1024Bytes => Done (dealloc_in Slab1024Bytes ptr (slab_1024_bytes h) h m)
  | Slab2048Bytes => Done (dealloc_in Slab2048Bytes ptr (slab_2048_bytes h) h m)
  | Slab4096Bytes => Done (dealloc_in Slab4096Bytes ptr (slab_4096_bytes h) h m)
  | BuddyAllocator =>
      _ ← assert_true (negb (ptr =? 0));
      Done (with_buddy (bh_dealloc ptr layout (buddy_allocator h)) h, m)
  end.

(** The sums of [total_bytes] and [used_bytes]. *)
Definition heap_total_bytes (h : Heap B) : Z :=
  total_blocks (slab_64_bytes h) ⊗ 64 ⊕ total_blocks (slab_128_bytes h) ⊗ 128
  ⊕ total_blocks (slab_256_bytes h) ⊗ 256 ⊕ total_blocks (slab_512_bytes h) ⊗ 512
  ⊕ total_blocks (slab_1024_bytes h) ⊗ 1024 ⊕ total_blocks (slab_2048_bytes h) ⊗ 2048
  ⊕ total_blocks (slab_4096_bytes h) ⊗ 4096 ⊕ bh_stats_total_bytes (buddy_allocator h).

Definition heap_used_bytes (h : Heap B) : Z :=
  used_blocks (slab_64_bytes h) ⊗ 64 ⊕ used_blocks (slab_128_bytes h) ⊗ 128
  ⊕ used_blocks (slab_256_bytes h) ⊗ 256 ⊕ used_blocks (slab_512_bytes h) ⊗ 512
  ⊕ used_blocks (slab_1024_bytes h) ⊗ 1024 ⊕ used_blocks (slab_2048_bytes h) ⊗ 2048
  ⊕ used_blocks (slab_4096_bytes h) ⊗ 4096 ⊕ bh_stats_alloc_actual (buddy_allocator h).

Definition heap_available_bytes (h : Heap B) : Z := heap_total_bytes h ⊖ heap_used_bytes h.

End heap.

(** ** Regions *)

Fixpoint pairwise_disj (l : list region) : Prop :=
  match l with
  | [] => True
  | r :: l => Forall (rdisj r) l ∧ pairwise_disj l
  end.

Section regions.
Implicit Types (r s : region) (l : list region).

Lemma rdisj_sym r s : rdisj r s → rdisj s r.
Proof. unfold rdisj. lia. Qed.

#[global] Instance pairwise_disj_proper : Proper ((≡ₚ) ==> iff) pairwise_disj.
Proof.
  intros l1 l2 Hl. induction Hl as [|x l1 l2 Hl IH|x y l| ]; simpl; [done| | |naive_solver].
  - by rewrite IH, Hl.
  - rewrite !Forall_cons. intuition auto using rdisj_sym.
Qed.

Lemma pairwise_disj_app l1 l2 :
  pairwise_disj (l1 ++ l2) ↔
    pairwise_disj l1 ∧ pairwise_disj l2 ∧ Forall (λ r, Forall (rdisj r) l2) l1.
Proof.
  induction l1 as [|r l1 IH]; simpl; [rewrite Forall_nil; tauto|].
  rewrite IH, Forall_app, Forall_cons. tauto.
Qed.

Lemma rdisj_sub r r' s s' : rsub r r' → rsub s s' → rdisj r' s' → rdisj r s.
Proof. unfold rdisj, rsub. lia. Qed.

Lemma rsub_trans r s t : rsub r s → rsub s t → rsub r t.
Proof. unfold rsub. lia. Qed.

Lemma elem_of_zrange lo hi x : x ∈ zrange lo hi ↔ lo ≤ x < hi.
Proof. unfold zrange. rewrite elem_of_list_to_set, elem_of_seqZ. lia. Qed.

#[global] Instance set_unfold_zrange lo hi x : SetUnfoldElemOf x (zrange lo hi) (lo ≤ x < hi) | 0.
Proof. constructor. apply elem_of_zrange. Qed.

#[global] Typeclasses Opaque zrange.

Lemma zrange_disj i n j m :
  0 < n → 0 < m → zrange i (i + n) ## zrange j (j + m) → rdisj (i, n) (j, m).
Proof.
  intros Hn Hm Hd. unfold rdisj; simpl.
  destruct (decide (i + n ≤ j)); [lia|]. destruct (decide (j + m ≤ i)); [lia|].
  exfalso. apply (Hd (Z.max i j)); rewrite elem_of_zrange; lia.
Qed.

Lemma zrange_singleton i : zrange i (i + 1) = {[i]}.
Proof. apply set_eq. intros x. rewrite elem_of_zrange, elem_of_singleton. lia. Qed.

End regions.

Lemma is_power_of_two_spec x : is_power_of_two x = true → ∃ k, 0 ≤ k ∧ x = 2 ^ k.
Proof.
  unfold is_power_of_two. intros H. bool_to_prop. exists (Z.log2 x).
  split; [apply Z.log2_nonneg|done].
Qed.

Lemma is_power_of_two_pow k : 0 ≤ k → is_power_of_two (2 ^ k) = true.
Proof.
  intros. unfold is_power_of_two. rewrite Z.log2_pow2 by done.
  rewrite andb_true_iff, Z.ltb_lt, Z.eqb_eq. lia.
Qed.
