(* ===== verification/PageAllocSpec.v ===== *)
(** * Correctness of the page allocator

    The invariant of [BitmapPageAllocator] of [Allocator.v] and its histories:
    which pages are free, which belong to an outstanding block and which have
    been lost because [dealloc_pages] frees a single page. *)

From S2P Require Import Prelude MemoryAddr Allocator.
From stdpp Require Import base numbers sets gmap functions list.

Open Scope Z_scope.
Open Scope word_scope.

(** ** Correctness of the page allocator *)

Section page_proofs.
Context {A : Type} `{BA : !BitAlloc A} {free : A → gset Z} `{L : !BitAllocLaws BA free}.
Context (k : Z) (Hk : 0 ≤ k < 64).
Implicit Types p : BitmapPageAllocator A.

(** The pages of a list of blocks, given by first page and number. *)
Definition pages_of (l : list (Z * Z)) : gset Z := ⋃ ((λ b, zrange b.1 (b.1 + b.2)) <$> l).

Definition block_of (p : BitmapPageAllocator A) (b : Z * Z) : Z * Z :=
  (pa_base p + b.1 * 2 ^ k, b.2).

Definition num_held (l : list (Z * Z)) : Z := foldr (λ b n, b.2 + n) 0 l.

(** The blocks outstanding are [block_of p <$> l]; [lost] are the pages that
    are neither free nor part of an outstanding block. *)
Record pa_inv p (l : list (Z * Z)) (lost : gset Z) : Prop := {
  pi_base : 0 ≤ pa_base p ∧ (2 ^ k | pa_base p);
  pi_total : 0 ≤ pa_total_pages p ≤ CAP;
  pi_end : pa_base p + pa_total_pages p * 2 ^ k ≤ 2 ^ 64;
  pi_pos : Forall (λ b, 0 < b.2) l;
  pi_disj : pairwise_disj l;
  pi_used : pa_used_pages p = wrap 64 (num_held l);
  pi_part x : x ∈ zrange 0 (pa_total_pages p) ↔
    x ∈ free (pa_inner p) ∨ x ∈ pages_of l ∨ x ∈ lost;
  pi_free x : x ∈ free (pa_inner p) → (x ∉ pages_of l) ∧ x ∉ lost;
  pi_lost x : x ∈ lost → x ∉ pages_of l;
}.

Lemma elem_of_pages_of l x : x ∈ pages_of l ↔ ∃ b, b ∈ l ∧ b.1 ≤ x < b.1 + b.2.
Proof.
  unfold pages_of. rewrite elem_of_union_list. split.
  - intros (X & HX & Hx). apply list_elem_of_fmap in HX as (b & -> & Hb).
    rewrite elem_of_zrange in Hx. eauto.
  - intros (b & Hb & Hx). exists (zrange b.1 (b.1 + b.2)). rewrite elem_of_zrange.
    split; [|done]. apply list_elem_of_fmap. eauto.
Qed.

Lemma pages_of_cons b l : pages_of (b :: l) = zrange b.1 (b.1 + b.2) ∪ pages_of l.
Proof. done. Qed.

Lemma pages_of_perm l1 l2 : l1 ≡ₚ l2 → pages_of l1 = pages_of l2.
Proof.
  intros Hl. apply set_eq. intros x. rewrite !elem_of_pages_of.
  by setoid_rewrite Hl.
Qed.

Lemma num_held_perm l1 l2 : l1 ≡ₚ l2 → num_held l1 = num_held l2.
Proof. unfold num_held. intros Hl. induction Hl; simpl; lia. Qed.

Lemma pa_inv_perm p l1 l2 lost : l1 ≡ₚ l2 → pa_inv p l1 lost → pa_inv p l2 lost.
Proof.
  intros Hl []. split; try done.
  - by rewrite <- Hl.
  - by rewrite <- Hl.
  - by rewrite <- (num_held_perm l1 l2).
  - by rewrite <- (pages_of_perm l1 l2).
  - by rewrite <- (pages_of_perm l1 l2).
  - by rewrite <- (pages_of_perm l1 l2).
Qed.

(** A block of an outstanding list lies in the managed pages. *)
Lemma pa_inv_bounds p l lost i n :
  pa_inv p l lost → (i, n) ∈ l → 0 < n ∧ 0 ≤ i ∧ i + n ≤ pa_total_pages p.
Proof.
  intros Hp Hin. pose proof (proj1 (Forall_forall _ _) (pi_pos _ _ _ Hp) _ Hin) as Hn. simpl in Hn.
  assert (∀ x, i ≤ x < i + n → 0 ≤ x < pa_total_pages p) as Hx.
  { intros x Hx. rewrite <- elem_of_zrange. apply (pi_part _ _ _ Hp). right; left.
    apply elem_of_pages_of. by exists (i, n). }
  pose proof (Hx i). pose proof (Hx (i + n - 1)). lia.
Qed.

Lemma scaled_lt (i t : Z) : 0 ≤ i < t → 0 ≤ i * 2 ^ k < t * 2 ^ k.
Proof. intros. assert (0 < 2 ^ k) as Hp by lia. revert Hp. generalize (2 ^ k). nia. Qed.

(** Taking free pages for a new block. *)
Lemma pa_inv_take p l lost i n inner :
  pa_inv p l lost → 0 < n → zrange i (i + n) ⊆ free (pa_inner p) →
  free inner = free (pa_inner p) ∖ zrange i (i + n) →
  let p' := {| pa_base := pa_base p; pa_total_pages := pa_total_pages p;
               pa_used_pages := pa_used_pages p ⊕ n; pa_inner := inner |} in
  pa_inv p' ((i, n) :: l) lost ∧ i ⊗ 2 ^ k ⊕ pa_base p = (block_of p (i, n)).1.
Proof.
  intros Hp Hn Hsub Hfree p'.
  assert (pa_inv p' ((i, n) :: l) lost) as Hp'.
  { destruct Hp. split; simpl; try done.
    - by constructor.
    - split; [|done]. apply Forall_forall. intros [j m] Hj. apply zrange_disj; [done| |].
      + by apply (proj1 (Forall_forall _ _) pi_pos0 _ Hj).
      + intros x Hx1 Hx2. destruct (pi_free0 x (Hsub x Hx1)) as [Hno _]. apply Hno.
        apply elem_of_pages_of. exists (j, m). by rewrite elem_of_zrange in Hx2.
    - rewrite pi_used0. unfold num_held, wadd, wrap; simpl.
      rewrite Zplus_mod_idemp_l. f_equal. lia.
    - intros x. rewrite pi_part0, Hfree, pages_of_cons; simpl. specialize (Hsub x).
      rewrite elem_of_union, elem_of_difference. destruct (decide (x ∈ zrange i (i + n))); tauto.
    - intros x. rewrite Hfree, pages_of_cons; simpl. specialize (pi_free0 x).
      rewrite elem_of_union, elem_of_difference. tauto.
    - intros x Hx. rewrite pages_of_cons; simpl. set_unfold. intros [Hi|Hi]; [|by eapply pi_lost0].
      by destruct (pi_free0 x (Hsub x Hi)). }
  split; [done|]. unfold block_of; simpl.
  destruct (pa_inv_bounds p' _ _ i n Hp') as (_ & Hi & Hin); [left|].
  destruct (pi_base _ _ _ Hp) as [Hb _]. pose proof (pi_end _ _ _ Hp) as He. simpl in Hin.
  pose proof (scaled_lt i (pa_total_pages p)).
  rewrite wmul_small, wadd_small; unfold is_usize; lia.
Qed.

Lemma pa_alloc_pages_spec p l lost n align :
  pa_inv p l lost → is_usize n →
  match pa_alloc_pages (2 ^ k) n align p with
  | (Ok pos, p') => ∃ i, pos = (block_of p (i, n)).1 ∧ pa_inv p' ((i, n) :: l) lost ∧
      pa_base p' = pa_base p ∧ pa_total_pages p' = pa_total_pages p ∧
      zrange i (i + n) ⊆ free (pa_inner p) ∧ free (pa_inner p') = free (pa_inner p) ∖ zrange i (i + n)
  | (Err e, p') => pa_inv p' l lost ∧ pa_base p' = pa_base p ∧
      pa_total_pages p' = pa_total_pages p ∧ free (pa_inner p') = free (pa_inner p) ∧
      (e = AE_InvalidParam ∧
         (n = 0 ∨ align mod 2 ^ k ≠ 0 ∨ is_power_of_two align = false) ∨
       e = AE_NoMemory ∧ (n = 1 → free (pa_inner p) = ∅))
  end.
Proof.
  intros Hp Hn. unfold pa_alloc_pages.
  destruct (align mod 2 ^ k =? 0) eqn:Hal; simpl; [|bool_to_prop; split_and!; auto].
  destruct (is_power_of_two align) eqn:Hpow; simpl; [|split_and!; auto].
  assert (∀ inner, free inner = free (pa_inner p) → pa_inv
    {| pa_base := pa_base p; pa_total_pages := pa_total_pages p;
       pa_used_pages := pa_used_pages p; pa_inner := inner |} l lost) as Hnone.
  { intros inner Hf. destruct Hp. split; simpl; try done; by rewrite Hf. }
  destruct (Z.compare_spec n 1) as [->|Hlt|Hgt].
  - pose proof (law_alloc (pa_inner p)) as Hlaw. unfold pa_took.
    destruct (ba_alloc (pa_inner p)) as [[i|] inner]; simpl in *.
    + destruct Hlaw as [Hi Hf]. rewrite <- zrange_singleton in Hf.
      assert (zrange i (i + 1) ⊆ free (pa_inner p)) as Hs
        by (rewrite zrange_singleton; set_solver).
      destruct (pa_inv_take p l lost i 1 inner Hp) as [? ?]; [lia|done|done|].
      by exists i.
    + destruct Hlaw as [He Hf]. split_and!; [apply Hnone; congruence|done|done|congruence|auto].
  - unfold is_usize in Hn. split_and!; auto with lia.
  - pose proof (law_alloc_contiguous n (align `div` 2 ^ k) (pa_inner p)) as Hlaw. unfold pa_took.
    destruct (ba_alloc_contiguous _ _ _) as [[i|] inner]; simpl in *.
    + destruct Hlaw as [Hi Hf]; [lia|].
      destruct (pa_inv_take p l lost i n inner Hp) as [? ?]; [lia|done|done|].
      by exists i.
    + split_and!; [apply Hnone, Hlaw; lia|done|done|apply Hlaw; lia|right; split; [done|lia]].
Qed.

(** Only the first page of the returned block becomes free again. *)
Lemma pa_dealloc_pages_spec p l lost i n :
  pa_inv p ((i, n) :: l) lost →
  ∃ p', pa_dealloc_pages (2 ^ k) (block_of p (i, n)).1 n p = Done p' ∧
    pa_inv p' l (zrange (i + 1) (i + n) ∪ lost) ∧
    pa_base p' = pa_base p ∧ pa_total_pages p' = pa_total_pages p ∧
    free (pa_inner p') = {[i]} ∪ free (pa_inner p).
Proof.
  intros Hp. destruct (pa_inv_bounds _ _ _ i n Hp) as (Hn & Hi & Hin); [left|].
  assert (∀ x, i ≤ x < i + n → x ∈ pages_of ((i, n) :: l)) as Hpg.
  { intros x Hx. apply elem_of_pages_of. exists (i, n). split; [left|done]. }
  assert (i ∉ free (pa_inner p)) as Hnf.
  { intros Hf. destruct (pi_free _ _ _ Hp i Hf) as [Hno _]. apply Hno, Hpg. lia. }
  pose proof (pi_total _ _ _ Hp). pose proof (pi_base _ _ _ Hp) as [Hb _].
  pose proof (pi_end _ _ _ Hp).
  destruct (law_ba_dealloc i (pa_inner p)) as (inner & Hd & Hf); [lia|done|].
  pose proof (scaled_lt i (pa_total_pages p)).
  unfold pa_dealloc_pages, block_of; simpl.
  replace ((pa_base p + i * 2 ^ k) ⊖ pa_base p) with (i * 2 ^ k)
    by (rewrite wsub_small; unfold is_usize; lia).
  rewrite Z.div_mul by lia. rewrite Hd. simpl. eexists; split; [done|]. split; [|done].
  assert (∀ x, x ∈ pages_of l → ¬ i ≤ x < i + n) as Hsep.
  { intros x Hx Hx'. apply elem_of_pages_of in Hx as ([j m] & Hj & Hx).
    pose proof (pi_disj _ _ _ Hp) as [Hd1 _].
    pose proof (proj1 (Forall_forall _ _) Hd1 _ Hj) as Hd2. unfold rdisj in Hd2. simpl in *. lia. }
  destruct Hp. split; simpl; try done.
  - by apply Forall_cons in pi_pos0 as [_ ?].
  - by destruct pi_disj0.
  - rewrite pi_used0. unfold num_held, wsub, wrap; simpl. rewrite Zminus_mod_idemp_l. f_equal. lia.
  - intros x. rewrite pi_part0, Hf, pages_of_cons; simpl. set_unfold.
    destruct (decide (x = i)); [subst; split; [auto|intros _; right; left; left; lia]|].
    split; intros Hx; repeat destruct Hx as [Hx|Hx]; subst; auto; [|done|];
      right; [right; left; lia|left; left; lia].
  - intros x. rewrite Hf. set_unfold. intros [->|Hx].
    + split; [intros Hx; apply (Hsep _ Hx); lia|]. intros [?|Hl]; [lia|].
      apply (pi_lost0 _ Hl), Hpg. lia.
    + destruct (pi_free0 _ Hx) as [Hno Hnl]. split.
      * intros Hl. apply Hno. rewrite pages_of_cons. set_solver.
      * intros [?|?]; [|done]. apply Hno, Hpg. lia.
  - intros x. set_unfold. intros [Hx|Hx] Hl.
    + apply (Hsep _ Hl). lia.
    + apply (pi_lost0 _ Hx). rewrite pages_of_cons. set_solver.
Qed.

Lemma pa_init_spec start size :
  is_usize start → 2 ^ k ≤ size → start + size < 2 ^ 64 → size ≤ CAP * 2 ^ k →
  ∃ p, pa_init (2 ^ k) start size pa_new = Done p ∧ pa_inv p [] ∅ ∧
    start ≤ pa_base p < start + 2 ^ k ∧
    start + size - 2 ^ k < pa_base p + pa_total_pages p * 2 ^ k ≤ start + size.
Proof.
  intros Hs Hsz He Hcap. unfold is_usize in Hs. assert (0 < 2 ^ k) as Hpos by lia.
  unfold pa_init. rewrite is_power_of_two_pow by lia. simpl.
  rewrite wadd_small by (unfold is_usize; lia).
  rewrite align_down_eq, align_up_eq by (unfold is_usize; lia).
  destruct (Z.ltb_spec (start + 2 ^ k - 1) (2 ^ 64)) as [_|]; [|lia].
  set (e := start + size - (start + size) mod 2 ^ k).
  set (s := start + 2 ^ k - 1 - (start + 2 ^ k - 1) mod 2 ^ k).
  assert (start + size - 2 ^ k < e ≤ start + size) as Hebnd.
  { subst e. pose proof (Z.mod_pos_bound (start + size) (2 ^ k)). lia. }
  assert (start ≤ s < start + 2 ^ k) as Hsbnd.
  { subst s. pose proof (Z.mod_pos_bound (start + 2 ^ k - 1) (2 ^ k)). lia. }
  assert (∃ a b, s = a * 2 ^ k ∧ e = b * 2 ^ k) as (a & b & Ha & Hb).
  { exists ((start + 2 ^ k - 1) `div` 2 ^ k), ((start + size) `div` 2 ^ k).
    subst s e. rewrite !sub_mod_div by lia. lia. }
  assert (a ≤ b) by nia.
  rewrite wsub_small by (unfold is_usize; nia).
  replace ((e - s) `div` 2 ^ k) with (b - a)
    by (rewrite Ha, Hb, <- Z.mul_sub_distr_r, Z.div_mul; lia).
  assert (b - a ≤ CAP) by nia.
  destruct (law_insert 0 (b - a) (ba_default)) as (inner & -> & Hf); [lia|done|].
  simpl. eexists; split; [done|]. split; [|simpl; nia].
  split; simpl; try done; try nia; try lia.
  - split; [lia|]. rewrite Ha. by exists a.
  - intros x. rewrite Hf, law_default, elem_of_union.
    change (pages_of []) with (∅ : gset Z). rewrite !elem_of_empty. tauto.
Qed.

(** ** Histories *)

(** The allocator, the blocks held (address and number of pages) and the
    pages of returned blocks that were not freed. *)
Inductive pa_step : BitmapPageAllocator A * list (Z * Z) * gset Z →
    BitmapPageAllocator A * list (Z * Z) * gset Z → Prop :=
| ps_alloc p H lost n align pos p' :
    is_usize n → pa_alloc_pages (2 ^ k) n align p = (Ok pos, p') →
    pa_step (p, H, lost) (p', (pos, n) :: H, lost)
| ps_alloc_fail p H lost n align e p' :
    is_usize n → pa_alloc_pages (2 ^ k) n align p = (Err e, p') →
    pa_step (p, H, lost) (p', H, lost)
| ps_dealloc p H H' lost pos n p' :
    H ≡ₚ (pos, n) :: H' → pa_dealloc_pages (2 ^ k) pos n p = Done p' →
    let i := (pos - pa_base p) `div` 2 ^ k in
    pa_step (p, H, lost) (p', H', zrange (i + 1) (i + n) ∪ lost).

Definition pa_good p (H : list (Z * Z)) (lost : gset Z) : Prop :=
  ∃ l, H ≡ₚ block_of p <$> l ∧ pa_inv p l lost.

Lemma block_of_base p p' (l : list (Z * Z)) : pa_base p' = pa_base p → block_of p <$> l = block_of p' <$> l.
Proof. intros Hb. apply list_fmap_ext. intros i b _. unfold block_of. by rewrite Hb. Qed.

(** The pages managed do not change. *)
Definition same_pages p p' : Prop :=
  pa_base p' = pa_base p ∧ pa_total_pages p' = pa_total_pages p.

Lemma pa_good_alloc p H lost n align :
  pa_good p H lost → is_usize n →
  match pa_alloc_pages (2 ^ k) n align p with
  | (Ok pos, p') => pa_good p' ((pos, n) :: H) lost ∧ same_pages p p' ∧
      (size (free (pa_inner p')) < size (free (pa_inner p)))%nat
  | (Err e, p') => pa_good p' H lost ∧ same_pages p p' ∧
      (e = AE_NoMemory ∨ n = 0 ∨ align mod 2 ^ k ≠ 0 ∨ is_power_of_two align = false)
  end.
Proof.
  intros (l & HH & Hp) Hn. pose proof (pa_alloc_pages_spec p l lost n align Hp Hn) as Hs.
  destruct (pa_alloc_pages _ _ _ _) as [[pos|e] p'].
  - destruct Hs as (i & -> & Hp' & Hb & Ht & Hsub & Hf). split; [|split; [done|]].
    + exists ((i, n) :: l). split; [|done]. simpl.
      rewrite HH, (block_of_base p p') by done. unfold block_of. by rewrite Hb.
    + destruct (pa_inv_bounds _ _ _ i n Hp') as (Hn' & _); [left|].
      apply subset_size. rewrite Hf. split; [set_solver|]. intros Hc.
      assert (i ∈ zrange i (i + n)) as Hi by (rewrite elem_of_zrange; lia).
      specialize (Hsub i Hi). apply Hc in Hsub. set_solver.
  - destruct Hs as (Hp' & Hb & Ht & _ & He). split; [|split; [done|]].
    + exists l. by rewrite HH, (block_of_base p p').
    + destruct He as [[_ He]|[-> _]]; auto.
Qed.

Lemma block_of_index p b : (block_of p b).1 - pa_base p = b.1 * 2 ^ k.
Proof. unfold block_of. simpl. lia. Qed.

Lemma pa_good_dealloc p H H' lost pos n :
  pa_good p H lost → H ≡ₚ (pos, n) :: H' →
  let i := (pos - pa_base p) `div` 2 ^ k in
  ∃ p', pa_dealloc_pages (2 ^ k) pos n p = Done p' ∧
    pa_good p' H' (zrange (i + 1) (i + n) ∪ lost) ∧
    free (pa_inner p') = {[i]} ∪ free (pa_inner p) ∧ same_pages p p'.
Proof.
  intros (l & HH & Hp) HH2 i. rewrite HH2 in HH.
  apply Permutation_cons_inv_l in HH as (H1 & H2 & Heq & HH').
  apply fmap_app_inv in Heq as (l1 & l2 & -> & Heq & ->).
  destruct l2 as [|[j n'] l2]; [done|]. simpl in Heq. injection Heq as Hpos -> ->.
  assert (pa_inv p ((j, n') :: l1 ++ l2) lost) as Hp'
    by (eapply pa_inv_perm; [|done]; by rewrite Permutation_middle).
  destruct (pa_dealloc_pages_spec p _ lost j n' Hp') as (p' & Hd & Hinv & Hb & Ht & Hf).
  assert (i = j) as -> by (subst i; rewrite Hpos, Z.add_simpl_l; apply Z.div_mul; lia).
  rewrite Hpos. exists p'. split; [exact Hd|]. split; [|done]. exists (l1 ++ l2).
  by rewrite HH', <- fmap_app, (block_of_base p p').
Qed.

Lemma pa_step_good x y :
  pa_step x y → pa_good x.1.1 x.1.2 x.2 → pa_good y.1.1 y.1.2 y.2.
Proof.
  destruct 1 as [p H lost n align pos p' Hn Hr|p H lost n align e p' Hn Hr
    |p H H' lost pos n p' HH Hr i]; simpl; intros Hg.
  - pose proof (pa_good_alloc p H lost n align Hg Hn) as Hs. rewrite Hr in Hs. apply Hs.
  - pose proof (pa_good_alloc p H lost n align Hg Hn) as Hs. rewrite Hr in Hs. apply Hs.
  - destruct (pa_good_dealloc p H H' lost pos n Hg HH) as (p2 & Hr' & Hg' & _).
    rewrite Hr in Hr'. by simplify_eq.
Qed.

Lemma pa_steps_good x y :
  rtc pa_step x y → pa_good x.1.1 x.1.2 x.2 → pa_good y.1.1 y.1.2 y.2.
Proof. induction 1; [done|]. intros Hg. by eapply IHrtc, pa_step_good. Qed.

Lemma size_zrange lo n : 0 ≤ n → Z.of_nat (size (zrange lo (lo + n))) = n.
Proof.
  intros Hn. unfold zrange. rewrite size_list_to_set by apply NoDup_seqZ.
  rewrite length_seqZ. lia.
Qed.

Lemma size_pages_of l :
  Forall (λ b, 0 < b.2) l → pairwise_disj l → Z.of_nat (size (pages_of l)) = num_held l.
Proof.
  induction l as [|[i n] l IH]; intros Hpos Hd; [done|]. apply Forall_cons in Hpos as [Hn Hpos].
  destruct Hd as [Hd1 Hd2]. rewrite pages_of_cons. simpl in *. rewrite size_union.
  - rewrite Nat2Z.inj_add, size_zrange, IH by (done || lia). done.
  - intros x Hx1 Hx2. apply elem_of_zrange in Hx1. apply elem_of_pages_of in Hx2 as ([j m] & Hj & Hx2).
    pose proof (proj1 (Forall_forall _ _) Hd1 _ Hj) as Hr. unfold rdisj in Hr. simpl in *. lia.
Qed.

(** Every managed page is free, held or lost. *)
Lemma pa_inv_count p l lost :
  pa_inv p l lost →
  Z.of_nat (size (free (pa_inner p))) + num_held l + Z.of_nat (size lost) = pa_total_pages p.
Proof.
  intros Hp. pose proof (pi_total _ _ _ Hp).
  assert (zrange 0 (pa_total_pages p) = free (pa_inner p) ∪ (pages_of l ∪ lost)) as Heq.
  { apply set_eq. intros x. rewrite (pi_part _ _ _ Hp). set_solver. }
  apply (f_equal (λ X, Z.of_nat (size X))) in Heq.
  rewrite <- (Z.add_0_l (pa_total_pages p)) in Heq at 1. rewrite size_zrange in Heq by lia.
  rewrite Heq, size_union, size_union, !Nat2Z.inj_add, size_pages_of; [lia|apply Hp..| |].
  - intros x Hx1 Hx2. by apply (pi_lost _ _ _ Hp x).
  - intros x Hx1 Hx2. destruct (pi_free _ _ _ Hp x Hx1). set_solver.
Qed.

Lemma pa_good_used p H lost :
  pa_good p H lost →
  pa_used_pages p = num_held H ∧
  pa_available_pages p = Z.of_nat (size (free (pa_inner p))) + Z.of_nat (size lost).
Proof.
  intros (l & HH & Hp). pose proof (pa_inv_count p l lost Hp) as Hc.
  assert (num_held H = num_held l) as ->.
  { rewrite (num_held_perm _ _ HH). clear. unfold num_held. induction l as [|b l IH]; [done|]. cbn in *. by rewrite <- IH. }
  assert (0 ≤ num_held l) as Hn.
  { rewrite <- size_pages_of; [lia|apply Hp..]. }
  pose proof (pi_total _ _ _ Hp) as Ht. unfold CAP in Ht.
  assert (pa_used_pages p = num_held l) as Hu
    by (rewrite (pi_used _ _ _ Hp); apply wrap_small; lia).
  split; [done|]. unfold pa_available_pages. rewrite Hu, wsub_small by (unfold is_usize; lia). lia.
Qed.

Definition page_region (b : Z * Z) : region := (b.1, b.2 * 2 ^ k).

Lemma pa_good_disj p H lost : pa_good p H lost → pairwise_disj (page_region <$> H).
Proof.
  intros (l & HH & Hp). rewrite HH. pose proof (pi_disj _ _ _ Hp) as Hd. clear - Hd Hk.
  assert (0 < 2 ^ k) as Hpos by lia.
  induction l as [|b l IH]; simpl; [done|]. destruct Hd as [Hd1 Hd2]. split; [|auto].
  rewrite !Forall_fmap. eapply Forall_impl; [exact Hd1|]. intros b'.
  unfold rdisj, page_region, block_of. simpl. nia.
Qed.

Lemma pa_good_block p H lost pos n :
  pa_good p H lost → (pos, n) ∈ H →
  0 < n ∧ (2 ^ k | pos) ∧ pa_base p ≤ pos ∧
  pos + n * 2 ^ k ≤ pa_base p + pa_total_pages p * 2 ^ k.
Proof.
  intros (l & HH & Hp) Hin. rewrite HH in Hin. apply list_elem_of_fmap in Hin as ([i n'] & Heq & Hin).
  unfold block_of in Heq. simpl in Heq. simplify_eq.
  destruct (pa_inv_bounds _ _ _ _ _ Hp Hin) as (Hn & Hi & Hin').
  destruct (pi_base _ _ _ Hp) as [Hb Hd]. assert (0 < 2 ^ k) as Hpos by lia.
  split_and!; [done| |nia|nia]. apply Z.divide_add_r; [done|apply Z.divide_factor_r].
Qed.

(** From a page allocator initialised with a region, after any sequence of
    calls of [alloc_pages] and of [dealloc_pages] on held blocks: the blocks
    held are aligned to the page size, inside the region and pairwise
    disjoint; [used_pages] is the number of pages held; [available_pages] is
    the number of free pages plus the number of pages lost, the lost ones
    being those after the first of every block returned; returning a held
    block never panics and frees exactly its first page; and a request for
    one page fails with [NoMemory] only when no page is free. *)
Theorem page_allocator_history start len p (H : list (Z * Z)) (lost : gset Z) :
  is_usize start → 2 ^ k ≤ len → start + len < 2 ^ 64 → len ≤ CAP * 2 ^ k →
  (∃ p0, pa_init (2 ^ k) start len pa_new = Done p0 ∧ rtc pa_step (p0, [], ∅) (p, H, lost)) →
  pairwise_disj (page_region <$> H) ∧
  (∀ pos n, (pos, n) ∈ H →
     0 < n ∧ (2 ^ k | pos) ∧ pa_base p ≤ pos ∧
     pos + n * 2 ^ k ≤ pa_base p + pa_total_pages p * 2 ^ k ∧
     ∃ p', pa_dealloc_pages (2 ^ k) pos n p = Done p' ∧
       free (pa_inner p') = {[(pos - pa_base p) `div` 2 ^ k]} ∪ free (pa_inner p)) ∧
  pa_used_pages p = num_held H ∧
  pa_available_pages p = Z.of_nat (size (free (pa_inner p))) + Z.of_nat (size lost) ∧
  (∀ align p', pa_alloc_pages (2 ^ k) 1 align p = (Err AE_NoMemory, p') → free (pa_inner p) = ∅).
Proof.
  intros Hs Hsz He Hcap (p0 & Hinit & Hsteps).
  destruct (pa_init_spec start len) as (p0' & Hinit' & Hp0 & _); [done..|].
  rewrite Hinit in Hinit'. simplify_eq.
  assert (pa_good p H lost) as Hg.
  { apply (pa_steps_good _ _ Hsteps). by exists []. }
  pose proof (pa_good_used p H lost Hg) as [??].
  split_and!; [by eapply pa_good_disj| |done|done|].
  - intros pos n Hin. pose proof (pa_good_block _ _ _ _ _ Hg Hin) as (?&?&?&?).
    split_and!; try done. apply list_elem_of_split in Hin as (Ha & Hb & ->).
    destruct (pa_good_dealloc p _ (Ha ++ Hb) lost pos n Hg) as (p' & ? & _ & ? & _); [|eauto].
    by rewrite Permutation_middle.
  - intros align p' Hal. destruct Hg as (l & _ & Hp).
    pose proof (pa_alloc_pages_spec p l lost 1 align Hp ltac:(done)) as Hs'. rewrite Hal in Hs'.
    destruct Hs' as (_ & _ & _ & _ & [[? _]|[_ Hf]]); [done|auto].
Qed.

End page_proofs.

(** ** A reference bit allocator *)

(** The free numbers as a set. *)
Definition set_alloc : BitAlloc (gset Z) := {|
  ba_default := ∅;
  ba_insert := λ lo hi a, if hi <=? CAP then Done (zrange lo hi ∪ a) else Panic;
  ba_alloc := λ a,
    match elements a with [] => (None, a) | i :: _ => (Some i, a ∖ {[i]}) end;
  ba_alloc_contiguous := λ n _ a,
    match list_find (λ i, zrange i (i + n) ⊆ a) (elements a) with
    | Some (_, i) => (Some i, a ∖ zrange i (i + n))
    | None => (None, a)
    end;
  ba_dealloc := λ i a, if decide (i ∈ a) then Panic else Done ({[i]} ∪ a);
|}.

#[global] Instance set_alloc_laws : BitAllocLaws set_alloc (λ a, a).
Proof.
  split; simpl; try done.
  - intros lo hi a _ Hcap. destruct (Z.leb_spec hi CAP); [eauto|lia].
  - intros a. destruct (elements a) as [|i l] eqn:He.
    + apply elements_empty_inv in He. split; set_solver.
    + split; [|done]. apply elem_of_elements. rewrite He. left.
  - intros n _ a _. destruct (list_find _ _) as [[j i]|] eqn:Hf; [|done].
    apply list_find_Some in Hf as (_ & Hs & _). done.
  - intros i a _ Hi. rewrite decide_False by done. eauto.
Qed.

#[local] Existing Instance set_alloc.

Lemma page_allocator_history_witness :
  ∃ p : BitmapPageAllocator (gset Z), pairwise_disj (page_region 12 <$> [(0x12000, 2)]) ∧
    pa_used_pages p = 2 ∧ pa_available_pages p = 2.
Proof.
  destruct (pa_init (2 ^ 12) 0x10000 0x4000 pa_new) as [p0|] eqn:H0; [|by vm_compute in H0].
  destruct (pa_alloc_pages (2 ^ 12) 2 4096 p0) as [[pos|] p1] eqn:H1;
    [|vm_compute in H0; simplify_eq; by vm_compute in H1].
  assert (pos = 0x12000 ∧ size (pa_inner p1) = 2%nat) as [-> Hsz]
    by (vm_compute in H0; simplify_eq; vm_compute in H1; by simplify_eq).
  destruct (page_allocator_history 12 ltac:(lia) (BA := set_alloc) 0x10000 0x4000 p1 [(0x12000, 2)] ∅)
    as (Hd & _ & Hu & Ha & _); [done|lia|lia|by vm_compute| |].
  - exists p0. split; [done|]. by eapply rtc_once, ps_alloc.
  - exists p1. split_and!; [done|done|]. by rewrite Ha, Hsz.
Defined.

(** Returning a block of several pages frees one page only: after the
    block of the two pages of a region has been allocated and returned, both
    pages are reported available but only one is free, and the same request
    fails although nothing is held. *)
Theorem dealloc_pages_leaks :
  ∃ p0 p1 p2 : BitmapPageAllocator (gset Z), ∃ pos,
    pa_init 4096 0x10000 0x2000 pa_new = Done p0 ∧
    pa_alloc_pages 4096 2 4096 p0 = (Ok pos, p1) ∧
    pa_dealloc_pages 4096 pos 2 p1 = Done p2 ∧
    pa_available_pages p2 = 2 ∧ size (pa_inner p2) = 1%nat ∧
    (pa_alloc_pages 4096 2 4096 p2).1 = Err AE_NoMemory.
Proof.
  destruct (pa_init 4096 0x10000 0x2000 pa_new) as [p0|] eqn:H0; [|by vm_compute in H0].
  destruct (pa_alloc_pages 4096 2 4096 p0) as [[pos|] p1] eqn:H1;
    [|vm_compute in H0; simplify_eq; by vm_compute in H1].
  destruct (pa_dealloc_pages 4096 pos 2 p1) as [p2|] eqn:H2;
    vm_compute in H0; simplify_eq; vm_compute in H1; simplify_eq; vm_compute in H2; simplify_eq.
  do 4 eexists. by repeat (split; [done|]).
Qed.
