(* ===== verification/SlabSpec.v ===== *)
(** * Correctness of the slab heap

    The invariant of the heap of [Allocator.v]: the free lists threaded
    through the blocks, the blocks handed out and the regions obtained from
    the buddy allocator.  It is kept by every operation and by arbitrary
    writes of the holders to their blocks. *)

From S2P Require Import Prelude MemoryAddr Allocator.
From stdpp Require Import base numbers sets gmap functions list.

Open Scope Z_scope.
Open Scope word_scope.

(** ** Free lists threaded through the blocks *)

Section free_lists.
Implicit Types (m : Z → option Z) (l : list Z) (fl : FreeBlockList).

Fixpoint chain (m : blkmem) (o : option Z) (l : list Z) : Prop :=
  match l with
  | [] => o = None
  | x :: l => o = Some x ∧ chain m (m x) l
  end.

(** The list [fl] holds the blocks [l], in order. *)
Definition is_fbl (m : blkmem) (fl : FreeBlockList) (l : list Z) : Prop :=
  chain m (fbl_head fl) l ∧ fbl_len fl = wrap 64 (Z.of_nat (length l)).

Lemma chain_frame m m' l : ∀ o,
  (∀ x, x ∈ l → m' x = m x) → chain m o l → chain m' o l.
Proof.
  induction l as [|x l IH]; intros o Hm; simpl; [done|]. intros [-> Hc]. split; [done|].
  rewrite Hm by left. apply IH; [|done]. intros y Hy. apply Hm. by right.
Qed.

Lemma is_fbl_frame m m' fl l :
  (∀ x, x ∈ l → m' x = m x) → is_fbl m fl l → is_fbl m' fl l.
Proof. intros Hm [??]. split; [by eapply chain_frame|done]. Qed.

Lemma fbl_pop_nil m fl : is_fbl m fl [] → fbl_pop fl m = (None, fl, m).
Proof. intros [Hh _]. unfold fbl_pop. simpl in Hh. by rewrite Hh. Qed.

Lemma fbl_pop_cons m fl x l :
  is_fbl m fl (x :: l) → x ∉ l →
  ∃ fl', fbl_pop fl m = (Some x, fl', <[x := None]> m) ∧ is_fbl (<[x := None]> m) fl' l.
Proof.
  intros [[Hh Hc] Hlen] Hx. unfold fbl_pop. rewrite Hh. eexists; split; [done|]. split; simpl.
  - eapply chain_frame; [|done]. intros y Hy. apply fn_lookup_insert_ne. by intros ->.
  - rewrite Hlen. unfold wsub, wrap. rewrite Zminus_mod_idemp_l. simpl. f_equal. lia.
Qed.

Lemma fbl_push_spec m fl b l :
  is_fbl m fl l → b ∉ l →
  ∃ fl' m', fbl_push b fl m = (fl', m') ∧ is_fbl m' fl' (b :: l) ∧
    ∀ x, x ≠ b → m' x = m x.
Proof.
  intros [Hc Hlen] Hb. unfold fbl_push. do 2 eexists; split; [done|]. split.
  - split; simpl.
    + split; [done|]. rewrite fn_lookup_insert. eapply chain_frame; [|done].
      intros y Hy. apply fn_lookup_insert_ne. by intros ->.
    + rewrite Hlen. unfold wadd, wrap. rewrite Zplus_mod_idemp_l. f_equal. lia.
  - intros x Hx. by apply fn_lookup_insert_ne.
Qed.

#[local] Opaque fbl_push fbl_pop.

Lemma fbl_push_all_spec bs : ∀ m fl l,
  is_fbl m fl l → NoDup (bs ++ l) →
  ∃ fl' m', fbl_push_all bs fl m = (fl', m') ∧ is_fbl m' fl' (reverse bs ++ l) ∧
    ∀ x, x ∉ bs → m' x = m x.
Proof.
  induction bs as [|b bs IH]; intros m fl l Hl Hnd.
  { by exists fl, m. }
  simpl in *. apply NoDup_cons in Hnd as [Hb Hnd].
  destruct (fbl_push_spec m fl b l Hl) as (fl1 & m1 & -> & Hl1 & Hm1); [set_solver|].
  destruct (IH m1 fl1 (b :: l) Hl1) as (fl2 & m2 & -> & Hl2 & Hm2).
  { rewrite <- Permutation_middle. by constructor. }
  exists fl2, m2. split; [done|]. rewrite reverse_cons, <- (assoc_L (++)). split; [done|].
  intros x Hx. rewrite Hm2, Hm1; set_solver.
Qed.

Lemma fbl_drop_spec l : ∀ fuel m fl,
  is_fbl m fl l → NoDup l → (length l < fuel)%nat →
  ∃ m', fbl_drop fuel fl m = Done m' ∧ ∀ x, x ∉ l → m' x = m x.
Proof.
  induction l as [|b l IH]; intros [|fuel] m fl Hl Hnd Hf; simpl in Hf; try lia; simpl.
  { rewrite (fbl_pop_nil m fl Hl). by exists m. }
  apply NoDup_cons in Hnd as [Hb Hnd].
  destruct (fbl_pop_cons m fl b l Hl Hb) as (fl1 & -> & Hl1).
  destruct (IH fuel _ fl1 Hl1 Hnd) as (m' & -> & Hm'); [lia|].
  exists m'. split; [done|]. intros x Hx. rewrite Hm' by set_solver.
  apply fn_lookup_insert_ne. set_solver.
Qed.

Lemma fbl_move_spec l1 : ∀ fuel m src dst l2,
  is_fbl m src l1 → is_fbl m dst l2 → NoDup (l1 ++ l2) → (length l1 < fuel)%nat →
  ∃ src' dst' m', fbl_move fuel src dst m = Done (src', dst', m') ∧
    is_fbl m' src' [] ∧ is_fbl m' dst' (reverse l1 ++ l2) ∧ ∀ x, x ∉ l1 → m' x = m x.
Proof.
  induction l1 as [|b l1 IH]; intros [|fuel] m src dst l2 H1 H2 Hnd Hf; simpl in Hf; try lia; simpl.
  { rewrite (fbl_pop_nil m src H1). by exists src, dst, m. }
  simpl in Hnd. apply NoDup_cons in Hnd as [Hb Hnd].
  destruct (fbl_pop_cons m src b l1 H1) as (s1 & -> & Hs1); [set_solver|].
  assert (is_fbl (<[b := None]> m) dst l2) as H2'.
  { eapply is_fbl_frame; [|done]. intros x Hx. apply fn_lookup_insert_ne. set_solver. }
  destruct (fbl_push_spec _ dst b l2 H2') as (d1 & m1 & Hpush & Hd1 & Hm1); [set_solver|].
  rewrite Hpush.
  destruct (IH fuel m1 s1 d1 (b :: l2)) as (s2 & d2 & m2 & -> & Hs2 & Hd2 & Hm2); [| |..|lia|].
  { eapply is_fbl_frame; [|exact Hs1]. intros x Hx. apply Hm1. set_solver. }
  { done. }
  { rewrite <- Permutation_middle. by constructor. }
  exists s2, d2, m2. split; [done|]. split; [done|].
  rewrite reverse_cons, <- (assoc_L (++)). split; [done|].
  intros x Hx. rewrite Hm2, Hm1 by set_solver. apply fn_lookup_insert_ne. set_solver.
Qed.

(** The blocks a region of [n] blocks is cut into. *)
Definition cut (start blk n : Z) : list Z := (λ i, start + i * blk) <$> seqZ 0 n.

Lemma NoDup_cut start blk n : 0 < blk → NoDup (cut start blk n).
Proof.
  intros Hb. apply NoDup_fmap; [|apply NoDup_seqZ]. intros i j Hij. nia.
Qed.

Lemma elem_of_cut start blk n a :
  a ∈ cut start blk n ↔ ∃ i, 0 ≤ i < n ∧ a = start + i * blk.
Proof.
  unfold cut. rewrite list_elem_of_fmap. setoid_rewrite elem_of_seqZ. naive_solver lia.
Qed.

Lemma slab_grow_spec blk start n s m l :
  0 < blk → 0 ≤ n → 0 < start → start + n * blk ≤ 2 ^ 64 →
  is_fbl m (free_block_list s) l → NoDup (cut start blk n ++ l) →
  ∃ s' m', slab_grow blk start (n * blk) s m = Done (s', m') ∧
    is_fbl m' (free_block_list s') (reverse (cut start blk n) ++ l) ∧
    total_blocks s' = total_blocks s ⊕ n ∧ ∀ x, x ∉ cut start blk n → m' x = m x.
Proof.
  intros Hb Hn Hs He Hl Hnd. unfold slab_grow. rewrite Z.div_mul by lia.
  unfold fbl_new.
  assert ((λ i, start ⊕ i ⊗ blk) <$> reverse (seqZ 0 n) = reverse (cut start blk n)) as ->.
  { unfold cut. rewrite fmap_reverse. f_equal. apply list_fmap_ext. intros j i Hi.
    apply list_elem_of_lookup_2, elem_of_seqZ in Hi.
    rewrite wmul_small, wadd_small; [done|..]; unfold is_usize; nia. }
  apply NoDup_app in Hnd as Hnd'. destruct Hnd' as (Hnd1 & Hdj & _).
  destruct (fbl_push_all_spec (reverse (cut start blk n)) m fbl_new_empty [])
    as (fl1 & m1 & -> & H1 & Hm1); [done|by rewrite app_nil_r, reverse_Permutation|].
  rewrite reverse_involutive, app_nil_r in H1.
  assert (is_fbl m1 (free_block_list s) l) as Hl1.
  { eapply is_fbl_frame; [|done]. intros x Hx. apply Hm1. rewrite reverse_Permutation.
    intros Hc. by apply (Hdj x). }
  assert (length (cut start blk n) < S (Z.to_nat n))%nat as Hf.
  { unfold cut. rewrite length_fmap, length_seqZ. lia. }
  destruct (fbl_move_spec _ _ m1 fl1 (free_block_list s) l H1 Hl1 Hnd Hf)
    as (fl2 & fl3 & m2 & -> & H2 & H3 & Hm2). simpl.
  rewrite (fbl_pop_nil m2 fl2 H2). simpl. do 2 eexists. split; [done|]. split; [done|].
  split; [done|]. intros x Hx. rewrite Hm2, Hm1; [done|by rewrite reverse_Permutation|done].
Qed.

End free_lists.

(** ** The invariant of the slab heap *)

Definition blk_size (c : HeapAllocator) : Z :=
  match c with
  | Slab64Bytes => 64 | Slab128Bytes => 128 | Slab256Bytes => 256 | Slab512Bytes => 512
  | Slab1024Bytes => 1024 | Slab2048Bytes => 2048 | Slab4096Bytes => 4096
  | BuddyAllocator => 0
  end.

Definition slab_classes : list HeapAllocator :=
  [Slab64Bytes; Slab128Bytes; Slab256Bytes; Slab512Bytes; Slab1024Bytes; Slab2048Bytes;
   Slab4096Bytes].

Definition layout_ok (l : Layout) : Prop := is_power_of_two (lay_align l) = true ∧ 0 ≤ lay_size l.

(** A block handed out is its address and the layout it was requested with. *)
Abbreviation held := (list (Z * Layout)) (only parsing).

Definition held_region (x : Z * Layout) : region := (x.1, (usable_size x.2).2).
Definition held_in (c : HeapAllocator) (H : held) : held :=
  filter (λ x, layout_to_allocator x.2 = c) H.
Definition held_slabs (H : held) : held :=
  filter (λ x, layout_to_allocator x.2 ≠ BuddyAllocator) H.

Definition blocks (c : HeapAllocator) (l : list Z) : list region := (λ a, (a, blk_size c)) <$> l.
Definition free_regions (f : HeapAllocator → list Z) : list region :=
  slab_classes ≫= λ c, blocks c (f c).

(** All the blocks the slabs have been cut into. *)
Definition slab_regions (f : HeapAllocator → list Z) (H : held) : list region :=
  free_regions f ++ (held_region <$> held_slabs H).

#[global] Instance held_in_proper c : Proper ((≡ₚ) ==> (≡ₚ)) (held_in c).
Proof. intros H H' HH. unfold held_in. by rewrite HH. Qed.

#[global] Instance slab_regions_proper f : Proper ((≡ₚ) ==> (≡ₚ)) (slab_regions f).
Proof. intros H H' HH. unfold slab_regions, held_slabs. by rewrite HH. Qed.

(** *** Facts on the blocks of a heap *)

Section heap_facts.
Implicit Types (f : HeapAllocator → list Z) (c : HeapAllocator).

Lemma usable_size_eq l :
  (usable_size l).2 =
    if decide (layout_to_allocator l = BuddyAllocator) then lay_size l
    else blk_size (layout_to_allocator l).
Proof. unfold usable_size. by destruct (layout_to_allocator l). Qed.

Lemma blk_size_pos c : c ≠ BuddyAllocator → 0 < blk_size c.
Proof. by destruct c. Qed.

Lemma blk_size_inj c c' : c ≠ c' → blk_size c ≠ blk_size c'.
Proof. by destruct c, c'. Qed.

Lemma free_regions_ext f g : (∀ c, f c = g c) → free_regions f = free_regions g.
Proof. intros Hfg. unfold free_regions. simpl. by rewrite !Hfg. Qed.

Lemma free_regions_insert f c bs :
  c ≠ BuddyAllocator →
  free_regions (<[c := bs ++ f c]> f) ≡ₚ blocks c bs ++ free_regions f.
Proof.
  intros Hc. unfold free_regions, slab_classes, blocks. simpl.
  destruct c; try done; unfold insert, fn_insert; simpl; rewrite fmap_app; solve_Permutation.
Qed.

(** Taking the blocks [bs] out of the free list of [c]. *)
Lemma free_regions_take f c bs l :
  c ≠ BuddyAllocator → f c = bs ++ l →
  free_regions f ≡ₚ blocks c bs ++ free_regions (<[c := l]> f).
Proof.
  intros Hc Hf. rewrite <- free_regions_insert by done.
  apply reflexive_eq, free_regions_ext. intros c'. destruct (decide (c = c')) as [->|Hne].
  - by rewrite !fn_lookup_insert.
  - by rewrite !fn_lookup_insert_ne.
Qed.

Lemma pairwise_disj_elem l r s : pairwise_disj l → r ∈ l → s ∈ l → r ≠ s → rdisj r s.
Proof.
  intros Hl Hr Hs Hrs. apply list_elem_of_split in Hr as (l1 & l2 & ->).
  rewrite <- Permutation_middle in Hl, Hs. simpl in Hl.
  apply elem_of_cons in Hs as [->|Hs]; [done|]. destruct Hl as [Hl _].
  by apply (proj1 (Forall_forall _ _) Hl).
Qed.

Lemma pairwise_disj_blocks_NoDup c l :
  c ≠ BuddyAllocator → pairwise_disj (blocks c l) → NoDup l.
Proof.
  intros Hc. pose proof (blk_size_pos c Hc). induction l as [|a l IH]; simpl; [constructor|].
  intros [Ha Hl]. constructor; [|by apply IH]. intros Hin.
  assert ((a, blk_size c) ∈ blocks c l) as Hin' by (apply list_elem_of_fmap; eauto).
  pose proof (proj1 (Forall_forall _ _) Ha _ Hin'). unfold rdisj in *. simpl in *. lia.
Qed.

Lemma elem_of_blocks c l r : r ∈ blocks c l ↔ ∃ a, a ∈ l ∧ r = (a, blk_size c).
Proof. unfold blocks. rewrite list_elem_of_fmap. naive_solver. Qed.

Lemma elem_of_free_regions f c a :
  c ≠ BuddyAllocator → a ∈ f c → (a, blk_size c) ∈ free_regions f.
Proof.
  intros Hc Ha. rewrite (free_regions_take f c (f c) []) by (done || by rewrite app_nil_r).
  apply elem_of_app. left. apply elem_of_blocks. eauto.
Qed.

Lemma free_regions_inv f r :
  r ∈ free_regions f → ∃ c a, c ≠ BuddyAllocator ∧ a ∈ f c ∧ r = (a, blk_size c).
Proof.
  unfold free_regions. rewrite list_elem_of_bind. intros (c & Hr & Hc).
  apply elem_of_blocks in Hr as (a & Ha & ->). exists c, a. split_and!; try done.
  intros ->. unfold slab_classes in Hc. set_solver.
Qed.

(** Free lists of different slabs share no block, and none has one twice. *)
Lemma free_blocks_distinct f H c c' a :
  pairwise_disj (slab_regions f H) → c ≠ BuddyAllocator → c' ≠ BuddyAllocator → c ≠ c' →
  a ∈ f c → a ∉ f c'.
Proof.
  intros Hd Hc Hc' Hne Ha Ha'. unfold slab_regions in Hd.
  apply pairwise_disj_app in Hd as (Hd & _ & _).
  pose proof (pairwise_disj_elem _ (a, blk_size c) (a, blk_size c') Hd) as Hr.
  pose proof (blk_size_inj c c' Hne). pose proof (blk_size_pos c Hc).
  pose proof (blk_size_pos c' Hc'). destruct Hr; simpl in *; try lia;
    [by apply elem_of_free_regions..|congruence].
Qed.

Lemma free_blocks_NoDup f H c :
  pairwise_disj (slab_regions f H) → c ≠ BuddyAllocator → NoDup (f c).
Proof.
  intros Hd Hc. apply pairwise_disj_app in Hd as (Hd & _ & _).
  rewrite (free_regions_take f c (f c) []) in Hd by (done || by rewrite app_nil_r).
  apply pairwise_disj_app in Hd as (Hd & _ & _). by apply pairwise_disj_blocks_NoDup in Hd.
Qed.

(** Handing a free block out, and back, keeps the blocks. *)
Lemma slab_regions_take f c x l layout H :
  c ≠ BuddyAllocator → f c = x :: l → layout_to_allocator layout = c →
  slab_regions (<[c := l]> f) ((x, layout) :: H) ≡ₚ slab_regions f H.
Proof.
  intros Hc Hf Hl. unfold slab_regions, held_slabs.
  rewrite (free_regions_take f c [x] l) by done.
  rewrite filter_cons_True by (simpl; congruence). simpl.
  unfold held_region at 1. simpl. rewrite usable_size_eq.
  rewrite decide_False by congruence. rewrite Hl. solve_Permutation.
Qed.

Lemma slab_regions_put f c x layout H :
  c ≠ BuddyAllocator → layout_to_allocator layout = c →
  slab_regions (<[c := x :: f c]> f) H ≡ₚ slab_regions f ((x, layout) :: H).
Proof.
  intros Hc Hl. rewrite <- (slab_regions_take (<[c := x :: f c]> f) c x (f c) layout)
    by (done || by rewrite fn_lookup_insert).
  apply reflexive_eq. unfold slab_regions. f_equal. apply free_regions_ext.
  intros c'. destruct (decide (c = c')) as [->|Hne].
  - by rewrite fn_lookup_insert.
  - by rewrite !fn_lookup_insert_ne.
Qed.

Lemma cut_blocks_disj start c n :
  c ≠ BuddyAllocator → pairwise_disj (blocks c (cut start (blk_size c) n)).
Proof.
  intros Hc. pose proof (blk_size_pos c Hc) as Hb.
  assert (∀ js, NoDup js →
    pairwise_disj (blocks c ((λ i, start + i * blk_size c) <$> js))) as Hall.
  { intros js. induction 1 as [|i js Hi Hnd IH]; simpl; [done|]. split; [|done].
    apply Forall_forall. intros r Hr. apply elem_of_blocks in Hr as (a & Ha & ->).
    apply list_elem_of_fmap in Ha as (j & -> & Hj). unfold rdisj. simpl.
    assert (i ≠ j) by (by intros ->). nia. }
  apply Hall, NoDup_seqZ.
Qed.

Lemma cut_blocks_in start c n r :
  c ≠ BuddyAllocator → r ∈ blocks c (cut start (blk_size c) n) →
  rsub r (start, n * blk_size c).
Proof.
  intros Hc Hr. apply elem_of_blocks in Hr as (a & Ha & ->).
  apply elem_of_cut in Ha as (i & Hi & ->). pose proof (blk_size_pos c Hc).
  unfold rsub; simpl. nia.
Qed.

(** Within the alignments a slab offers, its blocks are aligned as asked. *)
Lemma layout_aligned l a :
  layout_ok l → lay_align l ≤ 4096 → layout_to_allocator l ≠ BuddyAllocator →
  (blk_size (layout_to_allocator l) | a) → (lay_align l | a).
Proof.
  intros [Hp _] Ha Hc Hd. etransitivity; [|exact Hd].
  apply is_power_of_two_spec in Hp as (k & Hk & Hal). rewrite Hal in *.
  assert (∃ j, k ≤ j ∧ blk_size (layout_to_allocator l) = 2 ^ j) as (j & Hj & ->).
  2: { apply pow2_divides. lia. }
  assert (∀ j, 0 ≤ j → 2 ^ k ≤ 2 ^ j → k ≤ j) as Hle.
  { intros j Hj Hkj. by apply Z.pow_le_mono_r_iff in Hkj. }
  unfold layout_to_allocator in *. rewrite Hal in *.
  repeat case_match; bool_to_prop; try done; simpl.
  - exists 6. split; [by apply Hle|done].
  - exists 7. split; [by apply Hle|done].
  - exists 8. split; [by apply Hle|done].
  - exists 9. split; [by apply Hle|done].
  - exists 10. split; [by apply Hle|done].
  - exists 11. split; [by apply Hle|done].
  - exists 12. split; [by apply Hle|done].
Qed.

Lemma layout_fits l : lay_size l ≤ (usable_size l).2.
Proof.
  unfold usable_size, layout_to_allocator. repeat case_match; simplify_eq/=; bool_to_prop; lia.
Qed.

End heap_facts.

(** ** Operations keep the invariant *)

Section heap_inv.
Context {B : Type} `{BH : !BuddyHeap B} {bok : B → Prop} {managed owned : B → list region}.
Context `{L : !BuddyHeapLaws BH bok managed owned}.
Implicit Types (h : Heap B) (f : HeapAllocator → list Z) (c : HeapAllocator).

(** [f c] are the free blocks of slab [c], [S] the regions the slabs got from
    the buddy allocator. *)
Record heap_inv (h : Heap B) (m : blkmem) (H : held) (f : HeapAllocator → list Z)
    (S : list region) : Prop := {
  hi_slab c s : slab_of c h = Some s →
    is_fbl m (free_block_list s) (f c) ∧
    total_blocks s = wrap 64 (Z.of_nat (length (f c)) + Z.of_nat (length (held_in c H)));
  hi_disj : pairwise_disj (slab_regions f H);
  hi_in r : r ∈ slab_regions f H → ∃ s, s ∈ S ∧ rsub r s;
  hi_align c a : c ≠ BuddyAllocator → a ∈ f c → (blk_size c | a) ∧ 0 < a;
  hi_held x : x ∈ H → layout_ok x.2 ∧ 0 < x.1 ∧
    (if decide (layout_to_allocator x.2 = BuddyAllocator)
     then (lay_align x.2 | x.1) else (blk_size (layout_to_allocator x.2) | x.1));
  hi_ok : bok (buddy_allocator h);
  hi_owned : owned (buddy_allocator h) ≡ₚ S ++ (held_region <$> held_in BuddyAllocator H);
  hi_odisj : pairwise_disj (owned (buddy_allocator h));
}.

Lemma slab_of_not_buddy c h s : slab_of c h = Some s → c ≠ BuddyAllocator.
Proof. by destruct c. Qed.

Lemma slab_of_with_slab c c' s s0 h :
  slab_of c h = Some s0 →
  slab_of c' (with_slab c s h) = if decide (c = c') then Some s else slab_of c' h.
Proof. intros Hc. apply slab_of_not_buddy in Hc. by destruct c, c'. Qed.

Lemma slab_of_with_buddy c b h : slab_of c (with_buddy b h) = slab_of c h.
Proof. by destruct c. Qed.

Lemma heap_inv_perm h m H H' f S : H ≡ₚ H' → heap_inv h m H f S → heap_inv h m H' f S.
Proof.
  intros HH []. split; intros.
  - rewrite <- HH. auto.
  - by rewrite <- HH.
  - apply hi_in0. by rewrite HH.
  - auto.
  - apply hi_held0. by rewrite HH.
  - done.
  - by rewrite <- HH.
  - done.
Qed.

(** Holders may write to their blocks. *)
Lemma heap_inv_write h m m' H f S :
  heap_inv h m H f S →
  (∀ a, m' a ≠ m a → ∃ x, x ∈ H ∧ x.1 ≤ a < x.1 + (usable_size x.2).2) →
  heap_inv h m' H f S.
Proof.
  intros HI Hm. assert (∀ c a, c ≠ BuddyAllocator → a ∈ f c → m' a = m a) as Hsame.
  { intros c a Hc Ha. destruct (decide (m' a = m a)) as [|Hne]; [done|]. exfalso.
    destruct (Hm a Hne) as ([p l] & Hx & Hr). simpl in *.
    assert ((a, blk_size c) ∈ free_regions f) as Hfr by by apply elem_of_free_regions.
    pose proof (blk_size_pos c Hc) as Hb. rewrite usable_size_eq in Hr. case_decide as Hl.
    - destruct (hi_in _ _ _ _ _ HI (a, blk_size c)) as (s & Hs & Hsub).
      { apply elem_of_app. by left. }
      pose proof (hi_odisj _ _ _ _ _ HI) as Hd. rewrite (hi_owned _ _ _ _ _ HI) in Hd.
      apply pairwise_disj_app in Hd as (_ & _ & Hd).
      pose proof (proj1 (Forall_forall _ _) Hd _ Hs) as Hd'.
      assert (held_region (p, l) ∈ held_region <$> held_in BuddyAllocator H) as Hp.
      { apply list_elem_of_fmap. exists (p, l). split; [done|]. by apply list_elem_of_filter. }
      pose proof (proj1 (Forall_forall _ _) Hd' _ Hp) as Hrd. revert Hrd Hsub.
      unfold rdisj, rsub, held_region. simpl. rewrite usable_size_eq, decide_True by done. lia.
    - pose proof (hi_disj _ _ _ _ _ HI) as Hd. apply pairwise_disj_app in Hd as (_ & _ & Hd).
      pose proof (proj1 (Forall_forall _ _) Hd _ Hfr) as Hd'.
      assert (held_region (p, l) ∈ held_region <$> held_slabs H) as Hp.
      { apply list_elem_of_fmap. exists (p, l). split; [done|]. by apply list_elem_of_filter. }
      pose proof (proj1 (Forall_forall _ _) Hd' _ Hp) as Hrd. revert Hrd.
      unfold rdisj, held_region. simpl. rewrite usable_size_eq, decide_False by done. lia. }
  destruct HI. split; try done. intros c s Hs. destruct (hi_slab0 c s Hs) as [Hl Ht].
  split; [|done]. eapply is_fbl_frame; [|done]. intros a Ha. apply (Hsame c); [|done].
  by eapply slab_of_not_buddy.
Qed.

(** The free lists that do not change are not touched. *)
Lemma other_slabs h m m' H f S c (xs : list Z) s l' :
  heap_inv h m H f S → c ≠ BuddyAllocator →
  (∀ x, x ∉ xs → m' x = m x) →
  (∀ c' x, c' ≠ BuddyAllocator → c' ≠ c → x ∈ xs → x ∉ f c') →
  ∀ c' s', c' ≠ c → slab_of c' (with_slab c s h) = Some s' →
    is_fbl m' (free_block_list s') ((<[c := l']> f) c') ∧
    total_blocks s' = wrap 64 (Z.of_nat (length ((<[c := l']> f) c')) + Z.of_nat (length (held_in c' H))).
Proof.
  intros HI Hc Hm Hx c' s' Hne Hs'.
  assert (slab_of c' h = Some s') as Hs by (revert Hs'; by destruct c, c').
  rewrite fn_lookup_insert_ne by done. destruct (hi_slab _ _ _ _ _ HI c' s' Hs) as [Hl Ht].
  split; [|done]. eapply is_fbl_frame; [|done]. intros x Hin. apply Hm. intros Hxs.
  by apply (Hx c' x (slab_of_not_buddy _ _ _ Hs)).
Qed.

Lemma held_in_cons_eq c x H : layout_to_allocator x.2 = c → held_in c (x :: H) = x :: held_in c H.
Proof. intros. unfold held_in. by rewrite filter_cons_True. Qed.

Lemma held_in_cons_ne c x H : layout_to_allocator x.2 ≠ c → held_in c (x :: H) = held_in c H.
Proof. intros. unfold held_in. by rewrite filter_cons_False. Qed.

Lemma heap_take h m H f S c s x l layout :
  heap_inv h m H f S → slab_of c h = Some s → f c = x :: l →
  layout_to_allocator layout = c → layout_ok layout →
  ∃ fl m', fbl_pop (free_block_list s) m = (Some x, fl, m') ∧
    heap_inv (with_slab c {| free_block_list := fl; total_blocks := total_blocks s |} h) m'
      ((x, layout) :: H) (<[c := l]> f) S.
Proof.
  intros HI Hs Hf Hlay Hlok. pose proof (slab_of_not_buddy _ _ _ Hs) as Hc.
  destruct (hi_slab _ _ _ _ _ HI c s Hs) as [Hl Ht].
  pose proof (free_blocks_NoDup f H c (hi_disj _ _ _ _ _ HI) Hc) as Hnd.
  rewrite Hf in Hl, Ht, Hnd. apply NoDup_cons in Hnd as [Hx Hnd].
  destruct (fbl_pop_cons m _ x l Hl Hx) as (fl & Hpop & Hl'). exists fl, (<[x := None]> m).
  split; [done|].
  assert (x ∈ f c) as Hxf by (rewrite Hf; left).
  destruct (hi_align _ _ _ _ _ HI c x Hc Hxf) as [Hxa Hx0]. split.
  - intros c' s' Hs'. destruct (decide (c' = c)) as [->|Hne].
    + rewrite (slab_of_with_slab c c _ s h Hs), decide_True in Hs' by done. simplify_eq/=.
      rewrite fn_lookup_insert, held_in_cons_eq by done. split; [done|].
      rewrite Ht. simpl. f_equal. lia.
    + rewrite held_in_cons_ne by (simpl; congruence).
      eapply (other_slabs h m _ H f S c [x]); eauto.
      * intros y Hy. apply fn_lookup_insert_ne. set_solver.
      * intros c2 y Hc2 Hne2 Hy. apply list_elem_of_singleton in Hy as ->.
        by eapply (free_blocks_distinct f H c c2); [apply HI|..].
  - rewrite slab_regions_take by done. apply HI.
  - intros r. rewrite slab_regions_take by done. apply HI.
  - intros c' a Hc' Ha. apply (hi_align _ _ _ _ _ HI c' a Hc').
    destruct (decide (c = c')) as [->|Hne].
    + rewrite fn_lookup_insert in Ha. rewrite Hf. by right.
    + by rewrite fn_lookup_insert_ne in Ha.
  - intros y Hy. apply elem_of_cons in Hy as [->|Hy]; [|by apply HI]. simpl.
    rewrite decide_False by congruence. by rewrite Hlay.
  - apply HI.
  - rewrite held_in_cons_ne by (simpl; congruence). apply HI.
  - apply HI.
Qed.

Lemma heap_put h m H f S c s x layout :
  heap_inv h m ((x, layout) :: H) f S → slab_of c h = Some s →
  layout_to_allocator layout = c →
  ∃ fl m', fbl_push x (free_block_list s) m = (fl, m') ∧
    heap_inv (with_slab c {| free_block_list := fl; total_blocks := total_blocks s |} h) m'
      H (<[c := x :: f c]> f) S.
Proof.
  intros HI Hs Hlay. pose proof (slab_of_not_buddy _ _ _ Hs) as Hc.
  destruct (hi_slab _ _ _ _ _ HI c s Hs) as [Hl Ht].
  pose proof (hi_disj _ _ _ _ _ HI) as Hd. rewrite <- slab_regions_put in Hd by done.
  pose proof (free_blocks_NoDup _ H c Hd Hc) as Hnd. rewrite fn_lookup_insert in Hnd.
  apply NoDup_cons in Hnd as [Hx Hnd].
  destruct (fbl_push_spec m _ x (f c) Hl Hx) as (fl & m' & Hpush & Hl' & Hm'). exists fl, m'.
  split; [done|].
  destruct (hi_held _ _ _ _ _ HI (x, layout)) as (_ & Hx0 & Hxa); [left|]. simpl in Hx0, Hxa.
  rewrite decide_False, Hlay in Hxa by congruence. split.
  - intros c' s' Hs'. destruct (decide (c' = c)) as [->|Hne].
    + rewrite (slab_of_with_slab c c _ s h Hs), decide_True in Hs' by done. simplify_eq/=.
      rewrite fn_lookup_insert. split; [done|].
      rewrite Ht, held_in_cons_eq by done. simpl. f_equal. lia.
    + rewrite <- (held_in_cons_ne c' (x, layout) H) by (simpl; congruence).
      eapply (other_slabs h m _ _ f S c [x]); eauto.
      * intros y Hy. apply Hm'. set_solver.
      * intros c2 y Hc2 Hne2 Hy. apply list_elem_of_singleton in Hy as ->.
        replace (f c2) with ((<[c := x :: f c]> f) c2) by (by apply fn_lookup_insert_ne).
        eapply (free_blocks_distinct _ H c c2); eauto. rewrite fn_lookup_insert. left.
  - done.
  - intros r. rewrite slab_regions_put by done. apply HI.
  - intros c' a Hc' Ha. destruct (decide (c = c')) as [->|Hne].
    + rewrite fn_lookup_insert in Ha. apply elem_of_cons in Ha as [->|Ha]; [done|].
      by apply (hi_align _ _ _ _ _ HI).
    + rewrite fn_lookup_insert_ne in Ha by done. by apply (hi_align _ _ _ _ _ HI).
  - intros y Hy. apply HI. by right.
  - apply HI.
  - rewrite <- (held_in_cons_ne BuddyAllocator (x, layout)) by (simpl; congruence). apply HI.
  - apply HI.
Qed.

Lemma slab_regions_grow f c bs H :
  c ≠ BuddyAllocator →
  slab_regions (<[c := reverse bs ++ f c]> f) H ≡ₚ blocks c bs ++ slab_regions f H.
Proof.
  intros Hc. unfold slab_regions. rewrite free_regions_insert, (assoc_L (++)) by done.
  unfold blocks. by rewrite reverse_Permutation.
Qed.

(** The blocks cut from a new region are apart from all others. *)
Lemma grown_disj h m H f S c p n :
  heap_inv h m H f S → c ≠ BuddyAllocator →
  Forall (rdisj (p, n * blk_size c)) (owned (buddy_allocator h)) →
  pairwise_disj (blocks c (cut p (blk_size c) n) ++ slab_regions f H).
Proof.
  intros HI Hc Hd. apply pairwise_disj_app. split_and!; [by apply cut_blocks_disj|apply HI|].
  apply Forall_forall. intros r Hr. apply cut_blocks_in in Hr; [|done].
  apply Forall_forall. intros t Ht. destruct (hi_in _ _ _ _ _ HI t Ht) as (s & Hs & Hsub).
  eapply rdisj_sub; [done..|]. apply (proj1 (Forall_forall _ _) Hd).
  rewrite (hi_owned _ _ _ _ _ HI). apply elem_of_app. by left.
Qed.

Lemma heap_grown h m H f S c s p b :
  heap_inv h m H f S → slab_of c h = Some s →
  bh_alloc {| lay_size := SET_SIZE * blk_size c; lay_align := 4096 |} (buddy_allocator h) = (Some p, b) →
  ∃ s' m', slab_grow (blk_size c) p (SET_SIZE * blk_size c) s m = Done (s', m') ∧
    heap_inv (with_slab c s' (with_buddy b h)) m' H
      (<[c := reverse (cut p (blk_size c) SET_SIZE) ++ f c]> f) ((p, SET_SIZE * blk_size c) :: S).
Proof.
  intros HI Hs Hal. pose proof (slab_of_not_buddy _ _ _ Hs) as Hc.
  pose proof (blk_size_pos c Hc) as Hb. unfold SET_SIZE in *.
  pose proof (law_bh_alloc {| lay_size := 64 * blk_size c; lay_align := 4096 |} _
    (hi_ok _ _ _ _ _ HI) eq_refl) as Hlaw. rewrite Hal in Hlaw. simpl in Hlaw.
  destruct Hlaw as (Hok & _ & Hown & Hdis & Hp & Hend & Hpal); [lia|].
  pose proof (grown_disj _ _ _ _ _ c p 64 HI Hc Hdis) as Hgd.
  pose proof Hgd as Hgd'. rewrite <- slab_regions_grow in Hgd' by done.
  destruct (hi_slab _ _ _ _ _ HI c s Hs) as [Hl Ht].
  destruct (slab_grow_spec (blk_size c) p 64 s m (f c)) as (s' & m' & Hgrow & Hl' & Ht' & Hm');
    [done..| |].
  { pose proof (free_blocks_NoDup _ H c Hgd' Hc) as Hnd. rewrite fn_lookup_insert in Hnd.
    by rewrite reverse_Permutation in Hnd. }
  exists s', m'. split; [done|].
  assert (∀ c', slab_of c' (with_slab c s' (with_buddy b h)) = slab_of c' (with_slab c s' h)) as Heq
    by by intros [].
  split.
  - intros c' s2 Hs2. rewrite Heq in Hs2. destruct (decide (c' = c)) as [->|Hne].
    + rewrite (slab_of_with_slab c c _ s h Hs), decide_True in Hs2 by done. simplify_eq.
      rewrite fn_lookup_insert. split; [done|]. rewrite Ht', Ht, length_app, length_reverse.
      unfold cut. rewrite length_fmap, length_seqZ. unfold wadd, wrap.
      rewrite Zplus_mod_idemp_l. f_equal. lia.
    + eapply (other_slabs h m _ H f S c (cut p (blk_size c) 64)); eauto.
      intros c2 x Hc2 Hne2 Hx.
      replace (f c2) with ((<[c := reverse (cut p (blk_size c) 64) ++ f c]> f) c2)
        by (by apply fn_lookup_insert_ne).
      eapply (free_blocks_distinct _ H c c2); eauto. rewrite fn_lookup_insert.
      apply elem_of_app. left. by rewrite reverse_Permutation.
  - done.
  - intros r. rewrite slab_regions_grow by done. rewrite elem_of_app. intros [Hr|Hr].
    + apply cut_blocks_in in Hr; [|done]. eexists. split; [left|done].
    + destruct (hi_in _ _ _ _ _ HI r Hr) as (t & ? & ?). exists t. split; [by right|done].
  - intros c' a Hc' Ha. destruct (decide (c = c')) as [->|Hne].
    + rewrite fn_lookup_insert in Ha. apply elem_of_app in Ha as [Ha|Ha]; [|by eapply hi_align].
      rewrite reverse_Permutation in Ha. apply elem_of_cut in Ha as (i & Hi & ->). split; [|nia].
      apply Z.divide_add_r; [|by apply Z.divide_factor_r]. etransitivity; [|exact Hpal].
      destruct c'; try done; by apply Z.mod_divide.
    + rewrite fn_lookup_insert_ne in Ha by done. by eapply hi_align.
  - apply HI.
  - done.
  - simpl. rewrite Hown. simpl. by rewrite (hi_owned _ _ _ _ _ HI).
  - simpl. rewrite Hown. split; [done|apply HI].
Qed.

Lemma held_region_buddy p layout :
  layout_to_allocator layout = BuddyAllocator → held_region (p, layout) = (p, lay_size layout).
Proof. intros. unfold held_region. simpl. by rewrite usable_size_eq, decide_True. Qed.

(** A request served by the buddy allocator itself. *)
Lemma heap_buddy_take h m H f S layout p b :
  heap_inv h m H f S → layout_ok layout → layout_to_allocator layout = BuddyAllocator →
  bh_alloc layout (buddy_allocator h) = (Some p, b) →
  heap_inv (with_buddy b h) m ((p, layout) :: H) f S.
Proof.
  intros HI Hlok Hlay Hal. destruct Hlok as [Hpow Hsz].
  pose proof (law_bh_alloc layout _ (hi_ok _ _ _ _ _ HI) Hpow Hsz) as Hlaw. rewrite Hal in Hlaw.
  destruct Hlaw as (Hok & _ & Hown & Hdis & Hp & Hend & Hpal).
  assert (slab_regions f ((p, layout) :: H) = slab_regions f H) as Hsr.
  { unfold slab_regions, held_slabs. rewrite filter_cons_False; [done|]. simpl. tauto. }
  split.
  - intros c s Hs. rewrite slab_of_with_buddy in Hs. pose proof (slab_of_not_buddy _ _ _ Hs).
    rewrite held_in_cons_ne by (simpl; congruence). by apply HI.
  - rewrite Hsr. apply HI.
  - rewrite Hsr. apply HI.
  - apply HI.
  - intros x Hx. apply elem_of_cons in Hx as [->|Hx]; [|by apply HI]. simpl.
    by rewrite decide_True.
  - done.
  - simpl. rewrite Hown, held_in_cons_eq, (hi_owned _ _ _ _ _ HI) by done. simpl.
    rewrite held_region_buddy by done. solve_Permutation.
  - simpl. rewrite Hown. split; [done|apply HI].
Qed.

Lemma heap_buddy_put h m H f S layout p :
  heap_inv h m ((p, layout) :: H) f S → layout_to_allocator layout = BuddyAllocator →
  heap_inv (with_buddy (bh_dealloc p layout (buddy_allocator h)) h) m H f S.
Proof.
  intros HI Hlay.
  pose proof (hi_owned _ _ _ _ _ HI) as Hown. rewrite held_in_cons_eq in Hown by done.
  simpl in Hown. rewrite held_region_buddy, <- Permutation_middle in Hown by done.
  destruct (law_bh_dealloc p layout _ _ (hi_ok _ _ _ _ _ HI) Hown) as (Hok & _ & Hown').
  assert (slab_regions f ((p, layout) :: H) = slab_regions f H) as Hsr.
  { unfold slab_regions, held_slabs. rewrite filter_cons_False; [done|]. simpl. tauto. }
  split.
  - intros c s Hs. rewrite slab_of_with_buddy in Hs. pose proof (slab_of_not_buddy _ _ _ Hs).
    rewrite <- (held_in_cons_ne c (p, layout)) by (simpl; congruence). by apply HI.
  - rewrite <- Hsr. apply HI.
  - rewrite <- Hsr. apply HI.
  - apply HI.
  - intros x Hx. apply HI. by right.
  - done.
  - done.
  - simpl. rewrite Hown'. pose proof (hi_odisj _ _ _ _ _ HI) as Hd.
    rewrite Hown in Hd. apply Hd.
Qed.

(** A buddy heap with the same outstanding blocks. *)
Lemma heap_inv_buddy h m H f S b :
  heap_inv h m H f S → bok b → owned b ≡ₚ owned (buddy_allocator h) →
  heap_inv (with_buddy b h) m H f S.
Proof.
  intros HI Hok Hown. destruct HI. split; try done; simpl.
  - by rewrite Hown.
  - by rewrite Hown.
Qed.

Lemma heap_allocate_slab c s layout h m :
  layout_to_allocator layout = c → slab_of c h = Some s →
  heap_allocate layout h m = alloc_in c (blk_size c) layout s h m.
Proof. unfold heap_allocate. intros -> Hs. destruct c; by simplify_eq/=. Qed.

Lemma heap_deallocate_slab c s layout h m ptr :
  layout_to_allocator layout = c → slab_of c h = Some s →
  heap_deallocate ptr layout h m = Done (dealloc_in c ptr s h m).
Proof. unfold heap_deallocate. intros -> Hs. destruct c; by simplify_eq/=. Qed.

Lemma slab_of_some c h : c ≠ BuddyAllocator → ∃ s, slab_of c h = Some s.
Proof. destruct c; try done; eauto. Qed.

Lemma with_buddy_self h : with_buddy (buddy_allocator h) h = h.
Proof. by destruct h. Qed.

Lemma with_slab_slab c s s' h : with_slab c s (with_slab c s' h) = with_slab c s h.
Proof. by destruct c. Qed.

Lemma with_slab_buddy c s b h : with_slab c s (with_buddy b h) = with_buddy b (with_slab c s h).
Proof. done. Qed.

Lemma with_slab_same c s h : slab_of c h = Some s → with_slab c s h = h.
Proof. destruct h, c; intros; by simplify_eq/=. Qed.


Definition heap_good (h : Heap B) (m : blkmem) (H : held) : Prop := ∃ f S, heap_inv h m H f S.

Lemma alloc_in_nonempty h m H f S c s x l layout :
  heap_inv h m H f S → slab_of c h = Some s → f c = x :: l →
  layout_to_allocator layout = c → layout_ok layout →
  ∃ s' m', slab_allocate (blk_size c) layout s (buddy_allocator h) m
             = Done (Ok x, s', buddy_allocator h, m') ∧
    heap_good (with_slab c s' h) m' ((x, layout) :: H).
Proof.
  intros HI Hs Hf Hlay Hlok.
  destruct (heap_take _ _ _ _ _ c s x l layout HI Hs Hf Hlay Hlok) as (fl & m' & Hpop & HI').
  unfold slab_allocate. rewrite Hpop. do 2 eexists. split; [done|]. by do 2 eexists.
Qed.

(** A request to a slab whose free list is empty. *)
Lemma alloc_in_empty h m H f S c s layout :
  heap_inv h m H f S → slab_of c h = Some s → f c = [] →
  layout_to_allocator layout = c → layout_ok layout →
  ∃ r s' b m', slab_allocate (blk_size c) layout s (buddy_allocator h) m = Done (r, s', b, m') ∧
    managed b ≡ₚ managed (buddy_allocator h) ∧
    match r with
    | Ok p => heap_good (with_slab c s' (with_buddy b h)) m' ((p, layout) :: H)
    | Err _ => heap_good (with_slab c s' (with_buddy b h)) m' H ∧
        ∃ lay, (bh_alloc lay (buddy_allocator h)).1 = None
    end.
Proof.
  intros HI Hs Hf Hlay Hlok. pose proof (slab_of_not_buddy _ _ _ Hs) as Hc.
  destruct (hi_slab _ _ _ _ _ HI c s Hs) as [Hl _]. rewrite Hf in Hl.
  unfold slab_allocate. rewrite (fbl_pop_nil _ _ Hl).
  pose proof (law_bh_alloc {| lay_size := SET_SIZE * blk_size c; lay_align := 4096 |} _
    (hi_ok _ _ _ _ _ HI) eq_refl) as Hlaw.
  destruct (bh_alloc _ _) as [[p|] b] eqn:Hal; simpl in Hlaw.
  - destruct Hlaw as (_ & Hman & _); [by destruct c|].
    destruct (heap_grown _ _ _ _ _ c s p b HI Hs Hal) as (s1 & m1 & -> & HI1).
    simpl. rewrite Hf, app_nil_r in HI1.
    assert (slab_of c (with_slab c s1 (with_buddy b h)) = Some s1) as Hs1
      by (destruct c; done).
    destruct (reverse (cut p (blk_size c) SET_SIZE)) as [|x l] eqn:Hcut.
    { apply (f_equal length) in Hcut. by rewrite length_reverse in Hcut. }
    destruct (heap_take _ _ _ _ _ c s1 x l layout HI1 Hs1) as (fl & m2 & -> & HI2);
      [by rewrite fn_lookup_insert|done..|].
    do 4 eexists. split; [done|]. split; [done|]. rewrite with_slab_slab in HI2. by do 2 eexists.
  - destruct Hlaw as (Hok & Hman & Hown); [by destruct c|].
    do 4 eexists. split; [done|]. split; [done|]. split.
    + exists f, S. rewrite with_slab_buddy, (with_slab_same _ _ _ Hs). by apply heap_inv_buddy.
    + eexists. by rewrite Hal.
Qed.

Lemma heap_allocate_spec h m H layout :
  heap_good h m H → layout_ok layout →
  ∃ r h' m', heap_allocate layout h m = Done (r, h', m') ∧
    managed (buddy_allocator h') ≡ₚ managed (buddy_allocator h) ∧
    match r with
    | Ok p => heap_good h' m' ((p, layout) :: H)
    | Err _ => heap_good h' m' H ∧ ∃ lay, (bh_alloc lay (buddy_allocator h)).1 = None
    end.
Proof.
  intros (f & S & HI) Hlok. destruct (decide (layout_to_allocator layout = BuddyAllocator)) as [Hb|Hb].
  - unfold heap_allocate. rewrite Hb. pose proof (law_bh_alloc layout _ (hi_ok _ _ _ _ _ HI)) as Hlaw.
    destruct (bh_alloc _ _) as [[p|] b] eqn:Hal; destruct Hlaw as (Hok & Hman & Hown); try apply Hlok;
      do 3 eexists; (split; [done|]; split; [done|]).
    + exists f, S. by eapply heap_buddy_take.
    + split; [exists f, S; by apply heap_inv_buddy|]. eexists. by rewrite Hal.
  - destruct (slab_of_some _ h Hb) as [s Hs]. rewrite (heap_allocate_slab _ s _ _ _ eq_refl Hs).
    unfold alloc_in. destruct (f (layout_to_allocator layout)) as [|x l] eqn:Hf.
    + destruct (alloc_in_empty _ _ _ _ _ _ s layout HI Hs Hf) as (r & s' & b & m' & -> & Hman & Hr);
        [done..|]. simpl. do 3 eexists. split; [done|]. by split.
    + destruct (alloc_in_nonempty _ _ _ _ _ _ s x l layout HI Hs Hf) as (s' & m' & -> & Hg); [done..|].
      simpl. do 3 eexists. split; [done|]. split; [done|]. by rewrite with_buddy_self.
Qed.

Lemma heap_deallocate_spec h m H p layout :
  heap_good h m ((p, layout) :: H) →
  ∃ h' m', heap_deallocate p layout h m = Done (h', m') ∧ heap_good h' m' H ∧
    managed (buddy_allocator h') ≡ₚ managed (buddy_allocator h).
Proof.
  intros (f & S & HI). destruct (decide (layout_to_allocator layout = BuddyAllocator)) as [Hb|Hb].
  - destruct (hi_held _ _ _ _ _ HI (p, layout)) as (_ & Hp & _); [left|]. simpl in Hp.
    unfold heap_deallocate. rewrite Hb. destruct (Z.eqb_spec p 0); [lia|]. simpl.
    do 2 eexists. split; [done|]. split; [exists f, S; by apply heap_buddy_put|].
    pose proof (hi_owned _ _ _ _ _ HI) as Hown. rewrite held_in_cons_eq in Hown by done.
    simpl in Hown. rewrite held_region_buddy, <- Permutation_middle in Hown by done.
    by destruct (law_bh_dealloc p layout _ _ (hi_ok _ _ _ _ _ HI) Hown) as (_ & Hman & _).
  - destruct (slab_of_some _ h Hb) as [s Hs]. rewrite (heap_deallocate_slab _ s _ _ _ _ eq_refl Hs).
    destruct (heap_put _ _ _ _ _ _ s p layout HI Hs eq_refl) as (fl & m' & Hpush & HI').
    unfold dealloc_in, slab_deallocate. rewrite Hpush. do 2 eexists. split; [done|].
    split; [by do 2 eexists|done].
Qed.

Lemma divide_mod0 (a b : Z) : 0 < b → (b | a) → a mod b = 0.
Proof. intros. apply Z.mod_divide; [lia|done]. Qed.

Lemma heap_add_memory_spec h m H start size :
  heap_good h m H → 0 < start → 0 ≤ size → start + size < 2 ^ 64 →
  (4096 | start) → (4096 | size) → Forall (rdisj (start, size)) (managed (buddy_allocator h)) →
  ∃ h', heap_add_memory start size h = Done h' ∧ heap_good h' m H ∧
    managed (buddy_allocator h') ≡ₚ (start, size) :: managed (buddy_allocator h).
Proof.
  intros (f & S & HI) Hs Hsz He Hd1 Hd2 Hdis. unfold heap_add_memory.
  rewrite !divide_mod0 by done. simpl.
  rewrite wadd_small by (unfold is_usize; lia).
  pose proof (law_bh_add start (start + size) _ (hi_ok _ _ _ _ _ HI)) as Hlaw.
  replace (start + size - start) with size in Hlaw by lia.
  destruct Hlaw as (Hok & Hman & Hown); [lia|lia|done|].
  eexists. split; [done|]. split; [|done]. exists f, S. by apply heap_inv_buddy.
Qed.

Lemma heap_new_spec start size m :
  0 < start → (4096 | start) → MIN_HEAP_SIZE ≤ size → (MIN_HEAP_SIZE | size) →
  start + size ≤ 2 ^ 64 →
  ∃ h, heap_new start size m = Done (h, m) ∧ heap_good h m [] ∧
    managed (buddy_allocator h) = [(start, size)].
Proof.
  intros Hs Hd1 Hsz Hd2 He. unfold heap_new. unfold MIN_HEAP_SIZE in *.
  rewrite !divide_mod0 by done. destruct (Z.leb_spec 0x8000 size); [|lia]. simpl.
  destruct (law_bh_init start size) as (Hok & Hman & Hown); [lia..|].
  eexists. split; [done|]. split; [|done]. exists (λ _, []), []. split; simpl; try done.
  - intros [] s Hs'; by simplify_eq/=.
  - by intros r Hr%elem_of_nil.
  - by intros c a _ Ha%elem_of_nil.
  - by intros x Hx%elem_of_nil.
  - by rewrite Hown.
  - by rewrite Hown.
Qed.

(** ** Histories *)

(** A state of the heap, the store of block links and the blocks held. *)
Inductive heap_step : Heap B * blkmem * held → Heap B * blkmem * held → Prop :=
| hs_alloc h m H layout p h' m' :
    layout_ok layout → heap_allocate layout h m = Done (Ok p, h', m') →
    heap_step (h, m, H) (h', m', (p, layout) :: H)
| hs_alloc_fail h m H layout h' m' :
    layout_ok layout → heap_allocate layout h m = Done (Err tt, h', m') →
    heap_step (h, m, H) (h', m', H)
| hs_dealloc h m H H' p layout h' m' :
    H ≡ₚ (p, layout) :: H' → heap_deallocate p layout h m = Done (h', m') →
    heap_step (h, m, H) (h', m', H')
| hs_write h m m' H :
    (∀ a, m' a ≠ m a → ∃ x, x ∈ H ∧ x.1 ≤ a < x.1 + (usable_size x.2).2) →
    heap_step (h, m, H) (h, m', H)
| hs_add_memory h m H start size h' :
    0 < start → 0 ≤ size → start + size < 2 ^ 64 → (4096 | start) → (4096 | size) →
    Forall (rdisj (start, size)) (managed (buddy_allocator h)) →
    heap_add_memory start size h = Done h' →
    heap_step (h, m, H) (h', m, H).

Lemma heap_step_good x y :
  heap_step x y → heap_good x.1.1 x.1.2 x.2 → heap_good y.1.1 y.1.2 y.2.
Proof.
  destruct 1 as [h m H layout p h' m' Hl Hr|h m H layout h' m' Hl Hr|h m H H' p layout h' m' Hp Hr
    |h m m' H Hw|h m H start size h' ? ? ? ? ? ? Hr]; simpl; intros Hg.
  - destruct (heap_allocate_spec h m H layout Hg Hl) as (r & h2 & m2 & Heq & _ & Hres).
    rewrite Heq in Hr. by simplify_eq.
  - destruct (heap_allocate_spec h m H layout Hg Hl) as (r & h2 & m2 & Heq & _ & Hres).
    rewrite Heq in Hr. simplify_eq. apply Hres.
  - destruct (heap_deallocate_spec h m H' p layout) as (h2 & m2 & Heq & Hg' & _).
    { destruct Hg as (f & S & HI). exists f, S. by eapply heap_inv_perm. }
    rewrite Heq in Hr. by simplify_eq.
  - destruct Hg as (f & S & HI). exists f, S. by eapply heap_inv_write.
  - destruct (heap_add_memory_spec h m H start size Hg) as (h2 & Heq & Hg' & _); [done..|].
    rewrite Heq in Hr. by simplify_eq.
Qed.

Lemma heap_steps_good x y :
  rtc heap_step x y → heap_good x.1.1 x.1.2 x.2 → heap_good y.1.1 y.1.2 y.2.
Proof. induction 1; [done|]. intros Hg. by eapply IHrtc, heap_step_good. Qed.

Lemma held_split (H : held) : H ≡ₚ held_slabs H ++ held_in BuddyAllocator H.
Proof.
  unfold held_slabs, held_in. induction H as [|x H IH]; [done|].
  destruct (decide (layout_to_allocator x.2 = BuddyAllocator)) as [Hb|Hb].
  - rewrite filter_cons_False, filter_cons_True by tauto.
    rewrite <- Permutation_middle. by constructor.
  - rewrite filter_cons_True, filter_cons_False by done. simpl. by constructor.
Qed.

Lemma heap_good_disj h m H : heap_good h m H → pairwise_disj (held_region <$> H).
Proof.
  intros (f & S & HI). rewrite (held_split H), fmap_app. apply pairwise_disj_app.
  pose proof (hi_disj _ _ _ _ _ HI) as Hd. apply pairwise_disj_app in Hd as (_ & Hd & _).
  pose proof (hi_odisj _ _ _ _ _ HI) as Ho. rewrite (hi_owned _ _ _ _ _ HI) in Ho.
  apply pairwise_disj_app in Ho as (_ & Ho & Hso). split_and!; [done|done|].
  apply Forall_forall. intros r Hr. destruct (hi_in _ _ _ _ _ HI r) as (s & Hs & Hsub).
  { apply elem_of_app. by right. }
  apply Forall_forall. intros t Ht. pose proof (proj1 (Forall_forall _ _) Hso _ Hs) as Hst.
  eapply rdisj_sub; [done| |exact (proj1 (Forall_forall _ _) Hst _ Ht)]. unfold rsub. lia.
Qed.

Lemma heap_good_inside h m H x :
  heap_good h m H → x ∈ H → ∃ s, s ∈ managed (buddy_allocator h) ∧ rsub (held_region x) s.
Proof.
  intros (f & S & HI) Hx. rewrite (held_split H), elem_of_app in Hx.
  assert (∃ r, r ∈ owned (buddy_allocator h) ∧ rsub (held_region x) r) as (r & Hr & Hsub).
  { destruct Hx as [Hx|Hx].
    - destruct (hi_in _ _ _ _ _ HI (held_region x)) as (s & Hs & Hsub).
      { apply elem_of_app. right. apply list_elem_of_fmap. eauto. }
      exists s. rewrite (hi_owned _ _ _ _ _ HI), elem_of_app. auto.
    - exists (held_region x). split; [|unfold rsub; lia].
      rewrite (hi_owned _ _ _ _ _ HI), elem_of_app, list_elem_of_fmap. eauto. }
  destruct (law_bh_inside _ r (hi_ok _ _ _ _ _ HI) Hr) as (s & Hs & Hsub').
  exists s. split; [done|]. by eapply rsub_trans.
Qed.

Lemma heap_good_aligned h m H x :
  heap_good h m H → x ∈ H → lay_align x.2 ≤ 4096 ∨ 4096 < lay_size x.2 → (lay_align x.2 | x.1).
Proof.
  intros (f & S & HI) Hx Ha. destruct (hi_held _ _ _ _ _ HI x Hx) as (Hl & _ & Hal).
  case_decide as Hb; [done|]. eapply layout_aligned; [done| |done..].
  destruct Ha as [|Ha]; [done|]. exfalso. apply Hb. unfold layout_to_allocator.
  destruct (Z.gtb_spec (lay_size x.2) 4096); [done|lia].
Qed.

Lemma heap_good_used h m H c s :
  heap_good h m H → slab_of c h = Some s →
  used_blocks s = wrap 64 (Z.of_nat (length (held_in c H))).
Proof.
  intros (f & S & HI) Hs. destruct (hi_slab _ _ _ _ _ HI c s Hs) as [[_ Hl] Ht].
  unfold used_blocks, wsub. rewrite Hl, Ht. unfold wrap. rewrite <- Zminus_mod. f_equal. lia.
Qed.

(** From a fresh heap, whatever sequence of allocations, deallocations of
    held blocks, extensions with disjoint memory and writes of the holders to
    their own blocks (the free lists live in the blocks themselves), the
    blocks held never overlap, lie inside memory given to the heap, are as
    large as requested and aligned as requested (up to alignment 4096, or for
    any alignment above 4096 bytes); no allocation and no deallocation of a
    held block panics; and every slab counts its blocks in use correctly. *)
Theorem slab_heap_history start size (m0 m : blkmem) (h : Heap B) (H : held) :
  0 < start → (4096 | start) → MIN_HEAP_SIZE ≤ size → (MIN_HEAP_SIZE | size) →
  start + size ≤ 2 ^ 64 →
  (∃ h0, heap_new start size m0 = Done (h0, m0) ∧ rtc heap_step (h0, m0, []) (h, m, H)) →
  pairwise_disj (held_region <$> H) ∧
  (∀ x, x ∈ H →
     (∃ s, s ∈ managed (buddy_allocator h) ∧ rsub (held_region x) s) ∧
     lay_size x.2 ≤ (held_region x).2 ∧
     (lay_align x.2 ≤ 4096 ∨ 4096 < lay_size x.2 → (lay_align x.2 | x.1)) ∧
     is_done (heap_deallocate x.1 x.2 h m) = true) ∧
  (∀ layout, layout_ok layout → is_done (heap_allocate layout h m) = true) ∧
  (∀ c s, slab_of c h = Some s → used_blocks s = wrap 64 (Z.of_nat (length (held_in c H)))).
Proof.
  intros Hs Hd1 Hsz Hd2 He (h0 & Hnew & Hsteps).
  destruct (heap_new_spec start size m0) as (h0' & Hnew' & Hg0 & _); [done..|].
  rewrite Hnew in Hnew'. simplify_eq. pose proof (heap_steps_good _ _ Hsteps Hg0) as Hg. simpl in Hg.
  split_and!.
  - by eapply heap_good_disj.
  - intros x Hx. split_and!.
    + by eapply heap_good_inside.
    + apply layout_fits.
    + by eapply heap_good_aligned.
    + apply list_elem_of_split in Hx as (H1 & H2 & ->).
      destruct (heap_deallocate_spec h m (H1 ++ H2) x.1 x.2) as (h' & m' & -> & _); [|done].
      destruct Hg as (f & S & HI). exists f, S. eapply heap_inv_perm; [|done].
      rewrite <- Permutation_middle. by destruct x.
  - intros layout Hl. by destruct (heap_allocate_spec h m H layout Hg Hl) as (r & h' & m' & -> & _).
  - intros c s. by eapply heap_good_used.
Qed.

End heap_inv.

(** ** A reference buddy heap

    It hands out memory from the last region it was given, in increasing
    order; it shows that the laws relied on can be met. *)

Record bump := { bu_man : list region; bu_cur : Z; bu_end : Z; bu_owned : list region }.

Fixpoint bu_remove (r : region) (l : list region) : list region :=
  match l with
  | [] => []
  | x :: l => if decide (x = r) then l else x :: bu_remove r l
  end.

Definition bu_align (a al : Z) : Z := (a + al - 1) `div` al * al.

Definition bump_heap : BuddyHeap bump := {|
  bh_new := {| bu_man := []; bu_cur := 1; bu_end := 1; bu_owned := [] |};
  bh_init := λ start size b,
    {| bu_man := (start, size) :: bu_man b; bu_cur := start; bu_end := start + size;
       bu_owned := bu_owned b |};
  bh_add_to_heap := λ lo hi b,
    {| bu_man := (lo, hi - lo) :: bu_man b; bu_cur := lo; bu_end := hi; bu_owned := bu_owned b |};
  bh_alloc := λ l b,
    let a := bu_align (bu_cur b) (lay_align l) in
    if a + lay_size l <=? bu_end b
    then (Some a, {| bu_man := bu_man b; bu_cur := a + lay_size l; bu_end := bu_end b;
                     bu_owned := (a, lay_size l) :: bu_owned b |})
    else (None, b);
  bh_dealloc := λ p l b,
    {| bu_man := bu_man b; bu_cur := bu_cur b; bu_end := bu_end b;
       bu_owned := bu_remove (p, lay_size l) (bu_owned b) |};
  bh_stats_total_bytes := λ b, foldr (λ r n, r.2 + n) 0 (bu_man b);
  bh_stats_alloc_actual := λ b, foldr (λ r n, r.2 + n) 0 (bu_owned b);
|}.

Record bump_ok (b : bump) : Prop := {
  bo_cur : 0 < bu_cur b ≤ bu_end b;
  bo_end : bu_end b ≤ 2 ^ 64;
  bo_free : Forall (rdisj (bu_cur b, bu_end b - bu_cur b)) (bu_owned b);
  bo_in r : r ∈ bu_owned b → ∃ s, s ∈ bu_man b ∧ rsub r s;
  bo_rest : ∃ s, s ∈ bu_man b ∧ rsub (bu_cur b, bu_end b - bu_cur b) s;
}.

Lemma bu_remove_perm r rest : ∀ l, l ≡ₚ r :: rest → bu_remove r l ≡ₚ rest.
Proof.
  intros l Hl. assert (r ∈ l) as Hr by (rewrite Hl; left).
  assert (l ≡ₚ r :: bu_remove r l) as Hp.
  { clear Hl. induction l as [|x l IH]; [by apply elem_of_nil in Hr|]. simpl.
    case_decide as Hx; [by subst|]. apply elem_of_cons in Hr as [->|Hr]; [done|].
    rewrite (IH Hr) at 1. constructor. }
  apply (Permutation_cons_inv (a := r)). by rewrite <- Hp.
Qed.

Lemma bu_align_spec a al : 0 < al → a ≤ bu_align a al ∧ (al | bu_align a al).
Proof.
  intros Ha. unfold bu_align. split; [|by apply Z.divide_factor_r].
  pose proof (Z.div_mod (a + al - 1) al). pose proof (Z.mod_pos_bound (a + al - 1) al). lia.
Qed.

#[global] Instance bump_heap_laws : BuddyHeapLaws bump_heap bump_ok bu_man bu_owned.
Proof.
  split.
  - intros start size Hs Hsz He. simpl. split_and!; try done. split; simpl; try lia.
    + constructor.
    + by intros r Hr%elem_of_nil.
    + exists (start, size). split; [left|]. unfold rsub; simpl; lia.
  - intros lo hi b Hb Hlo Hhi Hd. simpl. split_and!; try done. split; simpl; try lia.
    + apply Forall_forall. intros r Hr. destruct (bo_in b Hb r Hr) as (s & Hs & Hsub).
      eapply rdisj_sub; [|exact Hsub|exact (proj1 (Forall_forall _ _) Hd _ Hs)]. unfold rsub. lia.
    + intros r Hr. destruct (bo_in b Hb r Hr) as (s & Hs & Hsub). exists s. split; [by right|done].
    + exists (lo, hi - lo). split; [left|]. unfold rsub; lia.
  - intros l b Hb Hp Hsz. apply is_power_of_two_spec in Hp as (k & Hk & Hal).
    destruct (bu_align_spec (bu_cur b) (lay_align l)) as [Hge Hdiv]; [rewrite Hal; lia|].
    destruct Hb. simpl. destruct (Z.leb_spec (bu_align (bu_cur b) (lay_align l) + lay_size l) (bu_end b)).
    2: { split_and!; by try split. }
    assert (Forall (rdisj (bu_align (bu_cur b) (lay_align l), lay_size l)) (bu_owned b)) as Hdis.
    { eapply Forall_impl; [exact bo_free0|]. intros r. simpl. unfold rdisj; simpl. lia. }
    split_and!; try done; try lia. split; simpl; try lia.
    + constructor; [unfold rdisj; simpl; lia|].
      eapply Forall_impl; [exact bo_free0|]. intros r. simpl. unfold rdisj; simpl. lia.
    + intros r Hr. apply elem_of_cons in Hr as [->|Hr]; [|auto].
      destruct bo_rest0 as (s & Hs & Hsub). exists s. split; [done|]. unfold rsub in *; simpl in *; lia.
    + destruct bo_rest0 as (s & Hs & Hsub). exists s. split; [done|]. unfold rsub in *; simpl in *; lia.
  - intros p l b rest Hb Hown. simpl. pose proof (bu_remove_perm _ _ _ Hown) as Hrem.
    split_and!; try done. destruct Hb. split; simpl; try done.
    + rewrite Hrem. rewrite Hown in bo_free0. by apply Forall_cons in bo_free0 as [_ ?].
    + intros r Hr. apply bo_in0. rewrite Hown. right. by rewrite <- Hrem.
  - intros b r Hb. apply (bo_in b Hb).
Qed.

#[local] Existing Instance bump_heap.

(** The first block a fresh heap at [start] hands out for [layout]. *)
Definition first_block (start size : Z) (layout : Layout) : option Z :=
  match heap_new (BH := bump_heap) start size (λ _, None) with
  | Done (h, m) =>
      match heap_allocate layout h m with Done (Ok p, _, _) => Some p | _ => None end
  | Panic => None
  end.

Lemma first_block_run start size layout p :
  first_block start size layout = Some p →
  ∃ (h : Heap bump) m h' m', heap_new start size (λ _, None) = Done (h, m) ∧
    heap_allocate layout h m = Done (Ok p, h', m').
Proof.
  unfold first_block. intros Hp.
  destruct (heap_new start size (λ _, None)) as [[h m]|] eqn:Hn; [|done].
  destruct (heap_allocate layout h m) as [[[[q|] h'] m']|] eqn:Ha; simplify_eq. eauto 10.
Qed.

(** A history with a block of 100 bytes, overwritten by its holder. *)
Definition demo_layout : Layout := {| lay_size := 100; lay_align := 8 |}.

Lemma slab_heap_history_witness :
  ∃ (h : Heap bump) m, pairwise_disj (held_region <$> [(0x10000 + 63 * 128, demo_layout)]) ∧
    (∃ s, slab_of Slab128Bytes h = Some s ∧ used_blocks s = 1) ∧
    is_done (heap_allocate demo_layout h m) = true.
Proof.
  destruct (first_block_run 0x10000 0x8000 demo_layout (0x10000 + 63 * 128))
    as (h0 & m0 & h1 & m1 & Hnew & Hal); [by vm_compute|].
  destruct (heap_new_spec (BH := bump_heap) 0x10000 0x8000 (λ _, None)) as (h0' & Hnew' & _);
    [lia|by exists 16|done|by exists 1|lia|].
  rewrite Hnew in Hnew'. injection Hnew' as -> ->.
  set (m2 := <[0x10000 + 63 * 128 := Some 7]> m1).
  destruct (slab_heap_history (BH := bump_heap) 0x10000 0x8000 (λ _, None) m2 h1
    [(0x10000 + 63 * 128, demo_layout)]) as (Hd & _ & Ha & Hu).
  - lia.
  - by exists 16.
  - by vm_compute.
  - by exists 1.
  - lia.
  - exists h0'. split; [done|]. eapply rtc_l; [eapply (hs_alloc _ _ _ demo_layout); [by split|exact Hal]|].
    apply rtc_once, hs_write. intros a Hne. exists (0x10000 + 63 * 128, demo_layout).
    split; [left|]. subst m2. destruct (decide (a = 0x10000 + 63 * 128)) as [->|].
    + vm_compute. split; [by intros|done].
    + by rewrite fn_lookup_insert_ne in Hne.
  - exists h1, m2. split_and!; [done| |apply Ha; by split].
    exists (slab_128_bytes h1). split; [done|]. exact (Hu Slab128Bytes _ eq_refl).
Defined.

(** A request of at most 4096 bytes with an alignment above 4096 is served
    from the 4096-byte slab, whose blocks are aligned to 4096 only: a request
    for 64 bytes aligned to 8192 can get a misaligned block. *)
Theorem slab_ignores_large_alignment :
  let layout := {| lay_size := 64; lay_align := 8192 |} in
  from_size_align 64 8192 = Some layout ∧
  ∃ (h : Heap bump) m p h' m', heap_new 0x40000 0x80000 (λ _, None) = Done (h, m) ∧
    heap_allocate layout h m = Done (Ok p, h', m') ∧ p mod 8192 = 4096.
Proof.
  split; [done|].
  destruct (first_block_run 0x40000 0x80000 {| lay_size := 64; lay_align := 8192 |}
    (0x40000 + 63 * 4096)) as (h & m & h' & m' & Hn & Ha); [by vm_compute|]. by exists h, m, (0x40000 + 63 * 4096), h', m'.
Qed.
