(* ===== verification/AxAlloc.v ===== *)
(** * The global allocator ([modules/axalloc], [crates/allocator/src/slab.rs])

    The byte allocator of the kernel is the slab heap of [Allocator.v], grown
    on demand with pages of the bitmap page allocator.  The two spin locks
    make every method atomic; a method is a function on the state of both
    allocators and of the links stored in free blocks.

    The theorems show that the loop of [alloc] terminates, and that blocks of
    bytes and pages handed out never overlap each other. *)

From S2P Require Import Prelude MemoryAddr AxErrno Allocator PageAllocSpec SlabSpec.
From stdpp Require Import base numbers sets gmap functions list.

Open Scope Z_scope.
Open Scope word_scope.

Definition PAGE_SIZE : Z := 0x1000.

(** [usize::next_power_of_two]; it wraps to zero above [2^63]. *)
Definition next_power_of_two (x : Z) : Z :=
  if x <=? 1 then 1 else wrap 64 (2 ^ Z.log2_up x).

Section axalloc.
Context {A : Type} `{BA : !BitAlloc A} {B : Type} `{BH : !BuddyHeap B}.

(** ** [SlabByteAllocator] *)

Definition SlabByteAllocator : Type := option (Heap B).

Definition sba_new : SlabByteAllocator := None.

Definition sba_init (start size : Z) (_ : SlabByteAllocator) (m : blkmem)
    : outcome (SlabByteAllocator * blkmem) :=
  '(h, m) ← heap_new start size m; Done (Some h, m).

Definition sba_add_memory (start size : Z) (s : SlabByteAllocator)
    : outcome (result AllocError unit * SlabByteAllocator) :=
  h ← unwrap s; h ← heap_add_memory start size h; Done (Ok tt, Some h).

Definition sba_alloc (size align_pow2 : Z) (s : SlabByteAllocator) (m : blkmem)
    : outcome (result AllocError Z * SlabByteAllocator * blkmem) :=
  h ← unwrap s;
  layout ← unwrap (from_size_align size align_pow2);
  '(r, h, m) ← heap_allocate layout h m;
  Done (match r with Ok p => Ok p | Err _ => Err AE_NoMemory end, Some h, m).

Definition sba_dealloc (pos size align_pow2 : Z) (s : SlabByteAllocator) (m : blkmem)
    : outcome (SlabByteAllocator * blkmem) :=
  h ← unwrap s;
  layout ← unwrap (from_size_align size align_pow2);
  '(h, m) ← heap_deallocate pos layout h m;
  Done (Some h, m).

Definition sba_total_bytes (s : SlabByteAllocator) : outcome Z :=
  h ← unwrap s; Done (heap_total_bytes h).
Definition sba_used_bytes (s : SlabByteAllocator) : outcome Z :=
  h ← unwrap s; Done (heap_used_bytes h).
Definition sba_available_bytes (s : SlabByteAllocator) : outcome Z :=
  h ← unwrap s; Done (heap_available_bytes h).

(** ** [GlobalAllocator] *)

Record GlobalAllocator := {
  balloc : SlabByteAllocator;
  palloc : BitmapPageAllocator A;
  ga_mem : blkmem;
}.

Definition ga_new (m : blkmem) : GlobalAllocator :=
  {| balloc := sba_new; palloc := pa_new; ga_mem := m |}.

Definition set_palloc (p : BitmapPageAllocator A) (g : GlobalAllocator) : GlobalAllocator :=
  {| balloc := balloc g; palloc := p; ga_mem := ga_mem g |}.

Definition ga_alloc_pages (num_pages align_pow2 : Z) (g : GlobalAllocator)
    : result AllocError Z * GlobalAllocator :=
  let '(r, p) := pa_alloc_pages PAGE_SIZE num_pages align_pow2 (palloc g) in
  (r, set_palloc p g).

Definition ga_dealloc_pages (pos num_pages : Z) (g : GlobalAllocator) : outcome GlobalAllocator :=
  p ← pa_dealloc_pages PAGE_SIZE pos num_pages (palloc g); Done (set_palloc p g).

Definition ga_init (start_vaddr size : Z) (g : GlobalAllocator) : outcome GlobalAllocator :=
  _ ← assert_true (size >? MIN_HEAP_SIZE);
  let init_heap_size := MIN_HEAP_SIZE in
  p ← pa_init PAGE_SIZE start_vaddr size (palloc g);
  let '(r, g) := ga_alloc_pages (init_heap_size `div` PAGE_SIZE) PAGE_SIZE (set_palloc p g) in
  heap_ptr ← (match r with Ok ptr => Done ptr | Err _ => Panic end);
  '(s, m) ← sba_init heap_ptr init_heap_size (balloc g) (ga_mem g);
  Done {| balloc := s; palloc := palloc g; ga_mem := m |}.

Definition ga_add_memory (start_vaddr size : Z) (g : GlobalAllocator)
    : outcome (result AllocError unit * GlobalAllocator) :=
  '(r, s) ← sba_add_memory start_vaddr size (balloc g);
  Done (r, {| balloc := s; palloc := palloc g; ga_mem := ga_mem g |}).

(** The loop of [alloc], for at most [fuel] rounds. *)
Fixpoint ga_alloc (fuel : nat) (size align_pow2 : Z) (g : GlobalAllocator)
    : outcome (result AllocError Z * GlobalAllocator) :=
  match fuel with
  | O => Panic
  | S fuel =>
      '(r, s, m) ← sba_alloc size align_pow2 (balloc g) (ga_mem g);
      let g := {| balloc := s; palloc := palloc g; ga_mem := m |} in
      match r with
      | Ok ptr => Done (Ok ptr, g)
      | Err _ =>
          old_size ← sba_total_bytes (balloc g);
          let expand_size := Z.max (next_power_of_two (Z.max old_size size)) PAGE_SIZE in
          let '(r, g) := ga_alloc_pages (expand_size `div` PAGE_SIZE) PAGE_SIZE g in
          match r with
          | Err e => Done (Err e, g)
          | Ok heap_ptr =>
              '(r, g) ← ga_add_memory heap_ptr expand_size g;
              match r with
              | Err e => Done (Err e, g)
              | Ok _ => ga_alloc fuel size align_pow2 g
              end
          end
      end
  end.

Definition ga_dealloc (pos size align_pow2 : Z) (g : GlobalAllocator) : outcome GlobalAllocator :=
  '(s, m) ← sba_dealloc pos size align_pow2 (balloc g) (ga_mem g);
  Done {| balloc := s; palloc := palloc g; ga_mem := m |}.

Definition ga_used_bytes (g : GlobalAllocator) : outcome Z := sba_used_bytes (balloc g).
Definition ga_available_bytes (g : GlobalAllocator) : outcome Z := sba_available_bytes (balloc g).
Definition ga_used_pages (g : GlobalAllocator) : Z := pa_used_pages (palloc g).
Definition ga_available_pages (g : GlobalAllocator) : Z := pa_available_pages (palloc g).

(** [GlobalAlloc::alloc]; [handle_alloc_error] does not return. *)
Definition global_alloc (fuel : nat) (layout : Layout) (g : GlobalAllocator)
    : outcome (Z * GlobalAllocator) :=
  '(r, g) ← ga_alloc fuel (lay_size layout) (lay_align layout) g;
  match r with Ok ptr => Done (ptr, g) | Err _ => Panic end.

Definition global_dealloc (ptr : Z) (layout : Layout) (g : GlobalAllocator)
    : outcome GlobalAllocator :=
  ga_dealloc ptr (lay_size layout) (lay_align layout) g.

(** ** [GlobalPage] ([page.rs]) *)

Record GlobalPage := { start_vaddr : Z; num_pages : Z }.

Definition alloc_err_to_ax_err (e : AllocError) : AxError :=
  match e with
  | AE_InvalidParam | AE_MemoryOverlap | AE_NotAllocated => InvalidInput
  | AE_NoMemory => NoMemory
  end.

Definition gp_alloc_contiguous (num align_pow2 : Z) (g : GlobalAllocator)
    : result AxError GlobalPage * GlobalAllocator :=
  let '(r, g) := ga_alloc_pages num align_pow2 g in
  (match r with
   | Ok vaddr => Ok {| start_vaddr := vaddr; num_pages := num |}
   | Err e => Err (alloc_err_to_ax_err e)
   end, g).

Definition gp_alloc (g : GlobalAllocator) : result AxError GlobalPage * GlobalAllocator :=
  gp_alloc_contiguous 1 PAGE_SIZE g.

Definition gp_start_paddr (virt_to_phys : Z → Z) (p : GlobalPage) : Z := virt_to_phys (start_vaddr p).
Definition gp_size (p : GlobalPage) : Z := num_pages p ⊗ PAGE_SIZE.

(** [fill] writes every byte of the page; [bytes] is the memory. *)
Definition gp_fill (byte : Z) (p : GlobalPage) (bytes : Z → Z) : Z → Z := λ a,
  if (start_vaddr p <=? a) && (a <? start_vaddr p + gp_size p) then byte else bytes a.

Definition gp_zero (p : GlobalPage) (bytes : Z → Z) : Z → Z := gp_fill 0 p bytes.

Definition gp_alloc_zero (g : GlobalAllocator) (bytes : Z → Z)
    : result AxError GlobalPage * GlobalAllocator * (Z → Z) :=
  let '(r, g) := gp_alloc g in
  match r with
  | Ok p => (Ok p, g, gp_zero p bytes)
  | Err e => (Err e, g, bytes)
  end.

Definition gp_drop (p : GlobalPage) (g : GlobalAllocator) : outcome GlobalAllocator :=
  ga_dealloc_pages (start_vaddr p) (num_pages p) g.

End axalloc.
Arguments SlabByteAllocator B : clear implicits.
Arguments GlobalAllocator A B : clear implicits.

(** ** The wrapper of the buddy heap ([crates/allocator/src/buddy.rs]) *)

Section buddy_bytes.
Context {B : Type} `{BH : !BuddyHeap B}.

Definition bba_new : B := bh_new.
Definition bba_init (start size : Z) (b : B) : B := bh_init start size b.
Definition bba_add_memory (start size : Z) (b : B) : result AllocError unit * B :=
  (Ok tt, bh_add_to_heap start (start ⊕ size) b).
Definition bba_alloc (size align_pow2 : Z) (b : B) : outcome (result AllocError Z * B) :=
  layout ← unwrap (from_size_align size align_pow2);
  let '(o, b) := bh_alloc layout b in Done (ok_or AE_NoMemory o, b).
Definition bba_dealloc (pos size align_pow2 : Z) (b : B) : outcome B :=
  layout ← unwrap (from_size_align size align_pow2); Done (bh_dealloc pos layout b).
Definition bba_available_bytes (b : B) : Z := bh_stats_total_bytes b ⊖ bh_stats_alloc_actual b.

End buddy_bytes.

(** ** The invariant of the global allocator *)

Section axalloc_proofs.
Context {A : Type} `{BA : !BitAlloc A} {free : A → gset Z} `{LA : !BitAllocLaws BA free}.
Context {B : Type} `{BH : !BuddyHeap B} {bok : B → Prop} {managed owned : B → list region}.
Context `{LB : !BuddyHeapLaws BH bok managed owned}.
Implicit Types (g : GlobalAllocator A B) (H : held) (user : list (Z * Z)).

Definition pa_region (p : BitmapPageAllocator A) : region :=
  (pa_base p, pa_total_pages p * 2 ^ 12).

(** [H] are the blocks of bytes held, [user] the blocks of pages held by
    others than the byte allocator, [extra] the regions given to it by
    [add_memory] and [lost] the pages that were not freed. *)
Record ga_inv g H user (extra : list region) (lost : gset Z) : Prop := {
  gi_base : 0 < pa_base (palloc g);
  gi_end : pa_base (palloc g) + pa_total_pages (palloc g) * 2 ^ 12 < 2 ^ 64;
  gi_extra : Forall (rdisj (pa_region (palloc g))) extra;
  gi_heap : ∃ hp heap, balloc g = Some heap ∧
    pa_good (free := free) 12 (palloc g) (hp ++ user) lost ∧
    heap_good (bok := bok) (owned := owned) heap (ga_mem g) H ∧
    managed (buddy_allocator heap) ≡ₚ (page_region 12 <$> hp) ++ extra;
}.

Lemma from_size_align_ok size align l :
  0 ≤ size → from_size_align size align = Some l →
  layout_ok l ∧ lay_size l = size ∧ lay_align l = align.
Proof.
  intros Hs Hl. unfold from_size_align in Hl. case_match; simplify_eq/=. bool_to_prop. by split.
Qed.

Lemma expand_size_spec x :
  let e := Z.max (next_power_of_two x) PAGE_SIZE in
  0 < e `div` PAGE_SIZE < 2 ^ 64 ∧ e = e `div` PAGE_SIZE * 2 ^ 12.
Proof.
  intros e. unfold PAGE_SIZE in *.
  assert ((4096 | e) ∧ 4096 ≤ e < 2 ^ 64) as [[q Hq] He].
  { subst e. unfold next_power_of_two. destruct (Z.leb_spec x 1); [split; [by exists 1|lia]|].
    unfold wrap. pose proof (Z.log2_up_nonneg x).
    destruct (decide (Z.log2_up x < 64)) as [Hlt|Hge].
    - assert (2 ^ Z.log2_up x < 2 ^ 64) by (apply Z.pow_lt_mono_r; lia).
      rewrite Z.mod_small by lia. split; [|lia].
      destruct (decide (Z.log2_up x < 12)).
      + assert (2 ^ Z.log2_up x < 2 ^ 12) by (apply Z.pow_lt_mono_r; lia). exists 1. lia.
      + assert (2 ^ 12 ≤ 2 ^ Z.log2_up x) by (apply Z.pow_le_mono_r; lia).
        rewrite Z.max_l by lia. apply (pow2_divides 12). lia.
    - rewrite (proj2 (Z.mod_divide (2 ^ Z.log2_up x) (2 ^ 64) ltac:(lia))) by (apply pow2_divides; lia).
      split; [by exists 1|lia]. }
  rewrite Hq, Z.div_mul by lia. change (2 ^ 12) with 4096. lia.
Qed.

(** A new block of pages is apart from everything the heap manages. *)
Lemma new_pages_apart p hp user extra lost pos n :
  pa_good (free := free) 12 p ((pos, n) :: hp ++ user) lost →
  Forall (rdisj (pa_region p)) extra →
  Forall (rdisj (pos, n * 2 ^ 12)) ((page_region 12 <$> hp) ++ extra).
Proof.
  intros Hp Hex. apply Forall_app. split.
  - pose proof (pa_good_disj 12 ltac:(lia) _ _ _ Hp) as [Hd _]. rewrite fmap_app in Hd.
    by apply Forall_app in Hd as [Hd _].
  - destruct (pa_good_block 12 ltac:(lia) _ _ _ pos n Hp) as (Hn & _ & Hlo & Hhi); [left|].
    eapply Forall_impl; [exact Hex|]. intros r. unfold pa_region, rdisj; simpl. lia.
Qed.

(** One failed round of [alloc]: the heap has been given new pages. *)
Lemma ga_expand g H user extra lost n :
  ga_inv g H user extra lost → 0 < n < 2 ^ 64 →
  match ga_alloc_pages n PAGE_SIZE g with
  | (Ok pos, g') =>
      (size (free (pa_inner (palloc g'))) < size (free (pa_inner (palloc g))))%nat ∧
      ∃ g'', ga_add_memory pos (n * 2 ^ 12) g' = Done (Ok tt, g'') ∧
        palloc g'' = palloc g' ∧ ga_inv g'' H user extra lost
  | (Err e, g') => e = AE_NoMemory ∧ ga_inv g' H user extra lost
  end.
Proof.
  intros [Hbase Hend Hextra (hp & heap & Hb & Hp & Hh & Hm)] Hn. unfold ga_alloc_pages.
  change PAGE_SIZE with (2 ^ 12).
  pose proof (pa_good_alloc 12 ltac:(lia) _ _ _ n (2 ^ 12) Hp) as Hal.
  destruct (pa_alloc_pages (2 ^ 12) n (2 ^ 12) (palloc g)) as [[pos|e] p'].
  - destruct Hal as (Hp' & [Hpb Hpt] & Hsz); [unfold is_usize; lia|]. simpl. split; [done|].
    destruct (pa_good_block 12 ltac:(lia) _ _ _ pos n Hp') as (_ & Hdiv & Hlo & Hhi); [left|].
    assert (pa_region p' = pa_region (palloc g)) as Hreg by (unfold pa_region; congruence).
    pose proof (new_pages_apart p' hp user extra lost pos n Hp') as Hap. rewrite Hreg in Hap.
    destruct (heap_add_memory_spec (managed := managed) heap (ga_mem g) H pos (n * 2 ^ 12) Hh)
      as (heap' & Hadd & Hh' & Hm'); [lia|lia|lia|done|by exists n|by rewrite Hm; apply Hap|].
    unfold ga_add_memory, sba_add_memory. simpl. rewrite Hb. simpl. rewrite Hadd. simpl.
    eexists. split; [done|]. split; [done|]. split; simpl; [lia|lia|by rewrite Hreg|].
    exists ((pos, n) :: hp), heap'. split_and!; [done|done|done|]. by rewrite Hm', Hm.
  - destruct Hal as (Hp' & [Hpb Hpt] & He); [unfold is_usize; lia|]. split.
    { destruct He as [?|[?|[He|He]]]; [done|lia|by rewrite Z_mod_same_full in He|done]. }
    split; simpl; [lia|lia| |].
    + by replace (pa_region p') with (pa_region (palloc g)) by (unfold pa_region; congruence).
    + exists hp, heap. by split_and!.
Qed.

Lemma sba_alloc_spec g H user extra lost size align l :
  ga_inv g H user extra lost → 0 ≤ size → from_size_align size align = Some l →
  ∃ r s m, sba_alloc size align (balloc g) (ga_mem g) = Done (r, s, m) ∧
    let g' := {| balloc := s; palloc := palloc g; ga_mem := m |} in
    match r with
    | Ok p => ga_inv g' ((p, l) :: H) user extra lost
    | Err _ => ga_inv g' H user extra lost
    end.
Proof.
  intros [Hbase Hend Hextra (hp & heap & Hb & Hp & Hh & Hm)] Hs Hl.
  destruct (from_size_align_ok size align l Hs Hl) as (Hlok & _ & _).
  destruct (heap_allocate_spec (managed := managed) heap (ga_mem g) H l Hh Hlok)
    as (r & heap' & m' & Hal & Hm' & Hr).
  unfold sba_alloc. rewrite Hb, Hl. simpl. rewrite Hal. simpl. do 3 eexists. split; [done|].
  destruct r as [p|e]; [|destruct Hr as [Hr _]]; (split; simpl; [done..|]);
    exists hp, heap'; by rewrite Hm'.
Qed.

Lemma ga_alloc_spec fuel : ∀ g H user extra lost size align l,
  ga_inv g H user extra lost → 0 ≤ size → from_size_align size align = Some l →
  (base.size (free (pa_inner (palloc g))) < fuel)%nat →
  ∃ r g', ga_alloc fuel size align g = Done (r, g') ∧
    match r with
    | Ok p => ga_inv g' ((p, l) :: H) user extra lost
    | Err e => e = AE_NoMemory ∧ ga_inv g' H user extra lost
    end.
Proof.
  induction fuel as [|fuel IH]; intros g H user extra lost size align l Hg Hs Hl Hf; [lia|].
  cbn [ga_alloc]. destruct (sba_alloc_spec _ _ _ _ _ _ _ _ Hg Hs Hl) as (r & s & m & -> & Hr).
  cbn [mbind outcome_bind]. destruct r as [p|e]; [eauto|].
  set (g1 := {| balloc := s; palloc := palloc g; ga_mem := m |}) in *.
  destruct (gi_heap _ _ _ _ _ Hr) as (_ & heap & Hb & _).
  replace (sba_total_bytes (balloc g1)) with (Done (heap_total_bytes heap))
    by (by rewrite Hb).
  destruct (expand_size_spec (Z.max (heap_total_bytes heap) size)) as [Hn He].
  cbn [mbind outcome_bind]. cbv beta zeta. set (e0 := Z.max (next_power_of_two _) PAGE_SIZE) in *.
  pose proof (ga_expand g1 H user extra lost (e0 `div` PAGE_SIZE) Hr Hn) as Hx.
  destruct (ga_alloc_pages (e0 `div` PAGE_SIZE) PAGE_SIZE g1) as [[pos|e'] g2]; [|by eauto].
  destruct Hx as (Hlt & g3 & Hadd & Hp3 & Hg3). rewrite <- He in Hadd. rewrite Hadd.
  cbn [mbind outcome_bind]. apply (IH g3 H user extra lost size align l); [done..|].
  rewrite Hp3. simpl in *. lia.
Qed.

Lemma ga_dealloc_spec g H H' user extra lost p l :
  ga_inv g H user extra lost → H ≡ₚ (p, l) :: H' →
  from_size_align (lay_size l) (lay_align l) = Some l →
  ∃ g', ga_dealloc p (lay_size l) (lay_align l) g = Done g' ∧ ga_inv g' H' user extra lost ∧
    palloc g' = palloc g.
Proof.
  intros [Hbase Hend Hextra (hp & heap & Hb & Hp & Hh & Hm)] HH Hl.
  destruct (heap_deallocate_spec (managed := managed) heap (ga_mem g) H' p l)
    as (heap' & m' & Hd & Hh' & Hm').
  { destruct Hh as (f & S & HI). exists f, S. by eapply heap_inv_perm. }
  unfold ga_dealloc, sba_dealloc. rewrite Hb, Hl. simpl. rewrite Hd. simpl.
  eexists. split; [done|]. split; [|done]. split; simpl; [done..|].
  exists hp, heap'. by rewrite Hm'.
Qed.

Lemma ga_alloc_pages_spec g H user extra lost n align :
  ga_inv g H user extra lost → is_usize n →
  match ga_alloc_pages n align g with
  | (Ok pos, g') => ga_inv g' H ((pos, n) :: user) extra lost
  | (Err _, g') => ga_inv g' H user extra lost
  end.
Proof.
  intros [Hbase Hend Hextra (hp & heap & Hb & Hp & Hh & Hm)] Hn. unfold ga_alloc_pages.
  change PAGE_SIZE with (2 ^ 12).
  pose proof (pa_good_alloc 12 ltac:(lia) _ _ _ n align Hp Hn) as Hal.
  destruct (pa_alloc_pages (2 ^ 12) n align (palloc g)) as [[pos|e] p'];
    destruct Hal as (Hp' & [Hpb Hpt] & _); (split; simpl; [lia|lia|by unfold pa_region; rewrite Hpb, Hpt|]);
    exists hp, heap; split_and!; try done.
  destruct Hp' as (l & Hl & Hinv). exists l. split; [|done].
  by rewrite <- Hl, Permutation_middle.
Qed.

Lemma ga_dealloc_pages_spec g H user user' extra lost pos n :
  ga_inv g H user extra lost → user ≡ₚ (pos, n) :: user' →
  let i := (pos - pa_base (palloc g)) `div` 2 ^ 12 in
  ∃ g', ga_dealloc_pages pos n g = Done g' ∧
    ga_inv g' H user' extra (zrange (i + 1) (i + n) ∪ lost).
Proof.
  intros [Hbase Hend Hextra (hp & heap & Hb & Hp & Hh & Hm)] Hu i. unfold ga_dealloc_pages.
  destruct (pa_good_dealloc 12 ltac:(lia) _ _ (hp ++ user') _ pos n Hp)
    as (p' & Hd & Hp' & _ & [Hpb Hpt]).
  { by rewrite Hu, Permutation_middle. }
  change PAGE_SIZE with (2 ^ 12). rewrite Hd. simpl. eexists. split; [done|].
  split; simpl; [lia|lia|by unfold pa_region; rewrite Hpb, Hpt|].
  exists hp, heap. by split_and!.
Qed.

Lemma ga_add_memory_spec g H user extra lost start len :
  ga_inv g H user extra lost → 0 < start → 0 ≤ len → start + len < 2 ^ 64 →
  (4096 | start) → (4096 | len) →
  rdisj (pa_region (palloc g)) (start, len) → Forall (rdisj (start, len)) extra →
  ∃ g', ga_add_memory start len g = Done (Ok tt, g') ∧ ga_inv g' H user ((start, len) :: extra) lost.
Proof.
  intros [Hbase Hend Hextra (hp & heap & Hb & Hp & Hh & Hm)] Hs Hl He Hd1 Hd2 Hpr Hex.
  destruct (heap_add_memory_spec (managed := managed) heap (ga_mem g) H start len Hh)
    as (heap' & Hadd & Hh' & Hm'); [done..| |].
  { rewrite Hm. apply Forall_app. split; [|done]. apply Forall_fmap, Forall_forall.
    intros [pos n] Hin. destruct (pa_good_block 12 ltac:(lia) _ _ _ pos n Hp) as (Hn & _ & Hlo & Hhi).
    { apply elem_of_app. by left. }
    revert Hpr. unfold rdisj, pa_region, page_region; simpl. lia. }
  unfold ga_add_memory, sba_add_memory. rewrite Hb. simpl. rewrite Hadd. simpl.
  eexists. split; [done|]. split; simpl; [done|done|by constructor|].
  exists hp, heap'. split_and!; [done..|]. by rewrite Hm', Hm, Permutation_middle.
Qed.

Lemma ga_init_inside start len m g :
  0 < start → start + len < 2 ^ 64 → len ≤ CAP * 2 ^ 12 →
  ga_init start len (ga_new m) = Done g → ga_inv g [] [] [] ∅ ∧ rsub (pa_region (palloc g)) (start, len).
Proof.
  intros Hs He Hcap. unfold ga_init. cbn [palloc ga_new].
  destruct (Z.gtb_spec len MIN_HEAP_SIZE) as [Hlen|]; [|done].
  unfold MIN_HEAP_SIZE in *. change PAGE_SIZE with (2 ^ 12). cbn [assert_true mbind outcome_bind].
  destruct (pa_init_spec (free := free) 12 ltac:(lia) start len)
    as (p & Hinit & Hp & Hb1 & Hb2); [unfold is_usize; lia..|].
  rewrite Hinit. cbn [mbind outcome_bind]. unfold ga_alloc_pages. cbn [palloc set_palloc].
  pose proof (pa_good_alloc 12 ltac:(lia) p [] ∅ 8 (2 ^ 12) (ex_intro _ [] (conj (reflexivity _) Hp))
    ltac:(done)) as Hal.
  change (0x8000 `div` 2 ^ 12) with 8. change PAGE_SIZE with (2 ^ 12).
  destruct (pa_alloc_pages (2 ^ 12) 8 (2 ^ 12) p) as [[pos|e] p']; [|done].
  destruct Hal as (Hp' & [Hpb Hpt] & _). cbn [mbind outcome_bind].
  destruct (pa_good_block 12 ltac:(lia) _ _ _ pos 8 Hp') as (_ & Hdiv & Hlo & Hhi); [left|].
  destruct (heap_new_spec (BH := BH) (bok := bok) (managed := managed) (owned := owned) pos 0x8000 m)
    as (h & Hnew & Hg & Hm); [lia|done|done|by exists 1|lia|].
  unfold sba_init. cbn [ga_mem set_palloc ga_new]. rewrite Hnew. simpl. intros ?. simplify_eq.
  split; [|unfold rsub, pa_region; simpl; rewrite Hpb, Hpt; lia]. split; simpl; [lia|lia|constructor|].
  exists [(pos, 8)], h. split_and!; [done..|]. by rewrite Hm.
Qed.

Lemma ga_init_spec start len m g :
  0 < start → start + len < 2 ^ 64 → len ≤ CAP * 2 ^ 12 →
  ga_init start len (ga_new m) = Done g → ga_inv g [] [] [] ∅.
Proof. intros ? ? ? Hi. by apply (ga_init_inside start len m g) in Hi as [? _]. Qed.

(** ** Histories *)

Record ga_state := {
  gs_ga : GlobalAllocator A B;
  gs_held : held;
  gs_pages : list (Z * Z);
  gs_extra : list region;
}.

Definition free_pages g : nat := base.size (free (pa_inner (palloc g))).

(** The methods of [GlobalAllocator] and writes of the holders of blocks. *)
Inductive ga_step : ga_state → ga_state → Prop :=
| ga_step_alloc g H user extra fuel size align l p g' :
    0 ≤ size → from_size_align size align = Some l → (free_pages g < fuel)%nat →
    ga_alloc fuel size align g = Done (Ok p, g') →
    ga_step (Build_ga_state g H user extra) (Build_ga_state g' ((p, l) :: H) user extra)
| ga_step_alloc_fail g H user extra fuel size align l e g' :
    0 ≤ size → from_size_align size align = Some l → (free_pages g < fuel)%nat →
    ga_alloc fuel size align g = Done (Err e, g') →
    ga_step (Build_ga_state g H user extra) (Build_ga_state g' H user extra)
| ga_step_dealloc g H H' user extra l p g' :
    H ≡ₚ (p, l) :: H' → from_size_align (lay_size l) (lay_align l) = Some l →
    ga_dealloc p (lay_size l) (lay_align l) g = Done g' →
    ga_step (Build_ga_state g H user extra) (Build_ga_state g' H' user extra)
| ga_step_alloc_pages g H user extra n align pos g' :
    is_usize n → ga_alloc_pages n align g = (Ok pos, g') →
    ga_step (Build_ga_state g H user extra) (Build_ga_state g' H ((pos, n) :: user) extra)
| ga_step_alloc_pages_fail g H user extra n align e g' :
    is_usize n → ga_alloc_pages n align g = (Err e, g') →
    ga_step (Build_ga_state g H user extra) (Build_ga_state g' H user extra)
| ga_step_dealloc_pages g H user user' extra pos n g' :
    user ≡ₚ (pos, n) :: user' → ga_dealloc_pages pos n g = Done g' →
    ga_step (Build_ga_state g H user extra) (Build_ga_state g' H user' extra)
| ga_step_add_memory g H user extra start len g' :
    0 < start → 0 ≤ len → start + len < 2 ^ 64 → (4096 | start) → (4096 | len) →
    rdisj (pa_region (palloc g)) (start, len) → Forall (rdisj (start, len)) extra →
    ga_add_memory start len g = Done (Ok tt, g') →
    ga_step (Build_ga_state g H user extra) (Build_ga_state g' H user ((start, len) :: extra))
| ga_step_write g H user extra m :
    (∀ a, m a ≠ ga_mem g a → ∃ x, x ∈ H ∧ x.1 ≤ a < x.1 + (usable_size x.2).2) →
    ga_step (Build_ga_state g H user extra)
      (Build_ga_state {| balloc := balloc g; palloc := palloc g; ga_mem := m |} H user extra).

Definition gs_good (s : ga_state) : Prop :=
  ∃ lost, ga_inv (gs_ga s) (gs_held s) (gs_pages s) (gs_extra s) lost.

Lemma ga_step_good s s' : ga_step s s' → gs_good s → gs_good s'.
Proof.
  unfold gs_good. destruct 1 as [g H user extra fuel size align l p g' Hs Hl Hf Hr
    |g H user extra fuel size align l e g' Hs Hl Hf Hr|g H H' user extra l p g' HH Hl Hr
    |g H user extra n align pos g' Hn Hr|g H user extra n align e g' Hn Hr
    |g H user user' extra pos n g' Hu Hr|g H user extra start len g' ? ? ? ? ? ? ? Hr
    |g H user extra m Hw]; simpl; intros [lost Hg].
  - destruct (ga_alloc_spec fuel g H user extra lost size align l Hg Hs Hl Hf) as (r & g2 & Heq & Hi).
    rewrite Hr in Heq. simplify_eq. eauto.
  - destruct (ga_alloc_spec fuel g H user extra lost size align l Hg Hs Hl Hf) as (r & g2 & Heq & Hi).
    rewrite Hr in Heq. simplify_eq. destruct Hi. eauto.
  - destruct (ga_dealloc_spec g H H' user extra lost p l Hg HH Hl) as (g2 & Heq & Hi & _).
    rewrite Hr in Heq. simplify_eq. eauto.
  - pose proof (ga_alloc_pages_spec g H user extra lost n align Hg Hn) as Hi. rewrite Hr in Hi. eauto.
  - pose proof (ga_alloc_pages_spec g H user extra lost n align Hg Hn) as Hi. rewrite Hr in Hi. eauto.
  - destruct (ga_dealloc_pages_spec g H user user' extra lost pos n Hg Hu) as (g2 & Heq & Hi).
    rewrite Hr in Heq. simplify_eq. eauto.
  - destruct (ga_add_memory_spec g H user extra lost start len Hg) as (g2 & Heq & Hi); [done..|].
    rewrite Hr in Heq. simplify_eq. eauto.
  - exists lost. destruct Hg as [Hbase Hend Hextra (hp & heap & Hb & Hp & (f & S & HI) & Hm)].
    split; simpl; [done..|]. exists hp, heap. split_and!; try done. exists f, S.
    by eapply heap_inv_write.
Qed.

Lemma ga_steps_good s s' : rtc ga_step s s' → gs_good s → gs_good s'.
Proof. induction 1; [done|]. intros Hg. by eapply IHrtc, ga_step_good. Qed.

(** Blocks of bytes lie in memory of the heap, which no page block shares. *)
Lemma ga_inv_disj g H user extra lost :
  ga_inv g H user extra lost →
  pairwise_disj ((held_region <$> H) ++ (page_region 12 <$> user)).
Proof.
  intros [Hbase Hend Hextra (hp & heap & Hb & Hp & Hh & Hm)].
  pose proof (pa_good_disj 12 ltac:(lia) _ _ _ Hp) as Hd. rewrite fmap_app in Hd.
  apply pairwise_disj_app in Hd as (_ & Hdu & Hdhu). apply pairwise_disj_app.
  split_and!; [by eapply heap_good_disj|done|]. apply Forall_fmap, Forall_forall. intros x Hx.
  destruct (heap_good_inside (managed := managed) _ _ _ x Hh Hx) as (s & Hs & Hsub).
  rewrite Hm in Hs. apply Forall_forall. intros t Ht.
  assert (rdisj s t) as Hst.
  { apply elem_of_app in Hs as [Hs|Hs].
    - pose proof (proj1 (Forall_forall _ _) Hdhu _ Hs) as Hd. by apply (proj1 (Forall_forall _ _) Hd).
    - apply list_elem_of_fmap in Ht as ([pos n] & -> & Ht).
      destruct (pa_good_block 12 ltac:(lia) _ _ _ pos n Hp) as (Hn & _ & Hlo & Hhi).
      { apply elem_of_app. by right. }
      pose proof (proj1 (Forall_forall _ _) Hextra _ Hs) as Hr. revert Hr.
      unfold rdisj, pa_region, page_region; simpl. lia. }
  eapply rdisj_sub; [exact Hsub| |exact Hst]. unfold rsub. lia.
Qed.


End axalloc_proofs.

(** ** A run *)

#[local] Existing Instance set_alloc.
#[local] Existing Instance bump_heap.

(** Two pages and a block of 4000 bytes, for which the heap is grown: a set
    of 64 blocks does not fit the initial 32 KiB. *)
Definition ga_demo : bool :=
  match ga_init (A := gset Z) (B := bump) 0x10000 0x100000 (ga_new (λ _, None)) with
  | Done g0 =>
      match ga_alloc_pages 2 PAGE_SIZE g0 with
      | (Ok pos, g1) =>
          bool_decide (free_pages (free := λ a, a) g1 < 300)%nat &&
          match ga_alloc 300 4000 8 g1 with Done (Ok p, _) => true | _ => false end
      | _ => false
      end
  | Panic => false
  end.

Lemma ga_demo_run :
  ∃ (g0 g1 g2 : GlobalAllocator (gset Z) bump) pos p,
    ga_init 0x10000 0x100000 (ga_new (λ _, None)) = Done g0 ∧
    ga_alloc_pages 2 PAGE_SIZE g0 = (Ok pos, g1) ∧
    (free_pages (free := λ a, a) g1 < 300)%nat ∧
    ga_alloc 300 4000 8 g1 = Done (Ok p, g2).
Proof.
  assert (ga_demo = true) as Hrun by (vm_compute; reflexivity).
  unfold ga_demo in Hrun.
  destruct (ga_init _ _ _) as [g0|] eqn:H0; [|done].
  destruct (ga_alloc_pages _ _ g0) as [[pos|] g1] eqn:H1; [|done].
  apply andb_true_iff in Hrun as [Hf%bool_decide_eq_true Hrun].
  destruct (ga_alloc _ _ _ g1) as [[[p|] g2]|] eqn:H2; [|done..]. eauto 10.
Qed.

