(* ===== verification/AxHalMem.v ===== *)
(** * Physical memory ([modules/axhal/src/mem.rs], [platform/*/mem.rs])

    The flags and regions of physical memory, the linear mapping between
    physical and virtual addresses, the regions of every platform and the
    iterator over them; [LazyInit] of [crates/lazy_init]; the conversion of
    the flags of a region ([modules/axhal/src/paging.rs]).  The constants of
    [axconfig] are generated from the configuration of the platform and the
    symbols come from the linker: both are parameters.  The lemmas give the
    regions as a list and show that a kernel laid out by [linker.lds.S] has
    page-aligned regions that do not overlap. *)

From S2P Require Import Prelude MemoryAddr Extern PageTableEntry Allocator.
From stdpp Require Import base numbers list strings.

Open Scope Z_scope.
Open Scope word_scope.

(** ** [MemRegionFlags] and [MemRegion] *)

Definition MR_READ : Z := 1 .<< 0.
Definition MR_WRITE : Z := 1 .<< 1.
Definition MR_EXECUTE : Z := 1 .<< 2.
Definition MR_DEVICE : Z := 1 .<< 4.
Definition MR_RESERVED : Z := 1 .<< 5.
Definition MR_FREE : Z := 1 .<< 6.

Record MemRegion := { rg_paddr : PhysAddr; rg_size : Z; rg_flags : Z; rg_name : string }.

(** [axconfig]. *)
Record axconfig := {
  PHYS_VIRT_OFFSET : Z;
  PHYS_MEMORY_END : Z;
  MMIO_REGIONS : list (Z * Z);
}.

(** The symbols of the linker script. *)
Record symbols := {
  stext : Z; etext : Z; srodata : Z; erodata : Z; sdata : Z; edata : Z;
  percpu_start : Z; percpu_end : Z; boot_stack : Z; boot_stack_top : Z;
  sbss : Z; ebss : Z; ekernel : Z;
}.

Inductive platform := PcX86 | QemuVirtAarch64 | QemuVirtRiscv | Raspi4Aarch64.

Section mem.
Context `{BF : Bitflags} (cfg : axconfig) (sym : symbols).

Definition axhal_virt_to_phys (vaddr : VirtAddr) : PhysAddr := vaddr ⊖ PHYS_VIRT_OFFSET cfg.
Definition axhal_phys_to_virt (paddr : PhysAddr) : VirtAddr := paddr ⊕ PHYS_VIRT_OFFSET cfg.

Definition common_memory_regions_num : nat := 6 + length (MMIO_REGIONS cfg).

(** A section of the kernel image, from its start to its end. *)
Definition section_region (start end_ flags : Z) (name : string) : MemRegion := {|
  rg_paddr := axhal_virt_to_phys start; rg_size := end_ ⊖ start; rg_flags := flags; rg_name := name |}.

Definition mmio_region (r : Z * Z) : MemRegion := {|
  rg_paddr := r.1; rg_size := r.2;
  rg_flags := bf_union (bf_union (bf_union MR_RESERVED MR_DEVICE) MR_READ) MR_WRITE;
  rg_name := "mmio" |}.

Definition common_memory_region_at (idx : nat) : option MemRegion :=
  match idx with
  | 0 => Some (section_region (stext sym) (etext sym)
      (bf_union (bf_union MR_RESERVED MR_READ) MR_EXECUTE) ".text")
  | 1 => Some (section_region (srodata sym) (erodata sym) (bf_union MR_RESERVED MR_READ) ".rodata")
  | 2 => Some (section_region (sdata sym) (edata sym)
      (bf_union (bf_union MR_RESERVED MR_READ) MR_WRITE) ".data")
  | 3 => Some (section_region (percpu_start sym) (percpu_end sym)
      (bf_union (bf_union MR_RESERVED MR_READ) MR_WRITE) ".percpu")
  | 4 => Some (section_region (boot_stack sym) (boot_stack_top sym)
      (bf_union (bf_union MR_RESERVED MR_READ) MR_WRITE) "boot stack")
  | 5 => Some (section_region (sbss sym) (ebss sym)
      (bf_union (bf_union MR_RESERVED MR_READ) MR_WRITE) ".bss")
  | i => if bool_decide (i < 6 + length (MMIO_REGIONS cfg))%nat
         then mmio_region <$> MMIO_REGIONS cfg !! (i - 6)%nat
         else None
  end%nat.

(** The memory behind the kernel image. *)
Definition free_region : MemRegion :=
  let start := align_up_4k (axhal_virt_to_phys (ekernel sym)) in
  let end_ := align_down_4k (PHYS_MEMORY_END cfg) in
  {| rg_paddr := start; rg_size := end_ ⊖ start;
     rg_flags := bf_union (bf_union MR_FREE MR_READ) MR_WRITE; rg_name := "free memory" |}.

(** ** The platforms *)

Definition low_memory : MemRegion := {|
  rg_paddr := 0; rg_size := 0x9f000;
  rg_flags := bf_union (bf_union MR_RESERVED MR_READ) MR_WRITE; rg_name := "low memory" |}.

Definition pc_x86_region_at (idx : nat) : option MemRegion :=
  let num := common_memory_regions_num in
  if bool_decide (idx = 0)%nat then Some low_memory
  else if bool_decide (idx ≤ num)%nat then common_memory_region_at (idx - 1)
  else if bool_decide (idx = num + 1)%nat then Some free_region
  else None.

Definition qemu_virt_region_at (idx : nat) : option MemRegion :=
  match (idx ?= common_memory_regions_num)%nat with
  | Lt => common_memory_region_at idx
  | Eq => Some free_region
  | Gt => None
  end.

Definition extern_memory_region_at (idx : nat) : option MemRegion :=
  if bool_decide (idx = 1)%nat
  then Some {| rg_paddr := 0; rg_size := 0x1000;
               rg_flags := bf_union (bf_union MR_FREE MR_READ) MR_WRITE; rg_name := "spintable" |}
  else None.

Definition raspi4_region_at (idx : nat) : option MemRegion :=
  match (idx ?= common_memory_regions_num)%nat with
  | Lt => common_memory_region_at idx
  | Eq => Some free_region
  | Gt => extern_memory_region_at (idx - common_memory_regions_num)
  end.

Definition memory_regions_num (p : platform) : nat :=
  match p with
  | PcX86 | Raspi4Aarch64 => common_memory_regions_num + 2
  | QemuVirtAarch64 | QemuVirtRiscv => common_memory_regions_num + 1
  end.

Definition memory_region_at (p : platform) : nat → option MemRegion :=
  match p with
  | PcX86 => pc_x86_region_at
  | QemuVirtAarch64 | QemuVirtRiscv => qemu_virt_region_at
  | Raspi4Aarch64 => raspi4_region_at
  end.

(** [MemRegionIter::next]. *)
Definition region_iter_next (p : platform) (idx : nat) : option MemRegion * nat :=
  (if bool_decide (idx < memory_regions_num p)%nat then memory_region_at p idx else None, S idx).

(** What a [for] loop over the iterator visits. *)
Fixpoint regions_from (fuel : nat) (p : platform) (idx : nat) : list MemRegion :=
  match fuel with
  | O => []
  | S fuel =>
      match region_iter_next p idx with
      | (Some r, idx) => r :: regions_from fuel p idx
      | (None, _) => []
      end
  end.

Definition memory_regions (p : platform) : list MemRegion := regions_from (S (memory_regions_num p)) p 0.

(** [impl From<MemRegionFlags> for MappingFlags]. *)
Definition MappingFlags_from (f : Z) : Z :=
  let ret := 0 in
  let ret := bf_insert_if (bf_contains f MR_READ) MF_READ ret in
  let ret := bf_insert_if (bf_contains f MR_WRITE) MF_WRITE ret in
  let ret := bf_insert_if (bf_contains f MR_EXECUTE) MF_EXECUTE ret in
  bf_insert_if (bf_contains f MR_DEVICE) MF_DEVICE ret.

End mem.

(** ** [LazyInit] *)

Definition lazy_init_by {T} (data : T) (l : option T) : outcome (option T) :=
  match l with None => Done (Some data) | Some _ => Panic end.

Definition lazy_get {T} (l : option T) : outcome T := match l with Some x => Done x | None => Panic end.

(** ** The regions as a list *)

Section regions.
Context `{BF : Bitflags} (cfg : axconfig) (sym : symbols).

Definition image_regions : list MemRegion :=
  let rw := bf_union (bf_union MR_RESERVED MR_READ) MR_WRITE in
  [section_region cfg (stext sym) (etext sym) (bf_union (bf_union MR_RESERVED MR_READ) MR_EXECUTE) ".text";
   section_region cfg (srodata sym) (erodata sym) (bf_union MR_RESERVED MR_READ) ".rodata";
   section_region cfg (sdata sym) (edata sym) rw ".data";
   section_region cfg (percpu_start sym) (percpu_end sym) rw ".percpu";
   section_region cfg (boot_stack sym) (boot_stack_top sym) rw "boot stack";
   section_region cfg (sbss sym) (ebss sym) rw ".bss"].

Definition spintable : MemRegion := {|
  rg_paddr := 0; rg_size := 0x1000;
  rg_flags := bf_union (bf_union MR_FREE MR_READ) MR_WRITE; rg_name := "spintable" |}.

(** The regions a platform has besides the kernel image, the devices and the
    free memory. *)
Definition low_regions (p : platform) : list MemRegion :=
  match p with PcX86 => [low_memory] | Raspi4Aarch64 => [spintable] | _ => [] end.

Definition region_list (p : platform) : list MemRegion :=
  let common := image_regions ++ (mmio_region <$> MMIO_REGIONS cfg) in
  match p with
  | PcX86 => low_memory :: common ++ [free_region cfg sym]
  | Raspi4Aarch64 => common ++ [free_region cfg sym; spintable]
  | _ => common ++ [free_region cfg sym]
  end.

Lemma common_memory_region_at_eq idx :
  common_memory_region_at cfg sym idx = (image_regions ++ (mmio_region <$> MMIO_REGIONS cfg)) !! idx.
Proof.
  do 6 (destruct idx as [|idx]; [done|]). cbn [common_memory_region_at].
  change (image_regions ++ _) with (image_regions ++ (mmio_region <$> MMIO_REGIONS cfg)).
  rewrite lookup_app_r by (cbn; lia).
  change (length image_regions) with 6%nat. rewrite list_lookup_fmap.
  case_bool_decide; [done|]. symmetry. apply fmap_None, lookup_ge_None. lia.
Qed.

Lemma common_length :
  length (image_regions ++ (mmio_region <$> MMIO_REGIONS cfg)) = common_memory_regions_num cfg.
Proof. rewrite length_app, length_fmap. done. Qed.

Lemma memory_region_at_eq p idx :
  (idx < memory_regions_num cfg p)%nat → memory_region_at cfg sym p idx = region_list p !! idx.
Proof.
  pose proof common_length as Hlen. intros Hidx.
  destruct p; cbn [memory_region_at memory_regions_num region_list] in *.
  - unfold pc_x86_region_at. destruct idx as [|idx]; [done|]. rewrite bool_decide_false by lia.
    change ((low_memory :: ?l) !! S idx) with (l !! idx). case_bool_decide.
    + replace (S idx - 1)%nat with idx by lia. rewrite common_memory_region_at_eq. symmetry. apply lookup_app_l. lia.
    + rewrite bool_decide_true by lia. rewrite lookup_app_r by lia.
      by replace (idx - _)%nat with 0%nat by lia.
  - unfold qemu_virt_region_at. destruct (Nat.compare_spec idx (common_memory_regions_num cfg)); [| |lia].
    + rewrite lookup_app_r by lia. by replace (idx - _)%nat with 0%nat by lia.
    + rewrite common_memory_region_at_eq. symmetry. apply lookup_app_l. lia.
  - unfold qemu_virt_region_at. destruct (Nat.compare_spec idx (common_memory_regions_num cfg)); [| |lia].
    + rewrite lookup_app_r by lia. by replace (idx - _)%nat with 0%nat by lia.
    + rewrite common_memory_region_at_eq. symmetry. apply lookup_app_l. lia.
  - unfold raspi4_region_at. destruct (Nat.compare_spec idx (common_memory_regions_num cfg)).
    + rewrite lookup_app_r by lia. by replace (idx - _)%nat with 0%nat by lia.
    + rewrite common_memory_region_at_eq. symmetry. apply lookup_app_l. lia.
    + unfold extern_memory_region_at. rewrite bool_decide_true by lia. rewrite lookup_app_r by lia.
      by replace (idx - _)%nat with 1%nat by lia.
Qed.

Lemma region_list_length p : length (region_list p) = memory_regions_num cfg p.
Proof.
  pose proof common_length as Hlen.
  destruct p; cbn [region_list memory_regions_num length]; rewrite length_app, Hlen; cbn [length]; lia.
Qed.

(** The iterator visits all the regions, in their order. *)
Lemma memory_regions_eq p : memory_regions cfg sym p = region_list p.
Proof.
  unfold memory_regions. pose proof (region_list_length p) as Hlen.
  assert (∀ fuel idx, (length (region_list p) < fuel + idx)%nat →
    regions_from cfg sym fuel p idx = drop idx (region_list p)) as Hall; [|by rewrite Hall by lia].
  induction fuel as [|fuel IH]; intros idx Hf; cbn [regions_from].
  { by rewrite drop_ge by lia. }
  unfold region_iter_next. case_bool_decide as Hi.
  - rewrite memory_region_at_eq by done. destruct (region_list p !! idx) as [r|] eqn:Hr.
    + rewrite IH by lia. symmetry. by apply drop_S.
    + apply lookup_ge_None in Hr. lia.
  - by rewrite drop_ge by lia.
Qed.

End regions.

(** The rights the regions are mapped with: code is not writable, data is not
    executable. *)
Definition kernel_flags : list Z :=
  [MF_READ .| MF_EXECUTE; MF_READ; MF_READ .| MF_WRITE; MF_READ .| MF_WRITE .| MF_DEVICE].

Lemma MappingFlags_from_eq `{BitflagsLaws} (f : Z) :
  MappingFlags_from f = (if f .& MR_READ =? MR_READ then MF_READ else 0) .| (if f .& MR_WRITE =? MR_WRITE then MF_WRITE else 0)
    .| (if f .& MR_EXECUTE =? MR_EXECUTE then MF_EXECUTE else 0) .| (if f .& MR_DEVICE =? MR_DEVICE then MF_DEVICE else 0).
Proof. unfold MappingFlags_from. by bitflags_simpl. Qed.

Lemma region_flags `{BitflagsLaws} (cfg : axconfig) (sym : symbols) (p : platform) :
  Forall (λ r, MappingFlags_from (rg_flags r) ∈ kernel_flags) (memory_regions cfg sym p).
Proof.
  assert (∀ f, MappingFlags_from f ∈ kernel_flags ↔
    bool_decide ((if f .& MR_READ =? MR_READ then MF_READ else 0) .| (if f .& MR_WRITE =? MR_WRITE then MF_WRITE else 0)
    .| (if f .& MR_EXECUTE =? MR_EXECUTE then MF_EXECUTE else 0) .| (if f .& MR_DEVICE =? MR_DEVICE then MF_DEVICE else 0)
      ∈ kernel_flags) = true) as Hf.
  { intros f. rewrite MappingFlags_from_eq. by rewrite bool_decide_eq_true. }
  assert (Forall (λ r, MappingFlags_from (rg_flags r) ∈ kernel_flags)
    (image_regions cfg sym ++ (mmio_region <$> MMIO_REGIONS cfg) ++ [free_region cfg sym; low_memory; spintable])) as Hall.
  { rewrite !Forall_app. split_and!.
    - unfold image_regions. rewrite !Forall_cons, Forall_nil. cbn [section_region rg_flags].
      bitflags_simpl. split_and!; try done; apply Hf; by vm_compute.
    - apply Forall_fmap, Forall_forall. intros x _. cbn. bitflags_simpl. apply Hf; by vm_compute.
    - rewrite !Forall_cons, Forall_nil. cbn. bitflags_simpl. split_and!; try done; apply Hf; by vm_compute. }
  rewrite memory_regions_eq. rewrite !Forall_app, !Forall_cons in Hall. destruct Hall as (Hi & Hm & Hfr & Hl & Hs & _).
  destruct p; cbn [region_list]; rewrite ?Forall_cons, !Forall_app, ?Forall_cons; by split_and!.
Qed.

(** ** The layout of the kernel *)

(** What [linker.lds.S] and the configuration of a platform give: sections
    that begin and end at pages, in order, behind the offset of the linear
    mapping; devices at pages, outside the memory of the kernel, its free
    memory and the regions below it; all below [span]. *)
Record kernel_layout (cfg : axconfig) (sym : symbols) (lows : list region) (span : Z) : Prop := {
  kl_offset : 0 ≤ PHYS_VIRT_OFFSET cfg ∧ (4096 | PHYS_VIRT_OFFSET cfg);
  kl_order : PHYS_VIRT_OFFSET cfg ≤ stext sym ≤ etext sym ∧ etext sym ≤ srodata sym ≤ erodata sym ∧
    erodata sym ≤ sdata sym ≤ edata sym ∧ edata sym ≤ percpu_start sym ≤ percpu_end sym ∧
    percpu_end sym ≤ boot_stack sym ≤ boot_stack_top sym ∧ boot_stack_top sym ≤ sbss sym ≤ ebss sym ∧
    ebss sym ≤ ekernel sym < 2 ^ 64 - 4096;
  kl_pages : Forall (λ a, (4096 | a)) [stext sym; etext sym; srodata sym; erodata sym; sdata sym; edata sym;
    percpu_start sym; percpu_end sym; boot_stack sym; boot_stack_top sym; sbss sym; ebss sym; ekernel sym];
  kl_memory : ekernel sym - PHYS_VIRT_OFFSET cfg ≤ PHYS_MEMORY_END cfg < span;
  kl_memory_pages : (4096 | PHYS_MEMORY_END cfg);
  kl_devices : Forall (λ r, 0 ≤ r.1 ∧ 0 ≤ r.2 ∧ r.1 + r.2 ≤ span ∧ (4096 | r.1) ∧ (4096 | r.2)) (MMIO_REGIONS cfg);
  kl_apart : pairwise_disj ((stext sym - PHYS_VIRT_OFFSET cfg,
    PHYS_MEMORY_END cfg - (stext sym - PHYS_VIRT_OFFSET cfg)) :: lows ++ MMIO_REGIONS cfg);
}.

Definition extent (r : MemRegion) : region := (rg_paddr r, rg_size r).

(** A region of pages below [span]. *)
Definition page_extent (span : Z) (x : region) : Prop :=
  0 ≤ x.1 ∧ 0 ≤ x.2 ∧ x.1 + x.2 ≤ span ∧ (4096 | x.1) ∧ (4096 | x.2).

Section layout.
Context `{BF : Bitflags} (cfg : axconfig) (sym : symbols) (p : platform) (span : Z).
Context (Hspan : span ≤ 2 ^ 64) (Hlow : 0x100000 ≤ span).
Context (HL : kernel_layout cfg sym (extent <$> low_regions p) span).

#[local] Abbreviation off := (PHYS_VIRT_OFFSET cfg).

Definition image_extents : list region :=
  [(stext sym - off, etext sym - stext sym); (srodata sym - off, erodata sym - srodata sym);
   (sdata sym - off, edata sym - sdata sym); (percpu_start sym - off, percpu_end sym - percpu_start sym);
   (boot_stack sym - off, boot_stack_top sym - boot_stack sym); (sbss sym - off, ebss sym - sbss sym)].

Definition free_extent : region := (ekernel sym - off, PHYS_MEMORY_END cfg - (ekernel sym - off)).

Lemma section_extent start end_ flags name : off ≤ start ≤ end_ → end_ < 2 ^ 64 →
  extent (section_region cfg start end_ flags name) = (start - off, end_ - start).
Proof using HL.
  intros. pose proof (kl_offset _ _ _ _ HL). unfold extent, section_region, axhal_virt_to_phys; cbn [rg_paddr rg_size].
  by rewrite !wsub_small by (unfold is_usize; lia).
Qed.

Lemma image_extents_eq : extent <$> image_regions cfg sym = image_extents.
Proof using HL.
  pose proof (kl_order _ _ _ _ HL) as Ho. unfold image_regions, image_extents. cbn [fmap list_fmap].
  by rewrite !section_extent by lia.
Qed.

Lemma free_extent_eq : extent (free_region cfg sym) = free_extent.
Proof using HL Hspan.
  pose proof (kl_order _ _ _ _ HL) as Ho. pose proof (kl_memory _ _ _ _ HL) as Hm.
  pose proof (kl_offset _ _ _ _ HL) as [Hoff Hoff4]. pose proof (kl_memory_pages _ _ _ _ HL) as Hm4.
  pose proof (kl_pages _ _ _ _ HL) as Hp. rewrite !Forall_cons in Hp. destruct_and? Hp.
  unfold extent, free_region, free_extent, axhal_virt_to_phys; cbn [rg_paddr rg_size].
  unfold align_up_4k, align_down_4k. change PAGE_SIZE_4K with (2 ^ 12).
  rewrite (wsub_small (ekernel sym)) by (unfold is_usize; lia).
  assert ((2 ^ 12 | ekernel sym - off)) as Hd by by apply Z.divide_sub_r.
  rewrite align_up_eq, align_down_eq by (unfold is_usize; lia).
  destruct (Z.ltb_spec (ekernel sym - off + 2 ^ 12 - 1) (2 ^ 64)) as [_|]; [|lia].
  rewrite (proj2 (Z.mod_divide (PHYS_MEMORY_END cfg) (2 ^ 12) ltac:(lia))) by done.
  assert ((ekernel sym - off + 2 ^ 12 - 1) mod 2 ^ 12 = 2 ^ 12 - 1) as ->.
  { destruct Hd as [k ->]. replace (k * 2 ^ 12 + 2 ^ 12 - 1) with ((2 ^ 12 - 1) + k * 2 ^ 12) by lia.
    by rewrite Z.mod_add, Z.mod_small by lia. }
  rewrite wsub_small by (unfold is_usize; lia). f_equal; lia.
Qed.

Lemma extents_perm :
  extent <$> memory_regions cfg sym p ≡ₚ
    (image_extents ++ [free_extent]) ++ (extent <$> low_regions p) ++ MMIO_REGIONS cfg.
Proof using HL Hspan.
  assert (extent <$> (mmio_region <$> MMIO_REGIONS cfg) = MMIO_REGIONS cfg) as Hm.
  { rewrite <- list_fmap_compose. rewrite <- (list_fmap_id (MMIO_REGIONS cfg)) at 2. apply list_fmap_ext. by intros ? []. }
  pose proof image_extents_eq as Hi. pose proof free_extent_eq as Hf.
  rewrite memory_regions_eq. destruct p; cbn [region_list low_regions];
    rewrite ?(fmap_cons extent low_memory), !fmap_app, Hi, Hm; cbn [fmap list_fmap]; rewrite Hf.
  - change (?x :: ?l) with ([x] ++ l).
    rewrite (Permutation_app_comm [extent low_memory]), <- !app_assoc. apply Permutation_app_head.
    by rewrite (Permutation_app_comm (MMIO_REGIONS cfg)), <- app_assoc.
  - rewrite <- !app_assoc. apply Permutation_app_head, Permutation_app_comm.
  - rewrite <- !app_assoc. apply Permutation_app_head, Permutation_app_comm.
  - rewrite <- !app_assoc. apply Permutation_app_head. apply (Permutation_app_comm (MMIO_REGIONS cfg)).
Qed.

Lemma image_in_memory x : x ∈ image_extents ++ [free_extent] →
  rsub x (stext sym - off, PHYS_MEMORY_END cfg - (stext sym - off)).
Proof using HL.
  pose proof (kl_order _ _ _ _ HL) as Ho. pose proof (kl_memory _ _ _ _ HL) as Hm.
  unfold image_extents, free_extent. cbn [app]. rewrite !elem_of_cons, elem_of_nil. unfold rsub.
  intros Hx. destruct_or! Hx; subst; cbn [fst snd]; lia || done.
Qed.

(** No two regions of a kernel share an address. *)
Lemma memory_regions_apart : pairwise_disj (extent <$> memory_regions cfg sym p).
Proof using HL Hspan.
  rewrite extents_perm. destruct (kl_apart _ _ _ _ HL) as [Hbig Hrest].
  pose proof (kl_order _ _ _ _ HL) as Ho. pose proof (kl_memory _ _ _ _ HL) as Hm.
  apply pairwise_disj_app. split_and!; [|done|].
  - unfold image_extents, free_extent. cbn [app pairwise_disj]. rewrite !Forall_cons, !Forall_nil. unfold rdisj. cbn [fst snd].
    split_and!; try done; lia.
  - apply Forall_forall. intros x Hx. apply Forall_forall. intros y Hy.
    eapply rdisj_sub; [by apply image_in_memory| |by apply (proj1 (Forall_forall _ _) Hbig)]. unfold rsub. lia.
Qed.

(** Every region consists of pages below [span]. *)
Lemma memory_regions_pages : Forall (λ r, page_extent span (extent r)) (memory_regions cfg sym p).
Proof using HL Hspan Hlow.
  apply (Forall_fmap extent (page_extent span)). rewrite extents_perm. rewrite !Forall_app. split_and!.
  - pose proof (kl_order _ _ _ _ HL) as Ho. pose proof (kl_memory _ _ _ _ HL) as Hm.
    pose proof (kl_offset _ _ _ _ HL) as [Hoff Hoff4]. pose proof (kl_pages _ _ _ _ HL) as Hp.
    rewrite !Forall_cons in Hp. destruct_and? Hp. unfold image_extents, page_extent.
    rewrite !Forall_cons. cbn [fst snd]. split_and!; try done; try lia; by apply Z.divide_sub_r.
  - pose proof (kl_order _ _ _ _ HL) as Ho. pose proof (kl_memory _ _ _ _ HL) as Hm.
    pose proof (kl_offset _ _ _ _ HL) as [Hoff Hoff4]. pose proof (kl_pages _ _ _ _ HL) as Hp.
    rewrite !Forall_cons in Hp. destruct_and? Hp. pose proof (kl_memory_pages _ _ _ _ HL).
    unfold free_extent, page_extent. apply Forall_singleton. cbn [fst snd].
    split_and!; try lia; repeat apply Z.divide_sub_r; done.
  - destruct p; cbn [low_regions fmap list_fmap]; [|done|done|]; apply Forall_singleton;
      unfold page_extent, extent; cbn; split_and!; try lia; by apply Z.mod_divide.
  - exact (kl_devices _ _ _ _ HL).
Qed.

End layout.
