(* ===== verification/AxRuntime.v ===== *)
(** * Bringing up memory and the timer ([modules/axruntime/src/lib.rs])

    [init_allocator] gives the free regions of the platform to the global
    allocator, [remap_kernel_memory] builds the page table of the kernel from
    the regions and every CPU switches to it, [update_timer] programs the
    periodic timer.  [PagingIfImpl] of [modules/axhal/src/paging.rs] takes the
    frames of page tables from the global allocator.  The theorems show that
    the kernel's table is exactly the linear mapping of the regions, that the
    allocator owns exactly the free regions, and, for the two together, that
    the table is built of frames the allocator has handed out. *)

From S2P Require Import Prelude MemoryAddr Extern Allocator PageAllocSpec SlabSpec AxAlloc.
From S2P Require Import PageTableEntry PageTable PageTableSpec AxHalMem.
From stdpp Require Import base numbers list gmap sets strings.

Open Scope Z_scope.
Open Scope word_scope.

(** ** The page table of the kernel *)

Section kernel_table.
Context {PTE : GenericPTE} {MD : PagingMetaData} {A : Type} {IF : PagingIf A} `{BF : Bitflags} (cfg : axconfig).

(** Memory, the provider of frames, [KERNEL_PAGE_TABLE] and the page table
    register of each CPU. *)
Record ksys := { k_mem : Z → Z; k_alloc : A; k_table : option PageTable64; k_root : nat → Z }.

Definition with_root (cpu : nat) (root : Z) (k : ksys) : ksys := {|
  k_mem := k_mem k; k_alloc := k_alloc k; k_table := k_table k;
  k_root := λ c, if bool_decide (c = cpu) then root else k_root k c |}.

(** The loop over the regions. *)
Fixpoint map_regions (rs : list MemRegion) : stm (pstate A) PagingError unit :=
  match rs with
  | [] => mret tt
  | r :: rs =>
      _ ← map_region (axhal_phys_to_virt cfg (rg_paddr r)) (rg_paddr r) (rg_size r)
            (MappingFlags_from (rg_flags r)) true;
      map_regions rs
  end.

(** The primary CPU builds the table; [?] drops a table that is not complete. *)
Definition build_kernel_table (rs : list MemRegion) : stm ksys PagingError unit := λ k,
  '(w, r) ← try_new {| w_mem := k_mem k; w_alloc := k_alloc k |};
  match r with
  | Err e => Done ({| k_mem := w_mem w; k_alloc := w_alloc w; k_table := k_table k; k_root := k_root k |}, Err e)
  | Ok pt =>
      '(s, r) ← map_regions rs {| ps_mem := w_mem w; ps_alloc := w_alloc w; ps_pt := pt |};
      match r with
      | Err e =>
          Done ({| k_mem := ps_mem s; k_alloc := drop_table s; k_table := k_table k; k_root := k_root k |}, Err e)
      | Ok _ =>
          t ← lazy_init_by (ps_pt s) (k_table k);
          Done ({| k_mem := ps_mem s; k_alloc := ps_alloc s; k_table := t; k_root := k_root k |}, Ok tt)
      end
  end.

(** [write_page_table_root(KERNEL_PAGE_TABLE.root_paddr())]. *)
Definition load_kernel_root (cpu : nat) : stm ksys PagingError unit := λ k,
  pt ← lazy_get (k_table k); Done (with_root cpu (root_paddr pt) k, Ok tt).

Definition remap_kernel_memory (cpu : nat) (bsp : bool) (rs : list MemRegion) : stm ksys PagingError unit :=
  _ ← (if bsp then build_kernel_table rs else mret tt);
  load_kernel_root cpu.

End kernel_table.
Arguments ksys : clear implicits.

(** ** The linear mapping *)

Section linear.
Context {PTE : GenericPTE} {MD : PagingMetaData} {A : Type} {IF : PagingIf A} `{BF : Bitflags}
  {pa_ok fl_ok : Z → Prop} {fl_view : Z → Z} {owned : A → gset Z}
  {PTEL : GenericPTELaws PTE pa_ok fl_ok fl_view} {IFL : PagingIfLaws IF owned pa_ok}.
Context (Hlev : LEVELS = 3 ∨ LEVELS = 4) (cfg : axconfig) (Hoff : (4096 | PHYS_VIRT_OFFSET cfg)).

#[local] Abbreviation inv := (pt_inv (pa_ok := pa_ok) (fl_ok := fl_ok) (owned := owned)).

(** The physical address a virtual address stands for. *)
Definition linear (va : Z) : Z := (va - PHYS_VIRT_OFFSET cfg) mod va_span.

Definition inside (r : MemRegion) (pa : Z) : Prop := rg_paddr r ≤ pa < rg_paddr r + rg_size r.

Lemma in_linear_region (r : MemRegion) (va : Z) : page_extent va_span (extent r) →
  in_region (axhal_phys_to_virt cfg (rg_paddr r)) (rg_size r) va = bool_decide (inside r (linear va)) ∧
  (inside r (linear va) →
    rg_paddr r + (va - axhal_phys_to_virt cfg (rg_paddr r)) mod va_span = linear va).
Proof using Hlev.
  intros (H0 & H1 & H2 & _). cbn [extent fst snd] in *. unfold in_region, axhal_phys_to_virt, inside.
  assert (rg_paddr r ⊕ PHYS_VIRT_OFFSET cfg = PHYS_VIRT_OFFSET cfg ⊕ rg_paddr r) as ->
    by (unfold wadd; by rewrite Z.add_comm).
  rewrite (region_shift Hlev). fold (linear va). pose proof span_pos.
  assert (0 ≤ linear va < va_span) as Hx by (apply Z.mod_pos_bound; lia).
  destruct (decide (rg_paddr r ≤ linear va)).
  - rewrite Z.mod_small by lia. split; [|lia].
    case_bool_decide; [apply Z.ltb_lt|apply Z.ltb_ge]; lia.
  - rewrite <- (Z.mod_unique (linear va - rg_paddr r) va_span (-1) (linear va - rg_paddr r + va_span)) by lia.
    split; [|lia]. case_bool_decide; [lia|apply Z.ltb_ge; lia].
Qed.

Lemma extents_apart (r r' : MemRegion) (pa : Z) : rdisj (extent r) (extent r') → inside r pa → ¬ inside r' pa.
Proof. unfold rdisj, inside. cbn [extent fst snd]. lia. Qed.

(** What the loop over the regions leaves: every address of a region goes to
    the physical address it stands for, and every other is as before. *)
Definition mapped_linearly (rs : list MemRegion) (s s' : pstate A) : Prop :=
  (∀ r va, r ∈ rs → inside r (linear va) → ∃ sz,
     translate s' va = Done (Ok (linear va, fl_view (MappingFlags_from (rg_flags r)), sz))) ∧
  (∀ va, (∀ r, r ∈ rs → ¬ inside r (linear va)) → translate s' va = translate s va).

Lemma map_regions_spec (rs : list MemRegion) : ∀ owner s,
  (∀ a, 0 ≤ a < va_span → (4096 | a) → pa_ok a) →
  Forall (λ r, page_extent va_span (extent r) ∧ fl_ok (MappingFlags_from (rg_flags r))) rs →
  pairwise_disj (extent <$> rs) → inv owner s → all_used owner s →
  (∀ r va, r ∈ rs → inside r (linear va) → translate s va = Done (Err NotMapped)) →
  ∃ s' res owner', map_regions cfg rs s = Done (s', res) ∧ inv owner' s' ∧
    takes (owned := owned) owner owner' s s' ∧
    match res with Ok _ => mapped_linearly rs s s' | Err e => e = NoMemory end.
Proof using Hlev Hoff PTEL IFL.
  induction rs as [|r rs IH]; intros owner s Hpa Hrs Hd Hinv Hused Hfree.
  { exists s, (Ok tt), owner. split_and!; [done|done|by apply takes_refl|]. split; [set_solver|done]. }
  apply Forall_cons in Hrs as [[He Hfl] Hrs]. destruct Hd as [Hd1 Hd2]. pose proof He as (H0 & H1 & H2 & Hp & Hsz).
  cbn [extent fst snd] in *. cbn [map_regions]. unfold mbind, stm_bind.
  assert (va_span < 2 ^ 64) as Hsm by (unfold va_span; destruct Hlev as [-> | ->]; reflexivity).
  assert ((4096 | axhal_phys_to_virt cfg (rg_paddr r))) as Hv by by apply wadd_4k.
  rewrite map_region_aligned by done.
  destruct (map_region_loop_spec Hlev (MappingFlags_from (rg_flags r)) true (region_fuel (rg_size r)) Hfl owner s
    (axhal_phys_to_virt cfg (rg_paddr r)) (rg_paddr r) (rg_size r)) as
    (s1 & r1 & owner1 & -> & Hinv1 & Ht1 & Hu1 & Hk & Hout & Hr1); try done; [lia|lia| |unfold region_fuel; lia|].
  { intros k Hk Hdk. apply Hpa; [lia|]. by apply Z.divide_add_r. }
  assert (∀ va, inside r (linear va) → in_region (axhal_phys_to_virt cfg (rg_paddr r)) (rg_size r) va = true) as Hin.
  { intros va Hi. rewrite (proj1 (in_linear_region r va He)). by apply bool_decide_eq_true_2. }
  assert (∀ va, ¬ inside r (linear va) → translate s1 va = translate s va) as Hsame.
  { intros va Hi. apply Hout. rewrite (proj1 (in_linear_region r va He)). by apply bool_decide_eq_false_2. }
  assert (match r1 with Ok _ => all_used owner1 s1 | Err e => e = NoMemory end) as Hused1.
  { apply Hu1; [done|]. intros va Hi. rewrite (proj1 (in_linear_region r va He)) in Hi.
    apply bool_decide_eq_true_1 in Hi. apply (Hfree r); [left|done]. }
  destruct r1 as [u|e]; [|by exists s1, (Err e), owner1].
  assert (∀ r' va, r' ∈ rs → inside r' (linear va) → ¬ inside r (linear va)) as Hap.
  { intros r' va Hr' Hi Hi'. eapply (extents_apart r r'); [|done..].
    apply (proj1 (Forall_forall _ _) Hd1). by apply list_elem_of_fmap_2. }
  destruct (IH owner1 s1) as (s2 & r2 & owner2 & Hrun2 & Hinv2 & Ht2 & Hr2); try done.
  { intros r' va Hr' Hi. rewrite Hsame by eauto. apply (Hfree r'); [by right|done]. }
  exists s2, r2, owner2. split_and!; [done|done|by eapply takes_trans|].
  destruct r2 as [u2|e]; [|done]. destruct Hr2 as [Hnew Hold], Hr1 as (_ & Hmap & _). split.
  - intros r' va [->|Hr']%elem_of_cons Hi; [|by eapply Hnew]. rewrite Hold by (intros r' Hr' Hi'; by eapply Hap).
    destruct (Hmap va (Hin va Hi)) as (sz & -> & _). exists sz. by rewrite (proj2 (in_linear_region r va He) Hi).
  - intros va Hno. rewrite Hold by set_solver. apply Hsame. set_solver.
Qed.

Lemma try_new_alloc (w w' : world A) (pt : PageTable64) : try_new w = Done (w', Ok pt) →
  alloc_frame (w_alloc w) = Some (root_paddr pt, w_alloc w').
Proof.
  unfold try_new, alloc_table, mbind, stm_bind. destruct (alloc_frame (w_alloc w)) as [[f a]|]; [|done].
  unfold mret, stm_ret. intros. by simplify_eq/=.
Qed.

Lemma build_kernel_table_spec (rs : list MemRegion) (k : ksys A) :
  (∀ a, 0 ≤ a < va_span → (4096 | a) → pa_ok a) →
  Forall (λ r, page_extent va_span (extent r) ∧ fl_ok (MappingFlags_from (rg_flags r))) rs →
  pairwise_disj (extent <$> rs) → k_table k = None →
  ∃ k' r, build_kernel_table cfg rs k = Done (k', r) ∧ k_root k' = k_root k ∧
  match r with
  | Ok _ => ∃ pt owner s0, k_table k' = Some pt ∧
      let s := {| ps_mem := k_mem k'; ps_alloc := k_alloc k'; ps_pt := pt |} in
      inv owner s ∧ (∀ va, translate s0 va = Done (Err NotMapped)) ∧ mapped_linearly rs s0 s ∧
      owned (k_alloc k') = owned (k_alloc k) ∪ dom owner ∧ dom owner ## owned (k_alloc k)
  | Err e => e = NoMemory ∧ k_table k' = None ∧ owned (k_alloc k') = owned (k_alloc k)
  end.
Proof using Hlev Hoff PTEL IFL.
  intros Hpa Hrs Hd Hk. unfold build_kernel_table.
  destruct (try_new_spec Hlev {| w_mem := k_mem k; w_alloc := k_alloc k |}) as (w & r & Hrun & Hr).
  rewrite Hrun. cbn [mbind outcome_bind]. destruct r as [pt|e].
  2: { destruct Hr as (-> & -> & _). do 2 eexists. split; [done|]. by rewrite Hk. }
  pose proof (try_new_alloc _ _ _ Hrun) as Hal. destruct (law_alloc_fresh _ _ _ Hal) as (Hfr & Hown & _).
  cbn [w_alloc] in Hfr, Hown. destruct Hr as (_ & _ & Hinv & Hnone).
  set (s0 := {| ps_mem := w_mem w; ps_alloc := w_alloc w; ps_pt := pt |}) in *.
  destruct (map_regions_spec rs _ s0 Hpa Hrs Hd Hinv) as (s & r & owner & -> & Hinv' & (Hd1 & Hd2 & Hd3) & Hr).
  { intros q path [_ <-]%lookup_singleton_Some. done. }
  { intros r va _ _. apply Hnone. }
  cbn [ps_alloc s0] in Hd2, Hd3. rewrite Hown in Hd2, Hd3. rewrite dom_singleton_L in Hd1, Hd3.
  assert (dom owner ## owned (k_alloc k)) as Hdis by set_solver.
  cbn [mbind outcome_bind]. destruct r as [u|e].
  - rewrite Hk. do 2 eexists. split; [done|]. split; [done|]. exists (ps_pt s), owner, s0. cbn.
    destruct s. split_and!; [done..|rewrite Hd2; set_solver|done].
  - do 2 eexists. split; [done|]. split; [done|]. split_and!; [done..|]. cbn [k_alloc]. unfold drop_table.
    pose proof (inv_dom _ _ Hinv') as Hdom. pose proof (inv_owned _ _ Hinv').
    rewrite (drop_owned (pa_ok := pa_ok) Hlev); [|apply Hinv'|by rewrite <- Hdom].
    rewrite <- Hdom, Hd2. set_solver.
Qed.

Context {BFL : BitflagsLaws}.

Lemma remap_spec (sym : symbols) (p : platform) (cpu : nat) (k : ksys A) :
  kernel_layout cfg sym (extent <$> low_regions p) va_span →
  (∀ a, 0 ≤ a < va_span → (4096 | a) → pa_ok a) → (∀ f, f ∈ kernel_flags → fl_ok f) →
  k_table k = None →
  let rs := memory_regions cfg sym p in
  ∃ k' r, remap_kernel_memory cfg cpu true rs k = Done (k', r) ∧
  match r with
  | Ok _ => ∃ pt owner, k_table k' = Some pt ∧ k_root k' cpu = root_paddr pt ∧
      let s := {| ps_mem := k_mem k'; ps_alloc := k_alloc k'; ps_pt := pt |} in
      inv owner s ∧ owned (k_alloc k') = owned (k_alloc k) ∪ dom owner ∧
      (∀ r va, r ∈ rs → inside r (linear va) → ∃ sz,
         translate s va = Done (Ok (linear va, fl_view (MappingFlags_from (rg_flags r)), sz))) ∧
      (∀ va, (∀ r, r ∈ rs → ¬ inside r (linear va)) → translate s va = Done (Err NotMapped)) ∧
      ∀ c, remap_kernel_memory cfg c false rs k' = Done (with_root c (root_paddr pt) k', Ok tt)
  | Err e => e = NoMemory ∧ k_table k' = None ∧ k_root k' = k_root k ∧ owned (k_alloc k') = owned (k_alloc k)
  end.
Proof using Hlev Hoff PTEL IFL BFL.
  intros HL Hpa Hfl Hk rs.
  assert (0x100000 ≤ va_span ≤ 2 ^ 64) as [Hlo Hhi] by (unfold va_span; destruct Hlev as [-> | ->]; split; discriminate).
  destruct (build_kernel_table_spec rs k Hpa) as (k1 & r & Hrun & Hroot & Hr); [| |done|].
  { apply Forall_and. split; [by apply memory_regions_pages|].
    eapply Forall_impl; [apply region_flags|]. cbn. auto. }
  { by eapply memory_regions_apart. }
  unfold remap_kernel_memory, mbind, stm_bind. rewrite Hrun. destruct r as [u|e].
  2: { exists k1, (Err e). split; [done|]. destruct Hr as (-> & ? & ?). done. }
  destruct Hr as (pt & owner & s0 & Ht & Hinv & Hnone & [Hnew Hold] & Hown & _).
  unfold load_kernel_root. rewrite Ht. cbn [lazy_get mbind outcome_bind].
  do 2 eexists. split; [done|]. exists pt, owner. cbn.
  split_and!; [done|by rewrite bool_decide_true|done|done|done| |].
  - intros va Hno. by rewrite Hold.
  - intros c. by rewrite Ht.
Qed.

(** When the primary CPU remaps the memory of a kernel that is laid out by
    the linker script, this returns.  On success the table of the kernel is
    well formed and is loaded on that CPU; a virtual address translates if and
    only if the physical address it stands for, its distance from the offset
    of the linear mapping, is in a region, and then to that address with the
    rights of the region; another CPU that joins loads the same table.  It
    fails only for lack of memory, and then every frame taken is given back. *)
Theorem kernel_memory_mapped (sym : symbols) (p : platform) (cpu : nat) (k : ksys A) :
  kernel_layout cfg sym (extent <$> low_regions p) va_span →
  (∀ a, 0 ≤ a < va_span → (4096 | a) → pa_ok a) → (∀ f, f ∈ kernel_flags → fl_ok f) →
  k_table k = None →
  let rs := memory_regions cfg sym p in
  ∃ k' r, remap_kernel_memory cfg cpu true rs k = Done (k', r) ∧
  match r with
  | Ok _ => ∃ pt, k_table k' = Some pt ∧ k_root k' cpu = root_paddr pt ∧
      let s := {| ps_mem := k_mem k'; ps_alloc := k_alloc k'; ps_pt := pt |} in
      pt_ok (pa_ok := pa_ok) (fl_ok := fl_ok) (owned := owned) s ∧
      (∀ r va, r ∈ rs → inside r (linear va) → ∃ sz,
         translate s va = Done (Ok (linear va, fl_view (MappingFlags_from (rg_flags r)), sz))) ∧
      (∀ va, (∀ r, r ∈ rs → ¬ inside r (linear va)) → translate s va = Done (Err NotMapped)) ∧
      ∀ c, remap_kernel_memory cfg c false rs k' = Done (with_root c (root_paddr pt) k', Ok tt)
  | Err e => e = NoMemory ∧ k_table k' = None ∧ k_root k' = k_root k ∧ owned (k_alloc k') = owned (k_alloc k)
  end.
Proof using Hlev Hoff PTEL IFL BFL.
  intros HL Hpa Hfl Hk rs. destruct (remap_spec sym p cpu k HL Hpa Hfl Hk) as (k' & r & Hrun & Hr).
  exists k', r. split; [done|]. destruct r; [|done].
  destruct Hr as (pt & owner & ? & ? & Hinv & _ & ? & ? & ?). exists pt.
  split; [done|]. split; [done|]. split; [by exists owner|]. by split_and!.
Qed.

End linear.

(** ** The memory of the allocator *)

Section init_allocator.
Context {A : Type} `{BA : !BitAlloc A} {B : Type} `{BH : !BuddyHeap B} `{BF : Bitflags} (cfg : axconfig).
#[local] Abbreviation ga := (GlobalAllocator A B).

Definition is_free (r : MemRegion) : bool := bf_contains (rg_flags r) MR_FREE.

(** The first loop: the largest free region seen so far, size and address. *)
Fixpoint max_region (rs : list MemRegion) (max_region_size max_region_paddr : Z) : Z :=
  match rs with
  | [] => max_region_paddr
  | r :: rs =>
      if is_free r && (rg_size r >? max_region_size) then max_region rs (rg_size r) (rg_paddr r)
      else max_region rs max_region_size max_region_paddr
  end.

(** The second loop, which ends with [break]. *)
Fixpoint init_loop (max_region_paddr : Z) (rs : list MemRegion) (g : ga) : outcome ga :=
  match rs with
  | [] => Done g
  | r :: rs =>
      if is_free r && (rg_paddr r =? max_region_paddr)
      then ga_init (axhal_phys_to_virt cfg (rg_paddr r)) (rg_size r) g
      else init_loop max_region_paddr rs g
  end.

Fixpoint add_loop (max_region_paddr : Z) (rs : list MemRegion) (g : ga) : outcome ga :=
  match rs with
  | [] => Done g
  | r :: rs =>
      if is_free r && negb (rg_paddr r =? max_region_paddr) then
        '(res, g) ← ga_add_memory (axhal_phys_to_virt cfg (rg_paddr r)) (rg_size r) g;
        match res with Ok _ => add_loop max_region_paddr rs g | Err _ => Panic end
      else add_loop max_region_paddr rs g
  end.

Definition init_allocator (rs : list MemRegion) (g : ga) : outcome ga :=
  let max_region_paddr := max_region rs 0 0 in
  g ← init_loop max_region_paddr rs g;
  add_loop max_region_paddr rs g.

(** *** The largest region *)

Lemma max_region_in (rs : list MemRegion) : ∀ size paddr,
  let m := max_region rs size paddr in
  (m = paddr ∧ ∀ r, r ∈ rs → is_free r = true → rg_size r ≤ size) ∨
  ∃ r, r ∈ rs ∧ is_free r = true ∧ m = rg_paddr r ∧ size < rg_size r ∧
    ∀ r', r' ∈ rs → is_free r' = true → rg_size r' ≤ rg_size r.
Proof.
  induction rs as [|r rs IH]; intros size paddr; cbn [max_region]; [left; set_solver|].
  destruct (is_free r) eqn:Hf; cbn [andb].
  - destruct (Z.gtb_spec (rg_size r) size).
    + destruct (IH (rg_size r) (rg_paddr r)) as [[-> Hle]|(r' & Hr' & ? & ? & ? & Hle)]; right.
      * exists r. split_and!; [left|done|done|lia|]. intros r' [->|?]%elem_of_cons ?; [lia|auto].
      * exists r'. split_and!; [by right|done|done|lia|]. intros r2 [->|?]%elem_of_cons ?; [lia|auto].
    + destruct (IH size paddr) as [[-> Hle]|(r' & Hr' & ? & ? & ? & Hle)]; [left|right].
      * split; [done|]. intros r' [->|?]%elem_of_cons ?; [lia|auto].
      * exists r'. split_and!; [by right|done..|]. intros r2 [->|?]%elem_of_cons ?; [lia|auto].
  - destruct (IH size paddr) as [[-> Hle]|(r' & Hr' & ? & ? & ? & Hle)]; [left|right].
    + split; [done|]. intros r' [->|?]%elem_of_cons ?; [congruence|auto].
    + exists r'. split_and!; [by right|done..|]. intros r2 [->|?]%elem_of_cons ?; [congruence|auto].
Qed.

Lemma init_loop_eq (m : Z) (r0 : MemRegion) (rs : list MemRegion) (g : ga) :
  r0 ∈ rs → is_free r0 = true → rg_paddr r0 = m →
  (∀ r, r ∈ rs → is_free r = true → rg_paddr r = m → r = r0) →
  init_loop m rs g = ga_init (axhal_phys_to_virt cfg (rg_paddr r0)) (rg_size r0) g.
Proof.
  intros Hin Hf Hm Huniq. induction rs as [|r rs IH]; [by apply elem_of_nil in Hin|].
  cbn [init_loop]. destruct (is_free r && (rg_paddr r =? m)) eqn:Hc.
  - bool_to_prop. by rewrite (Huniq r) by (done || left).
  - apply IH; [|intros r' ?; apply Huniq; by right]. apply elem_of_cons in Hin as [->|?]; [|done].
    rewrite Hf, Hm, Z.eqb_refl in Hc. done.
Qed.

(** *** The invariant of the allocator *)

Context {free : A → gset Z} `{LA : !BitAllocLaws BA free}.
Context {bok : B → Prop} {managed owned : B → list region} `{LB : !BuddyHeapLaws BH bok managed owned}.

#[local] Abbreviation inv := (ga_inv (free := free) (bok := bok) (managed := managed) (owned := owned)).

Definition vextent (r : MemRegion) : region := (rg_paddr r + PHYS_VIRT_OFFSET cfg, rg_size r).

(** A region of pages in the linear mapping. *)
Definition heap_region (r : MemRegion) : Prop :=
  0 < rg_size r ≤ CAP * 2 ^ 12 ∧ 0 ≤ rg_paddr r ∧ 0 < (vextent r).1 ∧ (vextent r).1 + rg_size r < 2 ^ 64 ∧
  (4096 | (vextent r).1) ∧ (4096 | rg_size r).

Lemma heap_region_virt (r : MemRegion) : 0 ≤ PHYS_VIRT_OFFSET cfg → heap_region r →
  axhal_phys_to_virt cfg (rg_paddr r) = (vextent r).1.
Proof.
  unfold heap_region, axhal_phys_to_virt, vextent. cbn [fst snd]. intros. apply wadd_small. unfold is_usize. lia.
Qed.

Lemma ga_add_memory_palloc (start len : Z) (g g' : ga) r :
  ga_add_memory start len g = Done (r, g') → palloc g' = palloc g.
Proof. unfold ga_add_memory. destruct (sba_add_memory _ _ _) as [[? ?]|]; [|done]. intros. by simplify_eq/=. Qed.

Lemma add_loop_spec (m : Z) (rs : list MemRegion) (x : region) : 0 ≤ PHYS_VIRT_OFFSET cfg → ∀ g extra,
  let others := filter (λ r, is_free r = true ∧ rg_paddr r ≠ m) rs in
  inv g [] [] extra ∅ → rsub (pa_region (palloc g)) x →
  Forall heap_region others → pairwise_disj (x :: (vextent <$> others) ++ extra) →
  ∃ g' extra', add_loop m rs g = Done g' ∧ inv g' [] [] extra' ∅ ∧ palloc g' = palloc g ∧
    extra' ≡ₚ (vextent <$> others) ++ extra.
Proof using LA LB.
  intros Hoff. induction rs as [|r rs IH]; intros g extra others Hg Hx Hok Hd; cbn [add_loop].
  { exists g, extra. done. }
  subst others. destruct (is_free r && negb (rg_paddr r =? m)) eqn:Hc.
  - assert (is_free r = true ∧ rg_paddr r ≠ m) as Hr.
    { apply andb_true_iff in Hc as [? Hc]. split; [done|]. by apply negb_true_iff, Z.eqb_neq in Hc. }
    rewrite filter_cons_True in Hok, Hd by done. rewrite filter_cons_True by done.
    apply Forall_cons in Hok as [Hr1 Hok]. rewrite fmap_cons in Hd |- *. destruct Hd as [Hxd [Hrd Hd]].
    apply Forall_cons in Hxd as [Hxr Hxd]. rewrite (heap_region_virt r Hoff Hr1).
    apply Forall_app in Hrd as [Hrd Hre]. destruct Hr1 as (Hsz & _ & Hv0 & Hv1 & Hv2 & Hv3).
    destruct (ga_add_memory_spec g [] [] extra ∅ (vextent r).1 (rg_size r) Hg) as (g1 & Hadd & Hg1);
      [done|lia|done..| |done|].
    { eapply rdisj_sub; [exact Hx| |exact Hxr]. unfold rsub. cbn. lia. }
    pose proof (ga_add_memory_palloc _ _ _ _ _ Hadd) as Hpa. rewrite Hadd. cbn [mbind outcome_bind].
    destruct (IH g1 (vextent r :: extra)) as (g2 & extra2 & -> & Hg2 & Hp2 & He2); try done.
    { by rewrite Hpa. }
    { rewrite <- Permutation_middle. split; [by apply Forall_cons|]. split; [by apply Forall_app|done]. }
    exists g2, extra2. split_and!; [done|done| |].
    + by rewrite Hp2.
    + rewrite He2. by rewrite <- Permutation_middle.
  - assert (¬ (is_free r = true ∧ rg_paddr r ≠ m)) as Hr.
    { intros [Hf Hm]. by rewrite Hf, (proj2 (Z.eqb_neq _ _) Hm) in Hc. }
    rewrite filter_cons_False in Hok, Hd by done. rewrite filter_cons_False by done. by apply IH.
Qed.

Lemma vextents_apart (l : list MemRegion) : pairwise_disj (extent <$> l) → pairwise_disj (vextent <$> l).
Proof.
  induction l as [|r l IH]; [done|]. rewrite !fmap_cons. intros [Hr Hl]. split; [|by apply IH].
  rewrite Forall_fmap in Hr |- *. eapply Forall_impl; [exact Hr|]. unfold rdisj, vextent. cbn. lia.
Qed.

(** The largest free region is the only one at its address. *)
Lemma largest_region (rs : list MemRegion) :
  let fr := filter (λ r, is_free r = true) rs in
  let m := max_region rs 0 0 in
  fr ≠ [] → Forall heap_region fr → pairwise_disj (extent <$> fr) →
  ∃ r0, r0 ∈ rs ∧ is_free r0 = true ∧ rg_paddr r0 = m ∧ (∀ r, r ∈ fr → rg_size r ≤ rg_size r0) ∧
    (∀ r, r ∈ rs → is_free r = true → rg_paddr r = m → r = r0) ∧
    fr ≡ₚ r0 :: filter (λ r, is_free r = true ∧ rg_paddr r ≠ m) rs.
Proof.
  intros fr m Hne Hok Hd. rewrite Forall_forall in Hok.
  destruct (max_region_in rs 0 0) as [[_ Hle]|(r0 & Hin & Hf & Hm & _ & Hmax)].
  { destruct fr as [|r fr'] eqn:Hfr; [done|]. assert (r ∈ fr) as Hr by (rewrite Hfr; left).
    destruct (Hok r ltac:(left)) as [? _]. apply list_elem_of_filter in Hr as [Hr1 Hr2]. specialize (Hle r Hr2 Hr1). lia. }
  assert (r0 ∈ fr) as Hr0 by by apply list_elem_of_filter.
  destruct (proj1 (elem_of_Permutation fr r0) Hr0) as [others Hp].
  assert (∀ r, r ∈ others → rg_paddr r ≠ m) as Hoth.
  { intros r Hr Heq. rewrite Hp, fmap_cons in Hd. destruct Hd as [Hd _].
    rewrite Forall_fmap, Forall_forall in Hd. specialize (Hd r Hr). cbn in Hd.
    destruct (Hok r0 Hr0) as [? _], (Hok r) as [? _]; [rewrite Hp; by right|].
    unfold m in Heq. revert Hd. unfold rdisj. cbn. lia. }
  exists r0. split_and!; [done..| | |].
  - intros r [? ?]%list_elem_of_filter. by apply Hmax.
  - intros r Hr Hfr Heq. assert (r ∈ fr) as Hrf by by apply list_elem_of_filter.
    rewrite Hp in Hrf. apply elem_of_cons in Hrf as [?|?]; [done|]. by destruct (Hoth r).
  - rewrite Hp. f_equiv. trans (filter (λ r, rg_paddr r ≠ m) fr).
    + rewrite Hp, filter_cons_False by naive_solver. clear -Hoth.
      induction others as [|r l IH]; [done|]. rewrite filter_cons_True by (apply Hoth; left).
      f_equiv. apply IH. intros r' ?. apply Hoth. by right.
    + unfold fr. rewrite list_filter_filter. apply reflexive_eq, list_filter_iff. naive_solver.
Qed.

(** The allocator is given exactly the free memory: the largest free region is managed by its page allocator and every other free
    region is added to its heap, each at its address in the linear mapping.
    Nothing is held then.  This returns unless the initialisation of the
    allocator on the largest region panics. *)
Lemma init_allocator_spec (rs : list MemRegion) (m : blkmem) :
  let fr := filter (λ r, is_free r = true) rs in
  0 ≤ PHYS_VIRT_OFFSET cfg → fr ≠ [] → Forall heap_region fr → pairwise_disj (extent <$> fr) →
  ∃ r0 others, fr ≡ₚ r0 :: others ∧ (∀ r, r ∈ fr → rg_size r ≤ rg_size r0) ∧
  match ga_init (vextent r0).1 (rg_size r0) (ga_new m) with
  | Done g1 => ∃ g extra, init_allocator rs (ga_new m) = Done g ∧ palloc g = palloc g1 ∧
      rsub (pa_region (palloc g)) (vextent r0) ∧ extra ≡ₚ vextent <$> others ∧ inv g [] [] extra ∅
  | Panic => init_allocator rs (ga_new m) = Panic
  end.
Proof using LA LB.
  intros fr Hoff Hne Hok Hd.
  destruct (largest_region rs Hne Hok Hd) as (r0 & Hin & Hf & Hm & Hmax & Huniq & Hp). fold fr in Hmax, Hp.
  set (others := filter _ rs) in Hp. exists r0, others. split; [done|]. split; [done|].
  rewrite Hp in Hok. apply Forall_cons in Hok as [Hok0 Hok]. rewrite Hp in Hd. apply vextents_apart in Hd.
  pose proof Hok0 as ([? ?] & _ & ? & ? & _). unfold init_allocator.
  rewrite (init_loop_eq _ r0), (heap_region_virt r0) by done.
  destruct (ga_init _ _ _) as [g1|] eqn:Hi; [|done]. cbn [mbind outcome_bind].
  apply (ga_init_inside (free := free) (bok := bok) (managed := managed) (owned := owned)) in Hi as [Hg Hsub]; [|done..].
  destruct (add_loop_spec (max_region rs 0 0) rs (vextent r0) Hoff g1 []) as (g & extra & -> & Hg' & Hpa & He);
    [done..|by rewrite app_nil_r|].
  exists g, extra. rewrite app_nil_r in He. by rewrite Hpa.
Qed.

End init_allocator.

(** ** [PagingIfImpl]: frames from the global allocator *)

Section paging_if.
Context {A : Type} `{BA : !BitAlloc A} {free : A → gset Z} `{LA : !BitAllocLaws BA free}.
Context {B : Type} `{BH : !BuddyHeap B} {bok : B → Prop} {managed bowned : B → list region}.
Context `{LB : !BuddyHeapLaws BH bok managed bowned} (cfg : axconfig) (limit : Z).
#[local] Abbreviation ga := (GlobalAllocator A B).
#[local] Abbreviation inv := (ga_inv (free := free) (bok := bok) (managed := managed) (owned := bowned)).
#[local] Abbreviation off := (PHYS_VIRT_OFFSET cfg).

Definition paging_alloc_frames (page_nums align : Z) (g : ga) : option Z * ga :=
  let '(r, g) := ga_alloc_pages page_nums align g in
  (match r with Ok vaddr => Some (axhal_virt_to_phys cfg vaddr) | Err _ => None end, g).

Definition paging_alloc_frame (g : ga) : option Z * ga := paging_alloc_frames 1 PAGE_SIZE_4K g.

Definition paging_dealloc_frame (paddr : Z) (g : ga) : outcome ga :=
  ga_dealloc_pages (axhal_phys_to_virt cfg paddr) 1 g.

(** The allocator with what it has handed out: blocks of bytes, blocks of
    pages and the regions added to its heap.  Its pages lie in the linear
    mapping of the physical memory below [limit]. *)
Definition frames_ok (g : ga) (H : held) (user : list (Z * Z)) (extra : list region) : Prop :=
  (∃ lost, inv g H user extra lost) ∧ rsub (pa_region (palloc g)) (off, limit).

Record frames := {
  fr_ga : ga;
  fr_held : held;
  fr_pages : list (Z * Z);
  fr_extra : list region;
  fr_ok : frames_ok fr_ga fr_held fr_pages fr_extra;
}.

Lemma ga_alloc_pages_region n align (g : ga) : pa_region (palloc (ga_alloc_pages n align g).2) = pa_region (palloc g).
Proof.
  unfold ga_alloc_pages, pa_alloc_pages, pa_took. destruct (negb _ || negb _); [done|].
  destruct (n ?= 1); [destruct (ba_alloc _) as [[]]|done|destruct (ba_alloc_contiguous _ _ _) as [[]]]; done.
Qed.

Lemma ga_dealloc_pages_region pos n (g g' : ga) : ga_dealloc_pages pos n g = Done g' → pa_region (palloc g') = pa_region (palloc g).
Proof.
  unfold ga_dealloc_pages, pa_dealloc_pages. destruct (ba_dealloc _ _); [|done]. intros. by simplify_eq/=.
Qed.

Lemma alloc_frames_ok n align (f : frames) pos g : is_usize n →
  ga_alloc_pages n align (fr_ga f) = (Ok pos, g) → frames_ok g (fr_held f) ((pos, n) :: fr_pages f) (fr_extra f).
Proof using LA LB.
  intros Hn Ha. destruct (fr_ok f) as [[lost Hi] Hr].
  pose proof (ga_alloc_pages_spec _ _ _ _ _ n align Hi Hn) as Hs. rewrite Ha in Hs. split; [by eexists|].
  pose proof (ga_alloc_pages_region n align (fr_ga f)) as Hreg. rewrite Ha in Hreg. cbn in Hreg. by rewrite Hreg.
Qed.

(** [l] without the first [x]. *)
Fixpoint take_out (x : Z * Z) (l : list (Z * Z)) : option (list (Z * Z)) :=
  match l with
  | [] => None
  | y :: l => if decide (y = x) then Some l else cons y <$> take_out x l
  end.

Lemma take_out_Some x l l' : take_out x l = Some l' → l ≡ₚ x :: l'.
Proof.
  revert l'. induction l as [|y l IH]; intros l' Hl; cbn in Hl; [done|]. case_decide; [by simplify_eq|].
  apply fmap_Some in Hl as (k & Hk & ->). rewrite (IH k Hk). apply Permutation_swap.
Qed.

Lemma take_out_elem x l : x ∈ l → is_Some (take_out x l).
Proof.
  induction l as [|y l IH]; [by intros ?%elem_of_nil|]. cbn. case_decide; [by eauto|].
  intros [?|?]%elem_of_cons; [done|]. by apply fmap_is_Some, IH.
Qed.

Lemma dealloc_frame_ok pos n (f : frames) user g : take_out (pos, n) (fr_pages f) = Some user →
  ga_dealloc_pages pos n (fr_ga f) = Done g → frames_ok g (fr_held f) user (fr_extra f).
Proof using LA LB.
  intros Hu%take_out_Some Hd. destruct (fr_ok f) as [[lost Hi] Hr].
  destruct (ga_dealloc_pages_spec _ _ _ user _ _ pos n Hi Hu) as (g' & Hd' & Hi'). rewrite Hd in Hd'. simplify_eq.
  split; [by eexists|]. by rewrite (ga_dealloc_pages_region _ _ _ _ Hd).
Qed.

Definition alloc_block (n align : Z) (Hn : is_usize n) (f : frames) : option (Z * frames) :=
  match ga_alloc_pages n align (fr_ga f) as r return ga_alloc_pages n align (fr_ga f) = r → option (Z * frames) with
  | (Ok pos, g) => λ Ha, Some (axhal_virt_to_phys cfg pos,
      Build_frames g (fr_held f) ((pos, n) :: fr_pages f) (fr_extra f) (alloc_frames_ok n align f pos g Hn Ha))
  | (Err _, _) => λ _, None
  end eq_refl.

(** Gives back a page; [None] when it was not handed out, where the effect of
    the call is not defined. *)
Definition dealloc_block (pos : Z) (f : frames) : option frames :=
  match take_out (pos, 1) (fr_pages f) as u return take_out (pos, 1) (fr_pages f) = u → option frames with
  | Some user => λ Hu,
      match ga_dealloc_pages pos 1 (fr_ga f) as r return ga_dealloc_pages pos 1 (fr_ga f) = r → option frames with
      | Done g => λ Hd, Some (Build_frames g (fr_held f) user (fr_extra f)
          (dealloc_frame_ok pos 1 f user g Hu Hd))
      | Panic => λ _, None
      end eq_refl
  | None => λ _, None
  end eq_refl.

Lemma usize_1 : is_usize 1.
Proof. unfold is_usize. lia. Qed.

Definition PagingIfImpl : PagingIf (option frames) := {|
  alloc_frame o := f ← o; '(p, f) ← alloc_block 1 PAGE_SIZE_4K usize_1 f; Some (p, Some f);
  alloc_frames n o := f ← o;
    match decide (0 ≤ n < 2 ^ 64) with
    | left Hn => '(p, f) ← alloc_block n (PAGE_SIZE_4K ⊗ n) Hn f; Some (p, Some f)
    | right _ => None
    end;
  dealloc_frame p o := f ← o; dealloc_block (axhal_phys_to_virt cfg p) f;
  phys_to_virt p := axhal_phys_to_virt cfg p;
|}.

(** The instance makes the calls of the source. *)
Lemma alloc_block_eq n align Hn (f : frames) :
  (paging_alloc_frames n align (fr_ga f)).1 = fst <$> alloc_block n align Hn f ∧
  ∀ p f', alloc_block n align Hn f = Some (p, f') → paging_alloc_frames n align (fr_ga f) = (Some p, fr_ga f').
Proof.
  unfold alloc_block, paging_alloc_frames. generalize (alloc_frames_ok n align f).
  destruct (ga_alloc_pages n align (fr_ga f)) as [[pos|e] g]; intros Hok; split; try done.
  intros p f' ?. by simplify_eq/=.
Qed.

(** The frames handed out one by one. *)
Definition frames_owned (o : option frames) : gset Z :=
  match o with Some f => list_to_set ((λ b, b.1 - off) <$> filter (λ b, b.2 = 1) (fr_pages f)) | None => ∅ end.

Lemma frames_page (f : frames) pos n : (pos, n) ∈ fr_pages f →
  0 < n ∧ (4096 | pos) ∧ off ≤ pos ∧ pos + n * 4096 ≤ off + limit.
Proof using LA LB.
  intros Hin. destruct (fr_ok f) as [[lost [_ _ _ (hp & heap & _ & Hp & _ & _)]] [Hr1 Hr2]].
  destruct (pa_good_block 12 ltac:(lia) _ _ _ pos n Hp) as (Hn & Hd & Hlo & Hhi); [set_solver|].
  cbn in Hr1, Hr2. split_and!; [done|exact Hd|lia|lia].
Qed.

Lemma frames_NoDup (f : frames) : NoDup (fst <$> fr_pages f).
Proof using LA LB.
  destruct (fr_ok f) as [[lost Hi] _]. apply ga_inv_disj in Hi. apply pairwise_disj_app in Hi as (_ & Hd & _).
  assert (Forall (λ b, 0 < b.2) (fr_pages f)) as Hpos.
  { apply Forall_forall. intros [pos n] Hin. by destruct (frames_page f pos n Hin). }
  induction (fr_pages f) as [|[pos n] l IH]; [constructor|].
  change (page_region 12 <$> (pos, n) :: l) with (page_region 12 (pos, n) :: (page_region 12 <$> l)) in Hd.
  destruct Hd as [Hd1 Hd2]. rewrite fmap_cons.
  apply Forall_cons in Hpos as [Hn Hpos]. constructor; [|by apply IH].
  intros ([pos' n'] & Heq & Hin)%list_elem_of_fmap. cbn in Heq. subst pos'.
  rewrite Forall_fmap, Forall_forall in Hd1. rewrite Forall_forall in Hpos. specialize (Hd1 _ Hin). specialize (Hpos _ Hin).
  revert Hd1. unfold rdisj, page_region. cbn in *. lia.
Qed.

Context {pa_ok : Z → Prop}.
Context (Hpa : ∀ p, 0 ≤ p < limit → (4096 | p) → pa_ok p) (Hpa' : ∀ p, pa_ok p → (4096 | p) ∧ 0 ≤ p < 2 ^ 64).
Context (Hoff : (4096 | off)) (Hoff0 : 0 ≤ off) (Hlim : off + limit ≤ 2 ^ 64).

Lemma elem_of_frames_owned (f : frames) p : p ∈ frames_owned (Some f) ↔ (p + off, 1) ∈ fr_pages f.
Proof.
  cbn. rewrite elem_of_list_to_set, list_elem_of_fmap. split.
  - intros ([pos n] & -> & [Hn Hin]%list_elem_of_filter). cbn in *. subst n. by rewrite Z.sub_add.
  - intros Hin. exists (p + off, 1). split; [cbn; lia|]. by apply list_elem_of_filter.
Qed.

Lemma alloc_block_pages n align Hn (f f' : frames) p : alloc_block n align Hn f = Some (p, f') →
  ∃ pos, p = axhal_virt_to_phys cfg pos ∧ fr_pages f' = (pos, n) :: fr_pages f.
Proof.
  unfold alloc_block. generalize (alloc_frames_ok n align f).
  destruct (ga_alloc_pages n align (fr_ga f)) as [[pos|e] g]; intros Hok ?; [|done]. simplify_eq/=. by eexists.
Qed.

Lemma dealloc_block_pages pos (f : frames) : (pos, 1) ∈ fr_pages f →
  ∃ f', dealloc_block pos f = Some f' ∧ fr_pages f ≡ₚ (pos, 1) :: fr_pages f'.
Proof using LA LB.
  intros [user Hu]%take_out_elem. pose proof (take_out_Some _ _ _ Hu) as Hp. destruct (fr_ok f) as [[lost Hi] _].
  destruct (ga_dealloc_pages_spec _ _ _ user _ _ pos 1 Hi Hp) as (g & Hd & _).
  unfold dealloc_block. generalize (dealloc_frame_ok pos 1 f). rewrite Hu, Hd. intros Hok. by eexists.
Qed.

Lemma PagingIfImpl_laws : PagingIfLaws PagingIfImpl frames_owned pa_ok.
Proof using LA LB Hpa Hpa' Hoff Hoff0 Hlim.
  split.
  - intros [f|] p o; [|done]. cbn [alloc_frame PagingIfImpl mbind option_bind].
    destruct (alloc_block _ _ _ f) as [[p' f']|] eqn:Ha; [|done].
    cbn [mbind option_bind]. intros [= <- <-].
    destruct (alloc_block_pages _ _ _ _ _ _ Ha) as (pos & -> & Hp). pose proof (frames_NoDup f') as Hnd.
    destruct (frames_page f' pos 1) as (_ & Hd & Hlo & Hhi); [rewrite Hp; left|].
    unfold axhal_virt_to_phys. rewrite wsub_small by (unfold is_usize; lia). rewrite Hp in Hnd. cbn in Hnd.
    apply NoDup_cons in Hnd as [Hnin _]. split_and!.
    + intros Hin. apply Hnin. apply (elem_of_frames_owned f) in Hin. rewrite Z.sub_add in Hin.
      apply list_elem_of_fmap. by exists (pos, 1).
    + apply set_eq. intros q. rewrite elem_of_union, elem_of_singleton, !elem_of_frames_owned, Hp, elem_of_cons.
      split; intros [?|?]; auto; left; [simplify_eq; lia|subst; f_equal; lia].
    + apply Hpa; [lia|]. by apply Z.divide_sub_r.
  - intros [f|] p Hin; [|by apply elem_of_empty in Hin]. apply elem_of_frames_owned in Hin.
    destruct (frames_page f _ _ Hin) as (_ & _ & Hlo & Hhi). cbn [dealloc_frame PagingIfImpl mbind option_bind].
    unfold axhal_phys_to_virt. rewrite wadd_small by (unfold is_usize; lia).
    destruct (dealloc_block_pages _ _ Hin) as (f' & -> & Hp). pose proof (frames_NoDup f) as Hnd.
    rewrite Hp in Hnd. cbn in Hnd. apply NoDup_cons in Hnd as [Hnin _].
    apply set_eq. intros q. rewrite elem_of_difference, elem_of_singleton, !elem_of_frames_owned, Hp, elem_of_cons.
    split; [|intros [[?|?] ?]; [simplify_eq; lia|done]]. intros Hq. split; [by right|]. intros ->.
    apply Hnin, list_elem_of_fmap. by exists (p + off, 1).
  - intros p q i j [[x Hx] ?]%Hpa' [[y Hy] ?]%Hpa' ? ? Heq. destruct Hoff as [z Hz].
    cbn [phys_to_virt PagingIfImpl] in Heq. unfold axhal_phys_to_virt, wadd, wrap in Heq.
    pose proof (Z.div_mod (p + off) (2 ^ 64)). pose proof (Z.div_mod (q + off) (2 ^ 64)).
    pose proof (Z.mod_pos_bound (p + off) (2 ^ 64)). pose proof (Z.mod_pos_bound (q + off) (2 ^ 64)). lia.
Qed.

End paging_if.
Arguments frames {A} _ {B} _ _ _ _ _.
Arguments fr_ga {A free B bok managed bowned cfg limit} _.
Arguments fr_held {A free B bok managed bowned cfg limit} _.
Arguments fr_pages {A free B bok managed bowned cfg limit} _.
Arguments fr_extra {A free B bok managed bowned cfg limit} _.

(** ** The platform's regions *)

Section free_regions.
Context `{BF : Bitflags} {BFL : BitflagsLaws} (cfg : axconfig) (sym : symbols).

Lemma is_free_eq (r : MemRegion) : is_free r = (rg_flags r .& MR_FREE =? MR_FREE).
Proof using BFL. unfold is_free. apply bf_contains_spec. Qed.

(** The memory behind the kernel and, on one platform, the page of its spin
    table. *)
Lemma free_regions (p : platform) :
  filter (λ r, is_free r = true) (memory_regions cfg sym p) =
    free_region cfg sym :: match p with Raspi4Aarch64 => [spintable] | _ => [] end.
Proof using BFL.
  assert (∀ l, Forall (λ r, is_free r = false) l → filter (λ r, is_free r = true) l = []) as Hnil.
  { induction 1 as [|r l Hr _ IH]; [done|]. by rewrite filter_cons_False by congruence. }
  assert (filter (λ r, is_free r = true) (image_regions cfg sym) = []) as Hi.
  { apply Hnil. unfold image_regions. rewrite !Forall_cons, Forall_nil, !is_free_eq. cbn. bitflags_simpl. by split_and!. }
  assert (filter (λ r, is_free r = true) (mmio_region <$> MMIO_REGIONS cfg) = []) as Hm.
  { apply Hnil, Forall_fmap, Forall_forall. intros x _. cbn. rewrite is_free_eq. cbn. by bitflags_simpl. }
  assert (is_free (free_region cfg sym) = true) as Hf by (rewrite is_free_eq; cbn; by bitflags_simpl).
  assert (is_free spintable = true) as Hs by (rewrite is_free_eq; cbn; by bitflags_simpl).
  assert (is_free low_memory = false) as Hl by (rewrite is_free_eq; cbn; by bitflags_simpl).
  rewrite memory_regions_eq. destruct p; cbn [region_list].
  - rewrite filter_cons_False by congruence. by rewrite !filter_app, Hi, Hm, filter_cons_True.
  - by rewrite !filter_app, Hi, Hm, filter_cons_True.
  - by rewrite !filter_app, Hi, Hm, filter_cons_True.
  - by rewrite !filter_app, Hi, Hm, filter_cons_True, filter_cons_True.
Qed.

End free_regions.

(** ** Boot *)

Section boot.
Context {A : Type} `{BA : !BitAlloc A} {free : A → gset Z} `{LA : !BitAllocLaws BA free}.
Context {B : Type} `{BH : !BuddyHeap B} {bok : B → Prop} {managed bowned : B → list region}.
Context `{LB : !BuddyHeapLaws BH bok managed bowned}.
Context {PTE : GenericPTE} {MD : PagingMetaData} {pa_ok fl_ok : Z → Prop} {fl_view : Z → Z}
  {PTEL : GenericPTELaws PTE pa_ok fl_ok fl_view} (Hlev : LEVELS = 3 ∨ LEVELS = 4).
Context `{BF : Bitflags} {BFL : BitflagsLaws} (cfg : axconfig) (sym : symbols) (p : platform).

#[local] Abbreviation off := (PHYS_VIRT_OFFSET cfg).
#[local] Abbreviation kframes := (frames free bok managed bowned cfg (PHYS_MEMORY_END cfg)).
#[local] Instance kernel_if : PagingIf (option kframes) := PagingIfImpl cfg (PHYS_MEMORY_END cfg).

(** The memory is in the linear mapping and not more than the page allocator
    can manage, and the kernel leaves more than the initial heap of it. *)
Definition memory_ok : Prop :=
  0 < off ∧ off + PHYS_MEMORY_END cfg < 2 ^ 64 ∧ PHYS_MEMORY_END cfg ≤ CAP * 2 ^ 12 ∧
  ekernel sym - off + MIN_HEAP_SIZE < PHYS_MEMORY_END cfg.

Context (HL : kernel_layout cfg sym (extent <$> low_regions p) va_span) (Hmem : memory_ok).

Lemma span_bounds : 0x100000 ≤ va_span ≤ 2 ^ 64.
Proof using Hlev. unfold va_span. destruct Hlev as [-> | ->]; split; discriminate. Qed.

Lemma free_region_eq :
  rg_paddr (free_region cfg sym) = ekernel sym - off ∧
  rg_size (free_region cfg sym) = PHYS_MEMORY_END cfg - (ekernel sym - off).
Proof using Hlev HL. destruct span_bounds as [_ Hs]. pose proof (free_extent_eq cfg sym p va_span Hs HL) as He. by injection He. Qed.

Lemma free_heap_regions :
  Forall (heap_region cfg) (filter (λ r, is_free r = true) (memory_regions cfg sym p)).
Proof using Hlev HL Hmem BFL.
  destruct Hmem as (Ho0 & Ho1 & Hcap & Hroom), free_region_eq as [Hp Hsz], span_bounds as [Hs1 Hs2].
  pose proof (kl_order _ _ _ _ HL). pose proof (kl_offset _ _ _ _ HL) as [_ Hoff].
  assert (Forall (λ r, (4096 | rg_paddr r) ∧ (4096 | rg_size r)) (filter (λ r, is_free r = true) (memory_regions cfg sym p))) as Hd.
  { apply Forall_forall. intros r [_ Hr]%list_elem_of_filter.
    by destruct (proj1 (Forall_forall _ _) (memory_regions_pages cfg sym p va_span Hs2 Hs1 HL) r Hr) as (_ & _ & _ & ? & ?). }
  rewrite free_regions in Hd |- *. apply Forall_cons in Hd as [[Hd1 Hd2] _].
  unfold MIN_HEAP_SIZE in Hroom. apply Forall_cons. split.
  - unfold heap_region, vextent. cbn [fst]. rewrite Hp, Hsz in *. split_and!; try lia; [by apply Z.divide_add_r|done].
  - destruct p; try done. apply Forall_singleton. unfold heap_region, vextent, CAP. cbn.
    split_and!; try lia; [done|by exists 1].
Qed.

Lemma free_regions_apart : pairwise_disj (extent <$> filter (λ r, is_free r = true) (memory_regions cfg sym p)).
Proof using Hlev HL BFL.
  rewrite free_regions. destruct span_bounds as [_ Hs]. rewrite fmap_cons.
  rewrite (free_extent_eq cfg sym p va_span Hs HL). destruct (kl_apart _ _ _ _ HL) as [Hbig _].
  assert (free_extent cfg sym ∈ image_extents cfg sym ++ [free_extent cfg sym]) as Hin by (apply elem_of_app; right; left).
  pose proof (image_in_memory cfg sym p va_span HL (free_extent cfg sym) Hin) as Hsub.
  destruct p; try (by split). split; [|by split]. apply Forall_singleton.
  rewrite Forall_app in Hbig. destruct Hbig as [Hbig _]. cbn [low_regions fmap list_fmap] in Hbig.
  rewrite Forall_singleton in Hbig.
  eapply rdisj_sub; [exact Hsub| |exact Hbig]. unfold rsub. lia.
Qed.

Lemma init_allocator_memory (m : blkmem) :
  match ga_init (ekernel sym) (PHYS_MEMORY_END cfg - (ekernel sym - off)) (ga_new m) with
  | Done _ => ∃ g extra, init_allocator (A := A) (B := B) cfg (memory_regions cfg sym p) (ga_new m) = Done g ∧
      rsub (pa_region (palloc g)) (off, PHYS_MEMORY_END cfg) ∧
      ga_inv (free := free) (bok := bok) (managed := managed) (owned := bowned) g [] [] extra ∅ ∧
      extra = match p with Raspi4Aarch64 => [(off, 0x1000)] | _ => [] end
  | Panic => init_allocator (A := A) (B := B) cfg (memory_regions cfg sym p) (ga_new m) = Panic
  end.
Proof using Hlev HL Hmem BFL LA LB.
  pose proof Hmem as (Ho0 & _ & _ & Hroom). destruct free_region_eq as [Hp Hsz]. unfold MIN_HEAP_SIZE in Hroom.
  destruct (init_allocator_spec cfg (free := free) (bok := bok) (managed := managed) (owned := bowned)
    (memory_regions cfg sym p) m) as (r0 & others & Hperm & Hmax & Hr);
    [lia|by rewrite free_regions|apply free_heap_regions|apply free_regions_apart|].
  rewrite free_regions in Hperm, Hmax.
  assert (r0 = free_region cfg sym ∧ others = match p with Raspi4Aarch64 => [spintable] | _ => [] end) as [-> ->].
  { assert (r0 = free_region cfg sym) as ->.
    { pose proof (Hmax (free_region cfg sym) ltac:(left)) as Hle. rewrite Hsz in Hle.
      assert (r0 ∈ r0 :: others) as Hin by left. rewrite <- Hperm in Hin. apply elem_of_cons in Hin as [?|Hin]; [done|].
      destruct p; set_unfold in Hin; try done. destruct Hin as [->|[]]. cbn in Hle. lia. }
    split; [done|]. apply Permutation_cons_inv, symmetry in Hperm.
    destruct p; by apply Permutation_nil_r in Hperm || apply Permutation_singleton_r in Hperm. }
  unfold vextent in Hr. cbn [fst] in Hr. rewrite Hp, Hsz, Z.sub_add in Hr.
  destruct (ga_init _ _ _) as [g1|]; [|done]. destruct Hr as (g & extra & Hi & _ & Hsub & He & Hg).
  exists g, extra. split_and!; [done| |done|].
  - pose proof (kl_order _ _ _ _ HL). revert Hsub. unfold rsub. cbn. lia.
  - destruct p; try (by apply Permutation_nil_r in He). by apply Permutation_singleton_r in He.
Qed.


End boot.

(** ** The periodic timer *)

Section timer.
Context (PERIODIC_INTERVAL_NANOS : Z).

(** [update_timer] at time [now_ns]: the new [NEXT_DEADLINE] of the CPU and the
    deadline the timer is set to. *)
Definition update_timer (now_ns next_deadline : Z) : Z * Z :=
  let deadline := if next_deadline <=? now_ns then now_ns ⊕ PERIODIC_INTERVAL_NANOS else next_deadline in
  (deadline ⊕ PERIODIC_INTERVAL_NANOS, deadline).

(** The deadlines set by interrupts at the times [nows]. *)
Fixpoint timer_run (nows : list Z) (next_deadline : Z) : list Z :=
  match nows with
  | [] => []
  | now :: nows => let '(next, deadline) := update_timer now next_deadline in deadline :: timer_run nows next
  end.

(** Each interrupt comes after the deadline set last, the first being [d], and
    less than an interval late. *)
Fixpoint prompt (d : Z) (nows : list Z) : Prop :=
  match nows with
  | [] => True
  | now :: nows => d ≤ now < d + PERIODIC_INTERVAL_NANOS ∧ prompt (d + PERIODIC_INTERVAL_NANOS) nows
  end.

(** The delays of the interrupts do not add up: the deadlines keep the interval. *)
Theorem timer_no_drift (nows : list Z) : ∀ d, 0 < PERIODIC_INTERVAL_NANOS → 0 ≤ d →
  d + (Z.of_nat (length nows) + 1) * PERIODIC_INTERVAL_NANOS < 2 ^ 64 → prompt d nows →
  timer_run nows (d + PERIODIC_INTERVAL_NANOS) =
    (λ k, d + (k + 1) * PERIODIC_INTERVAL_NANOS) <$> seqZ 0 (Z.of_nat (length nows)).
Proof.
  induction nows as [|now nows IH]; intros d Hp Hd Hb Hn; [done|]. destruct Hn as [Hnow Hn]. cbn [length] in *.
  cbn [timer_run]. unfold update_timer. rewrite (proj2 (Z.leb_gt _ _)) by lia.
  rewrite wadd_small by (unfold is_usize; nia). rewrite IH by (done || nia).
  rewrite (seqZ_cons 0 (Z.of_nat (S (length nows)))) by lia. rewrite fmap_cons. f_equal; [ring|].
  replace (Z.pred (Z.of_nat (S (length nows)))) with (Z.of_nat (length nows)) by lia.
  change (Z.succ 0) with (1 + 0)%Z. rewrite <- (fmap_add_seqZ 1 0), <- list_fmap_compose.
  apply list_fmap_ext. intros ? k _. unfold compose. ring.
Qed.

End timer.

(** ** A small kernel *)

Definition demo_cfg : axconfig := {|
  PHYS_VIRT_OFFSET := 0xffff_ff80_0000_0000; PHYS_MEMORY_END := 0x30_7000;
  MMIO_REGIONS := [(0xfec0_0000, 0x1000); (0xfee0_0000, 0x1000)] |}.

Definition demo_sym : symbols :=
  let at_ x := 0xffff_ff80_0020_0000 + x in
  {| stext := at_ 0; etext := at_ 0x1000; srodata := at_ 0x1000; erodata := at_ 0x2000;
     sdata := at_ 0x2000; edata := at_ 0x3000; percpu_start := at_ 0x3000; percpu_end := at_ 0x4000;
     boot_stack := at_ 0x4000; boot_stack_top := at_ 0x5000; sbss := at_ 0x5000; ebss := at_ 0x7000;
     ekernel := at_ 0x7000 |}.

#[local] Existing Instance X64PTE.
#[local] Existing Instance X64PagingMetaData.

Lemma demo_layout : kernel_layout demo_cfg demo_sym (extent <$> low_regions PcX86) va_span.
Proof.
  split; cbn.
  - split; [done|]. by apply Z.mod_divide.
  - lia.
  - rewrite !Forall_cons, Forall_nil. split_and!; try done; by apply Z.mod_divide.
  - unfold va_span. cbn. lia.
  - by apply Z.mod_divide.
  - unfold va_span. rewrite !Forall_cons, Forall_nil. cbn. split_and!; try done; by apply Z.mod_divide.
  - unfold rdisj. rewrite !Forall_cons, !Forall_nil. cbn. split_and!; try done; lia.
Qed.

Lemma demo_flags f : f ∈ kernel_flags → X64_fl_ok f.
Proof.
  unfold kernel_flags. rewrite !elem_of_cons, elem_of_nil. intros Hf. destruct_or! Hf; subst; by split.
Qed.

Lemma demo_frames_ok a : 0 ≤ a < va_span → (4096 | a) → frame_ok 52 a.
Proof. intros Ha Hd. split; [done|]. revert Ha. unfold va_span. cbn. lia. Qed.

#[local] Existing Instance list_if_laws.
#[local] Existing Instance list_if.

(** Frames for the tables from 0x7000 on. *)
Definition demo_ksys : ksys (list Z * gset Z) := {|
  k_mem := λ _, 0; k_alloc := ((λ i, 0x7000 + 0x1000 * i) <$> seqZ 0 20, ∅); k_table := None; k_root := λ _, 0 |}.

Lemma demo_remap_ok :
  match remap_kernel_memory demo_cfg 0 true (memory_regions demo_cfg demo_sym PcX86) demo_ksys with
  | Done (_, Ok _) => true
  | _ => false
  end = true.
Proof. vm_compute. reflexivity. Qed.

Definition demo_text : MemRegion := section_region demo_cfg (stext demo_sym) (etext demo_sym)
  (bf_union (bf_union MR_RESERVED MR_READ) MR_EXECUTE) ".text"%string.

Lemma demo_inside : inside demo_text (linear demo_cfg 0xffff_ff80_0020_0123).
Proof. split; [by vm_compute|reflexivity]. Qed.

Lemma kernel_memory_mapped_witness : ∃ k pt sz,
  remap_kernel_memory demo_cfg 0 true (memory_regions demo_cfg demo_sym PcX86) demo_ksys = Done (k, Ok tt) ∧
  k_table k = Some pt ∧
  translate {| ps_mem := k_mem k; ps_alloc := k_alloc k; ps_pt := pt |} 0xffff_ff80_0020_0123 =
    Done (Ok (0x20_0123, X64_fl_view (MF_READ .| MF_EXECUTE), sz)).
Proof.
  assert ((4096 | PHYS_VIRT_OFFSET demo_cfg)) as Hoff by by apply Z.mod_divide.
  destruct (kernel_memory_mapped x64_levels demo_cfg Hoff demo_sym PcX86 0 demo_ksys demo_layout
    demo_frames_ok demo_flags eq_refl) as (k & r & Hrun & Hr).
  pose proof demo_remap_ok as Hok. rewrite Hrun in Hok.
  destruct r as [[]|]; [|discriminate Hok]. destruct Hr as (pt & Ht & _ & _ & Hmap & _).
  destruct (Hmap demo_text 0xffff_ff80_0020_0123) as [sz Hsz].
  - rewrite memory_regions_eq. right. left.
  - exact demo_inside.
  - exists k, pt, sz. split; [exact Hrun|]. split; [exact Ht|exact Hsz].
Defined.

#[local] Existing Instance set_alloc.
#[local] Existing Instance bump_heap.

Lemma demo_init : ∃ g, ga_init (A := gset Z) (B := bump) (ekernel demo_sym) 0x10_0000 (ga_new (λ _, None)) = Done g.
Proof.
  assert (is_done (ga_init (A := gset Z) (B := bump) (ekernel demo_sym) 0x10_0000 (ga_new (λ _, None))) = true) as Hd
    by (vm_compute; reflexivity).
  destruct (ga_init _ _ _) as [g|]; [by exists g|done].
Qed.

