(* ===== verification/AxMp.v ===== *)
(** * Starting the secondary CPUs ([modules/axruntime/src/mp.rs])

    [start_secondary_cpus] of the primary CPU, [rust_main_secondary] of the
    others, and the counters [ENTERED_CPUS] and [INITED_CPUS] through which
    [rust_main] waits ([modules/axruntime/src/lib.rs]).  A state holds the
    counters and where each CPU is; a step is one turn of one CPU between two
    accesses to a counter, and CPUs step in any order.  The accesses are taken
    as sequentially consistent. *)

From S2P Require Import Prelude.
From stdpp Require Import base numbers list gmap sets.

Open Scope Z_scope.

(** Where the primary CPU is: at the test of the loop variable, in the inner
    loop that waits for the CPU just started, initialising the rest, waiting
    for all CPUs, or in the application. *)
Inductive primary_pc :=
| AtFor (i logic_cpu_id : nat)
| AtWait (i logic_cpu_id : nat)
| AtInit
| AtBarrier
| InMain.

(** Where another CPU is.  [Started k] has been given the boot stack [k]. *)
Inductive secondary_pc := Off | Started (stack : nat) | Entered | WaitInit | Idle.

#[global] Instance secondary_pc_eq : EqDecision secondary_pc.
Proof. solve_decision. Defined.

Record mp := { ppc : primary_pc; spc : nat → secondary_pc; ENTERED_CPUS : nat; INITED_CPUS : nat }.

Section mp.
Context (SMP primary_cpu_id : nat).

Definition is_init_ok (s : mp) : bool := bool_decide (INITED_CPUS s = SMP).

Definition mp_init : mp := {| ppc := AtFor 0 0; spc := λ _, Off; ENTERED_CPUS := 1; INITED_CPUS := 0 |}.

Definition set_pc (pc : primary_pc) (s : mp) : mp :=
  {| ppc := pc; spc := spc s; ENTERED_CPUS := ENTERED_CPUS s; INITED_CPUS := INITED_CPUS s |}.

Definition set_spc (c : nat) (pc : secondary_pc) (s : mp) : mp :=
  {| ppc := ppc s; spc := λ x, if bool_decide (x = c) then pc else spc s x;
     ENTERED_CPUS := ENTERED_CPUS s; INITED_CPUS := INITED_CPUS s |}.

Definition add_entered (s : mp) : mp :=
  {| ppc := ppc s; spc := spc s; ENTERED_CPUS := S (ENTERED_CPUS s); INITED_CPUS := INITED_CPUS s |}.

Definition add_inited (s : mp) : mp :=
  {| ppc := ppc s; spc := spc s; ENTERED_CPUS := ENTERED_CPUS s; INITED_CPUS := S (INITED_CPUS s) |}.

(** One turn of the primary CPU.  The index into [SECONDARY_BOOT_STACK], which
    has [SMP - 1] elements, is checked. *)
Definition primary_step (s : mp) : outcome mp :=
  match ppc s with
  | AtFor i logic_cpu_id =>
      if bool_decide (i < SMP)%nat then
        if bool_decide (i ≠ primary_cpu_id) then
          _ ← assert_true (bool_decide (logic_cpu_id < SMP - 1)%nat);
          Done (set_pc (AtWait i (S logic_cpu_id)) (set_spc i (Started logic_cpu_id) s))
        else Done (set_pc (AtFor (S i) logic_cpu_id) s)
      else Done (set_pc AtInit s)
  | AtWait i logic_cpu_id =>
      if bool_decide (ENTERED_CPUS s ≤ logic_cpu_id)%nat then Done s
      else Done (set_pc (AtFor (S i) logic_cpu_id) s)
  | AtInit => Done (set_pc AtBarrier (add_inited s))
  | AtBarrier => if is_init_ok s then Done (set_pc InMain s) else Done s
  | InMain => Done s
  end.

(** One turn of another CPU. *)
Definition secondary_step (c : nat) (s : mp) : mp :=
  match spc s c with
  | Off | Idle => s
  | Started _ => add_entered (set_spc c Entered s)
  | Entered => add_inited (set_spc c WaitInit s)
  | WaitInit => if is_init_ok s then set_spc c Idle s else s
  end.

(** A turn of CPU [c]. *)
Definition mp_step (c : nat) (s : mp) : outcome mp :=
  if bool_decide (c = primary_cpu_id) then primary_step s else Done (secondary_step c s).

Fixpoint mp_run (cs : list nat) (s : mp) : outcome mp :=
  match cs with [] => Done s | c :: cs => s ← mp_step c s; mp_run cs s end.

(** ** Invariant *)

Implicit Types s : mp.
Context (Hprimary : (primary_cpu_id < SMP)%nat).

(** The other CPUs below [i]: the boot stack of CPU [i]. *)
Definition others_below (i : nat) : nat := if bool_decide (i ≤ primary_cpu_id)%nat then i else (i - 1)%nat.

Definition entered s (c : nat) : Prop := spc s c ≠ Off ∧ ∀ k, spc s c ≠ Started k.

(** CPU [c] has initialised itself and counted itself. *)
Definition initialised s (c : nat) : Prop :=
  if decide (c = primary_cpu_id) then ppc s = AtBarrier ∨ ppc s = InMain else spc s c = WaitInit ∨ spc s c = Idle.

#[local] Instance initialised_dec s c : Decision (initialised s c).
Proof.
  unfold initialised. destruct (decide (c = primary_cpu_id)); [|apply _].
  destruct (ppc s); (left; by auto) || (right; by intros [?|?]).
Defined.

(** All the other CPUs below [n] have entered and the rest are off, but for
    those in [X]. *)
Definition entered_below s (n : nat) (X : gset nat) : Prop := ∀ c, c ∉ X →
  ((c < n)%nat ∧ c ≠ primary_cpu_id → entered s c) ∧ (¬ ((c < n)%nat ∧ c ≠ primary_cpu_id) → spc s c = Off).

Definition pc_ok s : Prop :=
  match ppc s with
  | AtFor i l => (i ≤ SMP)%nat ∧ l = others_below i ∧ ENTERED_CPUS s = S l ∧ entered_below s i ∅
  | AtWait i l => (i < SMP)%nat ∧ i ≠ primary_cpu_id ∧ l = S (others_below i) ∧
      (spc s i = Started (others_below i) ∧ ENTERED_CPUS s = l ∧ entered_below s i {[i]} ∨
       ENTERED_CPUS s = S l ∧ entered_below s (S i) ∅)
  | _ => entered_below s SMP ∅
  end.

Definition count s : nat := size (filter (initialised s) (set_seq (C := gset nat) 0 SMP)).

Record mp_inv s : Prop := {
  mi_pc : pc_ok s;
  mi_count : INITED_CPUS s = count s;
  mi_open : ppc s = InMain ∨ (∃ c, spc s c = Idle) → INITED_CPUS s = SMP;
}.

Lemma count_all s : count s = SMP ↔ ∀ c, (c < SMP)%nat → initialised s c.
Proof.
  unfold count. split.
  - intros Hsz c Hc. assert (filter (initialised s) (set_seq (C := gset nat) 0 SMP) = set_seq 0 SMP) as Heq.
    { apply set_subseteq_size_eq; [set_solver|]. rewrite Hsz, size_set_seq. lia. }
    assert (c ∈ set_seq (C := gset nat) 0 SMP) as Hin by (apply elem_of_set_seq; lia).
    rewrite <- Heq in Hin. by apply elem_of_filter in Hin as [? _].
  - intros Hall. rewrite <- (size_set_seq (C := gset nat) 0 SMP) at 2. f_equal. apply set_eq. intros c.
    rewrite elem_of_filter, elem_of_set_seq. naive_solver lia.
Qed.

Lemma count_same s s' : (∀ c, (c < SMP)%nat → initialised s' c ↔ initialised s c) → count s' = count s.
Proof.
  intros Heq. unfold count. f_equal. apply set_eq. intros c. rewrite !elem_of_filter, elem_of_set_seq.
  split; intros [? ?]; (split; [|done]); apply Heq; try done; lia.
Qed.

Lemma count_add s s' c : (c < SMP)%nat → ¬ initialised s c →
  (∀ x, (x < SMP)%nat → initialised s' x ↔ x = c ∨ initialised s x) → count s' = S (count s).
Proof.
  intros Hc Hno Heq. unfold count.
  assert (filter (initialised s') (set_seq (C := gset nat) 0 SMP) =
    {[c]} ∪ filter (initialised s) (set_seq (C := gset nat) 0 SMP)) as ->.
  { apply set_eq. intros x. rewrite elem_of_union, elem_of_singleton, !elem_of_filter, elem_of_set_seq.
    specialize (Heq x). naive_solver lia. }
  rewrite size_union, size_singleton; [done|]. set_solver.
Qed.

Lemma entered_cases s c : spc s c = Off ∨ (∃ k, spc s c = Started k) ∨ entered s c.
Proof. unfold entered. destruct (spc s c); eauto; right; right; done. Qed.

(** ** Every step preserves it *)

Lemma others_below_S i : i ≠ primary_cpu_id → others_below (S i) = S (others_below i).
Proof. intros. unfold others_below. repeat case_bool_decide; lia. Qed.

Lemma others_below_primary : others_below (S primary_cpu_id) = others_below primary_cpu_id.
Proof. unfold others_below. repeat case_bool_decide; lia. Qed.

Lemma others_below_bound i : (i < SMP)%nat → i ≠ primary_cpu_id → (others_below i < SMP - 1)%nat.
Proof using Hprimary. intros. unfold others_below. case_bool_decide; lia. Qed.

Lemma mp_init_ok : mp_inv mp_init.
Proof.
  split; cbn.
  - split_and!; [lia|unfold others_below; by case_bool_decide|done|].
    intros c _. split; [lia|done].
  - unfold count. symmetry. apply size_empty_iff. intros c. rewrite elem_of_filter, elem_of_empty.
    unfold initialised. cbn. destruct (decide _); naive_solver.
  - intros [?|[? ?]]; done.
Qed.

(** A step that only moves the primary CPU, not over its own counting. *)
Lemma set_pc_ok pc s : mp_inv s → pc_ok (set_pc pc s) →
  (pc = AtBarrier ∨ pc = InMain ↔ ppc s = AtBarrier ∨ ppc s = InMain) → (pc = InMain → INITED_CPUS s = SMP) →
  mp_inv (set_pc pc s).
Proof.
  intros [_ Hcount Hopen] Hpc Heq Hin. split; [done| |cbn; naive_solver]. cbn. rewrite Hcount. symmetry.
  apply count_same. intros c _. unfold initialised. cbn. by destruct (decide _).
Qed.

Lemma start_ok i s : (i < SMP)%nat → i ≠ primary_cpu_id → ppc s = AtFor i (others_below i) → mp_inv s →
  mp_inv (set_pc (AtWait i (S (others_below i))) (set_spc i (Started (others_below i)) s)).
Proof.
  intros Hlt Hne Hp [Hpc Hcount Hopen]. unfold pc_ok in Hpc. rewrite Hp in Hpc. destruct Hpc as (Hi & _ & Hent & Hbel). split.
  - unfold pc_ok. cbn. split_and!; [done..|]. left. rewrite bool_decide_true by done. split_and!; [done..|].
    intros c Hc. unfold entered. cbn. rewrite bool_decide_false by set_solver. apply Hbel. set_solver.
  - cbn. rewrite Hcount. symmetry. apply count_same. intros c Hc. unfold initialised. cbn. rewrite Hp.
    destruct (decide _); [naive_solver|]. case_bool_decide as Heq; [|done]. subst c.
    destruct (Hbel i ltac:(set_solver)) as [_ ->]; [naive_solver|lia].
  - cbn. intros [?|[c Hc]]; [done|]. apply Hopen. right. exists c. revert Hc. by case_bool_decide.
Qed.

Lemma count_primary_ok s : ppc s = AtInit → mp_inv s → mp_inv (set_pc AtBarrier (add_inited s)).
Proof using Hprimary.
  intros Hp [Hpc Hcount Hopen]. unfold pc_ok in Hpc. rewrite Hp in Hpc. split; [done| |].
  - cbn. rewrite Hcount. symmetry. apply (count_add s _ primary_cpu_id); [done| |].
    + unfold initialised. rewrite decide_True by done. rewrite Hp. naive_solver.
    + intros x _. unfold initialised. cbn. destruct (decide _); naive_solver.
  - cbn. intros [?|Hx]; [done|]. exfalso. specialize (Hopen (or_intror Hx)). rewrite Hcount in Hopen.
    pose proof (proj1 (count_all s) Hopen primary_cpu_id Hprimary) as Hd. unfold initialised in Hd.
    rewrite decide_True, Hp in Hd by done. naive_solver.
Qed.

Lemma primary_step_ok s : mp_inv s → ∃ s', primary_step s = Done s' ∧ mp_inv s'.
Proof using Hprimary.
  intros Hs. pose proof (mi_pc s Hs) as Hpc. unfold primary_step. unfold pc_ok in Hpc.
  destruct (ppc s) as [i l|i l| | |] eqn:Hp.
  - destruct Hpc as (Hi & -> & Hent & Hbel). case_bool_decide as Hlt; [case_bool_decide as Hne|].
    + rewrite bool_decide_true by by apply others_below_bound. eexists. split; [done|]. by apply start_ok.
    + subst i. eexists. split; [done|]. apply set_pc_ok; [done| |rewrite Hp; naive_solver|done].
      unfold pc_ok. cbn. rewrite others_below_primary. split_and!; [lia|done|done|].
      intros c Hc. destruct (Hbel c Hc) as [H1 H2]. split; intros Hx; [apply H1|apply H2]; lia.
    + assert (i = SMP) as -> by lia. eexists. split; [done|]. apply set_pc_ok; [done|done|rewrite Hp; naive_solver|done].
  - destruct Hpc as (Hi & Hne & -> & Hw). case_bool_decide as Hle; [by exists s|].
    destruct Hw as [(_ & ? & _)|[Hent Hbel]]; [lia|]. eexists. split; [done|].
    apply set_pc_ok; [done| |rewrite Hp; naive_solver|done].
    unfold pc_ok. cbn. rewrite others_below_S by done. split_and!; [lia|done..].
  - eexists. split; [done|]. by apply count_primary_ok.
  - destruct (is_init_ok s) eqn:Hok; [|by exists s]. apply bool_decide_eq_true in Hok.
    eexists. split; [done|]. apply set_pc_ok; [done|done|rewrite Hp; naive_solver|done].
  - by exists s.
Qed.

Lemma below_cases s n X c : entered_below s n X → c ∉ X → spc s c ≠ Off → (c < n)%nat ∧ c ≠ primary_cpu_id ∧ entered s c.
Proof.
  intros Hb Hc Hoff. destruct (Hb c Hc) as [H1 H2].
  destruct (decide ((c < n)%nat ∧ c ≠ primary_cpu_id)) as [[? ?]|?]; [auto|]. by destruct Hoff; apply H2.
Qed.

(** A CPU that is not off is one of the others; it has entered, or it is the
    one the primary CPU waits for. *)
Lemma on_cases s c : mp_inv s → spc s c ≠ Off → (c < SMP)%nat ∧ c ≠ primary_cpu_id ∧
  (entered s c ∨ ∃ l, ppc s = AtWait c l ∧ l = S (others_below c) ∧ spc s c = Started (others_below c) ∧
     ENTERED_CPUS s = l ∧ entered_below s c {[c]}).
Proof.
  intros [Hpc _ _] Hoff. unfold pc_ok in Hpc. destruct (ppc s) as [i l|i l| | |] eqn:Hp.
  - destruct Hpc as (? & _ & _ & Hb). destruct (below_cases _ _ _ c Hb) as (? & ? & ?); [set_solver|done|]. split_and!; [lia|done|by left].
  - destruct Hpc as (Hi & Hne & -> & [(Hst & Hent & Hb)|[Hent Hb]]).
    + destruct (decide (c = i)) as [->|?]; [split_and!; eauto 10|].
      destruct (below_cases _ _ _ c Hb) as (? & ? & ?); [set_solver|done|]. split_and!; [lia|done|by left].
    + destruct (below_cases _ _ _ c Hb) as (? & ? & ?); [set_solver|done|]. split_and!; [lia|done|by left].
  - destruct (below_cases _ _ _ c Hpc) as (? & ? & ?); [set_solver|done|]. split_and!; [done|done|by left].
  - destruct (below_cases _ _ _ c Hpc) as (? & ? & ?); [set_solver|done|]. split_and!; [done|done|by left].
  - destruct (below_cases _ _ _ c Hpc) as (? & ? & ?); [set_solver|done|]. split_and!; [done|done|by left].
Qed.

Lemma enter_ok c k s : spc s c = Started k → mp_inv s → mp_inv (add_entered (set_spc c Entered s)).
Proof.
  intros Hc Hs. destruct (on_cases s c Hs) as (Hlt & Hne & [[_ He]|(l & Hp & Hl & _ & Hent & Hb)]); [congruence|by destruct (He k)|].
  destruct Hs as [_ Hcount Hopen]. split.
  - unfold pc_ok. cbn. rewrite Hp. split_and!; [done..|]. right. split; [by rewrite Hent|].
    intros x _. unfold entered. cbn. case_bool_decide as Hx; [subst; split; [done|lia]|].
    destruct (Hb x ltac:(set_solver)) as [H1 H2]. split; intros; [apply H1|apply H2]; lia.
  - cbn. rewrite Hcount. symmetry. apply count_same. intros x _. unfold initialised. cbn.
    destruct (decide _); [done|]. case_bool_decide; [subst; rewrite Hc; naive_solver|done].
  - cbn. intros [?|[x Hx]]; [congruence|]. apply Hopen. right. exists x. revert Hx. by case_bool_decide.
Qed.

(** The counting and the barrier of a CPU that has entered. *)
Lemma entered_pc_ok c pc s : entered s c → pc = WaitInit ∨ pc = Idle → pc_ok s → pc_ok (set_spc c pc s).
Proof.
  intros Hc Hpc. assert (∀ n X, entered_below s n X → entered_below (set_spc c pc s) n X) as Hb.
  { intros n X Hb x Hx. destruct (Hb x Hx) as [H1 H2]. unfold entered. cbn. case_bool_decide as Heq; [|by split].
    subst x. split; [intros; by destruct Hpc as [-> | ->]|]. intros Hn. destruct Hc as [Hc _]. by destruct Hc; apply H2. }
  unfold pc_ok. cbn. destruct (ppc s) as [i l|i l| | |]; [naive_solver| |by apply Hb..].
  intros (? & ? & ? & [(Hst & ? & ?)|[? ?]]); split_and!; try done; [left|right; auto].
  rewrite bool_decide_false; [auto|]. intros ->. by destruct Hc as [_ Hc]; destruct (Hc (others_below c)).
Qed.

Lemma inited_all s : mp_inv s → INITED_CPUS s = SMP → ∀ c, (c < SMP)%nat → initialised s c.
Proof. intros [_ Hc _] Heq. apply count_all. congruence. Qed.

Lemma count_other_ok c s : spc s c = Entered → mp_inv s → mp_inv (add_inited (set_spc c WaitInit s)).
Proof.
  intros Hc Hs. destruct (on_cases s c Hs) as (Hlt & Hne & _); [congruence|].
  assert (¬ initialised s c) as Hno by (unfold initialised; rewrite decide_False by done; rewrite Hc; naive_solver).
  pose proof (inited_all s Hs) as Hall. destruct Hs as [Hpc Hcount Hopen]. split.
  - apply entered_pc_ok; [|by left|done]. unfold entered. by rewrite Hc.
  - cbn. rewrite Hcount. symmetry. apply (count_add s _ c); [done..|]. intros x _. unfold initialised. cbn.
    destruct (decide _); [naive_solver|]. case_bool_decide; naive_solver.
  - cbn. intros Hx. exfalso. apply Hno, Hall; [|done]. apply Hopen. destruct Hx as [?|[x Hx]]; [by left|].
    right. exists x. revert Hx. by case_bool_decide.
Qed.

Lemma secondary_step_ok c s : mp_inv s → mp_inv (secondary_step c s).
Proof.
  intros Hs. unfold secondary_step. destruct (spc s c) eqn:Hc; try done.
  - by eapply enter_ok.
  - by apply count_other_ok.
  - destruct (is_init_ok s) eqn:Hok; [|done]. apply bool_decide_eq_true in Hok. destruct Hs as [Hpc Hcount Hopen]. split.
    + apply entered_pc_ok; [|by right|done]. unfold entered. by rewrite Hc.
    + cbn. rewrite Hcount. symmetry. apply count_same. intros x _. unfold initialised. cbn.
      destruct (decide _); [done|]. case_bool_decide; [subst; rewrite Hc; naive_solver|done].
    + done.
Qed.

Lemma mp_step_ok c s : mp_inv s → ∃ s', mp_step c s = Done s' ∧ mp_inv s'.
Proof using Hprimary.
  intros Hs. unfold mp_step. case_bool_decide; [by apply primary_step_ok|].
  eexists. split; [done|]. by apply secondary_step_ok.
Qed.

(** ** Boot completes *)

(** The turns with an effect that are left. *)
Definition primary_left (pc : primary_pc) : nat :=
  match pc with
  | AtFor i _ => 2 * (SMP - i) + 3
  | AtWait i _ => 2 * (SMP - i) + 2
  | AtInit => 2
  | AtBarrier => 1
  | InMain => 0
  end.

Definition other_left (pc : secondary_pc) : nat :=
  match pc with Off => 4 | Started _ => 3 | Entered => 2 | WaitInit => 1 | Idle => 0 end.

Definition turns_left s : nat := primary_left (ppc s) + sum_list_with (λ c, other_left (spc s c)) (seq 0 SMP).

Definition finished s : Prop := ppc s = InMain ∧ ∀ c, (c < SMP)%nat → c ≠ primary_cpu_id → spc s c = Idle.

Lemma sum_update (f g : nat → nat) (c n : nat) : ∀ start, (start ≤ c < start + n)%nat → (∀ x, x ≠ c → g x = f x) →
  (sum_list_with g (seq start n) + f c = sum_list_with f (seq start n) + g c)%nat.
Proof.
  induction n as [|n IH]; intros start Hc Heq; [lia|]. cbn [seq sum_list_with].
  destruct (decide (start = c)) as [->|Hne].
  - assert (sum_list_with g (seq (S c) n) = sum_list_with f (seq (S c) n)) as Hs; [|lia].
    clear Hc. assert (∀ m, (c < m)%nat → sum_list_with g (seq m n) = sum_list_with f (seq m n)) as Hm; [|apply Hm; lia].
    clear IH. induction n as [|n IHn]; intros m Hm; [done|]. cbn [seq sum_list_with].
    rewrite IHn, Heq by lia. done.
  - rewrite (Heq start) by done. pose proof (IH (S start) ltac:(lia) Heq). lia.
Qed.

Lemma turns_set_spc s c pc : (c < SMP)%nat →
  (turns_left (set_spc c pc s) + other_left (spc s c) = turns_left s + other_left pc)%nat.
Proof.
  intros Hc. unfold turns_left. cbn [ppc set_spc spc].
  pose proof (sum_update (λ x, other_left (spc s x)) (λ x, other_left (if bool_decide (x = c) then pc else spc s x)) c SMP 0
    ltac:(lia)) as Hs. cbv beta in Hs. rewrite bool_decide_true in Hs by done.
  specialize (Hs ltac:(intros x Hx; by rewrite bool_decide_false)). lia.
Qed.

Lemma turns_set_pc s pc :
  (turns_left (set_pc pc s) + primary_left (ppc s) = turns_left s + primary_left pc)%nat.
Proof. unfold turns_left. cbn [ppc set_pc spc]. lia. Qed.

Lemma primary_step_left s s' : mp_inv s → primary_step s = Done s' → s' = s ∨ (turns_left s' < turns_left s)%nat.
Proof.
  intros Hs. unfold primary_step. pose proof (mi_pc s Hs) as Hpc. unfold pc_ok in Hpc.
  destruct (ppc s) as [i l|i l| | |] eqn:Hp.
  - destruct Hpc as (_ & _ & _ & Hb). case_bool_decide; [case_bool_decide|].
    + case_bool_decide; [|done]. intros [= <-]. right.
      pose proof (turns_set_spc s i (Started l) ltac:(done)) as Ht.
      rewrite (proj2 (Hb i ltac:(set_solver))) in Ht by lia.
      pose proof (turns_set_pc (set_spc i (Started l) s) (AtWait i (S l))) as Hq. cbn [ppc set_spc] in Hq.
      rewrite Hp in Hq. cbn [primary_left other_left] in *. lia.
    + intros [= <-]. right. pose proof (turns_set_pc s (AtFor (S i) l)) as Hq. rewrite Hp in Hq. cbn [primary_left] in Hq. lia.
    + intros [= <-]. right. pose proof (turns_set_pc s AtInit) as Hq. rewrite Hp in Hq. cbn [primary_left] in Hq. lia.
  - case_bool_decide; intros [= <-]; [by left|]. right. destruct Hpc as (? & _).
    pose proof (turns_set_pc s (AtFor (S i) l)) as Hq. rewrite Hp in Hq. cbn [primary_left] in Hq. lia.
  - intros [= <-]. right. change (turns_left (set_pc AtBarrier (add_inited s))) with (turns_left (set_pc AtBarrier s)).
    pose proof (turns_set_pc s AtBarrier) as Hq. rewrite Hp in Hq. cbn [primary_left] in Hq. lia.
  - destruct (is_init_ok s); intros [= <-]; [|by left]. right.
    pose proof (turns_set_pc s InMain) as Hq. rewrite Hp in Hq. cbn [primary_left] in Hq. lia.
  - intros [= <-]. by left.
Qed.

Lemma secondary_step_left c s : mp_inv s →
  secondary_step c s = s ∨ (turns_left (secondary_step c s) < turns_left s)%nat.
Proof.
  intros Hs. unfold secondary_step. destruct (spc s c) eqn:Hpc; [by left| | | |by left];
    (destruct (on_cases s c Hs) as (Hlt & _); [congruence|]).
  - right. pose proof (turns_set_spc s c Entered Hlt) as Ht. rewrite Hpc in Ht.
    change (turns_left (add_entered ?x)) with (turns_left x). cbn [other_left] in Ht. lia.
  - right. pose proof (turns_set_spc s c WaitInit Hlt) as Ht. rewrite Hpc in Ht.
    change (turns_left (add_inited ?x)) with (turns_left x). cbn [other_left] in Ht. lia.
  - destruct (is_init_ok s); [|by left]. right. pose proof (turns_set_spc s c Idle Hlt) as Ht. rewrite Hpc in Ht.
    cbn [other_left] in Ht. lia.
Qed.

Lemma mp_step_left c s s' : mp_inv s → mp_step c s = Done s' → s' = s ∨ (turns_left s' < turns_left s)%nat.
Proof.
  intros Hs. unfold mp_step. case_bool_decide; [by apply primary_step_left|]. intros [= <-].
  by apply secondary_step_left.
Qed.

(** Until boot is finished some CPU has a turn with an effect. *)
Lemma some_turn s : mp_inv s → ¬ finished s → ∃ c, (c < SMP)%nat ∧ mp_step c s ≠ Done s.
Proof using Hprimary.
  intros Hs Hnf. assert (∀ i, INITED_CPUS s = SMP → (i < SMP)%nat → i ≠ primary_cpu_id → spc s i = WaitInit →
    ∃ c, (c < SMP)%nat ∧ mp_step c s ≠ Done s) as Hwait.
  { intros i Hall Hi Hne Hw. exists i. split; [done|]. unfold mp_step, secondary_step.
    rewrite bool_decide_false, Hw by done. unfold is_init_ok. rewrite bool_decide_true by done.
    intros [= Heq]. rewrite <- Heq in Hw. cbn in Hw. by rewrite bool_decide_true in Hw. }
  pose proof (mi_pc s Hs) as Hpc. unfold pc_ok in Hpc.
  assert (∀ s', primary_step s = Done s' → ppc s' ≠ ppc s → ∃ c, (c < SMP)%nat ∧ mp_step c s ≠ Done s) as Hprim.
  { intros s' Hr Hne. exists primary_cpu_id. split; [done|]. unfold mp_step. rewrite bool_decide_true, Hr by done. congruence. }
  assert (∀ c, (c < SMP)%nat → c ≠ primary_cpu_id → spc (secondary_step c s) c ≠ spc s c →
    ∃ c, (c < SMP)%nat ∧ mp_step c s ≠ Done s) as Hsec.
  { intros c Hc Hne Hd. exists c. split; [done|]. unfold mp_step. rewrite bool_decide_false by done. congruence. }
  destruct (ppc s) as [i l|i l| | |] eqn:Hp.
  - destruct (primary_step_ok s Hs) as (s' & Hr & _). apply (Hprim s' Hr). revert Hr. unfold primary_step. rewrite Hp.
    case_bool_decide; [case_bool_decide; [case_bool_decide|]|]; intros; simplify_eq/=; congruence || (intros [= ?]; lia).
  - destruct Hpc as (Hi & Hne & -> & [(Hst & _ & _)|[Hent _]]).
    + apply (Hsec i); [done..|]. unfold secondary_step. rewrite Hst. cbn. by rewrite bool_decide_true.
    + eapply Hprim; [unfold primary_step; rewrite Hp, bool_decide_false by lia; done|done].
  - eapply Hprim; [unfold primary_step; by rewrite Hp|done].
  - destruct (decide (INITED_CPUS s = SMP)) as [Hall|Hno].
    + eapply Hprim; [unfold primary_step, is_init_ok; rewrite Hp, bool_decide_true by done; done|done].
    + rewrite (mi_count s Hs) in Hno. destruct (decide (Forall (initialised s) (seq 0 SMP))) as [Hf|Hf].
      { destruct Hno. apply count_all. intros c Hc. rewrite Forall_forall in Hf. apply Hf, elem_of_seq. lia. }
      apply not_Forall_Exists in Hf; [|apply _]. apply Exists_exists in Hf as (c & Hc%elem_of_seq & Hi).
      unfold initialised in Hi. cbn in Hi. destruct (decide (c = primary_cpu_id)) as [|Hne]; [destruct Hi; auto|].
      destruct (Hpc c ltac:(set_solver)) as [[Hoff Hst] _]; [lia|].
      apply (Hsec c); [lia|done|]. unfold secondary_step.
      destruct (spc s c) eqn:Hc'; [done|by destruct (Hst stack)| |naive_solver|naive_solver]. cbn. by rewrite bool_decide_true.
  - pose proof (mi_open s Hs (or_introl Hp)) as Hall.
    destruct (decide (Forall (λ c, c ≠ primary_cpu_id → spc s c = Idle) (seq 0 SMP))) as [Hf|Hf].
    { destruct Hnf. split; [done|]. intros c Hc. rewrite Forall_forall in Hf. apply Hf, elem_of_seq. lia. }
    apply not_Forall_Exists in Hf; [|apply _]. apply Exists_exists in Hf as (c & Hc%elem_of_seq & Hi). cbn in Hi.
    pose proof (inited_all s Hs Hall c ltac:(lia)) as Hd. unfold initialised in Hd.
    destruct (decide (c = primary_cpu_id)) as [|Hne]; [by destruct Hi|]. apply (Hwait c); [done|lia|done|]. naive_solver.
Qed.

Lemma mp_run_app cs cs' s : mp_run (cs ++ cs') s = s' ← mp_run cs s; mp_run cs' s'.
Proof. revert s. induction cs as [|c cs IH]; intros s; [done|]. cbn. destruct (mp_step c s); cbn; [apply IH|done]. Qed.

Lemma mp_run_ok cs : ∀ s, mp_inv s → ∃ s', mp_run cs s = Done s' ∧ mp_inv s' ∧
  (s' = s ∧ (∀ c, c ∈ cs → mp_step c s = Done s) ∨ (turns_left s' < turns_left s)%nat).
Proof using Hprimary.
  induction cs as [|c cs IH]; intros s Hs; cbn.
  { exists s. split_and!; [done..|left]. split; [done|]. by intros c ?%elem_of_nil. }
  destruct (mp_step_ok c s Hs) as (s1 & Hr & Hs1). rewrite Hr. cbn.
  destruct (IH s1 Hs1) as (s2 & Hr2 & Hs2 & Hl2). exists s2. split_and!; [done..|].
  destruct (mp_step_left c s s1 Hs Hr) as [->|Hl]; [|right; destruct Hl2 as [[-> _]|?]; lia].
  destruct Hl2 as [[-> Hall]|?]; [left|by right]. split; [done|]. intros x [->|?]%elem_of_cons; auto.
Qed.

#[local] Instance finished_dec s : Decision (finished s).
Proof.
  destruct (decide (Forall (λ c, c ≠ primary_cpu_id → spc s c = Idle) (seq 0 SMP))) as [Hf|Hf].
  - destruct (ppc s) eqn:Hp; try (right; intros [? _]; congruence). left. split; [done|]. intros c Hc.
    rewrite Forall_forall in Hf. apply Hf, elem_of_seq. lia.
  - right. intros [_ Hi]. apply Hf, Forall_forall. intros c Hc%elem_of_seq. apply Hi. lia.
Qed.

Lemma finished_run cs s : mp_inv s → finished s → mp_run cs s = Done s.
Proof.
  intros Hs [Hp Hi]. assert (∀ c, mp_step c s = Done s) as Hstep.
  { intros c. unfold mp_step, primary_step, secondary_step. rewrite Hp. case_bool_decide; [done|].
    destruct (decide (spc s c = Off)) as [->|Hon]; [done|]. destruct (on_cases s c Hs Hon) as (? & ? & _). by rewrite Hi. }
  induction cs as [|c cs IH]; [done|]. cbn. by rewrite Hstep.
Qed.

(** A round is a sequence of turns in which every CPU has one. *)
Lemma rounds_finish rounds : ∀ s, mp_inv s → (turns_left s ≤ length rounds)%nat →
  Forall (λ r, ∀ c, (c < SMP)%nat → c ∈ r) rounds → ∃ s', mp_run (concat rounds) s = Done s' ∧ finished s'.
Proof using Hprimary.
  induction rounds as [|r rounds IH]; intros s Hs Hle Hr;
    (destruct (decide (finished s)) as [|Hnf]; [exists s; split; [by apply finished_run|done]|]);
    destruct (some_turn s Hs Hnf) as (c & Hc & Hstep).
  - destruct (mp_step_ok c s Hs) as (s1 & Hr1 & _). destruct (mp_step_left c s s1 Hs Hr1) as [->|?]; [done|].
    cbn in Hle. lia.
  - apply Forall_cons in Hr as [Hr Hrs]. cbn [concat]. rewrite mp_run_app.
    destruct (mp_run_ok r s Hs) as (s1 & -> & Hs1 & [[_ Hall]|Hl]); [by destruct Hstep; apply Hall, Hr|].
    apply IH; [done| |done]. cbn in Hle. lia.
Qed.

(** C10: boot on several CPUs, for every order in which they take turns.  The
    index into the boot stacks is always in range, and a CPU that has been
    started and has not entered is the only one, on the stack that is its
    place among the secondary CPUs.  As long as any CPU has not initialised
    itself, neither does the application run nor does a CPU leave the barrier.
    And boot completes: from any point on, after 6 SMP + 3 rounds in which
    every CPU has a turn, the application runs and all other CPUs are idle. *)
Theorem smp_boot (cs : list nat) : ∃ s, mp_run cs mp_init = Done s ∧
  (ppc s = InMain ∨ (∃ c, spc s c = Idle) → ∀ c, (c < SMP)%nat → initialised s c) ∧
  (∀ c k, spc s c = Started k → (c < SMP)%nat ∧ c ≠ primary_cpu_id ∧ k = others_below c ∧ (k < SMP - 1)%nat ∧
     ∀ c' k', spc s c' = Started k' → c' = c) ∧
  (∀ rounds, length rounds = (6 * SMP + 3)%nat → Forall (λ r, ∀ c, (c < SMP)%nat → c ∈ r) rounds →
     ∃ s', mp_run (concat rounds) s = Done s' ∧ finished s').
Proof using Hprimary.
  destruct (mp_run_ok cs mp_init mp_init_ok) as (s & Hr & Hs & Hl). exists s. split; [done|]. split_and!.
  - intros Hx. apply (inited_all s Hs). by apply Hs.
  - intros c k Hc. assert (∀ c k, spc s c = Started k → (c < SMP)%nat ∧ c ≠ primary_cpu_id ∧ k = others_below c ∧
      ∃ l, ppc s = AtWait c l) as Hst.
    { intros x j Hx. destruct (on_cases s x Hs) as (? & ? & [[_ He]|(l & ? & _ & Hs' & _)]); [congruence|by destruct (He j)|].
      rewrite Hx in Hs'. simplify_eq. eauto. }
    destruct (Hst c k Hc) as (? & ? & -> & l & Hp). split_and!; [done..|by apply others_below_bound|].
    intros c' k' Hc'. destruct (Hst c' k' Hc') as (_ & _ & _ & l' & Hp'). congruence.
  - intros rounds Hlen Hrs. apply rounds_finish; [done| |done]. rewrite Hlen.
    assert (turns_left mp_init = 6 * SMP + 3)%nat as Hi; [|destruct Hl as [[-> _]|?]; lia].
    unfold turns_left. cbn. assert (∀ a n, sum_list_with (λ _ : nat, 4%nat) (seq a n) = (4 * n)%nat) as Hsum; [|rewrite Hsum; lia].
    intros a n. revert a. induction n as [|n IH]; intros a; [done|]. cbn [seq sum_list_with]. rewrite IH. lia.
Qed.

End mp.

Lemma smp_boot_witness : ∃ s, mp_run 2 0 (concat (replicate 15 [1; 0]%nat)) (mp_init) = Done s ∧ finished 2 0 s.
Proof.
  destruct (smp_boot 2 0 ltac:(lia) []) as (s & Hr & _ & _ & Hlive). injection Hr as <-.
  apply Hlive; [done|]. apply Forall_replicate. intros c Hc. assert (c = 0 ∨ c = 1)%nat as [-> | ->] by lia; set_solver.
Defined.
