(* ===== verification/Path.v ===== *)
(** * Paths ([crates/axfs_vfs/src/path.rs])

    Strings are lists of Unicode scalar values; lengths and indices are in
    bytes of their UTF-8 encoding, as in the code, so that slicing panics
    where it is not at the boundary of a character. *)

From S2P Require Import Prelude.
From stdpp Require Import base numbers list sets strings.

Open Scope Z_scope.

Abbreviation str := (list Z) (only parsing).

Definition slash : Z := 47.

(** String literals of the code. *)
Definition lit (s : string) : str :=
  (λ a, Z.of_N (Ascii.N_of_ascii a)) <$> String.list_ascii_of_string s.

(** ** What the code uses of [str] *)

Definition utf8_len (c : Z) : Z :=
  if c <? 0x80 then 1 else if c <? 0x800 then 2 else if c <? 0x10000 then 3 else 4.

(** [s.len()]. *)
Fixpoint str_len (s : str) : Z :=
  match s with [] => 0 | c :: s => utf8_len c + str_len s end.

(** [&s[n..]]. *)
Fixpoint str_from (s : str) (n : Z) : outcome str :=
  if n =? 0 then Done s
  else match s with
       | [] => Panic
       | c :: s => if n <? utf8_len c then Panic else str_from s (n - utf8_len c)
       end.

Definition starts_with (p s : str) : bool := bool_decide (take (length p) s = p).
Definition ends_with (p s : str) : bool := bool_decide (drop (length s - length p) s = p).

(** [s.split('/')]. *)
Fixpoint split_slash (s : str) : list str :=
  match s with
  | [] => [[]]
  | c :: s =>
      if c =? slash then [] :: split_slash s
      else match split_slash s with
           | p :: ps => (c :: p) :: ps
           | [] => [[c]]
           end
  end.

(** [s.trim_start_matches('/')], [s.trim_end_matches('/')] and
    [s.trim_matches('/')]. *)
Fixpoint trim_start (s : str) : str :=
  match s with
  | [] => []
  | c :: s' => if c =? slash then trim_start s' else s
  end.

Definition trim_end (s : str) : str := reverse (trim_start (reverse s)).
Definition trim_matches (s : str) : str := trim_end (trim_start s).

(** ** [canonicalize] *)

(** The loop that pops the last component, on the reversed buffer. *)
Fixpoint pop_loop (rev_buf : str) : str :=
  match rev_buf with
  | [] => []
  | c :: rest =>
      if decide (rev_buf = [slash]) then rev_buf
      else if c =? slash then rest
      else pop_loop rest
  end.

Definition canonicalize_part (is_absolute : bool) (buf part : str) : outcome str :=
  if decide (part = [] ∨ part = lit ".") then Done buf
  else if decide (part = lit "..") then Done (reverse (pop_loop (reverse buf)))
  else
    buf ← (if decide (buf = []) then Done (if is_absolute then [slash] else [])
           else tail ← str_from buf (str_len buf - 1);
                Done (if decide (tail = [slash]) then buf else buf ++ [slash]));
    Done (buf ++ part).

Fixpoint canonicalize_loop (is_absolute : bool) (buf : str) (parts : list str) : outcome str :=
  match parts with
  | [] => Done buf
  | part :: parts =>
      buf ← canonicalize_part is_absolute buf part; canonicalize_loop is_absolute buf parts
  end.

Definition canonicalize (path : str) : outcome str :=
  let is_absolute := starts_with [slash] path in
  buf ← canonicalize_loop is_absolute [] (split_slash path);
  Done (if is_absolute && bool_decide (buf = []) then buf ++ [slash] else buf).

(** ** Reference: a stack of components *)

Definition norm_part (comps : list str) (part : str) : list str :=
  if decide (part = [] ∨ part = lit ".") then comps
  else if decide (part = lit "..") then take (length comps - 1) comps
  else comps ++ [part].

Definition normalize (parts : list str) : list str := foldl norm_part [] parts.

Fixpoint join_slash (comps : list str) : str :=
  match comps with
  | [] => []
  | [p] => p
  | p :: ps => p ++ slash :: join_slash ps
  end.

Definition render (is_absolute : bool) (comps : list str) : str :=
  (if is_absolute then [slash] else []) ++ join_slash comps.

(** A component that names an entry. *)
Definition proper (p : str) : Prop := p ≠ [] ∧ p ≠ lit "." ∧ p ≠ lit ".." ∧ slash ∉ p.

Definition ascii (c : Z) : Prop := 0 ≤ c < 128.

(** ** Lemmas *)

Lemma utf8_len_pos c : 0 < utf8_len c.
Proof. unfold utf8_len. repeat case_match; lia. Qed.

Lemma str_len_nonneg s : 0 ≤ str_len s.
Proof. induction s as [|c s IH]; simpl; [done|]. pose proof (utf8_len_pos c). lia. Qed.

Lemma str_len_app s1 s2 : str_len (s1 ++ s2) = str_len s1 + str_len s2.
Proof. induction s1; simpl; lia. Qed.

Lemma str_from_app s1 s2 : str_from (s1 ++ s2) (str_len s1) = Done s2.
Proof.
  induction s1 as [|c s1 IH]; simpl; [by destruct s2|].
  pose proof (utf8_len_pos c). pose proof (str_len_nonneg s1).
  rewrite (proj2 (Z.eqb_neq _ _)), (proj2 (Z.ltb_ge _ _)) by lia.
  by replace (utf8_len c + str_len s1 - utf8_len c) with (str_len s1) by lia.
Qed.

Lemma starts_with_spec p s : starts_with p s = true ↔ ∃ r, s = p ++ r.
Proof.
  unfold starts_with. rewrite bool_decide_eq_true. split.
  - intros H. exists (drop (length p) s). by rewrite <- H at 1; rewrite take_drop.
  - intros [r ->]. by rewrite take_app_length.
Qed.

Lemma split_slash_cons s : ∃ p ps, split_slash s = p :: ps.
Proof.
  destruct s as [|c s]; simpl; [eauto|].
  destruct (c =? slash); [eauto|]. destruct (split_slash s); eauto.
Qed.

Lemma split_slash_no_slash s p : p ∈ split_slash s → slash ∉ p.
Proof.
  revert p. induction s as [|c s IH]; simpl; intros p.
  - rewrite list_elem_of_singleton. intros ->. by apply not_elem_of_nil.
  - destruct (Z.eqb_spec c slash) as [->|Hc].
    + rewrite elem_of_cons. intros [->|?]; [by apply not_elem_of_nil|by apply IH].
    + destruct (split_slash_cons s) as (q & qs & Hq). rewrite Hq in *.
      rewrite elem_of_cons. intros [->|?]; [|by apply IH; right].
      rewrite elem_of_cons. intros [?|?]; [done|]. by apply (IH q); [left|].
Qed.

Lemma split_slash_ascii s p c : Forall ascii s → p ∈ split_slash s → c ∈ p → ascii c.
Proof.
  intros Hs. revert p c. induction Hs as [|a s Ha Hs IH]; simpl; intros p c.
  - rewrite list_elem_of_singleton. intros -> []%elem_of_nil.
  - destruct (Z.eqb_spec a slash) as [->|Hne].
    + rewrite elem_of_cons. intros [->|?]; [by intros []%elem_of_nil|by apply IH].
    + destruct (split_slash_cons s) as (q & qs & Hq). rewrite Hq in *.
      rewrite elem_of_cons. intros [->|?]; [|by apply IH; right].
      rewrite elem_of_cons. intros [->|?]; [done|]. by apply (IH q); [left|].
Qed.

Lemma split_slash_app p s :
  slash ∉ p → split_slash (p ++ slash :: s) = p :: split_slash s.
Proof.
  induction p as [|c p IH]; simpl; [done|]. rewrite not_elem_of_cons. intros [Hc Hp].
  rewrite (proj2 (Z.eqb_neq _ _)) by done. by rewrite IH.
Qed.

Lemma split_slash_single p : slash ∉ p → split_slash p = [p].
Proof.
  induction p as [|c p IH]; simpl; [done|]. rewrite not_elem_of_cons. intros [Hc Hp].
  rewrite (proj2 (Z.eqb_neq _ _)) by done. by rewrite IH.
Qed.

Lemma split_join comps :
  comps ≠ [] → Forall (λ p, slash ∉ p) comps → split_slash (join_slash comps) = comps.
Proof.
  induction comps as [|p ps IH]; [done|]. intros _ [Hp Hps]%Forall_cons.
  destruct ps as [|q ps]; simpl; [by apply split_slash_single|].
  rewrite split_slash_app by done. f_equal. by apply IH.
Qed.

Lemma join_snoc comps p :
  join_slash (comps ++ [p]) = match comps with [] => p | _ => join_slash comps ++ slash :: p end.
Proof.
  induction comps as [|a comps IH]; simpl; [done|]. rewrite IH. destruct comps; simpl; [done|].
  by rewrite <- app_assoc.
Qed.

Lemma join_not_nil comps : Forall (λ p, p ≠ []) comps → comps ≠ [] → join_slash comps ≠ [].
Proof.
  destruct comps as [|p [|q ps]]; simpl; [done| |]; intros [Hp _]%Forall_cons _; [done|].
  by destruct p.
Qed.

Lemma proper_norm comps parts :
  Forall proper comps → Forall (λ p, slash ∉ p) parts → Forall proper (foldl norm_part comps parts).
Proof.
  revert comps. induction parts as [|p parts IH]; simpl; intros comps Hc; [done|].
  intros [Hp Hps]%Forall_cons. apply IH; [|done]. unfold norm_part.
  repeat case_decide; [done|by apply Forall_take|]. apply Forall_app. split; [done|].
  apply Forall_singleton. unfold proper. naive_solver.
Qed.

(** ** The buffer holds the components *)

Definition buf_ok (is_absolute : bool) (buf : str) (comps : list str) : Prop :=
  Forall proper comps ∧ Forall (Forall ascii) comps ∧
  match comps with
  | [] => buf = [] ∨ is_absolute = true ∧ buf = [slash]
  | _ => buf = render is_absolute comps
  end.

Lemma pop_loop_app x r : slash ∉ x → pop_loop (x ++ r) = pop_loop r.
Proof.
  induction x as [|c x IH]; [done|]. rewrite not_elem_of_cons. intros [Hc Hx].
  change ((c :: x) ++ r) with (c :: (x ++ r)). simpl.
  rewrite decide_False by congruence. rewrite (proj2 (Z.eqb_neq _ _)) by done. by apply IH.
Qed.

Lemma pop_loop_slash r : r ≠ [] → pop_loop (slash :: r) = r.
Proof. intros Hr. simpl. rewrite decide_False by congruence. done. Qed.

Lemma pop_spec is_absolute comps p :
  Forall proper comps → slash ∉ p →
  ∃ buf, reverse (pop_loop (reverse (render is_absolute (comps ++ [p])))) = buf ∧
    match comps with
    | [] => buf = [] ∨ is_absolute = true ∧ buf = [slash]
    | _ => buf = render is_absolute comps
    end.
Proof.
  intros Hc Hp. eexists. split; [done|]. unfold render. rewrite join_snoc.
  assert (slash ∉ reverse p) by by rewrite elem_of_reverse.
  destruct comps as [|q qs].
  - rewrite reverse_app, pop_loop_app by done. destruct is_absolute; [by right|by left].
  - rewrite !reverse_app, reverse_cons, <- !app_assoc, pop_loop_app by done.
    change ([slash] ++ ?l) with (slash :: l). rewrite pop_loop_slash.
    + by rewrite <- reverse_app, reverse_involutive.
    + rewrite <- reverse_app. intros Heq%(f_equal reverse). rewrite reverse_involutive in Heq.
      apply app_eq_nil in Heq as [_ Heq]. revert Heq. apply join_not_nil; [|done].
      eapply Forall_impl; [done|]. by intros ? [].
Qed.

Lemma join_last comps p c x :
  last comps = Some p → p = x ++ [c] → ∃ y, join_slash comps = y ++ [c].
Proof.
  intros [l ->]%last_Some ->. rewrite join_snoc. destruct l as [|a l]; [by exists x|].
  exists (join_slash (a :: l) ++ slash :: x). by rewrite <- app_assoc.
Qed.

(** The last character of the buffer is one of a component. *)
Lemma render_last is_absolute comps :
  comps ≠ [] → Forall proper comps → Forall (Forall ascii) comps →
  ∃ y c, render is_absolute comps = y ++ [c] ∧ c ≠ slash ∧ ascii c.
Proof.
  intros Hne Hp Ha. destruct (last comps) as [p|] eqn:Hl.
  2: { by apply last_None in Hl. }
  pose proof (last_Some_elem_of _ _ Hl) as Hin.
  rewrite Forall_forall in Hp, Ha. destruct (Hp _ Hin) as (Hpn & _ & _ & Hs).
  destruct (last p) as [c|] eqn:Hlc; [|by apply last_None in Hlc].
  apply last_Some in Hlc as [x Hx]. destruct (join_last _ _ _ _ Hl Hx) as [y Hy].
  exists ((if is_absolute then [slash] else []) ++ y), c. unfold render. rewrite Hy, <- app_assoc.
  split; [done|]. assert (c ∈ p) as Hcp by (rewrite Hx; set_solver). split; [by intros ->|].
  specialize (Ha _ Hin). rewrite Forall_forall in Ha. by apply Ha.
Qed.

Lemma canonicalize_part_push is_absolute buf part :
  proper part →
  canonicalize_part is_absolute buf part =
    (buf ← (if decide (buf = []) then Done (if is_absolute then [slash] else [])
            else tail ← str_from buf (str_len buf - 1);
                 Done (if decide (tail = [slash]) then buf else buf ++ [slash]));
     Done (buf ++ part)).
Proof.
  intros (H1 & H2 & H3 & _). unfold canonicalize_part.
  rewrite (decide_False (P := part = [] ∨ _)) by tauto.
  by rewrite (decide_False (P := part = lit "..")) by done.
Qed.

Lemma canonicalize_part_spec is_absolute buf comps part :
  buf_ok is_absolute buf comps → slash ∉ part → Forall ascii part →
  ∃ buf', canonicalize_part is_absolute buf part = Done buf' ∧
    buf_ok is_absolute buf' (norm_part comps part).
Proof.
  intros (Hp & Ha & Hb) Hs Hpa. unfold canonicalize_part, norm_part.
  case_decide as H1; [by exists buf|]. case_decide as H2.
  { eexists. split; [done|]. split; [by apply Forall_take|]. split; [by apply Forall_take|].
    destruct comps as [|p comps _] using rev_ind.
    - destruct Hb as [->|[-> ->]]; [by left|by right].
    - rewrite length_app, Nat.add_sub, take_app_length.
      apply Forall_app in Hp as [Hp Hp1]. apply Forall_singleton in Hp1 as (_ & _ & _ & Hps).
      destruct (pop_spec is_absolute comps p Hp Hps) as (b & Hpop & Hbuf).
      replace buf with (render is_absolute (comps ++ [p])) by by destruct comps.
      by rewrite Hpop. }
  assert (proper part) as Hpp by (unfold proper; naive_solver).
  assert (Forall proper (comps ++ [part])) by (apply Forall_app; by split; [|apply Forall_singleton]).
  assert (Forall (Forall ascii) (comps ++ [part]))
    by (apply Forall_app; by split; [|apply Forall_singleton]).
  assert (∀ b, b = render is_absolute (comps ++ [part]) → buf_ok is_absolute b (comps ++ [part])) as Hok.
  { intros b ->. split_and!; [done..|]. by destruct comps. }
  destruct comps as [|q qs].
  - case_decide as Hbuf; [by eexists; split; [done|apply Hok]|].
    destruct Hb as [->|[-> ->]]; [done|]. eexists. split; [done|]. by apply Hok.
  - destruct (render_last is_absolute (q :: qs)) as (y & c & Hy & Hc & Hca); [done..|].
    assert (buf = y ++ [c]) as -> by by rewrite Hb.
    rewrite decide_False by (by destruct y). rewrite str_len_app. simpl.
    assert (utf8_len c = 1) as ->.
    { unfold utf8_len. unfold ascii in Hca. by rewrite (proj2 (Z.ltb_lt _ _)) by lia. }
    replace (str_len y + (1 + 0) - 1) with (str_len y) by lia.
    rewrite str_from_app. simpl. rewrite decide_False by congruence.
    eexists. split; [done|]. apply Hok. rewrite <- Hy. unfold render. rewrite join_snoc.
    by rewrite <- !app_assoc.
Qed.

Lemma canonicalize_loop_spec is_absolute buf comps parts :
  buf_ok is_absolute buf comps → Forall (λ p, (slash ∉ p) ∧ Forall ascii p) parts →
  ∃ buf', canonicalize_loop is_absolute buf parts = Done buf' ∧
    buf_ok is_absolute buf' (foldl norm_part comps parts).
Proof.
  revert buf comps. induction parts as [|p parts IH]; intros buf comps Hb Hps; [by exists buf|].
  apply Forall_cons in Hps as [[Hs Hp] Hps].
  destruct (canonicalize_part_spec _ _ _ p Hb Hs Hp) as (b & Hrun & Hb2). simpl.
  rewrite Hrun. simpl. by apply IH.
Qed.

Lemma canonicalize_eq path :
  Forall ascii path →
  canonicalize path = Done (render (starts_with [slash] path) (normalize (split_slash path))) ∧
  Forall (Forall ascii) (normalize (split_slash path)).
Proof.
  intros Ha. unfold canonicalize. set (a := starts_with [slash] path).
  destruct (canonicalize_loop_spec a [] [] (split_slash path)) as (b & Hrun & Hp & Has & Hb).
  - split_and!; [done..|]. by left.
  - rewrite Forall_forall. intros p Hp. split; [by eapply split_slash_no_slash|].
    rewrite Forall_forall. intros c Hc. by eapply split_slash_ascii.
  - rewrite Hrun. simpl. fold (normalize (split_slash path)) in *. split; [|done]. f_equal.
    destruct (normalize _) as [|q qs] eqn:Hn.
    + by destruct a, Hb as [->|[? ->]].
    + rewrite Hb. destruct (render_last a (q :: qs)) as (y & c & -> & _); [done..|].
      rewrite (bool_decide_false (y ++ [c] = [])) by (by destruct y). by rewrite andb_false_r.
Qed.

Lemma normalize_proper comps : Forall proper comps → normalize comps = comps.
Proof.
  unfold normalize. intros Hp. assert (∀ acc, foldl norm_part acc comps = acc ++ comps) as Hacc.
  { induction Hp as [|p comps (? & ? & ? & _) _ IH]; intros acc; simpl; [by rewrite app_nil_r|].
    rewrite IH. unfold norm_part. rewrite !decide_False by naive_solver. by rewrite <- app_assoc. }
  apply Hacc.
Qed.

Lemma normalize_split_proper s : Forall proper (normalize (split_slash s)).
Proof.
  apply proper_norm; [done|]. rewrite Forall_forall. intros p. apply split_slash_no_slash.
Qed.

(** Splitting a rendered path gives the components back, but for empty
    ones. *)
Lemma normalize_render is_absolute comps :
  Forall proper comps → normalize (split_slash (render is_absolute comps)) = comps.
Proof.
  intros Hp. assert (Forall (λ p, slash ∉ p) comps) as Hs
    by (eapply Forall_impl; [done|]; by intros ? (_ & _ & _ & ?)).
  assert (∀ b, normalize (if b : bool then [] :: split_slash (join_slash comps)
                          else split_slash (join_slash comps)) = comps) as Hn.
  { intros b. transitivity (normalize (split_slash (join_slash comps))); [by destruct b|].
    destruct comps as [|q qs]; [done|]. rewrite split_join by done. by apply normalize_proper. }
  destruct is_absolute; [apply (Hn true)|apply (Hn false)].
Qed.

Lemma render_absolute is_absolute comps :
  Forall proper comps → starts_with [slash] (render is_absolute comps) = is_absolute.
Proof.
  intros Hp. destruct is_absolute; [done|]. unfold render, starts_with. simpl.
  destruct comps as [|p ps]; [done|]. apply Forall_cons in Hp as [(Hn & _ & _ & Hs) _].
  apply bool_decide_false. destruct p as [|c p]; [done|]. apply not_elem_of_cons in Hs as [Hc _].
  destruct ps; simpl; rewrite take_0; congruence.
Qed.

Lemma render_ascii is_absolute comps :
  Forall (Forall ascii) comps → Forall ascii (render is_absolute comps).
Proof.
  intros Ha. unfold render. apply Forall_app. split; [destruct is_absolute; by repeat constructor|].
  induction Ha as [|p comps Hp Hps IH]; [done|]. destruct comps; [done|]. simpl.
  apply Forall_app. split; [done|]. by constructor.
Qed.

(** ** Theorems *)

(** On an ASCII path [canonicalize] completes without a panic and returns
    the path of the components that a stack of components holds at the end:
    empty ones and [.] skipped, [..] dropping the last one, never leaving the
    root; the result is absolute if and only if the path was, and is a fixed
    point of [canonicalize]. *)
Theorem canonicalize_normalizes path :
  Forall ascii path →
  ∃ r, canonicalize path = Done r ∧
    r = render (starts_with [slash] path) (normalize (split_slash path)) ∧
    starts_with [slash] r = starts_with [slash] path ∧
    Forall proper (normalize (split_slash path)) ∧
    canonicalize r = Done r.
Proof.
  intros Ha. destruct (canonicalize_eq path Ha) as [Hc Hca].
  pose proof (normalize_split_proper path) as Hp.
  eexists. split; [exact Hc|]. split; [done|]. split; [by apply render_absolute|]. split; [done|].
  destruct (canonicalize_eq _ (render_ascii (starts_with [slash] path) _ Hca)) as [Hr _].
  by rewrite Hr, render_absolute, normalize_render.
Qed.

Lemma canonicalize_normalizes_witness :
  canonicalize (lit "/./path//to/../../../bar.rs") = Done (lit "/bar.rs").
Proof.
  destruct (canonicalize_normalizes (lit "/./path//to/../../../bar.rs")) as (r & Hr & -> & _).
  - vm_compute. repeat (constructor; [by split|]). constructor.
  - by rewrite Hr.
Defined.

(** A component whose last character is not ASCII makes [canonicalize]
    panic when another component follows it: the test for a trailing slash
    slices the buffer one byte before its end, inside that character. *)
Theorem canonicalize_panics_on_non_ascii c p q :
  128 ≤ c → proper (p ++ [c]) → proper q → canonicalize ((p ++ [c]) ++ slash :: q) = Panic.
Proof.
  intros Hc Hp Hq. pose proof Hp as (Hp1 & _ & _ & Hp4). pose proof Hq as (_ & _ & _ & Hq4).
  unfold canonicalize. rewrite split_slash_app, split_slash_single by done. simpl.
  destruct (starts_with _ _) eqn:Hs.
  { apply starts_with_spec in Hs as [r Hr]. destruct p as [|a p]; simpl in Hr; simplify_eq;
      destruct Hp4; set_solver. }
  rewrite canonicalize_part_push by done. simpl. rewrite canonicalize_part_push by done.
  rewrite decide_False by done. rewrite str_len_app. simpl.
  set (n := str_len p + (utf8_len c + 0) - 1).
  assert (str_from (p ++ [c]) n = Panic) as ->; [|done].
  assert (1 < utf8_len c) as Hu.
  { unfold utf8_len. rewrite (proj2 (Z.ltb_ge _ _)) by lia. repeat case_match; lia. }
  assert (∀ k, 0 < k < utf8_len c → str_from (p ++ [c]) (str_len p + k) = Panic) as Hk.
  { intros k Hk. clear -Hk. induction p as [|a p IH]; simpl.
    - by rewrite (proj2 (Z.eqb_neq _ _)), (proj2 (Z.ltb_lt _ _)) by lia.
    - pose proof (utf8_len_pos a). pose proof (str_len_nonneg p).
      rewrite (proj2 (Z.eqb_neq _ _)), (proj2 (Z.ltb_ge _ _)) by lia.
      by replace (utf8_len a + str_len p + k - utf8_len a) with (str_len p + k) by lia. }
  replace n with (str_len p + (utf8_len c - 1)) by lia. apply Hk. lia.
Qed.

Lemma canonicalize_panics_on_non_ascii_witness : canonicalize [233; 47; 98] = Panic.
Proof.
  apply (canonicalize_panics_on_non_ascii 233 [] [98]); [lia|..];
    (split_and!; [done..|]); set_solver.
Defined.
