(* ===== verification/Vfs.v ===== *)
(** * File system nodes ([crates/axfs_vfs], [crates/axfs_ramfs],
      [crates/axfs_devfs] and the root directory of [modules/axfs])

    A node is a value in a store, its [Arc] the address there; calls through
    [dyn VfsNodeOps] branch on the kind of the node.  Removing an entry keeps
    the node in the store: other holders of the [Arc] still see it.  Whether
    the weak pointer to a parent can be upgraded, that is, whether anybody
    still holds that node, is the argument [alive].  The recursion of
    [lookup], [create] and [remove] is on the path and uses one unit of fuel
    per component; [VfsSpec.v] shows that the length of the path and two is
    always enough. *)

From S2P Require Import Prelude Utf8 AxErrno BTree Path.
From stdpp Require Import base numbers list gmap strings.

Open Scope Z_scope.

(** ** Attributes and directory entries ([structs.rs]) *)

Inductive VfsNodeType := Fifo | CharDevice | Dir | BlockDevice | File | SymLink | Socket.

#[global] Instance VfsNodeType_eq_dec : EqDecision VfsNodeType.
Proof. solve_decision. Defined.

Definition OWNER_READ : Z := 256.
Definition OWNER_WRITE : Z := 128.
Definition OWNER_EXEC : Z := 64.

(** [0o666] and [0o755]. *)
Definition default_file : Z := 438.
Definition default_dir : Z := 493.

(** [bitflags]: [p.contains(q)]. *)
Definition contains (p q : Z) : bool := Z.land p q =? q.

Definition owner_readable (p : Z) : bool := contains p OWNER_READ.
Definition owner_writable (p : Z) : bool := contains p OWNER_WRITE.
Definition owner_executable (p : Z) : bool := contains p OWNER_EXEC.

Record VfsNodeAttr := {
  attr_mode : Z;
  attr_ty : VfsNodeType;
  attr_size : Z;
  attr_blocks : Z;
}.

Definition attr_new_file (size blocks : Z) : VfsNodeAttr :=
  {| attr_mode := default_file; attr_ty := File; attr_size := size; attr_blocks := blocks |}.
Definition attr_new_dir (size blocks : Z) : VfsNodeAttr :=
  {| attr_mode := default_dir; attr_ty := Dir; attr_size := size; attr_blocks := blocks |}.
Definition attr_is_dir (a : VfsNodeAttr) : bool := bool_decide (attr_ty a = Dir).

Record VfsDirEntry := { d_type : VfsNodeType; d_name : list Z }.

Definition dirent_default : VfsDirEntry := {| d_type := File; d_name := replicate 63 0 |}.

(** A name longer than the array is only warned about; the slice then
    panics. *)
Definition dirent_new (name : str) (ty : VfsNodeType) : outcome VfsDirEntry :=
  let bytes := as_bytes name in
  if decide (length bytes ≤ 63)%nat
  then Done {| d_type := ty; d_name := bytes ++ replicate (63 - length bytes) 0 |}
  else Panic.

Fixpoint name_as_bytes_of (l : list Z) : list Z :=
  match l with [] => [] | c :: l => if c =? 0 then [] else c :: name_as_bytes_of l end.
Definition name_as_bytes (e : VfsDirEntry) : list Z := name_as_bytes_of (d_name e).

(** ** Nodes *)

(** [Ord] on [String]. *)
Fixpoint str_ltb (a b : str) : bool :=
  match a, b with
  | _, [] => false
  | [], _ => true
  | x :: a, y :: b => (x <? y) || ((x =? y) && str_ltb a b)
  end.
#[global] Instance str_key_order : KeyOrder (list Z) := str_ltb.

(** A mounted file system, by its root directory, and where. *)
Record MountPoint := { mp_path : str; mp_fs : Z }.

Inductive vnode :=
| RamDir (parent : option Z) (children : list (str * Z))
| RamFile (content : list Z)
| DevDir (parent : option Z) (children : list (str * Z))
| NullDev
| ZeroDev
| RootDirectory (main_fs : Z) (mounts : list MountPoint).

(** The store; [next_node] is the address of the next [Arc::new]. *)
Record vfs := { nodes : gmap Z vnode; next_node : Z }.

Definition set_node (a : Z) (n : vnode) (w : vfs) : vfs :=
  {| nodes := <[a := n]> (nodes w); next_node := next_node w |}.
Definition new_node (n : vnode) (w : vfs) : Z * vfs :=
  (next_node w, {| nodes := <[next_node w := n]> (nodes w); next_node := next_node w + 1 |}).

Section vfs_ops.
Variable alive : Z → bool.

(** [Weak::upgrade]. *)
Definition upgrade (p : option Z) : option Z :=
  match p with Some a => if alive a then Some a else None | None => None end.

(** ** Paths within a directory *)

Fixpoint split_once (s : str) : str * option str :=
  match s with
  | [] => ([], None)
  | c :: s => if c =? slash then ([], Some s) else let '(n, r) := split_once s in (c :: n, r)
  end.

Definition split_path (path : str) : str * option str := split_once (trim_start path).

Definition is_dots (name : str) : bool := bool_decide (name = [] ∨ name = lit "." ∨ name = lit "..").

(** The node an entry of a directory stands for. *)
Definition ramfs_entry (self : Z) (parent : option Z) (children : list (str * Z)) (name : str)
    : result AxError Z :=
  if decide (name = [] ∨ name = lit ".") then Ok self
  else if decide (name = lit "..") then ok_or NotFound (upgrade parent)
  else ok_or NotFound (bt_get children name).

Definition devfs_entry (self : Z) (parent : option Z) (children : list (str * Z)) (name : str)
    : result AxError Z :=
  if decide (name = [] ∨ name = lit ".") then Ok self
  else if decide (name = lit "..") then ok_or NotFound (upgrade parent)
  else ok_or NotFound (bt_get children name).

(** ** Mounted file systems ([root.rs]) *)

(** The loop over the mount points: index and length of the longest match. *)
Fixpoint longest_match (path : str) (i : nat) (mounts : list MountPoint) (idx : nat) (max_len : Z)
    : outcome (nat * Z) :=
  match mounts with
  | [] => Done (idx, max_len)
  | mp :: mounts =>
      p ← str_from (mp_path mp) 1;
      if starts_with p path && (str_len (mp_path mp) - 1 >? max_len)
      then longest_match path (S i) mounts i (str_len (mp_path mp) - 1)
      else longest_match path (S i) mounts idx max_len
  end.

(** The file system and the path there that [lookup_mounted_fs] passes to
    its closure; the recursion drops two characters at least. *)
Fixpoint lookup_mounted_fs (fuel : nat) (main_fs : Z) (mounts : list MountPoint) (path : str)
    : outcome (Z * str) :=
  match fuel with
  | O => Panic
  | S fuel =>
      let path := trim_matches path in
      if starts_with (lit "./") path then lookup_mounted_fs fuel main_fs mounts (drop 2 path)
      else
        r ← longest_match path 0 mounts 0 0;
        let '(idx, max_len) := r in
        if max_len =? 0 then Done (main_fs, path)
        else
          mp ← unwrap (mounts !! idx);
          rest ← str_from path max_len;
          Done (mp_fs mp, rest)
  end.

(** ** Directory operations *)

Fixpoint node_lookup (fuel : nat) (w : vfs) (self : Z) (path : str) : outcome (result AxError Z) :=
  match fuel with
  | O => Panic
  | S fuel =>
      let go entry rest :=
        match entry, rest with
        | Err e, _ => Done (Err e)
        | Ok node, Some rest => node_lookup fuel w node rest
        | Ok node, None => Done (Ok node)
        end in
      match nodes w !! self with
      | None => Panic
      | Some (RamDir parent children) =>
          let '(name, rest) := split_path path in go (ramfs_entry self parent children name) rest
      | Some (DevDir parent children) =>
          let '(name, rest) := split_path path in go (devfs_entry self parent children name) rest
      | Some (RootDirectory main_fs mounts) =>
          r ← lookup_mounted_fs (S (length path)) main_fs mounts path;
          node_lookup fuel w r.1 r.2
      | Some (RamFile _ | NullDev | ZeroDev) => Done (Err NotADirectory)
      end
  end.

Definition create_node (self : Z) (parent : option Z) (children : list (str * Z)) (name : str)
    (ty : VfsNodeType) : stm vfs AxError unit := λ w,
  if decide (bt_get children name ≠ None) then Done (w, Err AlreadyExists)
  else
    match (match ty with
           | File => Some (RamFile [])
           | Dir => Some (RamDir (Some self) [])
           | _ => None
           end) with
    | None => Done (w, Err Unsupported)
    | Some n =>
        let '(node, w) := new_node n w in
        Done (set_node self (RamDir parent (bt_insert children name node)) w, Ok tt)
    end.

Fixpoint node_create (fuel : nat) (self : Z) (path : str) (ty : VfsNodeType)
    : stm vfs AxError unit := λ w,
  match fuel with
  | O => Panic
  | S fuel =>
      match nodes w !! self with
      | None => Panic
      | Some (RamDir parent children) =>
          let '(name, rest) := split_path path in
          match rest with
          | Some rest =>
              match ramfs_entry self parent children name with
              | Err e => Done (w, Err e)
              | Ok node => node_create fuel node rest ty w
              end
          | None =>
              if is_dots name then Done (w, Ok tt) else create_node self parent children name ty w
          end
      | Some (DevDir parent children) =>
          let '(name, rest) := split_path path in
          match rest with
          | Some rest =>
              match devfs_entry self parent children name with
              | Err e => Done (w, Err e)
              | Ok node => node_create fuel node rest ty w
              end
          | None => Done (w, if is_dots name then Ok tt else Err PermissionDenied)
          end
      | Some (RootDirectory main_fs mounts) =>
          match lookup_mounted_fs (S (length path)) main_fs mounts path with
          | Panic => Panic
          | Done (fs, rest) =>
              if decide (rest = []) then Done (w, Ok tt) else node_create fuel fs rest ty w
          end
      | Some (RamFile _ | NullDev | ZeroDev) => Done (w, Err NotADirectory)
      end
  end.

Definition remove_node (self : Z) (parent : option Z) (children : list (str * Z)) (name : str)
    : stm vfs AxError unit := λ w,
  match bt_get children name with
  | None => Done (w, Err NotFound)
  | Some node =>
      match nodes w !! node with
      | Some (RamDir _ (_ :: _)) => Done (w, Err DirectoryNotEmpty)
      | _ => Done (set_node self (RamDir parent (bt_remove children name)) w, Ok tt)
      end
  end.

Fixpoint node_remove (fuel : nat) (self : Z) (path : str) : stm vfs AxError unit := λ w,
  match fuel with
  | O => Panic
  | S fuel =>
      match nodes w !! self with
      | None => Panic
      | Some (RamDir parent children) =>
          let '(name, rest) := split_path path in
          match rest with
          | Some rest =>
              match ramfs_entry self parent children name with
              | Err e => Done (w, Err e)
              | Ok node => node_remove fuel node rest w
              end
          | None =>
              if is_dots name then Done (w, Err InvalidInput)
              else remove_node self parent children name w
          end
      | Some (DevDir parent children) =>
          let '(name, rest) := split_path path in
          match rest with
          | Some rest =>
              match devfs_entry self parent children name with
              | Err e => Done (w, Err e)
              | Ok node => node_remove fuel node rest w
              end
          | None => Done (w, Err PermissionDenied)
          end
      | Some (RootDirectory main_fs mounts) =>
          match lookup_mounted_fs (S (length path)) main_fs mounts path with
          | Panic => Panic
          | Done (fs, rest) =>
              if decide (rest = []) then Done (w, Err PermissionDenied)
              else node_remove fuel fs rest w
          end
      | Some (RamFile _ | NullDev | ZeroDev) => Done (w, Err NotADirectory)
      end
  end.

(** [VfsNodeOps::parent]. *)
Definition node_parent (w : vfs) (self : Z) : option Z :=
  match nodes w !! self with
  | Some (RamDir parent _ | DevDir parent _) => upgrade parent
  | _ => None
  end.

End vfs_ops.

(** ** Attributes and listing *)

(** Those of the main file system for the root directory. *)
Definition attr_of (n : vnode) : option VfsNodeAttr :=
  match n with
  | RamDir _ _ | DevDir _ _ => Some (attr_new_dir 4096 0)
  | RamFile content => Some (attr_new_file (Z.of_nat (length content)) 0)
  | NullDev | ZeroDev =>
      Some {| attr_mode := default_file; attr_ty := CharDevice; attr_size := 0; attr_blocks := 0 |}
  | RootDirectory _ _ => None
  end.

Definition node_get_attr (w : vfs) (self : Z) : outcome VfsNodeAttr :=
  n ← unwrap (nodes w !! self);
  match n with
  | RootDirectory main_fs _ => m ← unwrap (nodes w !! main_fs); unwrap (attr_of m)
  | _ => unwrap (attr_of n)
  end.

(** The loop of [read_dir] over the entries to fill, from index [idx] on. *)
Fixpoint read_dir_loop (n : nat) (w : vfs) (idx : Z) (children : list (str * Z))
    : outcome (list VfsDirEntry) :=
  match n with
  | O => Done []
  | S n =>
      if idx =? 0 then
        e ← dirent_new (lit ".") Dir; es ← read_dir_loop n w 1 children; Done (e :: es)
      else if idx =? 1 then
        e ← dirent_new (lit "..") Dir; es ← read_dir_loop n w 2 children; Done (e :: es)
      else
        match children with
        | [] => Done []
        | (name, node) :: children =>
            attr ← node_get_attr w node;
            e ← dirent_new name (attr_ty attr);
            es ← read_dir_loop n w (wadd idx 1) children; Done (e :: es)
        end
  end.

(** [read_dir] for [n] entries: the entries filled in. *)
Definition node_read_dir (w : vfs) (self start_idx : Z) (n : nat)
    : outcome (result AxError (list VfsDirEntry)) :=
  match nodes w !! self with
  | None => Panic
  | Some (RamDir _ children | DevDir _ children) =>
      es ← read_dir_loop n w start_idx (drop (Z.to_nat (Z.max start_idx 2 - 2)) children);
      Done (Ok es)
  | Some (RootDirectory _ _) => Done (Err Unsupported)
  | Some (RamFile _ | NullDev | ZeroDev) => Done (Err NotADirectory)
  end.

(** ** File contents ([axfs_ramfs/src/file.rs]) *)

(** [Vec::resize]; a capacity beyond [isize::MAX] panics. *)
Definition vec_resize (content : list Z) (n : Z) : outcome (list Z) :=
  if n <? 2 ^ 63
  then Done (take (Z.to_nat n) content ++ replicate (Z.to_nat n - length content) 0)
  else Panic.

(** [&content[start..end]]. *)
Definition slice (content : list Z) (start fin : Z) : outcome (list Z) :=
  if (start <=? fin) && (fin <=? Z.of_nat (length content))
  then Done (take (Z.to_nat (fin - start)) (drop (Z.to_nat start) content))
  else Panic.

Definition file_truncate (content : list Z) (size : Z) : outcome (list Z) :=
  if size <? Z.of_nat (length content) then Done (take (Z.to_nat size) content)
  else vec_resize content size.

(** The bytes stored at the start of a buffer of [len] bytes. *)
Definition file_read_at (content : list Z) (offset len : Z) : outcome (list Z) :=
  let start := Z.min (Z.of_nat (length content)) offset in
  let fin := Z.min (Z.of_nat (length content)) (wadd offset len) in
  src ← slice content start fin;
  _ ← assert_true (Z.of_nat (length src) <=? len);
  Done src.

Definition file_write_at (content : list Z) (offset : Z) (buf : list Z) : outcome (list Z) :=
  let fin := wadd offset (Z.of_nat (length buf)) in
  content ← (if fin >? Z.of_nat (length content) then vec_resize content fin else Done content);
  dst ← slice content offset fin;
  Done (take (Z.to_nat offset) content ++ take (length dst) buf ++ drop (Z.to_nat fin) content).

Definition node_read_at (w : vfs) (self offset len : Z) : outcome (result AxError (list Z)) :=
  match nodes w !! self with
  | None => Panic
  | Some (RamFile content) => bytes ← file_read_at content offset len; Done (Ok bytes)
  | Some NullDev => Done (Ok [])
  | Some ZeroDev => Done (Ok (replicate (Z.to_nat len) 0))
  | Some (RamDir _ _ | DevDir _ _ | RootDirectory _ _) => Done (Err IsADirectory)
  end.

Definition node_write_at (self offset : Z) (buf : list Z) : stm vfs AxError Z := λ w,
  match nodes w !! self with
  | None => Panic
  | Some (RamFile content) =>
      content ← file_write_at content offset buf;
      Done (set_node self (RamFile content) w, Ok (Z.of_nat (length buf)))
  | Some (NullDev | ZeroDev) => Done (w, Ok (Z.of_nat (length buf)))
  | Some (RamDir _ _ | DevDir _ _ | RootDirectory _ _) => Done (w, Err IsADirectory)
  end.

Definition node_truncate (self size : Z) : stm vfs AxError unit := λ w,
  match nodes w !! self with
  | None => Panic
  | Some (RamFile content) =>
      content ← file_truncate content size; Done (set_node self (RamFile content) w, Ok tt)
  | Some (NullDev | ZeroDev) => Done (w, Ok tt)
  | Some (RamDir _ _ | DevDir _ _ | RootDirectory _ _) => Done (w, Err IsADirectory)
  end.

(** Files and devices keep the default of the trait. *)
Definition node_fsync (self : Z) : stm vfs AxError unit := λ w,
  match nodes w !! self with
  | None => Panic
  | Some (RamFile _ | NullDev | ZeroDev) => Done (w, Err InvalidInput)
  | Some (RamDir _ _ | DevDir _ _ | RootDirectory _ _) => Done (w, Err IsADirectory)
  end.

(** ** File systems *)

(** [RamFileSystem::new] and [DeviceFileSystem::new]: their root. *)
Definition ramfs_new (w : vfs) : Z * vfs := new_node (RamDir None []) w.
Definition devfs_new (w : vfs) : Z * vfs := new_node (DevDir None []) w.

Definition set_parent (self : Z) (parent : option Z) (w : vfs) : vfs :=
  match nodes w !! self with
  | Some (RamDir _ children) => set_node self (RamDir parent children) w
  | Some (DevDir _ children) => set_node self (DevDir parent children) w
  | _ => w
  end.

(** [VfsOps::mount] of a file system that has not been mounted before. *)
Definition fs_mount (alive : Z → bool) (root mount_point : Z) (w : vfs) : vfs :=
  set_parent root (node_parent alive w mount_point) w.

(** [devfs::DirNode::mkdir] and [add]. *)
Definition devfs_add (self : Z) (name : str) (node : Z) (w : vfs) : vfs :=
  match nodes w !! self with
  | Some (DevDir parent children) => set_node self (DevDir parent (bt_insert children name node)) w
  | _ => w
  end.

Definition devfs_mkdir (self : Z) (name : str) (w : vfs) : Z * vfs :=
  let '(node, w) := new_node (DevDir (Some self) []) w in (node, devfs_add self name node w).
