(* ===== verification/VfsSpec.v ===== *)
(** * The file systems as trees of names

    [lookup], [create] and [remove] walk the components of the path; the
    store of nodes stays a tree in which every node has at most one path of
    plain names, so that looking up the canonical form of a path finds the
    same node. *)

From S2P Require Import Prelude Utf8 AxErrno BTree Path Vfs.
From stdpp Require Import base numbers list sets gmap strings.

Open Scope Z_scope.

(** ** Reference: walking a list of components *)

#[global] Instance str_key_order_laws : KeyOrderLaws (list Z).
Proof.
  split; unfold key_ltb, str_key_order.
  - intros k. induction k as [|x k IH]; simpl; [done|]. by rewrite Z.ltb_irrefl, Z.eqb_refl.
  - intros a. induction a as [|x a IH]; intros [|y b] [|z c]; simpl; try done.
    rewrite !orb_true_iff, !andb_true_iff, !Z.ltb_lt, !Z.eqb_eq.
    intros [?|[-> ?]] [?|[-> ?]]; [left; lia|left; lia|left; lia|right; eauto].
  - intros a. induction a as [|x a IH]; intros [|y b]; simpl; try done.
    rewrite !orb_false_iff, !andb_false_iff, !Z.ltb_ge, !Z.eqb_neq.
    intros [? Ha] [? Hb]. assert (x = y) as -> by lia. f_equal.
    apply IH; [by destruct Ha|by destruct Hb].
Qed.

(** The constructors of directories. *)
Abbreviation dir_kind := (option Z → list (str * Z) → vnode) (only parsing).

Section vfs_spec.
Variable alive : Z → bool.
Implicit Types (w : vfs) (self a : Z) (p : str) (parts : list str).

Definition dir_of (n : vnode) : option (option Z * list (str * Z)) :=
  match n with RamDir par ch | DevDir par ch => Some (par, ch) | _ => None end.

Definition is_root_dir (n : vnode) : bool :=
  match n with RootDirectory _ _ => true | _ => false end.

(** The directory at an address. *)
Definition dir_at w a : option (option Z * list (str * Z)) := nodes w !! a ≫= dir_of.

Definition walk_step w self p : result AxError Z :=
  match dir_at w self with
  | Some (par, ch) => ramfs_entry alive self par ch p
  | None => Err NotADirectory
  end.

Fixpoint walk w self parts : result AxError Z :=
  match parts with
  | [] => Ok self
  | p :: parts => walk_step w self p ≫= λ node, walk w node parts
  end.

(** What [create] and [remove] do in the last directory. *)
Definition create_leaf (ty : VfsNodeType) self p : stm vfs AxError unit := λ w,
  match nodes w !! self with
  | Some (RamDir par ch) => if is_dots p then Done (w, Ok tt) else create_node self par ch p ty w
  | Some (DevDir _ _) => Done (w, if is_dots p then Ok tt else Err PermissionDenied)
  | _ => Done (w, Err NotADirectory)
  end.

Definition remove_leaf self p : stm vfs AxError unit := λ w,
  match nodes w !! self with
  | Some (RamDir par ch) =>
      if is_dots p then Done (w, Err InvalidInput) else remove_node self par ch p w
  | Some (DevDir _ _) => Done (w, Err PermissionDenied)
  | _ => Done (w, Err NotADirectory)
  end.

(** Walks all components but the last, where [leaf] runs. *)
Fixpoint walk_leaf (leaf : Z → str → stm vfs AxError unit) self parts : stm vfs AxError unit := λ w,
  match parts with
  | [] => Done (w, Ok tt)
  | [p] => leaf self p w
  | p :: parts =>
      match walk_step w self p with
      | Ok node => walk_leaf leaf node parts w
      | Err e => Done (w, Err e)
      end
  end.

(** ** The store is well formed *)

(** A node of one of the file systems. *)
Definition fs_node w a : Prop := ∃ n, nodes w !! a = Some n ∧ is_root_dir n = false.

(** The directory [a] has the entry [p] for the node [c]. *)
Definition entry w a p c : Prop := ∃ par ch, dir_at w a = Some (par, ch) ∧ bt_get ch p = Some c.

Definition is_dev_dir w a : Prop := ∃ par ch, nodes w !! a = Some (DevDir par ch).

Record store_ok w : Prop := {
  so_fresh a n : nodes w !! a = Some n → a < next_node w;
  so_wf a par ch : dir_at w a = Some (par, ch) → bt_wf ch;
  so_child a p c : entry w a p c → proper p ∧ a < c ∧ fs_node w c;
  so_parent a par ch : dir_at w a = Some (Some par, ch) → is_Some (dir_at w par);
  (** a node has one entry, and a directory knows the one it is in *)
  so_unique a p c a' p' : entry w a p c → entry w a' p' c → a = a' ∧ p = p';
  so_up a p c par ch : entry w a p c → dir_at w c = Some (par, ch) → par = Some a;
  (** directories in memory hold no directory of devices *)
  so_ram a par ch p c :
    nodes w !! a = Some (RamDir par ch) → bt_get ch p = Some c → ¬ is_dev_dir w c;
}.

Lemma dir_fs_node w a : is_Some (dir_at w a) → fs_node w a.
Proof.
  intros [x Hx]. unfold dir_at in Hx. destruct (nodes w !! a) as [n|] eqn:Hn; [|done].
  exists n. split; [done|]. by destruct n.
Qed.

Lemma ramfs_entry_ok w self par ch p node :
  store_ok w → dir_at w self = Some (par, ch) →
  ramfs_entry alive self par ch p = Ok node → fs_node w node.
Proof.
  intros Hok Hd. unfold ramfs_entry. case_decide; [intros [= <-]|case_decide].
  - apply dir_fs_node. eauto.
  - unfold upgrade. destruct par as [q|]; [|done]. destruct (alive q); [|done]. intros [= <-].
    apply dir_fs_node. by eapply so_parent.
  - destruct (bt_get ch p) as [c|] eqn:Hc; [|done]. intros [= <-].
    destruct (so_child _ Hok self p c) as (_ & _ & ?); [|done]. by exists par, ch.
Qed.

Lemma walk_step_ok w self p node :
  store_ok w → walk_step w self p = Ok node → fs_node w node.
Proof.
  unfold walk_step. intros Hok. destruct (dir_at w self) as [[par ch]|] eqn:Hd; [|done].
  by eapply ramfs_entry_ok.
Qed.

Lemma walk_app w self ps qs : walk w self (ps ++ qs) = walk w self ps ≫= λ d, walk w d qs.
Proof.
  revert self. induction ps as [|p ps IH]; intros self; simpl; [done|].
  destruct (walk_step w self p); simpl; [apply IH|done].
Qed.

Lemma walk_ok w self parts node :
  store_ok w → fs_node w self → walk w self parts = Ok node → fs_node w node.
Proof.
  intros Hok. revert self. induction parts as [|p parts IH]; intros self Hs; simpl.
  - by intros [= <-].
  - destruct (walk_step w self p) as [n|] eqn:Hn; simpl; [|done]. apply IH.
    by eapply walk_step_ok.
Qed.

(** ** Splitting paths *)

Lemma split_once_spec s n r :
  split_once s = (n, r) →
  split_slash s = n :: match r with Some r => split_slash r | None => [] end ∧
  (length (default [] r) ≤ length s)%nat ∧ (r ≠ None → length (default [] r) < length s)%nat.
Proof.
  revert n r. induction s as [|c s IH]; simpl; intros n r.
  - intros [= <- <-]. simpl. split_and!; [done|lia|done].
  - destruct (c =? slash).
    + intros [= <- <-]. simpl. split_and!; [done|lia|lia].
    + destruct (split_once s) as [n' r']. intros [= <- <-].
      destruct (IH n' r' eq_refl) as (-> & ? & Hr). split_and!; [done|lia|]. intros ?%Hr. lia.
Qed.

Lemma trim_start_split s :
  ∃ k, split_slash s = replicate k [] ++ split_slash (trim_start s) ∧
    (length (trim_start s) ≤ length s)%nat.
Proof.
  induction s as [|c s [k [IH Hl]]]; [by exists 0%nat|]. simpl. destruct (Z.eqb_spec c slash).
  - exists (S k). simpl. split; [by f_equal|lia].
  - exists 0%nat. simpl. split; [|lia]. by rewrite (proj2 (Z.eqb_neq _ _)).
Qed.

Lemma split_path_spec path n r :
  split_path path = (n, r) →
  ∃ k, split_slash path =
         replicate k [] ++ n :: match r with Some r => split_slash r | None => [] end ∧
       (r ≠ None → length (default [] r) < length path)%nat.
Proof.
  intros Hs. apply split_once_spec in Hs as (Hs & _ & Hl).
  destruct (trim_start_split path) as (k & Hk & Hk2). exists k. rewrite Hk, Hs.
  split; [done|]. intros ?%Hl. lia.
Qed.

(** ** The operations walk the components *)

Lemma walk_stay w self par ch k parts :
  dir_at w self = Some (par, ch) →
  walk w self (replicate k [] ++ parts) = walk w self parts.
Proof.
  intros Hd. induction k as [|k IH]; simpl; [done|]. unfold walk_step at 1. by rewrite Hd.
Qed.

Lemma walk_leaf_stay leaf w self par ch k p parts :
  dir_at w self = Some (par, ch) →
  walk_leaf leaf self (replicate k [] ++ p :: parts) w = walk_leaf leaf self (p :: parts) w.
Proof.
  intros Hd. induction k as [|k IH]; [done|]. transitivity (walk_leaf leaf self (replicate k [] ++ p :: parts) w);
    [|done]. simpl. destruct (replicate k [] ++ p :: parts) as [|q qs] eqn:Hq.
  { by destruct k. }
  unfold walk_step. by rewrite Hd.
Qed.

(** In a node that is not a directory, walking any component fails. *)
Lemma walk_not_dir w self s :
  dir_at w self = None → walk w self (split_slash s) = Err NotADirectory.
Proof.
  intros Hd. destruct (split_slash_cons s) as (p & ps & ->). simpl. unfold walk_step. by rewrite Hd.
Qed.

Lemma node_lookup_walk w fuel self path :
  store_ok w → fs_node w self → (length path < fuel)%nat →
  node_lookup alive fuel w self path = Done (walk w self (split_slash path)).
Proof.
  intros Hok. revert self path. induction fuel as [|fuel IH]; intros self path (n & Hn & Hr) Hf; [lia|].
  simpl. rewrite Hn. destruct (dir_at w self) as [[par ch]|] eqn:Hd.
  2: { rewrite walk_not_dir by done. unfold dir_at in Hd. rewrite Hn in Hd. by destruct n. }
  destruct (split_path path) as [name rest] eqn:Hsp.
  destruct (split_path_spec _ _ _ Hsp) as (k & -> & Hl).
  rewrite (walk_stay w self par ch) by done. simpl. unfold walk_step. rewrite Hd.
  pose proof (ramfs_entry_ok w self par ch name) as Hent.
  assert (match ramfs_entry alive self par ch name, rest with
          | Err e, _ => Done (Err e)
          | Ok node, Some rest => node_lookup alive fuel w node rest
          | Ok node, None => Done (Ok node)
          end = Done (ramfs_entry alive self par ch name ≫= λ node,
                  walk w node match rest with Some r => split_slash r | None => [] end)) as Hgo.
  { destruct (ramfs_entry _ _ _ _ _) as [node|e]; simpl; [|done].
    destruct rest as [rest|]; simpl; [|done]. apply IH; [by apply Hent|].
    simpl in Hl. assert (length rest < length path)%nat by (by apply Hl). lia. }
  unfold dir_at in Hd. rewrite Hn in Hd. by destruct n; simplify_eq/=.
Qed.

(** The two file systems resolve an entry alike. *)
Lemma devfs_entry_eq self par ch name :
  devfs_entry alive self par ch name = ramfs_entry alive self par ch name.
Proof. done. Qed.

(** [create] and [remove] have the same shape. *)
Lemma walk_leaf_step leaf w self par ch name rest k :
  dir_at w self = Some (par, ch) →
  walk_leaf leaf self (replicate k [] ++ name :: match rest with Some r => split_slash r | None => [] end) w =
  match rest with
  | None => leaf self name w
  | Some rest =>
      match ramfs_entry alive self par ch name with
      | Ok node => walk_leaf leaf node (split_slash rest) w
      | Err e => Done (w, Err e)
      end
  end.
Proof.
  intros Hd. rewrite (walk_leaf_stay _ _ _ par ch) by done. destruct rest as [rest|]; [|done].
  destruct (split_slash_cons rest) as (p & ps & ->). simpl. unfold walk_step. by rewrite Hd.
Qed.

Lemma node_create_walk w fuel self path ty :
  store_ok w → fs_node w self → (length path < fuel)%nat →
  node_create alive fuel self path ty w = walk_leaf (create_leaf ty) self (split_slash path) w.
Proof.
  intros Hok. revert self path. induction fuel as [|fuel IH]; intros self path (n & Hn & Hr) Hf; [lia|].
  simpl. rewrite Hn. destruct (dir_at w self) as [[par ch]|] eqn:Hd.
  2: { destruct (split_slash_cons path) as (p & [|q ps] & ->); simpl; unfold create_leaf, walk_step;
       rewrite ?Hd, ?Hn; unfold dir_at in Hd; rewrite Hn in Hd; by destruct n. }
  destruct (split_path path) as [name rest] eqn:Hsp.
  destruct (split_path_spec _ _ _ Hsp) as (k & -> & Hl).
  rewrite (walk_leaf_step _ w self par ch) by done.
  pose proof (ramfs_entry_ok w self par ch name) as Hent.
  pose proof Hd as Hd'. unfold dir_at in Hd'. rewrite Hn in Hd'.
  destruct rest as [rest|]; [|unfold create_leaf; rewrite Hn; by destruct n; simplify_eq/=].
  assert (length rest < fuel)%nat by (assert (length rest < length path)%nat by (by apply Hl); lia).
  destruct n as [par' ch'| |par' ch'| | |]; simplify_eq/=;
    rewrite ?devfs_entry_eq;
    (destruct (ramfs_entry _ _ _ _ _) as [node|e]; [apply IH; [by apply Hent|done]|done]).
Qed.

Lemma node_remove_walk w fuel self path :
  store_ok w → fs_node w self → (length path < fuel)%nat →
  node_remove alive fuel self path w = walk_leaf remove_leaf self (split_slash path) w.
Proof.
  intros Hok. revert self path. induction fuel as [|fuel IH]; intros self path (n & Hn & Hr) Hf; [lia|].
  simpl. rewrite Hn. destruct (dir_at w self) as [[par ch]|] eqn:Hd.
  2: { destruct (split_slash_cons path) as (p & [|q ps] & ->); simpl; unfold remove_leaf, walk_step;
       rewrite ?Hd, ?Hn; unfold dir_at in Hd; rewrite Hn in Hd; by destruct n. }
  destruct (split_path path) as [name rest] eqn:Hsp.
  destruct (split_path_spec _ _ _ Hsp) as (k & -> & Hl).
  rewrite (walk_leaf_step _ w self par ch) by done.
  pose proof (ramfs_entry_ok w self par ch name) as Hent.
  pose proof Hd as Hd'. unfold dir_at in Hd'. rewrite Hn in Hd'.
  destruct rest as [rest|]; [|unfold remove_leaf; rewrite Hn; by destruct n; simplify_eq/=].
  assert (length rest < fuel)%nat by (assert (length rest < length path)%nat by (by apply Hl); lia).
  destruct n as [par' ch'| |par' ch'| | |]; simplify_eq/=; rewrite ?devfs_entry_eq;
    (destruct (ramfs_entry _ _ _ _ _) as [node|e]; [apply IH; [by apply Hent|done]|done]).
Qed.

(** All components but the last are walked. *)
Lemma walk_leaf_snoc leaf w self ps p :
  walk_leaf leaf self (ps ++ [p]) w =
  match walk w self ps with Ok d => leaf d p w | Err e => Done (w, Err e) end.
Proof.
  revert self. induction ps as [|q ps IH]; intros self; [done|].
  change ((q :: ps) ++ [p]) with (q :: (ps ++ [p])).
  destruct (ps ++ [p]) as [|r rs] eqn:Hps; [by destruct ps|].
  transitivity (match walk_step w self q with
                | Ok node => walk_leaf leaf node (r :: rs) w
                | Err e => Done (w, Err e)
                end); [done|].
  change (walk w self (q :: ps)) with (walk_step w self q ≫= λ node, walk w node ps).
  destruct (walk_step w self q) as [node|e]; [|done]. by rewrite IH.
Qed.

Lemma split_slash_snoc s : ∃ ps p, split_slash s = ps ++ [p].
Proof.
  destruct (split_slash_cons s) as (q & qs & Hs). rewrite Hs.
  destruct (exists_last (l := q :: qs)) as (ps & p & ->); [done|]. eauto.
Qed.

(** ** Paths of plain names *)

Lemma ramfs_entry_proper self par ch p :
  proper p → ramfs_entry alive self par ch p = ok_or NotFound (bt_get ch p).
Proof.
  intros (H1 & H2 & H3 & _). unfold ramfs_entry.
  rewrite (decide_False (P := p = [] ∨ _)) by tauto. by rewrite decide_False.
Qed.

Lemma walk_step_proper w self p node :
  proper p → walk_step w self p = Ok node ↔ entry w self p node.
Proof.
  intros Hp. unfold walk_step, entry. destruct (dir_at w self) as [[par ch]|] eqn:Hd; [|naive_solver].
  rewrite ramfs_entry_proper by done. destruct (bt_get ch p) as [c|] eqn:Hc; naive_solver.
Qed.

Lemma walk_proper_le w self ps a :
  store_ok w → Forall proper ps → walk w self ps = Ok a → ps = [] ∧ a = self ∨ self < a.
Proof.
  intros Hok Hps. revert self. induction Hps as [|p ps Hp Hps IH]; intros self; simpl.
  - intros [= ->]. by left.
  - destruct (walk_step w self p) as [node|] eqn:Hs; simpl; [|done]. intros Hw.
    apply walk_step_proper, (so_child _ Hok) in Hs as (_ & ? & _); [|done].
    destruct (IH _ Hw) as [[_ ->]|?]; right; lia.
Qed.

Lemma walk_snoc w self ps p a :
  walk w self (ps ++ [p]) = Ok a → ∃ d, walk w self ps = Ok d ∧ walk_step w d p = Ok a.
Proof.
  rewrite walk_app. destruct (walk w self ps) as [d|] eqn:Hd; simpl; [|done].
  destruct (walk_step w d p) as [x|] eqn:Hs; simpl; [|done]. intros [= ->]. eauto.
Qed.

(** A node has at most one path of plain names. *)
Lemma walk_unique w self ps qs a :
  store_ok w → Forall proper ps → Forall proper qs →
  walk w self ps = Ok a → walk w self qs = Ok a → ps = qs.
Proof.
  intros Hok Hps. revert qs a. induction ps as [|p ps IH] using rev_ind; intros qs a Hqs Hp Hq.
  - simpl in Hp. simplify_eq. destruct (walk_proper_le w a qs a) as [[-> _]|?]; [done..|lia].
  - apply Forall_app in Hps as [Hps Hpp]. rewrite Forall_singleton in Hpp.
    destruct qs as [|q qs _] using rev_ind.
    { simpl in Hq. simplify_eq.
      destruct (walk_proper_le w a (ps ++ [p]) a) as [[Hnil _]|?]; [done| |done| |lia].
      - apply Forall_app. by split; [|apply Forall_singleton].
      - by destruct ps. }
    apply Forall_app in Hqs as [Hqs Hqq]. rewrite Forall_singleton in Hqq.
    apply walk_snoc in Hp as (d & Hd & Hp). apply walk_snoc in Hq as (d' & Hd' & Hq).
    apply walk_step_proper in Hp; [|done]. apply walk_step_proper in Hq; [|done].
    destruct (so_unique _ Hok _ _ _ _ _ Hp Hq) as [<- <-]. by rewrite (IH Hps qs d).
Qed.

(** ** Canonical paths *)

Lemma proper_not_dots p : slash ∉ p → is_dots p = false → proper p.
Proof. intros Hs Hd%bool_decide_eq_false. unfold proper. tauto. Qed.

(** Walking arbitrary components ends where walking the normalized ones
    does. *)
Lemma walk_normalize w root ch comps parts cur a :
  store_ok w → dir_at w root = Some (None, ch) →
  Forall proper comps → walk w root comps = Ok cur →
  Forall (λ p, slash ∉ p) parts → walk w cur parts = Ok a →
  walk w root (foldl norm_part comps parts) = Ok a.
Proof.
  intros Hok Hd. revert comps cur. induction parts as [|p parts IH]; intros comps cur Hps Hcur Hsl; simpl.
  { by intros [= <-]. }
  apply Forall_cons in Hsl as [Hs Hsl].
  destruct (walk_step w cur p) as [node|] eqn:Hst; simpl; [|done].
  intros Hw. unfold norm_part.
  case_decide as H1; [|case_decide as H2].
  - apply (IH _ node); [done| |done|done]. rewrite Hcur. f_equal. symmetry.
    unfold walk_step in Hst. destruct (dir_at w cur) as [[par' ch']|]; [|done].
    unfold ramfs_entry in Hst. rewrite decide_True in Hst by done. congruence.
  - assert (walk_step w cur (lit "..") = Ok node) as Hst' by by rewrite <- H2. clear Hst.
    unfold walk_step in Hst'. destruct (dir_at w cur) as [[par' ch']|] eqn:Hdc; [|done].
    unfold ramfs_entry in Hst'. simpl in Hst'.
    destruct comps as [|c comps _] using rev_ind; [simpl in Hcur; by simplify_eq|].
    rewrite length_app, Nat.add_sub, take_app_length.
    apply Forall_app in Hps as [Hps Hpc]. rewrite Forall_singleton in Hpc.
    apply walk_snoc in Hcur as (d & Hcd & Hstep). apply walk_step_proper in Hstep; [|done].
    pose proof (so_up _ Hok _ _ _ _ _ Hstep Hdc) as ->.
    apply (IH _ node); [done| |done|done]. rewrite Hcd. simpl in Hst'.
    by destruct (alive d); simplify_eq.
  - assert (proper p) as Hp by (unfold proper; tauto).
    apply (IH _ node); [|by rewrite walk_app, Hcur; simpl; rewrite Hst|done|done].
    apply Forall_app. by split; [|apply Forall_singleton].
Qed.

(** ** Changes of the tree *)

Lemma lookup_set w a n a' :
  nodes (set_node a n w) !! a' = if decide (a = a') then Some n else nodes w !! a'.
Proof.
  simpl. case_decide; [subst; by rewrite lookup_insert_eq|by rewrite lookup_insert_ne].
Qed.

Lemma dir_at_set w a n a' :
  dir_at (set_node a n w) a' = if decide (a = a') then dir_of n else dir_at w a'.
Proof. unfold dir_at. rewrite lookup_set. by case_decide. Qed.

(** Changes that keep all directories: file contents. *)
Lemma store_ok_same w w' :
  (∀ a, dir_at w' a = dir_at w a) → (∀ a, fs_node w a → fs_node w' a) →
  (∀ a n, nodes w' !! a = Some n → a < next_node w') →
  (∀ a n, is_Some (dir_of n) → nodes w' !! a = Some n ↔ nodes w !! a = Some n) →
  store_ok w → store_ok w'.
Proof.
  intros Hd Hfs Hf Hn Hok.
  assert (∀ a p c, entry w' a p c ↔ entry w a p c) as He by (intros; unfold entry; by rewrite Hd).
  split; [done|..].
  - intros a par ch. rewrite Hd. apply (so_wf _ Hok).
  - intros a p c (? & ? & ?)%He%(so_child _ Hok). auto.
  - intros a par ch. rewrite !Hd. apply (so_parent _ Hok).
  - intros a p c a' p' H1%He H2%He. by eapply so_unique.
  - intros a p c par ch H1%He. rewrite Hd. by eapply so_up.
  - intros a par ch p c Ha Hc (par' & ch' & Hdev). apply Hn in Ha; [|done]. apply Hn in Hdev; [|done].
    eapply so_ram; [done..|]. by exists par', ch'.
Qed.

Lemma store_ok_content w a content content' :
  nodes w !! a = Some (RamFile content) → store_ok w → store_ok (set_node a (RamFile content') w).
Proof.
  intros Ha Hok. apply store_ok_same with w; [| | | |done].
  - intros a'. rewrite dir_at_set. case_decide; [|done]. subst. unfold dir_at. by rewrite Ha.
  - intros a' (n & Hn & Hr). unfold fs_node. rewrite lookup_set. case_decide; [|by eauto]. eauto.
  - intros a' n. rewrite lookup_set. case_decide; [|by apply (so_fresh _ Hok)]. intros _. subst.
    by eapply (so_fresh _ Hok).
  - intros a' n [x Hx]. rewrite lookup_set. case_decide; [|done]. subst.
    split; intros; simplify_eq.
Qed.

(** The two kinds of directories. *)
Definition is_kind (D : dir_kind) : Prop := D = RamDir ∨ D = DevDir.

Lemma dir_of_kind (D : dir_kind) par ch : is_kind D → dir_of (D par ch) = Some (par, ch).
Proof. by intros [->| ->]. Qed.

(** What [create_node] makes of the store, and adding a new node to a
    directory of devices. *)
Definition created (D : dir_kind) self par ch name n w : vfs :=
  set_node self (D par (bt_insert ch name (next_node w))) (new_node n w).2.

Lemma dir_at_created (D : dir_kind) self par ch name n w a :
  is_kind D → dir_at (created D self par ch name n w) a =
  if decide (self = a) then Some (par, bt_insert ch name (next_node w))
  else if decide (next_node w = a) then dir_of n else dir_at w a.
Proof.
  intros HD. unfold created. rewrite dir_at_set, dir_of_kind by done. case_decide; [done|].
  unfold dir_at. simpl.
  case_decide; [subst; by rewrite lookup_insert_eq|by rewrite lookup_insert_ne].
Qed.

Lemma lookup_created (D : dir_kind) self par ch name n w a :
  nodes (created D self par ch name n w) !! a =
  if decide (self = a) then Some (D par (bt_insert ch name (next_node w)))
  else if decide (next_node w = a) then Some n else nodes w !! a.
Proof.
  unfold created. rewrite lookup_set. case_decide; [done|]. simpl.
  case_decide; [subst; by rewrite lookup_insert_eq|by rewrite lookup_insert_ne].
Qed.

Lemma entry_lt w a p c : store_ok w → entry w a p c → a < c < next_node w.
Proof.
  intros Hok Hc. destruct (so_child _ Hok _ _ _ Hc) as (_ & ? & n & Hn & _).
  split; [done|]. by eapply so_fresh.
Qed.

Lemma dir_at_lt w a x : store_ok w → dir_at w a = Some x → a < next_node w.
Proof.
  unfold dir_at. intros Hok Hd. destruct (nodes w !! a) as [n|] eqn:Hn; [|done].
  by eapply so_fresh.
Qed.

(** A new node: one without entries, a directory being below [self]. *)
Definition fresh_node (D : dir_kind) self n : Prop :=
  is_root_dir n = false ∧ (dir_of n = None ∨ dir_of n = Some (Some self, [])) ∧
  (D = RamDir → ∀ par ch, n ≠ DevDir par ch).

Lemma entry_created w (D : dir_kind) self par ch name n a p c :
  store_ok w → is_kind D → dir_at w self = Some (par, ch) → bt_get ch name = None → fresh_node D self n →
  entry (created D self par ch name n w) a p c ↔
  entry w a p c ∨ a = self ∧ p = name ∧ c = next_node w.
Proof.
  clear alive. intros Hok HD Hd Hn Hf. pose proof (dir_at_lt _ _ _ Hok Hd) as Hlt.
  pose proof (so_wf _ Hok _ _ _ Hd) as Hwf. unfold entry at 1.
  setoid_rewrite dir_at_created; [|done]. case_decide as H1; [subst a|case_decide as H2].
  - destruct (decide (name = p)) as [->|Hne].
    + split.
      * intros (? & ? & [= <- <-] & Hc). rewrite bt_get_insert_eq in Hc. naive_solver.
      * intros [(? & ? & ? & ?)|(_ & _ & ->)]; [congruence|].
        eexists _, _. split; [done|]. by rewrite bt_get_insert_eq.
    + split.
      * intros (? & ? & [= <- <-] & Hc). rewrite bt_get_insert_ne in Hc by done. left.
        by exists par, ch.
      * intros [(par' & ch' & Hd' & Hc)|(_ & ? & _)]; [|congruence]. rewrite Hd in Hd'. simplify_eq.
        eexists _, _. split; [done|]. by rewrite bt_get_insert_ne.
  - subst a. split.
    + intros (? & ? & Hdn & Hc). destruct Hf as (_ & [Hf|Hf] & _); rewrite Hf in Hdn; by simplify_eq/=.
    + intros [(? & ? & Hd' & _)|(? & _)]; [|done]. apply (dir_at_lt _ _ _ Hok) in Hd'. lia.
  - unfold entry. naive_solver.
Qed.

Lemma fs_node_created w (D : dir_kind) self par ch name n a :
  store_ok w → is_kind D → dir_at w self = Some (par, ch) → fresh_node D self n →
  fs_node w a ∨ a = next_node w → fs_node (created D self par ch name n w) a.
Proof.
  intros Hok HD Hd Hf Ha. unfold fs_node. rewrite lookup_created.
  case_decide; [eexists; split; [done|]; by destruct HD as [->| ->]|].
  case_decide; [exists n; split; [done|]; apply Hf|]. destruct Ha; [done|congruence].
Qed.

Lemma created_ram w (D : dir_kind) self par ch name n a par' ch' p c :
  store_ok w → is_kind D → nodes w !! self = Some (D par ch) → fresh_node D self n →
  nodes (created D self par ch name n w) !! a = Some (RamDir par' ch') → bt_get ch' p = Some c →
  ¬ is_dev_dir (created D self par ch name n w) c.
Proof.
  intros Hok HD Hself Hf Ha Hc (par2 & ch2 & Hdev). rewrite lookup_created in Ha, Hdev.
  assert (self < next_node w) as Hlt by by eapply so_fresh.
  assert (nodes w !! a = Some (RamDir par' ch') → False) as Hold.
  { intros Ha'. assert (entry w a p c) as Hent by (exists par', ch'; split; [unfold dir_at; by rewrite Ha'|done]).
    pose proof (entry_lt _ _ _ _ Hok Hent). apply (so_ram _ Hok _ _ _ _ _ Ha' Hc).
    case_decide; [|case_decide; [lia|by exists par2, ch2]].
    subst c. exists par, ch. destruct HD as [->| ->]; by simplify_eq. }
  destruct (decide (self = a)) as [Ea|Ea];
    [subst a|destruct (decide (next_node w = a)) as [Eb|Eb]; [|by apply Hold]].
  - destruct HD as [->| ->]; simplify_eq. pose proof (so_wf _ Hok self par' ch) as Hwf.
    assert (bt_wf ch) as Hwf' by (apply Hwf; unfold dir_at; by rewrite Hself).
    destruct (decide (name = p)) as [->|].
    + rewrite bt_get_insert_eq in Hc. simplify_eq. rewrite decide_False, decide_True in Hdev by lia.
      destruct Hf as (_ & _ & Hf). by apply (Hf eq_refl par2 ch2); simplify_eq.
    + rewrite bt_get_insert_ne in Hc by done.
      assert (entry w self p c) as Hent by (exists par', ch; split; [unfold dir_at; by rewrite Hself|done]).
      pose proof (entry_lt _ _ _ _ Hok Hent). rewrite decide_False, decide_False in Hdev by lia.
      apply (so_ram _ Hok _ _ _ _ _ Hself Hc). by exists par2, ch2.
  - destruct Hf as (_ & [Hf|Hf] & _); simplify_eq/=.
Qed.

Lemma store_ok_created w (D : dir_kind) self par ch name n :
  store_ok w → is_kind D → nodes w !! self = Some (D par ch) → bt_get ch name = None → proper name →
  fresh_node D self n → store_ok (created D self par ch name n w).
Proof.
  intros Hok HD Hself Hn Hp Hf.
  assert (dir_at w self = Some (par, ch)) as Hd by (unfold dir_at; rewrite Hself; by apply dir_of_kind).
  pose proof (dir_at_lt _ _ _ Hok Hd) as Hlt.
  pose proof (λ a p c, entry_created w D self par ch name n a p c Hok HD Hd Hn Hf) as He.
  split.
  - intros a m. rewrite lookup_created. simpl. case_decide; [subst; lia|]. case_decide; [lia|].
    intros Ha%(so_fresh _ Hok). lia.
  - intros a par' ch'. rewrite dir_at_created by done. case_decide; [|case_decide].
    + intros [= <- <-]. apply bt_insert_wf. by eapply so_wf.
    + destruct Hf as (_ & [->| ->] & _); intros [= <- <-]. constructor.
    + by apply (so_wf _ Hok).
  - intros a p c [Hc|(-> & -> & ->)]%He.
    + destruct (so_child _ Hok _ _ _ Hc) as (? & ? & ?). split_and!; [done..|].
      apply fs_node_created; auto.
    + split_and!; [done|lia|]. apply fs_node_created; auto.
  - assert (∀ q, is_Some (dir_at w q) → is_Some (dir_at (created D self par ch name n w) q)) as Hdir.
    { intros q [x Hq]. rewrite dir_at_created by done. case_decide; [eauto|]. case_decide; [|by eauto].
      subst. apply (dir_at_lt _ _ _ Hok) in Hq. lia. }
    intros a par' ch'. rewrite dir_at_created by done. case_decide; [|case_decide].
    + intros [= -> <-]. apply Hdir. by eapply so_parent.
    + destruct Hf as (_ & [->| ->] & _); intros [= <- <-]. apply Hdir. eauto.
    + intros Ha. apply Hdir. by eapply so_parent.
  - intros a p c a' p' [Hc|(-> & -> & ->)]%He [Hc'|(-> & -> & ?)]%He; subst; try done.
    + by eapply so_unique.
    + apply (entry_lt _ _ _ _ Hok) in Hc. lia.
    + apply (entry_lt _ _ _ _ Hok) in Hc'. lia.
  - intros a p c par' ch' Hc. rewrite dir_at_created by done. apply He in Hc.
    destruct Hc as [Hc|(-> & -> & ->)].
    + pose proof (entry_lt _ _ _ _ Hok Hc). case_decide; [|case_decide; [lia|by eapply so_up]].
      intros [= <- <-]. subst. by eapply so_up.
    + rewrite decide_False, decide_True by lia. destruct Hf as (_ & [->| ->] & _); by intros [= <- <-].
  - intros a par' ch' p c Ha Hc. by eapply created_ram.
Qed.

(** What [remove_node] makes of the store. *)
Definition removed self par ch name w : vfs := set_node self (RamDir par (bt_remove ch name)) w.

Lemma entry_removed w self par ch name a p c :
  store_ok w → dir_at w self = Some (par, ch) →
  entry (removed self par ch name w) a p c ↔ entry w a p c ∧ ¬ (a = self ∧ p = name).
Proof.
  clear alive. intros Hok Hd. pose proof (so_wf _ Hok _ _ _ Hd) as Hwf.
  unfold removed. unfold entry at 1.
  setoid_rewrite dir_at_set. case_decide as H1; [subst a; simpl|unfold entry; naive_solver].
  destruct (decide (name = p)) as [->|Hne].
  - split; [|naive_solver]. intros (? & ? & [= <- <-] & Hc). by rewrite bt_get_remove_eq in Hc.
  - split.
    + intros (? & ? & [= <- <-] & Hc). rewrite bt_get_remove_ne in Hc by done.
      split; [by exists par, ch|naive_solver].
    + intros [(par' & ch' & Hd' & Hc) _]. rewrite Hd in Hd'. simplify_eq.
      eexists _, _. split; [done|]. by rewrite bt_get_remove_ne.
Qed.

Lemma store_ok_removed w self par ch name :
  store_ok w → nodes w !! self = Some (RamDir par ch) → store_ok (removed self par ch name w).
Proof.
  intros Hok Hself.
  assert (dir_at w self = Some (par, ch)) as Hd by (unfold dir_at; by rewrite Hself).
  pose proof (λ a p c, entry_removed w self par ch name a p c Hok Hd) as He.
  assert (∀ a par' ch', dir_at (removed self par ch name w) a = Some (par', ch') →
    ∃ ch0, dir_at w a = Some (par', ch0) ∧ (bt_wf ch0 → bt_wf ch')) as Hda.
  { intros a par' ch'. unfold removed. rewrite dir_at_set. case_decide; [|by eauto].
    intros [= <- <-]. subst. eexists. split; [done|]. apply bt_remove_wf. }
  assert (∀ a, fs_node w a → fs_node (removed self par ch name w) a) as Hfs.
  { intros a (n & Hn & Hr). unfold fs_node, removed. rewrite lookup_set. case_decide; eauto. }
  split.
  - intros a n. unfold removed. rewrite lookup_set. simpl. case_decide; [|by apply (so_fresh _ Hok)].
    intros _. subst. by eapply dir_at_lt.
  - intros a par' ch' (ch0 & Ha & Hwf)%Hda. apply Hwf. by eapply so_wf.
  - intros a p c [(? & ? & ?)%(so_child _ Hok) _]%He. auto.
  - intros a par' ch' (ch0 & Ha & _)%Hda. destruct (so_parent _ Hok _ _ _ Ha) as [x Hx].
    unfold removed. rewrite dir_at_set. case_decide; eauto.
  - intros a p c a' p' [H1 _]%He [H2 _]%He. by eapply so_unique.
  - intros a p c par' ch' [H1 _]%He (ch0 & Hc & _)%Hda. by eapply so_up.
  - intros a par' ch' p c Ha Hc (par2 & ch2 & Hdev). unfold removed in Ha, Hdev.
    rewrite lookup_set in Ha, Hdev. case_decide; [done|].
    assert (is_dev_dir w c) as Hdc by by exists par2, ch2.
    case_decide; [subst a; simplify_eq|by eapply so_ram].
    destruct (decide (name = p)) as [->|];
      [by rewrite bt_get_remove_eq in Hc by by eapply so_wf|].
    rewrite bt_get_remove_ne in Hc by (done || by eapply so_wf). by eapply so_ram.
Qed.

(** ** Lookups after a change *)

Lemma walk_step_created w self par ch name n d p x :
  store_ok w → dir_at w self = Some (par, ch) → bt_get ch name = None →
  walk_step w d p = Ok x → walk_step (created RamDir self par ch name n w) d p = Ok x.
Proof.
  intros Hok Hd Hn. unfold walk_step. rewrite dir_at_created by by left.
  destruct (dir_at w d) as [[par' ch']|] eqn:Hdd; [|done].
  pose proof (dir_at_lt _ _ _ Hok Hdd). case_decide; [subst d|by rewrite decide_False by lia].
  rewrite Hd in Hdd. simplify_eq. unfold ramfs_entry. repeat case_decide; try done.
  intros Hx. rewrite bt_get_insert_ne; [done|by eapply so_wf|]. intros ->. by rewrite Hn in Hx.
Qed.

Lemma walk_created w self par ch name n s parts x :
  store_ok w → dir_at w self = Some (par, ch) → bt_get ch name = None →
  walk w s parts = Ok x → walk (created RamDir self par ch name n w) s parts = Ok x.
Proof.
  intros Hok Hd Hn. revert s. induction parts as [|p parts IH]; intros s; simpl; [done|].
  destruct (walk_step w s p) as [d|] eqn:Hs; simpl; [|done].
  rewrite (walk_step_created _ _ _ _ _ n _ _ _ Hok Hd Hn Hs). simpl. apply IH.
Qed.

Lemma walk_step_removed w self par ch name d p :
  store_ok w → dir_at w self = Some (par, ch) →
  walk_step (removed self par ch name w) d p = walk_step w d p ∨
  walk_step (removed self par ch name w) d p = Err NotFound.
Proof.
  intros Hok Hd. unfold walk_step, removed. rewrite dir_at_set. case_decide; [subst d|by left].
  rewrite Hd. simpl. unfold ramfs_entry. repeat case_decide; [by left..|].
  pose proof (so_wf _ Hok _ _ _ Hd). destruct (decide (name = p)) as [->|].
  - right. by rewrite bt_get_remove_eq.
  - left. by rewrite bt_get_remove_ne.
Qed.

Lemma walk_removed w self par ch name s parts :
  store_ok w → dir_at w self = Some (par, ch) →
  walk (removed self par ch name w) s parts = walk w s parts ∨
  walk (removed self par ch name w) s parts = Err NotFound.
Proof.
  intros Hok Hd. revert s. induction parts as [|p parts IH]; intros s; simpl; [by left|].
  destruct (walk_step_removed w self par ch name s p Hok Hd) as [->| ->]; [|by right].
  destruct (walk_step w s p); simpl; [apply IH|by left].
Qed.

(** Paths of plain names to other nodes are kept. *)
Lemma walk_removed_proper w self par ch name c s parts a :
  store_ok w → dir_at w self = Some (par, ch) → bt_get ch name = Some c →
  (∀ p x, ¬ entry w c p x) → Forall proper parts → a ≠ c →
  walk w s parts = Ok a → walk (removed self par ch name w) s parts = Ok a.
Proof.
  intros Hok Hd Hc Hleaf Hps. revert a.
  induction parts as [|p parts IH] using rev_ind; intros a Hne Hw; [done|].
  apply Forall_app in Hps as [Hps Hp]. rewrite Forall_singleton in Hp.
  apply walk_snoc in Hw as (d & Hwd & Hst). rewrite walk_app.
  apply walk_step_proper in Hst; [|done].
  rewrite (IH Hps d); [|by intros ->; eapply Hleaf|done]. simpl.
  assert (walk_step (removed self par ch name w) d p = Ok a) as ->; [|done].
  apply walk_step_proper; [done|]. apply entry_removed; [done..|]. split; [done|].
  intros [-> ->]. destruct Hst as (par' & ch' & Hd' & Hc'). naive_solver.
Qed.

(** ** The calls *)

(** Fuel for a path: one unit more than its length. *)
Definition lookup_path w root path : outcome (result AxError Z) :=
  node_lookup alive (S (length path)) w root path.
Definition create_path root path ty : stm vfs AxError unit :=
  node_create alive (S (length path)) root path ty.
Definition remove_path root path : stm vfs AxError unit :=
  node_remove alive (S (length path)) root path.

Lemma lookup_path_walk w root path :
  store_ok w → fs_node w root → lookup_path w root path = Done (walk w root (split_slash path)).
Proof. intros. apply node_lookup_walk; [done..|lia]. Qed.

Lemma walk_err w root parts e :
  walk w root parts = Err e → e = NotFound ∨ e = NotADirectory.
Proof.
  revert root. induction parts as [|q parts IH]; intros root; simpl; [done|].
  unfold walk_step, ramfs_entry. destruct (dir_at w root) as [[par ch]|]; [|naive_solver].
  repeat case_decide; simpl; [by apply IH|..]; [destruct (upgrade _ _)|destruct (bt_get _ _)];
    simpl; first [by apply IH | naive_solver].
Qed.

(** The node [create] makes for a type. *)
Definition made self ty : option vnode :=
  match ty with File => Some (RamFile []) | Dir => Some (RamDir (Some self) []) | _ => None end.

Lemma made_fresh self ty n : made self ty = Some n → fresh_node RamDir self n.
Proof.
  destruct ty; simpl; intros; simplify_eq; (split; [done|]); (split; [|done]); [by right|by left].
Qed.

Lemma create_leaf_spec w d p ty :
  store_ok w → fs_node w d → slash ∉ p →
  ∃ w' r, create_leaf ty d p w = Done (w', r) ∧ store_ok w' ∧
    match r with
    | Err e => w' = w ∧ (e = AlreadyExists → ∃ c, entry w d p c ∧ proper p)
    | Ok _ =>
        w' = w ∧ is_dots p = true ∨
        ∃ par ch n, w' = created RamDir d par ch p n w ∧ dir_at w d = Some (par, ch) ∧
          bt_get ch p = None ∧ proper p ∧ made d ty = Some n
    end.
Proof.
  intros Hok (n & Hn & Hr) Hs. unfold create_leaf. rewrite Hn.
  destruct n as [par ch| |par ch| | |]; try (by eexists _, _; split; [done|]).
  2: { eexists _, _. split; [done|]. split; [done|]. destruct (is_dots p); [by left|done]. }
  assert (dir_at w d = Some (par, ch)) as Hd by (unfold dir_at; by rewrite Hn).
  destruct (is_dots p) eqn:Hdots; [by eexists _, _; split; [done|]; split; [done|]; left|].
  pose proof (proper_not_dots p Hs Hdots) as Hp. unfold create_node. case_decide as Hc.
  { eexists _, _. split; [done|]. split; [done|]. split; [done|]. intros _.
    destruct (bt_get ch p) as [c|] eqn:Hg; [|done]. exists c. split; [|done]. by exists par, ch. }
  destruct (bt_get ch p) eqn:Hg; [done|]. fold (made d ty).
  destruct (made d ty) as [m|] eqn:Hm; [|by eexists _, _; split; [done|]].
  eexists _, _. split; [done|]. fold (created RamDir d par ch p m w). split.
  - apply store_ok_created; [done|by left|done..|]. by eapply made_fresh.
  - right. exists par, ch, m. done.
Qed.


Lemma remove_leaf_spec w d p :
  store_ok w → fs_node w d → slash ∉ p →
  ∃ w' r, remove_leaf d p w = Done (w', r) ∧ store_ok w' ∧
    match r with
    | Err e =>
        w' = w ∧ (e = DirectoryNotEmpty → ∃ c p' x, entry w d p c ∧ proper p ∧ entry w c p' x)
    | Ok _ =>
        ∃ par ch c, w' = removed d par ch p w ∧ dir_at w d = Some (par, ch) ∧
          bt_get ch p = Some c ∧ proper p ∧
          (∀ p' x, ¬ entry w c p' x)
    end.
Proof.
  intros Hok (n & Hn & Hr) Hs. unfold remove_leaf. rewrite Hn.
  destruct n as [par ch| |par ch| | |]; try (by eexists _, _; split; [done|]).
  assert (dir_at w d = Some (par, ch)) as Hd by (unfold dir_at; by rewrite Hn).
  destruct (is_dots p) eqn:Hdots; [by eexists _, _; split; [done|]|].
  pose proof (proper_not_dots p Hs Hdots) as Hp. unfold remove_node.
  destruct (bt_get ch p) as [c|] eqn:Hg; [|by eexists _, _; split; [done|]].
  assert (entry w d p c) as Hent by (by exists par, ch).
  assert (∀ x : stm vfs AxError unit, x w = Done (removed d par ch p w, Ok tt) →
    (∀ p' x, ¬ entry w c p' x) →
    ∃ w' r, x w = Done (w', r) ∧ store_ok w' ∧
      match r with
      | Err e =>
          w' = w ∧ (e = DirectoryNotEmpty → ∃ c p' x, entry w d p c ∧ proper p ∧ entry w c p' x)
      | Ok _ => ∃ par ch c, w' = removed d par ch p w ∧ dir_at w d = Some (par, ch) ∧
          bt_get ch p = Some c ∧ proper p ∧
          (∀ p' x, ¬ entry w c p' x)
      end) as Hdone.
  { intros x Hx Hempty. exists (removed d par ch p w), (Ok tt). split; [done|].
    split; [by apply store_ok_removed|]. exists par, ch, c. done. }
  destruct (nodes w !! c) as [[par' [|[p' x] ch']| | | | |]|] eqn:Hnc;
    try (apply (Hdone (λ w, Done (removed d par ch p w, Ok tt))); [done|];
         intros p0 x0 (par0 & ch0 & Hd0 & Hc0); unfold dir_at in Hd0; rewrite Hnc in Hd0;
         simplify_eq/=; done).
  2: { destruct (so_ram _ Hok _ _ _ _ _ Hn Hg). by eexists _, _. }
  exists w, (Err DirectoryNotEmpty). split; [done|]. split; [done|]. split; [done|]. intros _.
  exists c, p', x. split; [done|]. split; [done|]. exists par', ((p', x) :: ch').
  split; [unfold dir_at; by rewrite Hnc|]. simpl. by rewrite key_irrefl.
Qed.

(** [remove] completes for every path and every store that is a tree, and
    keeps it one.  Success means that a file or an empty directory was found
    under the path, and that [lookup] finds nothing there any more while every
    other node keeps its path of plain names; after an error nothing has
    changed, and [DirectoryNotEmpty] means that the directory found there has
    an entry. *)
Theorem remove_deletes_leaf w root path :
  store_ok w → fs_node w root →
  ∃ w' r, remove_path root path w = Done (w', r) ∧ store_ok w' ∧
    match r with
    | Err e =>
        w' = w ∧
        (e = DirectoryNotEmpty → ∃ c p x, lookup_path w root path = Done (Ok c) ∧ entry w c p x)
    | Ok _ =>
        ∃ c, lookup_path w root path = Done (Ok c) ∧ (∀ p x, ¬ entry w c p x) ∧
          lookup_path w' root path = Done (Err NotFound) ∧
          ∀ q a, Forall proper (split_slash q) → a ≠ c →
            lookup_path w root q = Done (Ok a) → lookup_path w' root q = Done (Ok a)
    end.
Proof.
  intros Hok Hroot. unfold remove_path. rewrite node_remove_walk by (done || lia).
  destruct (split_slash_snoc path) as (ps & p & Hsp). rewrite Hsp, walk_leaf_snoc.
  assert (slash ∉ p) as Hs by (apply (split_slash_no_slash path); rewrite Hsp; set_solver).
  destruct (walk w root ps) as [d|e] eqn:Hwd.
  2: { exists w, (Err e). split; [done|]. split; [done|]. split; [done|].
       intros ->. by destruct (walk_err _ _ _ _ Hwd). }
  pose proof (walk_ok _ _ _ _ Hok Hroot Hwd) as Hd.
  destruct (remove_leaf_spec w d p Hok Hd Hs) as (w' & r & -> & Hok' & Hr).
  assert (∀ c, entry w d p c → proper p → lookup_path w root path = Done (Ok c)) as Hlk.
  { intros c Hc Hp. rewrite lookup_path_walk, Hsp, walk_app, Hwd by done. simpl.
    by rewrite (proj2 (walk_step_proper w d p c Hp) Hc). }
  exists w', r. split; [done|]. split; [done|]. destruct r as [[]|e].
  - destruct Hr as (par & ch & c & -> & Hda & Hg & Hp & Hleaf).
    assert (fs_node (removed d par ch p w) root) as Hroot'.
    { destruct Hroot as (n & Hn & Hr). unfold fs_node, removed. rewrite lookup_set.
      case_decide; eauto. }
    exists c. split; [apply Hlk; [by exists par, ch|done]|]. split; [done|]. split.
    + rewrite lookup_path_walk, Hsp, walk_app by done. f_equal.
      destruct (walk_removed w d par ch p root ps Hok Hda) as [->| ->]; [|done].
      rewrite Hwd. simpl. unfold walk_step, removed. rewrite dir_at_set, decide_True by done. simpl.
      by rewrite ramfs_entry_proper, bt_get_remove_eq by (done || exact (so_wf _ Hok _ _ _ Hda)).
    + intros q a Hq Hne. rewrite !lookup_path_walk by done. intros [= Hw]. f_equal.
      by eapply walk_removed_proper.
  - destruct Hr as [-> He]. split; [done|]. intros ->.
    destruct (He eq_refl) as (c & p' & x & Hc & Hp & Hx). exists c, p', x. split; [|done].
    by apply Hlk.
Qed.


End vfs_spec.

(** ** All operations keep the tree *)

Section vfs_histories.
Implicit Types (w : vfs) (a c : Z) (p : str).

(** A node added to the store at an address nobody knows yet. *)
Lemma store_ok_new w n :
  store_ok w → dir_of n = None ∨ dir_of n = Some (None, []) → store_ok (new_node n w).2.
Proof.
  intros Hok Hn. set (w' := (new_node n w).2).
  assert (next_node w' = next_node w + 1) as Hnext by done.
  assert (∀ a, nodes w' !! a = if decide (next_node w = a) then Some n else nodes w !! a) as Hlk.
  { intros a. simpl. case_decide; [subst; by rewrite lookup_insert_eq|by rewrite lookup_insert_ne]. }
  clearbody w'.
  assert (∀ a, dir_at w' a = if decide (next_node w = a) then dir_of n else dir_at w a) as Hda.
  { intros a. unfold dir_at. rewrite Hlk. by case_decide. }
  assert (∀ a x, dir_at w a = Some x → dir_at w' a = Some x) as Hkeep.
  { intros a x Hx. rewrite Hda, decide_False; [done|]. apply (dir_at_lt _ _ _ Hok) in Hx. lia. }
  assert (∀ a par ch, dir_at w' a = Some (par, ch) →
    dir_at w a = Some (par, ch) ∨ par = None ∧ ch = []) as Hdc.
  { intros a par ch. rewrite Hda. case_decide; [|by left]. destruct Hn as [->| ->]; [done|].
    intros [= <- <-]. by right. }
  assert (∀ a p c, entry w' a p c → entry w a p c) as He.
  { intros a p c (par & ch & [Hd|[_ ->]]%Hdc & Hc); [by exists par, ch|done]. }
  assert (∀ a m, nodes w !! a = Some m → nodes w' !! a = Some m) as Hkn.
  { intros a m Hm. rewrite Hlk, decide_False; [done|]. apply (so_fresh _ Hok) in Hm. lia. }
  split.
  - intros a m. rewrite Hlk, Hnext. case_decide; [lia|]. intros ?%(so_fresh _ Hok). lia.
  - intros a par ch [Hd|[_ ->]]%Hdc; [by eapply so_wf|constructor].
  - intros a p c Hc%He. destruct (so_child _ Hok _ _ _ Hc) as (? & ? & m & Hm & Hr).
    split_and!; [done..|]. exists m. auto.
  - intros a par ch [Hd|[? _]]%Hdc; [|done]. destruct (so_parent _ Hok _ _ _ Hd) as [x Hx]. eauto.
  - intros a p c a' p' H1%He H2%He. by eapply so_unique.
  - intros a p c par ch Hc%He Hd. apply (so_up _ Hok _ _ _ par ch Hc). rewrite Hda in Hd.
    apply (entry_lt _ _ _ _ Hok) in Hc. by rewrite decide_False in Hd by lia.
  - intros a par ch p c Ha Hc (par' & ch' & Hdev).
    assert (entry w a p c) as Hent.
    { apply He. exists par, ch. split; [unfold dir_at; by rewrite Ha|done]. }
    pose proof (entry_lt _ _ _ _ Hok Hent). rewrite Hlk in Ha, Hdev.
    rewrite decide_False in Ha by lia. rewrite decide_False in Hdev by lia. eapply so_ram; [done..|]. by exists par', ch'.
Qed.

(** Mounting sets the parent of a root directory, which is in no other
    directory. *)
Lemma store_ok_set_parent w root par :
  store_ok w → (∀ a p, ¬ entry w a p root) → (∀ q, par = Some q → is_Some (dir_at w q)) →
  store_ok (set_parent root par w).
Proof.
  intros Hok Hroot Hpar. unfold set_parent.
  assert (∀ (D : dir_kind) par0 ch, is_kind D → nodes w !! root = Some (D par0 ch) →
    store_ok (set_node root (D par ch) w)) as Hset.
  { intros D par0 ch HD Hn. set (w' := set_node root (D par ch) w).
    assert (dir_at w root = Some (par0, ch)) as Hd by (unfold dir_at; rewrite Hn; by apply dir_of_kind).
    assert (∀ a, dir_at w' a = if decide (root = a) then Some (par, ch) else dir_at w a) as Hda
      by (intros a; unfold w'; by rewrite dir_at_set, dir_of_kind).
    assert (∀ a p c, entry w' a p c ↔ entry w a p c) as He.
    { intros a p c. unfold entry. setoid_rewrite Hda. case_decide; [subst|done]. rewrite Hd. naive_solver. }
    assert (∀ a m, nodes w' !! a = Some m → a ≠ root → nodes w !! a = Some m) as Hlk.
    { intros a m. unfold w'. rewrite lookup_set. by case_decide. }
    assert (∀ a, fs_node w a → fs_node w' a) as Hfs.
    { intros a (m & Hm & Hr). unfold fs_node, w'. rewrite lookup_set. case_decide; [|by eauto].
      eexists. split; [done|]. by destruct HD as [->| ->]. }
    split.
    - intros a m Hm. destruct (decide (a = root)) as [->|]; [by apply (so_fresh _ Hok _ _ Hn)|].
      eapply (so_fresh _ Hok), Hlk; done.
    - intros a par' ch'. rewrite Hda. case_decide; [intros [= <- <-]|]; by eapply so_wf.
    - intros a p c (? & ? & ?)%He%(so_child _ Hok). auto.
    - intros a par' ch' Ha. assert (is_Some (dir_at w par')) as [x Hx].
      { rewrite Hda in Ha. case_decide; [simplify_eq; by apply Hpar|by eapply so_parent]. }
      rewrite Hda. case_decide; eauto.
    - intros a p c a' p' H1%He H2%He. by eapply so_unique.
    - intros a p c par' ch' Hc%He. rewrite Hda. case_decide; [subst; by destruct (Hroot a p)|].
      by eapply so_up.
    - intros a par' ch' p c Ha Hc (par2 & ch2 & Hdev).
      assert (entry w a p c) as Hent.
      { apply He. exists par', ch'. split; [unfold dir_at; by rewrite Ha|done]. }
      assert (c ≠ root) by (intros ->; by destruct (Hroot a p)). apply Hlk in Hdev; [|done].
      destruct (decide (a = root)) as [->|].
      + unfold w' in Ha. rewrite lookup_set, decide_True in Ha by done.
        destruct HD as [->| ->]; simplify_eq. eapply so_ram; [done..|]. by exists par2, ch2.
      + apply Hlk in Ha; [|done]. eapply so_ram; [done..|]. by exists par2, ch2. }
  destruct (nodes w !! root) as [[par0 ch| |par0 ch| | |]|] eqn:Hn; try done.
  - apply (Hset RamDir par0 ch); [by left|done].
  - apply (Hset DevDir par0 ch); [by right|done].
Qed.

(** A step of the file systems: [alive] is different at every step, since
    nodes are dropped in between. *)
Inductive vfs_step : vfs → vfs → Prop :=
| vs_ramfs w : vfs_step w (ramfs_new w).2
| vs_devfs w : vfs_step w (devfs_new w).2
| vs_root w main_fs mounts : vfs_step w (new_node (RootDirectory main_fs mounts) w).2
| vs_mkdir w self name par ch :
    nodes w !! self = Some (DevDir par ch) → proper name → bt_get ch name = None →
    vfs_step w (devfs_mkdir self name w).2
| vs_add w self name par ch dev :
    nodes w !! self = Some (DevDir par ch) → proper name → bt_get ch name = None →
    dev = NullDev ∨ dev = ZeroDev →
    vfs_step w (devfs_add self name (next_node w) (new_node dev w).2)
| vs_mount w alive root mount_point :
    (∀ a p, ¬ entry w a p root) → vfs_step w (fs_mount alive root mount_point w)
| vs_create w alive root path ty w' r :
    fs_node w root → create_path alive root path ty w = Done (w', r) → vfs_step w w'
| vs_remove w alive root path w' r :
    fs_node w root → remove_path alive root path w = Done (w', r) → vfs_step w w'
| vs_write w self offset buf w' r :
    node_write_at self offset buf w = Done (w', r) → vfs_step w w'
| vs_truncate w self size w' r :
    node_truncate self size w = Done (w', r) → vfs_step w w'.

Lemma dev_add_created w self par ch name n :
  store_ok w → nodes w !! self = Some (DevDir par ch) →
  devfs_add self name (next_node w) (new_node n w).2 = created DevDir self par ch name n w.
Proof.
  intros Hok Hn. unfold devfs_add. simpl.
  rewrite lookup_insert_ne by (apply (so_fresh _ Hok) in Hn; lia). by rewrite Hn.
Qed.

Lemma create_path_ok alive w root path ty w' r :
  store_ok w → fs_node w root → create_path alive root path ty w = Done (w', r) → store_ok w'.
Proof.
  intros Hok Hroot. unfold create_path. rewrite node_create_walk by (done || lia).
  destruct (split_slash_snoc path) as (ps & p & Hsp). rewrite Hsp, walk_leaf_snoc.
  destruct (walk alive w root ps) as [d|e] eqn:Hwd; [|by intros [= <- <-]].
  destruct (create_leaf_spec w d p ty Hok) as (w2 & r2 & -> & Hok2 & _); [by eapply walk_ok| |].
  - apply (split_slash_no_slash path). rewrite Hsp. set_solver.
  - by intros [= <- <-].
Qed.

Lemma remove_path_ok alive w root path w' r :
  store_ok w → fs_node w root → remove_path alive root path w = Done (w', r) → store_ok w'.
Proof.
  intros Hok Hroot. unfold remove_path. rewrite node_remove_walk by (done || lia).
  destruct (split_slash_snoc path) as (ps & p & Hsp). rewrite Hsp, walk_leaf_snoc.
  destruct (walk alive w root ps) as [d|e] eqn:Hwd; [|by intros [= <- <-]].
  destruct (remove_leaf_spec w d p Hok) as (w2 & r2 & -> & Hok2 & _); [by eapply walk_ok| |].
  - apply (split_slash_no_slash path). rewrite Hsp. set_solver.
  - by intros [= <- <-].
Qed.

Lemma node_write_at_ok w self offset buf w' r :
  store_ok w → node_write_at self offset buf w = Done (w', r) → store_ok w'.
Proof.
  intros Hok. unfold node_write_at. destruct (nodes w !! self) as [[]|] eqn:Hn; try (by intros [= <- <-]).
  destruct (file_write_at _ _ _); [|done]. intros [= <- <-]. by eapply store_ok_content.
Qed.

Lemma node_truncate_ok w self size w' r :
  store_ok w → node_truncate self size w = Done (w', r) → store_ok w'.
Proof.
  intros Hok. unfold node_truncate. destruct (nodes w !! self) as [[]|] eqn:Hn; try (by intros [= <- <-]).
  destruct (file_truncate _ _); [|done]. intros [= <- <-]. by eapply store_ok_content.
Qed.

Lemma dev_not_ram : DevDir = RamDir → False.
Proof. intros Heq. by apply (f_equal (λ D : dir_kind, D None [])) in Heq. Qed.

Lemma vfs_step_ok w w' : vfs_step w w' → store_ok w → store_ok w'.
Proof.
  destruct 1 as [w|w|w m ms|w self name par ch Hn Hp Hg|w self name par ch dev Hn Hp Hg Hdev
    |w alive root mp Hroot|w alive root path ty w' r Hroot Hrun|w alive root path w' r Hroot Hrun
    |w self off buf w' r Hrun|w self sz w' r Hrun]; intros Hok.
  - apply store_ok_new; [done|by right].
  - apply store_ok_new; [done|by right].
  - apply store_ok_new; [done|by left].
  - unfold devfs_mkdir. simpl.
    change (store_ok (devfs_add self name (next_node w) (new_node (DevDir (Some self) []) w).2)).
    rewrite (dev_add_created w self par ch) by done.
    apply store_ok_created; [done|by right|done..|]. split_and!; [done|by right|by intros ?%dev_not_ram].
  - rewrite (dev_add_created w self par ch) by done.
    apply store_ok_created; [done|by right|done..|].
    destruct Hdev as [->| ->]; (split_and!; [done|by left|done]).
  - apply store_ok_set_parent; [done..|]. unfold node_parent, upgrade. intros q.
    destruct (nodes w !! mp) as [n|] eqn:Hn; [|done].
    destruct n as [[par|] ch| |[par|] ch| | |]; try done; (destruct (alive par); [|done]);
      intros [= <-]; (eapply so_parent; [done|]); unfold dir_at; by rewrite Hn.
  - by eapply create_path_ok.
  - by eapply remove_path_ok.
  - by eapply node_write_at_ok.
  - by eapply node_truncate_ok.
Qed.

Definition vfs_empty : vfs := {| nodes := ∅; next_node := 1 |}.

Lemma vfs_empty_ok : store_ok vfs_empty.
Proof.
  assert (∀ a, dir_at vfs_empty a = None) as Hd by done.
  split; unfold entry; intros; rewrite ?Hd in *; naive_solver.
Qed.

Lemma vfs_steps_ok w w' : rtc vfs_step w w' → store_ok w → store_ok w'.
Proof. induction 1; [done|]. intros. by eapply IHrtc, vfs_step_ok. Qed.

End vfs_histories.

(** C21: whatever sequence of operations has built the file systems, from any
    calls of [create] and [remove] on any path, mounts, devices and writes:
    [lookup] completes on every path without a panic and finds nodes only;
    every entry has a proper name; a directory's parent pointer names the one
    directory it is an entry of; and every node has at most one path of plain
    names from any directory, so the nodes form trees. *)
Theorem vfs_stays_a_tree w :
  rtc vfs_step vfs_empty w →
  (∀ alive root path, fs_node w root →
     ∃ r, lookup_path alive w root path = Done r ∧ ∀ a, r = Ok a → fs_node w a) ∧
  (∀ a p c, entry w a p c →
     proper p ∧ ∀ par ch, dir_at w c = Some (par, ch) → par = Some a) ∧
  (∀ alive root ps qs a, Forall proper ps → Forall proper qs →
     walk alive w root ps = Ok a → walk alive w root qs = Ok a → ps = qs).
Proof.
  intros Hsteps. assert (store_ok w) as Hok by (eapply vfs_steps_ok; [done|apply vfs_empty_ok]).
  split_and!.
  - intros alive root path Hroot. eexists. split; [by apply lookup_path_walk|].
    intros a. by apply walk_ok.
  - intros a p c Hc. split; [by eapply so_child|]. intros par ch Hd. by apply (so_up _ Hok a p c par ch).
  - intros alive root ps qs a. by apply walk_unique.
Qed.

(** ** File contents *)

Section contents.
Implicit Types (content buf : list Z) (offset len : Z).

Lemma slice_ok content start fin :
  0 ≤ start ≤ fin → fin ≤ Z.of_nat (length content) →
  slice content start fin = Done (take (Z.to_nat (fin - start)) (drop (Z.to_nat start) content)).
Proof. intros. unfold slice. by rewrite !(proj2 (Z.leb_le _ _)) by lia. Qed.

Lemma resize_lookup content n i :
  0 ≤ n → Z.of_nat (length content) ≤ n →
  (take (Z.to_nat n) content ++ replicate (Z.to_nat n - length content) 0) !! i =
  if decide (i < length content)%nat then content !! i
  else if decide (Z.of_nat i < n) then Some 0 else None.
Proof.
  intros. rewrite take_ge by lia. case_decide; [by rewrite lookup_app_l|].
  rewrite lookup_app_r by lia. case_decide; [|apply lookup_ge_None_2; rewrite length_replicate; lia].
  apply lookup_replicate_2. lia.
Qed.

(** The content after a write: [buf] at [offset], the old bytes elsewhere, and
    zeroes in a gap. *)
Lemma file_write_at_spec content offset buf :
  0 ≤ offset → offset + Z.of_nat (length buf) < 2 ^ 63 →
  ∃ content', file_write_at content offset buf = Done content' ∧
    Z.of_nat (length content') =
      Z.max (Z.of_nat (length content)) (offset + Z.of_nat (length buf)) ∧
    ∀ i, content' !! i =
      if decide (offset ≤ Z.of_nat i < offset + Z.of_nat (length buf))
      then buf !! (i - Z.to_nat offset)%nat
      else if decide (i < length content)%nat then content !! i
      else if decide (Z.of_nat i < offset) then Some 0 else None.
Proof.
  intros Ho Hlen. unfold file_write_at. rewrite wadd_small by (unfold is_usize; lia).
  set (fin := offset + Z.of_nat (length buf)) in *.
  assert (∃ c1, (if fin >? Z.of_nat (length content) then vec_resize content fin else Done content)
                = Done c1 ∧
     Z.of_nat (length c1) = Z.max (Z.of_nat (length content)) fin ∧
     ∀ i, c1 !! i = if decide (i < length content)%nat then content !! i
                    else if decide (Z.of_nat i < fin) then Some 0 else None) as (c1 & -> & Hl1 & Hc1).
  { destruct (Z.gtb_spec fin (Z.of_nat (length content))).
    - unfold vec_resize. rewrite (proj2 (Z.ltb_lt _ _)) by lia. eexists. split; [done|]. split.
      + rewrite length_app, length_take, length_replicate. lia.
      + intros i. apply resize_lookup; lia.
    - exists content. split; [done|]. split; [lia|]. intros i. case_decide; [done|].
      rewrite decide_False by lia. apply lookup_ge_None_2. lia. }
  simpl. rewrite slice_ok by lia. simpl.
  assert (length (take (Z.to_nat (fin - offset)) (drop (Z.to_nat offset) c1)) = length buf) as Hlb.
  { rewrite length_take, length_drop. lia. }
  eexists. split; [done|]. rewrite Hlb, (take_ge buf) by lia. split.
  { rewrite !length_app, length_take, length_drop. lia. }
  intros i. case_decide as H1.
  - rewrite lookup_app_r by (rewrite length_take; lia). rewrite length_take, Nat.min_l by lia.
    by rewrite lookup_app_l by lia.
  - destruct (decide (Z.of_nat i < offset)) as [H2|H2].
    + rewrite lookup_app_l by (rewrite length_take; lia).
      rewrite lookup_take_lt, Hc1 by lia. by rewrite (decide_True (P := Z.of_nat i < fin)) by lia.
    + rewrite lookup_app_r by (rewrite length_take; lia). rewrite length_take, Nat.min_l by lia.
      rewrite lookup_app_r by lia. rewrite lookup_drop.
      replace (Z.to_nat fin + (i - Z.to_nat offset - length buf))%nat with i by lia.
      rewrite Hc1. by rewrite (decide_False (P := Z.of_nat i < fin)) by lia.
Qed.

Lemma file_read_at_spec content offset len :
  0 ≤ offset → 0 ≤ len → offset + len < 2 ^ 64 →
  file_read_at content offset len = Done (take (Z.to_nat len) (drop (Z.to_nat offset) content)).
Proof.
  intros Ho Hl Hsum. unfold file_read_at. rewrite wadd_small by (unfold is_usize; lia).
  destruct (decide (offset ≤ Z.of_nat (length content))) as [Hin|Hout].
  - rewrite (Z.min_r _ offset) by lia. rewrite slice_ok by lia. simpl.
    rewrite (proj2 (Z.leb_le _ _)); [simpl|rewrite length_take, length_drop; lia]. f_equal.
    destruct (decide (offset + len ≤ Z.of_nat (length content))).
    + f_equal. lia.
    + rewrite !take_ge; [done|rewrite length_drop; lia..].
  - rewrite !Z.min_l by lia. rewrite slice_ok by lia. simpl. rewrite Z.sub_diag.
    rewrite (proj2 (Z.leb_le _ _)) by (simpl; lia). simpl. f_equal.
    by rewrite (drop_ge content (Z.to_nat offset)), take_nil by lia.
Qed.

End contents.

(** Writing to a file in memory stores exactly the bytes written at the
    offset, keeps the others, fills a gap with zeroes and grows the file to
    the end of the write if needed; reading then returns what is stored,
    limited by the buffer and the end of the file; no other node changes. *)
Theorem file_write_then_read w a content offset buf :
  nodes w !! a = Some (RamFile content) →
  0 ≤ offset → offset + Z.of_nat (length buf) < 2 ^ 63 →
  ∃ w' content', node_write_at a offset buf w = Done (w', Ok (Z.of_nat (length buf))) ∧
    nodes w' = <[a := RamFile content']> (nodes w) ∧
    Z.of_nat (length content') =
      Z.max (Z.of_nat (length content)) (offset + Z.of_nat (length buf)) ∧
    (∀ i, content' !! i =
      if decide (offset ≤ Z.of_nat i < offset + Z.of_nat (length buf))
      then buf !! (i - Z.to_nat offset)%nat
      else if decide (i < length content)%nat then content !! i
      else if decide (Z.of_nat i < offset) then Some 0 else None) ∧
    (∀ off len, 0 ≤ off → 0 ≤ len → off + len < 2 ^ 64 →
      node_read_at w' a off len = Done (Ok (take (Z.to_nat len) (drop (Z.to_nat off) content')))).
Proof.
  intros Hn Ho Hl. unfold node_write_at. rewrite Hn.
  destruct (file_write_at_spec content offset buf Ho Hl) as (c' & Hrun & Hlen & Hc).
  rewrite Hrun. simpl. eexists _, c'. split; [done|]. split; [done|]. split; [done|].
  split; [done|]. intros off len Hoff Hlen0 Hsum. unfold node_read_at. simpl.
  rewrite lookup_insert_eq, file_read_at_spec by done. done.
Qed.

(** Reading a file in memory near the largest offset panics: when offset
    plus length wraps around to a position inside the file, the end of the
    slice lies before its start.  An offset this large is accepted by
    [seek]. *)
Theorem file_read_at_wraps w a content offset len :
  nodes w !! a = Some (RamFile content) →
  Z.of_nat (length content) < 2 ^ 63 ≤ offset → offset < 2 ^ 64 → 0 ≤ len < 2 ^ 63 →
  2 ^ 64 ≤ offset + len < 2 ^ 64 + Z.of_nat (length content) →
  node_read_at w a offset len = Panic.
Proof.
  intros Hn Hc Ho Hl Hw. unfold node_read_at. rewrite Hn. unfold file_read_at.
  assert (wadd offset len = offset + len - 2 ^ 64) as ->.
  { unfold wadd, wrap. rewrite <- (Z.mod_add _ (-1)) by lia. apply Z.mod_small. lia. }
  rewrite Z.min_l, Z.min_r by lia. unfold slice.
  rewrite (proj2 (Z.leb_gt _ _)) by lia. done.
Qed.

(** Listing a directory in memory panics as soon as it reaches an entry
    whose name has more than 63 bytes, although such a name can be created:
    [VfsDirEntry::new] only warns that it is too long. *)
Theorem read_dir_long_name_panics w d par name c ch n m :
  nodes w !! d = Some (RamDir par ((name, c) :: ch)) → nodes w !! c = Some m →
  is_root_dir m = false → (63 < length (as_bytes name))%nat →
  node_read_dir w d 0 (3 + n) = Panic.
Proof.
  intros Hd Hc Hr Hl. unfold node_read_dir. rewrite Hd. simpl. unfold node_get_attr. rewrite Hc. simpl.
  destruct m; try done; simpl; unfold dirent_new; by rewrite decide_False by lia.
Qed.

(** ** A file system in memory with [/a/f] *)

Definition all_alive : Z → bool := λ _, true.

Definition run_fs (o : outcome (vfs * result AxError unit)) : vfs :=
  match o with Done (w, _) => w | Panic => vfs_empty end.

Definition tree0 : vfs := (ramfs_new vfs_empty).2.
Definition tree1 : vfs := run_fs (create_path all_alive 1 (lit "/a") Dir tree0).
Definition tree2 : vfs := run_fs (create_path all_alive 1 (lit "a/./f") File tree1).

Lemma run_fs_done (o : outcome (vfs * result AxError unit)) :
  is_done o = true → ∃ r, o = Done (run_fs o, r).
Proof. destruct o as [[w r]|]; [eauto|done]. Qed.

Lemma tree2_reachable : rtc vfs_step vfs_empty tree2.
Proof.
  eapply rtc_l; [apply vs_ramfs|]. fold tree0. eapply rtc_l; [|eapply rtc_l; [|apply rtc_refl]].
  - destruct (run_fs_done (create_path all_alive 1 (lit "/a") Dir tree0)) as [r Hr]; [by vm_compute|].
    apply (vs_create _ all_alive 1 (lit "/a") Dir tree1 r); [|done].
    eexists. split; [by vm_compute|done].
  - destruct (run_fs_done (create_path all_alive 1 (lit "a/./f") File tree1)) as [r Hr]; [by vm_compute|].
    apply (vs_create _ all_alive 1 (lit "a/./f") File tree2 r); [|done].
    eexists. split; [by vm_compute|done].
Qed.

Lemma tree2_ok : store_ok tree2.
Proof. eapply vfs_steps_ok; [apply tree2_reachable|apply vfs_empty_ok]. Qed.

Lemma tree2_root : fs_node tree2 1.
Proof. eexists. split; [by vm_compute|done]. Qed.

Lemma vfs_stays_a_tree_witness :
  ∃ r, lookup_path all_alive tree2 1 (lit "/a/../a/f") = Done r.
Proof.
  destruct (vfs_stays_a_tree tree2 tree2_reachable) as [Hl _].
  destruct (Hl all_alive 1 (lit "/a/../a/f") tree2_root) as (r & Hr & _). by exists r.
Defined.


Lemma remove_deletes_leaf_witness :
  ∃ w' r, remove_path all_alive 1 (lit "/a/f") tree2 = Done (w', r) ∧ store_ok w'.
Proof.
  destruct (remove_deletes_leaf all_alive tree2 1 (lit "/a/f") tree2_ok tree2_root)
    as (w' & r & ? & ? & _). by exists w', r.
Defined.


Lemma file_write_then_read_witness :
  ∃ w' content', node_write_at 3 2 [7; 8] tree2 = Done (w', Ok 2) ∧
    node_read_at w' 3 2 9 = Done (Ok (take 9 (drop 2 content'))).
Proof.
  destruct (file_write_then_read tree2 3 [] 2 [7; 8]) as (w' & c & Hw & _ & _ & _ & Hr);
    [by vm_compute|lia|simpl; lia|].
  exists w', c. split; [done|]. by rewrite Hr by lia.
Defined.

Lemma file_read_at_wraps_witness :
  node_read_at {| nodes := {[1 := RamFile [7; 8]]}; next_node := 2 |} 1 (2 ^ 64 - 1) 2 = Panic.
Proof. apply (file_read_at_wraps _ 1 [7; 8]); [done|simpl; lia|lia|lia|simpl; lia]. Defined.

(** A name of 64 bytes. *)
Definition long_name : str := replicate 64 97.

Lemma read_dir_long_name_panics_witness :
  node_read_dir (run_fs (create_path all_alive 1 long_name File tree0)) 1 0 31 = Panic.
Proof.
  apply (read_dir_long_name_panics _ 1 None long_name 2 [] 28 (RamFile []));
    [by vm_compute..|]. vm_compute. lia.
Defined.
