(* ===== verification/AxIo.v ===== *)
(** * Input and output ([crates/axio])

    The traits [Read] and [Write] as classes, with the loops of their default
    methods, the reader of byte slices and [BufReader].  What a reader
    promises is the class [ReadLaws]: a [stream] of the bytes still to come,
    which every call consumes from the front.  The loops are proved against
    that promise, and [BufReader] is shown to keep it when its inner reader
    does; its own [read_exact] is shown not to.

    The loops end when the stream does: the fuel they need is one more than
    the bytes left, or than the bytes asked for. *)

From S2P Require Import Prelude AxErrno.
From stdpp Require Import base numbers list.

Open Scope Z_scope.

(** ** The traits *)

(** [read n] reads into a buffer of [n] bytes and returns the bytes it put at
    its start.  The loops take fuel. *)
Class Read (S : Type) := {
  read : Z → stm S AxError (list Z);
  read_exact : nat → Z → stm S AxError (list Z);
  read_to_end : nat → list Z → stm S AxError (list Z);
}.

Class Write (S : Type) := {
  write : list Z → stm S AxError Z;
  write_all : nat → list Z → stm S AxError unit;
}.

Section defaults.
Context {S : Type} (rd : Z → stm S AxError (list Z)) (wr : list Z → stm S AxError Z).

(** [Read::read_to_end]: the vector [buf] with the bytes appended. *)
Fixpoint default_read_to_end (fuel : nat) (buf : list Z) : stm S AxError (list Z) :=
  match fuel with
  | O => panic
  | Datatypes.S fuel =>
      probe ← rd 32;
      if decide (probe = []) then mret buf else default_read_to_end fuel (buf ++ probe)
  end.

(** [Read::read_exact] for [n] bytes more, [filled] being there already. *)
Fixpoint default_read_exact (fuel : nat) (n : Z) (filled : list Z) : stm S AxError (list Z) :=
  match fuel with
  | O => panic
  | Datatypes.S fuel =>
      if n =? 0 then mret filled
      else
        bs ← rd n;
        if decide (bs = []) then throw UnexpectedEof
        else default_read_exact fuel (n - Z.of_nat (length bs)) (filled ++ bs)
  end.

(** [Write::write_all]; [&buf[n..]] panics when more was written than
    given. *)
Fixpoint default_write_all (fuel : nat) (buf : list Z) : stm S AxError unit :=
  match fuel with
  | O => panic
  | Datatypes.S fuel =>
      if decide (buf = []) then mret tt
      else
        n ← wr buf;
        if n =? 0 then throw WriteZero
        else if n <=? Z.of_nat (length buf) then default_write_all fuel (drop (Z.to_nat n) buf)
        else panic
  end.

End defaults.

(** ** Byte slices ([impls.rs]) *)

Definition slice_read (n : Z) : stm (list Z) AxError (list Z) := λ s,
  let amt := Z.to_nat (Z.min n (Z.of_nat (length s))) in Done (drop amt s, Ok (take amt s)).

Definition slice_read_exact (n : Z) : stm (list Z) AxError (list Z) := λ s,
  if n >? Z.of_nat (length s) then Done (s, Err UnexpectedEof)
  else Done (drop (Z.to_nat n) s, Ok (take (Z.to_nat n) s)).

Definition slice_read_to_end (buf : list Z) : stm (list Z) AxError (list Z) := λ s,
  Done ([], Ok (buf ++ s)).

#[global] Instance slice_reader : Read (list Z) := {|
  read := slice_read;
  read_exact := λ _, slice_read_exact;
  read_to_end := λ _, slice_read_to_end;
|}.

(** ** [BufReader] ([buffered/bufreader.rs]) *)

Definition DEFAULT_BUF_SIZE : Z := 1024.

Record BufReader (S : Type) := { inner : S; pos : Z; filled : Z; buf : list Z }.
Arguments inner {S} _.
Arguments pos {S} _.
Arguments filled {S} _.
Arguments buf {S} _.

Section bufreader.
Context {S : Type} `{R : !Read S}.
Implicit Types b : BufReader S.

Definition buf_new (i : S) : BufReader S :=
  {| inner := i; pos := 0; filled := 0; buf := replicate (Z.to_nat DEFAULT_BUF_SIZE) 0 |}.

Definition with_inner (i : S) b : BufReader S :=
  {| inner := i; pos := pos b; filled := filled b; buf := buf b |}.

(** A call of the inner reader. *)
Definition on_inner {T} (m : stm S AxError T) : stm (BufReader S) AxError T := λ b,
  r ← m (inner b); Done (with_inner r.1 b, r.2).

(** [&self.buf[self.pos..self.filled]]. *)
Definition buffer b : outcome (list Z) :=
  if (pos b <=? filled b) && (filled b <=? DEFAULT_BUF_SIZE)
  then Done (take (Z.to_nat (filled b - pos b)) (drop (Z.to_nat (pos b)) (buf b)))
  else Panic.

Definition discard_buffer b : BufReader S :=
  {| inner := inner b; pos := 0; filled := 0; buf := buf b |}.

Definition is_empty b : bool := pos b >=? filled b.

Definition fill_buf : stm (BufReader S) AxError (list Z) := λ b,
  if is_empty b then
    r ← read DEFAULT_BUF_SIZE (inner b);
    match r with
    | (i, Err e) => Done (with_inner i b, Err e)
    | (i, Ok bs) =>
        let b := {| inner := i; pos := 0; filled := Z.of_nat (length bs);
                    buf := bs ++ drop (length bs) (buf b) |} in
        rem ← buffer b; Done (b, Ok rem)
    end
  else rem ← buffer b; Done (b, Ok rem).

Definition consume (amt : Z) b : BufReader S :=
  {| inner := inner b; pos := Z.min (wadd (pos b) amt) (filled b); filled := filled b; buf := buf b |}.

Definition buf_read (n : Z) : stm (BufReader S) AxError (list Z) := λ b,
  if is_empty b && (n >=? DEFAULT_BUF_SIZE) then on_inner (read n) (discard_buffer b)
  else
    r ← fill_buf b;
    match r with
    | (b, Err e) => Done (b, Err e)
    | (b, Ok rem) =>
        let bs := take (Z.to_nat (Z.min n (Z.of_nat (length rem)))) rem in
        Done (consume (Z.of_nat (length bs)) b, Ok bs)
    end.

(** [self.buffer().get(..amt)] is some slice when the buffer holds at least
    [amt] bytes. *)
Definition buf_read_exact (fuel : nat) (amt : Z) : stm (BufReader S) AxError (list Z) := λ b,
  rem ← buffer b;
  if amt <=? Z.of_nat (length rem) then
    Done ({| inner := inner b; pos := wadd (pos b) amt; filled := filled b; buf := buf b |},
          Ok (take (Z.to_nat amt) rem))
  else on_inner (read_exact fuel amt) b.

Definition buf_read_to_end (fuel : nat) (v : list Z) : stm (BufReader S) AxError (list Z) := λ b,
  rem ← buffer b; on_inner (read_to_end fuel (v ++ rem)) (discard_buffer b).

#[global] Instance buf_reader : Read (BufReader S) := {|
  read := buf_read;
  read_exact := buf_read_exact;
  read_to_end := buf_read_to_end;
|}.

(** The index of the first byte equal to [byte]. *)
Fixpoint position (byte : Z) (l : list Z) : option nat :=
  match l with
  | [] => None
  | c :: l => if c =? byte then Some 0%nat else Datatypes.S <$> position byte l
  end.

(** [BufRead::read_until]. *)
Fixpoint read_until (fuel : nat) (byte : Z) (v : list Z) : stm (BufReader S) AxError (list Z) := λ b,
  match fuel with
  | O => Panic
  | Datatypes.S fuel =>
      r ← fill_buf b;
      match r with
      | (b, Err WouldBlock) => read_until fuel byte v b
      | (b, Err e) => Done (b, Err e)
      | (b, Ok available) =>
          match position byte available with
          | Some i =>
              Done (consume (Z.of_nat (i + 1)) b, Ok (v ++ take (i + 1) available))
          | None =>
              let b := consume (Z.of_nat (length available)) b in
              if decide (available = []) then Done (b, Ok (v ++ available))
              else read_until fuel byte (v ++ available) b
          end
      end
  end.

End bufreader.

(** ** What a reader promises *)

(** [stream s] are the bytes still to be read in the state [s]; [good] are
    the states the reader can be in. *)
Class ReadLaws (S : Type) `{!Read S} (good : S → Prop) (stream : S → list Z) : Prop := {
  law_read n s :
    0 ≤ n < 2 ^ 63 → good s →
    ∃ bs s', read n s = Done (s', Ok bs) ∧ good s' ∧ stream s = bs ++ stream s' ∧
      Z.of_nat (length bs) ≤ n ∧ (bs = [] → n = 0 ∨ stream s = []);
  law_read_to_end fuel v s :
    good s → (length (stream s) < fuel)%nat →
    ∃ s', read_to_end fuel v s = Done (s', Ok (v ++ stream s)) ∧ good s' ∧ stream s' = [];
}.

(** What [read_exact] promises. *)
Class ReadExactLaws (S : Type) `{!Read S} (good : S → Prop) (stream : S → list Z) : Prop :=
  law_read_exact fuel n s :
    0 ≤ n < 2 ^ 63 → good s → (Z.to_nat n < fuel)%nat →
    if decide (n ≤ Z.of_nat (length (stream s)))
    then ∃ s', read_exact fuel n s = Done (s', Ok (take (Z.to_nat n) (stream s))) ∧ good s' ∧
           stream s' = drop (Z.to_nat n) (stream s)
    else ∃ s', read_exact fuel n s = Done (s', Err UnexpectedEof) ∧ good s'.

Section default_laws.
Context {S : Type} (rd : Z → stm S AxError (list Z)) {good : S → Prop} {stream : S → list Z}.
Hypothesis rd_law : ∀ n s, 0 ≤ n < 2 ^ 63 → good s →
  ∃ bs s', rd n s = Done (s', Ok bs) ∧ good s' ∧ stream s = bs ++ stream s' ∧
    Z.of_nat (length bs) ≤ n ∧ (bs = [] → n = 0 ∨ stream s = []).

(** The default loop reads the whole stream. *)
Lemma default_read_to_end_spec fuel v s :
  good s → (length (stream s) < fuel)%nat →
  ∃ s', default_read_to_end rd fuel v s = Done (s', Ok (v ++ stream s)) ∧ good s' ∧ stream s' = [].
Proof.
  revert v s. induction fuel as [|fuel IH]; intros v s Hg Hf; [lia|]. simpl. unfold mbind, stm_bind.
  destruct (rd_law 32 s) as (bs & s1 & -> & Hg1 & Hs & _ & Hnil); [lia|done|].
  case_decide as Hbs.
  - subst bs. destruct (Hnil eq_refl) as [?|Hs0]; [lia|]. exists s1. split; [|split; [done|]].
    + rewrite Hs0, app_nil_r. done.
    + by rewrite Hs0 in Hs.
  - assert (length (stream s1) < fuel)%nat as Hf1.
    { rewrite Hs, length_app in Hf. destruct bs; [done|]. simpl in Hf. lia. }
    destruct (IH (v ++ bs) s1 Hg1 Hf1) as (s2 & -> & ? & ?). exists s2. split; [|done].
    by rewrite Hs, app_assoc.
Qed.

Lemma default_read_exact_spec fuel n acc s :
  0 ≤ n < 2 ^ 63 → good s → (Z.to_nat n < fuel)%nat →
  if decide (n ≤ Z.of_nat (length (stream s)))
  then ∃ s', default_read_exact rd fuel n acc s = Done (s', Ok (acc ++ take (Z.to_nat n) (stream s))) ∧
         good s' ∧ stream s' = drop (Z.to_nat n) (stream s)
  else ∃ s', default_read_exact rd fuel n acc s = Done (s', Err UnexpectedEof) ∧ good s'.
Proof.
  revert n acc s. induction fuel as [|fuel IH]; intros n acc s Hn Hg Hf; [lia|]. simpl.
  destruct (Z.eqb_spec n 0) as [->|Hn0].
  { rewrite decide_True by lia. exists s. by rewrite take_0, app_nil_r. }
  unfold mbind, stm_bind.
  destruct (rd_law n s) as (bs & s1 & -> & Hg1 & Hs & Hl & Hnil); [lia|done|].
  destruct (decide (bs = [])) as [->|Hbs].
  - destruct (Hnil eq_refl) as [?|Hs0]; [lia|]. rewrite Hs0, decide_False by (simpl; lia).
    by exists s1.
  - assert (0 < length bs)%nat by (destruct bs; [done|simpl; lia]).
    specialize (IH (n - Z.of_nat (length bs)) (acc ++ bs) s1 ltac:(lia) Hg1 ltac:(lia)).
    assert (length (stream s) = length bs + length (stream s1))%nat as Hls
      by (by rewrite Hs, length_app).
    case_decide as Hc; [rewrite decide_True by lia|rewrite decide_False by lia]; [|done].
    assert (Z.to_nat (n - Z.of_nat (length bs)) = Z.to_nat n - length bs)%nat as Hz by lia.
    rewrite Hz in IH. destruct IH as (s2 & -> & Hg2 & Hs2). exists s2. split; [|split; [done|]].
    + by rewrite Hs, take_app_ge, app_assoc by lia.
    + by rewrite Hs2, Hs, drop_app_ge by lia.
Qed.

End default_laws.

#[global] Instance slice_laws : ReadLaws (list Z) (λ _, True) id.
Proof.
  split.
  - intros n s Hn _. eexists _, _. split; [done|]. split; [done|]. split; [unfold id; by rewrite take_drop|].
    rewrite length_take. split; [lia|]. unfold id. intros Hnil%(f_equal length).
    rewrite length_take in Hnil. simpl in Hnil. destruct s; [by right|]. left. simpl in Hnil. lia.
  - intros fuel v s _ _. by exists [].
Qed.

#[global] Instance slice_exact_laws : ReadExactLaws (list Z) (λ _, True) id.
Proof.
  intros fuel n s Hn _ _. simpl. unfold slice_read_exact, id. case_decide.
  - destruct (Z.gtb_spec n (Z.of_nat (length s))); [lia|]. eauto.
  - destruct (Z.gtb_spec n (Z.of_nat (length s))); [|lia]. eauto.
Qed.

Section bufreader_laws.
Context {S : Type} `{R : !Read S} {good : S → Prop} {stream : S → list Z}.
Context `{RL : !ReadLaws S good stream}.
Implicit Types b : BufReader S.

Definition buffered b : list Z := take (Z.to_nat (filled b - pos b)) (drop (Z.to_nat (pos b)) (buf b)).

Definition good_buf b : Prop :=
  good (inner b) ∧ 0 ≤ pos b ≤ filled b ∧ filled b ≤ DEFAULT_BUF_SIZE ∧
  Z.of_nat (length (buf b)) = DEFAULT_BUF_SIZE.

Definition stream_buf b : list Z := buffered b ++ stream (inner b).

Lemma buffer_eq b : good_buf b → buffer b = Done (buffered b).
Proof. intros (_ & ? & ? & _). unfold buffer. by rewrite !(proj2 (Z.leb_le _ _)) by lia. Qed.

Lemma length_buffered b : good_buf b → Z.of_nat (length (buffered b)) = filled b - pos b.
Proof.
  intros (_ & ? & ? & ?). unfold buffered. rewrite length_take, length_drop. lia.
Qed.

Lemma is_empty_buffered b : good_buf b → is_empty b = bool_decide (buffered b = []).
Proof.
  intros Hb. pose proof (length_buffered b Hb) as Hl. destruct Hb as (_ & ? & _). unfold is_empty.
  destruct (Z.geb_spec (pos b) (filled b)).
  - rewrite bool_decide_true; [done|]. apply nil_length_inv. lia.
  - rewrite bool_decide_false; [done|]. intros Hnil. rewrite Hnil in Hl. simpl in Hl. lia.
Qed.

(** [fill_buf] gives a part of the front of the stream, empty only at its
    end. *)
Lemma fill_buf_spec b :
  good_buf b →
  ∃ b', fill_buf b = Done (b', Ok (buffered b')) ∧ good_buf b' ∧ stream_buf b' = stream_buf b ∧
    (buffered b' = [] → stream_buf b = []).
Proof.
  intros Hb. unfold fill_buf. rewrite is_empty_buffered by done. case_bool_decide as He.
  2: { exists b. rewrite buffer_eq by done. done. }
  pose proof Hb as (Hg & Hp & Hf & Hl). unfold DEFAULT_BUF_SIZE in *.
  destruct (law_read 1024 (inner b)) as (bs & i & -> & Hg' & Hs & Hn & Hnil); [lia|done|]. simpl.
  set (b' := {| inner := i; pos := 0; filled := _; buf := _ |}).
  assert (good_buf b') as Hb'.
  { split_and!; simpl; try done; try lia.
    rewrite length_app, length_drop. unfold DEFAULT_BUF_SIZE. lia. }
  assert (buffered b' = bs) as Hbuf.
  { unfold buffered. simpl. rewrite Z.sub_0_r, Nat2Z.id, drop_0. by rewrite take_app_length. }
  rewrite buffer_eq by done. exists b'. split; [done|]. split; [done|].
  unfold stream_buf. rewrite Hbuf, He. simpl. split; [done|]. intros Hbs.
  destruct (Hnil Hbs) as [?|?]; [lia|done].
Qed.

Lemma consume_spec b k :
  good_buf b → (k ≤ length (buffered b))%nat →
  good_buf (consume (Z.of_nat k) b) ∧ buffered (consume (Z.of_nat k) b) = drop k (buffered b) ∧
  inner (consume (Z.of_nat k) b) = inner b.
Proof.
  intros Hb Hk. pose proof (length_buffered b Hb) as Hl. pose proof Hb as (Hg & Hp & Hf & Hlb).
  unfold DEFAULT_BUF_SIZE in *.
  assert (pos (consume (Z.of_nat k) b) = pos b + Z.of_nat k) as Hpos.
  { simpl. rewrite wadd_small by (unfold is_usize; lia). lia. }
  split; [|split; [|done]].
  { split; [done|]. rewrite Hpos. simpl. unfold DEFAULT_BUF_SIZE. split_and!; lia. }
  unfold buffered. rewrite Hpos. simpl. rewrite skipn_firstn_comm, drop_drop.
  f_equal; [lia|f_equal; lia].
Qed.

Lemma stream_consume b k :
  good_buf b → (k ≤ length (buffered b))%nat →
  stream_buf (consume (Z.of_nat k) b) = drop k (stream_buf b).
Proof.
  intros Hb Hk. destruct (consume_spec b k Hb Hk) as (_ & Hd & Hi). unfold stream_buf.
  by rewrite Hd, Hi, drop_app_le.
Qed.

(** [BufReader] over a reader that keeps its promise keeps it as well: its
    stream is the buffered bytes followed by those of the inner reader. *)
#[global] Instance buf_reader_laws : ReadLaws (BufReader S) good_buf stream_buf.
Proof.
  split.
  - intros n b Hn Hb. simpl. unfold buf_read. rewrite is_empty_buffered by done.
    destruct (bool_decide (buffered b = []) && (n >=? DEFAULT_BUF_SIZE)) eqn:Hbig.
    + apply andb_true_iff in Hbig as [He%bool_decide_eq_true Hge]. unfold on_inner. simpl.
      pose proof Hb as (Hg & Hp & Hf & Hl).
      destruct (law_read n (inner b) Hn Hg) as (bs & i & -> & Hg' & Hs & Hlen & Hnil). simpl.
      eexists bs, _. split; [done|]. unfold stream_buf. rewrite He.
      split; [|split; [|split; [done|done]]].
      * split; [done|]. simpl. unfold DEFAULT_BUF_SIZE in *. split_and!; (done || lia).
      * unfold buffered. simpl. done.
    + destruct (fill_buf_spec b Hb) as (b' & -> & Hb' & Hs & Hnil). simpl.
      set (k := Z.to_nat (Z.min n (Z.of_nat (length (buffered b'))))).
      assert (k ≤ length (buffered b'))%nat as Hk by lia.
      assert (length (take k (buffered b')) = k) as Hlk by (rewrite length_take; lia).
      rewrite Hlk. destruct (consume_spec b' k Hb' Hk) as (Hc & Hd & Hi).
      eexists _, _. split; [done|]. split; [done|]. split; [|split; [lia|]].
      * rewrite <- Hs. unfold stream_buf. by rewrite Hd, Hi, app_assoc, take_drop.
      * intros H0%(f_equal length). rewrite Hlk in H0. simpl in H0.
        destruct (decide (n = 0)); [by left|right]. apply Hnil, nil_length_inv. lia.
  - intros fuel v b Hb Hf. simpl. unfold buf_read_to_end. rewrite buffer_eq by done. simpl.
    unfold on_inner. simpl. pose proof Hb as (Hg & Hp & Hfl & Hl).
    unfold stream_buf in *. rewrite length_app in Hf.
    destruct (law_read_to_end fuel (v ++ buffered b) (inner b) Hg) as (i & -> & Hg' & Hs'); [lia|].
    simpl. eexists. split; [by rewrite <- app_assoc|]. split; [|done].
    split; [done|]. simpl. unfold DEFAULT_BUF_SIZE in *. split_and!; (done || lia).
Qed.

(** The bytes of [l] up to and including the first [byte]. *)
Fixpoint through (byte : Z) (l : list Z) : list Z :=
  match l with [] => [] | c :: l => if c =? byte then [c] else c :: through byte l end.

Lemma position_through byte l1 l2 :
  through byte (l1 ++ l2) =
  match position byte l1 with Some i => take (i + 1) l1 | None => l1 ++ through byte l2 end.
Proof.
  induction l1 as [|c l1 IH]; simpl; [done|]. destruct (c =? byte); [done|].
  rewrite IH. by destruct (position byte l1).
Qed.

Lemma position_lt byte l i : position byte l = Some i → (i < length l)%nat.
Proof.
  revert i. induction l as [|c l IH]; simpl; [done|]. intros i. destruct (c =? byte).
  - intros [= <-]. lia.
  - destruct (position byte l) as [j|]; [|done]. intros [= <-]. specialize (IH j eq_refl). lia.
Qed.

Lemma read_until_spec fuel byte v b :
  good_buf b → (length (stream_buf b) < fuel)%nat →
  ∃ b', read_until fuel byte v b = Done (b', Ok (v ++ through byte (stream_buf b))) ∧
    good_buf b' ∧ stream_buf b' = drop (length (through byte (stream_buf b))) (stream_buf b).
Proof.
  revert v b. induction fuel as [|fuel IH]; intros v b Hb Hf; [lia|]. simpl.
  destruct (fill_buf_spec b Hb) as (b1 & -> & Hb1 & Hs & Hnil). simpl.
  assert (stream_buf b = buffered b1 ++ stream (inner b1)) as Hst by by rewrite <- Hs.
  rewrite Hst, position_through. destruct (position byte (buffered b1)) as [i|] eqn:Hp.
  - pose proof (position_lt _ _ _ Hp) as Hi.
    destruct (consume_spec b1 (i + 1) Hb1) as (Hc & _); [lia|]. eexists. split; [done|].
    split; [done|]. rewrite stream_consume by (done || lia). rewrite Hs, Hst. f_equal. rewrite length_take. lia.
  - destruct (consume_spec b1 (length (buffered b1)) Hb1) as (Hc & Hd & Hi); [lia|].
    case_decide as He.
    + assert (stream (inner b1) = []) as Hi0.
      { specialize (Hnil He). rewrite Hst, He in Hnil. done. }
      eexists. rewrite Hi0. split; [simpl; by rewrite (app_nil_r (buffered b1))|].
      split; [done|].
      rewrite stream_consume by (done || lia). rewrite Hs, Hst, He, Hi0. done.
    + set (b2 := consume (Z.of_nat (length (buffered b1))) b1) in *.
      assert (stream_buf b2 = stream (inner b1)) as Hs2.
      { unfold stream_buf. rewrite Hd, Hi. by rewrite drop_all. }
      assert (0 < length (buffered b1))%nat by (destruct (buffered b1); [done|simpl; lia]).
      destruct (IH (v ++ buffered b1) b2 Hc) as (b' & -> & Hb' & Hs').
      { rewrite Hs2. rewrite Hst, length_app in Hf. lia. }
      exists b'. split; [by rewrite Hs2, app_assoc|]. split; [done|].
      rewrite Hs', Hs2, length_app. by rewrite <- drop_drop, drop_app_length.
Qed.

End bufreader_laws.

(** ** Theorems *)

(** [read_until] on a buffered reader terminates and returns exactly the
    bytes up to and including the first delimiter, or all of them when there
    is none, and leaves the rest of the stream to be read, however the inner
    reader splits its data. *)
Theorem read_until_takes_line {S} `{ReadLaws S good stream} (b : BufReader S) (byte : Z) :
  good_buf (good := good) b →
  ∃ b', read_until (Datatypes.S (length (stream_buf (stream := stream) b))) byte [] b =
          Done (b', Ok (through byte (stream_buf (stream := stream) b))) ∧
    good_buf (good := good) b' ∧
    stream_buf (stream := stream) b =
      through byte (stream_buf (stream := stream) b) ++ stream_buf (stream := stream) b'.
Proof.
  intros Hb. destruct (read_until_spec (Datatypes.S (length (stream_buf (stream := stream) b))) byte [] b Hb)
    as (b' & Hrun & Hb' & Hs); [lia|].
  exists b'. split; [done|]. split; [done|]. rewrite Hs.
  set (l := stream_buf b). clearbody l. symmetry.
  induction l as [|c l IH]; simpl; [done|]. destruct (c =? byte); simpl; [done|]. by f_equal.
Qed.

Lemma read_until_takes_line_witness :
  ∃ b', read_until 6 10 [] (buf_new [104; 105; 10; 120; 121]) = Done (b', Ok [104; 105; 10]).
Proof.
  destruct (read_until_takes_line (S := list Z) (good := λ _, True) (stream := id)
              (buf_new [104; 105; 10; 120; 121]) 10) as (b' & Hr & _).
  - split; [done|]. by vm_compute.
  - exists b'. exact Hr.
Defined.

(** [read_exact] of a buffered reader does not read the stream in order:
    when the buffer holds some bytes but fewer than asked for, it leaves them
    in the buffer and returns the bytes that follow them. *)
Theorem buf_read_exact_skips_buffered {S} `{ReadLaws S good stream, !ReadExactLaws S good stream}
    (b : BufReader S) (n : Z) :
  good_buf (good := good) b →
  0 < Z.of_nat (length (buffered b)) < n → n < 2 ^ 63 → n ≤ Z.of_nat (length (stream (inner b))) →
  ∃ b', buf_read_exact (Datatypes.S (Z.to_nat n)) n b =
          Done (b', Ok (take (Z.to_nat n) (stream (inner b)))) ∧
    buffered b' = buffered b ∧ stream (inner b') = drop (Z.to_nat n) (stream (inner b)).
Proof.
  intros Hb Hn Hn2 Hl. unfold buf_read_exact. rewrite (buffer_eq b Hb). simpl.
  rewrite (proj2 (Z.leb_gt _ _)) by lia. unfold on_inner. destruct Hb as [Hg _].
  pose proof (law_read_exact (Datatypes.S (Z.to_nat n)) n (inner b)) as Hx.
  rewrite decide_True in Hx by done. destruct Hx as (i & -> & _ & Hs); [lia|done|lia|].
  simpl. eexists. split; [done|]. done.
Qed.

Definition half_read : BufReader (list Z) :=
  {| inner := [3; 4; 5]; pos := 1; filled := 2; buf := [1; 2] ++ replicate 1022 0 |}.

Lemma buf_read_exact_skips_buffered_witness :
  ∃ b', buf_read_exact 3 2 half_read = Done (b', Ok [3; 4]) ∧ buffered b' = [2].
Proof.
  destruct (buf_read_exact_skips_buffered (S := list Z) (good := λ _, True) (stream := id) half_read 2)
    as (b' & Hr & Hb & _).
  - split; [done|]. by vm_compute.
  - by vm_compute.
  - lia.
  - by vm_compute.
  - exists b'. split; [exact Hr|]. by rewrite Hb.
Defined.
