(* ===== verification/AxFs.v ===== *)
(** * The file system module ([modules/axfs] and [crates/capability])

    The root directory with its mounts and the current directory
    ([root.rs]), opened files and directories with their capabilities
    ([fops.rs]) and the functions of the API ([api/mod.rs], [api/file.rs],
    [api/dir.rs]) over the nodes of [Vfs.v].  The main file system is one in
    memory, as with the feature [myfs]; FAT is not modelled.  An opened file
    is a [Read] and a [Write] of [AxIo.v]. *)

From S2P Require Import Prelude AxErrno BTree Path Vfs AxIo.
From stdpp Require Import base numbers list gmap strings.

Open Scope Z_scope.

(** ** Capabilities ([capability/src/lib.rs]) *)

Definition Cap_READ : Z := 1.
Definition Cap_WRITE : Z := 2.
Definition Cap_EXECUTE : Z := 4.

Record WithCap (T : Type) := { cap_inner : T; cap_cap : Z }.
Arguments cap_inner {T} _.
Arguments cap_cap {T} _.

Definition can_access {T} (c : WithCap T) (cap : Z) : bool := contains (cap_cap c) cap.

(** [access], with the conversion of [CapError] by the operator [?]. *)
Definition access {T} (c : WithCap T) (cap : Z) : result AxError T :=
  if can_access c cap then Ok (cap_inner c) else Err PermissionDenied.

(** ** The root directory ([root.rs]) *)

(** [ROOT_DIR], [CURRENT_DIR] and [CURRENT_DIR_PATH] with the store of
    nodes. *)
Record fs_state := {
  store : vfs;
  ROOT_DIR : Z;
  CURRENT_DIR : Z;
  CURRENT_DIR_PATH : str;
}.

Definition with_store (w : vfs) (s : fs_state) : fs_state :=
  {| store := w; ROOT_DIR := ROOT_DIR s; CURRENT_DIR := CURRENT_DIR s;
     CURRENT_DIR_PATH := CURRENT_DIR_PATH s |}.

Definition with_current (dir : Z) (path : str) (s : fs_state) : fs_state :=
  {| store := store s; ROOT_DIR := ROOT_DIR s; CURRENT_DIR := dir; CURRENT_DIR_PATH := path |}.

(** Code that changes nodes, and code that reads them. *)
Definition on_store {T} (m : stm vfs AxError T) : stm fs_state AxError T := λ s,
  r ← m (store s); Done (with_store r.1 s, r.2).
Definition query {T} (q : vfs → outcome (result AxError T)) : stm fs_state AxError T := λ s,
  r ← q (store s); Done (s, r).

Definition get_attr (node : Z) : stm fs_state AxError VfsNodeAttr :=
  query (λ w, a ← node_get_attr w node; Done (Ok a)).

(** The result of a call that is examined, not passed on. *)
Definition attempt {S T} (m : stm S AxError T) : stm S AxError (result AxError T) := λ s,
  r ← m s; Done (r.1, Ok r.2).

Definition ends_with_slash (path : str) : bool := ends_with [slash] path.

Section axfs.
Variable alive : Z → bool.

Definition path_fuel (path : str) : nat := S (S (length path)).

(** [RootDirectory::mount]: the mounts with the new one. *)
Definition root_mount (main_fs : Z) (mounts : list MountPoint) (path : str) (fs : Z)
    : stm vfs AxError (list MountPoint) :=
  if decide (path = [slash]) then throw InvalidInput
  else if negb (starts_with [slash] path) then throw InvalidInput
  else if decide (path ∈ mp_path <$> mounts) then throw InvalidInput
  else
    _ ← node_create alive (path_fuel path) main_fs path Dir;
    mount_point ← (λ w, r ← node_lookup alive (path_fuel path) w main_fs path; Done (w, r));
    _ ← modify (fs_mount alive fs mount_point);
    mret (mounts ++ [{| mp_path := path; mp_fs := fs |}]).

Definition root_contains (mounts : list MountPoint) (path : str) : bool :=
  bool_decide (path ∈ mp_path <$> mounts).

(** [init_rootfs] with the features [devfs] and [ramfs] and the main file
    system with the root [main_fs]. *)
Definition init_rootfs (main_fs : Z) (w : vfs) : outcome fs_state :=
  let '(devfs, w) := devfs_new w in
  let '(foo_dir, w) := devfs_mkdir devfs (lit "foo") w in
  let '(null, w) := new_node NullDev w in
  let w := devfs_add devfs (lit "null") null w in
  let '(zero, w) := new_node ZeroDev w in
  let w := devfs_add devfs (lit "zero") zero w in
  let '(bar, w) := new_node ZeroDev w in
  let w := devfs_add foo_dir (lit "bar") bar w in
  r ← root_mount main_fs [] (lit "/dev") devfs w;
  match r with
  | (w, Err _) => Panic
  | (w, Ok mounts) =>
      let '(ramfs, w) := ramfs_new w in
      r ← root_mount main_fs mounts (lit "/tmp") ramfs w;
      match r with
      | (w, Err _) => Panic
      | (w, Ok mounts) =>
          let '(root, w) := new_node (RootDirectory main_fs mounts) w in
          Done {| store := w; ROOT_DIR := root; CURRENT_DIR := root; CURRENT_DIR_PATH := lit "/" |}
      end
  end.

Definition parent_node_of (s : fs_state) (dir : option Z) (path : str) : Z :=
  if starts_with [slash] path then ROOT_DIR s else default (CURRENT_DIR s) dir.

Definition absolute_path (path : str) : stm fs_state AxError str := λ s,
  r ← (if starts_with [slash] path then canonicalize path
       else canonicalize (CURRENT_DIR_PATH s ++ path));
  Done (s, Ok r).

Definition fs_lookup (dir : option Z) (path : str) : stm fs_state AxError Z :=
  if decide (path = []) then throw NotFound
  else
    parent ← gets (λ s, parent_node_of s dir path);
    node ← query (λ w, node_lookup alive (path_fuel path) w parent path);
    if ends_with_slash path then
      attr ← get_attr node;
      if negb (attr_is_dir attr) then throw NotADirectory else mret node
    else mret node.

Definition create_file (dir : option Z) (path : str) : stm fs_state AxError Z :=
  if decide (path = []) then throw NotFound
  else if ends_with_slash path then throw NotADirectory
  else
    parent ← gets (λ s, parent_node_of s dir path);
    _ ← on_store (node_create alive (path_fuel path) parent path File);
    query (λ w, node_lookup alive (path_fuel path) w parent path).

Definition create_dir (dir : option Z) (path : str) : stm fs_state AxError unit :=
  r ← attempt (fs_lookup dir path);
  match r with
  | Ok _ => throw AlreadyExists
  | Err NotFound =>
      parent ← gets (λ s, parent_node_of s dir path);
      on_store (node_create alive (path_fuel path) parent path Dir)
  | Err e => throw e
  end.

Definition remove_file (dir : option Z) (path : str) : stm fs_state AxError unit :=
  node ← fs_lookup dir path;
  attr ← get_attr node;
  if attr_is_dir attr then throw IsADirectory
  else if negb (owner_writable (attr_mode attr)) then throw PermissionDenied
  else
    parent ← gets (λ s, parent_node_of s dir path);
    on_store (node_remove alive (path_fuel path) parent path).

(** The mounts of the root directory. *)
Definition root_mounts (s : fs_state) : list MountPoint :=
  match nodes (store s) !! ROOT_DIR s with Some (RootDirectory _ mounts) => mounts | _ => [] end.

Definition remove_dir (dir : option Z) (path : str) : stm fs_state AxError unit :=
  if decide (path = []) then throw NotFound
  else
    let path_check := trim_matches path in
    if decide (path_check = []) then throw DirectoryNotEmpty
    else if bool_decide (path_check = lit ".") || bool_decide (path_check = lit "..")
            || ends_with (lit "/.") path_check || ends_with (lit "/..") path_check
    then throw InvalidInput
    else
      abs ← absolute_path path;
      mounts ← gets root_mounts;
      if root_contains mounts abs then throw PermissionDenied
      else
        node ← fs_lookup dir path;
        attr ← get_attr node;
        if negb (attr_is_dir attr) then throw NotADirectory
        else if negb (owner_writable (attr_mode attr)) then throw PermissionDenied
        else
          parent ← gets (λ s, parent_node_of s dir path);
          on_store (node_remove alive (path_fuel path) parent path).

Definition current_dir : stm fs_state AxError str := gets CURRENT_DIR_PATH.

Definition set_current_dir (path : str) : stm fs_state AxError unit :=
  abs ← absolute_path path;
  let abs := if ends_with_slash abs then abs else abs ++ [slash] in
  if decide (abs = [slash]) then modify (λ s, with_current (ROOT_DIR s) (lit "/") s)
  else
    node ← fs_lookup None abs;
    attr ← get_attr node;
    if negb (attr_is_dir attr) then throw NotADirectory
    else if negb (owner_executable (attr_mode attr)) then throw PermissionDenied
    else modify (with_current node abs).

(** ** Opened files and directories ([fops.rs]) *)

Record OpenOptions := {
  o_read : bool;
  o_write : bool;
  o_append : bool;
  o_truncate : bool;
  o_create : bool;
  o_create_new : bool;
}.

Definition opts_new : OpenOptions :=
  {| o_read := false; o_write := false; o_append := false; o_truncate := false;
     o_create := false; o_create_new := false |}.

Definition is_valid (o : OpenOptions) : bool :=
  if negb (o_read o) && negb (o_write o) && negb (o_append o) then false
  else
    match o_write o, o_append o with
    | true, false => true
    | false, false => negb (o_truncate o || o_create o || o_create_new o)
    | _, true => negb (o_truncate o && negb (o_create_new o))
    end.

Definition cap_of_opts (o : OpenOptions) : Z :=
  Z.lor (if o_read o then Cap_READ else 0) (if o_write o || o_append o then Cap_WRITE else 0).

Definition perm_to_cap (perm : Z) : Z :=
  Z.lor (Z.lor (if owner_readable perm then Cap_READ else 0)
               (if owner_writable perm then Cap_WRITE else 0))
        (if owner_executable perm then Cap_EXECUTE else 0).

Record FileObj := { f_node : WithCap Z; is_append : bool; f_offset : Z }.
Record DirObj := { dir_node : WithCap Z; entry_idx : Z }.

(** [File::_open_at]. *)
Definition file_open_at (dir : option Z) (path : str) (opts : OpenOptions)
    : stm fs_state AxError FileObj :=
  if negb (is_valid opts) then throw InvalidInput
  else
    node_option ← attempt (fs_lookup dir path);
    node ← (if o_create opts || o_create_new opts then
              match node_option with
              | Ok node => if o_create_new opts then throw AlreadyExists else mret node
              | Err NotFound => create_file dir path
              | Err e => throw e
              end
            else of_result node_option);
    attr ← get_attr node;
    if attr_is_dir attr && (o_create opts || o_create_new opts || o_write opts || o_append opts
                            || o_truncate opts)
    then throw IsADirectory
    else
      let access_cap := cap_of_opts opts in
      if negb (contains (perm_to_cap (attr_mode attr)) access_cap) then throw PermissionDenied
      else
        _ ← (if o_truncate opts then on_store (node_truncate node 0) else mret tt);
        mret {| f_node := {| cap_inner := node; cap_cap := access_cap |};
                is_append := o_append opts; f_offset := 0 |}.

(** The methods of [File] run on the file system and the opened file. *)
Abbreviation file_stm := (stm (fs_state * FileObj) AxError) (only parsing).

Definition on_fs {T} (m : stm fs_state AxError T) : file_stm T := λ '(s, f),
  r ← m s; Done ((r.1, f), r.2).
Definition file_access (cap : Z) : file_stm Z := λ '(s, f), Done ((s, f), access (f_node f) cap).
Definition set_offset (off : Z) : file_stm unit :=
  modify (λ '(s, f), (s, {| f_node := f_node f; is_append := is_append f; f_offset := off |})).
Definition the_offset : file_stm Z := gets (λ sf, f_offset sf.2).

Definition file_truncate_to (size : Z) : file_stm unit :=
  node ← file_access Cap_WRITE; on_fs (on_store (node_truncate node size)).

Definition file_get_attr : file_stm VfsNodeAttr :=
  node ← file_access 0; on_fs (get_attr node).

Definition file_read (len : Z) : file_stm (list Z) :=
  node ← file_access Cap_READ;
  offset ← the_offset;
  bs ← on_fs (query (λ w, node_read_at w node offset len));
  _ ← set_offset (wadd offset (Z.of_nat (length bs)));
  mret bs.

Definition file_write (buf : list Z) : file_stm Z :=
  node ← file_access Cap_WRITE;
  append ← gets (λ sf, is_append sf.2);
  _ ← (if append : bool then attr ← file_get_attr; set_offset (attr_size attr) else mret tt);
  offset ← the_offset;
  write_len ← on_fs (on_store (node_write_at node offset buf));
  _ ← set_offset (wadd offset write_len);
  mret write_len.

Definition file_flush : file_stm unit :=
  node ← file_access Cap_WRITE; on_fs (on_store (node_fsync node)).

Inductive SeekFrom := Start (pos : Z) | End_ (off : Z) | Current (off : Z).

(** [u64::checked_add_signed]. *)
Definition checked_add_signed (a off : Z) : option Z :=
  if (0 <=? a + off) && (a + off <? 2 ^ 64) then Some (a + off) else None.

Definition file_seek (pos : SeekFrom) : file_stm Z :=
  attr ← file_get_attr;
  offset ← the_offset;
  new_offset ← of_result (ok_or InvalidInput
    match pos with
    | Start pos => Some pos
    | Current off => checked_add_signed offset off
    | End_ off => checked_add_signed (attr_size attr) off
    end);
  _ ← set_offset new_offset;
  mret new_offset.

#[global] Instance file_reader : Read (fs_state * FileObj) := {|
  read := file_read;
  read_exact := λ fuel n, default_read_exact file_read fuel n [];
  read_to_end := default_read_to_end file_read;
|}.

#[global] Instance file_writer : Write (fs_state * FileObj) := {|
  write := file_write;
  write_all := default_write_all file_write;
|}.

(** [Directory::_open_dir_at]. *)
Definition dir_open_at (dir : option Z) (path : str) (opts : OpenOptions)
    : stm fs_state AxError DirObj :=
  if negb (o_read opts) then throw InvalidInput
  else if o_create opts || o_create_new opts || o_write opts || o_append opts || o_truncate opts
  then throw InvalidInput
  else
    node ← fs_lookup dir path;
    attr ← get_attr node;
    if negb (attr_is_dir attr) then throw NotADirectory
    else
      let access_cap := cap_of_opts opts in
      if negb (contains (perm_to_cap (attr_mode attr)) access_cap) then throw PermissionDenied
      else mret {| dir_node := {| cap_inner := node; cap_cap := access_cap |}; entry_idx := 0 |}.

Definition access_at (d : DirObj) (path : str) : result AxError (option Z) :=
  if starts_with [slash] path then Ok None else Some <$> access (dir_node d) Cap_EXECUTE.

(** The methods of [Directory] that take a path. *)
Definition open_dir_at (d : DirObj) (path : str) (opts : OpenOptions) : stm fs_state AxError DirObj :=
  dir ← of_result (access_at d path); dir_open_at dir path opts.
Definition open_file_at (d : DirObj) (path : str) (opts : OpenOptions)
    : stm fs_state AxError FileObj :=
  dir ← of_result (access_at d path); file_open_at dir path opts.
Definition create_file_at (d : DirObj) (path : str) : stm fs_state AxError Z :=
  dir ← of_result (access_at d path); create_file dir path.
Definition create_dir_at (d : DirObj) (path : str) : stm fs_state AxError unit :=
  dir ← of_result (access_at d path); create_dir dir path.
Definition remove_file_at (d : DirObj) (path : str) : stm fs_state AxError unit :=
  dir ← of_result (access_at d path); remove_file dir path.
Definition remove_dir_at (d : DirObj) (path : str) : stm fs_state AxError unit :=
  dir ← of_result (access_at d path); remove_dir dir path.

Definition dir_read_dir (n : nat) : stm (fs_state * DirObj) AxError (list VfsDirEntry) := λ '(s, d),
  match access (dir_node d) Cap_READ with
  | Err e => Done ((s, d), Err e)
  | Ok node =>
      r ← node_read_dir (store s) node (entry_idx d) n;
      Done match r with
           | Err e => ((s, d), Err e)
           | Ok es =>
               ((s, {| dir_node := dir_node d;
                       entry_idx := wadd (entry_idx d) (Z.of_nat (length es)) |}), Ok es)
           end
  end.

(** ** The API ([api/*.rs]) *)

Definition opts_open : OpenOptions :=
  {| o_read := true; o_write := false; o_append := false; o_truncate := false;
     o_create := false; o_create_new := false |}.
Definition opts_create : OpenOptions :=
  {| o_read := false; o_write := true; o_append := false; o_truncate := true;
     o_create := true; o_create_new := false |}.
Definition opts_create_new : OpenOptions :=
  {| o_read := true; o_write := true; o_append := false; o_truncate := false;
     o_create := false; o_create_new := true |}.

Definition api_open (path : str) : stm fs_state AxError FileObj := file_open_at None path opts_open.
Definition api_create (path : str) : stm fs_state AxError FileObj :=
  file_open_at None path opts_create.

(** Runs a method on a file and drops it; closing a node does nothing. *)
Definition with_file {T} (f : FileObj) (m : stm (fs_state * FileObj) AxError T)
    : stm fs_state AxError T := λ s,
  r ← m (s, f); Done (r.1.1, r.2).

(** [read]; the size of the file only serves to reserve memory. *)
Definition api_read (fuel : nat) (path : str) : stm fs_state AxError (list Z) :=
  f ← api_open path;
  with_file f (_ ← attempt file_get_attr; read_to_end fuel []).

Definition api_write (fuel : nat) (path : str) (contents : list Z) : stm fs_state AxError unit :=
  f ← api_create path; with_file f (write_all fuel contents).

Definition api_metadata (path : str) : stm fs_state AxError VfsNodeAttr :=
  f ← api_open path; with_file f file_get_attr.

(** [ReadDir] ([api/dir.rs]), an iterator over 31 entries at a time. *)
Record ReadDir := {
  rd_inner : DirObj;
  buf_pos : Z;
  buf_end : Z;
  end_of_stream : bool;
  dirent_buf : list VfsDirEntry;
}.

Definition read_dir (path : str) : stm fs_state AxError ReadDir :=
  inner ← dir_open_at None path opts_open;
  mret {| rd_inner := inner; buf_pos := 0; buf_end := 0; end_of_stream := false;
          dirent_buf := replicate 31 dirent_default |}.

(** The loop of [ReadDir::next]; a round per entry skipped, and one more. *)
Fixpoint read_dir_loop_next (fuel : nat) (s : fs_state) (rd : ReadDir)
    : outcome (option (result AxError (list Z * VfsNodeType)) * ReadDir) :=
  match fuel with
  | O => Panic
  | S fuel =>
      let finish r rd :=
        (r, {| rd_inner := rd_inner rd; buf_pos := buf_pos rd; buf_end := buf_end rd;
               end_of_stream := true; dirent_buf := dirent_buf rd |}) in
      let take_entry rd :=
        entry ← unwrap (dirent_buf rd !! Z.to_nat (buf_pos rd));
        let rd := {| rd_inner := rd_inner rd; buf_pos := buf_pos rd + 1; buf_end := buf_end rd;
                     end_of_stream := end_of_stream rd; dirent_buf := dirent_buf rd |} in
        let name := name_as_bytes entry in
        if decide (name = lit "." ∨ name = lit "..") then read_dir_loop_next fuel s rd
        else Done (Some (Ok (name, d_type entry)), rd) in
      if buf_pos rd >=? buf_end rd then
        r ← dir_read_dir 31 (s, rd_inner rd);
        match r with
        | ((_, d), Err e) => Done (finish (Some (Err e)) rd)
        | ((_, d), Ok es) =>
            let rd' := {| rd_inner := d; buf_pos := 0; buf_end := Z.of_nat (length es);
                          end_of_stream := end_of_stream rd;
                          dirent_buf := es ++ drop (length es) (dirent_buf rd) |} in
            if decide (es = []) then
              Done (finish None {| rd_inner := d; buf_pos := buf_pos rd; buf_end := buf_end rd;
                                   end_of_stream := end_of_stream rd; dirent_buf := dirent_buf rd |})
            else take_entry rd'
        end
      else take_entry rd
  end.

Definition read_dir_next (fuel : nat) (s : fs_state) (rd : ReadDir)
    : outcome (option (result AxError (list Z * VfsNodeType)) * ReadDir) :=
  if end_of_stream rd then Done (None, rd) else read_dir_loop_next fuel s rd.

(** [DirEntry::path]. *)
Definition dir_entry_path (dir_path entry_name : str) : str :=
  trim_end dir_path ++ [slash] ++ entry_name.

(** [create_dir] and [create_dir_all] by [DirBuilder]. *)
Definition dir_builder_create (recursive : bool) (path : str) : stm fs_state AxError unit :=
  if recursive then throw Unsupported else create_dir None path.

End axfs.
