(* ===== verification/AxFsSpec.v ===== *)
(** * What the file system module guarantees

    Contents written under a path are read back from it; a path goes to the
    mounted file system with the longest path that is a prefix of it; the
    current directory stays a canonical path.  The end shows where the code
    differs from its documentation. *)

From S2P Require Import Prelude AxErrno BTree Path Vfs VfsSpec AxIo AxFs.
From stdpp Require Import base numbers list sets gmap strings.

Open Scope Z_scope.

#[local] Opaque path_fuel.
#[local] Arguments lookup_mounted_fs : simpl never.

(** ** File contents do not matter for [lookup] *)

Definition shape (n : vnode) : vnode := match n with RamFile _ => RamFile [] | n => n end.

Definition same_shape (w w' : vfs) : Prop := ∀ a, shape <$> nodes w !! a = shape <$> nodes w' !! a.

Lemma same_shape_set w a content content' :
  nodes w !! a = Some (RamFile content) → same_shape w (set_node a (RamFile content') w).
Proof.
  intros Ha b. rewrite lookup_set. case_decide; [subst|done]. by rewrite Ha.
Qed.

Lemma node_lookup_shape alive fuel w w' self path :
  same_shape w w' → node_lookup alive fuel w self path = node_lookup alive fuel w' self path.
Proof.
  intros Hs. revert self path. induction fuel as [|fuel IH]; intros self path; simpl; [done|].
  specialize (Hs self).
  assert (∀ (e : result AxError Z) rest,
    match e, rest with
    | Err e, _ => Done (Err e)
    | Ok node, Some rest => node_lookup alive fuel w node rest
    | Ok node, None => Done (Ok node)
    end = match e, rest with
    | Err e, _ => Done (Err e)
    | Ok node, Some rest => node_lookup alive fuel w' node rest
    | Ok node, None => Done (Ok node)
    end) as Hgo by (intros [node|e] [rest|]; done || apply IH).
  destruct (nodes w !! self) as [n|], (nodes w' !! self) as [n'|]; simplify_eq/=; try done.
  destruct n, n'; simplify_eq/=; try done; try (destruct (split_path path); apply Hgo).
  match goal with |- ?x ≫= _ = ?x ≫= _ => destruct x end; [apply IH|done].
Qed.

(** Mode and type of a node do not depend on contents. *)
Lemma node_get_attr_shape w w' a :
  same_shape w w' →
  (λ x, (attr_mode x, attr_ty x)) <$> node_get_attr w a =
  (λ x, (attr_mode x, attr_ty x)) <$> node_get_attr w' a.
Proof.
  intros Hs. unfold node_get_attr. pose proof (Hs a) as Ha.
  destruct (nodes w !! a) as [n|], (nodes w' !! a) as [n'|]; simplify_eq/=; try done.
  destruct n, n'; simplify_eq/=; try done.
  match goal with |- context [nodes w !! ?m] => pose proof (Hs m) as Hm end.
  destruct (nodes w !! _) as [n|], (nodes w' !! _) as [n'|]; simplify_eq/=; try done.
  by destruct n, n'; simplify_eq/=.
Qed.

Lemma lookup_shape alive dir path s s' w' node :
  same_shape (store s) w' → fs_lookup alive dir path s = Done (s', Ok node) →
  s' = s ∧ fs_lookup alive dir path (with_store w' s) = Done (with_store w' s, Ok node).
Proof.
  intros Hs. unfold fs_lookup. case_decide; [done|]. unfold mbind, stm_bind, gets, query. simpl.
  change (parent_node_of (with_store w' s) dir path) with (parent_node_of s dir path).
  rewrite <- (node_lookup_shape _ _ _ _ _ _ Hs).
  destruct (node_lookup _ _ _ _ _) as [[a|e]|]; simpl; [|done|done].
  destruct (ends_with_slash path); [|by intros [= <- <-]].
  unfold get_attr, query. simpl. pose proof (node_get_attr_shape _ _ a Hs) as Hat.
  destruct (node_get_attr (store s) a) as [x|], (node_get_attr w' a) as [x'|]; simplify_eq/=; try done.
  assert (attr_is_dir x' = attr_is_dir x) as ->
    by (unfold attr_is_dir; by replace (attr_ty x') with (attr_ty x)).
  destruct (attr_is_dir x); simpl; [|done]. by intros [= <- <-].
Qed.

(** ** An opened file as a reader and writer *)

Lemma bind_done {S T U} (m : stm S AxError T) (k : T → stm S AxError U) s s' t :
  m s = Done (s', Ok t) → (m ≫= k) s = k t s'.
Proof. intros Hm. unfold mbind, stm_bind. by rewrite Hm. Qed.

Lemma bind_ok_inv {S T U} (m : stm S AxError T) (k : T → stm S AxError U) s s' u :
  (m ≫= k) s = Done (s', Ok u) → ∃ s1 t, m s = Done (s1, Ok t) ∧ k t s1 = Done (s', Ok u).
Proof.
  unfold mbind, stm_bind. destruct (m s) as [[s1 [t|e]]|]; [eauto|done|done].
Qed.

Section file.
Implicit Types (s : fs_state) (f : FileObj) (content : list Z).

(** The file is a file in memory with [content]. *)
Definition is_file s f content : Prop :=
  nodes (store s) !! cap_inner (f_node f) = Some (RamFile content).

Definition file_good (sf : fs_state * FileObj) : Prop :=
  ∃ content, is_file sf.1 sf.2 content ∧ contains (cap_cap (f_node sf.2)) Cap_READ = true ∧
    Z.of_nat (length content) < 2 ^ 63 ∧ 0 ≤ f_offset sf.2 < 2 ^ 63.

(** The bytes from the cursor on. *)
Definition file_stream (sf : fs_state * FileObj) : list Z :=
  match nodes (store sf.1) !! cap_inner (f_node sf.2) with
  | Some (RamFile content) => drop (Z.to_nat (f_offset sf.2)) content
  | _ => []
  end.

Definition at_offset (off : Z) f : FileObj :=
  {| f_node := f_node f; is_append := is_append f; f_offset := off |}.

Lemma file_read_eq s f content n :
  is_file s f content → contains (cap_cap (f_node f)) Cap_READ = true →
  0 ≤ f_offset f < 2 ^ 63 → 0 ≤ n < 2 ^ 63 → Z.of_nat (length content) < 2 ^ 63 →
  let bs := take (Z.to_nat n) (drop (Z.to_nat (f_offset f)) content) in
  file_read n (s, f) = Done ((s, at_offset (f_offset f + Z.of_nat (length bs)) f), Ok bs).
Proof.
  intros Hf Hc Ho Hn Hl bs. unfold file_read, file_access, access, can_access.
  unfold mbind, stm_bind. rewrite Hc. simpl.
  unfold query, node_read_at. simpl. unfold is_file in Hf. rewrite Hf.
  rewrite file_read_at_spec by lia. simpl. fold bs.
  rewrite wadd_small; [done|]. unfold is_usize, bs. rewrite length_take, length_drop. lia.
Qed.

#[global] Instance file_read_laws : ReadLaws (fs_state * FileObj) file_good file_stream.
Proof.
  assert (∀ n sf, 0 ≤ n < 2 ^ 63 → file_good sf →
    ∃ bs sf', file_read n sf = Done (sf', Ok bs) ∧ file_good sf' ∧
      file_stream sf = bs ++ file_stream sf' ∧
      Z.of_nat (length bs) ≤ n ∧ (bs = [] → n = 0 ∨ file_stream sf = [])) as Hread.
  { intros n [s f] Hn (content & Hf & Hc & Hl & Ho). simpl in *.
    eexists _, _. split; [by apply (file_read_eq s f content)|].
    set (bs := take (Z.to_nat n) (drop (Z.to_nat (f_offset f)) content)).
    assert (length bs = Z.to_nat n `min` (length content - Z.to_nat (f_offset f)))%nat as Hbs
      by (unfold bs; by rewrite length_take, length_drop).
    split; [|split; [|split; [lia|]]].
    - exists content. simpl. split; [done|]. split; [done|]. split; [done|]. lia.
    - unfold file_stream. simpl. rewrite Hf.
      rewrite Z2Nat.inj_add, Nat2Z.id, <- drop_drop by lia. unfold bs.
      rewrite <- (take_drop (Z.to_nat n) (drop (Z.to_nat (f_offset f)) content)) at 1. f_equal.
      destruct (decide (Z.to_nat n ≤ length (drop (Z.to_nat (f_offset f)) content))%nat).
      + by rewrite length_take_le.
      + rewrite !drop_ge; [done| |lia]. rewrite length_take. lia.
    - intros Hnil. rewrite Hnil in Hbs. simpl in Hbs. unfold file_stream. simpl. rewrite Hf.
      destruct (decide (n = 0)); [by left|right]. apply drop_ge. lia. }
  split; [done|]. intros fuel v sf Hg Hf. simpl. by apply (default_read_to_end_spec file_read).
Qed.

(** A write of a file that is not opened for appending. *)
Lemma file_write_eq s f content buf :
  is_file s f content → contains (cap_cap (f_node f)) Cap_WRITE = true → is_append f = false →
  0 ≤ f_offset f → f_offset f + Z.of_nat (length buf) < 2 ^ 63 →
  ∃ content', file_write_at content (f_offset f) buf = Done content' ∧
    file_write buf (s, f) =
      Done ((with_store (set_node (cap_inner (f_node f)) (RamFile content') (store s)) s,
             at_offset (f_offset f + Z.of_nat (length buf)) f), Ok (Z.of_nat (length buf))).
Proof.
  intros Hf Hc Ha Ho Hl. destruct (file_write_at_spec content (f_offset f) buf Ho Hl) as (c' & Hw & _).
  exists c'. split; [done|]. unfold file_write, file_access, access, can_access.
  unfold mbind, stm_bind. rewrite Hc. simpl. rewrite Ha. simpl.
  unfold on_store, node_write_at. simpl. unfold is_file in Hf. rewrite Hf. simpl. rewrite Hw.
  simpl. by rewrite wadd_small by (unfold is_usize; lia).
Qed.

End file.

(** ** Writing anywhere *)

(** Bytes written at a position behind the end leave zeros before them. *)
Definition write_at (data : list Z) (pos : nat) (buf : list Z) : list Z :=
  take pos (data ++ replicate (pos - length data) 0) ++ buf ++ drop (pos + length buf) data.

Lemma write_at_eq data pos buf data' : 0 ≤ pos → pos + Z.of_nat (length buf) < 2 ^ 63 →
  file_write_at data pos buf = Done data' → data' = write_at data (Z.to_nat pos) buf.
Proof.
  intros Hp Hl Hw. destruct (file_write_at_spec data pos buf Hp Hl) as (d & Hd & Hlen & Hlk).
  rewrite Hw in Hd. injection Hd as <-. apply list_eq. intros i. rewrite Hlk. unfold write_at.
  assert (length (take (Z.to_nat pos) (data ++ replicate (Z.to_nat pos - length data) 0)) = Z.to_nat pos) as Hpre.
  { rewrite length_take, length_app, length_replicate. lia. }
  destruct (decide (i < Z.to_nat pos)%nat) as [Hi|Hi].
  - rewrite decide_False by lia. rewrite lookup_app_l by lia. rewrite lookup_take_lt by lia.
    destruct (decide (i < length data)%nat); [by rewrite lookup_app_l|]. rewrite decide_True by lia.
    rewrite lookup_app_r by lia. by rewrite lookup_replicate_2 by lia.
  - rewrite lookup_app_r by lia. rewrite Hpre. destruct (decide (i - Z.to_nat pos < length buf)%nat) as [Hb|Hb].
    + rewrite decide_True by lia. by rewrite lookup_app_l.
    + rewrite decide_False by lia. rewrite lookup_app_r by lia. rewrite lookup_drop.
      replace (Z.to_nat pos + length buf + (i - Z.to_nat pos - length buf))%nat with i by lia.
      case_decide; [done|]. rewrite decide_False by lia. symmetry. apply lookup_ge_None_2. lia.
Qed.

Lemma write_at_length data pos buf : length (write_at data pos buf) = (length data `max` (pos + length buf))%nat.
Proof.
  unfold write_at. rewrite !length_app, length_take, length_app, length_replicate, length_drop. lia.
Qed.

Lemma contains_zero c : contains c 0 = true.
Proof. unfold contains. by rewrite Z.land_0_r. Qed.

Lemma file_write_any fs f data buf : nodes (store fs) !! cap_inner (f_node f) = Some (RamFile data) →
  contains (cap_cap (f_node f)) Cap_WRITE = true →
  let pos := if is_append f then Z.of_nat (length data) else f_offset f in
  0 ≤ pos → pos + Z.of_nat (length buf) < 2 ^ 63 →
  file_write buf (fs, f) =
    Done ((with_store (set_node (cap_inner (f_node f)) (RamFile (write_at data (Z.to_nat pos) buf)) (store fs)) fs,
           at_offset (pos + Z.of_nat (length buf)) f), Ok (Z.of_nat (length buf))).
Proof.
  intros Hn Hc pos Hp Hl. destruct (file_write_at_spec data pos buf Hp Hl) as (d & Hd & _).
  pose proof (write_at_eq data pos buf d Hp Hl Hd) as ->.
  unfold file_write, file_access, access, can_access, mbind, stm_bind. rewrite Hc. unfold gets. cbn [snd fst].
  subst pos. destruct (is_append f) eqn:Ha.
  - unfold file_get_attr, file_access, access, can_access, mbind, stm_bind, on_fs, get_attr, query, node_get_attr.
    cbn [fst snd]. rewrite contains_zero, Hn. unfold mbind, outcome_bind, set_offset, modify, the_offset, gets, mret, stm_ret. cbn.
    unfold on_store, node_write_at. cbn. rewrite Hn. cbn. rewrite Hd. cbn.
    by rewrite wadd_small by (unfold is_usize; lia).
  - unfold mret, stm_ret, the_offset, gets, on_fs, on_store, node_write_at, mbind, outcome_bind. cbn. rewrite Hn. cbn. rewrite Hd. cbn.
    by rewrite wadd_small by (unfold is_usize; lia).
Qed.

(** ** Opening a file *)

Lemma fs_lookup_state alive dir path s s' r : fs_lookup alive dir path s = Done (s', r) → s' = s.
Proof.
  unfold fs_lookup. case_decide; [by intros [= <- <-]|]. unfold mbind, stm_bind, gets, query. simpl.
  destruct (node_lookup _ _ _ _ _) as [[a|e]|]; simpl; [|by intros [= <- <-]|done].
  destruct (ends_with_slash path); [|by intros [= <- <-]]. unfold get_attr, query. simpl.
  destruct (node_get_attr _ _) as [x|]; [|done]. simpl.
  by destruct (attr_is_dir x); intros [= <- <-].
Qed.

(** The file just created is found. *)
Lemma create_file_found alive dir path s s1 node :
  create_file alive dir path s = Done (s1, Ok node) →
  fs_lookup alive dir path s1 = Done (s1, Ok node).
Proof.
  unfold create_file. case_decide; [done|]. destruct (ends_with_slash path) eqn:He; [done|].
  unfold mbind, stm_bind, gets, on_store, query. simpl.
  set (parent := parent_node_of s dir path).
  destruct (node_create _ _ _ _ _ _) as [[w1 [[]|e]]|]; [|done|done]. simpl. intros Hq.
  destruct (node_lookup alive (path_fuel path) w1 parent path) as [[a|e]|] eqn:Hl; [|done|done].
  simpl in Hq. injection Hq as <- <-.
  unfold fs_lookup. rewrite decide_False by done. unfold mbind, stm_bind, gets, query. simpl.
  change (parent_node_of (with_store w1 s) dir path) with parent. rewrite Hl. simpl. by rewrite He.
Qed.

(** What a successful [File::create] has done. *)
Lemma api_create_inv alive path s s2 f :
  api_create alive path s = Done (s2, Ok f) →
  ∃ s1 node, fs_lookup alive None path s1 = Done (s1, Ok node) ∧
    on_store (node_truncate node 0) s1 = Done (s2, Ok tt) ∧
    f = {| f_node := {| cap_inner := node; cap_cap := Cap_WRITE |}; is_append := false; f_offset := 0 |}.
Proof.
  unfold api_create, file_open_at. simpl. intros Hr.
  apply bind_ok_inv in Hr as (s0 & r & Hat & Hr).
  unfold attempt in Hat. destruct (fs_lookup alive None path s) as [[s' r']|] eqn:Hl; [|done].
  simpl in Hat. injection Hat as <- <-. pose proof (fs_lookup_state _ _ _ _ _ _ Hl) as ->.
  apply bind_ok_inv in Hr as (s1 & node & Hnode & Hr).
  assert (fs_lookup alive None path s1 = Done (s1, Ok node)) as Hfound.
  { destruct r' as [a|e]; [by injection Hnode as <- <-|].
    destruct e; try done. by eapply create_file_found. }
  apply bind_ok_inv in Hr as (s1' & attr & Ha & Hr). unfold get_attr, query in Ha.
  destruct (node_get_attr (store s1) node) as [x|]; [|done]. simpl in Ha. injection Ha as <- <-.
  destruct (attr_is_dir x && _); [done|]. destruct (contains _ _); [|done]. simpl in Hr.
  apply bind_ok_inv in Hr as (s3 & [] & Ht & Hr). injection Hr as <- <-. by exists s1, node.
Qed.

(** A file opened for writing only, at [off]. *)
Definition write_handle (node off : Z) : FileObj :=
  {| f_node := {| cap_inner := node; cap_cap := Cap_WRITE |}; is_append := false; f_offset := off |}.

(** The state with a new content of a file. *)
Definition with_content (node : Z) (content : list Z) (s : fs_state) : fs_state :=
  with_store (set_node node (RamFile content) (store s)) s.

Lemma with_content_id node content s : nodes (store s) !! node = Some (RamFile content) → with_content node content s = s.
Proof.
  intros Hn. destruct s as [[m nx] r c p]. unfold with_content, with_store, set_node. simpl in *. by rewrite insert_id.
Qed.

Lemma with_content_twice node c1 c2 s : with_content node c1 (with_content node c2 s) = with_content node c1 s.
Proof. unfold with_content, with_store, set_node. simpl. by rewrite insert_insert_eq. Qed.

Lemma with_content_lookup node content s : nodes (store (with_content node content s)) !! node = Some (RamFile content).
Proof. simpl. by rewrite lookup_insert_eq. Qed.

(** What a successful [File::create] leaves: an empty file, which the path
    names whatever is written to it, or a device. *)
Lemma api_create_spec alive path s s2 f :
  api_create alive path s = Done (s2, Ok f) →
  ∃ node, f = write_handle node 0 ∧
    ((nodes (store s2) !! node = Some (RamFile []) ∧
      ∀ content, fs_lookup alive None path (with_content node content s2) = Done (with_content node content s2, Ok node)) ∨
     ((nodes (store s2) !! node = Some NullDev ∨ nodes (store s2) !! node = Some ZeroDev) ∧
      fs_lookup alive None path s2 = Done (s2, Ok node))).
Proof.
  intros (s1 & node & Hl & Ht & ->)%api_create_inv. exists node. split; [done|].
  unfold on_store, node_truncate in Ht. destruct (nodes (store s1) !! node) as [n|] eqn:Hn; [|done].
  assert (with_store (store s1) s1 = s1) as Hid by by destruct s1.
  destruct n as [|content| | | |]; try done; simpl in Ht.
  - left. assert (file_truncate content 0 = Done []) as Htr by (unfold file_truncate; by destruct content).
    rewrite Htr in Ht. injection Ht as <-. change (with_store _ _) with (with_content node [] s1).
    split; [apply with_content_lookup|]. intros content'. rewrite with_content_twice.
    refine (proj2 (lookup_shape _ _ _ _ _ _ _ _ Hl)). intros b. simpl.
    destruct (decide (node = b)) as [<-|Hne]; [by rewrite lookup_insert_eq, Hn|by rewrite lookup_insert_ne].
  - rewrite Hid in Ht. injection Ht as <-. right. by split; [left|].
  - rewrite Hid in Ht. injection Ht as <-. right. by split; [right|].
Qed.

Lemma write_at_end data buf : write_at data (length data) buf = data ++ buf.
Proof.
  unfold write_at. rewrite Nat.sub_diag, app_nil_r, take_ge by lia. rewrite (drop_ge data) by lia. by rewrite app_nil_r.
Qed.

(** One write that takes everything is all there is to [write_all]. *)
Lemma write_all_once sf sf' buf fuel : (2 ≤ fuel)%nat → buf ≠ [] →
  file_write buf sf = Done (sf', Ok (Z.of_nat (length buf))) → write_all fuel buf sf = Done (sf', Ok tt).
Proof.
  intros Hf Hb Hw. destruct fuel as [|[|fuel]]; [lia..|].
  change (default_write_all file_write (S (S fuel)) buf sf = Done (sf', Ok tt)).
  simpl. rewrite decide_False by done. unfold mbind, stm_bind. rewrite Hw.
  rewrite (proj2 (Z.eqb_neq _ _)) by (destruct buf; [done|simpl; lia]).
  by rewrite (proj2 (Z.leb_le _ _)), Nat2Z.id, drop_all by lia.
Qed.

Lemma write_all_nil sf fuel : (1 ≤ fuel)%nat → write_all fuel [] sf = Done (sf, Ok tt).
Proof. by destruct fuel; [lia|]. Qed.

(** Writing all of a buffer at the end of a file. *)
Lemma write_all_end s node content buf fuel :
  let len := Z.of_nat (length content) in
  nodes (store s) !! node = Some (RamFile content) → len + Z.of_nat (length buf) < 2 ^ 63 → (2 ≤ fuel)%nat →
  write_all fuel buf (s, write_handle node len) =
    Done ((with_content node (content ++ buf) s, write_handle node (len + Z.of_nat (length buf))), Ok tt).
Proof.
  intros len Hn Hl Hf. destruct (decide (buf = [])) as [->|Hb].
  { rewrite app_nil_r, with_content_id, Z.add_0_r, write_all_nil by (done || lia). done. }
  apply write_all_once; [done|done|].
  rewrite (file_write_any s (write_handle node len) content buf Hn eq_refl) by (simpl; lia).
  simpl. unfold len. by rewrite Nat2Z.id, write_at_end.
Qed.

(** A device takes everything and keeps nothing. *)
Lemma write_all_dev s node off buf fuel :
  nodes (store s) !! node = Some NullDev ∨ nodes (store s) !! node = Some ZeroDev → (2 ≤ fuel)%nat →
  ∃ off', write_all fuel buf (s, write_handle node off) = Done ((s, write_handle node off'), Ok tt).
Proof.
  intros Hdev Hf. destruct (decide (buf = [])) as [->|Hb].
  { exists off. apply write_all_nil. lia. }
  exists (wadd off (Z.of_nat (length buf))). apply write_all_once; [done|done|].
  assert (with_store (store s) s = s) as Hs by by destruct s.
  unfold file_write, file_access, access, can_access, mbind, stm_bind. simpl.
  unfold on_store, node_write_at. destruct Hdev as [-> | ->]; simpl; by rewrite Hs.
Qed.

(** Opening a file in memory found under a path. *)
Lemma api_open_found alive path s node content :
  fs_lookup alive None path s = Done (s, Ok node) → nodes (store s) !! node = Some (RamFile content) →
  api_open alive path s =
    Done (s, Ok {| f_node := {| cap_inner := node; cap_cap := Cap_READ |}; is_append := false; f_offset := 0 |}).
Proof.
  intros Hl Hn. unfold api_open, file_open_at, attempt. unfold mbind, stm_bind. simpl. rewrite Hl. simpl.
  unfold get_attr, query, node_get_attr. by rewrite Hn.
Qed.

(** Reading all of a file in memory found under a path. *)
Lemma api_read_found alive path s node content fuel :
  fs_lookup alive None path s = Done (s, Ok node) →
  nodes (store s) !! node = Some (RamFile content) → Z.of_nat (length content) < 2 ^ 63 →
  (length content < fuel)%nat →
  ∃ s', api_read alive fuel path s = Done (s', Ok content).
Proof.
  intros Hl Hn Hlen Hf. unfold api_read.
  set (f := {| f_node := {| cap_inner := node; cap_cap := Cap_READ |}; is_append := false; f_offset := 0 |}).
  rewrite (bind_done _ _ _ _ _ (api_open_found _ _ _ _ _ Hl Hn)). fold f. unfold with_file.
  assert (attempt file_get_attr (s, f) =
          Done ((s, f), Ok (Ok (attr_new_file (Z.of_nat (length content)) 0)))) as Hat.
  { unfold attempt, file_get_attr, mbind, stm_bind. simpl.
    unfold get_attr, query, node_get_attr. simpl. by rewrite Hn. }
  rewrite (bind_done _ _ _ _ _ Hat).
  destruct (law_read_to_end fuel [] (s, f)) as ([s' f'] & Hr & _).
  - exists content. simpl. split; [done|]. split; [done|]. lia.
  - unfold file_stream. simpl. by rewrite Hn.
  - rewrite Hr. simpl. unfold file_stream. simpl. rewrite Hn. by exists s'.
Qed.

(** C18: what [write] stores under a path, [read] returns from it: if writing
    succeeds, reading the same path completes and gives exactly the bytes
    written, whether the file existed before or not, through any mounts; the
    devices [null] and [zero] are the exception. *)
Theorem write_then_read_path alive path contents s s' fuel fuel' :
  api_write alive fuel path contents s = Done (s', Ok tt) →
  Z.of_nat (length contents) < 2 ^ 63 → (2 ≤ fuel)%nat → (length contents < fuel')%nat →
  (∀ a, fs_lookup alive None path s' = Done (s', Ok a) →
     nodes (store s') !! a ≠ Some NullDev ∧ nodes (store s') !! a ≠ Some ZeroDev) →
  ∃ s'', api_read alive fuel' path s' = Done (s'', Ok contents).
Proof.
  intros Hw Hlen Hf Hf' Hdev. unfold api_write in Hw.
  apply bind_ok_inv in Hw as (s2 & f & (node & -> & [[Hn Hl]|[Hn Hl]])%api_create_spec & Hw); unfold with_file in Hw.
  - pose proof (write_all_end s2 node [] contents fuel Hn ltac:(simpl; lia) Hf) as Hrun.
    change (Z.of_nat (length [])) with 0 in Hrun. rewrite Hrun in Hw.
    injection Hw as <-. apply (api_read_found alive path _ node contents fuel'); [apply Hl|apply with_content_lookup|done|done].
  - destruct (write_all_dev s2 node 0 contents fuel Hn Hf) as [off Hrun]. rewrite Hrun in Hw. injection Hw as <-.
    destruct (Hdev node Hl). naive_solver.
Qed.

(** ** Mounted file systems *)

(** The path looked up in the mounts: without slashes around it and without
    [./] in front. *)
Fixpoint mount_path (fuel : nat) (path : str) : str :=
  match fuel with
  | O => path
  | S fuel =>
      let path := trim_matches path in
      if starts_with (lit "./") path then mount_path fuel (drop 2 path) else path
  end.

(** Mount points are absolute paths other than the root. *)
Definition mounts_ok (mounts : list MountPoint) : Prop :=
  Forall (λ mp, ∃ p, mp_path mp = slash :: p ∧ p ≠ []) mounts.

Lemma str_from_slash p : str_from (slash :: p) 1 = Done p.
Proof. apply (str_from_app [slash] p). Qed.

Lemma longest_match_spec path mounts i idx max_len :
  mounts_ok mounts → 0 ≤ max_len →
  ∃ idx' max', longest_match path i mounts idx max_len = Done (idx', max') ∧ max_len ≤ max' ∧
    (∀ mp, mp ∈ mounts → starts_with (tail (mp_path mp)) path = true → str_len (mp_path mp) - 1 ≤ max') ∧
    (idx' = idx ∧ max' = max_len ∨
     ∃ k mp, idx' = (i + k)%nat ∧ mounts !! k = Some mp ∧ max' = str_len (mp_path mp) - 1 ∧
       starts_with (tail (mp_path mp)) path = true).
Proof.
  intros Hok. revert i idx max_len. induction Hok as [|mp mounts (p & Hp & Hne) Hok IH];
    intros i idx max_len Hmax; simpl.
  { exists idx, max_len. split_and!; [done|lia|set_solver|by left]. }
  rewrite Hp, str_from_slash. simpl. change (utf8_len slash) with 1.
  destruct (starts_with p path && (1 + str_len p - 1 >? max_len)) eqn:Hm.
  - apply andb_true_iff in Hm as [Hs Hgt]. apply Z.gtb_lt in Hgt.
    destruct (IH (S i) i (1 + str_len p - 1)) as (idx' & max' & Hr & Hle & Hall & Hw); [lia|].
    exists idx', max'. split; [done|]. split; [lia|]. split.
    + intros mp' [->|Hin]%elem_of_cons; [intros _; rewrite Hp; simpl; change (utf8_len slash) with 1; lia|].
      by apply Hall.
    + right. destruct Hw as [[-> ->]|(k & mp' & -> & Hk & -> & Hs')].
      * exists 0%nat, mp. rewrite Hp. simpl. split_and!; [lia|done|done|done].
      * exists (S k), mp'. split_and!; [lia|done|done|done].
  - destruct (IH (S i) idx max_len Hmax) as (idx' & max' & Hr & Hle & Hall & Hw).
    exists idx', max'. split; [done|]. split; [done|]. split.
    + intros mp' [->|Hin]%elem_of_cons; [|by apply Hall]. rewrite Hp. simpl.
      change (utf8_len slash) with 1. intros Hs. rewrite Hs in Hm. simpl in Hm.
      destruct (Z.gtb_spec (1 + str_len p - 1) max_len); [done|lia].
    + destruct Hw as [?|(k & mp' & -> & Hk & -> & Hs')]; [by left|right].
      exists (S k), mp'. split_and!; [lia|done|done|done].
Qed.

Lemma trim_start_le s : (length (trim_start s) ≤ length s)%nat.
Proof. induction s as [|c s IH]; simpl; [lia|]. destruct (c =? slash); simpl; lia. Qed.

Lemma trim_matches_le s : (length (trim_matches s) ≤ length s)%nat.
Proof.
  unfold trim_matches, trim_end. rewrite length_reverse. etrans; [apply trim_start_le|].
  rewrite length_reverse. apply trim_start_le.
Qed.

Lemma lookup_mounted_fs_spec fuel main mounts path :
  mounts_ok mounts → (length path < fuel)%nat →
  ∃ fs rest, lookup_mounted_fs fuel main mounts path = Done (fs, rest) ∧
    (length rest ≤ length path)%nat ∧
    let q := mount_path fuel path in
    ((∀ mp, mp ∈ mounts → starts_with (tail (mp_path mp)) q = false) ∧ fs = main ∧ rest = q ∨
     ∃ mp, mp ∈ mounts ∧ fs = mp_fs mp ∧ q = tail (mp_path mp) ++ rest ∧
       ∀ mp', mp' ∈ mounts → starts_with (tail (mp_path mp')) q = true →
         str_len (mp_path mp') ≤ str_len (mp_path mp)).
Proof.
  intros Hok. revert path. induction fuel as [|fuel IH]; intros path Hf; [lia|].
  unfold lookup_mounted_fs. fold lookup_mounted_fs. simpl. pose proof (trim_matches_le path) as Hle.
  set (q := trim_matches path) in *. destruct (starts_with (lit "./") q) eqn:Hd.
  { apply starts_with_spec in Hd as [r Hr]. assert (length q = S (S (length r))) as Hq by by rewrite Hr.
    destruct (IH (drop 2 q)) as (fs & rest & Hrun & Hl & Hw); [rewrite length_drop; lia|].
    exists fs, rest. split; [done|]. rewrite length_drop in Hl. split; [lia|]. exact Hw. }
  destruct (longest_match_spec q mounts 0 0 0 Hok) as (idx & max & -> & Hmax & Hall & Hw); [lia|].
  simpl. destruct (Z.eqb_spec max 0) as [->|Hm].
  - exists main, q. split; [done|]. split; [done|]. left. split; [|done]. intros mp Hin.
    apply not_true_iff_false. intros Hs. specialize (Hall mp Hin Hs).
    unfold mounts_ok in Hok. rewrite Forall_forall in Hok. destruct (Hok mp Hin) as (p & Hp & Hne).
    rewrite Hp in Hall. simpl in Hall. change (utf8_len slash) with 1 in Hall.
    destruct p as [|c p]; [done|]. simpl in Hall.
    pose proof (utf8_len_pos c). pose proof (str_len_nonneg p). lia.
  - destruct Hw as [[_ ?]|(k & mp & -> & Hk & -> & Hs)]; [done|]. simpl. rewrite Hk. simpl.
    assert (mp ∈ mounts) as Hin by by eapply list_elem_of_lookup_2.
    unfold mounts_ok in Hok. rewrite Forall_forall in Hok. destruct (Hok mp Hin) as (p & Hp & Hne).
    rewrite Hp in Hs |- *. simpl in Hs |- *. change (utf8_len slash) with 1.
    apply starts_with_spec in Hs as [r Hr]. rewrite Hr.
    replace (1 + str_len p - 1) with (str_len p) by lia. rewrite str_from_app. simpl.
    exists (mp_fs mp), r. split; [done|]. split; [rewrite Hr, length_app in Hle; lia|]. right.
    exists mp. split_and!; [done|done|by rewrite Hp|]. rewrite <- Hr. intros mp' Hin' Hs'.
    specialize (Hall mp' Hin' Hs'). lia.
Qed.

(** A path given to the root directory goes to exactly one file system:
    the mounted one whose path is the longest that the given path starts with,
    called with what follows it, or the main one, called with the whole path,
    when no mounted path matches; the search completes on every path. *)
Theorem mount_dispatch main mounts path :
  mounts_ok mounts →
  ∃ fs rest, lookup_mounted_fs (S (length path)) main mounts path = Done (fs, rest) ∧
    let q := mount_path (S (length path)) path in
    ((∀ mp, mp ∈ mounts → starts_with (tail (mp_path mp)) q = false) ∧ fs = main ∧ rest = q ∨
     ∃ mp, mp ∈ mounts ∧ fs = mp_fs mp ∧ q = tail (mp_path mp) ++ rest ∧
       ∀ mp', mp' ∈ mounts → starts_with (tail (mp_path mp')) q = true →
         str_len (mp_path mp') ≤ str_len (mp_path mp)).
Proof.
  intros Hok. destruct (lookup_mounted_fs_spec (S (length path)) main mounts path Hok)
    as (fs & rest & Hr & _ & Hw); [lia|]. eauto.
Qed.

(** ** The current directory *)

(** The path of the current directory: its components between slashes. *)
Definition dir_string (comps : list str) : str :=
  render true comps ++ (if decide (comps = []) then [] else [slash]).

Definition cur_ok (s : fs_state) (comps : list str) : Prop :=
  CURRENT_DIR_PATH s = dir_string comps ∧ Forall proper comps ∧ Forall (Forall ascii) comps.

Lemma split_join_app comps path :
  Forall (λ p, slash ∉ p) comps → comps ≠ [] →
  split_slash (join_slash comps ++ slash :: path) = comps ++ split_slash path.
Proof.
  induction comps as [|p ps IH]; [done|]. intros [Hp Hps]%Forall_cons _.
  destruct ps as [|q ps]; [by apply split_slash_app|].
  change (join_slash (p :: q :: ps)) with (p ++ slash :: join_slash (q :: ps)).
  rewrite <- app_assoc. change ((slash :: ?x) ++ ?y) with (slash :: (x ++ y)).
  rewrite split_slash_app by done. simpl. f_equal. by apply IH.
Qed.

Lemma split_dir_string comps path :
  Forall proper comps → split_slash (dir_string comps ++ path) = [] :: comps ++ split_slash path.
Proof.
  intros Hp. assert (Forall (λ p, slash ∉ p) comps) as Hs
    by (eapply Forall_impl; [done|]; by intros ? (_ & _ & _ & ?)).
  unfold dir_string, render. case_decide as Hc; [by subst|]. simpl. f_equal.
  rewrite <- app_assoc. by apply split_join_app.
Qed.

(** The components a path stands for in a directory. *)
Definition resolve (comps : list str) (path : str) : list str :=
  foldl norm_part (if starts_with [slash] path then [] else comps) (split_slash path).

Lemma dir_string_ascii comps : Forall (Forall ascii) comps → Forall ascii (dir_string comps).
Proof.
  intros Ha. apply Forall_app. split; [by apply render_ascii|]. case_decide; [done|].
  by repeat constructor.
Qed.

Lemma resolve_ok comps path :
  Forall proper comps → Forall (Forall ascii) comps → Forall ascii path →
  Forall proper (resolve comps path) ∧ Forall (Forall ascii) (resolve comps path).
Proof.
  intros Hp Ha Hpa. unfold resolve. set (c0 := if starts_with [slash] path then [] else comps).
  assert (Forall proper c0 ∧ Forall (Forall ascii) c0) as [Hp0 Ha0]
    by (unfold c0; by destruct (starts_with [slash] path)).
  assert (Forall (λ p, (slash ∉ p) ∧ Forall ascii p) (split_slash path)) as Hsp.
  { rewrite Forall_forall. intros p Hin. split; [by eapply split_slash_no_slash|].
    rewrite Forall_forall. intros c Hc. by eapply split_slash_ascii. }
  clearbody c0. revert c0 Hp0 Ha0.
  induction Hsp as [|p ps [Hs Hpp] Hps IH]; intros c0 Hp0 Ha0; simpl; [done|].
  apply IH; unfold norm_part; repeat case_decide; try done; try (by apply Forall_take);
    apply Forall_app; (split; [done|]); apply Forall_singleton; [unfold proper; tauto|done].
Qed.

(** [absolute_path] on an ASCII path. *)
Lemma absolute_path_spec path s comps :
  cur_ok s comps → Forall ascii path →
  absolute_path path s = Done (s, Ok (render true (resolve comps path))).
Proof.
  intros (Hc & Hp & Ha) Hpa. unfold absolute_path, resolve.
  destruct (starts_with [slash] path) eqn:Hs.
  - destruct (canonicalize_eq path Hpa) as [Hcan _]. rewrite Hcan, Hs. done.
  - rewrite Hc. assert (Forall ascii (dir_string comps ++ path)) as Hda
      by (apply Forall_app; split; [by apply dir_string_ascii|done]).
    destruct (canonicalize_eq _ Hda) as [Hcan _]. rewrite Hcan, split_dir_string by done.
    assert (starts_with [slash] (dir_string comps ++ path) = true) as ->.
    { apply starts_with_spec. exists (drop 1 (dir_string comps ++ path)). done. }
    pose proof (normalize_proper comps Hp) as Hn.
    change (normalize ([] :: ?l)) with (foldl norm_part [] l).
    rewrite foldl_app. fold (normalize comps). by rewrite Hn.
Qed.

Lemma render_slash comps :
  Forall proper comps →
  (if ends_with_slash (render true comps) then render true comps else render true comps ++ [slash])
  = dir_string comps.
Proof.
  intros Hp. unfold dir_string, ends_with_slash, ends_with. case_decide as Hc; [by subst|].
  destruct (last comps) as [p|] eqn:Hl; [|by apply last_None in Hl].
  pose proof (last_Some_elem_of _ _ Hl) as Hin. rewrite Forall_forall in Hp.
  destruct (Hp _ Hin) as (Hne & _ & _ & Hs).
  destruct (last p) as [c|] eqn:Hlc; [|by apply last_None in Hlc].
  apply last_Some in Hlc as [x Hx]. destruct (join_last _ _ _ _ Hl Hx) as [y Hy].
  unfold render. rewrite Hy, app_assoc. rewrite bool_decide_false; [done|].
  generalize ([slash] ++ y). intros z. rewrite length_app. simpl length.
  rewrite Nat.add_sub, drop_app_length. intros [= ->]. apply Hs. rewrite Hx. set_solver.
Qed.

(** The current directory is always a canonical path: [absolute_path]
    resolves an ASCII path, component by component, from the root if it is
    absolute and from the components of the current directory otherwise; and
    after [set_current_dir] the current path is that of the resolved
    components if it succeeds, and the one before if it fails. *)
Theorem current_dir_canonical alive path s comps s' r :
  cur_ok s comps → Forall ascii path →
  set_current_dir alive path s = Done (s', r) →
  absolute_path path s = Done (s, Ok (render true (resolve comps path))) ∧
  Forall proper (resolve comps path) ∧
  cur_ok s' (if r is Ok _ then resolve comps path else comps).
Proof.
  intros Hc Hpa Hr. pose proof Hc as (Hcd & Hp & Ha).
  pose proof (absolute_path_spec path s comps Hc Hpa) as Habs.
  destruct (resolve_ok comps path Hp Ha Hpa) as [Hrp Hra].
  split; [done|]. split; [done|]. unfold set_current_dir in Hr.
  rewrite (bind_done _ _ _ _ _ Habs) in Hr. rewrite render_slash in Hr by done.
  case_decide as Hroot.
  { injection Hr as <- <-. split; [|done]. simpl. by rewrite Hroot. }
  unfold mbind, stm_bind in Hr.
  destruct (fs_lookup _ _ _ s) as [[s1 [node|e]]|] eqn:Hl; [| |done].
  2: { injection Hr as <- <-. by rewrite (fs_lookup_state _ _ _ _ _ _ Hl). }
  rewrite (fs_lookup_state _ _ _ _ _ _ Hl) in Hr. unfold get_attr, query in Hr.
  destruct (node_get_attr _ _) as [x|]; [|done]. simpl in Hr.
  destruct (attr_is_dir x); [|by injection Hr as <- <-].
  destruct (owner_executable _); [|by injection Hr as <- <-].
  injection Hr as <- <-. done.
Qed.

(** ** Opened directories *)

Lemma cap_of_opts_no_execute o : contains (cap_of_opts o) Cap_EXECUTE = false.
Proof. unfold cap_of_opts. by destruct (o_read o), (o_write o), (o_append o). Qed.

Lemma dir_open_at_cap alive dir path opts s s' d :
  dir_open_at alive dir path opts s = Done (s', Ok d) → cap_cap (dir_node d) = cap_of_opts opts.
Proof.
  unfold dir_open_at. destruct (negb (o_read opts)); [done|].
  destruct (o_create opts || _ || _ || _ || _); [done|]. intros Hr.
  apply bind_ok_inv in Hr as (s1 & node & _ & Hr). apply bind_ok_inv in Hr as (s2 & attr & _ & Hr).
  destruct (negb (attr_is_dir attr)); [done|]. destruct (negb (contains _ _)); [done|].
  by injection Hr as <- <-.
Qed.

(** An opened directory gives no access to what is below it: the
    capability made by [_open_dir_at] is [READ] and [WRITE] at most, while
    [access_at] asks for [EXECUTE], so every operation of the directory on a
    relative path is refused and changes nothing. *)
Theorem relative_access_denied alive dir path opts s s' d q :
  dir_open_at alive dir path opts s = Done (s', Ok d) → starts_with [slash] q = false →
  ∀ s1 o,
    open_dir_at alive d q o s1 = Done (s1, Err PermissionDenied) ∧
    open_file_at alive d q o s1 = Done (s1, Err PermissionDenied) ∧
    create_file_at alive d q s1 = Done (s1, Err PermissionDenied) ∧
    create_dir_at alive d q s1 = Done (s1, Err PermissionDenied) ∧
    remove_file_at alive d q s1 = Done (s1, Err PermissionDenied) ∧
    remove_dir_at alive d q s1 = Done (s1, Err PermissionDenied).
Proof.
  intros Hd Hq s1 o. assert (access_at d q = Err PermissionDenied) as Ha.
  { unfold access_at, access, can_access. rewrite Hq, (dir_open_at_cap _ _ _ _ _ _ _ Hd).
    by rewrite cap_of_opts_no_execute. }
  unfold open_dir_at, open_file_at, create_file_at, create_dir_at, remove_file_at, remove_dir_at.
  by rewrite Ha.
Qed.

(** ** Witnesses: the file system as [init_rootfs] leaves it *)

Definition run_fs_state {T} (d : fs_state) (o : outcome (fs_state * T)) : fs_state :=
  if o is Done r then r.1 else d.

(** A file system in memory as the main one. *)
Definition booted : fs_state :=
  let '(root, w) := ramfs_new vfs_empty in
  default {| store := w; ROOT_DIR := root; CURRENT_DIR := root; CURRENT_DIR_PATH := lit "/" |}
    (if init_rootfs (λ _, true) root w is Done s then Some s else None).

Definition written : fs_state :=
  run_fs_state booted (api_write (λ _, true) 2 (lit "/tmp/a") [104; 105] booted).

Definition in_tmp : fs_state :=
  run_fs_state booted (set_current_dir (λ _, true) (lit "dev/../tmp") booted).

Lemma done_ok_inj {S E T} (s s' : S) (a b : T) :
  Done (s, Ok (E := E) a) = Done (s', Ok b) → a = b.
Proof. by intros [= _ ->]. Qed.

Lemma write_then_read_path_witness :
  ∃ s'', api_read (λ _, true) 3 (lit "/tmp/a") written = Done (s'', Ok [104; 105]).
Proof.
  assert (api_write (λ _, true) 2 (lit "/tmp/a") [104; 105] booted = Done (written, Ok tt)) as Hw
    by (vm_compute; reflexivity).
  assert (fs_lookup (λ _, true) None (lit "/tmp/a") written = Done (written, Ok 11)) as Hl
    by (vm_compute; reflexivity).
  assert (nodes (store written) !! 11 = Some (RamFile [104; 105])) as Hn by (vm_compute; reflexivity).
  apply (write_then_read_path (λ _, true) (lit "/tmp/a") [104; 105] booted written 2 3 Hw);
    [simpl; lia|lia|simpl; lia|].
  intros a Ha. rewrite Hl in Ha. apply done_ok_inj in Ha as <-. rewrite Hn. by split.
Defined.

Lemma mount_dispatch_witness :
  ∃ fs rest, lookup_mounted_fs 6 1
      [{| mp_path := lit "/dev"; mp_fs := 2 |}; {| mp_path := lit "/tmp"; mp_fs := 8 |}] (lit "/tmpx")
    = Done (fs, rest).
Proof.
  destruct (mount_dispatch 1
      [{| mp_path := lit "/dev"; mp_fs := 2 |}; {| mp_path := lit "/tmp"; mp_fs := 8 |}] (lit "/tmpx"))
    as (fs & rest & Hr & _).
  - constructor; [by exists (lit "dev")|]. constructor; [by exists (lit "tmp")|]. constructor.
  - exists fs, rest. exact Hr.
Defined.

Lemma current_dir_canonical_witness :
  absolute_path (lit "dev/../tmp") booted = Done (booted, Ok (lit "/tmp")) ∧
  cur_ok in_tmp [lit "tmp"].
Proof.
  assert (set_current_dir (λ _, true) (lit "dev/../tmp") booted = Done (in_tmp, Ok tt)) as Hs
    by (vm_compute; reflexivity).
  assert (cur_ok booted []) as Hc by (by split_and!; [vm_compute; reflexivity|constructor..]).
  assert (Forall ascii (lit "dev/../tmp")) as Ha by (repeat constructor; done).
  destruct (current_dir_canonical (λ _, true) (lit "dev/../tmp") booted [] in_tmp (Ok tt) Hc Ha Hs)
    as (H1 & _ & H3).
  assert (resolve [] (lit "dev/../tmp") = [lit "tmp"]) as Hr by (vm_compute; reflexivity).
  rewrite Hr in H1, H3. exact (conj H1 H3).
Defined.

Lemma relative_access_denied_witness :
  create_file_at (λ _, true) {| dir_node := {| cap_inner := 8; cap_cap := Cap_READ |}; entry_idx := 0 |}
    (lit "x") booted = Done (booted, Err PermissionDenied).
Proof.
  assert (dir_open_at (λ _, true) None (lit "/tmp") opts_open booted
    = Done (booted, Ok {| dir_node := {| cap_inner := 8; cap_cap := Cap_READ |}; entry_idx := 0 |})) as Hd
    by (vm_compute; reflexivity).
  assert (starts_with [slash] (lit "x") = false) as Hx by (vm_compute; reflexivity).
  apply (relative_access_denied _ _ _ _ _ _ _ _ Hd Hx booted opts_open).
Defined.
