(* ===== verification/CFile.v ===== *)
(** * Files of the C interface ([ulib/libax/src/cbindings/file.rs])

    A descriptor refers to an opened file of [AxFs], kept at an address, so
    that the descriptors [dup] makes share its position.  The object is a
    [FileLike]: [ax_read], [ax_write] and [ax_fstat] of [FdTable] run on it. *)

From S2P Require Import Prelude Utf8 AxErrno PollState FlattenObjects FdTable Path Vfs AxFs.
From stdpp Require Import base numbers gmap list strings.

Open Scope Z_scope.
Local Open Scope word_scope.

(** Constants of [ulib/c_libax/include/fcntl.h]. *)
Definition O_RDONLY : Z := 0.
Definition O_WRONLY : Z := 1.
Definition O_RDWR : Z := 2.
Definition O_CREAT : Z := 0x40.
Definition O_TRUNC : Z := 0x200.
Definition O_APPEND : Z := 0x400.
Definition O_EXEC : Z := 0x200000.

(** [VfsNodeType] as a [u8]. *)
Definition type_code (ty : VfsNodeType) : Z :=
  match ty with
  | Fifo => 1 | CharDevice => 2 | Dir => 4 | BlockDevice => 6 | File => 8 | SymLink => 10 | Socket => 12
  end.

(** [Arc<dyn FileLike>]: an opened file, by the address of the object, or
    another file. *)
Inductive cfile (G : Type) :=
| FsFile (a : nat)
| OtherFile (g : G).
Arguments FsFile {G} _.
Arguments OtherFile {G} _.

(** What the files act on: the file system, the opened files there are, and
    what the other files act on. *)
Record fs_world (W : Type) := {
  fw_fs : fs_state;
  fw_files : gmap nat FileObj;
  fw_rest : W;
}.
Arguments fw_fs {W} _.
Arguments fw_files {W} _.
Arguments fw_rest {W} _.
Arguments Build_fs_world {W} _ _ _.

(** A method of the opened file at [a], whose lock is held. *)
Definition on_opened {W T} (a : nat) (m : stm (fs_state * FileObj) AxError T) : stm (fs_world W) LinuxError T := λ w,
  match fw_files w !! a with
  | None => Panic
  | Some f =>
      match m (fw_fs w, f) with
      | Done ((s, f), r) => Done (Build_fs_world s (<[a := f]> (fw_files w)) (fw_rest w), to_linux r)
      | Panic => Panic
      end
  end.

Definition on_rest {W T} (m : stm W LinuxError T) : stm (fs_world W) LinuxError T := λ w,
  match m (fw_rest w) with
  | Done (r, t) => Done (Build_fs_world (fw_fs w) (fw_files w) r, t)
  | Panic => Panic
  end.

(** [File::stat]. *)
Definition stat_of (attr : VfsNodeAttr) : stat :=
  {| st_ino := 1; st_mode := Z.lor (Z.shiftl (type_code (attr_ty attr)) 12) (attr_mode attr); st_nlink := 1;
     st_uid := 1000; st_gid := 1000; st_size := to_isize (attr_size attr); st_blksize := 512;
     st_blocks := to_isize (attr_blocks attr) |}.

(** [impl FileLike for File]. *)
#[global] Instance cfile_FileLike {G W} `{!FileLike G W} : FileLike (cfile G) (fs_world W) := {|
  FdTable.file_read f n :=
    match f with FsFile a => on_opened a (AxFs.file_read n) | OtherFile g => on_rest (FdTable.file_read g n) end;
  FdTable.file_write f buf :=
    match f with FsFile a => on_opened a (AxFs.file_write buf) | OtherFile g => on_rest (FdTable.file_write g buf) end;
  file_stat f :=
    match f with
    | FsFile a => attr ← on_opened a file_get_attr; mret (stat_of attr)
    | OtherFile g => on_rest (file_stat g)
    end;
  file_poll f :=
    match f with
    | FsFile _ => mret {| readable := true; writable := true |}
    | OtherFile g => on_rest (file_poll g)
    end;
  file_set_nonblocking f b :=
    match f with FsFile _ => mret tt | OtherFile g => on_rest (file_set_nonblocking g b) end;
|}.

Definition flags_to_options (flags : Z) : OpenOptions :=
  let flags := wrap 32 flags in
  let acc := flags .& 3 in
  {| o_read := negb (acc =? O_WRONLY);
     o_write := negb (acc =? O_RDONLY);
     o_append := negb (flags .& O_APPEND =? 0);
     o_truncate := negb (flags .& O_TRUNC =? 0);
     o_create := negb (flags .& O_CREAT =? 0);
     o_create_new := negb (flags .& O_EXEC =? 0) |}.

Section cfile.
Context {B G W : Type} `{BM : Bitmap B} `{FL : FileLike G W} (alive : Z → bool).
Abbreviation st := (fd_state B (cfile G) (fs_world W)).

Definition with_world (v : fs_world W) (s : st) : st :=
  {| fd_table := fd_table s; errno := errno s; fd_world := v |}.

(** A call of the file system. *)
Definition on_fs_state {T} (m : stm fs_state AxError T) : stm st LinuxError T := λ s,
  let w := fd_world s in
  match m (fw_fs w) with
  | Done (fs, r) => Done (with_world (Build_fs_world fs (fw_files w) (fw_rest w)) s, to_linux r)
  | Panic => Panic
  end.

(** [File::new] and [add_to_fd_table]; to drop an opened file does nothing. *)
Definition add_to_fd_table (f : FileObj) : stm st LinuxError Z := λ s,
  let w := fd_world s in
  let a := fresh (dom (fw_files w)) in
  add_file_like (FsFile a) (with_world (Build_fs_world (fw_fs w) (<[a := f]> (fw_files w)) (fw_rest w)) s).

Definition from_fd (fd : Z) : stm st LinuxError nat :=
  f ← get_file_like fd;
  match f with FsFile a => mret a | OtherFile _ => throw EINVAL end.

(** The bodies of the calls, which [ax_call_body!] runs. *)
Definition open_body (filename : option (list Z)) (flags : Z) : stm st LinuxError Z :=
  let options := flags_to_options flags in
  path ← of_result (char_ptr_to_str filename);
  f ← on_fs_state (file_open_at alive None path options);
  add_to_fd_table f.

Definition ax_open (filename : option (list Z)) (flags : Z) : st → outcome (st * Z) :=
  ax_call_body (open_body filename flags).

(** [offset] is an [off_t]. *)
Definition lseek_body (fd offset whence : Z) : stm st LinuxError Z :=
  pos ← of_result (if whence =? 0 then Ok (Start (wrap 64 offset))
                   else if whence =? 1 then Ok (Current offset)
                   else if whence =? 2 then Ok (End_ offset)
                   else Err EINVAL);
  a ← from_fd fd;
  off ← on_file (on_opened a (file_seek pos));
  mret (to_isize off).

Definition ax_lseek (fd offset whence : Z) : st → outcome (st * Z) := ax_call_body (lseek_body fd offset whence).

(** The result is stored in [buf]. *)
Definition ax_stat (path : option (list Z)) (buf_is_null : bool) : stm st LinuxError stat :=
  if buf_is_null then throw EFAULT
  else
    path ← of_result (char_ptr_to_str path);
    attr ← on_fs_state (f ← api_open alive path; with_file f file_get_attr);
    mret (stat_of attr).

Definition ax_lstat (path : option (list Z)) (buf_is_null : bool) : stm st LinuxError stat :=
  if buf_is_null then throw EFAULT else mret stat_default.

(** The bytes stored at [buf], or [None] for the null pointer, which the call
    returns. *)
Definition ax_getcwd (buf_is_null : bool) (size : Z) : stm st LinuxError (option (list Z)) :=
  if buf_is_null then mret None
  else
    cwd ← on_fs_state current_dir;
    let cwd := as_bytes cwd in
    if Z.of_nat (length cwd) <? size then mret (Some (cwd ++ [0])) else throw ERANGE.

End cfile.
