(* ===== verification/CFileSpec.v ===== *)
(** * The C file calls refine files that are arrays of bytes

    The specification has the contents of the files, the open files with
    their position, and the descriptors.  [ax_read], [ax_write], [ax_lseek],
    [dup] and [ax_close] do what it says, in any order and on any
    descriptors: those made by [dup] share a position, those opened one by
    one share only the contents. *)

From S2P Require Import Prelude Utf8 AxErrno PollState FlattenObjects FdTable.
From S2P Require Import BTree Path Vfs VfsSpec AxIo AxFs AxFsSpec CFile.
From stdpp Require Import base numbers gmap list strings.

Open Scope Z_scope.

(** ** The specification *)

(** An open file. *)
Record ofile := { of_node : Z; of_pos : Z; of_read : bool; of_write : bool; of_append : bool }.

Definition at_pos (pos : Z) (o : ofile) : ofile :=
  {| of_node := of_node o; of_pos := pos; of_read := of_read o; of_write := of_write o; of_append := of_append o |}.

Record posix (G : Type) := {
  p_data : gmap Z (list Z);
  p_open : gmap nat ofile;
  p_fds : gmap Z (cfile G);
}.
Arguments p_data {G} _.
Arguments p_open {G} _.
Arguments p_fds {G} _.
Arguments Build_posix {G} _ _ _.

Inductive file_call :=
| FRead (fd n : Z)
| FWrite (fd : Z) (buf : list Z)
| FSeek (fd offset whence : Z)
| FDup (fd : Z)
| FClose (fd : Z).

Inductive file_ret := RBytes (l : list Z) | RNum (z : Z).

#[global] Instance file_ret_eq_dec : EqDecision file_ret.
Proof. solve_decision. Defined.

(** The new position, [Err] when it is negative; [None] is out of the range of
    the specification. *)
Definition seek_to (o : ofile) (data : list Z) (offset whence : Z) : option (result LinuxError Z) :=
  let target base := if base + offset <? 0 then Some (Err EINVAL)
                     else if base + offset <? 2 ^ 63 then Some (Ok (base + offset)) else None in
  if whence =? 0 then if (0 <=? offset) && (offset <? 2 ^ 63) then Some (Ok offset) else None
  else if whence =? 1 then target (of_pos o)
  else target (Z.of_nat (length data)).

Definition least_free {G} (m : gmap Z (cfile G)) : option Z :=
  snd <$> list_find (λ fd, m !! fd = None) (seqZ 0 AX_FILE_LIMIT).

Section spec.
Context {G : Type}.
Implicit Types p : posix G.

(** What an operation on the open file of a descriptor does. *)
Definition on_open (fd : Z) p
    (k : nat → ofile → list Z → option (posix G * result LinuxError file_ret)) : option (posix G * result LinuxError file_ret) :=
  match p_fds p !! fd with
  | None => Some (p, Err EBADF)
  | Some (OtherFile _) => None
  | Some (FsFile a) =>
      match p_open p !! a with
      | None => None
      | Some o => match p_data p !! of_node o with Some data => k a o data | None => None end
      end
  end.

Definition p_step (c : file_call) p : option (posix G * result LinuxError file_ret) :=
  match c with
  | FRead fd n => on_open fd p (λ a o data,
      if negb (of_read o) then Some (p, Err EACCES)
      else if (0 <=? n) && (n <? 2 ^ 63) then
        let bs := take (Z.to_nat n) (drop (Z.to_nat (of_pos o)) data) in
        Some (Build_posix (p_data p) (<[a := at_pos (of_pos o + Z.of_nat (length bs)) o]> (p_open p)) (p_fds p), Ok (RBytes bs))
      else None)
  | FWrite fd buf => on_open fd p (λ a o data,
      if negb (of_write o) then Some (p, Err EACCES)
      else
        let pos := if of_append o then Z.of_nat (length data) else of_pos o in
        let fin := pos + Z.of_nat (length buf) in
        if fin <? 2 ^ 63 then
          Some (Build_posix (<[of_node o := write_at data (Z.to_nat pos) buf]> (p_data p))
                  (<[a := at_pos fin o]> (p_open p)) (p_fds p), Ok (RNum (Z.of_nat (length buf))))
        else None)
  | FSeek fd offset whence =>
      if (whence =? 0) || (whence =? 1) || (whence =? 2) then
        on_open fd p (λ a o data,
          match seek_to o data offset whence with
          | None => None
          | Some (Err e) => Some (p, Err e)
          | Some (Ok pos) =>
              Some (Build_posix (p_data p) (<[a := at_pos pos o]> (p_open p)) (p_fds p), Ok (RNum pos))
          end)
      else Some (p, Err EINVAL)
  | FDup fd =>
      match p_fds p !! fd with
      | None => Some (p, Err EBADF)
      | Some f =>
          match least_free (p_fds p) with
          | None => Some (p, Err EMFILE)
          | Some new => Some (Build_posix (p_data p) (p_open p) (<[new := f]> (p_fds p)), Ok (RNum new))
          end
      end
  | FClose fd =>
      if (0 <=? fd) && (fd <? 2) then Some (p, Ok (RNum 0))
      else match p_fds p !! fd with
           | None => Some (p, Err EBADF)
           | Some _ => Some (Build_posix (p_data p) (p_open p) (delete fd (p_fds p)), Ok (RNum 0))
           end
  end.

Fixpoint p_run (cs : list file_call) p : option (posix G * list (result LinuxError file_ret)) :=
  match cs with
  | [] => Some (p, [])
  | c :: cs =>
      match p_step c p with
      | Some (p, r) => match p_run cs p with Some (p, rs) => Some (p, r :: rs) | None => None end
      | None => None
      end
  end.

Definition file_call_ok (c : file_call) : Prop :=
  match c with
  | FRead fd _ | FWrite fd _ | FDup fd | FClose fd => is_cint fd
  | FSeek fd offset whence => is_cint fd ∧ is_isize offset
  end.

End spec.

(** ** Descriptors *)

Lemma least_free_spec {G} (m : gmap Z (cfile G)) fd : 0 ≤ fd < AX_FILE_LIMIT → m !! fd = None →
  (∀ j, 0 ≤ j < fd → is_Some (m !! j)) → least_free m = Some fd.
Proof.
  intros Hfd Hn Hall. unfold least_free. assert (list_find (λ fd, m !! fd = None) (seqZ 0 AX_FILE_LIMIT) = Some (Z.to_nat fd, fd)) as ->; [|done].
  apply list_find_Some. split; [apply lookup_seqZ; lia|]. split; [done|].
  intros j y [-> Hj]%lookup_seqZ Hlt Hy. destruct (Hall (0 + Z.of_nat j)) as [? ?]; [lia|congruence].
Qed.

Lemma least_free_none {G} (m : gmap Z (cfile G)) : (∀ j, 0 ≤ j < AX_FILE_LIMIT → is_Some (m !! j)) → least_free m = None.
Proof.
  intros Hall. unfold least_free. assert (list_find (λ fd, m !! fd = None) (seqZ 0 AX_FILE_LIMIT) = None) as ->; [|done].
  apply list_find_None, Forall_forall. intros fd [j Hj]%list_elem_of_lookup Hn.
  apply lookup_seqZ in Hj as [-> Hj]. destruct (Hall (0 + Z.of_nat j)) as [? ?]; [lia|congruence].
Qed.

(** ** Refinement *)

Definition ofile_of (f : FileObj) : ofile :=
  {| of_node := cap_inner (f_node f); of_pos := f_offset f;
     of_read := contains (cap_cap (f_node f)) Cap_READ; of_write := contains (cap_cap (f_node f)) Cap_WRITE;
     of_append := is_append f |}.

Definition file_bytes (n : vnode) : option (list Z) := match n with RamFile l => Some l | _ => None end.

Section refinement.
Context {B G W : Type} `{BM : Bitmap B} `{FL : FileLike G W} `{BML : !BitmapLaws B} (alive : Z → bool).
Abbreviation st := (fd_state B (cfile G) (fs_world W)).
Implicit Types (s : st) (m : gmap Z (cfile G)) (p : posix G).

(** The state of the specification that [s] stands for. *)
Definition abs s m : posix G :=
  Build_posix (omap file_bytes (nodes (store (fw_fs (fd_world s))))) (ofile_of <$> fw_files (fd_world s)) m.

(** Positions and sizes are not near the end of the range. *)
Record in_range p : Prop := {
  ir_pos a o : p_open p !! a = Some o → 0 ≤ of_pos o < 2 ^ 63;
  ir_len node data : p_data p !! node = Some data → Z.of_nat (length data) < 2 ^ 63;
}.

Definition file_body (c : file_call) : stm st LinuxError file_ret :=
  match c with
  | FRead fd n => l ← ax_read fd false n; mret (RBytes l)
  | FWrite fd buf => n ← ax_write fd (Some buf); mret (RNum n)
  | FSeek fd offset whence => n ← lseek_body fd offset whence; mret (RNum n)
  | FDup fd => n ← dup_fd fd; mret (RNum n)
  | FClose fd => if (0 <=? fd) && (fd <? 2) then mret (RNum 0) else _ ← close_file_like fd; mret (RNum 0)
  end.

(** The calls of a program, with their results. *)
Fixpoint run_file_calls (cs : list file_call) (s : st) : outcome (st * list (result LinuxError file_ret)) :=
  match cs with
  | [] => Done (s, [])
  | c :: cs =>
      '(s, r) ← file_body c s;
      '(s, rs) ← run_file_calls cs s;
      Done (s, r :: rs)
  end.

(** ** Methods on an opened file *)

(** The offset [seek] computes. *)
Definition seek_offset (f : FileObj) (data : list Z) (pos : SeekFrom) : option Z :=
  match pos with
  | Start pos => Some pos
  | Current off => checked_add_signed (f_offset f) off
  | End_ off => checked_add_signed (Z.of_nat (length data)) off
  end.

Lemma file_seek_eq fs f data pos : nodes (store fs) !! cap_inner (f_node f) = Some (RamFile data) →
  file_seek pos (fs, f) =
    match seek_offset f data pos with
    | Some new => Done ((fs, at_offset new f), Ok new)
    | None => Done ((fs, f), Err InvalidInput)
    end.
Proof.
  intros Hn. unfold file_seek, file_get_attr, file_access, access, can_access, mbind, stm_bind, on_fs, get_attr, query, node_get_attr.
  cbn [fst snd]. rewrite contains_zero. cbn. rewrite Hn. cbn. destruct pos as [pos|off|off]; cbn; [done|..];
    by destruct (checked_add_signed _ _).
Qed.

Lemma file_from_fd_spec s m fd : fd_repr s m → is_cint fd →
  from_fd fd s = Done (s, match m !! fd with
                          | Some (FsFile a) => Ok a
                          | Some (OtherFile _) => Err EINVAL
                          | None => Err EBADF
                          end).
Proof.
  intros Hr Hc. unfold from_fd, mbind, stm_bind. rewrite (get_file_like_spec s m) by done.
  by destruct (m !! fd) as [[a|g]|].
Qed.

(** The opened file of a descriptor of the specification. *)
Lemma on_open_inv s m fd k r : fd_repr s m → on_open fd (abs s m) k = Some r →
  (m !! fd = None ∧ r = (abs s m, Err EBADF)) ∨
  ∃ a f data, m !! fd = Some (FsFile a) ∧ fw_files (fd_world s) !! a = Some f ∧
    nodes (store (fw_fs (fd_world s))) !! cap_inner (f_node f) = Some (RamFile data) ∧
    k a (ofile_of f) data = Some r.
Proof.
  intros Hr. unfold on_open. cbn [abs p_fds p_open p_data]. destruct (m !! fd) as [[a|g]|]; [|done|intros [= <-]; by left].
  rewrite lookup_fmap. destruct (fw_files (fd_world s) !! a) as [f|] eqn:Hf; [|done]. cbn.
  rewrite lookup_omap. destruct (nodes _ !! cap_inner (f_node f)) as [n|] eqn:Hn; [|done]. cbn.
  destruct n as [|data| | | |]; try done. cbn. intros Hk. right. exists a, f, data. done.
Qed.

Lemma set_opened s m a f : fd_repr s m →
  let w := fd_world s in
  let s' := with_world (Build_fs_world (fw_fs w) (<[a := f]> (fw_files w)) (fw_rest w)) s in
  abs s' m = Build_posix (p_data (abs s m)) (<[a := ofile_of f]> (p_open (abs s m))) m ∧ fd_repr s' m.
Proof. intros Hr. cbn. split; [|done]. unfold abs. cbn. by rewrite fmap_insert. Qed.

Lemma same_opened s a f : fw_files (fd_world s) !! a = Some f →
  with_world (Build_fs_world (fw_fs (fd_world s)) (<[a := f]> (fw_files (fd_world s))) (fw_rest (fd_world s))) s = s.
Proof. intros Hf. rewrite insert_id by done. by destruct s as [t e []]. Qed.

Lemma in_range_pos p a o pos : in_range p → p_open p !! a = Some o → 0 ≤ pos < 2 ^ 63 →
  in_range (Build_posix (p_data p) (<[a := at_pos pos o]> (p_open p)) (p_fds p)).
Proof.
  intros [H1 H2] Ho Hp. split; cbn; [|done]. intros b o' [[<- <-]|[_ ?]]%lookup_insert_Some; [done|by apply (H1 b)].
Qed.

(** ** The calls *)

Definition step_refines (c : file_call) : Prop := ∀ s m p r, fd_repr s m → in_range (abs s m) →
  p_step c (abs s m) = Some (p, r) →
  ∃ s' m', file_body c s = Done (s', r) ∧ fd_repr s' m' ∧ p = abs s' m' ∧ in_range p.

Lemma read_refines fd n : is_cint fd → step_refines (FRead fd n).
Proof.
  intros Hc s m p r Hr Hin. cbn [p_step file_body]. intros [[Hm Heq]|(a & f & data & Hm & Hf & Hn & Hk)]%on_open_inv; [..|done];
    unfold ax_read, mbind at 1 2, stm_bind at 1 2; rewrite (get_file_like_spec s m) by done; rewrite Hm; cbn [ok_or].
  { injection Heq as -> ->. by exists s, m. }
  unfold on_file. cbn [FdTable.file_read cfile_FileLike]. unfold on_opened. rewrite Hf.
  cbn [ofile_of of_read of_pos] in Hk. destruct (contains (cap_cap (f_node f)) Cap_READ) eqn:Hcap; cbn [negb] in Hk.
  2: { injection Hk as <- <-. unfold AxFs.file_read, file_access, access, can_access, mbind, stm_bind. rewrite Hcap.
       exists s, m. split; [|done]. cbn. do 3 f_equal. by apply (same_opened s a f). }
  destruct ((0 <=? n) && (n <? 2 ^ 63)) eqn:Hn'; [|done]. bool_to_prop. injection Hk as <- <-.
  assert (p_open (abs s m) !! a = Some (ofile_of f)) as Ho by (cbn; by rewrite lookup_fmap, Hf).
  assert (Z.of_nat (length data) < 2 ^ 63) as Hlen.
  { apply (ir_len _ Hin (cap_inner (f_node f))). cbn. by rewrite lookup_omap, Hn. }
  pose proof (ir_pos _ Hin a _ Ho) as Hpos. cbn [ofile_of of_pos] in Hpos.
  rewrite (file_read_eq _ f data n Hn Hcap Hpos ltac:(lia) Hlen).
  set (bs := take _ _). eexists _, m. split; [done|].
  destruct (set_opened s m a (at_offset (f_offset f + Z.of_nat (length bs)) f) Hr) as [Habs Hr'].
  split; [exact Hr'|]. split; [symmetry; exact Habs|]. apply (in_range_pos (abs s m) a (ofile_of f)); [done|done|].
  subst bs. rewrite length_take, length_drop. lia.
Qed.

Lemma write_refines fd buf : is_cint fd → step_refines (FWrite fd buf).
Proof.
  intros Hc s m p r Hr Hin. cbn [p_step file_body]. intros [[Hm Heq]|(a & f & data & Hm & Hf & Hn & Hk)]%on_open_inv; [..|done];
    unfold ax_write, mbind at 1 2, stm_bind at 1 2; rewrite (get_file_like_spec s m) by done; rewrite Hm; cbn [ok_or].
  { injection Heq as -> ->. by exists s, m. }
  unfold on_file. cbn [FdTable.file_write cfile_FileLike]. unfold on_opened. rewrite Hf.
  cbn [ofile_of of_write of_pos of_append of_node] in Hk.
  destruct (contains (cap_cap (f_node f)) Cap_WRITE) eqn:Hcap; cbn [negb] in Hk.
  2: { injection Hk as <- <-. unfold AxFs.file_write, file_access, access, can_access, mbind, stm_bind. rewrite Hcap.
       exists s, m. split; [|done]. cbn. do 3 f_equal. by apply (same_opened s a f). }
  assert (p_open (abs s m) !! a = Some (ofile_of f)) as Ho by (cbn; by rewrite lookup_fmap, Hf).
  pose proof (ir_pos _ Hin a _ Ho) as Hpos. cbn [ofile_of of_pos] in Hpos.
  set (pos := if is_append f then Z.of_nat (length data) else f_offset f) in *.
  assert (0 ≤ pos) as Hpos0 by (subst pos; destruct (is_append f); lia).
  destruct (Z.ltb_spec (pos + Z.of_nat (length buf)) (2 ^ 63)) as [Hfin|]; [|done]. injection Hk as <- <-.
  rewrite (file_write_any _ f data buf Hn Hcap Hpos0 Hfin). fold pos. eexists _, m. split; [done|].
  assert (Z.of_nat (length data) < 2 ^ 63) as Hlen.
  { apply (ir_len _ Hin (cap_inner (f_node f))). cbn. by rewrite lookup_omap, Hn. }
  split; [exact Hr|]. split.
  - unfold abs. cbn. rewrite fmap_insert. f_equal.
    erewrite omap_insert_Some by done. done.
  - destruct (in_range_pos _ _ _ (pos + Z.of_nat (length buf)) Hin Ho) as [H1 H2]; [lia|]. split; [exact H1|].
    intros node d. cbn. intros [[<- <-]|[_ Hd]]%lookup_insert_Some; [rewrite write_at_length; lia|by apply (H2 node)].
Qed.

Lemma seek_from base off : 0 ≤ base < 2 ^ 63 → is_isize off →
  match (if base + off <? 0 then Some (Err EINVAL)
         else if base + off <? 2 ^ 63 then Some (Ok (base + off)) else None) with
  | None => True
  | Some (Err e) => e = EINVAL ∧ checked_add_signed base off = None
  | Some (Ok new) => 0 ≤ new < 2 ^ 63 ∧ checked_add_signed base off = Some new
  end.
Proof.
  unfold is_isize, checked_add_signed. intros Hb Ho. destruct (Z.ltb_spec (base + off) 0).
  - split; [done|]. by rewrite (proj2 (Z.leb_gt _ _)) by lia.
  - destruct (Z.ltb_spec (base + off) (2 ^ 63)); [|done]. split; [lia|].
    by rewrite (proj2 (Z.leb_le _ _)), (proj2 (Z.ltb_lt _ _)) by lia.
Qed.

(** The argument of [seek]. *)
Definition seek_arg (offset whence : Z) : SeekFrom :=
  if whence =? 0 then Start (wrap 64 offset) else if whence =? 1 then Current offset else End_ offset.

Lemma seek_to_offset f data offset whence : 0 ≤ f_offset f < 2 ^ 63 → Z.of_nat (length data) < 2 ^ 63 → is_isize offset →
  match seek_to (ofile_of f) data offset whence with
  | None => True
  | Some (Err e) => e = EINVAL ∧ seek_offset f data (seek_arg offset whence) = None
  | Some (Ok new) => 0 ≤ new < 2 ^ 63 ∧ seek_offset f data (seek_arg offset whence) = Some new
  end.
Proof.
  intros Hp Hl Ho. unfold seek_to, seek_arg. cbn [ofile_of of_pos]. destruct (whence =? 0).
  - destruct ((0 <=? offset) && (offset <? 2 ^ 63)) eqn:Hb; [|done]. bool_to_prop. split; [lia|].
    cbn. by rewrite wrap_small by lia.
  - destruct (whence =? 1); apply seek_from; done || lia.
Qed.

Lemma seek_refines fd offset whence : is_cint fd → is_isize offset → step_refines (FSeek fd offset whence).
Proof.
  intros Hc Ho s m p r Hr Hin. cbn [p_step file_body]. unfold lseek_body.
  destruct ((whence =? 0) || (whence =? 1) || (whence =? 2)) eqn:Hwh.
  2: { intros [= <- <-]. apply orb_false_iff in Hwh as [[H0 H1]%orb_false_iff H2]. rewrite H0, H1, H2. by exists s, m. }
  assert ((if whence =? 0 then Ok (Start (wrap 64 offset)) else if whence =? 1 then Ok (Current offset)
           else if whence =? 2 then Ok (End_ offset) else Err EINVAL) = Ok (E := LinuxError) (seek_arg offset whence)) as ->.
  { unfold seek_arg. destruct (whence =? 0), (whence =? 1), (whence =? 2); done. }
  unfold mbind, stm_bind, of_result. rewrite (file_from_fd_spec s m) by done.
  intros [[Hm Heq]|(a & f & data & Hm & Hf & Hn & Hk)]%on_open_inv; [..|done]; rewrite Hm.
  { injection Heq as -> ->. by exists s, m. }
  unfold on_file, on_opened. rewrite Hf. rewrite (file_seek_eq _ f data _ Hn).
  assert (p_open (abs s m) !! a = Some (ofile_of f)) as Hop by (cbn; by rewrite lookup_fmap, Hf).
  pose proof (ir_pos _ Hin a _ Hop) as Hpos. cbn [ofile_of of_pos] in Hpos.
  assert (Z.of_nat (length data) < 2 ^ 63) as Hlen.
  { apply (ir_len _ Hin (cap_inner (f_node f))). cbn. by rewrite lookup_omap, Hn. }
  pose proof (seek_to_offset f data offset whence Hpos Hlen Ho) as Hseek.
  destruct (seek_to (ofile_of f) data offset whence) as [[new|e]|]; [..|done].
  - destruct Hseek as [Hnew ->]. injection Hk as <- <-. eexists _, m. cbn. split.
    { unfold mret, stm_ret. do 4 f_equal. unfold to_isize. by rewrite wrap_small, (proj2 (Z.ltb_lt _ _)) by lia. }
    destruct (set_opened s m a (at_offset new f) Hr) as [Habs Hr']. split; [exact Hr'|]. split; [symmetry; exact Habs|].
    by apply (in_range_pos (abs s m) a (ofile_of f)).
  - destruct Hseek as [-> ->]. injection Hk as <- <-. exists s, m. split; [|done]. cbn. do 3 f_equal. by apply (same_opened s a f).
Qed.

Lemma dup_refines fd : is_cint fd → step_refines (FDup fd).
Proof.
  intros Hc s m p r Hr Hin. cbn [p_step file_body abs p_fds p_data p_open]. unfold dup_fd, mbind, stm_bind.
  rewrite (get_file_like_spec s m) by done. destruct (m !! fd) as [f|]; cbn [ok_or]; [|intros [= <- <-]; by exists s, m].
  destruct (add_file_like_spec s m f Hr) as (s' & res & -> & _ & Hw & Hres). destruct res as [new|e].
  - destruct Hres as (Hnew & Hfree & Hall & Hr'). rewrite (least_free_spec m new Hnew Hfree Hall). intros [= <- <-].
    exists s', (<[new := f]> m). split; [done|]. split; [done|]. split; [unfold abs; by rewrite Hw|].
    destruct Hin as [H1 H2]. by split.
  - destruct Hres as (-> & Hr' & Hfull). rewrite (least_free_none m Hfull). intros [= <- <-]. exists s', m.
    split; [done|]. split; [done|]. split; [unfold abs; by rewrite Hw|done].
Qed.

Lemma close_refines fd : is_cint fd → step_refines (FClose fd).
Proof.
  intros Hc s m p r Hr Hin. cbn [p_step file_body abs p_fds p_data p_open].
  destruct ((0 <=? fd) && (fd <? 2)); [intros [= <- <-]; by exists s, m|].
  destruct (close_spec s m fd Hr Hc) as (s' & Hclose & _ & Hw & Hr'). unfold mbind, stm_bind. rewrite Hclose.
  destruct (m !! fd) as [f|] eqn:Hm; intros [= <- <-]; exists s', (delete fd m).
  - split; [done|]. split; [done|]. split; [unfold abs; by rewrite Hw|]. destruct Hin as [H1 H2]. by split.
  - split; [done|]. split; [done|]. rewrite delete_id by done. split; [unfold abs; by rewrite Hw|done].
Qed.

Lemma file_call_refines c : file_call_ok c → step_refines c.
Proof.
  destruct c; cbn [file_call_ok].
  - apply read_refines.
  - apply write_refines.
  - intros [? ?]. by apply seek_refines.
  - apply dup_refines.
  - apply close_refines.
Qed.

Lemma file_calls_refine cs : ∀ s m p rs, fd_repr s m → in_range (abs s m) → Forall file_call_ok cs →
  p_run cs (abs s m) = Some (p, rs) →
  ∃ s' m', run_file_calls cs s = Done (s', rs) ∧ fd_repr s' m' ∧ p = abs s' m' ∧ in_range p.
Proof.
  induction cs as [|c cs IH]; intros s m p rs Hr Hin Hok; cbn [p_run run_file_calls].
  { intros [= <- <-]. by exists s, m. }
  apply Forall_cons in Hok as [Hc Hok]. destruct (p_step c (abs s m)) as [[p1 r]|] eqn:Hs; [|done].
  destruct (file_call_refines c Hc s m p1 r Hr Hin Hs) as (s1 & m1 & -> & Hr1 & -> & Hin1). cbn [mbind outcome_bind].
  destruct (p_run cs (abs s1 m1)) as [[p2 rs2]|] eqn:Hrun; [|done]. intros [= <- <-].
  destruct (IH s1 m1 p2 rs2 Hr1 Hin1 Hok Hrun) as (s2 & m2 & -> & Hr2 & -> & Hin2). by exists s2, m2.
Qed.

(** ** Opening *)

(** What a successful open has done. *)
Lemma file_open_inv dir path opts fs fs' f : file_open_at alive dir path opts fs = Done (fs', Ok f) →
  ∃ node, f = {| f_node := {| cap_inner := node; cap_cap := cap_of_opts opts |}; is_append := o_append opts; f_offset := 0 |} ∧
    (o_truncate opts = true → ∃ fs1, on_store (node_truncate node 0) fs1 = Done (fs', Ok tt)).
Proof.
  unfold file_open_at. destruct (negb (is_valid opts)); [done|]. intros Hr.
  apply bind_ok_inv in Hr as (s0 & r & _ & Hr). apply bind_ok_inv in Hr as (s1 & node & _ & Hr).
  apply bind_ok_inv in Hr as (s2 & attr & _ & Hr). destruct (attr_is_dir attr && _); [done|].
  destruct (negb _); [done|]. apply bind_ok_inv in Hr as (s3 & [] & Ht & Hr). injection Hr as <- <-.
  exists node. split; [done|]. intros Htr. rewrite Htr in Ht. by exists s2.
Qed.

Lemma truncated_empty fs fs' node data : on_store (node_truncate node 0) fs = Done (fs', Ok tt) →
  nodes (store fs') !! node = Some (RamFile data) → data = [].
Proof.
  unfold on_store, node_truncate. destruct (nodes (store fs) !! node) as [n|] eqn:Hn; [|done].
  destruct n as [|c| | | |]; try done; cbn; try (intros [= <-]; cbn; congruence).
  assert (file_truncate c 0 = Done []) as -> by (unfold file_truncate; by destruct c).
  cbn. intros [= <-]. cbn. rewrite lookup_insert_eq. congruence.
Qed.

(** The mode of a file opened with [flags]. *)
Definition mode_of (flags : Z) : bool * bool * bool :=
  let o := flags_to_options flags in (o_read o, o_write o || o_append o, o_append o).

Lemma cap_of_opts_modes o :
  contains (cap_of_opts o) Cap_READ = o_read o ∧ contains (cap_of_opts o) Cap_WRITE = o_write o || o_append o.
Proof. unfold cap_of_opts. destruct (o_read o), (o_write o || o_append o); done. Qed.


End refinement.

(** ** Examples *)

Definition always (a : Z) : bool := true.

Definition std_fds : gmap Z (cfile nat) :=
  <[2 := OtherFile 2%nat]> (<[1 := OtherFile 1%nat]> (<[0 := OtherFile 0%nat]> ∅)).

(** A state with the file system [fs] and the descriptors of the start. *)
Definition c_start (fs : fs_state) (t : FlattenObjects (gset Z) (cfile nat)) : fd_state (gset Z) (cfile nat) (fs_world unit) :=
  {| fd_table := t; errno := None; fd_world := Build_fs_world fs ∅ tt |}.

Definition start_table : outcome (FlattenObjects (gset Z) (cfile nat)) :=
  fd_table_init (OtherFile 0%nat) (OtherFile 1%nat) (OtherFile 2%nat).

Lemma c_start_repr fs : ∃ t, start_table = Done t ∧ fd_repr (c_start fs t) std_fds.
Proof. apply fd_table_init_spec. Qed.

Definition a_calls : list file_call :=
  [FWrite 3 [104; 105]; FDup 3; FSeek 4 4 1; FWrite 3 [33]; FSeek 4 0 0; FRead 3 100; FRead 4 1; FClose 3; FRead 3 1].

Definition a_results : list (result LinuxError file_ret) :=
  [Ok (RNum 2); Ok (RNum 4); Ok (RNum 6); Ok (RNum 1); Ok (RNum 0); Ok (RBytes [104; 105; 0; 0; 0; 0; 33]);
   Ok (RBytes []); Ok (RNum 0); Err EBADF].

Definition in_range_b {G} (p : posix G) : bool :=
  bool_decide (map_Forall (λ _ o, 0 ≤ of_pos o < 2 ^ 63) (p_open p)) &&
  bool_decide (map_Forall (λ _ data, Z.of_nat (length data) < 2 ^ 63) (p_data p)).

(** The state after an open, and what the calls above give in it. *)
Definition opened_check (r : outcome (fd_state (gset Z) (cfile nat) (fs_world unit) * result LinuxError Z)) : bool :=
  match r with
  | Done (s1, Ok fd) =>
      let p := abs s1 (<[3 := FsFile 0%nat]> std_fds) in
      (fd =? 3) && bool_decide (dom (fw_files (fd_world s1)) = {[0%nat]}) && in_range_b p &&
      match p_run a_calls p with Some (_, rs) => bool_decide (rs = a_results) | None => false end
  | _ => false
  end.

Lemma opened_check_inv r : opened_check r = true →
  ∃ s1 p, r = Done (s1, Ok 3) ∧ dom (fw_files (fd_world s1)) = {[0%nat]} ∧
    in_range (abs s1 (<[3 := FsFile 0%nat]> std_fds)) ∧
    p_run a_calls (abs s1 (<[3 := FsFile 0%nat]> std_fds)) = Some (p, a_results).
Proof.
  unfold opened_check. destruct r as [[s1 [fd|]]|]; [|done|done]. cbv zeta. intros Hc.
  apply andb_true_iff in Hc as [[[->%Z.eqb_eq Hdom%bool_decide_eq_true]%andb_true_iff Hin]%andb_true_iff Hres].
  apply andb_true_iff in Hin as [H1%bool_decide_eq_true H2%bool_decide_eq_true].
  destruct (p_run a_calls _) as [[p rs]|] eqn:Hp; [|done]. apply bool_decide_eq_true in Hres as ->.
  exists s1, p. split; [done|]. split; [exact Hdom|]. split; [exact (Build_in_range _ H1 H2)|exact Hp].
Qed.

Definition check_on {A} (f : A → bool) (o : outcome A) : bool :=
  match o with Done t => f t | Panic => false end.

Lemma check_on_inv {A} (f : A → bool) o t : check_on f o = true → o = Done t → f t = true.
Proof. by intros Hc ->. Qed.

Lemma open_a_ok :
  check_on (λ t, opened_check (open_body always (Some (lit "/tmp/a")) 0x242 (c_start booted t))) start_table = true.
Proof. vm_compute. reflexivity. Qed.

(** [open("/tmp/a", O_RDWR | O_CREAT | O_TRUNC)] gave descriptor 3. *)
Lemma open_a_state : ∃ t s1 p, fd_repr (c_start booted t) std_fds ∧
  open_body always (Some (lit "/tmp/a")) 0x242 (c_start booted t) = Done (s1, Ok 3) ∧
  dom (fw_files (fd_world s1)) = {[0%nat]} ∧ in_range (abs s1 (<[3 := FsFile 0%nat]> std_fds)) ∧
  p_run a_calls (abs s1 (<[3 := FsFile 0%nat]> std_fds)) = Some (p, a_results).
Proof.
  destruct (c_start_repr booted) as (t & Ht & Hr).
  pose proof (check_on_inv _ _ t open_a_ok Ht) as Hc. cbv beta in Hc.
  destruct (opened_check_inv _ Hc) as (s1 & p & H). exists t, s1, p. split; [exact Hr|exact H].
Qed.


(** ** Where the calls differ from those of POSIX *)

(** [O_CREAT | O_EXCL] is taken for [O_CREAT]. *)
Example open_ignores_excl : flags_to_options 0xc2 = flags_to_options 0x42 ∧ o_create_new (flags_to_options 0xc2) = false.
Proof. done. Qed.

(** A file opened with [O_RDONLY | O_APPEND] can be written. *)
Example append_grants_write : mode_of (Z.lor O_RDONLY O_APPEND) = (true, true, true).
Proof. done. Qed.

(** [O_RDONLY | O_CREAT] and [O_WRONLY | O_APPEND | O_TRUNC] are refused. *)
Example create_read_only_refused :
  is_valid (flags_to_options (Z.lor O_RDONLY O_CREAT)) = false ∧
  is_valid (flags_to_options (Z.lor O_WRONLY (Z.lor O_APPEND O_TRUNC))) = false.
Proof. done. Qed.

(** [lseek] takes a negative position from the start, and the next read
    panics. *)
Definition panics_after_seek (r : outcome (fd_state (gset Z) (cfile nat) (fs_world unit) * result LinuxError Z)) : bool :=
  match r with
  | Done (s1, Ok fd) =>
      match run_file_calls [FWrite fd [104; 105]; FSeek fd (-1) 0] s1 with
      | Done (s2, [Ok (RNum 2); Ok (RNum (-1))]) => negb (is_done (run_file_calls [FRead fd 2] s2))
      | _ => false
      end
  | _ => false
  end.

Example negative_seek_panics :
  check_on (λ t, panics_after_seek (open_body always (Some (lit "/tmp/a")) 0x242 (c_start booted t))) start_table = true.
Proof. vm_compute. reflexivity. Qed.
