(* ===== verification/Shell.v ===== *)
(** * The shell ([apps/fs/shell/src])

    The commands of [cmd.rs] over the file system module, and the line editor
    of [main.rs].  The state is the file system and the bytes written to the
    console; texts are lists of characters, and an index into one that is not
    at the boundary of a character panics, as in the code.  What the build
    sets is given by parameters. *)

From S2P Require Import Prelude Utf8 AxErrno BTree Path Vfs AxIo AxFs.
From stdpp Require Import base numbers list gmap strings pretty sorting.

Open Scope Z_scope.

(** ** What the code uses of [str] *)

(** [char::is_whitespace]. *)
Definition is_whitespace (c : Z) : bool :=
  ((9 <=? c) && (c <=? 13)) || (c =? 32) || (c =? 0x85) || (c =? 0xa0) || (c =? 0x1680) ||
  ((0x2000 <=? c) && (c <=? 0x200a)) || (c =? 0x2028) || (c =? 0x2029) || (c =? 0x202f) || (c =? 0x205f) || (c =? 0x3000).

Fixpoint trim_left (s : str) : str :=
  match s with [] => [] | c :: s' => if is_whitespace c then trim_left s' else s end.

(** [s.trim()]. *)
Definition trim (s : str) : str := reverse (trim_left (reverse (trim_left s))).

(** [s.find(char::is_whitespace)]: the text in front of the first whitespace. *)
Fixpoint before_whitespace (s : str) : option str :=
  match s with
  | [] => None
  | c :: s => if is_whitespace c then Some [] else cons c <$> before_whitespace s
  end.

(** [s.split_whitespace()]; [w] is the word so far. *)
Fixpoint words_from (w : str) (s : str) : list str :=
  match s with
  | [] => if decide (w = []) then [] else [w]
  | c :: s =>
      if is_whitespace c then (if decide (w = []) then words_from [] s else w :: words_from [] s)
      else words_from (w ++ [c]) s
  end.

Definition words (s : str) : list str := words_from [] s.

(** [s.rfind(c)] for a character of one byte, as the texts in front of it and
    behind it. *)
Fixpoint rsplit (c : Z) (s : str) : option (str * str) :=
  match s with
  | [] => None
  | x :: s =>
      match rsplit c s with
      | Some (a, b) => Some (x :: a, b)
      | None => if x =? c then Some ([], s) else None
      end
  end.

(** [split_whitespace] of [cmd.rs]. *)
Definition split_whitespace (s : str) : outcome (str * str) :=
  let s := trim s in
  match before_whitespace s with
  | None => Done (s, [])
  | Some a => rest ← str_from s (str_len a + 1); Done (a, trim rest)
  end.

(** [{:>8}] of a number. *)
Definition pad8 (n : Z) : str :=
  let d := lit (pretty n) in replicate (8 - length d) 32 ++ d.

(** [Ord] on [String], as used by [sort]. *)
Definition str_le (a b : str) : Prop := str_ltb b a = false.
#[global] Instance str_le_dec a b : Decision (str_le a b).
Proof. unfold str_le. apply _. Defined.

(** ** [structs.rs] *)

Definition as_char (ty : VfsNodeType) : Z :=
  match ty with
  | Fifo => 112 | CharDevice => 99 | Dir => 100 | BlockDevice => 98 | File => 45 | SymLink => 108 | Socket => 115
  end.

Definition rwx_buf (perm : Z) : list Z :=
  [if contains perm 256 then 114 else 45; if contains perm 128 then 119 else 45; if contains perm 64 then 120 else 45;
   if contains perm 32 then 114 else 45; if contains perm 16 then 119 else 45; if contains perm 8 then 120 else 45;
   if contains perm 4 then 114 else 45; if contains perm 2 then 119 else 45; if contains perm 1 then 120 else 45].

(** ** State *)

Record shell := { sh_fs : fs_state; sh_out : list Z }.

Definition with_fs (fs : fs_state) (s : shell) : shell := {| sh_fs := fs; sh_out := sh_out s |}.

(** [stdout().write(bytes)], which takes all of them. *)
Definition stdout_write (bytes : list Z) : stm shell AxError unit :=
  modify (λ s, {| sh_fs := sh_fs s; sh_out := sh_out s ++ bytes |}).

Definition print (text : str) : stm shell AxError unit := stdout_write (as_bytes text).
Definition println (text : str) : stm shell AxError unit := print (text ++ [10]).

Definition fs_call {T} (m : stm fs_state AxError T) : stm shell AxError T := λ s,
  r ← m (sh_fs s); Done (with_fs r.1 s, r.2).

(** [if let Err(e) = m { print_err!(cmd, arg, e.as_str()) }]. *)
Definition or_print (cmd : string) (arg : str) (m : stm shell AxError unit) : stm shell AxError unit := λ s,
  match m s with
  | Done (s, Err e) => println (lit cmd ++ lit ": " ++ arg ++ lit ": " ++ lit (as_str e)) s
  | r => r
  end.

(** [print_err!(cmd, msg)]. *)
Definition print_err (cmd msg : string) : stm shell AxError unit := println (lit cmd ++ lit ": " ++ lit msg).

(** [for x in l { f(x) }]. *)
Fixpoint for_each {X} (l : list X) (f : X → stm shell AxError unit) : stm shell AxError unit :=
  match l with [] => mret tt | x :: l => _ ← f x; for_each l f end.

Section commands.
Context (alive : Z → bool) (fuel : nat).
Context (ARCH PLATFORM SMP CARGO_PKG_VERSION : option string).

(** ** [do_ls] *)

Definition show_entry_info (path entry : str) : stm shell AxError unit :=
  metadata ← fs_call (api_metadata alive path);
  println ([as_char (attr_ty metadata)] ++ rwx_buf (attr_mode metadata) ++ [32] ++ pad8 (attr_size metadata) ++ [32] ++ entry).

(** [fs::read_dir(name)?.filter_map(|e| e.ok()).map(|e| e.file_name())]; a name
    is text of the file system. *)
Fixpoint entry_names (n : nat) (rd : ReadDir) (fs : fs_state) : outcome (list str) :=
  match n with
  | O => Panic
  | S n =>
      '(e, rd) ← read_dir_next fuel fs rd;
      match e with
      | None => Done []
      | Some (Err _) => entry_names n rd fs
      | Some (Ok (bytes, _)) =>
          name ← unwrap (from_utf8 bytes);
          rest ← entry_names n rd fs;
          Done (name :: rest)
      end
  end.

Definition list_one (name : str) (print_name : bool) : stm shell AxError unit :=
  metadata ← fs_call (api_metadata alive name);
  if negb (attr_is_dir metadata) then show_entry_info name name
  else
    _ ← (if print_name then println (name ++ lit ":") else mret tt);
    rd ← fs_call (read_dir alive name);
    fs ← gets sh_fs;
    entries ← of_outcome (entry_names fuel rd fs);
    for_each (merge_sort str_le entries) (λ entry,
      let path := name ++ lit "/" ++ entry in
      or_print "ls" path (show_entry_info path entry)).

(** The names, each but the first after an empty line. *)
Definition do_ls (args : str) : stm shell AxError unit :=
  current_dir ← fs_call current_dir;
  let args := if decide (args = []) then current_dir else args in
  let names := words args in
  let name_count := length names in
  for_each (zip (seq 0 name_count) names) (λ '(i, name),
    _ ← (if (0 <? i)%nat then println [] else mret tt);
    or_print "ls" name (list_one name (1 <? name_count)%nat)).

(** ** [do_cat] *)

Fixpoint cat_loop (n : nat) (f : FileObj) : stm shell AxError unit := λ s,
  match n with
  | O => Panic
  | S n =>
      match file_read 1024 (sh_fs s, f) with
      | Done ((fs, f), Ok bytes) =>
          let s := with_fs fs s in
          if (0 <? length bytes)%nat then (_ ← stdout_write bytes; cat_loop n f) s else Done (s, Ok tt)
      | Done ((fs, f), Err e) => Done (with_fs fs s, Err e)
      | Panic => Panic
      end
  end.

Definition cat_one (fname : str) : stm shell AxError unit :=
  f ← fs_call (api_open alive fname); cat_loop fuel f.

Definition do_cat (args : str) : stm shell AxError unit :=
  if decide (args = []) then print_err "cat" "no file specified"
  else for_each (words args) (λ fname, or_print "cat" fname (cat_one fname)).

(** ** [do_echo] *)

(** [for text in text_list { file.write_all(text.as_bytes())? }]. *)
Fixpoint write_texts (texts : list str) : stm (fs_state * FileObj) AxError unit :=
  match texts with
  | [] => mret tt
  | text :: texts => _ ← write_all fuel (as_bytes text); write_texts texts
  end.

Definition echo_file (fname : str) (text_list : list str) : stm shell AxError unit :=
  f ← fs_call (api_create alive fname);
  fs_call (with_file f (write_texts text_list)).

Definition do_echo (args : str) : stm shell AxError unit :=
  match rsplit 62 args with
  | Some (before, after) =>
      let text_before := trim before in
      '(fname, text_after) ← of_outcome (split_whitespace after);
      if decide (fname = []) then print_err "echo" "no file specified"
      else
        let text_list := [text_before; if decide (text_after = []) then [] else [32]; text_after; [10]] in
        or_print "echo" fname (echo_file fname text_list)
  | None => println args
  end.

(** ** The other commands *)

Definition do_mkdir (args : str) : stm shell AxError unit :=
  if decide (args = []) then print_err "mkdir" "missing operand"
  else for_each (words args) (λ path,
    or_print "mkdir" (lit "cannot create directory '" ++ path ++ lit "'") (fs_call (dir_builder_create alive false path))).

Definition rm_one (path : str) (rm_dir : bool) : stm shell AxError unit :=
  dir ← (if rm_dir then (m ← fs_call (api_metadata alive path); mret (attr_is_dir m)) else mret false);
  if (dir : bool) then fs_call (remove_dir alive None path) else fs_call (remove_file alive None path).

Definition do_rm (args : str) : stm shell AxError unit :=
  if decide (args = []) then print_err "rm" "missing operand"
  else
    let rm_dir := existsb (λ arg, bool_decide (arg = lit "-d")) (words args) in
    for_each (words args) (λ path,
      if decide (path = lit "-d") then mret tt
      else or_print "rm" (lit "cannot remove '" ++ path ++ lit "'") (rm_one path rm_dir)).

Definition do_cd (args : str) : stm shell AxError unit :=
  let args := if decide (args = []) then lit "/" else args in
  if negb (existsb is_whitespace args) then or_print "cd" args (fs_call (set_current_dir alive args))
  else print_err "cd" "too many arguments".

Definition do_pwd (args : str) : stm shell AxError unit := pwd ← fs_call current_dir; println pwd.

Definition do_uname (args : str) : stm shell AxError unit :=
  let arch := default EmptyString ARCH in
  let platform := default EmptyString PLATFORM in
  let smp := if decide (SMP = None ∨ SMP = Some "1"%string) then EmptyString else " SMP"%string in
  let version := default "0.1.0"%string CARGO_PKG_VERSION in
  println (lit "ArceOS " ++ lit version ++ lit smp ++ lit " " ++ lit arch ++ lit " " ++ lit platform).

Definition CMD_NAMES : list string :=
  ["cat"; "cd"; "echo"; "exit"; "help"; "ls"; "mkdir"; "pwd"; "rm"; "uname"]%string.

Definition do_help (args : str) : stm shell AxError unit :=
  _ ← println (lit "Available commands:");
  for_each CMD_NAMES (λ name, println (lit "  " ++ lit name)).

(** The table of the commands; [exit] is the one that does not return. *)
Definition CMD_TABLE : list (string * option (str → stm shell AxError unit)) :=
  [("cat", Some do_cat); ("cd", Some do_cd); ("echo", Some do_echo); ("exit", None); ("help", Some do_help);
   ("ls", Some do_ls); ("mkdir", Some do_mkdir); ("pwd", Some do_pwd); ("rm", Some do_rm); ("uname", Some do_uname)]%string.

(** The result says whether the shell goes on.  Bytes that are not UTF-8 have
    no meaning in the code, which does not check them. *)
Definition run_cmd (line : list Z) : stm shell AxError bool :=
  line_str ← of_outcome (unwrap (from_utf8 line));
  '(cmd, args) ← of_outcome (split_whitespace line_str);
  if decide (cmd = []) then mret true
  else match list_find (λ c, lit c.1 = cmd) CMD_TABLE with
       | Some (_, (_, Some func)) => _ ← func args; mret true
       | Some (_, (_, None)) => mret false
       | None => _ ← println (cmd ++ lit ": command not found"); mret true
       end.

(** ** [main.rs] *)

Definition MAX_CMD_LEN : nat := 256.

Record editor := { ed_buf : list Z; ed_cursor : nat }.

Definition print_prompt : stm shell AxError unit :=
  d ← fs_call current_dir; print (lit "arceos:" ++ d ++ lit "$ ").

(** One round of the loop, for the byte [c] that was read. *)
Definition main_step (c : Z) (e : editor) : stm shell AxError (editor * bool) :=
  if negb (ed_cursor e <? length (ed_buf e))%nat then panic
  else
    let c := if c =? 0x1b then 94 else c in
    let buf := <[ed_cursor e := c]> (ed_buf e) in
    let stay := mret ({| ed_buf := buf; ed_cursor := ed_cursor e |}, true) in
    if (c =? 13) || (c =? 10) then
      _ ← println [];
      go ← (if (0 <? ed_cursor e)%nat then run_cmd (take (ed_cursor e) buf) else mret true);
      if (go : bool) then
        _ ← print_prompt;
        mret ({| ed_buf := buf; ed_cursor := 0 |}, true)
      else mret ({| ed_buf := buf; ed_cursor := 0 |}, false)
    else if (c =? 8) || (c =? 0x7f) then
      if (0 <? ed_cursor e)%nat then
        _ ← stdout_write [8; 32; 8];
        mret ({| ed_buf := buf; ed_cursor := ed_cursor e - 1 |}, true)
      else stay
    else if c <=? 31 then stay
    else if (ed_cursor e <? MAX_CMD_LEN - 1)%nat then
      _ ← stdout_write [c];
      mret ({| ed_buf := buf; ed_cursor := ed_cursor e + 1 |}, true)
    else stay.

(** The loop on the bytes of the console, until [exit] or their end. *)
Fixpoint main_loop (input : list Z) (e : editor) : stm shell AxError bool :=
  match input with
  | [] => mret true
  | c :: input => '(e, go) ← main_step c e; if (go : bool) then main_loop input e else mret false
  end.

Definition shell_main (input : list Z) : stm shell AxError bool :=
  _ ← run_cmd (lit "help");
  _ ← print_prompt;
  main_loop input {| ed_buf := replicate MAX_CMD_LEN 0; ed_cursor := 0 |}.

End commands.
