(* ===== verification/ShellSpec.v ===== *)
(** * What the shell does with the lines that are typed

    The line editor with its buffer and cursor is an editor of a list of
    characters that never leaves the buffer, and a line is run exactly as it
    stands there.  What [echo] stores in a file, [cat] prints. *)

From S2P Require Import Prelude Utf8 AxErrno BTree Path Vfs VfsSpec AxIo AxFs AxFsSpec Shell.
From stdpp Require Import base numbers list gmap strings.

Open Scope Z_scope.

(** ** The line editor *)

Section editor.
Context (alive : Z → bool) (fuel : nat) (arch platform smp version : option string).
#[local] Abbreviation run := (run_cmd alive fuel arch platform smp version).

(** The editor as it is meant: the line is a list of at most 255 bytes. *)
Definition line_step (c : Z) (line : list Z) : stm shell AxError (list Z * bool) :=
  let c := if c =? 0x1b then 94 else c in
  if (c =? 13) || (c =? 10) then
    _ ← println [];
    go ← (if decide (line = []) then mret true else run line);
    if (go : bool) then _ ← print_prompt; mret ([], true) else mret ([], false)
  else if (c =? 8) || (c =? 0x7f) then
    if decide (line = []) then mret ([], true)
    else _ ← stdout_write [8; 32; 8]; mret (take (length line - 1) line, true)
  else if c <=? 31 then mret (line, true)
  else if (length line <? 255)%nat then _ ← stdout_write [c]; mret (line ++ [c], true)
  else mret (line, true).

Fixpoint line_loop (input line : list Z) : stm shell AxError bool :=
  match input with
  | [] => mret true
  | c :: input => '(line, go) ← line_step c line; if (go : bool) then line_loop input line else mret false
  end.

Record edits (e : editor) (line : list Z) : Prop := {
  ed_len : length (ed_buf e) = 256%nat;
  ed_room : (ed_cursor e ≤ 255)%nat;
  ed_line : take (ed_cursor e) (ed_buf e) = line;
}.

Lemma edits_length e line : edits e line → length line = ed_cursor e.
Proof. intros [H1 H2 <-]. rewrite length_take. lia. Qed.

Lemma edits_nil e line : edits e line → (0 <? ed_cursor e)%nat = negb (bool_decide (line = [])).
Proof.
  intros He%edits_length. rewrite <- He. by destruct line.
Qed.

(** Storing the byte that was read does not change the line. *)
Lemma edits_store c e line : edits e line → take (ed_cursor e) (<[ed_cursor e := c]> (ed_buf e)) = line.
Proof. intros [H1 H2 <-]. by rewrite take_insert_ge by lia. Qed.

(** The two results of a round that belong together. *)
Definition matches (r : outcome (shell * result AxError (editor * bool))) (r' : outcome (shell * result AxError (list Z * bool))) : Prop :=
  match r, r' with
  | Panic, Panic => True
  | Done (s, Err e), Done (s', Err e') => s = s' ∧ e = e'
  | Done (s, Ok (e, go)), Done (s', Ok (line, go')) => s = s' ∧ go = go' ∧ edits e line
  | _, _ => False
  end.

Lemma matches_bind {T} (m : stm shell AxError T) k k' s : (∀ t s, matches (k t s) (k' t s)) → matches ((m ≫= k) s) ((m ≫= k') s).
Proof. intros Hk. unfold mbind, stm_bind. destruct (m s) as [[s1 [t|e]]|]; [apply Hk|done|done]. Qed.

Lemma main_step_matches c e line s : edits e line →
  matches (main_step alive fuel arch platform smp version c e s) (line_step c line s).
Proof.
  intros He. pose proof (edits_length _ _ He) as Hlen. unfold main_step, line_step. cbv zeta.
  rewrite (proj2 (Nat.ltb_lt _ _)) by (destruct He; lia). cbn [negb].
  set (c' := if c =? 27 then 94 else c). rewrite (edits_store c' e line He), (edits_nil e line He).
  assert (∀ k, (k ≤ 255)%nat → ∀ l, take k (<[ed_cursor e := c']> (ed_buf e)) = l →
    edits {| ed_buf := <[ed_cursor e := c']> (ed_buf e); ed_cursor := k |} l) as Hed.
  { intros k Hk l Hl. split; cbn; [by rewrite length_insert, (ed_len _ _ He)|done|done]. }
  destruct ((c' =? 13) || (c' =? 10)).
  { apply matches_bind. intros _ s1.
    assert ((if negb (bool_decide (line = [])) then run line else mret true) = (if decide (line = []) then mret true else run line)) as ->
      by (case_decide; by rewrite ?bool_decide_eq_true_2, ?bool_decide_eq_false_2 by done).
    apply matches_bind. intros [] s2; [apply matches_bind; intros _ s3|]; (split; [done|split; [done|apply Hed; [lia|done]]]). }
  destruct ((c' =? 8) || (c' =? 127)).
  { case_decide as Hl.
    - rewrite bool_decide_eq_true_2 by done. cbn [negb]. split; [done|]. split; [done|].
      apply Hed; [apply He|]. rewrite (edits_store c' e line He). exact Hl.
    - rewrite bool_decide_eq_false_2 by done. cbn [negb]. apply matches_bind. intros _ s1.
      split; [done|]. split; [done|]. apply Hed; [destruct He; lia|]. rewrite Hlen, <- (edits_store c' e line He), take_take.
      f_equal. lia. }
  destruct (c' <=? 31).
  { split; [done|]. split; [done|]. apply Hed; [apply He|by apply edits_store]. }
  rewrite Hlen. change (MAX_CMD_LEN - 1)%nat with 255%nat. destruct (ed_cursor e <? 255)%nat eqn:Hc.
  - apply matches_bind. intros _ s1. split; [done|]. split; [done|]. apply Nat.ltb_lt in Hc. apply Hed; [lia|].
    rewrite Nat.add_1_r. erewrite take_S_r by (apply list_lookup_insert_eq; rewrite (ed_len _ _ He); lia).
    by rewrite (edits_store c' e line He).
  - split; [done|]. split; [done|]. apply Hed; [apply He|by apply edits_store].
Qed.

Lemma main_loop_eq input : ∀ e line s, edits e line →
  main_loop alive fuel arch platform smp version input e s = line_loop input line s.
Proof.
  induction input as [|c input IH]; intros e line s He; [done|]. cbn [main_loop line_loop].
  pose proof (main_step_matches c e line s He) as Hm. unfold mbind, stm_bind.
  destruct (main_step _ _ _ _ _ _ c e s) as [[s1 [[e1 go]|er]]|], (line_step c line s) as [[s2 [[l2 go2]|er2]]|]; try done.
  - destruct Hm as (-> & -> & He1). destruct go2; [by apply IH|done].
  - by destruct Hm as [-> ->].
Qed.

(** C20: Whatever is typed, the shell does what an editor of a list of
    characters does: printing characters are appended while there are fewer
    than 255, backspace removes the last one, other control characters are
    dropped, and at the end of the line it is run as it stands and a new one
    begun.  In particular the cursor never leaves the buffer. *)
Theorem shell_edits_lines input s :
  shell_main alive fuel arch platform smp version input s =
    (_ ← run (lit "help"); _ ← print_prompt; line_loop input []) s.
Proof.
  unfold shell_main, mbind, stm_bind. destruct (run (lit "help") s) as [[s1 [go|e]]|]; [|done|done].
  destruct (print_prompt s1) as [[s2 [[]|e]]|]; [|done|done]. apply main_loop_eq. split; cbn; [done|lia|done].
Qed.

End editor.

(** ** Words *)

Definition no_whitespace (s : str) : Prop := Forall (λ c, is_whitespace c = false) s.

Lemma trim_left_le s : (length (trim_left s) ≤ length s)%nat.
Proof. induction s as [|c s IH]; cbn; [lia|]. destruct (is_whitespace c); cbn; lia. Qed.

Lemma trim_left_none s : no_whitespace s → trim_left s = s.
Proof. intros [|c s' Hc _]; cbn; [done|by rewrite Hc]. Qed.

Lemma trim_none s : no_whitespace s → trim s = s.
Proof.
  intros Hs. unfold trim. rewrite (trim_left_none s) by done.
  rewrite trim_left_none; [apply reverse_involutive|]. unfold no_whitespace. by rewrite Forall_reverse.
Qed.

(** A space behind a text that is trimmed is trimmed away. *)
Lemma trim_space s : trim s = s → trim (s ++ [32]) = s.
Proof.
  intros Hs. destruct s as [|c s]; [done|]. assert (is_whitespace c = false) as Hc.
  { destruct (is_whitespace c) eqn:Hc; [|done]. apply (f_equal length) in Hs. revert Hs. unfold trim. cbn [trim_left length]. rewrite Hc, length_reverse.
    pose proof (trim_left_le (reverse (trim_left s))). pose proof (trim_left_le s). rewrite length_reverse in *. lia. }
  rewrite <- Hs at 2. unfold trim. cbn [trim_left app]. rewrite Hc, app_comm_cons, reverse_app. done.
Qed.

Lemma before_whitespace_none s : no_whitespace s → before_whitespace s = None.
Proof. induction 1 as [|c s Hc _ IH]; cbn; [done|by rewrite Hc, IH]. Qed.

Lemma split_whitespace_word s : no_whitespace s → split_whitespace (32 :: s) = Done (s, []).
Proof.
  intros Hs. unfold split_whitespace. change (trim (32 :: s)) with (trim s). by rewrite trim_none, before_whitespace_none.
Qed.

Lemma words_from_word s : no_whitespace s → ∀ w, w ++ s ≠ [] → words_from w s = [w ++ s].
Proof.
  induction 1 as [|c s Hc _ IH]; intros w Hw; cbn.
  - rewrite app_nil_r in *. by rewrite decide_False.
  - rewrite Hc, IH, <- (assoc_L (++)) by (rewrite <- (assoc_L (++)); apply Hw). done.
Qed.

Lemma rsplit_none c s : c ∉ s → rsplit c s = None.
Proof.
  induction s as [|x s IH]; cbn; [done|]. intros [Hx Hs]%not_elem_of_cons. rewrite IH by done.
  by rewrite (proj2 (Z.eqb_neq _ _)).
Qed.

Lemma rsplit_last c a b : c ∉ b → rsplit c (a ++ c :: b) = Some (a, b).
Proof.
  intros Hb. induction a as [|x a IH]; cbn; [by rewrite rsplit_none, Z.eqb_refl|by rewrite IH].
Qed.

(** ** [echo] and [cat] *)

Section echo.
Context (alive : Z → bool) (fuel : nat).

Definition texts_bytes (texts : list str) : list Z := concat (as_bytes <$> texts).

(** The texts end up behind each other at the end of the file. *)
Lemma write_texts_end node texts : ∀ content fs,
  nodes (store fs) !! node = Some (RamFile content) → (2 ≤ fuel)%nat →
  Z.of_nat (length content) + Z.of_nat (length (texts_bytes texts)) < 2 ^ 63 →
  ∃ f', write_texts fuel texts (fs, write_handle node (Z.of_nat (length content))) =
    Done ((with_content node (content ++ texts_bytes texts) fs, f'), Ok tt).
Proof.
  induction texts as [|t texts IH]; intros content fs Hn Hf Hl; cbn [write_texts].
  { eexists. unfold texts_bytes. cbn. rewrite app_nil_r, with_content_id by done. done. }
  change (texts_bytes (t :: texts)) with (as_bytes t ++ texts_bytes texts) in *. rewrite length_app in Hl.
  rewrite (bind_done _ _ _ _ _ (write_all_end fs node content (as_bytes t) fuel Hn ltac:(lia) Hf)).
  rewrite <- Nat2Z.inj_add, <- length_app.
  destruct (IH (content ++ as_bytes t) (with_content node (content ++ as_bytes t) fs)) as [f' Hr];
    [apply with_content_lookup|done|rewrite length_app; lia|].
  exists f'. rewrite Hr, with_content_twice, <- (assoc_L (++)). done.
Qed.

Lemma write_texts_dev node texts fs : nodes (store fs) !! node = Some NullDev ∨ nodes (store fs) !! node = Some ZeroDev →
  (2 ≤ fuel)%nat → ∀ off, ∃ f', write_texts fuel texts (fs, write_handle node off) = Done ((fs, f'), Ok tt).
Proof.
  intros Hn Hf. induction texts as [|t texts IH]; intros off; cbn [write_texts]; [by eexists|].
  destruct (write_all_dev fs node off (as_bytes t) fuel Hn Hf) as [off' Hw]. rewrite (bind_done _ _ _ _ _ Hw). apply IH.
Qed.

(** [cat] prints what is left of the file. *)
Lemma cat_loop_eq fs content n : Z.of_nat (length content) < 2 ^ 63 → ∀ f out,
  is_file fs f content → contains (cap_cap (f_node f)) Cap_READ = true → 0 ≤ f_offset f < 2 ^ 63 →
  (length (drop (Z.to_nat (f_offset f)) content) < n)%nat →
  cat_loop n f {| sh_fs := fs; sh_out := out |} =
    Done ({| sh_fs := fs; sh_out := out ++ drop (Z.to_nat (f_offset f)) content |}, Ok tt).
Proof.
  intros Hlen. induction n as [|n IH]; intros f out Hf Hc Ho Hn; [lia|]. cbn [cat_loop sh_fs].
  rewrite (file_read_eq fs f content 1024) by (done || lia). cbv zeta beta iota.
  set (rest := drop (Z.to_nat (f_offset f)) content) in *. set (bs := take (Z.to_nat 1024) rest).
  assert (length bs = (1024 `min` length rest)%nat) as Hbs by (unfold bs; rewrite length_take; lia).
  assert (length rest = (length content - Z.to_nat (f_offset f))%nat) as Hrest by apply length_drop.
  destruct (Nat.ltb_spec 0 (length bs)) as [Hb|Hb].
  - unfold stdout_write, modify, mbind, stm_bind, with_fs. cbn [sh_fs sh_out].
    rewrite IH; cbn [f_offset f_node at_offset]; try done; try lia; rewrite Z2Nat.inj_add, Nat2Z.id, <- drop_drop by lia; fold rest.
    + rewrite <- (assoc_L (++)). do 4 f_equal. rewrite <- (take_drop (length bs) rest) at 2. f_equal.
      rewrite Hbs. destruct (Nat.min_spec 1024 (length rest)) as [[? ->]|[? ->]]; [done|]. unfold bs. by rewrite !take_ge by lia.
    + rewrite length_drop. lia.
  - assert (rest = []) as -> by (apply nil_length_inv; lia). unfold with_fs. cbn [sh_out]. by rewrite app_nil_r.
Qed.

Lemma fs_call_out {T} (m : stm fs_state AxError T) s s' r : fs_call m s = Done (s', r) →
  m (sh_fs s) = Done (sh_fs s', r) ∧ sh_out s' = sh_out s.
Proof.
  unfold fs_call, mbind, outcome_bind. destruct (m (sh_fs s)) as [[fs r']|]; [|done]. by intros [= <- <-].
Qed.

(** Writing to a file prints nothing. *)
Lemma echo_file_out fname texts s s' r : echo_file alive fuel fname texts s = Done (s', r) → sh_out s' = sh_out s.
Proof.
  unfold echo_file, mbind, stm_bind. destruct (fs_call (api_create alive fname) s) as [[s1 [f|e]]|] eqn:Hc; [| |done].
  - intros [_ ->]%fs_call_out. by apply fs_call_out in Hc as [_ ->].
  - intros [= <- <-]. by apply fs_call_out in Hc as [_ ->].
Qed.

(** A message is printed exactly when there was an error. *)
Lemma or_print_quiet cmd arg m s s1 : (∀ s' r, m s = Done (s', r) → sh_out s' = sh_out s) →
  or_print cmd arg m s = Done (s1, Ok tt) → sh_out s1 = sh_out s → m s = Done (s1, Ok tt).
Proof.
  intros Hout. unfold or_print. destruct (m s) as [[s2 [[]|e]]|]; [by intros [= <-]| |done].
  unfold println, print, stdout_write, modify. intros [= <-]. cbn [sh_out]. rewrite (Hout s2 (Err e) eq_refl).
  intros Hq. apply (f_equal length) in Hq. unfold as_bytes in Hq. rewrite bind_app, !length_app in Hq. cbn in Hq. lia.
Qed.

(** The file that was written is found, with the texts. *)
Lemma echo_file_spec fname texts s s1 : (2 ≤ fuel)%nat → Z.of_nat (length (texts_bytes texts)) < 2 ^ 63 →
  echo_file alive fuel fname texts s = Done (s1, Ok tt) →
  ∃ node, fs_lookup alive None fname (sh_fs s1) = Done (sh_fs s1, Ok node) ∧
    (nodes (store (sh_fs s1)) !! node = Some (RamFile (texts_bytes texts)) ∨
     nodes (store (sh_fs s1)) !! node = Some NullDev ∨ nodes (store (sh_fs s1)) !! node = Some ZeroDev).
Proof.
  intros Hf Hl He. unfold echo_file in He. apply bind_ok_inv in He as (s2 & f & [Hc _]%fs_call_out & [Hw _]%fs_call_out).
  apply api_create_spec in Hc as (node & -> & [[Hn Hlk]|[Hn Hlk]]); unfold with_file in Hw; exists node.
  - destruct (write_texts_end node texts [] (sh_fs s2) Hn Hf ltac:(cbn; lia)) as [f' Hr].
    change (Z.of_nat (length [])) with 0 in Hr. rewrite Hr in Hw. injection Hw as <-.
    split; [apply Hlk|left; apply with_content_lookup].
  - destruct (write_texts_dev node texts (sh_fs s2) Hn Hf 0) as [f' Hr]. rewrite Hr in Hw. injection Hw as <-. by split; [|right].
Qed.

Lemma cat_one_found fname s node content : fs_lookup alive None fname (sh_fs s) = Done (sh_fs s, Ok node) →
  nodes (store (sh_fs s)) !! node = Some (RamFile content) → Z.of_nat (length content) < 2 ^ 63 → (length content < fuel)%nat →
  cat_one alive fuel fname s = Done ({| sh_fs := sh_fs s; sh_out := sh_out s ++ content |}, Ok tt).
Proof.
  intros Hlk Hn Hl Hf. unfold cat_one, fs_call, mbind, stm_bind, outcome_bind.
  rewrite (api_open_found _ _ _ _ _ Hlk Hn). unfold with_fs. cbn [fst snd].
  by rewrite (cat_loop_eq _ content).
Qed.

(** What [echo text > file] stores, [cat file] prints: if [echo] printed no
    message, [cat] ends without one and prints exactly the bytes of the text
    and an end of line, whatever the text and whether the file was there
    before or not; the devices [null] and [zero] are the exception. *)
Theorem echo_then_cat text fname s s1 :
  let line := as_bytes (text ++ [10]) in
  trim text = text → fname ≠ [] → no_whitespace fname → 62 ∉ fname →
  Z.of_nat (length line) < 2 ^ 63 → (length line < fuel)%nat →
  do_echo alive fuel (text ++ lit " > " ++ fname) s = Done (s1, Ok tt) → sh_out s1 = sh_out s →
  (∀ a, fs_lookup alive None fname (sh_fs s1) = Done (sh_fs s1, Ok a) →
     nodes (store (sh_fs s1)) !! a ≠ Some NullDev ∧ nodes (store (sh_fs s1)) !! a ≠ Some ZeroDev) →
  do_cat alive fuel fname s1 = Done ({| sh_fs := sh_fs s1; sh_out := sh_out s ++ line |}, Ok tt).
Proof.
  intros line Ht Hne Hws Hgt Hl Hf He Hq Hdev. unfold do_echo in He.
  change (lit " > " ++ fname) with ([32] ++ 62 :: 32 :: fname) in He. rewrite (assoc_L (++) text) in He.
  rewrite rsplit_last in He by (by apply not_elem_of_cons). rewrite trim_space, split_whitespace_word in He by done.
  unfold of_outcome, mbind, stm_bind, outcome_bind in He. cbn in He. rewrite decide_False in He by done.
  apply or_print_quiet in He; [|intros s' r; apply echo_file_out|done].
  assert (texts_bytes [text; []; []; [10]] = line) as Hline.
  { unfold texts_bytes, line, as_bytes. rewrite bind_app. done. }
  assert (2 ≤ fuel)%nat as Hf2 by (revert Hf; unfold line, as_bytes; rewrite bind_app, length_app; cbn; lia).
  apply (echo_file_spec _ [text; []; []; [10]]) in He as (node & Hlk & Hn); [|lia|by rewrite Hline].
  destruct Hn as [Hn|Hn]; [|destruct (Hdev node Hlk); naive_solver]. rewrite Hline in Hn.
  unfold do_cat. rewrite decide_False by done. unfold words. rewrite words_from_word by done. cbn [app for_each].
  unfold or_print, mbind, stm_bind. rewrite (cat_one_found _ _ _ _ Hlk Hn Hl Hf), Hq. done.
Qed.

End echo.

Definition sh0 : shell := {| sh_fs := booted; sh_out := [] |}.

Definition echoed : shell :=
  if do_echo (λ _, true) 9 (lit "a > b > /tmp/f") sh0 is Done r then r.1 else sh0.

Lemma echo_then_cat_witness :
  do_cat (λ _, true) 9 (lit "/tmp/f") echoed = Done ({| sh_fs := sh_fs echoed; sh_out := lit "a > b" ++ [10] |}, Ok tt).
Proof.
  assert (do_echo (λ _, true) 9 (lit "a > b" ++ lit " > " ++ lit "/tmp/f") sh0 = Done (echoed, Ok tt)) as He
    by (vm_compute; reflexivity).
  assert (fs_lookup (λ _, true) None (lit "/tmp/f") (sh_fs echoed) = Done (sh_fs echoed, Ok 11)) as Hl
    by (vm_compute; reflexivity).
  assert (nodes (store (sh_fs echoed)) !! 11 = Some (RamFile (lit "a > b" ++ [10]))) as Hn by (vm_compute; reflexivity).
  apply (echo_then_cat (λ _, true) 9 (lit "a > b") (lit "/tmp/f") sh0 echoed).
  - vm_compute; reflexivity.
  - vm_compute; discriminate.
  - repeat constructor.
  - by apply (bool_decide_unpack _).
  - vm_compute; reflexivity.
  - apply Nat.ltb_lt. vm_compute. reflexivity.
  - exact He.
  - vm_compute; reflexivity.
  - intros a Ha. rewrite Hl in Ha. apply done_ok_inj in Ha as <-. rewrite Hn. by split.
Defined.

(** A space of more than one byte, such as the ideographic space, cuts the
    line in the middle of a character. *)
Example wide_space_panics : run_cmd (λ _, true) 9 None None None None (as_bytes [108; 115; 0x3000; 97]) sh0 = Panic.
Proof. vm_compute. reflexivity. Qed.

(** Backspace removes one byte of a character of two, so that what is left of
    the line is no text. *)
Example backspace_splits_character :
  from_utf8 (as_bytes [233]) = Some [233] ∧
  line_step (λ _, true) 9 None None None None 8 (as_bytes [233]) sh0 =
    Done ({| sh_fs := booted; sh_out := [8; 32; 8] |}, Ok ([0xc3], true)) ∧
  from_utf8 [0xc3] = None.
Proof. split_and!; vm_compute; reflexivity. Qed.
