(* ===== verification/BlockDev.v ===== *)
(** * Block devices ([crates/driver_block], [modules/axfs/src/dev.rs])

    The trait [BlockDriverOps] is a type class, with what its documentation
    promises as [BlockDriverLaws]; a device may report errors, a healthy one
    does not in its range.  [RamDisk] is shown to be such a device.  [Disk]
    puts a cursor on a device, and [Read], [Write] and [Seek] of
    [modules/axfs/src/fs/fatfs.rs] make it the byte file the FAT crate works
    on: the theorem at the end says that a disk is an array of bytes with a
    cursor. *)

From S2P Require Import Prelude MemoryAddr.
From stdpp Require Import base numbers list.

Open Scope Z_scope.
Local Open Scope word_scope.

Abbreviation len l := (Z.of_nat (length l)).

(** ** Slices *)

(** [&l[a..b]]. *)
Definition slice_range (l : list Z) (a b : Z) : outcome (list Z) :=
  if (a <=? b) && (b <=? len l) then Done (take (Z.to_nat (b - a)) (drop (Z.to_nat a) l)) else Panic.

(** [l[a..b].copy_from_slice(src)]. *)
Definition set_range (l : list Z) (a b : Z) (src : list Z) : outcome (list Z) :=
  if (a <=? b) && (b <=? len l) && (len src =? b - a)
  then Done (take (Z.to_nat a) l ++ src ++ drop (Z.to_nat b) l) else Panic.

(** ** The trait *)

(** [DevError] of [crates/driver_common]. *)
Inductive DevError :=
| DevAlreadyExists | DevAgain | DevBadState | DevInvalidParam
| DevIo | DevNoMemory | DevResourceBusy | DevUnsupported.

#[global] Instance DevError_eq_dec : EqDecision DevError.
Proof. solve_decision. Defined.

(** [read_block] returns the device and the buffer after the call, also when
    it fails. *)
Class BlockDriverOps (D : Type) := {
  num_blocks : D → Z;
  block_size : D → Z;
  read_block : Z → list Z → D → outcome (D * list Z * result DevError unit);
  write_block : Z → list Z → D → outcome (D * result DevError unit);
  flush : D → outcome (D * result DevError unit);
}.

(** ** [RamDisk] *)

Definition BLOCK_SIZE : Z := 512.

Record RamDisk := { size : Z; data : list Z }.

Definition ram_align_up (val : Z) : Z := (val ⊕ BLOCK_SIZE ⊖ 1) .& ~. (BLOCK_SIZE ⊖ 1).

(** [vec![0; n]], which panics when the capacity exceeds [isize::MAX]. *)
Definition vec_zeros (n : Z) : outcome (list Z) :=
  if n <? 2 ^ 63 then Done (replicate (Z.to_nat n) 0) else Panic.

Definition ram_new (size_hint : Z) : outcome RamDisk :=
  let size := ram_align_up size_hint in
  data ← vec_zeros size; Done {| size := size; data := data |}.

Definition ram_from (buf : list Z) : outcome RamDisk :=
  let size := ram_align_up (len buf) in
  data ← vec_zeros size;
  data ← set_range data 0 (len buf) buf;
  Done {| size := size; data := data |}.

Definition ram_read_block (block_id : Z) (buf : list Z) (self : RamDisk)
    : outcome (RamDisk * list Z * result DevError unit) :=
  let offset := block_id ⊗ BLOCK_SIZE in
  if offset ⊕ len buf >? size self then Done (self, buf, Err DevIo)
  else if negb (len buf mod BLOCK_SIZE =? 0) then Done (self, buf, Err DevInvalidParam)
  else
    src ← slice_range (data self) offset (offset ⊕ len buf);
    buf ← set_range buf 0 (len buf) src;
    Done (self, buf, Ok tt).

Definition ram_write_block (block_id : Z) (buf : list Z) (self : RamDisk)
    : outcome (RamDisk * result DevError unit) :=
  let offset := block_id ⊗ BLOCK_SIZE in
  if offset ⊕ len buf >? size self then Done (self, Err DevIo)
  else if negb (len buf mod BLOCK_SIZE =? 0) then Done (self, Err DevInvalidParam)
  else
    data ← set_range (data self) offset (offset ⊕ len buf) buf;
    Done ({| size := size self; data := data |}, Ok tt).

#[global] Instance RamDisk_ops : BlockDriverOps RamDisk := {|
  num_blocks self := size self / BLOCK_SIZE;
  block_size self := BLOCK_SIZE;
  read_block := ram_read_block;
  write_block := ram_write_block;
  flush self := Done (self, Ok tt);
|}.

(** ** [Disk] *)

Record Disk (D : Type) := { block_id : Z; offset : Z; dev : D }.
Arguments block_id {D} _.
Arguments offset {D} _.
Arguments dev {D} _.

(** [fatfs::SeekFrom]. *)
Inductive SeekFrom := Start (pos : Z) | Current (off : Z) | End (off : Z).

(** [u64::checked_add_signed]. *)
Definition checked_add_signed (a off : Z) : option Z :=
  if (0 <=? a + off) && (a + off <? 2 ^ 64) then Some (a + off) else None.

Section disk.
Context {D : Type} `{Ops : !BlockDriverOps D}.
Implicit Types dk : Disk D.

Definition disk_new (d : D) : outcome (Disk D) :=
  _ ← assert_true (BLOCK_SIZE =? block_size d);
  Done {| block_id := 0; offset := 0; dev := d |}.

Definition disk_size dk : Z := num_blocks (dev dk) ⊗ BLOCK_SIZE.

Definition position dk : Z := block_id dk ⊗ BLOCK_SIZE ⊕ offset dk.

Definition set_position (pos : Z) dk : Disk D :=
  {| block_id := pos / BLOCK_SIZE; offset := pos mod BLOCK_SIZE; dev := dev dk |}.

Definition with_dev (d : D) dk : Disk D :=
  {| block_id := block_id dk; offset := offset dk; dev := d |}.

(** The end of a partial access: the cursor moves by [count]. *)
Definition move_cursor (count : Z) dk : Disk D :=
  let off := offset dk ⊕ count in
  if off >=? BLOCK_SIZE
  then {| block_id := block_id dk ⊕ 1; offset := off ⊖ BLOCK_SIZE; dev := dev dk |}
  else {| block_id := block_id dk; offset := off; dev := dev dk |}.

Definition read_one (buf : list Z) dk : outcome (Disk D * list Z * result DevError Z) :=
  if (offset dk =? 0) && (BLOCK_SIZE <=? len buf) then
    blk ← slice_range buf 0 BLOCK_SIZE;
    '(d, blk, r) ← read_block (block_id dk) blk (dev dk);
    buf ← set_range buf 0 BLOCK_SIZE blk;
    match r with
    | Err e => Done (with_dev d dk, buf, Err e)
    | Ok _ => Done ({| block_id := block_id dk ⊕ 1; offset := offset dk; dev := d |}, buf, Ok BLOCK_SIZE)
    end
  else
    let blk := replicate (Z.to_nat BLOCK_SIZE) 0 in
    let start := offset dk in
    let count := Z.min (len buf) (BLOCK_SIZE ⊖ offset dk) in
    '(d, blk, r) ← read_block (block_id dk) blk (dev dk);
    match r with
    | Err e => Done (with_dev d dk, buf, Err e)
    | Ok _ =>
        src ← slice_range blk start (start ⊕ count);
        buf ← set_range buf 0 count src;
        Done (move_cursor count (with_dev d dk), buf, Ok count)
    end.

Definition write_one (buf : list Z) dk : outcome (Disk D * result DevError Z) :=
  if (offset dk =? 0) && (BLOCK_SIZE <=? len buf) then
    blk ← slice_range buf 0 BLOCK_SIZE;
    '(d, r) ← write_block (block_id dk) blk (dev dk);
    match r with
    | Err e => Done (with_dev d dk, Err e)
    | Ok _ => Done ({| block_id := block_id dk ⊕ 1; offset := offset dk; dev := d |}, Ok BLOCK_SIZE)
    end
  else
    let blk := replicate (Z.to_nat BLOCK_SIZE) 0 in
    let start := offset dk in
    let count := Z.min (len buf) (BLOCK_SIZE ⊖ offset dk) in
    '(d, blk, r) ← read_block (block_id dk) blk (dev dk);
    match r with
    | Err e => Done (with_dev d dk, Err e)
    | Ok _ =>
        src ← slice_range buf 0 count;
        blk ← set_range blk start (start ⊕ count) src;
        '(d, r) ← write_block (block_id dk) blk d;
        match r with
        | Err e => Done (with_dev d dk, Err e)
        | Ok _ => Done (move_cursor count (with_dev d dk), Ok count)
        end
    end.

(** [Read for Disk]; the loop goes on with the part of the buffer not yet
    filled. *)
Fixpoint read_loop (fuel : nat) (filled buf : list Z) (read_len : Z) dk
    : outcome (Disk D * list Z * result unit Z) :=
  match fuel with
  | O => Panic
  | S fuel =>
      if decide (buf = []) then Done (dk, filled, Ok read_len)
      else
        '(dk, buf, r) ← read_one buf dk;
        match r with
        | Err _ => Done (dk, filled ++ buf, Err tt)
        | Ok n =>
            if n =? 0 then Done (dk, filled ++ buf, Ok read_len)
            else
              rest ← slice_range buf n (len buf);
              read_loop fuel (filled ++ take (Z.to_nat n) buf) rest (read_len ⊕ n) dk
        end
  end.
Definition disk_read (buf : list Z) dk : outcome (Disk D * list Z * result unit Z) :=
  read_loop (S (length buf)) [] buf 0 dk.

(** [Write for Disk]. *)
Fixpoint write_loop (fuel : nat) (buf : list Z) (write_len : Z) dk
    : outcome (Disk D * result unit Z) :=
  match fuel with
  | O => Panic
  | S fuel =>
      if decide (buf = []) then Done (dk, Ok write_len)
      else
        '(dk, r) ← write_one buf dk;
        match r with
        | Err _ => Done (dk, Err tt)
        | Ok n =>
            if n =? 0 then Done (dk, Ok write_len)
            else rest ← slice_range buf n (len buf); write_loop fuel rest (write_len ⊕ n) dk
        end
  end.
Definition disk_write (buf : list Z) dk : outcome (Disk D * result unit Z) :=
  write_loop (S (length buf)) buf 0 dk.

(** [Seek for Disk]. *)
Definition disk_seek (pos : SeekFrom) dk : Disk D * result unit Z :=
  let size := disk_size dk in
  match (match pos with
         | Start pos => Some pos
         | Current off => checked_add_signed (position dk) off
         | End off => checked_add_signed size off
         end) with
  | None => (dk, Err tt)
  | Some new_pos => (set_position new_pos dk, Ok new_pos)
  end.

End disk.

(** ** Arrays of bytes *)

(** [n] bytes from position [p], and [c] with [bs] in place of the bytes at
    [p]. *)
Definition bytes_from (c : list Z) (p n : Z) : list Z := take (Z.to_nat n) (drop (Z.to_nat p) c).
Definition splice (c : list Z) (p : Z) (bs : list Z) : list Z :=
  take (Z.to_nat p) c ++ bs ++ drop (Z.to_nat (p + len bs)) c.

(** ** What a block device promises *)

(** A device behaves as an array of bytes in blocks.  A failed write may
    leave anything in the blocks it was to write; a healthy device fails only
    when an access leaves its range, and then changes nothing. *)
Class BlockDriverLaws (D : Type) `{Ops : !BlockDriverOps D} := {
  content : D → list Z;
  dev_ok : D → Prop;
  healthy : D → Prop;
  content_size d : dev_ok d → len (content d) = num_blocks d * block_size d;
  read_block_law d id buf :
    dev_ok d → 0 ≤ id → (block_size d | len buf) → id * block_size d + len buf < 2 ^ 64 →
    ∃ d' buf' r, read_block id buf d = Done (d', buf', r) ∧ length buf' = length buf ∧
      dev_ok d' ∧ block_size d' = block_size d ∧ (healthy d → healthy d') ∧ content d' = content d ∧
      match r with
      | Ok _ => id * block_size d + len buf ≤ len (content d) ∧
                buf' = bytes_from (content d) (id * block_size d) (len buf)
      | Err _ => healthy d → len (content d) < id * block_size d + len buf
      end;
  write_block_law d id buf :
    dev_ok d → 0 ≤ id → (block_size d | len buf) → id * block_size d + len buf < 2 ^ 64 →
    ∃ d' r, write_block id buf d = Done (d', r) ∧
      dev_ok d' ∧ block_size d' = block_size d ∧ (healthy d → healthy d') ∧
      length (content d') = length (content d) ∧
      match r with
      | Ok _ => id * block_size d + len buf ≤ len (content d) ∧
                content d' = splice (content d) (id * block_size d) buf
      | Err _ => (healthy d → len (content d) < id * block_size d + len buf ∧ content d' = content d) ∧
                 ∀ i, Z.of_nat i < id * block_size d ∨ id * block_size d + len buf ≤ Z.of_nat i →
                      content d' !! i = content d !! i
      end;
}.

(** ** A disk as an array of bytes with a cursor *)

Inductive disk_op := OpRead (n : Z) | OpWrite (bs : list Z) | OpSeek (pos : SeekFrom).
Inductive disk_answer := Bytes (bs : list Z) | Count (n : Z) | Position (p : Z) | Failed.

(** An access that reaches behind the end fails after what is inside has been
    done. *)
Definition file_step (s : list Z * Z) (op : disk_op) : (list Z * Z) * disk_answer :=
  let '(c, p) := s in
  match op with
  | OpRead n =>
      if (n =? 0) || (p + n <=? len c) then ((c, p + n), Bytes (bytes_from c p n))
      else ((c, Z.max p (len c)), Failed)
  | OpWrite bs =>
      if (len bs =? 0) || (p + len bs <=? len c) then ((splice c p bs, p + len bs), Count (len bs))
      else ((splice c p (take (Z.to_nat (len c - p)) bs), Z.max p (len c)), Failed)
  | OpSeek pos =>
      match (match pos with
             | Start pos => Some pos
             | Current off => checked_add_signed p off
             | End off => checked_add_signed (len c) off
             end) with
      | None => ((c, p), Failed)
      | Some q => ((c, q), Position q)
      end
  end.

Fixpoint file_run (s : list Z * Z) (ops : list disk_op) : (list Z * Z) * list disk_answer :=
  match ops with
  | [] => (s, [])
  | op :: ops =>
      let '(s, a) := file_step s op in let '(s, l) := file_run s ops in (s, a :: l)
  end.

(** Arguments the types allow, and a cursor that stays a block away from the
    end of [u64]. *)
Definition op_ok (op : disk_op) : Prop :=
  match op with
  | OpRead n => 0 ≤ n < 2 ^ 63
  | OpWrite bs => len bs < 2 ^ 63
  | OpSeek (Start p) => 0 ≤ p
  | OpSeek _ => True
  end.
Fixpoint in_reach (s : list Z * Z) (ops : list disk_op) : Prop :=
  s.2 < 2 ^ 64 - 512 ∧
  match ops with
  | [] => True
  | op :: ops => op_ok op ∧ in_reach (file_step s op).1 ops
  end.

Section disk_ops.
Context {D : Type} `{Ops : !BlockDriverOps D}.

(** The same operations on a disk; [fill] is what the buffer of a read holds
    before. *)
Definition disk_step (fill : Z) (dk : Disk D) (op : disk_op) : outcome (Disk D * disk_answer) :=
  match op with
  | OpRead n =>
      '(dk, buf, r) ← disk_read (replicate (Z.to_nat n) fill) dk;
      Done (dk, match r with Ok k => Bytes (take (Z.to_nat k) buf) | Err _ => Failed end)
  | OpWrite bs =>
      '(dk, r) ← disk_write bs dk;
      Done (dk, match r with Ok n => Count n | Err _ => Failed end)
  | OpSeek pos =>
      let '(dk, r) := disk_seek pos dk in
      Done (dk, match r with Ok p => Position p | Err _ => Failed end)
  end.

Fixpoint disk_run (fill : Z) (dk : Disk D) (ops : list disk_op) : outcome (Disk D * list disk_answer) :=
  match ops with
  | [] => Done (dk, [])
  | op :: ops =>
      '(dk, a) ← disk_step fill dk op;
      '(dk, l) ← disk_run fill dk ops;
      Done (dk, a :: l)
  end.

End disk_ops.

(** ** Lemmas on arrays *)

Lemma bytes_from_lookup c p n i : 0 ≤ p →
  bytes_from c p n !! i = if decide (Z.of_nat i < n) then c !! (Z.to_nat p + i)%nat else None.
Proof.
  intros Hp. unfold bytes_from. case_decide.
  - by rewrite lookup_take_lt, lookup_drop by lia.
  - rewrite lookup_take_ge by lia. done.
Qed.

Lemma splice_lookup c p bs i : 0 ≤ p → p + len bs ≤ len c →
  splice c p bs !! i
  = if decide (p ≤ Z.of_nat i < p + len bs) then bs !! (i - Z.to_nat p)%nat else c !! i.
Proof.
  intros Hp Hl. unfold splice.
  destruct (decide (Z.of_nat i < p)).
  { rewrite lookup_app_l, lookup_take_lt, decide_False by (rewrite ?length_take; lia). done. }
  rewrite lookup_app_r, length_take_le by (rewrite ?length_take; lia). case_decide.
  - by rewrite lookup_app_l by lia.
  - rewrite lookup_app_r, lookup_drop by lia. f_equal. lia.
Qed.

Lemma length_bytes_from c p n : 0 ≤ p → 0 ≤ n → p + n ≤ len c → len (bytes_from c p n) = n.
Proof. intros. unfold bytes_from. rewrite length_take, length_drop. lia. Qed.

Lemma length_splice c p bs : 0 ≤ p → p + len bs ≤ len c → length (splice c p bs) = length c.
Proof. intros. unfold splice. rewrite !length_app, length_take, length_drop. lia. Qed.

Lemma bytes_from_from c a m b n : 0 ≤ a → 0 ≤ b → b + n ≤ m →
  bytes_from (bytes_from c a m) b n = bytes_from c (a + b) n.
Proof.
  intros. apply list_eq. intros i. rewrite !bytes_from_lookup by lia.
  case_decide; [|done]. rewrite decide_True by lia. f_equal. lia.
Qed.

Lemma bytes_from_app c p a b : 0 ≤ p → 0 ≤ a → 0 ≤ b → p + a + b ≤ len c →
  bytes_from c p a ++ bytes_from c (p + a) b = bytes_from c p (a + b).
Proof.
  intros. pose proof (length_bytes_from c p a). apply list_eq. intros i.
  destruct (decide (Z.of_nat i < a)).
  - rewrite lookup_app_l, !bytes_from_lookup, !decide_True by lia. done.
  - rewrite lookup_app_r, !bytes_from_lookup by lia. do 2 case_decide; try lia; [|done]. f_equal. lia.
Qed.

Lemma splice_app c p a b : 0 ≤ p → p + len a + len b ≤ len c →
  splice (splice c p a) (p + len a) b = splice c p (a ++ b).
Proof.
  intros Hp Hl. apply list_eq. intros i.
  rewrite !splice_lookup by (rewrite ?length_splice, ?length_app; lia). rewrite length_app.
  repeat case_decide; try lia; [| |done].
  - rewrite lookup_app_r by lia. f_equal. lia.
  - by rewrite lookup_app_l by lia.
Qed.

(** Writing a block in which some bytes were replaced is replacing them. *)
Lemma splice_block c a m b bs : 0 ≤ a → 0 ≤ b → b + len bs ≤ m → a + m ≤ len c →
  splice c a (splice (bytes_from c a m) b bs) = splice c (a + b) bs.
Proof.
  intros. pose proof (length_bytes_from c a m).
  assert (len (splice (bytes_from c a m) b bs) = m) as Hm by (rewrite length_splice by lia; lia).
  apply list_eq. intros i. rewrite (splice_lookup c a), (splice_lookup c (a + b)) by lia. rewrite Hm.
  repeat case_decide; try lia; [| |done].
  - rewrite splice_lookup by lia. rewrite decide_True by lia. f_equal. lia.
  - rewrite splice_lookup, decide_False, bytes_from_lookup, decide_True by lia. f_equal. lia.
Qed.

Lemma splice_nil c p : 0 ≤ p → splice c p [] = c.
Proof. intros. unfold splice. simpl. rewrite Z.add_0_r. apply take_drop. Qed.

Lemma bytes_from_rest l k : 0 ≤ k → bytes_from l k (len l - k) = drop (Z.to_nat k) l.
Proof. intros. unfold bytes_from. apply take_ge. rewrite length_drop. lia. Qed.

Lemma slice_range_ok l a b : 0 ≤ a ≤ b → b ≤ len l → slice_range l a b = Done (bytes_from l a (b - a)).
Proof.
  intros. unfold slice_range, bytes_from.
  by rewrite (proj2 (Z.leb_le a b)), (proj2 (Z.leb_le b (len l))) by lia.
Qed.

Lemma set_range_ok l a b src : 0 ≤ a → b = a + len src → b ≤ len l → set_range l a b src = Done (splice l a src).
Proof.
  intros Ha -> Hb. unfold set_range, splice.
  rewrite (proj2 (Z.leb_le a _)), (proj2 (Z.leb_le _ (len l))), (proj2 (Z.eqb_eq _ _)) by lia. done.
Qed.

(** ** A round of the loops *)

Section disk_proofs.
Context {D : Type} `{Laws : BlockDriverLaws D}.
Implicit Types dk : Disk D.

Definition cursor dk : Z := block_id dk * 512 + offset dk.

(** A disk on a device with blocks of 512 bytes; neither its end nor its
    cursor come close to the end of [u64]. *)
Record disk_ok dk : Prop := {
  ok_dev : dev_ok (dev dk);
  ok_block : block_size (dev dk) = 512;
  ok_size : len (content (dev dk)) < 2 ^ 64 - 512;
  ok_id : 0 ≤ block_id dk;
  ok_offset : 0 ≤ offset dk < 512;
  ok_cursor : cursor dk < 2 ^ 64 - 512;
}.

Lemma disk_ok_size dk : disk_ok dk → len (content (dev dk)) = num_blocks (dev dk) * 512.
Proof. intros [Hd Hb _ _ _ _]. by rewrite content_size, Hb. Qed.

Lemma disk_size_eq dk : disk_ok dk → disk_size dk = len (content (dev dk)).
Proof.
  intros Hok. pose proof (disk_ok_size dk Hok). destruct Hok. unfold disk_size, BLOCK_SIZE.
  rewrite wmul_small by (split; lia). lia.
Qed.

Lemma position_eq dk : disk_ok dk → position dk = cursor dk.
Proof.
  intros [_ _ _ ? ? ?]. unfold position, cursor, BLOCK_SIZE in *.
  rewrite wmul_small, wadd_small by (rewrite ?wmul_small; split; lia). done.
Qed.

(** The cursor after [k] bytes of its block, on any device. *)
Lemma move_cursor_eq k dk : 0 ≤ block_id dk → 0 ≤ offset dk < 512 → cursor dk < 2 ^ 64 - 512 →
  0 ≤ k ≤ 512 - offset dk →
  let dk' := move_cursor k dk in
  cursor dk' = cursor dk + k ∧ dev dk' = dev dk ∧ 0 ≤ block_id dk' ∧ 0 ≤ offset dk' < 512.
Proof.
  unfold cursor, move_cursor, BLOCK_SIZE. intros. rewrite wadd_small, Z.geb_leb by (split; lia).
  destruct (Z.leb_spec 512 (offset dk + k)); cbn [block_id offset dev].
  - rewrite wadd_small, wsub_small by (split; lia). split_and!; [lia|done|lia..].
  - split_and!; [lia|done|lia..].
Qed.

(** A device after a call on block [id], in the state of a disk. *)
Lemma disk_ok_dev d dk : disk_ok dk → dev_ok d → block_size d = 512 →
  length (content d) = length (content (dev dk)) → disk_ok (with_dev d dk).
Proof. intros [] ? ? Hl. split; [done|done|cbn [dev with_dev]; rewrite Hl; done|done|done|done]. Qed.

Lemma disk_ok_moved k dk : disk_ok dk → 0 ≤ k ≤ 512 - offset dk → cursor dk + k ≤ len (content (dev dk)) →
  disk_ok (move_cursor k dk).
Proof.
  intros [] ? ?. destruct (move_cursor_eq k dk) as (Hc & Hd & ? & ?); [done..|].
  split; rewrite ?Hd; [done..|lia].
Qed.

(** A whole block moves the cursor like a partial one of 512 bytes. *)
Lemma move_cursor_block d dk : offset dk = 0 →
  {| block_id := block_id dk ⊕ 1; offset := offset dk; dev := d |} = move_cursor 512 (with_dev d dk).
Proof. intros H0. unfold move_cursor. simpl. by rewrite H0. Qed.

Lemma block_beyond dk : disk_ok dk →
  len (content (dev dk)) < block_id dk * 512 + 512 → len (content (dev dk)) ≤ cursor dk.
Proof. intros Hok. pose proof (disk_ok_size dk Hok). destruct Hok. unfold cursor. lia. Qed.

Lemma block_inside dk : disk_ok dk → block_id dk * 512 + 512 ≤ len (content (dev dk)) →
  ∀ k, k ≤ 512 - offset dk → cursor dk + k ≤ len (content (dev dk)).
Proof. intros. unfold cursor. lia. Qed.

Lemma disk_read_block dk blk : disk_ok dk → len blk = 512 →
  ∃ d blk' r, read_block (block_id dk) blk (dev dk) = Done (d, blk', r) ∧ len blk' = 512 ∧
    disk_ok (with_dev d dk) ∧ content d = content (dev dk) ∧ (healthy (dev dk) → healthy d) ∧
    match r with
    | Ok _ => block_id dk * 512 + 512 ≤ len (content (dev dk)) ∧
              blk' = bytes_from (content (dev dk)) (block_id dk * 512) 512
    | Err _ => healthy (dev dk) → len (content (dev dk)) ≤ cursor dk
    end.
Proof.
  intros Hok Hlen. pose proof Hok as [Hd Hb Hsz Hid Hof Hcu].
  destruct (read_block_law (dev dk) (block_id dk) blk)
    as (d & blk' & r & Hrun & Hlb & Hd' & Hb' & Hh & Hc & Hr);
    [done|done|rewrite Hb, Hlen; by exists 1|rewrite Hb, Hlen; unfold cursor in *; lia|].
  rewrite Hb, Hlen in Hr. exists d, blk', r.
  split_and!; [done|lia|apply disk_ok_dev; rewrite ?Hc; congruence|done|done|].
  destruct r as [[]|e]; [done|]. intros Hhe. apply block_beyond; auto.
Qed.

Lemma disk_write_block dk blk : disk_ok dk → len blk = 512 →
  ∃ d r, write_block (block_id dk) blk (dev dk) = Done (d, r) ∧
    disk_ok (with_dev d dk) ∧ (healthy (dev dk) → healthy d) ∧
    match r with
    | Ok _ => block_id dk * 512 + 512 ≤ len (content (dev dk)) ∧
              content d = splice (content (dev dk)) (block_id dk * 512) blk
    | Err _ => healthy (dev dk) → len (content (dev dk)) ≤ cursor dk ∧ content d = content (dev dk)
    end.
Proof.
  intros Hok Hlen. pose proof Hok as [Hd Hb Hsz Hid Hof Hcu].
  destruct (write_block_law (dev dk) (block_id dk) blk)
    as (d & r & Hrun & Hd' & Hb' & Hh & Hc & Hr);
    [done|done|rewrite Hb, Hlen; by exists 1|rewrite Hb, Hlen; unfold cursor in *; lia|].
  rewrite Hb, Hlen in Hr. exists d, r.
  split_and!; [done|apply disk_ok_dev; congruence|done|].
  destruct r as [[]|e]; [done|]. intros Hhe. destruct Hr as [Hr _]. destruct (Hr Hhe).
  split; [by apply block_beyond|done].
Qed.

(** The disk after [k] bytes of a block, which lies on the device. *)
Lemma disk_moved d dk k : disk_ok (with_dev d dk) → len (content d) = len (content (dev dk)) →
  block_id dk * 512 + 512 ≤ len (content (dev dk)) → 0 ≤ k ≤ 512 - offset dk →
  let dk' := move_cursor k (with_dev d dk) in
  disk_ok dk' ∧ dev dk' = d ∧ cursor dk' = cursor dk + k ∧ cursor dk + k ≤ len (content (dev dk)).
Proof.
  intros Hok Hc Hin Hk. pose proof Hok as [].
  destruct (move_cursor_eq k (with_dev d dk)) as (Hcu' & Hdev & ? & ?); [done..|].
  assert (cursor dk + k ≤ len (content (dev dk))) by (unfold cursor; lia).
  split_and!; [|done|done|done]. apply disk_ok_moved; [done..|]. simpl. by rewrite Hc.
Qed.

Lemma read_one_spec dk buf : disk_ok dk → buf ≠ [] →
  let k := Z.min (len buf) (512 - offset dk) in
  ∃ dk' buf' r, read_one buf dk = Done (dk', buf', r) ∧ disk_ok dk' ∧
    content (dev dk') = content (dev dk) ∧ (healthy (dev dk) → healthy (dev dk')) ∧
    match r with
    | Ok n => n = k ∧ cursor dk + k ≤ len (content (dev dk)) ∧ cursor dk' = cursor dk + k ∧
              buf' = bytes_from (content (dev dk)) (cursor dk) k ++ drop (Z.to_nat k) buf
    | Err _ => cursor dk' = cursor dk ∧ (healthy (dev dk) → len (content (dev dk)) ≤ cursor dk)
    end.
Proof.
  intros Hok Hne k. assert (0 < len buf) by (destruct buf; simpl; [done|lia]).
  pose proof (ok_offset dk Hok). pose proof (ok_id dk Hok). unfold read_one, BLOCK_SIZE.
  destruct ((offset dk =? 0) && (512 <=? len buf)) eqn:Hwhole; bool_to_prop.
  - assert (k = 512) as Hk by lia. clearbody k. subst k.
    rewrite slice_range_ok by lia. cbn [mbind outcome_bind].
    destruct (disk_read_block dk (bytes_from buf 0 (512 - 0)) Hok) as (d & blk & r & -> & Hl & Hok' & Hc & Hh & Hr);
      [by apply length_bytes_from; lia|]. cbn [mbind outcome_bind].
    rewrite set_range_ok by lia. cbn [mbind outcome_bind].
    destruct r as [[]|e]; [|by eexists _, _, _]. destruct Hr as [Hin ->].
    rewrite move_cursor_block by done.
    destruct (disk_moved d dk 512) as (? & Hd & ? & ?); [done|by rewrite Hc|done|lia|].
    eexists _, _, _. split; [reflexivity|]. rewrite Hd. split_and!; [done..|].
    replace (cursor dk) with (block_id dk * 512) by (unfold cursor; lia).
    unfold splice. cbn [Z.to_nat take app]. by rewrite length_bytes_from by lia.
  - rewrite wsub_small by (split; lia). fold k.
    destruct (disk_read_block dk (replicate (Z.to_nat 512) 0) Hok) as (d & blk & r & -> & Hl & Hok' & Hc & Hh & Hr);
      [done|]. cbn [mbind outcome_bind].
    destruct r as [[]|e]; [|by eexists _, _, _]. destruct Hr as [Hin ->].
    rewrite wadd_small by (split; lia).
    rewrite slice_range_ok by (rewrite ?length_bytes_from; lia). cbn [mbind outcome_bind].
    rewrite bytes_from_from by lia. replace (offset dk + k - offset dk) with k by lia.
    destruct (disk_moved d dk k) as (? & Hd & ? & ?); [done|by rewrite Hc|done|lia|].
    assert (len (bytes_from (content (dev dk)) (cursor dk) k) = k) as Hlk
      by (apply length_bytes_from; unfold cursor in *; lia).
    rewrite set_range_ok by (unfold cursor in *; lia). cbn [mbind outcome_bind].
    eexists _, _, _. split; [reflexivity|]. rewrite Hd. split_and!; [done..|].
    unfold splice. cbn [Z.to_nat take app]. unfold cursor in *. by rewrite Hlk.
Qed.

Lemma write_one_spec dk buf : disk_ok dk → buf ≠ [] →
  let k := Z.min (len buf) (512 - offset dk) in
  ∃ dk' r, write_one buf dk = Done (dk', r) ∧ disk_ok dk' ∧
    (healthy (dev dk) → healthy (dev dk')) ∧
    match r with
    | Ok n => n = k ∧ cursor dk + k ≤ len (content (dev dk)) ∧ cursor dk' = cursor dk + k ∧
              content (dev dk') = splice (content (dev dk)) (cursor dk) (take (Z.to_nat k) buf)
    | Err _ => cursor dk' = cursor dk ∧
               (healthy (dev dk) → len (content (dev dk)) ≤ cursor dk ∧ content (dev dk') = content (dev dk))
    end.
Proof.
  intros Hok Hne k. assert (0 < len buf) by (destruct buf; simpl; [done|lia]).
  pose proof (ok_offset dk Hok). pose proof (ok_id dk Hok). unfold write_one, BLOCK_SIZE.
  destruct ((offset dk =? 0) && (512 <=? len buf)) eqn:Hwhole; bool_to_prop.
  - assert (k = 512) as Hk by lia. clearbody k. subst k.
    rewrite slice_range_ok by lia. cbn [mbind outcome_bind].
    assert (len (bytes_from buf 0 (512 - 0)) = 512) as Hl by (apply length_bytes_from; lia).
    destruct (disk_write_block dk _ Hok Hl) as (d & r & -> & Hok' & Hh & Hr). cbn [mbind outcome_bind].
    destruct r as [[]|e]; [|by eexists _, _]. destruct Hr as [Hin Hc]. rewrite move_cursor_block by done.
    destruct (disk_moved d dk 512) as (? & Hd & ? & ?); [done|rewrite Hc, length_splice by lia; done|done|lia|].
    eexists _, _. split; [reflexivity|]. rewrite Hd. split_and!; [done..|]. rewrite Hc. f_equal.
    unfold cursor. lia.
  - rewrite wsub_small by (split; lia). fold k.
    destruct (disk_read_block dk (replicate (Z.to_nat 512) 0) Hok) as (d & blk & r & -> & Hl & Hok' & Hc & Hh & Hr);
      [done|]. cbn [mbind outcome_bind].
    destruct r as [[]|e]; [|eexists _, _; split; [reflexivity|]; by split_and!; auto].
    destruct Hr as [Hin ->]. rewrite wadd_small by (split; lia). rewrite slice_range_ok by lia.
    rewrite Z.sub_0_r. cbn [mbind outcome_bind].
    assert (len (bytes_from buf 0 k) = k) as Hlk by (apply length_bytes_from; lia).
    rewrite set_range_ok by lia. cbn [mbind outcome_bind]. 
    destruct (disk_write_block (with_dev d dk) (splice (bytes_from (content (dev dk)) (block_id dk * 512) 512) (offset dk) (bytes_from buf 0 k)))
      as (d2 & r & Hw & Hok2 & Hh2 & Hr); [done|rewrite length_splice by lia; lia|].
    cbn [block_id dev with_dev] in *. rewrite Hw. cbn [mbind outcome_bind]. rewrite Hc in Hr.
    destruct r as [[]|e].
    + destruct Hr as [_ Hc2]. rewrite splice_block in Hc2 by lia.
      destruct (disk_moved d2 dk k) as (? & Hd & ? & ?);
        [done|rewrite Hc2, length_splice by lia; done|done|lia|].
      eexists _, _. split; [reflexivity|]. rewrite Hd. split_and!; [done|auto|done|done|done|done].
    + eexists _, _. split; [reflexivity|]. split_and!; [done|cbn [dev with_dev]; auto|done|].
      intros Hhe. cbn [dev with_dev]. by apply Hr, Hh.
Qed.

(** ** The loops *)

Lemma read_loop_spec fuel filled buf rl dk : disk_ok dk → (length buf < fuel)%nat →
  0 ≤ rl → rl + len buf < 2 ^ 64 →
  ∃ dk' buf' r, read_loop fuel filled buf rl dk = Done (dk', filled ++ buf', r) ∧ disk_ok dk' ∧
    content (dev dk') = content (dev dk) ∧ (healthy (dev dk) → healthy (dev dk')) ∧
    match r with
    | Ok n => n = rl + len buf ∧ (buf = [] ∨ cursor dk + len buf ≤ len (content (dev dk))) ∧
              cursor dk' = cursor dk + len buf ∧ buf' = bytes_from (content (dev dk)) (cursor dk) (len buf)
    | Err _ => buf ≠ [] ∧ (healthy (dev dk) → len (content (dev dk)) < cursor dk + len buf ∧
                                  cursor dk' = Z.max (cursor dk) (len (content (dev dk))))
    end.
Proof.
  revert filled buf rl dk. induction fuel as [|fuel IH]; intros filled buf rl dk Hok Hf Hrl Hmax; [lia|].
  cbn [read_loop]. case_decide as Hb.
  { subst buf. exists dk, [], (Ok rl). rewrite app_nil_r. split_and!; [done..|simpl; lia|by left|simpl; lia|done]. }
  assert (0 < len buf) by (destruct buf; simpl; [done|lia]). pose proof (ok_offset dk Hok).
  destruct (read_one_spec dk buf Hok Hb) as (dk1 & buf1 & r & -> & Hok1 & Hc1 & Hh1 & Hr).
  cbn [mbind outcome_bind]. destruct r as [n|e].
  2: { exists dk1, buf1, (Err tt). destruct Hr as [Hcu Hr].
       split_and!; [done..|]. intros Hhe. specialize (Hr Hhe). lia. }
  destruct Hr as (-> & Hin & Hcu & ->). set (k := Z.min _ _) in *. pose proof (ok_id dk Hok).
  assert (0 < k ≤ len buf ∧ 0 ≤ cursor dk) as [Hk Hpos] by (unfold k, cursor; lia).
  assert (length (bytes_from (content (dev dk)) (cursor dk) k) = Z.to_nat k) as Hl
    by (pose proof (length_bytes_from (content (dev dk)) (cursor dk) k); lia).
  rewrite (proj2 (Z.eqb_neq k 0)) by lia.
  rewrite slice_range_ok by (rewrite ?length_app, ?length_drop, ?Hl; lia). cbn [mbind outcome_bind].
  rewrite bytes_from_rest, take_app_length', drop_app_length' by lia. rewrite wadd_small by (split; lia).
  destruct (IH (filled ++ bytes_from (content (dev dk)) (cursor dk) k) (drop (Z.to_nat k) buf) (rl + k) dk1)
    as (dk' & buf' & r & -> & Hok' & Hc' & Hh' & Hr); [done|rewrite ?length_drop; lia..|].
  rewrite <- app_assoc. exists dk', (bytes_from (content (dev dk)) (cursor dk) k ++ buf'), r.
  rewrite length_drop in Hr. rewrite Hc1, Hcu in *.
  replace (Z.of_nat (length buf - Z.to_nat k)) with (len buf - k) in Hr by lia.
  split_and!; [done|done|done|auto|]. destruct r as [n|[]].
  - destruct Hr as (-> & Hr & -> & ->). split_and!; [lia| |lia|].
    + right. destruct Hr as [Hr|Hr]; [|lia]. apply (f_equal length) in Hr. rewrite length_drop in Hr.
      simpl in Hr. lia.
    + destruct (decide (len buf = k)) as [->|].
      { rewrite Z.sub_diag. unfold bytes_from at 2. by rewrite app_nil_r. }
      rewrite bytes_from_app; [f_equal; lia|lia|lia|lia|]. destruct Hr as [Hr|Hr]; [|lia].
      apply (f_equal length) in Hr. rewrite length_drop in Hr. simpl in Hr. lia.
  - split; [done|]. intros Hhe. destruct Hr as [_ Hr]. destruct (Hr (Hh1 Hhe)). lia.
Qed.

Lemma write_loop_spec fuel buf wl dk : disk_ok dk → (length buf < fuel)%nat →
  0 ≤ wl → wl + len buf < 2 ^ 64 →
  ∃ dk' r, write_loop fuel buf wl dk = Done (dk', r) ∧ disk_ok dk' ∧ (healthy (dev dk) → healthy (dev dk')) ∧
    match r with
    | Ok n => n = wl + len buf ∧ (buf = [] ∨ cursor dk + len buf ≤ len (content (dev dk))) ∧
              cursor dk' = cursor dk + len buf ∧
              content (dev dk') = splice (content (dev dk)) (cursor dk) buf
    | Err _ => buf ≠ [] ∧ (healthy (dev dk) → len (content (dev dk)) < cursor dk + len buf ∧
                 cursor dk' = Z.max (cursor dk) (len (content (dev dk))) ∧
                 content (dev dk') = splice (content (dev dk)) (cursor dk)
                                       (take (Z.to_nat (len (content (dev dk)) - cursor dk)) buf))
    end.
Proof.
  revert buf wl dk. induction fuel as [|fuel IH]; intros buf wl dk Hok Hf Hwl Hmax; [lia|].
  pose proof (ok_id dk Hok). pose proof (ok_offset dk Hok).
  assert (0 ≤ cursor dk) as Hpos by (unfold cursor; lia).
  cbn [write_loop]. case_decide as Hb.
  { subst buf. exists dk, (Ok wl). rewrite splice_nil by done.
    split_and!; [done..|simpl; lia|by left|simpl; lia|done]. }
  assert (0 < len buf) by (destruct buf; simpl; [done|lia]).
  destruct (write_one_spec dk buf Hok Hb) as (dk1 & r & -> & Hok1 & Hh1 & Hr).
  cbn [mbind outcome_bind]. destruct r as [n|e].
  2: { exists dk1, (Err tt). destruct Hr as [Hcu Hr]. split_and!; [done..|].
       intros Hhe. destruct (Hr Hhe) as [? ->]. split_and!; [lia|lia|].
       replace (Z.to_nat _) with 0%nat by lia. by rewrite splice_nil. }
  destruct Hr as (-> & Hin & Hcu & Hc1). set (k := Z.min _ _) in *.
  assert (0 < k ≤ len buf) by (unfold k; lia). rewrite (proj2 (Z.eqb_neq k 0)) by lia.
  rewrite slice_range_ok by lia. cbn [mbind outcome_bind]. rewrite bytes_from_rest by lia. rewrite wadd_small by (split; lia).
  assert (len (take (Z.to_nat k) buf) = k) as Hlk by (rewrite length_take; lia).
  assert (len (content (dev dk1)) = len (content (dev dk))) as Hlc by (rewrite Hc1, length_splice; lia).
  destruct (IH (drop (Z.to_nat k) buf) (wl + k) dk1) as (dk' & r & -> & Hok' & Hh' & Hr);
    [done|rewrite ?length_drop; lia..|].
  exists dk', r. rewrite length_drop, Hlc, Hcu in Hr.
  replace (Z.of_nat (length buf - Z.to_nat k)) with (len buf - k) in Hr by lia.
  split_and!; [done|done|auto|]. destruct r as [n|[]].
  - destruct Hr as (-> & Hr & -> & ->).
    assert (cursor dk + len buf ≤ len (content (dev dk))).
    { destruct Hr as [Hr|Hr]; [|lia]. apply (f_equal length) in Hr. rewrite length_drop in Hr. simpl in Hr. lia. }
    split_and!; [lia|by right|lia|]. rewrite Hc1. rewrite <- Hlk at 2.
    rewrite splice_app by (rewrite ?length_drop; lia). by rewrite take_drop.
  - split; [done|]. intros Hhe. destruct Hr as [_ Hr]. destruct (Hr (Hh1 Hhe)) as (? & ? & ->). split_and!; [lia|lia|].
    rewrite Hc1. rewrite <- Hlk at 2. rewrite splice_app by (rewrite ?length_take, ?length_drop; lia).
    f_equal. rewrite <- (take_drop (Z.to_nat k) buf) at 3.
    rewrite take_app_ge by lia. f_equal. f_equal. lia.
Qed.
End disk_proofs.

(** ** [RamDisk] is a block device *)

Definition ram_ok (d : RamDisk) : Prop := size d = len (data d) ∧ (512 | size d) ∧ size d < 2 ^ 63.

Lemma ram_read_ok d id buf : ram_ok d → 0 ≤ id → (512 | len buf) → id * 512 + len buf < 2 ^ 64 →
  ram_read_block id buf d
  = if id * 512 + len buf <=? len (data d) then Done (d, bytes_from (data d) (id * 512) (len buf), Ok tt)
    else Done (d, buf, Err DevIo).
Proof.
  intros (Hs & _ & Hm) Hid Hdiv Hmax. unfold ram_read_block, BLOCK_SIZE.
  rewrite wmul_small, wadd_small by (rewrite ?wmul_small; split; lia). rewrite Hs, Z.gtb_ltb.
  destruct (Z.ltb_spec (len (data d)) (id * 512 + len buf)), (Z.leb_spec (id * 512 + len buf) (len (data d))); try lia; [done|].
  rewrite (proj2 (Z.mod_divide (len buf) 512 ltac:(lia)) Hdiv).
  cbn [Z.eqb negb]. rewrite slice_range_ok by lia. cbn [mbind outcome_bind].
  replace (id * 512 + len buf - id * 512) with (len buf) by lia.
  assert (len (bytes_from (data d) (id * 512) (len buf)) = len buf) as Hl by (apply length_bytes_from; lia).
  rewrite set_range_ok by lia. cbn [mbind outcome_bind]. unfold splice. rewrite Hl.
  by rewrite drop_ge, app_nil_r by lia.
Qed.

Lemma ram_write_ok d id buf : ram_ok d → 0 ≤ id → (512 | len buf) → id * 512 + len buf < 2 ^ 64 →
  ram_write_block id buf d
  = if id * 512 + len buf <=? len (data d)
    then Done ({| size := size d; data := splice (data d) (id * 512) buf |}, Ok tt)
    else Done (d, Err DevIo).
Proof.
  intros (Hs & _ & Hm) Hid Hdiv Hmax. unfold ram_write_block, BLOCK_SIZE.
  rewrite wmul_small, wadd_small by (rewrite ?wmul_small; split; lia). rewrite Hs, Z.gtb_ltb.
  destruct (Z.ltb_spec (len (data d)) (id * 512 + len buf)), (Z.leb_spec (id * 512 + len buf) (len (data d))); try lia; [done|].
  rewrite (proj2 (Z.mod_divide (len buf) 512 ltac:(lia)) Hdiv). cbn [Z.eqb negb].
  rewrite set_range_ok by lia. done.
Qed.

#[global] Program Instance RamDisk_laws : BlockDriverLaws RamDisk := {|
  content := data; dev_ok := ram_ok; healthy _ := True;
|}.
Next Obligation.
  intros d (Hs & [k Hk] & _). cbn. unfold BLOCK_SIZE. rewrite <- Hs, Hk, Z.div_mul; lia.
Qed.
Next Obligation.
  cbn. unfold BLOCK_SIZE. intros d id buf Hok Hid Hdiv Hmax. rewrite ram_read_ok by done.
  destruct (Z.leb_spec (id * 512 + len buf) (len (data d))); eexists _, _, _; (split; [reflexivity|]).
  - pose proof (length_bytes_from (data d) (id * 512) (len buf)). split_and!; [lia|done..].
  - done.
Qed.
Next Obligation.
  cbn. unfold BLOCK_SIZE. intros d id buf Hok Hid Hdiv Hmax. rewrite ram_write_ok by done.
  destruct (Z.leb_spec (id * 512 + len buf) (len (data d))); eexists _, _; (split; [reflexivity|]).
  - destruct Hok as (Hs & Hd & Hm). cbn [data size]. rewrite length_splice by lia.
    split_and!; [|done..]. split_and!; cbn [data size]; rewrite ?length_splice by lia; done.
  - done.
Qed.

(** A new disk is a disk of zeros of the size asked for, in whole blocks. *)
Lemma ram_new_ok n : 0 ≤ n < 2 ^ 62 →
  ∃ d, ram_new n = Done d ∧ ram_ok d ∧ n ≤ size d < n + 512 ∧ data d = replicate (Z.to_nat (size d)) 0.
Proof.
  intros Hn. unfold ram_new, ram_align_up, BLOCK_SIZE. change (512 ⊖ 1) with (2 ^ 9 - 1).
  rewrite wadd_small, wsub_small by (split; lia || rewrite ?wadd_small; split; lia).
  rewrite land_not_mask by (done || split; lia). pose proof (Z.mod_pos_bound (n + 512 - 1) (2 ^ 9)).
  unfold vec_zeros. rewrite (proj2 (Z.ltb_lt _ _)) by lia. eexists. split; [reflexivity|].
  unfold ram_ok. cbn [size data]. rewrite length_replicate.
  split_and!; [lia| |lia|lia|lia|done]. rewrite sub_mod_div by lia. exists ((n + 512 - 1) / 2 ^ 9). lia.
Qed.

(** Behind the last block of the address space the sum of [read_block] wraps
    around, and the slice panics instead of the error [Io]. *)
Lemma ram_read_block_wraps :
  ram_read_block (2 ^ 55 - 1) (replicate 512 0) {| size := 512; data := replicate 512 0 |} = Panic.
Proof. by vm_compute. Qed.

(** ** The theorem *)

Section disk_file.
Context {D : Type} `{Laws : BlockDriverLaws D}.
Implicit Types dk : Disk D.

Lemma disk_seeked q dk : disk_ok dk → 0 ≤ q < 2 ^ 64 - 512 →
  disk_ok (set_position q dk) ∧ cursor (set_position q dk) = q.
Proof.
  intros [] Hq. pose proof (Z.div_mod q 512). pose proof (Z.mod_pos_bound q 512). pose proof (Z.div_pos q 512).
  assert (cursor (set_position q dk) = q) as Hc.
  { unfold cursor, set_position, BLOCK_SIZE. cbn [block_id offset]. lia. }
  split; [|done]. split; [done|done|done| | |rewrite Hc; lia]; cbn [set_position block_id offset]; unfold BLOCK_SIZE; lia.
Qed.

Lemma disk_step_refines fill dk op : disk_ok dk → healthy (dev dk) → op_ok op →
  let '(s, a) := file_step (content (dev dk), cursor dk) op in
  s.2 < 2 ^ 64 - 512 →
  ∃ dk', disk_step fill dk op = Done (dk', a) ∧ disk_ok dk' ∧ healthy (dev dk') ∧
    (content (dev dk'), cursor dk') = s.
Proof.
  intros Hok Hhe Hop. destruct op as [n|bs|pos]; cbn [file_step disk_step op_ok] in *.
  - destruct (read_loop_spec (S (length (replicate (Z.to_nat n) fill))) [] (replicate (Z.to_nat n) fill) 0 dk)
      as (dk' & buf' & r & Hrun & Hok' & Hc & Hh & Hr); [done|lia|lia|rewrite length_replicate; lia|].
    unfold disk_read. rewrite Hrun. cbn [mbind outcome_bind app]. rewrite length_replicate in Hr.
    replace (Z.of_nat (Z.to_nat n)) with n in Hr by lia. destruct r as [k|[]].
    + destruct Hr as (-> & Hr & Hcu & ->).
      destruct ((n =? 0) || (cursor dk + n <=? len (content (dev dk)))) eqn:Hin.
      * intros _. exists dk'. split_and!; [|done|auto|by rewrite Hc, Hcu].
        rewrite take_ge; [done|]. unfold bytes_from. rewrite length_take. lia.
      * bool_to_prop. destruct Hr as [Hr|Hr]; [|lia]. apply (f_equal length) in Hr.
        rewrite length_replicate in Hr. simpl in Hr. lia.
    + destruct Hr as [Hne Hr]. destruct (Hr Hhe) as [Hout Hcu].
      assert (n ≠ 0) as Hn by (intros ->; by apply Hne).
      rewrite (proj2 (Z.eqb_neq n 0) Hn), (proj2 (Z.leb_gt _ _)) by lia.
      intros _. exists dk'. by split_and!; [done|done|auto|rewrite Hc, Hcu].
  - destruct (write_loop_spec (S (length bs)) bs 0 dk) as (dk' & r & Hrun & Hok' & Hh & Hr); [done|lia|lia|lia|].
    unfold disk_write. rewrite Hrun. cbn [mbind outcome_bind]. destruct r as [k|[]].
    + destruct Hr as (-> & Hr & Hcu & Hc). rewrite <- Hc.
      destruct ((len bs =? 0) || (cursor dk + len bs <=? len (content (dev dk)))) eqn:Hin.
      * intros _. exists dk'. by split_and!; [done|done|auto|rewrite Hcu].
      * bool_to_prop. destruct Hr as [->|Hr]; simpl in *; lia.
    + destruct Hr as [Hne Hr]. destruct (Hr Hhe) as (Hout & Hcu & Hc). rewrite <- Hc.
      assert (len bs ≠ 0) as Hn by (by destruct bs).
      rewrite (proj2 (Z.eqb_neq _ 0) Hn), (proj2 (Z.leb_gt _ _)) by lia.
      intros _. exists dk'. by split_and!; [done|done|auto|rewrite Hcu].
  - unfold disk_seek. rewrite disk_size_eq, position_eq by done.
    destruct (match pos with Start pos => _ | _ => _ end) as [q|] eqn:Hq; [|intros _; by exists dk].
    intros Hlt. exists (set_position q dk). destruct (disk_seeked q dk) as [? ->]; [done| |done].
    split; [|done]. unfold checked_add_signed in Hq. destruct pos; simplify_eq/=; [done|..];
      case_match; simplify_eq; bool_to_prop; lia.
Qed.

(** C33: a disk is an array of bytes with a cursor.  Whatever sequence of reads,
    writes and seeks of any lengths and positions is run on a disk over any
    block device that keeps the promises of the trait and is healthy, it
    completes without a panic and gives the answers of the same operations on
    an array of bytes; in the end the device holds the array and the disk has
    its cursor. *)
Theorem disk_refines_byte_file fill ops dk :
  disk_ok dk → healthy (dev dk) → in_reach (content (dev dk), cursor dk) ops →
  ∃ dk', disk_run fill dk ops = Done (dk', (file_run (content (dev dk), cursor dk) ops).2) ∧
    disk_ok dk' ∧
    (content (dev dk'), position dk') = (file_run (content (dev dk), cursor dk) ops).1.
Proof.
  revert dk. induction ops as [|op ops IH]; intros dk Hok Hhe Hin.
  - exists dk. by rewrite position_eq.
  - destruct Hin as (_ & Hop & Hin). cbn [disk_run file_run].
    pose proof (disk_step_refines fill dk op Hok Hhe Hop) as Hstep.
    destruct (file_step (content (dev dk), cursor dk) op) as [s a]. simpl in Hin.
    destruct Hstep as (dk1 & -> & Hok1 & Hhe1 & <-); [by destruct ops, Hin|].
    destruct (IH dk1 Hok1 Hhe1 Hin) as (dk' & Hrun & Hok' & Hs').
    destruct (file_run (content (dev dk1), cursor dk1) ops) as [s' l].
    exists dk'. cbn [mbind outcome_bind]. by rewrite Hrun.
Qed.

End disk_file.

(** A disk of two blocks; a write across their border, reads of what was
    written, and a read that reaches behind the end. *)
Definition demo_disk : Disk RamDisk :=
  {| block_id := 0; offset := 0; dev := {| size := 1024; data := replicate 1024 0 |} |}.
Definition demo_disk_ops : list disk_op :=
  [OpSeek (Start 509); OpWrite [1; 2; 3; 4; 5; 6]; OpSeek (Current (-5)); OpRead 6;
   OpSeek (End (-2)); OpRead 4; OpSeek (Current (-2000))].

Lemma disk_refines_byte_file_witness :
  ∃ dk', disk_run 255 demo_disk demo_disk_ops
    = Done (dk', [Position 509; Count 6; Position 510; Bytes [2; 3; 4; 5; 6; 0];
                  Position 1022; Failed; Failed]).
Proof.
  destruct (disk_refines_byte_file 255 demo_disk_ops demo_disk) as (dk' & Hrun & _).
  - split; [|done..]. split_and!; [done|by exists 2|done].
  - done.
  - unfold demo_disk_ops. by repeat (split; [by vm_compute|]).
  - exists dk'. rewrite Hrun. by vm_compute.
Defined.
