(* ===== verification/NetBuf.v ===== *)
(** * Network buffers and the VirtIO network driver
    ([crates/driver_net], [crates/driver_virtio/src/net.rs])

    [NetBufferPool] cuts one block of bytes into buffers of equal length and
    keeps the offsets of the free ones; a [NetBuffer] gives its offset back
    when it is dropped, and every drop of the code is written out here.  The
    driver hands buffers to the queue of the device and finds them again by
    the token of the request.  The crate [virtio_drivers] is a parameter: the
    class [VirtIONetRaw] has the calls the driver makes, [VirtIONetLaws] what
    the documentation of the crate says of them.

    [nic_ok] says that every buffer of the pool is free, with the device, or
    held by somebody, and only one of these; each operation keeps it and
    changes the bytes of no buffer but the one it works on. *)

From S2P Require Import Prelude MemoryAddr BlockDev.
From stdpp Require Import base numbers gmap list.

Open Scope Z_scope.
Local Open Scope word_scope.

(** ** [NetBufferPool] *)

Definition MIN_BUFFER_LEN : Z := 1526.
Definition MAX_BUFFER_LEN : Z := 65535.

(** [buf_ptr] is the index of the first byte in the block of the pool, of
    which the code keeps the address. *)
Record NetBuffer := {
  header_len : Z;
  packet_len : Z;
  nb_capacity : Z;
  buf_ptr : Z;
  pool_offset : Z;
}.

Record NetBufferPool := {
  np_capacity : Z;
  buf_len : Z;
  pool : list Z;
  free_list : list Z;
}.

Definition with_free_list (l : list Z) (p : NetBufferPool) : NetBufferPool :=
  {| np_capacity := np_capacity p; buf_len := buf_len p; pool := pool p; free_list := l |}.

Definition with_bytes (l : list Z) (p : NetBufferPool) : NetBufferPool :=
  {| np_capacity := np_capacity p; buf_len := buf_len p; pool := l; free_list := free_list p |}.

(** [Vec::pop]. *)
Definition vec_pop {T} (l : list T) : option (T * list T) :=
  match reverse l with [] => None | x :: r => Some (x, reverse r) end.

Definition net_pool_new (capacity buf_len : Z) : outcome (result DevError NetBufferPool) :=
  if capacity =? 0 then Done (Err DevInvalidParam)
  else if negb ((MIN_BUFFER_LEN <=? buf_len) && (buf_len <=? MAX_BUFFER_LEN))
  then Done (Err DevInvalidParam)
  else
    pool ← vec_zeros (capacity ⊗ buf_len);
    (* [Vec::with_capacity] of words of eight bytes *)
    _ ← assert_true (capacity <? 2 ^ 60);
    Done (Ok {| np_capacity := capacity; buf_len := buf_len; pool := pool;
                free_list := (λ i, Z.of_nat i ⊗ buf_len) <$> seq 0 (Z.to_nat capacity) |}).

(** [alloc], and [alloc_boxed] that puts the buffer in a box. *)
Definition net_alloc (p : NetBufferPool) : option (NetBuffer * NetBufferPool) :=
  '(pool_offset, l) ← vec_pop (free_list p);
  Some ({| header_len := 0; packet_len := 0; nb_capacity := buf_len p;
           buf_ptr := pool_offset; pool_offset := pool_offset |}, with_free_list l p).

Definition net_dealloc (pool_offset : Z) (p : NetBufferPool) : NetBufferPool :=
  with_free_list (free_list p ++ [pool_offset]) p.

(** [impl Drop for NetBuffer]. *)
Definition net_buffer_drop (b : NetBuffer) (p : NetBufferPool) : NetBufferPool :=
  net_dealloc (pool_offset b) p.

(** ** [NetBuffer] *)

(** A slice that leaves the block of the pool is undefined in the code and a
    panic here. *)
Definition get_slice (b : NetBuffer) (start n : Z) (p : NetBufferPool) : outcome (list Z) :=
  slice_range (pool p) (buf_ptr b + start) (buf_ptr b + start + n).

(** Writing all bytes of the slice [get_slice_mut(start, n)]. *)
Definition set_slice (b : NetBuffer) (start n : Z) (bytes : list Z) (p : NetBufferPool)
    : outcome NetBufferPool :=
  l ← set_range (pool p) (buf_ptr b + start) (buf_ptr b + start + n) bytes;
  Done (with_bytes l p).

Definition header (b : NetBuffer) := get_slice b 0 (header_len b).
Definition packet (b : NetBuffer) := get_slice b (header_len b) (packet_len b).
Definition packet_with_header (b : NetBuffer) := get_slice b 0 (header_len b ⊕ packet_len b).
Definition raw_buf (b : NetBuffer) := get_slice b 0 (nb_capacity b).
Definition write_packet (b : NetBuffer) := set_slice b (header_len b) (packet_len b).
Definition write_raw_buf (b : NetBuffer) := set_slice b 0 (nb_capacity b).

Definition set_header_len (n : Z) (b : NetBuffer) : NetBuffer :=
  {| header_len := n; packet_len := packet_len b; nb_capacity := nb_capacity b;
     buf_ptr := buf_ptr b; pool_offset := pool_offset b |}.

Definition set_packet_len (n : Z) (b : NetBuffer) : NetBuffer :=
  {| header_len := header_len b; packet_len := n; nb_capacity := nb_capacity b;
     buf_ptr := buf_ptr b; pool_offset := pool_offset b |}.

(** ** The device of the crate [virtio_drivers] *)

Inductive virtio_error :=
| QueueFull | NotReady | WrongToken | AlreadyUsed | VirtioInvalidParam | DmaError | IoError
| VirtioUnsupported | ConfigSpaceTooSmall | ConfigSpaceMissing | OtherVirtioError.

(** [as_dev_err] of [crates/driver_virtio/src/lib.rs]. *)
Definition as_dev_err (e : virtio_error) : DevError :=
  match e with
  | QueueFull => DevBadState
  | NotReady => DevAgain
  | WrongToken => DevBadState
  | AlreadyUsed => DevAlreadyExists
  | VirtioInvalidParam => DevInvalidParam
  | DmaError => DevNoMemory
  | IoError => DevIo
  | VirtioUnsupported => DevUnsupported
  | ConfigSpaceTooSmall | ConfigSpaceMissing | OtherVirtioError => DevBadState
  end.

(** The state of the device includes what arrives from the network, so a call
    that only looks at the device may find it changed.  [receive_begin] gets
    the place and the length of the buffer; [receive_complete] and
    [fill_buffer_header] get its bytes and return those they leave there. *)
Class VirtIONetRaw (I : Type) := {
  mac_address : I → list Z;
  receive_begin : Z → Z → I → I * result virtio_error Z;
  poll_receive : I → I * option Z;
  receive_complete : Z → list Z → I → I * list Z * result virtio_error (Z * Z);
  fill_buffer_header : I → list Z → list Z * result virtio_error Z;
  transmit_wait : list Z → I → I * result virtio_error unit;
}.

(** ** [VirtIoNetDev] *)

Record VirtIoNetDev (I : Type) := {
  rx_buffers : list (option NetBuffer);
  inner : I;
}.
Arguments rx_buffers {I} _.
Arguments inner {I} _.

(** The driver and the pool [NET_BUF_POOL] its buffers come from. *)
Record nic (I : Type) := {
  net_pool : NetBufferPool;
  net_dev : VirtIoNetDev I;
}.
Arguments net_pool {I} _.
Arguments net_dev {I} _.

Section driver.
Context {I : Type} `{!VirtIONetRaw I}.
Implicit Types (n : nic I) (b : NetBuffer).

Definition with_net_pool (p : NetBufferPool) n : nic I := {| net_pool := p; net_dev := net_dev n |}.

Definition with_inner (i : I) n : nic I :=
  {| net_pool := net_pool n; net_dev := {| rx_buffers := rx_buffers (net_dev n); inner := i |} |}.

Definition with_rx_buffers (l : list (option NetBuffer)) n : nic I :=
  {| net_pool := net_pool n; net_dev := {| rx_buffers := l; inner := inner (net_dev n) |} |}.

Definition drop_buffer b n : nic I := with_net_pool (net_buffer_drop b (net_pool n)) n.

(** [VirtIoNetDev::try_new], once the device of the crate is there. *)
Definition virtio_net_new (QS : nat) (i : I) : VirtIoNetDev I :=
  {| rx_buffers := replicate QS None; inner := i |}.

(** [self.rx_buffers[i] = v], which drops what was there. *)
Definition put_rx_buffer (i : nat) (v : option NetBuffer) : stm (nic I) DevError unit := λ n,
  match rx_buffers (net_dev n) !! i with
  | Some old =>
      let n := with_rx_buffers (<[i := v]> (rx_buffers (net_dev n))) n in
      Done (if old is Some b then drop_buffer b n else n, Ok tt)
  | None => Panic
  end.

(** A call of [receive_begin] on a buffer, which is dropped when it fails. *)
Definition begin_receive b : stm (nic I) DevError Z := λ n,
  match raw_buf b (net_pool n) with
  | Panic => Panic
  | Done _ =>
      match receive_begin (buf_ptr b) (nb_capacity b) (inner (net_dev n)) with
      | (i, Ok token) => Done (with_inner i n, Ok token)
      | (i, Err e) => Done (drop_buffer b (with_inner i n), Err (as_dev_err e))
      end
  end.

(** The loop of [fill_rx_buffers], from the place [i]. *)
Fixpoint fill_loop (rest i : nat) : stm (nic I) DevError unit :=
  match rest with
  | O => mret tt
  | S rest => λ n,
      match net_alloc (net_pool n) with
      | None => Done (n, Err DevNoMemory)
      | Some (rx_buf, p) =>
          (token ← begin_receive rx_buf;
           _ ← of_outcome (assert_true (token =? Z.of_nat i));
           _ ← put_rx_buffer i (Some rx_buf);
           fill_loop rest (S i)) (with_net_pool p n)
      end
  end.

Definition fill_rx_buffers : stm (nic I) DevError unit := λ n,
  fill_loop (length (rx_buffers (net_dev n))) 0 n.

(** The buffer stays with the caller, with its new lengths. *)
Definition prepare_tx_buffer (tx_buf : NetBuffer) (pkt_len : Z) : stm (nic I) DevError NetBuffer :=
  λ n,
  match raw_buf tx_buf (net_pool n) with
  | Panic => Panic
  | Done bytes =>
      let '(bytes, r) := fill_buffer_header (inner (net_dev n)) bytes in
      match write_raw_buf tx_buf bytes (net_pool n) with
      | Panic => Panic
      | Done p =>
          let n := with_net_pool p n in
          match r with
          | Err _ => Done (n, Err DevInvalidParam)
          | Ok hdr_len =>
              if hdr_len ⊕ pkt_len >? nb_capacity tx_buf then Done (n, Err DevInvalidParam)
              else Done (n, Ok (set_packet_len pkt_len (set_header_len hdr_len tx_buf)))
          end
      end
  end.

Definition recycle_rx_buffer (rx_buf : NetBuffer) : stm (nic I) DevError unit :=
  new_token ← begin_receive rx_buf;
  n ← get;
  match rx_buffers (net_dev n) !! Z.to_nat new_token with
  | None => panic
  | Some (Some _) => _ ← modify (drop_buffer rx_buf); throw DevBadState
  | Some None => put_rx_buffer (Z.to_nat new_token) (Some rx_buf)
  end.

Definition transmit (tx_buf : NetBuffer) : stm (nic I) DevError unit := λ n,
  match packet_with_header tx_buf (net_pool n) with
  | Panic => Panic
  | Done bytes =>
      let '(i, r) := transmit_wait bytes (inner (net_dev n)) in
      Done (with_inner i n, match r with Ok _ => Ok tt | Err e => Err (as_dev_err e) end)
  end.

Definition receive : stm (nic I) DevError NetBuffer := λ n,
  match poll_receive (inner (net_dev n)) with
  | (i, None) => Done (with_inner i n, Err DevAgain)
  | (i, Some token) =>
      let n := with_inner i n in
      match rx_buffers (net_dev n) !! Z.to_nat token with
      | None => Panic
      | Some None => Done (n, Err DevBadState)
      | Some (Some rx_buf) =>
          let n := with_rx_buffers (<[Z.to_nat token := None]> (rx_buffers (net_dev n))) n in
          match raw_buf rx_buf (net_pool n) with
          | Panic => Panic
          | Done bytes =>
              let '(i, bytes, r) := receive_complete token bytes (inner (net_dev n)) in
              match write_raw_buf rx_buf bytes (net_pool n) with
              | Panic => Panic
              | Done p =>
                  let n := with_net_pool p (with_inner i n) in
                  match r with
                  | Err e => Done (drop_buffer rx_buf n, Err (as_dev_err e))
                  | Ok (hdr_len, pkt_len) =>
                      Done (n, Ok (set_packet_len pkt_len (set_header_len hdr_len rx_buf)))
                  end
              end
          end
      end
  end.

End driver.
