(* ===== verification/NetBufSpec.v ===== *)
(** * Every network buffer has one owner

    The laws of the device of [virtio_drivers], the invariant [nic_ok] of the
    pool and the driver of [NetBuf], and what each operation of the driver
    does in terms of it: where the buffer goes, which bytes change, which
    packet was received or sent. *)

From S2P Require Import Prelude MemoryAddr BlockDev NetBuf.
From stdpp Require Import base numbers gmap list.

Open Scope Z_scope.
Local Open Scope word_scope.

(** ** What the device promises *)

(** [posted] are the buffers given to the receive queue, by token; [ready] is
    the packet a request has completed with; [new_queue k] says that [k] requests
    were made on a new queue and none has completed; [received] and [sent]
    are all packets handed over so far.  The receive queue accepts a request
    while one of its [QS] places is empty, tokens of pending requests differ,
    those of a new queue count from 0, and a request that has completed
    leaves the header and the packet in its buffer.  A transmission
    succeeds. *)
Class VirtIONetLaws (I : Type) (QS : nat) `{Ops : !VirtIONetRaw I} := {
  posted : I → Z → option (Z * Z);
  ready : I → Z → option (list Z);
  new_queue : I → option Z;
  received : I → list (list Z);
  sent : I → list (list Z);
  net_hdr : list Z;
  net_hdr_short : len net_hdr ≤ 12;
  receive_begin_law i a l t0 :
    0 ≤ t0 < Z.of_nat QS → posted i t0 = None →
    ∃ i' t, receive_begin a l i = (i', Ok t) ∧ 0 ≤ t < Z.of_nat QS ∧ posted i t = None ∧
      (∀ u, posted i' u = if decide (u = t) then Some (a, l) else posted i u) ∧
      received i' = received i ∧ sent i' = sent i;
  fresh_posted i k t : new_queue i = Some k → k ≤ t → posted i t = None;
  fresh_begin i i' a l k t :
    new_queue i = Some k → receive_begin a l i = (i', Ok t) → t = k ∧ new_queue i' = Some (k + 1);
  poll_receive_law i i' r :
    poll_receive i = (i', r) →
    (∀ u, posted i' u = posted i u) ∧ received i' = received i ∧ sent i' = sent i ∧
    ∀ t, r = Some t →
      0 ≤ t < Z.of_nat QS ∧ is_Some (posted i' t) ∧ is_Some (ready i' t);
  receive_complete_law i t a l bytes pkt :
    posted i t = Some (a, l) → ready i t = Some pkt → len bytes = l →
    ∃ i' bytes' h k, receive_complete t bytes i = (i', bytes', Ok (h, k)) ∧
      0 ≤ h ∧ 0 ≤ k ∧ h + k ≤ l ∧ len bytes' = l ∧ bytes_from bytes' h k = pkt ∧
      (∀ u, posted i' u = if decide (u = t) then None else posted i u) ∧
      received i' = received i ++ [pkt] ∧ sent i' = sent i;
  fill_buffer_header_law i bytes :
    len net_hdr ≤ len bytes →
    fill_buffer_header i bytes = (splice bytes 0 net_hdr, Ok (len net_hdr));
  transmit_wait_law i bytes :
    ∃ i', transmit_wait bytes i = (i', Ok tt) ∧ (∀ u, posted i' u = posted i u) ∧
      received i' = received i ∧ sent i' = sent i ++ [bytes];
}.

(** ** The buffers of a pool *)

Record pool_shape (p : NetBufferPool) : Prop := {
  ps_len : MIN_BUFFER_LEN ≤ buf_len p ≤ MAX_BUFFER_LEN;
  ps_capacity : 0 < np_capacity p;
  ps_bytes : len (pool p) = np_capacity p * buf_len p;
  ps_small : len (pool p) < 2 ^ 63;
}.

Definition offsets (p : NetBufferPool) : list Z :=
  (λ i, Z.of_nat i * buf_len p) <$> seq 0 (Z.to_nat (np_capacity p)).

Record buf_ok (p : NetBufferPool) (b : NetBuffer) : Prop := {
  bo_offset : pool_offset b ∈ offsets p;
  bo_ptr : buf_ptr b = pool_offset b;
  bo_capacity : nb_capacity b = buf_len p;
  bo_header : 0 ≤ header_len b;
  bo_packet : 0 ≤ packet_len b;
  bo_fits : header_len b + packet_len b ≤ buf_len p;
}.

(** The bytes of the packet part. *)
Definition packet_bytes (p : NetBufferPool) (b : NetBuffer) : list Z :=
  bytes_from (pool p) (buf_ptr b + header_len b) (packet_len b).

(** [p'] is [p] but for the free buffers and the bytes of the buffers at [os]. *)
Record untouched (os : list Z) (p p' : NetBufferPool) : Prop := {
  un_capacity : np_capacity p' = np_capacity p;
  un_len : buf_len p' = buf_len p;
  un_bytes : length (pool p') = length (pool p);
  un_same o : o ∈ offsets p → o ∉ os →
    bytes_from (pool p') o (buf_len p) = bytes_from (pool p) o (buf_len p);
}.

Lemma elem_of_offsets p o : pool_shape p →
  o ∈ offsets p ↔ ∃ i, 0 ≤ i < np_capacity p ∧ o = i * buf_len p.
Proof.
  intros [_ Hc _ _]. unfold offsets. rewrite list_elem_of_fmap. split.
  - intros (i & -> & Hi%elem_of_seq). exists (Z.of_nat i). lia.
  - intros (i & Hi & ->). exists (Z.to_nat i). rewrite elem_of_seq. split; [|lia]. by rewrite Z2Nat.id by lia.
Qed.

Lemma offset_in_pool p o : pool_shape p → o ∈ offsets p → 0 ≤ o ∧ o + buf_len p ≤ len (pool p).
Proof.
  intros Hp Ho. apply elem_of_offsets in Ho as (i & Hi & ->); [|done].
  destruct Hp as [Hl Hc -> _]. unfold MIN_BUFFER_LEN in *. nia.
Qed.

Lemma offsets_apart p o o' : pool_shape p → o ∈ offsets p → o' ∈ offsets p → o ≠ o' →
  o + buf_len p ≤ o' ∨ o' + buf_len p ≤ o.
Proof.
  intros Hp Ho Ho' Hne. apply elem_of_offsets in Ho as (i & Hi & ->); [|done].
  apply elem_of_offsets in Ho' as (j & Hj & ->); [|done].
  destruct Hp as [Hl _ _ _]. unfold MIN_BUFFER_LEN in *.
  assert (i < j ∨ j < i) as [|] by (destruct (decide (i = j)) as [->|]; [done|lia]); nia.
Qed.

Lemma offsets_NoDup p : pool_shape p → NoDup (offsets p).
Proof.
  intros [Hl _ _ _]. apply NoDup_fmap_2_strong; [|apply NoDup_seq].
  intros i j _ _ Heq. unfold MIN_BUFFER_LEN in *. nia.
Qed.

Lemma untouched_offsets os p p' : untouched os p p' → offsets p' = offsets p.
Proof. intros [H1 H2 _ _]. unfold offsets. by rewrite H1, H2. Qed.

Lemma untouched_shape os p p' : untouched os p p' → pool_shape p → pool_shape p'.
Proof. intros [H1 H2 H3 _] [H4 H5 H6 H7]. split; rewrite ?H1, ?H2, ?H3; lia. Qed.

Lemma untouched_buf os p p' b : untouched os p p' → buf_ok p b → buf_ok p' b.
Proof.
  intros Hu [? ? ? ? ? ?]. pose proof (un_len _ _ _ Hu) as Hl.
  split; rewrite ?(untouched_offsets _ _ _ Hu), ?Hl; done.
Qed.

Lemma untouched_trans os p1 p2 p3 : untouched os p1 p2 → untouched os p2 p3 → untouched os p1 p3.
Proof.
  intros H1 H2. pose proof (untouched_offsets _ _ _ H1) as Ho.
  destruct H1 as [a1 a2 a3 a4], H2 as [b1 b2 b3 b4]. split; try congruence.
  intros o Hin Hn. rewrite <- a4, <- a2 by done. apply b4; [by rewrite Ho|done].
Qed.

Lemma untouched_weaken os os' p p' : untouched os p p' → (∀ o, o ∈ os → o ∈ os') → untouched os' p p'.
Proof. intros [? ? ? Hs] Ho. split; try done. intros o Hin Hn. apply Hs; [done|]. intros H. by apply Hn, Ho. Qed.

Lemma untouched_free os p l : untouched os p (with_free_list l p).
Proof. by split. Qed.

Lemma packet_untouched os p p' b :
  pool_shape p → untouched os p p' → buf_ok p b → pool_offset b ∉ os → packet_bytes p' b = packet_bytes p b.
Proof.
  intros Hp Hu [Hin Hptr _ Hh Hk Hf] Hn. unfold packet_bytes. rewrite Hptr.
  destruct (offset_in_pool p _ Hp Hin) as [Hlo _].
  rewrite <- !(bytes_from_from _ (pool_offset b) (buf_len p)) by lia.
  by rewrite (un_same _ _ _ Hu).
Qed.

(** ** Slices of a buffer *)

Section slices.
Context (p : NetBufferPool) (b : NetBuffer) (Hp : pool_shape p) (Hb : buf_ok p b).

Lemma get_slice_ok start n : 0 ≤ start → 0 ≤ n → start + n ≤ buf_len p →
  get_slice b start n p = Done (bytes_from (pool p) (buf_ptr b + start) n).
Proof using Hp Hb.
  intros. destruct Hb as [Hin Hptr _ _ _ _]. destruct (offset_in_pool p _ Hp Hin).
  unfold get_slice. rewrite slice_range_ok by lia. do 2 f_equal. lia.
Qed.

Lemma set_slice_ok start bytes : 0 ≤ start → start + len bytes ≤ buf_len p →
  ∃ p', set_slice b start (len bytes) bytes p = Done p' ∧ untouched [pool_offset b] p p' ∧
    p' = with_bytes (splice (pool p) (buf_ptr b + start) bytes) p.
Proof using Hp Hb.
  intros. destruct Hb as [Hin Hptr _ _ _ _]. destruct (offset_in_pool p _ Hp Hin).
  unfold set_slice. rewrite set_range_ok by lia. eexists. split; [done|]. split; [|done].
  split; [done|done|cbn [pool with_bytes]; by rewrite length_splice by lia|]. cbn [pool with_bytes].
  intros o Ho Hne. apply not_elem_of_cons in Hne as [Hne _].
  destruct (offset_in_pool p o Hp Ho).
  pose proof (offsets_apart p _ _ Hp Ho Hin Hne). apply list_eq. intros i.
  rewrite !bytes_from_lookup by lia. case_decide; [|done]. rewrite splice_lookup by lia.
  rewrite decide_False by lia. done.
Qed.

Lemma packet_ok : packet b p = Done (packet_bytes p b).
Proof using Hp Hb. destruct (Hb) as [_ _ _ ? ? ?]. unfold packet. by rewrite get_slice_ok by lia. Qed.

Lemma raw_buf_ok : raw_buf b p = Done (bytes_from (pool p) (pool_offset b) (buf_len p)).
Proof using Hp Hb.
  destruct (Hb) as [_ Hptr Hc ? ? ?]. destruct (Hp) as [? _ _ _]. unfold raw_buf, MIN_BUFFER_LEN in *.
  rewrite Hc, get_slice_ok by lia. by rewrite Z.add_0_r, Hptr.
Qed.

Lemma raw_buf_len : len (bytes_from (pool p) (pool_offset b) (buf_len p)) = buf_len p.
Proof using Hp Hb.
  destruct (Hb) as [Hin _ _ _ _ _], (Hp) as [? _ _ _]. destruct (offset_in_pool p _ Hp Hin).
  unfold MIN_BUFFER_LEN in *. apply length_bytes_from; lia.
Qed.

End slices.

(** ** The invariant *)

(** Taking an entry out of a table of places, and filling an empty one. *)
Lemma omap_insert_Some {T} (l : list (option T)) i x :
  l !! i = Some None → omap id (<[i := Some x]> l) ≡ₚ x :: omap id l.
Proof.
  intros Hi. rewrite insert_take_drop by (by eapply lookup_lt_Some). rewrite omap_app. simpl.
  rewrite <- (take_drop_middle l i None Hi) at 3. rewrite omap_app. simpl. by rewrite Permutation_middle.
Qed.

Lemma omap_insert_None {T} (l : list (option T)) i x :
  l !! i = Some (Some x) → omap id l ≡ₚ x :: omap id (<[i := None]> l).
Proof.
  intros Hi. rewrite insert_take_drop by (by eapply lookup_lt_Some). rewrite omap_app. simpl.
  rewrite <- (take_drop_middle l i _ Hi) at 1. rewrite omap_app. simpl. by rewrite Permutation_middle.
Qed.

Lemma omap_id_free {T} (l : list (option T)) :
  (length (omap id l) < length l)%nat → ∃ i, l !! i = Some None.
Proof.
  induction l as [|[x|] l IH]; csimpl; intros Hl; [lia| |by exists 0%nat].
  destruct IH as (i & Hi); [lia|]. by exists (S i).
Qed.

Section nic.
Context {I : Type} {QS : nat} `{Ops : !VirtIONetRaw I} `{Laws : !VirtIONetLaws I QS}.
Implicit Types (n : nic I) (held : list NetBuffer) (b : NetBuffer).

(** The buffers given to the device. *)
Definition rx_bufs n : list NetBuffer := omap id (rx_buffers (net_dev n)).

Definition request b : Z * Z := (buf_ptr b, nb_capacity b).

(** [held] are the buffers outside of the pool and the driver. *)
Record nic_ok n held : Prop := {
  no_shape : pool_shape (net_pool n);
  no_owned : free_list (net_pool n) ++ (pool_offset <$> rx_bufs n ++ held) ≡ₚ offsets (net_pool n);
  no_bufs : Forall (buf_ok (net_pool n)) (rx_bufs n ++ held);
  no_slots : length (rx_buffers (net_dev n)) = QS;
  no_posted t : (t < QS)%nat →
    posted (inner (net_dev n)) (Z.of_nat t) = request <$> mjoin (rx_buffers (net_dev n) !! t);
}.

(** What an operation leaves alone: the bytes of all buffers but those at
    [os]; what it receives and sends. *)
Record nic_step (os : list Z) (rs ss : list (list Z)) n n' : Prop := {
  ns_untouched : untouched os (net_pool n) (net_pool n');
  ns_received : received (inner (net_dev n')) = received (inner (net_dev n)) ++ rs;
  ns_sent : sent (inner (net_dev n')) = sent (inner (net_dev n)) ++ ss;
}.

Lemma nic_step_pool os p n : untouched os (net_pool n) p → nic_step os [] [] n (with_net_pool p n).
Proof. split; cbn; by rewrite ?app_nil_r. Qed.

Lemma nic_step_trans os rs rs' ss ss' n1 n2 n3 :
  nic_step os rs ss n1 n2 → nic_step os rs' ss' n2 n3 → nic_step os (rs ++ rs') (ss ++ ss') n1 n3.
Proof.
  intros [H1 H2 H3] [H4 H5 H6]. split; [by eapply untouched_trans| |].
  - by rewrite H5, H2, (assoc_L (++)).
  - by rewrite H6, H3, (assoc_L (++)).
Qed.

Lemma nic_held_ok n held b : nic_ok n held → b ∈ held → buf_ok (net_pool n) b.
Proof. intros Hn Hb. apply (proj1 (Forall_forall _ _) (no_bufs _ _ Hn)), elem_of_app. by right. Qed.

(** No two buffers outside of the pool are at the same place. *)
Lemma nic_NoDup n held : nic_ok n held → NoDup (pool_offset <$> rx_bufs n ++ held).
Proof.
  intros Hn. pose proof (offsets_NoDup _ (no_shape _ _ Hn)) as Hd.
  rewrite <- (no_owned _ _ Hn) in Hd. by apply NoDup_app in Hd as (_ & _ & Hd).
Qed.

Lemma nic_held_NoDup n held : nic_ok n held → NoDup (pool_offset <$> held).
Proof. intros Hn. pose proof (nic_NoDup _ _ Hn) as Hd. rewrite fmap_app in Hd. by apply NoDup_app in Hd as (_ & _ & Hd). Qed.

(** The invariant depends on the held buffers only as a set, and on the state
    of the device only through the pending requests. *)
Lemma nic_ok_change n held p held' :
  nic_ok n held → untouched (offsets (net_pool n)) (net_pool n) p →
  free_list p ++ (pool_offset <$> held') ≡ₚ free_list (net_pool n) ++ (pool_offset <$> held) →
  Forall (buf_ok p) held' → nic_ok (with_net_pool p n) held'.
Proof.
  intros [H1 H2 H3 H4 H5] Hu Hf Hb. split; cbn; [by eapply untouched_shape| | |done|done].
  - change (rx_bufs (with_net_pool p n)) with (rx_bufs n).
    rewrite (untouched_offsets _ _ _ Hu), <- H2, !fmap_app, !(Permutation_app_comm (pool_offset <$> rx_bufs n)).
    by rewrite !(assoc_L (++)), Hf.
  - change (rx_bufs (with_net_pool p n)) with (rx_bufs n). apply Forall_app. split; [|done].
    apply Forall_app in H3 as [H3 _]. eapply Forall_impl; [exact H3|].
    intros b. by apply untouched_buf with (offsets (net_pool n)).
Qed.

Lemma nic_ok_inner n held i :
  nic_ok n held → (∀ u, posted i u = posted (inner (net_dev n)) u) → nic_ok (with_inner i n) held.
Proof. intros [H1 H2 H3 H4 H5] Hi. split; try done. intros t Ht. cbn. rewrite Hi. by apply H5. Qed.

Lemma nic_ok_perm n held held' : nic_ok n held → held ≡ₚ held' → nic_ok n held'.
Proof. intros [H1 H2 H3 H4 H5] Hp. split; try done; by rewrite <- Hp. Qed.

(** ** The pool *)

Lemma vec_pop_Some {T} (l l' : list T) x : vec_pop l = Some (x, l') ↔ l = l' ++ [x].
Proof.
  unfold vec_pop. rewrite <- (reverse_involutive l) at 2. destruct (reverse l) as [|y r].
  - split; [done|]. intros Hl. apply (f_equal length) in Hl. rewrite length_app in Hl. simpl in Hl. lia.
  - rewrite reverse_cons. split; [by intros [= -> <-]|]. intros Hl. apply app_inj_tail in Hl as [-> ->]. done.
Qed.

Lemma vec_pop_None {T} (l : list T) : vec_pop l = None ↔ l = [].
Proof.
  unfold vec_pop. split; [|by intros ->]. rewrite <- (reverse_involutive l) at 2. by destruct (reverse l).
Qed.

Lemma net_alloc_spec n held : nic_ok n held → free_list (net_pool n) ≠ [] →
  ∃ b p, net_alloc (net_pool n) = Some (b, p) ∧ nic_ok (with_net_pool p n) (b :: held) ∧
    nic_step [] [] [] n (with_net_pool p n) ∧ header_len b = 0 ∧ packet_len b = 0 ∧
    free_list (net_pool n) = free_list p ++ [pool_offset b].
Proof.
  intros Hn Hf. destruct (vec_pop (free_list (net_pool n))) as [[o l]|] eqn:Hpop; [|by apply vec_pop_None in Hpop].
  unfold net_alloc. rewrite Hpop. apply vec_pop_Some in Hpop. cbn. eexists _, _. split; [done|].
  split; [|split; [by apply nic_step_pool, untouched_free|done]].
  pose proof (no_shape _ _ Hn) as Hsh. pose proof (no_bufs _ _ Hn) as Hbs. apply Forall_app in Hbs as [_ Hbs].
  eapply nic_ok_change; [done|apply untouched_free| |].
  - cbn. rewrite Hpop, <- (assoc_L (++)). reflexivity.
  - apply Forall_cons. split.
    2: { eapply Forall_impl; [exact Hbs|]. intros b. apply untouched_buf with [], untouched_free. }
    destruct Hsh as [Hl _ _ _]. unfold MIN_BUFFER_LEN in *.
    split; cbn; try done; try lia. change (o ∈ offsets (net_pool n)).
    rewrite <- (no_owned _ _ Hn), Hpop. set_solver.
Qed.

Lemma net_drop_spec n held b : nic_ok n (b :: held) →
  nic_ok (drop_buffer b n) held ∧ nic_step [] [] [] n (drop_buffer b n) ∧
  free_list (net_pool (drop_buffer b n)) ≠ [].
Proof.
  intros Hn. split; [|split; [apply nic_step_pool, untouched_free|cbn; by destruct (free_list (net_pool n))]].
  eapply nic_ok_change; [done|apply untouched_free| |].
  - cbn. by rewrite <- (assoc_L (++)).
  - pose proof (no_bufs _ _ Hn) as Hbs. apply Forall_app in Hbs as [_ [_ Hbs]%Forall_cons].
    eapply Forall_impl; [exact Hbs|]. intros b'. apply untouched_buf with [], untouched_free.
Qed.

(** Writing in a held buffer. *)
Lemma nic_ok_write n held b p : nic_ok n (b :: held) → untouched [pool_offset b] (net_pool n) p →
  free_list p = free_list (net_pool n) → nic_ok (with_net_pool p n) (b :: held).
Proof.
  intros Hn Hu Hf. pose proof (no_bufs _ _ Hn) as Hbs. apply Forall_app in Hbs as [_ Hbs].
  eapply nic_ok_change; [done| |by rewrite Hf|].
  - eapply untouched_weaken; [done|]. intros o ->%list_elem_of_singleton.
    apply (bo_offset _ b). by apply Forall_cons in Hbs as [? _].
  - eapply Forall_impl; [exact Hbs|]. intros b'. by eapply untouched_buf.
Qed.

(** ** The driver *)

Lemma begin_receive_spec n held b : nic_ok n (b :: held) → (length (rx_bufs n) < QS)%nat →
  ∃ i t, begin_receive b n = Done (with_inner i n, Ok (Z.of_nat t)) ∧
    receive_begin (buf_ptr b) (nb_capacity b) (inner (net_dev n)) = (i, Ok (Z.of_nat t)) ∧
    rx_buffers (net_dev n) !! t = Some None ∧
    (∀ u, posted i u = if decide (u = Z.of_nat t) then Some (request b) else posted (inner (net_dev n)) u) ∧
    nic_step [] [] [] n (with_inner i n).
Proof.
  intros Hn Hfree. unfold begin_receive.
  rewrite (raw_buf_ok _ _ (no_shape _ _ Hn)) by (eapply nic_held_ok; [exact Hn|left]).
  destruct (omap_id_free (rx_buffers (net_dev n))) as (t0 & Ht0).
  { rewrite (no_slots _ _ Hn). exact Hfree. }
  pose proof (lookup_lt_Some _ _ _ Ht0) as Hlt. rewrite (no_slots _ _ Hn) in Hlt.
  destruct (receive_begin_law (inner (net_dev n)) (buf_ptr b) (nb_capacity b) (Z.of_nat t0))
    as (i & t & Hcall & Ht & Hnone & Hpost & Hrec & Hsent).
  { lia. }
  { by rewrite (no_posted _ _ Hn), Ht0 by lia. }
  rewrite Hcall. exists i, (Z.to_nat t). rewrite Z2Nat.id by lia. split; [done|]. split; [done|].
  split; [|split; [done|split; [by split|cbn; by rewrite app_nil_r|cbn; by rewrite app_nil_r]]].
  pose proof (no_posted _ _ Hn (Z.to_nat t)) as Hp. rewrite Z2Nat.id, Hnone in Hp by lia.
  specialize (Hp ltac:(lia)). destruct (rx_buffers (net_dev n) !! Z.to_nat t) as [[?|]|] eqn:Hl; [done|done|].
  apply lookup_ge_None in Hl. rewrite (no_slots _ _ Hn) in Hl. lia.
Qed.

Lemma nic_ok_give n held b i t : nic_ok n (b :: held) → rx_buffers (net_dev n) !! t = Some None →
  (∀ u, posted i u = if decide (u = Z.of_nat t) then Some (request b) else posted (inner (net_dev n)) u) →
  nic_ok (with_rx_buffers (<[t := Some b]> (rx_buffers (net_dev n))) (with_inner i n)) held.
Proof.
  intros [H1 H2 H3 H4 H5] Ht Hi. pose proof (omap_insert_Some _ t b Ht) as Hperm.
  assert (omap id (<[t := Some b]> (rx_buffers (net_dev n))) ++ held ≡ₚ rx_bufs n ++ b :: held) as Hall.
  { rewrite Hperm. simpl. by rewrite Permutation_middle. }
  split; cbn; [done|by rewrite Hall|by rewrite Hall|by rewrite length_insert|].
  intros u Hu. rewrite Hi. destruct (decide (u = t)) as [->|Hne].
  - rewrite decide_True by done. rewrite list_lookup_insert_eq; [done|]. by eapply lookup_lt_Some.
  - rewrite decide_False by lia. rewrite list_lookup_insert_ne by done. by apply H5.
Qed.

Lemma nic_ok_take n held b i t : nic_ok n held → rx_buffers (net_dev n) !! t = Some (Some b) →
  (∀ u, posted i u = if decide (u = Z.of_nat t) then None else posted (inner (net_dev n)) u) →
  nic_ok (with_rx_buffers (<[t := None]> (rx_buffers (net_dev n))) (with_inner i n)) (b :: held).
Proof.
  intros [H1 H2 H3 H4 H5] Ht Hi. pose proof (omap_insert_None _ t b Ht) as Hperm.
  assert (omap id (<[t := None]> (rx_buffers (net_dev n))) ++ b :: held ≡ₚ rx_bufs n ++ held) as Hall.
  { unfold rx_bufs. rewrite Hperm. simpl. by rewrite <- Permutation_middle. }
  split; cbn; [done|by rewrite Hall|by rewrite Hall|by rewrite length_insert|].
  intros u Hu. rewrite Hi. destruct (decide (u = t)) as [->|Hne].
  - rewrite decide_True by done. rewrite list_lookup_insert_eq; [done|]. by eapply lookup_lt_Some.
  - rewrite decide_False by lia. rewrite list_lookup_insert_ne by done. by apply H5.
Qed.

(** A received buffer goes back to the device. *)
Lemma recycle_spec n held b : nic_ok n (b :: held) → (length (rx_bufs n) < QS)%nat →
  ∃ n', recycle_rx_buffer b n = Done (n', Ok tt) ∧ nic_ok n' held ∧ nic_step [] [] [] n n' ∧
    length (rx_bufs n') = S (length (rx_bufs n)) ∧ free_list (net_pool n') = free_list (net_pool n).
Proof.
  intros Hn Hfree. destruct (begin_receive_spec _ _ _ Hn Hfree) as (i & t & Hcall & _ & Ht & Hpost & Hstep).
  exists (with_rx_buffers (<[t := Some b]> (rx_buffers (net_dev n))) (with_inner i n)).
  split; [|split; [by apply nic_ok_give|split; [by destruct Hstep|]]].
  - unfold recycle_rx_buffer. unfold mbind, stm_bind. rewrite Hcall. unfold get. cbn [net_dev with_inner rx_buffers].
    rewrite Nat2Z.id, Ht. unfold put_rx_buffer. cbn [net_dev with_inner rx_buffers]. by rewrite Ht.
  - split; [|done]. unfold rx_bufs at 1. cbn. by rewrite (omap_insert_Some _ t b Ht).
Qed.

Lemma bytes_from_splice c a bs h k : 0 ≤ a → 0 ≤ h → h + k ≤ len bs → a + len bs ≤ len c →
  bytes_from (splice c a bs) (a + h) k = bytes_from bs h k.
Proof.
  intros. apply list_eq. intros i. rewrite !bytes_from_lookup by lia. case_decide; [|done].
  rewrite splice_lookup by lia. rewrite decide_True by lia. f_equal. lia.
Qed.

Lemma nic_ok_lengths n held b h k : nic_ok n (b :: held) → 0 ≤ h → 0 ≤ k → h + k ≤ nb_capacity b →
  nic_ok n (set_packet_len k (set_header_len h b) :: held).
Proof.
  intros [H1 H2 H3 H4 H5] Hh Hk Hhk. split; [done|by rewrite fmap_app in H2 |- *| |done|done].
  rewrite <- Permutation_middle in H3 |- *. apply Forall_cons in H3 as [Hb H3].
  apply Forall_cons. split; [|done]. destruct Hb. split; cbn; try done. lia.
Qed.

(** A completed request: its buffer is taken from the driver, with the bytes
    and the lengths the device reports. *)
Lemma nic_ok_completed n held b tok i bytes h k :
  let n' p := with_net_pool p (with_inner i (with_rx_buffers (<[Z.to_nat tok := None]> (rx_buffers (net_dev n))) n)) in
  let b' := set_packet_len k (set_header_len h b) in
  nic_ok n held → 0 ≤ tok → rx_buffers (net_dev n) !! Z.to_nat tok = Some (Some b) →
  (∀ u, posted i u = if decide (u = tok) then None else posted (inner (net_dev n)) u) →
  len bytes = nb_capacity b → 0 ≤ h → 0 ≤ k → h + k ≤ nb_capacity b →
  ∃ p, write_raw_buf b bytes (net_pool n) = Done p ∧ nic_ok (n' p) (b' :: held) ∧
    untouched [pool_offset b] (net_pool n) p ∧ packet_bytes p b' = bytes_from bytes h k ∧
    length (rx_bufs n) = S (length (rx_bufs (n' p))) ∧ free_list p = free_list (net_pool n).
Proof.
  intros n' b' Hn Htok Hb Hpost Hlen Hh Hk Hhk.
  assert (nic_ok (with_rx_buffers (<[Z.to_nat tok := None]> (rx_buffers (net_dev n))) (with_inner i n)) (b :: held))
    as Hn1 by (apply nic_ok_take; [done|done|intros u; by rewrite Z2Nat.id]).
  pose proof (no_shape _ _ Hn) as Hsh. assert (buf_ok (net_pool n) b) as Hbo by (apply (nic_held_ok _ _ _ Hn1); left).
  pose proof (bo_capacity _ _ Hbo) as Hcap. pose proof (bo_ptr _ _ Hbo) as Hptr.
  destruct (offset_in_pool _ _ Hsh (bo_offset _ _ Hbo)) as [Hlo Hhi].
  destruct (set_slice_ok _ _ Hsh Hbo 0 bytes) as (p & Hset & Hu & Hp); [lia|lia|].
  exists p. unfold write_raw_buf. rewrite <- Hlen. split; [done|].
  split; [|split; [done|split; [|split; [|by rewrite Hp]]]].
  - apply nic_ok_lengths; [|done..]. by apply (nic_ok_write _ _ _ p Hn1); [|rewrite Hp].
  - rewrite Hp. unfold packet_bytes, b'. cbn. rewrite Z.add_0_r. apply bytes_from_splice; lia.
  - unfold rx_bufs, n'. cbn. by rewrite (omap_insert_None _ _ _ Hb).
Qed.

(** A packet is received in a buffer of the device, or nothing has come. *)
Lemma receive_spec n held : nic_ok n held →
  (∃ n', receive n = Done (n', Err DevAgain) ∧ nic_ok n' held ∧ nic_step [] [] [] n n' ∧
     rx_bufs n' = rx_bufs n ∧ free_list (net_pool n') = free_list (net_pool n)) ∨
  (∃ n' b, receive n = Done (n', Ok b) ∧ nic_ok n' (b :: held) ∧
     nic_step [pool_offset b] [packet_bytes (net_pool n') b] [] n n' ∧
     length (rx_bufs n) = S (length (rx_bufs n')) ∧ free_list (net_pool n') = free_list (net_pool n)).
Proof.
  intros Hn. unfold receive. destruct (poll_receive (inner (net_dev n))) as [i1 r] eqn:Hpoll.
  destruct (poll_receive_law _ _ _ Hpoll) as (Hp1 & Hr1 & Hs1 & Htok).
  assert (nic_step [] [] [] n (with_inner i1 n)) as Hstep1 by (split; cbn; [by split|by rewrite app_nil_r..]).
  pose proof (nic_ok_inner _ _ _ Hn Hp1) as Hn1.
  destruct r as [tok|]; [right|left; by exists (with_inner i1 n)].
  destruct (Htok tok eq_refl) as (Hrange & (al & Hposted) & (pkt & Hready)).
  set (n1 := with_inner i1 n) in *.
  assert (tok = Z.of_nat (Z.to_nat tok)) as Htk by lia.
  pose proof (no_posted _ _ Hn1 (Z.to_nat tok) ltac:(lia)) as Hslot. rewrite <- Htk in Hslot.
  change (inner (net_dev n1)) with i1 in Hslot. rewrite Hposted in Hslot.
  destruct (rx_buffers (net_dev n1) !! Z.to_nat tok) as [[b|]|] eqn:Hb; [|done|done].
  injection Hslot as ->.
  assert (buf_ok (net_pool n1) b) as Hbo.
  { apply (proj1 (Forall_forall _ _) (no_bufs _ _ Hn1)), elem_of_app. left.
    apply list_elem_of_omap. exists (Some b). split; [by eapply list_elem_of_lookup_2|done]. }
  pose proof (no_shape _ _ Hn1) as Hsh. cbn [with_rx_buffers net_pool]. rewrite (raw_buf_ok _ _ Hsh Hbo).
  pose proof (raw_buf_len _ _ Hsh Hbo) as Hlen. pose proof (bo_capacity _ _ Hbo) as Hcap.
  destruct (receive_complete_law i1 tok (buf_ptr b) (nb_capacity b)
    (bytes_from (pool (net_pool n1)) (pool_offset b) (buf_len (net_pool n1))) pkt)
    as (i2 & bytes & h & k & Hcall & Hh & Hk & Hhk & Hl2 & Hpkt & Hpost & Hrec & Hsent);
    [done|done|congruence|].
  cbn [with_rx_buffers net_dev inner]. change (inner (net_dev n1)) with i1. rewrite Hcall.
  destruct (nic_ok_completed n1 held b tok i2 bytes h k) as (p & Hw & Hn2 & Hu & Hpk & Hcount & Hfl); try done; [lia|].
  rewrite Hw. eexists _, _. split; [reflexivity|]. split; [exact Hn2|]. split; [|split; [exact Hcount|exact Hfl]].
  split; cbn; [exact Hu|by rewrite Hpk, Hpkt, Hrec, Hr1|by rewrite Hsent, app_nil_r].
Qed.


(** A buffer made ready for a packet has the header of the device in front. *)
Lemma prepare_tx_spec n held b k : nic_ok n (b :: held) → 0 ≤ k ≤ 1514 →
  ∃ p b1, prepare_tx_buffer b k n = Done (with_net_pool p n, Ok b1) ∧
    p = with_bytes (splice (pool (net_pool n)) (buf_ptr b) net_hdr) (net_pool n) ∧
    b1 = set_packet_len k (set_header_len (len net_hdr) b) ∧
    nic_ok (with_net_pool p n) (b1 :: held) ∧ untouched [pool_offset b] (net_pool n) p.
Proof.
  intros Hn Hk. pose proof (no_shape _ _ Hn) as Hsh. pose proof net_hdr_short as Hhdr.
  assert (buf_ok (net_pool n) b) as Hbo by (apply (nic_held_ok _ _ _ Hn); left).
  pose proof (bo_capacity _ _ Hbo) as Hcap. pose proof (bo_ptr _ _ Hbo) as Hptr.
  pose proof (raw_buf_len _ _ Hsh Hbo) as Hlen. pose proof (ps_len _ Hsh) as Hl.
  destruct (offset_in_pool _ _ Hsh (bo_offset _ _ Hbo)) as [Hlo Hhi]. unfold MIN_BUFFER_LEN, MAX_BUFFER_LEN in Hl.
  unfold prepare_tx_buffer. rewrite (raw_buf_ok _ _ Hsh Hbo), fill_buffer_header_law by lia.
  set (bytes := splice _ 0 _). assert (len bytes = buf_len (net_pool n)) as Hlb
    by (unfold bytes; rewrite length_splice by lia; done).
  destruct (set_slice_ok _ _ Hsh Hbo 0 bytes) as (p & Hset & Hu & Hp); [lia|lia|].
  unfold write_raw_buf. rewrite Hcap, <- Hlb, Hset. rewrite wadd_small by (unfold is_usize; lia).
  destruct (Z.gtb_spec (len net_hdr + k) (len bytes)); [lia|].
  eexists _, _. split; [reflexivity|]. split; [|split; [done|split; [|done]]].
  - rewrite Hp. f_equal. unfold bytes. rewrite Z.add_0_r, Hptr. rewrite splice_block by lia. f_equal. lia.
  - apply nic_ok_lengths; [|lia..]. apply nic_ok_write; [done|done|by rewrite Hp].
Qed.

(** A packet of a new buffer is sent, with the header before it. *)
Lemma transmit_spec n held b frame : nic_ok n (b :: held) → len frame ≤ 1514 →
  ∃ n1 b1 p n2, prepare_tx_buffer b (len frame) n = Done (n1, Ok b1) ∧
    write_packet b1 frame (net_pool n1) = Done p ∧
    transmit b1 (with_net_pool p n1) = Done (n2, Ok tt) ∧
    nic_ok n2 (b1 :: held) ∧ nic_step [pool_offset b] [] [net_hdr ++ frame] n n2 ∧
    rx_bufs n2 = rx_bufs n ∧ free_list (net_pool n2) = free_list (net_pool n).
Proof.
  intros Hn Hf. pose proof net_hdr_short as Hhdr.
  destruct (prepare_tx_spec n held b (len frame) Hn) as (p1 & b1 & Hprep & Hp1 & Hb1 & Hn1 & Hu1); [lia|].
  pose proof (no_shape _ _ Hn1) as Hsh. cbn in Hsh.
  assert (buf_ok p1 b1) as Hbo by (apply (nic_held_ok _ _ _ Hn1); left).
  pose proof (bo_ptr _ _ Hbo) as Hptr. pose proof (bo_fits _ _ Hbo) as Hfit.
  destruct (offset_in_pool _ _ Hsh (bo_offset _ _ Hbo)) as [Hlo Hhi]. pose proof (ps_small _ Hsh).
  assert (header_len b1 = len net_hdr) as Hh by (by rewrite Hb1).
  assert (packet_len b1 = len frame) as Hk by (by rewrite Hb1).
  destruct (set_slice_ok _ _ Hsh Hbo (header_len b1) frame) as (p & Hset & Hu & Hp); [lia|lia|].
  pose proof (untouched_shape _ _ _ Hu Hsh) as Hsh2. pose proof (untouched_buf _ _ _ _ Hu Hbo) as Hbo2.
  destruct (transmit_wait_law (inner (net_dev n)) (net_hdr ++ frame)) as (i & Hcall & Hpost & Hrec & Hsent).
  eexists _, b1, p, (with_inner i (with_net_pool p n)). split; [exact Hprep|].
  split; [unfold write_packet; by rewrite Hk|]. split; [|split; [|split; [|by rewrite Hp, Hp1]]].
  - unfold transmit, packet_with_header. cbn [net_pool with_net_pool net_dev].
    rewrite Hh, Hk, wadd_small by (unfold is_usize; lia).
    rewrite (get_slice_ok _ _ Hsh2 Hbo2) by (rewrite ?(un_len _ _ _ Hu); lia).
    assert (pool p = splice (pool (net_pool n)) (buf_ptr b1) (net_hdr ++ frame)) as ->.
    { rewrite Hp, Hp1, Hh. cbn. replace (buf_ptr b) with (buf_ptr b1) by (by rewrite Hb1). apply splice_app; [lia|].
      rewrite (un_bytes _ _ _ Hu1) in Hhi. lia. }
    pose proof (un_bytes _ _ _ Hu1) as Hsame. rewrite bytes_from_splice by (rewrite ?length_app; lia).
    replace (len net_hdr + len frame) with (len (net_hdr ++ frame) - 0) by (rewrite length_app; lia).
    rewrite bytes_from_rest by lia. change (Z.to_nat 0) with 0%nat. by rewrite drop_0, Hcall.
  - apply (nic_ok_inner (with_net_pool p n)); [|done].
    apply (nic_ok_write (with_net_pool p1 n) _ _ p Hn1 Hu). by rewrite Hp.
  - split; cbn; [|by rewrite app_nil_r|done]. eapply untouched_trans; [done|].
    by replace (pool_offset b) with (pool_offset b1) by (by rewrite Hb1).
Qed.

(** ** Filling the receive queue of a new device *)

Lemma fill_loop_spec rest : ∀ i n held, nic_ok n held → (i + rest = QS)%nat →
  new_queue (inner (net_dev n)) = Some (Z.of_nat i) → length (rx_bufs n) = i →
  (rest ≤ length (free_list (net_pool n)))%nat →
  ∃ n', fill_loop rest i n = Done (n', Ok tt) ∧ nic_ok n' held ∧ nic_step [] [] [] n n' ∧
    length (rx_bufs n') = QS ∧
    (length (free_list (net_pool n')) + rest = length (free_list (net_pool n)))%nat.
Proof.
  induction rest as [|rest IH]; intros i n held Hn Hi Hfr Hcnt Hfl.
  { exists n. split; [done|]. split; [done|]. split; [split; [by split|by rewrite app_nil_r..]|]. lia. }
  destruct (net_alloc_spec n held Hn) as (b & p & Hal & Hn1 & Hs1 & _ & _ & Hlist).
  { intros Hnil. rewrite Hnil in Hfl. simpl in Hfl. lia. }
  destruct (begin_receive_spec (with_net_pool p n) held b Hn1) as (d & t & Hb & Hcall & Hslot & Hpost & Hs2).
  { change (rx_bufs (with_net_pool p n)) with (rx_bufs n). lia. }
  destruct (fresh_begin _ _ _ _ _ _ Hfr Hcall) as [Ht Hfr2]. apply Nat2Z.inj in Ht as ->.
  pose proof (nic_ok_give _ _ _ _ _ Hn1 Hslot Hpost) as Hn3.
  set (n3 := with_rx_buffers _ _) in Hn3.
  assert (length (rx_bufs n3) = S i) as Hcnt3.
  { unfold rx_bufs, n3. cbn. rewrite (omap_insert_Some _ i b Hslot). simpl. f_equal. exact Hcnt. }
  assert (length (free_list (net_pool n)) = S (length (free_list (net_pool n3)))) as Hlen.
  { rewrite Hlist, length_app. cbn. lia. }
  destruct (IH (S i) n3 held) as (n' & Hrun & Hn' & Hs' & Hc' & Hf'); [done|lia| |done|lia|].
  { cbn. rewrite Hfr2. f_equal. lia. }
  exists n'. split; [|split; [done|split; [|split; [done|lia]]]].
  - cbn [fill_loop]. rewrite Hal. unfold mbind, stm_bind. rewrite Hb. unfold of_outcome, assert_true.
    rewrite Z.eqb_refl. unfold put_rx_buffer. cbn [net_dev with_inner rx_buffers with_net_pool] in *. by rewrite Hslot.
  - change (nic_step [] ([] ++ [] ++ []) ([] ++ [] ++ []) n n'). eapply nic_step_trans; [exact Hs1|].
    eapply nic_step_trans; [exact Hs2|]. destruct Hs' as [H1 H2 H3]. by split.
Qed.

Lemma rx_bufs_new p d : rx_bufs {| net_pool := p; net_dev := virtio_net_new QS d |} = [].
Proof. unfold rx_bufs. cbn. clear. by induction QS. Qed.

(** A new pool and a new device with an empty queue. *)
Lemma nic_ok_new capacity len p d :
  net_pool_new capacity len = Done (Ok p) → 0 ≤ capacity → capacity * len < 2 ^ 63 → new_queue d = Some 0 →
  nic_ok {| net_pool := p; net_dev := virtio_net_new QS d |} [] ∧
  np_capacity p = capacity ∧ length (free_list p) = Z.to_nat capacity.
Proof.
  intros Hnew Hc Hs Hfr. unfold net_pool_new in Hnew.
  destruct (Z.eqb_spec capacity 0) as [|Hc0]; [done|].
  destruct ((MIN_BUFFER_LEN <=? len) && (len <=? MAX_BUFFER_LEN)) eqn:Hl; simpl in Hnew; [|done].
  bool_to_prop. unfold MIN_BUFFER_LEN in *. unfold vec_zeros in Hnew.
  rewrite wmul_small in Hnew by (unfold is_usize; nia).
  destruct (capacity * len <? 2 ^ 63) eqn:H63; [|done]. simpl in Hnew.
  destruct (capacity <? 2 ^ 60); [|done]. injection Hnew as <-. cbn.
  split; [|by rewrite length_fmap, length_seq].
  split; rewrite ?rx_bufs_new; cbn [net_pool net_dev virtio_net_new rx_buffers inner].
  - split; cbn; [done|lia| |]; rewrite length_replicate; nia.
  - rewrite app_nil_r. unfold offsets. cbn. apply reflexive_eq, list_fmap_ext.
    intros i x Hi. apply lookup_seq in Hi as [-> Hi]. simpl. apply wmul_small. unfold is_usize. nia.
  - done.
  - by rewrite length_replicate.
  - intros t Ht. rewrite lookup_replicate_2 by done. apply (fresh_posted d 0); [done|lia].
Qed.

(** The driver as [axnet::init] leaves it: all places of the receive queue
    have a buffer, the other buffers are free. *)
Lemma fill_rx_buffers_spec n : nic_ok n [] → new_queue (inner (net_dev n)) = Some 0 → rx_bufs n = [] →
  (QS ≤ length (free_list (net_pool n)))%nat →
  ∃ n', fill_rx_buffers n = Done (n', Ok tt) ∧ nic_ok n' [] ∧ nic_step [] [] [] n n' ∧
    length (rx_bufs n') = QS ∧
    (length (free_list (net_pool n')) + QS = length (free_list (net_pool n)))%nat.
Proof.
  intros Hn Hfr Hrx Hfl. unfold fill_rx_buffers. rewrite (no_slots _ _ Hn).
  apply (fill_loop_spec QS 0); try done. by rewrite Hrx.
Qed.

End nic.
