(* ===== verification/AxNet.v ===== *)
(** * Sockets of the network module ([modules/axnet/src/smoltcp_impl])

    The state of the module: the set of sockets and the interface of the TCP
    stack [smoltcp], the network card of [NetBuf] with the packets that wait
    to be processed, the table of listening ports, and the counters of
    ephemeral ports.  The crate [smoltcp] is a parameter, the class
    [Smoltcp]; its [Interface::poll], which calls back for packets, is a
    program [iface_prog] that the model runs on the device.

    A method that blocks is a loop around an attempt; between two attempts
    the other tasks run, and [env] is what they do. *)

From S2P Require Import Prelude PollState AxErrno BlockDev NetBuf.
From stdpp Require Import base numbers gmap list strings.

Open Scope Z_scope.
Local Open Scope word_scope.

(** ** The crate [smoltcp] *)

(** [smoltcp::wire::IpEndpoint]. *)
Record SocketAddr (A : Type) := SockAddr { sa_addr : A; sa_port : Z }.
Arguments SockAddr {A} _ _.
Arguments sa_addr {A} _.
Arguments sa_port {A} _.

#[global] Instance SocketAddr_eq_dec {A} `{!EqDecision A} : EqDecision (SocketAddr A).
Proof. solve_decision. Defined.

(** [smoltcp::socket::tcp::State]. *)
Inductive State :=
| Closed | Listen | SynSent | SynReceived | Established | FinWait1 | FinWait2
| CloseWait | Closing | LastAck | TimeWait.

#[global] Instance State_eq_dec : EqDecision State.
Proof. solve_decision. Defined.

Inductive ConnectError := ConnectInvalidState | ConnectUnaddressable.
Inductive BindError := BindInvalidState | BindUnaddressable.
Inductive RecvError := RecvInvalidState | RecvFinished.
Inductive UdpSendError := BufferFull | SendUnaddressable.
Inductive StartQueryError := NoFreeSlot | InvalidName | NameTooLong.
Inductive GetQueryResultError := Pending | QueryFailed.

(** What the code reads of the headers of a packet. *)
Record Ipv4Packet (A : Type) := {
  next_header_tcp : bool; ip_src : A; ip_dst : A; ip_payload : list Z }.
Arguments next_header_tcp {A} _.
Arguments ip_src {A} _.
Arguments ip_dst {A} _.
Arguments ip_payload {A} _.

Record TcpPacket := { src_port : Z; dst_port : Z; syn : bool; ack : bool }.

(** A member of a socket set. *)
Inductive any_socket (T U D : Type) :=
| TcpSock (t : T)
| UdpSock (u : U)
| DnsSock (d : D).
Arguments TcpSock {T U D} _.
Arguments UdpSock {T U D} _.
Arguments DnsSock {T U D} _.

(** A run of [Interface::poll]: it asks for a received packet and continues
    with it, after an answer sent while it holds the packet, or without one;
    it sends frames; it ends. *)
Inductive iface_prog (A : Type) :=
| IDone (a : A)
| IReceive (none : iface_prog A) (reply : list Z → option (list Z)) (some : list Z → iface_prog A)
| ITransmit (frame : list Z) (k : iface_prog A).
Arguments IDone {A} _.
Arguments IReceive {A} _ _ _.
Arguments ITransmit {A} _ _.

(** [set_lookup] is what [SocketSet::get] finds, [set_replace] writes through
    the reference [get_mut] returns.  Methods on [&mut self] return the new
    value first. *)
Class Smoltcp := {
  ip_addr : Type;
  ip_addr_eq_dec :: EqDecision ip_addr;
  ip_v4 : Z → Z → Z → Z → ip_addr;
  handle : Type;
  handle_eq_dec :: EqDecision handle;
  tcp_socket : Type;
  udp_socket : Type;
  dns_socket : Type;
  query_handle : Type;
  interface : Type;
  socket_set : Type;
  set_new : socket_set;
  set_add : any_socket tcp_socket udp_socket dns_socket → socket_set → socket_set * handle;
  set_lookup : socket_set → handle → option (any_socket tcp_socket udp_socket dns_socket);
  set_replace : handle → any_socket tcp_socket udp_socket dns_socket → socket_set → socket_set;
  set_remove : handle → socket_set → socket_set;
  tcp_socket_new : Z → Z → tcp_socket;
  tcp_state : tcp_socket → State;
  tcp_local_endpoint : tcp_socket → option (SocketAddr ip_addr);
  tcp_remote_endpoint : tcp_socket → option (SocketAddr ip_addr);
  tcp_is_open : tcp_socket → bool;
  tcp_may_recv : tcp_socket → bool;
  tcp_can_recv : tcp_socket → bool;
  tcp_may_send : tcp_socket → bool;
  tcp_can_send : tcp_socket → bool;
  tcp_sock_listen : SocketAddr ip_addr → tcp_socket → tcp_socket * result unit unit;
  tcp_sock_connect : interface → SocketAddr ip_addr → Z → tcp_socket →
    interface * tcp_socket * result ConnectError unit;
  tcp_close : tcp_socket → tcp_socket;
  tcp_recv_slice : nat → tcp_socket → tcp_socket * result RecvError (list Z);
  tcp_send_slice : list Z → tcp_socket → tcp_socket * result unit Z;
  udp_socket_new : Z → Z → Z → Z → udp_socket;
  udp_is_open : udp_socket → bool;
  udp_can_recv : udp_socket → bool;
  udp_can_send : udp_socket → bool;
  udp_sock_bind : SocketAddr ip_addr → udp_socket → udp_socket * result BindError unit;
  udp_send_slice : list Z → SocketAddr ip_addr → udp_socket → udp_socket * result UdpSendError unit;
  udp_recv_slice : nat → udp_socket → udp_socket * result unit (list Z * SocketAddr ip_addr);
  udp_peek_slice : nat → udp_socket → udp_socket * result unit (list Z * SocketAddr ip_addr);
  udp_close : udp_socket → udp_socket;
  dns_socket_new : list ip_addr → dns_socket;
  dns_start_query : interface → string → dns_socket →
    interface * dns_socket * result StartQueryError query_handle;
  dns_get_query_result : query_handle → dns_socket →
    dns_socket * result GetQueryResultError (list ip_addr);
  iface_new : list Z → Z → interface;
  iface_push_ip : ip_addr → Z → interface → option interface;
  iface_default_route : ip_addr → interface → option interface;
  iface_ipv4_addr : interface → option ip_addr;
  iface_poll : Z → interface → socket_set → iface_prog (interface * socket_set);
  ether_payload : list Z → option (list Z);
  ipv4_new_checked : list Z → option (Ipv4Packet ip_addr);
  tcp_new_checked : list Z → option TcpPacket;
}.

(** ** Constants *)

Definition TCP_RX_BUF_LEN : Z := 64 * 1024.
Definition TCP_TX_BUF_LEN : Z := 64 * 1024.
Definition UDP_RX_BUF_LEN : Z := 64 * 1024.
Definition UDP_TX_BUF_LEN : Z := 64 * 1024.
Definition RX_BUF_QUEUE_SIZE : nat := 64.
Definition LISTEN_QUEUE_SIZE : nat := 512.
Definition NET_BUF_LEN : Z := 1526.
Definition NET_BUF_POOL_SIZE : Z := 128.
Definition RANDOM_SEED : Z := 0xA2CE05A2CE05A2CE.
Definition PORT_START : Z := 0xc000.
Definition PORT_END : Z := 0xffff.

(** [tcp.rs] and [udp.rs]; [handle] is [None] when the socket listens. *)
Record TcpSocket (H A : Type) := {
  tcp_handle : option H;
  tcp_local : option (SocketAddr A);
  tcp_peer : option (SocketAddr A);
  tcp_nonblock : bool;
}.
Arguments tcp_handle {H A} _.
Arguments tcp_local {H A} _.
Arguments tcp_peer {H A} _.
Arguments tcp_nonblock {H A} _.

Record UdpSocket (H A : Type) := {
  udp_handle : H;
  udp_local : option (SocketAddr A);
  udp_peer : option (SocketAddr A);
  udp_nonblock : bool;
}.
Arguments udp_handle {H A} _.
Arguments udp_local {H A} _.
Arguments udp_peer {H A} _.
Arguments udp_nonblock {H A} _.

Section axnet.
Context {I : Type} `{!VirtIONetRaw I} `{!Smoltcp}.

Abbreviation Addr := (SocketAddr ip_addr).
Abbreviation Tcp := (TcpSocket handle ip_addr).
Abbreviation Udp := (UdpSocket handle ip_addr).

(** ** The state of the module *)

(** [listen_table] has the queue of each port that is listened on, where the
    code has an array of 65536 options.  [log_debug] says whether messages of
    level debug are printed: their arguments are only evaluated then. *)
Record net := {
  card : nic I;
  rx_buf_queue : list NetBuffer;
  iface : interface;
  sockets : socket_set;
  listen_table : gmap Z (list handle);
  tcp_curr : Z;
  udp_curr : Z;
  clock : Z;
  log_debug : bool;
}.

Definition with_card (c : nic I) (q : list NetBuffer) (w : net) : net :=
  {| card := c; rx_buf_queue := q; iface := iface w; sockets := sockets w;
     listen_table := listen_table w; tcp_curr := tcp_curr w; udp_curr := udp_curr w;
     clock := clock w; log_debug := log_debug w |}.

Definition with_stack (i : interface) (s : socket_set) (w : net) : net :=
  {| card := card w; rx_buf_queue := rx_buf_queue w; iface := i; sockets := s;
     listen_table := listen_table w; tcp_curr := tcp_curr w; udp_curr := udp_curr w;
     clock := clock w; log_debug := log_debug w |}.

Definition with_sockets (s : socket_set) (w : net) : net := with_stack (iface w) s w.

Definition with_table (t : gmap Z (list handle)) (w : net) : net :=
  {| card := card w; rx_buf_queue := rx_buf_queue w; iface := iface w; sockets := sockets w;
     listen_table := t; tcp_curr := tcp_curr w; udp_curr := udp_curr w;
     clock := clock w; log_debug := log_debug w |}.

Definition with_ports (t u : Z) (w : net) : net :=
  {| card := card w; rx_buf_queue := rx_buf_queue w; iface := iface w; sockets := sockets w;
     listen_table := listen_table w; tcp_curr := t; udp_curr := u;
     clock := clock w; log_debug := log_debug w |}.

Abbreviation netm := (stm net AxError).

(** ** [SocketSetWrapper] *)

Definition new_tcp_socket : tcp_socket := tcp_socket_new TCP_RX_BUF_LEN TCP_TX_BUF_LEN.
Definition new_udp_socket : udp_socket := udp_socket_new 8 UDP_RX_BUF_LEN 8 UDP_TX_BUF_LEN.
Definition new_dns_socket : dns_socket := dns_socket_new [ip_v4 8 8 8 8].

Definition socket_add (s : any_socket tcp_socket udp_socket dns_socket) : netm handle := λ w,
  let '(set, h) := set_add s (sockets w) in Done (with_sockets set w, Ok h).

(** [with_socket::<tcp::Socket>]. *)
Definition with_tcp_ref {R} (h : handle) (f : tcp_socket → R) : netm R := λ w,
  match set_lookup (sockets w) h with
  | Some (TcpSock t) => Done (w, Ok (f t))
  | _ => Panic
  end.

(** [with_socket_mut::<tcp::Socket>]; a closure may also lock the interface. *)
Definition with_tcp_iface {R} (h : handle) (f : interface → tcp_socket → interface * tcp_socket * R)
    : netm R := λ w,
  match set_lookup (sockets w) h with
  | Some (TcpSock t) =>
      let '(i, t, r) := f (iface w) t in
      Done (with_stack i (set_replace h (TcpSock t) (sockets w)) w, Ok r)
  | _ => Panic
  end.

Definition with_tcp {R} (h : handle) (f : tcp_socket → tcp_socket * R) : netm R :=
  with_tcp_iface h (λ i t, let '(t, r) := f t in (i, t, r)).

Definition with_udp {R} (h : handle) (f : udp_socket → udp_socket * R) : netm R := λ w,
  match set_lookup (sockets w) h with
  | Some (UdpSock u) =>
      let '(u, r) := f u in Done (with_sockets (set_replace h (UdpSock u) (sockets w)) w, Ok r)
  | _ => Panic
  end.

Definition with_dns_iface {R} (h : handle) (f : interface → dns_socket → interface * dns_socket * R)
    : netm R := λ w,
  match set_lookup (sockets w) h with
  | Some (DnsSock d) =>
      let '(i, d, r) := f (iface w) d in
      Done (with_stack i (set_replace h (DnsSock d) (sockets w)) w, Ok r)
  | _ => Panic
  end.

Definition socket_remove (h : handle) : netm unit := λ w,
  match set_lookup (sockets w) h with
  | Some _ => Done (with_sockets (set_remove h (sockets w)) w, Ok tt)
  | None => Panic
  end.

(** ** [ListenTable] *)

(** [get_socket_info]: whether the connection is made, and with whom. *)
Definition get_socket_info (h : handle) : netm (bool * option Addr) :=
  with_tcp_ref h (λ t, (match tcp_state t with Listen | SynReceived => false | _ => true end,
                        tcp_remote_endpoint t)).

Definition can_listen (port : Z) : netm bool := λ w,
  Done (w, Ok (bool_decide (listen_table w !! port = None))).

Definition table_listen (port : Z) : netm unit := λ w,
  if port =? 0 then Done (w, Err InvalidInput)
  else match listen_table w !! port with
       | None => Done (with_table (<[port := []]> (listen_table w)) w, Ok tt)
       | Some _ => Done (w, Err AddrInUse)
       end.

(** [impl Drop for ListenTableEntry]. *)
Fixpoint remove_all (hs : list handle) : netm unit :=
  match hs with
  | [] => mret tt
  | h :: hs => _ ← socket_remove h; remove_all hs
  end.

(** Assigning [None] to the entry drops the queue that was there. *)
Definition unlisten (port : Z) : netm unit := λ w,
  match listen_table w !! port with
  | None => Done (w, Ok tt)
  | Some q => remove_all q (with_table (delete port (listen_table w)) w)
  end.

(** [syn_queue.iter().any(..)]. *)
Fixpoint any_connected (hs : list handle) : netm bool :=
  match hs with
  | [] => mret false
  | h :: hs => '(connected, _) ← get_socket_info h; if connected : bool then mret true else any_connected hs
  end.

Definition can_accept (port : Z) : netm bool := λ w,
  match listen_table w !! port with
  | Some q => any_connected q w
  | None => Done (w, Err InvalidInput)
  end.

(** [.enumerate()..find_map(..)], from the index [idx] on. *)
Fixpoint find_connected (idx : nat) (hs : list handle) : netm (option (nat * option Addr)) :=
  match hs with
  | [] => mret None
  | h :: hs =>
      '(connected, peer) ← get_socket_info h;
      if connected : bool then mret (Some (idx, peer)) else find_connected (S idx) hs
  end.

Definition table_accept (port : Z) : netm (handle * option Addr) :=
  w ← get;
  match listen_table w !! port with
  | None => throw InvalidInput
  | Some [] => throw WouldBlock
  | Some (h :: q) =>
      '(connected, peer) ← get_socket_info h;
      if connected : bool then
        _ ← modify (λ w, with_table (<[port := q]> (listen_table w)) w);
        mret (h, peer)
      else
        found ← find_connected 1 q;
        match found with
        | Some (idx, peer) =>
            h' ← of_outcome (unwrap ((h :: q) !! idx));
            _ ← modify (λ w, with_table (<[port := delete idx (h :: q)]> (listen_table w)) w);
            mret (h', peer)
        | None => throw WouldBlock
        end
  end.

Definition incoming_tcp_packet (src dst : Addr) : netm unit := λ w,
  match listen_table w !! sa_port dst with
  | None => Done (w, Ok tt)
  | Some q =>
      if (LISTEN_QUEUE_SIZE <=? length q)%nat then Done (w, Ok tt)
      else
        let '(t, r) := tcp_sock_listen dst new_tcp_socket in
        match r with
        | Err _ => Done (w, Ok tt)
        | Ok _ =>
            (h ← socket_add (TcpSock t);
             modify (λ w, with_table (<[sa_port dst := q ++ [h]]> (listen_table w)) w)) w
        end
  end.

(** ** [InterfaceWrapper] and [DeviceWrapper] *)

Definition snoop_tcp_packet (buf : list Z) : netm unit :=
  match ether_payload buf with
  | None => mret tt
  | Some payload =>
      match ipv4_new_checked payload with
      | None => mret tt
      | Some ip =>
          if next_header_tcp ip then
            match tcp_new_checked (ip_payload ip) with
            | None => mret tt
            | Some t =>
                let src_addr := SockAddr (ip_src ip) (src_port t) in
                let dst_addr := SockAddr (ip_dst ip) (dst_port t) in
                if syn t && negb (ack t) then incoming_tcp_packet src_addr dst_addr else mret tt
            end
          else mret tt
      end
  end.

(** The loop of [DeviceWrapper::poll]; [dev_poll] gives it one round more
    than the queue has places. *)
Fixpoint dev_poll_loop (fuel : nat) : netm unit := λ w,
  match fuel with
  | O => Panic
  | S fuel =>
      if (length (rx_buf_queue w) <? RX_BUF_QUEUE_SIZE)%nat then
        match receive (card w) with
        | Panic => Panic
        | Done (c, Err _) => Done (with_card c (rx_buf_queue w) w, Ok tt)
        | Done (c, Ok buf) =>
            match packet buf (net_pool c) with
            | Panic => Panic
            | Done bytes =>
                match snoop_tcp_packet bytes (with_card c (rx_buf_queue w) w) with
                | Panic => Panic
                | Done (w, _) => dev_poll_loop fuel (with_card (card w) (rx_buf_queue w ++ [buf]) w)
                end
            end
        end
      else Done (w, Ok tt)
  end.

Definition dev_poll : netm unit := dev_poll_loop (S RX_BUF_QUEUE_SIZE).

(** A device operation followed by [.unwrap()]. *)
Definition unwrap_dev {T} (m : stm (nic I) DevError T) (c : nic I) : outcome (nic I * T) :=
  match m c with Done (c, Ok t) => Done (c, t) | _ => Panic end.

(** [TxToken::consume]: the buffer is dropped at the end. *)
Definition tx_consume (frame : list Z) (c : nic I) : outcome (nic I) :=
  '(tx_buf, p) ← unwrap (net_alloc (net_pool c));
  '(c, tx_buf) ← unwrap_dev (prepare_tx_buffer tx_buf (len frame)) (with_net_pool p c);
  p ← write_packet tx_buf frame (net_pool c);
  '(c, _) ← unwrap_dev (transmit tx_buf) (with_net_pool p c);
  Done (drop_buffer tx_buf c).

(** [RxToken::consume]: the stack reads the packet, and may answer before the
    buffer goes back to the device. *)
Definition rx_consume (rx_buf : NetBuffer) (reply : list Z → option (list Z)) (c : nic I)
    : outcome (nic I * list Z) :=
  bytes ← packet rx_buf (net_pool c);
  c ← match reply bytes with Some frame => tx_consume frame c | None => Done c end;
  '(c, _) ← unwrap_dev (recycle_rx_buffer rx_buf) c;
  Done (c, bytes).

(** [Interface::poll] on the device. *)
Fixpoint run_iface {A} (p : iface_prog A) (c : nic I) (q : list NetBuffer)
    : outcome (nic I * list NetBuffer * A) :=
  match p with
  | IDone a => Done (c, q, a)
  | IReceive none reply some =>
      match q with
      | [] => run_iface none c q
      | rx_buf :: q =>
          match rx_consume rx_buf reply c with
          | Panic => Panic
          | Done (c, bytes) => run_iface (some bytes) c q
          end
      end
  | ITransmit frame k =>
      match tx_consume frame c with
      | Panic => Panic
      | Done c => run_iface k c q
      end
  end.

(** [InterfaceWrapper::poll], and [poll_interfaces] that calls it. *)
Definition poll_interfaces : netm unit := λ w,
  match dev_poll w with
  | Panic => Panic
  | Done (w, _) =>
      let timestamp := clock w / 1000 in
      '(c, q, (i, s)) ← run_iface (iface_poll timestamp (iface w) (sockets w)) (card w) (rx_buf_queue w);
      Done (with_stack i s (with_card c q w), Ok tt)
  end.

(** ** Blocking *)

(** [loop { poll_interfaces(); match attempt { .. } }]: an attempt that says
    [WouldBlock] is repeated after [yield_now], unless the socket does not
    block.  [env k] is what the other tasks do at the [k]-th yield; [None] is
    a call that has not returned after [fuel] attempts. *)
Fixpoint block_on {T} (env : nat → net → net) (nonblock : bool) (attempt : netm T) (fuel k : nat) (w : net)
    : option (outcome (net * result AxError T)) :=
  match fuel with
  | O => None
  | S fuel =>
      match (_ ← poll_interfaces; attempt) w with
      | Done (w, Err WouldBlock) =>
          if nonblock then Some (Done (w, Err WouldBlock))
          else block_on env nonblock attempt fuel (S k) (env k w)
      | r => Some r
      end
  end.

(** ** [TcpSocket] *)

(** [get_ephemeral_port] of [tcp.rs]; [tries] counts at most [0x4000] ports. *)
Fixpoint port_loop (fuel : nat) (tries : Z) : netm Z := λ w,
  match fuel with
  | O => Panic
  | S fuel =>
      if tries <=? PORT_END - PORT_START then
        let port := tcp_curr w in
        let curr := if tcp_curr w =? PORT_END then PORT_START else wrap 16 (tcp_curr w + 1) in
        let w := with_ports curr (udp_curr w) w in
        if bool_decide (listen_table w !! port = None) then Done (w, Ok port)
        else port_loop fuel (wrap 16 (tries + 1)) w
      else Done (w, Err NoMemory)
  end.

Definition get_ephemeral_port : netm Z := port_loop (Z.to_nat 0x4001) 0.

Definition tcp_new : netm Tcp :=
  h ← socket_add (TcpSock new_tcp_socket);
  mret {| tcp_handle := Some h; tcp_local := None; tcp_peer := None; tcp_nonblock := false |}.

Definition is_listening (self : Tcp) : bool := bool_decide (tcp_handle self = None).

Definition tcp_local_addr (self : Tcp) : result AxError Addr := ok_or NotConnected (tcp_local self).
Definition tcp_peer_addr (self : Tcp) : result AxError Addr := ok_or NotConnected (tcp_peer self).

Definition tcp_set_nonblocking (nonblocking : bool) (self : Tcp) : Tcp :=
  {| tcp_handle := tcp_handle self; tcp_local := tcp_local self; tcp_peer := tcp_peer self;
     tcp_nonblock := nonblocking |}.

Definition with_endpoints (l p : option Addr) (self : Tcp) : Tcp :=
  {| tcp_handle := tcp_handle self; tcp_local := l; tcp_peer := p; tcp_nonblock := tcp_nonblock self |}.

(** [connect] up to its loop: the handle and the two ends of the connection. *)
Definition connect_start (addr : Addr) (self : Tcp) : netm (handle * option Addr * option Addr) :=
  match tcp_handle self with
  | None => throw AlreadyExists
  | Some h =>
      local_port ← get_ephemeral_port;
      r ← with_tcp_iface h (λ i t,
        let '(i, t, r) := tcp_sock_connect i addr local_port t in
        (i, t, match r with
               | Ok _ => Ok (tcp_local_endpoint t, tcp_remote_endpoint t)
               | Err ConnectInvalidState => Err AlreadyExists
               | Err ConnectUnaddressable => Err InvalidInput
               end));
      '(l, p) ← of_result r;
      mret (h, l, p)
  end.

(** One round of the loop of [connect]: the connected socket, or [WouldBlock]
    while the answer has not come. *)
Definition connect_check (h : handle) (l p : option Addr) (self : Tcp) : netm Tcp :=
  '(state, may_recv) ← with_tcp_ref h (λ t, (tcp_state t, tcp_may_recv t));
  if (may_recv : bool) || bool_decide (state = Established) then mret (with_endpoints l p self)
  else if bool_decide (state = SynSent) then throw WouldBlock
  else throw ConnectionRefused.

(** On an error the socket is as it was. *)
Definition connect (env : nat → net → net) (fuel : nat) (addr : Addr) (self : Tcp) (w : net)
    : option (outcome (net * result AxError Tcp)) :=
  match connect_start addr self w with
  | Panic => Some Panic
  | Done (w, Err e) => Some (Done (w, Err e))
  | Done (w, Ok (h, l, p)) => block_on env false (connect_check h l p self) fuel 0 w
  end.

Definition bind (addr : Addr) (self : Tcp) : netm Tcp :=
  match tcp_local self with
  | Some _ => throw InvalidInput
  | None =>
      port ← if sa_port addr =? 0 then get_ephemeral_port else mret (sa_port addr);
      mret (with_endpoints (Some (SockAddr (sa_addr addr) port)) (tcp_peer self) self)
  end.

(** The address and the port [listen] uses. *)
Definition listen_port (self : Tcp) : netm (Tcp * Z) :=
  match tcp_local self with
  | Some a => mret (self, sa_port a)
  | None =>
      port ← get_ephemeral_port;
      mret (with_endpoints (Some (SockAddr (ip_v4 0 0 0 0) port)) (tcp_peer self) self, port)
  end.

(** Returns the socket also when the port is taken: it may have got an
    address. *)
Definition listen (self : Tcp) : netm (Tcp * result AxError unit) :=
  match tcp_handle self with
  | None => mret (self, Ok tt)
  | Some h => λ w,
      match listen_port self w with
      | Panic => Panic
      | Done (w, Err e) => Done (w, Ok (self, Err e))
      | Done (w, Ok (self, port)) =>
          match table_listen port w with
          | Panic => Panic
          | Done (w, Err e) => Done (w, Ok (self, Err e))
          | Done (w, Ok _) =>
              (_ ← socket_remove h;
               mret ({| tcp_handle := None; tcp_local := tcp_local self; tcp_peer := tcp_peer self;
                        tcp_nonblock := tcp_nonblock self |}, Ok tt)) w
          end
      end
  end.

(** The message about a new connection unwraps the address of the peer. *)
Definition accept_attempt (self : Tcp) (port : Z) : netm Tcp :=
  '(h, peer) ← table_accept port;
  w ← get;
  if log_debug w && bool_decide (peer = None) then panic
  else mret {| tcp_handle := Some h; tcp_local := tcp_local self; tcp_peer := peer; tcp_nonblock := false |}.

Definition accept (env : nat → net → net) (fuel : nat) (self : Tcp) (w : net)
    : option (outcome (net * result AxError Tcp)) :=
  if negb (is_listening self) then Some (Done (w, Err InvalidInput))
  else match tcp_local self with
       | None => Some (Done (w, Err InvalidInput))
       | Some a => block_on env (tcp_nonblock self) (accept_attempt self (sa_port a)) fuel 0 w
       end.

Definition tcp_shutdown (self : Tcp) : netm unit :=
  _ ← match tcp_handle self with
      | Some h => with_tcp h (λ t, (tcp_close t, tt))
      | None => match tcp_local self with Some a => unlisten (sa_port a) | None => mret tt end
      end;
  poll_interfaces.

Definition recv_attempt (h : handle) (n : nat) : netm (list Z) :=
  r ← with_tcp h (λ t,
    if negb (tcp_is_open t) then (t, Err NotConnected)
    else if negb (tcp_may_recv t) then (t, Ok [])
    else if tcp_can_recv t then
      let '(t, r) := tcp_recv_slice n t in
      (t, match r with
          | Ok bytes => Ok bytes
          | Err RecvFinished => Ok []
          | Err _ => Err ConnectionRefused
          end)
    else (t, Err WouldBlock));
  of_result r.

Definition tcp_recv (env : nat → net → net) (fuel : nat) (self : Tcp) (n : nat) (w : net)
    : option (outcome (net * result AxError (list Z))) :=
  match tcp_handle self with
  | None => Some (Done (w, Err NotConnected))
  | Some h => block_on env (tcp_nonblock self) (recv_attempt h n) fuel 0 w
  end.

Definition send_attempt (h : handle) (buf : list Z) : netm Z :=
  r ← with_tcp h (λ t,
    if negb (tcp_is_open t) || negb (tcp_may_send t) then (t, Err NotConnected)
    else if tcp_can_send t then
      let '(t, r) := tcp_send_slice buf t in
      (t, match r with Ok n => Ok n | Err _ => Err ConnectionRefused end)
    else (t, Err WouldBlock));
  of_result r.

Definition tcp_send (env : nat → net → net) (fuel : nat) (self : Tcp) (buf : list Z) (w : net)
    : option (outcome (net * result AxError Z)) :=
  match tcp_handle self with
  | None => Some (Done (w, Err NotConnected))
  | Some h => block_on env (tcp_nonblock self) (send_attempt h buf) fuel 0 w
  end.

Definition tcp_poll (self : Tcp) : netm PollState :=
  _ ← poll_interfaces;
  match tcp_handle self with
  | Some h => with_tcp h (λ t, (t, {| readable := tcp_is_open t && tcp_can_recv t;
                                      writable := tcp_is_open t && tcp_can_send t |}))
  | None =>
      match tcp_local self with
      | None => throw InvalidInput
      | Some a => r ← can_accept (sa_port a); mret {| readable := r; writable := false |}
      end
  end.

(** [impl Drop for TcpSocket]; the result of [shutdown] is not used. *)
Definition tcp_drop (self : Tcp) : netm unit := λ w,
  match tcp_shutdown self w with
  | Panic => Panic
  | Done (w, _) => match tcp_handle self with Some h => socket_remove h w | None => Done (w, Ok tt) end
  end.

(** ** [UdpSocket] *)

Definition udp_get_ephemeral_port : netm Z := λ w,
  let port := udp_curr w in
  let curr := if udp_curr w =? PORT_END then PORT_START else wrap 16 (udp_curr w + 1) in
  Done (with_ports (tcp_curr w) curr w, Ok port).

Definition udp_new : netm Udp :=
  h ← socket_add (UdpSock new_udp_socket);
  mret {| udp_handle := h; udp_local := None; udp_peer := None; udp_nonblock := false |}.

Definition udp_local_addr (self : Udp) : result AxError Addr := ok_or NotConnected (udp_local self).
Definition udp_peer_addr (self : Udp) : result AxError Addr := ok_or NotConnected (udp_peer self).

Definition udp_set_nonblocking (nonblocking : bool) (self : Udp) : Udp :=
  {| udp_handle := udp_handle self; udp_local := udp_local self; udp_peer := udp_peer self;
     udp_nonblock := nonblocking |}.

Definition with_udp_addrs (l p : option Addr) (self : Udp) : Udp :=
  {| udp_handle := udp_handle self; udp_local := l; udp_peer := p; udp_nonblock := udp_nonblock self |}.

Definition udp_bind (addr : Addr) (self : Udp) : netm Udp :=
  port ← if sa_port addr =? 0 then udp_get_ephemeral_port else mret (sa_port addr);
  let addr := SockAddr (sa_addr addr) port in
  match udp_local self with
  | Some _ => throw InvalidInput
  | None =>
      r ← with_udp (udp_handle self) (λ u,
        let '(u, r) := udp_sock_bind addr u in
        (u, match r with
            | Ok _ => Ok tt
            | Err BindInvalidState => Err AlreadyExists
            | Err BindUnaddressable => Err InvalidInput
            end));
      _ ← of_result r;
      mret (with_udp_addrs (Some addr) (udp_peer self) self)
  end.

Definition udp_send_attempt (h : handle) (buf : list Z) (addr : Addr) : netm Z :=
  r ← with_udp h (λ u,
    if negb (udp_is_open u) then (u, Err NotConnected)
    else if udp_can_send u then
      let '(u, r) := udp_send_slice buf addr u in
      (u, match r with
          | Ok _ => Ok (len buf)
          | Err BufferFull => Err WouldBlock
          | Err SendUnaddressable => Err ConnectionRefused
          end)
    else (u, Err WouldBlock));
  of_result r.

Definition udp_send_to (env : nat → net → net) (fuel : nat) (self : Udp) (buf : list Z) (addr : Addr) (w : net) :=
  block_on env (udp_nonblock self) (udp_send_attempt (udp_handle self) buf addr) fuel 0 w.

(** The closure of [recv_impl], with the operation it is given. *)
Definition udp_recv_attempt {T} (h : handle) (op : udp_socket → udp_socket * result AxError T) : netm T :=
  r ← with_udp h (λ u,
    if negb (udp_is_open u) then (u, Err NotConnected)
    else if udp_can_recv u then op u
    else (u, Err WouldBlock));
  of_result r.

Definition recv_impl {T} (env : nat → net → net) (fuel : nat) (self : Udp)
    (op : udp_socket → udp_socket * result AxError T) (w : net) :=
  block_on env (udp_nonblock self) (udp_recv_attempt (udp_handle self) op) fuel 0 w.

Definition recv_from_op (n : nat) (u : udp_socket) : udp_socket * result AxError (list Z * Addr) :=
  let '(u, r) := udp_recv_slice n u in
  (u, match r with Ok x => Ok x | Err _ => Err WouldBlock end).

Definition udp_recv_from (env : nat → net → net) (fuel : nat) (self : Udp) (n : nat) (w : net) :=
  recv_impl env fuel self (recv_from_op n) w.

Definition peek_from_op (n : nat) (u : udp_socket) : udp_socket * result AxError (list Z * Addr) :=
  let '(u, r) := udp_peek_slice n u in
  (u, match r with Ok x => Ok x | Err _ => Err WouldBlock end).

Definition udp_peek_from (env : nat → net → net) (fuel : nat) (self : Udp) (n : nat) (w : net) :=
  recv_impl env fuel self (peek_from_op n) w.

Definition udp_connect (addr : Addr) (self : Udp) : netm Udp :=
  self ← match udp_local self with
         | Some _ => mret self
         | None =>
             w ← get;
             match iface_ipv4_addr (iface w) with
             | None => throw BadAddress
             | Some ip => udp_bind (SockAddr ip 0) self
             end
         end;
  mret (with_udp_addrs (udp_local self) (Some addr) self).

Definition udp_send (env : nat → net → net) (fuel : nat) (self : Udp) (buf : list Z) (w : net) :=
  match udp_peer_addr self with
  | Err e => Some (Done (w, Err e))
  | Ok addr => udp_send_to env fuel self buf addr w
  end.

(** Datagrams of others are dropped. *)
Definition recv_op (peeraddr : Addr) (n : nat) (u : udp_socket) : udp_socket * result AxError (list Z) :=
  let '(u, r) := udp_recv_slice n u in
  (u, match r with
      | Ok (bytes, from) => if decide (from = peeraddr) then Ok bytes else Err WouldBlock
      | Err _ => Err WouldBlock
      end).

Definition udp_recv (env : nat → net → net) (fuel : nat) (self : Udp) (n : nat) (w : net) :=
  match udp_peer_addr self with
  | Err e => Some (Done (w, Err e))
  | Ok peeraddr => recv_impl env fuel self (recv_op peeraddr n) w
  end.

Definition udp_shutdown (self : Udp) : netm unit :=
  _ ← with_udp (udp_handle self) (λ u, (udp_close u, tt));
  poll_interfaces.

Definition udp_poll (self : Udp) : netm PollState :=
  _ ← poll_interfaces;
  with_udp (udp_handle self) (λ u, (u, {| readable := udp_is_open u && udp_can_recv u;
                                          writable := udp_is_open u && udp_can_send u |})).

(** [impl Drop for UdpSocket]. *)
Definition udp_drop (self : Udp) : netm unit := λ w,
  match udp_shutdown self w with
  | Panic => Panic
  | Done (w, _) => socket_remove (udp_handle self) w
  end.

(** ** Name queries *)

Definition dns_new : netm handle := socket_add (DnsSock new_dns_socket).

Definition dns_start (h : handle) (name : string) : netm query_handle :=
  r ← with_dns_iface h (λ i d,
    let '(i, d, r) := dns_start_query i name d in
    (i, d, match r with
           | Ok q => Ok q
           | Err NoFreeSlot => Err ResourceBusy
           | Err InvalidName => Err InvalidInput
           | Err NameTooLong => Err InvalidInput
           end));
  of_result r.

(** A query that is answered polls the interface once more. *)
Definition dns_attempt (h : handle) (q : query_handle) : netm (list ip_addr) :=
  r ← with_dns_iface h (λ i d,
    let '(d, r) := dns_get_query_result q d in
    (i, d, match r with
           | Ok l => Ok l
           | Err Pending => Err WouldBlock
           | Err QueryFailed => Err ConnectionRefused
           end));
  l ← of_result r;
  _ ← poll_interfaces;
  mret l.

Definition dns_query (env : nat → net → net) (fuel : nat) (h : handle) (name : string) (w : net)
    : option (outcome (net * result AxError (list ip_addr))) :=
  match dns_start h name w with
  | Panic => Some Panic
  | Done (w, Err e) => Some (Done (w, Err e))
  | Done (w, Ok q) => block_on env false (dns_attempt h q) fuel 0 w
  end.

(** [resolve_socket_addr]: the socket is dropped at the end. *)
Definition resolve_socket_addr (env : nat → net → net) (fuel : nat) (name : string) (w : net)
    : option (outcome (net * result AxError (list ip_addr))) :=
  match dns_new w with
  | Done (w, Ok h) =>
      match dns_query env fuel h name w with
      | Some (Done (w, r)) =>
          Some (match socket_remove h w with Done (w, _) => Done (w, r) | Panic => Panic end)
      | o => o
      end
  | _ => Some Panic
  end.

(** ** Initialisation *)

Definition net_init (d : I) (QS : nat) (now : Z) (debug : bool) : outcome net :=
  p ← net_pool_new NET_BUF_POOL_SIZE NET_BUF_LEN;
  match p with
  | Err _ => Panic
  | Ok p =>
      '(c, _) ← unwrap_dev fill_rx_buffers {| net_pool := p; net_dev := virtio_net_new QS d |};
      let i := iface_new (mac_address (inner (net_dev c))) RANDOM_SEED in
      i ← unwrap (iface_push_ip (ip_v4 10 0 2 15) 24 i);
      i ← unwrap (iface_default_route (ip_v4 10 0 2 2) i);
      Done {| card := c; rx_buf_queue := []; iface := i; sockets := set_new; listen_table := ∅;
              tcp_curr := PORT_START; udp_curr := PORT_START; clock := now; log_debug := debug |}
  end.

End axnet.
Arguments net _ {_}.
