(* ===== verification/AxNetSpec.v ===== *)
(** * Polling the interface passes packets on, and loses no buffer

    The stack sees the packets the device has received, in order and with the
    bytes the device wrote, and the device sends the frames the stack asks
    for, with the header of the device in front: [poll_interfaces] with its
    buffers, tokens and queue is [stack_run], which has none of them. *)

From S2P Require Import Prelude AxErrno BlockDev NetBuf NetBufSpec AxNet.
From stdpp Require Import base numbers gmap list strings.

Open Scope Z_scope.

(** What [Interface::poll] does with a queue of packets: the result, the
    packets it leaves and the frames it sends. *)
Fixpoint stack_run {A} (p : iface_prog A) (q : list (list Z)) : A * list (list Z) * list (list Z) :=
  match p with
  | IDone a => (a, q, [])
  | IReceive none reply some =>
      match q with
      | [] => stack_run none q
      | bytes :: q =>
          let '(a, rest, out) := stack_run (some bytes) q in
          (a, rest, option_list (reply bytes) ++ out)
      end
  | ITransmit frame k =>
      let '(a, rest, out) := stack_run k q in (a, rest, frame :: out)
  end.

(** All frames of a run fit in a packet, and its results satisfy [post]. *)
Fixpoint prog_ok {A} (post : A → Prop) (p : iface_prog A) : Prop :=
  match p with
  | IDone a => post a
  | IReceive none reply some =>
      prog_ok post none ∧
      ∀ bytes, (∀ frame, reply bytes = Some frame → len frame ≤ 1514) ∧ prog_ok post (some bytes)
  | ITransmit frame k => len frame ≤ 1514 ∧ prog_ok post k
  end.

Inductive kind := KTcp | KUdp | KDns.

#[global] Instance kind_eq_dec : EqDecision kind.
Proof. solve_decision. Defined.

Definition kind_of {T U D} (s : any_socket T U D) : kind :=
  match s with TcpSock _ => KTcp | UdpSock _ => KUdp | DnsSock _ => KDns end.

(** The socket set is a map whose handles [add] chooses; [poll] sends frames
    of at most the 1514 bytes of [DeviceCapabilities], and neither adds nor
    removes sockets. *)
Class SmoltcpLaws `{Stack : !Smoltcp} := {
  lookup_new h : set_lookup set_new h = None;
  add_fresh s set set' h : set_add s set = (set', h) → set_lookup set h = None;
  lookup_add s set set' h h' : set_add s set = (set', h) →
    set_lookup set' h' = if decide (h' = h) then Some s else set_lookup set h';
  lookup_replace h s set h' : is_Some (set_lookup set h) →
    set_lookup (set_replace h s set) h' = if decide (h' = h) then Some s else set_lookup set h';
  lookup_remove h set h' : is_Some (set_lookup set h) →
    set_lookup (set_remove h set) h' = if decide (h' = h) then None else set_lookup set h';
  iface_poll_law t i set :
    prog_ok (λ r : interface * socket_set,
      ∀ h, kind_of <$> set_lookup r.2 h = kind_of <$> set_lookup set h) (iface_poll t i set);
}.

Lemma stack_run_ok {A} (post : A → Prop) p : ∀ q, prog_ok post p →
  post (stack_run p q).1.1 ∧ Forall (λ f, len f ≤ 1514) (stack_run p q).2.
Proof.
  induction p as [a|none IHn reply some IHs|frame k IHk]; intros q Hp; cbn in Hp |- *; [done| |].
  - destruct Hp as [Hn Hs]. destruct q as [|b q]; [by apply IHn|].
    destruct (Hs b) as [Hr Hs']. destruct (IHs b q Hs') as [H1 H2].
    destruct (stack_run (some b) q) as [[a rest] out]. cbn in *. split; [done|].
    apply Forall_app. split; [|done]. destruct (reply b) eqn:Hrb; [|done].
    apply Forall_singleton. by apply Hr.
  - destruct Hp as [Hf Hk]. destruct (IHk q Hk) as [H1 H2].
    destruct (stack_run k q) as [[a rest] out]. cbn in *. by split; [|apply Forall_cons].
Qed.

Section poll.
Context {I : Type} {QS : nat} `{Ops : !VirtIONetRaw I} `{Laws : !VirtIONetLaws I QS}.
Context `{Stack : !Smoltcp} `{SLaws : !SmoltcpLaws}.
Implicit Types (c : nic I) (q : list NetBuffer) (w : net I).

(** The card and the packets that wait: with the device, all of the places
    of its queue are in use, and a buffer is left for sending. *)
Record card_ok c q : Prop := {
  co_nic : nic_ok c q;
  co_rx : (length (rx_bufs c) + length q = QS)%nat;
  co_tx : free_list (net_pool c) ≠ [];
}.

Definition packets c q : list (list Z) := packet_bytes (net_pool c) <$> q.

(** A step that touches none of the buffers of [q] keeps their packets. *)
Lemma packets_step os rs ss c c' q held : nic_ok c held → nic_step os rs ss c c' → (∀ b, b ∈ q → b ∈ held) →
  (∀ b, b ∈ q → pool_offset b ∉ os) → packets c' q = packets c q.
Proof.
  intros Hn Hs Hq Hos. apply list_fmap_ext. intros i b Hb%list_elem_of_lookup_2.
  apply packet_untouched with os; [eapply no_shape, Hn|by destruct Hs|by apply (nic_held_ok _ _ _ Hn), Hq|by apply Hos].
Qed.

Lemma head_not_in_tail c b q : nic_ok c (b :: q) → ∀ b', b' ∈ q → pool_offset b' ∉ [pool_offset b].
Proof.
  intros Hn b' Hb' Heq%list_elem_of_singleton. apply nic_held_NoDup in Hn. rewrite fmap_cons in Hn.
  apply NoDup_cons in Hn as [Hn _]. apply Hn. rewrite <- Heq. by apply list_elem_of_fmap_2.
Qed.

(** Sending a frame. *)
Lemma tx_consume_spec c q frame : nic_ok c q → free_list (net_pool c) ≠ [] → len frame ≤ 1514 →
  ∃ c', tx_consume frame c = Done c' ∧ nic_ok c' q ∧ free_list (net_pool c') ≠ [] ∧ rx_bufs c' = rx_bufs c ∧
    packets c' q = packets c q ∧ received (inner (net_dev c')) = received (inner (net_dev c)) ∧
    sent (inner (net_dev c')) = sent (inner (net_dev c)) ++ [net_hdr ++ frame].
Proof.
  intros Hn Hf Hl. destruct (net_alloc_spec c q Hn Hf) as (b & p & Hal & Hn1 & Hs1 & _).
  destruct (transmit_spec _ _ _ frame Hn1 Hl) as (c2 & b2 & p2 & c3 & Hprep & Hw & Ht & Hn3 & Hs3 & Hrx & _).
  destruct (net_drop_spec _ _ _ Hn3) as (Hn4 & Hs4 & Hf4).
  exists (drop_buffer b2 c3). split; [|split; [done|split; [done|split; [exact Hrx|split]]]].
  - unfold tx_consume. rewrite Hal. unfold unwrap, mbind, outcome_bind, unwrap_dev. rewrite Hprep, Hw, Ht. done.
  - rewrite <- (packets_step _ _ _ _ _ q _ Hn Hs1) by set_solver.
    rewrite <- (packets_step _ _ _ _ _ q _ Hn1 Hs3) by (try apply head_not_in_tail with (1 := Hn1); set_solver).
    apply (packets_step _ _ _ _ _ q _ Hn3 Hs4); set_solver.
  - destruct Hs1 as [_ R1 T1], Hs3 as [_ R3 T3], Hs4 as [_ R4 T4].
    by rewrite R4, R3, R1, T4, T3, T1, !app_nil_r.
Qed.

(** Processing a packet, with or without an answer. *)
Lemma rx_consume_spec c b q reply : card_ok c (b :: q) →
  (∀ frame, reply (packet_bytes (net_pool c) b) = Some frame → len frame ≤ 1514) →
  ∃ c', rx_consume b reply c = Done (c', packet_bytes (net_pool c) b) ∧ card_ok c' q ∧
    packets c' q = packets c q ∧ received (inner (net_dev c')) = received (inner (net_dev c)) ∧
    sent (inner (net_dev c')) =
      sent (inner (net_dev c)) ++ (app net_hdr <$> option_list (reply (packet_bytes (net_pool c) b))).
Proof.
  intros [Hn Hrx Hfr] Hreply. simpl in Hrx. unfold rx_consume.
  rewrite packet_ok by (eapply no_shape, Hn || (eapply nic_held_ok; [exact Hn|left])).
  set (bytes := packet_bytes _ b) in *. cbn [mbind outcome_bind].
  assert (∃ c1, match reply bytes with Some frame => tx_consume frame c | None => Done c end = Done c1 ∧
    nic_ok c1 (b :: q) ∧ free_list (net_pool c1) ≠ [] ∧ rx_bufs c1 = rx_bufs c ∧
    packets c1 (b :: q) = packets c (b :: q) ∧ received (inner (net_dev c1)) = received (inner (net_dev c)) ∧
    sent (inner (net_dev c1)) = sent (inner (net_dev c)) ++ (app net_hdr <$> option_list (reply bytes)))
    as (c1 & -> & Hn1 & Hfr1 & Hrx1 & Hpk1 & Hr1 & Hs1).
  { destruct (reply bytes) as [frame|]; [|exists c; cbn; by rewrite app_nil_r].
    destruct (tx_consume_spec c (b :: q) frame) as (c1 & ? & ? & ? & ? & ? & ? & ?); [done|done|by apply Hreply|].
    by exists c1. }
  destruct (recycle_spec c1 q b Hn1) as (c2 & Hrec & Hn2 & Hs2 & Hcnt & Hfl); [rewrite Hrx1; lia|].
  exists c2. unfold unwrap_dev, mbind, outcome_bind. rewrite Hrec. split; [done|].
  split; [split; [done|rewrite Hcnt, Hrx1; lia|by rewrite Hfl]|].
  injection Hpk1 as _ Hpk1. rewrite <- Hpk1. split; [|destruct Hs2 as [_ -> ->]; by rewrite Hr1, Hs1, !app_nil_r].
  apply (packets_step _ _ _ _ _ q _ Hn1 Hs2); set_solver.
Qed.

(** The run of the interface on the device is the run on the packets. *)
Lemma run_iface_spec {A} (post : A → Prop) p : ∀ c q, prog_ok post p → card_ok c q →
  ∃ c' q' a out, run_iface p c q = Done (c', q', a) ∧ card_ok c' q' ∧
    stack_run p (packets c q) = (a, packets c' q', out) ∧
    received (inner (net_dev c')) = received (inner (net_dev c)) ∧
    sent (inner (net_dev c')) = sent (inner (net_dev c)) ++ (app net_hdr <$> out).
Proof.
  induction p as [a|none IHn reply some IHs|frame k IHk]; intros c q Hp Hc; cbn in Hp |- *.
  - exists c, q, a, []. by rewrite app_nil_r.
  - destruct Hp as [Hpn Hps]. destruct q as [|b q]; [by apply IHn|].
    destruct (Hps (packet_bytes (net_pool c) b)) as [Hr Hp].
    destruct (rx_consume_spec c b q reply Hc Hr) as (c1 & -> & Hc1 & Hpk & Hrec & Hsent).
    destruct (IHs _ c1 q Hp Hc1) as (c' & q' & a & out & Hrun & Hc' & Hst & Hrec' & Hsent').
    exists c', q', a, (option_list (reply (packet_bytes (net_pool c) b)) ++ out).
    rewrite Hpk in Hst. change (packets c (b :: q)) with (packet_bytes (net_pool c) b :: packets c q). cbn.
    rewrite Hst, fmap_app, Hsent', Hsent, (assoc_L (++)), Hrec'. done.
  - destruct Hp as [Hf Hp]. destruct Hc as [Hn Hrx Hfr].
    destruct (tx_consume_spec c q frame Hn Hfr Hf) as (c1 & -> & Hn1 & Hfr1 & Hrx1 & Hpk & Hrec & Hsent).
    destruct (IHk c1 q Hp) as (c' & q' & a & out & Hrun & Hc' & Hst & Hrec' & Hsent').
    { split; [done|by rewrite Hrx1|done]. }
    exists c', q', a, (frame :: out). rewrite <- Hpk, Hst, Hsent', Hsent, <- (assoc_L (++)), Hrec'. done.
Qed.

(** ** Looking at the packets as they come *)

(** [snoop_tcp_packet] on each packet in turn. *)
Fixpoint snoop_all (ps : list (list Z)) w : outcome (net I) :=
  match ps with
  | [] => Done w
  | p :: ps => match snoop_tcp_packet p w with Done (w, _) => snoop_all ps w | Panic => Panic end
  end.

(** [w'] differs from [w] in the sockets and the listen table only. *)
Record same_card w w' : Prop := {
  sc_card : card w' = card w;
  sc_queue : rx_buf_queue w' = rx_buf_queue w;
  sc_iface : iface w' = iface w;
  sc_clock : clock w' = clock w;
  sc_ports : tcp_curr w' = tcp_curr w ∧ udp_curr w' = udp_curr w ∧ log_debug w' = log_debug w;
}.

Lemma snoop_frame p w :
  ∃ w', snoop_tcp_packet p w = Done (w', Ok tt) ∧ same_card w w' ∧
    ∀ c q, snoop_tcp_packet p (with_card c q w) = Done (with_card c q w', Ok tt).
Proof.
  assert (∃ w', Done (w, @Ok AxError _ tt) = Done (w', Ok tt) ∧ same_card w w' ∧
    ∀ c q, Done (with_card c q w, @Ok AxError _ tt) = Done (with_card c q w', Ok tt)) as Hret by (by exists w).
  unfold snoop_tcp_packet. destruct (ether_payload p) as [pl|]; [|done].
  destruct (ipv4_new_checked pl) as [ip|]; [|done]. destruct (next_header_tcp ip); [|done].
  destruct (tcp_new_checked (ip_payload ip)) as [t|]; [|done]. cbv zeta.
  destruct (syn t && negb (ack t)); [|done]. unfold incoming_tcp_packet. cbn [listen_table with_card sa_port].
  destruct (listen_table w !! dst_port t) as [hs|]; [|done].
  destruct (LISTEN_QUEUE_SIZE <=? length hs)%nat; [done|].
  destruct (tcp_sock_listen _ _) as [t' [[]|]]; [|done].
  unfold socket_add, mbind, stm_bind. cbn [sockets with_card]. destruct (set_add _ _) as [set h]. by eexists.
Qed.

Lemma snoop_all_frame ps : ∀ w, ∃ w', snoop_all ps w = Done w' ∧ same_card w w' ∧
  ∀ c q, snoop_all ps (with_card c q w) = Done (with_card c q w').
Proof.
  induction ps as [|p ps IH]; intros w; cbn; [by exists w|].
  destruct (snoop_frame p w) as (w1 & -> & [? ? ? ? (?&?&?)] & Hf).
  destruct (IH w1) as (w2 & -> & [? ? ? ? (?&?&?)] & Hf2).
  exists w2. split; [done|]. split; [split; [..|split_and!]; congruence|]. intros c q. by rewrite Hf.
Qed.

(** ** [DeviceWrapper::poll] *)

Lemma dev_poll_spec fuel : ∀ w, card_ok (card w) (rx_buf_queue w) → (0 < fuel)%nat →
  (RX_BUF_QUEUE_SIZE < length (rx_buf_queue w) + fuel)%nat →
  ∃ w1 c q new, dev_poll_loop fuel w = Done (with_card c q w1, Ok tt) ∧ card_ok c q ∧
    snoop_all new w = Done w1 ∧ packets c q = packets (card w) (rx_buf_queue w) ++ new ∧
    (length q ≤ RX_BUF_QUEUE_SIZE `max` length (rx_buf_queue w))%nat ∧
    received (inner (net_dev c)) = received (inner (net_dev (card w))) ++ new ∧
    sent (inner (net_dev c)) = sent (inner (net_dev (card w))).
Proof.
  induction fuel as [|fuel IH]; intros w Hc Hpos Hfuel; [lia|]. cbn [dev_poll_loop].
  destruct (Nat.ltb_spec (length (rx_buf_queue w)) RX_BUF_QUEUE_SIZE) as [Hlt|Hge].
  2: { exists w, (card w), (rx_buf_queue w), []. rewrite !app_nil_r. split; [by destruct w|]. repeat split; lia || done || apply Hc. }
  destruct (Hc) as [Hn Hrx Hfr]. destruct (receive_spec (card w) _ Hn)
    as [(c & -> & Hn' & Hs & Hrx' & Hfl)|(c & b & -> & Hn' & Hs & Hrx' & Hfl)].
  - exists w, c, (rx_buf_queue w), []. rewrite !app_nil_r. split; [done|].
    split; [split; [done|by rewrite Hrx'|by rewrite Hfl]|]. split; [done|].
    split; [apply (packets_step _ _ _ _ _ _ _ Hn Hs); set_solver|]. split; [lia|].
    destruct Hs as [_ -> ->]. by rewrite !app_nil_r.
  - rewrite packet_ok by (eapply no_shape, Hn' || (eapply nic_held_ok; [exact Hn'|left])).
    destruct (snoop_frame (packet_bytes (net_pool c) b) w) as (w1 & Hsn & _ & ->).
    cbn [card rx_buf_queue with_card].
    destruct (IH (with_card c (rx_buf_queue w ++ [b]) w1))
      as (w2 & c2 & q2 & new & Hrun & Hc2 & Hsn2 & Hpk & Hlen & Hrec & Hsent);
      cbn [card rx_buf_queue with_card] in *; rewrite ?length_app in *; cbn [length] in *; [| lia..|].
    { split; [by eapply nic_ok_perm; [|rewrite Permutation_app_comm]|rewrite length_app; simpl; lia|by rewrite Hfl]. }
    destruct (snoop_all_frame new w1) as (w3 & Hsn3 & _ & Hsw). rewrite Hsw in Hsn2. injection Hsn2 as <-.
    exists w3, c2, q2, (packet_bytes (net_pool c) b :: new). split; [exact Hrun|]. split; [done|].
    split; [cbn; by rewrite Hsn|]. split; [|split; [lia|]].
    + rewrite Hpk. unfold packets at 1. rewrite fmap_app, <- (assoc_L (++)). f_equal.
      apply (packets_step _ _ _ _ _ _ _ Hn Hs); [done|]. by apply head_not_in_tail with (1 := Hn').
    + rewrite Hrec, Hsent. destruct Hs as [_ -> ->]. by rewrite app_nil_r, <- (assoc_L (++)).
Qed.

(** [w'] is what polling the interface makes of [w]; the packets [new] were
    received and the frames [out] sent. *)
Record polled (new out : list (list Z)) w w' : Prop := {
  po_run : ∃ w1 i s,
    snoop_all new w = Done w1 ∧ w' = with_stack i s (with_card (card w') (rx_buf_queue w') w1) ∧
    stack_run (iface_poll (clock w / 1000) (iface w) (sockets w1)) (packets (card w) (rx_buf_queue w) ++ new) =
      ((i, s), packets (card w') (rx_buf_queue w'), out);
  po_received : received (inner (net_dev (card w'))) = received (inner (net_dev (card w))) ++ new;
  po_sent : sent (inner (net_dev (card w'))) = sent (inner (net_dev (card w))) ++ (app net_hdr <$> out);
}.

Lemma poll_interfaces_spec w : card_ok (card w) (rx_buf_queue w) →
  ∃ w' new out, poll_interfaces w = Done (w', Ok tt) ∧ card_ok (card w') (rx_buf_queue w') ∧ polled new out w w'.
Proof.
  intros Hc. destruct (dev_poll_spec (S RX_BUF_QUEUE_SIZE) w Hc) as (w1 & c & q & new & Hdev & Hc1 & Hsn & Hpk & _ & Hrec & Hsent); [lia..|].
  destruct (snoop_all_frame new w) as (w1' & Hsn' & Hsame & _). rewrite Hsn in Hsn'. injection Hsn' as <-.
  pose proof (iface_poll_law (clock w / 1000) (iface w) (sockets w1)) as Hprog.
  destruct (run_iface_spec _ _ c q Hprog Hc1) as (c' & q' & [i s] & out & Hrun & Hc' & Hst & Hrec' & Hsent').
  exists (with_stack i s (with_card c' q' w1)), new, out. split; [|split; [done|]].
  - unfold poll_interfaces, dev_poll. rewrite Hdev. cbn [clock iface sockets card rx_buf_queue with_card].
    rewrite (sc_clock _ _ Hsame), (sc_iface _ _ Hsame), Hrun. done.
  - split; cbn; [|by rewrite Hrec', Hrec|by rewrite Hsent', Hsent]. exists w1, i, s. by rewrite <- Hpk, Hst.
Qed.

(** C14: [poll_interfaces] refines a network stack that has no buffers: it
    hands the packets which wait and those the device has received since to
    the stack, in order and with the bytes the device wrote, after looking
    for connection requests in the new ones; the device sends the frames of
    the stack with the header of the device in front; the packets the stack
    does not ask for wait.  No buffer of the pool is lost or used twice, and
    none of the [unwrap]s of the tokens fails. *)
Theorem interface_poll_refines w : card_ok (card w) (rx_buf_queue w) →
  ∃ w' new out,
    poll_interfaces w = Done (w', Ok tt) ∧ card_ok (card w') (rx_buf_queue w') ∧
    (∃ w1 i s,
       snoop_all new w = Done w1 ∧ w' = with_stack i s (with_card (card w') (rx_buf_queue w') w1) ∧
       stack_run (iface_poll (clock w / 1000) (iface w) (sockets w1)) (packets (card w) (rx_buf_queue w) ++ new) =
         ((i, s), packets (card w') (rx_buf_queue w'), out)) ∧
    received (inner (net_dev (card w'))) = received (inner (net_dev (card w))) ++ new ∧
    sent (inner (net_dev (card w'))) = sent (inner (net_dev (card w))) ++ (app net_hdr <$> out).
Proof.
  intros Hc. destruct (poll_interfaces_spec w Hc) as (w' & new & out & Hpoll & Hc' & [H1 H2 H3]). by exists w', new, out.
Qed.

End poll.
