(* ===== verification/AxSocketSpec.v ===== *)
(** * Every socket of the stack has one owner

    A socket of the stack belongs to one [TcpSocket], [UdpSocket] or query,
    or waits in the queue of one listening port; whatever the tasks do, none
    is lost, none is used after it was removed, and no operation panics. *)

From S2P Require Import Prelude AxErrno BlockDev NetBuf NetBufSpec AxNet AxNetSpec.
From stdpp Require Import base numbers gmap list strings.

Open Scope Z_scope.

Section sockets.
Context {I : Type} {QS : nat} `{Ops : !VirtIONetRaw I} `{Laws : !VirtIONetLaws I QS}.
Context `{Stack : !Smoltcp} `{SLaws : !SmoltcpLaws}.
Implicit Types (w : net I) (rest own : list (handle * kind)) (h : handle).

Abbreviation Addr := (SocketAddr ip_addr).
Abbreviation Tcp := (TcpSocket handle ip_addr).
Abbreviation Udp := (UdpSocket handle ip_addr).
Abbreviation netm := (stm (net I) AxError).

(** ** The invariant *)

(** [own] are the sockets of the set, each once, with their kinds. *)
Record accounted own (s : socket_set) : Prop := {
  ac_once : NoDup own.*1;
  ac_live h k : kind_of <$> set_lookup s h = Some k ↔ (h, k) ∈ own;
}.

(** The sockets that wait in the queues of the listen table. *)
Definition queued (t : gmap Z (list handle)) : list (handle * kind) :=
  (λ h, (h, KTcp)) <$> (map_to_list t ≫= snd).

(** [rest] are the sockets in use outside of the listen table; messages of
    level debug are off. *)
Record net_ok w rest : Prop := {
  nk_card : card_ok (card w) (rx_buf_queue w);
  nk_sockets : accounted (queued (listen_table w) ++ rest) (sockets w);
  nk_queues port q : listen_table w !! port = Some q → (length q ≤ LISTEN_QUEUE_SIZE)%nat;
  nk_log : log_debug w = false;
  nk_ports : PORT_START ≤ tcp_curr w ≤ PORT_END ∧ PORT_START ≤ udp_curr w ≤ PORT_END;
}.

Lemma accounted_perm own own' s : own ≡ₚ own' → accounted own s → accounted own' s.
Proof. intros Hp [H1 H2]. split; [by rewrite <- Hp|]. intros h k. by rewrite <- Hp. Qed.

Lemma accounted_kinds own s s' :
  (∀ h, kind_of <$> set_lookup s' h = kind_of <$> set_lookup s h) → accounted own s → accounted own s'.
Proof. intros Hk [H1 H2]. split; [done|]. intros h k. by rewrite Hk. Qed.

Lemma accounted_get own s h k : accounted own s → (h, k) ∈ own →
  ∃ x, set_lookup s h = Some x ∧ kind_of x = k.
Proof.
  intros Ha Hin. apply (ac_live _ _ Ha) in Hin. apply fmap_Some in Hin as (x & Hx & ->). by exists x.
Qed.

Lemma accounted_add own s x s' h : accounted own s → set_add x s = (s', h) →
  accounted ((h, kind_of x) :: own) s'.
Proof.
  intros [H1 H2] Hadd. pose proof (add_fresh _ _ _ _ Hadd) as Hf. split.
  - rewrite fmap_cons. apply NoDup_cons. split; [|done]. cbn. intros ([h' k] & Heq & Hin)%list_elem_of_fmap.
    cbn in Heq. subst h'. apply H2 in Hin. by rewrite Hf in Hin.
  - intros h' k. rewrite (lookup_add _ _ _ _ h' Hadd), elem_of_cons. case_decide as Heq.
    + subst h'. cbn. split; [intros [= ->]; by left|]. intros [[= ->]|Hin]; [done|].
      apply H2 in Hin. by rewrite Hf in Hin.
    + rewrite H2. naive_solver.
Qed.

Lemma accounted_replace own s h x x' : accounted own s → set_lookup s h = Some x → kind_of x' = kind_of x →
  accounted own (set_replace h x' s).
Proof.
  intros Ha Hx Hk. eapply accounted_kinds; [|done]. intros h'. rewrite lookup_replace by done.
  case_decide as Heq; [|done]. subst h'. rewrite Hx. cbn. by rewrite Hk.
Qed.

Lemma accounted_remove own s h k : accounted ((h, k) :: own) s → accounted own (set_remove h s).
Proof.
  intros Ha. destruct (accounted_get _ _ h k Ha) as (x & Hx & _); [by left|]. destruct Ha as [H1 H2].
  rewrite fmap_cons in H1. apply NoDup_cons in H1 as [Hn H1]. split; [done|].
  intros h' k'. rewrite lookup_remove by done. case_decide as Heq.
  - subst h'. cbn. split; [done|]. intros Hin. destruct Hn. by apply (list_elem_of_fmap_2 fst) in Hin.
  - rewrite H2, elem_of_cons. naive_solver.
Qed.

(** ** The listen table *)

Lemma queued_insert_new t port : t !! port = None → queued (<[port := []]> t) ≡ₚ queued t.
Proof. intros Ht. unfold queued. by rewrite map_to_list_insert by done. Qed.

Lemma queued_delete t port q : t !! port = Some q →
  queued t ≡ₚ ((λ h, (h, KTcp)) <$> q) ++ queued (delete port t).
Proof.
  intros Ht. unfold queued. rewrite <- (map_to_list_delete t port q Ht). cbn. by rewrite fmap_app.
Qed.

Lemma queued_insert t port q q' : t !! port = Some q →
  queued (<[port := q']> t) ≡ₚ ((λ h, (h, KTcp)) <$> q') ++ queued (delete port t).
Proof.
  intros Ht. rewrite <- insert_delete_eq. rewrite (queued_delete _ port q') by apply lookup_insert_eq.
  by rewrite delete_insert_id by apply lookup_delete_eq.
Qed.

Lemma queued_elem t port q h : t !! port = Some q → h ∈ q → (h, KTcp) ∈ queued t.
Proof.
  intros Ht Hh. rewrite (queued_delete _ _ _ Ht). apply elem_of_app. left. by apply (list_elem_of_fmap_2 (λ h, (h, KTcp))).
Qed.

(** ** Specifications *)

(** [m] runs to its end and succeeds, whatever the state is; [post] are the
    sockets in use after it. *)
Definition runs {T} rest (m : netm T) (post : T → list (handle * kind)) : Prop :=
  ∀ w, net_ok w rest → ∃ w' t, m w = Done (w', Ok t) ∧ net_ok w' (post t).

(** [m] runs to its end, and may report an error. *)
Definition triple {T} rest (m : netm T) (post : result AxError T → list (handle * kind)) : Prop :=
  ∀ w, net_ok w rest → ∃ w' r, m w = Done (w', r) ∧ net_ok w' (post r).

Lemma net_ok_perm w rest rest' : rest ≡ₚ rest' → net_ok w rest → net_ok w rest'.
Proof. intros Hp [H1 H2 H3 H4 H5]. split; try done. eapply accounted_perm; [|done]. by rewrite Hp. Qed.

Lemma runs_triple {T} rest (m : netm T) post post' :
  runs rest m post → (∀ t, post t = post' (Ok t)) → triple rest m post'.
Proof. intros Hm Hp w Hw. destruct (Hm w Hw) as (w' & t & Hr & Hw'). exists w', (Ok t). by rewrite <- Hp. Qed.

Lemma runs_ret {T} (t : T) post : runs (post t) (mret t) post.
Proof. intros w Hw. by exists w, t. Qed.

Lemma triple_ret {T} (t : T) post : triple (post (Ok t)) (mret t) post.
Proof. intros w Hw. by exists w, (Ok t). Qed.

Lemma triple_throw {T} e (post : result AxError T → _) : triple (post (Err e)) (throw e) post.
Proof. intros w Hw. by exists w, (Err e). Qed.

Lemma triple_of_result {T} (r : result AxError T) rest : triple rest (of_result r) (λ _, rest).
Proof. intros w Hw. by exists w, r. Qed.

Lemma runs_bind {T U} rest (m : netm T) (f : T → netm U) post1 post :
  runs rest m post1 → (∀ t, runs (post1 t) (f t) post) → runs rest (m ≫= f) post.
Proof.
  intros Hm Hf w Hw. destruct (Hm w Hw) as (w1 & t & Hr & Hw1). unfold mbind, stm_bind. rewrite Hr.
  apply (Hf t w1 Hw1).
Qed.

Lemma triple_bind_runs {T U} rest (m : netm T) (f : T → netm U) post1 post :
  runs rest m post1 → (∀ t, triple (post1 t) (f t) post) → triple rest (m ≫= f) post.
Proof.
  intros Hm Hf w Hw. destruct (Hm w Hw) as (w1 & t & Hr & Hw1). unfold mbind, stm_bind. rewrite Hr.
  apply (Hf t w1 Hw1).
Qed.

Lemma triple_bind {T U} rest (m : netm T) (f : T → netm U) post1 post :
  triple rest m post1 → (∀ t, triple (post1 (Ok t)) (f t) post) → (∀ e, post1 (Err e) = post (Err e)) →
  triple rest (m ≫= f) post.
Proof.
  intros Hm Hf He w Hw. destruct (Hm w Hw) as (w1 & [t|e] & Hr & Hw1); unfold mbind, stm_bind; rewrite Hr.
  - apply (Hf t w1 Hw1).
  - exists w1, (Err e). split; [done|]. by rewrite <- He.
Qed.

Lemma net_ok_sockets w rest i s :
  net_ok w rest → accounted (queued (listen_table w) ++ rest) s → net_ok (with_stack i s w) rest.
Proof. intros [H1 H2 H3 H4 H5] Hs. by split. Qed.

Lemma net_ok_table w rest rest' t :
  net_ok w rest → queued t ++ rest' ≡ₚ queued (listen_table w) ++ rest →
  (∀ port q, t !! port = Some q → (length q ≤ LISTEN_QUEUE_SIZE)%nat) → net_ok (with_table t w) rest'.
Proof. intros [H1 H2 H3 H4 H5] Hp Hq. split; try done. by eapply accounted_perm; [symmetry|]. Qed.

(** ** The socket set *)

Lemma socket_add_spec rest x :
  runs rest (socket_add x) (λ h, (h, kind_of x) :: rest).
Proof.
  intros w Hw. unfold socket_add. destruct (set_add x (sockets w)) as [s h] eqn:Hadd.
  eexists _, _. split; [done|]. cbv beta. destruct Hw as [H1 H2 H3 H4 H5]. split; try done. cbn.
  eapply accounted_perm; [|by eapply accounted_add]. by rewrite Permutation_middle.
Qed.

Lemma net_ok_get w rest h k : net_ok w rest → (h, k) ∈ queued (listen_table w) ++ rest →
  ∃ x, set_lookup (sockets w) h = Some x ∧ kind_of x = k.
Proof. intros Hw. apply accounted_get, (nk_sockets _ _ Hw). Qed.

Lemma with_tcp_iface_spec {R} rest h (f : interface → tcp_socket → interface * tcp_socket * R) :
  (h, KTcp) ∈ rest → runs rest (with_tcp_iface h f) (λ _, rest).
Proof.
  intros Hin w Hw. destruct (net_ok_get w rest h KTcp Hw) as ([t|u|d] & Hx & Hk); try done; [set_solver|].
  unfold with_tcp_iface. rewrite Hx. destruct (f (iface w) t) as [[i t'] r]. eexists _, _. split; [done|].
  apply net_ok_sockets; [done|]. by eapply accounted_replace; [apply Hw|exact Hx|].
Qed.

Lemma with_tcp_spec {R} rest h (f : tcp_socket → tcp_socket * R) :
  (h, KTcp) ∈ rest → runs rest (with_tcp h f) (λ _, rest).
Proof. apply with_tcp_iface_spec. Qed.

Lemma with_tcp_ref_spec {R} rest h (f : tcp_socket → R) :
  (h, KTcp) ∈ rest → runs rest (with_tcp_ref h f) (λ _, rest).
Proof.
  intros Hin w Hw. destruct (net_ok_get w rest h KTcp Hw) as ([t|u|d] & Hx & Hk); try done; [set_solver|].
  unfold with_tcp_ref. rewrite Hx. by eexists _, _.
Qed.

Lemma with_udp_spec {R} rest h (f : udp_socket → udp_socket * R) :
  (h, KUdp) ∈ rest → runs rest (with_udp h f) (λ _, rest).
Proof.
  intros Hin w Hw. destruct (net_ok_get w rest h KUdp Hw) as ([t|u|d] & Hx & Hk); try done; [set_solver|].
  unfold with_udp. rewrite Hx. destruct (f u) as [u' r]. eexists _, _. split; [done|].
  apply net_ok_sockets; [done|]. by eapply accounted_replace; [apply Hw|exact Hx|].
Qed.

Lemma with_dns_iface_spec {R} rest h (f : interface → dns_socket → interface * dns_socket * R) :
  (h, KDns) ∈ rest → runs rest (with_dns_iface h f) (λ _, rest).
Proof.
  intros Hin w Hw. destruct (net_ok_get w rest h KDns Hw) as ([t|u|d] & Hx & Hk); try done; [set_solver|].
  unfold with_dns_iface. rewrite Hx. destruct (f (iface w) d) as [[i d'] r]. eexists _, _. split; [done|].
  apply net_ok_sockets; [done|]. by eapply accounted_replace; [apply Hw|exact Hx|].
Qed.

Lemma socket_remove_spec rest h k : runs ((h, k) :: rest) (socket_remove h) (λ _, rest).
Proof.
  intros w Hw. destruct (net_ok_get w _ h k Hw) as (x & Hx & _); [set_solver|].
  unfold socket_remove. rewrite Hx. eexists _, _. split; [done|]. destruct Hw as [H1 H2 H3 H4 H5].
  split; try done. cbn. apply accounted_remove with k. eapply accounted_perm; [|done].
  by rewrite Permutation_middle.
Qed.

(** ** The operations of the listen table *)

Lemma table_listen_spec rest port : triple rest (table_listen port) (λ _, rest).
Proof.
  intros w Hw. unfold table_listen. destruct (port =? 0); [by eexists _, _|].
  destruct (listen_table w !! port) as [q|] eqn:Hq; [by eexists _, _|]. eexists _, _. split; [done|].
  apply (net_ok_table w rest); [done|by rewrite queued_insert_new|].
  intros port' q' [[<- <-]|[_ Hq']]%lookup_insert_Some; [simpl; lia|by apply (nk_queues _ _ Hw port')].
Qed.

Lemma remove_all_spec hs : ∀ rest, runs (((λ h, (h, KTcp)) <$> hs) ++ rest) (remove_all hs) (λ _, rest).
Proof.
  induction hs as [|h hs IH]; intros rest; [apply (runs_ret tt (λ _, rest))|].
  eapply runs_bind; [apply socket_remove_spec|intros; apply IH].
Qed.

Lemma unlisten_spec rest port : runs rest (unlisten port) (λ _, rest).
Proof.
  intros w Hw. unfold unlisten. destruct (listen_table w !! port) as [q|] eqn:Hq; [|by eexists _, _].
  apply remove_all_spec. apply (net_ok_table w rest); [done| |].
  - rewrite (queued_delete _ _ _ Hq). rewrite !(assoc_L (++)). f_equiv. apply Permutation_app_comm.
  - intros port' q' [_ Hq']%lookup_delete_Some. by apply (nk_queues _ _ Hw port').
Qed.

(** Whether the code takes the socket for connected, and the peer. *)
Definition is_connected w h : bool :=
  match set_lookup (sockets w) h with
  | Some (TcpSock t) => match tcp_state t with Listen | SynReceived => false | _ => true end
  | _ => false
  end.

Definition peer_of w h : option Addr :=
  match set_lookup (sockets w) h with Some (TcpSock t) => tcp_remote_endpoint t | _ => None end.

Lemma get_socket_info_eq w rest h :
  accounted (queued (listen_table w) ++ rest) (sockets w) → (h, KTcp) ∈ queued (listen_table w) ++ rest →
  get_socket_info h w = Done (w, Ok (is_connected w h, peer_of w h)).
Proof.
  intros Hw Hin. destruct (accounted_get _ _ h KTcp Hw Hin) as ([t|u|d] & Hx & Hk); try done.
  unfold get_socket_info, with_tcp_ref, is_connected, peer_of. by rewrite Hx.
Qed.

(** The first socket of a queue that is connected, with its index. *)
Definition first_connected w (q : list handle) : option (nat * handle) :=
  list_find (λ h, Is_true (is_connected w h)) q.

Lemma first_connected_cons w h q : first_connected w (h :: q) =
  if is_connected w h then Some (0%nat, h) else prod_map S id <$> first_connected w q.
Proof. unfold first_connected. cbn [list_find]. by destruct (is_connected w h). Qed.

Lemma find_connected_eq w rest q : ∀ idx, accounted (queued (listen_table w) ++ rest) (sockets w) →
  (∀ h, h ∈ q → (h, KTcp) ∈ queued (listen_table w) ++ rest) →
  find_connected idx q w =
    Done (w, Ok ((λ '(i, h), (idx + i, peer_of w h)%nat) <$> first_connected w q)).
Proof.
  induction q as [|h q IH]; intros idx Hw Hq; [done|]. cbn [find_connected]. unfold mbind, stm_bind.
  rewrite (get_socket_info_eq w rest) by (done || apply Hq; left).
  rewrite first_connected_cons. destruct (is_connected w h) eqn:Hc; cbn.
  - by rewrite Nat.add_0_r.
  - rewrite IH by (done || (intros h' Hh'; apply Hq; by right)).
    destruct (first_connected w q) as [[i h']|]; cbn; [|done]. by rewrite Nat.add_succ_r.
Qed.

(** [accept] of the table takes the first connected socket of the queue. *)
Lemma table_accept_eq w rest port q :
  accounted (queued (listen_table w) ++ rest) (sockets w) → listen_table w !! port = Some q →
  table_accept port w =
    match first_connected w q with
    | Some (i, h) => Done (with_table (<[port := delete i q]> (listen_table w)) w, Ok (h, peer_of w h))
    | None => Done (w, Err WouldBlock)
    end.
Proof.
  intros Hw Hq. assert (∀ h, h ∈ q → (h, KTcp) ∈ queued (listen_table w) ++ rest) as Hin.
  { intros h Hh. apply elem_of_app. left. by eapply queued_elem. }
  unfold table_accept, mbind, stm_bind, get. rewrite Hq. destruct q as [|h q]; [done|].
  rewrite (get_socket_info_eq w rest) by (done || apply Hin; left).
  rewrite first_connected_cons. destruct (is_connected w h) eqn:Hc; cbn; [done|].
  rewrite (find_connected_eq w rest) by (done || (intros h' Hh'; apply Hin; by right)).
  destruct (first_connected w q) as [[i h']|] eqn:Hf; [|done].
  unfold first_connected in Hf. apply list_find_Some in Hf as (Hi & _).
  assert ((h :: q) !! S i = Some h') as Hi' by exact Hi. clear Hi.
  cbn [fmap option_fmap option_map prod_map id Nat.add fst snd]. by rewrite Hi'.
Qed.

Lemma table_accept_spec rest port :
  triple rest (table_accept port) (λ r, match r with Ok (h, _) => (h, KTcp) :: rest | Err _ => rest end).
Proof.
  intros w Hw. destruct (listen_table w !! port) as [q|] eqn:Hq.
  2: { exists w, (Err InvalidInput). split; [|done]. unfold table_accept, mbind, stm_bind, get. by rewrite Hq. }
  rewrite (table_accept_eq w rest port q (nk_sockets _ _ Hw) Hq).
  destruct (first_connected w q) as [[i h]|] eqn:Hf; [|by eexists _, _].
  eexists _, _. split; [done|]. apply list_find_Some in Hf as (Hi & _).
  assert (q ≡ₚ h :: delete i q) as Hperm by (by apply delete_Permutation).
  remember (delete i q) as q1 eqn:Hq1. clear Hq1. apply (net_ok_table w rest); [done| |].
  - rewrite (queued_delete _ _ _ Hq), (queued_insert _ _ _ _ Hq), Hperm. cbn.
    by rewrite <- Permutation_middle.
  - intros port' q' [[<- <-]|[_ Hq']]%lookup_insert_Some; [|by apply (nk_queues _ _ Hw port')].
    pose proof (nk_queues _ _ Hw port q Hq) as Hl. rewrite Hperm in Hl. simpl in Hl. lia.
Qed.

Lemma any_connected_eq w rest q : accounted (queued (listen_table w) ++ rest) (sockets w) →
  (∀ h, h ∈ q → (h, KTcp) ∈ queued (listen_table w) ++ rest) →
  any_connected q w = Done (w, Ok (existsb (is_connected w) q)).
Proof.
  induction q as [|h q IH]; intros Hw Hq; [done|]. cbn [any_connected existsb]. unfold mbind, stm_bind.
  rewrite (get_socket_info_eq w rest) by (done || apply Hq; left).
  destruct (is_connected w h); [done|]. apply IH; [done|]. intros h' Hh'. apply Hq. by right.
Qed.

(** Looking does not change anything. *)
Lemma can_accept_eq w rest port : net_ok w rest →
  can_accept port w = Done (w, match listen_table w !! port with
                               | Some q => Ok (existsb (is_connected w) q)
                               | None => Err InvalidInput
                               end).
Proof.
  intros Hw. unfold can_accept. destruct (listen_table w !! port) as [q|] eqn:Hq; [|done].
  apply (any_connected_eq w rest); [apply Hw|]. intros h Hh. apply elem_of_app. left. by eapply queued_elem.
Qed.

Lemma can_accept_spec rest port : triple rest (can_accept port) (λ _, rest).
Proof. intros w Hw. rewrite (can_accept_eq w rest port Hw). by eexists _, _. Qed.

Lemma incoming_spec rest src dst : runs rest (incoming_tcp_packet src dst) (λ _, rest).
Proof.
  intros w Hw. unfold incoming_tcp_packet. destruct (listen_table w !! sa_port dst) as [q|] eqn:Hq; [|by eexists _, _].
  destruct (Nat.leb_spec LISTEN_QUEUE_SIZE (length q)) as [|Hlen]; [by eexists _, _|].
  destruct (tcp_sock_listen dst new_tcp_socket) as [t [[]|]]; [|by eexists _, _].
  destruct (socket_add_spec rest (TcpSock t) w Hw) as (w1 & h & Hadd & Hw1).
  assert (listen_table w1 = listen_table w) as Ht.
  { unfold socket_add in Hadd. destruct (set_add _ _). by injection Hadd as <- _. }
  unfold mbind, stm_bind. rewrite Hadd. eexists _, _. split; [done|]. rewrite Ht.
  apply (net_ok_table w1 ((h, KTcp) :: rest)); [done| |].
  - rewrite Ht, (queued_delete _ _ _ Hq), (queued_insert _ _ _ _ Hq), fmap_app. cbn.
    rewrite <- !(assoc_L (++)). f_equiv. cbn. by rewrite Permutation_middle.
  - intros port' q' [[<- <-]|[_ Hq']]%lookup_insert_Some; [rewrite length_app; simpl; lia|by apply (nk_queues _ _ Hw port')].
Qed.

Lemma snoop_spec rest p : runs rest (snoop_tcp_packet p) (λ _, rest).
Proof.
  unfold snoop_tcp_packet. pose proof (runs_ret tt (λ _, rest)) as Hret. cbv beta in Hret.
  destruct (ether_payload p); [|done]. destruct (ipv4_new_checked _) as [ip|]; [|done].
  destruct (next_header_tcp ip); [|done]. destruct (tcp_new_checked _) as [t|]; [|done]. cbv zeta.
  destruct (syn t && negb (ack t)); [|done]. apply incoming_spec.
Qed.

Lemma snoop_all_spec ps : ∀ w rest, net_ok w rest → ∃ w', snoop_all ps w = Done w' ∧ net_ok w' rest.
Proof.
  induction ps as [|p ps IH]; intros w rest Hw; cbn; [by exists w|].
  destruct (snoop_spec rest p w Hw) as (w1 & [] & -> & Hw1). by apply IH.
Qed.

Lemma poll_spec rest : runs rest poll_interfaces (λ _, rest).
Proof.
  intros w Hw. destruct (poll_interfaces_spec w (nk_card _ _ Hw)) as (w' & new & out & Hpoll & Hc & [Hrun _ _]).
  destruct Hrun as (w1 & i & s & Hsn & Heq & Hst).
  destruct (snoop_all_spec new w rest Hw) as (w1' & Hsn' & Hw1). rewrite Hsn in Hsn'. injection Hsn' as <-.
  exists w', tt. split; [done|]. rewrite Heq. destruct Hw1 as [H1 H2 H3 H4 H5]. split; cbn; try done.
  eapply accounted_kinds; [|exact H2].
  destruct (stack_run_ok _ _ (packets (card w) (rx_buf_queue w) ++ new)
    (iface_poll_law (clock w / 1000) (iface w) (sockets w1))) as [Hk _].
  rewrite Hst in Hk. exact Hk.
Qed.

(** ** Ephemeral ports *)

(** The [k]-th port that is tried. *)
Definition port_at (curr k : Z) : Z := PORT_START + (curr - PORT_START + k) mod 0x4000.

Definition port_range (p : Z) : Prop := PORT_START ≤ p ≤ PORT_END.

Lemma port_at_range curr k : port_range (port_at curr k).
Proof. unfold port_at, port_range, PORT_START, PORT_END. pose proof (Z.mod_pos_bound (curr - 0xc000 + k) 0x4000). lia. Qed.

Lemma port_at_0 curr : port_range curr → port_at curr 0 = curr.
Proof. unfold port_at, port_range, PORT_START, PORT_END. intros. rewrite Z.mod_small; lia. Qed.

Lemma port_next curr : port_range curr →
  (if curr =? PORT_END then PORT_START else wrap 16 (curr + 1)) = port_at curr 1.
Proof.
  unfold port_at, port_range, PORT_START, PORT_END. intros Hc. destruct (Z.eqb_spec curr 0xffff) as [->|].
  - done.
  - rewrite wrap_small by lia. rewrite Z.mod_small by lia. lia.
Qed.

Lemma port_at_at curr j k : port_at (port_at curr j) k = port_at curr (j + k).
Proof.
  unfold port_at. replace (PORT_START + (curr - PORT_START + j) mod 0x4000 - PORT_START + k)
    with ((curr - PORT_START + j) mod 0x4000 + k) by lia.
  rewrite Zplus_mod_idemp_l. do 2 f_equal. lia.
Qed.

(** Every port of the range is tried. *)
Lemma port_at_all curr p : port_range p → ∃ k, 0 ≤ k < 0x4000 ∧ port_at curr k = p.
Proof.
  intros Hp. exists ((p - curr) mod 0x4000). split; [by apply Z.mod_pos_bound|].
  unfold port_at. rewrite Zplus_mod_idemp_r. unfold port_range, PORT_START, PORT_END in *.
  replace (curr - 0xc000 + (p - curr)) with (p - 0xc000) by lia. rewrite Z.mod_small; lia.
Qed.

Lemma port_loop_spec fuel : ∀ tries w, port_range (tcp_curr w) → 0 ≤ tries ≤ 0x4000 →
  (Z.to_nat (0x4000 - tries) < fuel)%nat →
  (∃ k, 0 ≤ k ∧ tries + k < 0x4000 ∧ (∀ j, 0 ≤ j < k → is_Some (listen_table w !! port_at (tcp_curr w) j)) ∧
     listen_table w !! port_at (tcp_curr w) k = None ∧
     port_loop fuel tries w =
       Done (with_ports (port_at (tcp_curr w) (k + 1)) (udp_curr w) w, Ok (port_at (tcp_curr w) k))) ∨
  ((∀ j, 0 ≤ j < 0x4000 - tries → is_Some (listen_table w !! port_at (tcp_curr w) j)) ∧
   ∃ c, port_range c ∧ port_loop fuel tries w = Done (with_ports c (udp_curr w) w, Err NoMemory)).
Proof.
  induction fuel as [|fuel IH]; intros tries w Hc Ht Hf; [lia|]. cbn [port_loop].
  destruct (Z.leb_spec tries (PORT_END - PORT_START)) as [Hle|Hgt].
  2: { right. unfold PORT_END, PORT_START in Hgt. split; [lia|]. exists (tcp_curr w). split; [done|]. by destruct w. }
  unfold PORT_END, PORT_START in Hle. rewrite (port_next _ Hc). cbn [listen_table with_ports].
  case_bool_decide as Hfree.
  { left. exists 0. rewrite (port_at_0 _ Hc). split; [done|]. split; [lia|]. split; [lia|]. done. }
  assert (is_Some (listen_table w !! port_at (tcp_curr w) 0)) as H0.
  { rewrite (port_at_0 _ Hc). by destruct (listen_table w !! tcp_curr w). }
  rewrite (wrap_small 16 (tries + 1)) by lia.
  destruct (IH (tries + 1) (with_ports (port_at (tcp_curr w) 1) (udp_curr w) w)) as [(k & Hk & Htk & Hj & Hn & ->)|[Hj (c & Hcr & ->)]];
    [apply port_at_range|lia|lia|left|right]; cbn in *.
  - exists (k + 1). rewrite port_at_at in Hn. rewrite !port_at_at.
    replace (1 + k) with (k + 1) in * by lia. replace (1 + (k + 1)) with (k + 1 + 1) by lia.
    split; [lia|]. split; [lia|]. split; [|done]. intros j Hjk. destruct (decide (j = 0)) as [->|]; [done|].
    specialize (Hj (j - 1) ltac:(lia)). rewrite port_at_at in Hj. by replace (1 + (j - 1)) with j in Hj by lia.
  - split; [|by exists c]. intros j Hjk. destruct (decide (j = 0)) as [->|]; [done|].
    specialize (Hj (j - 1) ltac:(lia)). rewrite port_at_at in Hj. by replace (1 + (j - 1)) with j in Hj by lia.
Qed.

Lemma net_ok_ports w rest t u : net_ok w rest → port_range t → port_range u → net_ok (with_ports t u w) rest.
Proof. intros [H1 H2 H3 H4 H5] Ht Hu. by split. Qed.

Lemma ephemeral_spec rest : triple rest get_ephemeral_port (λ _, rest).
Proof.
  intros w Hw. destruct (nk_ports _ _ Hw) as [Ht Hu].
  destruct (port_loop_spec (Z.to_nat 0x4001) 0 w Ht) as [(k & _ & _ & _ & _ & Hr)|[_ (c & Hc & Hr)]]; [lia|lia| |];
    eexists _, _; (split; [exact Hr|]); apply net_ok_ports; try done. apply port_at_range.
Qed.

(** ** The methods of the sockets *)

Definition tcp_own (s : Tcp) : list (handle * kind) :=
  match tcp_handle s with Some h => [(h, KTcp)] | None => [] end.

Definition udp_own (s : Udp) : list (handle * kind) := [(udp_handle s, KUdp)].

(** After a method that changes the socket, or fails and does not. *)
Definition tcp_after (self : Tcp) rest (r : result AxError Tcp) : list (handle * kind) :=
  match r with Ok s => tcp_own s ++ rest | Err _ => tcp_own self ++ rest end.

Definition udp_after (self : Udp) rest (r : result AxError Udp) : list (handle * kind) :=
  match r with Ok s => udp_own s ++ rest | Err _ => udp_own self ++ rest end.

(** Polls, and then does [m]. *)
Lemma polled_spec {T} rest (m : netm T) post : triple rest m post → triple rest (_ ← poll_interfaces; m) post.
Proof. intros Hm. eapply triple_bind_runs; [apply poll_spec|]. by intros []. Qed.

(** A closure on a socket that returns a result. *)
Lemma tcp_call_spec {T} rest h (f : tcp_socket → tcp_socket * result AxError T) : (h, KTcp) ∈ rest →
  triple rest (r ← with_tcp h f; of_result r) (λ _, rest).
Proof. intros Hin. eapply triple_bind_runs; [by apply with_tcp_spec|intros; apply triple_of_result]. Qed.

Lemma udp_call_spec {T} rest h (f : udp_socket → udp_socket * result AxError T) : (h, KUdp) ∈ rest →
  triple rest (r ← with_udp h f; of_result r) (λ _, rest).
Proof. intros Hin. eapply triple_bind_runs; [by apply with_udp_spec|intros; apply triple_of_result]. Qed.

Lemma tcp_new_spec rest : runs rest tcp_new (λ s, tcp_own s ++ rest).
Proof. eapply runs_bind; [apply socket_add_spec|]. intros h w Hw. by eexists _, _. Qed.

Lemma connect_start_spec rest addr self :
  triple (tcp_own self ++ rest) (connect_start addr self) (λ _, tcp_own self ++ rest).
Proof.
  unfold connect_start, tcp_own. destruct (tcp_handle self) as [h|]; [|apply (triple_throw _ (λ _, rest))].
  eapply triple_bind; [apply ephemeral_spec| |done]. intros port.
  eapply triple_bind_runs; [apply with_tcp_iface_spec; left|]. intros r. cbv beta.
  eapply triple_bind; [apply triple_of_result| |done]. intros [l p]. apply (triple_ret _ (λ _, (h, KTcp) :: rest)).
Qed.

Lemma connect_check_spec rest h l p self : tcp_handle self = Some h →
  triple (tcp_own self ++ rest) (connect_check h l p self)
    (tcp_after self rest).
Proof.
  intros Hh. unfold connect_check. eapply triple_bind_runs.
  { apply with_tcp_ref_spec. unfold tcp_own. rewrite Hh. left. }
  intros [st may]. destruct (may || bool_decide (st = Established)).
  - by apply (triple_ret (with_endpoints l p self)
      (tcp_after self rest)).
  - destruct (bool_decide (st = SynSent));
      by apply (triple_throw _ (tcp_after self rest)).
Qed.

Lemma bind_spec rest addr self :
  triple (tcp_own self ++ rest) (bind addr self)
    (tcp_after self rest).
Proof.
  unfold bind. destruct (tcp_local self).
  { by apply (triple_throw _ (tcp_after self rest)). }
  eapply (triple_bind _ _ _ (λ _, tcp_own self ++ rest)); [| |done].
  - destruct (sa_port addr =? 0); [apply ephemeral_spec|apply (triple_ret _ (λ _, tcp_own self ++ rest))].
  - intros port. by apply (triple_ret (with_endpoints _ _ self)
      (tcp_after self rest)).
Qed.

Lemma listen_port_spec rest self :
  triple (tcp_own self ++ rest) (listen_port self)
    (λ r, match r with Ok (s, _) => tcp_own s ++ rest | Err _ => tcp_own self ++ rest end).
Proof.
  unfold listen_port. destruct (tcp_local self) as [a|].
  { by apply (triple_ret (self, sa_port a)
      (λ r, match r with Ok (s, _) => tcp_own s ++ rest | Err _ => tcp_own self ++ rest end)). }
  eapply (triple_bind _ _ _ (λ _, tcp_own self ++ rest)); [apply ephemeral_spec| |done]. intros port.
  by apply (triple_ret (with_endpoints _ _ self, port)
    (λ r, match r with Ok (s, _) => tcp_own s ++ rest | Err _ => tcp_own self ++ rest end)).
Qed.

Lemma listen_port_handle self w w' s port : listen_port self w = Done (w', Ok (s, port)) → tcp_handle s = tcp_handle self.
Proof.
  unfold listen_port. destruct (tcp_local self); [by intros [= _ -> _]|].
  unfold mbind, stm_bind. destruct (get_ephemeral_port w) as [[w1 [p|e]]|]; [|done|done]. by intros [= _ <- _].
Qed.

Lemma listen_spec rest self : runs (tcp_own self ++ rest) (listen self) (λ '(s, _), tcp_own s ++ rest).
Proof.
  unfold listen. destruct (tcp_handle self) as [h|] eqn:Hh.
  2: { by apply (runs_ret (self, Ok tt) (λ '(s, _), tcp_own s ++ rest)). }
  intros w Hw. destruct (listen_port_spec rest self w Hw) as (w1 & [[s port]|e] & Hp & Hw1); rewrite Hp; [|by eexists _, _].
  apply listen_port_handle in Hp. destruct (table_listen_spec _ port w1 Hw1) as (w2 & [[]|e] & -> & Hw2); [|by eexists _, _].
  unfold tcp_own in Hw2. rewrite Hp, Hh in Hw2.
  destruct (socket_remove_spec rest h KTcp w2 Hw2) as (w3 & [] & Hr & Hw3).
  unfold mbind, stm_bind. rewrite Hr. by eexists _, _.
Qed.

Lemma accept_attempt_spec rest self port :
  triple rest (accept_attempt self port) (λ r, match r with Ok s => tcp_own s ++ rest | Err _ => rest end).
Proof.
  intros w Hw. destruct (table_accept_spec rest port w Hw) as (w1 & [[h peer]|e] & Hr & Hw1);
    unfold accept_attempt, mbind, stm_bind; rewrite Hr; [|by eexists _, _].
  unfold get. rewrite (nk_log _ _ Hw1). by eexists _, _.
Qed.

Lemma tcp_shutdown_spec rest self : runs (tcp_own self ++ rest) (tcp_shutdown self) (λ _, tcp_own self ++ rest).
Proof.
  eapply (runs_bind _ _ _ (λ _, tcp_own self ++ rest)); [|intros; apply poll_spec]. unfold tcp_own.
  destruct (tcp_handle self) as [h|]; [apply with_tcp_spec; left|].
  destruct (tcp_local self); [apply unlisten_spec|apply (runs_ret _ (λ _, rest))].
Qed.

Lemma tcp_drop_spec rest self : runs (tcp_own self ++ rest) (tcp_drop self) (λ _, rest).
Proof.
  intros w Hw. unfold tcp_drop. destruct (tcp_shutdown_spec rest self w Hw) as (w1 & [] & -> & Hw1).
  unfold tcp_own in Hw1. destruct (tcp_handle self) as [h|]; [by apply (socket_remove_spec rest h KTcp)|by eexists _, _].
Qed.

Lemma tcp_poll_spec rest self : triple (tcp_own self ++ rest) (tcp_poll self) (λ _, tcp_own self ++ rest).
Proof.
  apply polled_spec. unfold tcp_own. destruct (tcp_handle self) as [h|].
  - by eapply runs_triple; [apply with_tcp_spec; left|].
  - destruct (tcp_local self) as [a|]; [|apply (triple_throw _ (λ _, rest))].
    eapply triple_bind; [apply can_accept_spec| |done]. intros r. apply (triple_ret _ (λ _, rest)).
Qed.

Lemma udp_new_spec rest : runs rest udp_new (λ s, udp_own s ++ rest).
Proof. eapply runs_bind; [apply socket_add_spec|]. intros h w Hw. by eexists _, _. Qed.

Lemma udp_port_spec rest : runs rest udp_get_ephemeral_port (λ _, rest).
Proof.
  intros w Hw. eexists _, _. split; [done|]. destruct (nk_ports _ _ Hw) as [Ht Hu]. apply net_ok_ports; [done|done|].
  rewrite (port_next _ Hu). apply port_at_range.
Qed.

Lemma udp_bind_spec rest addr self :
  triple (udp_own self ++ rest) (udp_bind addr self)
    (udp_after self rest).
Proof.
  eapply (triple_bind_runs _ _ _ (λ _, udp_own self ++ rest)).
  { destruct (sa_port addr =? 0); [apply udp_port_spec|apply (runs_ret _ (λ _, udp_own self ++ rest))]. }
  intros port. cbv zeta. destruct (udp_local self).
  { by apply (triple_throw _ (udp_after self rest)). }
  eapply triple_bind_runs; [apply with_udp_spec; left|]. intros r.
  eapply triple_bind; [apply triple_of_result| |done]. intros [].
  by apply (triple_ret (with_udp_addrs _ _ self)
    (udp_after self rest)).
Qed.

Lemma udp_connect_spec rest addr self :
  triple (udp_own self ++ rest) (udp_connect addr self)
    (udp_after self rest).
Proof.
  eapply (triple_bind _ _ _ (udp_after self rest)); [| |done].
  - destruct (udp_local self) as [a|].
    { by apply (triple_ret self (udp_after self rest)). }
    intros w Hw. unfold mbind, stm_bind, get. destruct (iface_ipv4_addr (iface w)); [by apply udp_bind_spec|by eexists _, _].
  - intros s. by apply (triple_ret (with_udp_addrs _ _ s)
      (udp_after self rest)).
Qed.

Lemma udp_shutdown_spec rest self : runs (udp_own self ++ rest) (udp_shutdown self) (λ _, udp_own self ++ rest).
Proof. eapply runs_bind; [apply with_udp_spec; left|intros; apply poll_spec]. Qed.

Lemma udp_drop_spec rest self : runs (udp_own self ++ rest) (udp_drop self) (λ _, rest).
Proof.
  intros w Hw. unfold udp_drop. destruct (udp_shutdown_spec rest self w Hw) as (w1 & [] & -> & Hw1).
  by apply (socket_remove_spec rest _ KUdp).
Qed.

Lemma dns_start_spec rest h name : triple ((h, KDns) :: rest) (dns_start h name) (λ _, (h, KDns) :: rest).
Proof. eapply triple_bind_runs; [apply with_dns_iface_spec; left|intros; apply triple_of_result]. Qed.

Lemma dns_attempt_spec rest h q : triple ((h, KDns) :: rest) (dns_attempt h q) (λ _, (h, KDns) :: rest).
Proof.
  eapply triple_bind_runs; [apply with_dns_iface_spec; left|]. intros r.
  eapply triple_bind; [apply triple_of_result| |done]. intros l.
  eapply triple_bind_runs; [apply poll_spec|]. intros []. apply (triple_ret _ (λ _, (h, KDns) :: rest)).
Qed.

(** ** Whole calls *)

(** A call that blocks: if what the other tasks do meanwhile keeps the
    invariant, it ends well whenever it ends. *)
Lemma block_on_spec {T} env nonblock (attempt : netm T) rest post :
  (∀ k w, net_ok w rest → net_ok (env k w) rest) → triple rest attempt post →
  post (Err WouldBlock) = rest → ∀ fuel k w, net_ok w rest → ∀ o,
  block_on env nonblock attempt fuel k w = Some o → ∃ w' r, o = Done (w', r) ∧ net_ok w' (post r).
Proof.
  intros Henv Hat Hwb. induction fuel as [|fuel IH]; intros k w Hw o; cbn [block_on]; [done|].
  destruct (polled_spec rest attempt post Hat w Hw) as (w1 & r & -> & Hw1).
  destruct r as [t|[]]; try (intros [= <-]; by eexists _, _).
  destruct nonblock; [intros [= <-]; by eexists _, _|]. apply IH, Henv. by rewrite <- Hwb.
Qed.

(** ** Histories *)

(** What the tasks hold. *)
Inductive sock :=
| ATcp (s : Tcp)
| AUdp (s : Udp)
| ADns (h : handle).

Definition sock_own (s : sock) : list (handle * kind) :=
  match s with ATcp s => tcp_own s | AUdp s => udp_own s | ADns h => [(h, KDns)] end.

(** A method called on a socket, or one round of its loop when it blocks. *)
Inductive call :=
| CConnect (addr : Addr) | CConnectRound (l p : option Addr) | CBind (addr : Addr) | CListen | CAcceptRound
| CRecvRound (n : nat) | CSendRound (buf : list Z) | CPoll | CShutdown | CNonblocking (b : bool) | CDrop
| CSendToRound (buf : list Z) (addr : Addr) | CRecvFromRound (n : nat) | CPeekFromRound (n : nat)
| CStart (name : string) | CQueryRound (q : query_handle).

(** Runs [m]; the sockets the caller has then. *)
Definition after {T} (m : netm T) (ok : T → list sock) (err : list sock) w : outcome (net I * list sock) :=
  match m w with
  | Done (w, Ok t) => Done (w, ok t)
  | Done (w, Err _) => Done (w, err)
  | Panic => Panic
  end.

Definition round {T} (m : netm T) : netm T := _ ← poll_interfaces; m.

Definition tcp_step (c : call) (s : Tcp) : net I → outcome (net I * list sock) :=
  match c with
  | CConnect addr => after (connect_start addr s) (λ _, [ATcp s]) [ATcp s]
  | CConnectRound l p =>
      match tcp_handle s with
      | Some h => after (round (connect_check h l p s)) (λ s, [ATcp s]) [ATcp s]
      | None => λ w, Done (w, [ATcp s])
      end
  | CBind addr => after (bind addr s) (λ s, [ATcp s]) [ATcp s]
  | CListen => after (listen s) (λ '(s, _), [ATcp s]) [ATcp s]
  | CAcceptRound =>
      match tcp_local s with
      | Some a => after (round (accept_attempt s (sa_port a))) (λ new, [ATcp new; ATcp s]) [ATcp s]
      | None => λ w, Done (w, [ATcp s])
      end
  | CRecvRound n =>
      match tcp_handle s with
      | Some h => after (round (recv_attempt h n)) (λ _, [ATcp s]) [ATcp s]
      | None => λ w, Done (w, [ATcp s])
      end
  | CSendRound buf =>
      match tcp_handle s with
      | Some h => after (round (send_attempt h buf)) (λ _, [ATcp s]) [ATcp s]
      | None => λ w, Done (w, [ATcp s])
      end
  | CPoll => after (tcp_poll s) (λ _, [ATcp s]) [ATcp s]
  | CShutdown => after (tcp_shutdown s) (λ _, [ATcp s]) [ATcp s]
  | CNonblocking b => λ w, Done (w, [ATcp (tcp_set_nonblocking b s)])
  | CDrop => after (tcp_drop s) (λ _, []) []
  | _ => λ w, Done (w, [ATcp s])
  end.

Definition udp_step (c : call) (s : Udp) : net I → outcome (net I * list sock) :=
  match c with
  | CConnect addr => after (udp_connect addr s) (λ s, [AUdp s]) [AUdp s]
  | CBind addr => after (udp_bind addr s) (λ s, [AUdp s]) [AUdp s]
  | CSendToRound buf addr => after (round (udp_send_attempt (udp_handle s) buf addr)) (λ _, [AUdp s]) [AUdp s]
  | CRecvFromRound n => after (round (udp_recv_attempt (udp_handle s) (recv_from_op n))) (λ _, [AUdp s]) [AUdp s]
  | CPeekFromRound n => after (round (udp_recv_attempt (udp_handle s) (peek_from_op n))) (λ _, [AUdp s]) [AUdp s]
  | CRecvRound n =>
      match udp_peer s with
      | Some a => after (round (udp_recv_attempt (udp_handle s) (recv_op a n))) (λ _, [AUdp s]) [AUdp s]
      | None => λ w, Done (w, [AUdp s])
      end
  | CPoll => after (udp_poll s) (λ _, [AUdp s]) [AUdp s]
  | CShutdown => after (udp_shutdown s) (λ _, [AUdp s]) [AUdp s]
  | CNonblocking b => λ w, Done (w, [AUdp (udp_set_nonblocking b s)])
  | CDrop => after (udp_drop s) (λ _, []) []
  | _ => λ w, Done (w, [AUdp s])
  end.

Definition dns_step (c : call) (h : handle) : net I → outcome (net I * list sock) :=
  match c with
  | CStart name => after (dns_start h name) (λ _, [ADns h]) [ADns h]
  | CQueryRound q => after (round (dns_attempt h q)) (λ _, [ADns h]) [ADns h]
  | CDrop => after (socket_remove h) (λ _, []) []
  | _ => λ w, Done (w, [ADns h])
  end.

Inductive net_op :=
| NewTcp | NewUdp | NewDns | Poll
| On (i : nat) (c : call).

(** One step of the system: a task creates a socket, or calls a method of
    the [i]-th socket there is. *)
Definition net_step (op : net_op) (s : net I * list sock) : outcome (net I * list sock) :=
  let '(w, socks) := s in
  match op with
  | NewTcp => '(w, new) ← after tcp_new (λ s, [ATcp s]) [] w; Done (w, new ++ socks)
  | NewUdp => '(w, new) ← after udp_new (λ s, [AUdp s]) [] w; Done (w, new ++ socks)
  | NewDns => '(w, new) ← after dns_new (λ h, [ADns h]) [] w; Done (w, new ++ socks)
  | Poll => '(w, _) ← after poll_interfaces (λ _, []) [] w; Done (w, socks)
  | On i c =>
      match socks !! i with
      | None => Done s
      | Some x =>
          '(w, new) ← match x with ATcp s => tcp_step c s | AUdp s => udp_step c s | ADns h => dns_step c h end w;
          Done (w, new ++ delete i socks)
      end
  end.

Fixpoint net_run (ops : list net_op) (s : net I * list sock) : outcome (net I * list sock) :=
  match ops with
  | [] => Done s
  | op :: ops => s ← net_step op s; net_run ops s
  end.

(** A step of a socket, with the sockets of the others. *)
Definition steps (x : sock) (m : net I → outcome (net I * list sock)) : Prop :=
  ∀ rest w, net_ok w (sock_own x ++ rest) →
  ∃ w' new, m w = Done (w', new) ∧ net_ok w' ((new ≫= sock_own) ++ rest).

Lemma steps_id x : steps x (λ w, Done (w, [x])).
Proof. intros rest w Hw. eexists _, _. split; [done|]. cbn. by rewrite app_nil_r. Qed.

Lemma after_steps {T} x (m : netm T) ok err post :
  (∀ rest, triple (sock_own x ++ rest) m (post rest)) →
  (∀ rest t, post rest (Ok t) = (ok t ≫= sock_own) ++ rest) →
  (∀ rest e, post rest (Err e) = (err ≫= sock_own) ++ rest) → steps x (after m ok err).
Proof.
  intros Hm Hok Herr rest w Hw. unfold after. destruct (Hm rest w Hw) as (w' & [t|e] & -> & Hw').
  - eexists _, _. split; [done|]. by rewrite <- (Hok rest t).
  - eexists _, _. split; [done|]. by rewrite <- (Herr rest e).
Qed.

(** A method that keeps the socket as it is. *)
Lemma keep_steps {T} x (m : netm T) :
  (∀ rest, triple (sock_own x ++ rest) m (λ _, sock_own x ++ rest)) → steps x (after m (λ _, [x]) [x]).
Proof. intros Hm. apply (after_steps x m _ _ (λ rest _, sock_own x ++ rest) Hm); intros; cbn; by rewrite app_nil_r. Qed.

Lemma tcp_keep {T} s h (m : netm T) : tcp_handle s = Some h →
  (∀ rest, (h, KTcp) ∈ rest → triple rest m (λ _, rest)) → steps (ATcp s) (after (round m) (λ _, [ATcp s]) [ATcp s]).
Proof.
  intros Hh Hm. apply keep_steps. intros rest. apply polled_spec, Hm. cbn. unfold tcp_own. rewrite Hh. left.
Qed.

Lemma tcp_update s (m : netm Tcp) : (∀ rest, triple (tcp_own s ++ rest) m (tcp_after s rest)) →
  steps (ATcp s) (after m (λ s, [ATcp s]) [ATcp s]).
Proof. intros Hm. apply (after_steps (ATcp s) m _ _ (tcp_after s) Hm); intros; cbn; by rewrite app_nil_r. Qed.

Lemma tcp_steps c s : steps (ATcp s) (tcp_step c s).
Proof.
  destruct c; cbn [tcp_step]; try apply steps_id.
  - apply keep_steps. intros rest. apply connect_start_spec.
  - destruct (tcp_handle s) as [h|] eqn:Hh; [|apply steps_id].
    apply tcp_update. intros rest. apply polled_spec. by apply connect_check_spec.
  - apply tcp_update. intros rest. apply bind_spec.
  - intros rest w Hw. unfold after. destruct (listen_spec rest s w Hw) as (w1 & [s' r] & -> & Hw1).
    eexists _, _. split; [done|]. cbn. by rewrite app_nil_r.
  - destruct (tcp_local s) as [a|]; [|apply steps_id].
    eapply (after_steps _ _ _ _ (λ rest r, match r with Ok n => tcp_own n | Err _ => [] end ++ tcp_own s ++ rest)).
    + intros rest. apply polled_spec. intros w Hw.
      destruct (accept_attempt_spec _ s (sa_port a) w Hw) as (w1 & r & Hr & Hw1). exists w1, r. split; [done|].
      by destruct r.
    + intros rest new. cbn. by rewrite app_nil_r, (assoc_L (++)).
    + intros rest e. cbn. by rewrite app_nil_r.
  - destruct (tcp_handle s) as [h|] eqn:Hh; [|apply steps_id].
    apply (tcp_keep s h _ Hh). intros rest Hin. by apply tcp_call_spec.
  - destruct (tcp_handle s) as [h|] eqn:Hh; [|apply steps_id].
    apply (tcp_keep s h _ Hh). intros rest Hin. by apply tcp_call_spec.
  - apply keep_steps. intros rest. apply tcp_poll_spec.
  - apply keep_steps. intros rest. by eapply runs_triple; [apply tcp_shutdown_spec|].
  - intros rest w Hw. eexists _, _. split; [done|]. cbn. by rewrite app_nil_r.
  - intros rest w Hw. unfold after. destruct (tcp_drop_spec rest s w Hw) as (w1 & [] & -> & Hw1). by eexists _, _.
Qed.

Lemma udp_update s (m : netm Udp) : (∀ rest, triple (udp_own s ++ rest) m (udp_after s rest)) →
  steps (AUdp s) (after m (λ s, [AUdp s]) [AUdp s]).
Proof. intros Hm. apply (after_steps (AUdp s) m _ _ (udp_after s) Hm); intros; done. Qed.

Lemma udp_steps c s : steps (AUdp s) (udp_step c s).
Proof.
  assert (∀ T (f : udp_socket → udp_socket * result AxError T),
    steps (AUdp s) (after (round (r ← with_udp (udp_handle s) f; of_result r)) (λ _, [AUdp s]) [AUdp s])) as Hcall.
  { intros T f. apply keep_steps. intros rest. apply polled_spec, udp_call_spec. left. }
  destruct c; cbn [udp_step]; try apply steps_id; try apply Hcall.
  - apply udp_update. intros rest. apply udp_connect_spec.
  - apply udp_update. intros rest. apply udp_bind_spec.
  - destruct (udp_peer s); [apply Hcall|apply steps_id].
  - apply keep_steps. intros rest. apply polled_spec. eapply runs_triple; [apply with_udp_spec; left|done].
  - apply keep_steps. intros rest. by eapply runs_triple; [apply udp_shutdown_spec|].
  - intros rest w Hw. eexists _, _. by split.
  - intros rest w Hw. unfold after. destruct (udp_drop_spec rest s w Hw) as (w1 & [] & -> & Hw1). by eexists _, _.
Qed.

Lemma dns_steps c h : steps (ADns h) (dns_step c h).
Proof.
  destruct c; cbn [dns_step]; try apply steps_id.
  - intros rest w Hw. unfold after. destruct (socket_remove_spec rest h KDns w Hw) as (w1 & [] & -> & Hw1). by eexists _, _.
  - apply keep_steps. intros rest. apply dns_start_spec.
  - apply keep_steps. intros rest. apply polled_spec, dns_attempt_spec.
Qed.

(** What the tasks hold and the queues of the ports are all sockets there are. *)
Definition sys_ok (s : net I * list sock) : Prop := net_ok s.1 (s.2 ≫= sock_own).

Lemma new_step {T} (m : netm T) ok w socks : runs (socks ≫= sock_own) m (λ t, (ok t ≫= sock_own) ++ (socks ≫= sock_own)) →
  sys_ok (w, socks) → ∃ s', ('(w, new) ← after m ok [] w; Done (w, new ++ socks)) = Done s' ∧ sys_ok s'.
Proof.
  intros Hm Hw. destruct (Hm w Hw) as (w1 & t & Hr & Hw1). unfold after. rewrite Hr. cbn. eexists. split; [done|].
  unfold sys_ok. cbn. by rewrite bind_app.
Qed.

Lemma net_step_ok op s : sys_ok s → ∃ s', net_step op s = Done s' ∧ sys_ok s'.
Proof.
  destruct s as [w socks]. intros Hw. destruct op as [| | | |i c]; cbn [net_step].
  - apply new_step; [|done]. intros w1 Hw1. destruct (tcp_new_spec _ w1 Hw1) as (w2 & t & Hr & Hw2).
    exists w2, t. cbn. by rewrite app_nil_r.
  - apply new_step; [|done]. intros w1 Hw1. destruct (udp_new_spec _ w1 Hw1) as (w2 & t & Hr & Hw2). by exists w2, t.
  - apply new_step; [|done]. intros w1 Hw1.
    destruct (socket_add_spec _ (DnsSock new_dns_socket) w1 Hw1) as (w2 & t & Hr & Hw2). by exists w2, t.
  - destruct (poll_spec _ w Hw) as (w1 & [] & Hr & Hw1). unfold after. rewrite Hr. by eexists.
  - destruct (socks !! i) as [x|] eqn:Hx; [|by eexists].
    assert (steps x (match x with ATcp s => tcp_step c s | AUdp s => udp_step c s | ADns h => dns_step c h end)) as Hst
      by (destruct x; [apply tcp_steps|apply udp_steps|apply dns_steps]).
    destruct (Hst (delete i socks ≫= sock_own) w) as (w1 & new & -> & Hw1).
    { eapply net_ok_perm; [|exact Hw]. cbn. by rewrite (delete_Permutation socks i x Hx) at 1. }
    cbn. eexists. split; [done|]. unfold sys_ok. cbn. by rewrite bind_app.
Qed.

Lemma net_run_ok ops : ∀ s, sys_ok s → ∃ s', net_run ops s = Done s' ∧ sys_ok s'.
Proof.
  induction ops as [|op ops IH]; intros s Hs; cbn; [by exists s|].
  destruct (net_step_ok op s Hs) as (s1 & -> & Hs1). by apply IH.
Qed.

(** The state [init] builds. *)
Lemma net_init_ok d now : new_queue d = Some 0 → (QS < 128)%nat →
  (∀ mac, ∃ i i', iface_push_ip (ip_v4 10 0 2 15) 24 (iface_new mac RANDOM_SEED) = Some i ∧
     iface_default_route (ip_v4 10 0 2 2) i = Some i') →
  ∃ w, net_init d QS now false = Done w ∧ net_ok w [] ∧ listen_table w = ∅.
Proof.
  intros Hfr HQ Hi. unfold net_init.
  destruct (net_pool_new NET_BUF_POOL_SIZE NET_BUF_LEN) as [[p|]|] eqn:Hp; [|done|done]. cbn [mbind outcome_bind].
  destruct (nic_ok_new (QS := QS) _ _ p d Hp) as (Hn & Hc & Hl); [done|done|done|].
  change (Z.to_nat NET_BUF_POOL_SIZE) with 128%nat in Hl.
  destruct (fill_rx_buffers_spec _ Hn) as (c & Hfill & Hn' & _ & Hrx & Hfl); [done|apply rx_bufs_new|cbn [net_pool]; lia|].
  unfold unwrap_dev. rewrite Hfill. cbn [mbind outcome_bind].
  destruct (Hi (mac_address (inner (net_dev c)))) as (i & i' & -> & Hi'). cbn [mbind outcome_bind unwrap]. rewrite Hi'.
  eexists. split; [done|]. split; [|done]. split; cbn; try done.
  - split; [done|rewrite Hrx; simpl; lia|]. intros Hnil. rewrite Hnil in Hfl. cbn [net_pool length] in Hfl. lia.
  - split; [apply NoDup_nil_2|]. intros h k. rewrite lookup_new. cbn. by rewrite elem_of_nil.
Qed.


(** ** Ephemeral ports and connections *)

(** [get_ephemeral_port] ends, and gives the first port of 0xc000 to 0xffff
    after the last one it gave, in the order of a ring, on which nobody
    listens; it reports [NoMemory] exactly when all of them are listened on. *)
Theorem ephemeral_port_free w : port_range (tcp_curr w) →
  ∃ w', (∃ port, get_ephemeral_port w = Done (w', Ok port) ∧ port_range port ∧ listen_table w !! port = None ∧
           ∃ k, 0 ≤ k < 0x4000 ∧ port = port_at (tcp_curr w) k ∧ tcp_curr w' = port_at port 1 ∧
             ∀ j, 0 ≤ j < k → is_Some (listen_table w !! port_at (tcp_curr w) j)) ∨
        (get_ephemeral_port w = Done (w', Err NoMemory) ∧
           ∀ port, port_range port → is_Some (listen_table w !! port)).
Proof.
  intros Hc. destruct (port_loop_spec (Z.to_nat 0x4001) 0 w Hc) as [(k & Hk & Hk' & Hj & Hn & Hr)|[Hj (c & _ & Hr)]]; [lia|lia| |].
  - eexists. left. exists (port_at (tcp_curr w) k). split; [exact Hr|]. split; [apply port_at_range|]. split; [done|].
    exists k. split; [lia|]. split; [done|]. split; [|done]. cbn. by rewrite port_at_at.
  - eexists. right. split; [exact Hr|]. intros port Hp. destruct (port_at_all (tcp_curr w) port Hp) as (k & Hk & <-).
    apply Hj. lia.
Qed.

(** The first [n] rounds of [accept] on a port find no connection, what the
    others do in between is [env]; the round after them finds, in the state
    [w1], the connection [h] first in the queue [q], at [i]. *)
Fixpoint connects (env : nat → net I → net I) (port : Z) (n k : nat) w w1 (q : list handle) (i : nat) h : Prop :=
  match n with
  | O => poll_interfaces w = Done (w1, Ok tt) ∧ listen_table w1 !! port = Some q ∧ first_connected w1 q = Some (i, h)
  | S n => ∃ w2 q2, poll_interfaces w = Done (w2, Ok tt) ∧ listen_table w2 !! port = Some q2 ∧
             first_connected w2 q2 = None ∧ connects env port n (S k) (env k w2) w1 q i h
  end.

Lemma accept_loop env self port rest n : ∀ k w w1 q i h fuel,
  (∀ k w, net_ok w rest → net_ok (env k w) rest) → net_ok w rest →
  connects env port n k w w1 q i h → (n < fuel)%nat →
  block_on env false (accept_attempt self port) fuel k w =
    Some (Done (with_table (<[port := delete i q]> (listen_table w1)) w1,
      Ok {| tcp_handle := Some h; tcp_local := tcp_local self; tcp_peer := peer_of w1 h; tcp_nonblock := false |})).
Proof.
  induction n as [|n IH]; intros k w w1 q i h fuel Henv Hw Hc Hf; (destruct fuel as [|fuel]; [lia|]); cbn [block_on connects] in *;
    destruct (poll_spec rest w Hw) as (w' & [] & Hp & Hw'); unfold mbind at 1, stm_bind at 1; rewrite Hp.
  - destruct Hc as (Hp1 & Hq & Hfc). rewrite Hp in Hp1. injection Hp1 as ->.
    unfold accept_attempt, mbind, stm_bind. rewrite (table_accept_eq w1 rest port q (nk_sockets _ _ Hw') Hq), Hfc.
    unfold get. cbn [log_debug with_table]. rewrite (nk_log _ _ Hw'). done.
  - destruct Hc as (w2 & q2 & Hp2 & Hq & Hfc & Hc). rewrite Hp in Hp2. injection Hp2 as ->.
    unfold accept_attempt at 1, mbind, stm_bind. rewrite (table_accept_eq w2 rest port q2 (nk_sockets _ _ Hw') Hq), Hfc.
    apply IH; [done|by apply Henv|done|lia].
Qed.

(** [accept] on a socket that listens, when a connection comes. *)
Lemma accept_eq env self a rest n fuel w w1 q i h :
  (∀ k w, net_ok w rest → net_ok (env k w) rest) → net_ok w rest →
  tcp_handle self = None → tcp_local self = Some a → tcp_nonblock self = false →
  connects env (sa_port a) n 0 w w1 q i h → (n < fuel)%nat →
  accept env fuel self w =
    Some (Done (with_table (<[sa_port a := delete i q]> (listen_table w1)) w1,
      Ok {| tcp_handle := Some h; tcp_local := Some a; tcp_peer := peer_of w1 h; tcp_nonblock := false |})).
Proof.
  intros Henv Hw Hh Ha Hnb Hc Hf. unfold accept, is_listening. rewrite Hh, Ha. cbn. rewrite Hnb, <- Ha.
  by apply (accept_loop _ _ _ rest n).
Qed.

(** A blocking [accept] returns as soon as a connection is there: in the
    first round in which a socket of the queue of the port is connected, it
    takes the first such socket out of the queue, leaves the others in their
    order, and returns it with the address of the peer. *)
Theorem accept_returns env self a rest n fuel w w1 q i h :
  (∀ k w, net_ok w rest → net_ok (env k w) rest) → net_ok w rest →
  tcp_handle self = None → tcp_local self = Some a → tcp_nonblock self = false →
  connects env (sa_port a) n 0 w w1 q i h → (n < fuel)%nat →
  q !! i = Some h ∧ is_connected w1 h ∧
  accept env fuel self w =
    Some (Done (with_table (<[sa_port a := delete i q]> (listen_table w1)) w1,
      Ok {| tcp_handle := Some h; tcp_local := Some a; tcp_peer := peer_of w1 h; tcp_nonblock := false |})).
Proof.
  intros Henv Hw Hh Ha Hnb Hc Hf. assert (first_connected w1 q = Some (i, h)) as Hfc.
  { clear -Hc. revert Hc. generalize 0%nat as k. revert w. induction n as [|n IH]; intros w k; cbn; [naive_solver|].
    intros (w2 & q2 & _ & _ & _ & Hc). by eapply IH. }
  apply list_find_Some in Hfc as (Hi & Hconn & _). split; [done|]. split; [done|].
  by apply (accept_eq _ _ _ rest n).
Qed.

(** ** Two defects *)

(** A connection that the peer has reset counts as connected, but has no
    peer: with messages of level debug on, the message about it panics. *)
Theorem accept_panics_on_reset w rest self port q i h :
  accounted (queued (listen_table w) ++ rest) (sockets w) → log_debug w = true →
  listen_table w !! port = Some q → first_connected w q = Some (i, h) → peer_of w h = None →
  accept_attempt self port w = Panic.
Proof.
  intros Ha Hlog Hq Hf Hp. unfold accept_attempt, mbind, stm_bind. rewrite (table_accept_eq w rest port q Ha Hq), Hf, Hp.
  unfold get. cbn [log_debug with_table]. by rewrite Hlog.
Qed.

Lemma snoop_closed p port w w' r : snoop_tcp_packet p w = Done (w', r) →
  listen_table w !! port = None → listen_table w' !! port = None.
Proof.
  unfold snoop_tcp_packet. destruct (ether_payload p); [|by intros [= <- _]].
  destruct (ipv4_new_checked _) as [ip|]; [|by intros [= <- _]]. destruct (next_header_tcp ip); [|by intros [= <- _]].
  destruct (tcp_new_checked _) as [t|]; [|by intros [= <- _]]. cbv zeta.
  destruct (syn t && negb (ack t)); [|by intros [= <- _]]. unfold incoming_tcp_packet. cbn [sa_port].
  destruct (listen_table w !! dst_port t) as [hs|] eqn:Hd; [|by intros [= <- _]].
  destruct (LISTEN_QUEUE_SIZE <=? length hs)%nat; [by intros [= <- _]|].
  destruct (tcp_sock_listen _ _) as [t' [[]|]]; [|by intros [= <- _]].
  unfold mbind, stm_bind, socket_add. destruct (set_add _ _) as [s h]. intros [= <- _] Hn. cbn.
  rewrite lookup_insert_ne; [done|]. intros Heq. by rewrite Heq, Hn in Hd.
Qed.

Lemma snoop_all_closed ps port : ∀ w w', snoop_all ps w = Done w' →
  listen_table w !! port = None → listen_table w' !! port = None.
Proof.
  induction ps as [|p ps IH]; intros w w'; cbn; [by intros [= ->]|].
  destruct (snoop_tcp_packet p w) as [[w1 r]|] eqn:Hs; [|done]. intros Hr Hn.
  apply (IH w1 w' Hr). by eapply snoop_closed.
Qed.

(** Dropping a socket that has listened closes its port, also when it was
    shut down before and another socket listens there now. *)
Theorem drop_closes_port w rest self a : net_ok w rest → tcp_handle self = None → tcp_local self = Some a →
  ∃ w', tcp_drop self w = Done (w', Ok tt) ∧ listen_table w' !! sa_port a = None.
Proof.
  intros Hw Hh Ha. unfold tcp_drop, tcp_shutdown. rewrite Hh, Ha. unfold mbind, stm_bind.
  destruct (unlisten_spec rest (sa_port a) w Hw) as (w1 & [] & Hu & Hw1). rewrite Hu.
  destruct (poll_interfaces_spec w1 (nk_card _ _ Hw1)) as (w2 & new & out & Hp & _ & [(w3 & i & s & Hsn & Heq & _) _ _]).
  rewrite Hp. eexists. split; [done|]. rewrite Heq. cbn. eapply snoop_all_closed; [exact Hsn|].
  clear -Hu. unfold unlisten in Hu. destruct (listen_table w !! sa_port a) as [q|] eqn:Hq; [|by injection Hu as <-].
  assert (∀ hs w w', remove_all hs w = Done (w', Ok tt) → listen_table w' = listen_table w) as Hrem.
  { induction hs as [|h hs IH]; cbn; [by intros ? ? [= ->]|]. intros w2 w3. unfold mbind, stm_bind, socket_remove.
    destruct (set_lookup _ h); [|done]. intros Hr. by rewrite (IH _ _ Hr). }
  rewrite (Hrem _ _ _ Hu). apply lookup_delete_eq.
Qed.

End sockets.
