(* ===== verification/AxNetExample.v ===== *)
(** * A device and a stack that satisfy the laws

    [wire] is a network card with a queue of four receive requests and a list
    of packets that arrive; [toy] is a stack whose sockets become connected
    when a connection request for their port is processed, and which answers
    each packet.  They show that the assumptions on the two crates can hold,
    and carry the examples. *)

From S2P Require Import Prelude AxErrno BlockDev NetBuf NetBufSpec AxNet AxNetSpec AxSocketSpec.
From stdpp Require Import base numbers gmap list strings.

Open Scope Z_scope.

(** ** The card *)

Record wire := {
  wi_posted : gmap Z (Z * Z);
  wi_arriving : list (list Z);
  wi_received : list (list Z);
  wi_sent : list (list Z);
}.

Definition tokens : list Z := Z.of_nat <$> seq 0 4.

Definition toy_hdr : list Z := replicate 12 0.

(** The request [t] can take the next packet. *)
Definition wi_ready (i : wire) (t : Z) : option (list Z) :=
  match wi_arriving i, wi_posted i !! t with
  | p :: _, Some (_, l) => if 12 + len p <=? l then Some p else None
  | _, _ => None
  end.

Definition free_token (i : wire) : option Z := snd <$> list_find (λ t, wi_posted i !! t = None) tokens.

Definition ready_token (i : wire) : option Z := snd <$> list_find (λ t, is_Some (wi_ready i t)) tokens.

Definition wi_begin (a l : Z) (i : wire) : wire * result virtio_error Z :=
  match free_token i with
  | Some t => ({| wi_posted := <[t := (a, l)]> (wi_posted i); wi_arriving := wi_arriving i;
                  wi_received := wi_received i; wi_sent := wi_sent i |}, Ok t)
  | None => (i, Err QueueFull)
  end.

Definition wi_complete (t : Z) (bytes : list Z) (i : wire) : wire * list Z * result virtio_error (Z * Z) :=
  match wi_ready i t with
  | Some p => ({| wi_posted := delete t (wi_posted i); wi_arriving := tail (wi_arriving i);
                  wi_received := wi_received i ++ [p]; wi_sent := wi_sent i |},
               splice bytes 0 (toy_hdr ++ p), Ok (12, len p))
  | None => (i, bytes, Err NotReady)
  end.

#[global] Instance wire_raw : VirtIONetRaw wire := {|
  mac_address _ := [82; 84; 0; 18; 52; 86];
  receive_begin := wi_begin;
  poll_receive i := (i, ready_token i);
  receive_complete := wi_complete;
  fill_buffer_header _ bytes :=
    if len toy_hdr <=? len bytes then (splice bytes 0 toy_hdr, Ok (len toy_hdr)) else (bytes, Err VirtioInvalidParam);
  transmit_wait bytes i :=
    ({| wi_posted := wi_posted i; wi_arriving := wi_arriving i; wi_received := wi_received i;
        wi_sent := wi_sent i ++ [bytes] |}, Ok tt);
|}.

(** The requests are those of the first tokens, as many as this says. *)
Definition wi_new (i : wire) : option Z :=
  match free_token i with
  | Some k => if decide (map_Forall (λ t _, t < k) (wi_posted i)) then Some k else None
  | None => Some 4
  end.

Lemma elem_of_tokens t : t ∈ tokens ↔ 0 ≤ t < 4.
Proof.
  unfold tokens. rewrite list_elem_of_fmap. split; [intros (n & -> & Hn%elem_of_seq); lia|].
  intros Ht. exists (Z.to_nat t). rewrite elem_of_seq. lia.
Qed.

Lemma free_token_Some i t : free_token i = Some t → 0 ≤ t < 4 ∧ wi_posted i !! t = None.
Proof.
  unfold free_token. intros ([n t'] & Hf & ->)%fmap_Some. apply list_find_Some in Hf as (Hn & Hp & _). cbn.
  split; [|done]. apply elem_of_tokens. by eapply list_elem_of_lookup_2.
Qed.

Lemma free_token_None i t : free_token i = None → 0 ≤ t < 4 → is_Some (wi_posted i !! t).
Proof.
  unfold free_token. intros Hn Ht. destruct (list_find _ tokens) eqn:Hf; [done|].
  apply list_find_None in Hf. rewrite Forall_forall in Hf. apply not_eq_None_Some, Hf. by apply elem_of_tokens.
Qed.

(** The first free token is the least one. *)
Lemma free_token_least i k t : free_token i = Some k → 0 ≤ t < k → is_Some (wi_posted i !! t).
Proof.
  unfold free_token. intros ([n k'] & Hf & ->)%fmap_Some Ht. cbn in Ht. apply list_find_Some in Hf as (Hn & _ & Hmin).
  unfold tokens in Hn. rewrite list_lookup_fmap in Hn. apply fmap_Some in Hn as (m & Hm & ->). apply lookup_seq in Hm as [-> Hm].
  apply not_eq_None_Some. apply (Hmin (Z.to_nat t) t); [|lia].
  unfold tokens. rewrite list_lookup_fmap, lookup_seq_lt by lia. cbn. f_equal. lia.
Qed.

#[global] Instance wire_laws : VirtIONetLaws wire 4.
Proof.
  refine {| posted i t := if decide (0 ≤ t < 4) then wi_posted i !! t else None;
            ready i t := if decide (0 ≤ t < 4) then wi_ready i t else None;
            new_queue := wi_new; received := wi_received; sent := wi_sent; net_hdr := toy_hdr |}.
  - done.
  - intros i a l t0 Ht0 Hn. rewrite decide_True in Hn by lia.
    cbn [receive_begin wire_raw]. unfold wi_begin. destruct (free_token i) as [t|] eqn:Hf.
    2: { pose proof (free_token_None _ t0 Hf ltac:(lia)) as [? Hs]. by rewrite Hs in Hn. }
    apply free_token_Some in Hf as [Ht Hnt]. eexists _, t. split; [done|]. split; [lia|]. split; [by rewrite decide_True by lia|].
    split; [|done]. intros u. cbn. destruct (decide (u = t)) as [->|Hu].
    + rewrite decide_True by done. by rewrite lookup_insert_eq.
    + case_decide; [|done]. by rewrite lookup_insert_ne.
  - intros i k t Hk Hkt. case_decide; [|done]. unfold wi_new in Hk. destruct (free_token i); [|injection Hk as <-; lia].
    case_decide as Hall; [|done]. injection Hk as <-. destruct (wi_posted i !! t) as [x|] eqn:Hx; [|done].
    apply Hall in Hx. lia.
  - intros i i' a l k t Hk Hb. unfold wi_new in Hk.
    cbn [receive_begin wire_raw] in Hb. unfold wi_begin in Hb. destruct (free_token i) as [k'|] eqn:Hf; [|done].
    case_decide as Hall; [|done]. injection Hk as ->. injection Hb as <- <-. split; [done|].
    set (i' := Build_wire _ _ _ _). unfold wi_new. pose proof (free_token_Some _ _ Hf) as [Hr _].
    assert (∀ t, 0 ≤ t < k + 1 → is_Some (wi_posted i' !! t)) as Hlow.
    { intros t Ht. cbn. destruct (decide (t = k)) as [->|]; [by rewrite lookup_insert_eq|].
      rewrite lookup_insert_ne by lia. apply (free_token_least _ _ _ Hf). lia. }
    assert (map_Forall (λ t _, t < k + 1) (wi_posted i')) as Hall'.
    { intros t x. cbn. intros [[<- _]|[_ Hx]]%lookup_insert_Some; [lia|]. apply Hall in Hx. lia. }
    destruct (free_token i') as [k'|] eqn:Hf'.
    + pose proof (free_token_Some _ _ Hf') as [Hr' Hn']. assert (k' = k + 1) as ->; [|by rewrite decide_True].
      destruct (decide (k' < k + 1)); [destruct (Hlow k') as [? Hs]; [lia|by rewrite Hs in Hn']|].
      destruct (decide (k + 1 < k')); [|lia]. destruct (free_token_least _ _ (k + 1) Hf') as [x Hx]; [lia|].
      apply Hall' in Hx. lia.
    + destruct (decide (k + 1 < 4)); [|f_equal; lia]. destruct (free_token_None _ (k + 1) Hf') as [x Hx]; [lia|].
      apply Hall' in Hx. lia.
  - intros i i' r. cbn [poll_receive wire_raw]. intros [= <- <-]. split; [done|]. split; [done|]. split; [done|].
    intros t Ht. unfold ready_token in Ht. apply fmap_Some in Ht as ([n t'] & Hf & ->). cbn [snd]. apply list_find_Some in Hf as (Hn & Hp & _).
    apply list_elem_of_lookup_2, elem_of_tokens in Hn. split; [lia|]. rewrite !decide_True by lia. split; [|done].
    destruct Hp as [p Hp]. unfold wi_ready in Hp. destruct (wi_arriving i); [done|]. by destruct (wi_posted i !! t').
  - intros i t a l bytes pkt Hp Hr Hl. case_decide as Ht; [|done].
    cbn [receive_complete wire_raw]. unfold wi_complete. rewrite Hr. unfold wi_ready in Hr. rewrite Hp in Hr.
    destruct (wi_arriving i) as [|p ps]; [done|]. destruct (Z.leb_spec (12 + len p) l) as [Hfit|]; [|done]. injection Hr as ->.
    assert (len (toy_hdr ++ pkt) = 12 + len pkt) as Hlen by (rewrite length_app; unfold toy_hdr; rewrite length_replicate; lia).
    eexists _, _, 12, (len pkt). split; [done|]. split; [lia|]. split; [lia|]. split; [lia|].
    cbn [wi_received wi_sent wi_posted].
    split; [by rewrite length_splice by lia|]. split; [|split; [|done]].
    + change 12 with (0 + 12). rewrite bytes_from_splice by lia. unfold bytes_from, toy_hdr.
      change (Z.to_nat 12) with (length (replicate 12 0)). rewrite drop_app_length, Nat2Z.id. by rewrite firstn_all.
    + intros u. destruct (decide (u = t)) as [->|]; [by rewrite decide_True, lookup_delete_eq by done|].
      case_decide; [|done]. by rewrite lookup_delete_ne.
  - intros i bytes Hl. cbn [fill_buffer_header wire_raw]. destruct (Z.leb_spec (len toy_hdr) (len bytes)); [done|lia].
  - intros i bytes. by eexists.
Defined.

(** ** The stack *)

Record toy_tcp := {
  tt_state : State;
  tt_local : option (SocketAddr Z);
  tt_remote : option (SocketAddr Z);
  tt_in : list Z;
}.

Definition toy_socket : Type := any_socket toy_tcp (option (SocketAddr Z)) unit.

(** A frame is a 1, the addresses, a 6 for TCP, the ports and the flags. *)
Definition toy_ipv4 (b : list Z) : option (Ipv4Packet Z) :=
  match b with
  | src :: dst :: proto :: payload =>
      Some {| next_header_tcp := proto =? 6; ip_src := src; ip_dst := dst; ip_payload := payload |}
  | _ => None
  end.

Definition toy_tcp_packet (b : list Z) : option TcpPacket :=
  match b with
  | s :: d :: flags :: _ => Some {| src_port := s; dst_port := d; syn := Z.testbit flags 0; ack := Z.testbit flags 1 |}
  | _ => None
  end.

(** A request connects the first socket that listens on the port; a packet
    with other flags resets the connection. *)
Fixpoint toy_deliver (src : SocketAddr Z) (port : Z) (flags : Z) (l : list (option toy_socket)) : list (option toy_socket) :=
  match l with
  | [] => []
  | o :: l =>
      match o with
      | Some (TcpSock t) =>
          if bool_decide (tt_state t = Listen) && bool_decide (sa_port <$> tt_local t = Some port) && (flags =? 1) then
            Some (TcpSock {| tt_state := Established; tt_local := tt_local t; tt_remote := Some src; tt_in := [] |}) :: l
          else if bool_decide (tt_remote t = Some src) && negb (flags =? 1) then
            Some (TcpSock {| tt_state := Closed; tt_local := tt_local t; tt_remote := None; tt_in := [] |}) :: l
          else o :: toy_deliver src port flags l
      | _ => o :: toy_deliver src port flags l
      end
  end.

Definition toy_process (b : list Z) (l : list (option toy_socket)) : list (option toy_socket) :=
  match b with
  | [1; src; _; 6; sport; dport; flags] => toy_deliver (SockAddr src sport) dport flags l
  | _ => l
  end.

Fixpoint toy_poll (n : nat) (l : list (option toy_socket)) : iface_prog (unit * list (option toy_socket)) :=
  match n with
  | O => IDone (tt, l)
  | S n => IReceive (IDone (tt, l)) (λ b, Some [1; 1; 1; 0]) (λ b, toy_poll n (toy_process b l))
  end.

Definition toy_lookup (l : list (option toy_socket)) (h : nat) : option toy_socket := mjoin (l !! h).

#[global] Instance toy : Smoltcp := {|
  ip_addr := Z;
  ip_v4 a b c d := ((a * 256 + b) * 256 + c) * 256 + d;
  handle := nat;
  tcp_socket := toy_tcp;
  udp_socket := option (SocketAddr Z);
  dns_socket := unit;
  query_handle := unit;
  interface := unit;
  socket_set := list (option toy_socket);
  set_new := [];
  set_add s l := (l ++ [Some s], length l);
  set_lookup := toy_lookup;
  set_replace h s l := <[h := Some s]> l;
  set_remove h l := <[h := None]> l;
  tcp_socket_new _ _ := {| tt_state := Closed; tt_local := None; tt_remote := None; tt_in := [] |};
  tcp_state := tt_state;
  tcp_local_endpoint := tt_local;
  tcp_remote_endpoint := tt_remote;
  tcp_is_open t := bool_decide (tt_state t ≠ Closed);
  tcp_may_recv t := bool_decide (tt_state t = Established);
  tcp_can_recv t := bool_decide (tt_in t ≠ []);
  tcp_may_send t := bool_decide (tt_state t = Established);
  tcp_can_send t := bool_decide (tt_state t = Established);
  tcp_sock_listen a t :=
    ({| tt_state := Listen; tt_local := Some a; tt_remote := None; tt_in := [] |}, Ok tt);
  tcp_sock_connect i a p t :=
    (i, {| tt_state := SynSent; tt_local := Some (SockAddr 0 p); tt_remote := Some a; tt_in := [] |}, Ok tt);
  tcp_close t := {| tt_state := Closed; tt_local := tt_local t; tt_remote := None; tt_in := [] |};
  tcp_recv_slice n t :=
    ({| tt_state := tt_state t; tt_local := tt_local t; tt_remote := tt_remote t; tt_in := drop n (tt_in t) |},
     Ok (take n (tt_in t)));
  tcp_send_slice b t := (t, Ok (len b));
  udp_socket_new _ _ _ _ := None;
  udp_is_open u := bool_decide (u ≠ None);
  udp_can_recv _ := false;
  udp_can_send _ := true;
  udp_sock_bind a u := match u with None => (Some a, Ok tt) | Some _ => (u, Err BindInvalidState) end;
  udp_send_slice _ _ u := (u, Ok tt);
  udp_recv_slice _ u := (u, Err tt);
  udp_peek_slice _ u := (u, Err tt);
  udp_close _ := None;
  dns_socket_new _ := tt;
  dns_start_query i _ d := (i, d, Ok tt);
  dns_get_query_result _ d := (d, Ok []);
  iface_new _ _ := tt;
  iface_push_ip _ _ i := Some i;
  iface_default_route _ i := Some i;
  iface_ipv4_addr _ := Some 0;
  iface_poll _ _ l := toy_poll 64 l;
  ether_payload b := match b with 1 :: b => Some b | _ => None end;
  ipv4_new_checked := toy_ipv4;
  tcp_new_checked := toy_tcp_packet;
|}.

Lemma toy_deliver_kinds src port flags l : ∀ h,
  kind_of <$> toy_lookup (toy_deliver src port flags l) h = kind_of <$> toy_lookup l h.
Proof.
  induction l as [|o l IH]; intros h; [done|]. cbn [toy_deliver].
  destruct o as [[t|u|d]|]; [|by destruct h as [|h]; [|apply IH]..].
  destruct (_ && _); [by destruct h|]. destruct (_ && _); [by destruct h|].
  destruct h as [|h]; [done|apply IH].
Qed.

Lemma toy_process_kinds b l h : kind_of <$> toy_lookup (toy_process b l) h = kind_of <$> toy_lookup l h.
Proof. unfold toy_process. repeat case_match; try done; apply toy_deliver_kinds. Qed.

#[global] Instance toy_laws : SmoltcpLaws.
Proof.
  split.
  - done.
  - intros s l l' h [= _ <-]. cbn. unfold toy_lookup. by rewrite lookup_ge_None_2.
  - intros s l l' h h' [= <- <-]. cbn. unfold toy_lookup. case_decide as Hh.
    + subst h'. by rewrite list_lookup_middle.
    + destruct (decide (h' < length l)%nat); [by rewrite lookup_app_l|].
      rewrite !lookup_ge_None_2; [done|lia|]. rewrite length_app. cbn. lia.
  - intros h s l h' [x Hx]. cbn in *. unfold toy_lookup in *. case_decide as Hh; [|by rewrite list_lookup_insert_ne].
    subst h'. rewrite list_lookup_insert_eq; [done|]. destruct (l !! h) eqn:Hl; [by eapply lookup_lt_Some|done].
  - intros h l h' [x Hx]. cbn in *. unfold toy_lookup in *. case_decide as Hh; [|by rewrite list_lookup_insert_ne].
    subst h'. rewrite list_lookup_insert_eq; [done|]. destruct (l !! h) eqn:Hl; [by eapply lookup_lt_Some|done].
  - intros t i l. cbn [iface_poll toy].
    assert (∀ n l', (∀ h, kind_of <$> toy_lookup l' h = kind_of <$> toy_lookup l h) →
      prog_ok (λ r : unit * list (option toy_socket), ∀ h, kind_of <$> toy_lookup r.2 h = kind_of <$> toy_lookup l h)
        (toy_poll n l')) as Hpoll; [|by apply Hpoll].
    induction n as [|n IH]; intros l' Hl'; cbn [toy_poll prog_ok]; [done|]. split; [done|].
    intros b. split; [by intros frame [= <-]|]. apply IH. intros h. by rewrite toy_process_kinds.
Qed.

(** ** Examples *)

Definition syn80 : list Z := [1; 7; 9; 6; 1000; 80; 1].
Definition rst80 : list Z := [1; 7; 9; 6; 1000; 80; 4].

Definition card_with (ps : list (list Z)) : wire :=
  {| wi_posted := ∅; wi_arriving := ps; wi_received := []; wi_sent := [] |}.

Lemma toy_iface_ok mac : ∃ i i', iface_push_ip (ip_v4 10 0 2 15) 24 (iface_new mac RANDOM_SEED) = Some i ∧
  iface_default_route (ip_v4 10 0 2 2) i = Some i'.
Proof. by exists tt, tt. Qed.

Definition boot (ps : list (list Z)) : outcome (net wire) := net_init (card_with ps) 4 0 false.


Lemma boot_ok ps : ∃ w, boot ps = Done w ∧ net_ok w [].
Proof.
  destruct (net_init_ok (card_with ps) 0) as (w & Hi & Hw & _); [vm_compute; reflexivity|lia|apply toy_iface_ok|].
  exists w. split; [|exact Hw]. unfold boot. exact Hi.
Qed.

#[local] Opaque boot.

(** A socket listens on port 80, and a connection request is on its way: the
    state, the socket, and the state after one poll. *)
Definition listen_ops : list net_op := [NewTcp; On 0 (CBind (SockAddr 9 80)); On 0 CListen].

Definition one_socket (r : outcome (net wire * list sock)) :=
  match r with Done (w, [ATcp s]) => Some (w, s) | _ => None end.

(** Runs [f] on the booted system. *)
Definition on_boot {T} (o : outcome (net wire)) (f : net wire → option T) : option T :=
  match o with Done w => f w | Panic => None end.

Definition poll_once (w : net wire) : option (net wire) :=
  match poll_interfaces w with Done (w1, Ok _) => Some w1 | _ => None end.

Definition listen_then_poll (w0 : net wire) :=
  match one_socket (net_run listen_ops (w0, [])) with
  | Some (w, s) => (λ w1, (w, s, w1)) <$> poll_once w
  | None => None
  end.

Definition listening := on_boot (boot [syn80]) listen_then_poll.

Definition listening_check (r : option (net wire * TcpSocket handle ip_addr * net wire)) : bool :=
  match r with
  | Some (w, s, w1) =>
      bool_decide (tcp_handle s = None) && bool_decide (tcp_local s = Some (SockAddr 9 80)) &&
      bool_decide (tcp_nonblock s = false) && bool_decide (listen_table w1 !! 80 = Some [1%nat]) &&
      bool_decide (first_connected w1 [1%nat] = Some (0%nat, 1%nat)) &&
      bool_decide (peer_of w1 1%nat = Some (SockAddr 7 1000))
  | None => false
  end.

Lemma listening_ok : ∃ w s w1, net_ok w (tcp_own s) ∧ poll_interfaces w = Done (w1, Ok tt) ∧
  tcp_handle s = None ∧ tcp_local s = Some (SockAddr 9 80) ∧ tcp_nonblock s = false ∧
  listen_table w1 !! 80 = Some [1%nat] ∧ first_connected w1 [1%nat] = Some (0%nat, 1%nat) ∧
  peer_of w1 1%nat = Some (SockAddr 7 1000).
Proof.
  assert (listening_check listening = true) as Hc by (vm_compute; reflexivity).
  destruct listening as [[[w s] w1]|] eqn:Hl; [|discriminate Hc]. unfold listening_check in Hc. unfold listening, on_boot in Hl.
  destruct (boot_ok [syn80]) as (w0 & Hb & Hw0). rewrite Hb in Hl. unfold listen_then_poll in Hl.
  destruct (net_run_ok listen_ops (w0, []) Hw0) as ([w' socks] & Hr & Hok). rewrite Hr in Hl.
  destruct socks as [|[s'| |] [|? ?]]; try discriminate Hl. cbn [one_socket] in Hl. unfold poll_once in Hl.
  destruct (poll_interfaces w') as [[w1' [[]|]]|] eqn:Hp; try discriminate Hl.
  injection Hl as -> -> ->. exists w, s, w1. split.
  { unfold sys_ok in Hok. cbn [fst snd] in Hok. change ([ATcp s] ≫= sock_own) with (tcp_own s ++ []) in Hok.
    rewrite app_nil_r in Hok. exact Hok. }
  split; [exact Hp|]. clear Hp. bool_to_prop. repeat match goal with H : bool_decide _ = true |- _ => apply bool_decide_eq_true in H end.
  split_and!; assumption.
Qed.

Lemma interface_poll_refines_witness : ∃ w w' new out, net_ok w [] ∧ poll_interfaces w = Done (w', Ok tt) ∧
  received (inner (net_dev (card w'))) = received (inner (net_dev (card w))) ++ new ∧
  sent (inner (net_dev (card w'))) = sent (inner (net_dev (card w))) ++ (app net_hdr <$> out).
Proof.
  destruct (boot_ok [syn80]) as (w & _ & Hw).
  destruct (interface_poll_refines w (nk_card _ _ Hw)) as (w' & new & out & Hp & _ & _ & Hr & Hs).
  exists w, w', new, out. exact (conj Hw (conj Hp (conj Hr Hs))).
Defined.


Lemma ephemeral_port_free_witness : ∃ w w', net_ok w [] ∧
  ((∃ port, get_ephemeral_port w = Done (w', Ok port) ∧ listen_table w !! port = None) ∨
   get_ephemeral_port w = Done (w', Err NoMemory)).
Proof.
  destruct (boot_ok []) as (w & _ & Hw).
  destruct (ephemeral_port_free w (proj1 (nk_ports _ _ Hw))) as (w' & [(port & Hr & _ & Hn & _)|[Hr _]]).
  - exists w, w'. split; [exact Hw|]. left. exists port. exact (conj Hr Hn).
  - exists w, w'. split; [exact Hw|]. right. exact Hr.
Defined.

Lemma accept_returns_witness : ∃ w w' s, tcp_handle s = None ∧
  accept (λ _ w, w) 1 s w = Some (Done (w',
    Ok {| tcp_handle := Some 1%nat; tcp_local := Some (SockAddr 9 80); tcp_peer := Some (SockAddr 7 1000); tcp_nonblock := false |})).
Proof.
  destruct listening_ok as (w & s & w1 & Hw & Hp & Hh & Hl & Hnb & Hq & Hf & Hpeer).
  destruct (accept_returns (λ _ w, w) s (SockAddr 9 80) (tcp_own s) 0 1 w w1 [1%nat] 0 1%nat) as (_ & _ & Ha);
    [by intros|exact Hw|exact Hh|exact Hl|exact Hnb|exact (conj Hp (conj Hq Hf))|lia|].
  exists w. eexists _, s. split; [exact Hh|]. rewrite Ha, Hpeer. reflexivity.
Defined.

(** A reset connection makes [accept] panic when debug messages are on. *)
Definition reset_ops : list net_op := listen_ops ++ [On 0 CAcceptRound].

Definition reset_check (o : outcome (net wire)) : outcome bool :=
  match o with Done w0 => Done (negb (is_done (net_run reset_ops (w0, [])))) | Panic => Panic end.

Example reset_before_accept_panics : reset_check (net_init (card_with [syn80; rst80]) 4 0 true) = Done true.
Proof. vm_compute. reflexivity. Qed.

(** Two sockets listen on port 80, one after the other has been shut down;
    dropping the first one closes the port under the second. *)
Definition steal_ops : list net_op := listen_ops ++ [On 0 CShutdown] ++ listen_ops ++ [On 1 CDrop].

Definition steal (w0 : net wire) : option (bool * bool * bool) :=
  match one_socket (net_run steal_ops (w0, [])) with
  | Some (w, s) =>
      Some (bool_decide (tcp_handle s = None), bool_decide (listen_table w !! 80 = None),
            match accept (λ _ w, w) 1 s w with Some (Done (_, Err InvalidInput)) => true | _ => false end)
  | None => None
  end.

Definition steal_check := on_boot (boot []) steal.

Example drop_steals_the_port : steal_check = Some (true, true, true).
Proof. vm_compute. reflexivity. Qed.
