(* ===== verification/CSocket.v ===== *)
(** * Sockets of the C interface ([ulib/libax/src/cbindings/socket.rs])

    The descriptor table of [FdTable] holds references to socket objects,
    which wrap the sockets of [AxNet].  The calls convert addresses between
    the C structure [sockaddr] and the endpoints of the network module, find
    the object of a descriptor, and run a method on it; an object whose last
    reference goes is dropped.

    A call that waits is given [env], what the other tasks do at each yield,
    and [fuel], the rounds it may take; [None] is a call that has not
    returned.  A pointer is [None] when it is null. *)

From S2P Require Import Prelude Utf8 PollState AxErrno FlattenObjects FdTable BlockDev NetBuf AxNet.
From stdpp Require Import base numbers gmap list strings.
From Stdlib Require Import Ascii.

Open Scope Z_scope.
Local Open Scope word_scope.

(** ** Calls that may wait *)

Definition waiting (S E T : Type) : Type := S → option (outcome (S * result E T)).

#[global] Instance waiting_ret {S E} : MRet (waiting S E) := λ T t s, Some (Done (s, Ok t)).
#[global] Instance waiting_bind {S E} : MBind (waiting S E) := λ T U f m s,
  match m s with
  | Some (Done (s, Ok t)) => f t s
  | Some (Done (s, Err e)) => Some (Done (s, Err e))
  | Some Panic => Some Panic
  | None => None
  end.

(** A call that returns at once. *)
Definition at_once {S E T} (m : stm S E T) : waiting S E T := λ s, Some (m s).

Definition fail {S E T} (e : E) : waiting S E T := at_once (throw e).

(** ** Byte order and [sockaddr] *)

(** The bytes of a value of [n] bytes in memory, on a little-endian machine,
    and the value of such bytes. *)
Fixpoint mem_bytes (n : nat) (x : Z) : list Z :=
  match n with O => [] | S n => wrap 8 x :: mem_bytes n (x .>> 8) end.

Fixpoint mem_value (l : list Z) : Z :=
  match l with [] => 0 | b :: l => b + 256 * mem_value l end.

(** [to_be] and [from_be] on a value of [n] bytes; [u32::from_be_bytes] and
    [u32::to_be_bytes]. *)
Definition to_be (n : nat) (x : Z) : Z := mem_value (reverse (mem_bytes n x)).
Definition from_be (n : nat) (x : Z) : Z := to_be n x.
Definition from_be_bytes (l : list Z) : Z := mem_value (reverse l).
Definition to_be_bytes (n : nat) (x : Z) : list Z := reverse (mem_bytes n x).

Definition AF_INET : Z := 2.
Definition SOCK_STREAM : Z := 1.
Definition SOCK_DGRAM : Z := 2.
Definition IPPROTO_TCP : Z := 6.
Definition IPPROTO_UDP : Z := 17.
Definition SIZEOF_SOCKADDR : Z := 16.

Record sockaddr_in := { sin_family : Z; sin_port : Z; s_addr : Z; sin_zero : list Z }.

(** The sixteen bytes of a [sockaddr_in], and the fields read from them. *)
Definition sockaddr_in_bytes (a : sockaddr_in) : list Z :=
  mem_bytes 2 (sin_family a) ++ mem_bytes 2 (sin_port a) ++ mem_bytes 4 (s_addr a) ++ sin_zero a.

Definition sockaddr_in_of (l : list Z) : sockaddr_in :=
  {| sin_family := mem_value (take 2 l); sin_port := mem_value (take 2 (drop 2 l));
     s_addr := mem_value (take 4 (drop 4 l)); sin_zero := take 8 (drop 8 l) |}.

(** What the code uses of addresses of the crate [smoltcp] as bytes and as
    text. *)
Class IpAddress `{!Smoltcp} := {
  ip_as_bytes : ip_addr → list Z;
  ip_parse : string → option ip_addr;
}.

(** [Ipv4Addr::from_bytes], which panics unless there are four bytes. *)
Definition ipv4_from_bytes `{!Smoltcp} (l : list Z) : outcome ip_addr :=
  match l with [a; b; c; d] => Done (ip_v4 a b c d) | _ => Panic end.

Definition as_c_sockaddr `{!Smoltcp, !IpAddress} (addr : SocketAddr ip_addr) : outcome (list Z) :=
  _ ← assert_true (length (ip_as_bytes (sa_addr addr)) =? 4)%nat;
  Done (sockaddr_in_bytes
    {| sin_family := AF_INET; sin_port := to_be 2 (sa_port addr);
       s_addr := to_be 4 (from_be_bytes (ip_as_bytes (sa_addr addr)));
       sin_zero := replicate 8 0 |}).

Definition from_c_sockaddr `{!Smoltcp} {S} (addr : option (list Z)) (addrlen : Z)
    : stm S LinuxError (SocketAddr ip_addr) :=
  match addr with
  | None => throw EFAULT
  | Some bytes =>
      if negb (addrlen =? SIZEOF_SOCKADDR) then throw EINVAL
      else
        let mid := sockaddr_in_of bytes in
        if negb (sin_family mid =? AF_INET) then throw EINVAL
        else
          address ← of_outcome (ipv4_from_bytes (to_be_bytes 4 (from_be 4 (s_addr mid))));
          mret (SockAddr address (from_be 2 (sin_port mid)))
  end.

(** ** Text *)

(** The bytes of a string, as the crate gets them. *)
Definition string_of (l : list Z) : string := String.string_of_list_ascii ((λ b, ascii_of_nat (Z.to_nat b)) <$> as_bytes l).

Fixpoint parse_digits (acc : Z) (l : list Z) : option Z :=
  match l with
  | [] => Some acc
  | c :: l =>
      if (48 <=? c) && (c <=? 57) then
        let v := acc * 10 + (c - 48) in if v <? 65536 then parse_digits v l else None
      else None
  end.

(** [str::parse::<u16>]. *)
Definition parse_u16 (l : list Z) : option Z :=
  match l with
  | [] => None
  | c :: l' => if (c =? 43) && negb (bool_decide (l' = [])) then parse_digits 0 l' else parse_digits 0 l
  end.

(** ** Socket objects *)

Inductive Socket (H A : Type) :=
| Udp (s : UdpSocket H A)
| Tcp (s : TcpSocket H A).
Arguments Udp {H A} _.
Arguments Tcp {H A} _.

(** [Arc<dyn FileLike>]: a socket, by the address of the object, or another
    file. *)
Inductive sfile (G : Type) :=
| SocketFile (a : nat)
| OtherFile (g : G).
Arguments SocketFile {G} _.
Arguments OtherFile {G} _.

#[global] Instance sfile_eq_dec {G} `{!EqDecision G} : EqDecision (sfile G).
Proof. solve_decision. Defined.

(** The file is the object at [a]. *)
Definition is_object {G} (a : nat) (f : sfile G) : bool :=
  match f with SocketFile b => Nat.eqb a b | OtherFile _ => false end.

(** What the files act on: the network module and the objects there are. *)
Record world (I : Type) `{!Smoltcp} := {
  w_net : net I;
  w_objects : gmap nat (Socket handle ip_addr);
}.
Arguments w_net {I _} _.
Arguments w_objects {I _} _.
Arguments Build_world {I _} _ _.

Section csocket.
Context {I B G : Type} `{Ops : !VirtIONetRaw I} `{Stack : !Smoltcp} `{Ips : !IpAddress} `{BM : Bitmap B}.
Context (env : nat → net I → net I) (fuel : nat).

Abbreviation Addr := (SocketAddr ip_addr).
Abbreviation socket := (Socket handle ip_addr).
Abbreviation st := (fd_state B (sfile G) (world I)).

(** A method of a socket, whose lock is held meanwhile: the socket is part of
    the result. *)
Definition method (T : Type) : Type :=
  socket → net I → option (outcome (net I * (socket * result LinuxError T))).

(** A call of the network module that leaves the fields of the object as
    they are, and one that returns them. *)
Definition keeping {T U} (f : T → U) (s : socket) (r : option (outcome (net I * result AxError T)))
    : option (outcome (net I * (socket * result LinuxError U))) :=
  match r with
  | Some (Done (w, r)) => Some (Done (w, (s, f <$> to_linux r)))
  | Some Panic => Some Panic
  | None => None
  end.

Definition updating {T} (mk : T → socket) (s : socket) (r : option (outcome (net I * result AxError T)))
    : option (outcome (net I * (socket * result LinuxError unit))) :=
  match r with
  | Some (Done (w, Ok t)) => Some (Done (w, (mk t, Ok tt)))
  | Some (Done (w, Err e)) => Some (Done (w, (s, Err (linux_error_from e))))
  | Some Panic => Some Panic
  | None => None
  end.

(** ** [impl Socket] *)

Definition send (buf : list Z) : method Z := λ s w,
  match s with
  | Udp u => keeping id s (udp_send env fuel u buf w)
  | Tcp t => keeping id s (tcp_send env fuel t buf w)
  end.

Definition recv (n : nat) : method (list Z) := λ s w,
  match s with
  | Udp u => keeping fst s (udp_recv_from env fuel u n w)
  | Tcp t => keeping id s (tcp_recv env fuel t n w)
  end.

Definition poll : method PollState := λ s w,
  match s with
  | Udp u => keeping id s (Some (udp_poll u w))
  | Tcp t => keeping id s (Some (tcp_poll t w))
  end.

Definition unwrap_or_any (r : result AxError Addr) : Addr :=
  match r with Ok a => a | Err _ => SockAddr (ip_v4 0 0 0 0) 0 end.

Definition local_addr : method Addr := λ s w,
  match s with
  | Udp u => Some (Done (w, (s, Ok (unwrap_or_any (udp_local_addr u)))))
  | Tcp t => Some (Done (w, (s, Ok (unwrap_or_any (tcp_local_addr t)))))
  end.

Definition peer_addr : method Addr := λ s w,
  match s with
  | Udp u => Some (Done (w, (s, to_linux (udp_peer_addr u))))
  | Tcp t => Some (Done (w, (s, to_linux (tcp_peer_addr t))))
  end.

Definition bind (addr : Addr) : method unit := λ s w,
  match s with
  | Udp u => updating Udp s (Some (udp_bind addr u w))
  | Tcp t => updating Tcp s (Some (AxNet.bind addr t w))
  end.

Definition connect (addr : Addr) : method unit := λ s w,
  match s with
  | Udp u => updating Udp s (Some (udp_connect addr u w))
  | Tcp t => updating Tcp s (AxNet.connect env fuel addr t w)
  end.

Definition sendto (buf : list Z) (addr : Addr) : method Z := λ s w,
  match s with
  | Udp u => keeping id s (udp_send_to env fuel u buf addr w)
  | Tcp _ => Some (Done (w, (s, Err EISCONN)))
  end.

Definition recvfrom (n : nat) : method (list Z * option Addr) := λ s w,
  match s with
  | Udp u => keeping (λ res, (res.1, Some res.2)) s (udp_recv_from env fuel u n w)
  | Tcp t => keeping (λ res, (res, None)) s (tcp_recv env fuel t n w)
  end.

Definition listen : method unit := λ s w,
  match s with
  | Udp _ => Some (Done (w, (s, Err EOPNOTSUPP)))
  | Tcp t =>
      match AxNet.listen t w with
      | Done (w, Ok (t, r)) => Some (Done (w, (Tcp t, to_linux r)))
      | Done (w, Err e) => Some (Done (w, (s, Err (linux_error_from e))))
      | Panic => Some Panic
      end
  end.

Definition accept : method (TcpSocket handle ip_addr) := λ s w,
  match s with
  | Udp _ => Some (Done (w, (s, Err EOPNOTSUPP)))
  | Tcp t => keeping id s (AxNet.accept env fuel t w)
  end.

Definition shutdown : method unit := λ s w,
  match s with
  | Udp u =>
      match udp_peer_addr u with
      | Err e => Some (Done (w, (s, Err (linux_error_from e))))
      | Ok _ => keeping id s (Some (udp_shutdown u w))
      end
  | Tcp t =>
      match tcp_peer_addr t with
      | Err e => Some (Done (w, (s, Err (linux_error_from e))))
      | Ok _ => keeping id s (Some (tcp_shutdown t w))
      end
  end.

Definition set_nonblocking (nonblock : bool) : method unit := λ s w,
  Some (Done (w, (match s with
                  | Udp u => Udp (udp_set_nonblocking nonblock u)
                  | Tcp t => Tcp (tcp_set_nonblocking nonblock t)
                  end, Ok tt))).

(** The drop of the socket an object wraps. *)
Definition drop_socket (s : socket) : stm (net I) AxError unit :=
  match s with Udp u => udp_drop u | Tcp t => tcp_drop t end.

(** ** Objects and descriptors *)

Definition with_world (v : world I) (s : st) : st :=
  {| fd_table := fd_table s; errno := errno s; fd_world := v |}.

Definition with_object (a : nat) (x : socket) (s : st) : st :=
  with_world {| w_net := w_net (fd_world s); w_objects := <[a := x]> (w_objects (fd_world s)) |} s.

(** A step of the network module. *)
Definition on_net {T} (m : stm (net I) AxError T) : stm st LinuxError T := λ s,
  match m (w_net (fd_world s)) with
  | Done (w, r) => Done (with_world {| w_net := w; w_objects := w_objects (fd_world s) |} s, to_linux r)
  | Panic => Panic
  end.

(** A method of the object at [a]; the caller holds a reference to it. *)
Definition with_socket {T} (a : nat) (f : method T) : waiting st LinuxError T := λ s,
  match w_objects (fd_world s) !! a with
  | None => Some Panic
  | Some x =>
      match f x (w_net (fd_world s)) with
      | Some (Done (w, (x, r))) =>
          Some (Done (with_world {| w_net := w; w_objects := <[a := x]> (w_objects (fd_world s)) |} s, r))
      | Some Panic => Some Panic
      | None => None
      end
  end.

Definition from_fd (fd : Z) : stm st LinuxError nat :=
  f ← get_file_like fd;
  match f with SocketFile a => mret a | OtherFile _ => throw EINVAL end.

(** The table drops an object it has no place for. *)
Definition add_to_fd_table (x : socket) : stm st LinuxError Z := λ s,
  let a := fresh (dom (w_objects (fd_world s))) in
  match add_file_like (SocketFile a) s with
  | Done (s, Ok fd) => Done (with_object a x s, Ok fd)
  | Done (s, Err e) => (_ ← on_net (drop_socket x); throw e) s
  | Panic => Panic
  end.

(** Whether a descriptor from [0] to [n] refers to the object at [a]. *)
Fixpoint referenced (a : nat) (n : nat) (s : st) : outcome bool :=
  match n with
  | O => Done false
  | S n =>
      f ← fo_get AX_FILE_LIMIT (fd_table s) (Z.of_nat n);
      if match f with Some f => is_object a f | None => false end then Done true else referenced a n s
  end.

(** The drop of a reference, which drops the object with the last one. *)
Definition drop_file (f : sfile G) : stm st LinuxError unit :=
  match f with
  | OtherFile _ => mret tt
  | SocketFile a =>
      s ← get;
      r ← of_outcome (referenced a (Z.to_nat AX_FILE_LIMIT) s);
      if (r : bool) then mret tt
      else match w_objects (fd_world s) !! a with
           | None => panic
           | Some x =>
               _ ← modify (with_world {| w_net := w_net (fd_world s); w_objects := delete a (w_objects (fd_world s)) |});
               _ ← on_net (drop_socket x);
               mret tt
           end
  end.

(** [close_file_like] of [fd_ops.rs], with the drop at its end. *)
Definition close_socket_file (fd : Z) : stm st LinuxError unit :=
  f ← get_file_like fd;
  _ ← close_file_like fd;
  drop_file f.

(** ** The calls *)

Definition ax_socket (domain socktype protocol : Z) : waiting st LinuxError Z :=
  let domain := wrap 32 domain in
  let socktype := wrap 32 socktype in
  let protocol := wrap 32 protocol in
  at_once
    (if (domain =? AF_INET) && (socktype =? SOCK_STREAM) && ((protocol =? IPPROTO_TCP) || (protocol =? 0)) then
       t ← on_net tcp_new; add_to_fd_table (Tcp t)
     else if (domain =? AF_INET) && (socktype =? SOCK_DGRAM) && ((protocol =? IPPROTO_UDP) || (protocol =? 0)) then
       u ← on_net udp_new; add_to_fd_table (Udp u)
     else throw EINVAL).

Definition ax_bind (socket_fd : Z) (socket_addr : option (list Z)) (addrlen : Z) : waiting st LinuxError Z :=
  addr ← at_once (from_c_sockaddr socket_addr addrlen);
  a ← at_once (from_fd socket_fd);
  _ ← with_socket a (bind addr);
  mret 0.

Definition ax_connect (socket_fd : Z) (socket_addr : option (list Z)) (addrlen : Z) : waiting st LinuxError Z :=
  addr ← at_once (from_c_sockaddr socket_addr addrlen);
  a ← at_once (from_fd socket_fd);
  _ ← with_socket a (connect addr);
  mret 0.

Definition ax_sendto (socket_fd : Z) (buf : option (list Z)) (socket_addr : option (list Z)) (addrlen : Z)
    : waiting st LinuxError Z :=
  match buf with
  | None => fail EFAULT
  | Some buf =>
      addr ← at_once (from_c_sockaddr socket_addr addrlen);
      a ← at_once (from_fd socket_fd);
      with_socket a (sendto buf addr)
  end.

Definition ax_send (socket_fd : Z) (buf : option (list Z)) : waiting st LinuxError Z :=
  match buf with
  | None => fail EFAULT
  | Some buf => a ← at_once (from_fd socket_fd); with_socket a (send buf)
  end.

(** The bytes that are stored in the buffer, and in [socket_addr] with their
    number in [addrlen]. *)
Definition ax_recvfrom (socket_fd : Z) (buf_null : bool) (n : nat) (socket_addr_null addrlen_null : bool)
    : waiting st LinuxError (list Z * option (list Z)) :=
  if buf_null || socket_addr_null || addrlen_null then fail EFAULT
  else
    a ← at_once (from_fd socket_fd);
    res ← with_socket a (recvfrom n);
    match res.2 with
    | Some addr => bytes ← at_once (of_outcome (as_c_sockaddr addr)); mret (res.1, Some bytes)
    | None => mret (res.1, None)
    end.

Definition ax_recv (socket_fd : Z) (buf_null : bool) (n : nat) : waiting st LinuxError (list Z) :=
  if buf_null then fail EFAULT
  else a ← at_once (from_fd socket_fd); with_socket a (recv n).

Definition ax_listen (socket_fd : Z) : waiting st LinuxError Z :=
  a ← at_once (from_fd socket_fd);
  _ ← with_socket a listen;
  mret 0.

(** A connection that has no peer any more is dropped. *)
Definition ax_accept (socket_fd : Z) (socket_addr_null socket_len_null : bool)
    : waiting st LinuxError (Z * list Z) :=
  if socket_addr_null || socket_len_null then fail EFAULT
  else
    a ← at_once (from_fd socket_fd);
    new_socket ← with_socket a accept;
    match tcp_peer_addr new_socket with
    | Err e => at_once (_ ← on_net (tcp_drop new_socket); throw (linux_error_from e))
    | Ok addr =>
        new_fd ← at_once (add_to_fd_table (Tcp new_socket));
        bytes ← at_once (of_outcome (as_c_sockaddr addr));
        mret (new_fd, bytes)
    end.

Definition ax_shutdown (socket_fd : Z) : waiting st LinuxError Z :=
  a ← at_once (from_fd socket_fd);
  _ ← with_socket a shutdown;
  mret 0.

(** [for (i, item) in res.iter().enumerate().take(len)]: the addresses that
    are stored. *)
Fixpoint store_addrs (len : nat) (port : Z) (res : list ip_addr) : outcome (list (list Z)) :=
  match len, res with
  | S len, item :: res =>
      bytes ← as_c_sockaddr (SockAddr item port);
      rest ← store_addrs len port res;
      Done (bytes :: rest)
  | _, _ => Done []
  end.

(** [resolve_socket_addr(domain).map_err(|_| LinuxError::EINVAL)]. *)
Definition resolve (domain : string) : waiting st LinuxError (list ip_addr) := λ s,
  match resolve_socket_addr env fuel domain (w_net (fd_world s)) with
  | Some (Done (w, r)) =>
      Some (Done (with_world {| w_net := w; w_objects := w_objects (fd_world s) |} s,
                  match r with Ok l => Ok l | Err _ => Err EINVAL end))
  | Some Panic => Some Panic
  | None => None
  end.

Definition ax_resolve_sockaddr (node service : option (list Z)) (addr_null : bool) (len : nat)
    : waiting st LinuxError (Z * list (list Z)) :=
  let name := char_ptr_to_str node in
  let port := char_ptr_to_str service in
  if addr_null || (bool_decide (node = None) && bool_decide (service = None)) then fail EFAULT
  else
    res ← match name with
          | Ok domain =>
              match ip_parse (string_of domain) with
              | Some a => mret [a]
              | None => resolve (string_of domain)
              end
          | Err _ => mret [ip_v4 127 0 0 1]
          end;
    let port := match port with Ok p => default 0 (parse_u16 p) | Err _ => 0 end in
    addrs ← at_once (of_outcome (store_addrs len port res));
    mret (if (length res <? len)%nat then Z.of_nat (length res) else Z.of_nat len, addrs).

(** The bytes stored in [addr]; [addrlen] is the value there. *)
Definition ax_getsockname (sock_fd : Z) (addr_null : bool) (addrlen : option Z) : waiting st LinuxError (Z * list Z) :=
  match addrlen with
  | None => fail EFAULT
  | Some len =>
      if addr_null then fail EFAULT
      else if len <? SIZEOF_SOCKADDR then fail EINVAL
      else
        a ← at_once (from_fd sock_fd);
        addr ← with_socket a local_addr;
        bytes ← at_once (of_outcome (as_c_sockaddr addr));
        mret (0, bytes)
  end.

Definition ax_getpeername (sock_fd : Z) (addr_null : bool) (addrlen : option Z) : waiting st LinuxError (Z * list Z) :=
  match addrlen with
  | None => fail EFAULT
  | Some len =>
      if addr_null then fail EFAULT
      else if len <? SIZEOF_SOCKADDR then fail EINVAL
      else
        a ← at_once (from_fd sock_fd);
        addr ← with_socket a peer_addr;
        bytes ← at_once (of_outcome (as_c_sockaddr addr));
        mret (0, bytes)
  end.

(** [ax_fcntl] with [F_SETFL], on the descriptor of a socket. *)
Definition ax_setfl (fd arg : Z) : waiting st LinuxError Z :=
  a ← at_once (from_fd fd);
  _ ← with_socket a (set_nonblocking (0 <? arg .& O_NONBLOCK));
  mret 0.

(** [sendto] and [recvfrom] of [ulib/c_libax/src/socket.c]. *)
Definition c_sendto (fd : Z) (buf addr : option (list Z)) (addr_len : Z) : waiting st LinuxError Z :=
  if bool_decide (addr = None) && (addr_len =? 0) then ax_send fd buf else ax_sendto fd buf addr addr_len.

Definition c_recvfrom (fd : Z) (buf_null : bool) (n : nat) (addr_null addr_len_null : bool)
    : waiting st LinuxError (list Z * option (list Z)) :=
  if addr_null then bytes ← ax_recv fd buf_null n; mret (bytes, None)
  else ax_recvfrom fd buf_null n addr_null addr_len_null.

End csocket.
