(* ===== verification/CSocketSpec.v ===== *)
(** * The C socket calls keep the sockets accounted for

    Addresses survive the conversion to [sockaddr] and back, in network byte
    order.  Whatever calls a program makes, with whatever arguments: no call
    panics, every socket object has a descriptor, and every socket of the
    stack belongs to one object or to the queue of a listening port; a
    connection that finds no free descriptor is closed again.  [accept]
    returns the connection that waits, with the least free descriptor. *)

From S2P Require Import Prelude PollState AxErrno FlattenObjects FdTable BlockDev NetBuf NetBufSpec.
From S2P Require Import AxNet AxNetSpec AxSocketSpec AxNetExample CSocket.
From stdpp Require Import base numbers gmap list strings.

Open Scope Z_scope.
Local Open Scope word_scope.

(** ** Byte order *)

Definition is_byte (b : Z) : Prop := 0 ≤ b < 256.

Lemma mem_bytes_value l : Forall is_byte l → mem_bytes (length l) (mem_value l) = l.
Proof.
  induction 1 as [|b l Hb Hl IH]; [done|]. cbn [length mem_bytes mem_value]. unfold is_byte in Hb. f_equal.
  - unfold wrap. change (2 ^ 8) with 256. rewrite Z.mul_comm, Z_mod_plus_full. by apply Z.mod_small.
  - rewrite Z.shiftr_div_pow2 by lia. change (2 ^ 8) with 256.
    by rewrite Z.mul_comm, Z.div_add, Z.div_small, Z.add_0_l by lia.
Qed.

Lemma mem_bytes_length n : ∀ x, length (mem_bytes n x) = n.
Proof. induction n as [|n IH]; intros x; [done|]. cbn. by rewrite IH. Qed.

Lemma mem_bytes_range n : ∀ x, Forall is_byte (mem_bytes n x).
Proof.
  induction n as [|n IH]; intros x; [constructor|]. cbn. constructor; [|apply IH].
  unfold wrap, is_byte. change (2 ^ 8) with 256. apply Z.mod_pos_bound. lia.
Qed.

Lemma mem_value_bytes n : ∀ x, 0 ≤ x < 256 ^ Z.of_nat n → mem_value (mem_bytes n x) = x.
Proof.
  induction n as [|n IH]; intros x Hx; [cbn in *; lia|]. cbn [mem_bytes mem_value].
  rewrite Nat2Z.inj_succ, Z.pow_succ_r in Hx by lia. unfold wrap. rewrite Z.shiftr_div_pow2 by lia.
  change (2 ^ 8) with 256. rewrite IH.
  - pose proof (Z.div_mod x 256). lia.
  - split; [apply Z.div_pos; lia|]. apply Z.div_lt_upper_bound; lia.
Qed.

(** In memory, a value in network order has its bytes in the order of the
    number. *)
Lemma to_be_stored n x : mem_bytes n (to_be n x) = reverse (mem_bytes n x).
Proof.
  unfold to_be. rewrite <- (mem_bytes_value (reverse (mem_bytes n x))) at 2.
  - by rewrite length_reverse, mem_bytes_length.
  - rewrite Forall_reverse. apply mem_bytes_range.
Qed.

Lemma from_be_bytes_stored l : Forall is_byte l → mem_bytes (length l) (to_be (length l) (from_be_bytes l)) = l.
Proof.
  intros Hl. rewrite to_be_stored. unfold from_be_bytes.
  rewrite <- (length_reverse l), mem_bytes_value by by rewrite Forall_reverse. apply reverse_involutive.
Qed.

Lemma to_be_bytes_read l : Forall is_byte l → to_be_bytes (length l) (from_be (length l) (mem_value l)) = l.
Proof.
  intros Hl. unfold to_be_bytes, from_be. rewrite to_be_stored, reverse_involutive. by apply mem_bytes_value.
Qed.

(** ** Addresses *)

(** Only IPv4 is compiled in: an address has four bytes, and is made from
    them. *)
Class IpAddressLaws `{Stack : !Smoltcp, Ips : !IpAddress} := {
  ip_bytes_v4 a b c d : is_byte a → is_byte b → is_byte c → is_byte d →
    ip_as_bytes (ip_v4 a b c d) = [a; b; c; d];
  ip_bytes_four x : length (ip_as_bytes x) = 4%nat ∧ Forall is_byte (ip_as_bytes x);
}.

Section addresses.
Context `{Stack : !Smoltcp, Ips : !IpAddress, ILaws : !IpAddressLaws}.

(** The bytes in memory: the family, the port and the address in network
    order, and zeros. *)
Lemma as_c_sockaddr_eq x port : 0 ≤ port < 65536 →
  as_c_sockaddr (SockAddr x port) = Done ([2; 0; port / 256; port mod 256] ++ ip_as_bytes x ++ replicate 8 0).
Proof.
  intros Hp. destruct (ip_bytes_four x) as [Hl Hb]. unfold as_c_sockaddr. cbn [sa_addr sa_port]. rewrite Hl.
  cbn [assert_true Nat.eqb mbind outcome_bind]. f_equal. unfold sockaddr_in_bytes.
  cbn [sin_family sin_port s_addr sin_zero]. rewrite to_be_stored, <- Hl, from_be_bytes_stored by done.
  cbn [mem_bytes]. unfold AF_INET, wrap. rewrite !Z.shiftr_div_pow2 by lia. change (2 ^ 8) with 256.
  rewrite (Z.mod_small (port / 256)); [done|]. split; [apply Z.div_pos; lia|]. apply Z.div_lt_upper_bound; lia.
Qed.

(** Reading an address. *)
Lemma from_c_sockaddr_eq {S} (s : S) p1 p0 a b c d zero :
  Forall is_byte [p1; p0] → Forall is_byte [a; b; c; d] →
  from_c_sockaddr (Some ([2; 0; p1; p0; a; b; c; d] ++ zero)) 16 s = Done (s, Ok (SockAddr (ip_v4 a b c d) (256 * p1 + p0))).
Proof.
  intros Hp Ha. unfold from_c_sockaddr, sockaddr_in_of. cbn [Z.eqb negb SIZEOF_SOCKADDR take drop app sin_family sin_port s_addr].
  rewrite take_0. change (mem_value [2; 0]) with 2. cbn [Z.eqb negb AF_INET Pos.eqb].
  pose proof (to_be_bytes_read [a; b; c; d] Ha) as Hr. cbn [length] in Hr. rewrite Hr. unfold mbind, stm_bind, of_outcome, mret, stm_ret. cbn [ipv4_from_bytes].
  do 4 f_equal. unfold from_be, to_be. pose proof (mem_bytes_value [p1; p0] Hp) as Hm. cbn [length] in Hm. rewrite Hm. cbn. lia.
Qed.

(** An address comes back from its C structure, whose port and address are in
    network byte order. *)
Theorem sockaddr_roundtrip {S} (s : S) a b c d port :
  Forall is_byte [a; b; c; d] → 0 ≤ port < 65536 →
  let addr := SockAddr (ip_v4 a b c d) port in
  ∃ bytes, as_c_sockaddr addr = Done bytes ∧
    bytes = [2; 0; port / 256; port mod 256; a; b; c; d] ++ replicate 8 0 ∧
    from_c_sockaddr (Some bytes) 16 s = Done (s, Ok addr).
Proof.
  intros Ha Hp. cbv zeta. eexists. split; [by apply as_c_sockaddr_eq|].
  assert (ip_as_bytes (ip_v4 a b c d) = [a; b; c; d]) as ->.
  { rewrite !Forall_cons in Ha. destruct Ha as (?&?&?&?&_). by apply ip_bytes_v4. }
  split; [done|]. cbn [app]. etrans; [apply (from_c_sockaddr_eq s (port / 256) (port mod 256) a b c d (replicate 8 0)); [|done]|].
  2: { do 4 f_equal. pose proof (Z.div_mod port 256). lia. }
  repeat constructor; [apply Z.div_pos; lia|apply Z.div_lt_upper_bound; lia|apply Z.mod_pos_bound; lia..].
Qed.

Lemma as_c_sockaddr_done addr : ∃ bytes, as_c_sockaddr addr = Done bytes ∧ length bytes = 16%nat.
Proof.
  destruct (ip_bytes_four (sa_addr addr)) as [Hl Hb]. unfold as_c_sockaddr. rewrite Hl. eexists. split; [done|].
  unfold sockaddr_in_bytes. by rewrite !length_app, !mem_bytes_length.
Qed.

(** A bad address is an error, never a panic. *)
Lemma from_c_sockaddr_done {S} (s : S) addr len : ∃ r, from_c_sockaddr addr len s = Done (s, r).
Proof.
  unfold from_c_sockaddr. destruct addr as [l|]; [|by eexists]. destruct (negb _); [by eexists|].
  destruct (negb _); [by eexists|]. set (bs := to_be_bytes _ _).
  assert (length bs = 4%nat) as Hl by (subst bs; unfold to_be_bytes; by rewrite length_reverse, mem_bytes_length).
  destruct bs as [|a [|b [|c [|d [|]]]]]; try discriminate Hl. by eexists.
Qed.

Lemma store_addrs_done port res : ∀ n, ∃ l, store_addrs n port res = Done l ∧ length l = (n `min` length res)%nat.
Proof.
  induction res as [|x res IH]; intros [|n]; try by exists []. cbn [store_addrs].
  destruct (as_c_sockaddr_done (SockAddr x port)) as (bytes & -> & _). cbn [mbind outcome_bind].
  destruct (IH n) as (l & -> & Hl). cbn. exists (bytes :: l). split; [done|]. cbn. by rewrite Hl.
Qed.

End addresses.

(** ** The invariant *)

(** A step that has ended, did not panic, and ended well. *)
Definition ends {S T} (o : option (outcome (S * T))) (post : T → S → Prop) : Prop :=
  match o with
  | None => True
  | Some Panic => False
  | Some (Done (s, r)) => post r s
  end.

Lemma ends_mono {S T} (o : option (outcome (S * T))) (P Q : T → S → Prop) :
  ends o P → (∀ r s, P r s → Q r s) → ends o Q.
Proof. destruct o as [[[s r]|]|]; cbn; auto. Qed.

Section invariant.
Context {I B G : Type} {QS : nat} `{Ops : !VirtIONetRaw I} `{Laws : !VirtIONetLaws I QS}.
Context `{Stack : !Smoltcp} `{SLaws : !SmoltcpLaws} `{Ips : !IpAddress} `{ILaws : !IpAddressLaws}.
Context `{BM : Bitmap B} `{BML : !BitmapLaws B}.

Abbreviation socket := (Socket handle ip_addr).
Abbreviation st := (fd_state B (sfile G) (world I)).
Implicit Types (w : net I) (s : st) (m : gmap Z (sfile G)) (x : socket) (ex : list (handle * kind)).

(** The sockets of the stack that an object, or a store of objects, owns. *)
Definition socket_own x : list (handle * kind) :=
  match x with Udp u => udp_own u | Tcp t => tcp_own t end.

Definition objects_own (o : gmap nat socket) : list (handle * kind) :=
  map_to_list o ≫= λ p, socket_own p.2.

Lemma objects_own_insert o a x : o !! a = None → objects_own (<[a := x]> o) ≡ₚ socket_own x ++ objects_own o.
Proof. intros Ha. unfold objects_own. by rewrite map_to_list_insert. Qed.

Lemma objects_own_delete o a x : o !! a = Some x → objects_own o ≡ₚ socket_own x ++ objects_own (delete a o).
Proof.
  intros Ha. rewrite <- objects_own_insert by apply lookup_delete_eq. by rewrite insert_delete_id.
Qed.

Lemma objects_own_update o a x : objects_own (<[a := x]> o) ≡ₚ socket_own x ++ objects_own (delete a o).
Proof.
  rewrite <- insert_delete_eq. apply objects_own_insert, lookup_delete_eq.
Qed.

(** [m] are the files of the descriptors; each object has one; the sockets of
    the stack are those of the objects, of the ports, and [ex]. *)
Record csys_ok ex s m : Prop := {
  ck_table : fd_repr s m;
  ck_objects a : is_Some (w_objects (fd_world s) !! a) ↔ ∃ fd, m !! fd = Some (SocketFile a);
  ck_net : net_ok (w_net (fd_world s)) (ex ++ objects_own (w_objects (fd_world s)));
}.

(** Other parts of the state do not matter. *)
Lemma csys_ok_net ex ex' s m w : csys_ok ex s m → net_ok w (ex' ++ objects_own (w_objects (fd_world s))) →
  csys_ok ex' (with_world (Build_world w (w_objects (fd_world s))) s) m.
Proof. intros [H1 H2 H3] Hw. by split. Qed.

Lemma csys_ok_method ex ex' s m a x x' w : csys_ok ex s m → w_objects (fd_world s) !! a = Some x →
  net_ok w (ex' ++ socket_own x' ++ objects_own (delete a (w_objects (fd_world s)))) →
  csys_ok ex' (with_world (Build_world w (<[a := x']> (w_objects (fd_world s)))) s) m.
Proof.
  intros [H1 H2 H3] Ha Hw. split; cbn.
  - done.
  - intros b. rewrite <- H2. destruct (decide (b = a)) as [->|Hne].
    + rewrite lookup_insert_eq, Ha. done.
    + by rewrite lookup_insert_ne.
  - eapply net_ok_perm; [|exact Hw]. by rewrite objects_own_update.
Qed.

(** ** Methods *)

Context (env : nat → net I → net I) (fuel : nat).
Hypothesis env_ok : ∀ rest k w, net_ok w rest → net_ok (env k w) rest.

(** A method keeps what it owns, up to a new socket it returns. *)
Definition method_ok {T} (f : method T) (extra : result LinuxError T → list (handle * kind)) : Prop :=
  ∀ x rest w, net_ok w (socket_own x ++ rest) →
  ends (f x w) (λ '(x', r) w', net_ok w' (extra r ++ socket_own x' ++ rest)).

Lemma keeping_ok {T U} (g : T → U) x rest o :
  ends o (λ _ w', net_ok w' (socket_own x ++ rest)) →
  ends (keeping g x o) (λ '(x', r) w', net_ok w' (socket_own x' ++ rest)).
Proof. destruct o as [[[w r]|]|]; cbn; done. Qed.

Lemma updating_ok {T} (mk : T → socket) x rest o :
  ends o (λ r w', net_ok w' (match r with Ok t => socket_own (mk t) | Err _ => socket_own x end ++ rest)) →
  ends (updating mk x o) (λ '(x', r) w', net_ok w' (socket_own x' ++ rest)).
Proof. destruct o as [[[w [t|e]]|]|]; cbn; done. Qed.

Lemma triple_ends {T} rest (c : stm (net I) AxError T) post w : triple rest c post → net_ok w rest →
  ends (Some (c w)) (λ r w', net_ok w' (post r)).
Proof. intros Hc Hw. destruct (Hc w Hw) as (w' & r & -> & Hw'). done. Qed.

Lemma runs_ends {T} rest (c : stm (net I) AxError T) post w : runs rest c post → net_ok w rest →
  ends (Some (c w)) (λ r w', ∃ t, r = Ok t ∧ net_ok w' (post t)).
Proof. intros Hc Hw. destruct (Hc w Hw) as (w' & r & -> & Hw'). by exists r. Qed.

Lemma block_on_ends {T} nonblock (attempt : stm (net I) AxError T) rest post k w :
  triple rest attempt post → post (Err WouldBlock) = rest → net_ok w rest →
  ends (block_on env nonblock attempt fuel k w) (λ r w', net_ok w' (post r)).
Proof.
  intros Ht Hp Hw. destruct (block_on _ _ _ _ _ _) as [o|] eqn:Ho; [|done].
  destruct (block_on_spec env nonblock attempt rest post (env_ok rest) Ht Hp fuel k w Hw o Ho) as (w' & r & -> & Hw'). done.
Qed.

Lemma udp_block_ends {T} nonblock (u : UdpSocket handle ip_addr) rest w (f : udp_socket → udp_socket * result AxError T) :
  net_ok w (udp_own u ++ rest) →
  ends (block_on env nonblock (r ← with_udp (udp_handle u) f; of_result r) fuel 0 w) (λ _ w', net_ok w' (udp_own u ++ rest)).
Proof. intros Hw. apply (block_on_ends _ _ (udp_own u ++ rest) (λ _, udp_own u ++ rest)); [|done|done]. apply udp_call_spec. left. Qed.

Lemma tcp_block_ends {T} nonblock (t : TcpSocket handle ip_addr) h rest w (f : tcp_socket → tcp_socket * result AxError T) :
  tcp_handle t = Some h → net_ok w (tcp_own t ++ rest) →
  ends (block_on env nonblock (r ← with_tcp h f; of_result r) fuel 0 w) (λ _ w', net_ok w' (tcp_own t ++ rest)).
Proof.
  intros Hh Hw. apply (block_on_ends _ _ (tcp_own t ++ rest) (λ _, tcp_own t ++ rest)); [|done|done]. apply tcp_call_spec.
  unfold tcp_own. rewrite Hh. left.
Qed.

Lemma tcp_recv_ends t n rest w : net_ok w (tcp_own t ++ rest) →
  ends (tcp_recv env fuel t n w) (λ _ w', net_ok w' (tcp_own t ++ rest)).
Proof. intros Hw. unfold tcp_recv. destruct (tcp_handle t) as [h|] eqn:Hh; [by apply tcp_block_ends|done]. Qed.

Lemma send_ok buf : method_ok (send env fuel buf) (λ _, []).
Proof.
  intros [u|t] rest w Hw; unfold send; apply keeping_ok; cbn [socket_own] in *.
  - unfold udp_send. destruct (udp_peer_addr u); [by apply udp_block_ends|done].
  - unfold tcp_send. destruct (tcp_handle t) as [h|] eqn:Hh; [by apply tcp_block_ends|done].
Qed.

Lemma recv_ok n : method_ok (recv env fuel n) (λ _, []).
Proof.
  intros [u|t] rest w Hw; unfold recv; apply keeping_ok; cbn [socket_own] in *.
  - by apply udp_block_ends.
  - by apply tcp_recv_ends.
Qed.

Lemma recvfrom_ok n : method_ok (recvfrom env fuel n) (λ _, []).
Proof.
  intros [u|t] rest w Hw; unfold recvfrom; apply keeping_ok; cbn [socket_own] in *.
  - by apply udp_block_ends.
  - by apply tcp_recv_ends.
Qed.

Lemma sendto_ok buf addr : method_ok (sendto env fuel buf addr) (λ _, []).
Proof.
  intros [u|t] rest w Hw; unfold sendto; [|done]. apply keeping_ok. by apply udp_block_ends.
Qed.

Lemma poll_ok : method_ok poll (λ _, []).
Proof.
  intros [u|t] rest w Hw; unfold poll; apply keeping_ok; cbn [socket_own] in *.
  - apply (triple_ends (udp_own u ++ rest) _ (λ _, udp_own u ++ rest)); [|done].
    apply polled_spec. eapply runs_triple; [apply with_udp_spec; left|done].
  - by apply (triple_ends (tcp_own t ++ rest) _ (λ _, tcp_own t ++ rest)), Hw; apply tcp_poll_spec.
Qed.

Lemma local_addr_ok : method_ok local_addr (λ _, []).
Proof. by intros [u|t] rest w Hw. Qed.

Lemma peer_addr_ok : method_ok peer_addr (λ _, []).
Proof. by intros [u|t] rest w Hw. Qed.

Lemma set_nonblocking_ok b : method_ok (set_nonblocking b) (λ _, []).
Proof. by intros [u|t] rest w Hw. Qed.

Lemma after_ends {T} (r : result AxError T) x (mk : T → socket) (post : result AxError T → list (handle * kind)) rest w :
  (∀ t, post (Ok t) = socket_own (mk t) ++ rest) → (∀ e, post (Err e) = socket_own x ++ rest) →
  net_ok w (post r) → net_ok w (match r with Ok t => socket_own (mk t) | Err _ => socket_own x end ++ rest).
Proof. intros H1 H2 Hw. destruct r; [by rewrite <- H1|by rewrite <- (H2 e)]. Qed.

Lemma bind_ok addr : method_ok (bind addr) (λ _, []).
Proof.
  intros [u|t] rest w Hw; unfold bind; apply updating_ok; cbn [socket_own] in Hw.
  - eapply ends_mono; [apply (triple_ends _ _ _ w (udp_bind_spec rest addr u) Hw)|]. intros r w' Hw'.
    by apply (after_ends r (Udp u) Udp (udp_after u rest)).
  - eapply ends_mono; [apply (triple_ends _ _ _ w (bind_spec rest addr t) Hw)|]. intros r w' Hw'.
    by apply (after_ends r (Tcp t) Tcp (tcp_after t rest)).
Qed.

Lemma connect_ends addr t rest w : net_ok w (tcp_own t ++ rest) →
  ends (AxNet.connect env fuel addr t w) (λ r w', net_ok w' (tcp_after t rest r)).
Proof.
  intros Hw. unfold AxNet.connect. destruct (connect_start addr t w) as [[w1 [[[h l] p]|e]]|] eqn:Hs.
  all: destruct (connect_start_spec rest addr t w Hw) as (w1' & r & Hs' & Hw1); rewrite Hs in Hs'; try discriminate Hs'.
  - injection Hs' as <- <-. apply (block_on_ends _ _ (tcp_own t ++ rest) (tcp_after t rest)); [|done|done].
    apply connect_check_spec. revert Hs. unfold connect_start. destruct (tcp_handle t) as [h'|]; [|done].
    unfold mbind, stm_bind, mret, stm_ret, of_result. repeat case_match; congruence.
  - injection Hs' as <- <-. done.
Qed.

Lemma connect_ok addr : method_ok (connect env fuel addr) (λ _, []).
Proof.
  intros [u|t] rest w Hw; unfold connect; apply updating_ok; cbn [socket_own] in Hw.
  - eapply ends_mono; [apply (triple_ends _ _ _ w (udp_connect_spec rest addr u) Hw)|]. intros r w' Hw'.
    by apply (after_ends r (Udp u) Udp (udp_after u rest)).
  - eapply ends_mono; [by apply (connect_ends addr t rest)|]. intros r w' Hw'.
    by apply (after_ends r (Tcp t) Tcp (tcp_after t rest)).
Qed.

Lemma listen_ok : method_ok listen (λ _, []).
Proof.
  intros [u|t] rest w Hw; unfold listen; [done|]. cbn [socket_own] in Hw.
  destruct (listen_spec rest t w Hw) as (w' & [t' r] & -> & Hw'). done.
Qed.

Lemma accept_ends t rest w : net_ok w (tcp_own t ++ rest) →
  ends (AxNet.accept env fuel t w)
    (λ r w', net_ok w' (match r with Ok new => tcp_own new | Err _ => [] end ++ tcp_own t ++ rest)).
Proof.
  intros Hw. unfold AxNet.accept. destruct (negb _); [done|]. destruct (tcp_local t) as [a|]; [|done].
  apply (block_on_ends _ _ (tcp_own t ++ rest)
    (λ r, match r with Ok new => tcp_own new | Err _ => [] end ++ tcp_own t ++ rest)); [|done|done].
  intros w1 Hw1. destruct (accept_attempt_spec _ t (sa_port a) w1 Hw1) as (w2 & r & Hr & Hw2).
  exists w2, r. split; [done|]. by destruct r.
Qed.

Definition accept_extra (r : result LinuxError (TcpSocket handle ip_addr)) : list (handle * kind) :=
  match r with Ok new => tcp_own new | Err _ => [] end.

Lemma accept_ok : method_ok (accept env fuel) accept_extra.
Proof.
  intros [u|t] rest w Hw; unfold accept; [done|]. cbn [socket_own] in Hw. pose proof (accept_ends t rest w Hw) as He.
  destruct (AxNet.accept env fuel t w) as [[[w' [new|e]]|]|]; cbn in *; done.
Qed.

Lemma shutdown_ok : method_ok shutdown (λ _, []).
Proof.
  intros [u|t] rest w Hw; unfold shutdown; cbn [socket_own] in Hw.
  - destruct (udp_peer_addr u); [|done]. apply keeping_ok.
    eapply ends_mono; [apply (runs_ends _ _ _ w (udp_shutdown_spec rest u) Hw)|]. by intros r w' (? & _ & ?).
  - destruct (tcp_peer_addr t); [|done]. apply keeping_ok.
    eapply ends_mono; [apply (runs_ends _ _ _ w (tcp_shutdown_spec rest t) Hw)|]. by intros r w' (? & _ & ?).
Qed.

Lemma drop_socket_spec rest x : runs (socket_own x ++ rest) (drop_socket x) (λ _, rest).
Proof. destruct x; [apply udp_drop_spec|apply tcp_drop_spec]. Qed.

(** ** Descriptors *)

Lemma from_fd_spec s m fd : fd_repr s m → is_cint fd →
  from_fd fd s = Done (s, match m !! fd with
                          | Some (SocketFile a) => Ok a
                          | Some (OtherFile _) => Err EINVAL
                          | None => Err EBADF
                          end).
Proof.
  intros Hr Hc. unfold from_fd, mbind, stm_bind. rewrite (get_file_like_spec s m) by done.
  by destruct (m !! fd) as [[a|g]|].
Qed.

Lemma on_net_ends {T} ex s m (c : stm (net I) AxError T) post :
  csys_ok ex s m → (∀ rest, runs (ex ++ rest) c (λ t, post t ++ rest)) →
  ∃ s' t, on_net c s = Done (s', Ok t) ∧ csys_ok (post t) s' m.
Proof.
  intros Hs Hc. unfold on_net. destruct (Hc _ _ (ck_net _ _ _ Hs)) as (w' & t & -> & Hw').
  eexists _, t. split; [done|]. by eapply csys_ok_net.
Qed.

(** An object gets the least free descriptor, or is dropped. *)
Lemma add_to_fd_table_spec ex s m x : csys_ok (socket_own x ++ ex) s m →
  ∃ s' r, add_to_fd_table x s = Done (s', r) ∧
  match r with
  | Ok fd => 0 ≤ fd < AX_FILE_LIMIT ∧ m !! fd = None ∧ (∀ j, 0 ≤ j < fd → is_Some (m !! j)) ∧
      ∃ a, w_objects (fd_world s) !! a = None ∧ w_objects (fd_world s') = <[a := x]> (w_objects (fd_world s)) ∧
        w_net (fd_world s') = w_net (fd_world s) ∧ csys_ok ex s' (<[fd := SocketFile a]> m)
  | Err e => e = EMFILE ∧ (∀ j, 0 ≤ j < AX_FILE_LIMIT → is_Some (m !! j)) ∧ csys_ok ex s' m
  end.
Proof.
  intros Hs. unfold add_to_fd_table. set (a := fresh _).
  assert (w_objects (fd_world s) !! a = None) as Ha by (apply not_elem_of_dom, is_fresh).
  destruct (add_file_like_spec s m (SocketFile a) (ck_table _ _ _ Hs)) as (s1 & [fd|e] & -> & _ & Hw & Hres).
  - destruct Hres as (Hfd & Hfree & Hleast & Hr). eexists _, (Ok fd). split; [done|]. split_and!; [lia..|done|done|].
    exists a. cbn. rewrite Hw. split_and!; [done..|]. split; cbn; rewrite ?Hw; [done| |].
    + intros b. rewrite lookup_insert_is_Some', (ck_objects _ _ _ Hs). split.
      * intros [->|[fd' Hfd']]; [exists fd; apply lookup_insert_eq|]. exists fd'. rewrite lookup_insert_ne; [done|].
        intros ->. congruence.
      * intros (fd' & [[_ Heq]|[_ Hfd']]%lookup_insert_Some); [left; congruence|right; by exists fd'].
    + eapply net_ok_perm; [|apply (ck_net _ _ _ Hs)]. rewrite objects_own_insert by done. solve_Permutation.
  - destruct Hres as (-> & Hr & Hfull). unfold mbind, stm_bind.
    assert (csys_ok (socket_own x ++ ex) s1 m) as Hs1.
    { split; [done|rewrite Hw; apply Hs..]. }
    destruct (on_net_ends _ s1 m (drop_socket x) (λ _, ex) Hs1) as (s2 & t & -> & Hs2).
    { intros rest. rewrite <- (assoc_L (++)). apply drop_socket_spec. }
    by eexists _, _.
Qed.

(** ** Closing *)

Lemma referenced_spec s m a : fd_repr s m → ∀ n,
  ∃ b, referenced a n s = Done b ∧ (b = true ↔ ∃ fd, 0 ≤ fd < Z.of_nat n ∧ m !! fd = Some (SocketFile a)).
Proof.
  intros Hr. induction n as [|n (b & Hb & IH)]; [exists false; split; [done|]; split; [done|]; intros (fd & ? & _); lia|].
  cbn [referenced]. rewrite (fo_get_spec AX_FILE_LIMIT limit_ok _ m) by (done || lia). cbn [mbind outcome_bind].
  destruct (match m !! Z.of_nat n with Some f => is_object a f | None => false end) eqn:Hf.
  - exists true. split; [done|]. split; [intros _|done]. exists (Z.of_nat n). split; [lia|].
    destruct (m !! Z.of_nat n) as [[a'|]|]; try discriminate Hf. apply Nat.eqb_eq in Hf. by subst a'.
  - exists b. split; [done|]. rewrite IH. split; intros (fd & Hfd & Ha); exists fd; (split; [|done]); [lia|].
    destruct (decide (fd = Z.of_nat n)) as [->|]; [|lia]. rewrite Ha in Hf. cbn in Hf. by rewrite Nat.eqb_refl in Hf.
Qed.

(** After a descriptor was removed: the object stays while another one refers
    to it. *)
Lemma drop_file_spec s m fd f : csys_ok [] s m → m !! fd = Some f → ∀ s1,
  fd_repr s1 (delete fd m) → fd_world s1 = fd_world s →
  ∃ s2, drop_file f s1 = Done (s2, Ok tt) ∧ csys_ok [] s2 (delete fd m) ∧
    ∀ a, f = SocketFile a → (∀ fd', m !! fd' = Some f → fd' = fd) → w_objects (fd_world s2) !! a = None.
Proof.
  intros Hs Hf s1 Hr1 Hw1. destruct f as [a|g]; cbn [drop_file].
  2: { exists s1. split; [done|]. split; [|by intros a [=]]. destruct Hs as [H1 H2 H3]. split; [done|..].
       - rewrite Hw1. intros a. rewrite H2. split; intros (fd' & Hfd'); exists fd'.
         + rewrite lookup_delete_ne; [done|]. intros ->. congruence.
         + apply lookup_delete_Some in Hfd' as [_ ?]. done.
       - by rewrite Hw1. }
  unfold mbind, stm_bind, get, of_outcome.
  destruct (referenced_spec s1 (delete fd m) a Hr1 (Z.to_nat AX_FILE_LIMIT)) as (b & -> & Hb). destruct b.
  - exists s1. split; [done|]. destruct (proj1 Hb eq_refl) as (fd1 & _ & [Hne Hfd1]%lookup_delete_Some).
    split; [|intros a' [= <-] Hone; by apply Hone in Hfd1].
    destruct Hs as [H1 H2 H3]. split; [done| |by rewrite Hw1].
    rewrite Hw1. intros a'. rewrite H2. split; intros (fd' & Hfd').
    + destruct (decide (fd' = fd)) as [->|]; [|exists fd'; by rewrite lookup_delete_ne].
      exists fd1. rewrite lookup_delete_ne by done. congruence.
    + apply lookup_delete_Some in Hfd' as [_ ?]. by exists fd'.
  - assert (∀ fd', fd' ≠ fd → m !! fd' ≠ Some (SocketFile a)) as Hno.
    { intros fd' Hne Hfd'. enough (false = true) by done. apply Hb. exists fd'. split; [|by rewrite lookup_delete_ne].
      pose proof (repr_bound _ _ _ _ (ck_table _ _ _ Hs) Hfd'). unfold AX_FILE_LIMIT in *. lia. }
    destruct (proj2 (ck_objects _ _ _ Hs a)) as [x Hx]; [by exists fd|]. rewrite Hw1, Hx. unfold modify.
    assert (csys_ok (socket_own x) (with_world (Build_world (w_net (fd_world s)) (delete a (w_objects (fd_world s)))) s1) (delete fd m)) as Hs1.
    { destruct Hs as [H1 H2 H3]. split; cbn; [done| |].
      - intros a'. rewrite lookup_delete_is_Some, H2. split.
        + intros (Hne & fd' & Hfd'). exists fd'. rewrite lookup_delete_ne; [done|]. intros ->. congruence.
        + intros (fd' & [Hne Hfd']%lookup_delete_Some). split; [intros <-; by apply (Hno fd')|by exists fd'].
      - eapply net_ok_perm; [|exact H3]. cbn. by rewrite (objects_own_delete _ a x Hx). }
    destruct (on_net_ends _ _ _ (drop_socket x) (λ _, []) Hs1) as (s2 & [] & Hd & Hs2); [intros rest; apply drop_socket_spec|].
    rewrite Hd. exists s2. split; [done|]. split; [done|]. intros a' [= <-] _.
    revert Hd. unfold on_net. destruct (drop_socket _ _) as [[w' r]|]; [|done]. intros [= <- _]. cbn. apply lookup_delete_eq.
Qed.

(** ** Calls *)

(** Whenever the call returns, it has kept the invariant. *)
Definition safe {T} (c : waiting st LinuxError T) : Prop :=
  ∀ s m, csys_ok [] s m → ends (c s) (λ _ s', ∃ m', csys_ok [] s' m').

Lemma safe_pure {T} (c : stm st LinuxError T) : (∀ s, ∃ r, c s = Done (s, r)) → safe (at_once c).
Proof. intros Hc s m Hs. unfold at_once. destruct (Hc s) as [r ->]. by exists m. Qed.

Lemma safe_ret {T} (t : T) : safe (mret t).
Proof. intros s m Hs. by exists m. Qed.

Lemma safe_fail {T} e : safe (T := T) (fail e).
Proof. intros s m Hs. by exists m. Qed.

Lemma safe_bind {T U} (c : waiting st LinuxError T) (f : T → waiting st LinuxError U) :
  safe c → (∀ t, safe (f t)) → safe (c ≫= f).
Proof.
  intros Hc Hf s m Hs. pose proof (Hc s m Hs) as He. unfold mbind, waiting_bind.
  destruct (c s) as [[[s1 [t|e]]|]|]; [|done..]. destruct He as [m1 Hs1]. by apply (Hf t s1 m1).
Qed.

Lemma safe_sockaddr addr : safe (at_once (of_outcome (as_c_sockaddr addr))).
Proof. apply safe_pure. intros s. destruct (as_c_sockaddr_done addr) as (bytes & Hb & _). exists (Ok bytes). unfold of_outcome. by rewrite Hb. Qed.

Lemma safe_from_c addr len : safe (at_once (from_c_sockaddr addr len)).
Proof. apply safe_pure. intros s. apply from_c_sockaddr_done. Qed.

(** A method on the object of a descriptor. *)
Lemma with_socket_ends {T} ex s m fd a (f : method T) extra : csys_ok ex s m → m !! fd = Some (SocketFile a) →
  method_ok f extra → ends (with_socket a f s) (λ r s', csys_ok (extra r ++ ex) s' m).
Proof.
  intros Hs Hfd Hf. destruct (proj2 (ck_objects _ _ _ Hs a)) as [x Hx]; [by exists fd|].
  unfold with_socket. rewrite Hx.
  assert (net_ok (w_net (fd_world s)) (socket_own x ++ ex ++ objects_own (delete a (w_objects (fd_world s))))) as Hw.
  { eapply net_ok_perm; [|apply (ck_net _ _ _ Hs)]. rewrite (objects_own_delete _ a x Hx). solve_Permutation. }
  pose proof (Hf x _ _ Hw) as He. destruct (f x _) as [[[w' [x' r]]|]|]; [|done..]. cbn in He |- *.
  eapply csys_ok_method; [exact Hs|exact Hx|]. eapply net_ok_perm; [|exact He]. solve_Permutation.
Qed.

Lemma safe_method {T U} fd (f : method T) (k : T → waiting st LinuxError U) :
  is_cint fd → method_ok f (λ _, []) → (∀ t, safe (k t)) →
  safe (a ← at_once (from_fd fd); t ← with_socket a f; k t).
Proof.
  intros Hc Hf Hk s m Hs. unfold mbind, waiting_bind, at_once. rewrite (from_fd_spec s m) by (done || apply Hs).
  destruct (m !! fd) as [[a|g]|] eqn:Hfd; [|by exists m..].
  pose proof (with_socket_ends [] s m fd a f _ Hs Hfd Hf) as He.
  destruct (with_socket a f s) as [[[s1 [t|e]]|]|]; [|cbn in *; by exists m|done..]. by apply (Hk t s1 m).
Qed.

Lemma safe_call {T} fd (f : method T) : is_cint fd → method_ok f (λ _, []) →
  safe (a ← at_once (from_fd fd); with_socket a f).
Proof.
  intros Hc Hf s m Hs. unfold mbind, waiting_bind, at_once. rewrite (from_fd_spec s m) by (done || apply Hs).
  destruct (m !! fd) as [[a|g]|] eqn:Hfd; [|by exists m..].
  eapply ends_mono; [exact (with_socket_ends [] s m fd a f _ Hs Hfd Hf)|]. intros r s' Hs'. by exists m.
Qed.

Lemma safe_add x s m : csys_ok (socket_own x) s m →
  ∃ s' r m', add_to_fd_table x s = Done (s', r) ∧ csys_ok [] s' m'.
Proof.
  intros Hs. rewrite <- (app_nil_r (socket_own x)) in Hs. destruct (add_to_fd_table_spec [] s m x Hs) as (s' & [fd|e] & Hr & Hres); exists s'.
  - destruct Hres as (_ & _ & _ & a & _ & _ & _ & Hs'). eexists _, _. by split.
  - destruct Hres as (_ & _ & Hs'). eexists _, _. by split.
Qed.

Lemma socket_safe d t p : safe (ax_socket d t p).
Proof.
  assert (∀ X (new : stm (net I) AxError X) (mk : X → socket),
    (∀ rest, runs rest new (λ y, socket_own (mk y) ++ rest)) →
    safe (at_once (y ← on_net new; add_to_fd_table (mk y)))) as Hnew.
  { intros X new mk Hn s m Hs. unfold at_once, mbind, stm_bind.
    destruct (on_net_ends [] s m new (λ y, socket_own (mk y)) Hs) as (s1 & y & -> & Hs1).
    { intros rest. apply Hn. }
    destruct (safe_add (mk y) s1 m Hs1) as (s2 & r & m2 & -> & Hs2). by exists m2. }
  unfold ax_socket. cbv zeta. destruct (_ && _); [apply (Hnew _ tcp_new Tcp); intros; apply tcp_new_spec|].
  destruct (_ && _); [apply (Hnew _ udp_new Udp); intros; apply udp_new_spec|apply safe_fail].
Qed.

Lemma accept_safe fd n1 n2 : is_cint fd → safe (ax_accept env fuel fd n1 n2).
Proof.
  intros Hc. unfold ax_accept. destruct (_ || _); [apply safe_fail|]. intros s m Hs.
  unfold mbind at 1, waiting_bind at 1, at_once at 1. rewrite (from_fd_spec s m) by (done || apply Hs).
  destruct (m !! fd) as [[a|g]|] eqn:Hfd; [|by exists m..].
  pose proof (with_socket_ends [] s m fd a _ _ Hs Hfd accept_ok) as He. unfold mbind at 1, waiting_bind at 1.
  destruct (with_socket a (accept env fuel) s) as [[[s1 [t|e]]|]|]; [|cbn in He |- *; by exists m|done..].
  cbn in He. rewrite app_nil_r in He. destruct (tcp_peer_addr t) as [addr|e].
  - unfold mbind at 1, waiting_bind at 1, at_once at 1.
    destruct (safe_add (Tcp t) s1 m He) as (s2 & [new|e] & m2 & -> & Hs2); [|by exists m2].
    apply (safe_bind _ _ (safe_sockaddr addr) (λ bytes, safe_ret (new, bytes)) s2 m2 Hs2).
  - unfold at_once, mbind, stm_bind.
    destruct (on_net_ends _ s1 m (tcp_drop t) (λ _, []) He) as (s2 & [] & -> & Hs2); [intros rest; apply tcp_drop_spec|].
    by exists m.
Qed.

Lemma resolve_safe domain : safe (resolve env fuel domain).
Proof.
  intros s m Hs. unfold resolve.
  assert (ends (resolve_socket_addr env fuel domain (w_net (fd_world s)))
    (λ _ w', net_ok w' (objects_own (w_objects (fd_world s))))) as He.
  { unfold resolve_socket_addr, dns_new.
    destruct (socket_add_spec _ (DnsSock new_dns_socket) _ (ck_net _ _ _ Hs)) as (w1 & h & -> & Hw1). cbn [kind_of app] in Hw1.
    unfold dns_query. destruct (dns_start_spec _ h domain w1 Hw1) as (w2 & [q|e] & -> & Hw2).
    2: { by destruct (socket_remove_spec _ h KDns w2 Hw2) as (w3 & [] & -> & Hw3). }
    pose proof (block_on_ends false (dns_attempt h q) _ (λ _, (h, KDns) :: objects_own (w_objects (fd_world s))) 0 w2
      (dns_attempt_spec _ h q) eq_refl Hw2) as Hb.
    destruct (block_on _ _ _ _ _ _) as [[[w3 r]|]|]; [|done..]. cbn in Hb.
    by destruct (socket_remove_spec _ h KDns w3 Hb) as (w4 & [] & -> & Hw4). }
  destruct (resolve_socket_addr _ _ _ _) as [[[w' r]|]|]; [|done..]. exists m. by eapply csys_ok_net.
Qed.

Lemma resolve_sockaddr_safe node service null len : safe (ax_resolve_sockaddr env fuel node service null len).
Proof.
  unfold ax_resolve_sockaddr. cbv zeta. destruct (_ || _); [apply safe_fail|]. apply safe_bind.
  - destruct (char_ptr_to_str node) as [domain|]; [|apply safe_ret].
    destruct (ip_parse _); [apply safe_ret|apply resolve_safe].
  - intros res. apply safe_bind; [|intros; apply safe_ret]. apply safe_pure. intros s. unfold of_outcome.
    destruct (store_addrs_done (match char_ptr_to_str service with Ok p => default 0 (parse_u16 p) | Err _ => 0 end) res len)
      as (l & -> & _). by eexists.
Qed.

Lemma close_safe fd : is_cint fd → safe (at_once (close_socket_file fd)).
Proof.
  intros Hc s m Hs. unfold at_once, close_socket_file, mbind, stm_bind.
  rewrite (get_file_like_spec s m) by (done || apply Hs). destruct (m !! fd) as [f|] eqn:Hf; [|by exists m]. cbn [ok_or].
  destruct (close_spec s m fd (ck_table _ _ _ Hs) Hc) as (s1 & -> & _ & Hw & Hr). rewrite Hf.
  destruct (drop_file_spec s m fd f Hs Hf s1 Hr Hw) as (s2 & -> & Hs2 & _). by exists (delete fd m).
Qed.

Lemma dup_safe fd : is_cint fd → safe (at_once (dup_fd fd)).
Proof.
  intros Hc s m Hs. unfold at_once.
  destruct (dup_fd_spec s m fd (ck_table _ _ _ Hs) Hc) as (s' & r & -> & _ & Hw & Hres). cbn [ends].
  destruct r as [new|e]; [|exists m; split; [apply Hres|rewrite Hw; apply Hs..]].
  destruct Hres as (f & Hf & _ & Hfree & _ & Hr). exists (<[new := f]> m). split; rewrite ?Hw; [done| |apply Hs].
  intros a. rewrite (ck_objects _ _ _ Hs a). split.
  - intros (fd' & Hfd'). exists fd'. rewrite lookup_insert_ne; [done|]. intros ->. congruence.
  - intros (fd' & [[_ Heq]|[_ Hfd']]%lookup_insert_Some); [exists fd; congruence|by exists fd'].
Qed.

(** ** Histories *)

(** The calls of a program. *)
Inductive c_call :=
| DoSocket (domain socktype protocol : Z)
| DoBind (fd : Z) (addr : option (list Z)) (addrlen : Z)
| DoConnect (fd : Z) (addr : option (list Z)) (addrlen : Z)
| DoSendto (fd : Z) (buf addr : option (list Z)) (addrlen : Z)
| DoSend (fd : Z) (buf : option (list Z))
| DoRecvfrom (fd : Z) (buf_null : bool) (n : nat) (addr_null addrlen_null : bool)
| DoRecv (fd : Z) (buf_null : bool) (n : nat)
| DoListen (fd : Z)
| DoAccept (fd : Z) (addr_null addrlen_null : bool)
| DoShutdown (fd : Z)
| DoResolve (node service : option (list Z)) (addr_null : bool) (n : nat)
| DoGetsockname (fd : Z) (addr_null : bool) (addrlen : option Z)
| DoGetpeername (fd : Z) (addr_null : bool) (addrlen : option Z)
| DoSetfl (fd arg : Z)
| DoClose (fd : Z)
| DoDup (fd : Z).

Definition c_call_ok (c : c_call) : Prop :=
  match c with
  | DoSocket _ _ _ | DoResolve _ _ _ _ => True
  | DoBind fd _ _ | DoConnect fd _ _ | DoSendto fd _ _ _ | DoSend fd _ | DoRecvfrom fd _ _ _ _ | DoRecv fd _ _
  | DoListen fd | DoAccept fd _ _ | DoShutdown fd | DoGetsockname fd _ _ | DoGetpeername fd _ _ | DoSetfl fd _
  | DoClose fd | DoDup fd => is_cint fd
  end.

(** The calls that may wait. *)
Definition c_waits (c : c_call) : bool :=
  match c with
  | DoConnect _ _ _ | DoSendto _ _ _ _ | DoSend _ _ | DoRecvfrom _ _ _ _ _ | DoRecv _ _ _ | DoAccept _ _ _
  | DoResolve _ _ _ _ => true
  | _ => false
  end.

(** The result of the call. *)
Definition c_body (c : c_call) : waiting st LinuxError Z :=
  match c with
  | DoSocket d t p => ax_socket d t p
  | DoBind fd a l => ax_bind fd a l
  | DoConnect fd a l => ax_connect env fuel fd a l
  | DoSendto fd b a l => c_sendto env fuel fd b a l
  | DoSend fd b => ax_send env fuel fd b
  | DoRecvfrom fd bn n an ln => r ← c_recvfrom env fuel fd bn n an ln; mret (len r.1)
  | DoRecv fd bn n => r ← ax_recv env fuel fd bn n; mret (len r)
  | DoListen fd => ax_listen fd
  | DoAccept fd an ln => r ← ax_accept env fuel fd an ln; mret r.1
  | DoShutdown fd => ax_shutdown fd
  | DoResolve node service an n => r ← ax_resolve_sockaddr env fuel node service an n; mret r.1
  | DoGetsockname fd an l => r ← ax_getsockname fd an l; mret r.1
  | DoGetpeername fd an l => r ← ax_getpeername fd an l; mret r.1
  | DoSetfl fd arg => ax_setfl fd arg
  | DoClose fd => if (0 <=? fd) && (fd <? 2) then mret 0 else _ ← at_once (close_socket_file fd); mret 0
  | DoDup fd => at_once (dup_fd fd)
  end.

(** The call with its [ax_call_body!]. *)
Definition run_c_call (c : c_call) (s : st) : option (outcome (st * Z)) :=
  match c_body c s with Some o => Some (ax_call_body (λ _, o) s) | None => None end.

Fixpoint run_c_calls (cs : list c_call) (s : st) : option (outcome st) :=
  match cs with
  | [] => Some (Done s)
  | c :: cs =>
      match run_c_call c s with
      | Some (Done (s, _)) => run_c_calls cs s
      | Some Panic => Some Panic
      | None => None
      end
  end.

Lemma c_body_safe c : c_call_ok c → safe (c_body c).
Proof.
  destruct c; cbn [c_call_ok c_body]; intros Hc.
  - apply socket_safe.
  - apply safe_bind; [apply safe_from_c|]. intros addr'. apply safe_method; [done|apply bind_ok|intros; apply safe_ret].
  - apply safe_bind; [apply safe_from_c|]. intros addr'. apply safe_method; [done|apply connect_ok|intros; apply safe_ret].
  - unfold c_sendto, ax_send, ax_sendto. destruct (_ && _), buf; try apply safe_fail.
    + apply safe_call; [done|apply send_ok].
    + apply safe_bind; [apply safe_from_c|]. intros addr'. apply safe_call; [done|apply sendto_ok].
  - unfold ax_send. destruct buf; [apply safe_call; [done|apply send_ok]|apply safe_fail].
  - apply safe_bind; [|intros; apply safe_ret]. unfold c_recvfrom, ax_recv, ax_recvfrom. destruct addr_null.
    + apply safe_bind; [|intros; apply safe_ret]. destruct buf_null; [apply safe_fail|apply safe_call; [done|apply recv_ok]].
    + destruct (_ || _); [apply safe_fail|]. apply safe_method; [done|apply recvfrom_ok|]. intros [bytes [addr|]]; [|apply safe_ret].
      apply safe_bind; [apply safe_sockaddr|intros; apply safe_ret].
  - apply safe_bind; [|intros; apply safe_ret]. unfold ax_recv.
    destruct buf_null; [apply safe_fail|apply safe_call; [done|apply recv_ok]].
  - apply safe_method; [done|apply listen_ok|intros; apply safe_ret].
  - apply safe_bind; [by apply accept_safe|intros; apply safe_ret].
  - apply safe_method; [done|apply shutdown_ok|intros; apply safe_ret].
  - apply safe_bind; [apply resolve_sockaddr_safe|intros; apply safe_ret].
  - apply safe_bind; [|intros; apply safe_ret]. unfold ax_getsockname. destruct addrlen; [|apply safe_fail].
    destruct addr_null; [apply safe_fail|]. destruct (_ <? _); [apply safe_fail|].
    apply safe_method; [done|apply local_addr_ok|]. intros addr. apply safe_bind; [apply safe_sockaddr|intros; apply safe_ret].
  - apply safe_bind; [|intros; apply safe_ret]. unfold ax_getpeername. destruct addrlen; [|apply safe_fail].
    destruct addr_null; [apply safe_fail|]. destruct (_ <? _); [apply safe_fail|].
    apply safe_method; [done|apply peer_addr_ok|]. intros addr. apply safe_bind; [apply safe_sockaddr|intros; apply safe_ret].
  - apply safe_method; [done|apply set_nonblocking_ok|intros; apply safe_ret].
  - destruct (_ && _); [apply safe_ret|]. apply safe_bind; [by apply close_safe|intros; apply safe_ret].
  - by apply dup_safe.
Qed.

(** Calls that return, in every state. *)
Definition prompt {T} (c : waiting st LinuxError T) : Prop := ∀ s, is_Some (c s).

Lemma prompt_at_once {T} (c : stm st LinuxError T) : prompt (at_once c).
Proof. intros s. by eexists. Qed.

Lemma prompt_bind {T U} (c : waiting st LinuxError T) (f : T → waiting st LinuxError U) :
  prompt c → (∀ t, prompt (f t)) → prompt (c ≫= f).
Proof.
  intros Hc Hf s. unfold mbind, waiting_bind. destruct (Hc s) as [[[s1 [t|e]]|] ->]; [apply Hf|by eexists..].
Qed.

Lemma prompt_with_socket {T} a (f : method T) : (∀ x w, is_Some (f x w)) → prompt (with_socket a f).
Proof.
  intros Hf s. unfold with_socket. destruct (w_objects _ !! a) as [x|]; [|by eexists].
  destruct (Hf x (w_net (fd_world s))) as [[[w [x' r]]|] ->]; by eexists.
Qed.

Lemma prompt_method {T U} fd (f : method T) (k : T → waiting st LinuxError U) :
  (∀ x w, is_Some (f x w)) → (∀ t, prompt (k t)) → prompt (a ← at_once (from_fd fd); t ← with_socket a f; k t).
Proof.
  intros Hf Hk. apply prompt_bind; [apply prompt_at_once|]. intros a.
  apply prompt_bind; [by apply prompt_with_socket|done].
Qed.

Lemma updating_some {T} (mk : T → socket) x (o : option (outcome (net I * _))) : is_Some o → is_Some (updating mk x o).
Proof. intros [[[w [t|e]]|] ->]; by eexists. Qed.

Lemma keeping_some {T U} (g : T → U) x (o : option (outcome (net I * _))) : is_Some o → is_Some (keeping g x o).
Proof. intros [[[w r]|] ->]; by eexists. Qed.

Lemma c_body_prompt c : c_waits c = false → prompt (c_body c).
Proof.
  destruct c; cbn [c_waits c_body]; try discriminate; intros _.
  - apply prompt_at_once.
  - apply prompt_bind; [apply prompt_at_once|]. intros addr'. apply prompt_method; [|intros; by apply prompt_at_once].
    intros [u|t] w; unfold bind; by apply updating_some.
  - apply prompt_method; [|intros; apply prompt_at_once]. intros [u|t] w; unfold listen; [by eexists|].
    destruct (AxNet.listen t w) as [[w' [[t' r]|e]]|]; by eexists.
  - apply prompt_method; [|intros; apply prompt_at_once]. intros [u|t] w; unfold shutdown.
    + destruct (udp_peer_addr u); [by apply keeping_some|by eexists].
    + destruct (tcp_peer_addr t); [by apply keeping_some|by eexists].
  - apply prompt_bind; [|intros; apply prompt_at_once]. unfold ax_getsockname. destruct addrlen; [|apply prompt_at_once].
    destruct addr_null; [apply prompt_at_once|]. destruct (_ <? _); [apply prompt_at_once|].
    apply prompt_method; [by intros [u|t] w; eexists|]. intros addr. apply prompt_bind; intros; apply prompt_at_once.
  - apply prompt_bind; [|intros; apply prompt_at_once]. unfold ax_getpeername. destruct addrlen; [|apply prompt_at_once].
    destruct addr_null; [apply prompt_at_once|]. destruct (_ <? _); [apply prompt_at_once|].
    apply prompt_method; [by intros [u|t] w; eexists|]. intros addr. apply prompt_bind; intros; apply prompt_at_once.
  - apply prompt_method; [by intros x w; eexists|intros; apply prompt_at_once].
  - destruct (_ && _); [apply prompt_at_once|]. apply prompt_bind; intros; apply prompt_at_once.
  - apply prompt_at_once.
Qed.

Lemma csys_ok_errno ex s m e : csys_ok ex s m →
  csys_ok ex {| fd_table := fd_table s; errno := e; fd_world := fd_world s |} m.
Proof. intros [H1 H2 H3]. by split. Qed.

Lemma run_c_calls_ok cs : ∀ s m, csys_ok [] s m → Forall c_call_ok cs →
  match run_c_calls cs s with
  | Some (Done s') => ∃ m', csys_ok [] s' m'
  | Some Panic => False
  | None => Exists (λ c, c_waits c = true) cs
  end.
Proof.
  induction cs as [|c cs IH]; intros s m Hs Hok; cbn [run_c_calls]; [by exists m|].
  apply Forall_cons in Hok as [Hc Hok]. unfold run_c_call. pose proof (c_body_safe c Hc s m Hs) as He.
  destruct (c_body c s) as [[[s1 r]|]|] eqn:Hb; [|done|].
  - cbn [ends] in He. destruct He as [m1 Hs1].
    assert (∃ s2 v m2, ax_call_body (λ _, Done (s1, r)) s = Done (s2, v) ∧ csys_ok [] s2 m2) as (s2 & v & m2 & -> & Hs2).
    { unfold ax_call_body. destruct r as [v|e]; eexists _, _, m1; (split; [done|]); [done|by apply csys_ok_errno]. }
    pose proof (IH s2 m2 Hs2 Hok) as Hrec. destruct (run_c_calls cs s2) as [[s3|]|]; [done..|by apply Exists_cons_tl].
  - apply Exists_cons_hd. destruct (c_waits c) eqn:Hw; [done|]. destruct (c_body_prompt c Hw s) as [o Ho]. congruence.
Qed.

(** The state at the start: the network is up, and three descriptors are
    open. *)
Definition c_boot (d : I) (now : Z) (g : G) : outcome st :=
  w ← net_init d QS now false;
  t ← fd_table_init (OtherFile g) (OtherFile g) (OtherFile g);
  Done {| fd_table := t; errno := None; fd_world := Build_world w ∅ |}.

Lemma c_boot_ok d now g : new_queue d = Some 0 → (QS < 128)%nat →
  (∀ mac, ∃ i i', iface_push_ip (ip_v4 10 0 2 15) 24 (iface_new mac RANDOM_SEED) = Some i ∧
     iface_default_route (ip_v4 10 0 2 2) i = Some i') →
  ∃ s m, c_boot d now g = Done s ∧ csys_ok [] s m.
Proof.
  intros Hd HQ Hi. unfold c_boot. destruct (net_init_ok d now Hd HQ Hi) as (w & -> & Hw & _). cbn [mbind outcome_bind].
  destruct (fd_table_init_spec (OtherFile g) (OtherFile g) (OtherFile g)) as (t & -> & Ht). cbn [mbind outcome_bind].
  eexists _, _. split; [done|]. split; cbn; [exact Ht| |done]. intros a. rewrite lookup_empty. split; [by intros [? ?]|].
  intros (fd & Hfd). rewrite !lookup_insert_Some in Hfd. naive_solver.
Qed.


(** ** Accepting a connection *)

(** C17: [ax_accept] on a descriptor that listens returns as soon as a
    connection is there: the least free descriptor refers to a new object
    with the first connection of the queue, and the address of the peer is
    stored as a [sockaddr] in network byte order.  When no descriptor is free,
    the call fails with [EMFILE], and the connection is closed and given
    back to the stack. *)
Theorem ax_accept_returns s m fd a t addr n w1 q i h peer :
  csys_ok [] s m → is_cint fd → m !! fd = Some (SocketFile a) → w_objects (fd_world s) !! a = Some (Tcp t) →
  tcp_handle t = None → tcp_local t = Some addr → tcp_nonblock t = false →
  connects env (sa_port addr) n 0 (w_net (fd_world s)) w1 q i h → (n < fuel)%nat →
  peer_of w1 h = Some peer → 0 ≤ sa_port peer < 65536 →
  ∃ s' r, ax_accept env fuel fd false false s = Some (Done (s', r)) ∧
  match r with
  | Ok (new, bytes) => 0 ≤ new < AX_FILE_LIMIT ∧ m !! new = None ∧ (∀ j, 0 ≤ j < new → is_Some (m !! j)) ∧
      bytes = [2; 0; sa_port peer / 256; sa_port peer mod 256] ++ ip_as_bytes (sa_addr peer) ++ replicate 8 0 ∧
      ∃ b, w_objects (fd_world s) !! b = None ∧ csys_ok [] s' (<[new := SocketFile b]> m) ∧
        w_objects (fd_world s') !! b = Some (Tcp
          {| tcp_handle := Some h; tcp_local := Some addr; tcp_peer := Some peer; tcp_nonblock := false |})
  | Err e => e = EMFILE ∧ (∀ j, 0 ≤ j < AX_FILE_LIMIT → is_Some (m !! j)) ∧ csys_ok [] s' m
  end.
Proof.
  intros Hs Hc Hfd Ha Hh Hl Hnb Hcon Hf Hp Hport. unfold ax_accept. cbn [orb].
  unfold mbind at 1, waiting_bind at 1, at_once at 1. rewrite (from_fd_spec s m), Hfd by (done || apply Hs).
  pose proof (with_socket_ends [] s m fd a _ _ Hs Hfd accept_ok) as He. revert He.
  unfold mbind at 1, waiting_bind at 1, with_socket at 1 2. rewrite Ha. unfold accept.
  rewrite (accept_eq env t addr (objects_own (w_objects (fd_world s))) n fuel _ w1 q i h
    (env_ok _) (ck_net _ _ _ Hs) Hh Hl Hnb Hcon Hf). cbn [keeping to_linux result_fmap fmap id ends accept_extra].
  set (new := {| tcp_handle := Some h; tcp_local := Some addr; tcp_peer := peer_of w1 h; tcp_nonblock := false |}).
  set (s1 := with_world _ s). rewrite app_nil_r. intros He. unfold tcp_peer_addr. cbn [tcp_peer new]. rewrite Hp. cbn [ok_or].
  unfold mbind at 1, waiting_bind at 1, at_once at 1.
  destruct (add_to_fd_table_spec [] s1 m (Tcp new)) as (s2 & [fd'|e] & -> & Hres); [by rewrite app_nil_r| |].
  - destruct Hres as (Hr & Hfree & Hleast & b & Hb & Hobj & _ & Hs2). destruct peer as [ip port]. cbn [sa_addr sa_port] in *.
    unfold mbind at 1, waiting_bind at 1, at_once at 1, of_outcome. rewrite (as_c_sockaddr_eq ip port Hport).
    eexists s2, (Ok (fd', _)). split; [done|]. split_and!; [lia..|done|done|done|]. exists b. split_and!; [|done|].
    + cbn in Hb. destruct (decide (b = a)) as [->|]; [by rewrite lookup_insert_eq in Hb|by rewrite lookup_insert_ne in Hb].
    + rewrite Hobj, lookup_insert_eq. subst new. by rewrite Hp.
  - eexists s2, (Err e). by split.
Qed.

(** ** A defect *)

(** [recv] on a UDP socket takes the next datagram, whoever sent it, also when
    the socket is connected to another peer; [UdpSocket::recv] would drop
    it. *)
Theorem recv_takes_any_sender u n w w1 y y' bytes from :
  poll_interfaces w = Done (w1, Ok tt) → set_lookup (sockets w1) (udp_handle u) = Some (UdpSock y) →
  udp_is_open y = true → udp_can_recv y = true → udp_recv_slice n y = (y', Ok (bytes, from)) →
  ∃ w2, recv env (S fuel) n (Udp u) w = Some (Done (w2, (Udp u, Ok bytes))).
Proof.
  intros Hp Hy Ho Hc Hr. unfold recv, udp_recv_from, recv_impl. cbn [block_on].
  unfold mbind at 1, stm_bind at 1. rewrite Hp. unfold udp_recv_attempt, mbind, stm_bind, with_udp.
  rewrite Hy, Ho, Hc. unfold recv_from_op. rewrite Hr. by eexists.
Qed.

End invariant.

(** ** Examples *)

#[global] Instance toy_ip : IpAddress := {|
  ip_as_bytes x := to_be_bytes 4 x;
  ip_parse _ := None;
|}.

#[global] Instance toy_ip_laws : IpAddressLaws.
Proof.
  split.
  - intros a b c d Ha Hb Hc Hd. cbn [ip_as_bytes toy_ip ip_v4 toy]. unfold to_be_bytes.
    replace (((a * 256 + b) * 256 + c) * 256 + d) with (mem_value [d; c; b; a]) by (cbn; lia).
    pose proof (mem_bytes_value [d; c; b; a]) as Hm. cbn [length] in Hm. rewrite Hm; [done|].
    repeat constructor; try apply Ha; try apply Hb; try apply Hc; apply Hd.
  - intros x. cbn [ip_as_bytes toy_ip]. unfold to_be_bytes. split; [by rewrite length_reverse, mem_bytes_length|].
    rewrite Forall_reverse. apply mem_bytes_range.
Qed.

Definition idle (k : nat) (w : net wire) : net wire := w.

Lemma idle_ok rest k w : net_ok w rest → net_ok (idle k w) rest.
Proof. done. Qed.

(** A server on port 80: the address is 0.0.0.9. *)
Definition server_addr : list Z := [2; 0; 0; 80; 0; 0; 0; 9; 0; 0; 0; 0; 0; 0; 0; 0].

Definition server_calls : list c_call := [DoSocket 2 1 0; DoBind 3 (Some server_addr) 16; DoListen 3].

Lemma server_calls_ok : Forall c_call_ok server_calls.
Proof. repeat constructor; unfold is_cint; lia. Qed.

Lemma sockaddr_roundtrip_witness : ∃ bytes, as_c_sockaddr (SockAddr (ip_v4 10 0 2 15) 8080) = Done bytes ∧
  bytes = [2; 0; 31; 144; 10; 0; 2; 15; 0; 0; 0; 0; 0; 0; 0; 0].
Proof.
  destruct (sockaddr_roundtrip tt 10 0 2 15 8080) as (bytes & Hb & He & _); [repeat constructor; unfold is_byte; lia|lia|].
  exists bytes. exact (conj Hb He).
Defined.


(** The server after its calls, and the state after one poll. *)
Definition serving (o : outcome (fd_state (gset Z) (sfile unit) (world wire))) :=
  match o with
  | Done s0 =>
      match run_c_calls idle 1 server_calls s0 with
      | Some (Done s) => (λ w1, (s, w1)) <$> poll_once (w_net (fd_world s))
      | _ => None
      end
  | Panic => None
  end.

Definition the_listener (s : fd_state (gset Z) (sfile unit) (world wire)) : option (nat * TcpSocket handle ip_addr) :=
  match from_fd 3 s with
  | Done (_, Ok a) => match w_objects (fd_world s) !! a with Some (Tcp t) => Some (a, t) | _ => None end
  | _ => None
  end.

Definition serving_check (r : option (fd_state (gset Z) (sfile unit) (world wire) * net wire)) : bool :=
  match r with
  | Some (s, w1) =>
      match the_listener s with
      | Some (a, t) =>
          bool_decide (tcp_handle t = None) && bool_decide (tcp_local t = Some (SockAddr 9 80)) &&
          bool_decide (tcp_nonblock t = false) && bool_decide (listen_table w1 !! 80 = Some [1%nat]) &&
          bool_decide (first_connected w1 [1%nat] = Some (0%nat, 1%nat)) &&
          bool_decide (peer_of w1 1%nat = Some (SockAddr 7 1000))
      | None => false
      end
  | None => false
  end.

Lemma serving_ok : serving_check (serving (c_boot (QS := 4) (card_with [syn80]) 0 tt)) = true.
Proof. vm_compute. reflexivity. Qed.

Lemma the_listener_file s m a t : csys_ok (QS := 4) [] s m → the_listener s = Some (a, t) →
  m !! 3 = Some (SocketFile a) ∧ w_objects (fd_world s) !! a = Some (Tcp t).
Proof.
  intros Hs. unfold the_listener. rewrite (from_fd_spec s m) by (apply Hs || unfold is_cint; lia).
  destruct (m !! 3) as [[a'|g]|]; [|done..]. destruct (w_objects _ !! a') as [[u|t']|] eqn:Ho; [done| |done].
  intros [= <- <-]. done.
Qed.

Lemma serving_state : ∃ (s : fd_state (gset Z) (sfile unit) (world wire)) m a t w1, csys_ok (QS := 4) [] s m ∧
  m !! 3 = Some (SocketFile a) ∧ w_objects (fd_world s) !! a = Some (Tcp t) ∧
  poll_interfaces (w_net (fd_world s)) = Done (w1, Ok tt) ∧ tcp_handle t = None ∧ tcp_local t = Some (SockAddr 9 80) ∧
  tcp_nonblock t = false ∧ listen_table w1 !! 80 = Some [1%nat] ∧ first_connected w1 [1%nat] = Some (0%nat, 1%nat) ∧
  peer_of w1 1%nat = Some (SockAddr 7 1000).
Proof.
  pose proof serving_ok as Hc.
  destruct (c_boot_ok (QS := 4) (B := gset Z) (G := unit) (card_with [syn80]) 0 tt) as (s0 & m0 & Hb & Hs0);
    [vm_compute; reflexivity|lia|apply toy_iface_ok|]. rewrite Hb in Hc. unfold serving in Hc.
  pose proof (run_c_calls_ok idle 1 idle_ok server_calls s0 m0 Hs0 server_calls_ok) as Hr.
  destruct (run_c_calls idle 1 server_calls s0) as [[s|]|]; [|discriminate Hc..]. destruct Hr as [m Hs].
  unfold poll_once in Hc. destruct (poll_interfaces (w_net (fd_world s))) as [[w1 [[]|]]|] eqn:Hp; try discriminate Hc.
  cbn [fmap option_fmap option_map serving_check] in Hc. destruct (the_listener s) as [[a t]|] eqn:Hl; [|discriminate Hc].
  destruct (the_listener_file s m a t Hs Hl) as [Hm Ho]. exists s, m, a, t, w1. split; [exact Hs|]. split; [exact Hm|].
  split; [exact Ho|]. split; [exact Hp|]. clear Hp Hs. bool_to_prop.
  repeat match goal with H : bool_decide _ = true |- _ => apply bool_decide_eq_true in H end. split_and!; assumption.
Qed.

Lemma ax_accept_returns_witness : ∃ s s' r, ax_accept (B := gset Z) (G := unit) idle 1 3 false false s = Some (Done (s', r)) ∧
  match r with
  | Ok (_, bytes) => bytes = [2; 0; 3; 232; 0; 0; 0; 7] ++ replicate 8 0
  | Err e => e = EMFILE
  end.
Proof.
  destruct serving_state as (s & m & a & t & w1 & Hs & Hm & Ho & Hp & Hh & Hl & Hnb & Hq & Hf & Hpeer).
  destruct (ax_accept_returns (QS := 4) idle 1 idle_ok s m 3 a t (SockAddr 9 80) 0 w1 [1%nat] 0 1%nat (SockAddr 7 1000))
    as (s' & r & Hr & Hres); [exact Hs|unfold is_cint; lia|exact Hm|exact Ho|exact Hh|exact Hl|exact Hnb|
    exact (conj Hp (conj Hq Hf))|lia|exact Hpeer|cbn; lia|].
  exists s, s', r. split; [exact Hr|]. destruct r as [[new bytes]|e]; [|exact (proj1 Hres)].
  destruct Hres as (_ & _ & _ & -> & _). reflexivity.
Defined.
