(* ===== verification/CString.v ===== *)
(** * Strings and memory blocks of the C library
      ([ulib/c_libax/src/string.c], [ctype.c])

    The functions run on a memory that maps the addresses a program may
    access to bytes; an access elsewhere is undefined and a [Panic].  A loop
    over a string reads a new address in every round, so it makes at most as
    many rounds as there are addresses. *)

From stdpp Require Import base numbers list gmap.
From S2P Require Import Prelude.

Local Open Scope Z_scope.
Local Open Scope word_scope.

(** ** Memory *)

Abbreviation cmem := (gmap Z Z) (only parsing).

Definition load (m : cmem) (a : Z) : outcome Z := unwrap (m !! a).

(** Stores the low byte of a value. *)
Definition store (m : cmem) (a v : Z) : outcome cmem :=
  match m !! a with
  | Some _ => Done (<[a := wrap 8 v]> m)
  | None => Panic
  end.

(** The rounds a loop over a string needs at most. *)
Definition mem_fuel (m : cmem) : nat := S (size m).

(** [NULL]. *)
Definition NULL : Z := 0.

(** ** Character classes *)

Definition isalpha (a : Z) : bool := wrap 32 (Z.lor (wrap 32 a) 32 - 97) <? 26.
Definition isdigit (a : Z) : bool := wrap 32 (wrap 32 a - 48) <? 10.
Definition islower (a : Z) : bool := wrap 32 (wrap 32 a - 97) <? 26.
Definition isupper (a : Z) : bool := wrap 32 (wrap 32 a - 65) <? 26.
Definition isascii (a : Z) : bool := Z.land a (Z.lnot 127) =? 0.
Definition isspace (a : Z) : bool := (a =? 32) || (wrap 32 (wrap 32 a - 9) <? 5).

Definition tolower (c : Z) : Z := if isupper c then Z.lor c 32 else c.
Definition toupper (c : Z) : Z := if islower c then Z.land c 95 else c.

(** ** Lengths and searching *)

Fixpoint strlen_loop (fuel : nat) (m : cmem) (s : Z) : outcome Z :=
  match fuel with
  | O => Panic
  | S fuel => c ← load m s; if c =? 0 then Done s else strlen_loop fuel m (s + 1)
  end.
Definition strlen (m : cmem) (s : Z) : outcome Z :=
  e ← strlen_loop (mem_fuel m) m s; Done (e - s).

Fixpoint memchr_loop (n : nat) (m : cmem) (s c : Z) : outcome Z :=
  match n with
  | O => Done NULL
  | S n => b ← load m s; if b =? c then Done s else memchr_loop n m (s + 1) c
  end.
Definition memchr (m : cmem) (src c n : Z) : outcome Z := memchr_loop (Z.to_nat n) m src (wrap 8 c).

Definition strnlen (m : cmem) (s n : Z) : outcome Z :=
  p ← memchr m s 0 n; Done (if p =? NULL then n else p - s).

Fixpoint strchrnul_loop (fuel : nat) (m : cmem) (s c : Z) : outcome Z :=
  match fuel with
  | O => Panic
  | S fuel =>
      b ← load m s;
      if negb (b =? 0) && negb (b =? c) then strchrnul_loop fuel m (s + 1) c else Done s
  end.
Definition strchrnul (m : cmem) (s c : Z) : outcome Z :=
  let c := wrap 8 c in
  if c =? 0 then n ← strlen m s; Done (s + n) else strchrnul_loop (mem_fuel m) m s c.

(** The value of a [char], whose sign depends on the target. *)
Definition char_val (char_signed : bool) (b : Z) : Z :=
  if char_signed && (128 <=? b) then b - 256 else b.

Section signs.
Context (char_signed : bool).

Definition load_char (m : cmem) (a : Z) : outcome Z :=
  b ← load m a; Done (char_val char_signed b).

Fixpoint strchr_loop (fuel : nat) (m : cmem) (s c : Z) : outcome Z :=
  match fuel with
  | O => Panic
  | S fuel =>
      b ← load_char m s;
      if negb (b =? c) && negb (b =? 0) then strchr_loop fuel m (s + 1) c else Done s
  end.
Definition strchr (m : cmem) (s c : Z) : outcome Z :=
  s ← strchr_loop (mem_fuel m) m s c;
  b ← load_char m s;
  Done (if b =? c then s else NULL).

Fixpoint strrchr_loop (fuel : nat) (m : cmem) (s c found : Z) : outcome Z :=
  match fuel with
  | O => Panic
  | S fuel =>
      b ← load_char m s;
      let found := if b =? c then s else found in
      if b =? 0 then Done found else strrchr_loop fuel m (s + 1) c found
  end.
Definition strrchr (m : cmem) (s c : Z) : outcome Z :=
  if s =? NULL then Done NULL
  else strrchr_loop (mem_fuel m) m s (char_val char_signed (wrap 8 c)) NULL.

(** [atoi]: the loops over spaces and digits; [int] arithmetic that leaves
    its range is undefined. *)
Definition int_range (z : Z) : outcome Z :=
  if (- 2 ^ 31 <=? z) && (z <? 2 ^ 31) then Done z else Panic.

Fixpoint skip_space (fuel : nat) (m : cmem) (s : Z) : outcome Z :=
  match fuel with
  | O => Panic
  | S fuel => c ← load_char m s; if isspace c then skip_space fuel m (s + 1) else Done s
  end.
Fixpoint atoi_loop (fuel : nat) (m : cmem) (s n : Z) : outcome Z :=
  match fuel with
  | O => Panic
  | S fuel =>
      c ← load_char m s;
      if isdigit c then
        n10 ← int_range (10 * n); n ← int_range (n10 - (c - 48)); atoi_loop fuel m (s + 1) n
      else Done n
  end.
Definition atoi (m : cmem) (s : Z) : outcome Z :=
  s ← skip_space (mem_fuel m) m s;
  c ← load_char m s;
  let neg := c =? 45 in
  let s := if (c =? 45) || (c =? 43) then s + 1 else s in
  n ← atoi_loop (mem_fuel m) m s 0;
  if neg then Done n else int_range (- n).

End signs.

(** ** Filling and copying *)

Fixpoint fill_loop (n : nat) (m : cmem) (s c : Z) : outcome cmem :=
  match n with
  | O => Done m
  | S n => m ← store m s c; fill_loop n m (s + 1) c
  end.

Definition memset (m : cmem) (dest c n : Z) : outcome cmem :=
  if n =? 0 then Done m
  else
    m ← store m dest c; m ← store m (dest + n - 1) c;
    if n <=? 2 then Done m
    else
      m ← store m (dest + 1) c; m ← store m (dest + 2) c;
      m ← store m (dest + n - 2) c; m ← store m (dest + n - 3) c;
      if n <=? 6 then Done m
      else
        m ← store m (dest + 3) c; m ← store m (dest + n - 4) c;
        if n <=? 8 then Done m
        else
          let k := (0 ⊖ dest) .& 3 in
          let s := dest + k in
          let n := (n ⊖ k) .& wrap 64 (-4) in
          fill_loop (Z.to_nat n) m s c.

Fixpoint copy_up (n : nat) (m : cmem) (d s : Z) : outcome cmem :=
  match n with
  | O => Done m
  | S n => b ← load m s; m ← store m d b; copy_up n m (d + 1) (s + 1)
  end.
Fixpoint copy_down (n : nat) (m : cmem) (d s : Z) : outcome cmem :=
  match n with
  | O => Done m
  | S n => b ← load m (s + Z.of_nat n); m ← store m (d + Z.of_nat n) b; copy_down n m d s
  end.

Definition memcpy (m : cmem) (dest src n : Z) : outcome cmem := copy_up (Z.to_nat n) m dest src.

Definition memmove (m : cmem) (dest src n : Z) : outcome cmem :=
  if dest =? src then Done m
  else if (src ⊖ dest ⊖ n) <=? (wrap 64 (-2) ⊗ n) then memcpy m dest src n
  else if dest <? src then copy_up (Z.to_nat n) m dest src
  else copy_down (Z.to_nat n) m dest src.

(** [strcpy] and [strncpy] with the pointer they return. *)
Fixpoint strcpy_loop (fuel : nat) (m : cmem) (d s : Z) : outcome (cmem * Z) :=
  match fuel with
  | O => Panic
  | S fuel =>
      b ← load m s; m ← store m d b;
      if b =? 0 then Done (m, d) else strcpy_loop fuel m (d + 1) (s + 1)
  end.
Definition strcpy (m : cmem) (d s : Z) : outcome (cmem * Z) := strcpy_loop (mem_fuel m) m d s.

Fixpoint strncpy_loop (n : nat) (m : cmem) (d s : Z) : outcome (cmem * Z) :=
  match n with
  | O => Done (m, d)
  | S n =>
      b ← load m s; m ← store m d b;
      if b =? 0 then Done (m, d) else strncpy_loop n m (d + 1) (s + 1)
  end.
Definition strncpy (m : cmem) (d s n : Z) : outcome (cmem * Z) := strncpy_loop (Z.to_nat n) m d s.

Definition strcat (m : cmem) (d s : Z) : outcome (cmem * Z) :=
  n ← strlen m d; r ← strcpy m (d + n) s; Done (r.1, d).

Fixpoint strncat_loop (n : nat) (m : cmem) (d s : Z) : outcome (cmem * Z) :=
  match n with
  | O => Done (m, d)
  | S n =>
      b ← load m s;
      if b =? 0 then Done (m, d) else m ← store m d b; strncat_loop n m (d + 1) (s + 1)
  end.
Definition strncat (m : cmem) (d s n : Z) : outcome (cmem * Z) :=
  len ← strlen m d;
  r ← strncat_loop (Z.to_nat n) m (d + len) s;
  m ← store r.1 r.2 0;
  Done (m, d).

(** ** Comparing *)

Fixpoint strcmp_loop (fuel : nat) (m : cmem) (l r : Z) : outcome Z :=
  match fuel with
  | O => Panic
  | S fuel =>
      a ← load m l; b ← load m r;
      if (a =? b) && negb (a =? 0) then strcmp_loop fuel m (l + 1) (r + 1) else Done (a - b)
  end.
Definition strcmp (m : cmem) (l r : Z) : outcome Z := strcmp_loop (mem_fuel m) m l r.
Definition strcoll (m : cmem) (l r : Z) : outcome Z := strcmp m l r.

(** The loops of [strncmp] and [strncasecmp], which read both bytes in any
    case after the loop; [f] is [tolower] or nothing. *)
Fixpoint strncmp_loop (f : Z → Z) (n : nat) (m : cmem) (l r : Z) : outcome Z :=
  a ← load m l; b ← load m r;
  match n with
  | O => Done (f a - f b)
  | S n =>
      if negb (a =? 0) && negb (b =? 0) && ((a =? b) || (f a =? f b))
      then strncmp_loop f n m (l + 1) (r + 1) else Done (f a - f b)
  end.
Definition strncmp (m : cmem) (l r n : Z) : outcome Z :=
  if n =? 0 then Done 0 else strncmp_loop id (Z.to_nat (n - 1)) m l r.
Definition strncasecmp (m : cmem) (l r n : Z) : outcome Z :=
  if n =? 0 then Done 0 else strncmp_loop tolower (Z.to_nat (n - 1)) m l r.

Fixpoint strcasecmp_loop (fuel : nat) (m : cmem) (l r : Z) : outcome Z :=
  match fuel with
  | O => Panic
  | S fuel =>
      a ← load m l; b ← load m r;
      if negb (a =? 0) && negb (b =? 0) && ((a =? b) || (tolower a =? tolower b))
      then strcasecmp_loop fuel m (l + 1) (r + 1) else Done (tolower a - tolower b)
  end.
Definition strcasecmp (m : cmem) (l r : Z) : outcome Z := strcasecmp_loop (mem_fuel m) m l r.

Fixpoint memcmp_loop (n : nat) (m : cmem) (l r : Z) : outcome Z :=
  match n with
  | O => Done 0
  | S n =>
      a ← load m l; b ← load m r;
      if a =? b then memcmp_loop n m (l + 1) (r + 1) else Done (a - b)
  end.
Definition memcmp (m : cmem) (l r n : Z) : outcome Z := memcmp_loop (Z.to_nat n) m l r.

(** ** Sets of bytes *)

(** [byteset], four words of 64 bits, and [BITOP] with [|=] and [&]. *)
Definition byteset_empty : list Z := [0; 0; 0; 0].
Definition byteset_add (bs : list Z) (b : Z) : list Z :=
  alter (λ w, w .| 1 .<< (b mod 64)) (Z.to_nat (b / 64)) bs.
Definition byteset_has (bs : list Z) (b : Z) : bool :=
  negb (default 0 (bs !! Z.to_nat (b / 64)) .& 1 .<< (b mod 64) =? 0).

Fixpoint byteset_loop (fuel : nat) (m : cmem) (s : Z) (bs : list Z) : outcome (list Z) :=
  match fuel with
  | O => Panic
  | S fuel => b ← load m s; if b =? 0 then Done bs else byteset_loop fuel m (s + 1) (byteset_add bs b)
  end.

(** Skips the bytes that are in the set, or those that are not. *)
Fixpoint span_loop (fuel : nat) (m : cmem) (s : Z) (bs : list Z) (want : bool) : outcome Z :=
  match fuel with
  | O => Panic
  | S fuel =>
      b ← load m s;
      if negb (b =? 0) && Bool.eqb (byteset_has bs b) want then span_loop fuel m (s + 1) bs want
      else Done s
  end.

(** The [for] loop in the first branch returns in its body: it runs once at
    most. *)
Definition strcspn (m : cmem) (s1 s2 : Z) : outcome Z :=
  c0 ← load m s2;
  short ← (if c0 =? 0 then Done true else c1 ← load m (s2 + 1); Done (c1 =? 0));
  first ← (if short : bool then b ← load m s1; Done (negb (b =? c0)) else Done false);
  if first : bool then Done 0
  else
    bs ← byteset_loop (mem_fuel m) m s2 byteset_empty;
    e ← span_loop (mem_fuel m) m s1 bs false;
    Done (e - s1).

Fixpoint same_loop (fuel : nat) (m : cmem) (s c : Z) : outcome Z :=
  match fuel with
  | O => Panic
  | S fuel => b ← load m s; if b =? c then same_loop fuel m (s + 1) c else Done s
  end.
Definition strspn (m : cmem) (s c : Z) : outcome Z :=
  c0 ← load m c;
  if c0 =? 0 then Done 0
  else
    c1 ← load m (c + 1);
    if c1 =? 0 then e ← same_loop (mem_fuel m) m s c0; Done (e - s)
    else
      bs ← byteset_loop (mem_fuel m) m c byteset_empty;
      e ← span_loop (mem_fuel m) m s bs true;
      Done (e - s).

Definition strpbrk (m : cmem) (s b : Z) : outcome Z :=
  n ← strcspn m s b;
  c ← load m (s + n);
  Done (if c =? 0 then NULL else s + n).
