(* ===== verification/CStringSpec.v ===== *)
(** * Correctness of the C string functions

    Strings and blocks of bytes in memory, and what the functions of
    [string.c] compute of them: lengths and searches, filling and copying
    blocks that may overlap, and comparisons. *)

From stdpp Require Import base numbers list gmap sorting.
From S2P Require Import Prelude CString.

Local Open Scope Z_scope.

(** ** Strings and blocks in memory *)

(** The byte at an index of a string; the one after the last is zero. *)
Definition byte_at (l : list Z) (i : Z) : Z := default 0 (l !! Z.to_nat i).

Abbreviation len l := (Z.of_nat (length l)).

(** The string [l] is stored at [s] with a zero after it. *)
Record str_at (m : cmem) (s : Z) (l : list Z) : Prop := {
  sa_pos : 0 < s;
  sa_bytes : Forall (λ b, 0 < b < 256) l;
  sa_load i : 0 ≤ i ≤ len l → m !! (s + i) = Some (byte_at l i);
}.

(** The bytes [l] are stored at [s]. *)
Definition bytes_at (m : cmem) (s : Z) (l : list Z) : Prop :=
  ∀ i b, l !! i = Some b → m !! (s + Z.of_nat i) = Some b ∧ 0 ≤ b < 256.

(** A block of [n] bytes may be accessed. *)
Definition mapped (m : cmem) (s n : Z) : Prop := ∀ i, 0 ≤ i < n → is_Some (m !! (s + i)).

(** Memory with a block replaced. *)
Fixpoint write_bytes (m : cmem) (a : Z) (l : list Z) : cmem :=
  match l with
  | [] => m
  | b :: l => <[a := b]> (write_bytes m (a + 1) l)
  end.

Lemma write_bytes_lookup m a l x :
  write_bytes m a l !! x
  = if decide (a ≤ x < a + len l) then l !! Z.to_nat (x - a) else m !! x.
Proof.
  revert a. induction l as [|b l IH]; intros a; simpl.
  { rewrite decide_False by lia. done. }
  destruct (decide (x = a)) as [->|Hne].
  - rewrite lookup_insert_eq, decide_True by lia. by rewrite Z.sub_diag.
  - rewrite lookup_insert_ne by done. rewrite IH.
    destruct (decide (a + 1 ≤ x < a + 1 + len l)).
    + rewrite decide_True by lia. replace (Z.to_nat (x - a)) with (S (Z.to_nat (x - (a + 1)))) by lia.
      done.
    + by rewrite decide_False by lia.
Qed.

Lemma mapped_size m s n : mapped m s n → (Z.to_nat n ≤ size m)%nat.
Proof.
  intros Hm. set (addrs := (λ i, s + Z.of_nat i) <$> seq 0 (Z.to_nat n)).
  assert (NoDup addrs) as Hnd by (apply NoDup_fmap_2; [intros i j ?; lia|apply NoDup_seq]).
  replace (Z.to_nat n) with (length addrs) by (unfold addrs; by rewrite length_fmap, length_seq).
  rewrite <- (size_list_to_set (C := gset Z) addrs Hnd), <- size_dom.
  apply subseteq_size. intros a Ha. rewrite elem_of_list_to_set in Ha.
  apply list_elem_of_fmap in Ha as (i & -> & Hi%elem_of_seq). apply elem_of_dom, Hm. lia.
Qed.

Lemma mapped_block m s n i k : mapped m s n → 0 ≤ i → i + k ≤ n → mapped m (s + i) k.
Proof. intros Hm Hi Hk j Hj. rewrite <- Z.add_assoc. apply Hm. lia. Qed.

Lemma mapped_insert m s n a b : mapped m s n → mapped (<[a := b]> m) s n.
Proof.
  intros Hm i Hi. destruct (decide (a = s + i)) as [->|]; [by rewrite lookup_insert_eq|].
  rewrite lookup_insert_ne by done. by apply Hm.
Qed.

Section string.
Context (m : cmem) (s : Z) (l : list Z) (Hs : str_at m s l).

Lemma load_str i : 0 ≤ i ≤ len l → load m (s + i) = Done (byte_at l i).
Proof using Hs. intros Hi. unfold load. by rewrite (sa_load _ _ _ Hs). Qed.

Lemma str_fuel : (S (length l) ≤ size m)%nat.
Proof using Hs.
  replace (S (length l)) with (Z.to_nat (len l + 1)) by lia. apply (mapped_size m s). intros i Hi.
  rewrite (sa_load _ _ _ Hs) by lia. done.
Qed.

Lemma byte_at_pos i : 0 ≤ i < len l → 0 < byte_at l i < 256.
Proof using Hs.
  intros Hi. destruct (lookup_lt_is_Some_2 l (Z.to_nat i)) as [b Hb]; [lia|].
  unfold byte_at. rewrite Hb. simpl. by eapply (Forall_lookup_1 _ _ _ _ (sa_bytes _ _ _ Hs)).
Qed.

Lemma byte_at_end : byte_at l (len l) = 0.
Proof using. unfold byte_at. by rewrite Nat2Z.id, lookup_ge_None_2. Qed.

Lemma byte_at_range i : 0 ≤ i ≤ len l → 0 ≤ byte_at l i < 256.
Proof using Hs.
  intros Hi. destruct (decide (i = len l)) as [->|]; [rewrite byte_at_end; lia|].
  pose proof (byte_at_pos i). lia.
Qed.

(** A string ends at its first zero. *)
Lemma byte_at_zero i : 0 ≤ i ≤ len l → (byte_at l i =? 0) = bool_decide (i = len l).
Proof using Hs.
  intros Hi. case_bool_decide as Hc; [subst i; by rewrite byte_at_end|].
  pose proof (byte_at_pos i). apply Z.eqb_neq. lia.
Qed.

(** The part of the string from an index on. *)
Lemma str_at_drop i : 0 ≤ i ≤ len l → str_at m (s + i) (drop (Z.to_nat i) l).
Proof using Hs.
  intros Hi. constructor.
  - pose proof (sa_pos _ _ _ Hs). lia.
  - apply Forall_drop, Hs.
  - intros j Hj. rewrite length_drop in Hj. rewrite <- Z.add_assoc, (sa_load _ _ _ Hs) by lia.
    unfold byte_at. rewrite lookup_drop. do 3 f_equal. lia.
Qed.

End string.

Lemma byte_at_drop l i j : 0 ≤ i → 0 ≤ j → byte_at (drop (Z.to_nat i) l) j = byte_at l (i + j).
Proof. intros. unfold byte_at. rewrite lookup_drop. do 2 f_equal. lia. Qed.

(** Rounds of a loop at an index of a string: [load] is evaluated. *)
Ltac load_at Hs i :=
  rewrite (load_str _ _ _ Hs i) by lia; cbn [mbind outcome_bind].

(** ** Lengths and searches *)

Lemma strlen_loop_spec m s l fuel i :
  str_at m s l → 0 ≤ i ≤ len l → len l - i < Z.of_nat fuel →
  strlen_loop fuel m (s + i) = Done (s + len l).
Proof.
  intros Hs. revert i. induction fuel as [|fuel IH]; intros i Hi Hf; [lia|]. cbn [strlen_loop].
  load_at Hs i. rewrite (byte_at_zero _ _ _ Hs) by done. case_bool_decide as Hc; [by subst|].
  rewrite <- Z.add_assoc. apply IH; lia.
Qed.

Lemma strlen_spec m s l : str_at m s l → strlen m s = Done (len l).
Proof.
  intros Hs. unfold strlen, mem_fuel. pose proof (str_fuel _ _ _ Hs).
  rewrite <- (Z.add_0_r s) at 1. rewrite (strlen_loop_spec m s l) by (done || lia). simpl. f_equal. lia.
Qed.

Lemma memchr_loop_str m s l n i :
  str_at m s l → 0 ≤ i ≤ len l →
  memchr_loop n m (s + i) 0 = Done (if Z.of_nat n <=? len l - i then NULL else s + len l).
Proof.
  intros Hs. revert i. induction n as [|n IH]; intros i Hi; cbn [memchr_loop].
  { by rewrite (proj2 (Z.leb_le _ _)) by lia. }
  load_at Hs i. rewrite (byte_at_zero _ _ _ Hs) by done. case_bool_decide as Hc.
  - subst. by rewrite (proj2 (Z.leb_gt _ _)) by lia.
  - rewrite <- Z.add_assoc, IH by lia.
    by destruct (Z.leb_spec (Z.of_nat n) (len l - (i + 1))), (Z.leb_spec (Z.of_nat (S n)) (len l - i));
      [|lia..|].
Qed.

(** The end of a string searched in [n] bytes. *)
Lemma memchr_str m s l n :
  str_at m s l → 0 ≤ n → memchr m s 0 n = Done (if n <=? len l then NULL else s + len l).
Proof.
  intros Hs Hn. unfold memchr. change (wrap 8 0) with 0. rewrite <- (Z.add_0_r s) at 1.
  rewrite (memchr_loop_str m s l) by (done || lia). by rewrite Z2Nat.id, Z.sub_0_r.
Qed.

Lemma strnlen_spec m s l n : str_at m s l → 0 ≤ n → strnlen m s n = Done (Z.min n (len l)).
Proof.
  intros Hs Hn. unfold strnlen. rewrite (memchr_str m s l) by done. simpl.
  pose proof (sa_pos _ _ _ Hs). destruct (Z.leb_spec n (len l)); simpl.
  - f_equal. lia.
  - replace (s + len l =? NULL) with false by (unfold NULL; lia). f_equal. lia.
Qed.

(** ** Filling and copying *)

Lemma store_mapped m a v : is_Some (m !! a) → store m a v = Done (<[a := wrap 8 v]> m).
Proof. intros [b Hb]. unfold store. by rewrite Hb. Qed.

(** [m'] is [m] with the byte [b] at the addresses [D]. *)
Definition after (m m' : cmem) (b : Z) (D : Z → Prop) : Prop :=
  (∀ x, D x → m' !! x = Some b) ∧ (∀ x, ¬ D x → m' !! x = m !! x).

Lemma after_store m m' v D a :
  after m m' (wrap 8 v) D → is_Some (m !! a) →
  ∃ m'', store m' a v = Done m'' ∧ after m m'' (wrap 8 v) (λ x, x = a ∨ D x).
Proof.
  intros [H1 H2] Ha. exists (<[a := wrap 8 v]> m'). split.
  - apply store_mapped. destruct (m' !! a) eqn:E; [done|]. exfalso.
    assert (¬ D a) as Hn by (intros Hd; by rewrite H1 in E). rewrite H2 in E by done.
    destruct Ha as [? Ha]. congruence.
  - split.
    + intros x [->|Hx]; [by rewrite lookup_insert_eq|].
      destruct (decide (a = x)) as [->|]; [by rewrite lookup_insert_eq|].
      rewrite lookup_insert_ne by done. by apply H1.
    + intros x Hx. rewrite lookup_insert_ne by naive_solver. naive_solver.
Qed.

Lemma after_fill m v n m' D s :
  after m m' (wrap 8 v) D → mapped m s (Z.of_nat n) →
  ∃ m'', fill_loop n m' s v = Done m'' ∧
    after m m'' (wrap 8 v) (λ x, s ≤ x < s + Z.of_nat n ∨ D x).
Proof.
  revert m' D s. induction n as [|n IH]; intros m' D s Hd Hm.
  { exists m'. split; [done|]. destruct Hd as [H1 H2]. split; [|naive_solver].
    intros x [Hx|Hx]; [lia|naive_solver]. }
  destruct (after_store m m' v D s Hd) as (m1 & Hst & Hd1).
  { rewrite <- (Z.add_0_r s). apply Hm. lia. }
  destruct (IH m1 _ (s + 1) Hd1) as (m2 & Hf & [H1 H2]).
  { apply (mapped_block m s (Z.of_nat (S n))); [done|lia..]. }
  exists m2. cbn [fill_loop]. rewrite Hst. split; [done|]. split.
  - intros x Hx. apply H1. destruct (decide (x = s)); [by right; left|].
    destruct Hx; [left; lia|by right; right].
  - intros x Hx. apply H2. intros [?|[->|?]]; apply Hx; [left; lia|left; lia|by right].
Qed.

Lemma after_fills m m' b D a n :
  after m m' b D → 0 ≤ n → (∀ x, D x ↔ a ≤ x < a + n) →
  m' = write_bytes m a (replicate (Z.to_nat n) b).
Proof.
  intros [H1 H2] Hn HD. apply map_eq. intros x.
  rewrite write_bytes_lookup, length_replicate, Z2Nat.id by done. case_decide as Hx.
  - rewrite H1 by by apply HD. symmetry. apply lookup_replicate_2. lia.
  - apply H2. by rewrite HD.
Qed.

Lemma land_minus_4 y : is_usize y → Z.land y (wrap 64 (-4)) = y - y mod 4.
Proof.
  intros Hy. change (wrap 64 (-4)) with (wnot (2 ^ 2 - 1)). by apply (land_not_mask y 2).
Qed.

(** [memset] fills its block and nothing else. *)
Lemma memset_spec m dest c n :
  0 < dest → 0 ≤ n → dest + n ≤ 2 ^ 64 → mapped m dest n →
  memset m dest c n = Done (write_bytes m dest (replicate (Z.to_nat n) (wrap 8 c))).
Proof.
  intros Hd0 Hn Hdn Hm. unfold memset. destruct (Z.eqb_spec n 0) as [->|Hn0]; [done|].
  assert (after m m (wrap 8 c) (λ _, False)) as Hd by (split; [done|by intros]).
  rewrite <- !(Z.add_sub_assoc dest n). pose proof (Hm 0 ltac:(lia)) as Hm0. rewrite Z.add_0_r in Hm0.
  edestruct (after_store _ _ _ _ _ Hd Hm0) as (m1 & -> & Hd1).
  cbn [mbind outcome_bind].
  edestruct (after_store _ _ _ _ _ Hd1 (Hm (n - 1) ltac:(lia))) as (m2 & -> & Hd2).
  cbn [mbind outcome_bind]. destruct (Z.leb_spec n 2).
  { f_equal. eapply after_fills; [done..|]. simpl. lia. }
  edestruct (after_store _ _ _ _ _ Hd2 (Hm 1 ltac:(lia))) as (m3 & -> & Hd3).
  cbn [mbind outcome_bind].
  edestruct (after_store _ _ _ _ _ Hd3 (Hm 2 ltac:(lia))) as (m4 & -> & Hd4).
  cbn [mbind outcome_bind].
  edestruct (after_store _ _ _ _ _ Hd4 (Hm (n - 2) ltac:(lia))) as (m5 & -> & Hd5).
  cbn [mbind outcome_bind].
  edestruct (after_store _ _ _ _ _ Hd5 (Hm (n - 3) ltac:(lia))) as (m6 & -> & Hd6).
  cbn [mbind outcome_bind]. destruct (Z.leb_spec n 6).
  { f_equal. eapply after_fills; [done..|]. simpl. lia. }
  edestruct (after_store _ _ _ _ _ Hd6 (Hm 3 ltac:(lia))) as (m7 & -> & Hd7).
  cbn [mbind outcome_bind].
  edestruct (after_store _ _ _ _ _ Hd7 (Hm (n - 4) ltac:(lia))) as (m8 & -> & Hd8).
  cbn [mbind outcome_bind]. destruct (Z.leb_spec n 8).
  { f_equal. eapply after_fills; [done..|]. simpl. lia. }
  cbv zeta. set (k := Z.land (wsub 0 dest) 3).
  assert (0 ≤ k < 4) as Hk by (unfold k; rewrite (land_mask _ 2) by lia; apply Z.mod_pos_bound; lia).
  clearbody k. rewrite (wsub_small n k) by (unfold is_usize; lia). rewrite land_minus_4 by (unfold is_usize; lia).
  pose proof (Z.mod_pos_bound (n - k) 4) as Hr. set (n' := n - k - (n - k) mod 4).
  edestruct (after_fill m c (Z.to_nat n') m8 _ (dest + k) Hd8) as (m9 & Hf & Hd9).
  { apply (mapped_block m dest n); [done|lia|lia]. }
  rewrite Hf. f_equal. eapply after_fills; [done..|]. simpl. lia.
Qed.

Lemma write_bytes_cons m a b l : write_bytes (<[a := b]> m) (a + 1) l = write_bytes m a (b :: l).
Proof.
  apply map_eq. intros x. simpl. destruct (decide (x = a)) as [->|Hne].
  - rewrite lookup_insert_eq, write_bytes_lookup, decide_False by lia. apply lookup_insert_eq.
  - rewrite lookup_insert_ne by done. rewrite !write_bytes_lookup. case_decide; [done|].
    by rewrite lookup_insert_ne.
Qed.

Lemma write_bytes_snoc m a b l : write_bytes (<[a + len l := b]> m) a l = write_bytes m a (l ++ [b]).
Proof.
  apply map_eq. intros x. rewrite !write_bytes_lookup, length_app. simpl.
  destruct (decide (x = a + len l)) as [->|Hne].
  - rewrite decide_False, decide_True by lia. rewrite lookup_insert_eq.
    by rewrite lookup_app_r, Z.add_simpl_l, Nat2Z.id, Nat.sub_diag by lia.
  - case_decide.
    + rewrite decide_True by lia. by rewrite lookup_app_l by lia.
    + rewrite decide_False by lia. by rewrite lookup_insert_ne.
Qed.

Lemma bytes_at_insert m s l a b :
  bytes_at m s l → ¬ s ≤ a < s + len l → bytes_at (<[a := b]> m) s l.
Proof.
  intros Hb Ha i c Hc. pose proof (lookup_lt_Some _ _ _ Hc).
  rewrite lookup_insert_ne by lia. by apply Hb.
Qed.

Lemma load_store_byte m s d b :
  m !! s = Some b → 0 ≤ b < 256 → is_Some (m !! d) →
  load m s = Done b ∧ store m d b = Done (<[d := b]> m).
Proof.
  intros Hs Hb Hd. unfold load. rewrite Hs. split; [done|].
  rewrite store_mapped by done. by rewrite wrap_small.
Qed.

(** Copying upwards, to a block that does not start inside the source. *)
Lemma copy_up_spec m d s l :
  bytes_at m s l → mapped m d (len l) → d ≤ s ∨ s + len l ≤ d →
  copy_up (length l) m d s = Done (write_bytes m d l).
Proof.
  revert m d s. induction l as [|b l IH]; intros m d s Hb Hm Hds; [done|]. simpl length in *.
  destruct (Hb 0%nat b eq_refl) as [Hl Hr]. rewrite Z.add_0_r in Hl.
  pose proof (Hm 0 ltac:(lia)) as Hm0. rewrite Z.add_0_r in Hm0.
  destruct (load_store_byte m s d b Hl Hr Hm0) as [Hld Hst]. cbn [copy_up]. rewrite Hld.
  cbn [mbind outcome_bind]. rewrite Hst. cbn [mbind outcome_bind]. rewrite IH, write_bytes_cons; [done|..].
  - apply bytes_at_insert; [|lia]. intros i c Hc.
    replace (s + 1 + Z.of_nat i) with (s + Z.of_nat (S i)) by lia. by apply Hb.
  - apply mapped_insert, (mapped_block m d (len (b :: l))); [done|lia|simpl; lia].
  - lia.
Qed.

(** Copying downwards, to a block that does not end inside the source. *)
Lemma copy_down_spec m d s l :
  bytes_at m s l → mapped m d (len l) → s ≤ d →
  copy_down (length l) m d s = Done (write_bytes m d l).
Proof.
  revert m. induction l as [|b l IH] using rev_ind; intros m Hb Hm Hds; [done|].
  rewrite length_app in *. simpl in *. rewrite Nat.add_1_r in *.
  destruct (Hb (length l) b) as [Hl Hr]; [by rewrite lookup_app_r, Nat.sub_diag|].
  destruct (load_store_byte m (s + len l) (d + len l) b Hl Hr) as [Hld Hst]; [apply Hm; lia|].
  cbn [copy_down]. rewrite Hld. cbn [mbind outcome_bind]. rewrite Hst. cbn [mbind outcome_bind].
  rewrite IH, write_bytes_snoc; [done| | |done].
  - apply bytes_at_insert; [|lia]. intros i c Hc. apply Hb. by rewrite lookup_app_l by by eapply lookup_lt_Some.
  - apply mapped_insert. rewrite <- (Z.add_0_r d). apply (mapped_block m d (Z.of_nat (S (length l)))); [done|lia..].
Qed.

Lemma memcpy_spec m dest src l :
  bytes_at m src l → mapped m dest (len l) → dest ≤ src ∨ src + len l ≤ dest →
  memcpy m dest src (len l) = Done (write_bytes m dest l).
Proof. intros. unfold memcpy. rewrite Nat2Z.id. by apply copy_up_spec. Qed.

Lemma write_bytes_same m s l : bytes_at m s l → write_bytes m s l = m.
Proof.
  intros Hb. apply map_eq. intros x. rewrite write_bytes_lookup. case_decide as Hx; [|done].
  destruct (lookup_lt_is_Some_2 l (Z.to_nat (x - s))) as [b Hl]; [lia|].
  destruct (Hb _ _ Hl) as [Hm _]. rewrite Hl, <- Hm. f_equal. lia.
Qed.

(** [memmove] moves a block of at most half of the address space whatever
    the overlap: afterwards the destination holds the bytes that the source
    held before, and no other byte has changed; its test by unsigned
    arithmetic never takes overlapping blocks to be disjoint when copying
    upwards would destroy the source. *)
Theorem memmove_moves m dest src l :
  bytes_at m src l → mapped m dest (len l) →
  0 < src → 0 < dest → src + len l ≤ 2 ^ 64 → dest + len l ≤ 2 ^ 64 → len l ≤ 2 ^ 63 →
  memmove m dest src (len l) = Done (write_bytes m dest l).
Proof.
  intros Hb Hm Hs Hd Hsl Hdl Hl. unfold memmove. destruct (Z.eqb_spec dest src) as [->|Hne].
  { by rewrite write_bytes_same. }
  rewrite Nat2Z.id. destruct (Z.leb_spec (wsub (wsub src dest) (len l)) (wmul (wrap 64 (-2)) (len l)))
    as [Hle|Hgt].
  - apply memcpy_spec; [done..|]. destruct (Z.le_gt_cases dest src) as [|Hds]; [by left|right].
    destruct (Z.le_gt_cases (src + len l) dest) as [|Hov]; [done|exfalso].
    assert (wsub (wsub src dest) (len l) = src - dest - len l + 2 ^ 64) as E1.
    { unfold wsub, wrap. rewrite Zminus_mod_idemp_l. symmetry.
      apply (Z.mod_unique _ _ (-1)); lia. }
    assert (wmul (wrap 64 (-2)) (len l) = 2 ^ 64 - 2 * len l) as E2.
    { unfold wmul, wrap. rewrite Z.mul_mod_idemp_l by lia. symmetry.
      apply (Z.mod_unique _ _ (-1)); lia. }
    lia.
  - destruct (Z.ltb_spec dest src).
    + apply copy_up_spec; [done..|lia].
    + apply copy_down_spec; [done..|lia].
Qed.

(** ** Strings byte by byte *)

Lemma str_at_nil m s : str_at m s [] → load m s = Done 0.
Proof. intros Hs. pose proof (load_str _ _ _ Hs 0) as Hl. rewrite Z.add_0_r in Hl. apply Hl. simpl. lia. Qed.

Lemma str_at_cons m s c l :
  str_at m s (c :: l) → load m s = Done c ∧ 0 < c < 256 ∧ str_at m (s + 1) l.
Proof.
  intros Hs. split; [|split].
  - pose proof (load_str _ _ _ Hs 0) as Hl. rewrite Z.add_0_r in Hl. apply Hl. simpl. lia.
  - pose proof (sa_bytes _ _ _ Hs) as Hb. by apply Forall_cons in Hb as [? _].
  - apply (str_at_drop m s (c :: l) Hs 1). simpl. lia.
Qed.

(** One round of a loop over a string, by cases on what is left of it. *)
Ltac str_step H :=
  lazymatch type of H with
  | str_at _ _ [] => apply str_at_nil in H; rewrite H; cbn [mbind outcome_bind]
  | str_at _ _ (_ :: _) =>
      let Hl := fresh "Hl" in let Hc := fresh "Hc" in
      apply str_at_cons in H as (Hl & Hc & H); rewrite Hl; cbn [mbind outcome_bind]
  end.

Lemma char_val_inj cs b c : 0 ≤ b < 256 → 0 ≤ c < 256 → char_val cs b = char_val cs c → b = c.
Proof. unfold char_val. destruct cs; simpl; [|done]. destruct (Z.leb_spec 128 b), (Z.leb_spec 128 c); lia. Qed.

Lemma char_val_eqb cs b c :
  0 ≤ b < 256 → 0 ≤ c < 256 → (char_val cs b =? char_val cs c) = (b =? c).
Proof.
  intros Hb Hc. destruct (Z.eqb_spec b c) as [->|Hne]; [apply Z.eqb_refl|].
  apply Z.eqb_neq. intros ?. by apply Hne, (char_val_inj cs).
Qed.

Lemma char_val_zero cs b : 0 ≤ b < 256 → (char_val cs b =? 0) = (b =? 0).
Proof. intros Hb. replace 0 with (char_val cs 0) at 1 by (by destruct cs). by apply char_val_eqb. Qed.

(** The index of the first byte that is [b]. *)
Fixpoint index_of (b : Z) (l : list Z) : option nat :=
  match l with
  | [] => None
  | c :: l => if c =? b then Some 0%nat else S <$> index_of b l
  end.

Definition ptr_of (s : Z) (i : option nat) : Z :=
  match i with Some i => s + Z.of_nat i | None => NULL end.

Lemma ptr_of_S s i : ptr_of (s + 1) i = ptr_of s (S <$> i).
Proof. destruct i; simpl; lia. Qed.

Lemma strchr_loop_spec cs m b l s fuel :
  str_at m s l → 0 < b < 256 → (length l < fuel)%nat →
  strchr_loop cs fuel m s (char_val cs b) = Done (s + Z.of_nat (default (length l) (index_of b l))).
Proof.
  revert s fuel. induction l as [|c l IH]; intros s [|fuel] Hs Hb Hf; try (simpl in Hf; lia);
    cbn [strchr_loop]; unfold load_char; str_step Hs.
  - rewrite char_val_zero, andb_false_r by lia. simpl. f_equal. lia.
  - rewrite char_val_eqb, char_val_zero by lia. rewrite (proj2 (Z.eqb_neq c 0)) by lia. simpl.
    destruct (Z.eqb_spec c b); simpl; [f_equal; lia|].
    rewrite IH by (done || simpl in Hf; lia). f_equal. destruct (index_of b l); simpl; lia.
Qed.

Lemma index_of_lookup b l i : index_of b l = Some i → l !! i = Some b.
Proof.
  revert i. induction l as [|c l IH]; intros i; simpl; [done|].
  destruct (Z.eqb_spec c b) as [->|]; [by intros [= <-]|].
  destruct (index_of b l) as [j|]; simpl; [|done]. intros [= <-]. simpl. by apply IH.
Qed.

(** [strchr] finds the first byte that is [b]. *)
Lemma strchr_spec cs m s l b :
  str_at m s l → 0 < b < 256 → strchr cs m s (char_val cs b) = Done (ptr_of s (index_of b l)).
Proof.
  intros Hs Hb. unfold strchr, mem_fuel. pose proof (str_fuel _ _ _ Hs).
  rewrite (strchr_loop_spec cs m b l) by (done || lia). cbn [mbind outcome_bind]. unfold load_char.
  destruct (index_of b l) as [i|] eqn:Hi; simpl.
  - pose proof (index_of_lookup _ _ _ Hi) as Hli. pose proof (lookup_lt_Some _ _ _ Hli).
    load_at Hs (Z.of_nat i). unfold byte_at. rewrite Nat2Z.id, Hli. simpl. by rewrite Z.eqb_refl.
  - load_at Hs (len l). rewrite byte_at_end. rewrite char_val_eqb by lia.
    by rewrite (proj2 (Z.eqb_neq 0 b)) by lia.
Qed.

(** ** Comparisons *)

(** The difference of the first bytes that differ, with a zero after the
    last byte. *)
Fixpoint first_diff (l r : list Z) : Z :=
  match l, r with
  | [], [] => 0
  | a :: _, [] => a
  | [], b :: _ => - b
  | a :: l, b :: r => if a =? b then first_diff l r else a - b
  end.

Lemma strcmp_loop_spec m l r s t fuel :
  str_at m s l → str_at m t r → (length l < fuel)%nat →
  strcmp_loop fuel m s t = Done (first_diff l r).
Proof.
  revert r s t fuel. induction l as [|a l IH]; intros [|b r] s t [|fuel] Hs Ht Hf;
    try (simpl in Hf; lia); cbn [strcmp_loop]; str_step Hs; str_step Ht; simpl.
  - done.
  - by rewrite andb_false_r.
  - rewrite (proj2 (Z.eqb_neq a 0)) by lia. simpl. f_equal. lia.
  - rewrite (proj2 (Z.eqb_neq a 0)) by lia. rewrite andb_true_r.
    destruct (Z.eqb_spec a b); [|done]. apply IH; (done || simpl in Hf; lia).
Qed.

Lemma strcmp_spec m s t l r :
  str_at m s l → str_at m t r → strcmp m s t = Done (first_diff l r).
Proof.
  intros Hs Ht. pose proof (str_fuel _ _ _ Hs). apply strcmp_loop_spec; (done || unfold mem_fuel; lia).
Qed.

Lemma first_diff_zero l r :
  Forall (λ b, 0 < b < 256) l → Forall (λ b, 0 < b < 256) r → first_diff l r = 0 ↔ l = r.
Proof.
  intros Hl. revert r. induction Hl as [|a l Ha Hl IH]; intros r Hr; destruct Hr as [|b r Hb Hr];
    simpl; [done|split; [lia|done]..|].
  destruct (Z.eqb_spec a b) as [->|]; [rewrite IH by done; naive_solver|].
  split; [lia|]. intros [= ->]. lia.
Qed.

Lemma memcmp_spec m s t l r :
  bytes_at m s l → bytes_at m t r → length l = length r →
  ∃ d, memcmp m s t (len l) = Done d ∧ (d = 0 ↔ l = r).
Proof.
  unfold memcmp. rewrite Nat2Z.id. revert r s t. induction l as [|a l IH]; intros [|b r] s t Hs Ht Hlen; try done.
  { by exists 0. }
  cbn [memcmp_loop length]. destruct (Hs 0%nat a eq_refl) as [Ha _], (Ht 0%nat b eq_refl) as [Hb _].
  rewrite Z.add_0_r in Ha, Hb. unfold load. rewrite Ha, Hb. cbn [unwrap mbind outcome_bind].
  destruct (Z.eqb_spec a b) as [->|Hne].
  - destruct (IH r (s + 1) (t + 1)) as (d & -> & Hd); [| |simpl in Hlen; lia|exists d; split; [done|naive_solver]].
    + intros i c Hc. replace (s + 1 + Z.of_nat i) with (s + Z.of_nat (S i)) by lia. by apply Hs.
    + intros i c Hc. replace (t + 1 + Z.of_nat i) with (t + Z.of_nat (S i)) by lia. by apply Ht.
  - exists (a - b). split; [done|]. split; [lia|]. intros [= -> _]. done.
Qed.

(** ** Copying strings *)

(** A store outside a string keeps it. *)
Lemma str_at_insert m s l a b : str_at m s l → ¬ s ≤ a ≤ s + len l → str_at (<[a := b]> m) s l.
Proof. intros [Hp Hb Hl] Ha. split; [done|done|]. intros i Hi. rewrite lookup_insert_ne by lia. by apply Hl. Qed.

Lemma strcpy_spec m d s l :
  str_at m s l → mapped m d (len l + 1) → d + len l < s ∨ s + len l < d →
  strcpy m d s = Done (write_bytes m d (l ++ [0]), d + len l).
Proof.
  intros Hs Hm Hds. pose proof (str_fuel _ _ _ Hs) as Hf. unfold strcpy, mem_fuel.
  assert (length l < S (size m))%nat as Hf' by lia. clear Hf. revert Hf'. generalize (S (size m)) as fuel.
  intros fuel. revert m d s fuel Hs Hm Hds. induction l as [|c l IH]; intros m d s [|fuel] Hs Hm Hds Hf;
    try (simpl in Hf; lia); cbn [strcpy_loop]; str_step Hs;
    (rewrite store_mapped; [|pose proof (Hm 0 ltac:(simpl; lia)) as Hm0; by rewrite Z.add_0_r in Hm0]);
    cbn [mbind outcome_bind]; rewrite wrap_small by lia.
  - simpl. do 2 f_equal. lia.
  - rewrite (proj2 (Z.eqb_neq c 0)) by lia. rewrite IH, write_bytes_cons; [simpl; do 2 f_equal; lia|..].
    + apply str_at_insert; [done|]. simpl in Hds. lia.
    + apply mapped_insert, (mapped_block m d (len (c :: l) + 1)); [done|lia|simpl; lia].
    + simpl in Hds. lia.
    + simpl in Hf. lia.
Qed.

(** ** The set of bytes *)

Lemma wshl_1 n : 0 ≤ n < 64 → wshl 1 n = 2 ^ n.
Proof.
  intros Hn. unfold wshl. rewrite Z.shiftl_1_l. apply wrap_small. apply pow2_lt_usize. lia.
Qed.

Lemma land_pow2 w n : 0 ≤ n → (Z.land w (2 ^ n) =? 0) = negb (Z.testbit w n).
Proof.
  intros Hn. destruct (Z.testbit w n) eqn:Hw; simpl.
  - apply Z.eqb_neq. intros H0. assert (Z.testbit (Z.land w (2 ^ n)) n = false) as Hf
      by (rewrite H0; apply Z.bits_0).
    rewrite Z.land_spec, Hw, Z.pow2_bits_true in Hf by lia. done.
  - apply Z.eqb_eq, Z.bits_inj'. intros i Hi. rewrite Z.land_spec, Z.bits_0.
    destruct (decide (i = n)) as [->|Hne]; [by rewrite Hw|].
    rewrite Z.pow2_bits_false by lia. apply andb_false_r.
Qed.

Lemma byteset_has_testbit bs b :
  byteset_has bs b = Z.testbit (default 0 (bs !! Z.to_nat (b / 64))) (b mod 64).
Proof.
  unfold byteset_has. pose proof (Z.mod_pos_bound b 64). rewrite wshl_1, land_pow2 by lia.
  by destruct (Z.testbit _ _).
Qed.

Lemma byteset_has_empty b : 0 ≤ b < 256 → byteset_has byteset_empty b = false.
Proof.
  intros Hb. rewrite byteset_has_testbit. unfold byteset_empty.
  destruct (Z.to_nat (b / 64)) as [|[|[|[|n]]]]; apply Z.bits_0.
Qed.

Lemma byteset_add_length bs b : length (byteset_add bs b) = length bs.
Proof. apply length_alter. Qed.

Lemma byteset_has_add bs b c :
  length bs = 4%nat → 0 ≤ b < 256 → 0 ≤ c < 256 →
  byteset_has (byteset_add bs b) c = (b =? c) || byteset_has bs c.
Proof.
  intros Hlen Hb Hc. rewrite !byteset_has_testbit. unfold byteset_add.
  pose proof (Z.mod_pos_bound b 64). pose proof (Z.mod_pos_bound c 64).
  pose proof (Z.div_mod b 64). pose proof (Z.div_mod c 64). rewrite wshl_1 by lia.
  assert (0 ≤ b / 64 < 4 ∧ 0 ≤ c / 64 < 4) as [Hb4 Hc4] by (split; split;
    (apply Z.div_pos; lia) || (apply Z.div_lt_upper_bound; lia)).
  destruct (decide (b / 64 = c / 64)) as [Heq|Hne].
  - rewrite Heq. destruct (lookup_lt_is_Some_2 bs (Z.to_nat (c / 64))) as [w Hw]; [lia|].
    rewrite list_lookup_alter_eq, Hw. simpl. rewrite Z.lor_spec, Z.pow2_bits_eqb by lia.
    rewrite orb_comm. f_equal. destruct (Z.eqb_spec b c) as [->|]; [apply Z.eqb_refl|].
    apply Z.eqb_neq. lia.
  - rewrite list_lookup_alter_ne by lia. destruct (Z.eqb_spec b c) as [->|]; [done|]. done.
Qed.

Lemma byteset_loop_spec m l s fuel bs :
  str_at m s l → (length l < fuel)%nat → length bs = 4%nat →
  ∃ bs', byteset_loop fuel m s bs = Done bs' ∧ length bs' = 4%nat ∧
    ∀ c, 0 ≤ c < 256 → byteset_has bs' c = bool_decide (c ∈ l) || byteset_has bs c.
Proof.
  revert s fuel bs. induction l as [|b l IH]; intros s [|fuel] bs Hs Hf Hlen; try (simpl in Hf; lia);
    cbn [byteset_loop]; str_step Hs.
  - exists bs. split_and!; [done..|]. intros c Hc. by rewrite bool_decide_false by set_solver.
  - rewrite (proj2 (Z.eqb_neq b 0)) by lia.
    destruct (IH (s + 1) fuel (byteset_add bs b)) as (bs' & Hrun & Hlen' & Hhas);
      [done|simpl in Hf; lia|by rewrite byteset_add_length|].
    exists bs'. split_and!; [done..|]. intros c Hcr. rewrite Hhas, byteset_has_add by (done || lia).
    rewrite orb_assoc. f_equal. destruct (Z.eqb_spec b c) as [->|Hne].
    + rewrite orb_true_r. symmetry. apply bool_decide_eq_true. set_solver.
    + rewrite orb_false_r. apply bool_decide_ext. set_solver.
Qed.

(** How many bytes a string starts with that are in a set, or not. *)
Fixpoint span (P : Z → bool) (l : list Z) : nat :=
  match l with
  | [] => 0
  | c :: l => if P c then S (span P l) else 0
  end.

Lemma span_loop_spec m l s fuel bs want :
  str_at m s l → (length l < fuel)%nat →
  span_loop fuel m s bs want
  = Done (s + Z.of_nat (span (λ c, Bool.eqb (byteset_has bs c) want) l)).
Proof.
  revert s fuel. induction l as [|b l IH]; intros s [|fuel] Hs Hf; try (simpl in Hf; lia);
    cbn [span_loop]; str_step Hs; simpl; [f_equal; lia|].
  rewrite (proj2 (Z.eqb_neq b 0)) by lia. simpl. destruct (Bool.eqb _ want); simpl; [|f_equal; lia].
  rewrite IH by (done || simpl in Hf; lia). f_equal. lia.
Qed.

Lemma span_ext P Q l : (∀ c, c ∈ l → P c = Q c) → span P l = span Q l.
Proof.
  induction l as [|c l IH]; intros H; simpl; [done|]. rewrite H by set_solver.
  destruct (Q c); [|done]. rewrite IH; [done|]. set_solver.
Qed.

(** [strcspn] counts the bytes before the first one of the set when the set
    has two bytes or more; for fewer it returns 0 unless the strings start
    with the same byte. *)
Lemma strcspn_spec m s1 s2 l set :
  str_at m s1 l → str_at m s2 set → (2 ≤ length set)%nat →
  strcspn m s1 s2 = Done (Z.of_nat (span (λ c, negb (bool_decide (c ∈ set))) l)).
Proof.
  intros H1 H2 Hlen. pose proof (str_fuel _ _ _ H1). pose proof (str_fuel _ _ _ H2) as Hf2.
  destruct (byteset_loop_spec m set s2 (mem_fuel m) byteset_empty H2) as (bs & Hbs & _ & Hhas);
    [unfold mem_fuel; lia|done|].
  unfold strcspn. rewrite Hbs.
  destruct set as [|c0 [|c1 set]]; [simpl in Hlen; lia..|].
  pose proof (str_at_cons _ _ _ _ H2) as (-> & Hc0 & H2'). cbn [mbind outcome_bind].
  rewrite (proj2 (Z.eqb_neq c0 0)) by lia.
  pose proof (str_at_cons _ _ _ _ H2') as (-> & Hc1 & _). cbn [mbind outcome_bind].
  rewrite (proj2 (Z.eqb_neq c1 0)) by lia. cbn [mbind outcome_bind].
  rewrite (span_loop_spec m l) by (done || unfold mem_fuel; lia). cbn [mbind outcome_bind]. f_equal.
  rewrite Z.add_simpl_l. f_equal. apply span_ext. intros c Hc.
  pose proof (sa_bytes _ _ _ H1) as Hb. rewrite Forall_forall in Hb. specialize (Hb c Hc).
  rewrite Hhas, byteset_has_empty, orb_false_r by lia. by destruct (bool_decide (c ∈ _)).
Qed.

(** [strspn] counts the bytes of the set at the start of the string. *)
Lemma strspn_spec m s1 s2 l set :
  str_at m s1 l → str_at m s2 set → (2 ≤ length set)%nat →
  strspn m s1 s2 = Done (Z.of_nat (span (λ c, bool_decide (c ∈ set)) l)).
Proof.
  intros H1 H2 Hlen. pose proof (str_fuel _ _ _ H1). pose proof (str_fuel _ _ _ H2) as Hf2.
  destruct (byteset_loop_spec m set s2 (mem_fuel m) byteset_empty H2) as (bs & Hbs & _ & Hhas);
    [unfold mem_fuel; lia|done|].
  unfold strspn. rewrite Hbs.
  destruct set as [|c0 [|c1 set]]; [simpl in Hlen; lia..|].
  pose proof (str_at_cons _ _ _ _ H2) as (-> & Hc0 & H2'). cbn [mbind outcome_bind].
  rewrite (proj2 (Z.eqb_neq c0 0)) by lia.
  pose proof (str_at_cons _ _ _ _ H2') as (-> & Hc1 & _). cbn [mbind outcome_bind].
  rewrite (proj2 (Z.eqb_neq c1 0)) by lia. cbn [mbind outcome_bind].
  rewrite (span_loop_spec m l) by (done || unfold mem_fuel; lia). cbn [mbind outcome_bind]. f_equal.
  rewrite Z.add_simpl_l. f_equal. apply span_ext. intros c Hc.
  pose proof (sa_bytes _ _ _ H1) as Hb. rewrite Forall_forall in Hb. specialize (Hb c Hc).
  rewrite Hhas, byteset_has_empty, orb_false_r by lia. by destruct (bool_decide (c ∈ _)).
Qed.

(** The set of one byte, and the empty one: the count is wrong for every
    string that does not start with that byte. *)
Lemma strcspn_short m s1 s2 c l set :
  str_at m s1 (c :: l) → str_at m s2 set → (length set < 2)%nat → c ∉ set →
  strcspn m s1 s2 = Done 0.
Proof.
  intros H1 H2 Hlen Hc. apply str_at_cons in H1 as (Hl1 & Hcr & _). unfold strcspn.
  destruct set as [|c0 [|c1 set]]; [..|simpl in Hlen; lia].
  - rewrite (str_at_nil _ _ H2). cbn [mbind outcome_bind]. rewrite Hl1. cbn [mbind outcome_bind].
    simpl. by rewrite (proj2 (Z.eqb_neq c 0)) by lia.
  - apply str_at_cons in H2 as (-> & Hc0 & H2). cbn [mbind outcome_bind].
    rewrite (proj2 (Z.eqb_neq c0 0)) by lia. rewrite (str_at_nil _ _ H2). cbn [mbind outcome_bind].
    simpl. rewrite Hl1. simpl. rewrite (proj2 (Z.eqb_neq c c0)); [done|]. set_solver.
Qed.

(** [strpbrk] on the first byte of a string: the set of one byte is always
    taken to match there. *)
Lemma strpbrk_short m s1 s2 c l b :
  str_at m s1 (c :: l) → str_at m s2 [b] → c ≠ b → strpbrk m s1 s2 = Done s1.
Proof.
  intros H1 H2 Hne. unfold strpbrk. rewrite (strcspn_short m s1 s2 c l [b]) by (done || set_solver || simpl; lia).
  cbn [mbind outcome_bind]. rewrite Z.add_0_r. apply str_at_cons in H1 as (-> & Hc & _). simpl.
  by rewrite (proj2 (Z.eqb_neq c 0)) by lia.
Qed.

(** ** Witnesses *)

(** A string inside a block of bytes. *)
Lemma str_in_block a l0 l l1 :
  0 < a + len l0 → Forall (λ b, 0 < b < 256) l →
  str_at (write_bytes ∅ a (l0 ++ l ++ 0 :: l1)) (a + len l0) l.
Proof.
  intros Ha Hl. constructor; [done..|]. intros i Hi. rewrite write_bytes_lookup, decide_True.
  2: { rewrite !length_app. simpl. lia. }
  rewrite lookup_app_r by lia. replace (Z.to_nat _ - length l0)%nat with (Z.to_nat i) by lia.
  unfold byte_at. destruct (decide (i = len l)) as [->|].
  - rewrite Nat2Z.id, lookup_app_r, Nat.sub_diag by lia.
    by rewrite (lookup_ge_None_2 l) by lia.
  - rewrite lookup_app_l by lia. destruct (lookup_lt_is_Some_2 l (Z.to_nat i)) as [b ->]; [lia|]. done.
Qed.

Lemma memmove_moves_witness :
  memmove (write_bytes ∅ 100 [1; 2; 3; 4; 5; 6]) 102 100 4
  = Done (write_bytes (write_bytes ∅ 100 [1; 2; 3; 4; 5; 6]) 102 [1; 2; 3; 4]).
Proof.
  apply (memmove_moves (write_bytes ∅ 100 [1; 2; 3; 4; 5; 6]) 102 100 [1; 2; 3; 4]);
    [| |simpl; lia..].
  - intros i b Hb. do 4 (destruct i as [|i]; [injection Hb as <-; split; [reflexivity|lia]|]). done.
  - intros i Hi. assert (i = 0 ∨ i = 1 ∨ i = 2 ∨ i = 3) as [->|[->|[->| ->]]] by (simpl in Hi; lia);
      eexists; reflexivity.
Defined.
