(* ===== verification/CAlloc.v ===== *)
(** * [malloc] and its relatives
      ([ulib/libax/src/cbindings/malloc.rs], [ulib/c_libax/src/stdlib.c])

    A block of the C heap is a block of the global allocator with its size in
    the eight bytes before it.  The functions use the allocator through
    [ByteAlloc], and what they rely on is [ByteAllocLaws]; the allocator of
    [AxAlloc.v] is shown to satisfy it.  The heap refines a finite map from
    pointers to the bytes of their blocks.

    A program may access the bytes of its blocks and no others of the heap;
    [junk] is what a new block happens to contain. *)

From S2P Require Import Prelude Allocator PageAllocSpec SlabSpec AxAlloc CString CStringSpec.
From stdpp Require Import base numbers sets gmap list.

Open Scope Z_scope.
Local Open Scope word_scope.

(** ** The interface of the allocator *)

Class ByteAlloc (G : Type) := {
  alloc_bytes : Z → Z → G → outcome (result AllocError Z * G);
  dealloc_bytes : Z → Z → Z → G → outcome G;
}.

(** [held_ok g H]: the blocks handed out with alignment 8 are [H]. *)
Class ByteAllocLaws (G : Type) `{ByteAlloc G} := {
  held_ok : G → list region → Prop;
  law_alloc_bytes g H n : held_ok g H → 0 ≤ n ≤ 2 ^ 63 - 8 →
    ∃ r g', alloc_bytes n 8 g = Done (r, g') ∧
      match r with Ok p => held_ok g' ((p, n) :: H) | Err _ => held_ok g' H end;
  law_dealloc_bytes g H H' p n : held_ok g H → H ≡ₚ (p, n) :: H' →
    ∃ g', dealloc_bytes p n 8 g = Done g' ∧ held_ok g' H';
  law_held_apart g H : held_ok g H → pairwise_disj H;
  law_held_block g H p n : held_ok g H → (p, n) ∈ H → 0 < p ∧ (8 | p) ∧ p + n < 2 ^ 64;
  law_held_perm g H H' : held_ok g H → H ≡ₚ H' → held_ok g H';
}.

(** ** Words in memory *)

(** The eight bytes of a [usize], the lowest first. *)
Definition le_bytes (v : Z) : list Z := (λ i, wrap 8 (v .>> (8 * i))) <$> seqZ 0 8.

Fixpoint le_val (l : list Z) : Z := match l with [] => 0 | b :: l => b + 256 * le_val l end.

Fixpoint store_list (m : cmem) (a : Z) (l : list Z) : outcome cmem :=
  match l with
  | [] => Done m
  | b :: l => m ← store m a b; store_list m (a + 1) l
  end.

Fixpoint load_list (m : cmem) (a : Z) (n : nat) : outcome (list Z) :=
  match n with
  | O => Done []
  | S n => b ← load m a; l ← load_list m (a + 1) n; Done (b :: l)
  end.

Definition store_usize (m : cmem) (a v : Z) : outcome cmem := store_list m a (le_bytes v).
Definition load_usize (m : cmem) (a : Z) : outcome Z := l ← load_list m a 8; Done (le_val l).

(** ** The functions *)

Record cheap (G : Type) := { ch_ga : G; ch_mem : cmem }.
Arguments ch_ga {G} _.
Arguments ch_mem {G} _.

Section calloc.
Context {G : Type} `{BA : ByteAlloc G} (junk : G → Z → Z).
Implicit Types (s : cheap G).

(** The bytes of a new block become accessible, those of a freed one cease to
    be. *)
Definition open_block (g : G) (p n : Z) (m : cmem) : cmem :=
  write_bytes m p ((λ i, wrap 8 (junk g (p + i))) <$> seqZ 0 n).

Definition close_block (p n : Z) (m : cmem) : cmem := filter (λ x, ¬ p ≤ x.1 < p + n) m.

(** [size_of::<MemoryControlBlock>()]. *)
Definition CONTROL_BLOCK : Z := 8.
Definition BYTES_OF_USIZE : Z := 0x8.

Definition ax_malloc (size : Z) s : outcome (cheap G * Z) :=
  '(r, g) ← alloc_bytes (size ⊕ CONTROL_BLOCK) BYTES_OF_USIZE (ch_ga s);
  match r with
  | Ok addr =>
      let m := open_block g addr (size ⊕ CONTROL_BLOCK) (ch_mem s) in
      m ← store_usize m addr size;
      Done ({| ch_ga := g; ch_mem := m |}, addr ⊕ 8)
  | Err _ => Done ({| ch_ga := g; ch_mem := ch_mem s |}, NULL)
  end.

Definition ax_free (addr : Z) s : outcome (cheap G) :=
  size ← load_usize (ch_mem s) (addr ⊖ CONTROL_BLOCK);
  g ← dealloc_bytes (addr ⊖ CONTROL_BLOCK) (size ⊕ CONTROL_BLOCK) BYTES_OF_USIZE (ch_ga s);
  Done {| ch_ga := g; ch_mem := close_block (addr ⊖ CONTROL_BLOCK) (size ⊕ CONTROL_BLOCK) (ch_mem s) |}.

Definition malloc (size : Z) s : outcome (cheap G * Z) := ax_malloc size s.

Definition calloc (m n : Z) s : outcome (cheap G * Z) :=
  '(s, mem) ← ax_malloc (m ⊗ n) s;
  cm ← memset (ch_mem s) mem 0 (n ⊗ m);
  Done ({| ch_ga := ch_ga s; ch_mem := cm |}, mem).

(** The loop of [realloc]; its counter is an [int], whose overflow is
    undefined. *)
Fixpoint realloc_loop (fuel : nat) (m : cmem) (mem memblock i n : Z) : outcome cmem :=
  match fuel with
  | O => Panic
  | S fuel =>
      if i <? n then
        b ← load m (memblock + i);
        m ← store m (mem + i) b;
        if i =? 2 ^ 31 - 1 then Panic else realloc_loop fuel m mem memblock (i + 1) n
      else Done m
  end.

Definition realloc (memblock size : Z) s : outcome (cheap G * Z) :=
  if memblock =? NULL then malloc size s
  else
    o_size ← load_usize (ch_mem s) (memblock ⊖ 8);
    '(s, mem) ← ax_malloc size s;
    let n := if o_size <? size then o_size else size in
    cm ← realloc_loop (S (Z.to_nat n)) (ch_mem s) mem memblock 0 n;
    s ← ax_free memblock {| ch_ga := ch_ga s; ch_mem := cm |};
    Done (s, mem).

Definition free (addr : Z) s : outcome (cheap G) :=
  if addr =? NULL then Done s else ax_free addr s.

End calloc.

(** ** Words read back *)

Lemma le_bytes_length v : length (le_bytes v) = 8%nat.
Proof. done. Qed.

Lemma le_bytes_range v : Forall (λ b, 0 ≤ b < 256) (le_bytes v).
Proof. apply Forall_fmap, Forall_forall. intros i _. by apply (wrap_range 8). Qed.

Lemma le_val_bytes v : is_usize v → le_val (le_bytes v) = v.
Proof.
  intros Hv. unfold le_bytes. change (seqZ 0 8) with [0; 1; 2; 3; 4; 5; 6; 7].
  cbn [fmap list_fmap le_val]. rewrite !Z.shiftr_div_pow2 by lia. unfold wrap.
  change (2 ^ (8 * 0)) with 1. rewrite Z.div_1_r.
  change (2 ^ (8 * 1)) with 256. change (2 ^ (8 * 2)) with (256 * 256).
  change (2 ^ (8 * 3)) with (256 * 256 * 256). change (2 ^ (8 * 4)) with (256 * 256 * 256 * 256).
  change (2 ^ (8 * 5)) with (256 * 256 * 256 * 256 * 256). change (2 ^ (8 * 6)) with (256 * 256 * 256 * 256 * 256 * 256).
  change (2 ^ (8 * 7)) with (256 * 256 * 256 * 256 * 256 * 256 * 256). change (2 ^ 8) with 256.
  rewrite <- !Z.div_div by lia.
  set (v1 := v / 256). set (v2 := v1 / 256). set (v3 := v2 / 256). set (v4 := v3 / 256). set (v5 := v4 / 256).
  set (v6 := v5 / 256). set (v7 := v6 / 256).
  pose proof (Z.div_mod v 256). pose proof (Z.div_mod v1 256). pose proof (Z.div_mod v2 256). pose proof (Z.div_mod v3 256).
  pose proof (Z.div_mod v4 256). pose proof (Z.div_mod v5 256). pose proof (Z.div_mod v6 256).
  assert (v7 = v / 256 ^ 7) as H7.
  { unfold v7, v6, v5, v4, v3, v2, v1. rewrite !Z.div_div by lia. done. }
  assert (0 ≤ v7 < 256) by (rewrite H7; destruct Hv; split; [apply Z.div_pos; lia|apply Z.div_lt_upper_bound; lia]).
  rewrite (Z.mod_small v7) by lia. clear H7. subst v7 v6 v5 v4 v3 v2 v1. lia.
Qed.

Lemma load_list_spec m a l : bytes_at m a l → load_list m a (length l) = Done l.
Proof.
  revert a. induction l as [|b l IH]; intros a Hl; [done|]. cbn [length load_list]. unfold load.
  destruct (Hl 0%nat b eq_refl) as [H0 _]. rewrite Z.add_0_r in H0. rewrite H0. cbn [unwrap mbind outcome_bind].
  rewrite IH; [done|]. intros i c Hc. destruct (Hl (S i) c Hc) as [H1 H2]. split; [|done]. rewrite <- H1. f_equal. lia.
Qed.

Lemma store_list_spec m a l : mapped m a (len l) → Forall (λ b, 0 ≤ b < 256) l →
  store_list m a l = Done (write_bytes m a l).
Proof.
  revert m a. induction l as [|b l IH]; intros m a Hm Hl; [done|]. apply Forall_cons in Hl as [Hb Hl].
  cbn [length] in Hm. destruct (Hm 0 ltac:(lia)) as [x Hx]. rewrite Z.add_0_r in Hx.
  cbn [store_list write_bytes]. unfold store. rewrite Hx. cbn [mbind outcome_bind].
  rewrite wrap_small by (change (2 ^ 8) with 256; lia). rewrite IH; [|apply mapped_insert|done].
  - f_equal. apply map_eq. intros x'. rewrite write_bytes_lookup.
    destruct (decide (x' = a)) as [->|Hne]; [rewrite decide_False by lia; by rewrite !lookup_insert_eq|].
    rewrite !lookup_insert_ne by congruence. by rewrite write_bytes_lookup.
  - intros i Hi. rewrite <- Z.add_assoc. apply Hm. lia.
Qed.

Lemma bytes_at_write_eq m a l : Forall (λ b, 0 ≤ b < 256) l → bytes_at (write_bytes m a l) a l.
Proof.
  intros Hl i b Hb. split; [|by apply (Forall_lookup_1 _ _ _ _ Hl Hb)]. pose proof (lookup_lt_Some _ _ _ Hb).
  rewrite write_bytes_lookup, decide_True by lia. by replace (Z.to_nat (a + Z.of_nat i - a)) with i by lia.
Qed.

Lemma bytes_at_write_ne m a l s l' : bytes_at m s l' → rdisj (a, len l) (s, len l') → bytes_at (write_bytes m a l) s l'.
Proof.
  intros Hl Hd i b Hb. destruct (Hl i b Hb) as [H1 H2]. split; [|done]. pose proof (lookup_lt_Some _ _ _ Hb).
  rewrite write_bytes_lookup, decide_False; [done|]. unfold rdisj in Hd. cbn in Hd. lia.
Qed.

(** ** The heap as a map from pointers to bytes *)

Section spec.
Context {G : Type} `{BA : ByteAlloc G} `{BL : !ByteAllocLaws G} (junk : G → Z → Z).
Implicit Types (s : cheap G) (A : gmap Z (list Z)).

(** The block of the allocator behind a pointer. *)
Definition block (x : Z * list Z) : region := (x.1 - 8, len x.2 + 8).

Record c_heap s A : Prop := {
  ch_held : held_ok (ch_ga s) (block <$> map_to_list A);
  ch_header p bs : A !! p = Some bs → bytes_at (ch_mem s) (p - 8) (le_bytes (len bs));
  ch_bytes p bs : A !! p = Some bs → bytes_at (ch_mem s) p bs;
  ch_null : ch_mem s !! NULL = None;
}.

Lemma c_heap_block s A p bs : c_heap s A → A !! p = Some bs → 8 < p ∧ (8 | p) ∧ p + len bs < 2 ^ 64.
Proof.
  intros Hh Hp. destruct (law_held_block _ _ (p - 8) (len bs + 8) (ch_held _ _ Hh)) as (H0 & H8 & Hb).
  { apply list_elem_of_fmap. exists (p, bs). split; [done|]. by apply elem_of_map_to_list. }
  split; [lia|]. split; [|lia]. replace p with (p - 8 + 8) by lia. apply Z.divide_add_r; [done|by exists 1].
Qed.

Lemma c_heap_apart s A p q bs cs : c_heap s A → A !! p = Some bs → A !! q = Some cs → p ≠ q →
  rdisj (block (p, bs)) (block (q, cs)).
Proof.
  intros Hh Hp Hq Hne. pose proof (ch_held _ _ Hh) as Ho.
  eapply law_held_perm in Ho; [|by rewrite <- (map_to_list_delete A p bs Hp)].
  apply law_held_apart in Ho as [Ho _]. eapply Forall_forall in Ho; [exact Ho|].
  apply list_elem_of_fmap. exists (q, cs). split; [done|]. apply elem_of_map_to_list. by rewrite lookup_delete_ne.
Qed.

Lemma size_bound s A p bs : c_heap s A → A !! p = Some bs → is_usize (len bs).
Proof. intros Hh Hp. destruct (c_heap_block s A p bs Hh Hp) as (? & _ & ?). unfold is_usize. lia. Qed.

Lemma load_header s A p bs : c_heap s A → A !! p = Some bs → load_usize (ch_mem s) (p - 8) = Done (len bs).
Proof.
  intros Hh Hp. unfold load_usize. change 8%nat with (length (le_bytes (len bs))).
  rewrite (load_list_spec _ _ _ (ch_header _ _ Hh p bs Hp)). cbn [mbind outcome_bind].
  by rewrite le_val_bytes by by eapply size_bound.
Qed.

(** A block that is changed without a change to others. *)
Lemma c_heap_write s A p bs bs' m : c_heap s A → A !! p = Some bs → length bs' = length bs →
  bytes_at m p bs' → (∀ a, ¬ p ≤ a < p + len bs → m !! a = ch_mem s !! a) →
  c_heap {| ch_ga := ch_ga s; ch_mem := m |} (<[p := bs']> A).
Proof.
  intros Hh Hp Hlen Hb Hm. destruct (c_heap_block s A p bs Hh Hp) as (Hp8 & _ & _).
  assert (∀ a l, bytes_at (ch_mem s) a l → rdisj (p, len bs) (a, len l) → bytes_at m a l) as Hkeep.
  { intros a l Hl Hd i b Hi. destruct (Hl i b Hi) as [H1 H2]. split; [|done]. pose proof (lookup_lt_Some _ _ _ Hi).
    rewrite Hm; [done|]. unfold rdisj in Hd. cbn in Hd. lia. }
  split; cbn [ch_ga ch_mem].
  - eapply law_held_perm; [exact (ch_held _ _ Hh)|]. rewrite <- (insert_delete_eq A p bs'), map_to_list_insert by apply lookup_delete_eq.
    rewrite <- (map_to_list_delete A p bs Hp). cbn. unfold block. cbn. by rewrite Hlen.
  - intros q cs [[-> <-]|[Hne Hq]]%lookup_insert_Some.
    + rewrite Hlen. apply Hkeep; [by apply (ch_header _ _ Hh)|]. rewrite le_bytes_length. right. cbn. lia.
    + apply Hkeep; [by apply (ch_header _ _ Hh)|]. pose proof (c_heap_apart s A p q bs cs Hh Hp Hq Hne) as Hd.
      unfold rdisj, block in *. rewrite le_bytes_length. cbn in *. lia.
  - intros q cs [[-> <-]|[Hne Hq]]%lookup_insert_Some; [done|].
    apply Hkeep; [by apply (ch_bytes _ _ Hh)|]. pose proof (c_heap_apart s A p q bs cs Hh Hp Hq Hne) as Hd.
    unfold rdisj, block in *. cbn in *. lia.
  - rewrite Hm; [apply (ch_null _ _ Hh)|unfold NULL; lia].
Qed.

(** A new block in a heap whose other blocks are untouched. *)
Lemma c_heap_add s A g m p bs : c_heap s A → held_ok g ((p - 8, len bs + 8) :: (block <$> map_to_list A)) →
  bytes_at m (p - 8) (le_bytes (len bs)) → bytes_at m p bs →
  (∀ a, ¬ p - 8 ≤ a < p + len bs → m !! a = ch_mem s !! a) →
  A !! p = None ∧ c_heap {| ch_ga := g; ch_mem := m |} (<[p := bs]> A).
Proof.
  intros Hh Ho Hhd Hb Hm. pose proof (law_held_apart _ _ Ho) as [Hap _].
  destruct (law_held_block _ _ (p - 8) (len bs + 8) Ho ltac:(left)) as (Hp0 & _).
  assert (∀ q cs, A !! q = Some cs → rdisj (p - 8, len bs + 8) (block (q, cs))) as Hd.
  { intros q cs Hq. eapply Forall_forall in Hap; [exact Hap|]. apply list_elem_of_fmap. exists (q, cs).
    split; [done|]. by apply elem_of_map_to_list. }
  assert (A !! p = None) as Hnew.
  { destruct (A !! p) as [cs|] eqn:Hp; [|done]. specialize (Hd p cs Hp). unfold rdisj, block in Hd. cbn in Hd. lia. }
  split; [done|].
  assert (∀ a l, bytes_at (ch_mem s) a l → rdisj (p - 8, len bs + 8) (a, len l) → bytes_at m a l) as Hkeep.
  { intros a l Hl Hda i b Hi. destruct (Hl i b Hi) as [H1 H2]. split; [|done]. pose proof (lookup_lt_Some _ _ _ Hi).
    rewrite Hm; [done|]. unfold rdisj in Hda. cbn in Hda. lia. }
  split; cbn [ch_ga ch_mem].
  - eapply law_held_perm; [exact Ho|]. by rewrite map_to_list_insert.
  - intros q cs [[-> <-]|[Hne Hq]]%lookup_insert_Some; [done|].
    apply Hkeep; [by apply (ch_header _ _ Hh)|]. specialize (Hd q cs Hq).
    unfold rdisj, block in *. rewrite le_bytes_length. cbn in *. lia.
  - intros q cs [[-> <-]|[Hne Hq]]%lookup_insert_Some; [done|].
    apply Hkeep; [by apply (ch_bytes _ _ Hh)|]. specialize (Hd q cs Hq). unfold rdisj, block in *. cbn in *. lia.
  - rewrite Hm; [apply (ch_null _ _ Hh)|unfold NULL; lia].
Qed.

Lemma malloc_spec s A n : c_heap s A → 0 ≤ n ≤ 2 ^ 63 - 16 →
  ∃ s' p, ax_malloc junk n s = Done (s', p) ∧
    if decide (p = NULL) then c_heap s' A
    else A !! p = None ∧ ∃ bs, len bs = n ∧ c_heap s' (<[p := bs]> A).
Proof.
  intros Hh Hn. unfold ax_malloc, CONTROL_BLOCK, BYTES_OF_USIZE.
  rewrite wadd_small by (unfold is_usize; lia).
  destruct (law_alloc_bytes _ _ (n + 8) (ch_held _ _ Hh) ltac:(lia)) as (r & g & Hal & Hr). rewrite Hal.
  cbn [mbind outcome_bind]. destruct r as [a|e].
  2: { eexists _, _. split; [done|]. rewrite decide_True by done.
    destruct Hh as [_ ? ? ?]. by split. }
  destruct (law_held_block _ _ a (n + 8) Hr ltac:(left)) as (Ha0 & Ha8 & Haend).
  set (jk := (λ i, wrap 8 (junk g (a + i))) <$> seqZ 0 (n + 8)).
  assert (len jk = n + 8) as Hjk by (unfold jk; rewrite length_fmap, length_seqZ; lia).
  assert (Forall (λ b, 0 ≤ b < 256) jk) as Hjr.
  { apply Forall_fmap, Forall_forall. intros i _. by apply (wrap_range 8). }
  unfold store_usize, open_block. fold jk. rewrite store_list_spec; [|intros i Hi|apply le_bytes_range].
  2: { rewrite write_bytes_lookup. rewrite le_bytes_length in Hi. rewrite decide_True by lia.
    apply lookup_lt_is_Some_2. lia. }
  cbn [mbind outcome_bind]. rewrite wadd_small by (unfold is_usize; lia).
  set (m := write_bytes (write_bytes (ch_mem s) a jk) a (le_bytes n)). set (bs := drop 8 jk).
  assert (len bs = n) as Hbs by (unfold bs; rewrite length_drop; lia).
  assert (A !! (a + 8) = None ∧ c_heap {| ch_ga := g; ch_mem := m |} (<[a + 8 := bs]> A)) as [Hnew Hc].
  { apply (c_heap_add s); replace (a + 8 - 8) with a by lia; rewrite ?Hbs; [done|done| | |].
    - apply bytes_at_write_eq, le_bytes_range.
    - intros i b Hi. pose proof (lookup_lt_Some _ _ _ Hi). split.
      + unfold m. rewrite !write_bytes_lookup, le_bytes_length, decide_False, decide_True by lia.
        unfold bs in Hi. rewrite lookup_drop in Hi. rewrite <- Hi. f_equal. lia.
      + eapply (Forall_lookup_1 _ _ _ _ Hjr). unfold bs in Hi. rewrite lookup_drop in Hi. exact Hi.
    - intros x Hx. unfold m. rewrite !write_bytes_lookup, le_bytes_length, !decide_False by lia. done. }
  eexists _, _. split; [done|]. rewrite decide_False by (unfold NULL; lia). split; [done|]. by exists bs.
Qed.

Lemma close_block_lookup p n (m : cmem) a : close_block p n m !! a = if decide (p ≤ a < p + n) then None else m !! a.
Proof.
  unfold close_block. case_decide as Ha.
  - apply map_lookup_filter_None_2. right. intros x _ Hx. by apply Hx.
  - destruct (m !! a) as [x|] eqn:Hx; [by apply map_lookup_filter_Some_2|]. apply map_lookup_filter_None_2. by left.
Qed.

Lemma free_spec s A p bs : c_heap s A → A !! p = Some bs →
  ∃ s', ax_free p s = Done s' ∧ c_heap s' (delete p A).
Proof.
  intros Hh Hp. destruct (c_heap_block s A p bs Hh Hp) as (Hp8 & _ & Hend).
  unfold ax_free, CONTROL_BLOCK, BYTES_OF_USIZE. rewrite wsub_small by (unfold is_usize; lia).
  rewrite (load_header s A p bs Hh Hp). cbn [mbind outcome_bind]. rewrite wadd_small by (unfold is_usize; lia).
  destruct (law_dealloc_bytes _ _ (block <$> map_to_list (delete p A)) (p - 8) (len bs + 8) (ch_held _ _ Hh))
    as (g & Hd & Hg). { by rewrite <- (map_to_list_delete A p bs Hp). }
  rewrite Hd. cbn [mbind outcome_bind]. eexists. split; [done|].
  assert (∀ a l, bytes_at (ch_mem s) a l → rdisj (p - 8, len bs + 8) (a, len l) →
    bytes_at (close_block (p - 8) (len bs + 8) (ch_mem s)) a l) as Hkeep.
  { intros a l Hl Hda i b Hi. destruct (Hl i b Hi) as [H1 H2]. split; [|done]. pose proof (lookup_lt_Some _ _ _ Hi).
    rewrite close_block_lookup, decide_False; [done|]. unfold rdisj in Hda. cbn in Hda. lia. }
  split; cbn [ch_ga ch_mem]; [done| | |].
  - intros q cs [Hne Hq]%lookup_delete_Some. apply Hkeep; [by apply (ch_header _ _ Hh)|].
    pose proof (c_heap_apart s A p q bs cs Hh Hp Hq Hne) as Hd'. unfold rdisj, block in *.
    rewrite le_bytes_length. cbn in *. lia.
  - intros q cs [Hne Hq]%lookup_delete_Some. apply Hkeep; [by apply (ch_bytes _ _ Hh)|].
    pose proof (c_heap_apart s A p q bs cs Hh Hp Hq Hne) as Hd'. unfold rdisj, block in *. cbn in *. lia.
  - rewrite close_block_lookup. case_decide; [done|apply (ch_null _ _ Hh)].
Qed.

Lemma wmul_comm m n : m ⊗ n = n ⊗ m.
Proof. unfold wmul. by rewrite Z.mul_comm. Qed.

(** The sizes of [calloc] are multiplied with wrap-around. *)
Lemma calloc_spec s A m n : c_heap s A → m ⊗ n ≤ 2 ^ 63 - 16 →
  ∃ s' p, ax_malloc junk (m ⊗ n) s = Done (s', p) ∧
    if decide (p = NULL) then c_heap s' A ∧ calloc junk m n s = if m ⊗ n =? 0 then Done (s', NULL) else Panic
    else A !! p = None ∧
      ∃ s'', calloc junk m n s = Done (s'', p) ∧ c_heap s'' (<[p := replicate (Z.to_nat (m ⊗ n)) 0]> A).
Proof.
  intros Hh Hmn. unfold calloc. rewrite (wmul_comm n m). set (k := m ⊗ n) in *.
  assert (0 ≤ k) as Hk0 by (unfold k; by apply wrap_range).
  destruct (malloc_spec s A k Hh ltac:(lia)) as (s' & p & Hm & Hr). exists s', p. split; [done|]. rewrite Hm.
  cbn [mbind outcome_bind]. case_decide as Hp.
  - subst p. split; [done|]. unfold memset. destruct (Z.eqb_spec k 0); [by destruct s'|].
    unfold store. by rewrite (ch_null _ _ Hr).
  - destruct Hr as (Hnew & bs & Hlen & Hc). split; [done|].
    destruct (c_heap_block _ _ p bs Hc (lookup_insert_eq _ _ _)) as (Hp8 & _ & Hend).
    pose proof (ch_bytes _ _ Hc p bs (lookup_insert_eq _ _ _)) as Hb. rewrite memset_spec; [|lia|lia|lia|].
    2: { intros i Hi. destruct (lookup_lt_is_Some_2 bs (Z.to_nat i)) as [b Hbi]; [lia|].
      destruct (Hb (Z.to_nat i) b Hbi) as [Hx _]. rewrite Z2Nat.id in Hx by lia. by exists b. }
    eexists. split; [done|]. rewrite <- (insert_insert_eq A p _ bs).
    apply (c_heap_write s' _ p bs); [done|apply lookup_insert_eq|rewrite length_replicate; lia| |].
    + apply bytes_at_write_eq. change (wrap 8 0) with 0. apply Forall_replicate. lia.
    + intros a Ha. rewrite write_bytes_lookup, length_replicate, decide_False by lia. done.
Qed.

Lemma realloc_loop_copy m mem mb i n fuel : 0 ≤ i ≤ n → n < 2 ^ 31 → (Z.to_nat (n - i) < fuel)%nat →
  realloc_loop fuel m mem mb i n = copy_up (Z.to_nat (n - i)) m (mem + i) (mb + i).
Proof.
  revert m i. induction fuel as [|fuel IH]; intros m i Hi Hn Hf; [lia|]. cbn [realloc_loop].
  destruct (Z.ltb_spec i n).
  - replace (Z.to_nat (n - i)) with (S (Z.to_nat (n - (i + 1)))) by lia. cbn [copy_up].
    destruct (load m (mb + i)) as [b|]; [|done]. cbn [mbind outcome_bind].
    destruct (store m (mem + i) b) as [m'|]; [|done]. cbn [mbind outcome_bind].
    destruct (Z.eqb_spec i (2 ^ 31 - 1)); [lia|]. rewrite IH by lia. f_equal; lia.
  - by replace (Z.to_nat (n - i)) with 0%nat by lia.
Qed.

Lemma bytes_at_take m a l k : bytes_at m a l → bytes_at m a (take k l).
Proof. intros Hl i b Hi. apply lookup_take_Some in Hi as [Hi _]. by apply Hl. Qed.

Lemma bytes_at_mapped m a l : bytes_at m a l → mapped m a (len l).
Proof.
  intros Hl i Hi. destruct (lookup_lt_is_Some_2 l (Z.to_nat i)) as [b Hb]; [lia|].
  destruct (Hl (Z.to_nat i) b Hb) as [Hx _]. rewrite Z2Nat.id in Hx by lia. by exists b.
Qed.

(** [realloc] of a block, of which less than 2 GiB are kept. *)
Lemma realloc_spec s A p bs n : c_heap s A → A !! p = Some bs → 0 ≤ n ≤ 2 ^ 63 - 16 → Z.min (len bs) n < 2 ^ 31 →
  ∃ s' q, ax_malloc junk n s = Done (s', q) ∧
    if decide (q = NULL)
    then c_heap s' A ∧ (0 < Z.min (len bs) n → realloc junk p n s = Panic) ∧
      (Z.min (len bs) n = 0 → ∃ s'', realloc junk p n s = Done (s'', NULL) ∧ c_heap s'' (delete p A))
    else A !! q = None ∧ ∃ s'' cs, realloc junk p n s = Done (s'', q) ∧ len cs = n ∧
      take (length bs `min` Z.to_nat n) cs = take (Z.to_nat n) bs ∧ c_heap s'' (<[q := cs]> (delete p A)).
Proof.
  intros Hh Hp Hn Hmin. destruct (c_heap_block s A p bs Hh Hp) as (Hp8 & _ & Hend).
  destruct (malloc_spec s A n Hh Hn) as (s' & q & Hm & Hr). exists s', q. split; [done|].
  unfold realloc. destruct (Z.eqb_spec p NULL) as [Hnull|_]; [unfold NULL in Hnull; lia|].
  rewrite wsub_small by (unfold is_usize; lia). rewrite (load_header s A p bs Hh Hp). cbn [mbind outcome_bind].
  rewrite Hm. cbn [mbind outcome_bind]. set (k := if len bs <? n then len bs else n).
  assert (k = Z.min (len bs) n) as Hk by (unfold k; destruct (Z.ltb_spec (len bs) n); lia).
  rewrite realloc_loop_copy by lia. rewrite Z.sub_0_r, !Z.add_0_r. case_decide as Hq.
  - subst q. split; [done|]. split; intros Hk'.
    + replace (Z.to_nat k) with (S (Z.to_nat (k - 1))) by lia. cbn [copy_up]. unfold load, store.
      destruct (ch_mem s' !! p); [|done]. cbn [unwrap mbind outcome_bind]. by rewrite (ch_null _ _ Hr).
    + replace (Z.to_nat k) with 0%nat by lia. cbn [copy_up mbind outcome_bind].
      destruct (free_spec s' A p bs Hr Hp) as (s'' & Hf & Hc). exists s''. split; [|done].
      replace {| ch_ga := ch_ga s'; ch_mem := ch_mem s' |} with s' by (by destruct s'). by rewrite Hf.
  - destruct Hr as (Hnew & cs & Hlen & Hc). split; [done|].
    assert (p ≠ q) as Hne by congruence.
    assert (<[q := cs]> A !! p = Some bs) as Hp1 by (by rewrite lookup_insert_ne).
    assert (<[q := cs]> A !! q = Some cs) as Hq1 by apply lookup_insert_eq.
    pose proof (c_heap_apart _ _ p q bs cs Hc Hp1 Hq1 Hne) as Hd. unfold rdisj, block in Hd. cbn in Hd.
    pose proof (ch_bytes _ _ Hc q cs Hq1) as Hqb. pose proof (ch_bytes _ _ Hc p bs Hp1) as Hpb.
    set (l := take (Z.to_nat k) bs). assert (length l = Z.to_nat k) as Hl by (unfold l; rewrite length_take; lia).
    rewrite <- Hl. rewrite copy_up_spec; [|by apply bytes_at_take| |lia].
    2: { intros i Hi. apply (bytes_at_mapped _ _ _ Hqb). lia. }
    cbn [mbind outcome_bind]. set (cs' := l ++ drop (length l) cs).
    assert (length cs' = length cs) as Hcs' by (unfold cs'; rewrite length_app, length_drop; lia).
    assert (c_heap {| ch_ga := ch_ga s'; ch_mem := write_bytes (ch_mem s') q l |} (<[q := cs']> A)) as Hc2.
    { rewrite <- (insert_insert_eq A q _ cs). apply (c_heap_write s' _ q cs); [done..| |].
      - intros i b Hi. unfold cs' in Hi. destruct (decide (i < length l)%nat) as [Hil|Hil].
        + rewrite lookup_app_l in Hi by done. split.
          * rewrite write_bytes_lookup, decide_True by lia. by replace (Z.to_nat (q + Z.of_nat i - q)) with i by lia.
          * apply lookup_take_Some in Hi as [Hi _]. by apply (Hpb i b).
        + rewrite lookup_app_r, lookup_drop in Hi by lia. replace (length l + (i - length l))%nat with i in Hi by lia.
          destruct (Hqb i b Hi) as [H1 H2]. split; [|done]. rewrite write_bytes_lookup, decide_False by lia. done.
      - intros a Ha. rewrite write_bytes_lookup, decide_False by lia. done. }
    destruct (free_spec _ (<[q := cs']> A) p bs Hc2) as (s'' & Hf & Hc3); [by rewrite lookup_insert_ne|].
    exists s'', cs'. rewrite Hf. split; [done|]. split; [lia|]. split.
    + replace (length bs `min` Z.to_nat n)%nat with (length l) by lia. unfold cs'. rewrite take_app_length.
      unfold l. rewrite Hk. destruct (decide (len bs ≤ n)); [rewrite !take_ge by lia; done|]. by rewrite Z.min_r by lia.
    + by rewrite delete_insert_ne in Hc3 by done.
Qed.

(** ** Refinement *)

(** Calls of a program, and stores to its blocks. *)
Inductive c_call :=
| Malloc (n : Z) | Calloc (m n : Z) | Realloc (p n : Z) | Free (p : Z) | Poke (p i b : Z).

Definition run_call (c : c_call) s : outcome (cheap G * Z) :=
  match c with
  | Malloc n => malloc junk n s
  | Calloc m n => calloc junk m n s
  | Realloc p n => realloc junk p n s
  | Free p => s ← free p s; Done (s, 0)
  | Poke p i b => m ← store (ch_mem s) (p + i) b; Done ({| ch_ga := ch_ga s; ch_mem := m |}, 0)
  end.

(** What the standard asks of the caller; sizes are below 8 EiB and [realloc]
    keeps less than 2 GiB. *)
Definition size_ok (n : Z) : Prop := 0 ≤ n ≤ 2 ^ 63 - 16.

Definition call_ok (c : c_call) A : Prop :=
  match c with
  | Malloc n => size_ok n
  | Calloc m n => size_ok (m * n)
  | Realloc p n => size_ok n ∧ (p = NULL ∨ ∃ bs, A !! p = Some bs ∧ Z.min (len bs) n < 2 ^ 31)
  | Free p => p = NULL ∨ is_Some (A !! p)
  | Poke p i b => ∃ bs, A !! p = Some bs ∧ 0 ≤ i < len bs
  end.

(** A new block with the bytes [P]. *)
Definition fresh_block A (r : Z) (P : list Z → Prop) A' : Prop := A !! r = None ∧ ∃ bs, P bs ∧ A' = <[r := bs]> A.

Definition abs_step A (c : c_call) (r : Z) A' : Prop :=
  match c with
  | Malloc n => if decide (r = NULL) then A' = A else fresh_block A r (λ bs, len bs = n) A'
  | Calloc m n => if decide (r = NULL) then A' = A else fresh_block A r (λ bs, bs = replicate (Z.to_nat (m * n)) 0) A'
  | Realloc p n =>
      if decide (p = NULL) then if decide (r = NULL) then A' = A else fresh_block A r (λ bs, len bs = n) A'
      else ∃ bs, A !! p = Some bs ∧
        if decide (r = NULL) then Z.min (len bs) n = 0 ∧ A' = delete p A
        else A !! r = None ∧ fresh_block (delete p A) r
          (λ cs, len cs = n ∧ take (length bs `min` Z.to_nat n) cs = take (Z.to_nat n) bs) A'
  | Free p => A' = delete p A
  | Poke p i b => ∃ bs, A !! p = Some bs ∧ A' = <[p := <[Z.to_nat i := wrap 8 b]> bs]> A
  end.

(** The size a call asks for. *)
Definition asks (c : c_call) : Z := match c with Malloc n | Realloc _ n => n | Calloc m n => m * n | _ => 0 end.

Lemma c_heap_no_null s A : c_heap s A → A !! NULL = None.
Proof.
  intros Hh. destruct (A !! NULL) as [bs|] eqn:Hp; [|done].
  destruct (c_heap_block s A NULL bs Hh Hp) as (? & _). unfold NULL in *. lia.
Qed.

Lemma poke_spec s A p bs i b : c_heap s A → A !! p = Some bs → 0 ≤ i < len bs →
  ∃ m, store (ch_mem s) (p + i) b = Done m ∧
    c_heap {| ch_ga := ch_ga s; ch_mem := m |} (<[p := <[Z.to_nat i := wrap 8 b]> bs]> A).
Proof.
  intros Hh Hp Hi. pose proof (ch_bytes _ _ Hh p bs Hp) as Hb.
  destruct (bytes_at_mapped _ _ _ Hb i Hi) as [x Hx]. unfold store. rewrite Hx. eexists. split; [done|].
  apply (c_heap_write s A p bs); [done|done|by rewrite length_insert| |].
  - intros j c [(<- & <- & _)|(Hne & Hj)]%list_lookup_insert_Some.
    + split; [by rewrite Z2Nat.id, lookup_insert_eq by lia|]. by apply (wrap_range 8).
    + destruct (Hb j c Hj) as [H1 H2]. split; [|done]. rewrite lookup_insert_ne; [done|lia].
  - intros a Ha. rewrite lookup_insert_ne; [done|lia].
Qed.

(** Blocks do not overlap and pointers are aligned. *)
Definition laid_out A : Prop :=
  (∀ p q bs cs, A !! p = Some bs → A !! q = Some cs → p ≠ q → rdisj (p, len bs) (q, len cs)) ∧
  ∀ p bs, A !! p = Some bs → 0 < p ∧ (8 | p) ∧ p + len bs < 2 ^ 64.

Lemma c_heap_laid_out s A : c_heap s A → laid_out A.
Proof.
  intros Hc. split.
  - intros p q bs cs Hp Hq Hne. pose proof (c_heap_apart _ _ p q bs cs Hc Hp Hq Hne) as Hd.
    unfold rdisj, block in *. cbn in *. lia.
  - intros p bs Hp. destruct (c_heap_block _ _ p bs Hc Hp) as (? & ? & ?). split_and!; [lia|done|done].
Qed.

(** The heap after a call that has returned [r]. *)
Definition after_call A (c : c_call) s (r : Z) : Prop := ∃ A', abs_step A c r A' ∧ c_heap s A' ∧ laid_out A'.

Lemma after_call_intro A A' c s r : abs_step A c r A' → c_heap s A' → after_call A c s r.
Proof. intros Ha Hc. exists A'. split; [done|]. split; [done|by eapply c_heap_laid_out]. Qed.

Lemma malloc_after s A n : c_heap s A → size_ok n → ∃ s' r, malloc junk n s = Done (s', r) ∧
  ∃ A', (if decide (r = NULL) then A' = A else fresh_block A r (λ bs, len bs = n) A') ∧ c_heap s' A'.
Proof.
  intros Hh Hn. unfold malloc. destruct (malloc_spec s A n Hh Hn) as (s' & r & -> & Hr). exists s', r. split; [done|].
  case_decide; [by exists A|]. destruct Hr as (Hnew & bs & Hl & Hc). eexists. split; [split; [done|by exists bs]|done].
Qed.

Lemma realloc_after s A p bs n : c_heap s A → A !! p = Some bs → size_ok n → Z.min (len bs) n < 2 ^ 31 →
  match realloc junk p n s with
  | Done (s', r) => after_call A (Realloc p n) s' r
  | Panic => ∃ s', malloc junk n s = Done (s', NULL)
  end.
Proof.
  intros Hh Hp Hn Hmin. destruct (realloc_spec s A p bs n Hh Hp Hn Hmin) as (s' & q & Hm & Hr).
  assert (p ≠ NULL) as Hpn by (intros ->; by rewrite (c_heap_no_null s A Hh) in Hp).
  destruct (decide (q = NULL)) as [->|Hq].
  - destruct Hr as (Hc & Hpos & Hzero). destruct (decide (Z.min (len bs) n = 0)) as [H0|H0].
    + destruct (Hzero H0) as (s'' & -> & Hc'). eapply after_call_intro; [|done]. cbn [abs_step].
      rewrite decide_False by done. exists bs. split; [done|]. rewrite decide_True by done. by split.
    + unfold size_ok in Hn. rewrite Hpos by lia. by exists s'.
  - destruct Hr as (Hnew & s'' & cs & -> & Hl & Ht & Hc). eapply after_call_intro; [|done]. cbn [abs_step].
    rewrite decide_False by done. exists bs. split; [done|]. rewrite decide_False by done. split; [done|].
    split; [|by exists cs]. rewrite lookup_delete_ne; [done|]. intros ->. congruence.
Qed.

(** C36: the C heap refines a map from pointers to the bytes of their blocks.
    [malloc] and [calloc] add a block of the size asked for, of zeros for
    [calloc], [realloc] moves a block keeping its start, [free] removes one,
    and no call and no store changes the bytes of another block; pointers are
    multiples of 8 and blocks do not overlap.  Without memory [malloc] returns
    a null pointer, and only [calloc] and [realloc] can then access it. *)
Theorem c_heap_refines s A (c : c_call) : c_heap s A → call_ok c A →
  match run_call c s with
  | Done (s', r) => after_call A c s' r
  | Panic => (∃ s', malloc junk (asks c) s = Done (s', NULL)) ∧
      match c with Calloc _ _ | Realloc _ _ => True | _ => False end
  end.
Proof.
  intros Hh Hok. destruct c as [n|m n|p n|p|p i b]; cbn [run_call call_ok asks] in *.
  - destruct (malloc_after s A n Hh Hok) as (s' & r & -> & A' & Ha & Hc). by eapply after_call_intro.
  - assert (m ⊗ n = m * n) as Hw by (apply wmul_small; unfold is_usize, size_ok in *; lia).
    destruct (calloc_spec s A m n Hh) as (s' & r & Hm & Hr); [unfold size_ok in Hok; lia|].
    rewrite Hw in Hm, Hr. destruct (decide (r = NULL)) as [->|Hne].
    + destruct Hr as [Hc ->]. destruct (m * n =? 0); [|split; [by exists s'|done]].
      eapply after_call_intro; [|done]. cbn [abs_step]. by rewrite decide_True.
    + destruct Hr as (Hnew & s'' & -> & Hc). eapply after_call_intro; [|done]. cbn [abs_step].
      rewrite decide_False by done. split; [done|by eexists].
  - destruct Hok as [Hn [->|(bs & Hp & Hmin)]].
    + destruct (malloc_after s A n Hh Hn) as (s' & r & Hm & A' & Ha & Hc). unfold realloc. rewrite Z.eqb_refl, Hm.
      eapply after_call_intro; [|done]. cbn [abs_step]. by rewrite decide_True.
    + pose proof (realloc_after s A p bs n Hh Hp Hn Hmin) as Hr. by destruct (realloc junk p n s) as [[s' r]|].
  - unfold free. destruct Hok as [->|[bs Hp]].
    + rewrite Z.eqb_refl. eapply after_call_intro; [|done]. cbn [abs_step]. by rewrite delete_id by (by apply (c_heap_no_null s)).
    + destruct (Z.eqb_spec p NULL) as [->|_]; [by rewrite (c_heap_no_null s A Hh) in Hp|].
      destruct (free_spec s A p bs Hh Hp) as (s' & -> & Hc). by eapply after_call_intro.
  - destruct Hok as (bs & Hp & Hi). destruct (poke_spec s A p bs i b Hh Hp Hi) as (m & -> & Hc).
    eapply after_call_intro; [|done]. by exists bs.
Qed.

End spec.

(** ** The global allocator satisfies the interface *)

Section global.
Context {A : Type} `{BA : !BitAlloc A} {fr : A → gset Z} `{LA : !BitAllocLaws BA fr}.
Context {B : Type} `{BH : !BuddyHeap B} {bok : B → Prop} {managed owned : B → list region}.
Context `{LB : !BuddyHeapLaws BH bok managed owned}.

(** The loop of [alloc] takes pages away in each round. *)
#[export] Instance ga_byte_alloc : ByteAlloc (GlobalAllocator A B) := {|
  alloc_bytes n al g := ga_alloc (S (Z.to_nat (pa_total_pages (palloc g)))) n al g;
  dealloc_bytes := ga_dealloc;
|}.

#[local] Abbreviation inv := (ga_inv (free := fr) (bok := bok) (managed := managed) (owned := owned)).

Definition with_layout (x : region) : Z * Layout := (x.1, {| lay_size := x.2; lay_align := 8 |}).

(** The blocks of others are [rest]. *)
Definition ga_held (g : GlobalAllocator A B) (H : list region) : Prop :=
  ∃ rest user extra lost, inv g ((with_layout <$> H) ++ rest) user extra lost ∧
    Forall (λ r, r.1 + r.2 < 2 ^ 64) extra ∧ Forall (λ x, 0 ≤ x.2 ≤ 2 ^ 63 - 8) H.

Lemma from_size_8 n : 0 ≤ n ≤ 2 ^ 63 - 8 → from_size_align n 8 = Some (with_layout (0, n)).2.
Proof.
  intros Hn. unfold from_size_align. change (is_power_of_two 8) with true.
  by rewrite (proj2 (Z.leb_le _ _)) by lia.
Qed.

Lemma free_pages_total g H user extra lost : inv g H user extra lost →
  (base.size (fr (pa_inner (palloc g))) ≤ Z.to_nat (pa_total_pages (palloc g)))%nat.
Proof.
  intros [_ _ _ (hp & heap & _ & (l & _ & Hp) & _ & _)]. pose proof (pi_total _ _ _ _ Hp) as Ht.
  assert (fr (pa_inner (palloc g)) ⊆ zrange 0 (pa_total_pages (palloc g))) as Hsub.
  { intros x Hx. apply (pi_part _ _ _ _ Hp). by left. }
  apply subseteq_size in Hsub. etrans; [exact Hsub|]. unfold zrange.
  rewrite size_list_to_set by apply NoDup_seqZ. rewrite length_seqZ. lia.
Qed.

Lemma ga_inv_perm g H H' user extra lost : inv g H user extra lost → H ≡ₚ H' → inv g H' user extra lost.
Proof.
  intros [? ? ? (hp & heap & Hb & Hp & (f & S & HI) & Hm)] HH. split; [done..|]. exists hp, heap.
  split_and!; [done..| |done]. exists f, S. by eapply heap_inv_perm.
Qed.

Lemma shrink_disj (H : list region) : pairwise_disj (held_region <$> (with_layout <$> H)) → pairwise_disj H.
Proof.
  induction H as [|x H IH]; [done|]. cbn. intros [Hx HH]. split; [|by apply IH].
  rewrite !Forall_fmap in Hx. eapply Forall_impl; [exact Hx|]. intros y Hxy. cbn in Hxy.
  pose proof (layout_fits (with_layout x).2). pose proof (layout_fits (with_layout y).2).
  unfold rdisj, held_region, with_layout in *. cbn in *. lia.
Qed.

Lemma ga_held_block g H user extra lost p l : inv g H user extra lost → Forall (λ r, r.1 + r.2 < 2 ^ 64) extra →
  (p, l) ∈ H → 0 < p ∧ p + lay_size l < 2 ^ 64 ∧ (lay_align l ≤ 4096 → (lay_align l | p)).
Proof.
  intros [Hb He Hex (hp & heap & _ & Hp & Hh & Hm)] Hext Hin.
  pose proof (heap_good_aligned heap (ga_mem g) H (p, l) Hh Hin) as Hal.
  destruct (heap_good_inside (managed := managed) heap (ga_mem g) H (p, l) Hh Hin) as (r & Hr & Hsub).
  destruct Hh as (f & S & HI). destruct (hi_held _ _ _ _ _ HI (p, l) Hin) as (_ & Hp0 & _).
  split; [done|]. split; [|by intros; apply Hal; left]. pose proof (layout_fits l).
  rewrite Hm, elem_of_app in Hr. unfold rsub, held_region in Hsub. cbn in *. destruct Hr as [Hr|Hr].
  - apply list_elem_of_fmap in Hr as ([pos n] & -> & Hin').
    destruct (pa_good_block 12 ltac:(lia) _ _ _ pos n Hp) as (_ & _ & _ & Hle); [apply elem_of_app; by left|].
    unfold page_region in Hsub. cbn in *. lia.
  - eapply Forall_forall in Hext; [|exact Hr]. cbn in *. lia.
Qed.

#[export] Instance ga_byte_alloc_laws : ByteAllocLaws (GlobalAllocator A B).
Proof.
  refine {| held_ok := ga_held |}.
  - intros g H n (rest & user & extra & lost & Hg & Hex & Hsz) Hn. pose proof (free_pages_total _ _ _ _ _ Hg) as Hf.
    destruct (ga_alloc_spec (S (Z.to_nat (pa_total_pages (palloc g)))) g _ user extra lost n 8 _ Hg ltac:(lia)
      (from_size_8 n Hn) ltac:(lia)) as (r & g' & Hr & Hi).
    exists r, g'. split; [exact Hr|]. destruct r as [p|e]; [|destruct Hi as [_ Hi]]; exists rest, user, extra, lost;
      (split; [exact Hi|]); (split; [done|]); [by constructor|done].
  - intros g H H' p n (rest & user & extra & lost & Hg & Hex & Hsz) HH.
    assert (0 ≤ n ≤ 2 ^ 63 - 8) as Hn.
    { rewrite HH in Hsz. by apply Forall_cons in Hsz as [? _]. }
    destruct (ga_dealloc_spec g _ ((with_layout <$> H') ++ rest) user extra lost p (with_layout (p, n)).2 Hg)
      as (g' & Hd & Hi & _).
    + by rewrite HH.
    + by apply from_size_8.
    + exists g'. split; [exact Hd|]. exists rest, user, extra, lost. split; [done|]. split; [done|].
      rewrite HH in Hsz. by apply Forall_cons in Hsz as [_ ?].
  - intros g H (rest & user & extra & lost & Hg & _). apply ga_inv_disj in Hg. apply shrink_disj.
    rewrite fmap_app in Hg. apply pairwise_disj_app in Hg as (Hg & _ & _). by apply pairwise_disj_app in Hg as (Hg & _ & _).
  - intros g H p n (rest & user & extra & lost & Hg & Hex & _) Hin.
    destruct (ga_held_block _ _ _ _ _ p {| lay_size := n; lay_align := 8 |} Hg Hex) as (H1 & H2 & H3).
    { apply elem_of_app. left. apply list_elem_of_fmap. by exists (p, n). }
    split; [done|]. split; [apply H3; cbn; lia|done].
  - intros g H H' (rest & user & extra & lost & Hg & Hex & Hsz) HH. exists rest, user, extra, lost. split_and!; [|done|].
    + eapply ga_inv_perm; [exact Hg|]. by rewrite HH.
    + by rewrite <- HH.
Defined.

(** The heap of a program starts empty, after the initialisation of the
    allocator. *)
Lemma c_heap_init start size (mem : blkmem) g (m : cmem) : 0 < start → start + size < 2 ^ 64 → size ≤ CAP * 2 ^ 12 →
  ga_init start size (ga_new mem) = Done g → m !! NULL = None → c_heap {| ch_ga := g; ch_mem := m |} ∅.
Proof.
  intros Hs He Hc Hi Hm. split; [|done..|done]. cbn [ch_ga]. rewrite map_to_list_empty. exists [], [], [], ∅.
  split; [by eapply ga_init_spec|]. by split.
Qed.

(** A size that is no layout stops the system, where the standard has a null
    pointer. *)
Theorem malloc_huge_panics (junk : GlobalAllocator A B → Z → Z) (s : cheap (GlobalAllocator A B)) n :
  2 ^ 63 - 16 < n < 2 ^ 64 - 8 → ax_malloc junk n s = Panic.
Proof.
  intros Hn. unfold ax_malloc, CONTROL_BLOCK, BYTES_OF_USIZE. rewrite wadd_small by (unfold is_usize; lia).
  cbn [alloc_bytes ga_byte_alloc]. cbn [ga_alloc]. unfold sba_alloc. destruct (balloc (ch_ga s)); [|done].
  cbn [unwrap mbind outcome_bind]. unfold from_size_align. change (is_power_of_two 8) with true. cbn [andb].
  by rewrite (proj2 (Z.leb_gt _ _)) by lia.
Qed.

End global.

(** The product of [calloc] can wrap: [2^32] objects of [2^32] bytes are a
    block of no bytes. *)
Theorem calloc_overflow {G : Type} `{BA : ByteAlloc G} `{BL : !ByteAllocLaws G} (junk : G → Z → Z) (s : cheap G) A :
  c_heap s A → ∃ s' p, calloc junk (2 ^ 32) (2 ^ 32) s = Done (s', p) ∧
    (p ≠ NULL → c_heap s' (<[p := []]> A)).
Proof.
  intros Hh. destruct (calloc_spec junk s A (2 ^ 32) (2 ^ 32) Hh) as (s' & p & _ & Hr); [by vm_compute|].
  change (2 ^ 32 ⊗ 2 ^ 32) with 0 in Hr. cbn [Z.eqb] in Hr. destruct (decide (p = NULL)) as [->|Hne].
  - destruct Hr as [_ ->]. by eexists _, _.
  - destruct Hr as (_ & s'' & -> & Hc). exists s'', p. by split.
Qed.

(** ** A run *)

#[local] Existing Instance set_alloc.
#[local] Existing Instance bump_heap.

Lemma c_heap_refines_witness :
  ∃ (g : GlobalAllocator (gset Z) bump) s' r,
    run_call (λ _ _, 0) (Malloc 300) {| ch_ga := g; ch_mem := ∅ |} = Done (s', r).
Proof.
  destruct ga_demo_run as (g0 & _ & _ & _ & _ & H0 & _). exists g0.
  assert (c_heap (BL := ga_byte_alloc_laws (fr := λ a, a) (bok := bump_ok) (managed := bu_man) (owned := bu_owned))
    {| ch_ga := g0; ch_mem := ∅ |} ∅) as Hc.
  { eapply c_heap_init; [| | |exact H0|reflexivity]; [lia|lia|by vm_compute]. }
  pose proof (c_heap_refines (λ _ _, 0) _ _ (Malloc 300) Hc ltac:(unfold call_ok, size_ok; lia)) as Hr.
  destruct (run_call (λ _ _, 0) (Malloc 300) {| ch_ga := g0; ch_mem := ∅ |}) as [[s' r]|].
  - exists s', r. reflexivity.
  - destruct Hr as [_ []].
Defined.
