(* ===== verification/CStrstr.v ===== *)
(** * Searching a string in a string ([strstr] of [ulib/c_libax/src/string.c])

    The three searches for short needles, which slide a word over the
    haystack, and the two-way search for the others. *)

From stdpp Require Import base numbers list gmap.
From S2P Require Import Prelude CString.

Local Open Scope Z_scope.
Local Open Scope word_scope.

(** ** Short needles *)

(** The loops of the three functions: [h] points at the last byte of the
    window, [hw] is its word, [step] slides it by a byte. *)
Fixpoint window_loop (step : Z → Z → Z) (fuel : nat) (m : cmem) (h hw nw : Z) : outcome (Z * Z) :=
  match fuel with
  | O => Panic
  | S fuel =>
      b ← load m h;
      if negb (b =? 0) && negb (hw =? nw) then
        b' ← load m (h + 1); window_loop step fuel m (h + 1) (step hw b') nw
      else Done (h, b)
  end.

Definition twobyte_strstr (m : cmem) (h n : Z) : outcome Z :=
  n0 ← load m n; n1 ← load m (n + 1);
  h0 ← load m h; h1 ← load m (h + 1);
  let nw := wrap 16 (Z.lor (Z.shiftl n0 8) n1) in
  let hw := wrap 16 (Z.lor (Z.shiftl h0 8) h1) in
  r ← window_loop (λ hw b, wrap 16 (Z.lor (Z.shiftl hw 8) b)) (mem_fuel m) m (h + 1) hw nw;
  Done (if r.2 =? 0 then NULL else r.1 - 1).

Definition threebyte_strstr (m : cmem) (h n : Z) : outcome Z :=
  n0 ← load m n; n1 ← load m (n + 1); n2 ← load m (n + 2);
  h0 ← load m h; h1 ← load m (h + 1); h2 ← load m (h + 2);
  let word a b c := wrap 32 (Z.lor (Z.lor (Z.shiftl a 24) (Z.shiftl b 16)) (Z.shiftl c 8)) in
  r ← window_loop (λ hw b, wrap 32 (Z.shiftl (Z.lor hw b) 8)) (mem_fuel m) m (h + 2)
        (word h0 h1 h2) (word n0 n1 n2);
  Done (if r.2 =? 0 then NULL else r.1 - 2).

Definition fourbyte_strstr (m : cmem) (h n : Z) : outcome Z :=
  n0 ← load m n; n1 ← load m (n + 1); n2 ← load m (n + 2); n3 ← load m (n + 3);
  h0 ← load m h; h1 ← load m (h + 1); h2 ← load m (h + 2); h3 ← load m (h + 3);
  let word a b c d :=
    wrap 32 (Z.lor (Z.lor (Z.lor (Z.shiftl a 24) (Z.shiftl b 16)) (Z.shiftl c 8)) d) in
  r ← window_loop (λ hw b, wrap 32 (Z.lor (Z.shiftl hw 8) b)) (mem_fuel m) m (h + 3)
        (word h0 h1 h2 h3) (word n0 n1 n2 n3);
  Done (if r.2 =? 0 then NULL else r.1 - 3).

(** ** The two-way search *)

(** The length of the needle with the set of its bytes and the table of their
    last positions; an entry of the table that is not set is undefined. *)
Fixpoint needle_loop (fuel : nat) (m : cmem) (h n l : Z) (bs : list Z) (shift : gmap Z Z)
    : outcome (Z * list Z * gmap Z Z) :=
  match fuel with
  | O => Panic
  | S fuel =>
      b ← load m (n + l);
      if b =? 0 then Done (l, bs, shift)
      else
        c ← load m (h + l);
        if c =? 0 then Done (l, bs, shift)
        else needle_loop fuel m h n (l + 1) (byteset_add bs b) (<[b := l + 1]> shift)
  end.

(** A maximal suffix of the needle, for the order [lt], and its period;
    [ip] starts at [-1]. *)
Fixpoint max_suffix_loop (lt : Z → Z → bool) (fuel : nat) (m : cmem) (n l ip jp k p : Z)
    : outcome (Z * Z) :=
  match fuel with
  | O => Panic
  | S fuel =>
      if jp ⊕ k <? l then
        a ← load m (n + (ip ⊕ k)); b ← load m (n + (jp ⊕ k));
        if a =? b then
          if k =? p then max_suffix_loop lt fuel m n l ip (jp ⊕ p) 1 p
          else max_suffix_loop lt fuel m n l ip jp (k ⊕ 1) p
        else if lt b a then max_suffix_loop lt fuel m n l ip (jp ⊕ k) 1 ((jp ⊕ k) ⊖ ip)
        else max_suffix_loop lt fuel m n l jp (jp ⊕ 1) 1 1
      else Done (ip, p)
  end.
Definition max_suffix (lt : Z → Z → bool) (m : cmem) (n l : Z) : outcome (Z * Z) :=
  max_suffix_loop lt (S (2 * Z.to_nat l)) m n l (wrap 64 (-1)) 0 1 1.

(** The loops that compare the right half upwards and the left half
    downwards. *)
Fixpoint right_loop (fuel : nat) (m : cmem) (h n k : Z) : outcome (Z * Z) :=
  match fuel with
  | O => Panic
  | S fuel =>
      b ← load m (n + k);
      if b =? 0 then Done (k, b)
      else c ← load m (h + k); if b =? c then right_loop fuel m h n (k + 1) else Done (k, b)
  end.
Fixpoint left_loop (fuel : nat) (m : cmem) (h n k mem : Z) : outcome Z :=
  match fuel with
  | O => Panic
  | S fuel =>
      if k >? mem then
        b ← load m (n + (k - 1)); c ← load m (h + (k - 1));
        if b =? c then left_loop fuel m h n (k - 1) mem else Done k
      else Done k
  end.

(** The end-of-haystack pointer moved on; [None] when the rest is too
    short. *)
Definition grow_end (m : cmem) (h l z : Z) : outcome (option Z) :=
  if wrap 64 (z - h) <? l then
    let grow := Z.lor l 63 in
    z2 ← memchr m z 0 grow;
    if z2 =? NULL then Done (Some (z + grow))
    else if wrap 64 (z2 - h) <? l then Done None else Done (Some z2)
  else Done (Some z).

Fixpoint search_loop (fuel : nat) (m : cmem) (n l : Z) (bs : list Z) (shift : gmap Z Z)
    (ms p mem0 : Z) (h z mem : Z) : outcome Z :=
  match fuel with
  | O => Panic
  | S fuel =>
      let continue h z mem := search_loop fuel m n l bs shift ms p mem0 h z mem in
      r ← grow_end m h l z;
      match r with
      | None => Done NULL
      | Some z =>
          last ← load m (h + (l - 1));
          if byteset_has bs last then
            sh ← unwrap (shift !! last);
            let k := l ⊖ sh in
            if negb (k =? 0) then continue (h + (if k <? mem then mem else k)) z 0
            else
              r ← right_loop (mem_fuel m) m h n (Z.max (ms ⊕ 1) mem);
              if negb (r.2 =? 0) then continue (h + (r.1 ⊖ ms)) z 0
              else
                k ← left_loop (mem_fuel m) m h n (ms ⊕ 1) mem;
                if k <=? mem then Done h else continue (h + p) z mem0
          else continue (h + l) z 0
      end
  end.

Definition twoway_strstr (m : cmem) (h n : Z) : outcome Z :=
  '(l, bs, shift) ← needle_loop (mem_fuel m) m h n 0 byteset_empty ∅;
  b ← load m (n + l);
  if negb (b =? 0) then Done NULL
  else
    '(ms, p0) ← max_suffix Z.ltb m n l;
    '(ip, p) ← max_suffix (λ a b, b <? a) m n l;
    let '(ms, p) := if ip ⊕ 1 >? ms ⊕ 1 then (ip, p) else (ms, p0) in
    c ← memcmp m n (n + p) (ms ⊕ 1);
    let '(mem0, p) :=
      if negb (c =? 0) then (0, Z.max ms ((l ⊖ ms) ⊖ 1) ⊕ 1) else (l ⊖ p, p) in
    search_loop (mem_fuel m) m n l bs shift ms p mem0 h h 0.

(** ** [strstr] *)

Definition strstr (char_signed : bool) (m : cmem) (h n : Z) : outcome Z :=
  n0 ← load m n;
  if n0 =? 0 then Done h
  else
    h ← strchr char_signed m h (char_val char_signed n0);
    if h =? NULL then Done NULL
    else
      n1 ← load m (n + 1);
      if n1 =? 0 then Done h
      else
        h1 ← load m (h + 1);
        if h1 =? 0 then Done NULL
        else
          n2 ← load m (n + 2);
          if n2 =? 0 then twobyte_strstr m h n
          else
            h2 ← load m (h + 2);
            if h2 =? 0 then Done NULL
            else
              n3 ← load m (n + 3);
              if n3 =? 0 then threebyte_strstr m h n
              else
                h3 ← load m (h + 3);
                if h3 =? 0 then Done NULL
                else
                  n4 ← load m (n + 4);
                  if n4 =? 0 then fourbyte_strstr m h n else twoway_strstr m h n.
