(* ===== verification/TwoWay.v ===== *)
(** * Maximal suffixes and critical positions of a word

    The theory behind the two-way string search: the loop that computes a
    maximal suffix with its period keeps the invariant [ms_inv], and the
    longer of the two left factors given by the two orders of the letters is
    a critical position, at which no repetition is shorter than the period
    ([repetition_long], [repetition_period], [repetition_global]).  A word is
    a function on positions with its length. *)

From stdpp Require Import base numbers list.
From S2P Require Import Prelude.

Local Open Scope Z_scope.

(** ** Periods *)

Definition period (x : Z → Z) (a l p : Z) : Prop := ∀ i, a ≤ i → i + p < l → x i = x (i + p).

Lemma period_mult x a l p t i :
  period x a l p → 0 ≤ p → 0 ≤ t → a ≤ i → i + t * p < l → x i = x (i + t * p).
Proof.
  intros Hp Hp0 Ht. revert i. pattern t. apply natlike_ind; [..|done]; clear t Ht.
  - intros i _ _. f_equal. lia.
  - intros t Ht IH i Hi Hlt. rewrite (IH i) by nia. rewrite (Hp (i + t * p)) by nia. f_equal. lia.
Qed.

(** Positions at a distance that is a multiple of the period. *)
Lemma period_cong x a l p i j :
  period x a l p → 0 < p → a ≤ i < l → a ≤ j < l → (j - i) mod p = 0 → x i = x j.
Proof.
  intros Hp Hp0 Hi Hj Hm. apply Z.mod_divide in Hm as [t Ht]; [|lia].
  destruct (Z.le_gt_cases 0 t).
  - rewrite (period_mult x a l p t i) by (done || lia). f_equal. lia.
  - rewrite (period_mult x a l p (- t) j) by (done || lia). f_equal. lia.
Qed.

Section max_suffix.
Context (x : Z → Z) (l : Z).

(** ** Comparing suffixes *)

Section order.
Context (f : Z → Z).

(** The suffix at [c] is below the one at [a] at the first letter where they
    differ, before position [e]. *)
Definition below (e c a : Z) : Prop :=
  ∃ d, 0 ≤ d ∧ (∀ i, 0 ≤ i < d → x (c + i) = x (a + i)) ∧ f (x (c + d)) < f (x (a + d)) ∧
    c + d < e ∧ a + d < e.

Lemma below_mono e e' c a : e ≤ e' → below e c a → below e' c a.
Proof. intros He (d & ? & ? & ? & ? & ?). exists d. split_and!; (done || lia). Qed.

Lemma below_trans e b c a : below e c a → below e a b → below e c b.
Proof.
  intros (d1 & H1 & He1 & Hl1 & ? & ?) (d2 & H2 & He2 & Hl2 & ? & ?).
  destruct (Z.lt_trichotomy d1 d2) as [Hd|[->|Hd]].
  - exists d1. split_and!; [done| |rewrite <- He2 by lia; done|lia..].
    intros i Hi. rewrite He1 by lia. apply He2. lia.
  - exists d2. split_and!; [done| |lia..]. intros i Hi. rewrite He1 by lia. by apply He2.
  - exists d2. split_and!; [done| |rewrite He1 by lia; done|lia..].
    intros i Hi. rewrite He1 by lia. apply He2. lia.
Qed.

(** ** The loop *)

(** [a] is the start of the suffix that leads, with period [p] up to
    [b + k - 1]; [b] is a whole number of periods after [a]. *)
Record ms_inv (a b k p : Z) : Prop := {
  mi_a : 0 ≤ a;
  mi_b : ∃ t, 1 ≤ t ∧ b = a + t * p;
  mi_k : 1 ≤ k ≤ p;
  mi_end : b + k - 1 ≤ l;
  mi_period : period x a (b + k - 1) p;
  mi_before c : 0 ≤ c < a → below l c a;
  mi_inside q : 0 < q < p → below (b + k - 1) (a + q) a;
}.

Lemma ms_inv_init : 1 ≤ l → ms_inv 0 1 1 1.
Proof.
  intros Hl. constructor; try lia.
  - exists 1. lia.
  - intros i Hi Hlt. lia.
Qed.

Lemma period_extend a e p :
  period x a e p → x (e - p) = x e → period x a (e + 1) p.
Proof.
  intros Hp He i Hi Hlt. destruct (Z.eq_dec (i + p) e) as [Heq|Hne]; [|apply Hp; lia].
  rewrite Heq. by replace i with (e - p) by lia.
Qed.

Lemma ms_window a b k p : ms_inv a b k p → 0 < p ∧ a + p ≤ b ∧ a + k - 1 < b + k - 1.
Proof. intros [? (t & Ht & ->) Hk ? ? ? ?]. nia. Qed.

(** The letters agree. *)
Lemma ms_equal a b k p :
  ms_inv a b k p → b + k - 1 < l → x (a + k - 1) = x (b + k - 1) →
  ms_inv a (if k =? p then b + p else b) (if k =? p then 1 else k + 1) p.
Proof.
  intros Hinv Hlt Heq. pose proof (ms_window _ _ _ _ Hinv) as (Hp & Hb & _).
  destruct Hinv as [Ha (t & Ht & Hbt) Hk He Hper Hbef Hin].
  assert (period x a (b + k) p) as Hper'.
  { replace (b + k) with (b + k - 1 + 1) by lia. apply period_extend; [done|].
    rewrite <- Heq. symmetry. replace (b + k - 1 - p) with (a + k - 1 + (t - 1) * p) by lia.
    apply (period_mult x a (b + k - 1)); (done || nia). }
  destruct (Z.eqb_spec k p) as [->|Hne]; constructor; try done; try lia.
  - exists (t + 1). lia.
  - by replace (b + p + 1 - 1) with (b + p) by lia.
  - intros q Hq. eapply below_mono, Hin; lia.
  - by exists t.
  - by replace (b + (k + 1) - 1) with (b + k) by lia.
  - intros q Hq. eapply below_mono, Hin; lia.
Qed.

(** A position of the window as a whole number of periods and a rest. *)
Lemma split_pos a p c : 0 < p → a ≤ c → ∃ t q, c = a + t * p + q ∧ 0 ≤ t ∧ 0 ≤ q < p.
Proof.
  intros Hp Hc. exists ((c - a) `div` p), ((c - a) mod p).
  pose proof (Z.div_mod (c - a) p). pose proof (Z.mod_pos_bound (c - a) p).
  pose proof (Z.div_pos (c - a) p). lia.
Qed.

(** Letters a whole number of periods apart in the window are equal. *)
Lemma window_cong a b k p i j t :
  ms_inv a b k p → a ≤ i < b + k - 1 → a ≤ j < b + k - 1 → j - i = t * p → x i = x j.
Proof.
  intros Hinv Hi Hj Ht. pose proof (ms_window _ _ _ _ Hinv) as (Hp & _ & _).
  apply (period_cong x a (b + k - 1) p); [apply Hinv|done..|]. rewrite Ht. by apply Z.mod_mul; lia.
Qed.

(** The letter of the competitor is smaller: everything up to it is below
    the leading suffix. *)
Lemma ms_greater a b k p :
  ms_inv a b k p → b + k - 1 < l → f (x (b + k - 1)) < f (x (a + k - 1)) →
  ms_inv a (b + k) 1 (b + k - a).
Proof.
  intros Hinv Hlt Hgt. pose proof (ms_window _ _ _ _ Hinv) as (Hp & Hb & _).
  pose proof Hinv as [Ha (t0 & Ht0 & Hbt) Hk He Hper Hbef Hin].
  constructor; try done; try lia.
  { exists 1. lia. }
  { intros i Hi Hi'. lia. }
  intros q' Hq'. replace (b + k + 1 - 1) with (b + k) by lia.
  destruct (split_pos a p (a + q')) as (t & q & Hc & Ht & Hq); [done|lia|].
  set (e := b + k - 1) in *. set (c := a + q') in *.
  assert (c ≤ e) as Hce by lia. destruct (Z.eq_dec q 0) as [->|Hq0].
  { exists (e - c). split_and!; [lia| | |lia|nia].
    - intros i Hi. symmetry. apply (window_cong a b k p _ _ t Hinv); [nia|nia|nia].
    - replace (c + (e - c)) with e by lia.
      rewrite <- (window_cong a b k p (a + k - 1) (a + (e - c)) (t0 - t) Hinv); [done|nia|nia|nia]. }
  destruct (Hin q) as (d & Hd & Heq & Hl & Hd1 & Hd2); [lia|]. fold e in Hd1, Hd2.
  assert (∀ i, 0 ≤ i → c + i < e → x (c + i) = x (a + q + i)) as Hshift.
  { intros i Hi Hci. symmetry. apply (window_cong a b k p _ _ t Hinv); nia. }
  destruct (Z.lt_ge_cases (c + d) e) as [Hcd|Hcd].
  { exists d. split_and!; [done| |rewrite Hshift by lia; done|lia..].
    intros i Hi. rewrite Hshift by lia. by apply Heq. }
  assert (1 ≤ t) as Ht1 by nia. exists (e - c). split_and!; [lia| | |lia|lia].
  { intros i Hi. rewrite Hshift by lia. apply Heq. lia. }
  replace (c + (e - c)) with e by lia.
  assert (x (a + k - 1) = x (a + q + (e - c))) as Hx.
  { apply (window_cong a b k p _ _ (t0 - t) Hinv); nia. }
  assert (f (x (a + q + (e - c))) ≤ f (x (a + (e - c)))); [|rewrite Hx in Hgt; lia].
  destruct (Z.eq_dec (e - c) d) as [->|]; [lia|]. rewrite Heq by lia. lia.
Qed.

(** The letter of the competitor is greater: it takes the lead. *)
Lemma ms_less a b k p :
  ms_inv a b k p → b + k - 1 < l → f (x (a + k - 1)) < f (x (b + k - 1)) →
  ms_inv b (b + 1) 1 1.
Proof.
  intros Hinv Hlt Hgt. pose proof (ms_window _ _ _ _ Hinv) as (Hp & Hb & _).
  pose proof Hinv as [Ha (t0 & Ht0 & Hbt) Hk He Hper Hbef Hin].
  assert (∀ c, a ≤ c < b → below l c b) as Hmid.
  { intros c Hc. destruct (split_pos a p c) as (t & q & Hct & Ht & Hq); [done|lia|].
    assert (∀ i, 0 ≤ i < k → x (c + i) = x (a + q + i)) as Hshift.
    { intros i Hi. symmetry. apply (window_cong a b k p _ _ t Hinv); nia. }
    assert (∀ i, 0 ≤ i < k - 1 → x (a + i) = x (b + i)) as Hab.
    { intros i Hi. apply (window_cong a b k p _ _ t0 Hinv); nia. }
    destruct (Z.eq_dec q 0) as [->|Hq0].
    { exists (k - 1). split_and!; [lia| | |lia..].
      - intros i Hi. rewrite Hshift, Z.add_0_r by lia. by apply Hab.
      - rewrite Hshift by lia.
        replace (a + 0 + (k - 1)) with (a + k - 1) by lia. by rewrite Z.add_sub_assoc. }
    destruct (Hin q) as (d & Hd & Heq & Hl & Hd1 & Hd2); [lia|].
    destruct (Z.lt_ge_cases d (k - 1)) as [Hdk|Hdk].
    { exists d. split_and!; [done| |rewrite Hshift, <- Hab by lia; done|lia..].
      intros i Hi. rewrite Hshift, <- Hab by lia. by apply Heq. }
    exists (k - 1). split_and!; [lia| | |lia..].
    { intros i Hi. rewrite Hshift, <- Hab by lia. apply Heq. lia. }
    rewrite Hshift by lia. rewrite !Z.add_sub_assoc in *.
    assert (f (x (a + q + k - 1)) ≤ f (x (a + k - 1))); [|lia].
    rewrite <- !Z.add_sub_assoc in *. destruct (Z.eq_dec (k - 1) d) as [->|]; [lia|].
    rewrite Heq by lia. lia. }
  constructor; try lia.
  - exists 1. lia.
  - intros i Hi Hi'. lia.
  - intros c Hc. destruct (Z.lt_ge_cases c a); [|apply Hmid; lia].
    eapply below_trans; [apply Hbef; lia|apply Hmid; lia].
Qed.

(** ** The result of the loop *)

(** The suffix at [a] is maximal for the order, with least period [p]. *)
Record maximal (a p : Z) : Prop := {
  mx_range : 0 ≤ a ∧ 0 < p ∧ a + p ≤ l;
  mx_before c : 0 ≤ c < a → below l c a;
  mx_after c : a < c < l → below l c a ∨ ∀ i, 0 ≤ i → c + i < l → x (c + i) = x (a + i);
  mx_period : period x a l p;
  mx_least q : 0 < q < p → ¬ period x a l q;
}.

Lemma ms_final a b k p : ms_inv a b k p → b + k - 1 = l → maximal a p.
Proof.
  intros Hinv Hl. pose proof (ms_window _ _ _ _ Hinv) as (Hp & Hb & _).
  pose proof Hinv as [Ha (t0 & Ht0 & Hbt) Hk He Hper Hbef Hin]. rewrite Hl in *.
  constructor; try done; [lia| |].
  - intros c Hc. destruct (split_pos a p c) as (t & q & Hct & Ht & Hq); [done|lia|].
    assert (∀ i, 0 ≤ i → c + i < l → x (c + i) = x (a + q + i)) as Hshift.
    { intros i Hi Hci. symmetry. apply (window_cong a b k p _ _ t Hinv); nia. }
    destruct (Z.eq_dec q 0) as [->|Hq0].
    { right. intros i Hi Hci. by rewrite Hshift, Z.add_0_r by lia. }
    destruct (Hin q) as (d & Hd & Heq & Hlt & Hd1 & Hd2); [lia|].
    destruct (Z.lt_ge_cases (c + d) l) as [Hcd|Hcd].
    + left. exists d. split_and!; [done| |rewrite Hshift by lia; done|lia..].
      intros i Hi. rewrite Hshift by lia. by apply Heq.
    + right. intros i Hi Hci. rewrite Hshift by lia. apply Heq. lia.
  - intros q Hq Hpq. destruct (Hin q Hq) as (d & Hd & Heq & Hlt & Hd1 & Hd2).
    rewrite (Hpq (a + d)) in Hlt by lia. replace (a + d + q) with (a + q + d) in Hlt by lia. lia.
Qed.

End order.
End max_suffix.

Lemma maximal_ext x l f g a p : (∀ c, f c = g c) → maximal x l f a p → maximal x l g a p.
Proof.
  intros Hfg [H1 H2 H3 H4 H5]. assert (∀ e c, below x f e c a → below x g e c a) as Hb.
  { intros e c (d & ? & ? & ? & ? & ?). exists d. by rewrite <- !Hfg. }
  constructor; [done|naive_solver|naive_solver|done|done].
Qed.

(** ** Critical positions *)

(** The letters on both sides of [a] repeat at the distance [s], as far as
    they are in the word. *)
Definition repetition (x : Z → Z) (l a s : Z) : Prop :=
  0 < s ∧ ∀ i, a ≤ i < a + s → i < l → s ≤ i → x i = x (i - s).

Section critical.
Context (x : Z → Z) (l : Z) (f : Z → Z) (a p a' p' : Z).
Context (Hmax : maximal x l f a p) (Hmax' : maximal x l (λ c, - f c) a' p') (Hle : a' ≤ a).

(** It is longer than the left factor. *)
Lemma repetition_long s : repetition x l a s → a < s.
Proof using Hmax.
  intros [Hs Hrep]. destruct (Z.lt_ge_cases a s) as [|Hsa]; [done|]. exfalso.
  destruct (mx_before _ _ _ _ _ Hmax (a - s)) as (d & Hd & Heq & Hlt & Hd1 & Hd2); [lia|].
  destruct (Z.lt_ge_cases d s) as [Hds|Hds].
  { rewrite (Hrep (a + d)) in Hlt by lia. replace (a + d - s) with (a - s + d) in Hlt by lia. lia. }
  assert (∀ i, 0 ≤ i < d - s → x (a + i) = x (a + s + i)) as Heq'.
  { intros i Hi. replace (a + i) with (a - s + (s + i)) by lia. rewrite Heq by lia. f_equal. lia. }
  assert (f (x (a + (d - s))) < f (x (a + s + (d - s)))) as Hlt'.
  { replace (a + (d - s)) with (a - s + d) by lia. by replace (a + s + (d - s)) with (a + d) by lia. }
  destruct (mx_after _ _ _ _ _ Hmax (a + s)) as [(d' & Hd' & Hq & Hl & _ & _)|Hpre]; [lia| |].
  - destruct (Z.lt_trichotomy d' (d - s)) as [?|[->|?]].
    + rewrite Heq' in Hl by lia. lia.
    + lia.
    + rewrite Hq in Hlt' by lia. lia.
  - rewrite Hpre in Hlt' by lia. lia.
Qed.

(** Inside the right factor, it is a period of that factor. *)
Lemma repetition_period s : repetition x l a s → s ≤ l - a → period x a l s.
Proof using Hmax Hmax' Hle.
  intros Hr Hsl. pose proof (repetition_long s Hr) as Has. destruct Hr as [Hs Hrep].
  intros i Hi Hil.
  destruct (mx_after _ _ _ _ _ Hmax (a + s)) as [(d & Hd & Heq & Hlt & Hd1 & Hd2)|Hpre]; [lia| |].
  2: { rewrite <- (Z.sub_add a i) at 1. rewrite Z.add_comm, <- Hpre by lia. f_equal. lia. }
  exfalso. pose proof (mx_range _ _ _ _ _ Hmax') as (Ha' & _ & _).
  set (g := a - a'). assert (∀ j, 0 ≤ j < g + d → x (a' + s + j) = x (a' + j)) as Hsame.
  { intros j Hj. destruct (Z.lt_ge_cases j g) as [Hjg|Hjg].
    - rewrite Hrep by (unfold g in *; lia). f_equal. lia.
    - replace (a' + s + j) with (a + s + (j - g)) by (unfold g; lia). rewrite Heq by lia.
      f_equal. unfold g. lia. }
  replace (a + s + d) with (a' + s + (g + d)) in * by (unfold g; lia).
  replace (a + d) with (a' + (g + d)) in * by (unfold g; lia).
  destruct (mx_after _ _ _ _ _ Hmax' (a' + s)) as [(d' & Hd' & Hq & Hl & Hd1' & _)|Hpre];
    [unfold g in *; lia| |].
  - destruct (Z.lt_trichotomy d' (g + d)) as [?|[->|?]].
    + rewrite Hsame in Hl by lia. lia.
    + lia.
    + rewrite Hq in Hlt by (unfold g in *; lia). lia.
  - rewrite Hpre in Hlt by (unfold g in *; lia). lia.
Qed.

(** Its rest modulo the period of the right factor is none. *)
Lemma repetition_mod s : repetition x l a s → s ≤ l - a → s mod p = 0.
Proof using Hmax Hmax' Hle.
  intros Hr Hsl. pose proof (mx_range _ _ _ _ _ Hmax) as (_ & Hp & _).
  set (r := s mod p). pose proof (Z.mod_pos_bound s p Hp) as Hr0. fold r in Hr0.
  destruct (Z.eq_dec r 0) as [|Hne]; [done|exfalso]. destruct Hr as [Hs Hrep].
  pose proof (Z.div_mod s p ltac:(lia)) as Hdm. fold r in Hdm.
  pose proof (Z.div_pos s p ltac:(lia) Hp) as Hq.
  assert (repetition x l a r) as Hrr.
  { split; [lia|]. intros i Hi Hil Hri.
    rewrite (period_mult x a l p (s / p) i); [|apply Hmax|nia..].
    rewrite Hrep by nia. f_equal. lia. }
  apply (mx_least _ _ _ _ _ Hmax r); [lia|]. apply repetition_period; [done|nia].
Qed.

(** It then makes the period of the right factor one of the word. *)
Lemma repetition_global s : repetition x l a s → s ≤ l - a → period x 0 l p.
Proof using Hmax Hmax' Hle.
  intros Hr Hsl. pose proof (repetition_long s Hr) as Has.
  pose proof (repetition_mod s Hr Hsl) as Hm. pose proof (mx_range _ _ _ _ _ Hmax) as (Ha & Hp & _).
  destruct Hr as [Hs Hrep]. intros i Hi Hil.
  assert (∀ j, 0 ≤ j < a → x j = x (j + s)) as Hback.
  { intros j Hj. rewrite (Hrep (j + s)) by lia. f_equal. lia. }
  destruct (Z.lt_ge_cases i a) as [Hia|Hia]; [|by apply (mx_period _ _ _ _ _ Hmax)].
  rewrite (Hback i) by lia. destruct (Z.lt_ge_cases (i + p) a) as [Hip|Hip].
  - rewrite (Hback (i + p)) by lia. replace (i + p + s) with (i + s + p) by lia.
    apply (mx_period _ _ _ _ _ Hmax); lia.
  - symmetry. apply (period_cong x a l p); [apply Hmax|lia..|].
    replace (i + s - (i + p)) with (s + (-1) * p) by lia. by rewrite Z.mod_add by lia.
Qed.

(** A period of the word is a repetition. *)
Lemma period_repetition s : 0 < s → period x 0 l s → repetition x l a s.
Proof using.
  intros Hs Hper. split; [done|]. intros i Hi Hil Hsi. rewrite (Hper (i - s)) by lia. f_equal. lia.
Qed.

(** No repetition is shorter than the period of a periodic word. *)
Lemma repetition_least s : repetition x l a s → p ≤ s.
Proof using Hmax Hmax' Hle.
  intros Hr. destruct (Z.lt_ge_cases s p) as [Hsp|]; [|lia]. exfalso.
  pose proof (mx_range _ _ _ _ _ Hmax) as (_ & _ & Hpl).
  apply (mx_least _ _ _ _ _ Hmax s); [destruct Hr; lia|]. apply repetition_period; [done|lia].
Qed.

End critical.
