(* ===== verification/CStrstrSpec.v ===== *)
(** * Correctness of [strstr]

    [strstr] returns the first occurrence of the needle, for every needle and
    haystack: the searches for needles of two, three and four bytes, and the
    two-way search, whose factorisation is critical by the theory of
    [TwoWay]. *)

From stdpp Require Import base numbers list gmap.
From S2P Require Import Prelude CString CStrstr CStringSpec TwoWay.

Local Open Scope Z_scope.

(** ** The reference: trying every position *)

Fixpoint starts (p t : list Z) : bool :=
  match p, t with
  | [], _ => true
  | a :: p, b :: t => (a =? b) && starts p t
  | _ :: _, [] => false
  end.

Fixpoint first_match (p t : list Z) : option nat :=
  if starts p t then Some 0%nat
  else match t with [] => None | _ :: t => S <$> first_match p t end.

(** The needle [p] occurs in [t] at [j]. *)
Definition occ (p t : list Z) (j : Z) : Prop :=
  0 ≤ j ∧ j + len p ≤ len t ∧ ∀ i, 0 ≤ i < len p → byte_at t (j + i) = byte_at p i.

Lemma byte_at_cons c l i : 0 ≤ i → byte_at (c :: l) (i + 1) = byte_at l i.
Proof. intros Hi. unfold byte_at. by replace (Z.to_nat (i + 1)) with (S (Z.to_nat i)) by lia. Qed.

Lemma starts_occ p t : starts p t = true ↔ occ p t 0.
Proof.
  revert t. induction p as [|a p IH]; intros t; simpl.
  { split; [|done]. intros _. split; [lia|]. split; simpl; lia. }
  destruct t as [|b t]; simpl.
  { split; [done|]. intros (_ & Hl & _). simpl in Hl. lia. }
  rewrite andb_true_iff, IH, Z.eqb_eq. split.
  - intros [-> (_ & Hl & Hb)]. split; [lia|]. split; [simpl in *; lia|]. intros i Hi.
    destruct (decide (i = 0)) as [->|]; [done|]. simpl in Hi.
    replace i with (i - 1 + 1) by lia. rewrite Z.add_assoc, !byte_at_cons by lia. apply Hb. lia.
  - intros (_ & Hl & Hb). simpl in Hl. split.
    + symmetry. apply (Hb 0). simpl. lia.
    + split; [lia|]. split; [lia|]. intros i Hi.
      specialize (Hb (i + 1)). rewrite Z.add_assoc, !byte_at_cons in Hb by lia. apply Hb. simpl. lia.
Qed.

Lemma occ_cons p c t j : 0 ≤ j → occ p (c :: t) (j + 1) ↔ occ p t j.
Proof.
  intros Hj. unfold occ. simpl length. split.
  - intros (_ & Hl & Hb). split; [lia|]. split; [lia|]. intros i Hi. rewrite <- Hb by done.
    replace (j + 1 + i) with (j + i + 1) by lia. by rewrite byte_at_cons by lia.
  - intros (_ & Hl & Hb). split; [lia|]. split; [lia|]. intros i Hi. rewrite <- Hb by done.
    replace (j + 1 + i) with (j + i + 1) by lia. by rewrite byte_at_cons by lia.
Qed.

Lemma first_match_found p t j :
  occ p t j → (∀ i, 0 ≤ i < j → ¬ occ p t i) → first_match p t = Some (Z.to_nat j).
Proof.
  revert j. induction t as [|c t IH]; intros j Ho Hn; destruct (decide (j = 0)) as [->|Hj].
  - simpl. by rewrite (proj2 (starts_occ p [])).
  - destruct Ho as (H0 & Hl & _). simpl in Hl. lia.
  - cbn [first_match]. by rewrite (proj2 (starts_occ p (c :: t))).
  - cbn [first_match]. destruct (starts p (c :: t)) eqn:Hs.
    { apply starts_occ in Hs. destruct (Hn 0); [|done]. destruct Ho; lia. }
    assert (0 ≤ j - 1) as Hj1 by (destruct Ho; lia).
    rewrite (IH (j - 1)); [simpl; f_equal; lia|..].
    + apply (occ_cons p c); [done|]. by rewrite Z.sub_add.
    + intros i Hi Hoi. apply (Hn (i + 1)); [lia|]. by apply occ_cons; [lia|].
Qed.

Lemma first_match_none p t : (∀ i, ¬ occ p t i) → first_match p t = None.
Proof.
  induction t as [|c t IH]; intros Hn; cbn [first_match].
  - destruct (starts p []) eqn:Hs; [|done]. apply starts_occ in Hs. by destruct (Hn 0).
  - destruct (starts p (c :: t)) eqn:Hs; [apply starts_occ in Hs; by destruct (Hn 0)|].
    rewrite IH; [done|]. intros i Ho. apply (Hn (i + 1)). apply occ_cons; [by destruct Ho|done].
Qed.

(** What a search that starts at [h] returns. *)
Lemma found_at p t h j :
  occ p t j → (∀ i, 0 ≤ i < j → ¬ occ p t i) → Done (h + j) = Done (ptr_of h (first_match p t)).
Proof. intros Ho Hn. rewrite (first_match_found p t j) by done. simpl. f_equal. destruct Ho; lia. Qed.

(** Joining bytes to a word. *)
Lemma lor_shiftl a b k : 0 ≤ k → 0 ≤ b < 2 ^ k → Z.lor (Z.shiftl a k) b = a * 2 ^ k + b.
Proof.
  intros Hk Hb. assert (Z.land (Z.shiftl a k) b = 0) as H0.
  { apply Z.bits_inj'. intros i Hi. rewrite Z.land_spec, Z.bits_0, Z.shiftl_spec by done.
    destruct (Z.lt_ge_cases i k); [rewrite Z.testbit_neg_r by lia; done|].
    rewrite <- (Z.mod_small b (2 ^ k)) by done. rewrite Z.mod_pow2_bits_high by lia. apply andb_false_r. }
  rewrite <- Z.lxor_lor, <- Z.add_nocarry_lxor by done. by rewrite Z.shiftl_mul_pow2.
Qed.

Lemma word2 a b : 0 ≤ a < 256 → 0 ≤ b < 256 → wrap 16 (Z.lor (Z.shiftl a 8) b) = a * 2 ^ 8 + b.
Proof. intros. rewrite lor_shiftl by lia. apply wrap_small. lia. Qed.

Lemma word3 a b c :
  0 ≤ a < 256 → 0 ≤ b < 256 → 0 ≤ c < 256 →
  wrap 32 (Z.lor (Z.lor (Z.shiftl a 24) (Z.shiftl b 16)) (Z.shiftl c 8))
  = a * 2 ^ 24 + b * 2 ^ 16 + c * 2 ^ 8.
Proof.
  intros. rewrite (Z.shiftl_mul_pow2 b), (Z.shiftl_mul_pow2 c), (lor_shiftl a) by lia.
  replace (a * 2 ^ 24 + b * 2 ^ 16) with (Z.shiftl (a * 2 ^ 8 + b) 16) by (rewrite Z.shiftl_mul_pow2; lia).
  rewrite lor_shiftl by lia. rewrite wrap_small by lia. rewrite Z.shiftl_mul_pow2; lia.
Qed.

Lemma word4 a b c d :
  0 ≤ a < 256 → 0 ≤ b < 256 → 0 ≤ c < 256 → 0 ≤ d < 256 →
  wrap 32 (Z.lor (Z.lor (Z.lor (Z.shiftl a 24) (Z.shiftl b 16)) (Z.shiftl c 8)) d)
  = a * 2 ^ 24 + b * 2 ^ 16 + c * 2 ^ 8 + d.
Proof.
  intros.
  assert (Z.lor (Z.lor (Z.shiftl a 24) (Z.shiftl b 16)) (Z.shiftl c 8)
          = Z.shiftl (a * 2 ^ 16 + b * 2 ^ 8 + c) 8) as ->.
  { rewrite (Z.shiftl_mul_pow2 b), (Z.shiftl_mul_pow2 c), (lor_shiftl a) by lia.
    replace (a * 2 ^ 24 + b * 2 ^ 16) with (Z.shiftl (a * 2 ^ 8 + b) 16)
      by (rewrite Z.shiftl_mul_pow2; lia).
    rewrite lor_shiftl by lia. rewrite Z.shiftl_mul_pow2 by lia. lia. }
  rewrite lor_shiftl by lia. rewrite wrap_small by lia. lia.
Qed.

(** Indices are kept one below, so that the first is [-1] as a [size_t]. *)
Lemma wadd_pred a k : 0 ≤ a → 1 ≤ k → a + k < 2 ^ 63 → wadd (wrap 64 (a - 1)) k = a + k - 1.
Proof.
  intros Ha Hk Hb. unfold wadd, wrap. rewrite Zplus_mod_idemp_l. rewrite Z.mod_small by lia. lia.
Qed.

Lemma wsub_pred a b : 0 ≤ a ≤ b → b < 2 ^ 63 → wsub b (wrap 64 (a - 1)) = b - a + 1.
Proof.
  intros Ha Hb. unfold wsub, wrap. rewrite Zminus_mod_idemp_r. rewrite Z.mod_small by lia. lia.
Qed.

(** Needle and haystack in memory. *)
Section search.
Context (m : cmem) (h n : Z) (ts ps : list Z) (Ht : str_at m h ts) (Hp : str_at m n ps).

Abbreviation t := (byte_at ts).
Abbreviation x := (byte_at ps).
Abbreviation N := (len ts).
Abbreviation l := (len ps).

Lemma not_found : (∀ i, 0 ≤ i → i + l ≤ N → ¬ occ ps ts i) → Done NULL = Done (ptr_of h (first_match ps ts)).
Proof using.
  intros Hn. rewrite first_match_none; [done|]. intros i Ho. destruct Ho as (H1 & H2 & H3).
  by apply (Hn i H1 H2).
Qed.

(** ** Short needles *)

(** [W j] is the word of the [k] bytes that end at index [j]. *)
Section window.
Context (step : Z → Z → Z) (W : Z → Z) (nw k : Z).
Context (Hk : 1 ≤ k) (Hlk : l = k) (HkN : k - 1 ≤ N).
Context (Hstep : ∀ j, k - 1 ≤ j < N → step (W j) (t (j + 1)) = W (j + 1)).
Context (Hword : ∀ j, k - 1 ≤ j < N → W j = nw ↔ occ ps ts (j - (k - 1))).

Lemma window_loop_spec fuel j :
  k - 1 ≤ j ≤ N → N - j < Z.of_nat fuel → (∀ i, 0 ≤ i < j - (k - 1) → ¬ occ ps ts i) →
  ∃ j', window_loop step fuel m (h + j) (W j) nw = Done (h + j', t j') ∧
    (if t j' =? 0 then NULL else h + j' - (k - 1)) = ptr_of h (first_match ps ts).
Proof using Hk Hlk Hstep Hword Ht.
  revert j. induction fuel as [|fuel IH]; intros j Hj Hf Hno; [lia|]. cbn [window_loop].
  load_at Ht j. rewrite (byte_at_zero _ _ _ Ht) by lia. case_bool_decide as Hc.
  - exists j. simpl. split; [done|]. rewrite (byte_at_zero _ _ _ Ht) by lia.
    rewrite bool_decide_true by done. rewrite first_match_none; [done|]. intros i Ho.
    apply (Hno i); [|done]. destruct Ho as (H1 & H2 & _). lia.
  - simpl. destruct (Z.eqb_spec (W j) nw) as [Hw|Hw]; simpl.
    + exists j. split; [done|]. rewrite (byte_at_zero _ _ _ Ht), bool_decide_false by lia.
      apply Hword in Hw; [|lia]. pose proof (found_at ps ts h _ Hw Hno) as [= <-]. lia.
    + rewrite <- Z.add_assoc. load_at Ht (j + 1). rewrite Hstep by lia. apply IH; [lia..|].
      intros i Hi. destruct (decide (i = j - (k - 1))) as [->|]; [|apply Hno; lia].
      rewrite <- Hword by lia. done.
Qed.

End window.

Lemma t_range i : 0 ≤ i ≤ N → 0 ≤ t i < 256.
Proof using Ht. apply (byte_at_range m h ts Ht). Qed.

Lemma x_range i : 0 ≤ i ≤ l → 0 ≤ x i < 256.
Proof using Hp. apply (byte_at_range m n ps Hp). Qed.

Lemma load_first s (ls : list Z) : str_at m s ls → load m s = Done (byte_at ls 0).
Proof using. intros Hs. pose proof (load_str _ _ _ Hs 0) as Hl. rewrite Z.add_0_r in Hl. apply Hl. lia. Qed.

Lemma twobyte_spec : l = 2 → 2 ≤ N → twobyte_strstr m h n = Done (ptr_of h (first_match ps ts)).
Proof using Ht Hp.
  intros Hl HN. pose proof (str_fuel _ _ _ Ht) as Hfuel. unfold twobyte_strstr.
  rewrite (load_first n ps Hp), (load_first h ts Ht). cbn [mbind outcome_bind].
  load_at Hp 1. load_at Ht 1. pose proof (x_range 0). pose proof (x_range 1).
  set (W j := t (j - 1) * 2 ^ 8 + t j).
  pose proof (t_range 0). pose proof (t_range 1). rewrite !word2 by lia.
  change (t 0 * 2 ^ 8 + t 1) with (W 1).
  destruct (window_loop_spec (λ hw b, wrap 16 (Z.lor (Z.shiftl hw 8) b)) W (x 0 * 2 ^ 8 + x 1) 2
    ltac:(lia) Hl) with (fuel := mem_fuel m) (j := 1) as (j' & -> & Hr);
    [..|simpl; f_equal; rewrite <- Hr; destruct (t j' =? 0); lia]; try (unfold mem_fuel; lia).
  - intros j Hj. pose proof (t_range (j - 1)). pose proof (t_range j). pose proof (t_range (j + 1)).
    unfold W. rewrite lor_shiftl by lia. replace (j + 1 - 1) with j by lia.
    unfold wrap. symmetry. apply (Z.mod_unique _ _ (t (j - 1))); lia.
  - intros j Hj. pose proof (t_range (j - 1)). pose proof (t_range j). unfold W, occ. split.
    + intros He. split; [lia|]. split; [lia|]. intros i Hi. assert (i = 0 ∨ i = 1) as [->| ->] by lia.
      * replace (j - (2 - 1) + 0) with (j - 1) by lia. lia.
      * replace (j - (2 - 1) + 1) with j by lia. lia.
    + intros (_ & _ & Hb). rewrite <- (Hb 0), <- (Hb 1) by lia.
      replace (j - (2 - 1) + 0) with (j - 1) by lia. by replace (j - (2 - 1) + 1) with j by lia.
Qed.

Lemma threebyte_spec : l = 3 → 3 ≤ N → threebyte_strstr m h n = Done (ptr_of h (first_match ps ts)).
Proof using Ht Hp.
  intros Hl HN. pose proof (str_fuel _ _ _ Ht) as Hfuel. unfold threebyte_strstr.
  rewrite (load_first n ps Hp), (load_first h ts Ht). cbn [mbind outcome_bind].
  load_at Hp 1. load_at Hp 2. load_at Ht 1. load_at Ht 2.
  pose proof (x_range 0). pose proof (x_range 1). pose proof (x_range 2).
  set (W j := t (j - 2) * 2 ^ 24 + t (j - 1) * 2 ^ 16 + t j * 2 ^ 8).
  pose proof (t_range 0). pose proof (t_range 1). pose proof (t_range 2). cbv zeta. rewrite !word3 by lia.
  change (t 0 * 2 ^ 24 + t 1 * 2 ^ 16 + t 2 * 2 ^ 8) with (W 2).
  destruct (window_loop_spec (λ hw b, wrap 32 (Z.shiftl (Z.lor hw b) 8)) W
    (x 0 * 2 ^ 24 + x 1 * 2 ^ 16 + x 2 * 2 ^ 8) 3
    ltac:(lia) Hl) with (fuel := mem_fuel m) (j := 2) as (j' & -> & Hr);
    [..|simpl; f_equal; rewrite <- Hr; destruct (t j' =? 0); lia]; try (unfold mem_fuel; lia).
  - intros j Hj. pose proof (t_range (j - 2)). pose proof (t_range (j - 1)). pose proof (t_range j).
    pose proof (t_range (j + 1)). unfold W.
    replace (t (j - 2) * 2 ^ 24 + t (j - 1) * 2 ^ 16 + t j * 2 ^ 8)
      with (Z.shiftl (t (j - 2) * 2 ^ 16 + t (j - 1) * 2 ^ 8 + t j) 8)
      by (rewrite Z.shiftl_mul_pow2; lia).
    rewrite lor_shiftl, Z.shiftl_mul_pow2 by lia.
    replace (j + 1 - 2) with (j - 1) by lia. replace (j + 1 - 1) with j by lia.
    unfold wrap. symmetry. apply (Z.mod_unique _ _ (t (j - 2))); lia.
  - intros j Hj. pose proof (t_range (j - 2)). pose proof (t_range (j - 1)). pose proof (t_range j).
    unfold W, occ. split.
    + intros He. split; [lia|]. split; [lia|]. intros i Hi.
      assert (i = 0 ∨ i = 1 ∨ i = 2) as [->|[->| ->]] by lia.
      * replace (j - (3 - 1) + 0) with (j - 2) by lia. lia.
      * replace (j - (3 - 1) + 1) with (j - 1) by lia. lia.
      * replace (j - (3 - 1) + 2) with j by lia. lia.
    + intros (_ & _ & Hb). rewrite <- (Hb 0), <- (Hb 1), <- (Hb 2) by lia.
      replace (j - (3 - 1) + 0) with (j - 2) by lia. replace (j - (3 - 1) + 1) with (j - 1) by lia.
      by replace (j - (3 - 1) + 2) with j by lia.
Qed.

Lemma fourbyte_spec : l = 4 → 4 ≤ N → fourbyte_strstr m h n = Done (ptr_of h (first_match ps ts)).
Proof using Ht Hp.
  intros Hl HN. pose proof (str_fuel _ _ _ Ht) as Hfuel. unfold fourbyte_strstr.
  rewrite (load_first n ps Hp), (load_first h ts Ht). cbn [mbind outcome_bind].
  load_at Hp 1. load_at Hp 2. load_at Hp 3. load_at Ht 1. load_at Ht 2. load_at Ht 3.
  pose proof (x_range 0). pose proof (x_range 1). pose proof (x_range 2). pose proof (x_range 3).
  set (W j := t (j - 3) * 2 ^ 24 + t (j - 2) * 2 ^ 16 + t (j - 1) * 2 ^ 8 + t j).
  pose proof (t_range 0). pose proof (t_range 1). pose proof (t_range 2). pose proof (t_range 3).
  cbv zeta. rewrite !word4 by lia.
  change (t 0 * 2 ^ 24 + t 1 * 2 ^ 16 + t 2 * 2 ^ 8 + t 3) with (W 3).
  destruct (window_loop_spec (λ hw b, wrap 32 (Z.lor (Z.shiftl hw 8) b)) W
    (x 0 * 2 ^ 24 + x 1 * 2 ^ 16 + x 2 * 2 ^ 8 + x 3) 4
    ltac:(lia) Hl) with (fuel := mem_fuel m) (j := 3) as (j' & -> & Hr);
    [..|simpl; f_equal; rewrite <- Hr; destruct (t j' =? 0); lia]; try (unfold mem_fuel; lia).
  - intros j Hj. pose proof (t_range (j - 3)). pose proof (t_range (j - 2)).
    pose proof (t_range (j - 1)). pose proof (t_range j). pose proof (t_range (j + 1)).
    unfold W. rewrite lor_shiftl by lia. replace (j + 1 - 3) with (j - 2) by lia.
    replace (j + 1 - 2) with (j - 1) by lia. replace (j + 1 - 1) with j by lia.
    unfold wrap. symmetry. apply (Z.mod_unique _ _ (t (j - 3))); lia.
  - intros j Hj. pose proof (t_range (j - 3)). pose proof (t_range (j - 2)).
    pose proof (t_range (j - 1)). pose proof (t_range j). unfold W, occ. split.
    + intros He. split; [lia|]. split; [lia|]. intros i Hi.
      assert (i = 0 ∨ i = 1 ∨ i = 2 ∨ i = 3) as [->|[->|[->| ->]]] by lia.
      * replace (j - (4 - 1) + 0) with (j - 3) by lia. lia.
      * replace (j - (4 - 1) + 1) with (j - 2) by lia. lia.
      * replace (j - (4 - 1) + 2) with (j - 1) by lia. lia.
      * replace (j - (4 - 1) + 3) with j by lia. lia.
    + intros (_ & _ & Hb). rewrite <- (Hb 0), <- (Hb 1), <- (Hb 2), <- (Hb 3) by lia.
      replace (j - (4 - 1) + 0) with (j - 3) by lia. replace (j - (4 - 1) + 1) with (j - 2) by lia.
      replace (j - (4 - 1) + 2) with (j - 1) by lia. by replace (j - (4 - 1) + 3) with j by lia.
Qed.

(** ** The tables of the needle *)

(** The bytes of the first [k] positions, with the last position of each. *)
Definition tables (k : Z) (bs : list Z) (shift : gmap Z Z) : Prop :=
  length bs = 4%nat ∧
  (∀ i, 0 ≤ i < k → byteset_has bs (x i) = true) ∧
  ∀ c, 0 ≤ c < 256 → byteset_has bs c = true →
    ∃ i, shift !! c = Some (i + 1) ∧ 0 ≤ i < k ∧ x i = c ∧ ∀ j, i < j < k → x j ≠ c.

Lemma tables_add k bs shift :
  0 ≤ k < l → tables k bs shift → tables (k + 1) (byteset_add bs (x k)) (<[x k := k + 1]> shift).
Proof using Hp.
  intros Hk (Hlen & Hin & Hlast). pose proof (x_range k ltac:(lia)) as Hxk.
  split; [by rewrite byteset_add_length|]. split.
  - intros i Hi. pose proof (x_range i ltac:(lia)). rewrite byteset_has_add by done.
    apply orb_true_iff. destruct (decide (i = k)) as [->|]; [left; apply Z.eqb_refl|right; apply Hin; lia].
  - intros c Hc Hhas. destruct (decide (c = x k)) as [->|Hne].
    + exists k. rewrite lookup_insert_eq. split_and!; [done|lia|lia|done|lia].
    + rewrite byteset_has_add, (proj2 (Z.eqb_neq _ _)) in Hhas by (done || congruence). simpl in Hhas.
      destruct (Hlast c Hc Hhas) as (i & Hs & Hi & Hx & Hj). exists i.
      rewrite lookup_insert_ne by congruence. split_and!; [done|lia|lia|done|].
      intros j Hjr. destruct (decide (j = k)) as [->|]; [congruence|apply Hj; lia].
Qed.

Lemma needle_loop_spec fuel k bs shift :
  0 ≤ k ≤ l → k ≤ N → l - k < Z.of_nat fuel → tables k bs shift →
  ∃ k' bs' shift', needle_loop fuel m h n k bs shift = Done (k', bs', shift') ∧
    k' = Z.min l N ∧ tables k' bs' shift'.
Proof using Ht Hp.
  revert k bs shift. induction fuel as [|fuel IH]; intros k bs shift Hk HkN Hf Htab; [lia|].
  cbn [needle_loop]. load_at Hp k. rewrite (byte_at_zero _ _ _ Hp) by lia. case_bool_decide as Hc.
  { eexists _, _, _. split; [done|]. split; [lia|done]. }
  load_at Ht k. rewrite (byte_at_zero _ _ _ Ht) by lia. case_bool_decide as Hc'.
  { eexists _, _, _. split; [done|]. split; [lia|done]. }
  apply IH; [lia..|]. apply tables_add; [lia|done].
Qed.

(** ** The factorisation *)

Context (HN : N < 2 ^ 62) (Hl : l < 2 ^ 62).

Lemma max_suffix_loop_spec f lt fuel a b k p :
  (∀ c d, lt c d = true ↔ f c < f d) → (∀ c d, f c = f d → c = d) →
  ms_inv x l f a b k p → 2 * l - (a + b + k) + 2 ≤ Z.of_nat fuel →
  ∃ a' p', max_suffix_loop lt fuel m n l (wrap 64 (a - 1)) (b - 1) k p = Done (wrap 64 (a' - 1), p') ∧
    maximal x l f a' p'.
Proof using Ht Hp HN Hl.
  intros Hlt Hinj. revert a b k p. induction fuel as [|fuel IH]; intros a b k p Hinv Hf;
    pose proof (ms_window _ _ _ _ _ _ _ Hinv) as (Hp0 & Hb & Hw);
    pose proof (mi_a _ _ _ _ _ _ _ Hinv) as Ha; pose proof (mi_k _ _ _ _ _ _ _ Hinv) as Hk;
    pose proof (mi_end _ _ _ _ _ _ _ Hinv) as He; [lia|].
  cbn [max_suffix_loop]. rewrite (wadd_small (b - 1) k) by (unfold is_usize; lia).
  destruct (Z.ltb_spec (b - 1 + k) l) as [Hlt'|Hge].
  2: { exists a, p. split; [done|]. apply (ms_final _ _ _ _ b k); [done|lia]. }
  rewrite wadd_pred by lia. load_at Hp (a + k - 1). load_at Hp (b - 1 + k).
  replace (b - 1 + k) with (b + k - 1) by lia.
  destruct (Z.eqb_spec (x (a + k - 1)) (x (b + k - 1))) as [Heq|Hne].
  - pose proof (ms_equal _ _ _ _ _ _ _ Hinv ltac:(lia) Heq) as Hinv'.
    destruct (Z.eqb_spec k p) as [->|Hkp].
    + rewrite wadd_small by (unfold is_usize; lia).
      replace (b - 1 + p) with (b + p - 1) by lia. apply IH; [done|lia].
    + rewrite (wadd_small k 1) by (unfold is_usize; lia). apply IH; [done|lia].
  - destruct (lt (x (b + k - 1)) (x (a + k - 1))) eqn:Hc.
    + apply Hlt in Hc. pose proof (ms_greater _ _ _ _ _ _ _ Hinv ltac:(lia) Hc) as Hinv'.
      rewrite wsub_pred by lia.
      replace (b + k - 1 - a + 1) with (b + k - a) by lia. apply IH; [done|lia].
    + assert (f (x (a + k - 1)) < f (x (b + k - 1))) as Hg.
      { destruct (Z.lt_trichotomy (f (x (a + k - 1))) (f (x (b + k - 1)))) as [?|[Hff|Hff]]; [done|..].
        - by apply Hinj in Hff.
        - apply Hlt in Hff. congruence. }
      pose proof (ms_less _ _ _ _ _ _ _ Hinv ltac:(lia) Hg) as Hinv'.
      rewrite (wadd_small (b - 1) 1) by (unfold is_usize; lia).
      replace (b - 1 + 1) with (b + 1 - 1) by lia.
      rewrite <- (wrap_small 64 (b - 1)) by lia. apply IH; [done|lia].
Qed.

Lemma max_suffix_spec f lt :
  1 ≤ l → (∀ c d, lt c d = true ↔ f c < f d) → (∀ c d, f c = f d → c = d) →
  ∃ a p, max_suffix lt m n l = Done (wrap 64 (a - 1), p) ∧ maximal x l f a p.
Proof using Ht Hp HN Hl.
  intros H1 Hlt Hinj. unfold max_suffix. change (wrap 64 (-1)) with (wrap 64 (0 - 1)).
  change (max_suffix_loop lt ?k m n l ?i 0) with (max_suffix_loop lt k m n l i (1 - 1)). apply (max_suffix_loop_spec f); [done..| |lia]. by apply ms_inv_init.
Qed.

Lemma memcmp_needle p k i :
  0 ≤ p → 0 ≤ i → i + p + Z.of_nat k ≤ l →
  ∃ r, memcmp_loop k m (n + i) (n + p + i) = Done r ∧
    (r = 0 ↔ ∀ j, i ≤ j < i + Z.of_nat k → x j = x (j + p)).
Proof using Ht Hp HN Hl.
  intros Hp0. revert i. induction k as [|k IH]; intros i Hi Hk; cbn [memcmp_loop].
  { exists 0. split; [done|]. split; [lia|done]. }
  load_at Hp i. rewrite <- (Z.add_assoc n p i). load_at Hp (p + i).
  destruct (Z.eqb_spec (x i) (x (p + i))) as [Heq|Hne].
  - destruct (IH (i + 1)) as (r & Hr & Hiff); [lia..|]. exists r. rewrite <- Z.add_assoc.
    replace (n + (p + i) + 1) with (n + p + (i + 1)) by lia. split; [done|]. rewrite Hiff. split.
    + intros H j Hj. destruct (decide (j = i)) as [->|]; [by rewrite Z.add_comm|apply H; lia].
    + intros H j Hj. apply H. lia.
  - exists (x i - x (p + i)). split; [done|]. split; [lia|]. intros H. exfalso. apply Hne.
    rewrite (H i) by lia. f_equal. lia.
Qed.

(** What the search needs of the position [a] where it splits the needle, of
    the shift [p] after a mismatch on the left, and of what is remembered. *)
Definition plan (a p mem0 : Z) : Prop :=
  0 ≤ a < l ∧ 0 < p ≤ l ∧ (∀ s, repetition x l a s → p ≤ s) ∧
  ((mem0 = 0 ∧ ∀ s, repetition x l a s → l - a < s) ∨
   (mem0 = l - p ∧ period x 0 l p ∧ a < p ∧
    ∀ s, repetition x l a s → s ≤ l - a → s mod p = 0)).

(** The factorisation at the longer of the two left factors; [c] is the
    comparison of the left factor with what is a period later. *)
Lemma plan_spec f a p a' p' c :
  maximal x l f a p → maximal x l (λ c, - f c) a' p' → a' ≤ a →
  (c = 0 ↔ ∀ j, 0 ≤ j < a → x j = x (j + p)) →
  if c =? 0 then plan a p (l - p) else 1 ≤ a ∧ plan a (Z.max (a - 1) (l - a) + 1) 0.
Proof using Ht Hp HN Hl.
  intros Hmax Hmax' Hle Hc. pose proof (mx_range _ _ _ _ _ Hmax) as (Ha & Hp0 & Hal).
  destruct (Z.eqb_spec c 0) as [Hc0|Hc0].
  - assert (period x 0 l p) as Hper.
    { intros i Hi Hil. destruct (Z.lt_ge_cases i a); [by apply Hc|]. by apply (mx_period _ _ _ _ _ Hmax). }
    split; [lia|]. split; [lia|]. split; [by apply (repetition_least x l f a p a' p')|]. right.
    split; [done|]. split; [done|]. split.
    + apply (repetition_long x l f a p); [done|]. by apply period_repetition.
    + by apply (repetition_mod x l f a p a' p').
  - assert (∀ s, repetition x l a s → a < s ∧ l - a < s) as Hrep.
    { intros s Hs. split; [by apply (repetition_long x l f a p)|].
      destruct (Z.lt_ge_cases (l - a) s) as [|Hsl]; [done|exfalso]. apply Hc0, Hc. intros j Hj.
      apply (repetition_global x l f a p a' p' Hmax Hmax' Hle s Hs Hsl); lia. }
    assert (1 ≤ a) as Ha1.
    { destruct (Z.le_gt_cases 1 a); [done|]. exfalso. apply Hc0, Hc. lia. }
    split; [done|]. split; [lia|]. split; [lia|]. split.
    + intros s Hs. destruct (Hrep s Hs). lia.
    + left. split; [done|]. intros s Hs. by apply Hrep.
Qed.

(** ** The search *)

Lemma right_loop_spec fuel hi k :
  0 ≤ hi → hi + l ≤ N → 0 ≤ k ≤ l → l - k < Z.of_nat fuel →
  ∃ k', right_loop fuel m (h + hi) n k = Done (k', x k') ∧ k ≤ k' ≤ l ∧
    (∀ i, k ≤ i < k' → x i = t (hi + i)) ∧ (k' = l ∨ k' < l ∧ x k' ≠ t (hi + k')).
Proof using Ht Hp.
  intros Hhi HhN. revert k. induction fuel as [|fuel IH]; intros k Hk Hf; [lia|].
  cbn [right_loop]. load_at Hp k. rewrite (byte_at_zero _ _ _ Hp) by lia. case_bool_decide as Hc.
  { exists k. split_and!; [done|lia|lia|lia|by left]. }
  rewrite <- Z.add_assoc. load_at Ht (hi + k). destruct (Z.eqb_spec (x k) (t (hi + k))) as [Heq|Hne].
  - destruct (IH (k + 1)) as (k' & Hr & Hk' & Hm & He); [lia..|]. exists k'.
    split_and!; [done|lia|lia| |done]. intros i Hi.
    destruct (decide (i = k)) as [->|]; [done|apply Hm; lia].
  - exists k. split_and!; [done|lia|lia|lia|]. right. split; [lia|done].
Qed.

Lemma left_loop_spec fuel hi k mem :
  0 ≤ hi → hi + l ≤ N → 0 ≤ k ≤ l → 0 ≤ mem → k < Z.of_nat fuel →
  ∃ k', left_loop fuel m (h + hi) n k mem = Done k' ∧ 0 ≤ k' ≤ k ∧
    (∀ i, k' ≤ i < k → x i = t (hi + i)) ∧
    (k' ≤ mem ∨ mem < k' ∧ x (k' - 1) ≠ t (hi + (k' - 1))).
Proof using Ht Hp.
  intros Hhi HhN Hk Hmem. revert k Hk. induction fuel as [|fuel IH]; intros k Hk Hf; [lia|].
  cbn [left_loop]. destruct (Z.gtb_spec k mem) as [Hg|Hg].
  2: { exists k. split_and!; [done|lia|lia|lia|by left]. }
  load_at Hp (k - 1). rewrite <- Z.add_assoc. load_at Ht (hi + (k - 1)).
  destruct (Z.eqb_spec (x (k - 1)) (t (hi + (k - 1)))) as [Heq|Hne].
  - destruct (IH (k - 1)) as (k' & Hr & Hk' & Hm & He); [lia..|]. exists k'.
    split_and!; [done|lia|lia| |done]. intros i Hi.
    destruct (decide (i = k - 1)) as [->|]; [done|apply Hm; lia].
  - exists k. split_and!; [done|lia|lia|lia|]. right. split; [lia|done].
Qed.

Lemma grow_end_spec hi zi :
  0 ≤ hi ≤ zi → zi ≤ N →
  ∃ r, grow_end m (h + hi) l (h + zi) = Done r ∧
  match r with
  | None => N < hi + l
  | Some z => ∃ zi', z = h + zi' ∧ hi + l ≤ zi' ≤ N
  end.
Proof using Ht HN Hl.
  intros Hhi Hz. unfold grow_end. replace (h + zi - (h + hi)) with (zi - hi) by lia.
  rewrite wrap_small by lia. destruct (Z.ltb_spec (zi - hi) l) as [Hlt|Hge].
  2: { eexists. split; [done|]. exists zi. split; [done|lia]. }
  cbv zeta. assert (l ≤ Z.lor l 63) as Hg.
  { pose proof (Z.add_lor_land l 63) as He. pose proof (land_mask l 6 ltac:(lia)) as E.
    change (2 ^ 6 - 1) with 63 in E. rewrite E in He.
    pose proof (Z.mod_pos_bound l (2 ^ 6)). lia. }
  rewrite (memchr_str m (h + zi) (drop (Z.to_nat zi) ts)); [|apply str_at_drop; (done || lia)|lia].
  rewrite length_drop. cbn [mbind outcome_bind]. destruct (Z.leb_spec (Z.lor l 63) (Z.of_nat (length ts - Z.to_nat zi))).
  - simpl. eexists. split; [done|]. exists (zi + Z.lor l 63). split; [lia|lia].
  - pose proof (sa_pos _ _ _ Ht).
    replace (h + zi + Z.of_nat (length ts - Z.to_nat zi)) with (h + N) by lia.
    rewrite (proj2 (Z.eqb_neq (h + N) NULL)) by (unfold NULL; lia).
    replace (h + N - (h + hi)) with (N - hi) by lia. rewrite wrap_small by lia.
    destruct (Z.ltb_spec (N - hi) l).
    + eexists. split; [done|]. simpl. lia.
    + eexists. split; [done|]. exists N. split; [done|lia].
Qed.

Section loop.
Context (a p mem0 : Z) (bs : list Z) (shift : gmap Z Z).
Context (Hplan : plan a p mem0) (Htab : tables l bs shift).

(** The prefix of the needle known to match at [hi]. *)
Definition remembered (hi mem : Z) : Prop :=
  mem = 0 ∨ (mem = l - p ∧ period x 0 l p ∧ ∀ i, 0 ≤ i < mem → t (hi + i) = x i).

(** A byte of the window seen from an occurrence further on. *)
Lemma occ_byte hi s i : occ ps ts (hi + s) → 0 ≤ s ≤ i → i < l + s → t (hi + i) = x (i - s).
Proof using.
  intros (_ & _ & Hb) Hs Hi. rewrite <- (Hb (i - s)) by lia. f_equal. lia.
Qed.

(** The shift by the last byte of the window. *)
Lemma shift_safe hi mem s i0 :
  remembered hi mem → 0 ≤ s < l →
  (∀ j, i0 < j < l → x j ≠ t (hi + (l - 1))) → x i0 = t (hi + (l - 1)) → 0 ≤ i0 < l - 1 →
  s < (if l - 1 - i0 <? mem then mem else l - 1 - i0) → ¬ occ ps ts (hi + s).
Proof using Hplan.
  intros Hmem Hs Hlast Hi0 Hi0r Hsk Ho. destruct Hplan as (_ & Hpr & _).
  pose proof (occ_byte hi s (l - 1) Ho ltac:(lia) ltac:(lia)) as Hx.
  destruct (Z.lt_ge_cases s (l - 1 - i0)) as [Hlt|Hge]; [by apply (Hlast (l - 1 - s)); [lia|]|].
  destruct (Z.ltb_spec (l - 1 - i0) mem) as [Hm|Hm]; [|lia].
  destruct Hmem as [->|(-> & Hper & Hpre)]; [lia|]. apply (Hlast (l - 1)); [lia|].
  rewrite Hx. pose proof (Hper (l - 1 - p) ltac:(lia) ltac:(lia)) as H1.
  rewrite Z.sub_add in H1. rewrite <- H1. rewrite <- Hpre by lia.
  rewrite (occ_byte hi s (l - 1 - p)) by (done || lia).
  rewrite (Hper (l - 1 - p - s)) by lia. f_equal. lia.
Qed.

(** An occurrence nearer than what has matched on the right repeats it. *)
Lemma occ_repetition hi k s :
  (∀ i, a ≤ i < k → x i = t (hi + i)) → 0 < s → (a + s ≤ k ∨ k = l) →
  occ ps ts (hi + s) → repetition x l a s.
Proof using.
  intros Hm Hs Hk Ho. split; [done|]. intros i Hi Hil Hsi. rewrite Hm by lia.
  apply occ_byte; (done || lia).
Qed.

(** The shift after a mismatch on the right. *)
Lemma right_safe hi k s :
  (∀ i, a ≤ i < k → x i = t (hi + i)) → a ≤ k < l → x k ≠ t (hi + k) → 0 ≤ s < k - a + 1 →
  ¬ occ ps ts (hi + s).
Proof using Hplan.
  intros Hm Hk Hne Hs Ho. destruct Hplan as (Ha & Hpr & _ & Hcase).
  pose proof (occ_byte hi s k Ho ltac:(lia) ltac:(lia)) as Hx. destruct (decide (s = 0)) as [->|Hs0].
  { rewrite Z.sub_0_r in Hx. congruence. }
  pose proof (occ_repetition hi k s Hm ltac:(lia) ltac:(lia) Ho) as Hrep.
  destruct Hcase as [[_ Hlong]|(_ & Hper & _ & Hmod)]; [specialize (Hlong s Hrep); lia|].
  apply Hne. rewrite Hx. symmetry. apply (period_cong x 0 l p); [done|lia..|].
  replace (k - (k - s)) with s by lia. apply Hmod; [done|lia].
Qed.

(** The shift after a mismatch on the left. *)
Lemma left_safe hi k s :
  (∀ i, a ≤ i < l → x i = t (hi + i)) → 0 ≤ k < l → x k ≠ t (hi + k) → 0 ≤ s < p →
  ¬ occ ps ts (hi + s).
Proof using Hplan.
  intros Hm Hk Hne Hs Ho. destruct Hplan as (_ & _ & Hleast & _). destruct (decide (s = 0)) as [->|Hs0].
  { pose proof (occ_byte hi 0 k Ho ltac:(lia) ltac:(lia)) as Hx. rewrite Z.sub_0_r in Hx. congruence. }
  pose proof (Hleast s (occ_repetition hi l s Hm ltac:(lia) ltac:(lia) Ho)). lia.
Qed.

(** What is remembered after it. *)
Lemma remembered_next hi : (∀ i, a ≤ i < l → x i = t (hi + i)) → remembered (hi + p) mem0.
Proof using Hplan.
  intros Hm. destruct Hplan as (_ & _ & _ & [[-> _]|(-> & Hper & Hap & _)]); [by left|]. right.
  split; [done|]. split; [done|]. intros i Hi. rewrite (Hper i) by lia. rewrite Hm by lia. f_equal. lia.
Qed.

Lemma no_occ_shift hi d :
  (∀ i, 0 ≤ i < hi → ¬ occ ps ts i) → (∀ s, 0 ≤ s < d → ¬ occ ps ts (hi + s)) →
  ∀ i, 0 ≤ i < hi + d → ¬ occ ps ts i.
Proof using.
  intros H1 H2 i Hi. destruct (Z.lt_ge_cases i hi); [apply H1; lia|].
  replace i with (hi + (i - hi)) by lia. apply H2. lia.
Qed.

Lemma search_loop_spec fuel hi zi mem :
  0 ≤ hi ≤ zi → zi ≤ N → N - hi < Z.of_nat fuel → 0 ≤ mem → remembered hi mem →
  (∀ i, 0 ≤ i < hi → ¬ occ ps ts i) →
  search_loop fuel m n l bs shift (wrap 64 (a - 1)) p mem0 (h + hi) (h + zi) mem
  = Done (ptr_of h (first_match ps ts)).
Proof using Ht Hp HN Hl Hplan Htab.
  pose proof Hplan as (Ha & Hpr & _ & Hcase). pose proof (str_fuel _ _ _ Hp) as Hsize.
  assert (0 ≤ mem0) as Hmem0 by (destruct Hcase as [[-> _]|(-> & _)]; lia).
  revert hi zi mem. induction fuel as [|fuel IH]; intros hi zi mem Hhi Hz Hf Hmem Hrem Hno; [lia|].
  cbn [search_loop]. destruct (grow_end_spec hi zi Hhi Hz) as (r & -> & Hr). cbn [mbind outcome_bind].
  destruct r as [z|]; [|apply not_found; intros i Hi Hil; apply Hno; lia].
  destruct Hr as (zi' & -> & Hz'). rewrite <- (Z.add_assoc h hi (l - 1)). load_at Ht (hi + (l - 1)).
  assert (∀ d mem', 0 < d ≤ l → 0 ≤ mem' → remembered (hi + d) mem' →
    (∀ s, 0 ≤ s < d → ¬ occ ps ts (hi + s)) →
    search_loop fuel m n l bs shift (wrap 64 (a - 1)) p mem0 (h + hi + d) (h + zi') mem'
    = Done (ptr_of h (first_match ps ts))) as Hnext.
  { intros d mem' Hd Hm' Hr' Hs'. rewrite <- Z.add_assoc. apply IH; [lia..|done|].
    by apply no_occ_shift. }
  pose proof (t_range (hi + (l - 1)) ltac:(lia)) as Hlr. destruct Htab as (_ & Hin & Hlast).
  destruct (byteset_has bs (t (hi + (l - 1)))) eqn:Hhas.
  2: { apply Hnext; [lia|lia|by left|]. intros s Hs Ho.
       rewrite (occ_byte hi s (l - 1) Ho) in Hhas by lia. rewrite Hin in Hhas by lia. done. }
  destruct (Hlast _ Hlr Hhas) as (i0 & -> & Hi0 & Hx0 & Hj). cbn [mbind outcome_bind unwrap].
  rewrite (wsub_small l) by (unfold is_usize; lia). replace (l - (i0 + 1)) with (l - 1 - i0) by lia.
  destruct (Z.eqb_spec (l - 1 - i0) 0) as [Hk0|Hk0]; cbn [negb].
  2: { apply Hnext; [|lia|by left|].
       - destruct (Z.ltb_spec (l - 1 - i0) mem); [|lia]. destruct Hrem as [->|(-> & _)]; lia.
       - intros s Hs. apply (shift_safe hi mem s i0); (done || lia || idtac).
         destruct (Z.ltb_spec (l - 1 - i0) mem); [|lia]. destruct Hrem as [->|(-> & _)]; lia. }
  rewrite (wadd_pred a 1) by lia. replace (a + 1 - 1) with a by lia.
  assert (mem ≤ l) as Hml by (destruct Hrem as [->|(-> & _)]; lia).
  destruct (right_loop_spec (mem_fuel m) hi (Z.max a mem)) as (k & -> & Hk & Hm & Hend);
    [lia|lia|lia|unfold mem_fuel; lia|]. cbn [mbind outcome_bind fst snd].
  assert (∀ i, 0 ≤ i < mem → x i = t (hi + i)) as Hpre.
  { intros i Hi. destruct Hrem as [->|(_ & _ & Hpre)]; [lia|]. by rewrite Hpre. }
  assert (∀ i, a ≤ i < k → x i = t (hi + i)) as Hright.
  { intros i Hi. destruct (Z.lt_ge_cases i mem); [apply Hpre; lia|apply Hm; lia]. }
  rewrite (byte_at_zero _ _ _ Hp) by lia. destruct Hend as [->|[Hkl Hne]].
  2: { rewrite bool_decide_false by lia. cbn [negb]. rewrite wsub_pred by lia.
       apply Hnext; [lia|lia|by left|]. intros s Hs. by apply (right_safe hi k s); [|lia|..]. }
  rewrite bool_decide_true by done. cbn [negb].
  destruct (left_loop_spec (mem_fuel m) hi a mem) as (k' & -> & Hk' & Hm' & Hend');
    [lia|lia|lia|lia|unfold mem_fuel; lia|]. cbn [mbind outcome_bind].
  destruct (Z.leb_spec k' mem) as [Hle|Hgt].
  - apply found_at; [|done]. split; [lia|]. split; [lia|]. intros i Hi. symmetry.
    destruct (Z.lt_ge_cases i mem); [apply Hpre; lia|].
    destruct (Z.lt_ge_cases i a); [apply Hm'; lia|apply Hright; lia].
  - destruct Hend' as [|[_ Hne]]; [lia|]. apply Hnext; [lia|done|by apply remembered_next|].
    intros s Hs. by apply (left_safe hi (k' - 1) s); [|lia|..].
Qed.

End loop.

(** The rest of the function from the chosen factorisation on. *)
Lemma search_from f a p a' p' bs shift :
  maximal x l f a p → maximal x l (λ c, - f c) a' p' → a' ≤ a → tables l bs shift →
  (let ms := wrap 64 (a - 1) in
   c ← memcmp m n (n + p) (wadd ms 1);
   let '(mem0, p) :=
     if negb (c =? 0) then (0, wadd (Z.max ms (wsub (wsub l ms) 1)) 1) else (wsub l p, p) in
   search_loop (mem_fuel m) m n l bs shift ms p mem0 h h 0)
  = Done (ptr_of h (first_match ps ts)).
Proof using Ht Hp HN Hl.
  intros Hmax Hmax' Hle Htab. pose proof (str_fuel _ _ _ Ht) as Hsize.
  pose proof (mx_range _ _ _ _ _ Hmax) as (Ha & Hp0 & Hal). cbv zeta.
  rewrite (wadd_pred a 1) by lia. replace (a + 1 - 1) with a by lia.
  destruct (memcmp_needle p (Z.to_nat a) 0) as (c & Hc & Hiff); [lia..|].
  rewrite !Z.add_0_r in Hc. unfold memcmp. rewrite Hc. cbn [mbind outcome_bind].
  rewrite Z.add_0_l, Z2Nat.id in Hiff by done.
  pose proof (plan_spec f a p a' p' c Hmax Hmax' Hle Hiff) as Hplan.
  assert (∀ q mem0, plan a q mem0 →
    search_loop (mem_fuel m) m n l bs shift (wrap 64 (a - 1)) q mem0 h h 0
    = Done (ptr_of h (first_match ps ts))) as Hrun.
  { intros q mem0 Hq. rewrite <- (Z.add_0_r h) at 1 2.
    apply (search_loop_spec a q mem0); [done|done|lia|lia|unfold mem_fuel; lia|lia|by left|lia]. }
  destruct (Z.eqb_spec c 0) as [_|_]; cbn [negb].
  - rewrite wsub_small by (unfold is_usize; lia). by apply Hrun.
  - destruct Hplan as [Ha1 Hplan]. rewrite wsub_pred by lia.
    rewrite (wsub_small (l - a + 1) 1) by (unfold is_usize; lia).
    setoid_rewrite (wrap_small 64 (a - 1) ltac:(lia)) in Hrun. rewrite (wrap_small 64 (a - 1)) by lia.
    rewrite wadd_small by (unfold is_usize; lia).
    replace (l - a + 1 - 1) with (l - a) by lia. by apply Hrun.
Qed.

Lemma twoway_spec : 1 ≤ l → twoway_strstr m h n = Done (ptr_of h (first_match ps ts)).
Proof using Ht Hp HN Hl.
  intros H1. pose proof (str_fuel _ _ _ Hp). pose proof (str_fuel _ _ _ Ht). unfold twoway_strstr.
  destruct (needle_loop_spec (mem_fuel m) 0 byteset_empty ∅) as (k & bs & shift & -> & -> & Htab);
    [lia|lia|unfold mem_fuel; lia| |].
  { split; [done|]. split; [lia|]. intros c Hc. by rewrite byteset_has_empty by done. }
  cbn [mbind outcome_bind]. load_at Hp (Z.min l N). rewrite (byte_at_zero _ _ _ Hp) by lia.
  case_bool_decide as Hc; cbn [negb].
  2: { apply not_found. intros i Hi Hil. lia. }
  rewrite Hc in *. clear Hc.
  destruct (max_suffix_spec (λ c, c) Z.ltb) as (a1 & p1 & -> & Hmax1);
    [done|intros; apply Z.ltb_lt|done|].
  cbn [mbind outcome_bind].
  destruct (max_suffix_spec Z.opp (λ a b, b <? a)) as (a2 & p2 & -> & Hmax2);
    [done|intros c d; rewrite Z.ltb_lt; lia|lia|].
  cbn [mbind outcome_bind].
  pose proof (mx_range _ _ _ _ _ Hmax1) as Hr1. pose proof (mx_range _ _ _ _ _ Hmax2) as Hr2.
  rewrite (wadd_pred a2 1), (wadd_pred a1 1) by lia.
  destruct (Z.gtb_spec (a2 + 1 - 1) (a1 + 1 - 1)) as [Hgt|Hle].
  - apply (search_from Z.opp a2 p2 a1 p1); [done| |lia|done].
    by apply (maximal_ext _ _ (λ c, c)); [lia|].
  - apply (search_from (λ c, c) a1 p1 a2 p2); [done|done|lia|done].
Qed.

End search.

(** ** The theorem *)

(** A match starts with the first byte of the needle. *)
Lemma first_match_index c p t :
  first_match (c :: p) t
  = index_of c t ≫= λ i, (λ j, i + j)%nat <$> first_match (c :: p) (drop i t).
Proof.
  induction t as [|b t IH]; [done|]. cbn [index_of]. destruct (Z.eqb_spec b c) as [->|Hne].
  - cbn [mbind option_bind]. rewrite drop_0. symmetry. apply option_fmap_id.
  - cbn [first_match starts]. rewrite (proj2 (Z.eqb_neq c b)) by congruence. simpl andb. cbv iota.
    rewrite IH. destruct (index_of c t) as [i|]; [|done]. cbn [fmap option_fmap option_map mbind option_bind].
    change (drop (S i) (b :: t)) with (drop i t). by destruct (first_match (c :: p) (drop i t)).
Qed.

Lemma first_match_short p t : len t < len p → first_match p t = None.
Proof. intros Hl. apply first_match_none. intros i (H1 & H2 & _). lia. Qed.

Lemma ptr_of_add h i o : ptr_of h ((λ j, i + j)%nat <$> o) = ptr_of (h + Z.of_nat i) o.
Proof. destruct o; simpl; lia. Qed.

(** The part of [strstr] after [strchr], on a haystack that is not empty. *)
Lemma strstr_tail m h n ts ps :
  str_at m h ts → str_at m n ps → len ts < 2 ^ 62 → len ps < 2 ^ 62 → 1 ≤ len ps → 1 ≤ len ts →
  byte_at ps 0 = byte_at ts 0 →
  (n1 ← load m (n + 1);
   if n1 =? 0 then Done h
   else
     h1 ← load m (h + 1);
     if h1 =? 0 then Done NULL
     else
       n2 ← load m (n + 2);
       if n2 =? 0 then twobyte_strstr m h n
       else
         h2 ← load m (h + 2);
         if h2 =? 0 then Done NULL
         else
           n3 ← load m (n + 3);
           if n3 =? 0 then threebyte_strstr m h n
           else
             h3 ← load m (h + 3);
             if h3 =? 0 then Done NULL
             else
               n4 ← load m (n + 4);
               if n4 =? 0 then fourbyte_strstr m h n else twoway_strstr m h n)
  = Done (ptr_of h (first_match ps ts)).
Proof.
  intros Ht Hp HN Hl Hl1 HN1 H0.
  assert (∀ i, 0 ≤ i ≤ len ps → load m (n + i) = Done (byte_at ps i)) as Hln by apply (load_str _ _ _ Hp).
  assert (∀ i, 0 ≤ i ≤ len ts → load m (h + i) = Done (byte_at ts i)) as Hlh by apply (load_str _ _ _ Ht).
  assert (len ts < len ps → Done NULL = Done (ptr_of h (first_match ps ts))) as Hshort.
  { intros Hlt. by rewrite first_match_short. }
  assert (∀ i, 0 ≤ i ≤ len ps → (byte_at ps i =? 0) = bool_decide (i = len ps)) as Hzn
    by apply (byte_at_zero _ _ _ Hp).
  assert (∀ i, 0 ≤ i ≤ len ts → (byte_at ts i =? 0) = bool_decide (i = len ts)) as Hzh
    by apply (byte_at_zero _ _ _ Ht).
  rewrite (Hln 1) by lia. cbn [mbind outcome_bind]. rewrite Hzn by lia. case_bool_decide.
  { rewrite (first_match_found ps ts 0); [simpl; f_equal; lia| |lia].
    split; [lia|]. split; [lia|]. intros i Hi. by replace i with 0 by lia. }
  rewrite (Hlh 1) by lia. cbn [mbind outcome_bind]. rewrite Hzh by lia.
  case_bool_decide; [apply Hshort; lia|].
  rewrite (Hln 2) by lia. cbn [mbind outcome_bind]. rewrite Hzn by lia.
  case_bool_decide; [apply twobyte_spec; (done || lia)|].
  rewrite (Hlh 2) by lia. cbn [mbind outcome_bind]. rewrite Hzh by lia.
  case_bool_decide; [apply Hshort; lia|].
  rewrite (Hln 3) by lia. cbn [mbind outcome_bind]. rewrite Hzn by lia.
  case_bool_decide; [apply threebyte_spec; (done || lia)|].
  rewrite (Hlh 3) by lia. cbn [mbind outcome_bind]. rewrite Hzh by lia.
  case_bool_decide; [apply Hshort; lia|].
  rewrite (Hln 4) by lia. cbn [mbind outcome_bind]. rewrite Hzn by lia.
  case_bool_decide; [apply fourbyte_spec; (done || lia)|]. by apply twoway_spec.
Qed.

(** C26: [strstr] returns the first occurrence of the needle in the haystack,
    or [NULL] when there is none, for all strings: it is equivalent to trying
    every position, reads nothing outside the two strings, and its loops
    end. *)
Theorem strstr_first_match char_signed m h n ts ps :
  str_at m h ts → str_at m n ps → len ts < 2 ^ 62 → len ps < 2 ^ 62 →
  strstr char_signed m h n = Done (ptr_of h (first_match ps ts)).
Proof.
  intros Ht Hp HN Hl. unfold strstr. destruct ps as [|c ps].
  { rewrite (str_at_nil _ _ Hp). simpl. destruct ts; simpl; f_equal; lia. }
  pose proof (str_at_cons _ _ _ _ Hp) as (-> & Hc & _). cbn [mbind outcome_bind].
  rewrite (proj2 (Z.eqb_neq c 0)) by lia. rewrite (strchr_spec _ m h ts) by done.
  cbn [mbind outcome_bind]. rewrite first_match_index.
  destruct (index_of c ts) as [i|] eqn:Hi; cbn [ptr_of]; [|done].
  pose proof (index_of_lookup _ _ _ Hi) as Hci. pose proof (lookup_lt_Some _ _ _ Hci) as Hil.
  pose proof (sa_pos _ _ _ Ht). rewrite (proj2 (Z.eqb_neq _ NULL)) by (unfold NULL; lia).
  cbn [mbind option_bind]. rewrite ptr_of_add.
  pose proof (str_at_drop _ _ _ Ht (Z.of_nat i) ltac:(lia)) as Ht'. rewrite Nat2Z.id in Ht'.
  apply strstr_tail; [done..| |done|simpl; lia| |].
  - rewrite length_drop. lia.
  - rewrite length_drop. lia.
  - unfold byte_at. rewrite lookup_drop. simpl. by rewrite Nat.add_0_r, Hci.
Qed.

(** A needle of five bytes, found after several shifts. *)
Definition hay : list Z := [98; 97; 98; 97; 97; 98; 97; 98; 97; 98; 97; 98; 98].
Definition needle : list Z := [97; 98; 97; 98; 98].

Lemma strstr_first_match_witness :
  strstr true (write_bytes ∅ 100 (hay ++ 0 :: needle ++ [0])) 100 114 = Done 108.
Proof.
  assert (Forall (λ b, 0 < b < 256) hay) as Hh by (repeat constructor).
  assert (Forall (λ b, 0 < b < 256) needle) as Hn by (repeat constructor).
  assert (str_at (write_bytes ∅ 100 (hay ++ 0 :: needle ++ [0])) 100 hay) as H1
    by exact (str_in_block 100 [] hay (needle ++ [0]) ltac:(done) Hh).
  assert (str_at (write_bytes ∅ 100 (hay ++ 0 :: needle ++ [0])) 114 needle) as H2
    by exact (str_in_block 100 (hay ++ [0]) needle [] ltac:(done) Hn).
  rewrite (strstr_first_match true (write_bytes ∅ 100 (hay ++ 0 :: needle ++ [0])) 100 114 hay needle);
    [reflexivity|exact H1|exact H2|reflexivity|reflexivity].
Defined.
