(* ===== verification/CTime.v ===== *)
(** * Calendar time of the C library ([ulib/c_libax/src/time.c])

    [__secs_to_tm] and [__gmtime_r] with C's truncating division and the
    widths of [int] and [long long], against the Gregorian calendar counted
    year by year and month by month. *)

From Stdlib Require Import ZArith Lia.
From stdpp Require Import base numbers list.
From S2P Require Import Prelude.

Local Open Scope Z_scope.

(** ** Definitions *)

(** Conversion to [int], and arithmetic of [long long], which is undefined
    outside its range. *)
Definition to_int (z : Z) : Z := (z + 2 ^ 31) mod 2 ^ 32 - 2 ^ 31.
Definition long_long (z : Z) : outcome Z :=
  if (- 2 ^ 63 <=? z) && (z <? 2 ^ 63) then Done z else Panic.

Definition INT_MIN : Z := - 2 ^ 31.
Definition INT_MAX : Z := 2 ^ 31 - 1.

Definition LEAPOCH : Z := 946684800 + 86400 * (31 + 29).
Definition DAYS_PER_400Y : Z := 365 * 400 + 97.
Definition DAYS_PER_100Y : Z := 365 * 100 + 24.
Definition DAYS_PER_4Y : Z := 365 * 4 + 1.

Definition days_in_month : list Z := [31; 30; 31; 30; 31; 31; 30; 31; 30; 31; 31; 29].

Record tm := {
  tm_sec : Z;
  tm_min : Z;
  tm_hour : Z;
  tm_mday : Z;
  tm_mon : Z;
  tm_year : Z;
  tm_wday : Z;
  tm_yday : Z;
}.

(** The loop over [days_in_month]; reading past its end is undefined. *)
Fixpoint month_loop (dim : list Z) (months remdays : Z) : outcome (Z * Z) :=
  match dim with
  | [] => Panic
  | d :: dim =>
      if d <=? remdays then month_loop dim (months + 1) (remdays - d) else Done (months, remdays)
  end.

(** The part of [__secs_to_tm] below the cycles of 400 years. *)
Definition tm_of_cycle (qc_cycles remdays wday remsecs : Z) : outcome (option tm) :=
  let c_cycles := Z.quot remdays DAYS_PER_100Y in
  let c_cycles := if c_cycles =? 4 then c_cycles - 1 else c_cycles in
  let remdays := remdays - c_cycles * DAYS_PER_100Y in
  let q_cycles := Z.quot remdays DAYS_PER_4Y in
  let q_cycles := if q_cycles =? 25 then q_cycles - 1 else q_cycles in
  let remdays := remdays - q_cycles * DAYS_PER_4Y in
  let remyears := Z.quot remdays 365 in
  let remyears := if remyears =? 4 then remyears - 1 else remyears in
  let remdays := remdays - remyears * 365 in
  let leap := if (remyears =? 0) && (negb (q_cycles =? 0) || (c_cycles =? 0)) then 1 else 0 in
  let yday := remdays + 31 + 28 + leap in
  let yday := if yday >=? 365 + leap then yday - (365 + leap) else yday in
  years ← long_long (remyears + 4 * q_cycles + 100 * c_cycles + 400 * qc_cycles);
  '(months, remdays) ← month_loop days_in_month 0 remdays;
  let '(months, years) := if months >=? 10 then (months - 12, years + 1) else (months, years) in
  if (years + 100 >? INT_MAX) || (years + 100 <? INT_MIN) then Done None
  else
    Done (Some {| tm_year := to_int (years + 100);
                  tm_mon := months + 2;
                  tm_mday := remdays + 1;
                  tm_wday := wday;
                  tm_yday := yday;
                  tm_hour := Z.quot remsecs 3600;
                  tm_min := Z.rem (Z.quot remsecs 60) 60;
                  tm_sec := Z.rem remsecs 60 |}).

(** [__secs_to_tm]; its result [-1] is [None]. *)
Definition secs_to_tm (t : Z) : outcome (option tm) :=
  if (t <? INT_MIN * 31622400) || (t >? INT_MAX * 31622400) then Done None
  else
    secs ← long_long (t - LEAPOCH);
    let days := Z.quot secs 86400 in
    let remsecs := to_int (Z.rem secs 86400) in
    let '(remsecs, days) :=
      if remsecs <? 0 then (remsecs + 86400, days - 1) else (remsecs, days) in
    let wday := to_int (Z.rem (3 + days) 7) in
    let wday := if wday <? 0 then wday + 7 else wday in
    let qc_cycles := to_int (Z.quot days DAYS_PER_400Y) in
    let remdays := to_int (Z.rem days DAYS_PER_400Y) in
    let '(remdays, qc_cycles) :=
      if remdays <? 0 then (remdays + DAYS_PER_400Y, qc_cycles - 1) else (remdays, qc_cycles) in
    tm_of_cycle qc_cycles remdays wday remsecs.

(** [errno]'s [EOVERFLOW] is the error. *)
Definition gmtime_r (t : Z) : outcome (result unit tm) :=
  r ← secs_to_tm t; Done (ok_or tt r).

(** [localtime_r] sets three fields only. *)
Definition localtime_r (sec : Z) (tm0 : tm) : tm :=
  {| tm_year := tm_year tm0; tm_mon := tm_mon tm0; tm_mday := tm_mday tm0;
     tm_wday := tm_wday tm0; tm_yday := tm_yday tm0;
     tm_hour := to_int (Z.rem (Z.quot sec 3600) 24);
     tm_min := to_int (Z.rem (Z.quot sec 60) 60);
     tm_sec := to_int (Z.rem sec 60) |}.

(** ** The Gregorian calendar *)

Definition leap_year (y : Z) : bool :=
  ((y mod 4 =? 0) && negb (y mod 100 =? 0)) || (y mod 400 =? 0).

Definition month_length (y m : Z) : Z :=
  if m =? 1 then (if leap_year y then 29 else 28)
  else if (m =? 3) || (m =? 5) || (m =? 8) || (m =? 10) then 30 else 31.

Definition year_length (y : Z) : Z := if leap_year y then 366 else 365.

(** The days of the months before the [n]-th of a year. *)
Fixpoint days_before_month (y : Z) (n : nat) : Z :=
  match n with
  | O => 0
  | S n => days_before_month y n + month_length y (Z.of_nat n)
  end.

(** The days from the first of January of the year 1 to that of a year;
    [days_before_year_step] shows that it adds up the lengths of the years. *)
Definition days_before_year (y : Z) : Z :=
  365 * (y - 1) + (y - 1) `div` 4 - (y - 1) `div` 100 + (y - 1) `div` 400.

(** Days and seconds since 1970. *)
Definition day_number (y mon mday : Z) : Z :=
  days_before_year y + days_before_month y (Z.to_nat mon) + (mday - 1) - days_before_year 1970.
Definition timegm (x : tm) : Z :=
  86400 * day_number (tm_year x + 1900) (tm_mon x) (tm_mday x)
  + 3600 * tm_hour x + 60 * tm_min x + tm_sec x.

(** A date that exists, at a time of day that exists. *)
Definition tm_valid (x : tm) : Prop :=
  0 ≤ tm_mon x < 12 ∧ 1 ≤ tm_mday x ≤ month_length (tm_year x + 1900) (tm_mon x) ∧
  0 ≤ tm_hour x < 24 ∧ 0 ≤ tm_min x < 60 ∧ 0 ≤ tm_sec x < 60.

(** The day of the week, a Thursday on day 0, and of the year. *)
Definition tm_days_right (x : tm) : Prop :=
  tm_wday x = (4 + day_number (tm_year x + 1900) (tm_mon x) (tm_mday x)) mod 7 ∧
  tm_yday x = days_before_month (tm_year x + 1900) (Z.to_nat (tm_mon x)) + tm_mday x - 1.

(** ** Lemmas *)

Lemma to_int_small z : INT_MIN ≤ z ≤ INT_MAX → to_int z = z.
Proof. unfold INT_MIN, INT_MAX, to_int. intros. rewrite Z.mod_small; lia. Qed.

Lemma long_long_small z : - 2 ^ 63 ≤ z < 2 ^ 63 → long_long z = Done z.
Proof. intros. unfold long_long. by rewrite (proj2 (Z.leb_le _ _)), (proj2 (Z.ltb_lt _ _)) by lia. Qed.

Lemma leap_year_spec y :
  leap_year y = true ↔ (y mod 4 = 0 ∧ y mod 100 ≠ 0) ∨ y mod 400 = 0.
Proof. unfold leap_year. rewrite orb_true_iff, andb_true_iff, negb_true_iff, !Z.eqb_eq, Z.eqb_neq. done. Qed.

Lemma days_before_year_step y : days_before_year (y + 1) = days_before_year y + year_length y.
Proof.
  unfold days_before_year, year_length. pose proof (leap_year_spec y) as Hl.
  destruct (leap_year y); Z.to_euclidean_division_equations; lia.
Qed.

(** C's division corrected for negative operands is the floor. *)
Lemma quot_floor a b :
  0 < b →
  (if Z.rem a b <? 0 then (Z.rem a b + b, Z.quot a b - 1) else (Z.rem a b, Z.quot a b))
  = (a mod b, a `div` b).
Proof.
  intros Hb. pose proof (Z.quot_rem' a b) as He.
  destruct (Z.ltb_spec (Z.rem a b) 0) as [Hn|Hn].
  - assert (a `div` b = Z.quot a b - 1) as Hd.
    { symmetry. apply (Z.div_unique _ _ _ (Z.rem a b + b)); [|lia].
      left. pose proof (Z.rem_bound_abs a b). lia. }
    rewrite Z.mod_eq by lia. rewrite Hd. f_equal. lia.
  - assert (a `div` b = Z.quot a b) as Hd.
    { symmetry. apply (Z.div_unique _ _ _ (Z.rem a b)); [|lia].
      left. pose proof (Z.rem_bound_abs a b). lia. }
    rewrite Z.mod_eq by lia. rewrite Hd. f_equal. lia.
Qed.

(** A day of the cycle of 400 years that starts on 2000-03-01: its century,
    its cycle of four years, its year and its day. *)
Definition cycle_day (r c q y d : Z) : Prop :=
  0 ≤ c ≤ 3 ∧ 0 ≤ q ≤ 24 ∧ 0 ≤ y ≤ 3 ∧ 0 ≤ d ≤ 365 ∧
  r = DAYS_PER_100Y * c + DAYS_PER_4Y * q + 365 * y + d ∧
  (d = 365 → y = 3 ∧ (q < 24 ∨ c = 3)).

Lemma cycle_split r :
  0 ≤ r < DAYS_PER_400Y →
  let c := Z.quot r DAYS_PER_100Y in
  let c := if c =? 4 then c - 1 else c in
  let r1 := r - c * DAYS_PER_100Y in
  let q := Z.quot r1 DAYS_PER_4Y in
  let q := if q =? 25 then q - 1 else q in
  let r2 := r1 - q * DAYS_PER_4Y in
  let y := Z.quot r2 365 in
  let y := if y =? 4 then y - 1 else y in
  cycle_day r c q y (r2 - y * 365).
Proof.
  unfold cycle_day, DAYS_PER_400Y, DAYS_PER_100Y, DAYS_PER_4Y. intros Hr. cbv zeta.
  set (c := if _ =? 4 then _ else _).
  assert (0 ≤ c ≤ 3 ∧ 0 ≤ r - c * 36524 ≤ 36524 ∧ (r - c * 36524 = 36524 → c = 3)) as Hc.
  { unfold c. destruct (Z.eqb_spec (Z.quot r (365 * 100 + 24)) 4);
      Z.to_euclidean_division_equations; lia. }
  clearbody c. change (365 * 100 + 24) with 36524. set (r1 := r - c * 36524) in *.
  set (q := if _ =? 25 then _ else _).
  assert (0 ≤ q ≤ 24 ∧ 0 ≤ r1 - q * 1461 ≤ 1460 ∧
          (r1 - q * 1461 = 1460 → q < 24 ∨ r1 = 36524)) as Hq.
  { unfold q. destruct (Z.eqb_spec (Z.quot r1 (365 * 4 + 1)) 25);
      Z.to_euclidean_division_equations; lia. }
  clearbody q. change (365 * 4 + 1) with 1461. set (r2 := r1 - q * 1461) in *.
  set (y := if _ =? 4 then _ else _).
  assert (0 ≤ y ≤ 3 ∧ 0 ≤ r2 - y * 365 ≤ 365 ∧ (r2 - y * 365 = 365 → y = 3 ∧ r2 = 1460)) as Hy.
  { unfold y. destruct (Z.eqb_spec (Z.quot r2 365) 4); Z.to_euclidean_division_equations; lia. }
  clearbody y. lia.
Qed.

(** The calendar year in which the year of a cycle day starts. *)
Lemma cycle_year qc r c q y d :
  cycle_day r c q y d →
  let Y := 2000 + (y + 4 * q + 100 * c + 400 * qc) in
  days_before_year Y + (if leap_year Y then 1 else 0)
  = days_before_year 2000 + 1 + DAYS_PER_400Y * qc + (r - d) ∧
  leap_year Y = (y =? 0) && (negb (q =? 0) || (c =? 0)) ∧
  (d = 365 → leap_year (Y + 1) = true).
Proof.
  intros (Hc & Hq & Hy & Hd & -> & H365) Y. unfold DAYS_PER_400Y, DAYS_PER_100Y, DAYS_PER_4Y.
  assert (Y mod 4 = y) as H4 by (symmetry; apply (Z.mod_unique _ _ (500 + q + 25 * c + 100 * qc)); lia).
  assert (Y mod 100 = y + 4 * q) as H100
    by (symmetry; apply (Z.mod_unique _ _ (20 + c + 4 * qc)); lia).
  assert (Y mod 400 = y + 4 * q + 100 * c) as H400
    by (symmetry; apply (Z.mod_unique _ _ (5 + qc)); lia).
  assert (leap_year Y = (y =? 0) && (negb (q =? 0) || (c =? 0))) as Hl.
  { unfold leap_year. rewrite H4, H100, H400. lia. }
  split; [|split; [done|]].
  - rewrite Hl. unfold days_before_year. destruct (Z.eqb_spec y 0), (Z.eqb_spec q 0), (Z.eqb_spec c 0);
      simpl; Z.to_euclidean_division_equations; lia.
  - intros ->. apply leap_year_spec. destruct (H365 eq_refl) as [-> Hn].
    Z.to_euclidean_division_equations; lia.
Qed.

Lemma month_loop_spec d :
  0 ≤ d ≤ 365 →
  ∃ m d', month_loop days_in_month 0 d = Done (m, d') ∧ 0 ≤ d' ∧
    ((m = 0 ∧ d = d' ∧ d' < 31) ∨ (m = 1 ∧ d = 31 + d' ∧ d' < 30) ∨ (m = 2 ∧ d = 61 + d' ∧ d' < 31) ∨
     (m = 3 ∧ d = 92 + d' ∧ d' < 30) ∨ (m = 4 ∧ d = 122 + d' ∧ d' < 31) ∨
     (m = 5 ∧ d = 153 + d' ∧ d' < 31) ∨ (m = 6 ∧ d = 184 + d' ∧ d' < 30) ∨
     (m = 7 ∧ d = 214 + d' ∧ d' < 31) ∨ (m = 8 ∧ d = 245 + d' ∧ d' < 30) ∨
     (m = 9 ∧ d = 275 + d' ∧ d' < 31) ∨ (m = 10 ∧ d = 306 + d' ∧ d' < 31) ∨
     (m = 11 ∧ d = 337 + d' ∧ d' < 29)).
Proof.
  intros Hd. unfold days_in_month. do 12 (simpl; case Z.leb_spec; intros;
    [|eexists _, _; split; [reflexivity|]; lia]). lia.
Qed.

(** The date of a cycle day: months from March, with January and February in
    the next calendar year. *)
Lemma cycle_date qc r c q y d :
  cycle_day r c q y d →
  let Y := 2000 + (y + 4 * q + 100 * c + 400 * qc) in
  let leap := if leap_year Y then 1 else 0 in
  ∃ m d', month_loop days_in_month 0 d = Done (m, d') ∧
    let '(mon, year) := if m >=? 10 then (m - 12 + 2, Y + 1) else (m + 2, Y) in
    0 ≤ mon < 12 ∧ 1 ≤ d' + 1 ≤ month_length year mon ∧
    day_number year mon (d' + 1) = DAYS_PER_400Y * qc + r + 11017 ∧
    (let yday := d + 31 + 28 + leap in if yday >=? 365 + leap then yday - (365 + leap) else yday)
    = days_before_month year (Z.to_nat mon) + (d' + 1) - 1.
Proof.
  intros Hcd Y leap. destruct (cycle_year qc _ _ _ _ _ Hcd) as (Hday & _ & Hnext).
  fold Y in Hday, Hnext. destruct Hcd as (_ & _ & _ & Hd & _ & _).
  pose proof (days_before_year_step Y) as Hstep. unfold year_length in Hstep. cbv zeta.
  change (days_before_year 2000) with (days_before_year 1970 + 10957) in Hday.
  destruct (month_loop_spec d Hd) as (m & d' & Hm & Hd' & Hcases). exists m, d'. split; [done|].
  clear Hm. unfold day_number.
  repeat (destruct Hcases as [(-> & -> & Hlt)|Hcases]);
    try (destruct Hcases as (-> & -> & Hlt)); simpl; unfold month_length; simpl;
    destruct (leap_year Y) eqn:HY; subst leap; simpl in *;
    repeat case Z.geb_spec; intros; try lia; destruct (leap_year (Y + 1)); lia.
Qed.

(** ** Validity determines the date *)

Lemma days_before_month_bound y n :
  (n ≤ 12)%nat → days_before_month y n ≤ year_length y - 28 * (12 - Z.of_nat n).
Proof.
  intros Hn. unfold year_length. do 13 (destruct n as [|n];
    [simpl; unfold month_length; simpl; destruct (leap_year y); lia|]). lia.
Qed.

Lemma days_before_month_nonneg y n : 0 ≤ days_before_month y n.
Proof.
  induction n as [|n IH]; simpl; [lia|]. unfold month_length.
  repeat case_match; lia.
Qed.

Lemma days_before_month_end y n : (n < 12)%nat → days_before_month y (S n) ≤ year_length y.
Proof. intros Hn. pose proof (days_before_month_bound y (S n)). lia. Qed.

(** A valid date lies in its year. *)
Lemma day_number_year x :
  tm_valid x →
  let y := tm_year x + 1900 in
  days_before_year y ≤ day_number y (tm_mon x) (tm_mday x) + days_before_year 1970
    < days_before_year (y + 1).
Proof.
  intros (Hm & Hd & _) y. unfold day_number. rewrite days_before_year_step.
  pose proof (days_before_month_nonneg y (Z.to_nat (tm_mon x))).
  pose proof (days_before_month_end y (Z.to_nat (tm_mon x)) ltac:(lia)) as He. simpl in He.
  rewrite Z2Nat.id in He by lia. fold y in Hd. lia.
Qed.

Lemma days_before_year_mono y z : y ≤ z → days_before_year y ≤ days_before_year z.
Proof.
  intros Hyz. unfold days_before_year. Z.to_euclidean_division_equations. lia.
Qed.

Lemma day_seconds x : tm_valid x → 0 ≤ 3600 * tm_hour x + 60 * tm_min x + tm_sec x < 86400.
Proof. intros (_ & _ & ? & ? & ?). lia. Qed.

(** The year of a second is determined. *)
Lemma timegm_year x x' : tm_valid x → tm_valid x' → timegm x = timegm x' → tm_year x = tm_year x'.
Proof.
  intros Hx Hx' He. unfold timegm in He. pose proof (day_seconds x Hx). pose proof (day_seconds x' Hx').
  pose proof (day_number_year x Hx) as Hy. pose proof (day_number_year x' Hx') as Hy'. cbv zeta in *.
  destruct (Z.lt_trichotomy (tm_year x) (tm_year x')) as [Hlt|[?|Hlt]]; [|done|].
  - pose proof (days_before_year_mono (tm_year x + 1900 + 1) (tm_year x' + 1900)). lia.
  - pose proof (days_before_year_mono (tm_year x' + 1900 + 1) (tm_year x + 1900)). lia.
Qed.

(** A valid date with a year of type [int] passes the first test. *)
Lemma timegm_int_year x :
  tm_valid x → INT_MIN ≤ tm_year x ≤ INT_MAX →
  INT_MIN * 31622400 ≤ timegm x ≤ INT_MAX * 31622400.
Proof.
  intros Hx Hy. unfold timegm. pose proof (day_seconds x Hx).
  pose proof (day_number_year x Hx) as Hd. cbv zeta in Hd.
  pose proof (days_before_year_mono (INT_MIN + 1900) (tm_year x + 1900)) as Hlo.
  pose proof (days_before_year_mono (tm_year x + 1900 + 1) (INT_MAX + 1901)) as Hhi.
  assert (INT_MIN * 366 + 719162 ≤ days_before_year (INT_MIN + 1900)) as Elo
    by (by apply Z.leb_le).
  assert (days_before_year (INT_MAX + 1901) ≤ INT_MAX * 366 + 719162) as Ehi
    by (by apply Z.leb_le).
  assert (days_before_year 1970 = 719162) as E0 by reflexivity.
  unfold INT_MIN, INT_MAX in *. lia.
Qed.

(** ** Correctness of [__secs_to_tm] *)

Lemma tm_of_cycle_eq qc r wday rs :
  0 ≤ r < DAYS_PER_400Y → - 2 ^ 40 ≤ qc ≤ 2 ^ 40 → 0 ≤ rs < 86400 →
  wday = (4 + (DAYS_PER_400Y * qc + r + 11017)) mod 7 →
  ∃ x, tm_valid x ∧ tm_days_right x ∧
    timegm x = 86400 * (DAYS_PER_400Y * qc + r + 11017) + rs ∧
    tm_of_cycle qc r wday rs
    = Done (if (tm_year x >? INT_MAX) || (tm_year x <? INT_MIN) then None else Some x).
Proof.
  intros Hr Hqc Hrs Hw. pose proof (cycle_split r Hr) as Hcd. unfold tm_of_cycle. cbv zeta in *.
  set (c := if _ =? 4 then _ else _) in *. set (r1 := r - c * DAYS_PER_100Y) in *.
  set (q := if _ =? 25 then _ else _) in *. set (r2 := r1 - q * DAYS_PER_4Y) in *.
  set (y := if Z.quot r2 365 =? 4 then _ else _) in *. set (d := r2 - y * 365) in *.
  clearbody c r1 q r2 y d. destruct (cycle_year qc _ _ _ _ _ Hcd) as (_ & Hl & _).
  destruct (cycle_date qc _ _ _ _ _ Hcd) as (m & d' & Hm & Hdate).
  assert (0 ≤ y + 4 * q + 100 * c < 400) as Hn by (destruct Hcd as (? & ? & ? & _); lia).
  rewrite long_long_small by lia. unfold mbind, outcome_bind. cbv beta iota. rewrite Hm.
  rewrite Hl in Hdate. set (leap := if (y =? 0) && _ then 1 else 0) in *. clearbody leap.
  set (yday := if _ >=? 365 + leap then _ else _) in *. clearbody yday.
  set (N := y + 4 * q + 100 * c + 400 * qc) in *.
  assert (∃ mon years, (if m >=? 10 then (m - 12, N + 1) else (m, N)) = (mon, years) ∧
    0 ≤ mon + 2 < 12 ∧ 1 ≤ d' + 1 ≤ month_length (2000 + years) (mon + 2) ∧
    day_number (2000 + years) (mon + 2) (d' + 1) = DAYS_PER_400Y * qc + r + 11017 ∧
    yday = days_before_month (2000 + years) (Z.to_nat (mon + 2)) + (d' + 1) - 1)
    as (mon & years & -> & Hmon & Hmd & Hday & ->).
  { destruct (m >=? 10); eexists _, _; (split; [reflexivity|]); [|exact Hdate].
    by rewrite Z.add_assoc. }
  exists {| tm_year := years + 100; tm_mon := mon + 2; tm_mday := d' + 1; tm_wday := wday;
    tm_yday := days_before_month (2000 + years) (Z.to_nat (mon + 2)) + (d' + 1) - 1;
    tm_hour := Z.quot rs 3600; tm_min := Z.rem (Z.quot rs 60) 60; tm_sec := Z.rem rs 60 |}.
  unfold tm_valid, tm_days_right, timegm. simpl tm_year.
  replace (years + 100 + 1900) with (2000 + years) by lia. cbn [tm_mon tm_mday tm_hour tm_min tm_sec tm_wday tm_yday].
  rewrite Hday. split; [|split; [|split]]; [|done| |].
  - Z.to_euclidean_division_equations; lia.
  - Z.to_euclidean_division_equations; lia.
  - destruct ((years + 100 >? INT_MAX) || (years + 100 <? INT_MIN)) eqn:Hi; [done|].
    rewrite to_int_small by lia. done.
Qed.

(** What the code computes, for every time that passes the first test. *)
Lemma secs_to_tm_eq t :
  INT_MIN * 31622400 ≤ t ≤ INT_MAX * 31622400 →
  ∃ x, tm_valid x ∧ tm_days_right x ∧ timegm x = t ∧
    secs_to_tm t = Done (if (tm_year x >? INT_MAX) || (tm_year x <? INT_MIN) then None
                         else Some x).
Proof.
  intros Ht. unfold secs_to_tm.
  assert ((t <? INT_MIN * 31622400) || (t >? INT_MAX * 31622400) = false) as -> by lia.
  unfold INT_MIN, INT_MAX in Ht. rewrite long_long_small by (unfold LEAPOCH; lia).
  set (secs := t - LEAPOCH). unfold mbind at 1, outcome_bind at 1. cbv zeta.
  rewrite (to_int_small (Z.rem secs 86400)).
  2: { unfold INT_MIN, INT_MAX. pose proof (Z.rem_bound_abs secs 86400). lia. }
  rewrite quot_floor by done. set (D := secs `div` 86400). set (rs := secs mod 86400).
  assert (secs = 86400 * D + rs ∧ 0 ≤ rs < 86400) as [Hsecs Hrs]
    by (unfold D, rs; Z.to_euclidean_division_equations; lia).
  clearbody D rs. unfold LEAPOCH in secs. subst secs.
  rewrite (to_int_small (Z.rem (3 + D) 7)).
  2: { unfold INT_MIN, INT_MAX. pose proof (Z.rem_bound_abs (3 + D) 7). lia. }
  assert (- 2 ^ 31 ≤ Z.quot D DAYS_PER_400Y ≤ 2 ^ 31 - 1 ∧
          - 2 ^ 31 ≤ Z.rem D DAYS_PER_400Y ≤ 2 ^ 31 - 1) as [Hq Hr]
    by (unfold DAYS_PER_400Y; Z.to_euclidean_division_equations; lia).
  rewrite (to_int_small (Z.quot D _)), (to_int_small (Z.rem D _)) by done.
  rewrite quot_floor by done.
  destruct (tm_of_cycle_eq (D `div` DAYS_PER_400Y) (D mod DAYS_PER_400Y)
    (if Z.rem (3 + D) 7 <? 0 then Z.rem (3 + D) 7 + 7 else Z.rem (3 + D) 7) rs)
    as (x & Hv & Hd & Htm & Heq); [..|rewrite Heq; exists x; split_and!; [done..| |done]];
    unfold DAYS_PER_400Y in *; try destruct (Z.ltb_spec (Z.rem (3 + D) 7) 0);
    Z.to_euclidean_division_equations; lia.
Qed.

(** C27: [__secs_to_tm] inverts the calendar: for every time, it returns the
    date and the time of day that exist and are that many seconds after the
    start of 1970, with the right day of the week and of the year, or fails
    when no date with a year of type [int] is; nothing overflows and the loop
    over the months stays in its table. *)
Theorem secs_to_tm_inverts t :
  ∃ r, secs_to_tm t = Done r ∧
  match r with
  | Some x => tm_valid x ∧ tm_days_right x ∧ timegm x = t ∧ INT_MIN ≤ tm_year x ≤ INT_MAX
  | None => ¬ ∃ x, tm_valid x ∧ INT_MIN ≤ tm_year x ≤ INT_MAX ∧ timegm x = t
  end.
Proof.
  destruct (decide (INT_MIN * 31622400 ≤ t ≤ INT_MAX * 31622400)) as [Ht|Ht].
  - destruct (secs_to_tm_eq t Ht) as (x & Hv & Hd & Hx & ->). eexists. split; [done|].
    destruct ((tm_year x >? INT_MAX) || (tm_year x <? INT_MIN)) eqn:Hy.
    + intros (x' & Hv' & Hy' & Hx'). rewrite (timegm_year x' x) in Hy' by congruence. lia.
    + split_and!; [done..|lia|lia].
  - exists None. split.
    + unfold secs_to_tm.
      by replace ((t <? INT_MIN * 31622400) || (t >? INT_MAX * 31622400)) with true by lia.
    + intros (x & Hv & Hy & <-). apply Ht. by apply timegm_int_year.
Qed.
