(* ===== verification/CStdlib.v ===== *)
(** * Conversion of strings to integers ([ulib/c_libax/src/stdlib.c])

    [strtol], [strtoul], [strtoll] and [strtoull] with their accumulation in
    an unsigned word and its cut-off, against the exact value of the digits.
    The results are the value, the pointer stored in [*endptr] and [errno]
    when it is set. *)

From stdpp Require Import base numbers list gmap.
From S2P Require Import Prelude CString CStringSpec.

Local Open Scope Z_scope.
Local Open Scope word_scope.

(** ** Definitions *)

Inductive errno := EINVAL | ERANGE.

(** The digit that a character stands for, in any base; the subtraction is
    one of [unsigned char]. *)
Definition char_digit (c : Z) : option Z :=
  if negb (isascii c) then None
  else if isdigit c then Some (wrap 8 (c - 48))
  else if isalpha c then Some (wrap 8 (c - (if isupper c then 65 - 10 else 97 - 10)))
  else None.

(** The loop over the digits; [c] is the character before [s]. *)
Fixpoint digits_loop (fuel : nat) (m : cmem) (base cutoff cutlim s c acc any : Z)
    : outcome (Z * Z * Z) :=
  match fuel with
  | O => Panic
  | S fuel =>
      match char_digit c with
      | None => Done (acc, any, s)
      | Some d =>
          if d >=? base then Done (acc, any, s)
          else
            let '(acc, any) :=
              if (any <? 0) || (acc >? cutoff) || ((acc =? cutoff) && (d >? cutlim))
              then (acc, -1) else ((acc ⊗ base) ⊕ d, 1) in
            c ← load m s; digits_loop fuel m base cutoff cutlim (s + 1) c acc any
      end
  end.

(** The characters before the digits: spaces, the sign and [0x].  Returns the
    sign, the base, the first character that may be a digit and the pointer
    after it. *)
Fixpoint space_loop (fuel : nat) (m : cmem) (s : Z) : outcome (Z * Z) :=
  match fuel with
  | O => Panic
  | S fuel => c ← load m s; if isspace c then space_loop fuel m (s + 1) else Done (c, s + 1)
  end.

Definition number_start (m : cmem) (nptr base : Z) : outcome (bool * Z * Z * Z) :=
  '(c, s) ← space_loop (mem_fuel m) m nptr;
  let neg := c =? 45 in
  '(c, s) ← (if (c =? 45) || (c =? 43) then c ← load m s; Done (c, s + 1) else Done (c, s));
  '(c, s, base) ←
    (if ((base =? 0) || (base =? 16)) && (c =? 48) then
       x ← load m s;
       if (x =? 120) || (x =? 88) then c ← load m (s + 1); Done (c, s + 2, 16) else Done (c, s, base)
     else Done (c, s, base));
  let base := if base =? 0 then (if c =? 48 then 8 else 10) else base in
  Done (neg, base, c, s).

Definition bad_base (base : Z) : bool := (base <? 0) || (base =? 1) || (base >? 36).

Definition LONG_MAX : Z := 2 ^ 63 - 1.
Definition LONG_MIN : Z := - 2 ^ 63.
Definition ULONG_MAX : Z := 2 ^ 64 - 1.

Definition strtol (m : cmem) (nptr base : Z) : outcome (Z * Z * option errno) :=
  if bad_base base then Done (0, nptr, Some EINVAL)
  else
    '(neg, base, c, s) ← number_start m nptr base;
    let cutoff := if neg : bool then LONG_MAX ⊖ wrap 64 (LONG_MIN + LONG_MAX) else LONG_MAX in
    let cutlim := cutoff mod base in
    let cutoff := cutoff / base in
    '(acc, any, s) ← digits_loop (mem_fuel m) m base cutoff cutlim s c 0 0;
    let '(acc, err) :=
      if any <? 0 then (if neg then LONG_MIN else LONG_MAX, Some ERANGE)
      else (if neg then 0 ⊖ acc else acc, None) in
    Done (to_isize acc, if negb (any =? 0) then s - 1 else nptr, err).

Definition strtoul (m : cmem) (nptr base : Z) : outcome (Z * Z * option errno) :=
  if bad_base base then Done (0, nptr, Some EINVAL)
  else
    '(neg, base, c, s) ← number_start m nptr base;
    let cutoff := ULONG_MAX / base in
    let cutlim := ULONG_MAX mod base in
    '(acc, any, s) ← digits_loop (mem_fuel m) m base cutoff cutlim s c 0 0;
    let '(acc, err) :=
      if any <? 0 then (ULONG_MAX, Some ERANGE)
      else (if neg : bool then 0 ⊖ acc else acc, None) in
    Done (acc, if negb (any =? 0) then s - 1 else nptr, err).

(** [long long] is as wide as [long]. *)
Definition strtoll (m : cmem) (nptr base : Z) : outcome (Z * Z * option errno) :=
  if bad_base base then Done (0, nptr, Some EINVAL)
  else
    '(neg, base, c, s) ← number_start m nptr base;
    let cutoff := if neg : bool then LONG_MAX ⊖ wrap 64 (LONG_MIN + LONG_MAX) else LONG_MAX in
    let cutlim := cutoff mod base in
    let cutoff := cutoff / base in
    '(acc, any, s) ← digits_loop (mem_fuel m) m base cutoff cutlim s c 0 0;
    let '(acc, err) :=
      if any <? 0 then (if neg then LONG_MIN else LONG_MAX, Some ERANGE)
      else (if neg then 0 ⊖ acc else acc, None) in
    Done (to_isize acc, if negb (any =? 0) then s - 1 else nptr, err).

Definition strtoull (m : cmem) (nptr base : Z) : outcome (Z * Z * option errno) :=
  if bad_base base then Done (0, nptr, Some EINVAL)
  else
    '(neg, base, c, s) ← number_start m nptr base;
    let cutoff := ULONG_MAX / base in
    let cutlim := ULONG_MAX mod base in
    '(acc, any, s) ← digits_loop (mem_fuel m) m base cutoff cutlim s c 0 0;
    let '(acc, err) :=
      if any <? 0 then (ULONG_MAX, Some ERANGE)
      else (if neg : bool then 0 ⊖ acc else acc, None) in
    Done (acc, if negb (any =? 0) then s - 1 else nptr, err).

(** ** The value of a number *)

(** The digits [0] to [9], [A] to [Z] and [a] to [z]. *)
Definition digit_value (c : Z) : option Z :=
  if decide (48 ≤ c ≤ 57) then Some (c - 48)
  else if decide (65 ≤ c ≤ 90) then Some (c - 55)
  else if decide (97 ≤ c ≤ 122) then Some (c - 87)
  else None.

(** The digits a text starts with. *)
Fixpoint digits (base : Z) (l : list Z) : list Z :=
  match l with
  | [] => []
  | c :: l =>
      match digit_value c with
      | Some d => if d <? base then d :: digits base l else []
      | None => []
      end
  end.

Definition number (base : Z) (ds : list Z) : Z := foldl (λ v d, v * base + d) 0 ds.

(** Where the digits of a text start, with its sign and base. *)
Definition spaces (l : list Z) : nat := span isspace l.

Definition header (base : Z) (l : list Z) : bool * Z * nat :=
  let k := spaces l in
  let neg := bool_decide (l !! k = Some 45) in
  let k := if decide (l !! k = Some 45 ∨ l !! k = Some 43) then S k else k in
  let hex := ((base =? 0) || (base =? 16)) &&
    bool_decide (l !! k = Some 48 ∧ (l !! S k = Some 120 ∨ l !! S k = Some 88)) in
  let '(base, k) := if hex then (16, S (S k)) else (base, k) in
  (neg, if base =? 0 then (if decide (l !! k = Some 48) then 8 else 10) else base, k).

(** The value in a range, and whether it had to be cut. *)
Definition clamp (lo hi v : Z) : Z := Z.max lo (Z.min hi v).
Definition cut (lo hi v : Z) : option errno := if (v <? lo) || (v >? hi) then Some ERANGE else None.

(** ** Lemmas *)

Lemma char_digit_value c : 0 ≤ c < 256 → char_digit c = digit_value c.
Proof.
  intros Hc.
  assert (Forall (λ i, char_digit (Z.of_nat i) = digit_value (Z.of_nat i)) (seq 0 256)) as Hall.
  { apply Forall_forall. intros i Hi.
    assert (forallb (λ i, bool_decide (char_digit (Z.of_nat i) = digit_value (Z.of_nat i))) (seq 0 256) = true)
      as Hb by (vm_compute; reflexivity).
    rewrite forallb_forall in Hb. specialize (Hb i). rewrite <- list_elem_of_In in Hb.
    by apply bool_decide_eq_true in Hb. }
  rewrite Forall_forall in Hall. specialize (Hall (Z.to_nat c)). rewrite Z2Nat.id in Hall by lia.
  apply Hall, elem_of_seq. lia.
Qed.

(** ** The characters before the digits *)

Section text.
Context (m : cmem) (s : Z) (l : list Z) (Hs : str_at m s l).

Lemma load_index k : (k ≤ length l)%nat → load m (s + Z.of_nat k) = Done (default 0 (l !! k)).
Proof using Hs.
  intros Hk. rewrite (load_str _ _ _ Hs) by lia. unfold byte_at. by rewrite Nat2Z.id.
Qed.

Lemma index_eqb k c : c ≠ 0 → (default 0 (l !! k) =? c) = bool_decide (l !! k = Some c).
Proof using.
  intros Hc. destruct (l !! k) as [b|].
  - change (default 0 (Some b)) with b. case_bool_decide as Hb; [|apply Z.eqb_neq; congruence].
    injection Hb as ->. apply Z.eqb_refl.
  - by apply Z.eqb_neq.
Qed.

End text.

Lemma spaces_le l : (spaces l ≤ length l)%nat.
Proof. unfold spaces. induction l as [|c l IH]; simpl; [lia|]. destruct (isspace c); lia. Qed.

Lemma space_loop_spec m l s fuel :
  str_at m s l → (length l < fuel)%nat →
  space_loop fuel m s = Done (default 0 (l !! spaces l), s + Z.of_nat (spaces l) + 1).
Proof.
  revert s fuel. induction l as [|c l IH]; intros s [|fuel] Hs Hf; try (simpl in Hf; lia);
    cbn [space_loop]; str_step Hs.
  - change (isspace 0) with false. cbn [spaces span]. simpl. do 2 f_equal. lia.
  - unfold spaces. cbn [span]. destruct (isspace c); [|simpl; do 2 f_equal; lia].
    rewrite IH by (done || simpl in Hf; lia). fold (spaces l). cbn [lookup list_lookup].
    do 2 f_equal. lia.
Qed.

Lemma number_start_spec m s l base :
  str_at m s l →
  let '(neg, b, k) := header base l in
  (k ≤ length l)%nat ∧
  number_start m s base = Done (neg, b, default 0 (l !! k), s + Z.of_nat k + 1).
Proof.
  intros Hs. unfold number_start, header. cbv zeta. pose proof (str_fuel _ _ _ Hs).
  rewrite (space_loop_spec m l) by (done || unfold mem_fuel; lia). cbn [mbind outcome_bind].
  pose proof (spaces_le l) as Hk. set (k := spaces l) in *. clearbody k.
  rewrite !index_eqb by done.
  assert (∀ k c, (k ≤ length l)%nat → l !! k = Some c → (S k ≤ length l)%nat) as Hlt.
  { intros k' c' _ Hc'. by apply lookup_lt_Some in Hc'. }
  set (k1 := if decide (l !! k = Some 45 ∨ l !! k = Some 43) then S k else k).
  assert (k1 ≤ length l)%nat as Hk1.
  { unfold k1. case_decide as Hd; [|done]. destruct Hd; by eapply Hlt. }
  assert ((if bool_decide (l !! k = Some 45) || bool_decide (l !! k = Some 43)
           then load m (s + Z.of_nat k + 1) ≫= (λ c, Done (c, s + Z.of_nat k + 1 + 1))
           else Done (default 0 (l !! k), s + Z.of_nat k + 1))
          = Done (default 0 (l !! k1), s + Z.of_nat k1 + 1)) as ->.
  { unfold k1 in *. case_decide as Hd.
    - replace (bool_decide _ || bool_decide _) with true
        by (symmetry; apply orb_true_iff; rewrite !bool_decide_eq_true; done).
      replace (s + Z.of_nat k + 1) with (s + Z.of_nat (S k)) by lia.
      by rewrite (load_index m s l Hs (S k)) by done.
    - rewrite !bool_decide_eq_false_2 by tauto. done. }
  cbn [mbind outcome_bind]. rewrite index_eqb by done. clearbody k1.
  set (b16 := (base =? 0) || (base =? 16)).
  set (hex := bool_decide (l !! k1 = Some 48 ∧ (l !! S k1 = Some 120 ∨ l !! S k1 = Some 88))).
  assert ((if b16 && bool_decide (l !! k1 = Some 48)
           then load m (s + Z.of_nat k1 + 1) ≫= (λ x, if (x =? 120) || (x =? 88)
             then load m (s + Z.of_nat k1 + 1 + 1) ≫= (λ c, Done (c, s + Z.of_nat k1 + 1 + 2, 16))
             else Done (default 0 (l !! k1), s + Z.of_nat k1 + 1, base))
           else Done (default 0 (l !! k1), s + Z.of_nat k1 + 1, base))
          = Done (if b16 && hex then (default 0 (l !! S (S k1)), s + Z.of_nat (S (S k1)) + 1, 16)
                  else (default 0 (l !! k1), s + Z.of_nat k1 + 1, base)) ∧
          (hex = true → S (S k1) ≤ length l)%nat) as [Hhex Hlen].
  { unfold hex. destruct (decide (l !! k1 = Some 48)) as [H48|H48].
    2: { rewrite !bool_decide_eq_false_2, !andb_false_r by tauto. done. }
    rewrite (bool_decide_eq_true_2 (l !! k1 = Some 48)) by done. rewrite andb_true_r.
    replace (s + Z.of_nat k1 + 1) with (s + Z.of_nat (S k1)) by lia.
    rewrite (load_index m s l Hs (S k1)) by by eapply Hlt. cbn [mbind outcome_bind].
    rewrite !index_eqb by done.
    destruct (decide (l !! S k1 = Some 120 ∨ l !! S k1 = Some 88)) as [Hx|Hx].
    - replace (bool_decide _ || bool_decide _) with true
        by (symmetry; apply orb_true_iff; rewrite !bool_decide_eq_true; done).
      rewrite (bool_decide_eq_true_2 (_ ∧ _)) by done. rewrite andb_true_r.
      assert (S (S k1) ≤ length l)%nat as Hl2 by (destruct Hx as [Hx|Hx]; by apply lookup_lt_Some in Hx).
      replace (s + Z.of_nat (S k1) + 1) with (s + Z.of_nat (S (S k1))) by lia.
      rewrite (load_index m s l Hs (S (S k1))) by done. split; [|done].
      destruct b16; [|do 2 f_equal; lia]. cbn [mbind outcome_bind]. do 3 f_equal. lia.
    - rewrite !bool_decide_eq_false_2 by tauto. rewrite andb_false_r. split; [|done]. by destruct b16. }
  rewrite Hhex. cbn [mbind outcome_bind]. destruct (b16 && hex) eqn:Hbh.
  - apply andb_true_iff in Hbh as [_ Hh]. split; [by apply Hlen|]. done.
  - split; [done|]. rewrite index_eqb by done. do 4 f_equal.
    destruct (base =? 0); [|done]. by case_bool_decide; case_decide.
Qed.

(** ** The digits *)

Lemma digits_value base l : Forall (λ d, 0 ≤ d < base) (digits base l).
Proof.
  induction l as [|c l IH]; simpl; [done|]. destruct (digit_value c) as [d|] eqn:Hd; [|done].
  destruct (Z.ltb_spec d base); [|done]. constructor; [|done].
  unfold digit_value in Hd. repeat case_decide; simplify_eq; lia.
Qed.

(** Appending digits only increases the number. *)
Lemma foldl_number_ge base ds v :
  1 ≤ base → 0 ≤ v → Forall (λ d, 0 ≤ d < base) ds → v ≤ foldl (λ v d, v * base + d) v ds.
Proof.
  intros Hb Hv Hds. revert v Hv. induction Hds as [|d ds Hd Hds IH]; intros v Hv; simpl; [lia|].
  etrans; [|apply IH; nia]. nia.
Qed.

(** The test against the cut-off is the test of the next value. *)
Lemma cutoff_test base L acc d :
  0 < base → 0 ≤ d < base → 0 ≤ L →
  (acc >? L / base) || ((acc =? L / base) && (d >? L mod base)) = (acc * base + d >? L).
Proof.
  intros Hb Hd HL. pose proof (Z.div_mod L base ltac:(lia)) as He.
  pose proof (Z.mod_pos_bound L base Hb). set (q := L / base) in *. set (r := L mod base) in *.
  clearbody q r. destruct (Z.gtb_spec (acc * base + d) L), (Z.gtb_spec acc q), (Z.eqb_spec acc q),
    (Z.gtb_spec d r); simpl; try done; nia.
Qed.

Lemma load_first_byte m s l : str_at m s l → load m s = Done (byte_at l 0).
Proof. intros Hs. pose proof (load_str _ _ _ Hs 0) as Hl. rewrite Z.add_0_r in Hl. apply Hl. lia. Qed.

(** What the loop returns, with the limit [L]: the exact value of the digits
    if it is within the limit, and the mark of an overflow otherwise. *)
Lemma digits_loop_spec m base L l s fuel acc any :
  str_at m s l → 2 ≤ base ≤ 36 → 0 ≤ L < 2 ^ 64 → 0 ≤ acc ≤ L → any = 0 ∨ any = 1 ∨ any = -1 →
  (length l < fuel)%nat →
  let ds := digits base l in
  let v := foldl (λ v d, v * base + d) acc ds in
  ∃ acc' any', digits_loop fuel m base (L / base) (L mod base) (s + 1) (byte_at l 0) acc any
    = Done (acc', any', s + Z.of_nat (length ds) + 1) ∧
    (any = -1 → any' = -1) ∧
    (any ≠ -1 → if v <=? L then acc' = v ∧ any' = (if decide (ds = []) then any else 1)
                else any' = -1).
Proof.
  intros Hs Hb HL. revert s fuel acc any Hs. induction l as [|c l IH];
    intros s [|fuel] acc any Hs Hacc Hany Hf; try (simpl in Hf; lia).
  { exists acc, any. split; [simpl; do 2 f_equal; lia|]. split; [done|]. intros _. simpl.
    by rewrite (proj2 (Z.leb_le acc L)) by lia. }
  apply str_at_cons in Hs as (_ & Hc & Hs). cbn [digits_loop].
  change (byte_at (c :: l) 0) with c. rewrite char_digit_value by lia. cbn [digits].
  pose proof (digits_value base (c :: l)) as Hds. cbn [digits] in Hds.
  assert (∀ an : Z, Done (acc, an, s + 1) = Done (acc, an, s + Z.of_nat (length (@nil Z)) + 1)) as Hstop
    by (intros; simpl; do 2 f_equal; lia).
  destruct (digit_value c) as [d|].
  2: { exists acc, any. split; [apply Hstop|]. split; [done|]. intros _. simpl.
       by rewrite (proj2 (Z.leb_le acc L)) by lia. }
  rewrite Z.geb_leb, Z.leb_antisym. destruct (Z.ltb_spec d base) as [Hd|Hd]; simpl negb; cbv iota.
  2: { exists acc, any. split; [apply Hstop|]. split; [done|]. intros _. simpl.
       by rewrite (proj2 (Z.leb_le acc L)) by lia. }
  apply Forall_cons in Hds as [Hd0 Hds]. rewrite <- orb_assoc, cutoff_test by lia.
  destruct (Z.ltb_spec any 0) as [Hneg|Hpos]; simpl orb; cbv iota.
  - rewrite (load_first_byte m (s + 1) l Hs). cbn [mbind outcome_bind].
    destruct (IH (s + 1) fuel acc (-1) Hs Hacc) as (acc' & any' & Hr & Ha & _);
      [by right; right|simpl in Hf; lia|]. exists acc', any'. rewrite Hr. simpl.
    split; [do 2 f_equal; lia|]. split; [intros _; by apply Ha|lia].
  - set (v1 := acc * base + d). assert (0 ≤ v1) as Hv1 by nia.
    pose proof (foldl_number_ge base (digits base l) v1 ltac:(lia) Hv1 (digits_value base l)) as Hge.
    destruct (Z.gtb_spec v1 L) as [Hov|Hok].
    + rewrite (load_first_byte m (s + 1) l Hs). cbn [mbind outcome_bind].
      destruct (IH (s + 1) fuel acc (-1) Hs Hacc) as (acc' & any' & Hr & Ha & _);
        [by right; right|simpl in Hf; lia|]. exists acc', any'. rewrite Hr. simpl. fold v1.
      split; [do 2 f_equal; lia|]. split; [intros _; by apply Ha|]. intros _.
      rewrite (proj2 (Z.leb_gt _ L)) by lia. by apply Ha.
    + rewrite (load_first_byte m (s + 1) l Hs). cbn [mbind outcome_bind].
      rewrite wmul_small, wadd_small by (unfold is_usize; nia). fold v1.
      destruct (IH (s + 1) fuel v1 1 Hs) as (acc' & any' & Hr & _ & Ha);
        [lia|by right; left|simpl in Hf; lia|]. exists acc', any'. rewrite Hr. simpl. fold v1.
      split; [do 2 f_equal; lia|]. split; [lia|]. intros _. specialize (Ha ltac:(lia)).
      destruct (_ <=? L); [|done]. destruct Ha as [-> ->]. split; [done|]. by case_decide.
Qed.

(** ** Theorems *)

Lemma header_base base l neg b k :
  bad_base base = false → header base l = (neg, b, k) → 2 ≤ b ≤ 36.
Proof.
  unfold bad_base, header. intros Hb. cbv zeta.
  destruct (((base =? 0) || (base =? 16)) && _); intros [= <- <- <-].
  - simpl. lia.
  - destruct (Z.eqb_spec base 0); [case_decide; lia|].
    apply orb_false_iff in Hb as [Hb Hb36]. apply orb_false_iff in Hb as [Hb0 Hb1]. lia.
Qed.

(** The digits of a text, read from where they start. *)
Lemma number_loop m s l base L neg b k :
  str_at m s l → bad_base base = false → header base l = (neg, b, k) → 0 ≤ L < 2 ^ 64 →
  (k ≤ length l)%nat →
  let ds := digits b (drop k l) in
  ∃ acc any, digits_loop (mem_fuel m) m b (L / b) (L mod b) (s + Z.of_nat k + 1) (default 0 (l !! k)) 0 0
    = Done (acc, any, s + Z.of_nat (k + length ds) + 1) ∧
    if number b ds <=? L then acc = number b ds ∧ any = (if decide (ds = []) then 0 else 1)
    else any = -1.
Proof.
  intros Hs Hb Hh HL Hk. pose proof (header_base _ _ _ _ _ Hb Hh) as Hbr.
  pose proof (str_at_drop _ _ _ Hs (Z.of_nat k) ltac:(lia)) as Hd. rewrite Nat2Z.id in Hd.
  pose proof (str_fuel _ _ _ Hs). cbv zeta.
  destruct (digits_loop_spec m b L (drop k l) (s + Z.of_nat k) (mem_fuel m) 0 0) as
    (acc & any & Hr & _ & Ha); [done|done|done|lia|by left|rewrite length_drop; unfold mem_fuel; lia|].
  unfold byte_at in Hr. rewrite lookup_drop in Hr. change (Z.to_nat 0) with 0%nat in Hr.
  rewrite Nat.add_0_r in Hr. exists acc, any. rewrite Hr. split; [do 2 f_equal; lia|]. by apply Ha.
Qed.

Lemma to_isize_neg v : 0 ≤ v ≤ 2 ^ 63 → to_isize (wsub 0 v) = - v.
Proof.
  intros Hv. unfold to_isize, wsub, wrap. rewrite Zmod_mod. destruct (Z.eq_dec v 0) as [->|]; [done|].
  replace ((0 - v) mod 2 ^ 64) with (2 ^ 64 - v) by (apply (Z.mod_unique _ _ (-1)); lia).
  rewrite (proj2 (Z.ltb_ge _ _)) by lia. lia.
Qed.

Lemma to_isize_pos v : 0 ≤ v < 2 ^ 63 → to_isize v = v.
Proof. intros Hv. unfold to_isize. rewrite wrap_small by lia. by rewrite (proj2 (Z.ltb_lt _ _)) by lia. Qed.

Lemma number_pos b l : 2 ≤ b → 0 ≤ number b (digits b l).
Proof. intros Hb. by apply foldl_number_ge; [lia|lia|apply digits_value]. Qed.

(** What the signed and the unsigned functions return, from the sign, the
    exact value of the digits, their number and where they start. *)
Definition signed_result (neg : bool) (v s : Z) (k : nat) (ds : list Z) : Z * Z * option errno :=
  let v := if neg then - v else v in
  (clamp LONG_MIN LONG_MAX v, if decide (ds = []) then s else s + Z.of_nat (k + length ds),
   cut LONG_MIN LONG_MAX v).

Definition unsigned_result (neg : bool) (v s : Z) (k : nat) (ds : list Z) : Z * Z * option errno :=
  (if v <=? ULONG_MAX then wrap 64 (if neg then - v else v) else ULONG_MAX,
   if decide (ds = []) then s else s + Z.of_nat (k + length ds), cut 0 ULONG_MAX v).

(** The end of the signed functions, after the loop. *)
Lemma signed_end neg v s k ds acc any (L := if neg : bool then 2 ^ 63 else LONG_MAX) :
  0 ≤ v → (ds = [] → v = 0) →
  (if v <=? L then acc = v ∧ any = (if decide (ds = []) then 0 else 1) else any = -1) →
  (let '(acc, err) :=
     if any <? 0 then (if neg then LONG_MIN else LONG_MAX, Some ERANGE)
     else (if neg then 0 ⊖ acc else acc, None) in
   (to_isize acc, if negb (any =? 0) then s + Z.of_nat (k + length ds) + 1 - 1 else s, err))
  = signed_result neg v s k ds.
Proof.
  intros Hv Hnil Ha. unfold signed_result, clamp, cut. destruct (Z.leb_spec v L) as [Hle|Hgt].
  - destruct Ha as [-> ->]. assert (((if decide (ds = []) then 0 else 1) <? 0) = false) as ->
      by (by case_decide).
    assert (((if neg then - v else v) <? LONG_MIN) = false) as ->
      by (unfold LONG_MIN; destruct neg; apply Z.ltb_ge; unfold L in *; lia).
    assert (((if neg then - v else v) >? LONG_MAX) = false) as ->
      by (rewrite Z.gtb_ltb; apply Z.ltb_ge; unfold LONG_MAX in *; destruct neg; unfold L in *; lia).
    simpl orb. cbv iota. f_equal. f_equal.
    + unfold LONG_MIN, LONG_MAX in *. destruct neg; unfold L in *.
      * rewrite to_isize_neg by lia. lia.
      * rewrite to_isize_pos by lia. lia.
    + case_decide; simpl; lia.
  - subst any. simpl. case_decide as Hd; [specialize (Hnil Hd); unfold LONG_MAX in L; destruct neg; unfold L in *; lia|].
    unfold LONG_MIN, LONG_MAX in *. destruct neg; unfold L in *.
    + replace (- v <? - 2 ^ 63) with true by lia. simpl. f_equal. f_equal; [|lia].
      change (to_isize (- 2 ^ 63)) with (- 2 ^ 63). lia.
    + replace (v >? 2 ^ 63 - 1) with true by lia. rewrite orb_true_r. f_equal. f_equal; [|lia].
      change (to_isize (2 ^ 63 - 1)) with (2 ^ 63 - 1). lia.
Qed.

Lemma strtol_spec m s l base :
  str_at m s l → bad_base base = false →
  let '(neg, b, k) := header base l in
  let ds := digits b (drop k l) in
  strtol m s base = Done (signed_result neg (number b ds) s k ds).
Proof.
  intros Hs Hb. unfold strtol. rewrite Hb. pose proof (number_start_spec m s l base Hs) as Hn.
  destruct (header base l) as [[neg b] k] eqn:Hh. destruct Hn as [Hk ->]. cbn [mbind outcome_bind].
  pose proof (header_base _ _ _ _ _ Hb Hh) as Hbr. cbv zeta.
  change (wsub LONG_MAX (wrap 64 (LONG_MIN + LONG_MAX))) with (2 ^ 63).
  destruct (number_loop m s l base (if neg then 2 ^ 63 else LONG_MAX) neg b k Hs Hb Hh) as
    (acc & any & Hr & Ha); [destruct neg; unfold LONG_MAX; lia|done|].
  rewrite Hr. cbn [mbind outcome_bind].
  rewrite <- (signed_end neg _ s k _ acc any); [by destruct (any <? 0)|..|done].
  - apply number_pos. lia.
  - by intros ->.
Qed.

Lemma strtoll_strtol m s base : strtoll m s base = strtol m s base.
Proof. done. Qed.

Lemma strtoul_spec m s l base :
  str_at m s l → bad_base base = false →
  let '(neg, b, k) := header base l in
  let ds := digits b (drop k l) in
  strtoul m s base = Done (unsigned_result neg (number b ds) s k ds).
Proof.
  intros Hs Hb. unfold strtoul. rewrite Hb. pose proof (number_start_spec m s l base Hs) as Hn.
  destruct (header base l) as [[neg b] k] eqn:Hh. destruct Hn as [Hk ->]. cbn [mbind outcome_bind].
  pose proof (header_base _ _ _ _ _ Hb Hh) as Hbr. cbv zeta.
  destruct (number_loop m s l base ULONG_MAX neg b k Hs Hb Hh) as (acc & any & Hr & Ha);
    [unfold ULONG_MAX; lia|done|].
  rewrite Hr. cbn [mbind outcome_bind]. unfold unsigned_result, cut.
  set (ds := digits b (drop k l)) in *. pose proof (number_pos b (drop k l) ltac:(lia)) as Hpos.
  fold ds in Hpos. rewrite (proj2 (Z.ltb_ge (number b ds) 0)) by lia. simpl orb.
  rewrite (Z.gtb_ltb (number b ds)), (Z.ltb_antisym (number b ds)).
  destruct (Z.leb_spec (number b ds) ULONG_MAX) as [Hle|Hgt].
  - destruct Ha as [-> ->]. simpl negb. cbv iota. unfold ULONG_MAX in *.
    assert (((if decide (ds = []) then 0 else 1) <? 0) = false) as -> by (by case_decide).
    do 2 f_equal. f_equal.
    + destruct neg; [done|]. by rewrite wrap_small by lia.
    + case_decide; simpl; lia.
  - subst any. simpl. case_decide as Hd; [|do 3 f_equal; lia].
    rewrite Hd in Hgt. unfold ULONG_MAX in Hgt. change (number b []) with 0 in Hgt. lia.
Qed.

(** C29: the conversions read a number of any length exactly: they skip spaces,
    take the sign and the prefix of the base, and give the value of the digits
    that follow, cut to the range of the type with [ERANGE] exactly when it
    lies outside, and the end of the digits, or the start of the text when
    there are none; a base that is none gives [EINVAL]. *)
Theorem strto_exact m s l base :
  str_at m s l →
  if bad_base base then
    strtol m s base = Done (0, s, Some EINVAL) ∧ strtoul m s base = Done (0, s, Some EINVAL)
  else
    let '(neg, b, k) := header base l in
    let ds := digits b (drop k l) in
    strtol m s base = Done (signed_result neg (number b ds) s k ds) ∧
    strtoul m s base = Done (unsigned_result neg (number b ds) s k ds).
Proof.
  intros Hs. destruct (bad_base base) eqn:Hb.
  - unfold strtol, strtoul. by rewrite Hb.
  - pose proof (strtol_spec m s l base Hs Hb) as H1. pose proof (strtoul_spec m s l base Hs Hb) as H2.
    by destruct (header base l) as [[neg b] k].
Qed.

(** [-0x7fz] in a text with base 0. *)
Lemma strto_exact_witness :
  strtol (write_bytes ∅ 100 [32; 45; 48; 120; 55; 102; 122; 0]) 100 0 = Done (-127, 106, None).
Proof.
  assert (Forall (λ b, 0 < b < 256) [32; 45; 48; 120; 55; 102; 122]) as Hl by (repeat constructor).
  destruct (strto_exact (write_bytes ∅ 100 [32; 45; 48; 120; 55; 102; 122; 0]) 100
    [32; 45; 48; 120; 55; 102; 122] 0
    (str_in_block 100 [] [32; 45; 48; 120; 55; 102; 122] [] ltac:(done) Hl)) as [H1 _].
  exact H1.
Defined.
