(* ===== verification/CPrintf.v ===== *)
(** * Formatted output of the C library ([ulib/c_libax/src/printf.c])

    The formatter behind [printf], [snprintf] and their relatives, in the
    configuration without floating point ([AX_CONFIG_FP_SIMD] undefined),
    where [%f] and the like are ordinary characters.  It runs on the memory
    of [CString.v]; what the C standard leaves undefined (an access outside
    the memory, an argument of another type than the one asked for, a signed
    overflow) is a [Panic]. *)

From stdpp Require Import base numbers list gmap.
From S2P Require Import Prelude CString.

Local Open Scope Z_scope.
Local Open Scope word_scope.

(** ** Configuration and flags *)

Definition PRINTF_INTEGER_BUFFER_SIZE : Z := 32.
Definition INT_MAX : Z := 2 ^ 31 - 1.

Definition FLAGS_ZEROPAD : Z := 1 .<< 0.
Definition FLAGS_LEFT : Z := 1 .<< 1.
Definition FLAGS_PLUS : Z := 1 .<< 2.
Definition FLAGS_SPACE : Z := 1 .<< 3.
Definition FLAGS_HASH : Z := 1 .<< 4.
Definition FLAGS_UPPERCASE : Z := 1 .<< 5.
Definition FLAGS_CHAR : Z := 1 .<< 6.
Definition FLAGS_SHORT : Z := 1 .<< 7.
Definition FLAGS_LONG : Z := 1 .<< 9.
Definition FLAGS_LONG_LONG : Z := 1 .<< 10.
Definition FLAGS_PRECISION : Z := 1 .<< 11.
Definition FLAGS_POINTER : Z := 1 .<< 13.
Definition FLAGS_SIGNED : Z := 1 .<< 14.

(** [flags & f] as a condition, [flags |= f] and [flags &= ~f]. *)
Definition has (flags f : Z) : bool := negb (flags .& f =? 0).
Definition set_flag (flags f : Z) : Z := flags .| f.
Definition clear_flag (flags f : Z) : Z := Z.ldiff flags f.

(** The value of the low [n] bits as a signed integer. *)
Definition sext (n z : Z) : Z :=
  let u := wrap n z in if u <? 2 ^ (n - 1) then u else u - 2 ^ n.

(** [ABS_FOR_PRINTING]; the negation is one of [long long]. *)
Definition ABS_FOR_PRINTING (x : Z) : outcome Z :=
  if x >? 0 then Done x
  else if x =? - 2 ^ 63 then Panic else Done (- x).

(** ** Output *)

(** [output_gadget_t]; [sent] are the characters given to [function]. *)
Record gadget := {
  function : bool;
  sent : list Z;
  buffer : Z;
  pos : Z;
  max_chars : Z;
}.

Abbreviation pstate := (cmem * gadget)%type.

Definition putchar_via_gadget (c : Z) (st : pstate) : outcome pstate :=
  let '(m, g) := st in
  let write_pos := pos g in
  let g := {| function := function g; sent := sent g; buffer := buffer g;
              pos := wrap 32 (pos g + 1); max_chars := max_chars g |} in
  if write_pos >=? max_chars g then Done (m, g)
  else if function g then
    Done (m, {| function := true; sent := sent g ++ [wrap 8 c]; buffer := buffer g;
                pos := pos g; max_chars := max_chars g |})
  else m ← store m (buffer g + write_pos) c; Done (m, g).

Definition append_termination_with_gadget (st : pstate) : outcome pstate :=
  let '(m, g) := st in
  if function g || (max_chars g =? 0) then Done (m, g)
  else if buffer g =? NULL then Done (m, g)
  else
    let null_char_pos := if pos g <? max_chars g then pos g else max_chars g - 1 in
    m ← store m (buffer g + null_char_pos) 0; Done (m, g).

Definition discarding_gadget : gadget :=
  {| function := false; sent := []; buffer := NULL; pos := 0; max_chars := 0 |}.

Definition buffer_gadget (buffer buffer_size : Z) : gadget :=
  let usable_buffer_size := if buffer_size >? INT_MAX then INT_MAX else wrap 32 buffer_size in
  if negb (buffer =? NULL) then
    {| function := false; sent := []; buffer := buffer; pos := 0; max_chars := usable_buffer_size |}
  else discarding_gadget.

Definition function_gadget : gadget :=
  {| function := true; sent := []; buffer := NULL; pos := 0; max_chars := INT_MAX |}.

(** ** Helpers *)

Fixpoint strnlen_s_loop (fuel : nat) (m : cmem) (s maxsize : Z) : outcome Z :=
  match fuel with
  | O => Panic
  | S fuel =>
      c ← load m s;
      if (c =? 0) || (maxsize =? 0) then Done s else strnlen_s_loop fuel m (s + 1) (maxsize - 1)
  end.
Definition strnlen_s_ (m : cmem) (str maxsize : Z) : outcome Z :=
  s ← strnlen_s_loop (mem_fuel m) m str maxsize; Done (wrap 32 (s - str)).

Definition is_digit_ (ch : Z) : bool := (48 <=? ch) && (ch <=? 57).

Fixpoint atou_loop (fuel : nat) (m : cmem) (str i : Z) : outcome (Z * Z) :=
  match fuel with
  | O => Panic
  | S fuel =>
      c ← load m str;
      if is_digit_ c then atou_loop fuel m (str + 1) (wrap 32 (i * 10 + (c - 48)))
      else Done (i, str)
  end.
Definition atou_ (m : cmem) (str : Z) : outcome (Z * Z) := atou_loop (mem_fuel m) m str 0.

(** Spaces: [n] of them, one per round of the loops with a counter. *)
Fixpoint pad_loop (n : nat) (st : pstate) : outcome pstate :=
  match n with
  | O => Done st
  | S n => st ← putchar_via_gadget 32 st; pad_loop n st
  end.

(** The characters of a list. *)
Fixpoint puts (cs : list Z) (st : pstate) : outcome pstate :=
  match cs with
  | [] => Done st
  | c :: cs => st ← putchar_via_gadget c st; puts cs st
  end.

(** [while (output->pos - start_pos < width)]. *)
Fixpoint pad_to_width (fuel : nat) (start_pos width : Z) (st : pstate) : outcome pstate :=
  match fuel with
  | O => Panic
  | S fuel =>
      if wrap 32 (pos st.2 - start_pos) <? width then
        st ← putchar_via_gadget 32 st; pad_to_width fuel start_pos width st
      else Done st
  end.

(** [buf] is the list of the [len] characters written into the buffer. *)
Definition out_rev_ (buf : list Z) (width flags : Z) (st : pstate) : outcome pstate :=
  let start_pos := pos st.2 in
  st ← (if negb (has flags FLAGS_LEFT) && negb (has flags FLAGS_ZEROPAD)
        then pad_loop (Z.to_nat (width - Z.of_nat (length buf))) st else Done st);
  st ← puts (reverse buf) st;
  if has flags FLAGS_LEFT then pad_to_width (S (Z.to_nat width)) start_pos width st else Done st.

(** ** Integers *)

Abbreviation blen buf := (Z.of_nat (length buf)).

(** [buf[len++] = c] if there is room. *)
Definition push (c : Z) (buf : list Z) : list Z :=
  if blen buf <? PRINTF_INTEGER_BUFFER_SIZE then buf ++ [c] else buf.

(** Zeros while [len < limit] and there is room. *)
Definition zeros_to (limit : Z) (buf : list Z) : list Z :=
  buf ++ replicate (Z.to_nat (Z.min limit PRINTF_INTEGER_BUFFER_SIZE - blen buf)) 48.

(** [len--]. *)
Definition pop (buf : list Z) : list Z := take (pred (length buf)) buf.

(** Padding with zeros: the buffer, the width left and the flags. *)
Definition pad_integer (buf : list Z) (negative : bool) (base precision width flags : Z)
    : list Z * Z * Z :=
  let unpadded_len := blen buf in
  let '(buf, width) :=
    if negb (has flags FLAGS_LEFT) then
      let width := if negb (width =? 0) && has flags FLAGS_ZEROPAD &&
                      (negative || has flags (FLAGS_PLUS .| FLAGS_SPACE))
                   then width - 1 else width in
      (if has flags FLAGS_ZEROPAD then zeros_to width buf else buf, width)
    else (buf, width) in
  let buf := zeros_to precision buf in
  let flags := if (base =? 8) && (blen buf >? unpadded_len) then clear_flag flags FLAGS_HASH else flags in
  (buf, width, flags).

(** The prefix of the alternative form, in place of padding zeros. *)
Definition add_prefix (unpadded_len : Z) (buf : list Z) (base precision width flags : Z) : list Z :=
  if has flags (FLAGS_HASH .| FLAGS_POINTER) then
    let buf :=
      if negb (has flags FLAGS_PRECISION) && negb (blen buf =? 0) &&
         ((blen buf =? precision) || (blen buf =? width)) then
        let buf := if unpadded_len <? blen buf then pop buf else buf in
        if negb (blen buf =? 0) && ((base =? 16) || (base =? 2)) && (unpadded_len <? blen buf)
        then pop buf else buf
      else buf in
    let buf :=
      if (base =? 16) && negb (has flags FLAGS_UPPERCASE) then push 120 buf
      else if (base =? 16) && has flags FLAGS_UPPERCASE then push 88 buf
      else if base =? 2 then push 98 buf
      else buf in
    push 48 buf
  else buf.

Definition add_sign (negative : bool) (flags : Z) (buf : list Z) : list Z :=
  if negative then push 45 buf
  else if has flags FLAGS_PLUS then push 43 buf
  else if has flags FLAGS_SPACE then push 32 buf
  else buf.

Definition print_integer_finalization (buf : list Z) (negative : bool)
    (base precision width flags : Z) (st : pstate) : outcome pstate :=
  let unpadded_len := blen buf in
  let '(buf, width, flags) := pad_integer buf negative base precision width flags in
  let buf := add_prefix unpadded_len buf base precision width flags in
  out_rev_ (add_sign negative flags buf) width flags st.

Definition digit_char (flags digit : Z) : Z :=
  if digit <? 10 then 48 + digit
  else (if has flags FLAGS_UPPERCASE then 65 else 97) + digit - 10.

(** The [do]-loop; it adds a digit in every round and stops when the buffer
    is full. *)
Fixpoint digits_rev (fuel : nat) (value base flags : Z) (buf : list Z) : list Z :=
  match fuel with
  | O => buf
  | S fuel =>
      let digit := value mod base in
      let buf := buf ++ [digit_char flags digit] in
      let value := value / base in
      if negb (value =? 0) && (blen buf <? PRINTF_INTEGER_BUFFER_SIZE)
      then digits_rev fuel value base flags buf else buf
  end.

Definition print_integer (value : Z) (negative : bool) (base precision width flags : Z)
    (st : pstate) : outcome pstate :=
  let '(buf, flags) :=
    if value =? 0 then
      if negb (has flags FLAGS_PRECISION) then ([48], clear_flag flags FLAGS_HASH)
      else if base =? 16 then ([], clear_flag flags FLAGS_HASH)
      else ([], flags)
    else (digits_rev (Z.to_nat PRINTF_INTEGER_BUFFER_SIZE) value base flags [], flags) in
  print_integer_finalization buf negative base precision width flags st.

(** ** Arguments *)

(** What the caller passes after promotion: an [int] or [unsigned int], a
    [long] or [long long] of either sign, or a pointer. *)
Inductive va_value := VaInt (z : Z) | VaLong (z : Z) | VaPtr (p : Z).

Definition va_int (args : list va_value) : outcome (Z * list va_value) :=
  match args with VaInt z :: args => Done (sext 32 z, args) | _ => Panic end.
Definition va_uint (args : list va_value) : outcome (Z * list va_value) :=
  match args with VaInt z :: args => Done (wrap 32 z, args) | _ => Panic end.
Definition va_long (args : list va_value) : outcome (Z * list va_value) :=
  match args with VaLong z :: args => Done (sext 64 z, args) | _ => Panic end.
Definition va_ulong (args : list va_value) : outcome (Z * list va_value) :=
  match args with VaLong z :: args => Done (wrap 64 z, args) | _ => Panic end.
Definition va_ptr (args : list va_value) : outcome (Z * list va_value) :=
  match args with VaPtr p :: args => Done (p, args) | _ => Panic end.

(** ** The format *)

Fixpoint parse_flags_loop (fuel : nat) (m : cmem) (format flags : Z) : outcome (Z * Z) :=
  match fuel with
  | O => Panic
  | S fuel =>
      c ← load m format;
      if c =? 48 then parse_flags_loop fuel m (format + 1) (set_flag flags FLAGS_ZEROPAD)
      else if c =? 45 then parse_flags_loop fuel m (format + 1) (set_flag flags FLAGS_LEFT)
      else if c =? 43 then parse_flags_loop fuel m (format + 1) (set_flag flags FLAGS_PLUS)
      else if c =? 32 then parse_flags_loop fuel m (format + 1) (set_flag flags FLAGS_SPACE)
      else if c =? 35 then parse_flags_loop fuel m (format + 1) (set_flag flags FLAGS_HASH)
      else Done (flags, format)
  end.
Definition parse_flags (m : cmem) (format : Z) : outcome (Z * Z) :=
  parse_flags_loop (mem_fuel m) m format 0.

(** [ADVANCE_IN_FORMAT_STRING]: [None] when the function returns. *)
Definition advance {T} (m : cmem) (format : Z) (k : Z → outcome (option T)) : outcome (option T) :=
  c ← load m (format + 1); if c =? 0 then Done None else k (format + 1).

(** A specifier being parsed: flags, width, precision, the format after it
    and the arguments left. *)
Record fspec := {
  f_flags : Z;
  f_width : Z;
  f_precision : Z;
  f_format : Z;
  f_args : list va_value;
}.

Definition parse_width (m : cmem) (flags format : Z) (args : list va_value)
    : outcome (option fspec) :=
  c ← load m format;
  if is_digit_ c then
    '(width, format) ← atou_ m format;
    Done (Some {| f_flags := flags; f_width := width; f_precision := 0; f_format := format; f_args := args |})
  else if c =? 42 then
    '(w, args) ← va_int args;
    '(flags, width) ← (if w <? 0 then w ← int_range (- w); Done (set_flag flags FLAGS_LEFT, w)
                       else Done (flags, w));
    advance m format (λ format,
      Done (Some {| f_flags := flags; f_width := width; f_precision := 0; f_format := format; f_args := args |}))
  else Done (Some {| f_flags := flags; f_width := 0; f_precision := 0; f_format := format; f_args := args |}).

Definition parse_precision (m : cmem) (f : fspec) : outcome (option fspec) :=
  c ← load m (f_format f);
  if c =? 46 then
    let flags := set_flag (f_flags f) FLAGS_PRECISION in
    advance m (f_format f) (λ format,
      c ← load m format;
      if is_digit_ c then
        '(precision, format) ← atou_ m format;
        Done (Some {| f_flags := flags; f_width := f_width f; f_precision := precision;
                      f_format := format; f_args := f_args f |})
      else if c =? 42 then
        '(p, args) ← va_int (f_args f);
        advance m format (λ format,
          Done (Some {| f_flags := flags; f_width := f_width f;
                        f_precision := if p >? 0 then p else 0; f_format := format; f_args := args |}))
      else Done (Some {| f_flags := flags; f_width := f_width f; f_precision := 0;
                         f_format := format; f_args := f_args f |}))
  else Done (Some f).

Definition with_flag (fl : Z) (format : Z) (f : fspec) : fspec :=
  {| f_flags := set_flag (f_flags f) fl; f_width := f_width f; f_precision := f_precision f;
     f_format := format; f_args := f_args f |}.

(** [long] is as wide as [ptrdiff_t], [intmax_t] and [size_t]. *)
Definition parse_length (m : cmem) (f : fspec) : outcome (option fspec) :=
  c ← load m (f_format f);
  let doubled (fl1 fl2 : Z) :=
    advance m (f_format f) (λ format,
      let f := with_flag fl1 format f in
      c2 ← load m format;
      if c2 =? c then advance m format (λ format, Done (Some (with_flag fl2 format f)))
      else Done (Some f)) in
  if c =? 108 then doubled FLAGS_LONG FLAGS_LONG_LONG
  else if c =? 104 then doubled FLAGS_SHORT FLAGS_CHAR
  else if (c =? 116) || (c =? 106) || (c =? 122) then
    advance m (f_format f) (λ format, Done (Some (with_flag FLAGS_LONG format f)))
  else Done (Some f).

Definition parse_spec (m : cmem) (format : Z) (args : list va_value) : outcome (option fspec) :=
  '(flags, format) ← parse_flags m format;
  o ← parse_width m flags format args;
  match o with
  | None => Done None
  | Some f =>
      o ← parse_precision m f;
      match o with None => Done None | Some f => parse_length m f end
  end.

(** ** Conversions *)

(** [d], [i], [u], [x], [X], [o] and [b]: the base and the flags. *)
Definition integer_base (c flags : Z) : Z * Z :=
  let flags := if (c =? 100) || (c =? 105) then set_flag flags FLAGS_SIGNED else flags in
  let '(base, flags) :=
    if (c =? 120) || (c =? 88) then (16, flags)
    else if c =? 111 then (8, flags)
    else if c =? 98 then (2, flags)
    else (10, clear_flag flags FLAGS_HASH) in
  let flags := if c =? 88 then set_flag flags FLAGS_UPPERCASE else flags in
  (base, if has flags FLAGS_PRECISION then clear_flag flags FLAGS_ZEROPAD else flags).

(** The argument of an integer conversion: its absolute value and sign. *)
Definition integer_arg (flags : Z) (args : list va_value) : outcome (Z * bool * list va_value) :=
  if has flags FLAGS_SIGNED then
    '(value, args) ←
      (if has flags FLAGS_LONG_LONG then va_long args
       else if has flags FLAGS_LONG then va_long args
       else
         '(v, args) ← va_int args;
         Done (if has flags FLAGS_CHAR then sext 8 v else if has flags FLAGS_SHORT then sext 16 v else v,
               args));
    abs ← ABS_FOR_PRINTING value; Done (abs, value <? 0, args)
  else
    '(value, args) ←
      (if has flags FLAGS_LONG_LONG then va_ulong args
       else if has flags FLAGS_LONG then va_ulong args
       else
         '(v, args) ← va_uint args;
         Done (if has flags FLAGS_CHAR then wrap 8 v else if has flags FLAGS_SHORT then wrap 16 v else v,
               args));
    Done (value, false, args).

Definition print_int_spec (c : Z) (f : fspec) (st : pstate) : outcome (pstate * list va_value) :=
  let '(base, flags) := integer_base c (f_flags f) in
  '(value, negative, args) ← integer_arg flags (f_args f);
  let flags := if has flags FLAGS_SIGNED then flags else clear_flag flags (FLAGS_PLUS .| FLAGS_SPACE) in
  st ← print_integer value negative base (f_precision f) (f_width f) flags st;
  Done (st, args).

Definition print_char_spec (f : fspec) (st : pstate) : outcome (pstate * list va_value) :=
  let padding := Z.to_nat (f_width f - 1) in
  st ← (if negb (has (f_flags f) FLAGS_LEFT) then pad_loop padding st else Done st);
  '(c, args) ← va_int (f_args f);
  st ← putchar_via_gadget c st;
  st ← (if has (f_flags f) FLAGS_LEFT then pad_loop padding st else Done st);
  Done (st, args).

(** The characters up to the terminating zero, at most [precision] of them if
    limited. *)
Fixpoint string_loop (fuel : nat) (limited : bool) (p precision : Z) (st : pstate) : outcome pstate :=
  match fuel with
  | O => Panic
  | S fuel =>
      c ← load st.1 p;
      if negb (c =? 0) && (negb limited || negb (precision =? 0)) then
        st ← putchar_via_gadget c st; string_loop fuel limited (p + 1) (wrap 32 (precision - 1)) st
      else Done st
  end.

Definition print_string_spec (f : fspec) (st : pstate) : outcome (pstate * list va_value) :=
  let flags := f_flags f in
  let precision := f_precision f in
  '(p, args) ← va_ptr (f_args f);
  if p =? NULL then
    st ← out_rev_ [41; 108; 108; 117; 110; 40] (f_width f) flags st; Done (st, args)
  else
    l ← strnlen_s_ st.1 p (if negb (precision =? 0) then precision else INT_MAX);
    let l := if has flags FLAGS_PRECISION then (if l <? precision then l else precision) else l in
    let padding := Z.to_nat (f_width f - l) in
    st ← (if negb (has flags FLAGS_LEFT) then pad_loop padding st else Done st);
    st ← string_loop (mem_fuel st.1) (has flags FLAGS_PRECISION) p precision st;
    st ← (if has flags FLAGS_LEFT then pad_loop padding st else Done st);
    Done (st, args).

Definition print_pointer_spec (f : fspec) (st : pstate) : outcome (pstate * list va_value) :=
  let width := 8 * 2 + 2 in
  let flags := set_flag (f_flags f) (FLAGS_ZEROPAD .| FLAGS_POINTER) in
  '(value, args) ← va_ptr (f_args f);
  st ← (if value =? NULL then out_rev_ [41; 108; 105; 110; 40] width flags st
        else print_integer value false 16 (f_precision f) width flags st);
  Done (st, args).

(** A little-endian integer of [n] bytes. *)
Fixpoint store_int (n : nat) (m : cmem) (a v : Z) : outcome cmem :=
  match n with
  | O => Done m
  | S n => m ← store m a v; store_int n m (a + 1) (Z.shiftr v 8)
  end.

Definition write_back_spec (f : fspec) (st : pstate) : outcome (pstate * list va_value) :=
  let flags := f_flags f in
  let n := if has flags FLAGS_CHAR then 1%nat else if has flags FLAGS_SHORT then 2%nat
           else if has flags FLAGS_LONG then 8%nat else if has flags FLAGS_LONG_LONG then 8%nat
           else 4%nat in
  '(p, args) ← va_ptr (f_args f);
  m ← store_int n st.1 p (pos st.2);
  Done ((m, st.2), args).

(** The letters [d], [i], [u], [x], [X], [o] and [b]. *)
Definition is_integer_spec (c : Z) : bool :=
  (c =? 100) || (c =? 105) || (c =? 117) || (c =? 120) || (c =? 88) || (c =? 111) || (c =? 98).

Definition print_spec (f : fspec) (st : pstate) : outcome (pstate * list va_value) :=
  c ← load st.1 (f_format f);
  if is_integer_spec c then print_int_spec c f st
  else if c =? 99 then print_char_spec f st
  else if c =? 115 then print_string_spec f st
  else if c =? 112 then print_pointer_spec f st
  else if c =? 110 then write_back_spec f st
  else st ← putchar_via_gadget c st; Done (st, f_args f).

(** Every round advances in the format. *)
Fixpoint format_string_loop (fuel : nat) (format : Z) (args : list va_value) (st : pstate)
    : outcome pstate :=
  match fuel with
  | O => Panic
  | S fuel =>
      c ← load st.1 format;
      if c =? 0 then Done st
      else if negb (c =? 37) then
        st ← putchar_via_gadget c st; format_string_loop fuel (format + 1) args st
      else
        o ← advance st.1 format (λ format, parse_spec st.1 format args);
        match o with
        | None => Done st
        | Some f =>
            '(st, args) ← print_spec f st;
            format_string_loop fuel (f_format f + 1) args st
        end
  end.

Definition vsnprintf_impl (format : Z) (args : list va_value) (st : pstate) : outcome (Z * pstate) :=
  st ← format_string_loop (mem_fuel st.1) format args st;
  st ← append_termination_with_gadget st;
  Done (sext 32 (pos st.2), st).

(** ** The functions of the library *)

Definition vsnprintf_ (m : cmem) (s n format : Z) (args : list va_value) : outcome (Z * cmem) :=
  '(ret, st) ← vsnprintf_impl format args (m, buffer_gadget s n); Done (ret, st.1).

Definition vsprintf_ (m : cmem) (s format : Z) (args : list va_value) : outcome (Z * cmem) :=
  vsnprintf_ m s INT_MAX format args.

(** The characters given to the function are part of the result. *)
Definition vfctprintf (m : cmem) (format : Z) (args : list va_value) : outcome (Z * list Z * cmem) :=
  '(ret, st) ← vsnprintf_impl format args (m, function_gadget); Done (ret, sent st.2, st.1).
