(* ===== verification/CPrintfSpec.v ===== *)
(** * Correctness of formatted output

    The text that a format and its arguments stand for, as the C standard
    describes it, and that the formatter of [CPrintf.v] writes exactly that
    text, or as much of it as a buffer holds. *)

From stdpp Require Import base numbers gmap list.
From S2P Require Import Prelude CString CStringSpec CStdlib CPrintf.

Local Open Scope Z_scope.
Local Open Scope word_scope.

(** ** Output as a sequence of characters *)

Lemma puts_app cs cs' st : puts (cs ++ cs') st = (st ← puts cs st; puts cs' st).
Proof.
  revert st. induction cs as [|c cs IH]; intros st; [done|]. simpl. unfold mbind, outcome_bind.
  destruct (putchar_via_gadget c st); [|done]. apply IH.
Qed.

Lemma pad_loop_puts n st : pad_loop n st = puts (replicate n 32) st.
Proof.
  revert st. induction n as [|n IH]; intros st; [done|]. simpl. unfold mbind, outcome_bind.
  destruct (putchar_via_gadget 32 st); [|done]. apply IH.
Qed.

Lemma putchar_pos c st st' : putchar_via_gadget c st = Done st' → pos st'.2 = wrap 32 (pos st.2 + 1).
Proof.
  destruct st as [m g]. unfold putchar_via_gadget. simpl. intros Hp.
  destruct (pos g >=? max_chars g); [by injection Hp as <-|].
  destruct (function g); [by injection Hp as <-|]. unfold mbind, outcome_bind in Hp.
  destruct (store _ _ _); [|done]. by injection Hp as <-.
Qed.

Lemma puts_pos cs st st' :
  puts cs st = Done st' → 0 ≤ pos st.2 < 2 ^ 32 → pos st'.2 = wrap 32 (pos st.2 + len cs).
Proof.
  revert st. induction cs as [|c cs IH]; simpl; intros st Hp Hr.
  { injection Hp as <-. unfold wrap. by rewrite Z.add_0_r, Z.mod_small. }
  unfold mbind, outcome_bind in Hp. destruct (putchar_via_gadget c st) as [st1|] eqn:Hc; [|done].
  apply putchar_pos in Hc. apply IH in Hp; rewrite Hc in *.
  - rewrite Hp. unfold wrap. rewrite Zplus_mod_idemp_l. f_equal. lia.
  - unfold wrap. apply Z.mod_pos_bound. lia.
Qed.

Lemma pad_to_width_puts width start fuel st :
  0 ≤ width < 2 ^ 32 → 0 ≤ pos st.2 < 2 ^ 32 →
  (Z.to_nat (width - wrap 32 (pos st.2 - start)) < fuel)%nat →
  pad_to_width fuel start width st
  = puts (replicate (Z.to_nat (width - wrap 32 (pos st.2 - start))) 32) st.
Proof.
  intros Hw. revert st. induction fuel as [|fuel IH]; intros st Hp Hf; [lia|]. simpl.
  set (d := wrap 32 (pos st.2 - start)) in *.
  assert (0 ≤ d < 2 ^ 32) as Hd by (apply Z.mod_pos_bound; lia).
  destruct (Z.ltb_spec d width) as [Hlt|Hge].
  2: { by replace (Z.to_nat (width - d)) with 0%nat by lia. }
  replace (Z.to_nat (width - d)) with (S (Z.to_nat (width - (d + 1)))) by lia. simpl.
  unfold mbind, outcome_bind. destruct (putchar_via_gadget 32 st) as [st1|] eqn:Hc; [|done].
  apply putchar_pos in Hc.
  assert (wrap 32 (pos st1.2 - start) = d + 1) as Hd1.
  { rewrite Hc. unfold wrap. rewrite Zminus_mod_idemp_l.
    replace (pos st.2 + 1 - start) with (pos st.2 - start + 1) by lia.
    rewrite <- Zplus_mod_idemp_l. fold (wrap 32 (pos st.2 - start)). fold d. apply Z.mod_small. lia. }
  rewrite IH; rewrite ?Hd1; [done| |lia]. rewrite Hc. apply Z.mod_pos_bound. lia.
Qed.

(** Text aligned in a field. *)
Definition spaces_to (width : Z) (text : list Z) : list Z := replicate (Z.to_nat (width - len text)) 32.

Definition align (left nopad : bool) (width : Z) (text : list Z) : list Z :=
  if left then text ++ spaces_to width text
  else if nopad then text else spaces_to width text ++ text.

Definition word_ok (z : Z) : Prop := 0 ≤ z < 2 ^ 32.

Lemma out_rev_puts buf width flags st :
  word_ok width → word_ok (len buf) → word_ok (pos st.2) →
  out_rev_ buf width flags st
  = puts (align (has flags FLAGS_LEFT) (has flags FLAGS_ZEROPAD) width (reverse buf)) st.
Proof.
  intros Hw Hb Hp. unfold out_rev_, align, spaces_to. rewrite length_reverse.
  destruct (has flags FLAGS_LEFT) eqn:Hl; cbn [negb andb].
  - rewrite puts_app. unfold mbind, outcome_bind. cbn iota beta.
    destruct (puts (reverse buf) st) as [st1|] eqn:Hr; [|done].
    pose proof (puts_pos _ _ _ Hr Hp) as Hp1. rewrite length_reverse in Hp1.
    assert (wrap 32 (pos st1.2 - pos st.2) = len buf) as Hd.
    { rewrite Hp1. unfold wrap. rewrite Zminus_mod_idemp_l.
      replace (pos st.2 + len buf - pos st.2) with (len buf) by lia. by apply Z.mod_small. }
    rewrite pad_to_width_puts; rewrite ?Hd; [done|done| |lia].
    rewrite Hp1. apply Z.mod_pos_bound. lia.
  - destruct (has flags FLAGS_ZEROPAD); cbn [negb].
    + unfold mbind, outcome_bind. by destruct (puts _ _).
    + rewrite puts_app, pad_loop_puts. unfold mbind, outcome_bind.
      destruct (puts (replicate _ _) st); [|done]. by destruct (puts _ _).
Qed.

(** ** Flags *)

Lemma has_pow2 flags k : 0 ≤ k → has flags (2 ^ k) = Z.testbit flags k.
Proof. intros Hk. unfold has. rewrite land_pow2 by done. apply negb_involutive. Qed.

Lemma has_lor flags f f' : has flags (f .| f') = has flags f || has flags f'.
Proof.
  unfold has. rewrite Z.land_lor_distr_r. destruct (Z.eqb_spec (flags .& f) 0) as [->|Hn]; simpl.
  - by rewrite Z.lor_0_l.
  - apply negb_true_iff, Z.eqb_neq. intros Hz. apply Hn. by apply Z.lor_eq_0_iff in Hz as [? _].
Qed.

Lemma has_set flags f k : 0 ≤ k → 0 ≤ f →
  has (set_flag flags (2 ^ f)) (2 ^ k) = has flags (2 ^ k) || (k =? f).
Proof.
  intros Hk Hf. rewrite !has_pow2 by done. unfold set_flag. rewrite Z.lor_spec. f_equal.
  rewrite Z.pow2_bits_eqb by done. apply Z.eqb_sym.
Qed.

Lemma has_clear flags f k : 0 ≤ k → 0 ≤ f →
  has (clear_flag flags (2 ^ f)) (2 ^ k) = has flags (2 ^ k) && negb (k =? f).
Proof.
  intros Hk Hf. rewrite !has_pow2 by done. unfold clear_flag. rewrite Z.ldiff_spec. do 2 f_equal.
  rewrite Z.pow2_bits_eqb by done. apply Z.eqb_sym.
Qed.

(** ** The text of an integer *)

Definition digit_text (upper : bool) (d : Z) : Z :=
  if d <? 10 then 48 + d else (if upper then 65 else 97) + d - 10.

(** The digits of a 64-bit number, the least significant one first, and the
    most significant one first. *)
Fixpoint digits_lsf (fuel : nat) (base v : Z) : list Z :=
  match fuel with
  | O => []
  | S fuel => if v =? 0 then [] else v mod base :: digits_lsf fuel base (v / base)
  end.
Definition digits_of (base v : Z) : list Z := reverse (digits_lsf 64 base v).

(** A conversion of an integer. *)
Record ispec := {
  i_left : bool;
  i_zero : bool;
  i_plus : bool;
  i_space : bool;
  i_alt : bool;
  i_upper : bool;
  i_width : Z;
  i_prec : option Z;
}.

Section reference.
Context (i : ispec) (base v : Z) (neg : bool).

Definition int_sign : list Z :=
  if neg then [45] else if i_plus i then [43] else if i_space i then [32] else [].

Definition int_digits : list Z :=
  digit_text (i_upper i) <$>
    (if v =? 0 then match i_prec i with Some _ => [] | None => [0] end else digits_of base v).

(** At least as many digits as the precision says. *)
Definition int_body : list Z :=
  replicate (Z.to_nat (default 0 (i_prec i) - len int_digits)) 48 ++ int_digits.

Definition int_prefix : list Z :=
  if negb (i_alt i) then []
  else if base =? 16 then (if v =? 0 then [] else [48; if i_upper i then 88 else 120])
  else if base =? 2 then (if v =? 0 then [] else [48; 98])
  else if base =? 8 then (if bool_decide (head int_body = Some 48) then [] else [48])
  else [].

(** The flag [0] fills the field with zeros, unless there is a precision or
    the flag [-]. *)
Definition int_fill : list Z :=
  if i_zero i && negb (i_left i) && negb (bool_decide (is_Some (i_prec i))) then
    replicate (Z.to_nat (i_width i - len int_sign - len int_prefix - len int_body)) 48
  else [].

Definition int_number : list Z := int_sign ++ int_prefix ++ int_fill ++ int_body.

Definition int_text : list Z := align (i_left i) false (i_width i) int_number.
End reference.

(** *** The digits *)

Lemma digits_lsf_number fuel base v :
  2 ≤ base → 0 ≤ v < 2 ^ Z.of_nat fuel → number base (reverse (digits_lsf fuel base v)) = v.
Proof.
  intros Hb. revert v. induction fuel as [|fuel IH]; intros v Hv; simpl.
  { change (2 ^ Z.of_nat 0) with 1 in Hv. unfold number. simpl. lia. }
  destruct (Z.eqb_spec v 0) as [->|Hn]; [done|].
  unfold number. rewrite reverse_cons, foldl_app. simpl. fold (number base (reverse (digits_lsf fuel base (v / base)))).
  rewrite IH; [pose proof (Z.div_mod v base); lia|].
  rewrite Nat2Z.inj_succ, Z.pow_succ_r in Hv by lia. split; [apply Z.div_pos; lia|].
  apply Z.div_lt_upper_bound; [lia|]. nia.
Qed.

Lemma digits_lsf_bound fuel base v : 2 ≤ base → 0 ≤ v →
  Forall (λ d, 0 ≤ d < base) (digits_lsf fuel base v).
Proof.
  intros Hb. revert v. induction fuel as [|fuel IH]; intros v Hv; simpl; [constructor|].
  destruct (v =? 0); [constructor|]. constructor; [apply Z.mod_pos_bound; lia|].
  apply IH. apply Z.div_pos; lia.
Qed.

(** More fuel changes nothing once the number fits. *)
Lemma digits_lsf_fuel fuel fuel' base v :
  2 ≤ base → 0 ≤ v < 2 ^ Z.of_nat fuel → (fuel ≤ fuel')%nat →
  digits_lsf fuel' base v = digits_lsf fuel base v.
Proof.
  intros Hb. revert fuel' v. induction fuel as [|fuel IH]; intros fuel' v Hv Hf.
  { change (2 ^ Z.of_nat 0) with 1 in Hv. assert (v = 0) as -> by lia. by destruct fuel'. }
  destruct fuel' as [|fuel']; [lia|]. simpl. destruct (v =? 0); [done|]. f_equal. apply IH; [|lia].
  rewrite Nat2Z.inj_succ, Z.pow_succ_r in Hv by lia. split; [apply Z.div_pos; lia|].
  apply Z.div_lt_upper_bound; [lia|]. nia.
Qed.

Lemma digits_lsf_step n base v : 2 ≤ base → 0 < v < 2 ^ Z.of_nat n →
  digits_lsf n base v = v mod base :: digits_lsf n base (v / base).
Proof.
  intros Hb Hv. destruct n as [|n]; [change (2 ^ Z.of_nat 0) with 1 in Hv; lia|].
  assert (0 ≤ v / base < 2 ^ Z.of_nat n) as Hq.
  { rewrite Nat2Z.inj_succ, Z.pow_succ_r in Hv by lia. split; [apply Z.div_pos; lia|].
    apply Z.div_lt_upper_bound; [lia|]. nia. }
  rewrite (digits_lsf_fuel n (S n) base (v / base)) by (done || lia). simpl.
  by rewrite (proj2 (Z.eqb_neq v 0)) by lia.
Qed.

Lemma digits_lsf_zero n base : digits_lsf n base 0 = [].
Proof. by destruct n. Qed.

(** The [do]-loop computes the digits while they fit into the buffer. *)
Lemma digits_rev_spec n base flags : 2 ≤ base → ∀ fuel v buf,
  0 < v < 2 ^ Z.of_nat n → (length buf + fuel = 32)%nat →
  (length (digits_lsf n base v) ≤ fuel)%nat →
  digits_rev fuel v base flags buf
  = buf ++ (digit_text (has flags FLAGS_UPPERCASE) <$> digits_lsf n base v).
Proof.
  intros Hb. induction fuel as [|fuel IH]; intros v buf Hv Hl Hlen;
    rewrite digits_lsf_step in Hlen |- * by done; [simpl in Hlen; lia|].
  cbn [digits_rev length fmap list_fmap] in *. set (q := v / base) in *.
  change (digit_char flags (v mod base)) with (digit_text (has flags FLAGS_UPPERCASE) (v mod base)).
  set (c := digit_text _ _).
  assert (0 ≤ q < 2 ^ Z.of_nat n) as Hq.
  { subst q. split; [apply Z.div_pos; lia|]. apply Z.div_lt_upper_bound; [lia|]. nia. }
  destruct (Z.eqb_spec q 0) as [Hz|Hz]; cbn [negb andb].
  { by rewrite Hz, digits_lsf_zero. }
  assert (0 < length (digits_lsf n base q))%nat as Hpos by (rewrite digits_lsf_step by lia; simpl; lia).
  unfold PRINTF_INTEGER_BUFFER_SIZE. rewrite (proj2 (Z.ltb_lt _ _)) by (rewrite length_app; simpl; lia).
  rewrite IH; [|lia|rewrite length_app; simpl; lia|lia]. by rewrite <- app_assoc.
Qed.

(** *** The buffer *)

Lemma push_room c buf : (length buf < 32)%nat → push c buf = buf ++ [c].
Proof. intros Hl. unfold push, PRINTF_INTEGER_BUFFER_SIZE. by rewrite (proj2 (Z.ltb_lt _ _)) by lia. Qed.

Lemma zeros_to_room limit buf : limit ≤ 32 →
  zeros_to limit buf = buf ++ replicate (Z.to_nat (limit - len buf)) 48.
Proof. intros Hl. unfold zeros_to, PRINTF_INTEGER_BUFFER_SIZE. by rewrite Z.min_l by lia. Qed.

Lemma zeros_to_zero buf : zeros_to 0 buf = buf.
Proof.
  rewrite zeros_to_room by lia. replace (Z.to_nat (0 - len buf)) with 0%nat by lia. apply app_nil_r.
Qed.

Lemma pop_zeros l z : (0 < z)%nat → pop (l ++ replicate z 48) = l ++ replicate (pred z) 48.
Proof.
  intros Hz. unfold pop. rewrite length_app, length_replicate, take_app, take_ge by lia.
  f_equal. rewrite take_replicate. f_equal. lia.
Qed.

(** The prefix of the alternative form. *)
Definition raw_prefix (upper : bool) (base : Z) : list Z :=
  if base =? 16 then [48; if upper then 88 else 120] else if base =? 2 then [48; 98] else [48].

Lemma reverse_prefix_push upper base flags buf :
  has flags FLAGS_UPPERCASE = upper → (length buf + length (raw_prefix upper base) ≤ 32)%nat →
  push 48 (if (base =? 16) && negb (has flags FLAGS_UPPERCASE) then push 120 buf
           else if (base =? 16) && has flags FLAGS_UPPERCASE then push 88 buf
           else if base =? 2 then push 98 buf else buf)
  = buf ++ reverse (raw_prefix upper base).
Proof.
  intros Hu Hl. rewrite Hu. unfold raw_prefix in *.
  destruct (base =? 16), upper, (base =? 2); cbn [negb andb reverse rev_append length] in *;
    rewrite ?(push_room _ buf) by lia; rewrite ?push_room by (rewrite ?length_app; simpl; lia);
    by rewrite <- ?app_assoc.
Qed.

(** Without zeros to take back. *)
Lemma add_prefix_plain unpadded buf upper base precision width flags :
  has flags FLAGS_UPPERCASE = upper → has flags FLAGS_PRECISION = true ∨ unpadded = len buf →
  (length buf + length (raw_prefix upper base) ≤ 32)%nat →
  has flags (FLAGS_HASH .| FLAGS_POINTER) = true →
  add_prefix unpadded buf base precision width flags = buf ++ reverse (raw_prefix upper base).
Proof.
  intros Hu Hp Hl Ha. unfold add_prefix. rewrite Ha.
  match goal with |- context[push 48 ?b] => set (b0 := b) end.
  assert (b0 = (if (base =? 16) && negb (has flags FLAGS_UPPERCASE) then push 120 buf
           else if (base =? 16) && has flags FLAGS_UPPERCASE then push 88 buf
           else if base =? 2 then push 98 buf else buf)) as ->; [|by apply reverse_prefix_push].
  subst b0. destruct Hp as [->| ->]; [done|].
  rewrite !(proj2 (Z.ltb_ge (len buf) _)) by lia. rewrite andb_false_r.
  by destruct (negb (has flags FLAGS_PRECISION) && negb (len buf =? 0) && _).
Qed.

(** In a field filled with [z] zeros. *)
Lemma add_prefix_filled l z upper base precision width flags :
  has flags FLAGS_UPPERCASE = upper → has flags FLAGS_PRECISION = false → (0 < z)%nat →
  len l + Z.of_nat z = width → width ≤ 32 → base = 16 ∨ base = 2 →
  (length l + (z - 2) + 2 ≤ 32)%nat →
  has flags (FLAGS_HASH .| FLAGS_POINTER) = true →
  add_prefix (len l) (l ++ replicate z 48) base precision width flags
  = l ++ replicate (z - 2) 48 ++ reverse (raw_prefix upper base).
Proof.
  intros Hu Hp Hz Hw Hw32 Hb Hl Ha. unfold add_prefix. rewrite Ha, Hp.
  assert (len (l ++ replicate z 48) = width) as Hlen by (rewrite length_app, length_replicate; lia).
  rewrite Hlen, Z.eqb_refl, orb_true_r, (proj2 (Z.eqb_neq width 0)) by lia.
  rewrite (proj2 (Z.ltb_lt (len l) width)) by lia. cbn [negb andb].
  rewrite pop_zeros by done.
  assert ((base =? 16) || (base =? 2) = true) as Hb' by (by destruct Hb as [-> | ->]).
  rewrite Hb', andb_true_r.
  match goal with |- context[push 48 (if _ then push 120 ?b else _)] => set (b0 := b) end.
  assert (b0 = l ++ replicate (z - 2) 48) as ->.
  { subst b0. destruct (decide (z = 1%nat)) as [->|Hz1]; simpl pred.
    - cbn [replicate Nat.sub]. rewrite app_nil_r, Z.ltb_irrefl. by rewrite andb_false_r.
    - rewrite length_app, length_replicate.
      rewrite (proj2 (Z.eqb_neq _ _)), (proj2 (Z.ltb_lt _ _)) by lia. simpl.
      rewrite pop_zeros by lia. do 2 f_equal. lia. }
  rewrite (reverse_prefix_push upper); [by rewrite <- app_assoc|done|].
  rewrite length_app, length_replicate. unfold raw_prefix. destruct Hb as [-> | ->]; simpl; lia.
Qed.

Lemma add_prefix_none unpadded buf base precision width flags :
  has flags (FLAGS_HASH .| FLAGS_POINTER) = false →
  add_prefix unpadded buf base precision width flags = buf.
Proof. intros Ha. unfold add_prefix. by rewrite Ha. Qed.

Lemma add_sign_room i neg flags buf :
  has flags FLAGS_PLUS = i_plus i → has flags FLAGS_SPACE = i_space i →
  (length buf + length (int_sign i neg) ≤ 32)%nat →
  add_sign neg flags buf = buf ++ reverse (int_sign i neg).
Proof.
  intros Hp Hs Hl. unfold add_sign, int_sign in *. rewrite Hp, Hs.
  destruct neg, (i_plus i), (i_space i); simpl in *; rewrite ?push_room by lia; try done;
    by rewrite app_nil_r.
Qed.

(** The first digit is not zero. *)
Lemma digits_lsf_last n base v d : 2 ≤ base → 0 ≤ v < 2 ^ Z.of_nat n →
  last (digits_lsf n base v) = Some d → d ≠ 0.
Proof.
  intros Hb. revert v. induction n as [|n IH]; intros v Hv; simpl; [done|].
  destruct (Z.eqb_spec v 0) as [->|Hn]; [done|].
  assert (0 ≤ v / base < 2 ^ Z.of_nat n) as Hq.
  { rewrite Nat2Z.inj_succ, Z.pow_succ_r in Hv by lia. split; [apply Z.div_pos; lia|].
    apply Z.div_lt_upper_bound; [lia|]. nia. }
  specialize (IH (v / base) Hq). destruct (digits_lsf n base (v / base)) as [|d' ds] eqn:Hds; [|done].
  intros [= <-] Hz. pose proof (Z.div_mod v base) as Hdm.
  pose proof (digits_lsf_number n base (v / base) Hb Hq) as Hnum. rewrite Hds in Hnum.
  unfold number in Hnum. simpl in Hnum. lia.
Qed.

Lemma digits_of_head base v d : 2 ≤ base → 0 ≤ v < 2 ^ 64 → head (digits_of base v) = Some d → d ≠ 0.
Proof.
  intros Hb Hv. unfold digits_of. rewrite head_reverse.
  apply (digits_lsf_last 64); [done|exact Hv].
Qed.

(** What the flags say, in the loop's representation. *)
Record int_flags (flags : Z) (i : ispec) (base : Z) (alt : bool) : Prop := {
  if_left : has flags FLAGS_LEFT = i_left i;
  if_zero : has flags FLAGS_ZEROPAD = i_zero i && negb (bool_decide (is_Some (i_prec i)));
  if_plus : has flags FLAGS_PLUS = i_plus i;
  if_space : has flags FLAGS_SPACE = i_space i;
  if_upper : has flags FLAGS_UPPERCASE = i_upper i;
  if_prec : has flags FLAGS_PRECISION = bool_decide (is_Some (i_prec i));
  if_alt : has flags FLAGS_HASH || has flags FLAGS_POINTER = alt;
  if_pointer : base ≠ 16 → has flags FLAGS_POINTER = false;
}.

Definition prefix_len (alt : bool) (i : ispec) (base : Z) : Z :=
  if alt then len (raw_prefix (i_upper i) base) else 0.

(** The zeros written before the prefix. *)
Definition pad_count (i : ispec) (neg : bool) (D : list Z) : nat :=
  match i_prec i with
  | Some p => Z.to_nat (p - len D)
  | None => if i_zero i && negb (i_left i) then Z.to_nat (i_width i - len (int_sign i neg) - len D)
            else 0
  end.

Definition pad_width (i : ispec) (neg : bool) : Z :=
  if i_zero i && negb (i_left i) && negb (bool_decide (is_Some (i_prec i))) && negb (i_width i =? 0)
  then i_width i - len (int_sign i neg) else i_width i.

Lemma int_sign_len i neg : len (int_sign i neg) = if neg || (i_plus i || i_space i) then 1 else 0.
Proof. unfold int_sign. by destruct neg, (i_plus i), (i_space i). Qed.

Lemma pad_integer_spec flags i base alt neg D :
  int_flags flags i base alt → 0 ≤ i_width i → len D + Z.of_nat (pad_count i neg D) ≤ 32 →
  pad_integer (reverse D) neg base (default 0 (i_prec i)) (i_width i) flags
  = (reverse D ++ replicate (pad_count i neg D) 48, pad_width i neg,
     if (base =? 8) && (0 <? Z.of_nat (pad_count i neg D)) then clear_flag flags FLAGS_HASH else flags).
Proof.
  intros [] Hw Hfit. unfold pad_integer. rewrite has_lor, if_left0, if_zero0, if_plus0, if_space0.
  rewrite length_reverse.
  assert (∀ z : nat, (len (reverse D ++ replicate z 48) >? len D) = (0 <? Z.of_nat z)) as Hgt.
  { intros z. rewrite length_app, length_reverse, length_replicate, Z.gtb_ltb.
    destruct (Z.ltb_spec 0 (Z.of_nat z)); [apply Z.ltb_lt; lia|apply Z.ltb_ge; lia]. }
  unfold pad_count, pad_width in *. pose proof (int_sign_len i neg) as Hsl.
  destruct (i_prec i) as [p|] eqn:Hpr.
  - rewrite bool_decide_true by eauto. cbn [negb default id]. rewrite !andb_false_r. cbn [andb].
    assert (p ≤ 32) by lia.
    assert (∀ b : bool, (if b then (reverse D, i_width i) else (reverse D, i_width i)) = (reverse D, i_width i)) as Hb
      by by intros [].
    rewrite Hb, zeros_to_room, length_reverse by done. by rewrite Hgt.
  - rewrite bool_decide_false by (intros [? ?]; done). cbn [negb default].
    rewrite !andb_true_r. destruct (i_left i), (i_zero i); cbn [negb andb] in *;
      rewrite ?andb_false_r, ?andb_true_r; cbn [andb]; rewrite ?zeros_to_zero;
      try (specialize (Hgt 0%nat); cbn [replicate] in Hgt; rewrite app_nil_r in Hgt;
           cbn [replicate]; by rewrite app_nil_r, Hgt, andb_false_r).
    destruct (Z.eqb_spec (i_width i) 0) as [Hz|Hz]; cbn [negb andb].
    + rewrite Hz in *. rewrite !zeros_to_zero.
      assert (Z.to_nat (0 - len (int_sign i neg) - len D) = 0%nat) as -> by lia.
      specialize (Hgt 0%nat). cbn [replicate] in Hgt |- *. rewrite app_nil_r in Hgt |- *.
      by rewrite Hgt.
    + rewrite Hsl in *. destruct (neg || (i_plus i || i_space i)); rewrite ?Z.sub_0_r in *;
        rewrite zeros_to_room, length_reverse by lia; by rewrite Hgt.
Qed.

(** When the alternative form has a prefix. *)
Record alt_prefix (i : ispec) (base v : Z) (neg alt : bool) : Prop := {
  ap_none : alt = false → int_prefix i base v = [];
  ap_sign : alt = true → int_sign i neg = [];
  ap_base : alt = true → base = 8 ∨ base = 16 ∨ base = 2;
  ap_some : alt = true → base ≠ 8 → int_prefix i base v = raw_prefix (i_upper i) base;
  ap_octal : alt = true → base = 8 → head (int_digits i base v) ≠ Some 48 ∧
    int_prefix i base v = if bool_decide (head (int_body i base v) = Some 48) then [] else [48];
}.

Lemma has_clear_hash flags f k : f = 2 ^ k → 0 ≤ k → k ≠ 4 →
  has (clear_flag flags FLAGS_HASH) f = has flags f.
Proof.
  intros -> Hk Hne. change FLAGS_HASH with (2 ^ 4). rewrite has_clear by lia.
  by rewrite (proj2 (Z.eqb_neq k 4) Hne), andb_true_r.
Qed.

Lemma has_cleared_hash flags : has (clear_flag flags FLAGS_HASH) FLAGS_HASH = false.
Proof. change FLAGS_HASH with (2 ^ 4). rewrite has_clear by lia. apply andb_false_r. Qed.

Lemma int_flags_clear flags i base alt :
  int_flags flags i base alt → int_flags (clear_flag flags FLAGS_HASH) i base (has flags FLAGS_POINTER).
Proof.
  intros []. split; rewrite ?has_cleared_hash;
    rewrite ?(has_clear_hash _ FLAGS_LEFT 1), ?(has_clear_hash _ FLAGS_ZEROPAD 0),
      ?(has_clear_hash _ FLAGS_PLUS 2), ?(has_clear_hash _ FLAGS_SPACE 3),
      ?(has_clear_hash _ FLAGS_UPPERCASE 5), ?(has_clear_hash _ FLAGS_PRECISION 11),
      ?(has_clear_hash _ FLAGS_POINTER 13) by done; done.
Qed.

Lemma has_alt flags i base alt :
  int_flags flags i base alt → has flags (FLAGS_HASH .| FLAGS_POINTER) = alt.
Proof. intros []. by rewrite has_lor. Qed.

(** With the zeros of a precision. *)
Lemma final_prec flags i base alt v neg p :
  int_flags flags i base alt → alt_prefix i base v neg alt → i_prec i = Some p →
  len (int_number i base v neg) ≤ 32 →
  let D := int_digits i base v in
  let z := pad_count i neg D in
  let flags' := if (base =? 8) && (0 <? Z.of_nat z) then clear_flag flags FLAGS_HASH else flags in
  add_prefix (len D) (reverse D ++ replicate z 48) base p (pad_width i neg) flags'
  = reverse (int_prefix i base v ++ int_fill i base v neg ++ int_body i base v).
Proof.
  intros Hf Hp Hprec Hfit D z. cbn zeta.
  assert (z = Z.to_nat (p - len D)) as Hz by (unfold z, pad_count; by rewrite Hprec).
  assert (int_body i base v = replicate z 48 ++ D) as Hbody
    by (unfold int_body; rewrite Hprec; fold D; by rewrite Hz).
  assert (int_fill i base v neg = []) as Hfill.
  { unfold int_fill. rewrite Hprec, bool_decide_true by eauto. by rewrite !andb_false_r. }
  unfold int_number in Hfit. rewrite Hfill, Hbody in *. cbn [app] in *.
  rewrite !length_app, length_replicate in Hfit.
  assert (reverse (int_prefix i base v ++ replicate z 48 ++ D)
    = (reverse D ++ replicate z 48) ++ reverse (int_prefix i base v)) as ->
    by by rewrite !reverse_app, reverse_replicate.
  destruct alt eqn:Halt.
  2: { rewrite (ap_none _ _ _ _ _ Hp), app_nil_r by done. apply add_prefix_none.
       destruct (_ && _); [|by eapply has_alt]. rewrite (has_alt _ _ _ _ (int_flags_clear _ _ _ _ Hf)).
       pose proof (if_alt _ _ _ _ Hf) as Ha. by apply orb_false_iff in Ha as [_ ?]. }
  assert (has flags FLAGS_PRECISION = true) as Hpf
    by (rewrite (if_prec _ _ _ _ Hf), Hprec; by apply bool_decide_true; eauto).
  destruct (decide (base = 8)) as [->|Hb8].
  - destruct (ap_octal _ _ _ _ _ Hp eq_refl eq_refl) as [Hhd Hpre]. rewrite Hpre, Hbody in *. fold D in Hhd.
    cbn [Z.eqb Pos.eqb andb]. destruct (Z.ltb_spec 0 (Z.of_nat z)) as [Hpos|Hpos].
    + rewrite bool_decide_true by (destruct z; [lia|done]). rewrite app_nil_r.
      apply add_prefix_none. rewrite (has_alt _ _ _ _ (int_flags_clear _ _ _ _ Hf)).
      by apply (if_pointer _ _ _ _ Hf).
    + assert (z = 0%nat) as Hz0 by lia. rewrite Hz0 in *. cbn [replicate app] in *. rewrite app_nil_r.
      rewrite bool_decide_false in Hfit |- * by done.
      apply (add_prefix_plain _ _ (i_upper i)); [apply Hf|by left| |by eapply has_alt].
      rewrite length_reverse. simpl in *. lia.
  - rewrite (proj2 (Z.eqb_neq base 8) Hb8). cbn [andb]. rewrite (ap_some _ _ _ _ _ Hp) in Hfit |- * by done.
    apply add_prefix_plain; [apply Hf|by left| |by eapply has_alt].
    rewrite length_app, length_reverse, length_replicate. lia.
Qed.

(** With the zeros that fill the field, or none. *)
Lemma final_fill flags i base alt v neg :
  int_flags flags i base alt → alt_prefix i base v neg alt → i_prec i = None →
  len (int_number i base v neg) ≤ 32 →
  let D := int_digits i base v in
  let z := pad_count i neg D in
  let flags' := if (base =? 8) && (0 <? Z.of_nat z) then clear_flag flags FLAGS_HASH else flags in
  add_prefix (len D) (reverse D ++ replicate z 48) base 0 (pad_width i neg) flags'
  = reverse (int_prefix i base v ++ int_fill i base v neg ++ int_body i base v).
Proof.
  intros Hf Hp Hprec Hfit D z. cbn zeta.
  assert (int_body i base v = D) as Hbody.
  { unfold int_body. rewrite Hprec. fold D. cbn [default].
    by replace (Z.to_nat (0 - len D)) with 0%nat by lia. }
  assert (∀ b, bool_decide (is_Some (i_prec i)) = b → b = false) as Hnp
    by (intros b <-; rewrite Hprec; by apply bool_decide_false; intros [? ?]).
  set (F := i_zero i && negb (i_left i)).
  assert (z = if F then Z.to_nat (i_width i - len (int_sign i neg) - len D) else 0%nat) as Hz
    by (unfold z, pad_count; by rewrite Hprec).
  assert (int_fill i base v neg = if F then replicate
    (Z.to_nat (i_width i - len (int_sign i neg) - len (int_prefix i base v) - len D)) 48 else []) as Hfill.
  { unfold int_fill. rewrite (Hnp _ eq_refl), andb_true_r, Hbody. done. }
  unfold int_number in Hfit. rewrite Hbody in *. rewrite !length_app in Hfit.
  rewrite !reverse_app, <- app_assoc.
  destruct alt eqn:Halt.
  2: { rewrite (ap_none _ _ _ _ _ Hp) in * by done. rewrite add_prefix_none.
    - rewrite Hfill, Hz. destruct F; [|done]. rewrite reverse_replicate, app_nil_r. do 3 f_equal.
      simpl. lia.
    - destruct ((base =? 8) && _); [|by eapply has_alt]. rewrite (has_alt _ _ _ _ (int_flags_clear _ _ _ _ Hf)).
      pose proof (if_alt _ _ _ _ Hf) as Ha. by apply orb_false_iff in Ha as [_ ?]. }
  rewrite (ap_sign _ _ _ _ _ Hp eq_refl) in *. cbn [length] in *. rewrite Z.sub_0_r in *.
  destruct (decide (z = 0%nat)) as [Hz0|Hz0].
  - (* no zeros: the prefix alone *)
    rewrite Hz0. cbn [replicate Z.of_nat Z.ltb]. rewrite Z.ltb_irrefl, andb_false_r, app_nil_r.
    assert (int_prefix i base v = raw_prefix (i_upper i) base) as Hpre.
    { destruct (decide (base = 8)) as [->|Hb8]; [|by apply (ap_some _ _ _ _ _ Hp)].
      destruct (ap_octal _ _ _ _ _ Hp eq_refl eq_refl) as [Hhd ->]. rewrite Hbody.
      by rewrite bool_decide_false. }
    assert (int_fill i base v neg = []) as ->.
    { rewrite Hfill. destruct F; [|done]. rewrite Hpre.
      assert (0 ≤ len (raw_prefix (i_upper i) base)) by lia.
      replace (Z.to_nat _) with 0%nat by lia. done. }
    rewrite Hpre in *. cbn [app]. apply add_prefix_plain; [apply Hf|right; by rewrite length_reverse| |by eapply has_alt].
    rewrite length_reverse. lia.
  - destruct F eqn:HF; [|done].
    assert (pad_width i neg = i_width i) as Hpw.
    { unfold pad_width. fold F. rewrite HF, (Hnp _ eq_refl), (ap_sign _ _ _ _ _ Hp eq_refl). cbn [length].
      rewrite Z.sub_0_r. cbn [negb andb]. by destruct (i_width i =? 0). }
    destruct (decide (base = 8)) as [->|Hb8].
    + destruct (ap_octal _ _ _ _ _ Hp eq_refl eq_refl) as [Hhd Hpre].
      rewrite Hbody, bool_decide_false in Hpre by done. rewrite Hpre in *.
      rewrite (proj2 (Z.ltb_lt 0 _)) by lia. cbn [Z.eqb Pos.eqb andb].
      rewrite add_prefix_none.
      * rewrite Hfill, reverse_replicate, Hz. f_equal. change (reverse [48]) with (replicate 1 48).
        rewrite <- replicate_add. f_equal. simpl. lia.
      * rewrite (has_alt _ _ _ _ (int_flags_clear _ _ _ _ Hf)). by apply (if_pointer _ _ _ _ Hf).
    + rewrite (proj2 (Z.eqb_neq base 8) Hb8). cbn [andb].
      rewrite (ap_some _ _ _ _ _ Hp) in * by done.
      destruct (ap_base _ _ _ _ _ Hp eq_refl) as [?|Hb]; [done|].
      assert (len (raw_prefix (i_upper i) base) = 2) as Hrp
        by (unfold raw_prefix; by destruct Hb as [-> | ->]).
      rewrite Hfill, length_replicate in Hfit.
      rewrite Hpw, <- (length_reverse D), (add_prefix_filled _ _ (i_upper i)).
      * rewrite Hfill, Hrp, reverse_replicate. do 3 f_equal. lia.
      * apply Hf.
      * rewrite (if_prec _ _ _ _ Hf). by apply Hnp.
      * lia.
      * rewrite length_reverse. lia.
      * rewrite Hrp in Hfit. lia.
      * done.
      * rewrite length_reverse. lia.
      * by eapply has_alt.
Qed.

Lemma pad_count_fits i base v neg :
  len (int_number i base v neg) ≤ 32 →
  len (int_digits i base v) + Z.of_nat (pad_count i neg (int_digits i base v)) ≤ 32.
Proof.
  unfold int_number, int_fill, int_body, pad_count. set (D := int_digits i base v).
  rewrite !length_app. destruct (i_prec i) as [p|].
  - cbn [default id]. rewrite length_replicate. lia.
  - rewrite bool_decide_false by (intros [? ?]; done). cbn [default negb]. rewrite andb_true_r.
    replace (Z.to_nat (0 - len D)) with 0%nat by lia. cbn [replicate app].
    destruct (i_zero i && negb (i_left i)); rewrite ?length_replicate; simpl; lia.
Qed.

Lemma align_pad_width i base v neg flags alt :
  int_flags flags i base alt →
  align (i_left i) (has flags FLAGS_ZEROPAD) (pad_width i neg) (int_number i base v neg)
  = int_text i base v neg.
Proof.
  intros Hf. rewrite (if_zero _ _ _ _ Hf). unfold int_text, align, pad_width.
  destruct (i_left i) eqn:Hl; cbn [negb]; [by rewrite andb_false_r|]. rewrite andb_true_r.
  destruct (i_zero i && negb (bool_decide (is_Some (i_prec i)))) eqn:Hz; cbn [andb]; [|done].
  unfold spaces_to. replace (Z.to_nat (i_width i - _)) with 0%nat; [done|].
  unfold int_number, int_fill. rewrite Hl. cbn [negb]. rewrite andb_true_r, Hz.
  rewrite !length_app, length_replicate. lia.
Qed.

Lemma finalization_puts flags i base alt v neg st :
  int_flags flags i base alt → alt_prefix i base v neg alt →
  len (int_number i base v neg) ≤ 32 → word_ok (i_width i) → word_ok (pos st.2) →
  print_integer_finalization (reverse (int_digits i base v)) neg base (default 0 (i_prec i))
    (i_width i) flags st = puts (int_text i base v neg) st.
Proof.
  intros Hf Hp Hfit Hw Hpos. unfold print_integer_finalization.
  rewrite (pad_integer_spec _ _ _ _ _ _ Hf) by (apply Hw || by apply pad_count_fits).
  rewrite length_reverse. set (D := int_digits i base v). set (z := pad_count i neg D).
  set (flags' := if (base =? 8) && (0 <? Z.of_nat z) then clear_flag flags FLAGS_HASH else flags).
  assert (∃ alt', int_flags flags' i base alt') as [alt' Hf'].
  { subst flags'. destruct ((base =? 8) && _); [|eauto]. eexists. by eapply int_flags_clear. }
  assert (add_prefix (len D) (reverse D ++ replicate z 48) base (default 0 (i_prec i)) (pad_width i neg) flags'
    = reverse (int_prefix i base v ++ int_fill i base v neg ++ int_body i base v)) as ->.
  { destruct (i_prec i) as [p|] eqn:Hpr; [by apply (final_prec _ _ _ alt)|by apply (final_fill _ _ _ alt)]. }
  unfold int_number in Hfit. rewrite length_app in Hfit.
  rewrite (add_sign_room i) by (apply Hf' || rewrite length_reverse; lia).
  rewrite <- reverse_app. fold (int_number i base v neg).
  assert (word_ok (pad_width i neg)) as Hpw.
  { unfold pad_width. pose proof (int_sign_len i neg). unfold word_ok in *.
    destruct (negb (i_width i =? 0)) eqn:Hw0; rewrite ?andb_false_r; [|done].
    apply negb_true_iff, Z.eqb_neq in Hw0.
    match goal with |- context[if ?b then _ else _] => destruct b end; [|done].
    destruct (neg || (i_plus i || i_space i)); lia. }
  rewrite out_rev_puts, reverse_involutive, (if_left _ _ _ _ Hf'); [|done| |done].
  - by rewrite (align_pad_width _ _ _ _ _ _ Hf').
  - rewrite length_reverse. unfold int_number, word_ok. rewrite length_app. lia.
Qed.

(** An integer that can be printed, with the flags that say how. *)
Record int_ok (flags : Z) (i : ispec) (base v : Z) (neg : bool) : Prop := {
  io_flags : int_flags flags i base (i_alt i);
  io_base : base = 2 ∨ base = 8 ∨ base = 10 ∨ base = 16;
  io_value : 0 ≤ v < 2 ^ 64;
  io_pointer : has flags FLAGS_POINTER = true → v ≠ 0;
  io_decimal : base = 10 → i_alt i = false;
  io_sign : i_alt i = true → int_sign i neg = [];
  io_binary : base = 2 → i_alt i = true → v = 0 → i_prec i = None;
  io_width : word_ok (i_width i);
  io_fits : len (int_number i base v neg) ≤ 32;
}.

Lemma octal_prefix i v : i_alt i = true →
  int_prefix i 8 v = if bool_decide (head (int_body i 8 v) = Some 48) then [] else [48].
Proof. intros Ha. unfold int_prefix. by rewrite Ha. Qed.

Lemma plain_prefix i base v : base = 2 ∨ base = 16 → i_alt i = true → v ≠ 0 →
  int_prefix i base v = raw_prefix (i_upper i) base.
Proof.
  intros Hb Ha Hv. apply Z.eqb_neq in Hv. unfold int_prefix, raw_prefix. rewrite Ha, Hv.
  by destruct Hb as [-> | ->].
Qed.

Lemma zero_prefix i base : base = 2 ∨ base = 16 → int_prefix i base 0 = [].
Proof. intros Hb. unfold int_prefix. destruct Hb as [-> | ->]; by destruct (negb (i_alt i)). Qed.

(** The first digit of a number other than zero. *)
Lemma int_digits_head i base v : 2 ≤ base → 0 < v < 2 ^ 64 → head (int_digits i base v) ≠ Some 48.
Proof.
  intros Hb Hv. unfold int_digits. rewrite (proj2 (Z.eqb_neq v 0)) by lia.
  destruct (digits_of base v) as [|d ds] eqn:Hd; [done|]. simpl. intros [= Hc].
  assert (d ≠ 0) as Hne by (apply (digits_of_head base v); [done|lia|by rewrite Hd]).
  assert (0 ≤ d) as Hd0.
  { assert (d ∈ digits_of base v) as Hin by (rewrite Hd; left).
    unfold digits_of in Hin. rewrite elem_of_reverse in Hin.
    pose proof (digits_lsf_bound 64 base v Hb ltac:(lia)) as Hall.
    rewrite Forall_forall in Hall. by apply Hall in Hin as [? _]. }
  unfold digit_text in Hc. destruct (Z.ltb_spec d 10); [lia|]. destruct (i_upper i); lia.
Qed.

Lemma print_integer_puts flags i base v neg st :
  int_ok flags i base v neg → word_ok (pos st.2) →
  print_integer v neg base (default 0 (i_prec i)) (i_width i) flags st = puts (int_text i base v neg) st.
Proof.
  intros Hok Hpos. destruct Hok as [Hf Hb Hv Hptr Hdec Hsign Hbin Hw Hfit].
  assert (2 ≤ base) as Hb2 by lia. unfold print_integer.
  destruct (Z.eqb_spec v 0) as [->|Hv0].
  - assert (has flags FLAGS_POINTER = false) as Hnp
      by (destruct (has flags FLAGS_POINTER); [by destruct Hptr|done]).
    pose proof (int_flags_clear _ _ _ _ Hf) as Hfc. rewrite Hnp in Hfc.
    assert (i_prec i = None ∨ base = 16 → int_prefix i base 0 = []) as Hnone.
    { intros Hor. destruct Hb as [->|[->|[->| ->]]]; [by apply zero_prefix; left| | |by apply zero_prefix; right].
      - destruct Hor as [Hpr|?]; [|done]. unfold int_prefix, int_body, int_digits. rewrite Hpr.
        by destruct (negb (i_alt i)).
      - unfold int_prefix. by rewrite (Hdec eq_refl). }
    assert (i_prec i = None ∨ base = 16 →
      alt_prefix i base 0 neg false) as Hap by (intros Hor; split; by auto).
    rewrite (if_prec _ _ _ _ Hf). case_bool_decide as Hpr; cbn [negb].
    + destruct Hpr as [p Hpr]. assert (int_digits i base 0 = []) as HD by (unfold int_digits; by rewrite Hpr).
      change (@nil Z) with (reverse (@nil Z)). rewrite <- HD.
      destruct (Z.eqb_spec base 16) as [->|Hn16]; [apply (finalization_puts _ _ _ false); auto|].
      apply (finalization_puts _ _ _ (i_alt i)); [done| |done..].
      destruct Hb as [->|[->|[->| ->]]]; [| | |done].
      * assert (i_alt i = false) as Ha by (destruct (i_alt i) eqn:Ha; [by rewrite Hbin in Hpr|done]).
        rewrite Ha. split; try done. intros _. by apply zero_prefix; left.
      * split; [..|intros Ha _; rewrite HD; split; [done|by apply octal_prefix]]; [|done|auto|done].
        intros Ha. unfold int_prefix. by rewrite Ha.
      * rewrite (Hdec eq_refl). split; try done. intros _. unfold int_prefix. by rewrite (Hdec eq_refl).
    + assert (i_prec i = None) as Hn by (destruct (i_prec i); [by destruct Hpr|done]).
      assert (int_digits i base 0 = [48]) as HD by (unfold int_digits; by rewrite Hn).
      change [48] with (reverse [48]). rewrite <- HD. apply (finalization_puts _ _ _ false); auto.
  - change (Z.to_nat PRINTF_INTEGER_BUFFER_SIZE) with 32%nat.
    assert (digits_rev 32 v base flags [] = reverse (int_digits i base v)) as ->.
    { unfold int_digits. rewrite (proj2 (Z.eqb_neq v 0) Hv0). unfold digits_of.
      rewrite fmap_reverse, reverse_involutive, <- (if_upper _ _ _ _ Hf).
      rewrite (digits_rev_spec 64); [done|done|lia|done|].
      apply pad_count_fits in Hfit. unfold int_digits in Hfit.
      rewrite (proj2 (Z.eqb_neq v 0) Hv0), length_fmap in Hfit. unfold digits_of in Hfit.
      rewrite length_reverse in Hfit. lia. }
    apply (finalization_puts _ _ _ (i_alt i)); [done| |done..]. split.
    + intros Ha. unfold int_prefix. by rewrite Ha.
    + done.
    + intros Ha. destruct Hb as [->|[->|[->| ->]]]; auto. by rewrite Hdec in Ha.
    + intros Ha Hn8. apply plain_prefix; [|done..]. destruct Hb as [->|[->|[->| ->]]]; auto; [done|].
      by rewrite Hdec in Ha.
    + intros Ha ->. split; [apply int_digits_head; lia|by apply octal_prefix].
Qed.
