(* ===== verification/CFormatSpec.v ===== *)
(** * What a format stands for

    The text of a format string and its arguments, by the rules of the C
    standard, and that [format_string_loop] of [CPrintf.v] writes it: into a
    buffer of any size ([snprintf]) or to a function ([printf]). *)

From stdpp Require Import base numbers gmap list.
From S2P Require Import Prelude CString CStringSpec CStdlib CPrintf CPrintfSpec.

Local Open Scope Z_scope.
Local Open Scope word_scope.

(** ** The rules *)

(** Arguments: integers, strings, the null pointer and other pointers. *)
Inductive sval := SInt (z : Z) | SLong (z : Z) | SStr (s : list Z) | SNull | SPtr (p : Z).

Inductive csize := SzNone | SzH | SzHH | SzL | SzLL.

(** A conversion specification without its letter. *)
Record cspec := {
  c_left : bool;
  c_zero : bool;
  c_plus : bool;
  c_space : bool;
  c_alt : bool;
  c_width : Z;
  c_prec : option Z;
  c_size : csize;
}.

Definition is_flag (c : Z) : bool := (c =? 48) || (c =? 45) || (c =? 43) || (c =? 32) || (c =? 35).

(** The longest prefix of characters with a property. *)
Fixpoint take_while (P : Z → bool) (l : list Z) : list Z * list Z :=
  match l with
  | [] => ([], [])
  | c :: l' => if P c then let '(a, b) := take_while P l' in (c :: a, b) else ([], l)
  end.

Definition decimal (ds : list Z) : Z := number 10 ((λ c, c - 48) <$> ds).

(** Width: nothing, a number, or [*] with an argument; a negative one stands
    for the flag [-]. *)
Definition read_width (l : list Z) (vals : list sval) : option (bool * Z * list Z * list sval) :=
  if bool_decide (head l = Some 42) then
    match vals with
    | SInt w :: vals =>
        let w := sext 32 w in
        if w =? - 2 ^ 31 then None else Some (w <? 0, Z.abs w, tail l, vals)
    | _ => None
    end
  else
    let '(ds, l) := take_while is_digit_ l in
    if decimal ds <=? INT_MAX then Some (false, decimal ds, l, vals) else None.

Definition read_prec (l : list Z) (vals : list sval) : option (option Z * list Z * list sval) :=
  if bool_decide (head l = Some 46) then
    let l := tail l in
    if bool_decide (head l = Some 42) then
      match vals with
      | SInt p :: vals => let p := sext 32 p in if p <? 0 then None else Some (Some p, tail l, vals)
      | _ => None
      end
    else
      let '(ds, l) := take_while is_digit_ l in
      if decimal ds <=? INT_MAX then Some (Some (decimal ds), l, vals) else None
  else Some (None, l, vals).

(** [l], [ll], [h], [hh], [t], [j] and [z]. *)
Definition read_size (l : list Z) : csize * list Z :=
  match l with
  | [] => (SzNone, l)
  | c :: l' =>
      let double := bool_decide (head l' = Some c) in
      if c =? 108 then if double then (SzLL, tail l') else (SzL, l')
      else if c =? 104 then if double then (SzHH, tail l') else (SzH, l')
      else if (c =? 116) || (c =? 106) || (c =? 122) then (SzL, l')
      else (SzNone, l)
  end.

Definition read_spec (l : list Z) (vals : list sval) : option (cspec * list Z * list sval) :=
  let '(fs, l) := take_while is_flag l in
  '(minus, width, l, vals) ← read_width l vals;
  '(prec, l, vals) ← read_prec l vals;
  let '(size, l) := read_size l in
  Some ({| c_left := bool_decide (45 ∈ fs) || minus; c_zero := bool_decide (48 ∈ fs);
           c_plus := bool_decide (43 ∈ fs); c_space := bool_decide (32 ∈ fs);
           c_alt := bool_decide (35 ∈ fs); c_width := width; c_prec := prec; c_size := size |},
        l, vals).

(** The value of an integer argument for the size of the conversion. *)
Definition int_value (signed : bool) (sz : csize) (v : sval) : option Z :=
  match sz, v with
  | (SzL | SzLL), SLong z => Some (if signed then sext 64 z else wrap 64 z)
  | SzNone, SInt z => Some (if signed then sext 32 z else wrap 32 z)
  | SzH, SInt z => Some (if signed then sext 16 z else wrap 16 z)
  | SzHH, SInt z => Some (if signed then sext 8 z else wrap 8 z)
  | _, _ => None
  end.

(** The limit of the implementation: a sign, a prefix and digits of at most 32
    characters. *)
Definition fitting (i : ispec) (base v : Z) (neg : bool) : option (list Z) :=
  if len (int_number i base v neg) <=? 32 then Some (int_text i base v neg) else None.

Definition signed_text (c : cspec) (z : Z) : option (list Z) :=
  if z =? - 2 ^ 63 then None
  else fitting {| i_left := c_left c; i_zero := c_zero c; i_plus := c_plus c; i_space := c_space c;
                  i_alt := false; i_upper := false; i_width := c_width c; i_prec := c_prec c |}
         10 (Z.abs z) (z <? 0).

Definition unsigned_text (c : cspec) (base : Z) (upper : bool) (z : Z) : option (list Z) :=
  if (base =? 2) && c_alt c && (z =? 0) && bool_decide (is_Some (c_prec c)) then None
  else fitting {| i_left := c_left c; i_zero := c_zero c; i_plus := false; i_space := false;
                  i_alt := c_alt c && negb (base =? 10); i_upper := upper; i_width := c_width c;
                  i_prec := c_prec c |} base z false.

Definition string_text (c : cspec) (s : list Z) : list Z :=
  align (c_left c) false (c_width c)
    (match c_prec c with Some p => take (Z.to_nat p) s | None => s end).

(** A pointer has 16 digits after [0x]. *)
Definition pointer_text (c : cspec) (p : Z) : option (list Z) :=
  if c_plus c || c_space c || bool_decide (is_Some (c_prec c)) then None
  else fitting {| i_left := c_left c; i_zero := true; i_plus := false; i_space := false;
                  i_alt := true; i_upper := false; i_width := 18; i_prec := None |} 16 p false.

Definition null_text : list Z := [40; 110; 117; 108; 108; 41].
Definition nil_text : list Z := [40; 110; 105; 108; 41].

(** A conversion: its text and the arguments left. *)
Definition convert (c : cspec) (letter : Z) (vals : list sval) : option (list Z * list sval) :=
  let integer (signed : bool) (text : Z → option (list Z)) :=
    v ← head vals; z ← int_value signed (c_size c) v; t ← text z; Some (t, tail vals) in
  if (letter =? 100) || (letter =? 105) then integer true (signed_text c)
  else if letter =? 117 then integer false (unsigned_text c 10 false)
  else if letter =? 120 then integer false (unsigned_text c 16 false)
  else if letter =? 88 then integer false (unsigned_text c 16 true)
  else if letter =? 111 then integer false (unsigned_text c 8 false)
  else if letter =? 98 then integer false (unsigned_text c 2 false)
  else if letter =? 99 then
    match vals with
    | SInt z :: vals => Some (align (c_left c) false (c_width c) [wrap 8 z], vals)
    | _ => None
    end
  else if letter =? 115 then
    match vals with
    | SStr s :: vals => Some (string_text c s, vals)
    | SNull :: vals => Some (align (c_left c) (c_zero c) (c_width c) null_text, vals)
    | _ => None
    end
  else if letter =? 112 then
    match vals with
    | SPtr p :: vals => t ← pointer_text c p; Some (t, vals)
    | SNull :: vals => Some (align (c_left c) true 18 nil_text, vals)
    | _ => None
    end
  else if letter =? 110 then None
  else Some ([letter], vals).

(** The text of a format; every conversion takes at least one character. *)
Fixpoint format_text (fuel : nat) (l : list Z) (vals : list sval) : option (list Z) :=
  match fuel, l with
  | _, [] => Some []
  | O, _ => None
  | S fuel, c :: l =>
      if c =? 37 then
        '(spec, l, vals) ← read_spec l vals;
        match l with
        | [] => None
        | letter :: l =>
            '(t, vals) ← convert spec letter vals;
            cs ← format_text fuel l vals; Some (t ++ cs)
        end
      else cs ← format_text fuel l vals; Some (c :: cs)
  end.

(** How arguments are passed. *)
Inductive val_at (m : cmem) : sval → va_value → Prop :=
| va_int_at z : val_at m (SInt z) (VaInt z)
| va_long_at z : val_at m (SLong z) (VaLong z)
| va_str_at s p : str_at m p s → len s ≤ INT_MAX → val_at m (SStr s) (VaPtr p)
| va_null_at : val_at m SNull (VaPtr NULL)
| va_ptr_at p : 0 < p < 2 ^ 64 → val_at m (SPtr p) (VaPtr p).

(** ** Reading the format *)

Lemma take_while_app P l a b : take_while P l = (a, b) → l = a ++ b ∧ Forall (λ c, P c = true) a.
Proof.
  revert a b. induction l as [|c l IH]; intros a b; simpl.
  { intros [= <- <-]. split; [done|constructor]. }
  destruct (P c) eqn:Hc; [|intros [= <- <-]; split; [done|constructor]].
  destruct (take_while P l) as [a' b'] eqn:Ht. intros [= <- <-].
  destruct (IH a' b' eq_refl) as [-> Ha]. split; [done|by constructor].
Qed.

Lemma str_at_app m s a b : str_at m s (a ++ b) → str_at m (s + len a) b.
Proof.
  intros Hs. pose proof (str_at_drop _ _ _ Hs (len a)) as Hd.
  rewrite Nat2Z.id, drop_app_length in Hd. apply Hd. rewrite length_app. lia.
Qed.

Definition flag_bit (c : Z) : Z :=
  if c =? 48 then FLAGS_ZEROPAD else if c =? 45 then FLAGS_LEFT else if c =? 43 then FLAGS_PLUS
  else if c =? 32 then FLAGS_SPACE else FLAGS_HASH.

Lemma parse_flags_loop_spec m l s fuel flags a b :
  str_at m s l → take_while is_flag l = (a, b) → (length a < fuel)%nat →
  parse_flags_loop fuel m s flags
  = Done (foldl (λ fl c, set_flag fl (flag_bit c)) flags a, s + len a).
Proof.
  revert s fuel flags a b. induction l as [|c l IH]; intros s fuel flags a b Hs Ht Hf;
    (destruct fuel as [|fuel]; [lia|]); simpl in Ht; simpl parse_flags_loop.
  { injection Ht as <- <-. str_step Hs. by rewrite Z.add_0_r. }
  str_step Hs. destruct (take_while is_flag l) as [a' b'] eqn:Htl.
  assert (is_flag c = true → a = c :: a' ∧ (length a' < fuel)%nat ∧ ∀ fl,
    parse_flags_loop fuel m (s + 1) fl
    = Done (foldl (λ fl c, set_flag fl (flag_bit c)) fl a', s + len (c :: a'))) as Hrec.
  { intros Hc'. rewrite Hc' in Ht. injection Ht as <- <-. simpl in Hf. split; [done|].
    split; [lia|]. intros fl. rewrite (IH (s + 1) fuel fl a' b' Hs eq_refl) by lia. do 2 f_equal. simpl. lia. }
  destruct (is_flag c) eqn:Hc'.
  - destruct (Hrec eq_refl) as (-> & _ & Hr). rewrite !Hr. unfold flag_bit. cbn [foldl].
    unfold is_flag in Hc'. destruct (c =? 48); [done|]. destruct (c =? 45); [done|].
    destruct (c =? 43); [done|]. destruct (c =? 32); [done|]. by destruct (c =? 35).
  - injection Ht as <- <-. unfold is_flag in Hc'. apply orb_false_iff in Hc' as [Hc' ->].
    apply orb_false_iff in Hc' as [Hc' ->]. apply orb_false_iff in Hc' as [Hc' ->].
    apply orb_false_iff in Hc' as [-> ->]. by rewrite Z.add_0_r.
Qed.

Lemma decimal_app ds d : decimal (ds ++ [d]) = decimal ds * 10 + (d - 48).
Proof. unfold decimal, number. by rewrite fmap_app, foldl_app. Qed.

Lemma decimal_foldl_le ds v : Forall (λ c, is_digit_ c = true) ds → 0 ≤ v →
  v ≤ foldl (λ v d, v * 10 + d) v ((λ c, c - 48) <$> ds).
Proof.
  intros Hds. revert v. induction Hds as [|d ds Hd _ IH]; intros v Hv; simpl; [lia|].
  unfold is_digit_ in Hd. apply andb_true_iff in Hd as [Hd1%Z.leb_le Hd2%Z.leb_le].
  etrans; [|apply IH; lia]. lia.
Qed.

(** A number in the format that fits. *)
Lemma atou_loop_spec m l s fuel a b i :
  str_at m s l → take_while is_digit_ l = (a, b) → (length a < fuel)%nat → 0 ≤ i →
  foldl (λ v d, v * 10 + d) i ((λ c, c - 48) <$> a) ≤ INT_MAX →
  atou_loop fuel m s i = Done (foldl (λ v d, v * 10 + d) i ((λ c, c - 48) <$> a), s + len a).
Proof.
  revert s fuel a b i. induction l as [|c l IH]; intros s fuel a b i Hs Ht Hf Hi Hmax;
    (destruct fuel as [|fuel]; [lia|]); simpl in Ht; cbn [atou_loop].
  { injection Ht as <- <-. str_step Hs. by rewrite Z.add_0_r. }
  str_step Hs. destruct (take_while is_digit_ l) as [a' b'] eqn:Htl.
  destruct (is_digit_ c) eqn:Hd; injection Ht as <- <-; [|by rewrite Z.add_0_r].
  cbn [fmap list_fmap foldl length] in *. pose proof Hd as Hd'. unfold is_digit_ in Hd'.
  apply andb_true_iff in Hd' as [Hd1%Z.leb_le Hd2%Z.leb_le].
  destruct (take_while_app _ _ _ _ Htl) as [_ Hall].
  pose proof (decimal_foldl_le a' (i * 10 + (c - 48)) Hall ltac:(lia)) as Hle.
  unfold wrap. rewrite Z.mod_small by (unfold INT_MAX in Hmax; lia).
  rewrite (IH _ _ _ _ _ Hs eq_refl) by (done || lia). do 2 f_equal. lia.
Qed.

Lemma atou_spec m l s a b :
  str_at m s l → take_while is_digit_ l = (a, b) → decimal a ≤ INT_MAX →
  atou_ m s = Done (decimal a, s + len a).
Proof.
  intros Hs Ht Hmax. unfold atou_. apply (atou_loop_spec m l s _ a b 0 Hs Ht); [|lia|done].
  pose proof (str_fuel _ _ _ Hs) as Hfuel. apply take_while_app in Ht as [-> _].
  rewrite length_app in Hfuel. unfold mem_fuel. lia.
Qed.

(** ** Flags and specifications *)

(** What the flags say of a specification whose letter is not read yet. *)
Record spec_flags (flags : Z) (c : cspec) : Prop := {
  sf_zero : has flags FLAGS_ZEROPAD = c_zero c;
  sf_left : has flags FLAGS_LEFT = c_left c;
  sf_plus : has flags FLAGS_PLUS = c_plus c;
  sf_space : has flags FLAGS_SPACE = c_space c;
  sf_hash : has flags FLAGS_HASH = c_alt c;
  sf_upper : has flags FLAGS_UPPERCASE = false;
  sf_char : has flags FLAGS_CHAR = match c_size c with SzHH => true | _ => false end;
  sf_short : has flags FLAGS_SHORT = match c_size c with SzH | SzHH => true | _ => false end;
  sf_long : has flags FLAGS_LONG = match c_size c with SzL | SzLL => true | _ => false end;
  sf_llong : has flags FLAGS_LONG_LONG = match c_size c with SzLL => true | _ => false end;
  sf_prec : has flags FLAGS_PRECISION = bool_decide (is_Some (c_prec c));
  sf_pointer : has flags FLAGS_POINTER = false;
  sf_signed : has flags FLAGS_SIGNED = false;
}.

Lemma has_set_flag flags f g : has (set_flag flags f) g = has flags g || has f g.
Proof.
  unfold has, set_flag. rewrite Z.land_lor_distr_l.
  destruct (Z.eqb_spec (flags .& g) 0) as [->|Hn]; simpl; [by rewrite Z.lor_0_l|].
  apply negb_true_iff, Z.eqb_neq. intros Hz. apply Hn. by apply Z.lor_eq_0_iff in Hz as [? _].
Qed.

(** Whether two flags are the same is a computation. *)
Ltac flag_compute :=
  repeat match goal with
  | |- context[has (set_flag _ _) _] => rewrite has_set_flag
  | |- context[has ?f ?g] =>
      is_const f; let b := eval vm_compute in (has f g) in change (has f g) with b
  end; rewrite ?orb_false_r, ?orb_true_r.

Definition c_none : cspec :=
  {| c_left := false; c_zero := false; c_plus := false; c_space := false; c_alt := false;
     c_width := 0; c_prec := None; c_size := SzNone |}.

Lemma spec_flags_none : spec_flags 0 c_none.
Proof. split; by vm_compute. Qed.

(** The specification with the flag of a character. *)
Definition add_flag (c : cspec) (ch : Z) : cspec :=
  {| c_left := c_left c || (ch =? 45); c_zero := c_zero c || (ch =? 48);
     c_plus := c_plus c || (ch =? 43); c_space := c_space c || (ch =? 32);
     c_alt := c_alt c || (ch =? 35); c_width := c_width c; c_prec := c_prec c; c_size := c_size c |}.

Lemma spec_flags_char flags c ch : is_flag ch = true →
  spec_flags flags c → spec_flags (set_flag flags (flag_bit ch)) (add_flag c ch).
Proof.
  unfold is_flag. intros Hc [].
  assert (ch = 48 ∨ ch = 45 ∨ ch = 43 ∨ ch = 32 ∨ ch = 35) as Hch.
  { repeat (apply orb_true_iff in Hc as [Hc|Hc%Z.eqb_eq]; [|by auto]). apply Z.eqb_eq in Hc. auto. }
  destruct Hch as [->|[->|[->|[->| ->]]]];
    (split; cbn [flag_bit Z.eqb Pos.eqb]; flag_compute; cbn; rewrite ?orb_false_r, ?orb_true_r; done).
Qed.

Definition with_chars (c : cspec) (fs : list Z) : cspec :=
  {| c_left := c_left c || bool_decide (45 ∈ fs); c_zero := c_zero c || bool_decide (48 ∈ fs);
     c_plus := c_plus c || bool_decide (43 ∈ fs); c_space := c_space c || bool_decide (32 ∈ fs);
     c_alt := c_alt c || bool_decide (35 ∈ fs); c_width := c_width c; c_prec := c_prec c;
     c_size := c_size c |}.

Lemma elem_of_cons_dec (x ch : Z) fs :
  bool_decide (x ∈ ch :: fs) = (ch =? x) || bool_decide (x ∈ fs).
Proof.
  destruct (Z.eqb_spec ch x) as [->|Hne]; simpl.
  - apply bool_decide_true. left.
  - apply bool_decide_ext. rewrite elem_of_cons. naive_solver.
Qed.

Lemma spec_flags_chars flags c fs : Forall (λ ch, is_flag ch = true) fs →
  spec_flags flags c →
  spec_flags (foldl (λ fl ch, set_flag fl (flag_bit ch)) flags fs) (with_chars c fs).
Proof.
  intros Hfs. revert flags c. induction Hfs as [|ch fs Hch _ IH]; intros flags c Hsf; simpl.
  - destruct Hsf. split; simpl; rewrite ?orb_false_r; done.
  - pose proof (IH _ _ (spec_flags_char _ _ _ Hch Hsf)) as Hn.
    unfold with_chars in *. rewrite !elem_of_cons_dec.
    destruct Hn; simpl in *. split; simpl; rewrite ?orb_assoc; done.
Qed.

Definition set_width (c : cspec) (minus : bool) (w : Z) : cspec :=
  {| c_left := c_left c || minus; c_zero := c_zero c; c_plus := c_plus c; c_space := c_space c;
     c_alt := c_alt c; c_width := w; c_prec := c_prec c; c_size := c_size c |}.
Definition set_prec (c : cspec) (p : option Z) : cspec :=
  {| c_left := c_left c; c_zero := c_zero c; c_plus := c_plus c; c_space := c_space c;
     c_alt := c_alt c; c_width := c_width c; c_prec := p; c_size := c_size c |}.
Definition set_size (c : cspec) (sz : csize) : cspec :=
  {| c_left := c_left c; c_zero := c_zero c; c_plus := c_plus c; c_space := c_space c;
     c_alt := c_alt c; c_width := c_width c; c_prec := c_prec c; c_size := sz |}.

Lemma spec_flags_width flags c (minus : bool) w : spec_flags flags c →
  spec_flags (if minus then set_flag flags FLAGS_LEFT else flags) (set_width c minus w).
Proof.
  intros []. destruct minus; split; simpl; flag_compute; rewrite ?orb_false_r, ?orb_true_r; done.
Qed.

Lemma spec_flags_prec flags c p : spec_flags flags c →
  spec_flags (set_flag flags FLAGS_PRECISION) (set_prec c (Some p)).
Proof.
  intros []. split; simpl; flag_compute; try done.
Qed.

Lemma spec_flags_size flags c (sz : csize) fl : spec_flags flags c → c_size c = SzNone →
  (sz = SzL ∧ fl = set_flag flags FLAGS_LONG) ∨
  (sz = SzLL ∧ fl = set_flag (set_flag flags FLAGS_LONG) FLAGS_LONG_LONG) ∨
  (sz = SzH ∧ fl = set_flag flags FLAGS_SHORT) ∨
  (sz = SzHH ∧ fl = set_flag (set_flag flags FLAGS_SHORT) FLAGS_CHAR) →
  spec_flags fl (set_size c sz).
Proof.
  intros [] Hsz Hor. rewrite Hsz in *.
  destruct Hor as [[-> ->]|[[-> ->]|[[-> ->]|[-> ->]]]]; split; simpl; flag_compute; done.
Qed.

(** ** Parsing a specification *)

Lemma advance_spec {T} m s c l (k : Z → outcome (option T)) :
  str_at m s (c :: l) → l ≠ [] → advance m s k = k (s + 1).
Proof.
  intros Hs Hl. destruct l as [|c' l]; [done|]. apply str_at_cons in Hs as (_ & _ & Hs).
  apply str_at_cons in Hs as (Hload & Hc & _). unfold advance. rewrite Hload. cbn [mbind outcome_bind].
  by rewrite (proj2 (Z.eqb_neq c' 0)) by lia.
Qed.

Lemma load_head m s l c : str_at m s l → 0 < c →
  ∃ b, load m s = Done b ∧ (b =? c) = bool_decide (head l = Some c) ∧ (l = [] → b = 0) ∧
    (∀ x r, l = x :: r → b = x).
Proof.
  intros Hs Hc. destruct l as [|x l].
  - exists 0. split; [by apply str_at_nil|]. split_and!; [|done|done].
    rewrite bool_decide_false by done. apply Z.eqb_neq. lia.
  - apply str_at_cons in Hs as (Hl & Hx & _). exists x. split_and!; [done| |done|by intros ?? [= -> _]].
    simpl. destruct (Z.eqb_spec x c) as [->|Hne]; [by rewrite bool_decide_true|].
    rewrite bool_decide_false; [done|]. congruence.
Qed.

(** The specification parsed so far and what it stands for; [e] is the end
    of the format. *)
Record parsed (m0 m : cmem) (e : Z) (f : fspec) (c : cspec) (l : list Z) (vals : list sval) : Prop := {
  pa_flags : spec_flags (f_flags f) c;
  pa_width : f_width f = c_width c;
  pa_prec : f_precision f = default 0 (c_prec c);
  pa_str : str_at m (f_format f) l;
  pa_vals : Forall2 (val_at m0) vals (f_args f);
  pa_width_ok : 0 ≤ c_width c ≤ INT_MAX;
  pa_prec_ok p : c_prec c = Some p → 0 ≤ p ≤ INT_MAX;
  pa_end : f_format f + len l = e;
}.

Lemma sext_range n z : 0 < n → - 2 ^ (n - 1) ≤ sext n z < 2 ^ (n - 1).
Proof.
  intros Hn. unfold sext, wrap. assert (2 ^ n = 2 * 2 ^ (n - 1)) as Hp
    by (rewrite <- Z.pow_succ_r by lia; f_equal; lia).
  pose proof (Z.mod_pos_bound z (2 ^ n) ltac:(lia)).
  destruct (Z.ltb_spec (z mod 2 ^ n) (2 ^ (n - 1))); lia.
Qed.

Lemma decimal_nonneg ds : Forall (λ c, is_digit_ c = true) ds → 0 ≤ decimal ds.
Proof. intros Hds. by apply (decimal_foldl_le ds 0). Qed.

Lemma head_digit l ds r : take_while is_digit_ l = (ds, r) →
  match l with
  | [] => ds = [] ∧ r = []
  | c :: _ => if is_digit_ c then True else ds = [] ∧ r = l
  end.
Proof. destruct l as [|c l]; simpl; [by intros [= <- <-]|]. destruct (is_digit_ c); [done|]. by intros [= <- <-]. Qed.

Lemma parse_width_spec m0 m e l s flags c vals args minus w l' vals' :
  str_at m s l → spec_flags flags c → Forall2 (val_at m0) vals args → c_prec c = None → c_width c = 0 →
  s + len l = e → read_width l vals = Some (minus, w, l', vals') → l' ≠ [] →
  ∃ f, parse_width m flags s args = Done (Some f) ∧ parsed m0 m e f (set_width c minus w) l' vals'.
Proof.
  intros Hs Hf Hv Hp Hcw He Hr Hl'. unfold parse_width, read_width in *.
  destruct (load_head m s l 42 Hs ltac:(lia)) as (b & Hload & Hb & Hnil & Hcons).
  rewrite Hload. cbn [mbind outcome_bind]. rewrite Hb.
  case_bool_decide as Hstar.
  - destruct l as [|x l]; [done|]. injection Hstar as ->. rewrite (Hcons 42 l eq_refl). cbn [is_digit_].
    change (is_digit_ 42) with false. cbv iota.
    destruct vals as [|[z| | | |] vals]; try done.
    apply Forall2_cons_inv_l in Hv as (a & args' & Ha & Hv & ->). inversion Ha; subst a.
    pose proof (sext_range 32 z ltac:(lia)) as Hrange. cbn zeta in Hr.
    destruct (Z.eqb_spec (sext 32 z) (- 2 ^ 31)) as [|Hmin]; [done|]. injection Hr as <- <- <- <-.
    cbn [tail] in Hl'. unfold va_int. cbn [mbind outcome_bind].
    change (2 ^ (32 - 1)) with (2 ^ 31) in Hrange. apply str_at_cons in Hs as Hs'. destruct Hs' as (_ & _ & Hs').
    assert (∀ minus : bool, parsed m0 m e {| f_flags := if minus then set_flag flags FLAGS_LEFT else flags;
      f_width := Z.abs (sext 32 z); f_precision := 0; f_format := s + 1; f_args := args' |}
      (set_width c minus (Z.abs (sext 32 z))) l vals) as Hpar.
    { intros minus. split; simpl; [by apply spec_flags_width|done|by rewrite Hp|done|done| |by rewrite Hp|simpl in He; lia].
      unfold INT_MAX. lia. }
    destruct (Z.ltb_spec (sext 32 z) 0) as [Hneg|Hneg].
    + unfold int_range. rewrite (proj2 (Z.leb_le _ _)), (proj2 (Z.ltb_lt _ _)) by lia.
      cbn [andb mbind outcome_bind]. rewrite (advance_spec m s 42 l) by done.
      replace (- sext 32 z) with (Z.abs (sext 32 z)) by lia. eexists. split; [done|apply (Hpar true)].
    + cbn [mbind outcome_bind]. rewrite (advance_spec m s 42 l) by done.
      eexists. split; [done|]. pose proof (Hpar false) as Hq. rewrite Z.abs_eq in Hq |- * by done. exact Hq.
  - destruct (take_while is_digit_ l) as [ds r] eqn:Ht.
    destruct (Z.leb_spec (decimal ds) INT_MAX) as [Hmax|]; [|done]. injection Hr as <- <- <- <-.
    destruct (take_while_app _ _ _ _ Ht) as [Heq Hall]. pose proof (decimal_nonneg ds Hall) as Hnn.
    pose proof (head_digit _ _ _ Ht) as Hhd.
    assert (str_at m (s + len ds) r) as Hs' by (apply str_at_app; by rewrite <- Heq).
    assert (parsed m0 m e {| f_flags := flags; f_width := decimal ds; f_precision := 0;
      f_format := s + len ds; f_args := args |} (set_width c false (decimal ds)) r vals) as Hpar.
    { split; simpl; [by apply (spec_flags_width _ _ false)|done|by rewrite Hp|done|done|lia|by rewrite Hp|].
      rewrite Heq, length_app in He. lia. }
    destruct (is_digit_ b) eqn:Hdig.
    + rewrite (atou_spec _ _ _ _ _ Hs Ht Hmax). cbn [mbind outcome_bind]. eexists. split; [done|exact Hpar].
    + assert (ds = [] ∧ r = l) as [-> ->].
      { destruct l as [|x l]; [by rewrite (proj1 Hhd), (proj2 Hhd)|].
        rewrite (Hcons x l eq_refl) in Hdig. by rewrite Hdig in Hhd. }
      eexists. split; [done|]. simpl in Hpar. rewrite Z.add_0_r in Hpar. exact Hpar.
Qed.

Lemma parse_precision_spec m0 m e f c l vals p l' vals' :
  parsed m0 m e f c l vals → c_prec c = None → read_prec l vals = Some (p, l', vals') → l' ≠ [] →
  ∃ f', parse_precision m f = Done (Some f') ∧ parsed m0 m e f' (set_prec c p) l' vals'.
Proof.
  intros [Hf Hw Hp Hs Hv Hwok Hpok He] Hnone Hr Hl'. unfold parse_precision, read_prec in *.
  destruct (load_head m (f_format f) l 46 Hs ltac:(lia)) as (b & Hload & Hb & _ & _).
  rewrite Hload. cbn [mbind outcome_bind]. rewrite Hb. case_bool_decide as Hdot.
  2: { injection Hr as <- <- <-. eexists. split; [done|]. rewrite Hnone in Hp.
       split; simpl; try done. destruct Hf. rewrite Hnone in *. by split. }
  destruct l as [|x l]; [done|]. injection Hdot as ->. cbn [tail] in Hr.
  assert (l ≠ []) as Hne.
  { intros ->. cbn [head take_while] in Hr. rewrite bool_decide_false in Hr by done.
    by injection Hr as <- <- <-. }
  rewrite (advance_spec m (f_format f) 46 l) by done. apply str_at_cons in Hs as (_ & _ & Hs).
  set (s := f_format f + 1) in *.
  destruct (load_head m s l 42 Hs ltac:(lia)) as (b' & Hload' & Hb' & Hnil & Hcons).
  rewrite Hload'. cbn [mbind outcome_bind]. rewrite Hb'.
  case_bool_decide as Hstar.
  - destruct l as [|x l]; [done|]. injection Hstar as ->. rewrite (Hcons 42 l eq_refl).
    change (is_digit_ 42) with false. cbv iota.
    destruct vals as [|[z| | | |] vals]; try done.
    apply Forall2_cons_inv_l in Hv as (a & args' & Ha & Hv & Hargs). rewrite Hargs. inversion Ha; subst a.
    cbn zeta in Hr. destruct (Z.ltb_spec (sext 32 z) 0) as [|Hpos]; [done|]. injection Hr as <- <- <-.
    cbn [tail] in *. unfold va_int. cbn [mbind outcome_bind]. rewrite (advance_spec m s 42 l) by done.
    eexists. split; [done|]. pose proof (sext_range 32 z ltac:(lia)) as Hrange.
    assert ((if sext 32 z >? 0 then sext 32 z else 0) = sext 32 z) as ->
      by (rewrite Z.gtb_ltb; destruct (Z.ltb_spec 0 (sext 32 z)); lia).
    split; simpl; [by apply spec_flags_prec|done|done| |done|done| |subst s; simpl in He; lia].
    + by apply str_at_cons in Hs as (_ & _ & ?).
    + intros p [= <-]. unfold INT_MAX. change (2 ^ (32 - 1)) with (2 ^ 31) in Hrange. lia.
  - destruct (take_while is_digit_ l) as [ds r] eqn:Ht.
    destruct (Z.leb_spec (decimal ds) INT_MAX) as [Hmax|]; [|done]. injection Hr as <- <- <-.
    destruct (take_while_app _ _ _ _ Ht) as [Heq Hall]. pose proof (decimal_nonneg ds Hall) as Hnn.
    pose proof (head_digit _ _ _ Ht) as Hhd.
    assert (str_at m (s + len ds) r) as Hs' by (apply str_at_app; by rewrite <- Heq).
    assert (parsed m0 m e {| f_flags := set_flag (f_flags f) FLAGS_PRECISION; f_width := f_width f;
      f_precision := decimal ds; f_format := s + len ds; f_args := f_args f |}
      (set_prec c (Some (decimal ds))) r vals) as Hpar.
    { split; simpl; [by apply spec_flags_prec|done|done|done|done|done|by intros p [= <-]|].
      simpl in He. rewrite Heq, length_app in He. subst s. lia. }
    destruct (is_digit_ b') eqn:Hdig.
    + rewrite (atou_spec _ _ _ _ _ Hs Ht Hmax). cbn [mbind outcome_bind]. eexists. split; [done|exact Hpar].
    + assert (ds = [] ∧ r = l) as [-> ->].
      { destruct l as [|x l]; [done|]. rewrite (Hcons x l eq_refl) in Hdig. by rewrite Hdig in Hhd. }
      eexists. split; [done|]. simpl in Hpar. rewrite Z.add_0_r in Hpar. exact Hpar.
Qed.

Lemma parse_length_spec m0 m e f c l vals sz l' :
  parsed m0 m e f c l vals → c_size c = SzNone → read_size l = (sz, l') → l' ≠ [] →
  ∃ f', parse_length m f = Done (Some f') ∧ parsed m0 m e f' (set_size c sz) l' vals.
Proof.
  intros [Hf Hw Hp Hs Hv Hwok Hpok He] Hnone Hr Hl'. unfold parse_length, read_size in *.
  destruct l as [|x l]; [by injection Hr as <- <-|].
  apply str_at_cons in Hs as Hs'. destruct Hs' as (Hload & Hx & Hs1). rewrite Hload. cbn [mbind outcome_bind].
  assert (∀ fl sz' s r, spec_flags fl (set_size c sz') → str_at m s r → s + len r = e →
    parsed m0 m e {| f_flags := fl; f_width := f_width f; f_precision := f_precision f;
                f_format := s; f_args := f_args f |} (set_size c sz') r vals) as Hpar by by split.
  assert (∀ (fl1 fl2 : Z) szs szd,
    (if bool_decide (head l = Some x) then (szd, tail l) else (szs, l)) = (sz, l') →
    spec_flags (set_flag (f_flags f) fl1) (set_size c szs) →
    spec_flags (set_flag (set_flag (f_flags f) fl1) fl2) (set_size c szd) →
    ∃ f', advance m (f_format f) (λ format,
      let f := with_flag fl1 format f in
      c2 ← load m format;
      if c2 =? x then advance m format (λ format, Done (Some (with_flag fl2 format f)))
      else Done (Some f)) = Done (Some f') ∧ parsed m0 m e f' (set_size c sz) l' vals) as Hdouble.
  { intros fl1 fl2 szs szd Hrd H1 H2. assert (l ≠ []) as Hne.
    { intros ->. cbn [head] in Hrd. rewrite bool_decide_false in Hrd by done. by injection Hrd as _ <-. }
    rewrite (advance_spec m _ x l) by done. cbn zeta.
    destruct (load_head m (f_format f + 1) l x Hs1 ltac:(lia)) as (b & Hlb & Hb & _ & _).
    rewrite Hlb. cbn [mbind outcome_bind]. rewrite Hb. case_bool_decide as Hh; injection Hrd as <- <-.
    - destruct l as [|y l]; [done|]. injection Hh as ->. cbn [tail] in *.
      rewrite (advance_spec m (f_format f + 1) x l) by done. eexists. split; [done|].
      apply Hpar; [done| |simpl in He; lia]. by apply str_at_cons in Hs1 as (_ & _ & ?).
    - eexists. split; [done|]. apply Hpar; [done|done|simpl in He; lia]. }
  destruct (Z.eqb_spec x 108) as [->|H108]; [eapply Hdouble; [exact Hr|..]; eapply spec_flags_size; eauto 8|].
  destruct (Z.eqb_spec x 104) as [->|H104]; [eapply Hdouble; [exact Hr|..]; eapply spec_flags_size; eauto 8|].
  destruct ((x =? 116) || (x =? 106) || (x =? 122)); injection Hr as <- <-.
  - rewrite (advance_spec m _ x l) by done. eexists. split; [done|].
    apply Hpar; [|done|simpl in He; lia]. eapply spec_flags_size; eauto.
  - eexists. split; [done|]. split; simpl; try done. destruct Hf. rewrite Hnone in *. by split.
Qed.

Lemma parse_spec_spec m0 m s l vals args c l' vals' :
  str_at m s l → Forall2 (val_at m0) vals args → read_spec l vals = Some (c, l', vals') → l' ≠ [] →
  ∃ f, parse_spec m s args = Done (Some f) ∧ parsed m0 m (s + len l) f c l' vals'.
Proof.
  intros Hs Hv Hr Hl'. unfold read_spec, parse_spec, parse_flags in *.
  destruct (take_while is_flag l) as [fs l1] eqn:Ht.
  destruct (take_while_app _ _ _ _ Ht) as [Heq Hall].
  rewrite (parse_flags_loop_spec m l s _ 0 fs l1 Hs Ht).
  2: { pose proof (str_fuel _ _ _ Hs) as Hfuel. subst l. rewrite length_app in Hfuel. unfold mem_fuel. lia. }
  cbn [mbind outcome_bind option_bind] in *.
  destruct (read_width l1 vals) as [[[[minus w] l2] vals2]|] eqn:Hrw; [|done]. cbn in Hr.
  destruct (read_prec l2 vals2) as [[[p l3] vals3]|] eqn:Hrp; [|done]. cbn in Hr.
  destruct (read_size l3) as [sz l4] eqn:Hrs. injection Hr as <- <- <-.
  assert (l3 ≠ []) as Hl3 by (intros ->; cbn in Hrs; by injection Hrs as <- <-).
  assert (l2 ≠ []) as Hl2 by (intros ->; cbn in Hrp; by injection Hrp as <- <- <-).
  pose proof (spec_flags_chars 0 c_none fs Hall spec_flags_none) as Hsf.
  assert (str_at m (s + len fs) l1) as Hs1 by (apply str_at_app; by rewrite <- Heq).
  destruct (parse_width_spec m0 m (s + len l) l1 _ _ _ vals args minus w l2 vals2 Hs1 Hsf Hv eq_refl eq_refl ltac:(subst l; rewrite length_app; lia) Hrw Hl2)
    as (f1 & -> & Hf1).
  destruct (parse_precision_spec m0 m (s + len l) f1 _ l2 vals2 p l3 vals3 Hf1 eq_refl Hrp Hl3) as (f2 & Hf2 & Hp2).
  destruct (parse_length_spec m0 m (s + len l) f2 _ l3 vals3 sz l4 Hp2 eq_refl Hrs Hl') as (f3 & Hf3 & Hp3).
  cbn [mbind outcome_bind]. rewrite Hf2. cbn [mbind outcome_bind]. exists f3. split; [done|exact Hp3].
Qed.

(** ** Conversions *)

Lemma has_clear_flag flags f g k : g = 2 ^ k → 0 ≤ k →
  has (clear_flag flags f) g = has flags g && negb (has f g).
Proof. intros -> Hk. rewrite !has_pow2 by done. apply Z.ldiff_spec. Qed.

(** All flags after updates, by computation. *)
Ltac flags_after :=
  repeat match goal with
  | |- context[has (set_flag _ _) _] => rewrite has_set_flag
  | |- context[has (clear_flag ?f ?h) ?g] =>
      rewrite (has_clear_flag f h g (Z.log2 g)) by (by vm_compute)
  | |- context[has ?f ?g] =>
      first [is_const f | lazymatch f with Z.lor _ _ => idtac end];
      let b := eval vm_compute in (has f g) in change (has f g) with b
  end; cbn [negb]; rewrite ?orb_false_r, ?orb_true_r, ?andb_false_r, ?andb_true_r.

Lemma wrap_wrap a b z : 0 ≤ a ≤ b → wrap a (wrap b z) = wrap a z.
Proof.
  intros Hab. unfold wrap. apply Z.mod_mod_divide. by apply pow2_divides.
Qed.

Lemma wrap_sext a b z : 0 < a ≤ b → wrap a (sext b z) = wrap a z.
Proof.
  intros Hab. unfold sext. destruct (_ <? _); [apply wrap_wrap; lia|].
  rewrite <- (wrap_wrap a b z) by lia. unfold wrap. rewrite Zminus_mod.
  replace (2 ^ b mod 2 ^ a) with 0; [by rewrite Z.sub_0_r, Z.mod_mod by lia|].
  symmetry. apply Z.mod_divide; [lia|]. apply pow2_divides. lia.
Qed.

Lemma sext_sext a b z : 0 < a ≤ b → sext a (sext b z) = sext a z.
Proof. intros Hab. unfold sext at 1 3. by rewrite wrap_sext. Qed.

(** The integer argument that a conversion takes. *)
Lemma integer_arg_signed flags c m0 v a args z :
  spec_flags flags c → val_at m0 v a → int_value true (c_size c) v = Some z → z ≠ - 2 ^ 63 →
  ∀ fl, has fl FLAGS_SIGNED = true →
    (∀ g, g ∈ [FLAGS_CHAR; FLAGS_SHORT; FLAGS_LONG; FLAGS_LONG_LONG] → has fl g = has flags g) →
  integer_arg fl (a :: args) = Done (Z.abs z, z <? 0, args).
Proof.
  intros Hsf Ha Hz Hmin fl Hs Hg. unfold integer_arg.
  rewrite Hs, !Hg by set_solver. rewrite (sf_llong _ _ Hsf), (sf_long _ _ Hsf), (sf_char _ _ Hsf), (sf_short _ _ Hsf).
  assert (∀ z', z' = z → (abs ← ABS_FOR_PRINTING z'; Done (abs, z' <? 0, args)) = Done (Z.abs z, z <? 0, args)) as Habs.
  { intros ? ->. unfold ABS_FOR_PRINTING. rewrite Z.gtb_ltb. destruct (Z.ltb_spec 0 z).
    - cbn [mbind outcome_bind]. by rewrite Z.abs_eq by lia.
    - rewrite (proj2 (Z.eqb_neq _ _) Hmin). cbn [mbind outcome_bind]. by rewrite Z.abs_neq by lia. }
  destruct (c_size c), v as [y|y|y| |y]; try done; injection Hz as <-; inversion Ha; subst a;
    cbn [mbind outcome_bind va_int va_long]; apply Habs; by rewrite ?sext_sext by lia.
Qed.

Lemma integer_arg_unsigned flags c m0 v a args z :
  spec_flags flags c → val_at m0 v a → int_value false (c_size c) v = Some z →
  ∀ fl, has fl FLAGS_SIGNED = false →
    (∀ g, g ∈ [FLAGS_CHAR; FLAGS_SHORT; FLAGS_LONG; FLAGS_LONG_LONG] → has fl g = has flags g) →
  integer_arg fl (a :: args) = Done (z, false, args).
Proof.
  intros Hsf Ha Hz fl Hs Hg. unfold integer_arg.
  rewrite Hs, !Hg by set_solver. rewrite (sf_llong _ _ Hsf), (sf_long _ _ Hsf), (sf_char _ _ Hsf), (sf_short _ _ Hsf).
  destruct (c_size c), v as [y|y|y| |y]; try done; injection Hz as <-; inversion Ha; subst a;
    cbn [mbind outcome_bind va_uint va_ulong]; by rewrite ?wrap_wrap by lia.
Qed.

Lemma int_value_range signed sz v z : int_value signed sz v = Some z →
  if signed then - 2 ^ 63 ≤ z < 2 ^ 63 else 0 ≤ z < 2 ^ 64.
Proof.
  pose proof (sext_range 64). pose proof (sext_range 32). pose proof (sext_range 16). pose proof (sext_range 8).
  assert (∀ n z, 0 < n ≤ 64 → 0 ≤ wrap n z < 2 ^ 64) as Hw.
  { intros n y Hn. pose proof (Z.mod_pos_bound y (2 ^ n) ltac:(lia)) as Hb. fold (wrap n y) in Hb.
    assert (2 ^ n ≤ 2 ^ 64) by (apply Z.pow_le_mono_r; lia). lia. }
  destruct signed, sz, v as [y|y|y| |y]; try done; intros [= <-]; try (apply Hw; lia);
    match goal with |- context[sext ?n y] => pose proof (sext_range n y ltac:(lia)) end;
    simpl Z.sub in *; lia.
Qed.

(** The flags after the letter of an integer conversion. *)
Lemma signed_flags flags c letter : spec_flags flags c → letter = 100 ∨ letter = 105 →
  ∃ fl, integer_base letter flags = (10, fl) ∧ has fl FLAGS_SIGNED = true ∧
    (∀ g, g ∈ [FLAGS_CHAR; FLAGS_SHORT; FLAGS_LONG; FLAGS_LONG_LONG] → has fl g = has flags g) ∧
    int_flags fl {| i_left := c_left c; i_zero := c_zero c; i_plus := c_plus c; i_space := c_space c;
                    i_alt := false; i_upper := false; i_width := c_width c; i_prec := c_prec c |} 10 false.
Proof.
  intros Hsf Hl. assert (integer_base letter flags =
    (10, let fl := clear_flag (set_flag flags FLAGS_SIGNED) FLAGS_HASH in
         if has fl FLAGS_PRECISION then clear_flag fl FLAGS_ZEROPAD else fl)) as ->
    by (destruct Hl as [-> | ->]; done).
  eexists. split; [done|]. destruct Hsf. cbn zeta.
  replace (has (clear_flag (set_flag flags FLAGS_SIGNED) FLAGS_HASH) FLAGS_PRECISION)
    with (bool_decide (is_Some (c_prec c))) by (flags_after; done).
  case_bool_decide as Hp; (split; [flags_after; done|split]).
  1,3: intros g Hg; repeat (apply elem_of_cons in Hg as [->|Hg]; [flags_after; done|]);
       by apply elem_of_nil in Hg.
  - split; simpl; flags_after; rewrite ?bool_decide_true, ?andb_false_r by done; done.
  - split; simpl; flags_after; rewrite ?bool_decide_false, ?andb_true_r by done; done.
Qed.

Lemma unsigned_flags flags c letter base (upper : bool) : spec_flags flags c →
  (letter, base, upper) ∈ [(117, 10, false); (120, 16, false); (88, 16, true); (111, 8, false); (98, 2, false)] →
  ∃ fl, integer_base letter flags = (base, fl) ∧ has fl FLAGS_SIGNED = false ∧
    (∀ g, g ∈ [FLAGS_CHAR; FLAGS_SHORT; FLAGS_LONG; FLAGS_LONG_LONG] → has fl g = has flags g) ∧
    int_flags (clear_flag fl (FLAGS_PLUS .| FLAGS_SPACE))
      {| i_left := c_left c; i_zero := c_zero c; i_plus := false; i_space := false;
         i_alt := c_alt c && negb (base =? 10); i_upper := upper; i_width := c_width c;
         i_prec := c_prec c |} base (c_alt c && negb (base =? 10)) ∧
    has (clear_flag fl (FLAGS_PLUS .| FLAGS_SPACE)) FLAGS_POINTER = false.
Proof.
  intros Hsf Hl.
  assert (∃ fl1, integer_base letter flags =
      (base, if has fl1 FLAGS_PRECISION then clear_flag fl1 FLAGS_ZEROPAD else fl1) ∧
    (fl1 = clear_flag flags FLAGS_HASH ∧ base = 10 ∧ upper = false ∨
     fl1 = flags ∧ base ≠ 10 ∧ upper = false ∨
     fl1 = set_flag flags FLAGS_UPPERCASE ∧ base ≠ 10 ∧ upper = true)) as (fl1 & -> & Hfl1).
  { repeat (apply elem_of_cons in Hl as [[= -> -> ->]|Hl]; [eexists; split; [reflexivity|by auto 6]|]).
    by apply elem_of_nil in Hl. }
  eexists. split; [done|]. destruct Hsf.
  assert (has fl1 FLAGS_PRECISION = bool_decide (is_Some (c_prec c))) as ->
    by (destruct Hfl1 as [(-> & _)|[(-> & _)|(-> & _)]]; flags_after; done).
  destruct Hfl1 as [(-> & -> & ->)|[(-> & Hb & ->)|(-> & Hb & ->)]];
    case_bool_decide as Hp; (split; [flags_after; done|split]).
  1,3,5,7,9,11: intros g Hg; repeat (apply elem_of_cons in Hg as [->|Hg]; [flags_after; done|]);
       by apply elem_of_nil in Hg.
  all: split; [|flags_after; done].
  all: split; simpl; flags_after; try done; rewrite ?bool_decide_true, ?bool_decide_false by done;
    rewrite ?(proj2 (Z.eqb_neq base 10) Hb), ?andb_true_r, ?andb_false_r; try done.
  all: by rewrite sf_hash0, sf_pointer0, orb_false_r.
Qed.

Lemma fitting_puts flags i base v neg t st :
  int_flags flags i base (i_alt i) → fitting i base v neg = Some t →
  base = 2 ∨ base = 8 ∨ base = 10 ∨ base = 16 → 0 ≤ v < 2 ^ 64 →
  (has flags FLAGS_POINTER = true → v ≠ 0) → (base = 10 → i_alt i = false) →
  (i_alt i = true → int_sign i neg = []) → (base = 2 → i_alt i = true → v = 0 → i_prec i = None) →
  word_ok (i_width i) → word_ok (pos st.2) →
  print_integer v neg base (default 0 (i_prec i)) (i_width i) flags st = puts t st.
Proof.
  intros Hf Ht Hb Hv Hp Hd Hs Hbin Hw Hpos. unfold fitting in Ht.
  destruct (Z.leb_spec (len (int_number i base v neg)) 32) as [Hfit|]; [|done]. injection Ht as <-.
  apply print_integer_puts; [|done]. by split.
Qed.

(** What a conversion does: its text, and the arguments left. *)
Definition converts (m0 : cmem) (r : outcome (pstate * list va_value)) (t : list Z) (vals : list sval)
    (st : pstate) : Prop :=
  ∃ args, r = (st ← puts t st; Done (st, args)) ∧ Forall2 (val_at m0) vals args.

Lemma print_int_signed m0 m e f c letter l vals v z t st :
  parsed m0 m e f c (letter :: l) (v :: vals) → letter = 100 ∨ letter = 105 →
  int_value true (c_size c) v = Some z → signed_text c z = Some t → word_ok (pos st.2) →
  converts m0 (print_int_spec letter f st) t vals st.
Proof.
  intros [Hf Hw Hp Hs Hv Hwok Hpok He] Hl Hz Ht Hpos.
  destruct (signed_flags _ _ _ Hf Hl) as (fl & Hbase & Hsig & Hsz & Hfl).
  unfold print_int_spec. rewrite Hbase. unfold signed_text in Ht.
  destruct (Z.eqb_spec z (- 2 ^ 63)) as [|Hmin]; [done|].
  apply Forall2_cons_inv_l in Hv as (a & args' & Ha & Hv & Hargs).
  rewrite Hargs, (integer_arg_signed _ _ _ _ _ _ _ Hf Ha Hz Hmin fl Hsig Hsz).
  cbn [mbind outcome_bind]. rewrite Hsig, Hw, Hp.
  pose proof (int_value_range _ _ _ _ Hz) as Hrange. simpl in Hrange.
  pose proof (fitting_puts fl _ 10 _ _ t st Hfl Ht) as Hpr. cbn [i_prec i_width i_alt] in Hpr.
  rewrite Hpr; [by exists args'|auto|lia| |done..| |done].
  - by rewrite (if_pointer _ _ _ _ Hfl).
  - unfold word_ok, INT_MAX in *. lia.
Qed.

Lemma print_int_unsigned m0 m e f c letter base upper l vals v z t st :
  parsed m0 m e f c (letter :: l) (v :: vals) →
  (letter, base, upper) ∈ [(117, 10, false); (120, 16, false); (88, 16, true); (111, 8, false); (98, 2, false)] →
  int_value false (c_size c) v = Some z → unsigned_text c base upper z = Some t → word_ok (pos st.2) →
  converts m0 (print_int_spec letter f st) t vals st.
Proof.
  intros [Hf Hw Hp Hs Hv Hwok Hpok He] Hl Hz Ht Hpos.
  destruct (unsigned_flags _ _ _ _ _ Hf Hl) as (fl & Hbase & Hsig & Hsz & Hfl & Hnp).
  unfold print_int_spec. rewrite Hbase. unfold unsigned_text in Ht.
  destruct ((base =? 2) && c_alt c && (z =? 0) && bool_decide (is_Some (c_prec c))) eqn:Hbin; [done|].
  apply Forall2_cons_inv_l in Hv as (a & args' & Ha & Hv & Hargs).
  rewrite Hargs, (integer_arg_unsigned _ _ _ _ _ _ _ Hf Ha Hz fl Hsig Hsz).
  cbn [mbind outcome_bind]. rewrite Hsig, Hw, Hp.
  pose proof (int_value_range _ _ _ _ Hz) as Hrange. simpl in Hrange.
  assert (base = 2 ∨ base = 8 ∨ base = 10 ∨ base = 16) as Hb.
  { repeat (apply elem_of_cons in Hl as [[= _ -> _]|Hl]; [by auto|]). by apply elem_of_nil in Hl. }
  pose proof (fitting_puts _ _ base _ _ t st Hfl Ht) as Hpr. cbn [i_prec i_width i_alt] in Hpr.
  rewrite Hpr; [by exists args'|done|done| | |done| | |done].
  - by rewrite Hnp.
  - intros ->. apply andb_false_r.
  - intros -> [Ha1 _]%andb_true_iff ->. rewrite Ha1 in Hbin. cbn in Hbin.
    case_bool_decide as Hpr'; [done|]. by destruct (c_prec c); [destruct Hpr'|].
  - unfold word_ok, INT_MAX in *. lia.
Qed.

(** *** Characters *)

Lemma putchar_wrap c st : putchar_via_gadget (wrap 8 c) st = putchar_via_gadget c st.
Proof.
  destruct st as [m g]. unfold putchar_via_gadget, store. by rewrite wrap_wrap by lia.
Qed.

Lemma puts_one c st : puts [c] st = putchar_via_gadget c st.
Proof. simpl. unfold mbind, outcome_bind. by destruct (putchar_via_gadget c st). Qed.

Lemma spaces_to_one width c : spaces_to width [c] = replicate (Z.to_nat (width - 1)) 32.
Proof. done. Qed.

Lemma print_char_puts m0 m e f c l vals z st :
  parsed m0 m e f c l (SInt z :: vals) →
  converts m0 (print_char_spec f st) (align (c_left c) false (c_width c) [wrap 8 z]) vals st.
Proof.
  intros [Hf Hw Hp Hs Hv Hwok Hpok He]. apply Forall2_cons_inv_l in Hv as (a & args' & Ha & Hv & Hargs).
  inversion Ha; subst a. exists args'. split; [|done]. unfold print_char_spec.
  rewrite (sf_left _ _ Hf), Hw, Hargs, !pad_loop_puts. unfold align. rewrite spaces_to_one.
  assert (∀ s, putchar_via_gadget (sext 32 z) s = puts [wrap 8 z] s) as Hc.
  { intros s. by rewrite puts_one, putchar_wrap, <- putchar_wrap, wrap_sext, putchar_wrap by lia. }
  destruct (c_left c); cbn [negb]; rewrite puts_app; unfold mbind, outcome_bind; cbn [va_int].
  - rewrite Hc. destruct (puts [wrap 8 z] st) as [st1|]; [|done]. rewrite pad_loop_puts.
    by destruct (puts _ st1).
  - destruct (puts (replicate _ _) st) as [st1|]; [|done]. rewrite Hc. by destruct (puts _ st1).
Qed.

(** *** Strings *)

(** Output leaves the memory [m0] alone. *)
Definition keeps (m0 : cmem) (st : pstate) : Prop :=
  ∀ cs st', puts cs st = Done st' → m0 ⊆ st'.1.

Lemma keeps_here m0 st : keeps m0 st → m0 ⊆ st.1.
Proof. intros Hk. by apply (Hk [] st). Qed.

Lemma keeps_puts m0 st cs st' : keeps m0 st → puts cs st = Done st' → keeps m0 st'.
Proof.
  intros Hk Hp cs' st'' Hp'. apply (Hk (cs ++ cs')). rewrite puts_app, Hp. done.
Qed.

Lemma keeps_putchar m0 st c st' : keeps m0 st → putchar_via_gadget c st = Done st' → keeps m0 st'.
Proof. intros Hk Hp. apply (keeps_puts m0 st [c]); [done|]. by rewrite puts_one. Qed.

Lemma str_at_mono m m' s l : m ⊆ m' → str_at m s l → str_at m' s l.
Proof.
  intros Hm []. split; [done|done|]. intros i Hi. eapply lookup_weaken; [by apply sa_load|done].
Qed.

Lemma strnlen_s_loop_spec m l s fuel k :
  str_at m s l → (length l < fuel)%nat → 0 ≤ k →
  strnlen_s_loop fuel m s k = Done (s + Z.min (len l) k).
Proof.
  revert s fuel k. induction l as [|c l IH]; intros s fuel k Hs Hf Hk;
    (destruct fuel as [|fuel]; [simpl in Hf; lia|]); cbn [strnlen_s_loop]; str_step Hs.
  - rewrite Z.eqb_refl. cbn [orb]. f_equal. simpl. lia.
  - rewrite (proj2 (Z.eqb_neq c 0)) by lia. cbn [orb]. destruct (Z.eqb_spec k 0) as [->|Hk0].
    + f_equal. lia.
    + simpl in Hf. rewrite IH by (done || lia). f_equal. simpl length. lia.
Qed.

Lemma strnlen_s_spec m s l k : str_at m s l → 0 ≤ k ≤ INT_MAX →
  strnlen_s_ m s k = Done (Z.min (len l) k).
Proof.
  intros Hs Hk. unfold strnlen_s_. pose proof (str_fuel _ _ _ Hs) as Hfuel.
  rewrite (strnlen_s_loop_spec m l s) by (done || unfold mem_fuel; lia). cbn [mbind outcome_bind].
  f_equal. unfold wrap, INT_MAX in *. rewrite Z.mod_small; lia.
Qed.

(** The characters that a precision lets through. *)
Definition limit (p : option Z) (s : list Z) : list Z :=
  match p with Some p => take (Z.to_nat p) s | None => s end.

Lemma string_loop_puts m0 p l : ∀ s fuel prec st,
  str_at m0 s l → keeps m0 st → (length l < fuel)%nat → (∀ k, p = Some k → prec = k ∧ 0 ≤ k ≤ INT_MAX) →
  string_loop fuel (bool_decide (is_Some p)) s prec st = puts (limit p l) st.
Proof.
  revert p. induction l as [|c l IH]; intros p s fuel prec st Hs Hk Hf Hp;
    (destruct fuel as [|fuel]; [simpl in Hf; lia|]); cbn [string_loop].
  { apply keeps_here in Hk. apply (str_at_mono _ _ _ _ Hk) in Hs. str_step Hs.
    rewrite Z.eqb_refl. cbn [negb andb]. destruct p; [|done]. simpl. by rewrite take_nil. }
  pose proof (str_at_mono _ _ _ _ (keeps_here _ _ Hk) Hs) as Hs'.
  apply str_at_cons in Hs' as (Hl & Hc & _). apply str_at_cons in Hs as (_ & _ & Hs).
  rewrite Hl. cbn [mbind outcome_bind]. rewrite (proj2 (Z.eqb_neq c 0)) by lia. cbn [negb andb].
  simpl in Hf. destruct p as [k|].
  - destruct (Hp k eq_refl) as [-> Hk0]. rewrite bool_decide_true by eauto. cbn [negb orb].
    destruct (Z.eqb_spec k 0) as [->|Hk1]; [done|]. cbn [limit].
    replace (Z.to_nat k) with (S (Z.to_nat (k - 1))) by lia. cbn [take puts].
    unfold mbind, outcome_bind. destruct (putchar_via_gadget c st) as [st1|] eqn:Hpc; [|done].
    assert (wrap 32 (k - 1) = k - 1) as -> by (unfold wrap, INT_MAX in *; rewrite Z.mod_small; lia).
    pose proof (IH (Some (k - 1)) (s + 1) fuel (k - 1) st1 Hs (keeps_putchar _ _ _ _ Hk Hpc) ltac:(lia)) as Hr.
    rewrite bool_decide_true in Hr by eauto. apply Hr. intros k' [= <-]. lia.
  - rewrite bool_decide_false by (intros [? ?]; done). cbn [negb orb limit puts].
    unfold mbind, outcome_bind. destruct (putchar_via_gadget c st) as [st1|] eqn:Hpc; [|done].
    pose proof (IH None (s + 1) fuel (wrap 32 (prec - 1)) st1 Hs (keeps_putchar _ _ _ _ Hk Hpc) ltac:(lia)) as Hr.
    rewrite bool_decide_false in Hr by (intros [? ?]; done). by apply Hr.
Qed.

Lemma limit_len p s : (∀ k, p = Some k → 0 ≤ k) →
  len (limit p s) = match p with Some k => Z.min k (len s) | None => len s end.
Proof.
  intros Hp. destruct p as [k|]; simpl; [|done]. specialize (Hp k eq_refl). rewrite length_take. lia.
Qed.

Lemma print_string_puts m0 m e f c l vals s st :
  parsed m0 m e f c l (SStr s :: vals) → keeps m0 st →
  converts m0 (print_string_spec f st) (string_text c s) vals st.
Proof.
  intros [Hf Hw Hp Hs Hv Hwok Hpok He] Hk. apply Forall2_cons_inv_l in Hv as (a & args' & Ha & Hv & Hargs).
  inversion Ha as [| |s' p Hsp Hlen| |]; subst a s'. exists args'. split; [|done].
  unfold print_string_spec. rewrite Hargs. cbn [va_ptr mbind outcome_bind].
  pose proof (sa_pos _ _ _ Hsp) as Hpos. rewrite (proj2 (Z.eqb_neq p NULL)) by (unfold NULL; lia).
  pose proof (str_at_mono _ _ _ _ (keeps_here _ _ Hk) Hsp) as Hsp'.
  assert (0 ≤ (if negb (f_precision f =? 0) then f_precision f else INT_MAX) ≤ INT_MAX) as Hmax.
  { rewrite Hp. destruct (c_prec c) as [k|]; simpl; [|done]. specialize (Hpok k eq_refl).
    destruct (Z.eqb_spec k 0); simpl; [done|lia]. }
  rewrite (strnlen_s_spec st.1 p s) by done.
  cbn [mbind outcome_bind]. rewrite Hw, Hp, (sf_left _ _ Hf), (sf_prec _ _ Hf).
  match goal with |- context[pad_loop (Z.to_nat (c_width c - ?x))] => set (n := x) end.
  assert (n = len (limit (c_prec c) s)) as ->.
  { rewrite limit_len by (intros k Hck; by apply Hpok in Hck as [? _]). subst n.
    destruct (c_prec c) as [k|]; simpl.
    - specialize (Hpok k eq_refl). rewrite ?bool_decide_true by eauto.
      destruct (Z.eqb_spec k 0) as [Hk0|Hk0]; cbn [negb];
        match goal with |- context[?a <? k] => destruct (Z.ltb_spec a k) end; unfold INT_MAX in *; lia.
    - rewrite ?bool_decide_false by (intros [? ?]; done). lia. }
  assert (∀ st1, keeps m0 st1 → string_loop (mem_fuel st1.1) (bool_decide (is_Some (c_prec c))) p
    (default 0 (c_prec c)) st1 = puts (limit (c_prec c) s) st1) as Hloop.
  { intros st1 Hk1. apply (string_loop_puts m0); [done|done| |].
    - pose proof (str_fuel _ _ _ (str_at_mono _ _ _ _ (keeps_here _ _ Hk1) Hsp)). unfold mem_fuel. lia.
    - intros k Hck. rewrite Hck. simpl. split; [done|]. by apply Hpok. }
  change (string_text c s) with (align (c_left c) false (c_width c) (limit (c_prec c) s)).
  unfold align, spaces_to. rewrite !pad_loop_puts.
  destruct (c_left c); cbn [negb]; rewrite puts_app; unfold mbind, outcome_bind.
  - rewrite Hloop by done. destruct (puts (limit _ _) st) as [st1|]; [|done].
    rewrite pad_loop_puts. by destruct (puts _ st1).
  - destruct (puts (replicate _ _) st) as [st1|] eqn:Hst1; [|done].
    rewrite Hloop by (by eapply keeps_puts). by destruct (puts _ st1).
Qed.

Lemma out_rev_flags buf width flags c nopad st :
  spec_flags flags c → word_ok width → (length buf < 32)%nat → word_ok (pos st.2) →
  ∀ fl, has fl FLAGS_LEFT = c_left c → has fl FLAGS_ZEROPAD = nopad →
  out_rev_ buf width fl st = puts (align (c_left c) nopad width (reverse buf)) st.
Proof.
  intros Hf Hw Hb Hpos fl Hl Hz. rewrite out_rev_puts, Hl, Hz; [done|done| |done].
  unfold word_ok. lia.
Qed.

Lemma print_null_puts m0 m e f c l vals st :
  parsed m0 m e f c l (SNull :: vals) → word_ok (pos st.2) →
  converts m0 (print_string_spec f st) (align (c_left c) (c_zero c) (c_width c) null_text) vals st.
Proof.
  intros [Hf Hw Hp Hs Hv Hwok Hpok He] Hpos. apply Forall2_cons_inv_l in Hv as (a & args' & Ha & Hv & Hargs).
  inversion Ha; subst a. exists args'. split; [|done].
  unfold print_string_spec. rewrite Hargs. cbn [va_ptr mbind outcome_bind]. rewrite Z.eqb_refl, Hw.
  rewrite (out_rev_flags _ _ _ c (c_zero c) st Hf); [done| |simpl; lia|done|apply Hf..].
  unfold word_ok, INT_MAX in *. lia.
Qed.

(** *** Pointers *)

Lemma pointer_flags flags c : spec_flags flags c →
  let fl := set_flag flags (FLAGS_ZEROPAD .| FLAGS_POINTER) in
  has fl FLAGS_LEFT = c_left c ∧ has fl FLAGS_ZEROPAD = true ∧
  (c_plus c || c_space c || bool_decide (is_Some (c_prec c)) = false →
   int_flags fl {| i_left := c_left c; i_zero := true; i_plus := false; i_space := false;
                   i_alt := true; i_upper := false; i_width := 18; i_prec := None |} 16 true).
Proof.
  intros []. cbn zeta. split_and!; [flags_after; done|flags_after; done|].
  intros [[Hp1 Hp2]%orb_false_iff Hp3]%orb_false_iff.
  split; simpl; flags_after; rewrite ?bool_decide_false by (intros [? ?]; done); try congruence; done.
Qed.

Lemma print_pointer_puts m0 m e f c l vals p t st :
  parsed m0 m e f c l (SPtr p :: vals) → pointer_text c p = Some t → word_ok (pos st.2) →
  converts m0 (print_pointer_spec f st) t vals st.
Proof.
  intros [Hf Hw Hp Hs Hv Hwok Hpok He] Ht Hpos.
  apply Forall2_cons_inv_l in Hv as (a & args' & Ha & Hv & Hargs).
  inversion Ha as [| | | |p' Hp']; subst a p'. exists args'. split; [|done].
  unfold print_pointer_spec. rewrite Hargs. cbn [va_ptr mbind outcome_bind].
  rewrite (proj2 (Z.eqb_neq p NULL)) by (unfold NULL; lia). unfold pointer_text in Ht.
  destruct (c_plus c || c_space c || bool_decide (is_Some (c_prec c))) eqn:Hno; [done|].
  destruct (pointer_flags _ _ Hf) as (_ & _ & Hfl). specialize (Hfl Hno).
  pose proof (fitting_puts _ _ 16 p false t st Hfl Ht) as Hpr. cbn [i_prec i_width i_alt default] in Hpr.
  assert (f_precision f = 0) as ->.
  { apply orb_false_iff in Hno as [_ Hno]. rewrite Hp. destruct (c_prec c); [|done].
    by rewrite bool_decide_true in Hno by eauto. }
  cbn [id] in Hpr. change (8 * 2 + 2) with 18. rewrite Hpr; [done|auto|lia|lia|done|done|done|done|done].
Qed.

Lemma print_nil_puts m0 m e f c l vals st :
  parsed m0 m e f c l (SNull :: vals) → word_ok (pos st.2) →
  converts m0 (print_pointer_spec f st) (align (c_left c) true 18 nil_text) vals st.
Proof.
  intros [Hf Hw Hp Hs Hv Hwok Hpok He] Hpos. apply Forall2_cons_inv_l in Hv as (a & args' & Ha & Hv & Hargs).
  inversion Ha; subst a. exists args'. split; [|done].
  unfold print_pointer_spec. rewrite Hargs. cbn [va_ptr mbind outcome_bind]. rewrite Z.eqb_refl.
  destruct (pointer_flags _ _ Hf) as (Hl & Hz & _). change (8 * 2 + 2) with 18.
  by rewrite (out_rev_flags _ _ _ c true st Hf) by (done || simpl; lia).
Qed.

(** *** All letters *)

Lemma print_spec_puts m0 e f c letter l vals t vals' st :
  parsed m0 st.1 e f c (letter :: l) vals → keeps m0 st → word_ok (pos st.2) →
  convert c letter vals = Some (t, vals') → converts m0 (print_spec f st) t vals' st.
Proof.
  intros Hpar Hk Hpos Hcv. pose proof (pa_str _ _ _ _ _ _ _ Hpar) as Hs.
  apply str_at_cons in Hs as (Hl & Hc & _). unfold print_spec. rewrite Hl. cbn [mbind outcome_bind].
  unfold convert in Hcv.
  assert (∀ signed text, (v ← head vals; z ← int_value signed (c_size c) v; t ← text z; Some (t, tail vals))
    = Some (t, vals') → ∃ v z, vals = v :: vals' ∧ int_value signed (c_size c) v = Some z ∧ text z = Some t) as Hint.
  { intros signed text Hr. destruct vals as [|v vals]; [done|]. cbn in Hr.
    destruct (int_value signed (c_size c) v) as [z|] eqn:Hz; [|done]. cbn in Hr.
    destruct (text z) as [t'|] eqn:Ht; [|done]. injection Hr as <- <-. eauto 6. }
  assert (∀ base upper, is_integer_spec letter = true →
    (letter, base, upper) ∈ [(117, 10, false); (120, 16, false); (88, 16, true); (111, 8, false); (98, 2, false)] →
    (v ← head vals; z ← int_value false (c_size c) v; t ← unsigned_text c base upper z; Some (t, tail vals))
    = Some (t, vals') → converts m0 (print_int_spec letter f st) t vals' st) as Hun.
  { intros base upper _ Hin Hr. apply Hint in Hr as (v & z & -> & Hz & Ht).
    by eapply print_int_unsigned. }
  cbn zeta in Hcv.
  destruct ((letter =? 100) || (letter =? 105)) eqn:Hd.
  { assert (is_integer_spec letter = true) as -> by (unfold is_integer_spec; by rewrite Hd).
    apply Hint in Hcv as (v & z & -> & Hz & Ht). eapply print_int_signed; [done| |done..].
    apply orb_true_iff in Hd as [?%Z.eqb_eq|?%Z.eqb_eq]; auto. }
  unfold is_integer_spec. rewrite Hd. cbn [orb].
  destruct (Z.eqb_spec letter 117) as [->|]; [eapply (Hun 10 false); [done|set_solver|done]|].
  destruct (Z.eqb_spec letter 120) as [->|]; [eapply (Hun 16 false); [done|set_solver|done]|].
  destruct (Z.eqb_spec letter 88) as [->|]; [eapply (Hun 16 true); [done|set_solver|done]|].
  destruct (Z.eqb_spec letter 111) as [->|]; [eapply (Hun 8 false); [done|set_solver|done]|].
  destruct (Z.eqb_spec letter 98) as [->|]; [eapply (Hun 2 false); [done|set_solver|done]|].
  cbn [orb]. clear Hun Hint.
  destruct (letter =? 99).
  { destruct vals as [|[z| | | |] vals]; try done. injection Hcv as <- <-. by eapply print_char_puts. }
  destruct (letter =? 115).
  { destruct vals as [|[| |s| |] vals]; try done; injection Hcv as <- <-;
      [by eapply print_string_puts|by eapply print_null_puts]. }
  destruct (letter =? 112).
  { destruct vals as [|[| | | |p] vals]; try done.
    - injection Hcv as <- <-. by eapply print_nil_puts.
    - cbn in Hcv. destruct (pointer_text c p) as [t'|] eqn:Ht; [|done]. injection Hcv as <- <-.
      by eapply print_pointer_puts. }
  destruct (letter =? 110); [done|]. injection Hcv as <- <-. exists (f_args f). split; [|apply Hpar].
  by rewrite puts_one.
Qed.

(** ** The loop over the format *)

Lemma take_while_suffix P l a b : take_while P l = (a, b) → b `suffix_of` l.
Proof. intros Ht. apply take_while_app in Ht as [-> _]. by exists a. Qed.

Lemma tail_suffix (l : list Z) : tail l `suffix_of` l.
Proof. destruct l as [|c l]; [done|]. by exists [c]. Qed.

Lemma read_spec_suffix l vals c l' vals' :
  read_spec l vals = Some (c, l', vals') → l' `suffix_of` l.
Proof.
  unfold read_spec. destruct (take_while is_flag l) as [fs l1] eqn:Ht. apply take_while_suffix in Ht.
  cbn [mbind option_bind]. destruct (read_width l1 vals) as [[[[mi w] l2] v2]|] eqn:Hw; [|done].
  assert (l2 `suffix_of` l1).
  { unfold read_width in Hw. case_bool_decide.
    - destruct vals as [|[] ?]; try done. case_match; [done|]. injection Hw as <- <- <- <-. apply tail_suffix.
    - destruct (take_while is_digit_ l1) as [ds r] eqn:Hd. apply take_while_suffix in Hd.
      case_match; [|done]. injection Hw as <- <- <- <-. done. }
  cbn [mbind option_bind]. destruct (read_prec l2 v2) as [[[p l3] v3]|] eqn:Hp; [|done].
  assert (l3 `suffix_of` l2).
  { unfold read_prec in Hp. pose proof (tail_suffix l2). pose proof (tail_suffix (tail l2)).
    case_bool_decide; [|by injection Hp as <- <- <-]. case_bool_decide.
    - destruct v2 as [|[] ?]; try done. case_match; [done|]. injection Hp as <- <- <-. by etrans.
    - destruct (take_while is_digit_ (tail l2)) as [ds r] eqn:Hd. apply take_while_suffix in Hd.
      case_match; [|done]. injection Hp as <- <- <-. by etrans. }
  cbn [mbind option_bind]. destruct (read_size l3) as [sz l4] eqn:Hs. intros [= _ <- _].
  assert (l4 `suffix_of` l3); [|by do 2 (etrans; [done|]); etrans].
  unfold read_size in Hs. destruct l3 as [|x l3]; [by injection Hs as <- <-|].
  assert (l3 `suffix_of` x :: l3) by by exists [x]. pose proof (tail_suffix l3).
  repeat case_match; injection Hs as <- <-; done || by etrans.
Qed.

Lemma str_at_suffix m s l l' : str_at m s l → l' `suffix_of` l → str_at m (s + len l - len l') l'.
Proof.
  intros Hs [a ->]. replace (s + len (a ++ l') - len l') with (s + len a) by (rewrite length_app; lia).
  by apply str_at_app.
Qed.

Lemma pos_word cs st st' : puts cs st = Done st' → word_ok (pos st.2) → word_ok (pos st'.2).
Proof. intros Hp Hw. rewrite (puts_pos _ _ _ Hp Hw). unfold word_ok, wrap. apply Z.mod_pos_bound. lia. Qed.

Lemma format_string_loop_puts m0 n : ∀ fuel l s vals args st cs,
  format_text n l vals = Some cs → str_at m0 s l → Forall2 (val_at m0) vals args →
  keeps m0 st → word_ok (pos st.2) → (length l < fuel)%nat →
  format_string_loop fuel s args st = puts cs st.
Proof.
  induction n as [|n IH]; intros fuel l s vals args st cs Ht Hs Hv Hk Hpos Hf;
    (destruct fuel as [|fuel]; [lia|]); cbn [format_string_loop];
    pose proof (str_at_mono _ _ _ _ (keeps_here _ _ Hk) Hs) as Hs'; destruct l as [|c l];
    try done; try (injection Ht as <-; by str_step Hs').
  cbn [format_text] in Ht. pose proof Hs' as Hs1. apply str_at_cons in Hs1 as (Hl & Hc & Hs1).
  apply str_at_cons in Hs as (_ & _ & Hs). simpl in Hf.
  rewrite Hl. cbn [mbind outcome_bind]. rewrite (proj2 (Z.eqb_neq c 0)) by lia.
  destruct (Z.eqb_spec c 37) as [->|Hpc]; cbn [negb].
  - destruct (read_spec l vals) as [[[spec l1] vals1]|] eqn:Hr; [|done]. cbn in Ht.
    destruct l1 as [|letter l1]; [done|].
    destruct (convert spec letter vals1) as [[t vals2]|] eqn:Hcv; [|done]. cbn in Ht.
    destruct (format_text n l1 vals2) as [cs'|] eqn:Ht'; [|done]. injection Ht as <-.
    pose proof (read_spec_suffix _ _ _ _ _ Hr) as Hsuf. pose proof (suffix_length _ _ Hsuf) as Hlen. simpl in Hlen.
    destruct (parse_spec_spec m0 st.1 (s + 1) l vals args spec _ vals1 Hs1 Hv Hr ltac:(done)) as (f & Hps & Hpar).
    rewrite (advance_spec st.1 s 37 l) by (done || intros ->; simpl in Hlen; lia). rewrite Hps.
    cbn [mbind outcome_bind].
    destruct (print_spec_puts m0 _ f spec letter l1 vals1 t vals2 st Hpar Hk Hpos Hcv) as (args2 & -> & Hv2).
    rewrite puts_app. unfold mbind, outcome_bind. destruct (puts t st) as [st1|] eqn:Hp; [|done].
    apply (IH _ l1 _ vals2); [done| |done|by eapply keeps_puts|by eapply pos_word|lia].
    pose proof (str_at_suffix _ _ _ _ Hs Hsuf) as Hrest.
    replace (s + 1 + len l - len (letter :: l1)) with (f_format f) in Hrest
      by (pose proof (pa_end _ _ _ _ _ _ _ Hpar); lia).
    by apply str_at_cons in Hrest as (_ & _ & ?).
  - destruct (format_text n l vals) as [cs'|] eqn:Ht'; [|done]. injection Ht as <-. cbn [puts].
    unfold mbind, outcome_bind. destruct (putchar_via_gadget c st) as [st1|] eqn:Hp; [|done].
    apply (IH _ l _ vals); [done|done|done|by eapply keeps_putchar| |lia].
    apply (pos_word [c] st); [by rewrite puts_one|done].
Qed.

(** ** Output to a function and to a buffer *)

Definition byte (c : Z) : Prop := 0 ≤ c < 256.

Lemma wrap_byte c : byte c → wrap 8 c = c.
Proof. intros Hc. by apply Z.mod_small. Qed.

Lemma puts_function cs : ∀ m g,
  function g = true → Forall byte cs → 0 ≤ pos g → pos g + len cs ≤ max_chars g → max_chars g ≤ INT_MAX →
  puts cs (m, g) = Done (m, {| function := true; sent := sent g ++ cs; buffer := buffer g;
                               pos := pos g + len cs; max_chars := max_chars g |}).
Proof.
  induction cs as [|c cs IH]; intros m g Hfun Hb H0 Hmax Hint; cbn [puts].
  { rewrite app_nil_r, Z.add_0_r. destruct g; simpl in *. by subst. }
  apply Forall_cons in Hb as [Hc Hb]. simpl length in Hmax. unfold putchar_via_gadget, mbind, outcome_bind. cbn zeta.
  cbn [function sent buffer pos max_chars]. rewrite Z.geb_leb, (proj2 (Z.leb_gt _ _)), Hfun by lia.
  assert (wrap 32 (pos g + 1) = pos g + 1) as Hp
    by (unfold wrap, INT_MAX in *; apply Z.mod_small; lia).
  rewrite IH; cbn [function sent buffer pos max_chars]; rewrite ?Hp; [|done|done|lia|lia|done].
  rewrite wrap_byte, <- app_assoc by done. simpl length. do 3 f_equal. lia.
Qed.

(** The characters up to the limit are stored, all are counted. *)
Lemma puts_buffer cs : ∀ m g,
  function g = false → Forall byte cs → 0 ≤ pos g → pos g + len cs ≤ INT_MAX → 0 ≤ max_chars g →
  mapped m (buffer g) (Z.min (max_chars g) (pos g + len cs)) →
  puts cs (m, g)
  = Done (write_bytes m (buffer g + pos g) (take (Z.to_nat (max_chars g - pos g)) cs),
          {| function := false; sent := sent g; buffer := buffer g; pos := pos g + len cs;
             max_chars := max_chars g |}).
Proof.
  induction cs as [|c cs IH]; intros m g Hfun Hb H0 Hint Hmax Hmap; cbn [puts].
  { rewrite take_nil, Z.add_0_r. destruct g; simpl in *. by subst. }
  apply Forall_cons in Hb as [Hc Hb]. simpl length in *. unfold putchar_via_gadget, mbind, outcome_bind. cbn zeta.
  assert (wrap 32 (pos g + 1) = pos g + 1) as Hp
    by (unfold wrap, INT_MAX in *; apply Z.mod_small; lia).
  cbn [function sent buffer pos max_chars]. rewrite Hfun.
  destruct (Z.geb_spec (pos g) (max_chars g)) as [Hge|Hlt].
  - rewrite IH; cbn [function sent buffer pos max_chars]; rewrite ?Hp;
      [|done|done|lia|lia|done|].
    + replace (Z.to_nat (max_chars g - (pos g + 1))) with 0%nat by lia.
      replace (Z.to_nat (max_chars g - pos g)) with 0%nat by lia. simpl. do 2 f_equal. f_equal. lia.
    + intros i Hi. apply Hmap. lia.
  - rewrite store_mapped by (apply Hmap; lia). rewrite IH; cbn [function sent buffer pos max_chars]; rewrite ?Hp;
      [|done|done|lia|lia|done|].
    + replace (Z.to_nat (max_chars g - pos g)) with (S (Z.to_nat (max_chars g - (pos g + 1)))) by lia.
      cbn [take]. rewrite Z.add_assoc, write_bytes_cons, wrap_byte by done. do 3 f_equal. lia.
    + intros i Hi. apply mapped_insert with (n := Z.min (max_chars g) (pos g + Z.of_nat (S (length cs)))); [done|lia].
Qed.

Lemma putchar_function m g c st' : function g = true → putchar_via_gadget c (m, g) = Done st' →
  st'.1 = m ∧ function st'.2 = true.
Proof.
  intros Hf Hp. unfold putchar_via_gadget in Hp. cbn [function] in Hp. rewrite Hf in Hp.
  by destruct (_ >=? _); injection Hp as <-.
Qed.

Lemma keeps_function m0 m g : m0 ⊆ m → function g = true → keeps m0 (m, g).
Proof.
  intros Hm Hf cs. revert g Hf. induction cs as [|c cs IH]; intros g Hf st' Hp; cbn [puts] in Hp.
  { by injection Hp as <-. }
  unfold mbind, outcome_bind in Hp. destruct (putchar_via_gadget c (m, g)) as [[m1 g1]|] eqn:Hc; [|done].
  apply putchar_function in Hc as [Hm1 Hg1]; [|done]. simpl in *. subst m1. by apply (IH g1).
Qed.

(** A buffer apart from the memory [m0]. *)
Definition apart (m0 : cmem) (s n : Z) : Prop := ∀ a, s ≤ a < s + n → m0 !! a = None.

Lemma keeps_buffer m0 m g :
  m0 ⊆ m → function g = false → 0 ≤ pos g → apart m0 (buffer g) (max_chars g) → keeps m0 (m, g).
Proof.
  intros Hm Hf H0 Ha cs. revert m g Hm Hf H0 Ha.
  induction cs as [|c cs IH]; intros m g Hm Hf H0 Ha st' Hp; cbn [puts] in Hp.
  { by injection Hp as <-. }
  unfold mbind, outcome_bind in Hp. destruct (putchar_via_gadget c (m, g)) as [[m1 g1]|] eqn:Hc; [|done].
  apply (IH m1 g1); [..|done]; clear IH Hp; unfold putchar_via_gadget in Hc; cbn [function buffer max_chars] in Hc;
    rewrite Hf in Hc; destruct (Z.geb_spec (pos g) (max_chars g)) as [Hge|Hlt].
  all: try (injection Hc as <- <-; simpl; try done; unfold wrap; apply Z.mod_pos_bound; lia).
  all: unfold mbind, outcome_bind, store in Hc; destruct (m !! _) eqn:Hlk; [|done]; injection Hc as <- <-; simpl; try done.
  - apply insert_subseteq_r; [|done]. apply Ha. lia.
  - unfold wrap. apply Z.mod_pos_bound. lia.
Qed.

(** ** The text consists of bytes *)

Definition sval_bytes (v : sval) : Prop :=
  match v with SStr s => Forall byte s | SPtr p => 0 ≤ p < 2 ^ 64 | _ => True end.

Lemma val_at_bytes m vals args : Forall2 (val_at m) vals args → Forall sval_bytes vals.
Proof.
  induction 1 as [|v a vals args Hv _ IH]; constructor; [|done].
  inversion Hv as [| |s p Hs _| |]; subst; simpl; try done; [|lia].
  eapply Forall_impl; [apply Hs|]. unfold byte. intros b Hb. simpl in Hb. lia.
Qed.

Lemma align_bytes left nopad w t : Forall byte t → Forall byte (align left nopad w t).
Proof.
  intros Ht. assert (Forall byte (spaces_to w t)) by (apply Forall_replicate; by unfold byte).
  unfold align. destruct left; [by apply Forall_app|]. destruct nopad; [done|]. by apply Forall_app.
Qed.

Lemma int_text_bytes i base v neg :
  base = 2 ∨ base = 8 ∨ base = 10 ∨ base = 16 → 0 ≤ v < 2 ^ 64 → Forall byte (int_text i base v neg).
Proof.
  intros Hb Hv. apply align_bytes. unfold int_number, int_body, int_fill.
  assert (∀ n, Forall byte (replicate n 48)) as Hz by (intros; apply Forall_replicate; by unfold byte).
  repeat apply Forall_app_2.
  - unfold int_sign. unfold byte. destruct neg, (i_plus i), (i_space i); repeat constructor; lia.
  - unfold int_prefix, byte. repeat case_match; repeat constructor; lia.
  - destruct (_ && _); [apply Hz|constructor].
  - apply Hz.
  - unfold int_digits. apply Forall_fmap, (Forall_impl (λ d, 0 ≤ d < base)).
    + destruct (v =? 0).
      * destruct (i_prec i); repeat constructor; lia.
      * unfold digits_of. apply Forall_reverse, digits_lsf_bound; lia.
    + intros d Hd. simpl. unfold digit_text, byte. destruct (Z.ltb_spec d 10), (i_upper i); lia.
Qed.

Lemma fitting_bytes i base v neg t :
  fitting i base v neg = Some t → base = 2 ∨ base = 8 ∨ base = 10 ∨ base = 16 → 0 ≤ v < 2 ^ 64 →
  Forall byte t.
Proof. unfold fitting. case_match; [|done]. intros [= <-]. apply int_text_bytes. Qed.

Lemma read_spec_vals l vals c l' vals' :
  read_spec l vals = Some (c, l', vals') → vals' `suffix_of` vals.
Proof.
  unfold read_spec. destruct (take_while is_flag l) as [fs l1]. cbn [mbind option_bind].
  destruct (read_width l1 vals) as [[[[mi w] l2] v2]|] eqn:Hw; [|done].
  assert (v2 `suffix_of` vals).
  { unfold read_width in Hw. case_bool_decide.
    - destruct vals as [|[] ?]; try done. case_match; [done|]. injection Hw as <- <- <- <-. by eexists [_].
    - destruct (take_while is_digit_ l1). case_match; [|done]. by injection Hw as <- <- <- <-. }
  cbn [mbind option_bind]. destruct (read_prec l2 v2) as [[[p l3] v3]|] eqn:Hp; [|done].
  assert (v3 `suffix_of` v2).
  { unfold read_prec in Hp. case_bool_decide; [|by injection Hp as <- <- <-]. case_bool_decide.
    - destruct v2 as [|[] ?]; try done. case_match; [done|]. injection Hp as <- <- <-. by eexists [_].
    - destruct (take_while is_digit_ (tail l2)). case_match; [|done]. by injection Hp as <- <- <-. }
  cbn [mbind option_bind]. destruct (read_size l3). intros [= _ _ <-]. by etrans.
Qed.

Lemma convert_bytes c letter vals t vals' :
  convert c letter vals = Some (t, vals') → Forall sval_bytes vals → byte letter →
  Forall byte t ∧ Forall sval_bytes vals'.
Proof.
  intros Hcv Hv Hl. unfold convert in Hcv. cbn zeta in Hcv.
  assert (∀ signed text, (∀ v z t, int_value signed (c_size c) v = Some z → text z = Some t → Forall byte t) →
    (v ← head vals; z ← int_value signed (c_size c) v; t ← text z; Some (t, tail vals)) = Some (t, vals') →
    Forall byte t ∧ Forall sval_bytes vals') as Hint.
  { intros signed text Hb Hr. destruct vals as [|v vals]; [done|]. cbn in Hr.
    destruct (int_value signed (c_size c) v) as [z|] eqn:Hz; [|done]. cbn in Hr.
    destruct (text z) as [t'|] eqn:Ht; [|done]. injection Hr as <- <-. apply Forall_cons in Hv as [_ ?]. eauto. }
  assert (∀ base upper v z t, base = 2 ∨ base = 8 ∨ base = 10 ∨ base = 16 →
    int_value false (c_size c) v = Some z → unsigned_text c base upper z = Some t → Forall byte t) as Hun.
  { intros base upper v z t' Hb Hz Ht. apply int_value_range in Hz. unfold unsigned_text in Ht.
    case_match; [done|]. by eapply fitting_bytes. }
  destruct (_ || _).
  { eapply Hint, Hcv. intros v z t' Hz Ht. apply int_value_range in Hz. unfold signed_text in Ht.
    case_match; [done|]. eapply fitting_bytes; [done|auto|]. lia. }
  do 5 (case_match; [eapply Hint, Hcv; intros v z t' Hz Ht; eapply (Hun _ _ v z t'); [|exact Hz|exact Ht]; auto|]).
  assert (∀ v vs, vals = v :: vs → sval_bytes v ∧ Forall sval_bytes vs) as Hcons
    by (intros v vs ->; by apply Forall_cons).
  destruct (letter =? 99).
  { destruct vals as [|[z| | | |] vals]; try done. injection Hcv as <- <-.
    split; [|by apply (Hcons _ _ eq_refl)]. apply align_bytes. repeat constructor; apply Z.mod_pos_bound; lia. }
  destruct (letter =? 115).
  { destruct vals as [|[| |s| |] vals]; try done; injection Hcv as <- <-;
      destruct (Hcons _ _ eq_refl) as [Hs ?]; (split; [|done]); apply align_bytes.
    - destruct (c_prec c); [by apply Forall_take|done].
    - unfold null_text, byte. repeat constructor; lia. }
  destruct (letter =? 112).
  { destruct vals as [|[| | | |p] vals]; try done.
    - injection Hcv as <- <-. split; [|by apply (Hcons _ _ eq_refl)]. apply align_bytes.
      unfold nil_text, byte. repeat constructor; lia.
    - cbn in Hcv. destruct (pointer_text c p) as [t'|] eqn:Ht; [|done]. injection Hcv as <- <-.
      destruct (Hcons _ _ eq_refl) as [Hp ?]. split; [|done]. unfold pointer_text in Ht. case_match; [done|].
      eapply fitting_bytes; [done|auto|exact Hp]. }
  destruct (letter =? 110); [done|]. injection Hcv as <- <-. split; [by repeat constructor; apply Hl|done].
Qed.

Lemma format_text_bytes n : ∀ l vals cs,
  format_text n l vals = Some cs → Forall byte l → Forall sval_bytes vals → Forall byte cs.
Proof.
  induction n as [|n IH]; intros l vals cs Ht Hl Hv; destruct l as [|c l]; try done;
    try (injection Ht as <-; constructor).
  apply Forall_cons in Hl as [Hc Hl]. cbn [format_text] in Ht. destruct (c =? 37).
  - destruct (read_spec l vals) as [[[spec l1] vals1]|] eqn:Hr; [|done]. cbn in Ht.
    destruct (read_spec_suffix _ _ _ _ _ Hr) as [a ->]. destruct (read_spec_vals _ _ _ _ _ Hr) as [b ->].
    apply Forall_app in Hl as [_ Hl]. apply Forall_app in Hv as [_ Hv].
    destruct l1 as [|letter l1]; [done|]. apply Forall_cons in Hl as [Hletter Hl].
    destruct (convert spec letter vals1) as [[t vals2]|] eqn:Hcv; [|done]. cbn in Ht.
    destruct (format_text n l1 vals2) as [cs'|] eqn:Ht'; [|done]. injection Ht as <-.
    destruct (convert_bytes _ _ _ _ _ Hcv Hv Hletter). apply Forall_app. eauto.
  - destruct (format_text n l vals) as [cs'|] eqn:Ht'; [|done]. injection Ht as <-. constructor; eauto.
Qed.

(** ** The functions of the library *)

Section library.
Context (m0 m : cmem) (fmt : Z) (l : list Z) (vals : list sval) (args : list va_value) (cs : list Z).
Context (Hsub : m0 ⊆ m) (Hfmt : str_at m0 fmt l) (Hargs : Forall2 (val_at m0) vals args).
Context (Htext : format_text (length l) l vals = Some cs) (Hlen : len cs < INT_MAX).

Lemma text_bytes : Forall byte cs.
Proof using All.
  eapply format_text_bytes; [done| |by eapply val_at_bytes].
  eapply Forall_impl; [apply (sa_bytes _ _ _ Hfmt)|]. unfold byte. simpl. lia.
Qed.

Lemma loop_text g : keeps m0 (m, g) → pos g = 0 →
  format_string_loop (mem_fuel m) fmt args (m, g) = puts cs (m, g).
Proof using Hsub Hfmt Hargs Htext.
  intros Hk Hpos. eapply format_string_loop_puts; [done..| |].
  - simpl. rewrite Hpos. by unfold word_ok.
  - pose proof (str_fuel _ _ _ (str_at_mono _ _ _ _ Hsub Hfmt)). unfold mem_fuel. lia.
Qed.

Lemma sext_len : sext 32 (len cs) = len cs.
Proof using Hlen.
  unfold sext, wrap, INT_MAX in *. rewrite Z.mod_small by lia. by rewrite (proj2 (Z.ltb_lt _ _)) by lia.
Qed.

Lemma vfctprintf_text : vfctprintf m fmt args = Done (len cs, cs, m).
Proof using All.
  unfold vfctprintf, vsnprintf_impl. simpl fst. rewrite loop_text by (done || by apply keeps_function).
  rewrite puts_function by (done || apply text_bytes || simpl; lia).
  unfold append_termination_with_gadget. cbn [mbind outcome_bind function orb fst snd sent pos function_gadget].
  by rewrite Z.add_0_l, sext_len.
Qed.

Lemma vsnprintf_text s n : 0 < s → 1 ≤ n → mapped m s n → apart m0 s n →
  vsnprintf_ m s n fmt args = Done (len cs, write_bytes m s (take (Z.to_nat (n - 1)) cs ++ [0])).
Proof using All.
  intros Hs Hn Hmap Hap. unfold vsnprintf_, vsnprintf_impl, buffer_gadget.
  rewrite (proj2 (Z.eqb_neq s NULL)) by (unfold NULL; lia). cbn [negb].
  set (u := if n >? INT_MAX then INT_MAX else wrap 32 n).
  assert (u = Z.min n INT_MAX) as Hu.
  { subst u. rewrite Z.gtb_ltb. destruct (Z.ltb_spec INT_MAX n); [lia|].
    unfold wrap, INT_MAX in *. rewrite Z.mod_small; lia. }
  clearbody u. set (g := {| function := false; sent := []; buffer := s; pos := 0; max_chars := u |}).
  simpl fst. assert (apart m0 s u) as Hap' by (intros a Ha; apply Hap; lia).
  rewrite loop_text by (done || by apply keeps_buffer).
  rewrite puts_buffer; cbn [function pos max_chars buffer g]; [|done|apply text_bytes|lia|lia|lia|].
  2: { intros i Hi. apply Hmap. lia. }
  cbn [mbind outcome_bind]. unfold append_termination_with_gadget. cbn [function pos max_chars buffer orb].
  rewrite (proj2 (Z.eqb_neq u 0)), (proj2 (Z.eqb_neq s NULL)) by (unfold NULL, INT_MAX in *; lia).
  rewrite !Z.add_0_l, Z.sub_0_r, Z.add_0_r.
  set (k := if len cs <? u then len cs else u - 1).
  assert (0 ≤ k < n ∧ take (Z.to_nat (n - 1)) cs = take (Z.to_nat k) cs ∧ k ≤ len cs) as (Hk & Htake & Hkc).
  { subst k. destruct (Z.ltb_spec (len cs) u); (split; [lia|]); (split; [|lia]).
    - rewrite !take_ge by lia. done.
    - do 2 f_equal. lia. }
  rewrite store_mapped.
  2: { rewrite write_bytes_lookup. case_decide as Hin; [|by apply Hmap].
       apply lookup_lt_is_Some_2. lia. }
  cbn [mbind outcome_bind fst snd pos]. rewrite ?Z.add_0_l, sext_len. do 2 f_equal. rewrite Htake. clear Htake.
  apply map_eq. intros a. rewrite write_bytes_lookup, length_app, length_take. simpl length.
  destruct (decide (a = s + k)) as [->|Hne].
  - rewrite lookup_insert_eq, decide_True by lia.
    rewrite lookup_app_r by (rewrite length_take; lia). rewrite length_take.
    replace (Z.to_nat (s + k - s) - Z.to_nat k `min` length cs)%nat with 0%nat by lia. done.
  - rewrite lookup_insert_ne by done. rewrite write_bytes_lookup, length_take.
    destruct (decide (s ≤ a < s + k)) as [Hin|Hout].
    + rewrite !decide_True by lia. rewrite lookup_app_l by (rewrite length_take; lia).
      rewrite !lookup_take_lt by lia. done.
    + rewrite (decide_False (P := s ≤ a < s + Z.of_nat (_ `min` _ + 1))) by lia.
      case_decide; [|done]. exfalso. subst k. destruct (Z.ltb_spec (len cs) u); lia.
Qed.

(** Without room nothing is written. *)
Lemma vsnprintf_empty s n : s = NULL ∨ n = 0 → vsnprintf_ m s n fmt args = Done (len cs, m).
Proof using All.
  intros Hor. unfold vsnprintf_, vsnprintf_impl.
  assert (function (buffer_gadget s n) = false ∧ pos (buffer_gadget s n) = 0 ∧ max_chars (buffer_gadget s n) = 0)
    as (Hfun & Hp & Hmax).
  { unfold buffer_gadget. destruct Hor as [-> | ->]; [done|]. by destruct (negb _). }
  generalize dependent (buffer_gadget s n). intros g Hfun Hp Hmax. simpl fst.
  rewrite loop_text; [|apply keeps_buffer; [done|done|lia|intros a Ha; lia]|done].
  rewrite puts_buffer; [|done|apply text_bytes|lia|lia|lia|intros i Hi; lia].
  rewrite Hp, Hmax. cbn [mbind outcome_bind]. unfold append_termination_with_gadget.
  cbn [function max_chars orb fst snd pos mbind outcome_bind Z.eqb]. cbn [take Z.to_nat Z.sub Z.add Z.opp].
  by rewrite ?Z.add_0_l, sext_len.
Qed.
End library.

(** ** Numbers written and read back *)

Lemma digits_lsf_length fuel base v n : 2 ≤ base → 0 ≤ v < base ^ Z.of_nat n →
  (length (digits_lsf fuel base v) ≤ n)%nat.
Proof.
  intros Hb. revert v n. induction fuel as [|fuel IH]; intros v n Hv; simpl; [lia|].
  destruct (Z.eqb_spec v 0) as [|Hn]; [simpl; lia|]. destruct n as [|n]; [simpl in Hv; lia|].
  simpl. apply le_n_S, IH. rewrite Nat2Z.inj_succ, Z.pow_succ_r in Hv by lia.
  split; [apply Z.div_pos; lia|]. apply Z.div_lt_upper_bound; lia.
Qed.

Lemma digit_value_text d : 0 ≤ d < 36 → digit_value (digit_text false d) = Some d.
Proof.
  intros Hd. unfold digit_value, digit_text. destruct (Z.ltb_spec d 10).
  - rewrite decide_True by lia. f_equal. lia.
  - rewrite !decide_False, decide_True by lia. f_equal. lia.
Qed.

Lemma digits_text base ds : 2 ≤ base ≤ 36 → Forall (λ d, 0 ≤ d < base) ds →
  digits base (digit_text false <$> ds) = ds.
Proof.
  intros Hb. induction 1 as [|d ds Hd _ IH]; [done|]. cbn [fmap list_fmap digits].
  rewrite digit_value_text by lia. rewrite (proj2 (Z.ltb_lt d base)) by lia. by rewrite <- IH at 2.
Qed.

(** The digits printed for a number. *)
Definition plain_digits (base v : Z) : list Z := if v =? 0 then [0] else digits_of base v.

Lemma plain_digits_spec base v : 2 ≤ base ≤ 16 → 0 ≤ v < 2 ^ 64 →
  number base (plain_digits base v) = v ∧ Forall (λ d, 0 ≤ d < base) (plain_digits base v) ∧
  plain_digits base v ≠ [] ∧ (head (plain_digits base v) = Some 0 → plain_digits base v = [0]).
Proof.
  intros Hb Hv. unfold plain_digits. destruct (Z.eqb_spec v 0) as [->|Hn].
  { split_and!; [done|repeat constructor; lia|done|done]. }
  assert (number base (digits_of base v) = v) as Hnum by (apply (digits_lsf_number 64); [lia|exact Hv]).
  split_and!; [done| | |].
  - apply Forall_reverse, digits_lsf_bound; lia.
  - intros Hnil. rewrite Hnil in Hnum. unfold number in Hnum. simpl in Hnum. lia.
  - intros Hh. by apply digits_of_head in Hh; [|lia|done].
Qed.

Lemma digit_text_head d base : 0 ≤ d < base → base ≤ 16 →
  isspace (digit_text false d) = false ∧ digit_text false d ≠ 45 ∧ digit_text false d ≠ 43 ∧
  (digit_text false d = 48 → d = 0) ∧ 0 < digit_text false d < 256.
Proof.
  intros Hd Hb. assert (d ∈ seqZ 0 16) as Hin by (apply elem_of_seqZ; lia).
  assert (Forall (λ d, isspace (digit_text false d) = false ∧ digit_text false d ≠ 45 ∧
    digit_text false d ≠ 43 ∧ (digit_text false d = 48 → d = 0) ∧ 0 < digit_text false d < 256) (seqZ 0 16)) as Hall.
  { change (seqZ 0 16) with [0;1;2;3;4;5;6;7;8;9;10;11;12;13;14;15].
    repeat (apply Forall_cons; split; [split_and!; by vm_compute|]). constructor. }
  rewrite Forall_forall in Hall. by apply Hall.
Qed.

(** Where [strtol] and [strtoul] find the digits of a printed number. *)
Lemma header_number neg base v :
  base = 10 ∨ base = 16 → 0 ≤ v < 2 ^ 64 →
  let l := (if neg : bool then [45] else []) ++ (digit_text false <$> plain_digits base v) in
  ∃ k, header base l = (neg, base, k) ∧ digits base (drop k l) = plain_digits base v ∧
    (k + length (plain_digits base v) = length l)%nat.
Proof.
  intros Hb Hv l. destruct (plain_digits_spec base v ltac:(lia) Hv) as (_ & Hall & Hne & H0).
  destruct (plain_digits base v) as [|d ds] eqn:Hd; [done|].
  apply Forall_cons in Hall as [Hd0 Hall]. destruct (digit_text_head d base Hd0 ltac:(lia)) as (Hsp & Hm & Hp & Hz & _).
  set (k := if neg then 1%nat else 0%nat). exists k.
  assert (drop k l = digit_text false <$> d :: ds) as Hdrop by (subst k l; by destruct neg).
  assert (l !! k = Some (digit_text false d)) as Hk by (subst k l; by destruct neg).
  assert (spaces l = 0%nat) as Hs.
  { unfold spaces. subst l k. destruct neg; [done|]. simpl in *. by rewrite Hsp. }
  split_and!.
  - unfold header. rewrite Hs.
    assert (bool_decide (l !! 0%nat = Some 45) = neg) as ->.
    { subst l k. destruct neg; [done|]. apply bool_decide_false. simpl. congruence. }
    assert ((if decide (l !! 0%nat = Some 45 ∨ l !! 0%nat = Some 43) then 1%nat else 0%nat) = k) as ->.
    { subst l k. destruct neg; [by rewrite decide_True by (by left)|].
      rewrite decide_False; [done|]. simpl. intros [?|?]; congruence. }
    assert (((base =? 0) || (base =? 16)) &&
      bool_decide (l !! k = Some 48 ∧ (l !! S k = Some 120 ∨ l !! S k = Some 88)) = false) as ->.
    { apply andb_false_iff. right. apply bool_decide_false. rewrite Hk. intros [[= H48] Hx].
      apply Hz in H48. subst d. specialize (H0 eq_refl). injection H0 as ->.
      subst l k. destruct neg; simpl in Hx; by destruct Hx. }
    by rewrite (proj2 (Z.eqb_neq base 0)) by lia.
  - rewrite Hdrop. apply digits_text; [lia|]. by constructor.
  - subst l k. destruct neg; simpl; by rewrite length_fmap.
Qed.

Lemma str_at_written m s cs : 0 < s → Forall (λ b, 0 < b < 256) cs →
  str_at (write_bytes m s (cs ++ [0])) s cs.
Proof.
  intros Hs Hcs. split; [done|done|]. intros i Hi. rewrite write_bytes_lookup, length_app, decide_True by (simpl; lia).
  replace (s + i - s) with i by lia. unfold byte_at. destruct (decide (i = len cs)) as [->|Hne].
  - rewrite Nat2Z.id, lookup_app_r, Nat.sub_diag by lia. by rewrite (lookup_ge_None_2 cs) by lia.
  - rewrite lookup_app_l by lia. destruct (lookup_lt_is_Some_2 cs (Z.to_nat i)) as [x Hx]; [lia|]. by rewrite Hx.
Qed.

Lemma plain_text_bytes neg base v : base = 10 ∨ base = 16 → 0 ≤ v < 2 ^ 64 →
  Forall (λ b, 0 < b < 256) ((if neg : bool then [45] else []) ++ (digit_text false <$> plain_digits base v)).
Proof.
  intros Hb Hv. destruct (plain_digits_spec base v ltac:(lia) Hv) as (_ & Hall & _).
  apply Forall_app_2; [destruct neg; repeat constructor; lia|]. apply Forall_fmap.
  eapply Forall_impl; [exact Hall|]. intros d Hd. by destruct (digit_text_head d base Hd ltac:(lia)) as (_ & _ & _ & _ & ?).
Qed.

Lemma plain_length base v : base = 10 ∨ base = 16 → 0 ≤ v < 2 ^ 64 → (length (plain_digits base v) ≤ 20)%nat.
Proof.
  intros Hb Hv. unfold plain_digits. destruct (v =? 0); [simpl; lia|]. unfold digits_of. rewrite length_reverse.
  apply digits_lsf_length; [lia|]. destruct Hb as [-> | ->].
  - change (10 ^ Z.of_nat 20) with 100000000000000000000. lia.
  - assert (2 ^ 64 ≤ 16 ^ Z.of_nat 20) by by vm_compute. lia.
Qed.

(** [%ld] and [%lx]. *)
Definition fmt_ld : list Z := [37; 108; 100].
Definition fmt_lx : list Z := [37; 108; 120].

Definition spec_l : cspec := set_size c_none SzL.

Definition plain : ispec :=
  {| i_left := false; i_zero := false; i_plus := false; i_space := false; i_alt := false;
     i_upper := false; i_width := 0; i_prec := None |}.

Lemma plain_fitting neg base v : base = 10 ∨ base = 16 → 0 ≤ v < 2 ^ 64 →
  fitting plain base v neg
  = Some ((if neg : bool then [45] else []) ++ (digit_text false <$> plain_digits base v)).
Proof.
  intros Hb Hv. pose proof (plain_length base v Hb Hv) as Hlen.
  assert (int_number plain base v neg
    = (if neg then [45] else []) ++ (digit_text false <$> plain_digits base v)) as Hnum.
  { unfold int_number. change (int_sign plain neg) with (if neg then [45] else @nil Z).
    change (int_prefix plain base v) with (@nil Z). change (int_fill plain base v neg) with (@nil Z).
    unfold int_body, int_digits, plain_digits. cbn [i_upper i_prec plain default app].
    set (D := digit_text false <$> _). by replace (Z.to_nat (0 - len D)) with 0%nat by lia. }
  unfold fitting. rewrite Hnum, length_app, length_fmap.
  rewrite (proj2 (Z.leb_le _ _)) by (destruct neg; simpl; lia).
  unfold int_text. rewrite Hnum. unfold align, spaces_to. cbn [i_left i_width plain].
  by replace (Z.to_nat (0 - _)) with 0%nat by lia.
Qed.

Lemma sext_small v : - 2 ^ 63 ≤ v < 2 ^ 63 → sext 64 v = v.
Proof.
  intros Hv. unfold sext, wrap. change (2 ^ (64 - 1)) with (2 ^ 63). destruct (decide (0 ≤ v)).
  - rewrite Z.mod_small by lia. by rewrite (proj2 (Z.ltb_lt _ _)) by lia.
  - replace (v mod 2 ^ 64) with (v + 2 ^ 64) by (apply Z.mod_unique with (-1); lia).
    rewrite (proj2 (Z.ltb_ge _ _)) by lia. lia.
Qed.

Lemma text_one letter t v :
  convert spec_l letter [SLong v] = Some (t, []) → (letter =? 37) = false → letter ≠ 0 →
  read_spec [108; letter] [SLong v] = Some (spec_l, [letter], [SLong v]) →
  format_text 3 [37; 108; letter] [SLong v] = Some t.
Proof.
  intros Hcv H37 H0 Hr. cbn [format_text Z.eqb Pos.eqb]. rewrite Hr. cbn [mbind option_bind].
  rewrite Hcv. cbn [mbind option_bind]. by rewrite app_nil_r.
Qed.

Lemma text_ld v : - 2 ^ 63 < v < 2 ^ 63 → format_text 3 fmt_ld [SLong v]
  = Some ((if v <? 0 then [45] else []) ++ (digit_text false <$> plain_digits 10 (Z.abs v))).
Proof.
  intros Hv. apply text_one; [|done..]. unfold convert. cbn [Z.eqb Pos.eqb orb head mbind option_bind].
  change (int_value true (c_size spec_l) (SLong v)) with (Some (sext 64 v)). cbn [mbind option_bind].
  rewrite sext_small by lia. unfold signed_text. rewrite (proj2 (Z.eqb_neq v (- 2 ^ 63))) by lia.
  change (fitting _ 10 (Z.abs v) (v <? 0)) with (fitting plain 10 (Z.abs v) (v <? 0)).
  rewrite plain_fitting by (auto || lia). done.
Qed.

Lemma text_lx v : 0 ≤ v < 2 ^ 64 → format_text 3 fmt_lx [SLong v]
  = Some (digit_text false <$> plain_digits 16 v).
Proof.
  intros Hv. apply text_one; [|done..]. unfold convert. cbn [Z.eqb Pos.eqb orb head mbind option_bind].
  change (int_value false (c_size spec_l) (SLong v)) with (Some (wrap 64 v)). cbn [mbind option_bind].
  assert (wrap 64 v = v) as -> by by apply Z.mod_small. unfold unsigned_text. cbn [Z.eqb Pos.eqb andb].
  change (fitting _ 16 v false) with (fitting plain 16 v false).
  rewrite plain_fitting by auto. done.
Qed.

Lemma cut_inside lo hi v : lo ≤ v ≤ hi → cut lo hi v = None.
Proof. intros Hv. unfold cut. destruct (Z.ltb_spec v lo); [lia|]. rewrite Z.gtb_ltb. by destruct (Z.ltb_spec hi v); [lia|]. Qed.

Lemma clamp_inside lo hi v : lo ≤ v ≤ hi → clamp lo hi v = v.
Proof. unfold clamp. lia. Qed.

(** ** Theorems *)

(** C28: whenever the rules give a text for a format and its arguments, shorter
    than [INT_MAX], the formatter completes: through a function it emits
    exactly that text; into a buffer of [n] bytes apart from the format and
    the arguments it writes the first [n - 1] characters and a terminating
    zero and nothing else; without a buffer it writes nothing; and it always
    returns the length of the whole text. *)
Theorem snprintf_correct m0 m fmt l vals args cs :
  m0 ⊆ m → str_at m0 fmt l → Forall2 (val_at m0) vals args →
  format_text (length l) l vals = Some cs → len cs < INT_MAX →
  vfctprintf m fmt args = Done (len cs, cs, m) ∧
  (∀ s n, 0 < s → 1 ≤ n → mapped m s n → apart m0 s n →
     vsnprintf_ m s n fmt args = Done (len cs, write_bytes m s (take (Z.to_nat (n - 1)) cs ++ [0]))) ∧
  (∀ s n, s = NULL ∨ n = 0 → vsnprintf_ m s n fmt args = Done (len cs, m)).
Proof.
  intros Hsub Hfmt Hargs Ht Hlen. split_and!.
  - by eapply vfctprintf_text.
  - intros. by eapply vsnprintf_text.
  - intros. by eapply vsnprintf_empty.
Qed.

(** The number written by [%ld] or [%lx] is in memory as a string. *)
Lemma snprintf_plain m0 m fmt l letter v s n neg base x :
  m0 ⊆ m → str_at m0 fmt l → l = [37; 108; letter] →
  base = 10 ∨ base = 16 → 0 ≤ x < 2 ^ 64 →
  format_text 3 l [SLong v]
    = Some ((if neg : bool then [45] else []) ++ (digit_text false <$> plain_digits base x)) →
  0 < s → 22 ≤ n → mapped m s n → apart m0 s n →
  ∃ m', vsnprintf_ m s n fmt [VaLong v]
      = Done (len ((if neg : bool then [45] else []) ++ (digit_text false <$> plain_digits base x)), m') ∧
    str_at m' s ((if neg : bool then [45] else []) ++ (digit_text false <$> plain_digits base x)).
Proof.
  intros Hsub Hfmt -> Hb Hx Ht Hs Hn Hmap Hap. pose proof (plain_length base x Hb Hx) as Hlen.
  set (cs := (if neg then [45] else []) ++ _) in *.
  assert (len cs ≤ 21) as Hcs by (subst cs; rewrite length_app, length_fmap; destruct neg; simpl; lia).
  eexists. split.
  - eapply (vsnprintf_text m0 m fmt _ [SLong v]); try done; [repeat constructor|unfold INT_MAX; lia|lia].
  - rewrite take_ge by lia. apply str_at_written; [done|]. by apply plain_text_bytes.
Qed.


(** *** A memory with formats and a buffer *)

Definition bytes_mem (s : Z) (l : list Z) : cmem := write_bytes ∅ s (l ++ [0]).

(** ["%+05d|%-4s|%#x"] at 1000, the string ["ab"] at 2000, [%ld] and [%lx] at
    3000 and 4000, a buffer of 32 bytes at 100. *)
Definition demo_fmt : list Z := [37; 43; 48; 53; 100; 124; 37; 45; 52; 115; 124; 37; 35; 120].
Definition demo_ro : cmem :=
  bytes_mem 1000 demo_fmt ∪ bytes_mem 2000 [97; 98] ∪ bytes_mem 3000 fmt_ld ∪ bytes_mem 4000 fmt_lx.
Definition demo_mem : cmem := write_bytes demo_ro 100 (replicate 32 255).

(** Facts on a concrete memory, by evaluation. *)
Lemma forallb_range (P : Z → Prop) `{∀ i, Decision (P i)} s n :
  forallb (λ i, bool_decide (P i)) (seqZ s n) = true → ∀ i, s ≤ i < s + n → P i.
Proof.
  intros Hall i Hi. rewrite forallb_forall in Hall. refine (bool_decide_eq_true_1 _ (Hall i _)).
  apply list_elem_of_In, elem_of_seqZ. lia.
Qed.

Lemma str_at_check m s l : 0 < s → Forall (λ b, 0 < b < 256) l →
  forallb (λ i, bool_decide (m !! (s + i) = Some (byte_at l i))) (seqZ 0 (len l + 1)) = true → str_at m s l.
Proof.
  intros Hs Hl Hall. split; [done|done|]. intros i Hi.
  apply (forallb_range (λ i, m !! (s + i) = Some (byte_at l i)) 0 (len l + 1)); [done|lia].
Qed.

Lemma apart_check m s n : forallb (λ a, bool_decide (m !! a = None)) (seqZ s n) = true → apart m s n.
Proof. intros Hall a Ha. by apply (forallb_range (λ a, m !! a = None) s n). Qed.

Lemma mapped_check m s n : forallb (λ a, bool_decide (is_Some (m !! a))) (seqZ s n) = true → mapped m s n.
Proof. intros Hall i Hi. apply (forallb_range (λ a, is_Some (m !! a)) s n); [done|lia]. Qed.

Lemma demo_apart : apart demo_ro 100 32.
Proof. by apply apart_check; vm_compute. Qed.

Lemma demo_sub : demo_ro ⊆ demo_mem.
Proof.
  apply map_subseteq_spec. intros a b Hab. unfold demo_mem. rewrite write_bytes_lookup.
  case_decide as Hin; [|done]. rewrite length_replicate in Hin. by rewrite demo_apart in Hab.
Qed.

Lemma demo_mapped : mapped demo_mem 100 32.
Proof. by apply mapped_check; vm_compute. Qed.

(** ["+0042|ab  |0x1f"]; a buffer of 8 bytes keeps its first 7. *)
Definition demo_text : list Z := [43; 48; 48; 52; 50; 124; 97; 98; 32; 32; 124; 48; 120; 49; 102].

Lemma snprintf_correct_witness :
  vfctprintf demo_mem 1000 [VaInt 42; VaPtr 2000; VaInt 31] = Done (15, demo_text, demo_mem) ∧
  vsnprintf_ demo_mem 100 8 1000 [VaInt 42; VaPtr 2000; VaInt 31]
  = Done (15, write_bytes demo_mem 100 [43; 48; 48; 52; 50; 124; 97; 0]).
Proof.
  destruct (snprintf_correct demo_ro demo_mem 1000 demo_fmt [SInt 42; SStr [97; 98]; SInt 31]
    [VaInt 42; VaPtr 2000; VaInt 31] demo_text) as (Hf & Hb & _).
  - exact demo_sub.
  - apply str_at_check; [done|repeat constructor; lia|by vm_compute].
  - apply Forall2_cons_2; [constructor|]. apply Forall2_cons_2; [|by repeat constructor].
    apply va_str_at; [|done]. apply str_at_check; [done|repeat constructor; lia|by vm_compute].
  - by vm_compute.
  - done.
  - split; [exact Hf|]. apply (Hb 100 8); [done|done| |].
    + apply (mapped_block demo_mem 100 32 0 8 demo_mapped); lia.
    + intros a Ha. apply demo_apart. lia.
Defined.


(** ** What goes wrong *)

(** ["%040d"] of [-5] prints 32 characters, without the sign: the buffer of an
    integer is full before the sign. *)
Theorem wide_zero_pad_loses_sign :
  vfctprintf (bytes_mem 10 [37; 48; 52; 48; 100]) 10 [VaInt (-5)]
  = Done (32, replicate 31 48 ++ [53], bytes_mem 10 [37; 48; 52; 48; 100]).
Proof. by vm_compute. Qed.

(** ["%lb"] of [2^40] prints 32 zeros. *)
Theorem binary_conversion_truncates :
  vfctprintf (bytes_mem 10 [37; 108; 98]) 10 [VaLong (2 ^ 40)]
  = Done (32, replicate 32 48, bytes_mem 10 [37; 108; 98]).
Proof. by vm_compute. Qed.

(** The format ["%5"] ends inside a specification: the formatter prints the
    terminating zero and reads on after it. *)
Theorem unfinished_format_overreads : vfctprintf (bytes_mem 10 [37; 53]) 10 [] = Panic.
Proof. by vm_compute. Qed.

(** ["%.*s"] with a negative precision prints nothing, though the precision
    should be ignored. *)
Theorem negative_precision_prints_nothing :
  vfctprintf (bytes_mem 10 [37; 46; 42; 115] ∪ bytes_mem 20 [97; 98; 99]) 10 [VaInt (-1); VaPtr 20]
  = Done (0, [], bytes_mem 10 [37; 46; 42; 115] ∪ bytes_mem 20 [97; 98; 99]).
Proof. by vm_compute. Qed.
