(* ===== verification/CStdio.v ===== *)
(** * Streams of the C library ([ulib/c_libax/src/stdio.c])

    A [FILE] is a buffer of 1024 bytes in front of a descriptor; what is
    written to it goes out at the end of a line and when it is full.  The
    descriptors 1 and 2 print to the console, the others are those of
    [FdTable.v]; the text of [printf] is that of [CPrintf.v]. *)

From S2P Require Import Prelude FlattenObjects PollState FdTable CString CStringSpec CPrintf CPrintfSpec CFormatSpec.
From stdpp Require Import base numbers gmap list.

Open Scope Z_scope.
Local Open Scope word_scope.

Definition FILE_BUF_SIZE : Z := 1024.

(** [struct IO_FILE]. *)
Record FILE := { fd : Z; buffer_len : Z; buf : list Z }.

Definition STDOUT_FD : Z := 1.
Definition STDERR_FD : Z := 2.

(** The flags of [fcntl.h], written in octal there. *)
Definition O_RDONLY : Z := 0.
Definition O_WRONLY : Z := 1.
Definition O_RDWR : Z := 2.
Definition O_CREAT : Z := 64.
Definition O_EXCL : Z := 128.
Definition O_TRUNC : Z := 512.
Definition O_APPEND : Z := 1024.

(** The console and the descriptors. *)
Record sio (B F W : Type) := { console : list Z; descriptors : fd_state B F W }.
Arguments console {B F W} _.
Arguments descriptors {B F W} _.

Section stdio.
Context {B F W : Type} `{BM : Bitmap B} `{FL : FileLike F W}.
#[local] Abbreviation st := (sio B F W).
Implicit Types (f : FILE) (w : st).

(** [ax_print_str]: the console takes everything. *)
Definition ax_print_str (l : list Z) w : st * Z :=
  ({| console := console w ++ l; descriptors := descriptors w |}, len l).

(** [write]: -1 and [errno] on an error. *)
Definition c_write (d : Z) (l : list Z) w : outcome (st * Z) :=
  '(s, r) ← ax_call_body (ax_write d (Some l)) (descriptors w);
  Done ({| console := console w; descriptors := s |}, r).

Definition write_buffer f w : outcome (st * Z) :=
  if buffer_len f =? 0 then Done (w, 0)
  else
    let l := take (Z.to_nat (buffer_len f)) (buf f) in
    if (fd f =? STDOUT_FD) || (fd f =? STDERR_FD) then Done (ax_print_str l w) else c_write (fd f) l w.

Definition clear_buffer f : FILE := {| fd := fd f; buffer_len := 0; buf := buf f |}.

Definition fflush f w : outcome (FILE * st * Z) :=
  '(w, r) ← write_buffer f w;
  Done (clear_buffer f, w, if 0 <=? r then 0 else r).

(** [f->buf[f->buffer_len++] = c]; an index behind the buffer is undefined. *)
Definition buffer_put (c : Z) f : outcome FILE :=
  if buffer_len f <? FILE_BUF_SIZE
  then Done {| fd := fd f; buffer_len := buffer_len f + 1; buf := <[Z.to_nat (buffer_len f) := wrap 8 c]> (buf f) |}
  else Panic.

(** The comparison with [buffer_len] comes after the buffer was cleared. *)
Fixpoint out_loop (s : list Z) f w (ret : Z) : outcome (FILE * st * Z) :=
  match s with
  | [] => Done (f, w, ret)
  | c :: s =>
      f ← buffer_put c f;
      if (buffer_len f =? FILE_BUF_SIZE) || (wrap 8 c =? 10) then
        '(w, r) ← write_buffer f w;
        let f := clear_buffer f in
        if r <? 0 then Done (f, w, r)
        else if r <? buffer_len f then Done (f, w, ret + r)
        else out_loop s f w (ret + r)
      else out_loop s f w ret
  end.

Definition out (s : list Z) f w : outcome (FILE * st * Z) := out_loop s f w 0.

(** [fputc], [putc], [putchar]. *)
Definition do_putc (c : Z) f w : outcome (FILE * st * Z) := out [wrap 8 c] f w.

(** [puts]: straight to the console, not through the buffer of [stdout]. *)
Definition puts_str (l : list Z) w : st * Z :=
  let '(w, a) := ax_print_str l w in let '(w, b) := ax_print_str [10] w in (w, b + a).

(** [__out_wrapper] for each character of a text; its results are dropped. *)
Fixpoint out_chars (cs : list Z) f w : outcome (FILE * st) :=
  match cs with
  | [] => Done (f, w)
  | c :: cs => '(f, w, _) ← out [wrap 8 c] f w; out_chars cs f w
  end.

Definition vfprintf (m : cmem) (fmt : Z) (args : list va_value) f w : outcome (FILE * st * cmem * Z) :=
  '(ret, cs, m) ← vfctprintf m fmt args;
  '(f, w) ← out_chars cs f w;
  Done (f, w, m, ret).

(** [__fmodeflags]; [mode] without its terminating zero. *)
Definition fmodeflags (mode : list Z) : Z :=
  let c := byte_at mode 0 in
  let in_mode x := bool_decide (x ∈ mode) in
  let flags := if in_mode 43 then O_RDWR else if c =? 114 then O_RDONLY else O_WRONLY in
  let flags := if in_mode 120 then flags .| O_EXCL else flags in
  let flags := if in_mode 101 then flags .| O_CLOEXEC else flags in
  let flags := if negb (c =? 114) then flags .| O_CREAT else flags in
  let flags := if c =? 119 then flags .| O_TRUNC else flags in
  if c =? 97 then flags .| O_APPEND else flags.

(** [strchr] of the three letters also finds the terminating zero. *)
Definition mode_accepted (mode : list Z) : bool :=
  let c := byte_at mode 0 in (c =? 114) || (c =? 119) || (c =? 97) || (c =? 0).

(** [fopen]: [junk] is what the new object holds, [None] when there is no
    memory; [ax_open] is the descriptor the call of that name returns. *)
Inductive fopen_result := OpenInval | OpenFailed | Opened (f : FILE).

Definition fopen (junk : option FILE) (ax_open : Z → Z) (mode : list Z) : outcome fopen_result :=
  if negb (mode_accepted mode) then Done OpenInval
  else
    let d := ax_open (fmodeflags mode) in
    if d <? 0 then Done OpenFailed
    else j ← unwrap junk; Done (Opened {| fd := d; buffer_len := buffer_len j; buf := buf j |}).

(** One call of [ax_read] for one byte. *)
Definition read_byte (d : Z) w : outcome (st * option Z) :=
  '(s, r) ← ax_read d false 1 (descriptors w);
  Done ({| console := console w; descriptors := s |}, match r with Ok (c :: _) => Some c | _ => None end).

Fixpoint fgets_loop (fuel : nat) (n : Z) f (cnt : list Z) w : outcome (st * list Z) :=
  match fuel with
  | O => Panic
  | S fuel =>
      if len cnt <? n - 1 then
        '(w, r) ← read_byte (fd f) w;
        match r with
        | Some c => if c =? 10 then Done (w, cnt) else fgets_loop fuel n f (cnt ++ [c]) w
        | None => Done (w, cnt)
        end
      else Done (w, cnt)
  end.

(** The bytes stored at [s], or [None] for a null pointer. *)
Definition fgets (n : Z) f w : outcome (st * option (list Z)) :=
  if n =? 0 then Done (w, None)
  else if n =? 1 then Done (w, Some [0])
  else '(w, l) ← fgets_loop (S (Z.to_nat n)) n f [] w; Done (w, Some (l ++ [0])).

End stdio.

(** ** Nothing is lost and lines go out *)

Section spec.
Context {B F W : Type} `{BM : Bitmap B} `{FL : FileLike F W}.
#[local] Abbreviation st := (sio B F W).
Implicit Types (f : FILE) (w : st).

(** A descriptor that takes everything written to it: [sink] is what it has
    taken, in the worlds [good]. *)
Record takes_all (d : Z) (good : st → Prop) (sink : st → list Z) : Prop := {
  ta_emit l w : good w → l ≠ [] → ∃ w',
    (if (d =? STDOUT_FD) || (d =? STDERR_FD) then Done (ax_print_str l w) else c_write d l w) = Done (w', len l) ∧
    good w' ∧ sink w' = sink w ++ l;
}.

Lemma console_takes_all d : d = 1 ∨ d = 2 → takes_all d (λ _, True) console.
Proof.
  intros Hd. split. intros l w _ _. exists {| console := console w ++ l; descriptors := descriptors w |}.
  destruct Hd as [->| ->]; done.
Qed.

(** A stream between two calls: a started line without a newline. *)
Record file_ok f : Prop := {
  fo_buf : length (buf f) = 1024%nat;
  fo_len : 0 ≤ buffer_len f < 1024;
  fo_line : 10 ∉ take (Z.to_nat (buffer_len f)) (buf f);
}.

Definition pending f : list Z := take (Z.to_nat (buffer_len f)) (buf f).

Lemma buffer_put_spec c f : length (buf f) = 1024%nat → 0 ≤ buffer_len f < 1024 →
  ∃ f', buffer_put c f = Done f' ∧ fd f' = fd f ∧ length (buf f') = 1024%nat ∧ buffer_len f' = buffer_len f + 1 ∧
    take (Z.to_nat (buffer_len f')) (buf f') = pending f ++ [wrap 8 c].
Proof.
  intros Hb Hl. unfold buffer_put, FILE_BUF_SIZE. rewrite (proj2 (Z.ltb_lt _ _)) by lia. eexists. split; [done|].
  cbn [fd buf buffer_len]. rewrite length_insert. split_and!; [done..|]. unfold pending.
  replace (Z.to_nat (buffer_len f + 1)) with (S (Z.to_nat (buffer_len f))) by lia.
  rewrite (take_S_r _ _ (wrap 8 c)) by (by rewrite list_lookup_insert_eq by lia).
  by rewrite take_insert_ge by lia.
Qed.

Section sink.
Context (good : st → Prop) (sink : st → list Z).

(** Stepping through the characters of [out]. *)
Lemma out_loop_spec s : ∀ f w ret, takes_all (fd f) good sink → file_ok f → good w → Forall (λ c, 0 ≤ c < 256) s →
  ∃ f' w' sent, out_loop s f w ret = Done (f', w', ret + len sent) ∧ fd f' = fd f ∧ file_ok f' ∧ good w' ∧
    sink w' = sink w ++ sent ∧ sent ++ pending f' = pending f ++ s.
Proof.
  induction s as [|c s IH]; intros f w ret Ht Hf Hg Hs.
  { exists f, w, []. cbn. rewrite Z.add_0_r, !app_nil_r. done. }
  apply Forall_cons in Hs as [Hc Hs]. destruct Hf as [Hb Hl Hn].
  destruct (buffer_put_spec c f Hb Hl) as (f1 & E1 & Hfd & Hb1 & Hl1 & Hp1). cbn [out_loop]. rewrite E1.
  cbn [mbind outcome_bind]. rewrite (wrap_small 8 c) in * by (change (2 ^ 8) with 256; lia).
  unfold FILE_BUF_SIZE. destruct ((buffer_len f1 =? 1024) || (c =? 10)) eqn:Hflush.
  - unfold write_buffer. destruct (Z.eqb_spec (buffer_len f1) 0); [lia|]. rewrite Hfd, Hp1.
    destruct (ta_emit _ _ _ Ht (pending f ++ [c]) w Hg) as (w1 & Ew & Hg1 & Hsk); [by destruct (pending f)|].
    rewrite Ew. cbn [mbind outcome_bind]. destruct (Z.ltb_spec (len (pending f ++ [c])) 0); [lia|].
    cbn [buffer_len clear_buffer]. destruct (Z.ltb_spec (len (pending f ++ [c])) 0); [lia|].
    destruct (IH (clear_buffer f1) w1 (ret + len (pending f ++ [c]))) as (f2 & w2 & sent & E2 & Hfd2 & Hok & Hg2 & Hsk2 & Hsent);
      [cbn; by rewrite Hfd|split; cbn; [done|lia|apply not_elem_of_nil]|done|done|].
    exists f2, w2, ((pending f ++ [c]) ++ sent). split; [rewrite E2; do 2 f_equal; rewrite !length_app; lia|].
    split; [by rewrite Hfd2|]. split; [done|]. split; [done|]. split; [by rewrite Hsk2, Hsk, <- !app_assoc|].
    rewrite <- !app_assoc, Hsent. done.
  - bool_to_prop. destruct (IH f1 w ret) as (f2 & w2 & sent & E2 & Hfd2 & Hok & Hg2 & Hsk2 & Hsent);
      [by rewrite Hfd|split; [done|lia|]|done|done|].
    { rewrite Hp1. unfold pending. set_solver. }
    exists f2, w2, sent. split; [done|]. split; [by rewrite Hfd2|]. split; [done|]. split; [done|]. split; [done|].
    rewrite Hsent. unfold pending. rewrite Hp1. unfold pending. by rewrite <- app_assoc.
Qed.

(** One call of [out] for a list of characters, or one for each. *)
Lemma out_chars_spec cs : ∀ f w, takes_all (fd f) good sink → file_ok f → good w → Forall (λ c, 0 ≤ c < 256) cs →
  ∃ f' w' sent, out_chars cs f w = Done (f', w') ∧ fd f' = fd f ∧ file_ok f' ∧ good w' ∧
    sink w' = sink w ++ sent ∧ sent ++ pending f' = pending f ++ cs.
Proof.
  induction cs as [|c cs IH]; intros f w Ht Hf Hg Hcs.
  { exists f, w, []. cbn. by rewrite !app_nil_r. }
  apply Forall_cons in Hcs as [Hc Hcs]. cbn [out_chars]. rewrite (wrap_small 8 c) by (change (2 ^ 8) with 256; lia).
  destruct (out_loop_spec [c] f w 0) as (f1 & w1 & sent1 & E1 & Hfd1 & Hf1 & Hg1 & Hsk1 & Hs1); [done..|by apply Forall_singleton|].
  unfold out. rewrite E1. cbn [mbind outcome_bind].
  destruct (IH f1 w1) as (f2 & w2 & sent2 & E2 & Hfd2 & Hf2 & Hg2 & Hsk2 & Hs2); [by rewrite Hfd1|done..|].
  exists f2, w2, (sent1 ++ sent2). split; [done|]. split; [by rewrite Hfd2|]. split; [done|]. split; [done|].
  split; [by rewrite Hsk2, Hsk1, <- app_assoc|]. by rewrite <- app_assoc, Hs2, app_assoc, Hs1, <- app_assoc.
Qed.

Lemma fflush_spec f w : takes_all (fd f) good sink → file_ok f → good w →
  ∃ f' w', fflush f w = Done (f', w', 0) ∧ fd f' = fd f ∧ file_ok f' ∧ good w' ∧ pending f' = [] ∧
    sink w' = sink w ++ pending f.
Proof.
  intros Ht [Hb Hl Hn] Hg. unfold fflush, write_buffer. destruct (Z.eqb_spec (buffer_len f) 0) as [H0|H0].
  - exists (clear_buffer f), w. split; [done|]. split; [done|]. split; [split; cbn; [done|lia|apply not_elem_of_nil]|].
    split; [done|]. split; [done|]. unfold pending. rewrite H0. by rewrite app_nil_r.
  - destruct (ta_emit _ _ _ Ht (pending f) w Hg) as (w1 & Ew & Hg1 & Hsk).
    { unfold pending. intros Hnil. apply (f_equal length) in Hnil. rewrite length_take in Hnil. cbn in Hnil. lia. }
    fold (pending f). rewrite Ew. cbn [mbind outcome_bind]. rewrite (proj2 (Z.leb_le _ _)) by lia.
    exists (clear_buffer f), w1. split; [done|]. split; [done|]. split; [split; cbn; [done|lia|apply not_elem_of_nil]|].
    by split_and!.
Qed.

End sink.

(** A text that ends a line leaves nothing pending. *)
Lemma line_complete f sent l : file_ok f → sent ++ pending f = l ++ [10] → pending f = [].
Proof.
  intros Hf Hs. pose proof (fo_line _ Hf) as Hn. fold (pending f) in Hn. revert Hn Hs.
  induction (pending f) as [|c p _] using rev_ind; [done|]. intros Hn Hs. rewrite app_assoc in Hs.
  apply app_inj_tail in Hs as [_ ->]. set_solver.
Qed.

(** C31: [printf], with the text [cs] the rules give for its format and its
    arguments, returns the length of [cs]; the bytes the descriptor has taken
    and those in the buffer are then those of before followed by [cs], in that
    order and without loss.  What is in the buffer is part of one line, a text
    that ends a line leaves nothing there, and [fflush] writes the rest. *)
Theorem printf_writes_text good sink m0 m fmt l vals args cs f w :
  m0 ⊆ m → str_at m0 fmt l → Forall2 (val_at m0) vals args →
  format_text (length l) l vals = Some cs → len cs < INT_MAX →
  takes_all (fd f) good sink → file_ok f → good w →
  ∃ f' w' sent, vfprintf m fmt args f w = Done (f', w', m, len cs) ∧
    sink w' = sink w ++ sent ∧ sent ++ pending f' = pending f ++ cs ∧ (10 ∉ pending f') ∧
    (∀ t, cs = t ++ [10] → pending f' = [] ∧ sink w' = sink w ++ pending f ++ cs) ∧
    ∃ f2 w2, fflush f' w' = Done (f2, w2, 0) ∧ pending f2 = [] ∧ sink w2 = sink w ++ pending f ++ cs.
Proof.
  intros Hsub Hfmt Hargs Ht Hlen Hta Hf Hg. unfold vfprintf.
  rewrite (vfctprintf_text m0 m fmt l vals args cs) by done. cbn [mbind outcome_bind].
  destruct (out_chars_spec good sink cs f w Hta Hf Hg) as (f' & w' & sent & -> & Hfd & Hok & Hg' & Hsk & Hs).
  { by eapply text_bytes. }
  cbn [mbind outcome_bind]. exists f', w', sent. split; [done|]. split; [done|]. split; [done|].
  split; [apply (fo_line _ Hok)|]. split.
  - intros t ->. assert (pending f' = []) as Hp by (eapply line_complete; [done|]; by rewrite Hs, app_assoc).
    split; [done|]. by rewrite Hsk, <- Hs, Hp, app_nil_r.
  - destruct (fflush_spec good sink f' w') as (f2 & w2 & E & _ & _ & _ & Hp2 & Hsk2); [by rewrite Hfd|done|done|].
    exists f2, w2. split; [done|]. split; [done|]. by rewrite Hsk2, Hsk, <- app_assoc, Hs.
Qed.

(** ** [fgets] *)

(** [feeds w R]: the descriptor gives the bytes [R], one for each call, and
    then nothing. *)
Context (d : Z) (feeds : st → list Z → Prop).
Hypothesis feeds_byte : ∀ w b R, feeds w (b :: R) → ∃ w', read_byte d w = Done (w', Some b) ∧ feeds w' R.
Hypothesis feeds_end : ∀ w, feeds w [] → ∃ w', read_byte d w = Done (w', None) ∧ feeds w' [].

Lemma fgets_loop_spec fuel : ∀ n f cnt w R, fd f = d → feeds w R → len cnt ≤ n - 1 → (Z.to_nat (n - len cnt) ≤ fuel)%nat →
  ∃ w' line rest, fgets_loop fuel n f cnt w = Done (w', cnt ++ line) ∧ feeds w' rest ∧ (10 ∉ line) ∧
    len cnt + len line ≤ n - 1 ∧
    ((len cnt + len line = n - 1 ∧ R = line ++ rest) ∨ R = line ++ 10 :: rest ∨ (R = line ∧ rest = [])).
Proof using feeds_byte feeds_end.
  induction fuel as [|fuel IH]; intros n f cnt w R Hd Hw Hc Hf; [lia|]. cbn [fgets_loop].
  destruct (Z.ltb_spec (len cnt) (n - 1)) as [Hlt|Hge].
  2: { exists w, [], R. rewrite app_nil_r. cbn. split_and!; [done|done|apply not_elem_of_nil|lia|]. left. split; [lia|done]. }
  rewrite Hd. destruct R as [|b R].
  - destruct (feeds_end w Hw) as (w' & -> & Hw'). exists w', [], []. cbn. rewrite app_nil_r.
    split_and!; [done|done|apply not_elem_of_nil|lia|]. by right; right.
  - destruct (feeds_byte w b R Hw) as (w' & -> & Hw'). cbn [mbind outcome_bind]. destruct (Z.eqb_spec b 10) as [->|Hb].
    + exists w', [], R. rewrite app_nil_r. cbn. split_and!; [done|done|apply not_elem_of_nil|lia|]. by right; left.
    + destruct (IH n f (cnt ++ [b]) w' R Hd Hw') as (w2 & line & rest & -> & Hw2 & Hn & Hl & Hcase);
        [rewrite length_app; cbn; lia..|].
      rewrite length_app in *. cbn [length] in *. exists w2, (b :: line), rest. rewrite <- app_assoc. cbn [length app].
      split_and!; [done|done|set_solver|lia|]. destruct Hcase as [[? ->]|[->|[-> ->]]]; [left|right; left|right; right]; try done.
      split; [lia|done].
Qed.

(** [fgets] stores the bytes up to the end of the line, which it takes but
    does not store, or as many as fit, with a zero behind them; at the end of
    the file it stores an empty string and does not return a null pointer. *)
Theorem fgets_line n f w R : fd f = d → feeds w R → 2 ≤ n →
  ∃ w' line rest, fgets n f w = Done (w', Some (line ++ [0])) ∧ feeds w' rest ∧ (10 ∉ line) ∧ len line ≤ n - 1 ∧
    ((len line = n - 1 ∧ R = line ++ rest) ∨ R = line ++ 10 :: rest ∨ (R = line ∧ rest = [])).
Proof using feeds_byte feeds_end.
  intros Hd Hw Hn. unfold fgets. destruct (Z.eqb_spec n 0), (Z.eqb_spec n 1); [lia..|].
  destruct (fgets_loop_spec (S (Z.to_nat n)) n f [] w R Hd Hw) as (w' & line & rest & -> & Hw' & Hl & Hle & Hcase);
    [cbn; lia..|]. cbn [mbind outcome_bind app]. exists w', line, rest. cbn [length] in *. by split_and!.
Qed.

End spec.

(** ** Defects *)

(** A new stream has whatever length its memory held: the first character can
    be stored behind the buffer. *)
Theorem fopen_uninitialised :
  ∃ f, fopen (Some {| fd := 0; buffer_len := 5000; buf := replicate 1024 0 |}) (λ _, 3) [119] = Done (Opened f) ∧
    buffer_put 97 f = Panic.
Proof. eexists. split; [done|]. done. Qed.

(** The empty mode is accepted. *)
Theorem fopen_empty_mode : mode_accepted [] = true ∧ fmodeflags [] = O_WRONLY .| O_CREAT.
Proof. done. Qed.

(** [putc] returns the number of bytes that left the buffer. *)
Theorem putc_returns_zero {B F W : Type} `{BM : Bitmap B} `{FL : FileLike F W} (w : sio B F W) :
  ∃ f', do_putc 97 {| fd := 1; buffer_len := 0; buf := replicate 1024 0 |} w = Done (f', w, 0).
Proof. eexists. done. Qed.

(** ** An example *)

Definition demo_stdout : FILE := {| fd := 1; buffer_len := 0; buf := replicate 1024 0 |}.
Definition demo_sio : sio (gset Z) nat unit := {| console := []; descriptors := demo_fds |}.

#[local] Opaque demo_mem demo_ro.

Lemma printf_writes_text_witness :
  ∃ f' w', vfprintf demo_mem 1000 [VaInt 42; VaPtr 2000; VaInt 31] demo_stdout demo_sio = Done (f', w', demo_mem, 15).
Proof.
  destruct (printf_writes_text (λ _, True) console demo_ro demo_mem 1000 demo_fmt [SInt 42; SStr [97; 98]; SInt 31]
    [VaInt 42; VaPtr 2000; VaInt 31] demo_text demo_stdout demo_sio) as (f' & w' & _ & E & _).
  - exact demo_sub.
  - apply str_at_check; [lia|repeat constructor; lia|by vm_compute].
  - apply Forall2_cons_2; [constructor|]. apply Forall2_cons_2; [|by repeat constructor].
    apply va_str_at; [|discriminate]. apply str_at_check; [lia|repeat constructor; lia|by vm_compute].
  - by vm_compute.
  - by vm_compute.
  - apply console_takes_all. by left.
  - split; [reflexivity|cbn; lia|cbn; apply not_elem_of_nil].
  - exact I.
  - exists f', w'. exact E.
Defined.
