(* ===== verification/CNetwork.v ===== *)
(** * Internet addresses of the C library ([ulib/c_libax/src/network.c])

    [inet_pton] and [inet_ntop] for both families and the conversions of byte
    order.  String literals and local arrays are in memory
    like everything else: their addresses are arguments. *)

From stdpp Require Import base numbers list gmap.
From S2P Require Import Prelude CString CPrintf.

Local Open Scope Z_scope.
Local Open Scope word_scope.

(** ** Byte order *)

Definition bswap_16 (x : Z) : Z := wrap 16 (Z.lor (Z.shiftl x 8) (x .>> 8)).
Definition bswap_32 (x : Z) : Z :=
  (x .>> 24) .| ((x .>> 8) .& 0xff00) .| (wrap 32 (Z.shiftl x 8) .& 0xff0000) .| wrap 32 (Z.shiftl x 24).

(** The targets are little-endian. *)
Definition htonl (n : Z) : Z := bswap_32 n.
Definition htons (n : Z) : Z := bswap_16 n.
Definition ntohl (n : Z) : Z := bswap_32 n.
Definition ntohs (n : Z) : Z := bswap_16 n.

(** ** Reading addresses *)

Definition AF_INET : Z := 2.
Definition AF_INET6 : Z := 10.

Inductive net_errno := EAFNOSUPPORT | ENOSPC.

(** [for (v = j = 0; j < 3 && isdigit(s[j]); j++)], with [n] rounds left. *)
Fixpoint dec_loop (n : nat) (m : cmem) (s v j : Z) : outcome (Z * Z) :=
  match n with
  | O => Done (v, j)
  | S n =>
      c ← load m (s + j);
      if isdigit c then dec_loop n m s (10 * v + c - 48) (j + 1) else Done (v, j)
  end.

(** The part of [inet_pton] for [AF_INET]; [n] is [4 - i]. *)
Fixpoint quad_loop (n : nat) (m : cmem) (s a i : Z) : outcome (cmem * bool) :=
  match n with
  | O => Done (m, false)
  | S n =>
      '(v, j) ← dec_loop 3 m s 0 0;
      c0 ← load m s;
      if (j =? 0) || ((j >? 1) && (c0 =? 48)) || (v >? 255) then Done (m, false)
      else
        m ← store m (a + i) v;
        c ← load m (s + j);
        if (c =? 0) && (i =? 3) then Done (m, true)
        else if negb (c =? 46) then Done (m, false)
        else quad_loop n m (s + j + 1) a (i + 1)
  end.

Definition hexval (c : Z) : Z :=
  if wrap 32 (c - 48) <? 10 then c - 48
  else
    let c := Z.lor c 32 in
    if wrap 32 (c - 97) <? 6 then c - 97 + 10 else -1.

Fixpoint hex_loop (n : nat) (m : cmem) (s v j : Z) : outcome (Z * Z) :=
  match n with
  | O => Done (v, j)
  | S n =>
      c ← load m (s + j);
      let d := hexval c in
      if d >=? 0 then hex_loop n m s (16 * v + d) (j + 1) else Done (v, j)
  end.

(** [ip[i & 7] = v]. *)
Definition ip_set (i v : Z) (ip : list Z) : list Z := <[Z.to_nat (i .& 7) := v]> ip.

(** Where the loop over the groups stops: [s], [i], [brk], the groups and
    [need_v4]. *)
Abbreviation groups := (Z * Z * Z * list Z * bool)%type.

(** The loop over the groups, at most one round for each index below 8;
    [None] when the function returns 0. *)
Fixpoint groups_loop (fuel : nat) (m : cmem) (s i brk : Z) (ip : list Z) : outcome (option groups) :=
  match fuel with
  | O => Panic
  | S fuel =>
      c ← load m s;
      if (c =? 58) && (brk <? 0) then
        let brk := i in
        let ip := ip_set i 0 ip in
        c ← load m (s + 1);
        if c =? 0 then Done (Some (s + 1, i, brk, ip, false))
        else if i =? 7 then Done None
        else groups_loop fuel m (s + 1) (i + 1) brk ip
      else
        '(v, j) ← hex_loop 4 m s 0 0;
        if j =? 0 then Done None
        else
          let ip := ip_set i v ip in
          c ← load m (s + j);
          if (c =? 0) && ((brk >=? 0) || (i =? 7)) then Done (Some (s, i, brk, ip, false))
          else if i =? 7 then Done None
          else if negb (c =? 58) then
            if negb (c =? 46) || ((i <? 6) && (brk <? 0)) then Done None
            else Done (Some (s, i + 1, brk, ip, true))
          else groups_loop fuel m (s + j + 1) (i + 1) brk ip
  end.

(** [for (j = 0; j < 7 - i; j++) ip[brk + j] = 0], [n] rounds from [k]. *)
Fixpoint zero_groups (n : nat) (k : Z) (ip : list Z) : list Z :=
  match n with
  | O => ip
  | S n => zero_groups n (k + 1) (<[Z.to_nat k := 0]> ip)
  end.

(** [memmove] of [n] groups inside [ip]. *)
Definition move_groups (dst src n : Z) (ip : list Z) : outcome (list Z) :=
  if (0 <=? src) && (0 <=? dst) && (0 <=? n) && (dst + n <=? 8) && (src + n <=? 8) then
    Done (take (Z.to_nat dst) ip ++ take (Z.to_nat n) (drop (Z.to_nat src) ip) ++
          drop (Z.to_nat (dst + n)) ip)
  else Panic.

(** Filling in the groups that [::] stands for. *)
Definition expand_groups (i brk : Z) (ip : list Z) : outcome (list Z) :=
  if brk >=? 0 then
    let ip := zero_groups (Z.to_nat (7 - i)) brk ip in
    move_groups (brk + 7 - i) brk (i + 1 - brk) ip
  else Done ip.

(** [*a++ = ip[j] >> 8; *a++ = ip[j]]. *)
Fixpoint store_groups (m : cmem) (a : Z) (ip : list Z) : outcome cmem :=
  match ip with
  | [] => Done m
  | g :: ip => m ← store m a (g .>> 8); m ← store m (a + 1) g; store_groups m (a + 2) ip
  end.

Definition ret_bool (r : cmem * bool) : cmem * Z * option net_errno :=
  (r.1, if r.2 then 1 else 0, None).

(** [ip] is the local array with the values it happens to have. *)
Definition inet_pton (ip : list Z) (m : cmem) (af s a : Z) : outcome (cmem * Z * option net_errno) :=
  if af =? AF_INET then r ← quad_loop 4 m s a 0; Done (ret_bool r)
  else if negb (af =? AF_INET6) then Done (m, -1, Some EAFNOSUPPORT)
  else
    c ← load m s;
    start ← (if c =? 58 then c ← load m (s + 1); Done (if negb (c =? 58) then None else Some (s + 1))
             else Done (Some s));
    match start with
    | None => Done (m, 0, None)
    | Some s =>
        o ← groups_loop 8 m s 0 (-1) ip;
        match o with
        | None => Done (m, 0, None)
        | Some (s, i, brk, ip, need_v4) =>
            ip ← expand_groups i brk ip;
            m ← store_groups m a ip;
            if need_v4 : bool then r ← quad_loop 4 m s (a + 16 - 4) 0; Done (ret_bool r)
            else Done (m, 1, None)
        end
    end.

(** ** Writing addresses *)

(** The addresses of the literals ["%d.%d.%d.%d"], ["%x:%x:%x:%x:%x:%x:%x:%x"],
    ["%x:%x:%x:%x:%x:%x:%d.%d.%d.%d"], the prefix of a mapped address and
    [":0"], and of the local array [buf]. *)
Record ntop_env := {
  fmt_v4 : Z;
  fmt_v6 : Z;
  fmt_mapped : Z;
  mapped_prefix : Z;
  colon_zero : Z;
  buf : Z;
}.

(** [a[i]] and [256 * a[i] + a[i + 1]] as arguments. *)
Definition byte_arg (m : cmem) (a i : Z) : outcome va_value :=
  b ← load m (a + i); Done (VaInt b).
Definition group_arg (m : cmem) (a i : Z) : outcome va_value :=
  hi ← load m (a + i); lo ← load m (a + i + 1); Done (VaInt (256 * hi + lo)).

Fixpoint args_of (f : Z → outcome va_value) (l : list Z) : outcome (list va_value) :=
  match l with
  | [] => Done []
  | i :: l => v ← f i; vs ← args_of f l; Done (v :: vs)
  end.

(** The search for the longest run; [i] is the length of the text at the
    end. *)
Fixpoint run_loop (fuel : nat) (e : ntop_env) (m : cmem) (i best max : Z) : outcome (Z * Z * Z) :=
  match fuel with
  | O => Panic
  | S fuel =>
      c ← load m (buf e + i);
      if c =? 0 then Done (i, best, max)
      else if negb (i =? 0) && negb (c =? 58) then run_loop fuel e m (i + 1) best max
      else
        j ← strspn m (buf e + i) (colon_zero e);
        let j := sext 32 j in
        if j >? max then run_loop fuel e m (i + 1) i j else run_loop fuel e m (i + 1) best max
  end.

(** [buf] with the longest run replaced. *)
Definition compress (e : ntop_env) (m : cmem) : outcome cmem :=
  '(i, best, max) ← run_loop (mem_fuel m) e m 0 0 2;
  if max >? 3 then
    m ← store m (buf e + best + 1) 58;
    m ← store m (buf e + best) 58;
    memmove m (buf e + best + 2) (buf e + best + max) (i - best - max + 1)
  else Done m.

Definition ntop_v6 (e : ntop_env) (m : cmem) (a : Z) : outcome cmem :=
  d ← memcmp m a (mapped_prefix e) 12;
  '(_, m) ←
    (if negb (d =? 0) then
       args ← args_of (group_arg m a) [0; 2; 4; 6; 8; 10; 12; 14];
       vsnprintf_ m (buf e) 100 (fmt_v6 e) args
     else
       gs ← args_of (group_arg m a) [0; 2; 4; 6; 8; 10];
       bs ← args_of (byte_arg m a) [12; 13; 14; 15];
       vsnprintf_ m (buf e) 100 (fmt_mapped e) (gs ++ bs));
  compress e m.

Definition inet_ntop (e : ntop_env) (m : cmem) (af a s l : Z) : outcome (cmem * Z * option net_errno) :=
  if af =? AF_INET then
    args ← args_of (byte_arg m a) [0; 1; 2; 3];
    '(n, m) ← vsnprintf_ m s l (fmt_v4 e) args;
    Done (if wrap 32 n <? l then (m, s, None) else (m, NULL, Some ENOSPC))
  else if af =? AF_INET6 then
    m ← ntop_v6 e m a;
    n ← strlen m (buf e);
    if n <? l then '(m, _) ← strcpy m s (buf e); Done (m, s, None)
    else Done (m, NULL, Some ENOSPC)
  else Done (m, NULL, Some EAFNOSUPPORT).
