(* ===== verification/CNetworkSpec.v ===== *)
(** * Correctness of the conversions of internet addresses

    What [inet_ntop] writes for an address and what [inet_pton] makes of it.
    A text of an IPv6 address is its groups with colons between them, or the
    groups before and after a run of zero groups with two colons in its
    place. *)

From stdpp Require Import base numbers list gmap.
From S2P Require Import Prelude CString CStringSpec CStdlib CPrintf CPrintfSpec CFormatSpec CNetwork.

Local Open Scope Z_scope.

(** ** Byte order *)

Lemma wrap_testbit w z i : 0 ≤ w → 0 ≤ i → Z.testbit (wrap w z) i = (i <? w) && Z.testbit z i.
Proof.
  intros Hw Hi. unfold wrap. destruct (Z.ltb_spec i w).
  - by rewrite Z.mod_pow2_bits_low.
  - by rewrite Z.mod_pow2_bits_high by lia.
Qed.

(** The bytes change places. *)
Lemma bswap_32_testbit x i : (∀ j, 32 ≤ j → Z.testbit x j = false) → 0 ≤ i < 32 →
  Z.testbit (bswap_32 x) i = Z.testbit x (8 * (3 - i / 8) + i mod 8).
Proof.
  intros Hhigh Hi.
  unfold bswap_32. rewrite !Z.lor_spec, !Z.land_spec, !wrap_testbit, !Z.shiftr_spec, !Z.shiftl_spec by lia.
  enum_range 32%nat i Hi; cbn -[Z.testbit Z.of_nat Z.add Z.sub Z.mul Z.div Z.modulo];
    repeat match goal with
    | |- context [Z.testbit x ?k] =>
        let k' := eval vm_compute in k in
        lazymatch k with k' => fail | _ => change k with k' end
    end;
    repeat match goal with
    | |- context [Z.testbit x ?k] =>
        first [rewrite (Hhigh k) by lia|rewrite (Z.testbit_neg_r x k) by lia]
    end; cbn -[Z.testbit]; by rewrite ?andb_true_r, ?andb_false_r, ?orb_false_r.
Qed.

Lemma bswap_32_high x i : (∀ j, 32 ≤ j → Z.testbit x j = false) → 32 ≤ i → Z.testbit (bswap_32 x) i = false.
Proof.
  intros Hhigh Hi. unfold bswap_32.
  rewrite !Z.lor_spec, !Z.land_spec, !wrap_testbit, !Z.shiftr_spec by lia.
  by rewrite !Hhigh, (proj2 (Z.ltb_ge i 32) Hi) by lia.
Qed.

(** [ntohl] undoes [htonl]. *)
Lemma ntohl_htonl x : 0 ≤ x < 2 ^ 32 → ntohl (htonl x) = x.
Proof.
  intros Hx. assert (∀ j, 32 ≤ j → Z.testbit x j = false) as Hhigh.
  { intros j Hj. replace x with (wrap 32 x) by by apply wrap_small.
    rewrite wrap_testbit by lia. by rewrite (proj2 (Z.ltb_ge j 32) Hj). }
  unfold ntohl, htonl. apply Z.bits_inj'. intros i Hi. destruct (Z.lt_ge_cases i 32) as [Hlt|Hge].
  - assert (0 ≤ i < Z.of_nat 32) as Hr by lia. clear Hi Hlt.
    enum_range 32%nat i Hr; (rewrite bswap_32_testbit; [|intros j Hj; by apply bswap_32_high|done]);
      (rewrite bswap_32_testbit; [done|done|by vm_compute]).
  - rewrite Hhigh by done. apply bswap_32_high; [|done]. intros j Hj. by apply bswap_32_high.
Qed.

(** ** Texts *)

(** The digits of a number, and texts with a separator between them. *)
Definition dec (b : Z) : list Z := digit_text false <$> plain_digits 10 b.
Definition hex (g : Z) : list Z := digit_text false <$> plain_digits 16 g.
Fixpoint join (sep : Z) (ts : list (list Z)) : list Z :=
  match ts with
  | [] => []
  | t :: ts => t ++ (match ts with [] => [] | _ => sep :: join sep ts end)
  end.

Definition v4_text (bs : list Z) : list Z := join 46 (dec <$> bs).
Definition v6_text (gs : list Z) : list Z := join 58 (hex <$> gs).

(** The text with [::] between two parts. *)
Definition short_text (pre suf : list Z) : list Z := v6_text pre ++ [58; 58] ++ v6_text suf.

(** The bytes of groups. *)
Definition group_bytes (gs : list Z) : list Z := gs ≫= λ g, [g / 256; g mod 256].

(** ** Digits *)

Lemma digits_short base n v : 2 ≤ base ≤ 16 → (1 ≤ n)%nat → 0 ≤ v < base ^ Z.of_nat n → v < 2 ^ 64 →
  (1 ≤ length (plain_digits base v) ≤ n)%nat.
Proof.
  intros Hb Hn Hv Hv'. destruct (plain_digits_spec base v Hb ltac:(lia)) as (_ & _ & Hne & _).
  split; [destruct (plain_digits base v); [done|simpl; lia]|].
  unfold plain_digits. destruct (v =? 0); [simpl; lia|]. unfold digits_of. rewrite length_reverse.
  apply digits_lsf_length; [lia|done].
Qed.

(** Facts on the 16 digits, by evaluation. *)
Lemma digit_facts d : 0 ≤ d < 16 →
  hexval (digit_text false d) = d ∧ (d < 10 → isdigit (digit_text false d) = true ∧ digit_text false d = 48 + d) ∧
  0 < digit_text false d < 256 ∧ digit_text false d ≠ 58 ∧ digit_text false d ≠ 46 ∧
  (digit_text false d = 48 ↔ d = 0).
Proof.
  intros Hd. assert (d ∈ seqZ 0 16) as Hin by (apply elem_of_seqZ; lia).
  assert (Forall (λ d, hexval (digit_text false d) = d ∧
    (d < 10 → isdigit (digit_text false d) = true ∧ digit_text false d = 48 + d) ∧
    0 < digit_text false d < 256 ∧ digit_text false d ≠ 58 ∧ digit_text false d ≠ 46 ∧
    (digit_text false d = 48 ↔ d = 0)) (seqZ 0 16)) as Hall.
  { change (seqZ 0 16) with [0;1;2;3;4;5;6;7;8;9;10;11;12;13;14;15].
    repeat (apply Forall_cons; split; [split_and!; by vm_compute|]). constructor. }
  rewrite Forall_forall in Hall. by apply Hall.
Qed.

(** The byte after a part of a text. *)
Lemma byte_at_next pre l : byte_at (pre ++ l) (len pre) = default 0 (head l).
Proof. unfold byte_at. rewrite Nat2Z.id, lookup_app_r, Nat.sub_diag by lia. by destruct l. Qed.

Lemma byte_at_here pre c l : byte_at (pre ++ c :: l) (len pre) = c.
Proof. by rewrite byte_at_next. Qed.

Lemma byte_at_after pre t l : byte_at (pre ++ t ++ l) (len pre + len t) = default 0 (head l).
Proof. rewrite app_assoc. replace (len pre + len t) with (len (pre ++ t)) by (rewrite length_app; lia). apply byte_at_next. Qed.

Section digit_loops.
Context (m : cmem) (s : Z).

(** The loops read the digits up to another character. *)
Lemma dec_loop_spec ds n v pre rest :
  str_at m s (pre ++ (digit_text false <$> ds) ++ rest) → Forall (λ d, 0 ≤ d < 10) ds → (length ds ≤ n)%nat →
  isdigit (default 0 (head rest)) = false →
  dec_loop n m s v (len pre) = Done (foldl (λ v d, v * 10 + d) v ds, len pre + len ds).
Proof.
  revert n v pre. induction ds as [|d ds IH]; intros n v pre Hs Hds Hn Hr.
  - destruct n as [|n]; cbn [dec_loop]; [simpl; do 2 f_equal; lia|].
    rewrite (load_str _ _ _ Hs) by (rewrite length_app; lia). cbn [mbind outcome_bind].
    rewrite byte_at_next. cbn [fmap list_fmap app]. rewrite Hr. simpl. do 2 f_equal. lia.
  - destruct n as [|n]; [simpl in Hn; lia|]. cbn [dec_loop]. apply Forall_cons in Hds as [Hd Hds].
    rewrite (load_str _ _ _ Hs) by (rewrite length_app; lia). cbn [mbind outcome_bind].
    cbn [fmap list_fmap app]. rewrite byte_at_here.
    destruct (digit_facts d ltac:(lia)) as (_ & Hdec & _). destruct (Hdec ltac:(lia)) as [-> ->].
    replace (len pre + 1) with (len (pre ++ [48 + d])) by (rewrite length_app; simpl; lia).
    replace (10 * v + (48 + d) - 48) with (v * 10 + d) by lia.
    rewrite IH; [cbn [foldl length]; do 2 f_equal; rewrite length_app; simpl; lia| |done|simpl in Hn; lia|done].
    destruct (Hdec ltac:(lia)) as [_ Hdt]. rewrite <- Hdt, <- app_assoc. exact Hs.
Qed.

Lemma hex_loop_spec ds n v pre rest :
  str_at m s (pre ++ (digit_text false <$> ds) ++ rest) → Forall (λ d, 0 ≤ d < 16) ds → (length ds ≤ n)%nat →
  hexval (default 0 (head rest)) < 0 →
  hex_loop n m s v (len pre) = Done (foldl (λ v d, v * 16 + d) v ds, len pre + len ds).
Proof.
  revert n v pre. induction ds as [|d ds IH]; intros n v pre Hs Hds Hn Hr.
  - destruct n as [|n]; cbn [hex_loop]; [simpl; do 2 f_equal; lia|].
    rewrite (load_str _ _ _ Hs) by (rewrite length_app; lia). cbn [mbind outcome_bind].
    rewrite byte_at_next. cbn [fmap list_fmap app]. rewrite Z.geb_leb, (proj2 (Z.leb_gt _ _)) by lia.
    simpl. do 2 f_equal. lia.
  - destruct n as [|n]; [simpl in Hn; lia|]. cbn [hex_loop]. apply Forall_cons in Hds as [Hd Hds].
    rewrite (load_str _ _ _ Hs) by (rewrite length_app; lia). cbn [mbind outcome_bind].
    cbn [fmap list_fmap app]. rewrite byte_at_here.
    destruct (digit_facts d ltac:(lia)) as (-> & _). rewrite Z.geb_leb, (proj2 (Z.leb_le _ _)) by lia.
    replace (len pre + 1) with (len (pre ++ [digit_text false d])) by (rewrite length_app; simpl; lia).
    replace (16 * v + d) with (v * 16 + d) by lia.
    rewrite IH; [cbn [foldl length]; do 2 f_equal; rewrite length_app; simpl; lia| |done|simpl in Hn; lia|done].
    by rewrite <- app_assoc.
Qed.

End digit_loops.

(** A number read back. *)
Lemma dec_read m s b rest : str_at m s (dec b ++ rest) → 0 ≤ b < 256 →
  isdigit (default 0 (head rest)) = false → dec_loop 3 m s 0 0 = Done (b, len (dec b)).
Proof.
  intros Hs Hb Hr. destruct (plain_digits_spec 10 b ltac:(lia) ltac:(lia)) as (Hnum & Hall & _).
  pose proof (digits_short 10 3 b ltac:(lia) ltac:(lia) ltac:(simpl; lia) ltac:(lia)).
  change (dec_loop 3 m s 0 0) with (dec_loop 3 m s 0 (len (@nil Z))).
  rewrite (dec_loop_spec m s (plain_digits 10 b) 3 0 [] rest) by (done || lia).
  unfold dec. rewrite length_fmap. unfold number in Hnum. by rewrite Hnum.
Qed.

Lemma hex_read m s g rest : str_at m s (hex g ++ rest) → 0 ≤ g < 65536 →
  hexval (default 0 (head rest)) < 0 → hex_loop 4 m s 0 0 = Done (g, len (hex g)).
Proof.
  intros Hs Hg Hr. destruct (plain_digits_spec 16 g ltac:(lia) ltac:(lia)) as (Hnum & Hall & _).
  pose proof (digits_short 16 4 g ltac:(lia) ltac:(lia) ltac:(simpl; lia) ltac:(lia)).
  change (hex_loop 4 m s 0 0) with (hex_loop 4 m s 0 (len (@nil Z))).
  rewrite (hex_loop_spec m s (plain_digits 16 g) 4 0 [] rest) by (done || lia).
  unfold hex. rewrite length_fmap. unfold number in Hnum. by rewrite Hnum.
Qed.

(** ** IPv4 *)

Lemma v4_text_cons b bs :
  v4_text (b :: bs) = dec b ++ match bs with [] => [] | _ => 46 :: v4_text bs end.
Proof. by destruct bs. Qed.

Lemma v6_text_cons g gs :
  v6_text (g :: gs) = hex g ++ match gs with [] => [] | _ => 58 :: v6_text gs end.
Proof. by destruct gs. Qed.

(** A number starts with the digit 0 only if it is 0. *)
Lemma digits_first base v : 2 ≤ base ≤ 16 → 0 ≤ v < 2 ^ 64 →
  ∃ d ds, plain_digits base v = d :: ds ∧ 0 ≤ d < base ∧ (d = 0 → ds = [] ∧ v = 0).
Proof.
  intros Hb Hv. destruct (plain_digits_spec base v Hb Hv) as (Hnum & Hall & Hne & H0).
  destruct (plain_digits base v) as [|d ds]; [done|]. exists d, ds.
  apply Forall_cons in Hall as [Hd _]. split_and!; [done|lia|lia|].
  intros ->. specialize (H0 eq_refl). injection H0 as ->. split; [done|]. by rewrite <- Hnum.
Qed.

Lemma quad_loop_spec bs m s a i :
  bs ≠ [] → i = 4 - len bs → 0 ≤ i → Forall (λ b, 0 ≤ b < 256) bs → str_at m s (v4_text bs) →
  mapped m (a + i) (len bs) → (∀ x, a ≤ x < a + 4 → ¬ s ≤ x ≤ s + len (v4_text bs)) →
  quad_loop (length bs) m s a i = Done (write_bytes m (a + i) bs, true).
Proof.
  revert m s i. induction bs as [|b bs IH]; intros m s i Hne Hi Hi0 Hbs Hs Hm Hap; [done|].
  apply Forall_cons in Hbs as [Hb Hbs]. rewrite v4_text_cons in Hs, Hap.
  set (rest := match bs with [] => [] | _ => 46 :: v4_text bs end) in *.
  cbn [quad_loop length]. rewrite (dec_read m s b rest) by (done || by destruct bs).
  destruct (digits_first 10 b ltac:(lia) ltac:(lia)) as (d & ds & Hd & Hdr & Hd0).
  pose proof (load_str _ _ _ Hs 0 ltac:(lia)) as Hl0. rewrite Z.add_0_r in Hl0.
  assert (dec b = digit_text false d :: (digit_text false <$> ds)) as Hdec by (unfold dec; by rewrite Hd).
  cbn [mbind outcome_bind]. rewrite Hl0. cbn [mbind outcome_bind].
  assert (byte_at (dec b ++ rest) 0 = digit_text false d) as -> by (by rewrite Hdec).
  assert (((len (dec b) =? 0) || (len (dec b) >? 1) && (digit_text false d =? 48) || (b >? 255)) = false) as ->.
  { destruct (digit_facts d ltac:(lia)) as (_ & _ & _ & _ & _ & H48). rewrite Hdec. simpl length. rewrite length_fmap.
    rewrite (proj2 (Z.eqb_neq _ 0)) by lia. rewrite !Z.gtb_ltb, (proj2 (Z.ltb_ge 255 b)) by lia.
    destruct (Z.eqb_spec (digit_text false d) 48) as [E|]; [|by rewrite andb_false_r].
    destruct (Hd0 (proj1 H48 E)) as [-> _]. done. }
  assert (is_Some (m !! (a + i))) as Hmi.
  { pose proof (Hm 0 ltac:(simpl; lia)) as Hm0. by rewrite Z.add_0_r in Hm0. }
  rewrite store_mapped by done. cbn [mbind outcome_bind]. rewrite wrap_small by lia.
  assert (str_at (<[a + i := b]> m) s (dec b ++ rest)) as Hs1.
  { apply str_at_insert; [done|]. apply Hap. simpl in Hi. lia. }
  rewrite (load_str _ _ _ Hs1) by (rewrite length_app; lia). cbn [mbind outcome_bind]. rewrite byte_at_next.
  destruct bs as [|b' bs'].
  { simpl in Hi. subst rest. simpl. by rewrite (proj2 (Z.eqb_eq i 3)) by lia. }
  change (default 0 (head rest)) with 46. cbn [Z.eqb Pos.eqb andb negb].
  rewrite IH; [by rewrite Z.add_assoc, write_bytes_cons|done|simpl in *; lia|lia|done| | |].
  - replace (s + len (dec b) + 1) with (s + (len (dec b ++ [46]))) by (rewrite length_app; simpl; lia).
    pose proof (str_at_drop _ _ _ Hs1 (len (dec b ++ [46]))) as Hd1.
    rewrite Nat2Z.id in Hd1. unfold rest in Hd1.
    replace (dec b ++ 46 :: v4_text (b' :: bs')) with ((dec b ++ [46]) ++ v4_text (b' :: bs')) in Hd1 by by rewrite <- app_assoc.
    rewrite drop_app_length in Hd1. apply Hd1. rewrite !length_app. simpl length. lia.
  - rewrite Z.add_assoc. apply mapped_insert. apply (mapped_block m (a + i) (len (b :: b' :: bs'))); [done|lia|simpl; lia].
  - intros x Hx Hin. apply (Hap x Hx). unfold rest. rewrite length_app. simpl length in *. lia.
Qed.

(** ** Reading IPv6 addresses *)

(** Groups with a colon after each. *)
Definition colon_text (gs : list Z) : list Z := gs ≫= λ g, hex g ++ [58].

Lemma v6_text_snoc gs g : v6_text (gs ++ [g]) = colon_text gs ++ hex g.
Proof.
  induction gs as [|x gs IH]; [unfold v6_text; simpl; by rewrite app_nil_r|].
  cbn [app]. rewrite v6_text_cons. destruct (gs ++ [g]) as [|y l] eqn:E; [by destruct gs|]. rewrite IH.
  unfold colon_text. cbn [mbind list_bind]. by rewrite <- !app_assoc.
Qed.

Lemma colon_text_v6 gs : gs ≠ [] → colon_text gs = v6_text gs ++ [58].
Proof.
  intros Hne. destruct gs as [|g gs _] using rev_ind; [done|].
  rewrite v6_text_snoc. unfold colon_text. rewrite bind_app, <- app_assoc. simpl. by rewrite app_nil_r.
Qed.

(** The groups written from index [i] on. *)
Fixpoint put (i : Z) (gs ip : list Z) : list Z :=
  match gs with
  | [] => ip
  | g :: gs => put (i + 1) gs (ip_set i g ip)
  end.

Lemma put_snoc gs g i ip : put i (gs ++ [g]) ip = ip_set (i + len gs) g (put i gs ip).
Proof.
  revert i ip. induction gs as [|x gs IH]; intros i ip; simpl; [by rewrite Z.add_0_r|].
  rewrite IH. f_equal. lia.
Qed.

Lemma hex_first g rest : 0 ≤ g < 65536 →
  ∃ d l, hex g ++ rest = d :: l ∧ d ≠ 58 ∧ 0 < d < 256 ∧ (d = 48 ↔ g = 0).
Proof.
  intros Hg. destruct (digits_first 16 g ltac:(lia) ltac:(lia)) as (d & ds & Hd & Hdr & Hd0).
  destruct (digit_facts d ltac:(lia)) as (_ & _ & Hr & H58 & _ & H48).
  exists (digit_text false d), ((digit_text false <$> ds) ++ rest).
  split; [unfold hex; by rewrite Hd|]. split; [done|]. split; [done|].
  rewrite H48. split; [intros ->; by destruct Hd0|]. intros ->. by injection Hd.
Qed.

Section groups.
Context (m : cmem).

(** One round at a group: what its first character and its digits are. *)
Lemma group_load s g rest : str_at m s (hex g ++ rest) → 0 ≤ g < 65536 →
  ∃ d, load m s = Done d ∧ d ≠ 58.
Proof.
  intros Hs Hg. destruct (hex_first g rest Hg) as (d & l & E & Hd & _). rewrite E in Hs.
  exists d. split; [|done]. by apply str_at_cons in Hs as [-> _].
Qed.

Lemma hex_nonempty g : 0 ≤ g < 65536 → (len (hex g) =? 0) = false.
Proof.
  intros Hg. destruct (hex_first g [] Hg) as (d & l & E & _). rewrite app_nil_r in E. rewrite E. done.
Qed.

Lemma groups_step fuel s i brk ip g rest :
  str_at m s (hex g ++ 58 :: rest) → 0 ≤ g < 65536 → i < 7 →
  groups_loop (S fuel) m s i brk ip
  = groups_loop fuel m (s + len (hex g) + 1) (i + 1) brk (ip_set i g ip).
Proof.
  intros Hs Hg Hi. cbn [groups_loop]. destruct (group_load s g _ Hs Hg) as (d & -> & Hd).
  cbn [mbind outcome_bind]. rewrite (proj2 (Z.eqb_neq d 58) Hd). cbn [andb].
  rewrite (hex_read m s g (58 :: rest)) by done. cbn [mbind outcome_bind]. rewrite hex_nonempty by done.
  rewrite (load_str _ _ _ Hs) by (rewrite length_app; lia). cbn [mbind outcome_bind].
  rewrite byte_at_here. cbn [Z.eqb Pos.eqb andb negb]. by rewrite (proj2 (Z.eqb_neq i 7)) by lia.
Qed.

Lemma groups_last fuel s i brk ip g :
  str_at m s (hex g) → 0 ≤ g < 65536 → 0 ≤ brk ∨ i = 7 →
  groups_loop (S fuel) m s i brk ip = Done (Some (s, i, brk, ip_set i g ip, false)).
Proof.
  intros Hs Hg Hi. rewrite <- (app_nil_r (hex g)) in Hs. cbn [groups_loop].
  destruct (group_load s g _ Hs Hg) as (d & -> & Hd).
  cbn [mbind outcome_bind]. rewrite (proj2 (Z.eqb_neq d 58) Hd). cbn [andb].
  rewrite (hex_read m s g []) by done. cbn [mbind outcome_bind]. rewrite hex_nonempty by done.
  rewrite (load_str _ _ _ Hs) by (rewrite length_app; lia). cbn [mbind outcome_bind].
  rewrite byte_at_next. change (default 0 (head [])) with 0. cbn [Z.eqb andb].
  destruct Hi as [Hi| ->]; [by rewrite Z.geb_leb, (proj2 (Z.leb_le 0 brk) Hi)|].
  by rewrite orb_true_r.
Qed.

(** A group that turns out to be the start of an IPv4 address. *)
Lemma groups_v4 fuel s i brk ip b rest :
  str_at m s (dec b ++ 46 :: rest) → 0 ≤ b < 256 → i < 7 → 0 ≤ brk ∨ 6 ≤ i →
  ∃ v, groups_loop (S fuel) m s i brk ip = Done (Some (s, i + 1, brk, ip_set i v ip, true)).
Proof.
  intros Hs Hb Hi Hor. cbn [groups_loop].
  destruct (plain_digits_spec 10 b ltac:(lia) ltac:(lia)) as (_ & Hall & _).
  pose proof (digits_short 10 3 b ltac:(lia) ltac:(lia) ltac:(simpl; lia) ltac:(lia)).
  destruct (digits_first 10 b ltac:(lia) ltac:(lia)) as (d & ds & Hd & Hdr & _).
  destruct (digit_facts d ltac:(lia)) as (_ & _ & _ & H58 & _ & _).
  assert (load m s = Done (digit_text false d)) as ->.
  { unfold dec in Hs. rewrite Hd in Hs. by apply str_at_cons in Hs as [-> _]. }
  cbn [mbind outcome_bind]. rewrite (proj2 (Z.eqb_neq _ 58) H58). cbn [andb].
  change (hex_loop 4 m s 0 0) with (hex_loop 4 m s 0 (len (@nil Z))).
  rewrite (hex_loop_spec m s (plain_digits 10 b) 4 0 [] (46 :: rest)); [|done| |lia|done].
  2: { eapply Forall_impl; [exact Hall|]. simpl. lia. }
  cbn [mbind outcome_bind]. rewrite (proj2 (Z.eqb_neq _ 0)) by (simpl; lia).
  replace (len [] + len (plain_digits 10 b)) with (len (dec b)) by (unfold dec; rewrite length_fmap; simpl; lia).
  rewrite (load_str _ _ _ Hs) by (rewrite length_app; lia). cbn [mbind outcome_bind].
  rewrite byte_at_here. cbn [Z.eqb Pos.eqb andb negb orb]. rewrite (proj2 (Z.eqb_neq i 7)) by lia.
  eexists. destruct Hor as [Hor|Hor].
  - by rewrite (proj2 (Z.ltb_ge brk 0) Hor), andb_false_r.
  - by rewrite (proj2 (Z.ltb_ge i 6) Hor).
Qed.

Lemma groups_colon fuel s i ip rest :
  str_at m s (58 :: rest) → rest = [] ∨ i < 7 →
  groups_loop (S fuel) m s i (-1) ip
  = match rest with
    | [] => Done (Some (s + 1, i, i, ip_set i 0 ip, false))
    | _ => groups_loop fuel m (s + 1) (i + 1) i (ip_set i 0 ip)
    end.
Proof.
  intros Hs Hi. cbn [groups_loop]. str_step Hs. cbn [Z.eqb Pos.eqb Z.ltb Z.compare andb].
  destruct rest as [|c rest]; str_step Hs; [done|].
  rewrite (proj2 (Z.eqb_neq c 0)) by lia. destruct Hi as [Hi|Hi]; [done|].
  by rewrite (proj2 (Z.eqb_neq i 7)) by lia.
Qed.

Lemma groups_run fuel gs s i brk ip rest :
  str_at m s (colon_text gs ++ rest) → Forall (λ g, 0 ≤ g < 65536) gs → i + len gs ≤ 7 →
  groups_loop (length gs + fuel) m s i brk ip
  = groups_loop fuel m (s + len (colon_text gs)) (i + len gs) brk (put i gs ip).
Proof.
  revert s i ip. induction gs as [|g gs IH]; intros s i ip Hs Hgs Hi.
  { simpl. by rewrite !Z.add_0_r. }
  apply Forall_cons in Hgs as [Hg Hgs]. unfold colon_text in Hs. cbn [mbind list_bind] in Hs.
  rewrite <- !app_assoc in Hs. cbn [app] in Hs. cbn [length Nat.add]. simpl length in Hi.
  rewrite (groups_step _ _ _ _ _ _ _ Hs Hg) by lia. rewrite IH; [|..|done|lia].
  - cbn [put]. unfold colon_text. cbn [mbind list_bind]. rewrite !length_app. simpl length. f_equal; lia.
  - apply str_at_app in Hs. by apply str_at_cons in Hs as (_ & _ & Hs).
Qed.

End groups.

Definition is_groups (gs : list Z) : Prop := Forall (λ g, 0 ≤ g < 65536) gs.

Lemma store_groups_spec ip m a : is_groups ip → mapped m a (2 * len ip) →
  store_groups m a ip = Done (write_bytes m a (group_bytes ip)).
Proof.
  intros Hip. revert m a. induction Hip as [|g ip Hg _ IH]; intros m a Hm; [done|].
  cbn [store_groups]. simpl length in Hm.
  rewrite store_mapped by (rewrite <- (Z.add_0_r a); apply Hm; lia). cbn [mbind outcome_bind].
  rewrite store_mapped.
  2: { apply (mapped_insert m a (2 * Z.of_nat (S (length ip)))); [done|lia]. }
  cbn [mbind outcome_bind]. rewrite IH.
  - unfold group_bytes. cbn [mbind list_bind app]. rewrite <- !write_bytes_cons.
    replace (a + 1 + 1) with (a + 2) by lia.
    assert (wrap 8 (Z.shiftr g 8) = g / 256) as ->.
    { rewrite Z.shiftr_div_pow2 by lia. change (2 ^ 8) with 256. apply Z.mod_small.
      split; [apply Z.div_pos; lia|apply Z.div_lt_upper_bound; lia]. }
    done.
  - apply mapped_insert, mapped_insert. apply (mapped_block m a (2 * Z.of_nat (S (length ip)))); [done|lia|lia].
Qed.

(** What the code makes of the groups after [::], which it overwrites before
    it moves them: all but the last of them are lost when the run is long. *)
Definition zeros_between (pre suf : list Z) : nat := 8 - length pre - length suf.
Definition overwritten (pre suf : list Z) : list Z :=
  let k := (zeros_between pre suf - 2)%nat in
  replicate (k `min` length suf) 0 ++ drop k suf.

(** The address a text with [::] stands for, and what is read. *)
Definition short_groups (pre suf : list Z) : list Z := pre ++ replicate (zeros_between pre suf) 0 ++ suf.
Definition read_groups (pre suf : list Z) : list Z :=
  pre ++ replicate (zeros_between pre suf) 0 ++ overwritten pre suf.

Ltac list_cases l n :=
  lazymatch n with
  | O => destruct l; [|simpl in *; lia]
  | S ?n => destruct l as [|? l]; [|list_cases l n]
  end.

(** The array after the loop and [expand_groups], for every number of groups
    before and after [::]. *)
Lemma put_all gs ip : length gs = 8%nat → length ip = 8%nat → put 0 gs ip = gs.
Proof.
  intros Hg Hi. list_cases gs 8%nat; try (simpl in Hg; lia). list_cases ip 8%nat; try (simpl in Hi; lia). done.
Qed.

Lemma expand_short pre suf ip : (length pre + length suf ≤ 7)%nat → length ip = 8%nat →
  expand_groups (len pre + len suf) (len pre)
    (put (len pre + 1) suf (ip_set (len pre) 0 (put 0 pre ip)))
  = Done (read_groups pre suf).
Proof.
  intros Hl Hi. do 8 (destruct ip as [|? ip]; [simpl in Hi; lia|]). destruct ip; [|simpl in Hi; lia].
  do 8 (destruct pre as [|? pre]; [do 8 (destruct suf as [|? suf]; [first [simpl in Hl; lia|by vm_compute]|]); simpl in Hl; lia|]).
  simpl in Hl. lia.
Qed.

Lemma read_groups_ok pre suf : is_groups pre → is_groups suf → is_groups (read_groups pre suf).
Proof.
  intros Hp Hs. unfold read_groups, overwritten. repeat apply Forall_app_2; [done| | |by apply Forall_drop];
    apply Forall_replicate; lia.
Qed.

Lemma length_read_groups pre suf : (length pre + length suf ≤ 7)%nat → length (read_groups pre suf) = 8%nat.
Proof.
  intros Hl. unfold read_groups, overwritten, zeros_between.
  rewrite !length_app, !length_replicate, length_drop. lia.
Qed.

Section pton.
Context (ip : list Z) (m : cmem) (s a : Z) (Hip : length ip = 8%nat).

(** All eight groups. *)
Lemma pton_full gs : length gs = 8%nat → is_groups gs → str_at m s (v6_text gs) → mapped m a 16 →
  inet_pton ip m AF_INET6 s a = Done (write_bytes m a (group_bytes gs), 1, None).
Proof using Hip.
  intros Hlen Hgs Hs Hm. destruct gs as [|g gs _] using rev_ind; [done|].
  rewrite length_app in Hlen. simpl in Hlen. apply Forall_app in Hgs as [Hgs [Hg _]%Forall_cons].
  unfold inet_pton. cbn [Z.eqb Pos.eqb AF_INET AF_INET6 negb]. 
  assert (∃ d, load m s = Done d ∧ d ≠ 58) as (d & -> & Hd).
  { rewrite v6_text_snoc in Hs. destruct gs as [|g0 gs]; [simpl in Hlen; lia|]. unfold colon_text in Hs.
    cbn [mbind list_bind] in Hs. rewrite <- !app_assoc in Hs. apply Forall_cons in Hgs as [Hg0 _].
    by eapply group_load. }
  cbn [mbind outcome_bind]. rewrite (proj2 (Z.eqb_neq d 58) Hd). cbn [mbind outcome_bind].
  rewrite v6_text_snoc in Hs. change 8%nat with (7 + 1)%nat. replace 7%nat with (length gs) by lia.
  rewrite (groups_run m 1 gs s 0 (-1) ip (hex g) Hs Hgs) by lia. apply str_at_app in Hs.
  rewrite (groups_last m _ _ _ _ _ g) by (done || right; lia). cbn [mbind outcome_bind].
  unfold expand_groups. cbn [Z.geb Z.compare mbind outcome_bind].
  assert (ip_set (0 + len gs) g (put 0 gs ip) = gs ++ [g]) as ->.
  { rewrite <- put_snoc. apply put_all; [rewrite length_app; simpl; lia|done]. }
  rewrite store_groups_spec; [done|by apply Forall_app_2; [|constructor]|rewrite length_app; simpl].
  by replace (2 * Z.of_nat (length gs + 1)) with 16 by lia.
Qed.

(** The loop on a text with [::], from behind a colon at the start. *)
Lemma groups_short pre suf s0 : (length pre + length suf ≤ 7)%nat → is_groups pre → is_groups suf →
  str_at m s0 (colon_text pre ++ 58 :: v6_text suf) →
  ∃ s', groups_loop 8 m s0 0 (-1) ip
    = Done (Some (s', len pre + len suf, len pre,
                  put (len pre + 1) suf (ip_set (len pre) 0 (put 0 pre ip)), false)).
Proof using Hip.
  intros Hl Hp Hsu Hs. replace 8%nat with (length pre + S (7 - length pre))%nat by lia.
  rewrite (groups_run m _ pre s0 0 (-1) ip _ Hs Hp) by lia. apply str_at_app in Hs. rewrite Z.add_0_l.
  destruct suf as [|g suf _] using rev_ind.
  { rewrite (groups_colon m _ _ _ _ _ Hs) by by left. unfold v6_text. simpl. eexists. by rewrite Z.add_0_r. }
  rewrite length_app in Hl. simpl in Hl.
  rewrite (groups_colon m _ _ _ _ _ Hs) by (right; lia). rewrite v6_text_snoc in *.
  apply Forall_app in Hsu as [Hsu [Hg _]%Forall_cons]. destruct (hex_first g [] Hg) as (d & l & E & _).
  rewrite app_nil_r in E. destruct (colon_text suf ++ hex g) as [|c r] eqn:Et.
  { rewrite E in Et. by destruct (colon_text suf). }
  rewrite <- Et in Hs. clear E Et. apply str_at_cons in Hs as (_ & _ & Hs).
  replace (7 - length pre)%nat with (length suf + S (6 - length pre - length suf))%nat by lia.
  rewrite (groups_run m _ suf _ _ _ _ _ Hs Hsu) by lia. apply str_at_app in Hs.
  rewrite (groups_last m _ _ _ _ _ g) by (done || left; lia). eexists. rewrite length_app. simpl length.
  rewrite put_snoc. by replace (len pre + 1 + len suf) with (len pre + Z.of_nat (length suf + 1)) by lia.
Qed.

Lemma pton_short pre suf : (length pre + length suf ≤ 7)%nat → is_groups pre → is_groups suf →
  str_at m s (short_text pre suf) → mapped m a 16 →
  inet_pton ip m AF_INET6 s a = Done (write_bytes m a (group_bytes (read_groups pre suf)), 1, None).
Proof using Hip.
  intros Hl Hp Hsu Hs Hm. unfold inet_pton. cbn [Z.eqb Pos.eqb AF_INET AF_INET6 negb].
  assert (∃ s0, (c ← load m s; start ← (if c =? 58 then c ← load m (s + 1); Done (if negb (c =? 58) then None else Some (s + 1))
             else Done (Some s)); Done start) = Done (Some s0) ∧ str_at m s0 (colon_text pre ++ 58 :: v6_text suf)) as (s0 & Hst & Hs0).
  { unfold short_text in Hs. destruct (decide (pre = [])) as [->|Hne].
    - exists (s + 1). cbn [v6_text join fmap list_fmap app] in Hs. str_step Hs. cbn [Z.eqb Pos.eqb].
      pose proof (str_at_cons _ _ _ _ Hs) as [-> _]. by split.
    - exists s. rewrite colon_text_v6 by done. rewrite <- app_assoc. split; [|done].
      destruct pre as [|g pre]; [done|]. rewrite v6_text_cons, <- app_assoc in Hs. apply Forall_cons in Hp as [Hg _].
      destruct (group_load m s g _ Hs Hg) as (d & -> & Hd). cbn [mbind outcome_bind].
      by rewrite (proj2 (Z.eqb_neq d 58) Hd). }
  destruct (groups_short pre suf s0 Hl Hp Hsu Hs0) as (s' & Hloop).
  destruct (load m s) as [c|]; [|done]. cbn [mbind outcome_bind] in *.
  destruct (if c =? 58 then _ else _) as [o|]; [|done]. cbn [mbind outcome_bind] in *. injection Hst as ->.
  rewrite Hloop. cbn [mbind outcome_bind]. rewrite expand_short by done. cbn [mbind outcome_bind].
  rewrite store_groups_spec; [done|by apply read_groups_ok|]. by rewrite length_read_groups.
Qed.

End pton.

Lemma str_at_write m s l a bs : str_at m s l → (∀ x, a ≤ x < a + len bs → ¬ s ≤ x ≤ s + len l) →
  str_at (write_bytes m a bs) s l.
Proof.
  intros [Hp Hb Hl] Hap. split; [done|done|]. intros i Hi. rewrite write_bytes_lookup.
  rewrite decide_False; [by apply Hl|]. intros Hin. apply (Hap (s + i)); lia.
Qed.

Lemma mapped_le m s n k : mapped m s n → k ≤ n → mapped m s k.
Proof. intros Hm Hk i Hi. apply Hm. lia. Qed.

Lemma mapped_write m s n a bs : mapped m s n → mapped (write_bytes m a bs) s n.
Proof.
  intros Hm i Hi. rewrite write_bytes_lookup. case_decide; [|by apply Hm]. apply lookup_lt_is_Some_2. lia.
Qed.

(** Writing the end of a block again. *)
Lemma write_bytes_over m a l0 l1 l2 : length l1 = length l2 →
  write_bytes (write_bytes m a (l0 ++ l1)) (a + len l0) l2 = write_bytes m a (l0 ++ l2).
Proof.
  intros Hl. apply map_eq. intros x. rewrite !write_bytes_lookup, !length_app, <- Hl.
  repeat case_decide; try lia; [|by rewrite !lookup_app_l by lia|done].
  rewrite lookup_app_r by lia. f_equal. lia.
Qed.

Definition mapped_text (bs : list Z) : list Z := [58; 58] ++ hex 65535 ++ 58 :: v4_text bs.

Lemma pton_mapped ip m s a bs : length ip = 8%nat → length bs = 4%nat → Forall (λ b, 0 ≤ b < 256) bs →
  str_at m s (mapped_text bs) → mapped m a 16 →
  (∀ x, a ≤ x < a + 16 → ¬ s ≤ x ≤ s + len (mapped_text bs)) →
  inet_pton ip m AF_INET6 s a = Done (write_bytes m a (replicate 12 0 ++ bs), 1, None).
Proof.
  intros Hip Hlen Hbs Hs Hm Hap. unfold inet_pton. cbn [Z.eqb Pos.eqb AF_INET AF_INET6 negb].
  unfold mapped_text in Hs. cbn [app] in Hs.
  str_step Hs. cbn [Z.eqb Pos.eqb]. pose proof Hs as Hs1. str_step Hs. cbn [Z.eqb Pos.eqb negb mbind outcome_bind].
  rewrite (groups_colon m _ _ _ _ _ Hs1) by (right; lia).
  destruct (hex 65535 ++ 58 :: v4_text bs) as [|c r] eqn:E; [done|]. rewrite <- E in Hs. clear c r E Hs1.
  rewrite (groups_step m _ _ _ _ _ _ _ Hs) by lia. apply str_at_app in Hs.
  apply str_at_cons in Hs as (_ & _ & Hs).
  destruct bs as [|b bs]; [done|]. destruct bs as [|b1 bs]; [done|]. pose proof Hs as Hq.
  rewrite v4_text_cons in Hq. apply Forall_cons in Hbs as Hb. destruct Hb as [Hb _].
  destruct (groups_v4 m 5 _ (0 + 1 + 1) 0 (ip_set (0 + 1) 65535 (ip_set 0 0 ip)) _ _ Hq Hb) as (v & ->); [lia|by left|].
  cbn [mbind outcome_bind].
  assert (expand_groups (0 + 1 + 1 + 1) 0 (ip_set (0 + 1 + 1) v (ip_set (0 + 1) 65535 (ip_set 0 0 ip)))
    = Done (replicate 8 0)) as ->.
  { do 8 (destruct ip as [|? ip]; [simpl in Hip; lia|]). destruct ip; [|simpl in Hip; lia]. by vm_compute. }
  cbn [mbind outcome_bind]. rewrite store_groups_spec; [|by apply Forall_replicate; lia|done].
  change (group_bytes (replicate 8 0)) with (replicate 12 0 ++ replicate 4 0). cbn [mbind outcome_bind].
  set (bs' := b :: b1 :: bs) in *. replace (a + 16 - 4) with (a + 12) by lia.
  assert (len (mapped_text bs') = 7 + len (v4_text bs')) as Hlt
    by (unfold mapped_text; rewrite !length_app; change (length (hex 65535)) with 4%nat; simpl length; lia).
  pose proof (quad_loop_spec bs') as Hquad. rewrite Hlen in Hquad. rewrite Hquad; clear Hquad; [|done|lia|lia|done| | |].
  - cbn [mbind outcome_bind]. unfold ret_bool. cbn [fst snd]. rewrite Z.add_0_r.
    change (a + 12) with (a + len (replicate 12 0)). by rewrite write_bytes_over.
  - apply str_at_write; [done|]. intros x Hx. change (length (hex 65535)) with 4%nat.
    rewrite length_app, !length_replicate in Hx. specialize (Hap x). lia.
  - apply mapped_write. rewrite Z.add_0_r. apply (mapped_block m a 16); [done|lia|lia].
  - intros x Hx. change (length (hex 65535)) with 4%nat. specialize (Hap x). lia.
Qed.

(** ** Formats *)

Lemma text_d fuel v rest vals cs : 0 ≤ v < 2 ^ 31 → format_text fuel rest vals = Some cs →
  format_text (S fuel) (37 :: 100 :: rest) (SInt v :: vals) = Some (dec v ++ cs).
Proof.
  intros Hv Hcs. cbn [format_text Z.eqb Pos.eqb].
  assert (read_spec (100 :: rest) (SInt v :: vals) = Some (c_none, 100 :: rest, SInt v :: vals)) as -> by done.
  cbn [mbind option_bind]. unfold convert. cbn [Z.eqb Pos.eqb orb head mbind option_bind].
  change (int_value true (c_size c_none) (SInt v)) with (Some (sext 32 v)). cbn [mbind option_bind].
  assert (sext 32 v = v) as ->.
  { unfold sext. rewrite wrap_small by lia. change (2 ^ (32 - 1)) with (2 ^ 31).
    by rewrite (proj2 (Z.ltb_lt v (2 ^ 31))) by lia. }
  unfold signed_text. rewrite (proj2 (Z.eqb_neq v (- 2 ^ 63))) by lia.
  change (fitting _ 10 (Z.abs v) (v <? 0)) with (fitting plain 10 (Z.abs v) (v <? 0)).
  rewrite plain_fitting by (auto || lia). rewrite (proj2 (Z.ltb_ge v 0)), Z.abs_eq by lia.
  cbn [mbind option_bind tail]. by rewrite Hcs.
Qed.

Lemma text_x fuel v rest vals cs : 0 ≤ v < 2 ^ 31 → format_text fuel rest vals = Some cs →
  format_text (S fuel) (37 :: 120 :: rest) (SInt v :: vals) = Some (hex v ++ cs).
Proof.
  intros Hv Hcs. cbn [format_text Z.eqb Pos.eqb].
  assert (read_spec (120 :: rest) (SInt v :: vals) = Some (c_none, 120 :: rest, SInt v :: vals)) as -> by done.
  cbn [mbind option_bind]. unfold convert. cbn [Z.eqb Pos.eqb orb head mbind option_bind].
  change (int_value false (c_size c_none) (SInt v)) with (Some (wrap 32 v)). cbn [mbind option_bind].
  rewrite wrap_small by lia. unfold unsigned_text. cbn [Z.eqb Pos.eqb andb].
  change (fitting _ 16 v false) with (fitting plain 16 v false).
  rewrite plain_fitting by (auto || lia). cbn [mbind option_bind tail app]. by rewrite Hcs.
Qed.

Lemma text_char fuel c rest vals cs : (c =? 37) = false → format_text fuel rest vals = Some cs →
  format_text (S fuel) (c :: rest) vals = Some (c :: cs).
Proof. intros Hc Hcs. cbn [format_text]. by rewrite Hc, Hcs. Qed.

(** ** The runs of colons and zeros *)

Definition in_run (c : Z) : bool := bool_decide (c ∈ [58; 48]).
Definition run_at (t : list Z) (p : Z) : Z := Z.of_nat (span in_run (drop (Z.to_nat p) t)).

(** The places the search looks at. *)
Definition candidate (t : list Z) (p : Z) : Prop := 0 ≤ p < len t ∧ (p = 0 ∨ byte_at t p = 58).

(** [best] and [max] after the places before [i]: the first of the longest
    runs among them, if it is longer than 2. *)
Record run_inv (t : list Z) (i best max : Z) : Prop := {
  ri_best : (best = 0 ∧ max = 2) ∨ (2 < max ∧ candidate t best ∧ max = run_at t best);
  ri_max p : candidate t p → p < i → run_at t p ≤ max;
}.

Lemma span_le P l : (span P l ≤ length l)%nat.
Proof. induction l as [|c l IH]; simpl; [lia|]. destruct (P c); lia. Qed.

Lemma run_at_le t p : 0 ≤ p ≤ len t → 0 ≤ run_at t p ≤ len t - p.
Proof. intros Hp. unfold run_at. pose proof (span_le in_run (drop (Z.to_nat p) t)) as H. rewrite length_drop in H. lia. Qed.

Section runs.
Context (e : ntop_env) (m : cmem) (t : list Z).
Context (Ht : str_at m (buf e) t) (Hc : str_at m (colon_zero e) [58; 48]) (Hlen : len t < 2 ^ 31).

Lemma run_loop_spec fuel i best max :
  0 ≤ i ≤ len t → len t - i < Z.of_nat fuel → run_inv t i best max →
  ∃ best' max', run_loop fuel e m i best max = Done (len t, best', max') ∧ run_inv t (len t) best' max'.
Proof using All.
  revert i best max. induction fuel as [|fuel IH]; intros i best max Hi Hf Hinv; [lia|]. cbn [run_loop].
  rewrite (load_str _ _ _ Ht) by done. cbn [mbind outcome_bind]. rewrite (byte_at_zero _ _ _ Ht) by done.
  case_bool_decide as Hend; [subst i; eauto|].
  destruct (negb (i =? 0) && negb (byte_at t i =? 58)) eqn:Hskip; bool_to_prop.
  - apply IH; [lia|lia|]. destruct Hinv as [Hb Hm]. split; [done|]. intros p Hp Hlt.
    apply Hm; [done|]. destruct Hp as [? [?|Hp]]; [lia|]. destruct (decide (p = i)) as [->|]; [done|lia].
  - assert (candidate t i) as Hcand.
    { split; [lia|]. destruct Hskip as [H|H]; apply negb_false_iff in H; bool_to_prop; auto. }
    pose proof (str_at_drop _ _ _ Ht i ltac:(lia)) as Hd. pose proof (run_at_le t i ltac:(lia)) as Hr.
    rewrite (strspn_spec _ _ _ _ _ Hd Hc) by (simpl; lia). cbn [mbind outcome_bind].
    change (Z.of_nat (span _ (drop (Z.to_nat i) t))) with (run_at t i).
    assert (sext 32 (run_at t i) = run_at t i) as ->.
    { unfold sext. rewrite wrap_small by lia. change (2 ^ (32 - 1)) with (2 ^ 31).
      by rewrite (proj2 (Z.ltb_lt _ _)) by lia. }
    rewrite Z.gtb_ltb. destruct (Z.ltb_spec max (run_at t i)) as [Hgt|Hle]; apply IH; try lia.
    + destruct Hinv as [Hb Hm]. split; [right; split_and!; [lia|done..]|].
      intros p Hp Hlt. destruct (decide (p = i)) as [->|]; [lia|]. specialize (Hm p Hp). lia.
    + destruct Hinv as [Hb Hm]. split; [done|]. intros p Hp Hlt.
      destruct (decide (p = i)) as [->|]; [done|]. apply Hm; [done|lia].
Qed.

(** Two colons in place of [mx] bytes at [p]. *)
Definition squeezed (p mx : Z) : list Z := take (Z.to_nat p) t ++ [58; 58] ++ drop (Z.to_nat (p + mx)) t.

(** The memory in which the end of the text has been moved. *)
Definition squeezed_mem (p mx : Z) : cmem :=
  write_bytes (<[buf e + p := 58]> (<[buf e + p + 1 := 58]> m)) (buf e + p + 2)
    (drop (Z.to_nat (p + mx)) t ++ [0]).

Lemma squeezed_str p mx : 0 ≤ p → 2 ≤ mx → p + mx ≤ len t → str_at (squeezed_mem p mx) (buf e) (squeezed p mx).
Proof using Ht.
  intros Hp Hmx Hle. unfold squeezed, squeezed_mem. set (tl := drop _ t).
  split; [apply Ht|repeat apply Forall_app_2; [apply Forall_take, Ht|repeat constructor; lia|apply Forall_drop, Ht]|].
  intros i Hi. rewrite !length_app, length_take in Hi. simpl length in Hi.
  rewrite write_bytes_lookup, length_app. simpl length. unfold byte_at.
  destruct (decide (i < p)) as [Hib|].
  { rewrite decide_False, !lookup_insert_ne, (sa_load _ _ _ Ht) by lia. unfold byte_at.
    by rewrite lookup_app_l, lookup_take_lt by (rewrite ?length_take; lia). }
  rewrite (lookup_app_r (take _ t)), length_take_le by (rewrite ?length_take; lia).
  destruct (decide (i < p + 2)).
  { rewrite decide_False by lia. assert (i = p ∨ i = p + 1) as [-> | ->] by lia.
    - by rewrite lookup_insert_eq, Nat.sub_diag.
    - rewrite lookup_insert_ne, Z.add_assoc, lookup_insert_eq by lia.
      by replace (Z.to_nat (p + 1) - Z.to_nat p)%nat with 1%nat by lia. }
  rewrite decide_True by lia. rewrite (lookup_app_r [58; 58]) by (simpl; lia). simpl length.
  replace (Z.to_nat (buf e + i - (buf e + p + 2))) with (Z.to_nat i - Z.to_nat p - 2)%nat by lia.
  set (j := (Z.to_nat i - Z.to_nat p - 2)%nat). destruct (decide (j = length tl)) as [->|].
  - by rewrite lookup_app_r, Nat.sub_diag, (lookup_ge_None_2 tl) by lia.
  - rewrite lookup_app_l by lia. destruct (lookup_lt_is_Some_2 tl j) as [b ->]; [lia|]. done.
Qed.

(** The end of the text with its zero, behind the bytes replaced. *)
Lemma tail_bytes p mx : 0 ≤ p → 2 ≤ mx → p + mx ≤ len t →
  bytes_at (<[buf e + p := 58]> (<[buf e + p + 1 := 58]> m)) (buf e + p + mx)
    (drop (Z.to_nat (p + mx)) t ++ [0]).
Proof using Ht.
  intros Hp Hmx Hle i b Hb. set (tl := drop _ t) in *.
  assert (len tl = len t - p - mx) by (unfold tl; rewrite length_drop; lia).
  assert (i < length tl + 1)%nat by (apply lookup_lt_Some in Hb; rewrite length_app in Hb; simpl in Hb; lia).
  rewrite !lookup_insert_ne by lia.
  replace (buf e + p + mx + Z.of_nat i) with (buf e + (p + mx + Z.of_nat i)) by lia.
  rewrite (sa_load _ _ _ Ht) by lia. pose proof (byte_at_range _ _ _ Ht (p + mx + Z.of_nat i) ltac:(lia)).
  assert (byte_at t (p + mx + Z.of_nat i) = b) as <-; [|by split].
  unfold byte_at. destruct (decide (i = length tl)) as [->|].
  - rewrite lookup_app_r, Nat.sub_diag in Hb by lia. injection Hb as <-. by rewrite lookup_ge_None_2 by lia.
  - rewrite lookup_app_l in Hb by lia. unfold tl in Hb. rewrite lookup_drop in Hb.
    replace (Z.to_nat _) with (Z.to_nat (p + mx) + i)%nat by lia. by rewrite Hb.
Qed.

(** What [compress] does with the text: nothing is changed outside of it. *)
Lemma compress_spec : mapped m (buf e) (len t + 1) → buf e + len t < 2 ^ 64 →
  ∃ best max m', run_inv t (len t) best max ∧ compress e m = Done m' ∧
    str_at m' (buf e) (if max >? 3 then squeezed best max else t) ∧
    (∀ x, ¬ buf e ≤ x ≤ buf e + len t → m' !! x = m !! x) ∧ (∀ x n, mapped m x n → mapped m' x n).
Proof using All.
  intros Hmap Hend. pose proof (sa_pos _ _ _ Ht) as Hpos. pose proof (str_fuel _ _ _ Ht) as Hf.
  destruct (run_loop_spec (mem_fuel m) 0 0 2) as (best & max & Hrun & Hinv);
    [lia|unfold mem_fuel; lia|split; [by left|intros p [? _]; lia]|].
  unfold compress. rewrite Hrun. cbn [mbind outcome_bind]. exists best, max.
  rewrite Z.gtb_ltb. destruct (Z.ltb_spec 3 max) as [Hgt|]; [|exists m; split_and!; auto].
  destruct (ri_best _ _ _ _ Hinv) as [[]|(_ & [Hbr _] & Hmax)]; [lia|].
  pose proof (run_at_le t best ltac:(lia)) as Hle. exists (squeezed_mem best max).
  pose proof (tail_bytes best max ltac:(lia) ltac:(lia) ltac:(lia)) as Htl.
  rewrite store_mapped by (rewrite <- Z.add_assoc; apply Hmap; lia). cbn [mbind outcome_bind].
  rewrite store_mapped by (apply (mapped_insert _ _ _ _ _ Hmap); lia). cbn [mbind outcome_bind].
  change (wrap 8 58) with 58. unfold squeezed_mem. set (tl := drop _ t) in *.
  assert (len (tl ++ [0]) = len t - best - max + 1) as Hltl by (unfold tl; rewrite length_app, length_drop; simpl; lia).
  rewrite <- Hltl. split_and!; [done| |by apply squeezed_str; lia| |].
  - apply memmove_moves; [done| |lia..]. apply mapped_insert, mapped_insert.
    rewrite <- Z.add_assoc. apply (mapped_block m (buf e) (len t + 1)); [done|lia|lia].
  - intros x Hx. by rewrite write_bytes_lookup, decide_False, !lookup_insert_ne by lia.
  - intros x n Hm. by apply mapped_write, mapped_insert, mapped_insert.
Qed.
End runs.

(** ** Runs of zero groups *)

Lemma hex_no_colon g i : 0 ≤ g < 65536 → hex g !! i ≠ Some 58.
Proof.
  intros Hg Hi. unfold hex in Hi. apply list_lookup_fmap_Some in Hi as (d & H58 & Hd).
  destruct (plain_digits_spec 16 g ltac:(lia) ltac:(lia)) as (_ & Hall & _).
  apply (Forall_lookup_1 _ _ _ _ Hall) in Hd. destruct (digit_facts d Hd) as (_ & _ & _ & ? & _). congruence.
Qed.

(** A colon in the text of groups stands before one of them. *)
Lemma colon_split gs p : is_groups gs → v6_text gs !! p = Some 58 →
  ∃ k, (0 < k < length gs)%nat ∧ take p (v6_text gs) = v6_text (take k gs) ∧
    drop p (v6_text gs) = 58 :: v6_text (drop k gs).
Proof.
  intros Hgs. revert p. induction Hgs as [|g gs Hg Hgs IH]; intros p Hp; [done|].
  rewrite v6_text_cons in *. destruct (decide (p < length (hex g))%nat) as [Hlt|Hge].
  { rewrite lookup_app_l in Hp by done. by apply hex_no_colon in Hp. }
  rewrite lookup_app_r in Hp by lia. rewrite take_app_ge, drop_app_ge by lia.
  destruct gs as [|g' gs']; [done|]. set (gs := g' :: gs') in *.
  destruct (p - length (hex g))%nat as [|q] eqn:Eq.
  { exists 1%nat. unfold gs. cbn [take drop]. split; [simpl; lia|]. by rewrite v6_text_cons. }
  cbn [lookup list_lookup] in Hp. destruct (IH q Hp) as (k & Hk & Ht & Hd). exists (S k).
  cbn [take drop length]. rewrite Ht, Hd. split; [lia|]. split; [|done].
  rewrite v6_text_cons. destruct (take k gs) eqn:E; [|done].
  apply (f_equal length) in E. rewrite length_take in E. simpl in E. unfold gs in *. simpl in *. lia.
Qed.

Lemma run_stop c l : c ≠ 58 → c ≠ 48 → span in_run (c :: l) = 0%nat.
Proof. intros H1 H2. simpl. unfold in_run. rewrite bool_decide_false; [done|]. set_solver. Qed.

Lemma hex_zero : hex 0 = [48].
Proof. done. Qed.

(** The run at a colon takes in the zero groups after it. *)
Lemma run_colon gs : is_groups gs → ∃ z, (z ≤ length gs)%nat ∧ take z gs = replicate z 0 ∧
  let r := span in_run (58 :: v6_text gs) in
  drop r (58 :: v6_text gs) = v6_text (drop z gs) ∧ (r ≤ 2 * z + 1)%nat.
Proof.
  intros Hgs. induction Hgs as [|g gs Hg Hgs IH].
  { exists 0%nat. by vm_compute; split_and!; [lia|..|lia]. }
  rewrite v6_text_cons. destruct (decide (g = 0)) as [->|Hne].
  - rewrite hex_zero. destruct gs as [|g' gs'].
    { exists 1%nat. by vm_compute; split_and!; [lia|..|lia]. }
    destruct IH as (z & Hz & Htz & Hd & Hr). exists (S z). set (gs := g' :: gs') in *.
    change (span in_run (58 :: [48] ++ 58 :: v6_text gs)) with (S (S (span in_run (58 :: v6_text gs)))).
    cbn [take drop length replicate app]. rewrite Htz. split_and!; [lia|done|done|lia].
  - destruct (hex_first g (match gs with [] => [] | _ => 58 :: v6_text gs end) Hg) as (d & l & E & Hd & _ & H48).
    rewrite E. exists 0%nat. cbn zeta. change (span in_run (58 :: d :: l)) with (S (span in_run (d :: l))).
    rewrite run_stop by (done || tauto). cbn [drop take replicate]. rewrite <- E, <- v6_text_cons.
    split_and!; [lia|done|done|lia].
Qed.

Lemma run_start gs : is_groups gs → ∃ z, (z ≤ length gs)%nat ∧ take z gs = replicate z 0 ∧
  let r := span in_run (v6_text gs) in
  drop r (v6_text gs) = v6_text (drop z gs) ∧ (r ≤ 2 * z)%nat.
Proof.
  intros Hgs. destruct Hgs as [|g gs Hg Hgs].
  { exists 0%nat. by vm_compute; split_and!; [lia|..|lia]. }
  rewrite v6_text_cons. destruct (decide (g = 0)) as [->|Hne].
  - rewrite hex_zero. destruct gs as [|g' gs'].
    { exists 1%nat. by vm_compute; split_and!; [lia|..|lia]. }
    set (gs := g' :: gs') in *. destruct (run_colon gs Hgs) as (z & Hz & Htz & Hd & Hr). exists (S z).
    change (span in_run ([48] ++ 58 :: v6_text gs)) with (S (span in_run (58 :: v6_text gs))).
    cbn [take drop length replicate app]. rewrite Htz. split_and!; [lia|done|done|lia].
  - destruct (hex_first g (match gs with [] => [] | _ => 58 :: v6_text gs end) Hg) as (d & l & E & Hd & _ & H48).
    rewrite E. exists 0%nat. cbn zeta. rewrite run_stop by (done || tauto). cbn [drop take replicate].
    rewrite <- E, <- v6_text_cons. split_and!; [lia|done|done|lia].
Qed.

(** Replacing a run longer than 3 gives the short text of the same groups. *)
Lemma squeezed_groups gs p : is_groups gs → length gs = 8%nat →
  candidate (v6_text gs) p → 3 < run_at (v6_text gs) p →
  ∃ pre suf, gs = short_groups pre suf ∧ (length pre + length suf ≤ 6)%nat ∧ is_groups pre ∧ is_groups suf ∧
    squeezed (v6_text gs) p (run_at (v6_text gs) p) = short_text pre suf.
Proof.
  intros Hgs Hlen [Hp Hc] Hrun.
  assert (∃ k z, (k + z ≤ 8)%nat ∧ (2 ≤ z)%nat ∧ take z (drop k gs) = replicate z 0 ∧
    take (Z.to_nat p) (v6_text gs) = v6_text (take k gs) ∧
    drop (Z.to_nat (p + run_at (v6_text gs) p)) (v6_text gs) = v6_text (drop z (drop k gs))) as (k & z & Hkz & Hz & Ht & Hpre & Hsuf).
  { unfold run_at in *. rewrite Z2Nat.inj_add, Nat2Z.id, <- drop_drop by lia. destruct Hc as [->|Hc].
    - destruct (run_start gs Hgs) as (z & ? & ? & ? & ?). exists 0%nat, z. change (Z.to_nat 0) with 0%nat in *. rewrite !drop_0 in *.
      split_and!; [lia|lia|done|done|done].
    - assert (v6_text gs !! Z.to_nat p = Some 58) as H58.
      { unfold byte_at in Hc. destruct (v6_text gs !! Z.to_nat p) eqn:E; [by f_equal|done]. }
      destruct (colon_split gs _ Hgs H58) as (k & Hk & Htk & Hdk). rewrite Hdk in *.
      assert (is_groups (drop k gs)) as Hgk by by apply Forall_drop.
      destruct (run_colon (drop k gs) Hgk) as (z & Hz & ? & ? & ?). exists k, z. rewrite length_drop in Hz.
      split_and!; [lia|lia|done|done|done]. }
  exists (take k gs), (drop z (drop k gs)). unfold squeezed, short_text, short_groups, zeros_between.
  rewrite length_take, !length_drop, Hpre, Hsuf.
  split_and!; [|lia|by apply Forall_take|by repeat apply Forall_drop|done].
  replace (8 - k `min` length gs - (length gs - k - z))%nat with z by lia.
  rewrite <- Ht. by rewrite !take_drop.
Qed.

(** ** Mapped IPv4 addresses *)

(** The text before the run is replaced. *)
Definition mapped_long (bs : list Z) : list Z := v6_text [0; 0; 0; 0; 0; 65535] ++ 58 :: v4_text bs.

Lemma dec_chars b c : 0 ≤ b < 256 → c ∈ dec b → c ≠ 58 ∧ c ≠ 46 ∧ 0 < c < 256.
Proof.
  intros Hb Hc. unfold dec in Hc. apply list_elem_of_fmap in Hc as (d & -> & Hd).
  destruct (plain_digits_spec 10 b ltac:(lia) ltac:(lia)) as (_ & Hall & _).
  rewrite Forall_forall in Hall. specialize (Hall d Hd).
  by destruct (digit_facts d ltac:(lia)) as (_ & _ & ? & ? & ? & _).
Qed.

Lemma v4_text_chars bs c : Forall (λ b, 0 ≤ b < 256) bs → c ∈ v4_text bs → c ≠ 58 ∧ 0 < c < 256.
Proof.
  intros Hbs. induction Hbs as [|b bs Hb _ IH]; [by intros ?%elem_of_nil|].
  rewrite v4_text_cons. intros [Hc|Hc]%elem_of_app; [by destruct (dec_chars b c Hb Hc) as (? & _ & ?)|].
  destruct bs; [by apply elem_of_nil in Hc|]. apply elem_of_cons in Hc as [->|Hc]; [lia|auto].
Qed.

Lemma span_stop P l c r : P c = false → (span P (l ++ c :: r) ≤ length l)%nat.
Proof. intros Hc. induction l as [|x l IH]; simpl; [by rewrite Hc|]. destruct (P x); lia. Qed.

Lemma dec_length b : 0 ≤ b < 256 → (1 ≤ length (dec b) ≤ 3)%nat.
Proof. intros Hb. unfold dec. rewrite length_fmap. apply digits_short; simpl; lia. Qed.

Section mapped_runs.
Context (bs : list Z) (Hlen : length bs = 4%nat) (Hbs : Forall (λ b, 0 ≤ b < 256) bs).

Lemma mapped_run_max p : candidate (mapped_long bs) p → p = 0 ∨ run_at (mapped_long bs) p < 10.
Proof using All.
  intros [Hp [->|Hc]]; [by left|]. right.
  change (mapped_long bs) with ([48; 58; 48; 58; 48; 58; 48; 58; 48; 58; 102; 102; 102; 102; 58] ++ v4_text bs) in *.
  destruct (decide (p < 15)) as [Hlt|Hge].
  - assert (0 ≤ p < Z.of_nat 15) as Hr by lia. clear Hp Hlt. revert Hc. enum_range 15%nat p Hr; try done;
      intros _; try (generalize (v4_text bs); intros v; vm_compute; reflexivity).
    unfold run_at. change (Z.to_nat (Z.of_nat 14)) with 14%nat. cbn [drop app].
    change (span in_run (58 :: v4_text bs)) with (S (span in_run (v4_text bs))).
    destruct bs as [|b [|b1 bs']]; [done..|]. rewrite v4_text_cons. cbn iota. apply Forall_cons in Hbs as [Hb _].
    pose proof (span_stop in_run (dec b) 46 (v4_text (b1 :: bs')) eq_refl). pose proof (dec_length b Hb). lia.
  - exfalso. unfold byte_at in Hc. rewrite lookup_app_r in Hc by (simpl; lia).
    destruct (v4_text bs !! _) as [c|] eqn:E; [|done]. simpl in Hc. subst c.
    apply list_elem_of_lookup_2 in E. by apply (v4_text_chars bs 58 Hbs).
Qed.

Lemma mapped_run best max : run_inv (mapped_long bs) (len (mapped_long bs)) best max → best = 0 ∧ max = 10.
Proof using All.
  intros [Hb Hm].
  assert (candidate (mapped_long bs) 0 ∧ run_at (mapped_long bs) 0 = 10) as [Hc0 H10].
  { split; [|done]. split; [|by left]. unfold mapped_long. rewrite length_app. simpl. lia. }
  specialize (Hm 0 Hc0 ltac:(destruct Hc0; lia)). destruct Hb as [[]|(_ & Hc & ->)]; [lia|].
  destruct (mapped_run_max best Hc) as [->|]; [done|lia].
Qed.

Lemma squeezed_mapped : squeezed (mapped_long bs) 0 10 = mapped_text bs.
Proof using. done. Qed.

End mapped_runs.

(** ** Writing addresses *)

Definition lit_v4 : list Z := [37; 100; 46; 37; 100; 46; 37; 100; 46; 37; 100].
Definition lit_v6 : list Z :=
  [37; 120; 58; 37; 120; 58; 37; 120; 58; 37; 120; 58; 37; 120; 58; 37; 120; 58; 37; 120; 58; 37; 120].
Definition lit_mapped : list Z :=
  [37; 120; 58; 37; 120; 58; 37; 120; 58; 37; 120; 58; 37; 120; 58; 37; 120; 58] ++ lit_v4.
Definition lit_prefix : list Z := [0; 0; 0; 0; 0; 0; 0; 0; 0; 0; 255; 255].

(** The literals are in read-only memory [m0], the array [buf] is not. *)
Record ntop_ok (e : ntop_env) (m0 m : cmem) : Prop := {
  no_sub : m0 ⊆ m;
  no_v4 : str_at m0 (fmt_v4 e) lit_v4;
  no_v6 : str_at m0 (fmt_v6 e) lit_v6;
  no_mapped : str_at m0 (fmt_mapped e) lit_mapped;
  no_prefix : bytes_at m0 (mapped_prefix e) lit_prefix;
  no_zero : str_at m0 (colon_zero e) [58; 48];
  no_buf : 0 < buf e ∧ buf e + 100 ≤ 2 ^ 64;
  no_buf_mapped : mapped m (buf e) 100;
  no_buf_apart : apart m0 (buf e) 100;
}.

(** The groups of a mapped address. *)
Definition mapped_groups (bs : list Z) : list Z :=
  [0; 0; 0; 0; 0; 65535] ++ [256 * byte_at bs 0 + byte_at bs 1; 256 * byte_at bs 2 + byte_at bs 3].

(** The text written for the groups of an address, and the bytes read back
    from it. *)
Inductive v6_written : list Z → list Z → list Z → Prop :=
| written_full gs : v6_written gs (v6_text gs) (group_bytes gs)
| written_short pre suf :
    (length pre + length suf ≤ 6)%nat → is_groups pre → is_groups suf →
    v6_written (short_groups pre suf) (short_text pre suf) (group_bytes (read_groups pre suf))
| written_mapped bs :
    length bs = 4%nat → Forall (λ b, 0 ≤ b < 256) bs →
    v6_written (mapped_groups bs) (mapped_text bs) (replicate 12 0 ++ bs).

Lemma bytes_at_sub m0 m s l : m0 ⊆ m → bytes_at m0 s l → bytes_at m s l.
Proof. intros Hsub Hb i b Hi. destruct (Hb i b Hi). split; [by eapply lookup_weaken|done]. Qed.

Lemma group_bytes_lookup gs k g : gs !! k = Some g →
  group_bytes gs !! (2 * k)%nat = Some (g / 256) ∧ group_bytes gs !! (2 * k + 1)%nat = Some (g mod 256).
Proof.
  revert k. induction gs as [|x gs IH]; intros [|k] Hk; simplify_eq/=; [done|].
  replace (k + S (k + 0))%nat with (S (2 * k)) by lia. apply (IH k Hk).
Qed.

Lemma length_group_bytes gs : length (group_bytes gs) = (2 * length gs)%nat.
Proof.
  induction gs as [|g gs IH]; [done|].
  change (length (group_bytes (g :: gs))) with (S (S (length (group_bytes gs)))). rewrite IH. simpl. lia.
Qed.

Lemma byte_arg_ok m a bs k b : bytes_at m a bs → bs !! k = Some b → byte_arg m a (Z.of_nat k) = Done (VaInt b).
Proof. intros Hb Hk. unfold byte_arg, load. by rewrite (proj1 (Hb k b Hk)). Qed.

Lemma group_arg_ok m a gs k g : bytes_at m a (group_bytes gs) → gs !! k = Some g →
  group_arg m a (Z.of_nat (2 * k)) = Done (VaInt g).
Proof.
  intros Hb Hk. destruct (group_bytes_lookup gs k g Hk) as [H0 H1]. unfold group_arg, load.
  rewrite (proj1 (Hb _ _ H0)). cbn [unwrap mbind outcome_bind].
  replace (a + Z.of_nat (2 * k) + 1) with (a + Z.of_nat (2 * k + 1)) by lia.
  rewrite (proj1 (Hb _ _ H1)). cbn [unwrap mbind outcome_bind]. do 2 f_equal. pose proof (Z.div_mod g 256). lia.
Qed.

Lemma args_of_map f l vs : Forall2 (λ i v, f i = Done v) l vs → args_of f l = Done vs.
Proof. induction 1 as [|i v l vs Hf _ IH]; [done|]. cbn [args_of]. rewrite Hf. cbn [mbind outcome_bind]. by rewrite IH. Qed.

Lemma vals_at m vs : Forall2 (val_at m) (SInt <$> vs) (VaInt <$> vs).
Proof. induction vs; simpl; constructor; [constructor|done]. Qed.

(** The texts of the formats. *)
Lemma text_v4 fuel b0 b1 b2 b3 : Forall (λ b, 0 ≤ b < 256) [b0; b1; b2; b3] →
  format_text (7 + fuel) lit_v4 (SInt <$> [b0; b1; b2; b3]) = Some (v4_text [b0; b1; b2; b3]).
Proof.
  rewrite !Forall_cons. intros (? & ? & ? & ? & _).
  do 3 (apply text_d; [lia|]; apply text_char; [done|]). apply text_d; [lia|]. by destruct fuel.
Qed.

Lemma text_v6 gs : length gs = 8%nat → is_groups gs →
  format_text (length lit_v6) lit_v6 (SInt <$> gs) = Some (v6_text gs).
Proof.
  intros Hlen Hgs. do 8 (destruct gs as [|? gs]; [done|]). destruct gs; [|done].
  unfold is_groups in Hgs. rewrite !Forall_cons in Hgs. destruct Hgs as (? & ? & ? & ? & ? & ? & ? & ? & _).
  do 7 (apply text_x; [lia|]; apply text_char; [done|]). by apply text_x; [lia|].
Qed.

Lemma text_mapped b0 b1 b2 b3 : Forall (λ b, 0 ≤ b < 256) [b0; b1; b2; b3] →
  format_text (length lit_mapped) lit_mapped (SInt <$> [0; 0; 0; 0; 0; 65535; b0; b1; b2; b3])
  = Some (mapped_long [b0; b1; b2; b3]).
Proof.
  intros Hbs. change (mapped_long [b0; b1; b2; b3]) with
    (hex 0 ++ 58 :: hex 0 ++ 58 :: hex 0 ++ 58 :: hex 0 ++ 58 :: hex 0 ++ 58 :: hex 65535 ++ 58 :: v4_text [b0; b1; b2; b3]).
  do 6 (apply text_x; [lia|]; apply text_char; [done|]). by apply (text_v4 10).
Qed.

(** ** The length of the texts *)

Lemma hex_length g : 0 ≤ g < 65536 → (1 ≤ length (hex g) ≤ 4)%nat.
Proof. intros Hg. unfold hex. rewrite length_fmap. apply digits_short; simpl; lia. Qed.

Lemma v6_text_length gs : is_groups gs → (length (v6_text gs) ≤ 5 * length gs)%nat.
Proof.
  induction 1 as [|g gs Hg _ IH]; [simpl; lia|]. rewrite v6_text_cons, length_app. pose proof (hex_length g Hg).
  destruct gs; simpl in *; lia.
Qed.

Lemma v4_text_length bs : Forall (λ b, 0 ≤ b < 256) bs → (length (v4_text bs) ≤ 4 * length bs)%nat.
Proof.
  induction 1 as [|b bs Hb _ IH]; [simpl; lia|]. rewrite v4_text_cons, length_app. pose proof (dec_length b Hb).
  destruct bs; simpl in *; lia.
Qed.

Lemma v6_text_bytes gs : is_groups gs → Forall (λ b, 0 < b < 256) (v6_text gs).
Proof.
  induction 1 as [|g gs Hg _ IH]; [constructor|]. rewrite v6_text_cons. apply Forall_app_2.
  - apply (plain_text_bytes false 16 g); [by right|lia].
  - destruct gs; constructor; [lia|done].
Qed.

Lemma v4_text_bytes bs : Forall (λ b, 0 ≤ b < 256) bs → Forall (λ b, 0 < b < 256) (v4_text bs).
Proof. intros Hbs. apply Forall_forall. intros c Hc. by apply (v4_text_chars bs). Qed.

(** Read-only memory is not written. *)
Lemma apart_write m0 m s n l : m0 ⊆ m → apart m0 s n → len l ≤ n → m0 ⊆ write_bytes m s l.
Proof.
  intros Hsub Hap Hl. apply map_subseteq_spec. intros x b Hx. rewrite write_bytes_lookup, decide_False.
  - by eapply lookup_weaken.
  - intros Hin. rewrite Hap in Hx by lia. done.
Qed.

(** The groups of an address that starts with the prefix of the mapped ones. *)
Lemma prefix_groups gs : length gs = 8%nat → is_groups gs → take 12 (group_bytes gs) = lit_prefix →
  ∃ bs, gs = mapped_groups bs ∧ length bs = 4%nat ∧ Forall (λ b, 0 ≤ b < 256) bs ∧
    group_bytes (mapped_groups bs) = lit_prefix ++ bs.
Proof.
  intros Hlen Hgs Hpre. do 8 (destruct gs as [|? gs]; [done|]). destruct gs; [|done].
  unfold is_groups in Hgs. rewrite !Forall_cons in Hgs. destruct Hgs as (? & ? & ? & ? & ? & ? & ? & ? & _).
  unfold lit_prefix in Hpre. cbn in Hpre. injection Hpre as ? ? ? ? ? ? ? ? ? ? ? ?.
  assert (z = 0 ∧ z0 = 0 ∧ z1 = 0 ∧ z2 = 0 ∧ z3 = 0 ∧ z4 = 65535) as (-> & -> & -> & -> & -> & ->).
  { pose proof (Z.div_mod z 256). pose proof (Z.div_mod z0 256). pose proof (Z.div_mod z1 256).
    pose proof (Z.div_mod z2 256). pose proof (Z.div_mod z3 256). pose proof (Z.div_mod z4 256). lia. }
  assert (∀ x, 0 ≤ x < 65536 → 256 * (x / 256) + x mod 256 = x ∧ 0 ≤ x / 256 < 256 ∧ 0 ≤ x mod 256 < 256) as Hr.
  { intros x Hx. split; [symmetry; apply Z.div_mod; lia|].
    split; [split; [apply Z.div_pos; lia|apply Z.div_lt_upper_bound; lia]|apply Z.mod_pos_bound; lia]. }
  destruct (Hr z5) as (E5 & ? & ?), (Hr z6) as (E6 & ? & ?); [done..|].
  exists [z5 / 256; z5 mod 256; z6 / 256; z6 mod 256].
  assert (∀ q5 r5 q6 r6, mapped_groups [q5; r5; q6; r6] = [0; 0; 0; 0; 0; 65535; 256 * q5 + r5; 256 * q6 + r6]) as -> by done.
  rewrite E5, E6. split_and!; [done|done|repeat constructor; lia|done].
Qed.

Section ntop.
Context (e : ntop_env) (m0 m : cmem) (a : Z) (Hok : ntop_ok e m0 m).

Lemma ntop_v4 bs s l : bytes_at m0 a bs → length bs = 4%nat → 0 < s → 1 ≤ l < 2 ^ 32 → mapped m s l → apart m0 s l →
  inet_ntop e m AF_INET a s l
  = Done (if len (v4_text bs) <? l then (write_bytes m s (v4_text bs ++ [0]), s, None)
          else (write_bytes m s (take (Z.to_nat (l - 1)) (v4_text bs) ++ [0]), NULL, Some ENOSPC)).
Proof using Hok.
  intros Hb Hlen Hs Hl Hm Hap. destruct Hok as [Hsub Hfmt _ _ _ _ _ _ _].
  pose proof (bytes_at_sub _ _ _ _ Hsub Hb) as Hb'.
  do 4 (destruct bs as [|? bs]; [done|]). destruct bs; [|done].
  assert (Forall (λ b, 0 ≤ b < 256) [z; z0; z1; z2]) as Hbs.
  { apply Forall_lookup_2. intros i b Hi. by destruct (Hb i b Hi). }
  pose proof (v4_text_length _ Hbs) as Hlt. simpl length in Hlt.
  unfold inet_ntop. cbn [Z.eqb Pos.eqb AF_INET].
  rewrite (args_of_map _ _ (VaInt <$> [z; z0; z1; z2])).
  2: { repeat constructor; [apply (byte_arg_ok _ _ _ 0 _ Hb' eq_refl)|apply (byte_arg_ok _ _ _ 1 _ Hb' eq_refl)
         |apply (byte_arg_ok _ _ _ 2 _ Hb' eq_refl)|apply (byte_arg_ok _ _ _ 3 _ Hb' eq_refl)]. }
  cbn [mbind outcome_bind].
  rewrite (vsnprintf_text m0 m (fmt_v4 e) lit_v4 (SInt <$> [z; z0; z1; z2]) _ (v4_text [z; z0; z1; z2]));
    [|done|done|apply vals_at|by apply (text_v4 4)|unfold INT_MAX; lia|done|lia|done|done].
  cbn [mbind outcome_bind]. rewrite wrap_small by lia. f_equal.
  destruct (Z.ltb_spec (len (v4_text [z; z0; z1; z2])) l); [|done]. by rewrite take_ge by lia.
Qed.

(** The text in [buf] before the run is replaced. *)
Lemma ntop_v6_text gs : bytes_at m0 a (group_bytes gs) → length gs = 8%nat → is_groups gs →
  ∃ t, len t ≤ 45 ∧ Forall (λ b, 0 < b < 256) t ∧
    ntop_v6 e m a = compress e (write_bytes m (buf e) (t ++ [0])) ∧
    (t = v6_text gs ∨ ∃ bs, gs = mapped_groups bs ∧ length bs = 4%nat ∧
       Forall (λ b, 0 ≤ b < 256) bs ∧ t = mapped_long bs).
Proof using Hok.
  intros Hb Hlen Hgs. destruct Hok as [Hsub _ Hf6 Hfm Hpre _ Hbuf Hmap Hap].
  pose proof (bytes_at_sub _ _ _ _ Hsub Hb) as Hb'. pose proof (length_group_bytes gs) as Hlb.
  destruct (memcmp_spec m a (mapped_prefix e) (take 12 (group_bytes gs)) lit_prefix) as (d & Hcmp & Hd).
  { intros i b Hi. apply lookup_take_Some in Hi as [Hi _]. by apply Hb'. }
  { by apply (bytes_at_sub _ _ _ _ Hsub). }
  { rewrite length_take_le by lia. done. }
  rewrite length_take_le in Hcmp by lia. change (Z.of_nat 12) with 12 in Hcmp.
  unfold ntop_v6. rewrite Hcmp. cbn [mbind outcome_bind].
  pose proof (λ k g, group_arg_ok m a gs k g Hb') as Harg.
  destruct (Z.eqb_spec d 0) as [Hd0|Hdn]; cbn [negb].
  - apply Hd in Hd0. apply prefix_groups in Hd0 as (bs & -> & Hlbs & Hbs & Hbytes); [|done|done].
    do 4 (destruct bs as [|? bs]; [done|]). destruct bs; [|done]. rewrite Hbytes in Hb'.
    exists (mapped_long [z; z0; z1; z2]). pose proof (v4_text_length _ Hbs) as Hl. simpl length in Hl.
    assert (len (mapped_long [z; z0; z1; z2]) = 15 + len (v4_text [z; z0; z1; z2])) as Hll
      by (unfold mapped_long; rewrite length_app; simpl length; lia).
    split_and!; [lia|by apply Forall_app_2; [apply v6_text_bytes; repeat constructor; lia
      |constructor; [lia|apply v4_text_bytes]]| |by right; eexists].
    rewrite (args_of_map (group_arg m a) _ (VaInt <$> [0; 0; 0; 0; 0; 65535])).
    2: { repeat constructor; [apply (Harg 0%nat)|apply (Harg 1%nat)|apply (Harg 2%nat)|apply (Harg 3%nat)
           |apply (Harg 4%nat)|apply (Harg 5%nat)]; done. }
    cbn [mbind outcome_bind]. rewrite (args_of_map _ _ (VaInt <$> [z; z0; z1; z2])).
    2: { repeat constructor; [apply (byte_arg_ok _ _ _ 12 _ Hb' eq_refl)|apply (byte_arg_ok _ _ _ 13 _ Hb' eq_refl)
         |apply (byte_arg_ok _ _ _ 14 _ Hb' eq_refl)|apply (byte_arg_ok _ _ _ 15 _ Hb' eq_refl)]. }
    cbn [mbind outcome_bind]. rewrite <- fmap_app. cbn [app].
    rewrite (vsnprintf_text m0 m (fmt_mapped e) lit_mapped (SInt <$> [0; 0; 0; 0; 0; 65535; z; z0; z1; z2]) _
      (mapped_long [z; z0; z1; z2])); [|done|done|apply vals_at|by apply text_mapped|unfold INT_MAX; lia|lia|lia|done|done].
    cbn [mbind outcome_bind]. by rewrite take_ge by lia.
  - clear Hd. pose proof (v6_text_length gs Hgs) as Hl.
    pose proof (text_v6 gs Hlen Hgs) as Ht. exists (v6_text gs).
    split_and!; [lia|by apply v6_text_bytes| |by left].
    rewrite (args_of_map _ _ (VaInt <$> gs)).
    2: { do 8 (destruct gs as [|? gs]; [done|]). destruct gs; [|done].
         repeat constructor; [apply (Harg 0%nat)|apply (Harg 1%nat)|apply (Harg 2%nat)|apply (Harg 3%nat)
           |apply (Harg 4%nat)|apply (Harg 5%nat)|apply (Harg 6%nat)|apply (Harg 7%nat)]; done. }
    cbn [mbind outcome_bind].
    rewrite (vsnprintf_text m0 m (fmt_v6 e) lit_v6 (SInt <$> gs) _ (v6_text gs));
      [|done|done|apply vals_at|done|unfold INT_MAX; lia|lia|lia|done|done].
    cbn [mbind outcome_bind]. by rewrite take_ge by lia.
Qed.

(** The text of an address, whether a run has been replaced or not. *)
Lemma squeezed_written gs t best max : length gs = 8%nat → is_groups gs →
  (t = v6_text gs ∨ ∃ bs, gs = mapped_groups bs ∧ length bs = 4%nat ∧
     Forall (λ b, 0 ≤ b < 256) bs ∧ t = mapped_long bs) →
  run_inv t (len t) best max →
  ∃ r, v6_written gs (if max >? 3 then squeezed t best max else t) r ∧
    len (if max >? 3 then squeezed t best max else t) ≤ len t.
Proof using.
  intros Hlen Hgs Ht Hinv. rewrite Z.gtb_ltb. destruct Ht as [->|(bs & -> & Hl & Hbs & ->)].
  - destruct (Z.ltb_spec 3 max) as [Hgt|]; [|eexists; split; [apply written_full|lia]].
    destruct (ri_best _ _ _ _ Hinv) as [[]|(_ & Hc & Hmax)]; [lia|].
    destruct (squeezed_groups gs best Hgs Hlen Hc ltac:(lia)) as (pre & suf & -> & Hps & Hp & Hs & Hsq).
    rewrite <- Hmax in Hsq. eexists. split; [rewrite Hsq; by apply written_short|].
    destruct Hc as [Hb _]. pose proof (run_at_le (v6_text (short_groups pre suf)) best ltac:(lia)) as Hle. rewrite <- Hmax in Hle.
    unfold squeezed. rewrite !length_app, length_take, length_drop. simpl length. lia.
  - destruct (mapped_run bs Hl Hbs best max Hinv) as [-> ->]. rewrite squeezed_mapped. cbn [Z.ltb Z.compare].
    eexists. split; [by apply written_mapped|].
    unfold mapped_text, mapped_long. rewrite !length_app. change (length (hex 65535)) with 4%nat.
    change (length (v6_text [0; 0; 0; 0; 0; 65535])) with 14%nat. simpl length. lia.
Qed.

Lemma ntop_v6_spec gs : bytes_at m0 a (group_bytes gs) → length gs = 8%nat → is_groups gs →
  ∃ t r m', v6_written gs t r ∧ len t ≤ 45 ∧ ntop_v6 e m a = Done m' ∧ str_at m' (buf e) t ∧ m0 ⊆ m' ∧
    (∀ x n, mapped m x n → mapped m' x n).
Proof using Hok.
  intros Hb Hlen Hgs. destruct (ntop_v6_text gs Hb Hlen Hgs) as (t & Hlt & Hbytes & -> & Ht).
  destruct Hok as [Hsub _ _ _ _ Hz Hbuf Hmap Hap].
  set (m1 := write_bytes m (buf e) (t ++ [0])).
  assert (len (t ++ [0]) = len t + 1) as Hl1 by (rewrite length_app; simpl; lia).
  assert (m0 ⊆ m1) as Hsub1 by (eapply apart_write; [done|exact Hap|lia]).
  assert (str_at m1 (buf e) t) as Hs1 by (apply str_at_written; [lia|done]).
  destruct (compress_spec e m1 t Hs1) as (best & max & m2 & Hinv & Hrun & Hs2 & Hframe & Hm2);
    [by apply (str_at_mono m0)|lia|apply mapped_write, (mapped_le m (buf e) 100); [done|lia]|lia|].
  destruct (squeezed_written gs t best max Hlen Hgs Ht Hinv) as (r & Hw & Hle).
  eexists _, r, m2. split_and!; [exact Hw|lia|done|done| |].
  - apply map_subseteq_spec. intros x b Hx. rewrite Hframe; [by eapply lookup_weaken|].
    intros Hin. rewrite Hap in Hx by lia. done.
  - intros x n Hm. by apply Hm2, mapped_write.
Qed.

Lemma ntop_v6_written gs s l : bytes_at m0 a (group_bytes gs) → length gs = 8%nat → is_groups gs →
  0 < s → mapped m s l → apart m0 s l → s + l ≤ buf e ∨ buf e + 100 ≤ s →
  ∃ t r m', v6_written gs t r ∧ len t ≤ 45 ∧ m0 ⊆ m' ∧ (∀ x n, mapped m x n → mapped m' x n) ∧
    if len t <? l then inet_ntop e m AF_INET6 a s l = Done (m', s, None) ∧ str_at m' s t
    else inet_ntop e m AF_INET6 a s l = Done (m', NULL, Some ENOSPC).
Proof using Hok.
  intros Hb Hlen Hgs Hs Hm Hap Hdis. destruct (ntop_v6_spec gs Hb Hlen Hgs) as (t & r & m2 & Hw & Hlt & Hrun & Hs2 & Hsub2 & Hm2).
  exists t, r. unfold inet_ntop. cbn [Z.eqb Pos.eqb AF_INET AF_INET6]. rewrite Hrun. cbn [mbind outcome_bind].
  rewrite (strlen_spec _ _ _ Hs2). cbn [mbind outcome_bind].
  destruct (Z.ltb_spec (len t) l) as [Hlt'|]; [|by exists m2].
  rewrite (strcpy_spec m2 s (buf e) t Hs2); [|apply (mapped_le m2 s l); [auto|lia]|lia].
  cbn [mbind outcome_bind]. exists (write_bytes m2 s (t ++ [0])). split_and!; [done|done| | |done|].
  - eapply apart_write; [done|exact Hap|rewrite length_app; simpl; lia].
  - intros x n Hx. by apply mapped_write, Hm2.
  - apply str_at_written; [done|apply Hs2].
Qed.
End ntop.

(** ** Theorems *)

(** C32: what [inet_ntop] writes for an address is read by [inet_pton].  For
    every IPv4 address the text is the four numbers with dots, and reading it
    gives the address back.  For every IPv6 address the text is its groups,
    or the groups around a run of two or more zero groups with two colons for
    the run, or the form of a mapped IPv4 address; reading it succeeds, and
    gives the address back except for groups after the two colons, which are
    read as zeros when the run was of more than two groups. *)
Theorem inet_roundtrip e m0 m ip a d s l :
  ntop_ok e m0 m → length ip = 8%nat → 0 < s → 46 ≤ l < 2 ^ 32 → mapped m s l → apart m0 s l →
  s + l ≤ buf e ∨ buf e + 100 ≤ s → mapped m d 16 → d + 16 ≤ s ∨ s + l ≤ d →
  (∀ bs, length bs = 4%nat → bytes_at m0 a bs →
     ∃ m1, inet_ntop e m AF_INET a s l = Done (m1, s, None) ∧ str_at m1 s (v4_text bs) ∧
       inet_pton ip m1 AF_INET s d = Done (write_bytes m1 d bs, 1, None)) ∧
  (∀ gs, length gs = 8%nat → is_groups gs → bytes_at m0 a (group_bytes gs) →
     ∃ m1 t r, v6_written gs t r ∧ inet_ntop e m AF_INET6 a s l = Done (m1, s, None) ∧ str_at m1 s t ∧
       inet_pton ip m1 AF_INET6 s d = Done (write_bytes m1 d r, 1, None)).
Proof.
  intros Hok Hip Hs Hl Hm Hap Hdis Hd Hsd. split.
  - intros bs Hlen Hb. assert (Forall (λ b, 0 ≤ b < 256) bs) as Hbs.
    { apply Forall_lookup_2. intros i b Hi. by destruct (Hb i b Hi). }
    pose proof (v4_text_length bs Hbs). pose proof (v4_text_bytes bs Hbs).
    rewrite (ntop_v4 e m0 m a Hok bs s l) by (done || lia).
    rewrite (proj2 (Z.ltb_lt _ _)) by lia. eexists. split; [done|].
    assert (str_at (write_bytes m s (v4_text bs ++ [0])) s (v4_text bs)) as Hstr by by apply str_at_written.
    split; [done|]. unfold inet_pton. cbn [Z.eqb Pos.eqb AF_INET]. rewrite <- Hlen.
    rewrite quad_loop_spec; [by rewrite Z.add_0_r|by destruct bs|lia|lia|done|done| |intros x Hx; lia].
    rewrite Z.add_0_r. apply mapped_write, (mapped_le m d 16); [done|lia].
  - intros gs Hlen Hgs Hb.
    destruct (ntop_v6_written e m0 m a Hok gs s l) as (t & r & m1 & Hw & Hlt & _ & Hm1 & Hrun); [done..|].
    rewrite (proj2 (Z.ltb_lt _ _)) in Hrun by lia. destruct Hrun as [Hrun Hstr].
    exists m1, t, r. split_and!; [done..|]. apply Hm1 in Hd. destruct Hw as [gs|pre suf Hps Hp Hsu|bs Hlb Hbs].
    + by apply pton_full.
    + apply pton_short; [done|lia|done..].
    + apply pton_mapped; [done..|]. intros x Hx. lia.
Qed.

(** Nothing is lost when the run was of two groups or at the end. *)
Lemma read_groups_exact pre suf : suf = [] ∨ zeros_between pre suf = 2%nat → read_groups pre suf = short_groups pre suf.
Proof.
  unfold read_groups, short_groups, overwritten. intros [->| ->]; [|done].
  by rewrite Nat.min_0_r, drop_nil.
Qed.

(** [inet_pton] reads [::1] as the address [::]. *)
Theorem inet_pton_loses_groups :
  inet_pton (replicate 8 7) (write_bytes (write_bytes ∅ 10 [58; 58; 49; 0]) 100 (replicate 16 9)) AF_INET6 10 100
  = Done (write_bytes (write_bytes ∅ 10 [58; 58; 49; 0]) 100 (replicate 16 0), 1, None).
Proof. by vm_compute. Qed.

(** *** An address in memory *)

(** The literals from 1000 on, the address [2001:db8::1] at 1500; [buf] at
    200, room for the text at 400 and for an address at 500. *)
Definition demo_env : ntop_env :=
  {| fmt_v4 := 1000; fmt_v6 := 1100; fmt_mapped := 1200; mapped_prefix := 1300; colon_zero := 1400; buf := 200 |}.
Definition demo_groups : list Z := [8193; 3512; 0; 0; 0; 0; 0; 1].
Definition demo_lits : cmem :=
  bytes_mem 1000 lit_v4 ∪ bytes_mem 1100 lit_v6 ∪ bytes_mem 1200 lit_mapped ∪ bytes_mem 1300 lit_prefix ∪
  bytes_mem 1400 [58; 48] ∪ bytes_mem 1500 (group_bytes demo_groups).
Definition demo_net : cmem :=
  write_bytes (write_bytes (write_bytes demo_lits 200 (replicate 100 0)) 400 (replicate 46 0)) 500 (replicate 16 0).

Lemma bytes_at_check m s l : Forall (λ b, 0 ≤ b < 256) l →
  forallb (λ i, bool_decide (m !! (s + Z.of_nat i) = l !! i)) (seq 0 (length l)) = true → bytes_at m s l.
Proof.
  intros Hl Hall i b Hi. rewrite forallb_forall in Hall. specialize (Hall i).
  rewrite Hi in Hall. split; [|by eapply (Forall_lookup_1 _ _ _ _ Hl)].
  refine (bool_decide_eq_true_1 _ (Hall _)). apply in_seq. apply lookup_lt_Some in Hi. lia.
Qed.

Lemma demo_lits_apart : apart demo_lits 200 400.
Proof. by apply apart_check; vm_compute. Qed.

Lemma demo_net_sub : demo_lits ⊆ demo_net.
Proof.
  pose proof demo_lits_apart as Hap.
  do 3 (eapply (apart_write _ _ _ 100); [|intros x Hx; apply Hap; lia|by vm_compute]). done.
Qed.

Lemma demo_ntop_ok : ntop_ok demo_env demo_lits demo_net.
Proof.
  split.
  - exact demo_net_sub.
  - apply str_at_check; [done|repeat constructor; lia|by vm_compute].
  - apply str_at_check; [done|repeat constructor; lia|by vm_compute].
  - apply str_at_check; [done|repeat constructor; lia|by vm_compute].
  - apply bytes_at_check; [repeat constructor; lia|by vm_compute].
  - apply str_at_check; [done|repeat constructor; lia|by vm_compute].
  - done.
  - apply mapped_check. by vm_compute.
  - apply apart_check. by vm_compute.
Qed.

Lemma inet_roundtrip_witness :
  (∃ m1, inet_ntop demo_env demo_net AF_INET 1500 400 46 = Done (m1, 400, None) ∧
     str_at m1 400 (v4_text [32; 1; 13; 184]) ∧
     inet_pton (replicate 8 0) m1 AF_INET 400 500 = Done (write_bytes m1 500 [32; 1; 13; 184], 1, None)) ∧
  ∃ m1 t r, v6_written demo_groups t r ∧
    inet_ntop demo_env demo_net AF_INET6 1500 400 46 = Done (m1, 400, None) ∧ str_at m1 400 t ∧
    inet_pton (replicate 8 0) m1 AF_INET6 400 500 = Done (write_bytes m1 500 r, 1, None).
Proof.
  assert (bytes_at demo_lits 1500 (group_bytes demo_groups)) as Hb
    by (change (group_bytes demo_groups) with [32; 1; 13; 184; 0; 0; 0; 0; 0; 0; 0; 0; 0; 0; 0; 1];
        apply bytes_at_check; [repeat constructor; lia|by vm_compute]).
  destruct (inet_roundtrip demo_env demo_lits demo_net (replicate 8 0) 1500 500 400 46) as [H4 H6];
    [exact demo_ntop_ok|done|done|lia|apply mapped_check; by vm_compute
    |intros x Hx; apply demo_lits_apart; lia|right; done|apply mapped_check; by vm_compute|right; done|].
  split.
  - apply H4; [done|]. intros i b Hi. apply Hb. do 4 (destruct i as [|i]; [done|]). done.
  - apply H6; [done|repeat constructor; lia|done].
Defined.
