(* ===== verification/AxTask.v ===== *)
(** * Tasks, run queue and wait queues ([modules/axtask])

    The tasks, the run queue over any scheduler of [Scheduler.v], the wait
    queues, the timers over [TimerList.v] and the calls of the API, for any
    number of CPUs, with the features [irq] and [preempt] and without [hv].
    The lock of the run queue makes the code between locking and unlocking
    it, up to the context switch, atomic: each such part is a function on the
    state of the system.  What a task does after it has been switched in
    again ([cancel_events] after blocking) is a function of its own.

    The theorems show for every interleaving of such steps that no task is
    ever lost, run twice or queued twice. *)

From S2P Require Import Prelude Scheduler TimerList LinkedList.
From stdpp Require Import base numbers sets gmap functions strings list.

Open Scope Z_scope.

(** ** Tasks ([task.rs]) *)

Inductive TaskState := Running | Ready | Blocked | Exited.

#[global] Instance TaskState_eq_dec : EqDecision TaskState.
Proof. solve_decision. Defined.

(** [TaskState::from]. *)
Definition TaskState_from (state : Z) : outcome TaskState :=
  match state with
  | 1 => Done Running
  | 2 => Done Ready
  | 3 => Done Blocked
  | 4 => Done Exited
  | _ => Panic
  end.

(** The discriminants stored in the atomic. *)
Definition TaskState_as_u8 (s : TaskState) : Z :=
  match s with Running => 1 | Ready => 2 | Blocked => 3 | Exited => 4 end.

(** The fields the scheduling code uses; stack and registers are left out. *)
Record TaskInner := {
  name : string;
  is_idle : bool;
  is_init : bool;
  state : TaskState;
  in_wait_queue : bool;
  in_timer_list : bool;
  need_resched : bool;
  preempt_disable_count : Z;
  exit_code : Z;
}.

Definition new_common (n : string) : TaskInner :=
  {| name := n; is_idle := false; is_init := false; state := Ready; in_wait_queue := false;
     in_timer_list := false; need_resched := false; preempt_disable_count := 0; exit_code := 0 |}.

(** [TaskInner::new] and [TaskInner::new_init]; both take a task of the name
    ["idle"] for an idle task. *)
Definition task_new (n : string) : TaskInner :=
  {| name := n; is_idle := bool_decide (n = "idle"); is_init := false; state := Ready;
     in_wait_queue := false; in_timer_list := false; need_resched := false;
     preempt_disable_count := 0; exit_code := 0 |}.

Definition task_new_init (n : string) : TaskInner :=
  {| name := n; is_idle := bool_decide (n = "idle"); is_init := true; state := Ready;
     in_wait_queue := false; in_timer_list := false; need_resched := false;
     preempt_disable_count := 0; exit_code := 0 |}.

Definition set_state (st : TaskState) (t : TaskInner) : TaskInner :=
  {| name := name t; is_idle := is_idle t; is_init := is_init t; state := st;
     in_wait_queue := in_wait_queue t; in_timer_list := in_timer_list t;
     need_resched := need_resched t; preempt_disable_count := preempt_disable_count t;
     exit_code := exit_code t |}.

Definition set_in_wait_queue (b : bool) (t : TaskInner) : TaskInner :=
  {| name := name t; is_idle := is_idle t; is_init := is_init t; state := state t;
     in_wait_queue := b; in_timer_list := in_timer_list t;
     need_resched := need_resched t; preempt_disable_count := preempt_disable_count t;
     exit_code := exit_code t |}.

Definition set_in_timer_list (b : bool) (t : TaskInner) : TaskInner :=
  {| name := name t; is_idle := is_idle t; is_init := is_init t; state := state t;
     in_wait_queue := in_wait_queue t; in_timer_list := b;
     need_resched := need_resched t; preempt_disable_count := preempt_disable_count t;
     exit_code := exit_code t |}.

Definition set_preempt_pending (b : bool) (t : TaskInner) : TaskInner :=
  {| name := name t; is_idle := is_idle t; is_init := is_init t; state := state t;
     in_wait_queue := in_wait_queue t; in_timer_list := in_timer_list t;
     need_resched := b; preempt_disable_count := preempt_disable_count t;
     exit_code := exit_code t |}.

Definition set_preempt_count (n : Z) (t : TaskInner) : TaskInner :=
  {| name := name t; is_idle := is_idle t; is_init := is_init t; state := state t;
     in_wait_queue := in_wait_queue t; in_timer_list := in_timer_list t;
     need_resched := need_resched t; preempt_disable_count := n; exit_code := exit_code t |}.

Definition set_exit_code (n : Z) (t : TaskInner) : TaskInner :=
  {| name := name t; is_idle := is_idle t; is_init := is_init t; state := state t;
     in_wait_queue := in_wait_queue t; in_timer_list := in_timer_list t;
     need_resched := need_resched t; preempt_disable_count := preempt_disable_count t;
     exit_code := n |}.

Definition is_running (t : TaskInner) : bool := bool_decide (state t = Running).
Definition is_ready (t : TaskInner) : bool := bool_decide (state t = Ready).
Definition is_blocked (t : TaskInner) : bool := bool_decide (state t = Blocked).

Definition can_preempt (current_disable_count : Z) (t : TaskInner) : bool :=
  preempt_disable_count t =? current_disable_count.

(** The wait queues: those of the program, the one of every task for
    [join], and [WAIT_FOR_EXIT]. *)
Inductive wq_id := WqUser (n : Z) | WqJoin (t : Z) | WqGc.

#[global] Instance wq_id_eq_dec : EqDecision wq_id.
Proof. solve_decision. Defined.

(** The state of the system; a task is the address of its [Arc], and fresh
    tasks get the next one.  [cur] is the current task of a CPU, [idle_of]
    its [IDLE_TASK]. *)
Record sys (S H : Type) := {
  rq : S;
  tasks : Z → TaskInner;
  wqs : wq_id → list Z;
  timers : H;
  cur : Z → Z;
  idle_of : Z → Z;
  exited_tasks : list Z;
  next_id : Z;
  terminated : bool;
}.
Arguments rq {S H} _.
Arguments tasks {S H} _.
Arguments wqs {S H} _.
Arguments timers {S H} _.
Arguments cur {S H} _.
Arguments idle_of {S H} _.
Arguments exited_tasks {S H} _.
Arguments next_id {S H} _.
Arguments terminated {S H} _.

Section axtask.
Context {S : Type} `{BS : !BaseScheduler S} {H : Type} `{MH : !MinHeap H Z}.
Implicit Types s : sys S H.

Definition upd (t : Z) (f : TaskInner → TaskInner) s : sys S H :=
  {| rq := rq s; tasks := <[t := f (tasks s t)]> (tasks s); wqs := wqs s; timers := timers s;
     cur := cur s; idle_of := idle_of s; exited_tasks := exited_tasks s; next_id := next_id s;
     terminated := terminated s |}.

Definition set_rq (q : S) s : sys S H :=
  {| rq := q; tasks := tasks s; wqs := wqs s; timers := timers s;
     cur := cur s; idle_of := idle_of s; exited_tasks := exited_tasks s; next_id := next_id s;
     terminated := terminated s |}.

Definition set_wq (q : wq_id) (l : list Z) s : sys S H :=
  {| rq := rq s; tasks := tasks s; wqs := <[q := l]> (wqs s); timers := timers s;
     cur := cur s; idle_of := idle_of s; exited_tasks := exited_tasks s; next_id := next_id s;
     terminated := terminated s |}.

Definition set_timers (h : H) s : sys S H :=
  {| rq := rq s; tasks := tasks s; wqs := wqs s; timers := h;
     cur := cur s; idle_of := idle_of s; exited_tasks := exited_tasks s; next_id := next_id s;
     terminated := terminated s |}.

Definition set_cur (c t : Z) s : sys S H :=
  {| rq := rq s; tasks := tasks s; wqs := wqs s; timers := timers s;
     cur := <[c := t]> (cur s); idle_of := idle_of s; exited_tasks := exited_tasks s;
     next_id := next_id s; terminated := terminated s |}.

Definition set_exited (l : list Z) s : sys S H :=
  {| rq := rq s; tasks := tasks s; wqs := wqs s; timers := timers s;
     cur := cur s; idle_of := idle_of s; exited_tasks := l; next_id := next_id s;
     terminated := terminated s |}.

Definition terminate s : sys S H :=
  {| rq := rq s; tasks := tasks s; wqs := wqs s; timers := timers s;
     cur := cur s; idle_of := idle_of s; exited_tasks := exited_tasks s; next_id := next_id s;
     terminated := true |}.

(** ** The run queue ([run_queue.rs]) *)

Definition rq_add_task (task : Z) s : outcome (sys S H) :=
  _ ← assert_true (is_ready (tasks s task));
  q ← add_task task (rq s);
  Done (set_rq q s).

Definition scheduler_timer_tick (c : Z) s : outcome (sys S H) :=
  let curr := cur s c in
  if is_idle (tasks s curr) then Done s
  else
    r ← task_tick curr (rq s);
    let s := set_rq r.2 s in
    Done (if r.1 : bool then upd curr (set_preempt_pending true) s else s).

(** [switch_to]; the exchange of the registers is what makes [next_task]
    run on CPU [c]. *)
Definition switch_to (c prev_task next_task : Z) s : sys S H :=
  let s := upd next_task (set_preempt_pending false) s in
  let s := upd next_task (set_state Running) s in
  if decide (prev_task = next_task) then s else set_cur c next_task s.

Definition put_current (c : Z) (preempt : bool) s : outcome (sys S H) :=
  let prev := cur s c in
  if is_running (tasks s prev) then
    let s := upd prev (set_state Ready) s in
    if is_idle (tasks s prev) then Done s
    else q ← put_prev_task prev preempt (rq s); Done (set_rq q s)
  else Done s.

Definition pick_and_switch (c : Z) s : outcome (sys S H) :=
  r ← pick_next_task (rq s);
  Done (switch_to c (cur s c) (default (idle_of s c) r.1) (set_rq r.2 s)).

Definition resched (c : Z) (preempt : bool) s : outcome (sys S H) :=
  s ← put_current c preempt s; pick_and_switch c s.

Definition yield_current (c : Z) s : outcome (sys S H) :=
  _ ← assert_true (is_running (tasks s (cur s c))); resched c false s.

Definition set_current_priority (c prio : Z) s : outcome (bool * sys S H) :=
  r ← set_priority (cur s c) prio (rq s); Done (r.1, set_rq r.2 s).

Definition preempt_resched (c : Z) s : outcome (sys S H) :=
  let curr := cur s c in
  _ ← assert_true (is_running (tasks s curr));
  if can_preempt 1 (tasks s curr) then resched c true s
  else Done (upd curr (set_preempt_pending true) s).

Definition unblock_task (c task : Z) (resched : bool) s : outcome (sys S H) :=
  if is_blocked (tasks s task) then
    let s := upd task (set_state Ready) s in
    q ← add_task task (rq s);
    let s := set_rq q s in
    Done (if resched then upd (cur s c) (set_preempt_pending true) s else s)
  else Done s.

(** ** Waking up ([wait_queue.rs]) *)

Definition notify_one_locked (c : Z) (q : wq_id) (resched : bool) s : outcome (bool * sys S H) :=
  match wqs s q with
  | [] => Done (false, s)
  | task :: l =>
      let s := upd task (set_in_wait_queue false) (set_wq q l s) in
      s ← unblock_task c task resched s; Done (true, s)
  end.

(** The loop pops until the queue is empty: one round per task and a last
    one. *)
Fixpoint notify_all_locked (fuel : nat) (c : Z) (q : wq_id) (resched : bool) s
    : outcome (sys S H) :=
  match fuel with
  | O => Panic
  | Datatypes.S fuel =>
      r ← notify_one_locked c q resched s;
      if r.1 : bool then notify_all_locked fuel c q resched r.2 else Done r.2
  end.

Definition notify_one (c : Z) (q : wq_id) (resched : bool) s : outcome (bool * sys S H) :=
  match wqs s q with
  | [] => Done (false, s)
  | _ => notify_one_locked c q resched s
  end.

(** One round of [notify_all], which takes the lock anew in every round;
    [false] when the loop ends. *)
Definition notify_all_round (c : Z) (q : wq_id) (resched : bool) s : outcome (bool * sys S H) :=
  notify_one_locked c q resched s.

Definition notify_task (c : Z) (q : wq_id) (resched : bool) (task : Z) s
    : outcome (bool * sys S H) :=
  match list_find (λ t, t = task) (wqs s q) with
  | Some (index, t) =>
      let s := upd task (set_in_wait_queue false) s in
      let s := set_wq q (delete index (wqs s q)) s in
      s ← unblock_task c t resched s; Done (true, s)
  | None => Done (false, s)
  end.

Definition notify_exit (c task code : Z) s : outcome (sys S H) :=
  let s := upd task (set_exit_code code) s in
  notify_all_locked (Datatypes.S (length (wqs s (WqJoin task)))) c (WqJoin task) false s.

(** ** Blocking *)

Definition exit_current (c code : Z) s : outcome (sys S H) :=
  let curr := cur s c in
  _ ← assert_true (is_running (tasks s curr));
  _ ← assert_true (negb (is_idle (tasks s curr)));
  if is_init (tasks s curr) then Done (terminate (set_exited [] s))
  else
    s ← notify_exit c curr code (upd curr (set_state Exited) s);
    let s := set_exited (exited_tasks s ++ [curr]) s in
    r ← notify_one_locked c WqGc false s;
    resched c false r.2.

Definition block_current (c : Z) (wait_queue_push : Z → sys S H → sys S H) s
    : outcome (sys S H) :=
  let curr := cur s c in
  _ ← assert_true (is_running (tasks s curr));
  _ ← assert_true (negb (is_idle (tasks s curr)));
  _ ← assert_true (can_preempt 1 (tasks s curr));
  let s := upd curr (set_state Blocked) s in
  resched c false (wait_queue_push curr s).

(** The closure passed to [block_current] by all the waiting functions. *)
Definition wq_push (q : wq_id) (task : Z) s : sys S H :=
  let s := upd task (set_in_wait_queue true) s in
  set_wq q (wqs s q ++ [task]) s.

(** ** Timers ([timers.rs]) *)

Definition set_alarm_wakeup (deadline task : Z) s : sys S H :=
  let s := upd task (set_in_timer_list true) s in
  set_timers (tl_set deadline task (timers s)) s.

Definition cancel_alarm (task : Z) s : sys S H :=
  let s := upd task (set_in_timer_list false) s in
  set_timers (tl_cancel (λ t, bool_decide (t = task)) (timers s)) s.

(** [TaskWakeupEvent::callback]. *)
Definition wakeup_callback (c task : Z) s : outcome (sys S H) :=
  let s := upd task (set_in_timer_list false) s in unblock_task c task true s.

(** The first half of a round of [check_events]: the event taken. *)
Definition take_event (now : Z) s : option Z * sys S H :=
  let '(o, h) := expire_one now (timers s) in (snd <$> o, set_timers h s).

Definition sleep_until (c now deadline : Z) s : outcome (sys S H) :=
  let curr := cur s c in
  _ ← assert_true (is_running (tasks s curr));
  _ ← assert_true (negb (is_idle (tasks s curr)));
  if now <? deadline then
    let s := set_alarm_wakeup deadline curr s in
    resched c false (upd curr (set_state Blocked) s)
  else Done s.

(** ** Waiting ([wait_queue.rs]) *)

Definition cancel_events (q : wq_id) (curr : Z) s : sys S H :=
  let s := if in_wait_queue (tasks s curr)
           then upd curr (set_in_wait_queue false)
                  (set_wq q (filter (λ t, t ≠ curr) (wqs s q)) s)
           else s in
  if in_timer_list (tasks s curr) then cancel_alarm curr s else s.

(** [wait] up to the context switch; [cancel_events] follows when the task
    runs again. *)
Definition wait (c : Z) (q : wq_id) s : outcome (sys S H) := block_current c (wq_push q) s.

(** One round of [wait_until] for the value of the condition: [true] when
    the loop is left, otherwise the task has been blocked. *)
Definition wait_until_round (c : Z) (q : wq_id) (condition : bool) s : outcome (bool * sys S H) :=
  if condition then Done (true, s)
  else s ← block_current c (wq_push q) s; Done (false, s).

(** [wait_timeout]: the alarm is set before the run queue is locked; then the
    task blocks; running again, it tells whether it timed out. *)
Definition wait_timeout_begin (c now dur : Z) s : sys S H := set_alarm_wakeup (now + dur) (cur s c) s.
Definition wait_timeout_block (c : Z) (q : wq_id) s : outcome (sys S H) :=
  block_current c (wq_push q) s.
Definition wait_timeout_end (c : Z) (q : wq_id) s : bool * sys S H :=
  let curr := cur s c in
  (in_wait_queue (tasks s curr), cancel_events q curr s).

(** One round of [wait_timeout_until]: the result when the loop is left. *)
Definition wait_timeout_until_round (c : Z) (q : wq_id) (now deadline : Z) (condition : bool) s
    : outcome (option bool * sys S H) :=
  if now <? deadline then
    if condition then Done (Some false, s)
    else s ← block_current c (wq_push q) s; Done (None, s)
  else Done (Some true, s).

(** [join]: one round of the wait, and the exit code when it is left. *)
Definition join_round (c task : Z) s : outcome (option Z * sys S H) :=
  r ← wait_until_round c (WqJoin task) (bool_decide (state (tasks s task) = Exited)) s;
  Done (if r.1 : bool then Some (exit_code (tasks r.2 task)) else None, r.2).

(** ** Preemption *)

Definition disable_preempt (task : Z) s : sys S H :=
  upd task (λ t, set_preempt_count (wadd (preempt_disable_count t) 1) t) s.

(** [current_check_preempt_pending]; the lock of the run queue disables
    preemption once, and [enable_preempt] is called again when the task runs
    again and drops the lock. *)
Definition current_check_preempt_pending (c : Z) s : outcome (sys S H) :=
  let curr := cur s c in
  if need_resched (tasks s curr) && can_preempt 0 (tasks s curr)
  then preempt_resched c (disable_preempt curr s)
  else Done s.

Definition enable_preempt (c : Z) (resched : bool) s : outcome (sys S H) :=
  let curr := cur s c in
  let old := preempt_disable_count (tasks s curr) in
  let s := upd curr (set_preempt_count (wsub old 1)) s in
  if (old =? 1) && resched then current_check_preempt_pending c s else Done s.

(** ** The API ([api.rs]) and the garbage collector *)

Definition new_task (t : TaskInner) s : Z * sys S H :=
  (next_id s,
   {| rq := rq s; tasks := <[next_id s := t]> (tasks s); wqs := wqs s; timers := timers s;
      cur := cur s; idle_of := idle_of s; exited_tasks := exited_tasks s;
      next_id := next_id s + 1; terminated := terminated s |}).

Definition spawn_raw (n : string) s : outcome (Z * sys S H) :=
  let '(task, s) := new_task (task_new n) s in
  s ← rq_add_task task s; Done (task, s).

(** One pass of the loop of [gc_entry] over the exited tasks; [unique] tells
    whether [Arc::strong_count] is one. *)
Fixpoint gc_pass (n : nat) (unique : Z → bool) (l : list Z) : list Z :=
  match n, l with
  | O, _ | _, [] => l
  | Datatypes.S n, task :: l => gc_pass n unique (if unique task then l else l ++ [task])
  end.

Definition gc_round (unique : Z → bool) s : sys S H :=
  set_exited (gc_pass (length (exited_tasks s)) unique (exited_tasks s)) s.

(** [init] on CPU [c]: the idle task, the main task, which is running, and
    the run queue with the task of the garbage collector. *)
Definition rq_init (c : Z) : outcome (sys S H) :=
  let s := {| rq := sched_new; tasks := λ _, new_common ""; wqs := λ _, []; timers := tl_new;
              cur := λ _, 0; idle_of := λ _, 0; exited_tasks := []; next_id := 1;
              terminated := false |} in
  let '(idle, s) := new_task (task_new "idle") s in
  let '(main, s) := new_task (task_new_init "main") s in
  let s := upd main (set_state Running) s in
  let '(gc, s) := new_task (task_new "gc") s in
  q ← add_task gc (rq s);
  Done {| rq := q; tasks := tasks s; wqs := wqs s; timers := timers s;
          cur := <[c := main]> (cur s); idle_of := <[c := idle]> (idle_of s);
          exited_tasks := []; next_id := next_id s; terminated := false |}.

(** [init_secondary]: the idle task of another CPU, which is running. *)
Definition rq_init_secondary (c : Z) s : sys S H :=
  let '(idle, s) := new_task (task_new_init "idle") s in
  let s := upd idle (set_state Running) s in
  {| rq := rq s; tasks := tasks s; wqs := wqs s; timers := timers s;
     cur := <[c := idle]> (cur s); idle_of := <[c := idle]> (idle_of s);
     exited_tasks := exited_tasks s; next_id := next_id s; terminated := terminated s |}.

End axtask.
