(* ===== verification/AxTaskSpec.v ===== *)
(** * No task is lost

    The invariant of the task system of [AxTask.v], kept by every step of
    every CPU in any interleaving, and what the steps guarantee. *)

From S2P Require Import Prelude Scheduler TimerList LinkedList AxTask.
From stdpp Require Import base numbers sets gmap functions strings list.

Open Scope Z_scope.

(** ** The invariant *)

Section axtask_proofs.
Context {S : Type} `{BS : !BaseScheduler S} {ready : S → list Z → Prop}.
Context `{SL : !SchedulerLaws S ready (λ _, True)}.
Context {H : Type} `{MH : !MinHeap H Z} {elems : H → list (TimerEventWrapper Z)}.
Context `{HL : !MinHeapLaws H Z elems}.
Implicit Types (s : sys S H) (c t : Z) (l pend cpus : list Z) (ex : option Z).

Definition spawned s t : Prop := 0 < t < next_id s.

(** Where a wake-up of [t] can come from: a wait queue, the timer list, or
    an event already taken from one of them. *)
Definition waker s pend t : Prop :=
  t ∈ pend ∨ (∃ q, t ∈ wqs s q) ∨ (∃ e, e ∈ elems (timers s) ∧ event e = t).

(** [l] is the ready queue.  With [ex = Some c], CPU [c] is between two
    tasks. *)
Record tinv ex cpus s l pend : Prop := {
  ti_next : 0 < next_id s;
  ti_ready : ready (rq s) l;
  ti_l t : t ∈ l → spawned s t ∧ state (tasks s t) = Ready ∧ is_idle (tasks s t) = false;
  ti_cur c : c ∈ cpus → Some c ≠ ex → spawned s (cur s c) ∧ state (tasks s (cur s c)) = Running;
  ti_inj c c' : c ∈ cpus → c' ∈ cpus → Some c ≠ ex → Some c' ≠ ex → cur s c = cur s c' → c = c';
  ti_running t : spawned s t → state (tasks s t) = Running →
    ∃ c, c ∈ cpus ∧ Some c ≠ ex ∧ cur s c = t;
  ti_ready_in t : spawned s t → state (tasks s t) = Ready → is_idle (tasks s t) = false → t ∈ l;
  ti_idle c : c ∈ cpus → spawned s (idle_of s c) ∧ is_idle (tasks s (idle_of s c)) = true;
  ti_idle_inj c c' : c ∈ cpus → c' ∈ cpus → idle_of s c = idle_of s c' → c = c';
  ti_idle_own t : spawned s t → is_idle (tasks s t) = true →
    ∃ c, c ∈ cpus ∧ t = idle_of s c ∧
      (state (tasks s t) = Ready ∨ state (tasks s t) = Running ∧ cur s c = t ∧ Some c ≠ ex);
  ti_wakers t : waker s pend t → spawned s t;
  ti_blocked t : spawned s t → state (tasks s t) = Blocked → waker s pend t;
}.

(** *** Updates of single tasks *)

Lemma tasks_upd_eq t f s : tasks (upd t f s) t = f (tasks s t).
Proof. apply fn_lookup_insert. Qed.

Lemma tasks_upd_ne t t' f s : t ≠ t' → tasks (upd t f s) t' = tasks s t'.
Proof. intros. by apply fn_lookup_insert_ne. Qed.

Lemma state_upd_state t t' st s :
  state (tasks (upd t (set_state st) s) t') = if decide (t = t') then st else state (tasks s t').
Proof. case_decide; subst; [by rewrite tasks_upd_eq|by rewrite tasks_upd_ne]. Qed.

(** A field that the update [f] keeps. *)
Lemma field_upd {X} (p : TaskInner → X) t f s t' :
  (∀ x, p (f x) = p x) → p (tasks (upd t f s) t') = p (tasks s t').
Proof.
  intros Hp. destruct (decide (t = t')) as [<-|Hne]; [by rewrite tasks_upd_eq|by rewrite tasks_upd_ne].
Qed.

(** Changes that keep the invariant: everything but flags is the same, and
    no wake-up of a blocked task is lost. *)
Lemma tinv_frame ex cpus s s' l pend pend' :
  rq s' = rq s → cur s' = cur s → idle_of s' = idle_of s → next_id s' = next_id s →
  (∀ t, state (tasks s' t) = state (tasks s t)) →
  (∀ t, is_idle (tasks s' t) = is_idle (tasks s t)) →
  (∀ t, waker s' pend' t → spawned s t) →
  (∀ t, spawned s t → state (tasks s t) = Blocked → waker s pend t → waker s' pend' t) →
  tinv ex cpus s l pend → tinv ex cpus s' l pend'.
Proof.
  intros Hrq Hcur Hid Hn Hst Hidle Hw Hb [].
  assert (∀ t, spawned s' t ↔ spawned s t) as Hsp by (intros; unfold spawned; by rewrite Hn).
  split; intros; rewrite ?Hn, ?Hrq, ?Hcur, ?Hid, ?Hst, ?Hidle, ?Hsp in *; eauto.
Qed.

(** Other flags of a task do not matter. *)
Lemma tinv_flag ex cpus s l pend t f :
  (∀ x, state (f x) = state x) → (∀ x, is_idle (f x) = is_idle x) →
  tinv ex cpus s l pend → tinv ex cpus (upd t f s) l pend.
Proof.
  intros Hst Hid Hi. eapply tinv_frame; [..|exact Hi]; try done.
  - intros. by apply field_upd.
  - intros. by apply (field_upd is_idle).
  - apply Hi.
Qed.

(** *** Waking up *)

(** Waking tasks up leaves everything but states, flags and wait queues
    alone. *)
Record wakes s s' : Prop := {
  wk_timers : timers s' = timers s;
  wk_cur : cur s' = cur s;
  wk_idle_of : idle_of s' = idle_of s;
  wk_next : next_id s' = next_id s;
  wk_exited : exited_tasks s' = exited_tasks s;
  wk_term : terminated s' = terminated s;
  wk_state t : state (tasks s' t) = state (tasks s t) ∨
    state (tasks s t) = Blocked ∧ state (tasks s' t) = Ready;
  wk_idle t : is_idle (tasks s' t) = is_idle (tasks s t);
  wk_init t : is_init (tasks s' t) = is_init (tasks s t);
  wk_code t : exit_code (tasks s' t) = exit_code (tasks s t);
}.

Lemma wakes_refl s : wakes s s.
Proof. split; auto. Qed.

Lemma wakes_trans s1 s2 s3 : wakes s1 s2 → wakes s2 s3 → wakes s1 s3.
Proof.
  intros [] []. split; try congruence; intros t.
  destruct (wk_state0 t) as [H1|[H1 H2]], (wk_state1 t) as [H3|[H3 H4]]; rewrite ?H3, ?H1 in *;
    auto; right; split; congruence.
Qed.

(** Updates of other flags. *)
Lemma wakes_upd s t f :
  (∀ x, state (f x) = state x) → (∀ x, is_idle (f x) = is_idle x) →
  (∀ x, is_init (f x) = is_init x) → (∀ x, exit_code (f x) = exit_code x) →
  wakes s (upd t f s).
Proof.
  intros. split; try done; intros t'; [left| | |]; by apply field_upd.
Qed.

Lemma blocked_not_idle ex cpus s l pend t :
  tinv ex cpus s l pend → spawned s t → state (tasks s t) = Blocked → is_idle (tasks s t) = false.
Proof.
  intros Hi Hs Hb. destruct (is_idle (tasks s t)) eqn:Hid; [|done].
  destruct (ti_idle_own _ _ _ _ _ Hi t Hs Hid) as (c & _ & _ & [?|[? _]]); congruence.
Qed.

Lemma unblock_spec ex cpus c s l pend t b :
  tinv ex cpus s l (t :: pend) →
  ∃ s' l', unblock_task c t b s = Done s' ∧ tinv ex cpus s' l' pend ∧ wakes s s' ∧ wqs s' = wqs s ∧
    (state (tasks s t) = Blocked → state (tasks s' t) = Ready) ∧
    (∀ t', t' ∈ l' ↔ t' ∈ l ∨ t' = t ∧ state (tasks s t) = Blocked).
Proof.
  intros Hi. unfold unblock_task, is_blocked.
  assert (spawned s t) as Hs by (apply (ti_wakers _ _ _ _ _ Hi); left; left).
  case_bool_decide as Hb.
  2: { exists s, l. split; [done|]. split; [|split; [apply wakes_refl|naive_solver]].
    eapply tinv_frame; [..|exact Hi]; try done.
    - intros t' [?|?]; apply (ti_wakers _ _ _ _ _ Hi); [left; by right|by right].
    - intros t' _ Hb' [Hin|?]; [|by right]. apply elem_of_cons in Hin as [->|?]; [done|by left]. }
  assert (t ∉ l) as Hl by (intros Hl; destruct (ti_l _ _ _ _ _ Hi t Hl) as (_ & ? & _); congruence).
  destruct (law_add (rq s) l t (ti_ready _ _ _ _ _ Hi) I Hl) as (q & l' & Hadd & Hq & Hl').
  simpl. rewrite Hadd. simpl.
  set (s1 := set_rq q (upd t (set_state Ready) s)).
  assert (∀ t', state (tasks s1 t') = if decide (t = t') then Ready else state (tasks s t')) as Hst
    by (intros; apply state_upd_state).
  assert (tinv ex cpus s1 l' pend) as Hi1.
  { pose proof (blocked_not_idle _ _ _ _ _ t Hi Hs Hb) as Hnid.
    assert (∀ t', is_idle (tasks s1 t') = is_idle (tasks s t')) as Hid
      by (intros; by apply (field_upd is_idle)).
    destruct Hi. split; try done.
    - intros t'. rewrite Hl'. rewrite Hst, Hid. intros [->|Hin]%elem_of_cons; [by rewrite decide_True|].
      case_decide; [by subst|]. by apply ti_l0.
    - intros c' Hc' Hex. destruct (ti_cur0 c' Hc' Hex) as [? Hr]. split; [done|].
      rewrite Hst. change (cur s1) with (cur s). case_decide; [congruence|done].
    - intros t' Hs'. rewrite Hst. case_decide; [done|]. auto.
    - intros t' Hs'. rewrite Hst, Hid, Hl'. case_decide; [subst; left|right; auto].
    - intros c' Hc'. rewrite Hid. by apply ti_idle0.
    - intros t' Hs'. rewrite Hst, Hid. intros Ht'. case_decide; [congruence|]. auto.
    - intros t' [?|?]; apply ti_wakers0; [left; by right|by right].
    - intros t' Hs'. rewrite Hst. case_decide; [done|]. intros Hb'.
      destruct (ti_blocked0 t' Hs' Hb') as [Hin|?]; [|by right].
      apply elem_of_cons in Hin as [->|?]; [done|by left]. }
  assert (wakes s s1) as Hsame.
  { split; try done; intros t'; try (by apply (field_upd is_idle)); try (by apply (field_upd is_init));
      try (by apply (field_upd exit_code)).
    rewrite Hst. case_decide; [subst; by right|by left]. }
  assert (state (tasks s1 t) = Ready) as Hst1 by (by rewrite Hst, decide_True).
  assert (∀ t', t' ∈ l' ↔ t' ∈ l ∨ t' = t ∧ state (tasks s t) = Blocked) as Hmem.
  { intros t'. rewrite Hl', elem_of_cons. tauto. }
  destruct b; [|by exists s1, l'].
  exists (upd (cur s1 c) (set_preempt_pending true) s1), l'. split; [done|].
  split; [by apply tinv_flag|]. split; [|split; [done|split; [|done]]].
  - eapply wakes_trans; [exact Hsame|]. by apply wakes_upd.
  - by rewrite (field_upd state).
Qed.

(** *** The context switch *)

Lemma cur_switch c t s : cur (switch_to c (cur s c) t s) = <[c := t]> (cur s) ∨
  cur (switch_to c (cur s c) t s) = cur s ∧ cur s c = t.
Proof. unfold switch_to. case_decide; [by right|by left]. Qed.

Lemma tasks_switch c p t s :
  tasks (switch_to c p t s) = tasks (upd t (set_state Running) (upd t (set_preempt_pending false) s)).
Proof. unfold switch_to. by case_decide. Qed.

Lemma switch_spec cpus c s l l' pend q t :
  tinv (Some c) cpus s l pend → c ∈ cpus → ready q l' →
  spawned s t → state (tasks s t) = Ready →
  (∀ t', t' ∈ l' ↔ t' ∈ l ∧ t' ≠ t) → (is_idle (tasks s t) = true → t = idle_of s c) →
  tinv None cpus (switch_to c (cur s c) t (set_rq q s)) l' pend.
Proof.
  intros Hi Hc Hq Hs Hst Hmem Hown. set (s' := switch_to c (cur s c) t (set_rq q s)).
  assert (∀ t', state (tasks s' t') = if decide (t = t') then Running else state (tasks s t')) as Hst'.
  { intros t'. subst s'. rewrite tasks_switch, state_upd_state. case_decide; [done|].
    by rewrite (field_upd state). }
  assert (∀ t', is_idle (tasks s' t') = is_idle (tasks s t')) as Hid'.
  { intros t'. subst s'. by rewrite tasks_switch, !(field_upd is_idle). }
  assert (∀ c', cur s' c' = if decide (c = c') then t else cur s c') as Hcur.
  { intros c'. destruct (cur_switch c t (set_rq q s)) as [Heq|[Heq Heq']];
      change (cur s') with (cur (switch_to c (cur (set_rq q s) c) t (set_rq q s))); rewrite Heq.
    - case_decide; subst; [by rewrite fn_lookup_insert|by rewrite fn_lookup_insert_ne].
    - case_decide; by subst. }
  assert (rq s' = q ∧ wqs s' = wqs s ∧ timers s' = timers s ∧ idle_of s' = idle_of s ∧
    next_id s' = next_id s) as (Hrq & Hwq & Htm & Hido & Hn)
    by (subst s'; unfold switch_to; by case_decide).
  assert (∀ t', spawned s' t' ↔ spawned s t') as Hsp by (intros; unfold spawned; by rewrite Hn).
  assert (∀ t', waker s' pend t' ↔ waker s pend t') as Hw
    by (intros; unfold waker; by rewrite Hwq, Htm).
  assert (∀ c', c' ∈ cpus → c ≠ c' → cur s c' ≠ t) as Hoth.
  { intros c' Hc' Hne Heq. destruct (ti_cur _ _ _ _ _ Hi c' Hc') as [_ Hr]; [congruence|].
    rewrite Heq in Hr. congruence. }
  clearbody s'. destruct Hi. split; try done.
  - by rewrite Hn.
  - by rewrite Hrq.
  - intros t'. rewrite Hmem, Hst', Hid', Hsp. intros [Hin Hne]. rewrite decide_False by done. auto.
  - intros c' Hc' _. rewrite Hcur, Hst', Hsp. case_decide as Heq; [by rewrite decide_True|].
    destruct (ti_cur0 c' Hc') as [??]; [congruence|]. split; [done|]. by case_decide.
  - intros c1 c2 H1 H2 _ _. rewrite !Hcur. repeat case_decide; subst; try done.
    + intros Heq. by destruct (Hoth c2).
    + intros Heq. by destruct (Hoth c1).
    + apply ti_inj0; congruence.
  - intros t' Hs'. rewrite Hst'. case_decide as Heq; [subst; intros _; exists c|].
    + by rewrite Hcur, decide_True.
    + intros Hr. rewrite Hsp in Hs'. destruct (ti_running0 t' Hs' Hr) as (c' & Hc' & Hex & Hcc).
      exists c'. split_and!; [done|done|]. rewrite Hcur, decide_False; [done|congruence].
  - intros t' Hs'. rewrite Hst', Hid', Hmem. case_decide; [done|]. rewrite Hsp in Hs'. auto.
  - intros c' Hc'. rewrite Hido, Hid', Hsp. by apply ti_idle0.
  - rewrite Hido. apply ti_idle_inj0.
  - intros t' Hs'. rewrite Hid', Hido, Hst'. intros Ht'. rewrite Hsp in Hs'.
    destruct (ti_idle_own0 t' Hs' Ht') as (c' & Hc' & -> & Hor). exists c'. split_and!; [done..|].
    destruct (decide (t = idle_of s c')) as [->|Hne].
    + right. assert (c' = c) as -> by (apply ti_idle_inj0; auto).
      split_and!; [done|by rewrite Hcur, decide_True|done].
    + destruct Hor as [?|(? & Hcc & Hex)]; [by left|]. right. split_and!; [done| |done].
      rewrite Hcur, decide_False; [done|congruence].
  - intros t' Ht'. rewrite Hw in Ht'. rewrite Hsp. auto.
  - intros t' Hs'. rewrite Hst', Hw. case_decide; [done|]. rewrite Hsp in Hs'. auto.
Qed.

Lemma pick_and_switch_spec cpus c s l pend :
  tinv (Some c) cpus s l pend → c ∈ cpus →
  ∃ s' l', pick_and_switch c s = Done s' ∧ tinv None cpus s' l' pend ∧
    (∀ t, t ∈ l' → t ∈ l) ∧ (∀ t, t ∈ l → t ∈ l' ∨ cur s' c = t) ∧
    wqs s' = wqs s ∧ timers s' = timers s ∧ next_id s' = next_id s ∧
    (∀ t, exit_code (tasks s' t) = exit_code (tasks s t)) ∧
    (∀ t, state (tasks s t) ≠ Ready → state (tasks s' t) = state (tasks s t)).
Proof.
  intros Hi Hc. unfold pick_and_switch.
  destruct (law_pick (rq s) l (ti_ready _ _ _ _ _ Hi)) as (o & q & Hpick & Ho).
  unfold mbind, outcome_bind. rewrite Hpick. simpl.
  set (t := default (idle_of s c) o).
  assert (∃ l', ready q l' ∧ spawned s t ∧ state (tasks s t) = Ready ∧
    (∀ t', t' ∈ l' ↔ t' ∈ l ∧ t' ≠ t) ∧ (is_idle (tasks s t) = true → t = idle_of s c))
    as (l' & Hq & Hs & Hst & Hmem & Hown).
  { destruct o as [t0|]; subst t; simpl.
    - destruct Ho as (l' & Hq & Hp). exists l'.
      destruct (ti_l _ _ _ _ _ Hi t0) as (Hs & Hst & Hid); [rewrite Hp; left|].
      split_and!; try done; [|congruence]. intros t'. rewrite Hp, elem_of_cons.
      pose proof (law_nodup (rq s) l (ti_ready _ _ _ _ _ Hi)) as Hnd. rewrite Hp in Hnd.
      apply NoDup_cons in Hnd as [Hnin _]. split; [|naive_solver].
      intros Hin. split; [by right|]. by intros ->.
    - destruct Ho as [-> Hq]. exists []. destruct (ti_idle _ _ _ _ _ Hi c Hc) as [Hs Hid].
      destruct (ti_idle_own _ _ _ _ _ Hi _ Hs Hid) as (c' & Hc' & Heq & Hor).
      split_and!; try done; [|intros; rewrite elem_of_nil; tauto].
      destruct Hor as [?|(_ & _ & Hex)]; [done|].
      by rewrite (ti_idle_inj _ _ _ _ _ Hi c c' Hc Hc' Heq) in Hex. }
  eexists _, l'. split; [done|].
  split; [by eapply switch_spec|]. split; [intros t'; rewrite Hmem; tauto|].
  assert (cur (switch_to c (cur s c) t (set_rq q s)) c = t) as Hcur.
  { destruct (cur_switch c t (set_rq q s)) as [Heq|[Heq Heq']]; simpl in *; rewrite Heq; [|done].
    by rewrite fn_lookup_insert. }
  split_and!.
  - intros t' Ht'. rewrite Hmem, Hcur. destruct (decide (t' = t)); auto.
  - unfold switch_to. by case_decide.
  - unfold switch_to. by case_decide.
  - unfold switch_to. by case_decide.
  - intros t'. by rewrite tasks_switch, !(field_upd exit_code).
  - intros t' Ht'. assert (t ≠ t') by congruence. by rewrite tasks_switch, !tasks_upd_ne.
Qed.

(** The current task goes back to the ready queue. *)
Lemma put_current_spec cpus c s l pend preempt :
  tinv None cpus s l pend → c ∈ cpus →
  ∃ s' l', put_current c preempt s = Done s' ∧ tinv (Some c) cpus s' l' pend.
Proof.
  intros Hi Hc. destruct (ti_cur _ _ _ _ _ Hi c Hc) as [Hs Hr]; [done|]. unfold put_current.
  unfold is_running. rewrite bool_decide_true by done.
  set (prev := cur s c) in *. set (s1 := upd prev (set_state Ready) s).
  assert (∀ t', state (tasks s1 t') = if decide (prev = t') then Ready else state (tasks s t')) as Hst
    by (intros; apply state_upd_state).
  assert (∀ t', is_idle (tasks s1 t') = is_idle (tasks s t')) as Hid
    by (intros; by apply (field_upd is_idle)).
  assert (prev ∉ l) as Hl.
  { intros Hin. destruct (ti_l _ _ _ _ _ Hi prev Hin) as (_ & ? & _). congruence. }
  assert (∀ q l', ready q l' →
    (∀ t', t' ∈ l' ↔ t' ∈ l ∨ t' = prev ∧ is_idle (tasks s prev) = false) →
    tinv (Some c) cpus (set_rq q s1) l' pend) as Hgen.
  { intros q l' Hq Hmem. destruct Hi. split; try done.
    - intros t'. rewrite Hmem. intros [Hin|[-> Hnid]].
      + destruct (ti_l0 t' Hin) as (? & ? & ?). split; [done|].
        change (tasks (set_rq q s1)) with (tasks s1). rewrite Hst, Hid. case_decide; by subst.
      + split; [done|]. change (tasks (set_rq q s1)) with (tasks s1).
        by rewrite Hst, Hid, decide_True.
    - intros c' Hc' Hex. change (cur (set_rq q s1)) with (cur s).
      change (tasks (set_rq q s1)) with (tasks s1).
      destruct (ti_cur0 c' Hc') as [? Hr']; [done|]. split; [done|]. rewrite Hst.
      case_decide as Heq; [|done]. exfalso. apply Hex. f_equal. symmetry.
      by apply ti_inj0.
    - intros c1 c2 H1 H2 _ _. by apply ti_inj0.
    - intros t' Hs'. change (tasks (set_rq q s1)) with (tasks s1). rewrite Hst.
      case_decide; [done|]. intros Hr'. destruct (ti_running0 t' Hs' Hr') as (c' & Hc' & _ & Hcc).
      exists c'. split_and!; [done| |done]. intros Heq. simplify_eq.
    - intros t' Hs'. change (tasks (set_rq q s1)) with (tasks s1). rewrite Hst, Hid, Hmem.
      case_decide; [subst; auto|]. left. auto.
    - intros c' Hc'. change (tasks (set_rq q s1)) with (tasks s1).
      change (idle_of (set_rq q s1)) with (idle_of s). rewrite Hid. by apply ti_idle0.
    - intros t' Hs'. change (tasks (set_rq q s1)) with (tasks s1). rewrite Hst, Hid. intros Ht'.
      destruct (ti_idle_own0 t' Hs' Ht') as (c' & Hc' & -> & Hor). exists c'.
      split_and!; [done..|]. case_decide as Heq; [by left|].
      destruct Hor as [?|(? & Hcc & _)]; [by left|]. right. split_and!; [done..|].
      intros Hex. by simplify_eq.
    - intros t' Hs'. change (tasks (set_rq q s1)) with (tasks s1). rewrite Hst.
      case_decide; [done|]. apply ti_blocked0, Hs'. }
  change (is_idle (tasks s1 prev)) with (is_idle (tasks (upd prev (set_state Ready) s) prev)).
  fold s1. rewrite Hid. destruct (is_idle (tasks s prev)) eqn:Hidle.
  - exists s1, l. split; [done|]. apply (Hgen (rq s) l (ti_ready _ _ _ _ _ Hi)).
    intros t'. split; [auto|]. by intros [?|[_ ?]].
  - destruct (law_put (rq s) l prev preempt (ti_ready _ _ _ _ _ Hi) I Hl) as (q & l' & Hput & Hq & Hp).
    change (rq s1) with (rq s). unfold mbind, outcome_bind. rewrite Hput.
    eexists _, l'. split; [done|]. apply (Hgen q l' Hq). intros t'. rewrite Hp, elem_of_cons. tauto.
Qed.

Lemma resched_running cpus c s l pend preempt :
  tinv None cpus s l pend → c ∈ cpus →
  ∃ s' l', resched c preempt s = Done s' ∧ tinv None cpus s' l' pend.
Proof.
  intros Hi Hc. destruct (put_current_spec cpus c s l pend preempt Hi Hc) as (s1 & l1 & Hput & Hi1).
  destruct (pick_and_switch_spec cpus c s1 l1 pend Hi1 Hc) as (s2 & l2 & Hpick & Hi2 & _).
  exists s2, l2. split; [|done]. unfold resched, mbind, outcome_bind. by rewrite Hput.
Qed.

(** A task that is no longer running leaves its CPU. *)
Lemma resched_stopped cpus c s l pend :
  tinv (Some c) cpus s l pend → c ∈ cpus → state (tasks s (cur s c)) ≠ Running →
  resched c false s = pick_and_switch c s.
Proof.
  intros Hi Hc Hr. unfold resched, put_current, is_running. by rewrite bool_decide_false.
Qed.

(** The current task stops running. *)
Lemma stop_current cpus c s l pend pend' st :
  tinv None cpus s l pend → c ∈ cpus → is_idle (tasks s (cur s c)) = false →
  st = Blocked ∧ pend' = cur s c :: pend ∨ st = Exited ∧ pend' = pend →
  tinv (Some c) cpus (upd (cur s c) (set_state st) s) l pend'.
Proof.
  intros Hi Hc Hnid Hst'. destruct (ti_cur _ _ _ _ _ Hi c Hc) as [Hs Hr]; [done|].
  set (prev := cur s c) in *. set (s1 := upd prev (set_state st) s).
  assert (∀ t', state (tasks s1 t') = if decide (prev = t') then st else state (tasks s t')) as Hst
    by (intros; apply state_upd_state).
  assert (∀ t', is_idle (tasks s1 t') = is_idle (tasks s t')) as Hid
    by (intros; by apply (field_upd is_idle)).
  assert (st ≠ Ready ∧ st ≠ Running) as [Hn1 Hn2] by (destruct Hst' as [[-> _]|[-> _]]; done).
  destruct Hi. split; try done.
  - intros t' Hin. destruct (ti_l0 t' Hin) as (? & ? & ?). rewrite Hst, Hid. split; [done|].
    case_decide; [congruence|done].
  - intros c' Hc' Hex. change (cur s1) with (cur s). rewrite Hst.
    destruct (ti_cur0 c' Hc') as [? Hr']; [done|]. split; [done|].
    case_decide as Heq; [|done]. exfalso. apply Hex. f_equal. symmetry. by apply ti_inj0.
  - intros c1 c2 H1 H2 _ _. by apply ti_inj0.
  - intros t' Hs'. rewrite Hst. case_decide; [done|]. intros Hr'.
    destruct (ti_running0 t' Hs' Hr') as (c' & Hc' & _ & Hcc).
    exists c'. split_and!; [done| |done]. intros Heq. simplify_eq.
  - intros t' Hs'. rewrite Hst, Hid. case_decide; [done|]. by apply ti_ready_in0.
  - intros c' Hc'. rewrite Hid. by apply ti_idle0.
  - intros t' Hs'. rewrite Hst, Hid. intros Ht'.
    destruct (ti_idle_own0 t' Hs' Ht') as (c' & Hc' & -> & Hor). exists c'.
    split_and!; [done..|]. rewrite decide_False by congruence.
    destruct Hor as [?|(? & Hcc & _)]; [by left|]. right. split_and!; [done..|].
    intros [= ->]. assert (prev = idle_of s c) as Hp by exact Hcc. rewrite <- Hp in Ht'. congruence.
  - intros t' Hw. destruct Hst' as [[_ ->]|[_ ->]]; [|by apply ti_wakers0].
    destruct Hw as [[->|?]%elem_of_cons|?]; [done|..]; apply ti_wakers0; [by left|by right].
  - intros t' Hs'. rewrite Hst. destruct Hst' as [[-> ->]|[-> ->]].
    + case_decide; [subst; left; left|]. intros Hb. destruct (ti_blocked0 t' Hs' Hb) as [?|?];
        [left; by right|by right].
    + case_decide; [done|]. by apply ti_blocked0.
Qed.

(** *** The operations *)

(** A task taken out of a wait queue is about to be woken. *)
Lemma tinv_pop ex cpus s l pend q t l1 l2 :
  tinv ex cpus s l pend → wqs s q = l1 ++ t :: l2 →
  tinv ex cpus (set_wq q (l1 ++ l2) s) l (t :: pend).
Proof.
  intros Hi Hq. eapply tinv_frame; [..|exact Hi]; try done.
  - intros t' [[->|?]%elem_of_cons|[[q' Hin]|?]]; apply (ti_wakers _ _ _ _ _ Hi).
    + right; left. exists q. rewrite Hq. set_solver.
    + by left.
    + right; left. simpl in Hin. destruct (decide (q = q')) as [<-|Hne].
      * rewrite fn_lookup_insert in Hin. exists q. rewrite Hq. set_solver.
      * rewrite fn_lookup_insert_ne in Hin by done. by exists q'.
    + by right; right.
  - intros t' _ _ [?|[[q' Hin]|?]]; [left; by right| |by right; right].
    destruct (decide (q = q')) as [<-|Hne].
    + rewrite Hq in Hin. destruct (decide (t' = t)) as [->|]; [left; left|].
      right; left. exists q. simpl. rewrite fn_lookup_insert. set_solver.
    + right; left. exists q'. simpl. by rewrite fn_lookup_insert_ne.
Qed.

Lemma notify_one_locked_spec ex cpus c s l pend q b :
  tinv ex cpus s l pend →
  match wqs s q with
  | [] => notify_one_locked c q b s = Done (false, s)
  | t :: r =>
      ∃ s' l', notify_one_locked c q b s = Done (true, s') ∧ tinv ex cpus s' l' pend ∧
        wakes s s' ∧ wqs s' = <[q := r]> (wqs s) ∧
        (state (tasks s t) = Blocked → t ∈ l' ∧ state (tasks s' t) = Ready) ∧ (∀ t', t' ∈ l → t' ∈ l')
  end.
Proof.
  intros Hi. unfold notify_one_locked. destruct (wqs s q) as [|t r] eqn:Hq; [done|].
  pose proof (tinv_pop _ _ _ _ _ q t [] r Hi Hq) as Hi1. simpl in Hi1.
  set (s1 := upd t (set_in_wait_queue false) (set_wq q r s)).
  assert (tinv ex cpus s1 l (t :: pend)) as Hi2 by by apply tinv_flag.
  destruct (unblock_spec ex cpus c s1 l pend t b Hi2) as (s' & l' & Hun & Hi' & Hw & Hwq & Hst & Hmem).
  assert (wakes s s1) as Hw1.
  { eapply (wakes_trans _ (set_wq q r s)); [split; auto|by apply wakes_upd]. }
  assert (state (tasks s1 t) = state (tasks s t)) as Hst1
    by (subst s1; by rewrite (field_upd state)).
  unfold mbind, outcome_bind. rewrite Hun. exists s', l'. split; [done|]. split; [done|].
  split; [by eapply wakes_trans|]. split; [by rewrite Hwq|]. rewrite Hst1 in *. split.
  - intros Hb. split; [apply Hmem; auto|auto].
  - intros t' Ht'. apply Hmem. auto.
Qed.

Lemma notify_all_locked_spec ex cpus c q b pend : ∀ fuel s l,
  tinv ex cpus s l pend → (length (wqs s q) < fuel)%nat →
  ∃ s' l', notify_all_locked fuel c q b s = Done s' ∧ tinv ex cpus s' l' pend ∧ wakes s s' ∧
    wqs s' q = [] ∧ (∀ q', q' ≠ q → wqs s' q' = wqs s q') ∧
    (∀ t, t ∈ wqs s q → state (tasks s t) = Blocked → t ∈ l') ∧ (∀ t, t ∈ l → t ∈ l').
Proof.
  induction fuel as [|fuel IH]; intros s l Hi Hf; [lia|]. simpl.
  pose proof (notify_one_locked_spec ex cpus c s l pend q b Hi) as Hone.
  destruct (wqs s q) as [|t r] eqn:Hq.
  - unfold mbind, outcome_bind. rewrite Hone. simpl. exists s, l. rewrite Hq.
    split_and!; try done; [apply wakes_refl|]. by intros ? ?%elem_of_nil.
  - destruct Hone as (s1 & l1 & Hrun & Hi1 & Hw1 & Hwq1 & Hb1 & Hl1).
    destruct (IH s1 l1 Hi1) as (s2 & l2 & Hrun2 & Hi2 & Hw2 & Hq2 & Hoth & Hb2 & Hl2).
    { rewrite Hwq1, fn_lookup_insert. simpl in Hf. lia. }
    unfold mbind, outcome_bind. rewrite Hrun. simpl. exists s2, l2.
    split; [done|]. split; [done|]. split; [by eapply wakes_trans|]. split; [done|]. split_and!.
    + intros q' Hq'. rewrite Hoth, Hwq1 by done. by rewrite fn_lookup_insert_ne.
    + intros t' [->|Hin]%elem_of_cons Hb'; [by apply Hl2, Hb1|].
      destruct (wk_state _ _ Hw1 t') as [Hs|[_ Hs]].
      * apply Hb2; [by rewrite Hwq1, fn_lookup_insert|congruence].
      * apply Hl2. apply (ti_ready_in _ _ _ _ _ Hi1); [|done|].
        { unfold spawned. rewrite (wk_next _ _ Hw1). apply (ti_wakers _ _ _ _ _ Hi).
          right; left. exists q. rewrite Hq. by right. }
        rewrite (wk_idle _ _ Hw1). eapply blocked_not_idle; [exact Hi| |done].
        apply (ti_wakers _ _ _ _ _ Hi). right; left. exists q. rewrite Hq. by right.
    + auto.
Qed.

Lemma notify_task_spec cpus c s l pend q b t :
  tinv None cpus s l pend →
  ∃ r s' l', notify_task c q b t s = Done (r, s') ∧ tinv None cpus s' l' pend.
Proof.
  intros Hi. unfold notify_task. destruct (list_find (λ t', t' = t) (wqs s q)) as [[i t1]|] eqn:Hf.
  2: { by exists false, s, l. }
  apply list_find_Some in Hf as (Hlk & -> & _).
  pose proof (take_drop_middle _ _ _ Hlk) as Hsplit. symmetry in Hsplit.
  pose proof (tinv_pop _ _ _ _ _ q t _ _ Hi Hsplit) as Hi1.
  rewrite <- delete_take_drop in Hi1.
  set (s1 := set_wq q (delete i (wqs s q)) (upd t (set_in_wait_queue false) s)).
  assert (tinv None cpus s1 l (t :: pend)) as Hi2
    by exact (tinv_flag _ _ _ _ _ t (set_in_wait_queue false) (λ _, eq_refl) (λ _, eq_refl) Hi1).
  destruct (unblock_spec None cpus c s1 l pend t b Hi2) as (s' & l' & Hun & Hi' & _).
  exists true, s', l'. split; [|done]. unfold mbind, outcome_bind. simpl. fold s1. by rewrite Hun.
Qed.

Lemma block_current_spec cpus c s l pend q :
  tinv None cpus s l pend → c ∈ cpus → is_idle (tasks s (cur s c)) = false →
  can_preempt 1 (tasks s (cur s c)) = true →
  ∃ s' l', block_current c (wq_push q) s = Done s' ∧ tinv None cpus s' l' pend ∧
    state (tasks s' (cur s c)) = Blocked ∧ wqs s' = <[q := wqs s q ++ [cur s c]]> (wqs s) ∧
    timers s' = timers s ∧
    (∀ t, t ≠ cur s c → state (tasks s t) ≠ Ready → state (tasks s' t) = state (tasks s t)).
Proof.
  intros Hi Hc Hnid Hpre. destruct (ti_cur _ _ _ _ _ Hi c Hc) as [Hs Hr]; [done|].
  pose proof (stop_current cpus c s l pend (cur s c :: pend) Blocked Hi Hc Hnid) as Hi1.
  set (t := cur s c) in *. set (s1 := upd t (set_state Blocked) s) in *.
  set (s2 := wq_push q t s1).
  assert (tinv (Some c) cpus s2 l pend) as Hi2.
  { eapply (tinv_frame (Some c) cpus (upd t (set_in_wait_queue true) s1)); [..|apply tinv_flag; [done..|by apply Hi1; left]]; try done.
    - intros t' [?|[[q' Hin]|?]].
      + apply (ti_wakers _ _ _ _ _ Hi). by left.
      + simpl in Hin. destruct (decide (q = q')) as [<-|Hne].
        * rewrite fn_lookup_insert in Hin. apply elem_of_app in Hin as [Hin|Hin%list_elem_of_singleton].
          -- apply (ti_wakers _ _ _ _ _ Hi). right; left. by exists q.
          -- by subst.
        * rewrite fn_lookup_insert_ne in Hin by done.
          apply (ti_wakers _ _ _ _ _ Hi). right; left. by exists q'.
      + apply (ti_wakers _ _ _ _ _ Hi). by right; right.
    - intros t' _ _ [[->|?]%elem_of_cons|[[q' Hin]|?]]; [|by left| |by right; right].
      + right; left. exists q. simpl. rewrite fn_lookup_insert. set_solver.
      + right; left. exists q'. simpl. destruct (decide (q = q')) as [<-|Hne].
        * rewrite fn_lookup_insert. set_solver.
        * by rewrite fn_lookup_insert_ne. }
  assert (state (tasks s2 t) = Blocked) as Hb.
  { subst s2. unfold wq_push. change (tasks (set_wq q (wqs (upd t (set_in_wait_queue true) s1) q ++ [t]) (upd t (set_in_wait_queue true) s1))) with (tasks (upd t (set_in_wait_queue true) s1)).
    rewrite (field_upd state) by done. subst s1. by rewrite state_upd_state, decide_True. }
  destruct (pick_and_switch_spec cpus c s2 l pend Hi2 Hc)
    as (s' & l' & Hpick & Hi' & _ & _ & Hwq & Htm & _ & _ & Hsame).
  assert (state (tasks s2 (cur s2 c)) ≠ Running) as Hnr
    by (change (cur s2 c) with t; congruence).
  exists s', l'. unfold block_current, is_running. fold t.
  rewrite bool_decide_true, Hnid, Hpre by done. simpl. fold s1. fold s2. rewrite (resched_stopped cpus c s2 l pend) by done.
  split; [done|]. split; [done|]. split; [rewrite Hsame; congruence|].
  split; [by rewrite Hwq|]. split; [by rewrite Htm|].
  intros t' Hne Hnr'. assert (state (tasks s2 t') = state (tasks s t')) as Hs2.
  { subst s2 s1. simpl. by rewrite !fn_lookup_insert_ne. }
  rewrite Hsame; congruence.
Qed.

(** Setting an alarm adds a wake-up. *)
Lemma set_alarm_spec ex cpus s l pend d t :
  tinv ex cpus s l pend → spawned s t →
  tinv ex cpus (set_alarm_wakeup d t s) l pend ∧
  ∃ e, e ∈ elems (timers (set_alarm_wakeup d t s)) ∧ event e = t.
Proof.
  intros Hi Hs.
  assert (∀ e, e ∈ elems (timers (set_alarm_wakeup d t s)) ↔
    e = Build_TimerEventWrapper d t ∨ e ∈ elems (timers s)) as He.
  { intros e. simpl. unfold tl_set. by rewrite heap_push_elems, elem_of_cons. }
  split; [|by exists (Build_TimerEventWrapper d t); rewrite He; auto].
  eapply (tinv_frame ex cpus (upd t (set_in_timer_list true) s)); [..|by apply tinv_flag]; try done.
  - intros t' [?|[?|(e & Hin & <-)]].
    + apply (ti_wakers _ _ _ _ _ Hi). by left.
    + apply (ti_wakers _ _ _ _ _ Hi). by right; left.
    + apply He in Hin as [->|Hin]; [done|]. apply (ti_wakers _ _ _ _ _ Hi). right; right. eauto.
  - intros t' _ _ [?|[?|(e & Hin & <-)]]; [by left|by right; left|].
    right; right. exists e. split; [|done]. apply He. by right.
Qed.

Lemma sleep_until_spec cpus c s l pend now d :
  tinv None cpus s l pend → c ∈ cpus → is_idle (tasks s (cur s c)) = false →
  ∃ s' l', sleep_until c now d s = Done s' ∧ tinv None cpus s' l' pend.
Proof.
  intros Hi Hc Hnid. destruct (ti_cur _ _ _ _ _ Hi c Hc) as [Hs Hr]; [done|].
  unfold sleep_until, is_running. rewrite bool_decide_true, Hnid by done. simpl.
  destruct (now <? d); [|by exists s, l].
  destruct (set_alarm_spec None cpus s l pend d (cur s c) Hi Hs) as [Hi1 (e & He & Het)].
  set (s1 := set_alarm_wakeup d (cur s c) s) in *.
  assert (is_idle (tasks s1 (cur s1 c)) = false) as Hnid1
    by (rewrite <- Hnid; exact (field_upd is_idle _ (set_in_timer_list true) s _ (λ _, eq_refl))).
  pose proof (stop_current cpus c s1 l pend (cur s1 c :: pend) Blocked Hi1 Hc Hnid1) as Hi2.
  change (cur s1 c) with (cur s c) in Hi2.
  set (s2 := upd (cur s c) (set_state Blocked) s1) in *.
  assert (tinv (Some c) cpus s2 l pend) as Hi3.
  { eapply tinv_frame; [..|by apply Hi2; left]; try done.
    - intros t' Hw. apply (ti_wakers _ _ _ _ _ Hi1). exact Hw.
    - intros t' _ _ [[->|?]%elem_of_cons|?]; [|by left|by right]. right; right. by exists e. }
  destruct (pick_and_switch_spec cpus c s2 l pend Hi3 Hc) as (s' & l' & Hpick & Hi' & _).
  exists s', l'. rewrite (resched_stopped cpus c s2 l pend); [done..|].
  change (cur s2 c) with (cur s c). subst s2. by rewrite state_upd_state, decide_True.
Qed.

Lemma exit_current_spec cpus c s l pend code :
  tinv None cpus s l pend → c ∈ cpus → is_idle (tasks s (cur s c)) = false →
  is_init (tasks s (cur s c)) = false →
  ∃ s' l', exit_current c code s = Done s' ∧ tinv None cpus s' l' pend ∧
    state (tasks s' (cur s c)) = Exited ∧ exit_code (tasks s' (cur s c)) = code ∧
    wqs s' (WqJoin (cur s c)) = [] ∧
    (∀ t, t ∈ wqs s (WqJoin (cur s c)) → state (tasks s t) = Blocked → t ∈ l' ∨ cur s' c = t).
Proof.
  intros Hi Hc Hnid Hnin. destruct (ti_cur _ _ _ _ _ Hi c Hc) as [Hs Hr]; [done|].
  unfold exit_current, is_running. rewrite bool_decide_true, Hnid by done. simpl. rewrite Hnin.
  pose proof (stop_current cpus c s l pend pend Exited Hi Hc Hnid) as Hi1.
  set (t := cur s c) in *. set (s1 := upd t (set_state Exited) s) in *.
  set (s2 := upd t (set_exit_code code) s1).
  assert (tinv (Some c) cpus s2 l pend) as Hi2 by (apply tinv_flag; [done..|]; apply Hi1; auto).
  destruct (notify_all_locked_spec (Some c) cpus c (WqJoin t) false pend
    (Datatypes.S (length (wqs s2 (WqJoin t)))) s2 l Hi2) as (s3 & l3 & Hrun3 & Hi3 & Hw3 & Hq3 & _ & Hb3 & _);
    [lia|].
  unfold notify_exit. fold s2. unfold mbind, outcome_bind. rewrite Hrun3.
  set (s4 := set_exited (exited_tasks s3 ++ [t]) s3).
  assert (tinv (Some c) cpus s4 l3 pend) as Hi4
    by (eapply tinv_frame; [..|exact Hi3]; try done; apply Hi3).
  assert (∃ r s5 l5, notify_one_locked c WqGc false s4 = Done (r, s5) ∧ tinv (Some c) cpus s5 l5 pend ∧
    wakes s4 s5 ∧ wqs s5 (WqJoin t) = [] ∧ ∀ t', t' ∈ l3 → t' ∈ l5) as (r & s5 & l5 & Hrun5 & Hi5 & Hw5 & Hq5 & Hl5).
  { pose proof (notify_one_locked_spec (Some c) cpus c s4 l3 pend WqGc false Hi4) as Hone.
    destruct (wqs s4 WqGc) as [|t5 r5].
    - exists false, s4, l3. split_and!; try done. apply wakes_refl.
    - destruct Hone as (s5 & l5 & Hrun & Hi5 & Hw5 & Hwq5 & _ & Hl5). exists true, s5, l5.
      split_and!; try done. by rewrite Hwq5, fn_lookup_insert_ne. }
  rewrite Hrun5. simpl.
  assert (cur s5 c = t) as Hcur5 by (rewrite (wk_cur _ _ Hw5); simpl; by rewrite (wk_cur _ _ Hw3)).
  assert (state (tasks s2 t) = Exited) as Hst2.
  { subst s2. rewrite (field_upd state) by done. subst s1. by rewrite state_upd_state, decide_True. }
  assert (state (tasks s5 t) = Exited) as Hst5.
  { destruct (wk_state _ _ Hw5 t) as [->|[Hx _]], (wk_state _ _ Hw3 t) as [Hy|[Hy _]];
      simpl in *; congruence. }
  destruct (pick_and_switch_spec cpus c s5 l5 pend Hi5 Hc)
    as (s' & l' & Hpick & Hi' & _ & Hl' & Hwq' & _ & _ & Hcode & Hsame).
  rewrite (resched_stopped cpus c s5 l5 pend) by (done || by rewrite Hcur5, Hst5).
  exists s', l'. split; [done|]. split; [done|]. split; [by rewrite Hsame; rewrite Hst5|]. split_and!.
  - rewrite Hcode, (wk_code _ _ Hw5). simpl. rewrite (wk_code _ _ Hw3). subst s2.
    by rewrite tasks_upd_eq.
  - by rewrite Hwq'.
  - intros t' Hin Hb. apply Hl', Hl5, Hb3; [done|]. assert (t ≠ t') by congruence.
    subst s2 s1. by rewrite !tasks_upd_ne.
Qed.

Lemma cancel_alarm_spec cpus s l pend t :
  tinv None cpus s l pend → state (tasks s t) = Running →
  tinv None cpus (cancel_alarm t s) l pend.
Proof.
  intros Hi Hr.
  assert (∀ e, e ∈ elems (timers (cancel_alarm t s)) ↔ e ∈ elems (timers s) ∧ event e ≠ t) as He.
  { intros e. simpl. unfold tl_cancel. rewrite heap_retain_elems, list_elem_of_filter.
    rewrite negb_true_iff, bool_decide_eq_false. tauto. }
  eapply (tinv_frame None cpus (upd t (set_in_timer_list false) s)); [..|by apply tinv_flag]; try done.
  - intros t' Hw. apply (ti_wakers _ _ _ _ _ Hi). destruct Hw as [?|[?|(e & Hin & <-)]];
      [by left|by right; left|]. apply He in Hin as [Hin _]. right; right. eauto.
  - intros t' _ Hb [?|[?|(e & Hin & <-)]]; [by left|by right; left|].
    right; right. exists e. split; [|done]. apply He. split; [done|].
    rewrite (field_upd state) in Hb by done. congruence.
Qed.

(** Leaving a wait queue. *)
Lemma leave_queue_spec cpus s l pend q t :
  tinv None cpus s l pend → state (tasks s t) = Running →
  tinv None cpus (upd t (set_in_wait_queue false)
    (set_wq q (filter (λ t', t' ≠ t) (wqs s q)) s)) l pend.
Proof.
  intros Hi Hr. apply tinv_flag; [done..|]. eapply tinv_frame; [..|exact Hi]; try done.
  - intros t' Hw. apply (ti_wakers _ _ _ _ _ Hi). destruct Hw as [?|[[q' Hin]|?]];
      [by left| |by right; right]. right; left. simpl in Hin.
    destruct (decide (q = q')) as [<-|Hne].
    + rewrite fn_lookup_insert, list_elem_of_filter in Hin. exists q. tauto.
    + rewrite fn_lookup_insert_ne in Hin by done. by exists q'.
  - intros t' _ Hb [?|[[q' Hin]|?]]; [by left| |by right; right]. right; left. exists q'. simpl.
    destruct (decide (q = q')) as [<-|Hne].
    + rewrite fn_lookup_insert, list_elem_of_filter. split; [congruence|done].
    + by rewrite fn_lookup_insert_ne.
Qed.

Lemma cancel_events_spec cpus c s l pend q :
  tinv None cpus s l pend → c ∈ cpus →
  tinv None cpus (cancel_events q (cur s c) s) l pend.
Proof.
  intros Hi Hc. destruct (ti_cur _ _ _ _ _ Hi c Hc) as [Hs Hr]; [done|].
  unfold cancel_events. destruct (in_wait_queue _).
  - pose proof (leave_queue_spec cpus s l pend q (cur s c) Hi Hr) as Hi1.
    destruct (in_timer_list _); [|done]. apply cancel_alarm_spec; [done|].
    by rewrite (field_upd state).
  - destruct (in_timer_list _); [|done]. by apply cancel_alarm_spec.
Qed.

Lemma take_event_spec cpus s l pend now :
  tinv None cpus s l pend →
  match take_event now s with
  | (Some t, s') => tinv None cpus s' l (t :: pend)
  | (None, s') => tinv None cpus s' l pend
  end.
Proof.
  intros Hi. unfold take_event. pose proof (expire_one_spec now (timers s)) as He.
  destruct (expire_one now (timers s)) as [[[d t]|] h]; simpl.
  - destruct He as (Hp & _ & _). eapply tinv_frame; [..|exact Hi]; try done.
    + intros t' Hw. apply (ti_wakers _ _ _ _ _ Hi).
      destruct Hw as [[->|?]%elem_of_cons|[?|(e & Hin & <-)]]; [|by left|by right; left|].
      * right; right. eexists. rewrite Hp. split; [left|done].
      * right; right. exists e. rewrite Hp. split; [by right|done].
    + intros t' _ _ [?|[?|(e & Hin & <-)]]; [left; by right|by right; left|].
      rewrite Hp in Hin. apply elem_of_cons in Hin as [->|Hin]; [left; left|].
      right; right. by exists e.
  - destruct He as [-> _]. eapply tinv_frame; [..|exact Hi]; try done. apply Hi.
Qed.

Lemma callback_spec cpus c s l pend t :
  tinv None cpus s l (t :: pend) →
  ∃ s' l', wakeup_callback c t s = Done s' ∧ tinv None cpus s' l' pend.
Proof.
  intros Hi. unfold wakeup_callback.
  destruct (unblock_spec None cpus c (upd t (set_in_timer_list false) s) l pend t true)
    as (s' & l' & Hrun & Hi' & _); [by apply tinv_flag|]. eauto.
Qed.

Lemma tick_spec cpus c s l pend :
  tinv None cpus s l pend → c ∈ cpus →
  ∃ s' l', scheduler_timer_tick c s = Done s' ∧ tinv None cpus s' l' pend.
Proof.
  intros Hi Hc. unfold scheduler_timer_tick. destruct (is_idle _); [by exists s, l|].
  destruct (ti_cur _ _ _ _ _ Hi c Hc) as [_ Hr]; [done|].
  destruct (law_tick (rq s) l (cur s c) (ti_ready _ _ _ _ _ Hi)) as (b & q & Hrun & Hq).
  { intros Hin. destruct (ti_l _ _ _ _ _ Hi _ Hin) as (_ & ? & _). congruence. }
  unfold mbind, outcome_bind. rewrite Hrun. simpl.
  assert (tinv None cpus (set_rq q s) l pend) as Hi1 by (by destruct Hi; split).
  destruct b; [|by exists (set_rq q s), l].
  exists (upd (cur s c) (set_preempt_pending true) (set_rq q s)), l. split; [done|].
  by apply tinv_flag.
Qed.

Lemma set_priority_spec cpus c s l pend prio :
  tinv None cpus s l pend → c ∈ cpus →
  ∃ b s' l', set_current_priority c prio s = Done (b, s') ∧ tinv None cpus s' l' pend.
Proof.
  intros Hi Hc. unfold set_current_priority. destruct (ti_cur _ _ _ _ _ Hi c Hc) as [_ Hr]; [done|].
  destruct (law_set_priority (rq s) l (cur s c) prio (ti_ready _ _ _ _ _ Hi)) as (b & q & Hrun & Hq).
  { intros Hin. destruct (ti_l _ _ _ _ _ Hi _ Hin) as (_ & ? & _). congruence. }
  unfold mbind, outcome_bind. rewrite Hrun. simpl. exists b, (set_rq q s), l. split; [done|].
  by destruct Hi; split.
Qed.

(** *** New tasks *)

Lemma spawn_spec cpus s l pend n :
  tinv None cpus s l pend → n ≠ "idle"%string →
  ∃ s' l', spawn_raw n s = Done (next_id s, s') ∧ tinv None cpus s' l' pend ∧ next_id s ∈ l'.
Proof.
  intros Hi Hn. pose proof (ti_next _ _ _ _ _ Hi) as Hnx. set (t := next_id s) in *.
  assert (∀ t', spawned s t' → t' ≠ t) as Hold by (unfold spawned; lia).
  assert (t ∉ l) as Htl by (intros Hin; by destruct (Hold t); [apply (ti_l _ _ _ _ _ Hi)|]).
  destruct (law_add (rq s) l t (ti_ready _ _ _ _ _ Hi) I Htl) as (q & l' & Hadd & Hq & Hp).
  unfold spawn_raw, new_task, rq_add_task. fold t. simpl. unfold is_ready. simpl.
  rewrite fn_lookup_insert. simpl. rewrite Hadd. simpl. eexists _, l'. split; [done|].
  split; [|rewrite Hp; left]. unfold set_rq. simpl.
  match goal with |- tinv _ _ ?x _ _ => set (s' := x) end.
  assert (tasks s' t = task_new n) as Ht by apply fn_lookup_insert.
  assert (∀ t', spawned s t' → tasks s' t' = tasks s t') as Hto.
  { intros t' Hs'. apply fn_lookup_insert_ne. intros <-. by apply (Hold t). }
  assert (∀ t', spawned s' t' ↔ spawned s t' ∨ t' = t) as Hsp
    by (intros; subst s' t; unfold spawned in *; simpl; lia).
  assert (is_idle (task_new n) = false) as Hnid by (simpl; by apply bool_decide_eq_false).
  assert (∀ t', waker s' pend t' ↔ waker s pend t') as Hw by done.
  assert (cur s' = cur s ∧ idle_of s' = idle_of s ∧ rq s' = q ∧ next_id s' = t + 1) as (Hc & Hio & Hrq & Hnx') by done.
  clearbody s'. destruct Hi. split; rewrite ?Hrq; try done; [lia|..].
  - intros t'. rewrite Hp. intros [->|Hin]%elem_of_cons; [by rewrite Ht, Hsp; auto|].
    destruct (ti_l0 t' Hin) as (? & ? & ?). rewrite Hto, Hsp by done. auto.
  - intros c Hcc _. rewrite Hc. destruct (ti_cur0 c Hcc) as [??]; [done|]. rewrite Hto, Hsp by done. auto.
  - rewrite Hc. done.
  - intros t' [Hs'| ->]%Hsp; [rewrite Hto, Hc by done; auto|by rewrite Ht].
  - intros t' [Hs'| ->]%Hsp; rewrite Hp; [rewrite Hto by done; right; auto|left].
  - intros c Hcc. rewrite Hio. destruct (ti_idle0 c Hcc). rewrite Hto, Hsp by done. auto.
  - by rewrite Hio.
  - intros t' [Hs'| ->]%Hsp; [|rewrite Ht; congruence]. rewrite Hto, Hio, Hc by done. auto.
  - intros t' Hwk. rewrite Hsp. left. apply ti_wakers0. by apply Hw.
  - intros t' [Hs'| ->]%Hsp; [|by rewrite Ht]. rewrite Hto, Hw by done. auto.
Qed.

Lemma init_secondary_spec cpus c s l pend :
  tinv None cpus s l pend → c ∉ cpus → tinv None (c :: cpus) (rq_init_secondary c s) l pend.
Proof.
  intros Hi Hc. pose proof (ti_next _ _ _ _ _ Hi) as Hnx. set (t := next_id s) in *.
  assert (∀ t', spawned s t' → t' ≠ t) as Hold by (unfold spawned; lia).
  set (s' := rq_init_secondary c s).
  assert (state (tasks s' t) = Running ∧ is_idle (tasks s' t) = true) as [Ht1 Ht2].
  { subst s' t. unfold rq_init_secondary, new_task, upd. simpl. rewrite !fn_lookup_insert. done. }
  assert (∀ t', spawned s t' → tasks s' t' = tasks s t') as Hto.
  { intros t' Hs'. pose proof (Hold t' Hs'). subst s' t.
    unfold rq_init_secondary, new_task, upd. simpl. by rewrite !fn_lookup_insert_ne. }
  assert (∀ t', spawned s' t' ↔ spawned s t' ∨ t' = t) as Hsp
    by (intros; subst s' t; unfold spawned in *; simpl; lia).
  assert (∀ t', waker s' pend t' ↔ waker s pend t') as Hw by done.
  assert (∀ c', cur s' c' = if decide (c' = c) then t else cur s c') as Hcu.
  { intros c'. subst s'. simpl. case_decide; subst; [by rewrite fn_lookup_insert|by rewrite fn_lookup_insert_ne]. }
  assert (∀ c', idle_of s' c' = if decide (c' = c) then t else idle_of s c') as Hio.
  { intros c'. subst s'. simpl. case_decide; subst; [by rewrite fn_lookup_insert|by rewrite fn_lookup_insert_ne]. }
  assert (rq s' = rq s ∧ next_id s' = t + 1) as (Hrq & Hnx') by done.
  clearbody s'. destruct Hi. split; rewrite ?Hrq; try done; [lia|..].
  - intros t' Hin. destruct (ti_l0 t' Hin) as (? & ? & ?). rewrite Hto, Hsp by done. auto.
  - intros c' [->|Hc']%elem_of_cons _; rewrite Hcu, Hsp; [rewrite decide_True by done; auto|].
    rewrite decide_False by (by intros ->). destruct (ti_cur0 c' Hc') as [??]; [done|].
    rewrite Hto by done. auto.
  - intros c1 c2 [->|H1]%elem_of_cons [->|H2]%elem_of_cons _ _; rewrite !Hcu; repeat case_decide;
      subst; try done; intros Heq.
    + exfalso. apply (Hold (cur s c2)); [by apply ti_cur0|congruence].
    + exfalso. apply (Hold (cur s c1)); [by apply ti_cur0|congruence].
    + by apply ti_inj0.
  - intros t' [Hs'| ->]%Hsp.
    + rewrite Hto by done. intros Hr. destruct (ti_running0 t' Hs' Hr) as (c' & Hc' & _ & Heq).
      exists c'. split_and!; [by right|done|]. rewrite Hcu, decide_False; [done|by intros ->].
    + intros _. exists c. split_and!; [left|done|]. by rewrite Hcu, decide_True.
  - intros t' [Hs'| ->]%Hsp; [rewrite Hto by done; auto|by rewrite Ht1].
  - intros c' [->|Hc']%elem_of_cons; rewrite Hio, Hsp; [rewrite decide_True by done; auto|].
    rewrite decide_False by (by intros ->). destruct (ti_idle0 c' Hc') as [??]. rewrite Hto by done. auto.
  - intros c1 c2 [->|H1]%elem_of_cons [->|H2]%elem_of_cons; rewrite !Hio; repeat case_decide;
      subst; try done; intros Heq.
    + exfalso. apply (Hold (idle_of s c2)); [by apply ti_idle0|congruence].
    + exfalso. apply (Hold (idle_of s c1)); [by apply ti_idle0|congruence].
    + by apply ti_idle_inj0.
  - intros t' [Hs'| ->]%Hsp.
    + rewrite Hto by done. intros Hid. destruct (ti_idle_own0 t' Hs' Hid) as (c' & Hc' & -> & Hor).
      exists c'. rewrite Hio, Hcu, !decide_False by (by intros ->). split_and!; [by right|done|done].
    + intros _. exists c. rewrite Hio, Hcu, !decide_True by done. split_and!; [left|done|by right].
  - intros t' Hwk. rewrite Hsp. left. apply ti_wakers0. by apply Hw.
  - intros t' [Hs'| ->]%Hsp; [|by rewrite Ht1]. rewrite Hto, Hw by done. auto.
Qed.

Lemma init_spec c s : rq_init c = Done s → ∃ l, tinv None [c] s l [].
Proof.
  unfold rq_init. simpl. change (1 + 1 + 1 + 1) with 4. change (1 + 1 + 1) with 3. change (1 + 1) with 2.
  destruct (law_add sched_new [] 3 law_new I (not_elem_of_nil 3)) as (q & l & Hadd & Hq & Hp).
  simpl in Hadd. rewrite Hadd. simpl. intros Hs. injection Hs as <-. exists l.
  match goal with |- tinv _ _ ?x _ _ => set (s' := x) end.
  assert (∀ t, spawned s' t ↔ t = 1 ∨ t = 2 ∨ t = 3) as Hsp by (intros; unfold spawned; simpl; lia).
  assert (∀ t, ¬ waker s' [] t) as Hw.
  { intros t [?%elem_of_nil|[[? ?%elem_of_nil]|(e & He & _)]]; try done.
    simpl in He. unfold tl_new in He. rewrite heap_new_elems in He. by apply elem_of_nil in He. }
  assert (cur s' c = 2 ∧ idle_of s' c = 1) as [Hc Hid]
    by (subst s'; simpl; by rewrite !fn_lookup_insert).
  assert (l = [3]) as -> by by apply Permutation_singleton_r.
  split; try done.
  - intros t ->%list_elem_of_singleton. rewrite Hsp. auto.
  - intros c' ->%list_elem_of_singleton _. rewrite Hc, Hsp. auto.
  - intros c1 c2 ->%list_elem_of_singleton ->%list_elem_of_singleton. done.
  - intros t [->|[->| ->]]%Hsp; try done. intros _. exists c. split_and!; [left|done|done].
  - intros t [->|[->| ->]]%Hsp; try done. intros _ _. left.
  - intros c' ->%list_elem_of_singleton. rewrite Hid, Hsp. auto.
  - intros c1 c2 ->%list_elem_of_singleton ->%list_elem_of_singleton. done.
  - intros t [->|[->| ->]]%Hsp; try done. intros _. exists c. split_and!; [left|done|by left].
  - intros t Ht. by apply Hw in Ht.
  - by intros t [->|[->| ->]]%Hsp.
Qed.

(** *** Preemption *)

Lemma preempt_resched_spec cpus c s l pend :
  tinv None cpus s l pend → c ∈ cpus →
  ∃ s' l', preempt_resched c s = Done s' ∧ tinv None cpus s' l' pend.
Proof.
  intros Hi Hc. destruct (ti_cur _ _ _ _ _ Hi c Hc) as [_ Hr]; [done|].
  unfold preempt_resched, is_running. rewrite bool_decide_true by done. simpl.
  destruct (can_preempt _ _); [by apply (resched_running cpus c s l)|].
  eexists _, l. split; [done|]. by apply tinv_flag.
Qed.

Lemma enable_preempt_spec cpus c s l pend b :
  tinv None cpus s l pend → c ∈ cpus →
  ∃ s' l', enable_preempt c b s = Done s' ∧ tinv None cpus s' l' pend.
Proof.
  intros Hi Hc. unfold enable_preempt.
  set (s1 := upd (cur s c) (set_preempt_count _) s).
  assert (tinv None cpus s1 l pend) as Hi1 by by apply tinv_flag.
  destruct (_ && b); [|by exists s1, l]. unfold current_check_preempt_pending.
  destruct (need_resched _ && _); [|by exists s1, l].
  apply (preempt_resched_spec cpus c _ l); [|done]. by apply tinv_flag.
Qed.

Lemma yield_spec cpus c s l pend :
  tinv None cpus s l pend → c ∈ cpus →
  ∃ s' l', yield_current c s = Done s' ∧ tinv None cpus s' l' pend.
Proof.
  intros Hi Hc. destruct (ti_cur _ _ _ _ _ Hi c Hc) as [_ Hr]; [done|].
  unfold yield_current, is_running. rewrite bool_decide_true by done.
  by apply (resched_running cpus c s l).
Qed.

(** ** Histories *)

(** The CPUs started, the system, and the tasks whose timer event has been
    taken but whose callback has not run yet. *)
Abbreviation world := (list Z * sys S H * list Z)%type (only parsing).

(** A step of one CPU.  Waiting is [ts_block]; what follows it when the task
    runs again is [ts_cancel].  [wait_timeout] begins with [ts_alarm]. *)
Inductive task_step : world → world → Prop :=
| ts_yield cpus s pend c s' :
    c ∈ cpus → yield_current c s = Done s' → task_step (cpus, s, pend) (cpus, s', pend)
| ts_preempt cpus s pend c s' :
    c ∈ cpus → preempt_resched c s = Done s' → task_step (cpus, s, pend) (cpus, s', pend)
| ts_disable cpus s pend c :
    c ∈ cpus → task_step (cpus, s, pend) (cpus, disable_preempt (cur s c) s, pend)
| ts_enable cpus s pend c b s' :
    c ∈ cpus → enable_preempt c b s = Done s' → task_step (cpus, s, pend) (cpus, s', pend)
| ts_tick cpus s pend c s' :
    c ∈ cpus → scheduler_timer_tick c s = Done s' → task_step (cpus, s, pend) (cpus, s', pend)
| ts_priority cpus s pend c prio b s' :
    c ∈ cpus → set_current_priority c prio s = Done (b, s') →
    task_step (cpus, s, pend) (cpus, s', pend)
| ts_spawn cpus s pend n t s' :
    n ≠ "idle"%string → spawn_raw n s = Done (t, s') → task_step (cpus, s, pend) (cpus, s', pend)
| ts_exit cpus s pend c code s' :
    c ∈ cpus → is_init (tasks s (cur s c)) = false → exit_current c code s = Done s' →
    task_step (cpus, s, pend) (cpus, s', pend)
| ts_block cpus s pend c q s' :
    c ∈ cpus → block_current c (wq_push q) s = Done s' → task_step (cpus, s, pend) (cpus, s', pend)
| ts_alarm cpus s pend c now dur :
    c ∈ cpus → task_step (cpus, s, pend) (cpus, wait_timeout_begin c now dur s, pend)
| ts_cancel cpus s pend c q :
    c ∈ cpus → task_step (cpus, s, pend) (cpus, cancel_events q (cur s c) s, pend)
| ts_sleep cpus s pend c now d s' :
    c ∈ cpus → sleep_until c now d s = Done s' → task_step (cpus, s, pend) (cpus, s', pend)
| ts_notify_one cpus s pend c q b r s' :
    c ∈ cpus → notify_one c q b s = Done (r, s') → task_step (cpus, s, pend) (cpus, s', pend)
| ts_notify_all cpus s pend c q b r s' :
    c ∈ cpus → notify_all_round c q b s = Done (r, s') → task_step (cpus, s, pend) (cpus, s', pend)
| ts_notify_task cpus s pend c q b t r s' :
    c ∈ cpus → notify_task c q b t s = Done (r, s') → task_step (cpus, s, pend) (cpus, s', pend)
| ts_take_event cpus s pend now t s' :
    take_event now s = (Some t, s') → task_step (cpus, s, pend) (cpus, s', t :: pend)
| ts_callback cpus s pend pend' c t s' :
    c ∈ cpus → pend ≡ₚ t :: pend' → wakeup_callback c t s = Done s' →
    task_step (cpus, s, pend) (cpus, s', pend')
| ts_secondary cpus s pend c :
    c ∉ cpus → task_step (cpus, s, pend) (c :: cpus, rq_init_secondary c s, pend)
| ts_gc cpus s pend unique :
    task_step (cpus, s, pend) (cpus, gc_round unique s, pend).

Definition good (w : world) : Prop := ∃ l, tinv None w.1.1 w.1.2 l w.2.

Lemma tinv_pend_perm ex cpus s l pend pend' :
  pend ≡ₚ pend' → tinv ex cpus s l pend → tinv ex cpus s l pend'.
Proof.
  intros Hp Hi. assert (∀ t, waker s pend' t ↔ waker s pend t) as Hw
    by (intros; unfold waker; by rewrite Hp).
  eapply tinv_frame; [..|exact Hi]; try done; intros t; rewrite Hw; [apply Hi|done].
Qed.

(** A task that may block is not idle, by the assertions of the code. *)
Lemma block_not_idle c f s s' : block_current c f s = Done s' →
  is_idle (tasks s (cur s c)) = false ∧ can_preempt 1 (tasks s (cur s c)) = true.
Proof.
  unfold block_current. intros Hr. destruct (is_running _); [|done]. simpl in Hr.
  destruct (is_idle _); [done|]. simpl in Hr. by destruct (can_preempt _ _).
Qed.

Lemma notify_one_good cpus c s l pend q b r s' :
  tinv None cpus s l pend → notify_one_locked c q b s = Done (r, s') →
  ∃ l', tinv None cpus s' l' pend.
Proof.
  intros Hi Hr. pose proof (notify_one_locked_spec None cpus c s l pend q b Hi) as Hs.
  destruct (wqs s q); [rewrite Hr in Hs; by simplify_eq; eauto|].
  destruct Hs as (s2 & l2 & Hr2 & Hi2 & _). rewrite Hr in Hr2. simplify_eq. eauto.
Qed.

(** Uses the lemma [H] about the call of which [Hr] gives the result. *)
Ltac done_by H Hr :=
  let Hrun := fresh in let Hi' := fresh in
  first [destruct H as (? & ? & Hrun & Hi' & _) | destruct H as (? & ? & Hrun & Hi')];
  [done..|]; rewrite Hr in Hrun; simplify_eq; eexists; exact Hi'.

Lemma task_step_good w w' : task_step w w' → good w → good w'.
Proof.
  unfold good. destruct 1; simpl; intros [l Hi].
  - done_by (yield_spec cpus c s l pend Hi) H1.
  - done_by (preempt_resched_spec cpus c s l pend Hi) H1.
  - exists l. by apply tinv_flag.
  - done_by (enable_preempt_spec cpus c s l pend b Hi) H1.
  - done_by (tick_spec cpus c s l pend Hi) H1.
  - destruct (set_priority_spec cpus c s l pend prio Hi) as (? & ? & ? & Hrun & ?); [done|].
    rewrite H1 in Hrun. simplify_eq. eauto.
  - destruct (spawn_spec cpus s l pend n Hi) as (? & ? & Hrun & ? & _); [done|].
    rewrite H1 in Hrun. simplify_eq. eauto.
  - assert (is_idle (tasks s (cur s c)) = false).
    { unfold exit_current in H2. destruct (is_running _); [|done]. simpl in H2. by destruct (is_idle _). }
    done_by (exit_current_spec cpus c s l pend code Hi) H2.
  - destruct (block_not_idle _ _ _ _ H1). done_by (block_current_spec cpus c s l pend q Hi) H1.
  - exists l. apply set_alarm_spec; [done|]. by apply (ti_cur _ _ _ _ _ Hi).
  - exists l. by apply cancel_events_spec.
  - assert (is_idle (tasks s (cur s c)) = false).
    { unfold sleep_until in H1. destruct (is_running _); [|done]. simpl in H1. by destruct (is_idle _). }
    done_by (sleep_until_spec cpus c s l pend now d Hi) H1.
  - unfold notify_one in H1. destruct (wqs s q) eqn:Hq; [by simplify_eq; eauto|].
    by eapply notify_one_good.
  - by eapply notify_one_good.
  - destruct (notify_task_spec cpus c s l pend q b t Hi) as (? & ? & ? & Hrun & ?).
    rewrite H1 in Hrun. simplify_eq. eauto.
  - exists l. pose proof (take_event_spec cpus s l pend now Hi) as Ht. by rewrite H0 in Ht.
  - pose proof (tinv_pend_perm _ _ _ _ _ _ H1 Hi) as Hi2.
    destruct (callback_spec cpus c s l pend' t Hi2) as (? & ? & Hrun & ?).
    rewrite H2 in Hrun. simplify_eq. eauto.
  - exists l. by apply init_secondary_spec.
  - exists l. eapply tinv_frame; [..|exact Hi]; try done. apply Hi.
Qed.

Lemma task_steps_good w w' : rtc task_step w w' → good w → good w'.
Proof. induction 1; [done|]. intros Hg. by eapply IHrtc, task_step_good. Qed.

(** Reached from the initialisation on the CPU [c0]. *)
Definition reachable (w : world) : Prop :=
  ∃ c0 s0, rq_init c0 = Done s0 ∧ rtc task_step ([c0], s0, []) w.

Lemma reachable_good w : reachable w → good w.
Proof.
  intros (c0 & s0 & Hinit & Hsteps). apply (task_steps_good _ _ Hsteps). by eapply init_spec.
Qed.



(** C13: when a task exits, its exit code is stored, it becomes [Exited], the
    queue of the tasks joining it is emptied and each of them that was
    blocked there is made ready or runs at once; a join of the task then
    returns the exit code. *)
Theorem exit_wakes_joiners cpus s pend c code s' :
  reachable (cpus, s, pend) → c ∈ cpus → is_init (tasks s (cur s c)) = false →
  exit_current c code s = Done s' →
  let t := cur s c in
  state (tasks s' t) = Exited ∧ wqs s' (WqJoin t) = [] ∧
  (∃ l', ready (rq s') l' ∧
     ∀ j, j ∈ wqs s (WqJoin t) → state (tasks s j) = Blocked → j ∈ l' ∨ cur s' c = j) ∧
  (∀ c', join_round c' t s' = Done (Some code, s')).
Proof.
  intros Hr Hc Hin Hrun t. destruct (reachable_good _ Hr) as [l Hi]. simpl in Hi.
  assert (is_idle (tasks s (cur s c)) = false) as Hnid.
  { unfold exit_current in Hrun. destruct (is_running _); [|done]. simpl in Hrun. by destruct (is_idle _). }
  destruct (exit_current_spec cpus c s l pend code Hi Hc Hnid Hin)
    as (s2 & l2 & Hrun2 & Hi2 & Hex & Hcode & Hq & Hj). rewrite Hrun in Hrun2. simplify_eq.
  split_and!; [done|done| |].
  - exists l2. split; [apply Hi2|done].
  - intros c'. unfold join_round. fold t. rewrite bool_decide_true by done. done.
Qed.

End axtask_proofs.
(** ** Histories of two CPUs *)

Abbreviation fsys := (sys UList (list (TimerEventWrapper Z))) (only parsing).

(** The value of a call known to complete. *)
Definition get (o : outcome fsys) (dflt : fsys) : fsys :=
  match o with Done s => s | Panic => dflt end.
Definition get2 {A} (o : outcome (A * fsys)) (dflt : fsys) : fsys :=
  match o with Done r => r.2 | Panic => dflt end.

Lemma get_done (o : outcome fsys) d : is_done o = true → o = Done (get o d).
Proof. by destruct o. Qed.
Lemma get2_done {A} (o : outcome (A * fsys)) d : is_done o = true → ∃ a, o = Done (a, get2 o d).
Proof. destruct o as [[]|]; [eauto|done]. Qed.

Definition demo_zero : fsys :=
  {| rq := sched_new; tasks := λ _, new_common ""; wqs := λ _, []; timers := tl_new;
     cur := λ _, 0; idle_of := λ _, 0; exited_tasks := []; next_id := 1; terminated := false |}.
Definition demo0 : fsys := get (rq_init 0) demo_zero.
(** The second CPU starts; the main task spawns task 5 and waits for it, so
    that the garbage collector and then task 5 run. *)
Definition demo1 : fsys := rq_init_secondary 1 demo0.
Definition demo2 : fsys := get2 (spawn_raw "worker" demo1) demo1.
Definition demo3 : fsys := disable_preempt (cur demo2 0) demo2.
Definition demo4 : fsys := get (block_current 0 (wq_push (WqJoin 5)) demo3) demo3.
Definition demo5 : fsys := get (yield_current 0 demo4) demo4.

Lemma demo_reachable : reachable ([1; 0], demo5, []).
Proof.
  exists 0, demo0. split; [by apply get_done|].
  eapply rtc_l; [apply (ts_secondary [0] demo0 [] 1); set_solver|].
  eapply rtc_l.
  { destruct (get2_done (spawn_raw "worker" demo1) demo1) as [t Ht]; [by vm_compute|].
    by apply (ts_spawn _ demo1 _ "worker" t demo2). }
  eapply rtc_l; [apply (ts_disable _ demo2 _ 0); set_solver|].
  eapply rtc_l.
  { apply (ts_block _ demo3 _ 0 (WqJoin 5) demo4); [set_solver|].
    apply get_done. by vm_compute. }
  eapply rtc_l; [|apply rtc_refl].
  apply (ts_yield _ demo4 _ 0 demo5); [set_solver|]. apply get_done. by vm_compute.
Qed.



Lemma exit_wakes_joiners_witness :
  ∃ s', exit_current 0 7 demo5 = Done s' ∧ join_round 1 5 s' = Done (Some 7, s').
Proof.
  exists (get (exit_current 0 7 demo5) demo5).
  assert (0 ∈ [1; 0]) as Hc by set_solver.
  assert (exit_current 0 7 demo5 = Done (get (exit_current 0 7 demo5) demo5)) as Hr
    by (apply get_done; by vm_compute).
  split; [done|].
  assert (is_init (tasks demo5 (cur demo5 0)) = false) as Hin by by vm_compute.
  destruct (exit_wakes_joiners (elems := id) [1; 0] demo5 [] 0 7 _ demo_reachable
              Hc Hin Hr) as (_ & _ & _ & Hj).
  apply Hj.
Defined.

(** ** Two schedules the code does not exclude *)

Definition idle1 : fsys := get2 (spawn_raw "idle" demo0) demo0.
Definition idle2 : fsys := get (yield_current 0 idle1) idle1.
Definition idle3 : fsys := get (yield_current 0 idle2) idle2.
Definition idle4 : fsys := get (yield_current 0 idle3) idle3.

(** The main task waits for 5 from time 10 on; at time 15 the event is taken
    and its callback runs before the task blocks. *)
Definition late1 : fsys := wait_timeout_begin 0 10 5 (disable_preempt 2 demo0).
Definition late2 : fsys := (take_event 15 late1).2.
Definition late3 : fsys := get (wakeup_callback 0 2 late2) late2.
Definition late4 : fsys := get (wait_timeout_block 0 (WqUser 0) late3) late3.

(** A task spawned with the name of the idle task is taken for an idle
    task: once it runs and yields, it is ready but neither current nor in the
    ready queue, and nothing will ever run it. *)
Theorem spawned_idle_named_task_lost :
  ∃ s0 s1 s2 s3 s4 : fsys,
    rq_init 0 = Done s0 ∧ spawn_raw "idle" s0 = Done (4, s1) ∧
    yield_current 0 s1 = Done s2 ∧ yield_current 0 s2 = Done s3 ∧ cur s3 0 = 4 ∧
    yield_current 0 s3 = Done s4 ∧
    state (tasks s4 4) = Ready ∧ cur s4 0 ≠ 4 ∧ idle_of s4 0 ≠ 4 ∧
    ∃ l, is_list (rq s4) l ∧ 4 ∉ l.
Proof.
  exists demo0, idle1, idle2, idle3, idle4.
  split; [by apply get_done|]. split.
  { destruct (spawn_raw "idle" demo0) as [[t s]|] eqn:Hr; [|by vm_compute in Hr].
    assert (t = 4) as -> by (apply (f_equal (λ o, match o with Done r => r.1 | Panic => 0 end)) in Hr; by vm_compute in Hr).
    unfold idle1. by rewrite Hr. }
  do 2 (split; [apply get_done; by vm_compute|]).
  split; [by vm_compute|]. split; [apply get_done; by vm_compute|].
  do 3 (split; [by vm_compute|]). exists [3]. split; [|set_solver].
  split; [by vm_compute|]. split; [apply NoDup_singleton|]. by vm_compute.
Qed.

(** [wait_timeout] sets its alarm before it locks the run queue: when the
    deadline passes in between, the callback finds the task running and does
    nothing, and the task then blocks with no timer left, so that it is no
    longer woken by the timeout. *)
Theorem wait_timeout_lost_wakeup :
  ∃ s0 s1 s2 s3 s4 : fsys,
    rq_init 0 = Done s0 ∧ wait_timeout_begin 0 10 5 (disable_preempt 2 s0) = s1 ∧
    take_event 15 s1 = (Some 2, s2) ∧ wakeup_callback 0 2 s2 = Done s3 ∧
    wait_timeout_block 0 (WqUser 0) s3 = Done s4 ∧
    state (tasks s4 2) = Blocked ∧ timers s4 = [] ∧ wqs s4 (WqUser 0) = [2].
Proof.
  exists demo0, late1, late2, late3, late4. split; [by apply get_done|]. split; [done|].
  split; [by rewrite (surjective_pairing (take_event 15 late1))|].
  do 2 (split; [apply get_done; by vm_compute|]). by vm_compute.
Qed.
