(* ===== verification/Spinlock.v ===== *)
(** * Guards and spin locks ([crates/kernel_guard], [crates/spinlock])

    The guards that disable interrupts and preemption, over the interrupt
    flag of each architecture, and [BaseSpinLock] with the feature [smp] for
    any guard and any number of CPUs. *)

From S2P Require Import Prelude.
From stdpp Require Import base numbers functions relations list.

Open Scope Z_scope.
Open Scope word_scope.

(** ** The interrupt flag ([arch/]) *)

(** The register with the interrupt flag, saved and changed. *)
Class IrqArch := {
  local_irq_save_and_disable : Z → Z * Z;
  local_irq_restore : Z → Z → Z;
  irq_enabled : Z → bool;
}.

Class IrqArchLaws `(A : IrqArch) : Prop := {
  irq_disables r : is_usize r → irq_enabled (local_irq_save_and_disable r).2 = false;
  irq_restores r : is_usize r →
    local_irq_restore (local_irq_save_and_disable r).1 (local_irq_save_and_disable r).2 = r;
}.

(** x86: [RFLAGS] with [cli] and [sti]. *)
Definition IF_BIT : Z := 1 .<< 9.
Definition x86_local_irq_save_and_disable (rflags : Z) : Z * Z :=
  (rflags .& IF_BIT, rflags .& ~. IF_BIT).
Definition x86_local_irq_restore (flags rflags : Z) : Z :=
  if negb (flags =? 0) then rflags .| IF_BIT else rflags .& ~. IF_BIT.

(** RISC-V: [sstatus] with [csrrc] and [csrrs]. *)
Definition SIE_BIT : Z := 1 .<< 1.
Definition riscv_local_irq_save_and_disable (sstatus : Z) : Z * Z :=
  (sstatus .& SIE_BIT, sstatus .& ~. SIE_BIT).
Definition riscv_local_irq_restore (flags sstatus : Z) : Z := sstatus .| flags.

(** AArch64: [DAIF], where bit 7 masks interrupts ([daifset, #2]). *)
Definition aarch64_local_irq_save_and_disable (daif : Z) : Z * Z := (daif, daif .| (1 .<< 7)).
Definition aarch64_local_irq_restore (flags daif : Z) : Z := flags.

#[export] Instance x86_irq : IrqArch := {|
  local_irq_save_and_disable := x86_local_irq_save_and_disable;
  local_irq_restore := x86_local_irq_restore;
  irq_enabled r := Z.testbit r 9 |}.

Definition riscv_irq : IrqArch := {|
  local_irq_save_and_disable := riscv_local_irq_save_and_disable;
  local_irq_restore := riscv_local_irq_restore;
  irq_enabled r := Z.testbit r 1 |}.

Definition aarch64_irq : IrqArch := {|
  local_irq_save_and_disable := aarch64_local_irq_save_and_disable;
  local_irq_restore := aarch64_local_irq_restore;
  irq_enabled r := negb (Z.testbit r 7) |}.

(** ** Guards ([lib.rs]) *)

(** What a guard changes on its CPU: the flags, and the count of
    [disable_preempt] of the current task. *)
Record cpu := { c_flags : Z; c_preempt : Z }.

Definition kg_disable_preempt (c : cpu) : cpu :=
  {| c_flags := c_flags c; c_preempt := c_preempt c ⊕ 1 |}.
Definition kg_enable_preempt (c : cpu) : cpu :=
  {| c_flags := c_flags c; c_preempt := c_preempt c ⊖ 1 |}.

Class BaseGuard := {
  GState : Type;
  acquire : cpu → GState * cpu;
  release : GState → cpu → cpu;
}.

Section guards.
Context `{A : IrqArch}.

Definition irq_acquire (c : cpu) : Z * cpu :=
  let '(flags, r) := local_irq_save_and_disable (c_flags c) in
  (flags, {| c_flags := r; c_preempt := c_preempt c |}).
Definition irq_release (flags : Z) (c : cpu) : cpu :=
  {| c_flags := local_irq_restore flags (c_flags c); c_preempt := c_preempt c |}.

Definition NoOp : BaseGuard := {| GState := unit; acquire c := (tt, c); release _ c := c |}.
Definition IrqSave : BaseGuard := {| GState := Z; acquire := irq_acquire; release := irq_release |}.
Definition NoPreempt : BaseGuard := {|
  GState := unit;
  acquire c := (tt, kg_disable_preempt c);
  release _ c := kg_enable_preempt c |}.
Definition NoPreemptIrqSave : BaseGuard := {|
  GState := Z;
  acquire c := irq_acquire (kg_disable_preempt c);
  release flags c := kg_enable_preempt (irq_release flags c) |}.
End guards.

(** ** The spin lock ([base.rs]) *)

(** [compare_exchange(_weak)(false, true)] on the word. *)
Definition try_set (spurious : bool) (lock : bool) : bool * bool :=
  if spurious then (false, lock) else if lock then (false, lock) else (true, true).

Section spinlock.
Context `{G : BaseGuard}.

(** A CPU: outside; at the exchange of [lock]; waiting while the lock looks
    taken; holding the guard; in its [drop] after the word was cleared.  It
    carries [irq_state] and, for the statements, what the CPU was before. *)
Inductive spin_pc :=
  SOut
| SExchange (c0 : cpu) (irq_state : GState)
| SWait (c0 : cpu) (irq_state : GState)
| SHeld (c0 : cpu) (irq_state : GState)
| SDrop (c0 : cpu) (irq_state : GState).

Record spin_sys := {
  sp_lock : bool;
  sp_cpu : Z → cpu;
  sp_pc : Z → spin_pc;
}.

(** [try_lock]: nothing undoes [acquire] when the lock is taken. *)
Definition spin_try_lock (i : Z) (s : spin_sys) : spin_sys :=
  let '(irq_state, c) := acquire (sp_cpu s i) in
  let '(is_unlocked, lock) := try_set false (sp_lock s) in
  {| sp_lock := lock; sp_cpu := <[i := c]> (sp_cpu s);
     sp_pc := if is_unlocked then <[i := SHeld (sp_cpu s i) irq_state]> (sp_pc s) else sp_pc s |}.

Definition spin_begin (i : Z) (s : spin_sys) : spin_sys :=
  let '(irq_state, c) := acquire (sp_cpu s i) in
  {| sp_lock := sp_lock s; sp_cpu := <[i := c]> (sp_cpu s);
     sp_pc := <[i := SExchange (sp_cpu s i) irq_state]> (sp_pc s) |}.

Definition spin_exchange (spurious : bool) (i : Z) (c0 : cpu) (irq_state : GState) (s : spin_sys)
    : spin_sys :=
  let '(ok, lock) := try_set spurious (sp_lock s) in
  {| sp_lock := lock; sp_cpu := sp_cpu s;
     sp_pc := <[i := if ok then SHeld c0 irq_state else SWait c0 irq_state]> (sp_pc s) |}.

(** [while self.is_locked()]. *)
Definition spin_wait (i : Z) (c0 : cpu) (irq_state : GState) (s : spin_sys) : spin_sys :=
  {| sp_lock := sp_lock s; sp_cpu := sp_cpu s;
     sp_pc := if sp_lock s then sp_pc s else <[i := SExchange c0 irq_state]> (sp_pc s) |}.

(** [drop] of the guard: the word, then the guard's state. *)
Definition spin_clear (i : Z) (c0 : cpu) (irq_state : GState) (s : spin_sys) : spin_sys :=
  {| sp_lock := false; sp_cpu := sp_cpu s; sp_pc := <[i := SDrop c0 irq_state]> (sp_pc s) |}.
Definition spin_release (i : Z) (irq_state : GState) (s : spin_sys) : spin_sys :=
  {| sp_lock := sp_lock s; sp_cpu := <[i := release irq_state (sp_cpu s i)]> (sp_cpu s);
     sp_pc := <[i := SOut]> (sp_pc s) |}.

(** Steps of the CPUs; outside the lock a CPU does what it wants. *)
Inductive spin_step : spin_sys → spin_sys → Prop :=
| sp_begin i s : sp_pc s i = SOut → spin_step s (spin_begin i s)
| sp_try i s : sp_pc s i = SOut → spin_step s (spin_try_lock i s)
| sp_exchange i b c0 st s : sp_pc s i = SExchange c0 st → spin_step s (spin_exchange b i c0 st s)
| sp_wait i c0 st s : sp_pc s i = SWait c0 st → spin_step s (spin_wait i c0 st s)
| sp_clear i c0 st s : sp_pc s i = SHeld c0 st → spin_step s (spin_clear i c0 st s)
| sp_release i c0 st s : sp_pc s i = SDrop c0 st → spin_step s (spin_release i st s)
| sp_other i c s : sp_pc s i = SOut →
    spin_step s {| sp_lock := sp_lock s; sp_cpu := <[i := c]> (sp_cpu s); sp_pc := sp_pc s |}.

Definition spin_new (cpus : Z → cpu) : spin_sys :=
  {| sp_lock := false; sp_cpu := cpus; sp_pc := λ _, SOut |}.

Definition holds (p : spin_pc) : Prop := ∃ c0 st, p = SHeld c0 st.

(** What a CPU in the lock was before, and its saved state. *)
Definition entered (p : spin_pc) : option (cpu * GState) :=
  match p with
  | SOut => None
  | SExchange c0 st | SWait c0 st | SHeld c0 st | SDrop c0 st => Some (c0, st)
  end.

Record spin_inv (s : spin_sys) : Prop := {
  si_one i j : holds (sp_pc s i) → holds (sp_pc s j) → i = j;
  si_lock : sp_lock s = true ↔ ∃ i, holds (sp_pc s i);
  si_cpu i c0 st : entered (sp_pc s i) = Some (c0, st) → acquire c0 = (st, sp_cpu s i);
}.

Lemma spin_set_pc s i p : ∀ j,
  <[i := p]> (sp_pc s) j = if decide (i = j) then p else sp_pc s j.
Proof. intros j. case_decide; subst; [apply fn_lookup_insert|by apply fn_lookup_insert_ne]. Qed.

(** The CPU [i] moves; [f] is what the CPUs are afterwards. *)
Lemma si_cpu_move s i p f :
  spin_inv s → (∀ j, j ≠ i → f j = sp_cpu s j) →
  (∀ c0 st, entered p = Some (c0, st) → acquire c0 = (st, f i)) →
  ∀ j c0 st, entered (if decide (i = j) then p else sp_pc s j) = Some (c0, st) →
  acquire c0 = (st, f j).
Proof.
  intros [] Hf Hc j c0 st. case_decide; subst; [apply Hc|]. rewrite Hf by done. apply si_cpu0.
Qed.

(** It does not hold the lock before or after. *)
Lemma spin_inv_move s i p f :
  spin_inv s → (∀ j, j ≠ i → f j = sp_cpu s j) → ¬ holds (sp_pc s i) → ¬ holds p →
  (∀ c0 st, entered p = Some (c0, st) → acquire c0 = (st, f i)) →
  spin_inv {| sp_lock := sp_lock s; sp_cpu := f; sp_pc := <[i := p]> (sp_pc s) |}.
Proof.
  intros Hi Hf Hn Hp Hc. pose proof (si_cpu_move s i p f Hi Hf Hc).
  destruct Hi. split; simpl; setoid_rewrite spin_set_pc; [| |done].
  - intros j j'. repeat case_decide; subst; naive_solver.
  - rewrite si_lock0. split; intros [j Hj]; exists j; case_decide; naive_solver.
Qed.

(** It takes the free lock. *)
Lemma spin_inv_take s i f c0 st :
  spin_inv s → (∀ j, j ≠ i → f j = sp_cpu s j) → sp_lock s = false → acquire c0 = (st, f i) →
  spin_inv {| sp_lock := true; sp_cpu := f; sp_pc := <[i := SHeld c0 st]> (sp_pc s) |}.
Proof.
  intros Hi Hf Hl Hc. pose proof (si_cpu_move s i (SHeld c0 st) f Hi Hf) as Hcpu.
  destruct Hi. assert (∀ j, ¬ holds (sp_pc s j)) as Hno.
  { intros j Hj. assert (sp_lock s = true) by (apply si_lock0; eauto). congruence. }
  split; simpl; setoid_rewrite spin_set_pc.
  - intros j j'. repeat case_decide; subst; naive_solver.
  - split; [|done]. intros _. exists i. rewrite decide_True by done. by eexists _, _.
  - apply Hcpu. intros c0' st' [= -> ->]. done.
Qed.

(** It gives the lock back. *)
Lemma spin_inv_clear s i c0 st :
  spin_inv s → sp_pc s i = SHeld c0 st → spin_inv (spin_clear i c0 st s).
Proof.
  intros Hi Hpc. pose proof (si_cpu_move s i (SDrop c0 st) (sp_cpu s) Hi (λ _ _, eq_refl)) as Hcpu.
  destruct Hi. assert (holds (sp_pc s i)) as Hold by (rewrite Hpc; by eexists _, _).
  split; simpl; setoid_rewrite spin_set_pc.
  - intros j j'. repeat case_decide; try (by intros (? & ? & ?)); try (by intros _ (? & ? & ?)).
    apply si_one0.
  - split; [done|]. intros [j Hj]. case_decide; [by destruct Hj as (? & ? & ?)|].
    by destruct (si_one0 i j Hold Hj).
  - apply Hcpu. intros c0' st' [= <- <-]. apply si_cpu0. by rewrite Hpc.
Qed.

Lemma not_holds p : (∀ c0 st, p ≠ SHeld c0 st) → ¬ holds p.
Proof. intros Hp (c0 & st & ->). by apply (Hp c0 st). Qed.

Lemma spin_step_inv s s' : spin_step s s' → spin_inv s → spin_inv s'.
Proof.
  destruct 1 as [i s Hpc|i s Hpc|i b c0 st s Hpc|i c0 st s Hpc|i c0 st s Hpc|i c0 st s Hpc|i c s Hpc];
    intros Hi; try assert (∀ c0 st, sp_pc s i ≠ SHeld c0 st) as Hn%not_holds by congruence.
  - unfold spin_begin. destruct (acquire _) as [st c] eqn:Hc.
    apply spin_inv_move; [done|by intros; apply fn_lookup_insert_ne|done|by apply not_holds|].
    intros ? ? [= <- <-]. by rewrite fn_lookup_insert.
  - unfold spin_try_lock, try_set. destruct (acquire _) as [st c] eqn:Hc.
    destruct (sp_lock s) eqn:Hl; [rewrite <- Hl at 1|].
    + destruct Hi. split; simpl; [done..|]. intros j c0 st' He.
      rewrite fn_lookup_insert_ne; [by apply si_cpu0|]. intros <-. by rewrite Hpc in He.
    + apply spin_inv_take; [done|by intros; apply fn_lookup_insert_ne|done|].
      by rewrite fn_lookup_insert.
  - assert (acquire c0 = (st, sp_cpu s i)) as Hc by (apply (si_cpu _ Hi); by rewrite Hpc).
    assert (spin_inv {| sp_lock := sp_lock s; sp_cpu := sp_cpu s;
      sp_pc := <[i := SWait c0 st]> (sp_pc s) |}).
    { apply spin_inv_move; [done|done|done|by apply not_holds|]. by intros ? ? [= <- <-]. }
    unfold spin_exchange, try_set. destruct b; [done|]. destruct (sp_lock s) eqn:Hl; [done|].
    by apply spin_inv_take.
  - assert (acquire c0 = (st, sp_cpu s i)) as Hc by (apply (si_cpu _ Hi); by rewrite Hpc).
    unfold spin_wait. destruct (sp_lock s) eqn:Hl; rewrite <- Hl; [by destruct s|].
    apply spin_inv_move; [done|done|done|by apply not_holds|]. by intros ? ? [= <- <-].
  - by apply spin_inv_clear.
  - apply spin_inv_move; [done|by intros; apply fn_lookup_insert_ne|done|by apply not_holds|done].
  - destruct Hi. split; simpl; [done..|]. intros j c0 st' He.
    rewrite fn_lookup_insert_ne; [by apply si_cpu0|]. intros <-. by rewrite Hpc in He.
Qed.

Definition spin_reachable (s : spin_sys) : Prop := ∃ cpus, rtc spin_step (spin_new cpus) s.

Lemma spin_reachable_inv s : spin_reachable s → spin_inv s.
Proof.
  intros [cpus Hsteps]. assert (spin_inv (spin_new cpus)) as Hi.
  { split; simpl; [by intros i j (? & ? & ?)| |done]. split; [done|]. by intros (i & ? & ? & ?). }
  induction Hsteps as [|x y z Hxy _ IH]; [done|]. by apply IH, (spin_step_inv x).
Qed.


End spinlock.

(** ** The architectures *)

Lemma land_lnot_bit r k : is_usize r → 0 ≤ k < 64 → r .& ~. (2 ^ k) = Z.ldiff r (2 ^ k).
Proof.
  intros Hr Hk. apply Z.bits_inj'. intros n Hn. unfold wnot, usize_max.
  rewrite Z.land_spec, Z.ldiff_spec, Z.lxor_spec.
  change (2 ^ 64 - 1) with (Z.ones 64). destruct (decide (n < 64)) as [Hlt|Hge].
  - rewrite Z.ones_spec_low by lia. by destruct (Z.testbit (2 ^ k) n).
  - assert (Z.testbit r n = false) as ->; [|done].
    by apply testbit_usize_high; [|lia].
Qed.

(** Clearing a bit and setting it to what it was. *)
Lemma bit_cleared r k : is_usize r → 0 ≤ k < 64 → Z.testbit (r .& ~. (2 ^ k)) k = false.
Proof.
  intros Hr Hk. rewrite land_lnot_bit by done. rewrite Z.ldiff_spec, Z.pow2_bits_true by lia.
  by rewrite andb_false_r.
Qed.

Lemma bit_restored r k : is_usize r → 0 ≤ k < 64 →
  (r .& ~. (2 ^ k)) .| (r .& 2 ^ k) = r.
Proof.
  intros Hr Hk. rewrite land_lnot_bit by done. apply Z.bits_inj'. intros n Hn.
  rewrite Z.lor_spec, Z.ldiff_spec, Z.land_spec. by destruct (Z.testbit r n), (Z.testbit (2 ^ k) n).
Qed.

Lemma bit_zero r k : 0 ≤ k → Z.testbit r k = false → r .& 2 ^ k = 0.
Proof.
  intros Hk Hb. apply Z.bits_inj'. intros n Hn. rewrite Z.land_spec, Z.bits_0.
  destruct (decide (n = k)) as [->|Hne]; [by rewrite Hb|].
  by rewrite Z.pow2_bits_false, andb_false_r by done.
Qed.

Lemma x86_restores r : is_usize r →
  x86_local_irq_restore (r .& 2 ^ 9) (r .& ~. (2 ^ 9)) = r.
Proof.
  intros Hr. unfold x86_local_irq_restore. change IF_BIT with (2 ^ 9).
  assert (∀ n, 0 ≤ n → n ≠ 9 → Z.testbit (2 ^ 9) n = false) as H9
    by (intros; by apply Z.pow2_bits_false).
  destruct (Z.eqb_spec (r .& 2 ^ 9) 0) as [Hz|Hz]; simpl negb; cbv iota.
  - assert (r .& ~. (2 ^ 9) = r) as Hclear.
    { rewrite <- (bit_restored r 9 Hr) at 2 by lia. by rewrite Hz, Z.lor_0_r. }
    by rewrite !Hclear.
  - assert (Z.testbit r 9 = true) as Hb.
    { destruct (Z.testbit r 9) eqn:Hb; [done|]. by rewrite (bit_zero r 9) in Hz. }
    assert (r .& 2 ^ 9 = 2 ^ 9) as Heq.
    { apply Z.bits_inj'. intros n Hn. rewrite Z.land_spec.
      destruct (decide (n = 9)) as [->|Hne]; [by rewrite Hb|]. by rewrite H9, andb_false_r. }
    rewrite <- Heq at 2. by apply bit_restored.
Qed.

#[export] Instance x86_irq_laws : IrqArchLaws x86_irq.
Proof. split; intros r Hr; [by apply (bit_cleared r 9)|by apply x86_restores]. Qed.

Lemma riscv_irq_laws : IrqArchLaws riscv_irq.
Proof. split; intros r Hr; [by apply (bit_cleared r 1)|by apply (bit_restored r 1)]. Qed.

Lemma aarch64_irq_laws : IrqArchLaws aarch64_irq.
Proof.
  split; intros r Hr; [|done]. change (negb (Z.testbit (r .| 2 ^ 7) 7) = false).
  by rewrite Z.lor_spec, Z.pow2_bits_true, orb_true_r.
Qed.

(** ** [SpinNoIrq] *)

Definition cpu_ok (c : cpu) : Prop := is_usize (c_flags c) ∧ is_usize (c_preempt c).

Section spin_no_irq.
Context `{AL : IrqArchLaws}.

Lemma guard_restores c : cpu_ok c →
  kg_enable_preempt (irq_release (irq_acquire (kg_disable_preempt c)).1
    (irq_acquire (kg_disable_preempt c)).2) = c.
Proof using AL.
  destruct c as [f p]. intros [Hf Hp]. simpl in *. unfold irq_acquire, kg_disable_preempt. simpl.
  pose proof (irq_restores f Hf) as Hr. destruct (local_irq_save_and_disable f) as [st r]. simpl in *.
  unfold kg_enable_preempt, irq_release. simpl. rewrite Hr. f_equal.
  unfold wadd, wsub, wrap. rewrite Zminus_mod_idemp_l. replace (p + 1 - 1) with p by lia.
  by apply Z.mod_small.
Qed.

(** C38: for every number of CPUs that lock, try and unlock a [SpinNoIrq] in
    any order, on every architecture: at most one CPU holds the lock, and the
    word is set exactly when one does; from the moment a CPU starts to take
    the lock until it has given it back its interrupts are off and
    preemption is disabled once more than before; and then both are exactly
    as they were. *)
Theorem spin_no_irq_correct (s : spin_sys (G := NoPreemptIrqSave)) :
  spin_reachable s →
  (∀ i j, holds (sp_pc s i) → holds (sp_pc s j) → i = j) ∧
  (sp_lock s = true ↔ ∃ i, holds (sp_pc s i)) ∧
  (∀ i c0 st, entered (sp_pc s i) = Some (c0, st) → cpu_ok c0 →
     irq_enabled (c_flags (sp_cpu s i)) = false ∧ c_preempt (sp_cpu s i) = c_preempt c0 ⊕ 1 ∧
     sp_cpu (spin_release i st s) i = c0).
Proof using AL.
  intros Hi%spin_reachable_inv. split_and!; [apply Hi..|]. intros i c0 st He Hok.
  pose proof (si_cpu _ Hi i c0 st He) as Hacq. pose proof (guard_restores c0 Hok) as Hres.
  destruct Hok as [Hf _]. pose proof (irq_disables (c_flags c0) Hf) as Hoff.
  simpl in Hacq. rewrite Hacq in Hres. simpl in *.
  rewrite fn_lookup_insert. unfold irq_acquire in Hacq. simpl in Hacq.
  destruct (local_irq_save_and_disable (c_flags c0)) as [fl r]. injection Hacq as <- Hcpu.
  split_and!; [by rewrite <- Hcpu|by rewrite <- Hcpu|exact Hres].
Qed.

(** [try_lock] on a taken lock returns nothing, and leaves the interrupts off
    and preemption disabled. *)
Theorem failed_try_lock_leaks (s : spin_sys (G := NoPreemptIrqSave)) i :
  sp_lock s = true → cpu_ok (sp_cpu s i) →
  let s' := spin_try_lock i s in
  sp_pc s' = sp_pc s ∧ irq_enabled (c_flags (sp_cpu s' i)) = false ∧
  c_preempt (sp_cpu s' i) = c_preempt (sp_cpu s i) ⊕ 1.
Proof using AL.
  intros Hl [Hf _]. pose proof (irq_disables _ Hf) as Hoff. unfold spin_try_lock. simpl.
  unfold irq_acquire. simpl. destruct (local_irq_save_and_disable _) as [fl r]. simpl in *.
  rewrite Hl. simpl. by rewrite fn_lookup_insert.
Qed.
End spin_no_irq.

(** CPU 1 holds the lock, CPU 2 waits for it, both with interrupts on before. *)
Definition spin_demo_cpu : cpu := {| c_flags := 0x202; c_preempt := 0 |}.
Definition spin_demo : spin_sys (G := NoPreemptIrqSave) :=
  let s := spin_begin 2 (spin_try_lock 1 (spin_new (λ _, spin_demo_cpu))) in
  spin_exchange (G := NoPreemptIrqSave) false 2 spin_demo_cpu 0x200 s.

Lemma spin_no_irq_correct_witness :
  sp_lock spin_demo = true ∧ irq_enabled (c_flags (sp_cpu spin_demo 2)) = false ∧
  sp_cpu (spin_release (G := NoPreemptIrqSave) 2 0x200 spin_demo) 2 = spin_demo_cpu ∧
  (∀ i, holds (sp_pc spin_demo i) → i = 1).
Proof.
  assert (spin_reachable spin_demo) as Hr.
  { exists (λ _, spin_demo_cpu). eapply rtc_l; [by apply (sp_try (G := NoPreemptIrqSave) 1)|].
    eapply rtc_l; [by apply (sp_begin (G := NoPreemptIrqSave) 2)|].
    eapply rtc_l; [|apply rtc_refl].
    by apply (sp_exchange (G := NoPreemptIrqSave) 2 false spin_demo_cpu 0x200). }
  destruct (spin_no_irq_correct spin_demo Hr) as (Hone & _ & Hcpu).
  destruct (Hcpu 2 spin_demo_cpu 0x200) as (Hoff & _ & Hback); [done|split; split; done|].
  split_and!; [done|done|done|]. intros i Hi. apply Hone; [done|].
  by exists spin_demo_cpu, 0x200.
Defined.
