(* ===== verification/AxSync.v ===== *)
(** * The sleeping mutex ([modules/axsync])

    [Mutex] of [mutex.rs] over the tasks and wait queues of [AxTask.v].  The
    word [owner_id] is changed without any lock, the wait queue under the
    lock of the run queue: the parts of [lock] and [force_unlock] between two
    such accesses are the steps of a task inside the mutex, interleaved with
    each other and with all other steps of the system. *)

From S2P Require Import Prelude Scheduler TimerList LinkedList AxTask AxTaskSpec.
From stdpp Require Import base numbers sets gmap functions strings relations list.

Open Scope Z_scope.

(** ** The word [owner_id] *)

(** [AtomicU64::compare_exchange] on [owner_id]: the result and the word.  The
    weak one may fail although the word has the expected value. *)
Definition compare_exchange (owner expected new : Z) : result Z Z * Z :=
  if owner =? expected then (Ok owner, new) else (Err owner, owner).

Definition compare_exchange_weak (spurious : bool) (owner expected new : Z) : result Z Z * Z :=
  if spurious then (Err owner, owner) else compare_exchange owner expected new.

Definition is_locked (owner : Z) : bool := negb (owner =? 0).

(** The attempt at the top of the loop of [lock]: [true] when the loop is
    left with the lock. *)
Definition lock_attempt (spurious : bool) (current_id owner : Z) : outcome (bool * Z) :=
  match compare_exchange_weak spurious owner 0 current_id with
  | (Ok _, owner) => Done (true, owner)
  | (Err owner_id, owner) =>
      _ ← assert_true (negb (owner_id =? current_id)); Done (false, owner)
  end.

Definition try_lock (current_id owner : Z) : bool * Z :=
  match compare_exchange owner 0 current_id with
  | (Ok _, owner) => (true, owner)
  | (Err _, owner) => (false, owner)
  end.

(** The first half of [force_unlock], before [notify_one(true)]. *)
Definition force_unlock_swap (current_id owner : Z) : outcome Z :=
  let owner_id := owner in
  let owner := 0 in
  _ ← assert_true (owner_id =? current_id); Done owner.

(** ** Tasks inside the mutex *)

(** Where a task is: outside; about to try in [lock]; about to take the lock
    of the run queue in [wait_until]; inside it after the condition was
    false; after the loop of [wait_until]; owner; in [force_unlock] before
    [notify_one]. *)
Inductive mutex_pc := Out | Trying | Waiting | Blocking | Leaving | Critical | Releasing.

#[global] Instance mutex_pc_eq_dec : EqDecision mutex_pc.
Proof. solve_decision. Defined.

(** In the code of [lock] or [force_unlock]. *)
Definition in_code (p : mutex_pc) : bool :=
  match p with Out | Critical => false | _ => true end.

Section mutex.
Context {S : Type} `{BS : !BaseScheduler S} {ready : S → list Z → Prop}.
Context `{SL : !SchedulerLaws S ready (λ _, True)}.
Context {H : Type} `{MH : !MinHeap H Z} {elems : H → list (TimerEventWrapper Z)}.
Context `{HL : !MinHeapLaws H Z elems}.
(** The wait queue of the mutex. *)
Variable q : wq_id.
Implicit Types (s : sys S H) (c t owner : Z) (l pend cpus : list Z).

Record mutex_sys := {
  m_world : list Z * sys S H * list Z;
  m_owner : Z;
  m_pc : Z → mutex_pc;
}.

Abbreviation world cpus s pend := (@pair (list Z * sys S H) (list Z) (cpus, s) pend).

(** Other steps of the system: they may be anything that leaves the wait
    queue of this mutex alone and that neither blocks nor wakes a task inside
    [lock] or [force_unlock], nor makes it exit.  (A task there has no alarm
    set, and may be preempted.) *)
Definition leaves_mutex_alone (pc : Z → mutex_pc) s s' : Prop :=
  wqs s' q = wqs s q ∧
  ∀ t, in_code (pc t) = true →
    (state (tasks s' t) = Blocked ↔ state (tasks s t) = Blocked) ∧
    (state (tasks s' t) = Exited → state (tasks s t) = Exited).

(** The steps; every one but [ms_other] is of the current task of a CPU
    [c].  The two that take the lock of the run queue wait until no other
    task is in [Blocking], where it is held. *)
Inductive mutex_step : mutex_sys → mutex_sys → Prop :=
| ms_lock cpus s pend owner pc c :
    c ∈ cpus → pc (cur s c) = Out →
    mutex_step {| m_world := world cpus s pend; m_owner := owner; m_pc := pc |}
               {| m_world := world cpus s pend; m_owner := owner; m_pc := <[cur s c := Trying]> pc |}
| ms_attempt cpus s pend owner pc c spurious (b : bool) owner' :
    c ∈ cpus → pc (cur s c) = Trying → lock_attempt spurious (cur s c) owner = Done (b, owner') →
    mutex_step {| m_world := world cpus s pend; m_owner := owner; m_pc := pc |}
               {| m_world := world cpus s pend; m_owner := owner';
                  m_pc := <[cur s c := if b then Critical else Waiting]> pc |}
| ms_condition cpus s pend owner pc c :
    c ∈ cpus → pc (cur s c) = Waiting → (∀ t, pc t ≠ Blocking) →
    mutex_step {| m_world := world cpus s pend; m_owner := owner; m_pc := pc |}
               {| m_world := world cpus s pend; m_owner := owner;
                  m_pc := <[cur s c := if negb (is_locked owner) then Leaving else Blocking]> pc |}
| ms_block cpus s pend owner pc c s' :
    c ∈ cpus → pc (cur s c) = Blocking → block_current c (wq_push q) s = Done s' →
    mutex_step {| m_world := world cpus s pend; m_owner := owner; m_pc := pc |}
               {| m_world := world cpus s' pend; m_owner := owner; m_pc := <[cur s c := Waiting]> pc |}
| ms_cancel cpus s pend owner pc c :
    c ∈ cpus → pc (cur s c) = Leaving →
    mutex_step {| m_world := world cpus s pend; m_owner := owner; m_pc := pc |}
               {| m_world := world cpus (cancel_events q (cur s c) s) pend; m_owner := owner;
                  m_pc := <[cur s c := Trying]> pc |}
| ms_try cpus s pend owner pc c :
    c ∈ cpus → pc (cur s c) = Out →
    mutex_step {| m_world := world cpus s pend; m_owner := owner; m_pc := pc |}
               {| m_world := world cpus s pend; m_owner := (try_lock (cur s c) owner).2;
                  m_pc := <[cur s c := if (try_lock (cur s c) owner).1 then Critical else Out]> pc |}
| ms_swap cpus s pend owner pc c owner' :
    c ∈ cpus → pc (cur s c) = Critical → force_unlock_swap (cur s c) owner = Done owner' →
    mutex_step {| m_world := world cpus s pend; m_owner := owner; m_pc := pc |}
               {| m_world := world cpus s pend; m_owner := owner'; m_pc := <[cur s c := Releasing]> pc |}
| ms_notify cpus s pend owner pc c (b : bool) s' :
    c ∈ cpus → pc (cur s c) = Releasing → (∀ t, pc t ≠ Blocking) →
    notify_one c q true s = Done (b, s') →
    mutex_step {| m_world := world cpus s pend; m_owner := owner; m_pc := pc |}
               {| m_world := world cpus s' pend; m_owner := owner; m_pc := <[cur s c := Out]> pc |}
| ms_other cpus s pend cpus' s' pend' owner pc :
    task_step (world cpus s pend) (world cpus' s' pend') → leaves_mutex_alone pc s s' →
    mutex_step {| m_world := world cpus s pend; m_owner := owner; m_pc := pc |}
               {| m_world := world cpus' s' pend'; m_owner := owner; m_pc := pc |}.

(** A new mutex: unlocked, its queue empty, nobody inside. *)
Definition mutex_new (w : list Z * sys S H * list Z) : mutex_sys :=
  {| m_world := w; m_owner := 0; m_pc := λ _, Out |}.

(** ** The invariant *)

(** A task that will try to take the lock, or pass it on, without being
    woken. *)
Definition active s (pc : Z → mutex_pc) t : Prop :=
  in_code (pc t) = true ∧ pc t ≠ Blocking ∧ t ∉ wqs s q.

Record minv (m : mutex_sys) : Prop := {
  mi_good : good (ready := ready) (elems := elems) (m_world m);
  mi_spawned t : m_pc m t ≠ Out → spawned (m_world m).1.2 t;
  mi_owner t : m_pc m t = Critical ↔ m_owner m = t ∧ t ≠ 0;
  mi_nodup : NoDup (wqs (m_world m).1.2 q);
  mi_queue t : t ∈ wqs (m_world m).1.2 q → m_pc m t = Waiting;
  mi_state t : in_code (m_pc m t) = true →
    state (tasks (m_world m).1.2 t) ≠ Exited ∧
    (state (tasks (m_world m).1.2 t) = Blocked ↔ t ∈ wqs (m_world m).1.2 q);
  mi_wake : m_owner m = 0 →
    wqs (m_world m).1.2 q ≠ [] ∨ (∃ t, m_pc m t = Blocking) →
    ∃ t, active (m_world m).1.2 (m_pc m) t;
}.

(** ** Steps keep the invariant *)

Lemma cancel_events_alone t s pc : t ∉ wqs s q → leaves_mutex_alone pc s (cancel_events q t s).
Proof using Type.
  intros Ht. unfold cancel_events, cancel_alarm.
  assert (filter (λ t', t' ≠ t) (wqs s q) = wqs s q) as Hf.
  { induction (wqs s q) as [|x r IH]; [done|]. apply not_elem_of_cons in Ht as [Hne Hr].
    rewrite filter_cons_True, IH by done. done. }
  split.
  - destruct (in_wait_queue _); [|by case_match]. rewrite Hf. case_match; simpl; by rewrite fn_lookup_insert.
  - intros t' _.
    assert (∀ s1 f (x : sys S H), tasks x = tasks (upd t f s1) → (∀ y, state (f y) = state y) →
      state (tasks x t') = state (tasks s1 t')) as Hflag.
    { intros s1 f x -> Hf'. by apply field_upd. }
    match goal with |- context[tasks (if ?b then _ else ?y)] => set (s1 := y) end.
    assert (state (tasks s1 t') = state (tasks s t')) as Hs1.
    { subst s1. destruct (in_wait_queue _); [|done]. by eapply (Hflag (set_wq q _ s)). }
    destruct (in_timer_list _); rewrite <- Hs1; [|done].
    by erewrite (Hflag s1 (set_in_timer_list false)).
Qed.

(** Where the current task of a CPU is in the mutex. *)
Lemma minv_cur cpus s pend owner pc c :
  minv {| m_world := world cpus s pend; m_owner := owner; m_pc := pc |} → c ∈ cpus →
  spawned s (cur s c) ∧ state (tasks s (cur s c)) = Running ∧ cur s c ∉ wqs s q.
Proof using Type.
  intros Hm Hc. destruct (mi_good _ Hm) as [l Hi].
  destruct (ti_cur _ _ _ _ _ Hi c Hc) as [Hs Hr]; [done|]. simpl in *. split_and!; [done..|].
  intros Hin. pose proof (mi_queue _ Hm _ Hin) as Hpc. simpl in Hpc.
  destruct (mi_state _ Hm (cur s c)) as [_ Hb]; [simpl; by rewrite Hpc|]. apply Hb in Hin.
  simpl in Hin. congruence.
Qed.

(** The world changes and nobody moves. *)
Lemma minv_world cpus s pend cpus' s' pend' owner pc :
  minv {| m_world := world cpus s pend; m_owner := owner; m_pc := pc |} →
  good (ready := ready) (elems := elems) (world cpus' s' pend') → next_id s ≤ next_id s' →
  leaves_mutex_alone pc s s' →
  minv {| m_world := world cpus' s' pend'; m_owner := owner; m_pc := pc |}.
Proof using Type.
  intros [] Hg Hn [Hq Hst]; simpl in *.
  split; unfold active in *; simpl; rewrite ?Hq; try done.
  - intros t Ht. specialize (mi_spawned0 t Ht). unfold spawned in *. lia.
  - intros t Ht. destruct (mi_state0 t Ht) as [Hx Hb]. destruct (Hst t Ht) as [Hb' Hx'].
    rewrite Hb'. naive_solver.
Qed.

(** The current task moves and may change the owner to or from itself. *)
Lemma minv_move cpus s pend owner owner' pc c p :
  minv {| m_world := world cpus s pend; m_owner := owner; m_pc := pc |} → c ∈ cpus →
  (p = Critical ↔ owner' = cur s c) → (∀ t, t ≠ cur s c → t ≠ 0 → owner' = t ↔ owner = t) →
  in_code p = true ∧ p ≠ Blocking ∨ owner' ≠ 0 ∨ p = pc (cur s c) ∧ owner' = owner →
  minv {| m_world := world cpus s pend; m_owner := owner'; m_pc := <[cur s c := p]> pc |}.
Proof using Type.
  intros Hm Hc Hown Hoth Hw. destruct (minv_cur _ _ _ _ _ _ Hm Hc) as (Hs & Hr & Hnq).
  destruct Hm; simpl in *. assert (0 < cur s c) by (unfold spawned in Hs; lia).
  split; simpl; try done.
  - intros t. destruct (decide (cur s c = t)) as [<-|Hne]; [done|].
    rewrite fn_lookup_insert_ne by done. apply mi_spawned0.
  - intros t. destruct (decide (cur s c = t)) as [<-|Hne].
    + rewrite fn_lookup_insert, Hown. split; [|by intros []]. split; [done|lia].
    + rewrite fn_lookup_insert_ne, mi_owner0 by done. specialize (Hoth t). naive_solver.
  - intros t Ht. rewrite fn_lookup_insert_ne; [by apply mi_queue0|congruence].
  - intros t. destruct (decide (cur s c = t)) as [<-|Hne].
    + intros _. rewrite Hr. done.
    + rewrite fn_lookup_insert_ne by done. apply mi_state0.
  - intros Ho Hq. destruct Hw as [[Hp1 Hp2]|[?|[-> ->]]]; [|done|].
    + exists (cur s c). unfold active. by rewrite fn_lookup_insert.
    + assert (∀ t, <[cur s c := pc (cur s c)]> pc t = pc t) as Hsame.
      { intros t. destruct (decide (cur s c = t)) as [<-|]; [by rewrite fn_lookup_insert|].
        by rewrite fn_lookup_insert_ne. }
      unfold active. setoid_rewrite Hsame. apply mi_wake0; [done|].
      destruct Hq as [?|[t Ht]]; [by left|]. rewrite Hsame in Ht. eauto.
Qed.

(** *** Blocking *)

Lemma pick_states c s s' t :
  pick_and_switch c s = Done s' →
  state (tasks s' t) = state (tasks s t) ∨ state (tasks s' t) = Running.
Proof using Type.
  unfold pick_and_switch, mbind, outcome_bind. destruct (pick_next_task _) as [[o r]|]; [|done].
  intros [= <-]. rewrite tasks_switch, state_upd_state. case_decide; [by right|left].
  by rewrite (field_upd state).
Qed.

(** Blocking changes the state of the current task only, but for the task
    picked, which was ready. *)
Lemma block_effect cpus c s l pend s' :
  tinv (ready := ready) (elems := elems) None cpus s l pend → c ∈ cpus →
  block_current c (wq_push q) s = Done s' →
  good (ready := ready) (elems := elems) (world cpus s' pend) ∧ next_id s' = next_id s ∧
  wqs s' q = wqs s q ++ [cur s c] ∧ state (tasks s' (cur s c)) = Blocked ∧
  ∀ t, t ≠ cur s c → (state (tasks s' t) = Blocked ↔ state (tasks s t) = Blocked) ∧
    (state (tasks s' t) = Exited → state (tasks s t) = Exited).
Proof using SL HL.
  intros Hi Hc Hrun. destruct (block_not_idle _ _ _ _ Hrun) as [Hnid Hpre].
  destruct (block_current_spec cpus c s l pend q Hi Hc Hnid Hpre)
    as (s2 & l2 & Hrun2 & Hi2 & Hst & Hwq & _ & Hsame).
  rewrite Hrun in Hrun2. injection Hrun2 as <-.
  set (s1 := wq_push q (cur s c) (upd (cur s c) (set_state Blocked) s)).
  assert (pick_and_switch c s1 = Done s') as Hpick.
  { unfold block_current in Hrun. destruct (is_running _); [|done]. rewrite Hnid, Hpre in Hrun.
    simpl in Hrun. fold s1 in Hrun. unfold resched, put_current, is_running in Hrun.
    change (cur s1 c) with (cur s c) in Hrun. rewrite bool_decide_false in Hrun; [done|].
    subst s1. simpl. rewrite !fn_lookup_insert. done. }
  split; [by exists l2|]. split_and!; [|by rewrite Hwq, fn_lookup_insert|done|].
  - unfold pick_and_switch, mbind, outcome_bind in Hpick.
    destruct (pick_next_task _) as [[o r]|]; [|done]. injection Hpick as <-.
    unfold switch_to. by case_decide.
  - intros t Hne. assert (state (tasks s1 t) = state (tasks s t)) as Hs1.
    { subst s1. simpl. by rewrite !fn_lookup_insert_ne. }
    destruct (pick_states _ _ _ t Hpick) as [Heq|Heq]; rewrite Heq, <- ?Hs1; [done|].
    split; [|done]. split; [done|]. rewrite Hs1. intros Hb.
    rewrite Hsame in Heq by congruence. congruence.
Qed.

(** Blocking in the queue of the mutex. *)
Lemma minv_block cpus s pend owner pc c s' :
  minv {| m_world := world cpus s pend; m_owner := owner; m_pc := pc |} → c ∈ cpus →
  pc (cur s c) = Blocking → block_current c (wq_push q) s = Done s' →
  minv {| m_world := world cpus s' pend; m_owner := owner; m_pc := <[cur s c := Waiting]> pc |}.
Proof using SL HL.
  intros Hm Hc Hpc Hrun. destruct (minv_cur _ _ _ _ _ _ Hm Hc) as (Hs & Hr & Hnq).
  destruct (mi_good _ Hm) as [l Hi]. simpl in Hi.
  destruct (block_effect cpus c s l pend s' Hi Hc Hrun) as (Hg & Hn & Hq & Hb & Hoth).
  assert (0 < cur s c) as Hpos by (unfold spawned in Hs; lia).
  destruct Hm; simpl in *. split; unfold active in *; simpl; rewrite ?Hq; try done.
  - intros t Ht. unfold spawned in *. rewrite Hn. destruct (decide (cur s c = t)) as [<-|Hne]; [done|].
    rewrite fn_lookup_insert_ne in Ht by done. by apply mi_spawned0.
  - intros t. rewrite <- mi_owner0. destruct (decide (cur s c = t)) as [<-|Hne].
    + rewrite fn_lookup_insert, Hpc. done.
    + by rewrite fn_lookup_insert_ne.
  - apply NoDup_app. split_and!; [done| |apply NoDup_singleton].
    intros t Ht ->%list_elem_of_singleton. done.
  - intros t [Ht| ->%list_elem_of_singleton]%elem_of_app; [|by rewrite fn_lookup_insert].
    rewrite fn_lookup_insert_ne; [by apply mi_queue0|]. by intros <-.
  - intros t. destruct (decide (cur s c = t)) as [<-|Hne].
    + rewrite Hb. intros _. split; [done|]. set_solver.
    + rewrite fn_lookup_insert_ne by done. intros Ht. destruct (mi_state0 t Ht) as [Hx Hbl].
      destruct (Hoth t) as [Hb' Hx']; [done|]. rewrite Hb', Hbl. split; [auto|]. set_solver.
  - intros Ho _. destruct (mi_wake0 Ho) as (t & Hcode & Hnb & Hnt); [by eauto|].
    assert (cur s c ≠ t) by congruence. exists t. rewrite fn_lookup_insert_ne by done. set_solver.
Qed.

(** *** Waking *)

Lemma notify_others c b s r s' h rest t :
  notify_one_locked c q b s = Done (r, s') → wqs s q = h :: rest → t ≠ h →
  state (tasks s' t) = state (tasks s t).
Proof using Type.
  unfold notify_one_locked, unblock_task. intros Hrun Hq Hne. rewrite Hq in Hrun.
  destruct (is_blocked _).
  - unfold mbind, outcome_bind in Hrun. destruct (add_task _ _) as [q'|]; [|done].
    destruct b; injection Hrun as <- <-.
    + rewrite (field_upd state) by done. simpl. by rewrite !fn_lookup_insert_ne.
    + simpl. by rewrite !fn_lookup_insert_ne.
  - injection Hrun as <- <-. simpl. by rewrite fn_lookup_insert_ne.
Qed.

(** [force_unlock] wakes the first of the waiting tasks. *)
Lemma minv_notify cpus s pend owner pc c b s' :
  minv {| m_world := world cpus s pend; m_owner := owner; m_pc := pc |} → c ∈ cpus →
  pc (cur s c) = Releasing → (∀ t, pc t ≠ Blocking) → notify_one c q true s = Done (b, s') →
  minv {| m_world := world cpus s' pend; m_owner := owner; m_pc := <[cur s c := Out]> pc |}.
Proof using SL HL.
  intros Hm Hc Hpc Hnob Hrun. destruct (minv_cur _ _ _ _ _ _ Hm Hc) as (Hs & Hr & Hnq).
  destruct (mi_good _ Hm) as [l Hi]. simpl in Hi.
  assert (∀ t, <[cur s c := Out]> pc t = Critical ↔ pc t = Critical) as Hcrit.
  { intros t. destruct (decide (cur s c = t)) as [<-|]; [by rewrite fn_lookup_insert, Hpc|].
    by rewrite fn_lookup_insert_ne. }
  assert (∀ t, <[cur s c := Out]> pc t ≠ Out → cur s c ≠ t ∧ <[cur s c := Out]> pc t = pc t) as Hin.
  { intros t Ht. destruct (decide (cur s c = t)) as [<-|]; [by rewrite fn_lookup_insert in Ht|].
    by rewrite fn_lookup_insert_ne. }
  assert (∀ t, <[cur s c := Out]> pc t ≠ Blocking) as Hnob'.
  { intros t Ht. destruct (Hin t) as [_ Heq]; [congruence|]. apply (Hnob t). congruence. }
  pose proof (notify_one_locked_spec None cpus c s l pend q true Hi) as Hspec.
  unfold notify_one in Hrun. destruct (wqs s q) as [|h rest] eqn:Hq.
  - injection Hrun as <- <-. destruct Hm; simpl in *. split; simpl; rewrite ?Hq; try done.
    + intros t Ht. apply mi_spawned0. by destruct (Hin t Ht) as [_ <-].
    + intros t. by rewrite Hcrit.
    + constructor.
    + by intros t ?%elem_of_nil.
    + intros t Ht. destruct (Hin t) as [_ Heq]; [by intros Heq; rewrite Heq in Ht|].
      rewrite Heq in Ht. destruct (mi_state0 t Ht) as [? Hb]. by rewrite Hq in Hb.
    + intros _ [?|[t Ht]]; [done|]. by apply Hnob' in Ht.
  - destruct Hspec as (s2 & l2 & Hrun2 & Hi2 & Hw & Hwq & Hh & _).
    rewrite Hrun in Hrun2. injection Hrun2 as -> <-.
    assert (wqs s' q = rest) as Hq' by by rewrite Hwq, fn_lookup_insert.
    assert (∀ t, t ≠ h → state (tasks s' t) = state (tasks s t)) as Hst
      by (intros; by eapply notify_others).
    destruct Hm; simpl in *. rewrite Hq in *. apply NoDup_cons in mi_nodup0 as [Hhr Hnd].
    assert (pc h = Waiting) as Hpch by (apply mi_queue0; left).
    assert (state (tasks s' h) = Ready) as Hready.
    { apply Hh, mi_state0; [by rewrite Hpch|left]. }
    assert (cur s c ≠ h) as Hch by congruence.
    split; simpl; unfold active; simpl; rewrite ?Hq'; try done.
    + by exists l2.
    + intros t Ht. unfold spawned. rewrite (wk_next _ _ Hw). apply mi_spawned0.
      by destruct (Hin t Ht) as [_ <-].
    + intros t. by rewrite Hcrit.
    + intros t Ht. rewrite fn_lookup_insert_ne; [apply mi_queue0; by right|].
      intros <-. apply Hnq. by right.
    + intros t Ht. destruct (Hin t) as [_ Heq]; [by intros Heq; rewrite Heq in Ht|].
      rewrite Heq in Ht. destruct (mi_state0 t Ht) as [Hx Hb].
      destruct (decide (t = h)) as [->|Hne]; [by rewrite Hready|].
      rewrite Hst, Hb, elem_of_cons by done. naive_solver.
    + intros _ _. exists h. by rewrite fn_lookup_insert_ne, Hpch.
Qed.

(** *** Task identifiers are never taken back *)

Ltac next_cases Hrun :=
  unfold mbind, outcome_bind, assert_true in Hrun; repeat case_match; simplify_eq/=; try done.

Lemma next_resched c b s s' : resched c b s = Done s' → next_id s' = next_id s.
Proof using Type.
  unfold resched, put_current, pick_and_switch, switch_to. intros Hrun. next_cases Hrun.
Qed.

Lemma next_unblock c t b s s' : unblock_task c t b s = Done s' → next_id s' = next_id s.
Proof using Type. unfold unblock_task. intros Hrun. next_cases Hrun. Qed.

Lemma next_notify_one c q' b s r s' :
  notify_one_locked c q' b s = Done (r, s') → next_id s' = next_id s.
Proof using Type.
  unfold notify_one_locked. intros Hrun. next_cases Hrun.
  by match goal with Hu : unblock_task _ _ _ _ = _ |- _ => apply next_unblock in Hu end.
Qed.

Lemma next_notify_all fuel c q' b : ∀ s s',
  notify_all_locked fuel c q' b s = Done s' → next_id s' = next_id s.
Proof using Type.
  induction fuel as [|fuel IH]; intros s s' Hrun; [done|]. simpl in Hrun.
  unfold mbind, outcome_bind in Hrun.
  destruct (notify_one_locked c q' b s) as [[r s1]|] eqn:Hone; [|done].
  apply next_notify_one in Hone. rewrite <- Hone. destruct r; simpl in Hrun; [by apply IH|congruence].
Qed.

Lemma next_exit c code s s' : exit_current c code s = Done s' → next_id s' = next_id s.
Proof using Type.
  unfold exit_current, notify_exit. intros Hrun. unfold mbind, outcome_bind in Hrun.
  destruct (assert_true _); [|done]. destruct (assert_true _); [|done].
  destruct (is_init _); [by simplify_eq|].
  destruct (notify_all_locked _ _ _ _ _) as [s1|] eqn:Hall; [|done]. apply next_notify_all in Hall.
  destruct (notify_one_locked _ _ _ _) as [[r s2]|] eqn:Hone; [|done]. apply next_notify_one in Hone.
  apply next_resched in Hrun. simpl in *. congruence.
Qed.

Lemma task_step_next w w' :
  task_step (S := S) (H := H) w w' → next_id w.1.2 ≤ next_id w'.1.2.
Proof using Type.
  destruct 1 as [??? c s' _ Hr|??? c s' _ Hr|??? c _|??? c b s' _ Hr|??? c s' _ Hr
    |??? c prio b s' _ Hr|??? n t s' _ Hr|??? c code s' _ _ Hr|??? c q' s' _ Hr|??? c now dur _
    |??? c q' _|??? c now d s' _ Hr|??? c q' b r s' _ Hr|??? c q' b r s' _ Hr
    |??? c q' b t r s' _ Hr|??? now t s' Hr|???? c t s' _ _ Hr|??? c _|???]; cbn [fst snd].
  all: try (apply next_exit in Hr; lia).
  all: try (apply next_notify_one in Hr; lia).
  all: unfold yield_current, preempt_resched, enable_preempt, current_check_preempt_pending,
    scheduler_timer_tick, set_current_priority, spawn_raw, rq_add_task, new_task, block_current,
    sleep_until, notify_one, notify_task, take_event, wakeup_callback, cancel_events,
    preempt_resched, mbind, outcome_bind, assert_true in *.
  all: repeat case_match; simplify_eq/=; try lia.
  all: match goal with
    | Hu : resched _ _ _ = _ |- _ => apply next_resched in Hu; simpl in Hu; lia
    | Hu : unblock_task _ _ _ _ = _ |- _ => apply next_unblock in Hu; simpl in Hu; lia
    | Hu : notify_one_locked _ _ _ _ = _ |- _ => apply next_notify_one in Hu; simpl in Hu; lia
    end.
Qed.

(** *** All steps *)

Lemma mutex_step_inv m m' : mutex_step m m' → minv m → minv m'.
Proof using SL HL.
  destruct 1 as [cpus s pend owner pc c Hc Hpc|cpus s pend owner pc c spurious b owner' Hc Hpc Hrun
    |cpus s pend owner pc c Hc Hpc Hnob|cpus s pend owner pc c s' Hc Hpc Hrun
    |cpus s pend owner pc c Hc Hpc|cpus s pend owner pc c Hc Hpc
    |cpus s pend owner pc c owner' Hc Hpc Hrun|cpus s pend owner pc c b s' Hc Hpc Hnob Hrun
    |cpus s pend cpus' s' pend' owner pc Hstep Halone]; intros Hm.
  all: try (destruct (minv_cur _ _ _ _ _ _ Hm Hc) as (Hs & Hr & Hnq);
    assert (0 < cur s c) as Hpos by (unfold spawned in Hs; lia);
    pose proof (mi_owner _ Hm (cur s c)) as Hown; simpl in Hown; rewrite Hpc in Hown).
  - apply (minv_move _ _ _ _ _ _ _ _ Hm); naive_solver lia.
  - unfold lock_attempt, compare_exchange_weak, compare_exchange, mbind, outcome_bind, assert_true in Hrun.
    destruct spurious, (Z.eqb_spec owner 0); try destruct (Z.eqb_spec owner (cur s c));
      simplify_eq/=; apply (minv_move _ _ _ _ _ _ _ _ Hm); naive_solver lia.
  - unfold is_locked. rewrite negb_involutive.
    destruct (Z.eqb_spec owner 0); apply (minv_move _ _ _ _ _ _ _ _ Hm); naive_solver lia.
  - by eapply minv_block.
  - assert (minv {| m_world := world cpus (cancel_events q (cur s c) s) pend;
        m_owner := owner; m_pc := pc |}) as Hm2.
    { destruct (mi_good _ Hm) as [l Hi]. eapply minv_world; [exact Hm| | |by apply cancel_events_alone].
      - exists l. by apply cancel_events_spec.
      - pose proof (task_step_next _ _ (ts_cancel cpus s pend c q Hc)). done. }
    assert (cur (cancel_events q (cur s c) s) c = cur s c) as Hcur
      by (unfold cancel_events; by repeat case_match).
    pose proof (minv_move _ _ _ _ owner _ c Trying Hm2 Hc) as Hmv. rewrite Hcur in Hmv.
    apply Hmv; naive_solver lia.
  - unfold try_lock, compare_exchange.
    destruct (Z.eqb_spec owner 0); simpl; apply (minv_move _ _ _ _ _ _ _ _ Hm); naive_solver lia.
  - unfold force_unlock_swap, assert_true, mbind, outcome_bind in Hrun.
    destruct (Z.eqb_spec owner (cur s c)); simplify_eq/=.
    apply (minv_move _ _ _ _ _ _ _ _ Hm); naive_solver lia.
  - by eapply minv_notify.
  - eapply minv_world; [exact Hm| |by apply task_step_next in Hstep|done].
    eapply task_step_good; [exact Hstep|]. apply (mi_good _ Hm).
Qed.

(** ** Histories *)

Definition mutex_reachable (m : mutex_sys) : Prop :=
  ∃ w, reachable w ∧ wqs w.1.2 q = [] ∧ rtc mutex_step (mutex_new w) m.

Lemma mutex_reachable_inv m : mutex_reachable m → minv m.
Proof using SL HL.
  intros (w & Hw & Hq & Hsteps). assert (minv (mutex_new w)) as Hm0.
  { apply reachable_good in Hw. split; simpl; rewrite ?Hq; try done.
    - naive_solver.
    - constructor.
    - by intros t ?%elem_of_nil.
    - naive_solver. }
  induction Hsteps; [done|]. by apply IHHsteps, (mutex_step_inv _ _ H0).
Qed.


End mutex.

(** ** A history of two tasks *)

(** The main task 2 locks the mutex; the worker 5 finds it locked and sleeps;
    the main task has given the mutex back and is about to wake it. *)
Definition mdemo1 : fsys := get (yield_current 0 demo2) demo2.
Definition mdemo2 : fsys := get (yield_current 0 mdemo1) mdemo1.
Definition mdemo3 : fsys := disable_preempt 5 mdemo2.
Definition mdemo4 : fsys := get (block_current 0 (wq_push (WqUser 0)) mdemo3) mdemo3.
Definition mdemo_pc : Z → mutex_pc :=
  <[2 := Releasing]> (<[5 := Waiting]> (<[5 := Blocking]> (<[5 := Waiting]> (<[5 := Trying]>
    (<[2 := Critical]> (<[2 := Trying]> (λ _, Out))))))).

Abbreviation mstate s owner pc :=
  {| m_world := (@pair (list Z * fsys) (list Z) ([1; 0], s) []); m_owner := owner; m_pc := pc |}
  (only parsing).

Lemma demo2_reachable : reachable ([1; 0], demo2, []).
Proof.
  exists 0, demo0. split; [by apply get_done|].
  eapply rtc_l; [apply (ts_secondary [0] demo0 [] 1); set_solver|].
  eapply rtc_l; [|apply rtc_refl].
  destruct (get2_done (spawn_raw "worker" demo1) demo1) as [t Ht]; [by vm_compute|].
  by apply (ts_spawn _ demo1 _ "worker" t demo2).
Qed.

(** The steps of the task [x], current on CPU 0. *)
Record mstep_at (s : fsys) (x : Z) : Prop := {
  at_lock owner pc : pc x = Out →
    mutex_step (WqUser 0) (mstate s owner pc) (mstate s owner (<[x := Trying]> pc));
  at_attempt owner pc spurious (b : bool) owner' : pc x = Trying →
    lock_attempt spurious x owner = Done (b, owner') →
    mutex_step (WqUser 0) (mstate s owner pc)
      (mstate s owner' (<[x := if b then Critical else Waiting]> pc));
  at_condition owner pc : pc x = Waiting → (∀ t, pc t ≠ Blocking) →
    mutex_step (WqUser 0) (mstate s owner pc)
      (mstate s owner (<[x := if negb (is_locked owner) then Leaving else Blocking]> pc));
  at_block owner pc s' : pc x = Blocking → block_current 0 (wq_push (WqUser 0)) s = Done s' →
    mutex_step (WqUser 0) (mstate s owner pc) (mstate s' owner (<[x := Waiting]> pc));
  at_swap owner pc owner' : pc x = Critical → force_unlock_swap x owner = Done owner' →
    mutex_step (WqUser 0) (mstate s owner pc) (mstate s owner' (<[x := Releasing]> pc));
}.

Lemma mstep_at_cur (s : fsys) : mstep_at s (cur s 0).
Proof. assert (0 ∈ [1; 0]) by set_solver. split; intros; econstructor; eauto. Qed.

Lemma other_step (s s' : fsys) owner pc :
  task_step ([1; 0], s, []) ([1; 0], s', []) → leaves_mutex_alone (WqUser 0) pc s s' →
  mutex_step (WqUser 0) (mstate s owner pc) (mstate s' owner pc).
Proof. by constructor. Qed.

Ltac alone :=
  split; [by vm_compute|]; intros t; unfold insert, fn_insert; repeat case_decide; subst;
  first [let Hx := fresh in intros Hx; discriminate Hx | intros _; split; [split|]; by vm_compute].

Lemma mdemo_reachable : mutex_reachable (WqUser 0) (mstate mdemo4 0 mdemo_pc).
Proof.
  exists ([1; 0], demo2, []). split; [exact demo2_reachable|]. split; [by vm_compute|].
  assert (0 ∈ [1; 0]) as H0 by set_solver.
  assert (cur demo2 0 = 2 ∧ cur mdemo2 0 = 5 ∧ cur mdemo3 0 = 5 ∧ cur mdemo4 0 = 2)
    as (E2 & E5 & E5' & E2') by by vm_compute.
  assert (∀ x s (E : cur s 0 = x), mstep_at s x) as Hat by (intros x s <-; apply mstep_at_cur).
  pose proof (Hat 2 demo2 E2) as [L2 A2 _ _ _]. pose proof (Hat 5 mdemo2 E5) as [L5 A5 C5 _ _].
  pose proof (Hat 5 mdemo3 E5') as [_ _ _ B5 _]. pose proof (Hat 2 mdemo4 E2') as [_ _ _ _ W2].
  eapply rtc_l; [by apply L2|]. eapply rtc_l; [by apply (A2 _ _ false true 2)|].
  eapply rtc_l; [apply (other_step demo2 mdemo1); [|alone]|].
  { apply (ts_yield _ demo2 _ 0 mdemo1 H0). apply get_done. by vm_compute. }
  eapply rtc_l; [apply (other_step mdemo1 mdemo2); [|alone]|].
  { apply (ts_yield _ mdemo1 _ 0 mdemo2 H0). apply get_done. by vm_compute. }
  eapply rtc_l; [by apply L5|]. eapply rtc_l; [by apply (A5 _ _ false false 2)|].
  eapply rtc_l; [apply C5; [done|]; intros t; unfold insert, fn_insert; by repeat case_decide|].
  eapply rtc_l; [apply (other_step mdemo2 mdemo3); [|alone]|].
  { pose proof (ts_disable [1; 0] mdemo2 [] 0 H0) as Hd. by rewrite E5 in Hd. }
  eapply rtc_l; [apply (B5 _ _ mdemo4); [done|]; apply get_done; by vm_compute|].
  eapply rtc_l; [by apply (W2 _ _ 0)|]. apply rtc_refl.
Qed.

