(* ===== verification/HvMem.v ===== *)
(** * Guest physical memory of a virtual machine ([modules/axtask/src/hv/mm.rs], [gpm.rs])

    A virtual machine keeps its guest physical memory as an ordered map of
    regions next to a nested page table.  The nested page table belongs to the
    crate [hypercraft], which is not part of the repository: it is the type
    class [NestedPageTable], with its behaviour on 4K pages as
    [NestedPageTableLaws].  The page table of [PageTable.v] meets these laws. *)

From S2P Require Import Prelude MemoryAddr Extern PageTableEntry PageTable PageTableSpec BTree.
From stdpp Require Import base numbers list gmap sorting.

Open Scope Z_scope.
Open Scope word_scope.

(** ** What the code uses of [hypercraft] *)

Inductive HyperError :=
| HvInternal
| HvNotSupported
| HvNoMemory
| HvInvalidParam
| HvBadState
| HvShutdown.

Class NestedPageTable (N : Type) := {
  npt_PAGE_SIZE : Z;
  (** [try_new], or [try_new_gpt] on RISC-V. *)
  npt_new : result PagingError N;
  npt_root_paddr : N → Z;
  (** [map] and [unmap] of a 4K page. *)
  npt_map : Z → Z → Z → stm N PagingError unit;
  npt_unmap : Z → stm N PagingError (Z * PageSize);
  npt_query : Z → N → outcome (result PagingError (Z * Z * PageSize));
  npt_map_region : Z → Z → Z → Z → bool → stm N PagingError unit;
}.

(** [npt_ok]: the table is well formed and has 4K pages only; [npt_view] is
    its translation; [npt_span] bounds the guest addresses it can translate;
    [npt_flags] are the flags its entries keep, and [npt_pa] the host frames
    and flags they can hold. *)
Class NestedPageTableLaws {N} (NPT : NestedPageTable N) (npt_ok : N → Prop)
    (npt_view : N → Z → option (Z * Z)) (npt_span : Z) (npt_flags : Z → Z)
    (npt_pa : Z → Z → Prop) : Prop := {
  law_page_size : npt_PAGE_SIZE = 0x1000;
  law_span : npt_span < 2 ^ 64;
  law_new n : npt_new = Ok n → npt_ok n ∧ ∀ va, npt_view n va = None;
  law_map n gpa hpa fl :
    npt_ok n → (0x1000 | gpa) → 0 ≤ gpa < npt_span → npt_pa hpa fl →
    ∃ n' r, npt_map gpa hpa fl n = Done (n', r) ∧
    match r with
    | Ok _ => npt_ok n' ∧ ∀ va, 0 ≤ va < npt_span →
        npt_view n' va =
          if va - va mod 0x1000 =? gpa then Some (hpa + va mod 0x1000, npt_flags fl)
          else npt_view n va
    | Err e => e = NoMemory ∨ npt_view n gpa ≠ None
    end;
  law_unmap n gpa :
    npt_ok n → (0x1000 | gpa) → 0 ≤ gpa < npt_span →
    ∃ n' r, npt_unmap gpa n = Done (n', r) ∧
    match r with
    | Ok _ => npt_ok n' ∧ ∀ va, 0 ≤ va < npt_span →
        npt_view n' va = if va - va mod 0x1000 =? gpa then None else npt_view n va
    | Err _ => npt_view n gpa = None
    end;
  law_query n va :
    npt_ok n → 0 ≤ va < npt_span →
    npt_query va n = Done match npt_view n va with
                          | Some (pa, fl) => Ok (pa, fl, Size4K)
                          | None => Err NotMapped
                          end;
}.

(** ** [GuestPageTable] ([gpm.rs]) *)

Section guest_page_table.
Context {N : Type} {NPT : NestedPageTable N}.

(** [Result::unwrap] of an operation on the table. *)
Definition npt_unwrap {T} (o : outcome (N * result PagingError T)) : outcome (T * N) :=
  '(n, r) ← o; match r with Ok t => Done (t, n) | Err _ => Panic end.

Definition GuestPageTable_new : result HyperError N :=
  match npt_new with Ok n => Ok n | Err _ => Err HvNoMemory end.

Definition GuestPageTable_map (gpa hpa flags : Z) (n : N) : outcome N :=
  snd <$> npt_unwrap (npt_map gpa hpa flags n).

Definition GuestPageTable_map_region (gpa hpa size flags : Z) (n : N) : outcome N :=
  snd <$> npt_unwrap (npt_map_region gpa hpa size flags true n).

Definition GuestPageTable_unmap (gpa : Z) (n : N) : outcome N :=
  snd <$> npt_unwrap (npt_unmap gpa n).

Definition GuestPageTable_translate (gpa : Z) (n : N) : outcome Z :=
  r ← npt_query gpa n;
  match r with Ok (addr, _, _) => Done addr | Err _ => Panic end.

(** On x86-64 and RISC-V. *)
Definition GuestPageTable_token (n : N) : Z := (8 .<< 60) .| (npt_root_paddr n .>> 12).

(** ** [mm.rs] *)

Definition hv_is_aligned (addr : Z) : bool := addr .& (npt_PAGE_SIZE ⊖ 1) =? 0.

Inductive Mapper :=
| Offset (off : Z).

Record GuestMemoryRegion := {
  gmr_gpa : Z;
  gmr_hpa : Z;
  gmr_size : Z;
  gmr_flags : Z;
}.

Record MapRegion := {
  mr_start : Z;
  mr_size : Z;
  mr_flags : Z;
  mr_mapper : Mapper;
}.

Definition new_offset (start_gpa start_hpa size flags : Z) : outcome MapRegion :=
  assert_true (hv_is_aligned start_gpa);;
  assert_true (hv_is_aligned start_hpa);;
  assert_true (hv_is_aligned size);;
  Done {| mr_start := start_gpa; mr_size := size; mr_flags := flags;
          mr_mapper := Offset (start_gpa ⊖ start_hpa) |}.

Definition is_overlap_with (self other : MapRegion) : bool :=
  let s0 := mr_start self in
  let e0 := s0 ⊕ mr_size self in
  let s1 := mr_start other in
  let e1 := s1 ⊕ mr_size other in
  negb ((e0 <=? s1) || (e1 <=? s0)).

Definition mr_target (self : MapRegion) (gpa : Z) : Z :=
  match mr_mapper self with Offset off => gpa ⊖ off end.

(** The pages of a region, and the fuel of the loops over them. *)
Definition mr_fuel (self : MapRegion) : nat := S (Z.to_nat (mr_size self `div` npt_PAGE_SIZE)).

Fixpoint map_to_loop (fuel : nat) (self : MapRegion) (start end_ : Z) (n : N) : outcome N :=
  match fuel with
  | O => Panic
  | S fuel =>
      if start <? end_ then
        n ← GuestPageTable_map start (mr_target self start) (mr_flags self) n;
        map_to_loop fuel self (start ⊕ npt_PAGE_SIZE) end_ n
      else Done n
  end.

Definition map_to (self : MapRegion) (n : N) : outcome N :=
  map_to_loop (mr_fuel self) self (mr_start self) (mr_start self ⊕ mr_size self) n.

Fixpoint unmap_to_loop (fuel : nat) (start end_ : Z) (n : N) : outcome N :=
  match fuel with
  | O => Panic
  | S fuel =>
      if start <? end_ then
        n ← GuestPageTable_unmap start n;
        unmap_to_loop fuel (start ⊕ npt_PAGE_SIZE) end_ n
      else Done n
  end.

Definition unmap_to (self : MapRegion) (n : N) : outcome N :=
  unmap_to_loop (mr_fuel self) (mr_start self) (mr_start self ⊕ mr_size self) n.

Definition MapRegion_from (r : GuestMemoryRegion) : outcome MapRegion :=
  new_offset (gmr_gpa r) (gmr_hpa r) (gmr_size r) (gmr_flags r).

Record GuestPhysMemorySet := {
  gpm_regions : list (Z * MapRegion);
  gpm_npt : N;
}.

Definition GuestPhysMemorySet_new : result HyperError GuestPhysMemorySet :=
  npt ← GuestPageTable_new;
  Ok {| gpm_npt := npt; gpm_regions := [] |}.

Definition nest_page_table_root (g : GuestPhysMemorySet) : Z := npt_root_paddr (gpm_npt g).

(** [regions.range(..start).last()] and [regions.range(start..).next()]. *)
Definition region_before (start : Z) (rs : list (Z * MapRegion)) : option (Z * MapRegion) :=
  last (filter (λ b, b.1 < start) rs).
Definition region_after (start : Z) (rs : list (Z * MapRegion)) : option (Z * MapRegion) :=
  head (filter (λ b, start ≤ b.1) rs).

Definition test_free_area (g : GuestPhysMemorySet) (other : MapRegion) : bool :=
  match region_before (mr_start other) (gpm_regions g) with
  | Some (_, before) => negb (is_overlap_with before other)
  | None => true
  end &&
  match region_after (mr_start other) (gpm_regions g) with
  | Some (_, after) => negb (is_overlap_with after other)
  | None => true
  end.

Definition gpm_map_region (region : MapRegion) (g : GuestPhysMemorySet) :
    outcome (GuestPhysMemorySet * result HyperError unit) :=
  if mr_size region =? 0 then Done (g, Ok tt)
  else if negb (test_free_area g region) then Done (g, Err HvInvalidParam)
  else
    npt ← map_to region (gpm_npt g);
    Done ({| gpm_npt := npt;
             gpm_regions := bt_insert (gpm_regions g) (mr_start region) region |}, Ok tt).

Fixpoint unmap_all (rs : list (Z * MapRegion)) (n : N) : outcome N :=
  match rs with
  | [] => Done n
  | (_, region) :: rs => n ← unmap_to region n; unmap_all rs n
  end.

(** Also the body of [Drop::drop]. *)
Definition gpm_clear (g : GuestPhysMemorySet) : outcome GuestPhysMemorySet :=
  npt ← unmap_all (gpm_regions g) (gpm_npt g);
  Done {| gpm_npt := npt; gpm_regions := [] |}.

(** [boot_vm] of [vm/mod.rs]: maps the regions of the configuration. *)
Fixpoint map_guest_regions (rs : list GuestMemoryRegion) (g : GuestPhysMemorySet) :
    outcome GuestPhysMemorySet :=
  match rs with
  | [] => Done g
  | r :: rs =>
      region ← MapRegion_from r;
      '(g, res) ← gpm_map_region region g;
      match res with Ok _ => map_guest_regions rs g | Err _ => Panic end
  end.

(** [slice[load_gpa..load_gpa + size].copy_from_slice(image)], the image being
    read from the host memory at [phys_to_virt(hpa)]. *)
Definition load_guest_image (host : Z → Z) (phys_to_virt : Z → Z) (slice : list Z)
    (hpa load_gpa size : Z) : outcome (list Z) :=
  let image := (λ i, host (phys_to_virt hpa + Z.of_nat i)) <$> seq 0 (Z.to_nat size) in
  let last := load_gpa ⊕ size in
  assert_true ((load_gpa <=? last) && (last <=? Z.of_nat (length slice)));;
  assert_true (last - load_gpa =? size);;
  Done (take (Z.to_nat load_gpa) slice ++ image ++ drop (Z.to_nat last) slice).

End guest_page_table.

Arguments GuestPhysMemorySet : clear implicits.

(** [arceos_config] of [vm/config.rs] and the region [boot_vm] adds for the
    memory of the guest, which is at the host address [hpa]. *)
Definition MF_RW_DEVICE : Z := MF_READ .| MF_WRITE .| MF_DEVICE.

Definition arceos_guest_memory_region : list GuestMemoryRegion :=
  [{| gmr_gpa := 0xfec00000; gmr_hpa := 0xfec00000; gmr_size := 0x1000; gmr_flags := MF_RW_DEVICE |};
   {| gmr_gpa := 0xfed00000; gmr_hpa := 0xfed00000; gmr_size := 0x1000; gmr_flags := MF_RW_DEVICE |};
   {| gmr_gpa := 0xfee00000; gmr_hpa := 0xfee00000; gmr_size := 0x1000; gmr_flags := MF_RW_DEVICE |}].

Definition boot_memory_region (hpa : Z) : list GuestMemoryRegion :=
  arceos_guest_memory_region ++
  [{| gmr_gpa := 0; gmr_hpa := hpa; gmr_size := 0x8000000;
      gmr_flags := MF_READ .| MF_WRITE .| MF_EXECUTE |}].

(** ** Specification *)

Section guest_memory_spec.
Context {N : Type} {NPT : NestedPageTable N} {npt_ok : N → Prop}
  {npt_view : N → Z → option (Z * Z)} {npt_span : Z} {npt_flags : Z → Z} {npt_pa : Z → Z → Prop}.

(** The last address of a region plus one. *)
Definition mr_end (r : MapRegion) : Z := mr_start r + mr_size r.

Definition mr_contains (r : MapRegion) (va : Z) : bool := (mr_start r <=? va) && (va <? mr_end r).

(** A region made by [new_offset] whose guest addresses the table can
    translate and whose host frames its entries can hold. *)
Definition region_ok (r : MapRegion) : Prop := ∃ hpa,
  mr_mapper r = Offset (mr_start r ⊖ hpa) ∧
  (0x1000 | mr_start r) ∧ (0x1000 | hpa) ∧ (0x1000 | mr_size r) ∧
  0 ≤ mr_start r ∧ 0 ≤ mr_size r ∧ mr_end r ≤ npt_span ∧ 0 ≤ hpa ∧ hpa + mr_size r ≤ 2 ^ 64 ∧
  ∀ k, (0x1000 | k) → 0 ≤ k < mr_size r → npt_pa (hpa + k) (mr_flags r).

(** The translation the regions stand for. *)
Fixpoint regions_view (rs : list (Z * MapRegion)) (va : Z) : option (Z * Z) :=
  match rs with
  | [] => None
  | (_, r) :: rs =>
      if mr_contains r va then Some (mr_target r va, npt_flags (mr_flags r)) else regions_view rs va
  end.

Definition mr_before (b1 b2 : Z * MapRegion) : Prop := mr_end b1.2 ≤ mr_start b2.2.

Record gpm_ok (g : GuestPhysMemorySet N) : Prop := {
  gpm_keys : Forall (λ b, b.1 = mr_start b.2 ∧ region_ok b.2 ∧ 0 < mr_size b.2) (gpm_regions g);
  gpm_sorted : StronglySorted mr_before (gpm_regions g);
  gpm_npt_ok : npt_ok (gpm_npt g);
  gpm_view va : 0 ≤ va < npt_span → npt_view (gpm_npt g) va = regions_view (gpm_regions g) va;
}.

Context {NPTL : NestedPageTableLaws NPT npt_ok npt_view npt_span npt_flags npt_pa}.
Implicit Types (r : MapRegion) (rs : list (Z * MapRegion)) (n : N).

Lemma region_end_no_wrap r : region_ok r → mr_start r ⊕ mr_size r = mr_end r.
Proof.
  intros (hpa & _ & _ & _ & _ & ? & ? & ? & _). pose proof law_span.
  unfold mr_end in *. apply wadd_small. split; lia.
Qed.

Lemma overlap_spec r r' :
  region_ok r → region_ok r' → is_overlap_with r r' = false ↔
    mr_end r ≤ mr_start r' ∨ mr_end r' ≤ mr_start r.
Proof.
  intros Hr Hr'. unfold is_overlap_with. rewrite !region_end_no_wrap by done.
  rewrite negb_false_iff, orb_true_iff, !Z.leb_le. done.
Qed.

Lemma target_offset r :
  region_ok r → ∃ hpa,
    (∀ va, mr_contains r va = true → mr_target r va = hpa + (va - mr_start r)) ∧
    ∀ k, (0x1000 | k) → 0 ≤ k < mr_size r → npt_pa (hpa + k) (mr_flags r).
Proof.
  intros (hpa & Hm & _ & Hd & _ & ? & ? & ? & ? & ? & Hpa). exists hpa.
  split; [|done]. intros va Hva. unfold mr_target. rewrite Hm. unfold mr_contains, mr_end in *.
  bool_to_prop. unfold wsub, wrap. rewrite Zminus_mod_idemp_r, Z.mod_small; lia.
Qed.

(** *** The loops over the pages of a region *)

Lemma page_step (start end_ : Z) :
  (0x1000 | start) → (0x1000 | end_) → start < end_ → start + 0x1000 ≤ end_.
Proof. intros [a ->] [b ->] ?. lia. Qed.

Lemma page_of (start va : Z) :
  (0x1000 | start) → va - va mod 0x1000 = start ↔ start ≤ va < start + 0x1000.
Proof. intros [a ->]. pose proof (Z.div_mod va 0x1000). pose proof (Z.mod_pos_bound va 0x1000). lia. Qed.

Lemma page_in (start va : Z) :
  (0x1000 | start) → (va - va mod 0x1000 =? start) = (start <=? va) && (va <? start + 0x1000).
Proof.
  intros Hd. apply eq_true_iff_eq. rewrite Z.eqb_eq, andb_true_iff, Z.leb_le, Z.ltb_lt.
  by apply page_of.
Qed.

(** Some page of the region found no memory for its tables. *)
Definition out_of_memory : Prop :=
  ∃ n n' gpa hpa fl, npt_ok n ∧ npt_map gpa hpa fl n = Done (n', Err NoMemory).

Lemma map_to_loop_spec (fuel : nat) : ∀ r start n,
  region_ok r → npt_ok n → (0x1000 | start) → mr_start r ≤ start ≤ mr_end r →
  (Z.to_nat ((mr_end r - start) `div` 0x1000) < fuel)%nat →
  (∀ va, start ≤ va < mr_end r → npt_view n va = None) →
  (∃ n', map_to_loop fuel r start (mr_end r) n = Done n' ∧ npt_ok n' ∧
    ∀ va, 0 ≤ va < npt_span → npt_view n' va =
      if (start <=? va) && (va <? mr_end r) then Some (mr_target r va, npt_flags (mr_flags r))
      else npt_view n va) ∨
  (map_to_loop fuel r start (mr_end r) n = Panic ∧ out_of_memory).
Proof.
  induction fuel as [|fuel IH]; intros r start n Hr Hn Hd Hs Hf Hfree; [lia|].
  pose proof Hr as (hpa0 & _ & Hds & _ & Hdz & ? & ? & Hend & _).
  pose proof law_span. cbn [map_to_loop]. rewrite law_page_size.
  destruct (Z.ltb_spec start (mr_end r)) as [Hlt|Hge].
  2: { left. exists n. split_and!; [done..|]. intros va _.
       by rewrite (proj2 (andb_false_iff _ _)) by lia. }
  assert (mr_contains r start = true) as Hc by (unfold mr_contains; lia).
  destruct (target_offset r Hr) as (hpa & Ht & Hpa).
  assert (start + 0x1000 ≤ mr_end r) as Hstep.
  { apply page_step; [done| |done]. by apply Z.divide_add_r. }
  assert (start ⊕ 0x1000 = start + 0x1000) as -> by (apply wadd_small; split; lia).
  destruct (law_map n start (mr_target r start) (mr_flags r)) as (n1 & res & Hrun & Hres);
    [done..|lia| |].
  { rewrite Ht by done. apply Hpa; [by apply Z.divide_sub_r|unfold mr_end in *; lia]. }
  unfold GuestPageTable_map, npt_unwrap. rewrite Hrun. cbn.
  destruct res as [u|e]; cbn.
  2: { right. split; [done|]. destruct Hres as [->|Hm]; [by eexists _, _, _, _, _|].
       destruct Hm. apply Hfree. lia. }
  destruct Hres as [Hok1 Hv1].
  destruct (IH r (start + 0x1000) n1) as [(n2 & -> & Hok2 & Hv2)|[-> ?]];
    [done|done|by apply Z.divide_add_r; [|exists 1]|lia| | | |by right].
  - assert ((mr_end r - start) `div` 0x1000 = (mr_end r - (start + 0x1000)) `div` 0x1000 + 1).
    { rewrite <- Z.div_add by done. f_equal. lia. }
    pose proof (Z.div_pos (mr_end r - (start + 0x1000)) 0x1000). lia.
  - intros va Hva. rewrite Hv1 by lia. rewrite page_in by done.
    rewrite (proj2 (andb_false_iff _ _)) by lia. apply Hfree. lia.
  - left. exists n2. split_and!; [done..|]. intros va Hva. rewrite Hv2, Hv1, page_in by done.
    destruct (Z.leb_spec (start + 0x1000) va), (Z.ltb_spec va (mr_end r)),
      (Z.leb_spec start va), (Z.ltb_spec va (start + 0x1000)); try lia; cbn; try done.
    rewrite !Ht by (unfold mr_contains; lia). do 2 f_equal.
    pose proof (proj2 (page_of start va Hd)). lia.
Qed.

Lemma unmap_to_loop_spec (fuel : nat) : ∀ r start n,
  region_ok r → npt_ok n → (0x1000 | start) → mr_start r ≤ start ≤ mr_end r →
  (Z.to_nat ((mr_end r - start) `div` 0x1000) < fuel)%nat →
  (∀ va, start ≤ va < mr_end r → npt_view n va ≠ None) →
  ∃ n', unmap_to_loop fuel start (mr_end r) n = Done n' ∧ npt_ok n' ∧
    ∀ va, 0 ≤ va < npt_span → npt_view n' va =
      if (start <=? va) && (va <? mr_end r) then None else npt_view n va.
Proof.
  induction fuel as [|fuel IH]; intros r start n Hr Hn Hd Hs Hf Hmap; [lia|].
  pose proof Hr as (hpa0 & _ & Hds & _ & Hdz & ? & ? & Hend & _).
  pose proof law_span. cbn [unmap_to_loop]. rewrite law_page_size.
  destruct (Z.ltb_spec start (mr_end r)) as [Hlt|Hge].
  2: { exists n. split_and!; [done..|]. intros va _.
       by rewrite (proj2 (andb_false_iff _ _)) by lia. }
  assert (start + 0x1000 ≤ mr_end r) as Hstep.
  { apply page_step; [done| |done]. by apply Z.divide_add_r. }
  assert (start ⊕ 0x1000 = start + 0x1000) as -> by (apply wadd_small; split; lia).
  destruct (law_unmap n start) as (n1 & res & Hrun & Hres); [done..|lia|].
  unfold GuestPageTable_unmap, npt_unwrap. rewrite Hrun. cbn.
  destruct res as [u|e]; cbn; [|by destruct (Hmap start); [lia|]].
  destruct Hres as [Hok1 Hv1].
  destruct (IH r (start + 0x1000) n1) as (n2 & -> & Hok2 & Hv2);
    [done|done|by apply Z.divide_add_r; [|exists 1]|lia| | |].
  - assert ((mr_end r - start) `div` 0x1000 = (mr_end r - (start + 0x1000)) `div` 0x1000 + 1).
    { rewrite <- Z.div_add by done. f_equal. lia. }
    pose proof (Z.div_pos (mr_end r - (start + 0x1000)) 0x1000). lia.
  - intros va Hva. rewrite Hv1 by lia. rewrite page_in by done.
    rewrite (proj2 (andb_false_iff _ _)) by lia. apply Hmap. lia.
  - exists n2. split_and!; [done..|]. intros va Hva. rewrite Hv2, Hv1, page_in by done.
    destruct (Z.leb_spec (start + 0x1000) va), (Z.ltb_spec va (mr_end r)),
      (Z.leb_spec start va), (Z.ltb_spec va (start + 0x1000)); try lia; cbn; done.
Qed.

Lemma region_fuel_enough r :
  region_ok r → (Z.to_nat ((mr_end r - mr_start r) `div` 0x1000) < mr_fuel r)%nat.
Proof. intros _. unfold mr_fuel, mr_end. rewrite law_page_size, Z.add_simpl_l. lia. Qed.

(** *** The neighbours of a free area *)

Lemma filter_split rs (s : Z) :
  Forall (λ b, b.1 = mr_start b.2 ∧ region_ok b.2 ∧ 0 < mr_size b.2) rs →
  StronglySorted mr_before rs →
  rs = filter (λ b, b.1 < s) rs ++ filter (λ b, s ≤ b.1) rs.
Proof.
  intros Hk Hs. induction Hs as [|[k r] rs Hs IH Hall]; [done|].
  apply Forall_cons in Hk as [(Hkey & Hr & Hsz) Hk]. rewrite !filter_cons. cbn in *.
  destruct (decide (k < s)).
  - rewrite decide_False by lia. cbn. f_equal. by apply IH.
  - rewrite decide_True by lia.
    assert (filter (λ b, b.1 < s) rs = []) as Hnil.
    { apply elem_of_nil_inv. intros x [Hxs Hx]%list_elem_of_filter.
      pose proof (proj1 (Forall_forall _ _) Hall x Hx) as Hb.
      pose proof (proj1 (Forall_forall _ _) Hk x Hx) as (? & ? & ?).
      unfold mr_before, mr_end in Hb. cbn in Hb. lia. }
    rewrite Hnil. cbn. f_equal. rewrite (IH Hk) at 1. by rewrite Hnil.
Qed.

Lemma free_before rs r :
  Forall (λ b, b.1 = mr_start b.2 ∧ region_ok b.2 ∧ 0 < mr_size b.2) rs →
  StronglySorted mr_before rs → region_ok r → 0 < mr_size r →
  Forall (λ b, b.1 < mr_start r) rs →
  match last rs with Some (_, b) => negb (is_overlap_with b r) | None => true end = true ↔
  Forall (λ b, is_overlap_with b.2 r = false) rs.
Proof.
  intros Hk Hs Hr Hsz Hlt. destruct rs as [|x rs _] using rev_ind; [by cbn|].
  rewrite last_snoc. destruct x as [k b]. rewrite negb_true_iff.
  apply Forall_app in Hk as [Hk [(Hkb & Hb & Hszb) _]%Forall_cons].
  apply Forall_app in Hlt as [_ [Hlb _]%Forall_cons]. cbn in *.
  rewrite Forall_app, Forall_singleton. split; [|naive_solver]. intros Hno. split; [|done].
  apply (overlap_spec b r) in Hno; [|done..]. apply Forall_forall. intros y Hy.
  pose proof (proj1 (Forall_forall _ _) Hk y Hy) as (? & ? & ?). apply overlap_spec; [done..|].
  assert (mr_before y (k, b)) as Hyb.
  { apply (StronglySorted_app_1_elem_of _ _ _ _ _ Hs Hy). by apply list_elem_of_singleton. }
  unfold mr_before, mr_end in *. cbn in *. lia.
Qed.

Lemma free_after rs r :
  Forall (λ b, b.1 = mr_start b.2 ∧ region_ok b.2 ∧ 0 < mr_size b.2) rs →
  StronglySorted mr_before rs → region_ok r → 0 < mr_size r →
  Forall (λ b, mr_start r ≤ b.1) rs →
  match head rs with Some (_, b) => negb (is_overlap_with b r) | None => true end = true ↔
  Forall (λ b, is_overlap_with b.2 r = false) rs.
Proof.
  intros Hk Hs Hr Hsz Hge. destruct rs as [|[k b] rs]; [by cbn|].
  cbn [head]. rewrite negb_true_iff.
  apply Forall_cons in Hk as [(Hkb & Hb & Hszb) Hk]. apply Forall_cons in Hge as [Hgb _].
  apply StronglySorted_cons in Hs as [Hall _]. cbn in *. rewrite Forall_cons. cbn.
  split; [|naive_solver]. intros Hno. split; [done|].
  apply (overlap_spec b r) in Hno; [|done..]. apply Forall_forall. intros y Hy.
  pose proof (proj1 (Forall_forall _ _) Hk y Hy) as (? & ? & ?).
  pose proof (proj1 (Forall_forall _ _) Hall y Hy) as Hyb. apply overlap_spec; [done..|].
  unfold mr_before, mr_end in *. cbn in *. lia.
Qed.

Lemma test_free_area_spec g r :
  gpm_ok g → region_ok r → 0 < mr_size r →
  test_free_area g r = true ↔ Forall (λ b, is_overlap_with b.2 r = false) (gpm_regions g).
Proof.
  intros Hg Hr Hsz. pose proof (gpm_keys _ Hg) as Hk. pose proof (gpm_sorted _ Hg) as Hs.
  unfold test_free_area, region_before, region_after.
  pose proof (filter_split _ (mr_start r) Hk Hs) as Hsp.
  set (l1 := filter (λ b, b.1 < mr_start r) (gpm_regions g)) in *.
  set (l2 := filter (λ b, mr_start r ≤ b.1) (gpm_regions g)) in *.
  rewrite Hsp in Hk, Hs |- *. apply Forall_app in Hk as [Hk1 Hk2].
  rewrite andb_true_iff, Forall_app, free_before, free_after; eauto using
    StronglySorted_app_1_l, StronglySorted_app_1_r; apply Forall_forall; intros x Hx;
    by apply list_elem_of_filter in Hx as [? _].
Qed.

Lemma overlap_exists g r :
  gpm_ok g → region_ok r → 0 < mr_size r →
  existsb (λ b, is_overlap_with b.2 r) (gpm_regions g) = negb (test_free_area g r).
Proof.
  intros. apply eq_true_iff_eq.
  rewrite negb_true_iff, <- not_true_iff_false, test_free_area_spec, existsb_exists by done.
  rewrite Forall_forall. split.
  - intros (b & Hb%list_elem_of_In & Ho) Hall. specialize (Hall b Hb). congruence.
  - intros Hno. destruct (decide (Exists (λ b, is_overlap_with b.2 r = true) (gpm_regions g)))
      as [(b & ? & ?)%Exists_exists|Hne]; [exists b; by rewrite <- list_elem_of_In|].
    destruct Hno. intros b Hb. destruct (is_overlap_with b.2 r) eqn:E; [|done].
    destruct Hne. apply Exists_exists. by exists b.
Qed.

(** *** Adding a region *)

Lemma bt_insert_middle {V} (l1 l2 : list (Z * V)) (k : Z) (v : V) :
  Forall (λ b, b.1 < k) l1 → Forall (λ b, k < b.1) l2 →
  bt_insert (l1 ++ l2) k v = l1 ++ (k, v) :: l2.
Proof.
  intros H1 H2. induction H1 as [|[k' v'] l1 Hk _ IH]; cbn in *.
  - destruct H2 as [|[k' v'] l2 Hk _]; [done|]. cbn in *. unfold key_ltb, Z_key_order.
    by rewrite (proj2 (Z.ltb_lt _ _)).
  - unfold key_ltb, Z_key_order in *.
    rewrite (proj2 (Z.ltb_ge _ _)), (proj2 (Z.ltb_lt k' k)) by lia. by rewrite IH.
Qed.

Lemma regions_view_app l1 l2 (va : Z) :
  Forall (λ b, mr_contains b.2 va = false) l1 →
  regions_view (l1 ++ l2) va = regions_view l2 va.
Proof. induction 1 as [|[k r] l1 Hk _ IH]; cbn in *; [done|]. by rewrite Hk. Qed.

Lemma regions_view_middle l1 l2 k r (va : Z) :
  (mr_contains r va = true → Forall (λ b, mr_contains b.2 va = false) l1) →
  regions_view (l1 ++ (k, r) :: l2) va =
    if mr_contains r va then Some (mr_target r va, npt_flags (mr_flags r))
    else regions_view (l1 ++ l2) va.
Proof.
  intros Hl1. destruct (mr_contains r va) eqn:Hc.
  - rewrite regions_view_app by auto. cbn. by rewrite Hc.
  - clear Hl1. induction l1 as [|[k' r'] l1 IH]; cbn; [by rewrite Hc|]. by rewrite IH.
Qed.

Lemma no_overlap_contains r r' (va : Z) :
  region_ok r → region_ok r' → is_overlap_with r' r = false → mr_contains r va = true →
  mr_contains r' va = false.
Proof.
  intros Hr Hr' Hno Hc. apply overlap_spec in Hno; [|done..].
  unfold mr_contains in *. destruct Hno; bool_to_prop; apply andb_false_iff; lia.
Qed.

Lemma regions_split g r :
  gpm_ok g → region_ok r → 0 < mr_size r →
  Forall (λ b, is_overlap_with b.2 r = false) (gpm_regions g) →
  ∃ l1 l2, gpm_regions g = l1 ++ l2 ∧
    (∀ b, b ∈ l1 → b.1 < mr_start r ∧ mr_before b (mr_start r, r) ∧ region_ok b.2) ∧
    (∀ b, b ∈ l2 → mr_start r < b.1 ∧ mr_before (mr_start r, r) b).
Proof.
  intros Hg Hr Hsz Hno. pose proof (gpm_keys _ Hg) as Hk.
  eexists _, _. split; [by apply (filter_split _ (mr_start r)); [|apply (gpm_sorted _ Hg)]|].
  split; intros b [Hb Hin]%list_elem_of_filter;
    pose proof (proj1 (Forall_forall _ _) Hk b Hin) as (? & ? & ?);
    pose proof (proj1 (Forall_forall _ _) Hno b Hin) as Hov;
    (apply overlap_spec in Hov; [|done..]); unfold mr_before, mr_end in *; cbn;
    split_and?; try done; lia.
Qed.

Lemma insert_region_ok g r n :
  gpm_ok g → region_ok r → 0 < mr_size r →
  Forall (λ b, is_overlap_with b.2 r = false) (gpm_regions g) →
  npt_ok n →
  (∀ va, 0 ≤ va < npt_span → npt_view n va =
     if mr_contains r va then Some (mr_target r va, npt_flags (mr_flags r))
     else npt_view (gpm_npt g) va) →
  gpm_ok {| gpm_npt := n; gpm_regions := bt_insert (gpm_regions g) (mr_start r) r |}.
Proof.
  intros Hg Hr Hsz Hno Hn Hv.
  pose proof (gpm_keys _ Hg) as Hk. pose proof (gpm_sorted _ Hg) as Hs.
  destruct (regions_split g r) as (l1 & l2 & Hsp & H1 & H2); [done..|].
  rewrite Hsp in Hk, Hs, Hno.
  rewrite Hsp, bt_insert_middle; [|apply Forall_forall; naive_solver..].
  apply Forall_app in Hk as [Hk1 Hk2]. apply StronglySorted_app in Hs as (Hs0 & Hs1 & Hs2).
  split; cbn; [| |done|].
  - apply Forall_app; split; [done|]. by apply Forall_cons.
  - apply StronglySorted_app_2; [|done|apply StronglySorted_cons; split; [|done]].
    + intros x1 x2 Hx1 [->|Hx2]%elem_of_cons; [by apply H1|by apply Hs0].
    + apply Forall_forall. intros x2 Hx2. by apply H2.
  - intros va Hva. rewrite Hv by done. rewrite regions_view_middle.
    + destruct (mr_contains r va); [done|]. rewrite <- Hsp. by apply (gpm_view _ Hg).
    + intros Hc. apply Forall_app in Hno as [Hno _]. apply Forall_forall. intros b Hin.
      eapply no_overlap_contains; [exact Hr| |exact (proj1 (Forall_forall _ _) Hno b Hin)|done].
      by apply H1.
Qed.

(** *** Clearing *)

Lemma regions_view_after rs b (va : Z) :
  Forall (mr_before b) rs → mr_contains b.2 va = true → regions_view rs va = None.
Proof.
  intros Hall Hc. replace rs with (rs ++ []) by apply app_nil_r. rewrite regions_view_app; [done|].
  eapply Forall_impl; [exact Hall|]. cbn. intros x Hx.
  unfold mr_before, mr_contains in *. bool_to_prop. apply andb_false_iff. lia.
Qed.

Lemma unmap_all_spec rs : ∀ n,
  Forall (λ b, b.1 = mr_start b.2 ∧ region_ok b.2 ∧ 0 < mr_size b.2) rs →
  StronglySorted mr_before rs → npt_ok n →
  (∀ va, 0 ≤ va < npt_span → npt_view n va = regions_view rs va) →
  ∃ n', unmap_all rs n = Done n' ∧ npt_ok n' ∧
    ∀ va, 0 ≤ va < npt_span → npt_view n' va = None.
Proof.
  induction rs as [|[k r] rs IH]; intros n Hk Hs Hn Hv; [by exists n|].
  apply Forall_cons in Hk as [(_ & Hr & Hsz) Hk]. apply StronglySorted_cons in Hs as [Hall Hs].
  pose proof Hr as (_ & _ & Hd & _ & _ & ? & ? & ? & _). cbn [unmap_all regions_view snd] in *.
  unfold unmap_to. rewrite region_end_no_wrap by done.
  destruct (unmap_to_loop_spec (mr_fuel r) r (mr_start r) n) as (n1 & -> & Hn1 & Hv1);
    [done..|unfold mr_end; lia|by apply region_fuel_enough| |].
  { intros va Hva. rewrite Hv by lia. unfold mr_contains.
    by rewrite (proj2 (Z.leb_le _ _)), (proj2 (Z.ltb_lt _ _)) by lia. }
  apply IH; [done..|]. intros va Hva. rewrite Hv1, Hv by done. fold (mr_contains r va).
  destruct (mr_contains r va) eqn:Hc; [|done]. symmetry.
  by apply (regions_view_after rs (k, r)).
Qed.

(** ** Properties *)

Lemma bt_insert_elem {V} (t : list (Z * V)) (k : Z) (v : V) (b : Z * V) :
  b ∈ bt_insert t k v → b = (k, v) ∨ b ∈ t.
Proof.
  induction t as [|[k' v'] t IH]; cbn; [set_solver|]. repeat case_match; set_solver.
Qed.

Lemma gpm_map_region_spec (g : GuestPhysMemorySet N) (r : MapRegion) :
  gpm_ok g → region_ok r →
  if mr_size r =? 0 then gpm_map_region r g = Done (g, Ok tt)
  else if existsb (λ b, is_overlap_with b.2 r) (gpm_regions g)
  then gpm_map_region r g = Done (g, Err HvInvalidParam)
  else
    (∃ g', gpm_map_region r g = Done (g', Ok tt) ∧ gpm_ok g' ∧
       gpm_regions g' = bt_insert (gpm_regions g) (mr_start r) r ∧
       ∀ va, 0 ≤ va < npt_span →
         GuestPageTable_translate va (gpm_npt g') =
           if mr_contains r va then Done (mr_target r va)
           else GuestPageTable_translate va (gpm_npt g)) ∨
    (gpm_map_region r g = Panic ∧ out_of_memory).
Proof.
  intros Hg Hr. unfold gpm_map_region. destruct (Z.eqb_spec (mr_size r) 0) as [|Hnz]; [done|].
  pose proof Hr as (_ & _ & Hd & _ & _ & ? & ? & ? & _).
  assert (0 < mr_size r) as Hsz by lia.
  rewrite overlap_exists by done.
  destruct (test_free_area g r) eqn:Hfree; [|done]. cbn [negb].
  apply test_free_area_spec in Hfree; [|done..].
  unfold map_to. rewrite region_end_no_wrap by done.
  destruct (map_to_loop_spec (mr_fuel r) r (mr_start r) (gpm_npt g))
    as [(n & -> & Hn & Hv)|[-> ?]];
    [done|apply (gpm_npt_ok _ Hg)|done|unfold mr_end; lia|by apply region_fuel_enough| | |by right].
  - intros va Hva. rewrite (gpm_view _ Hg) by lia.
    replace (gpm_regions g) with (gpm_regions g ++ []) by apply app_nil_r.
    rewrite regions_view_app; [done|]. pose proof (gpm_keys _ Hg) as Hk.
    apply Forall_forall. intros b Hb. rewrite Forall_forall in Hk, Hfree.
    apply (no_overlap_contains r); [done|by apply Hk|by apply Hfree|unfold mr_contains; lia].
  - left. eexists. split; [done|]. cbn. split; [by apply insert_region_ok|].
    split; [done|]. intros va Hva. unfold GuestPageTable_translate.
    rewrite !law_query, Hv by (done || apply (gpm_npt_ok _ Hg)). fold (mr_contains r va).
    by destruct (mr_contains r va).
Qed.


(** *** The regions of a configuration *)

Definition gmr_ok (r : GuestMemoryRegion) : Prop :=
  (0x1000 | gmr_gpa r) ∧ (0x1000 | gmr_hpa r) ∧ (0x1000 | gmr_size r) ∧
  0 ≤ gmr_gpa r ∧ 0 < gmr_size r ∧ gmr_gpa r + gmr_size r ≤ npt_span ∧
  0 ≤ gmr_hpa r ∧ gmr_hpa r + gmr_size r ≤ 2 ^ 64 ∧
  ∀ k, (0x1000 | k) → 0 ≤ k < gmr_size r → npt_pa (gmr_hpa r + k) (gmr_flags r).

Definition gmr_contains (va : Z) (r : GuestMemoryRegion) : Prop :=
  gmr_gpa r ≤ va < gmr_gpa r + gmr_size r.

#[global] Instance gmr_contains_dec (va : Z) (r : GuestMemoryRegion) : Decision (gmr_contains va r).
Proof. unfold gmr_contains. apply _. Defined.

Definition gmr_disjoint (r r' : GuestMemoryRegion) : Prop :=
  gmr_gpa r + gmr_size r ≤ gmr_gpa r' ∨ gmr_gpa r' + gmr_size r' ≤ gmr_gpa r.

Lemma hv_is_aligned_spec (a : Z) : (0x1000 | a) → hv_is_aligned a = true.
Proof.
  intros [k ->]. unfold hv_is_aligned. rewrite law_page_size.
  change (0x1000 ⊖ 1) with (2 ^ 12 - 1). rewrite land_mask by lia.
  by rewrite Z.mod_mul.
Qed.

Lemma MapRegion_from_ok (r : GuestMemoryRegion) :
  gmr_ok r → ∃ m, MapRegion_from r = Done m ∧ region_ok m ∧ mr_start m = gmr_gpa r ∧
    mr_size m = gmr_size r ∧
    ∀ va, mr_contains m va = true → mr_target m va = gmr_hpa r + (va - gmr_gpa r).
Proof.
  intros (? & ? & ? & ? & ? & ? & ? & ? & ?). unfold MapRegion_from, new_offset.
  rewrite !hv_is_aligned_spec by done. eexists. split; [done|]. cbn.
  split_and!; [|done|done|].
  - exists (gmr_hpa r). unfold mr_end. cbn. split_and!; try done; lia.
  - intros va Hva. unfold mr_contains, mr_end, mr_target in *. cbn in *. bool_to_prop.
    unfold wsub, wrap. rewrite Zminus_mod_idemp_r, Z.mod_small; lia.
Qed.

(** C11: booting a guest maps the regions of its configuration.  If they are
    page aligned, not empty and pairwise disjoint, every one is accepted, and
    the nested page table then translates each guest address of a region to
    the host address at the same offset and no other address; the only other
    outcome is the panic when it finds no memory. *)
Theorem map_guest_regions_spec (rs : list GuestMemoryRegion) : ∀ g : GuestPhysMemorySet N,
  gpm_ok g → Forall gmr_ok rs → ForallOrdPairs gmr_disjoint rs →
  (∀ (r : GuestMemoryRegion) b, r ∈ rs → b ∈ gpm_regions g →
     mr_end b.2 ≤ gmr_gpa r ∨ gmr_gpa r + gmr_size r ≤ mr_start b.2) →
  (∃ g', map_guest_regions rs g = Done g' ∧ gpm_ok g' ∧ ∀ va, 0 ≤ va < npt_span →
     GuestPageTable_translate va (gpm_npt g') =
       match list_find (gmr_contains va) rs with
       | Some (_, r) => Done (gmr_hpa r + (va - gmr_gpa r))
       | None => GuestPageTable_translate va (gpm_npt g)
       end) ∨
  (map_guest_regions rs g = Panic ∧ out_of_memory).
Proof.
  induction rs as [|r rs IH]; intros g Hg Hok Hdis Hold; [left; by exists g|].
  apply Forall_cons in Hok as [Hr Hok]. inversion Hdis as [|? ? Hr' Hdis' E]; subst.
  cbn [map_guest_regions]. destruct (MapRegion_from_ok r Hr) as (m & -> & Hm & Hst & Hsz & Htgt).
  cbn [mbind outcome_bind].
  assert (existsb (λ b, is_overlap_with b.2 m) (gpm_regions g) = false) as Hno.
  { apply not_true_iff_false. intros (b & Hb%list_elem_of_In & Ho)%existsb_exists.
    apply not_false_iff_true in Ho. apply Ho. pose proof (gpm_keys _ Hg) as Hk.
    rewrite Forall_forall in Hk. apply overlap_spec; [by apply Hk|done|].
    unfold mr_end at 2. rewrite Hst, Hsz. apply Hold; [by left|done]. }
  pose proof (gpm_map_region_spec g m Hg Hm) as Hmap. rewrite Hno, Hsz in Hmap.
  pose proof Hr as (_ & _ & _ & ? & Hpos & _). rewrite (proj2 (Z.eqb_neq _ _)) in Hmap by lia.
  destruct Hmap as [(g1 & -> & Hg1 & Hin & Htr)|[-> Hoom]]; [|by right]. cbn [mbind outcome_bind].
  destruct (IH g1 Hg1 Hok Hdis') as [(g2 & -> & Hg2 & Htr2)|[-> Hoom]]; [| |by right].
  - intros r' b Hr'' Hb. rewrite Hin in Hb. apply bt_insert_elem in Hb as [->|Hb]; [|apply Hold; [by right|done]].
    unfold mr_end. cbn. rewrite Hst, Hsz. rewrite Forall_forall in Hr'. by apply Hr'.
  - left. exists g2. split; [done|]. split; [done|]. intros va Hva. rewrite Htr2 by done.
    cbn [list_find]. rewrite Htr by done.
    assert (mr_contains m va = bool_decide (gmr_contains va r)) as Hc.
    { unfold mr_contains, mr_end, gmr_contains. rewrite Hst, Hsz.
      case_bool_decide; [apply andb_true_iff|apply andb_false_iff]; lia. }
    rewrite Hc. destruct (decide (gmr_contains va r)) as [Hv|Hv].
    + rewrite bool_decide_eq_true_2 in * by done. rewrite <- Htgt by done.
      destruct (list_find (gmr_contains va) rs) as [[i r2]|] eqn:Hf; [|done].
      apply list_find_Some in Hf as (Hl & Hv2 & _). exfalso.
      pose proof (Forall_lookup_1 _ _ _ _ Hr' Hl) as Hd. unfold gmr_contains, gmr_disjoint in *. lia.
    + rewrite bool_decide_eq_false_2 by done. by destruct (list_find (gmr_contains va) rs) as [[]|].
Qed.

(** [clear] (and so dropping the memory of a guest) unmaps every page the
    regions stand for and forgets the regions; it never panics. *)
Theorem gpm_clear_unmaps (g : GuestPhysMemorySet N) :
  gpm_ok g →
  ∃ g', gpm_clear g = Done g' ∧ gpm_ok g' ∧ gpm_regions g' = [] ∧
    ∀ va, 0 ≤ va < npt_span → npt_query va (gpm_npt g') = Done (Err NotMapped).
Proof.
  intros Hg. unfold gpm_clear.
  destruct (unmap_all_spec (gpm_regions g) (gpm_npt g)) as (n & -> & Hn & Hv);
    [by destruct Hg..|]. cbn.
  eexists. split_and!; [done| |done|].
  - split; cbn; [done|constructor|done|by intros; rewrite Hv].
  - intros va Hva. cbn. by rewrite law_query, Hv.
Qed.

End guest_memory_spec.

(** ** The page table of the repository as a nested page table *)

Section page_table_instance.
Context {PTE : GenericPTE} {MD : PagingMetaData} {A : Type} {IF : PagingIf A}
  {pa_ok fl_ok : Z → Prop} {fl_view : Z → Z} {owned : A → gset Z}
  {PTEL : GenericPTELaws PTE pa_ok fl_ok fl_view} {IFL : PagingIfLaws IF owned pa_ok}.
Context (Hlev : LEVELS = 3 ∨ LEVELS = 4).

(** The table created by [try_new] in a world. *)
Definition pt_npt (w : world A) : NestedPageTable (pstate A) := {|
  npt_PAGE_SIZE := 0x1000;
  npt_new :=
    match try_new w with
    | Done (w', Ok pt) => Ok {| ps_mem := w_mem w'; ps_alloc := w_alloc w'; ps_pt := pt |}
    | _ => Err NoMemory
    end;
  npt_root_paddr s := root_paddr (ps_pt s);
  npt_map gpa hpa fl := PageTable.map gpa hpa Size4K fl;
  npt_unmap gpa := unmap gpa;
  npt_query va s := translate s va;
  npt_map_region gpa hpa size fl huge := map_region gpa hpa size fl huge;
|}.

Definition pt_view (s : pstate A) (va : Z) : option (Z * Z) :=
  match translate s va with Done (Ok (pa, fl, _)) => Some (pa, fl) | _ => None end.

Definition pt_4k (s : pstate A) : Prop :=
  pt_ok (pa_ok := pa_ok) (fl_ok := fl_ok) (owned := owned) s ∧
  ∀ va pa fl sz, translate s va = Done (Ok (pa, fl, sz)) → sz = Size4K.

Definition pt_pa (pa fl : Z) : Prop :=
  pa_ok pa ∧ fl_ok fl ∧ (0x1000 | pa) ∧ 0 ≤ pa ∧ pa + 0x1000 ≤ 2 ^ 64.

Lemma translate_cases (s : pstate A) (va : Z) :
  pt_ok (pa_ok := pa_ok) (fl_ok := fl_ok) (owned := owned) s →
  translate s va = Done (Err NotMapped) ∨ ∃ pa fl sz, translate s va = Done (Ok (pa, fl, sz)).
Proof using Hlev PTEL IFL.
  intros [owner Hinv]. destruct (query_eq Hlev owner s va Hinv) as (r & _ & Hr).
  rewrite (translate_eq Hlev owner) by done. destruct (tr_va s (indices va)) as [[w sz]|]; [|by left].
  right. simpl in *. destruct (pte_flags w); [|done]. by eexists _, _, _.
Qed.

Lemma same_page_4k (gpa va : Z) :
  (0x1000 | gpa) → 0 ≤ gpa < va_span → 0 ≤ va < va_span →
  same_page Size4K gpa va = (va - va mod 0x1000 =? gpa).
Proof.
  intros [k ->] ? ?. unfold same_page. cbn [PageSize_as_usize].
  rewrite !(Z.mod_small _ va_span), Z.div_mul by done.
  apply eq_true_iff_eq. rewrite !Z.eqb_eq.
  pose proof (Z.div_mod va 0x1000). pose proof (Z.mod_pos_bound va 0x1000). lia.
Qed.

Lemma pt_map_law (s : pstate A) (gpa hpa fl : Z) :
  pt_4k s → (0x1000 | gpa) → 0 ≤ gpa < va_span → pt_pa hpa fl →
  ∃ s' r, PageTable.map gpa hpa Size4K fl s = Done (s', r) ∧
  match r with
  | Ok _ => pt_4k s' ∧ ∀ va, 0 ≤ va < va_span →
      pt_view s' va =
        if va - va mod 0x1000 =? gpa then Some (hpa + va mod 0x1000, fl_view fl)
        else pt_view s va
  | Err e => e = NoMemory ∨ pt_view s gpa ≠ None
  end.
Proof using Hlev PTEL IFL.
  intros [[owner Hinv] H4k] Hd Hgpa (Hpa & Hfl & Hdh & ? & ?).
  assert (align_down hpa (PageSize_as_usize Size4K) = hpa) as Hal
    by (apply (align_down_aligned _ Size4K); [split; lia|done]).
  destruct (map_spec Hlev owner s gpa hpa fl Size4K Hinv) as (s' & r & owner' & Hrun & Hinv' & Hr);
    [by rewrite Hal|done|]. exists s', r. split; [done|]. rewrite Hal in Hr.
  destruct r as [u|e].
  - destruct Hr as [_ Hv]. split.
    + split; [by eexists|]. intros va pa f sz. rewrite Hv.
      destruct (same_page Size4K gpa va); [naive_solver|by apply H4k].
    + intros va Hva. unfold pt_view. rewrite Hv, same_page_4k by done.
      destruct (_ =? gpa); [|done]. do 2 f_equal.
      change (PageSize_as_usize Size4K) with (2 ^ 12). rewrite align_offset_eq by lia.
      pose proof (Z.mod_pos_bound va (2 ^ 12) eq_refl) as Hm.
      apply wadd_small. change (2 ^ 12) with 0x1000 in *. split; lia.
  - destruct Hr as [_ He]. unfold pt_view. destruct e; simpl in He; [by left|..]; try done;
      right; try (destruct He as (? & ? & ? & -> & _); done).
    destruct (He eq_refl) as (? & ? & ->). done.
Qed.

Lemma pt_npt_laws (w : world A) :
  NestedPageTableLaws (pt_npt w) pt_4k pt_view va_span fl_view pt_pa.
Proof using Hlev PTEL IFL.
  split; cbn.
  - done.
  - unfold va_span. by destruct Hlev as [-> | ->].
  - intros n Hn. destruct (try_new_spec Hlev w) as (w' & r & Hrun & Hr). rewrite Hrun in Hn.
    destruct r as [pt|]; simplify_eq. destruct Hr as (a & _ & Hinv & Hv).
    unfold pt_4k, pt_view. split_and!; [by eexists|..]; intros; rewrite Hv in *; done.
  - apply pt_map_law.
  - intros s gpa [[owner Hinv] H4k] Hd Hgpa.
    destruct (unmap_spec Hlev owner s gpa Hinv) as (s' & r & Hrun & Hinv' & Hr).
    exists s', r. split; [done|]. destruct r as [[p sz]|e].
    + destruct Hr as [(f & Hf) Hv]. apply H4k in Hf as ->. split.
      * split; [by eexists|]. intros va pa f' sz. rewrite Hv.
        destruct (same_page Size4K gpa va); [done|by apply H4k].
      * intros va Hva. unfold pt_view. rewrite Hv, same_page_4k by done.
        by destruct (_ =? gpa).
    + destruct Hr as (_ & _ & Hn). unfold pt_view. by rewrite Hn.
  - intros s va [Hok H4k] Hva. unfold pt_view.
    destruct (translate_cases s va Hok) as [->|(pa & fl & sz & Ht)]; [done|].
    rewrite Ht. by apply H4k in Ht as ->.
Qed.

End page_table_instance.

(** ** Instances *)

#[local] Existing Instance list_if_laws.
#[local] Existing Instance list_if.
#[local] Existing Instance EPTEntry.
#[local] Existing Instance X64PagingMetaData.

(** A four-level table of EPT entries. *)
Definition demo_npt : NestedPageTable (pstate (list Z * gset Z)) := pt_npt (demo_world demo_free).

Definition demo_gpm : GuestPhysMemorySet (pstate (list Z * gset Z)) :=
  {| gpm_regions := []; gpm_npt := demo_state demo_free |}.

Definition demo_gpm_ok : GuestPhysMemorySet (pstate (list Z * gset Z)) → Prop :=
  gpm_ok (npt_ok := pt_4k (pa_ok := frame_ok 52) (fl_ok := EPT_fl_ok) (owned := snd))
    (npt_view := pt_view) (npt_span := va_span) (npt_flags := EPT_fl_view)
    (npt_pa := pt_pa (pa_ok := frame_ok 52) (fl_ok := EPT_fl_ok)).

Definition demo_region : MapRegion := {|
  mr_start := 0x1000; mr_size := 0x1000; mr_flags := MF_READ;
  mr_mapper := Offset (0x1000 ⊖ 0x8000);
|}.

#[local] Existing Instance demo_npt.

Lemma demo_npt_laws :
  NestedPageTableLaws demo_npt
    (pt_4k (pa_ok := frame_ok 52) (fl_ok := EPT_fl_ok) (owned := snd)) pt_view va_span EPT_fl_view
    (pt_pa (pa_ok := frame_ok 52) (fl_ok := EPT_fl_ok)).
Proof. apply pt_npt_laws. by right. Qed.

#[local] Existing Instance demo_npt_laws.

Lemma demo_gpm_is_ok : demo_gpm_ok demo_gpm.
Proof.
  destruct (law_new (NPT := demo_npt) (demo_state demo_free) eq_refl) as [Hok Hv].
  split; [by constructor|constructor|exact Hok|]. intros va _. apply Hv.
Qed.

Lemma demo_region_ok :
  region_ok (npt_span := va_span)
    (npt_pa := pt_pa (pa_ok := frame_ok 52) (fl_ok := EPT_fl_ok)) demo_region.
Proof.
  exists 0x8000. split; [done|]. split; [by exists 1|]. split; [by exists 8|].
  split; [by exists 1|]. do 5 (split; [done|]). cbn. intros k [q ->] Hk. assert (q = 0) as -> by lia.
  split; [split; [by exists 8|done]|]. split; [done|]. split; [by exists 8|done].
Qed.


Lemma gpm_clear_unmaps_witness : ∃ g', gpm_clear demo_gpm = Done g' ∧ gpm_regions g' = [].
Proof.
  destruct (gpm_clear_unmaps demo_gpm demo_gpm_is_ok) as (g' & Hrun & _ & Hr & _).
  by exists g'.
Defined.

Definition demo_gmr_ok : GuestMemoryRegion → Prop :=
  gmr_ok (npt_span := va_span) (npt_pa := pt_pa (pa_ok := frame_ok 52) (fl_ok := EPT_fl_ok)).

Lemma gmr_ok_frames (gpa hpa size flags : Z) :
  (0x1000 | gpa) → (0x1000 | hpa) → (0x1000 | size) → 0 ≤ gpa → 0 < size →
  gpa + size ≤ va_span → 0 ≤ hpa → hpa + size ≤ 2 ^ 52 → EPT_fl_ok flags →
  demo_gmr_ok {| gmr_gpa := gpa; gmr_hpa := hpa; gmr_size := size; gmr_flags := flags |}.
Proof.
  intros. unfold demo_gmr_ok, gmr_ok. cbn -[va_span]. split_and!; try done; [lia|].
  intros k Hk Hr. assert ((0x1000 | hpa + k)) as Hd by by apply Z.divide_add_r.
  assert (hpa + k + 0x1000 ≤ hpa + size) as Hs
    by (apply page_step; [done|by apply Z.divide_add_r|lia]).
  unfold pt_pa, frame_ok. split_and!; try done; lia.
Qed.

(** The regions of [arceos_config] satisfy the conditions of the theorem,
    wherever the memory of the guest is in the host, on a page boundary. *)
Lemma arceos_regions_fit (hpa : Z) :
  (0x1000 | hpa) → 0 ≤ hpa → hpa + 0x8000000 ≤ 2 ^ 52 →
  Forall demo_gmr_ok (boot_memory_region hpa) ∧
  ForallOrdPairs gmr_disjoint (boot_memory_region hpa).
Proof.
  intros Hd H0 H1. split.
  - unfold boot_memory_region, arceos_guest_memory_region. cbn [app].
    repeat (apply Forall_cons; split); [..|by apply Forall_nil].
    all: apply gmr_ok_frames; first [done|by apply Z.mod_divide].
  - repeat constructor; unfold gmr_disjoint; cbn; lia.
Qed.

Lemma map_guest_regions_spec_witness :
  ∃ g', map_guest_regions
    [{| gmr_gpa := 0x1000; gmr_hpa := 0x8000; gmr_size := 0x1000; gmr_flags := MF_READ |}] demo_gpm =
    Done g' ∧ demo_gpm_ok g'.
Proof.
  destruct (map_guest_regions_spec
    [{| gmr_gpa := 0x1000; gmr_hpa := 0x8000; gmr_size := 0x1000; gmr_flags := MF_READ |}] demo_gpm
    demo_gpm_is_ok) as [(g' & Hrun & Hok & _)|[Hp _]].
  - apply Forall_singleton, gmr_ok_frames; first [done|by apply Z.mod_divide].
  - repeat constructor.
  - intros r b _ Hb. by apply elem_of_nil in Hb.
  - by exists g'.
  - exfalso. assert (is_done (map_guest_regions
      [{| gmr_gpa := 0x1000; gmr_hpa := 0x8000; gmr_size := 0x1000; gmr_flags := MF_READ |}]
      demo_gpm) = true) as Hd by reflexivity. by rewrite Hp in Hd.
Defined.
