(* ===== verification/HvVcpu.v ===== *)
(** * Virtual CPUs, messages between CPUs and virtual machines ([modules/axtask/src/hv])

    The state is that of the whole machine: the message lists of [notify.rs],
    the virtual CPUs (named by the address of their [Arc]), the virtual
    machines and the sequence of operations asked of the hardware.  The
    operations of [hypercraft] on the control structure of a virtual CPU
    ([bind_to_current_cpu], [unbind_to_current_cpu], [setup_vmcs]) and the
    instruction [vmclear] are such operations; whether one succeeds is the
    parameter [hw].  A function that waits for another CPU takes what the
    other CPUs do meanwhile as an argument. *)

From S2P Require Import Prelude Extern HvMem.
From stdpp Require Import base numbers list gmap.

Open Scope Z_scope.
Open Scope word_scope.

(** ** Sets of CPUs ([utils.rs]) *)

(** The part of the crate [bitvec] the sets use. *)
Class BitVec := {
  bitvec : Type;
  (** An empty vector after [resize(n, b)]. *)
  bv_repeat : nat → bool → bitvec;
  (** [set(i, b)], which panics out of range. *)
  bv_set : Z → bool → bitvec → outcome bitvec;
  bv_fill : bool → bitvec → bitvec;
  bv_get : Z → bitvec → option bool;
}.

Class BitVecLaws (BV : BitVec) : Prop := {
  bv_get_repeat n b i : 0 ≤ i → bv_get i (bv_repeat n b) = if i <? Z.of_nat n then Some b else None;
  bv_get_fill b i v : bv_get i (bv_fill b v) = (λ _, b) <$> bv_get i v;
  bv_set_ok i b v : is_Some (bv_get i v) → ∃ v', bv_set i b v = Done v' ∧
    ∀ j, bv_get j v' = if j =? i then Some b else bv_get j v;
  bv_set_out i b v : bv_get i v = None → bv_set i b v = Panic;
}.

#[global] Instance bitvec_ref : BitVec | 100 := {|
  bitvec := list bool;
  bv_repeat n b := replicate n b;
  bv_set i b v :=
    if (0 <=? i) && (i <? Z.of_nat (length v)) then Done (<[Z.to_nat i := b]> v) else Panic;
  bv_fill b v := replicate (length v) b;
  bv_get i v := if 0 <=? i then v !! Z.to_nat i else None;
|}.

Section hv_data.
Context {BV : BitVec} (SMP : nat).

Record CpuSet := { bitset : bitvec }.

Definition CpuSet_new_full : CpuSet := {| bitset := bv_repeat SMP true |}.
Definition CpuSet_new_empty : CpuSet := {| bitset := bv_repeat SMP false |}.

Definition CpuSet_add (cpu_id : Z) (c : CpuSet) : outcome CpuSet :=
  b ← bv_set cpu_id true (bitset c); Done {| bitset := b |}.
Definition CpuSet_remove (cpu_id : Z) (c : CpuSet) : outcome CpuSet :=
  b ← bv_set cpu_id false (bitset c); Done {| bitset := b |}.

Fixpoint CpuSet_add_from_vec (cpu_ids : list Z) (c : CpuSet) : outcome CpuSet :=
  match cpu_ids with
  | [] => Done c
  | cpu_id :: cpu_ids => c ← CpuSet_add cpu_id c; CpuSet_add_from_vec cpu_ids c
  end.

Fixpoint CpuSet_remove_from_vec (cpu_ids : list Z) (c : CpuSet) : outcome CpuSet :=
  match cpu_ids with
  | [] => Done c
  | cpu_id :: cpu_ids => c ← CpuSet_remove cpu_id c; CpuSet_remove_from_vec cpu_ids c
  end.

Definition CpuSet_add_all (c : CpuSet) : CpuSet := {| bitset := bv_fill true (bitset c) |}.
Definition CpuSet_clear (c : CpuSet) : CpuSet := {| bitset := bv_fill false (bitset c) |}.

Definition CpuSet_contains (cpu_id : Z) (c : CpuSet) : bool :=
  bool_decide (bv_get cpu_id (bitset c) = Some true).

(** ** Messages ([notify.rs]) *)

Definition BSP_CPU_ID : Z := 0.

Inductive Signal :=
| SigClear
| SigOk.

#[global] Instance Signal_eq_dec : EqDecision Signal.
Proof. solve_decision. Defined.

Record Message := {
  msg_id : Z;
  msg_dest : Z;
  msg_src : Z;
  msg_signal : Signal;
  msg_args : list Z;
}.

#[global] Instance Message_eq_dec : EqDecision Message.
Proof. solve_decision. Defined.

Abbreviation MsgLists := (list (list Message)).

Definition MsgLists_new (cap : nat) : MsgLists := replicate cap [].

Definition ml_receive_message (hart_id : Z) (ml : MsgLists) : outcome (option Message * MsgLists) :=
  q ← unwrap (ml !! Z.to_nat hart_id);
  match q with
  | [] => Done (None, ml)
  | m :: q => Done (Some m, <[Z.to_nat hart_id := q]> ml)
  end.

Definition ml_send_message (msg : Message) (ml : MsgLists) : outcome MsgLists :=
  q ← unwrap (ml !! Z.to_nat (msg_dest msg));
  Done (<[Z.to_nat (msg_dest msg) := q ++ [msg]]> ml).

Definition with_dest (i : Z) (m : Message) : Message := {|
  msg_id := msg_id m; msg_dest := i; msg_src := msg_src m;
  msg_signal := msg_signal m; msg_args := msg_args m;
|}.

Definition ml_broadcast_message (msg : Message) (ml : MsgLists) : MsgLists :=
  imap (λ i q, if Z.of_nat i =? BSP_CPU_ID then q else q ++ [with_dest (Z.of_nat i) msg]) ml.

(** [extract_if] removes every message equal to the expected one. *)
Definition ml_wait_reply (expected : Message) (ml : MsgLists) : outcome (bool * MsgLists) :=
  q ← unwrap (ml !! Z.to_nat (msg_dest expected));
  Done (bool_decide (expected ∈ q),
        <[Z.to_nat (msg_dest expected) := filter (λ m, m ≠ expected) q]> ml).

Definition new_reply (msg : Message) : Message := {|
  msg_id := msg_id msg; msg_dest := msg_src msg; msg_src := msg_dest msg;
  msg_signal := SigOk; msg_args := [];
|}.

(** ** Virtual CPUs and machines ([vcpu.rs], [vm/mod.rs]) *)

Inductive VirtCpuState :=
| VcInit
| VcOffline
| VcRunning
| VcStop.

#[global] Instance VirtCpuState_eq_dec : EqDecision VirtCpuState.
Proof. solve_decision. Defined.

(** [vc_vmcs], [vc_nr_sipi] and [vc_launched] are the fields of [hypercraft]'s
    [VCpu] the code reads and writes. *)
Record VirtCpu := {
  vc_vcpu_id : Z;
  vc_cpu_affinity : CpuSet;
  vc_state : VirtCpuState;
  vc_entry : option Z;
  vc_vm : Z;
  vc_ept_root : Z;
  vc_prev_pcpu : option Z;
  vc_vmcs : Z;
  vc_nr_sipi : Z;
  vc_launched : bool;
}.

Record VirtMach := {
  vm_vm_id : Z;
  vm_vcpus : list Z;
  vm_entry : Z;
}.

(** What is asked of the hardware, of the interrupt controller and of the run
    queue. *)
Inductive HvEvent :=
| EvBind (cpu vmcs : Z)
| EvUnbind (cpu vmcs : Z)
| EvVmclear (cpu vmcs : Z)
| EvSetup (vmcs : Z) (entry : option Z) (ept_root : Z)
| EvNmi (cpu : Z)
| EvSpawn (vcpu : Z).

#[global] Instance HvEvent_eq_dec : EqDecision HvEvent.
Proof. solve_decision. Defined.

Record hv_state := {
  hv_msgs : MsgLists;
  hv_next_msg : Z;
  hv_vcpus : gmap Z VirtCpu;
  hv_vms : gmap Z VirtMach;
  hv_events : list HvEvent;
}.

Definition with_msgs (ml : MsgLists) (s : hv_state) : hv_state := {|
  hv_msgs := ml; hv_next_msg := hv_next_msg s; hv_vcpus := hv_vcpus s; hv_vms := hv_vms s;
  hv_events := hv_events s;
|}.

Definition with_vcpu (v : Z) (vc : VirtCpu) (s : hv_state) : hv_state := {|
  hv_msgs := hv_msgs s; hv_next_msg := hv_next_msg s; hv_vcpus := <[v := vc]> (hv_vcpus s);
  hv_vms := hv_vms s; hv_events := hv_events s;
|}.

Definition with_vm (i : Z) (vm : VirtMach) (s : hv_state) : hv_state := {|
  hv_msgs := hv_msgs s; hv_next_msg := hv_next_msg s; hv_vcpus := hv_vcpus s;
  hv_vms := <[i := vm]> (hv_vms s); hv_events := hv_events s;
|}.

Definition with_event (e : HvEvent) (s : hv_state) : hv_state := {|
  hv_msgs := hv_msgs s; hv_next_msg := hv_next_msg s; hv_vcpus := hv_vcpus s; hv_vms := hv_vms s;
  hv_events := hv_events s ++ [e];
|}.

Definition set_vc_state (st : VirtCpuState) (v : VirtCpu) : VirtCpu := {|
  vc_vcpu_id := vc_vcpu_id v; vc_cpu_affinity := vc_cpu_affinity v; vc_state := st;
  vc_entry := vc_entry v; vc_vm := vc_vm v; vc_ept_root := vc_ept_root v;
  vc_prev_pcpu := vc_prev_pcpu v; vc_vmcs := vc_vmcs v; vc_nr_sipi := vc_nr_sipi v;
  vc_launched := vc_launched v;
|}.

Definition set_vc_entry (e : option Z) (v : VirtCpu) : VirtCpu := {|
  vc_vcpu_id := vc_vcpu_id v; vc_cpu_affinity := vc_cpu_affinity v; vc_state := vc_state v;
  vc_entry := e; vc_vm := vc_vm v; vc_ept_root := vc_ept_root v;
  vc_prev_pcpu := vc_prev_pcpu v; vc_vmcs := vc_vmcs v; vc_nr_sipi := vc_nr_sipi v;
  vc_launched := vc_launched v;
|}.

Definition set_vc_prev (p : option Z) (v : VirtCpu) : VirtCpu := {|
  vc_vcpu_id := vc_vcpu_id v; vc_cpu_affinity := vc_cpu_affinity v; vc_state := vc_state v;
  vc_entry := vc_entry v; vc_vm := vc_vm v; vc_ept_root := vc_ept_root v;
  vc_prev_pcpu := p; vc_vmcs := vc_vmcs v; vc_nr_sipi := vc_nr_sipi v;
  vc_launched := vc_launched v;
|}.

Definition set_vc_sipi (n : Z) (v : VirtCpu) : VirtCpu := {|
  vc_vcpu_id := vc_vcpu_id v; vc_cpu_affinity := vc_cpu_affinity v; vc_state := vc_state v;
  vc_entry := vc_entry v; vc_vm := vc_vm v; vc_ept_root := vc_ept_root v;
  vc_prev_pcpu := vc_prev_pcpu v; vc_vmcs := vc_vmcs v; vc_nr_sipi := n;
  vc_launched := vc_launched v;
|}.

Definition set_vc_launched (b : bool) (v : VirtCpu) : VirtCpu := {|
  vc_vcpu_id := vc_vcpu_id v; vc_cpu_affinity := vc_cpu_affinity v; vc_state := vc_state v;
  vc_entry := vc_entry v; vc_vm := vc_vm v; vc_ept_root := vc_ept_root v;
  vc_prev_pcpu := vc_prev_pcpu v; vc_vmcs := vc_vmcs v; vc_nr_sipi := vc_nr_sipi v;
  vc_launched := b;
|}.

End hv_data.

Section hv.
Context {BV : BitVec} (hw : HvEvent → list HvEvent → result HyperError unit).

Abbreviation hv := (stm hv_state HyperError).

(** An operation of the hardware that can fail, and one that cannot. *)
Definition emit (e : HvEvent) : hv unit := λ s,
  match hw e (hv_events s) with
  | Ok _ => Done (with_event e s, Ok tt)
  | Err er => Done (s, Err er)
  end.

(** [unwrap] of its result. *)
Definition unwrapped {T} (f : hv T) : hv T := λ s,
  match f s with Done (s', Ok t) => Done (s', Ok t) | _ => Panic end.

Definition log_event (e : HvEvent) : hv unit := modify (with_event e).

Definition get_vcpu (v : Z) : hv VirtCpu := λ s,
  match hv_vcpus s !! v with Some vc => Done (s, Ok vc) | None => Panic end.

Definition update_vcpu (v : Z) (f : VirtCpu → VirtCpu) : hv unit :=
  vc ← get_vcpu v; modify (with_vcpu v (f vc)).

(** [upgrade().unwrap()] of the reference to the machine, and its lock. *)
Definition get_vm (i : Z) : hv VirtMach := λ s,
  match hv_vms s !! i with Some vm => Done (s, Ok vm) | None => Panic end.

(** *** [notify.rs], on the global lists *)

Definition receive_message (hart_id : Z) : hv (option Message) := λ s,
  '(m, ml) ← ml_receive_message hart_id (hv_msgs s); Done (with_msgs ml s, Ok m).

Definition send_message (msg : Message) : hv unit := λ s,
  ml ← ml_send_message msg (hv_msgs s); Done (with_msgs ml s, Ok tt).

Definition broadcast_message (msg : Message) : hv unit :=
  modify (λ s, with_msgs (ml_broadcast_message msg (hv_msgs s)) s).

Definition wait_on_reply (msg : Message) : hv bool := λ s,
  '(b, ml) ← ml_wait_reply msg (hv_msgs s); Done (with_msgs ml s, Ok (negb b)).

Definition Message_new (src dest : Z) (signal : Signal) (args : list Z) : hv Message := λ s,
  Done ({| hv_msgs := hv_msgs s; hv_next_msg := hv_next_msg s ⊕ 1; hv_vcpus := hv_vcpus s;
           hv_vms := hv_vms s; hv_events := hv_events s |},
        Ok {| msg_id := hv_next_msg s; msg_dest := dest; msg_src := src; msg_signal := signal;
              msg_args := args |}).

Definition hv_msg_handler (hart_id : Z) : hv unit :=
  m ← receive_message hart_id;
  match m with
  | None => mret tt
  | Some msg =>
      match msg_signal msg with
      | SigClear =>
          addr ← of_outcome (unwrap (head (msg_args msg)));
          unwrapped (emit (EvVmclear hart_id addr));;
          send_message (new_reply msg)
      | SigOk => panic
      end
  end.

(** *** [vcpu.rs] *)

(** [prepare] up to its loop: the reply it has to wait for. *)
Definition prepare_begin (cpu v : Z) : hv (option Message) :=
  vc ← get_vcpu v;
  match vc_prev_pcpu vc with
  | None => emit (EvUnbind cpu (vc_vmcs vc));; mret None
  | Some prev =>
      if prev =? cpu then mret None
      else
        msg ← Message_new cpu prev SigClear [vc_vmcs vc];
        send_message msg;;
        log_event (EvNmi prev);;
        mret (Some (new_reply msg))
  end.

(** [prepare] after its loop. *)
Definition prepare_end (cpu v : Z) (waited : bool) : hv unit :=
  (if waited then update_vcpu v (set_vc_launched false) else mret tt);;
  vc ← get_vcpu v;
  emit (EvBind cpu (vc_vmcs vc));;
  if bool_decide (vc_state vc = VcInit) then
    emit (EvSetup (vc_vmcs vc) (vc_entry vc) (vc_ept_root vc));;
    update_vcpu v (set_vc_state VcRunning);;
    update_vcpu v (set_vc_launched false)
  else mret tt.

Fixpoint run_handlers (harts : list Z) : hv unit :=
  match harts with
  | [] => mret tt
  | hart :: harts => hv_msg_handler hart;; run_handlers harts
  end.

(** [loop { if wait_on_reply(&reply) { break; } }]: before each round the CPUs
    listed run their message handler.  [false]: still waiting. *)
Fixpoint prepare_wait (others : list (list Z)) (cpu v : Z) (reply : Message) : hv bool :=
  match others with
  | [] => mret false
  | harts :: others =>
      run_handlers harts;;
      leave ← wait_on_reply reply;
      if (leave : bool) then prepare_end cpu v true;; mret true
      else prepare_wait others cpu v reply
  end.

Definition prepare (others : list (list Z)) (cpu v : Z) : hv bool :=
  r ← prepare_begin cpu v;
  match r with
  | None => prepare_end cpu v false;; mret true
  | Some reply => prepare_wait others cpu v reply
  end.

(** [vcpu_switch_in] and [vcpu_switch_out] of [task.rs]. *)
Definition vcpu_switch_in (others : list (list Z)) (cpu v : Z) : hv bool :=
  unwrapped (prepare others cpu v).

Definition vcpu_switch_out (cpu v : Z) : hv unit := update_vcpu v (set_vc_prev (Some cpu)).

Definition bind_on_curr_cpu (affinity : CpuSet) (cpu : Z) : bool := CpuSet_contains cpu affinity.

(** *** [vm/mod.rs] *)

(** [api.rs]: a new task that runs the virtual CPU joins the run queue. *)
Definition spawn_vcpu (v : Z) : hv unit := log_event (EvSpawn v).

Definition start_bsp (i : Z) : hv unit :=
  vm ← get_vm i;
  bsp ← of_outcome (unwrap (vm_vcpus vm !! Z.to_nat BSP_CPU_ID));
  spawn_vcpu bsp.

Definition start_ap (i ap_start_entry target_vcpu : Z) : hv unit :=
  of_outcome (assert_true (negb (target_vcpu =? BSP_CPU_ID)));;
  vm ← get_vm i;
  ap ← of_outcome (unwrap (vm_vcpus vm !! Z.to_nat target_vcpu));
  vc ← get_vcpu ap;
  let sipi := vc_nr_sipi vc in
  if bool_decide (vc_state vc = VcInit) && negb (sipi =? 0) then
    update_vcpu ap (set_vc_sipi (wrap 8 (sipi - 1)));;
    if wrap 8 (sipi - 1) <=? 0 then
      update_vcpu ap (set_vc_entry (Some ap_start_entry));;
      spawn_vcpu ap
    else mret tt
  else mret tt.

Definition send_init_to_ap (i target_vcpu : Z) : hv unit :=
  of_outcome (assert_true (negb (target_vcpu =? BSP_CPU_ID)));;
  vm ← get_vm i;
  ap ← of_outcome (unwrap (vm_vcpus vm !! Z.to_nat target_vcpu));
  vc ← get_vcpu ap;
  if negb (bool_decide (vc_state vc = VcInit)) then panic
  else update_vcpu ap (set_vc_sipi 1).

Fixpoint offline_all (vs : list Z) : hv unit :=
  match vs with
  | [] => mret tt
  | v :: vs => update_vcpu v (set_vc_state VcOffline);; offline_all vs
  end.

Definition shutdown (i : Z) : hv unit :=
  vm ← get_vm i;
  offline_all (vm_vcpus vm);;
  modify (with_vm i {| vm_vm_id := vm_vm_id vm; vm_vcpus := []; vm_entry := vm_entry vm |}).

(** *** The interrupt command register of the local APIC ([lapic.rs], [smp.rs]) *)

Inductive DeliveryMode := Fixed | LowPriority | SMI | NMI | INIT | StartUp.

Definition DeliveryMode_try_from (n : Z) : option DeliveryMode :=
  match n with
  | 0 => Some Fixed
  | 1 => Some LowPriority
  | 2 => Some SMI
  | 4 => Some NMI
  | 5 => Some INIT
  | 6 => Some StartUp
  | _ => None
  end.

(** The fields of [Icr]. *)
Definition icr_vector (value : Z) : Z := value .& Z.ones 8.
Definition icr_delivery_mode (value : Z) : Z := (value .>> 8) .& Z.ones 3.
Definition icr_high (value : Z) : Z := (value .>> 32) .& Z.ones 32.

(** The write of [value] by a virtual CPU of machine [i]. *)
Definition handle_ap_events (i value : Z) : hv unit :=
  mode ← of_outcome (unwrap (DeliveryMode_try_from (icr_delivery_mode value)));
  match mode with
  | Fixed | LowPriority | SMI | NMI => panic
  | INIT => send_init_to_ap i (icr_high value)
  | StartUp => start_ap i (icr_vector value .<< 12) (icr_high value)
  end.

End hv.

(** ** Specification *)

(** The CPUs on which a control structure is active. *)
Definition vmcs_step (vmcs : Z) (acc : gset Z) (e : HvEvent) : gset Z :=
  match e with
  | EvBind c v => if v =? vmcs then {[c]} ∪ acc else acc
  | EvUnbind c v | EvVmclear c v => if v =? vmcs then acc ∖ {[c]} else acc
  | _ => acc
  end.

Definition vmcs_cpus (vmcs : Z) (es : list HvEvent) : gset Z := foldl (vmcs_step vmcs) ∅ es.

Section hv_spec.
Context {BV : BitVec} (hw : HvEvent → list HvEvent → result HyperError unit).
Implicit Types (s : hv_state) (m : Message) (q : list Message).

(** The messages in the lists carry numbers given out before. *)
Definition ids_used s : Prop := Forall (Forall (λ m, msg_id m < hv_next_msg s)) (hv_msgs s).

Lemma send_message_eq m s q :
  hv_msgs s !! Z.to_nat (msg_dest m) = Some q →
  send_message m s = Done (with_msgs (<[Z.to_nat (msg_dest m) := q ++ [m]]> (hv_msgs s)) s, Ok tt).
Proof. intros Hq. unfold send_message, ml_send_message. by rewrite Hq. Qed.

Lemma wait_on_reply_absent m s q :
  hv_msgs s !! Z.to_nat (msg_dest m) = Some q → m ∉ q →
  wait_on_reply m s = Done (s, Ok true).
Proof.
  intros Hq Hm. unfold wait_on_reply, ml_wait_reply. rewrite Hq.
  cbn -[bool_decide filter]. case_bool_decide; [done|].
  assert (filter (λ x, x ≠ m) q = q) as ->.
  { clear Hq. induction q as [|x q IH]; [done|]. apply not_elem_of_cons in Hm as [Hx Hm].
    rewrite filter_cons_True by done. f_equal. by apply IH. }
  rewrite list_insert_id by done. by destruct s.
Qed.

Lemma receive_message_eq (hart : Z) s m q :
  hv_msgs s !! Z.to_nat hart = Some (m :: q) →
  receive_message hart s = Done (with_msgs (<[Z.to_nat hart := q]> (hv_msgs s)) s, Ok (Some m)).
Proof. intros Hq. unfold receive_message, ml_receive_message. by rewrite Hq. Qed.

Lemma prepare_begin_moved (cpu v prev : Z) s vc q :
  hv_vcpus s !! v = Some vc → vc_prev_pcpu vc = Some prev → prev ≠ cpu →
  hv_msgs s !! Z.to_nat prev = Some q →
  let msg := {| msg_id := hv_next_msg s; msg_dest := prev; msg_src := cpu;
                msg_signal := SigClear; msg_args := [vc_vmcs vc] |} in
  prepare_begin hw cpu v s = Done (
    {| hv_msgs := <[Z.to_nat prev := q ++ [msg]]> (hv_msgs s); hv_next_msg := hv_next_msg s ⊕ 1;
       hv_vcpus := hv_vcpus s; hv_vms := hv_vms s; hv_events := hv_events s ++ [EvNmi prev] |},
    Ok (Some (new_reply msg))).
Proof.
  intros Hv Hp Hne Hq msg. unfold prepare_begin, get_vcpu.
  unfold mbind, stm_bind. rewrite Hv, Hp. rewrite (proj2 (Z.eqb_neq _ _)) by done. cbn -[send_message].
  by erewrite send_message_eq by done.
Qed.

Lemma prepare_end_running (cpu v : Z) s vc :
  hv_vcpus s !! v = Some vc → vc_state vc ≠ VcInit →
  (∀ es, hw (EvBind cpu (vc_vmcs vc)) es = Ok tt) →
  prepare_end hw cpu v true s =
    Done (with_event (EvBind cpu (vc_vmcs vc)) (with_vcpu v (set_vc_launched false vc) s), Ok tt).
Proof.
  intros Hv Hst Hhw. unfold prepare_end, update_vcpu, get_vcpu, emit, modify, mbind, stm_bind.
  rewrite Hv. cbn. rewrite lookup_insert_eq. cbn. rewrite Hhw. cbn.
  by destruct (vc_state vc).
Qed.

Lemma fresh_reply s (hart : nat) q m :
  ids_used s → hv_msgs s !! hart = Some q → msg_id m = hv_next_msg s → m ∉ q.
Proof.
  intros Hids Hq Hm Hin. pose proof (proj1 (Forall_lookup _ _) Hids hart q Hq) as Hall.
  pose proof (proj1 (Forall_forall _ _) Hall m Hin) as Hlt. cbn in Hlt. lia.
Qed.

(** A handler that finds a request clears the control structure and answers. *)
Lemma handler_clear (hart addr : Z) s m q qs :
  hv_msgs s !! Z.to_nat hart = Some (m :: q) → msg_signal m = SigClear → msg_args m = [addr] →
  (∀ es, hw (EvVmclear hart addr) es = Ok tt) →
  <[Z.to_nat hart := q]> (hv_msgs s) !! Z.to_nat (msg_src m) = Some qs →
  hv_msg_handler hw hart s =
    Done (with_msgs (<[Z.to_nat (msg_src m) := qs ++ [new_reply m]]>
            (<[Z.to_nat hart := q]> (hv_msgs s))) (with_event (EvVmclear hart addr) s), Ok tt).
Proof.
  intros Hq Hsig Hargs Hhw Hqs. unfold hv_msg_handler, mbind, stm_bind.
  rewrite (receive_message_eq hart s m q) by done. rewrite Hsig, Hargs.
  cbn -[send_message]. unfold unwrapped, emit. rewrite Hhw.
  by rewrite (send_message_eq _ _ qs).
Qed.

(** A handler that finds an answer panics. *)
Lemma handler_answer (hart : Z) s m q :
  hv_msgs s !! Z.to_nat hart = Some (m :: q) → msg_signal m = SigOk →
  hv_msg_handler hw hart s = Panic.
Proof.
  intros Hq Hsig. unfold hv_msg_handler, mbind, stm_bind.
  by rewrite (receive_message_eq hart s m q), Hsig.
Qed.

(** Moving a virtual CPU to another physical CPU does not wait for the
    other CPU to let go of it.  The loop that waits for the reply leaves as
    soon as the reply is not there, which is so at its first round, so the
    control structure is loaded on the new CPU while it is still active on the
    old one; and the old CPU's reply, when it comes, is not taken out by
    anyone and makes the next message handler of the new CPU panic. *)
Theorem migration_does_not_wait (s : hv_state) (cpu prev v : Z) (vc : VirtCpu)
    (others : list (list Z)) (qp qc : list Message) :
  hv_vcpus s !! v = Some vc → vc_prev_pcpu vc = Some prev → vc_state vc = VcRunning →
  prev ≠ cpu → 0 ≤ prev → 0 ≤ cpu → ids_used s →
  hv_msgs s !! Z.to_nat prev = Some qp → hv_msgs s !! Z.to_nat cpu = Some qc →
  (∀ e es, hw e es = Ok tt) →
  prev ∈ vmcs_cpus (vc_vmcs vc) (hv_events s) →
  ∃ s', vcpu_switch_in hw ([] :: others) cpu v s = Done (s', Ok true) ∧
    hv_events s' = hv_events s ++ [EvNmi prev; EvBind cpu (vc_vmcs vc)] ∧
    {[prev; cpu]} ⊆ vmcs_cpus (vc_vmcs vc) (hv_events s') ∧
    (qp = [] → qc = [] → run_handlers hw [prev; cpu] s' = Panic).
Proof.
  intros Hv Hp Hst Hne Hp0 Hc0 Hids Hqp Hqc Hhw Hact.
  assert (Z.to_nat prev ≠ Z.to_nat cpu) as Hnn by lia.
  unfold vcpu_switch_in, prepare, unwrapped. unfold mbind at 1, stm_bind at 1.
  erewrite prepare_begin_moved by done. cbn [prepare_wait run_handlers app].
  unfold mbind, stm_bind, mret, stm_ret.
  erewrite wait_on_reply_absent; cycle 1.
  { cbn. by rewrite list_lookup_insert_ne. }
  { by eapply fresh_reply. }
  cbn [hv_vcpus]. erewrite prepare_end_running; [|done|by rewrite Hst|done].
  eexists. split; [done|]. cbn -[union]. split; [by rewrite <- app_assoc|]. split.
  { unfold vmcs_cpus in *. rewrite !foldl_snoc. cbn. rewrite Z.eqb_refl. set_solver. }
  intros -> ->. pose proof (lookup_lt_Some _ _ _ Hqp). pose proof (lookup_lt_Some _ _ _ Hqc).
  erewrite handler_clear; [|cbn; by apply list_lookup_insert_eq|done..|cbn].
  2: { rewrite !list_lookup_insert_ne by done. exact Hqc. }
  erewrite handler_answer; [done|..].
  { cbn. apply list_lookup_insert_eq. by rewrite !length_insert. }
  done.
Qed.

(** *** Starting the other virtual CPUs *)

(** A sequence of writes to the interrupt command register. *)
Fixpoint icr_writes (i : Z) (ws : list Z) : stm hv_state HyperError unit :=
  match ws with
  | [] => mret tt
  | w :: ws => handle_ap_events i w;; icr_writes i ws
  end.

Definition icr_value (mode target vector : Z) : Z := target * 2 ^ 32 + mode * 2 ^ 8 + vector.

Lemma icr_fields (mode target vector : Z) :
  0 ≤ mode < 8 → 0 ≤ target < 2 ^ 32 → 0 ≤ vector < 2 ^ 8 →
  icr_delivery_mode (icr_value mode target vector) = mode ∧
  icr_high (icr_value mode target vector) = target ∧
  icr_vector (icr_value mode target vector) = vector.
Proof.
  intros. unfold icr_delivery_mode, icr_high, icr_vector, icr_value.
  rewrite !Z.land_ones, !Z.shiftr_div_pow2 by lia.
  split_and!; Z.to_euclidean_division_equations; lia.
Qed.

(** [w] is an INIT for the virtual CPU [ap]. *)
Definition is_init (vcpus : list Z) (ap w : Z) : bool :=
  (icr_delivery_mode w =? 5) && bool_decide (vcpus !! Z.to_nat (icr_high w) = Some ap).

Definition spawns (v : Z) s : nat := length (filter (λ e, e = EvSpawn v) (hv_events s)).

Lemma spawns_snoc (v : Z) s (e : HvEvent) :
  spawns v (with_event e s) = (spawns v s + if decide (e = EvSpawn v) then 1 else 0)%nat.
Proof.
  unfold spawns. cbn. rewrite filter_app, length_app, filter_cons, filter_nil.
  by destruct (decide (e = EvSpawn v)).
Qed.

Definition started_ap (ap entry : Z) (vc : VirtCpu) s : hv_state :=
  let n := wrap 8 (vc_nr_sipi vc - 1) in
  if bool_decide (vc_state vc = VcInit) && negb (vc_nr_sipi vc =? 0) then
    if n <=? 0
    then with_event (EvSpawn ap) (with_vcpu ap (set_vc_entry (Some entry) (set_vc_sipi n vc)) s)
    else with_vcpu ap (set_vc_sipi n vc) s
  else s.

Section machine.
Context (i : Z) (vm : VirtMach).

Lemma start_ap_eq (entry t ap : Z) vc s :
  hv_vms s !! i = Some vm → t ≠ 0 → vm_vcpus vm !! Z.to_nat t = Some ap →
  hv_vcpus s !! ap = Some vc →
  start_ap i entry t s = Done (started_ap ap entry vc s, Ok tt).
Proof.
  intros Hvm Ht Hap Hvc. unfold start_ap, started_ap, get_vm, get_vcpu, update_vcpu, spawn_vcpu,
    log_event, modify, of_outcome, assert_true, mbind, stm_bind, mret, stm_ret.
  rewrite (proj2 (Z.eqb_neq _ _)) by done. cbn. rewrite Hvm, Hap. cbn. rewrite Hvc.
  destruct (_ && _); [|done]. unfold get_vcpu. rewrite Hvc. cbn.
  destruct (_ <=? 0); [|done]. cbn. rewrite lookup_insert_eq. cbn.
  unfold with_vcpu. cbn. by rewrite insert_insert_eq.
Qed.

Lemma send_init_eq (t ap : Z) vc s :
  hv_vms s !! i = Some vm → t ≠ 0 → vm_vcpus vm !! Z.to_nat t = Some ap →
  hv_vcpus s !! ap = Some vc → vc_state vc = VcInit →
  send_init_to_ap i t s = Done (with_vcpu ap (set_vc_sipi 1 vc) s, Ok tt).
Proof.
  intros Hvm Ht Hap Hvc Hst. unfold send_init_to_ap, get_vm, get_vcpu, update_vcpu, modify,
    of_outcome, assert_true, mbind, stm_bind, mret, stm_ret.
  rewrite (proj2 (Z.eqb_neq _ _)) by done. cbn. rewrite Hvm, Hap. cbn. rewrite Hvc, Hst.
  rewrite bool_decide_eq_true_2 by done. unfold get_vcpu. cbn. by rewrite Hvc.
Qed.

(** The writes that return found their target. *)
Lemma start_ap_inv (entry t : Z) s s' :
  hv_vms s !! i = Some vm → start_ap i entry t s = Done (s', Ok tt) →
  ∃ ap vc, vm_vcpus vm !! Z.to_nat t = Some ap ∧ hv_vcpus s !! ap = Some vc ∧
    s' = started_ap ap entry vc s.
Proof.
  intros Hvm Hrun. pose proof Hrun as Hrun'.
  unfold start_ap, get_vm, get_vcpu, of_outcome, assert_true, mbind, stm_bind in Hrun.
  destruct (Z.eqb_spec t BSP_CPU_ID) as [|Ht]; [done|]. cbn in Hrun. rewrite Hvm in Hrun.
  destruct (vm_vcpus vm !! Z.to_nat t) as [ap|] eqn:Hap; [|done]. cbn in Hrun.
  destruct (hv_vcpus s !! ap) as [vc|] eqn:Hvc; [|done].
  rewrite (start_ap_eq entry t ap vc) in Hrun' by done. simplify_eq. by exists ap, vc.
Qed.

Lemma send_init_inv (t : Z) s s' :
  hv_vms s !! i = Some vm → send_init_to_ap i t s = Done (s', Ok tt) →
  ∃ ap vc, vm_vcpus vm !! Z.to_nat t = Some ap ∧ hv_vcpus s !! ap = Some vc ∧
    s' = with_vcpu ap (set_vc_sipi 1 vc) s.
Proof.
  intros Hvm Hrun. pose proof Hrun as Hrun'.
  unfold send_init_to_ap, get_vm, get_vcpu, of_outcome, assert_true, mbind, stm_bind in Hrun.
  destruct (Z.eqb_spec t BSP_CPU_ID) as [|Ht]; [done|]. cbn in Hrun. rewrite Hvm in Hrun.
  destruct (vm_vcpus vm !! Z.to_nat t) as [ap|] eqn:Hap; [|done]. cbn in Hrun.
  destruct (hv_vcpus s !! ap) as [vc|] eqn:Hvc; [|done].
  destruct (bool_decide_reflect (vc_state vc = VcInit)) as [Hst|]; [|done].
  rewrite (send_init_eq t ap vc) in Hrun' by done. simplify_eq. by exists ap, vc.
Qed.

(** The virtual CPU [ap] has at most [budget] tasks, counting the one a
    start-up message may still create. *)
Record ap_budget (ap : Z) (budget : nat) s : Prop := {
  apb_vm : hv_vms s !! i = Some vm;
  apb_vc : ∃ vc, hv_vcpus s !! ap = Some vc ∧ 0 ≤ vc_nr_sipi vc ≤ 1 ∧
    (spawns ap s + Z.to_nat (vc_nr_sipi vc) ≤ budget)%nat;
}.

Lemma started_ap_budget (ap ap' entry : Z) (budget : nat) vc' s :
  hv_vcpus s !! ap' = Some vc' → ap_budget ap budget s →
  ap_budget ap budget (started_ap ap' entry vc' s).
Proof.
  intros Hvc' [Hvm (vc & Hvc & Hr & Hb)]. unfold started_ap.
  destruct (_ && _) eqn:Hc; [|split; [done|by exists vc]].
  apply andb_true_iff in Hc as [_ Hnz]. bool_to_prop.
  destruct (decide (ap' = ap)) as [->|Hne].
  - assert (vc' = vc) as -> by congruence. assert (vc_nr_sipi vc = 1) as Hone by lia.
    rewrite Hone in *. change (wrap 8 (1 - 1)) with 0. change (0 <=? 0) with true. cbn iota.
    split; [done|]. eexists. split; [apply lookup_insert_eq|]. split; [done|].
    rewrite spawns_snoc, decide_True by done. unfold spawns in *. cbn in *. lia.
  - destruct (_ <=? 0); (split; [done|]); exists vc; cbn [hv_vcpus with_vcpu with_event];
      rewrite lookup_insert_ne by done; (split; [done|]); (split; [done|]); [rewrite spawns_snoc, decide_False by congruence|];
      unfold spawns in *; cbn; lia.
Qed.

Lemma init_budget (ap ap' : Z) (budget : nat) vc' s :
  hv_vcpus s !! ap' = Some vc' → ap_budget ap budget s →
  ap_budget ap (budget + if decide (ap' = ap) then 1 else 0) (with_vcpu ap' (set_vc_sipi 1 vc') s).
Proof.
  intros Hvc' [Hvm (vc & Hvc & Hr & Hb)]. split; [done|]. cbn.
  destruct (decide (ap' = ap)) as [->|Hne].
  - eexists. split; [apply lookup_insert_eq|]. cbn. unfold spawns in *. cbn. lia.
  - exists vc. rewrite lookup_insert_ne by done. split; [done|]. split; [done|]. unfold spawns in *. cbn. lia.
Qed.

Lemma icr_write_budget (ap w : Z) (budget : nat) s s' :
  ap_budget ap budget s → handle_ap_events i w s = Done (s', Ok tt) →
  ap_budget ap (budget + if is_init (vm_vcpus vm) ap w then 1 else 0) s'.
Proof.
  intros Hb Hrun. unfold handle_ap_events, mbind, stm_bind, of_outcome in Hrun. unfold is_init.
  destruct (DeliveryMode_try_from (icr_delivery_mode w)) as [mode|] eqn:Hm; [|done]. cbn in Hrun.
  unfold DeliveryMode_try_from in Hm.
  destruct (Z.eqb_spec (icr_delivery_mode w) 5) as [E|E].
  - rewrite E in Hm. simplify_eq.
    destruct (send_init_inv _ _ _ (apb_vm _ _ _ Hb) Hrun) as (ap' & vc' & Hap & Hvc' & ->).
    rewrite Hap. pose proof (init_budget ap ap' budget vc' s Hvc' Hb) as H. cbn.
    case_bool_decide; case_decide; simplify_eq; done.
  - cbn. rewrite Nat.add_0_r. destruct mode; try done.
    + exfalso. apply E. clear -Hm. by repeat case_match; simplify_eq.
    + destruct (start_ap_inv _ _ _ _ (apb_vm _ _ _ Hb) Hrun) as (ap' & vc' & Hap & Hvc' & ->).
      by apply started_ap_budget.
Qed.

Lemma icr_writes_budget (ap : Z) (ws : list Z) : ∀ (budget : nat) s s',
  ap_budget ap budget s → icr_writes i ws s = Done (s', Ok tt) →
  ap_budget ap (budget + length (filter (is_init (vm_vcpus vm) ap) ws)) s'.
Proof.
  induction ws as [|w ws IH]; intros budget s s' Hb Hrun.
  { unfold icr_writes, mret, stm_ret in Hrun. simplify_eq. cbn [filter length]. rewrite Nat.add_0_r. exact Hb. }
  cbn [icr_writes] in Hrun. unfold mbind, stm_bind in Hrun.
  destruct (handle_ap_events i w s) as [[s1 [[]|e]]|] eqn:Hw; try done.
  pose proof (icr_write_budget ap w budget s s1 Hb Hw) as Hb1. specialize (IH _ _ _ Hb1 Hrun).
  destruct (is_init (vm_vcpus vm) ap w) eqn:E.
  - rewrite filter_cons_True by (rewrite E; exact I). cbn [length]. by rewrite <- Nat.add_assoc in IH.
  - rewrite filter_cons_False by (rewrite E; intros []). by rewrite Nat.add_0_r in IH.
Qed.

End machine.

(** C35: the start-up protocol of the other virtual CPUs.  INIT followed by two
    start-up messages, the sequence a guest sends, gives the target exactly one
    task, which begins at the page named by the first vector; and whatever a
    guest writes to its interrupt command register, a virtual CPU gets no more
    tasks than the INITs sent to it allow. *)
Theorem ap_startup (i : Z) (vm : VirtMach) (s : hv_state) (t ap v1 v2 : Z) (vc : VirtCpu) :
  hv_vms s !! i = Some vm → vm_vcpus vm !! Z.to_nat t = Some ap → 0 < t < 2 ^ 32 →
  hv_vcpus s !! ap = Some vc → vc_state vc = VcInit → 0 ≤ vc_nr_sipi vc ≤ 1 →
  0 ≤ v1 < 2 ^ 8 → 0 ≤ v2 < 2 ^ 8 →
  (∃ s', icr_writes i [icr_value 5 t 0; icr_value 6 t v1; icr_value 6 t v2] s = Done (s', Ok tt) ∧
     hv_events s' = hv_events s ++ [EvSpawn ap] ∧
     ∃ vc', hv_vcpus s' !! ap = Some vc' ∧ vc_entry vc' = Some (v1 * 2 ^ 12) ∧ vc_nr_sipi vc' = 0) ∧
  ∀ ws s', icr_writes i ws s = Done (s', Ok tt) →
    (spawns ap s' ≤ spawns ap s + Z.to_nat (vc_nr_sipi vc) +
       length (filter (is_init (vm_vcpus vm) ap) ws))%nat.
Proof.
  intros Hvm Hap Ht Hvc Hst Hr Hv1 Hv2. split.
  - destruct (icr_fields 5 t 0) as (Hm0 & Ht0 & _); [lia..|].
    destruct (icr_fields 6 t v1) as (Hm1 & Ht1 & Hvec1); [lia..|].
    destruct (icr_fields 6 t v2) as (Hm2 & Ht2 & Hvec2); [lia..|].
    cbn [icr_writes]. unfold handle_ap_events, mbind, stm_bind, mret, stm_ret.
    rewrite Hm0, Hm1, Hm2. cbn [DeliveryMode_try_from unwrap of_outcome].
    rewrite Ht0, Ht1, Ht2, Hvec1, Hvec2.
    erewrite (send_init_eq i vm) by (done || lia).
    erewrite (start_ap_eq i vm); [|done|lia|done|apply lookup_insert_eq].
    unfold started_ap at 1. cbn [set_vc_sipi vc_nr_sipi vc_state]. rewrite Hst.
    rewrite bool_decide_eq_true_2 by done. change (wrap 8 (1 - 1)) with 0. cbn.
    erewrite (start_ap_eq i vm); [|done|lia|done|apply lookup_insert_eq].
    unfold started_ap. cbn [set_vc_sipi set_vc_entry vc_nr_sipi vc_state]. rewrite andb_false_r.
    eexists. split; [done|]. split; [done|]. eexists. split; [apply lookup_insert_eq|].
    cbn. split; [|done]. f_equal. unfold wshl. rewrite Z.shiftl_mul_pow2 by lia.
    apply wrap_small. lia.
  - intros ws s' Hrun.
    destruct (icr_writes_budget i vm ap ws (spawns ap s + Z.to_nat (vc_nr_sipi vc)) s s')
      as [_ (vc' & _ & _ & Hb)]; [|done|lia]. split; [done|]. by exists vc.
Qed.

End hv_spec.

(** ** An instance *)

Definition demo_vcpu (st : VirtCpuState) (prev : option Z) : VirtCpu := {|
  vc_vcpu_id := 1; vc_cpu_affinity := CpuSet_new_full 2; vc_state := st; vc_entry := None;
  vc_vm := 0; vc_ept_root := 0x1000; vc_prev_pcpu := prev; vc_vmcs := 0x5000; vc_nr_sipi := 0;
  vc_launched := true;
|}.

(** Two CPUs; the control structure of the virtual CPU is active on CPU 0. *)
Definition demo_hv (st : VirtCpuState) (prev : option Z) : hv_state := {|
  hv_msgs := MsgLists_new 2; hv_next_msg := 0; hv_vcpus := {[ 100 := demo_vcpu st prev ]};
  hv_vms := {[ 0 := {| vm_vm_id := 0; vm_vcpus := [99; 100]; vm_entry := 0x8000 |} ]};
  hv_events := [EvBind 0 0x5000];
|}.

Definition hw_ok (e : HvEvent) (es : list HvEvent) : result HyperError unit := Ok tt.

Lemma migration_does_not_wait_witness :
  ∃ s', vcpu_switch_in hw_ok [[]] 1 100 (demo_hv VcRunning (Some 0)) = Done (s', Ok true) ∧
    {[0; 1]} ⊆ vmcs_cpus 0x5000 (hv_events s') ∧ run_handlers hw_ok [0; 1] s' = Panic.
Proof.
  destruct (migration_does_not_wait hw_ok (demo_hv VcRunning (Some 0)) 1 0 100
    (demo_vcpu VcRunning (Some 0)) [] [] []) as (s' & Hrun & _ & Hact & Hp);
    [done..|repeat constructor|done|done|done|set_solver|].
  exists s'. auto.
Defined.

Lemma ap_startup_witness :
  ∃ s', icr_writes 0 [icr_value 5 1 0; icr_value 6 1 8; icr_value 6 1 8] (demo_hv VcInit None) =
    Done (s', Ok tt) ∧ hv_events s' = [EvBind 0 0x5000; EvSpawn 100].
Proof.
  destruct (ap_startup 0 {| vm_vm_id := 0; vm_vcpus := [99; 100]; vm_entry := 0x8000 |}
    (demo_hv VcInit None) 1 100 8 8 (demo_vcpu VcInit None)) as [(s' & Hrun & Hev & _) _];
    [done..|]. by exists s'.
Defined.
