(* ===== verification/HvScheduler.v ===== *)
(** * The scheduler of the hypervisor ([modules/axtask/src/hv/scheduler.rs])

    A round-robin scheduler whose tasks are bound to sets of CPUs: a CPU takes
    the first ready task it may run.  A task is the address of its [Arc]; the
    scheduler keeps the time slices inside the tasks. *)

From S2P Require Import Prelude Scheduler HvVcpu.
From stdpp Require Import base numbers gmap functions list.

Open Scope Z_scope.

Section hv_scheduler.
Context {BV : BitVec} (MAX_TIME_SLICE : Z) (affinity : Z → CpuSet) (is_vcpu_task : Z → bool).

Record HVScheduler := {
  hvs_queue : list Z;
  hvs_slice : Z → Z;
}.

Definition hvs_new : HVScheduler := {| hvs_queue := []; hvs_slice := λ _, to_isize MAX_TIME_SLICE |}.

Definition hvs_add_task (task : Z) (s : HVScheduler) : HVScheduler :=
  {| hvs_queue := hvs_queue s ++ [task]; hvs_slice := hvs_slice s |}.

(** [position(p)], then [remove(idx)]. *)
Definition hvs_take (p : Z → bool) (s : HVScheduler) : option Z * HVScheduler :=
  match list_find (λ t, p t = true) (hvs_queue s) with
  | Some (idx, t) =>
      (Some t, {| hvs_queue := delete idx (hvs_queue s); hvs_slice := hvs_slice s |})
  | None => (None, s)
  end.

Definition hvs_remove_task (task : Z) (s : HVScheduler) : option Z * HVScheduler :=
  hvs_take (λ t, t =? task) s.

(** On CPU [cpu]. *)
Definition hvs_pick_next_task (cpu : Z) (s : HVScheduler) : option Z * HVScheduler :=
  hvs_take (λ t, bind_on_curr_cpu (affinity t) cpu) s.

Definition hvs_put_prev_task (prev : Z) (preempt : bool) (s : HVScheduler) : HVScheduler :=
  if (0 <? hvs_slice s prev) && preempt
  then {| hvs_queue := prev :: hvs_queue s; hvs_slice := hvs_slice s |}
  else {| hvs_queue := hvs_queue s ++ [prev]; hvs_slice := <[prev := to_isize MAX_TIME_SLICE]> (hvs_slice s) |}.

(** [fetch_sub(1)] of the slice. *)
Definition hvs_task_tick (current : Z) (s : HVScheduler) : bool * HVScheduler :=
  let old_slice := hvs_slice s current in
  (old_slice <=? 1,
   {| hvs_queue := hvs_queue s;
      hvs_slice := <[current := to_isize (old_slice - 1)]> (hvs_slice s) |}).

Definition hvs_vcpu_task_tick (current : Z) (s : HVScheduler) : bool * HVScheduler :=
  if is_vcpu_task current then hvs_task_tick current s
  else (hvs_slice s current <=? 1, s).

Definition hvs_set_priority (_task _prio : Z) (s : HVScheduler) : bool * HVScheduler := (false, s).

(** ** Specification *)

(** The ready tasks a CPU may run, in order. *)
Definition runnable (cpu : Z) (s : HVScheduler) : list Z :=
  filter (λ t, bind_on_curr_cpu (affinity t) cpu = true) (hvs_queue s).

(** Every CPU sees the ready tasks it may run as a queue: picking takes the
    first of them and leaves the others of that queue in order, and takes
    nothing away from what is not picked on any CPU; a CPU is left without a
    task exactly when it may run none of the ready ones. *)
Theorem hvs_pick_next_task_spec (cpu : Z) (s : HVScheduler) :
  match hvs_pick_next_task cpu s with
  | (None, s') => s' = s ∧ runnable cpu s = []
  | (Some t, s') =>
      runnable cpu s = t :: runnable cpu s' ∧
      (∀ c, runnable c s ≡ₚ
         if bind_on_curr_cpu (affinity t) c then t :: runnable c s' else runnable c s') ∧
      (∀ c, bind_on_curr_cpu (affinity t) c = false → runnable c s' = runnable c s) ∧
      hvs_queue s ≡ₚ t :: hvs_queue s'
  end.
Proof.
  unfold hvs_pick_next_task, hvs_take, runnable.
  destruct (list_find _ (hvs_queue s)) as [[idx t]|] eqn:Hf.
  - apply list_find_Some in Hf as (Hl & Hb & Hbefore). cbn.
    rewrite delete_take_drop. pose proof (take_drop_middle _ _ _ Hl) as Hq.
    assert (filter (λ t, bind_on_curr_cpu (affinity t) cpu = true) (take idx (hvs_queue s)) = [])
      as Hnil.
    { apply elem_of_nil_inv. intros x [Hx Hin]%list_elem_of_filter.
      apply list_elem_of_lookup in Hin as [j Hj]. apply lookup_take_Some in Hj as [Hj Hlt].
      by apply (Hbefore j x). }
    split_and!.
    + rewrite <- Hq at 1. rewrite !filter_app, Hnil.
      by rewrite filter_cons_True.
    + intros c. rewrite <- Hq at 1. rewrite !filter_app, filter_cons.
      destruct (bind_on_curr_cpu (affinity t) c).
      * rewrite decide_True by done. by rewrite Permutation_middle.
      * by rewrite decide_False.
    + intros c Hc. symmetry. rewrite <- Hq at 1.
      rewrite !filter_app, filter_cons_False by by rewrite Hc. done.
    + rewrite <- Hq at 1. by rewrite Permutation_middle.
  - apply list_find_None in Hf. split; [done|]. apply elem_of_nil_inv.
    intros x [Hx Hin]%list_elem_of_filter. pose proof (proj1 (Forall_forall _ _) Hf x Hin) as Hn. by apply Hn.
Qed.

End hv_scheduler.
