(* ===== verification/HvDevices.v ===== *)
(** * Emulated devices of a virtual machine ([modules/axtask/src/hv/vmx])

    The emulated 8259 interrupt controller, 16550 serial port and power switch,
    their dispatch by I/O port, and the handlers of I/O instructions and of
    accesses to model-specific registers.  The virtual CPU of [hypercraft] and
    the console of the machine are type classes, with their behaviour as laws. *)

From S2P Require Import Prelude Extern HvMem HvVcpu.
From stdpp Require Import base numbers gmap list.

Open Scope Z_scope.
Open Scope word_scope.

(** ** [i8259_pic.rs] *)

Record I8259Pic := {
  pic_port_base : Z;
  pic_icw1 : Z;
  pic_offset : Z;
  pic_icw3 : Z;
  pic_icw4 : Z;
  pic_icw_written : Z;
  pic_icw_left : bool;
  pic_mask : Z;
}.

Definition I8259Pic_new (port_base : Z) : I8259Pic := {|
  pic_port_base := port_base; pic_icw1 := 0; pic_offset := 0; pic_icw3 := 0; pic_icw4 := 0;
  pic_icw_written := 0; pic_icw_left := false; pic_mask := 0;
|}.

Definition pic_port_range (p : I8259Pic) : Z * Z :=
  (pic_port_base p, wrap 16 (pic_port_base p + 2)).

Definition pic_read (port _access_size : Z) (p : I8259Pic) : result HyperError Z :=
  match wrap 16 (port - pic_port_base p) with
  | 1 => Ok (pic_mask p)
  | _ => Err HvNotSupported
  end.

Section pic.
Context {BF : BitField}.

(** The last initialisation word has been written. *)
Definition pic_next (p : I8259Pic) : I8259Pic :=
  let last := (pic_icw_written p =? 3) || ((pic_icw_written p =? 2) && negb (get_bit (pic_icw1 p) 0)) in
  {| pic_port_base := pic_port_base p; pic_icw1 := pic_icw1 p; pic_offset := pic_offset p;
     pic_icw3 := pic_icw3 p; pic_icw4 := pic_icw4 p;
     pic_icw_written := if last then 0 else wrap 8 (pic_icw_written p + 1);
     pic_icw_left := if last then false else pic_icw_left p;
     pic_mask := pic_mask p |}.

Definition pic_set_icw1 (v : Z) (p : I8259Pic) : I8259Pic :=
  {| pic_port_base := pic_port_base p; pic_icw1 := v; pic_offset := pic_offset p;
     pic_icw3 := pic_icw3 p; pic_icw4 := pic_icw4 p; pic_icw_written := 1; pic_icw_left := true;
     pic_mask := pic_mask p |}.

Definition pic_set_word (offset icw3 icw4 mask : Z) (p : I8259Pic) : I8259Pic :=
  {| pic_port_base := pic_port_base p; pic_icw1 := pic_icw1 p; pic_offset := offset;
     pic_icw3 := icw3; pic_icw4 := icw4; pic_icw_written := pic_icw_written p;
     pic_icw_left := pic_icw_left p; pic_mask := mask |}.

Definition pic_write (port _access_size value : Z) (p : I8259Pic) : I8259Pic * result HyperError unit :=
  let value := wrap 8 value in
  match wrap 16 (port - pic_port_base p) with
  | 0 => (if get_bit value 4 then pic_set_icw1 value p else p, Ok tt)
  | 1 =>
      if negb (pic_icw_left p)
      then (pic_set_word (pic_offset p) (pic_icw3 p) (pic_icw4 p) value p, Ok tt)
      else
        match pic_icw_written p with
        | 1 => (pic_next (pic_set_word value (pic_icw3 p) (pic_icw4 p) (pic_mask p) p), Ok tt)
        | 2 => (pic_next (pic_set_word (pic_offset p) value (pic_icw4 p) (pic_mask p) p), Ok tt)
        | 3 => (pic_next (pic_set_word (pic_offset p) (pic_icw3 p) value (pic_mask p) p), Ok tt)
        | _ => (p, Err HvBadState)
        end
  | _ => (p, Err HvInvalidParam)
  end.

End pic.

(** ** [uart16550.rs] *)

Definition DATA_REG : Z := 0.
Definition INT_EN_REG : Z := 1.
Definition FIFO_CTRL_REG : Z := 2.
Definition LINE_CTRL_REG : Z := 3.
Definition MODEM_CTRL_REG : Z := 4.
Definition LINE_STATUS_REG : Z := 5.
Definition MODEM_STATUS_REG : Z := 6.
Definition SCRATCH_REG : Z := 7.

Definition UART_FIFO_CAPACITY : nat := 16.

Record Fifo := {
  fifo_buf : list Z;
  fifo_head : Z;
  fifo_num : Z;
}.

Section fifo.
Context (CAP : nat).

Definition Fifo_new : Fifo := {| fifo_buf := replicate CAP 0; fifo_head := 0; fifo_num := 0 |}.

Definition fifo_is_empty (f : Fifo) : bool := fifo_num f =? 0.
Definition fifo_is_full (f : Fifo) : bool := fifo_num f =? Z.of_nat CAP.

Definition fifo_push (value : Z) (f : Fifo) : outcome Fifo :=
  assert_true (fifo_num f <? Z.of_nat CAP);;
  let i := (fifo_head f ⊕ fifo_num f) mod Z.of_nat CAP in
  assert_true (i <? Z.of_nat (length (fifo_buf f)));;
  Done {| fifo_buf := <[Z.to_nat i := value]> (fifo_buf f); fifo_head := fifo_head f;
          fifo_num := fifo_num f ⊕ 1 |}.

Definition fifo_pop (f : Fifo) : outcome (Z * Fifo) :=
  assert_true (0 <? fifo_num f);;
  ret ← unwrap (fifo_buf f !! Z.to_nat (fifo_head f));
  Done (ret, {| fifo_buf := fifo_buf f; fifo_head := (fifo_head f ⊕ 1) mod Z.of_nat CAP;
                fifo_num := fifo_num f ⊖ 1 |}).

End fifo.

(** The console of the machine, [axhal::console]. *)
Class Console (H : Type) := {
  con_putchar : Z → H → H;
  con_getchar : H → option Z * H;
}.

(** [con_in] and [con_out]: the bytes read and written so far. *)
Class ConsoleLaws (H : Type) {C : Console H} (con_in con_out : H → list Z) : Prop := {
  con_getchar_log h c h' : con_getchar h = (c, h') →
    con_in h' = con_in h ++ match c with Some c => [c] | None => [] end ∧ con_out h' = con_out h;
  con_putchar_log c h : con_in (con_putchar c h) = con_in h ∧ con_out (con_putchar c h) = con_out h ++ [c];
}.

(** The trait [VirtualConsoleBackend]; the machine's console is threaded
    through. *)
Class VirtualConsoleBackend (H B : Type) := {
  vcb_new : B;
  vcb_putchar : Z → H * B → outcome (H * B);
  vcb_getchar : H * B → outcome (option Z * (H * B));
}.

#[global] Instance DefaultConsoleBackend {H} `{Console H} : VirtualConsoleBackend H unit := {|
  vcb_new := tt;
  vcb_putchar c '(h, b) := Done (con_putchar c h, b);
  vcb_getchar '(h, b) := let '(c, h) := con_getchar h in Done (c, (h, b));
|}.

Definition MULTIPLEX_BUFFER_LENGTH : nat := 80.

Inductive MultiplexConsoleBackend :=
| Primary
| Secondary (id : Z) (buffer : Fifo) (input : list Z) (input_ptr : Z).

Definition new_secondary (id : Z) (input : list Z) : MultiplexConsoleBackend :=
  Secondary id (Fifo_new MULTIPLEX_BUFFER_LENGTH) input 0.

(** [while !buffer.is_empty() { result[ptr] = buffer.pop(); ptr += 1; }], with
    [result] of one byte more than the buffer. *)
Fixpoint drain (fuel : nat) (buffer : Fifo) (acc : list Z) : outcome (list Z * Fifo) :=
  match fuel with
  | O => Panic
  | S fuel =>
      if fifo_is_empty buffer then Done (acc, buffer)
      else
        '(c, buffer) ← fifo_pop MULTIPLEX_BUFFER_LENGTH buffer;
        assert_true (Z.of_nat (length acc) <? Z.of_nat MULTIPLEX_BUFFER_LENGTH + 1);;
        drain fuel buffer (acc ++ [c])
  end.

(** [valid_utf8] stands for [core::str::from_utf8]. *)
Definition multiplex_putchar {H} `{Console H} (valid_utf8 : list Z → bool) (c : Z)
    (x : H * MultiplexConsoleBackend) : outcome (H * MultiplexConsoleBackend) :=
  let '(h, b) := x in
  match b with
  | Primary => Done (con_putchar c h, Primary)
  | Secondary id buffer input ptr =>
      if c =? 10 then
        '(line, buffer) ← drain (S (S MULTIPLEX_BUFFER_LENGTH)) buffer [];
        assert_true (valid_utf8 line);;
        Done (h, Secondary id buffer input ptr)
      else
        buffer ← fifo_push MULTIPLEX_BUFFER_LENGTH c buffer;
        Done (h, Secondary id buffer input ptr)
  end.

Definition multiplex_getchar {H} `{Console H} (x : H * MultiplexConsoleBackend) :
    outcome (option Z * (H * MultiplexConsoleBackend)) :=
  let '(h, b) := x in
  match b with
  | Primary => let '(c, h) := con_getchar h in Done (c, (h, Primary))
  | Secondary id buffer input ptr =>
      result ← unwrap (input !! Z.to_nat ptr);
      let ptr := ptr ⊕ 1 in
      let ptr := if Z.of_nat (length input) <=? ptr then 0 else ptr in
      Done (Some result, (h, Secondary id buffer input ptr))
  end.

Record Uart16550 (B : Type) := {
  uart_port_base : Z;
  uart_fifo : Fifo;
  uart_line_control_reg : Z;
  uart_backend : B;
}.
Arguments uart_port_base {B}.
Arguments uart_fifo {B}.
Arguments uart_line_control_reg {B}.
Arguments uart_backend {B}.

Section uart.
Context {H B : Type} {VCB : VirtualConsoleBackend H B}.

Definition Uart16550_new (port_base : Z) : Uart16550 B := {|
  uart_port_base := port_base; uart_fifo := Fifo_new UART_FIFO_CAPACITY;
  uart_line_control_reg := 0; uart_backend := vcb_new;
|}.

Definition uart_with (f : Fifo) (lcr : Z) (b : B) (u : Uart16550 B) : Uart16550 B := {|
  uart_port_base := uart_port_base u; uart_fifo := f; uart_line_control_reg := lcr;
  uart_backend := b;
|}.

Definition uart_port_range (u : Uart16550 B) : Z * Z :=
  (uart_port_base u, wrap 16 (uart_port_base u + 8)).

(** [DATA_REG]: a byte from the FIFO. *)
Definition uart_read_data (h : H) (u : Uart16550 B) : outcome (H * Uart16550 B * Z) :=
  if fifo_is_empty (uart_fifo u) then Done (h, u, 0)
  else
    '(c, f) ← fifo_pop UART_FIFO_CAPACITY (uart_fifo u);
    Done (h, uart_with f (uart_line_control_reg u) (uart_backend u) u, c).

(** [LINE_STATUS_REG]: moves a byte of the console to the FIFO. *)
Definition uart_read_status (h : H) (u : Uart16550 B) : outcome (H * Uart16550 B * Z) :=
  '(h, b, f) ← (if fifo_is_full UART_FIFO_CAPACITY (uart_fifo u)
                then Done (h, uart_backend u, uart_fifo u)
                else
                  '(c, (h, b)) ← vcb_getchar (h, uart_backend u);
                  match c with
                  | Some c => f ← fifo_push UART_FIFO_CAPACITY c (uart_fifo u); Done (h, b, f)
                  | None => Done (h, b, uart_fifo u)
                  end);
  let lsr := Z.shiftl 1 5 .| Z.shiftl 1 6 in
  Done (h, uart_with f (uart_line_control_reg u) b u,
        if fifo_is_empty f then lsr else lsr .| 1).

Definition uart_read (port access_size : Z) (h : H) (u : Uart16550 B) :
    outcome (H * Uart16550 B * result HyperError Z) :=
  if negb (access_size =? 1) then Done (h, u, Err HvInvalidParam)
  else
    '(h, u, ret) ←
      match wrap 16 (port - uart_port_base u) with
      | 0 => uart_read_data h u
      | 5 => uart_read_status h u
      | 3 => Done (h, u, uart_line_control_reg u)
      | 1 | 2 | 4 | 6 | 7 => Done (h, u, 0)
      | _ => Panic
      end;
    Done (h, u, Ok ret).

Definition uart_write (port access_size value : Z) (h : H) (u : Uart16550 B) :
    outcome (H * Uart16550 B * result HyperError unit) :=
  if negb (access_size =? 1) then Done (h, u, Err HvInvalidParam)
  else
    match wrap 16 (port - uart_port_base u) with
    | 0 =>
        '(h, b) ← vcb_putchar (wrap 8 value) (h, uart_backend u);
        Done (h, uart_with (uart_fifo u) (uart_line_control_reg u) b u, Ok tt)
    | 3 => Done (h, uart_with (uart_fifo u) (wrap 8 value) (uart_backend u) u, Ok tt)
    | 1 | 2 | 4 | 7 => Done (h, u, Ok tt)
    | 5 => Done (h, u, Ok tt)
    | _ => Panic
    end.

End uart.

(** ** [shutdown.rs] *)

Definition shutdown_port_range : Z * Z := (0x604, 0x605).
Definition shutdown_read (port access_size : Z) : outcome (result HyperError Z) := Panic.
Definition shutdown_write (port access_size value : Z) : result HyperError unit := Err HvShutdown.

(** ** Dispatch by port ([device_emu/mod.rs]) *)

(** The implementations of [PioOps] behind the [dyn] references. *)
Inductive PioDevice (B : Type) :=
| DevShutdown
| DevUart (u : Uart16550 B)
| DevPic (p : I8259Pic).
Arguments DevShutdown {B}.
Arguments DevUart {B}.
Arguments DevPic {B}.

Section devices.
Context {BF : BitField} {H B : Type} {VCB : VirtualConsoleBackend H B}.

Definition port_range (d : PioDevice B) : Z * Z :=
  match d with
  | DevShutdown => shutdown_port_range
  | DevUart u => uart_port_range u
  | DevPic p => pic_port_range p
  end.

Definition pio_read (port access_size : Z) (h : H) (d : PioDevice B) :
    outcome (H * PioDevice B * result HyperError Z) :=
  match d with
  | DevShutdown => r ← shutdown_read port access_size; Done (h, d, r)
  | DevUart u => '(h, u, r) ← uart_read port access_size h u; Done (h, DevUart u, r)
  | DevPic p => Done (h, d, pic_read port access_size p)
  end.

Definition pio_write (port access_size value : Z) (h : H) (d : PioDevice B) :
    outcome (H * PioDevice B * result HyperError unit) :=
  match d with
  | DevShutdown => Done (h, d, shutdown_write port access_size value)
  | DevUart u => '(h, u, r) ← uart_write port access_size value h u; Done (h, DevUart u, r)
  | DevPic p => let '(p, r) := pic_write port access_size value p in Done (h, DevPic p, r)
  end.

(** [Range::contains]. *)
Definition range_contains (r : Z * Z) (port : Z) : bool := (r.1 <=? port) && (port <? r.2).

(** [DeviceList]: the devices in order; the index names the device found. *)
Definition find_port_io_device (ds : list (PioDevice B)) (port : Z) : option (nat * PioDevice B) :=
  list_find (λ d, range_contains (port_range d) port = true) ds.

Definition X64VirtDevices_new : list (PioDevice B) :=
  [DevShutdown;
   DevUart (Uart16550_new 0x3f8); DevUart (Uart16550_new 0x2f8);
   DevUart (Uart16550_new 0x3e8); DevUart (Uart16550_new 0x2e8);
   DevPic (I8259Pic_new 0x20); DevPic (I8259Pic_new 0xA0)].

End devices.

(** ** The virtual CPU of [hypercraft] *)

Record VmxIoExitInfo := {
  io_access_size : Z;
  io_is_in : bool;
  io_is_string : bool;
  io_is_repeat : bool;
  io_port : Z;
}.

Class VmxVCpu (V : Type) := {
  vx_rax : V → Z; vx_set_rax : Z → V → V;
  vx_rbx : V → Z; vx_set_rbx : Z → V → V;
  vx_rcx : V → Z; vx_set_rcx : Z → V → V;
  vx_rdx : V → Z; vx_set_rdx : Z → V → V;
  vx_io_exit_info : V → result HyperError VmxIoExitInfo;
  vx_exit_instruction_length : V → Z;
  vx_advance_rip : Z → V → result HyperError V;
  (** The timer of the local APIC. *)
  vx_lvt_timer : V → Z; vx_set_lvt_timer : Z → V → result HyperError V;
  vx_initial_count : V → Z; vx_set_initial_count : Z → V → result HyperError V;
  vx_divide : V → Z; vx_set_divide : Z → V → result HyperError V;
  vx_current_counter : V → Z;
}.

Section io.
Context {BF : BitField} {H B V : Type} {VCB : VirtualConsoleBackend H B} {VX : VmxVCpu V}.

(** The new value of the register for an [IN] of [value]. *)
Definition in_result (access_size rax value : Z) : outcome Z :=
  match access_size with
  | 1 => Done ((rax .& ~. 0xff) .| (value .& 0xff))
  | 2 => Done ((rax .& ~. 0xffff) .| (value .& 0xffff))
  | 4 => Done value
  | _ => Panic
  end.

(** The value of an [OUT]. *)
Definition out_value (access_size rax : Z) : outcome Z :=
  match access_size with
  | 1 => Done (wrap 32 (rax .& 0xff))
  | 2 => Done (wrap 32 (rax .& 0xffff))
  | 4 => Done (wrap 32 rax)
  | _ => Panic
  end.

Record io_state := {
  ios_console : H;
  ios_devices : list (PioDevice B);
  ios_vcpu : V;
}.

Definition ios_with (h : H) (i : nat) (d : PioDevice B) (v : V) (s : io_state) : io_state :=
  {| ios_console := h; ios_devices := <[i := d]> (ios_devices s); ios_vcpu := v |}.

Definition advance (s : io_state) : outcome (io_state * result HyperError unit) :=
  match vx_advance_rip (wrap 8 (vx_exit_instruction_length (ios_vcpu s))) (ios_vcpu s) with
  | Ok v => Done ({| ios_console := ios_console s; ios_devices := ios_devices s; ios_vcpu := v |},
                  Ok tt)
  | Err e => Done (s, Err e)
  end.

Definition handle_io_instruction_to_device (i : nat) (d : PioDevice B) (s : io_state) :
    outcome (io_state * result HyperError unit) :=
  let v := ios_vcpu s in
  match vx_io_exit_info v with
  | Err _ => Panic
  | Ok io =>
      if io_is_string io then Done (s, Err HvNotSupported)
      else if io_is_repeat io then Done (s, Err HvNotSupported)
      else if io_is_in io then
        '(h, d, r) ← pio_read (io_port io) (io_access_size io) (ios_console s) d;
        match r with
        | Err e => Done (ios_with h i d v s, Err e)
        | Ok value =>
            rax ← in_result (io_access_size io) (vx_rax v) value;
            advance (ios_with h i d (vx_set_rax rax v) s)
        end
      else
        value ← out_value (io_access_size io) (vx_rax v);
        '(h, d, r) ← pio_write (io_port io) (io_access_size io) value (ios_console s) d;
        match r with
        | Err e => Done (ios_with h i d v s, Err e)
        | Ok _ => advance (ios_with h i d v s)
        end
  end.

Definition handle_io_instruction (s : io_state) : outcome (io_state * result HyperError unit) :=
  match vx_io_exit_info (ios_vcpu s) with
  | Err e => Done (s, Err e)
  | Ok io =>
      match find_port_io_device (ios_devices s) (io_port io) with
      | Some (i, d) => handle_io_instruction_to_device i d s
      | None => Done (s, Err HvInternal)
      end
  end.

(** *** Model-specific registers and the local APIC ([vmx/mod.rs], [lapic.rs]) *)

Definition IA32_APIC_BASE : Z := 0x1b.

Definition lapic_msr_range (msr : Z) : bool := (0x800 <=? msr) && (msr <? 0x840).

Definition lapic_read (v : V) (offset : Z) : result HyperError Z :=
  match offset with
  | 0xF => Ok 0x1ff
  | 0x33 | 0x34 | 0x35 | 0x36 | 0x37 => Ok 0x10000
  | 0x32 => Ok (vx_lvt_timer v)
  | 0x38 => Ok (vx_initial_count v)
  | 0x3E => Ok (vx_divide v)
  | 0x39 => Ok (vx_current_counter v)
  | _ => Err HvNotSupported
  end.

(** [hw_apic_base]: the register of the host. *)
Definition handle_msr_read (hw_apic_base : Z) (v : V) : outcome (result HyperError V) :=
  let msr := wrap 32 (vx_rcx v) in
  let res :=
    if msr =? IA32_APIC_BASE then Ok (hw_apic_base .| (Z.shiftl 1 11 .| Z.shiftl 1 10))
    else if lapic_msr_range msr then lapic_read v (msr - 0x800)
    else Err HvNotSupported in
  match res with
  | Err _ => Panic
  | Ok value =>
      Done (vx_advance_rip 2 (vx_set_rdx (value .>> 32) (vx_set_rax (value .& 0xffffffff) v)))
  end.

(** The write reaches the other virtual CPUs of machine [i] through the
    interrupt command register. *)
Definition lapic_write {BV : BitVec} (i : Z) (offset value : Z) (v : V) :
    stm hv_state HyperError V :=
  if negb (offset =? 0x30) && negb (value .>> 32 =? 0) then throw HvInvalidParam
  else
    match offset with
    | 0xB => if negb (value =? 0) then throw HvInvalidParam else mret v
    | 0xF | 0x33 | 0x34 | 0x35 | 0x36 | 0x37 => mret v
    | 0x30 => handle_ap_events i value;; mret v
    | 0x32 => of_result (vx_set_lvt_timer (wrap 32 value) v)
    | 0x38 => of_result (vx_set_initial_count (wrap 32 value) v)
    | 0x3E => of_result (vx_set_divide (wrap 32 value) v)
    | _ => throw HvNotSupported
    end.

Definition msr_value (v : V) : Z := (vx_rax v .& 0xffffffff) .| (vx_rdx v .<< 32).

Definition handle_msr_write {BV : BitVec} (i : Z) (v : V) : stm hv_state HyperError V :=
  let msr := wrap 32 (vx_rcx v) in
  let value := msr_value v in
  v ← unwrapped
    (if msr =? IA32_APIC_BASE then mret v
     else if lapic_msr_range msr then lapic_write i (msr - 0x800) value v
     else throw HvNotSupported);
  of_result (vx_advance_rip 2 v).

(** [cpuid]: the instruction on the host. *)
Record CpuIdResult := { cpu_eax : Z; cpu_ebx : Z; cpu_ecx : Z; cpu_edx : Z }.

Definition vendor_reg (bytes : list Z) : Z :=
  foldr (λ b acc, b + 256 * acc) 0 bytes.

Definition handle_cpuid (cpuid : Z → Z → CpuIdResult) (v : V) : result HyperError V :=
  let function := wrap 32 (vx_rax v) in
  let res :=
    if function =? 1 then
      let res := cpuid (wrap 32 (vx_rax v)) (wrap 32 (vx_rcx v)) in
      {| cpu_eax := cpu_eax res; cpu_ebx := cpu_ebx res;
         cpu_ecx := Z.ldiff (cpu_ecx res) (Z.shiftl 1 5) .| Z.shiftl 1 31;
         cpu_edx := cpu_edx res |}
    else if function =? 0x40000000 then
      (* "RVMRVMRVMRVM" *)
      {| cpu_eax := 0x40000001; cpu_ebx := vendor_reg [82; 86; 77; 82];
         cpu_ecx := vendor_reg [86; 77; 82; 86]; cpu_edx := vendor_reg [77; 82; 86; 77] |}
    else if function =? 0x40000001 then
      {| cpu_eax := 0; cpu_ebx := 0; cpu_ecx := 0; cpu_edx := 0 |}
    else cpuid (wrap 32 (vx_rax v)) (wrap 32 (vx_rcx v)) in
  vx_advance_rip 2
    (vx_set_rdx (cpu_edx res) (vx_set_rcx (cpu_ecx res)
      (vx_set_rbx (cpu_ebx res) (vx_set_rax (cpu_eax res) v)))).

End io.

Arguments io_state : clear implicits.

(** ** Specification: the FIFO *)

(** The FIFO holds the bytes [l], oldest first. *)
Record fifo_holds (CAP : nat) (f : Fifo) (l : list Z) : Prop := {
  fh_len : length (fifo_buf f) = CAP;
  fh_head : 0 ≤ fifo_head f < Z.of_nat CAP;
  fh_num : fifo_num f = Z.of_nat (length l);
  fh_cap : (length l ≤ CAP)%nat;
  fh_at k x : l !! k = Some x →
    fifo_buf f !! Z.to_nat ((fifo_head f + Z.of_nat k) mod Z.of_nat CAP) = Some x;
}.

Section fifo_spec.
Context (CAP : nat) (HCAP : (0 < CAP)%nat) (Hsmall : Z.of_nat CAP < 2 ^ 62).

Lemma Fifo_new_holds : fifo_holds CAP (Fifo_new CAP) [].
Proof using HCAP.
  split; cbn; [by rewrite length_replicate|lia|done|lia|]. intros k x Hk.
  by rewrite lookup_nil in Hk.
Qed.

Lemma fifo_is_empty_spec f l : fifo_holds CAP f l → fifo_is_empty f = bool_decide (l = []).
Proof using Type.
  clear HCAP Hsmall. intros Hf. unfold fifo_is_empty. rewrite (fh_num _ _ _ Hf).
  destruct l; [done|]. rewrite bool_decide_eq_false_2 by done. apply Z.eqb_neq. cbn. lia.
Qed.

Lemma fifo_is_full_spec f l :
  fifo_holds CAP f l → fifo_is_full CAP f = bool_decide (length l = CAP).
Proof using Type.
  clear HCAP Hsmall. intros Hf. unfold fifo_is_full. rewrite (fh_num _ _ _ Hf).
  case_bool_decide; [apply Z.eqb_eq|apply Z.eqb_neq]; lia.
Qed.

Lemma fifo_push_spec f l v :
  fifo_holds CAP f l → (length l < CAP)%nat →
  ∃ f', fifo_push CAP v f = Done f' ∧ fifo_holds CAP f' (l ++ [v]).
Proof using HCAP Hsmall.
  intros [Hlen Hh Hn Hc Hat] Hlt. unfold fifo_push. rewrite Hn, Hlen.
  rewrite (proj2 (Z.ltb_lt (Z.of_nat (length l)) _)) by lia. cbn -[Z.of_nat].
  rewrite wadd_small by (split; lia).
  pose proof (Z.mod_pos_bound (fifo_head f + Z.of_nat (length l)) (Z.of_nat CAP)) as Hm.
  rewrite (proj2 (Z.ltb_lt _ _)) by lia. cbn -[Z.of_nat].
  rewrite wadd_small by (split; lia). eexists. split; [done|].
  split; cbn -[Z.of_nat]; [by rewrite length_insert|done| | |].
  - rewrite length_app. cbn. lia.
  - rewrite length_app. cbn. lia.
  - intros k x Hk. apply lookup_app_Some in Hk as [Hk|[Hge Hk]].
    + pose proof (lookup_lt_Some _ _ _ Hk) as Hkl. rewrite list_lookup_insert_ne; [by apply Hat|].
      intros Heq. pose proof (Z.mod_pos_bound (fifo_head f + Z.of_nat k) (Z.of_nat CAP)) as Hmk.
      apply Z2Nat.inj in Heq; [|lia..].
      assert ((fifo_head f + Z.of_nat (length l) - (fifo_head f + Z.of_nat k)) mod Z.of_nat CAP = 0)
        as Hz by (rewrite Zminus_mod, Heq, Z.sub_diag; apply Z.mod_0_l; lia).
      rewrite Z.mod_small in Hz; lia.
    + assert (k = length l) as ->.
      { apply lookup_lt_Some in Hk. cbn in Hk. lia. }
      rewrite Nat.sub_diag in Hk. cbn in Hk. injection Hk as <-. apply list_lookup_insert_eq.
      rewrite Hlen. lia.
Qed.

Lemma fifo_pop_spec f x l :
  fifo_holds CAP f (x :: l) →
  ∃ f', fifo_pop CAP f = Done (x, f') ∧ fifo_holds CAP f' l.
Proof using HCAP Hsmall.
  intros [Hlen Hh Hn Hc Hat]. unfold fifo_pop. rewrite Hn.
  rewrite (proj2 (Z.ltb_lt _ _)) by (cbn; lia). cbn -[Z.of_nat].
  pose proof (Hat 0%nat x eq_refl) as H0. rewrite Z.add_0_r, Z.mod_small in H0 by done.
  rewrite H0. cbn -[Z.of_nat]. rewrite wadd_small by (split; lia).
  cbn [length] in *. rewrite wsub_small by (split; lia).
  eexists. split; [done|]. split; cbn -[Z.of_nat]; [done|apply Z.mod_pos_bound; lia|lia|lia|].
  intros k y Hk. rewrite Zplus_mod_idemp_l. rewrite <- (Hat (S k) y Hk). do 3 f_equal. lia.
Qed.

End fifo_spec.

(** ** Specification: the serial port *)

(** A one-byte access of the guest to a register. *)
Inductive uart_access :=
| URead (reg : Z)
| UWrite (reg value : Z).

(** The accesses the emulation handles: every register, but for a write to the
    modem status register. *)
Definition uart_handled (a : uart_access) : Prop :=
  match a with
  | URead reg => 0 ≤ reg < 8
  | UWrite reg _ => 0 ≤ reg < 8 ∧ reg ≠ MODEM_STATUS_REG
  end.

(** What the guest writes to the data register. *)
Definition uart_sent (a : uart_access) : list Z :=
  match a with
  | UWrite reg value => if reg =? DATA_REG then [wrap 8 value] else []
  | URead _ => []
  end.

Section uart_spec.
Context {H : Type} {C : Console H} {con_in con_out : H → list Z} {CL : ConsoleLaws H con_in con_out}.
Implicit Types (h : H) (u : Uart16550 unit).

(** Runs the accesses and collects the bytes the guest takes out of the FIFO. *)
Fixpoint uart_run (accs : list uart_access) h u : outcome (list Z * H * Uart16550 unit) :=
  match accs with
  | [] => Done ([], h, u)
  | URead reg :: accs =>
      let taken := (reg =? DATA_REG) && negb (fifo_is_empty (uart_fifo u)) in
      '(h, u, r) ← uart_read (uart_port_base u + reg) 1 h u;
      '(ds, h, u) ← uart_run accs h u;
      Done (match r with Ok c => if taken then c :: ds else ds | Err _ => ds end, h, u)
  | UWrite reg value :: accs =>
      '(h, u, _) ← uart_write (uart_port_base u + reg) 1 value h u;
      uart_run accs h u
  end.

Lemma uart_reg (base reg : Z) : 0 ≤ reg < 8 → wrap 16 (base + reg - base) = reg.
Proof. intros. rewrite Z.add_simpl_l. apply wrap_small. lia. Qed.

Lemma uart_read_status_spec h u l :
  fifo_holds UART_FIFO_CAPACITY (uart_fifo u) l →
  ∃ h' u' l' lsr, uart_read_status h u = Done (h', u', lsr) ∧
    uart_port_base u' = uart_port_base u ∧ fifo_holds UART_FIFO_CAPACITY (uart_fifo u') (l ++ l') ∧
    con_in h' = con_in h ++ l' ∧ con_out h' = con_out h ∧ Z.testbit lsr 0 = bool_decide (l ++ l' ≠ []).
Proof using CL.
  intros Hf. unfold uart_read_status. rewrite (fifo_is_full_spec _ _ _ Hf).
  assert (∀ f (l' : list Z), fifo_holds UART_FIFO_CAPACITY f l' →
    Z.testbit (if fifo_is_empty f then Z.shiftl 1 5 .| Z.shiftl 1 6
               else Z.shiftl 1 5 .| Z.shiftl 1 6 .| 1) 0 = bool_decide (l' ≠ [])) as Hlsr.
  { intros f l' Hf'. rewrite (fifo_is_empty_spec _ _ _ Hf'). by destruct l'. }
  case_bool_decide as Hfull.
  { eexists _, _, [], _. split; [done|]. rewrite !app_nil_r. split_and!; auto. }
  cbn -[fifo_push]. destruct (con_getchar h) as [[c|] h'] eqn:Hg;
    apply con_getchar_log in Hg as [Hin Hout]; cbn -[fifo_push].
  - destruct (fifo_push_spec UART_FIFO_CAPACITY ltac:(unfold UART_FIFO_CAPACITY; lia) eq_refl
      (uart_fifo u) l c) as (f' & -> & Hf'); [done|pose proof (fh_cap _ _ _ Hf); lia|].
    eexists _, _, [c], _. split; [done|]. split_and!; [done|done|done|done|by apply Hlsr].
  - eexists _, _, [], _. split; [done|]. rewrite !app_nil_r. rewrite app_nil_r in Hin.
    split_and!; [done|done|done|done|by apply Hlsr].
Qed.

Lemma uart_read_data_spec h u l :
  fifo_holds UART_FIFO_CAPACITY (uart_fifo u) l →
  ∃ u' l', uart_read_data h u = Done (h, u', default 0 (head l)) ∧
    fifo_holds UART_FIFO_CAPACITY (uart_fifo u') l' ∧ l = take 1 l ++ l' ∧
    uart_port_base u' = uart_port_base u.
Proof using Type.
  intros Hf. unfold uart_read_data. rewrite (fifo_is_empty_spec _ _ _ Hf).
  destruct l as [|x l]; [by exists u, []|]. rewrite bool_decide_eq_false_2 by done.
  destruct (fifo_pop_spec UART_FIFO_CAPACITY ltac:(unfold UART_FIFO_CAPACITY; lia) eq_refl
    (uart_fifo u) x l Hf) as (f' & -> & Hf'). by eexists _, l.
Qed.

(** One read of a register. *)
Lemma uart_read_step h u l (reg : Z) :
  0 ≤ reg < 8 → fifo_holds UART_FIFO_CAPACITY (uart_fifo u) l →
  ∃ h' u' c l' new,
    match reg with
    | 0 => uart_read_data h u
    | 5 => uart_read_status h u
    | 3 => Done (h, u, uart_line_control_reg u)
    | 1 | 2 | 4 | 6 | 7 => Done (h, u, 0)
    | _ => Panic
    end = Done (h', u', c) ∧
    fifo_holds UART_FIFO_CAPACITY (uart_fifo u') l' ∧
    con_in h' = con_in h ++ new ∧ con_out h' = con_out h ∧
    l ++ new = (if (reg =? DATA_REG) && negb (bool_decide (l = [])) then [c] else []) ++ l' ∧
    uart_port_base u' = uart_port_base u.
Proof using CL.
  intros Hreg Hf. destruct (decide (reg = 0)) as [->|].
  { destruct (uart_read_data_spec h u l Hf) as (u' & l' & -> & Hf' & Hl & Hb).
    eexists h, u', _, l', []. rewrite !app_nil_r. do 4 (split; [done|]). split; [|done].
    destruct l; [rewrite bool_decide_eq_true_2 by done|rewrite bool_decide_eq_false_2 by done];
      exact Hl. }
  rewrite (proj2 (Z.eqb_neq reg DATA_REG)) by done. cbn [andb app].
  destruct (decide (reg = 5)) as [->|].
  { destruct (uart_read_status_spec h u l Hf) as (h' & u' & l' & lsr & -> & Hb & Hf' & Hin & Hout & _).
    by eexists h', u', _, (l ++ l'), l'. }
  enum_range 8%nat reg Hreg; try done; eexists h, u, _, l, []; rewrite !app_nil_r; done.
Qed.

(** One write of a register. *)
Lemma uart_write_step h u l (reg value : Z) :
  0 ≤ reg < 8 → reg ≠ MODEM_STATUS_REG → fifo_holds UART_FIFO_CAPACITY (uart_fifo u) l →
  ∃ h' u',
    match reg with
    | 0 =>
        '(h, b) ← vcb_putchar (wrap 8 value) (h, uart_backend u);
        Done (h, uart_with (uart_fifo u) (uart_line_control_reg u) b u, Ok tt)
    | 3 => Done (h, uart_with (uart_fifo u) (wrap 8 value) (uart_backend u) u, Ok tt)
    | 1 | 2 | 4 | 7 => Done (h, u, Ok tt)
    | 5 => Done (h, u, Ok tt)
    | _ => Panic
    end = Done (h', u', Ok tt : result HyperError unit) ∧
    fifo_holds UART_FIFO_CAPACITY (uart_fifo u') l ∧
    con_in h' = con_in h ∧ con_out h' = con_out h ++ uart_sent (UWrite reg value) ∧
    uart_port_base u' = uart_port_base u.
Proof using CL.
  intros Hreg Hne Hf. unfold MODEM_STATUS_REG in Hne. destruct (decide (reg = 0)) as [->|].
  { eexists _, _. split; [done|]. cbn. destruct (con_putchar_log (wrap 8 value) h). done. }
  cbn [uart_sent]. rewrite (proj2 (Z.eqb_neq reg DATA_REG)), app_nil_r by done.
  enum_range 8%nat reg Hreg; try done; eexists _, _; split; done.
Qed.

Lemma uart_run_spec (accs : list uart_access) : ∀ h u l,
  Forall uart_handled accs → fifo_holds UART_FIFO_CAPACITY (uart_fifo u) l →
  ∃ ds h' u' l', uart_run accs h u = Done (ds, h', u') ∧
    fifo_holds UART_FIFO_CAPACITY (uart_fifo u') l' ∧
    (∃ new, con_in h' = con_in h ++ new ∧ l ++ new = ds ++ l') ∧
    con_out h' = con_out h ++ mjoin (uart_sent <$> accs).
Proof using CL.
  induction accs as [|a accs IH]; intros h u l Hok Hf.
  { exists [], h, u, l. split; [done|]. split; [done|]. cbn. split; [exists []|]; by rewrite !app_nil_r. }
  apply Forall_cons in Hok as [Ha Hok]. rewrite fmap_cons. cbn [mjoin list_join].
  destruct a as [reg|reg value]; cbn in Ha; cbn [uart_run uart_sent].
  - unfold uart_read. cbn [negb Z.eqb Pos.eqb]. rewrite uart_reg by done.
    destruct (uart_read_step h u l reg Ha Hf) as (h1 & u1 & c & l1 & new & -> & Hf1 & Hin & Hout & Hl & _).
    cbn -[uart_run]. destruct (IH h1 u1 l1 Hok Hf1) as (ds & h2 & u2 & l2 & -> & Hf2 & (new2 & Hin2 & Hl2) & Hout2).
    cbn. rewrite (fifo_is_empty_spec _ _ _ Hf).
    eexists _, h2, u2, l2. split; [done|]. split; [done|]. split; [|by rewrite Hout2, Hout].
    exists (new ++ new2). rewrite Hin2, Hin, app_assoc. split; [done|].
    rewrite app_assoc, Hl, <- app_assoc, Hl2. by destruct (_ && _).
  - unfold uart_write. cbn [negb Z.eqb Pos.eqb]. destruct Ha as [Ha Hne]. rewrite uart_reg by done.
    destruct (uart_write_step h u l reg value Ha Hne Hf) as (h1 & u1 & -> & Hf1 & Hin & Hout & _).
    cbn -[uart_run]. destruct (IH h1 u1 l Hok Hf1) as (ds & h2 & u2 & l2 & -> & Hf2 & (new2 & Hin2 & Hl2) & Hout2).
    eexists _, h2, u2, l2. split; [done|]. split; [done|].
    split; [exists new2; by rewrite Hin2, Hin|by rewrite Hout2, Hout, app_assoc].
Qed.

(** The emulated serial port loses and reorders nothing.  For any sequence
    of accesses but writes to the modem status register the emulation returns;
    the bytes the guest has taken out of the data register, followed by those
    waiting in the FIFO, are the bytes read from the console, in order, and
    the bytes it has written to the data register have reached the console. *)
Theorem uart_preserves_bytes (base : Z) (accs : list uart_access) (h : H) :
  Forall uart_handled accs →
  ∃ ds h' u' l, uart_run accs h (Uart16550_new base) = Done (ds, h', u') ∧
    fifo_holds UART_FIFO_CAPACITY (uart_fifo u') l ∧
    con_in h' = con_in h ++ ds ++ l ∧
    con_out h' = con_out h ++ mjoin (uart_sent <$> accs).
Proof using CL.
  intros Hok. destruct (uart_run_spec accs h (Uart16550_new base) [])
    as (ds & h' & u' & l & Hrun & Hf & (new & Hin & Hl) & Hout).
  - done.
  - apply Fifo_new_holds. unfold UART_FIFO_CAPACITY. lia.
  - exists ds, h', u', l. cbn in Hl. by rewrite <- Hl.
Qed.

End uart_spec.

(** ** Specification: the interrupt controller *)

Section pic_spec.
Context {BF : BitField} {BFL : @BitFieldLaws BF}.

(** Initialisation words are outstanding exactly while the count says so. *)
Definition pic_ok (p : I8259Pic) : Prop :=
  if pic_icw_left p then 1 ≤ pic_icw_written p ≤ 3 else pic_icw_written p = 0.

(** The writes to the ports of the controller at [base]. *)
Fixpoint pic_writes (ws : list (Z * Z)) (p : I8259Pic) : I8259Pic * list (result HyperError unit) :=
  match ws with
  | [] => (p, [])
  | (reg, value) :: ws =>
      let '(p, r) := pic_write (pic_port_base p + reg) 1 value p in
      let '(p, rs) := pic_writes ws p in (p, r :: rs)
  end.

Lemma pic_next_ok (p : I8259Pic) :
  pic_icw_left p = true → 1 ≤ pic_icw_written p ≤ 3 → pic_ok (pic_next p).
Proof using Type.
  intros Hl Hw. unfold pic_ok, pic_next. cbn. rewrite Hl.
  destruct (Z.eqb_spec (pic_icw_written p) 3), (Z.eqb_spec (pic_icw_written p) 2); cbn;
    try destruct (get_bit _ _); cbn; try lia; try done; rewrite wrap_small; lia.
Qed.

Lemma pic_write_ok (p : I8259Pic) (reg size value : Z) :
  pic_ok p → 0 ≤ reg < 2 →
  ∃ p', pic_write (pic_port_base p + reg) size value p = (p', Ok tt) ∧ pic_ok p' ∧
    pic_port_base p' = pic_port_base p.
Proof using Type.
  intros Hok Hreg. unfold pic_write. rewrite Z.add_simpl_l, wrap_small by lia.
  assert (reg = 0 ∨ reg = 1) as [-> | ->] by lia.
  - eexists. split; [done|]. by destruct (get_bit _ 4).
  - unfold pic_ok in Hok. destruct (pic_icw_left p) eqn:Hl; cbn [negb].
    + assert (pic_icw_written p = 1 ∨ pic_icw_written p = 2 ∨ pic_icw_written p = 3)
        as [E|[E|E]] by lia; rewrite E; eexists; (split; [done|]); (split; [|done]);
        apply pic_next_ok; cbn; lia || done.
    + eexists. split; [done|]. split; [|done]. unfold pic_ok. cbn. by rewrite Hl.
Qed.

(** The initialisation sequence, from any state. *)
Lemma pic_init_spec (p : I8259Pic) (icw1 icw2 icw3 icw4 mask : Z) :
  get_bit (wrap 8 icw1) 4 = true → 0 ≤ mask < 2 ^ 8 →
  let init := [(0, icw1); (1, icw2); (1, icw3)] ++
    (if get_bit (wrap 8 icw1) 0 then [(1, icw4)] else []) ++ [(1, mask)] in
  let p' := (pic_writes init p).1 in
  pic_icw_left p' = false ∧ pic_offset p' = wrap 8 icw2 ∧ pic_icw3 p' = wrap 8 icw3 ∧
  (get_bit (wrap 8 icw1) 0 = true → pic_icw4 p' = wrap 8 icw4) ∧
  pic_read (pic_port_base p + 1) 1 p' = Ok mask.
Proof using Type.
  intros Hicw1 Hmask. cbv zeta. destruct (get_bit (wrap 8 icw1) 0) eqn:H0;
    cbn [app pic_writes]; unfold pic_write, pic_next, pic_set_icw1, pic_set_word, pic_read;
    repeat (progress cbn -[wrap Z.add Z.sub] || rewrite Z.add_simpl_l || rewrite H0 ||
      rewrite Hicw1 || change (wrap 16 0) with 0 || change (wrap 16 1) with 1 ||
      change (wrap 8 (1 + 1)) with 2 || change (wrap 8 (2 + 1)) with 3);
    rewrite (wrap_small 8 mask) by lia; done.
Qed.

(** The state machine of the emulated 8259.  Whatever the guest writes to
    its two ports, every write is accepted and the controller stays well
    formed, so the [BadState] branch is never taken; and the initialisation
    sequence (ICW1 with or without a fourth word, ICW2, ICW3, ICW4) followed by
    a mask sets each word and makes the mask readable at the data port. *)
Theorem pic_protocol (base : Z) (ws : list (Z * Z)) (icw1 icw2 icw3 icw4 mask : Z) :
  Forall (λ w, 0 ≤ w.1 < 2) ws → get_bit (wrap 8 icw1) 4 = true → 0 ≤ mask < 2 ^ 8 →
  let '(p, rs) := pic_writes ws (I8259Pic_new base) in
  pic_ok p ∧ Forall (λ r, r = Ok tt) rs ∧
  let init := [(0, icw1); (1, icw2); (1, icw3)] ++
    (if get_bit (wrap 8 icw1) 0 then [(1, icw4)] else []) ++ [(1, mask)] in
  let p' := (pic_writes init p).1 in
  pic_icw_left p' = false ∧ pic_offset p' = wrap 8 icw2 ∧ pic_icw3 p' = wrap 8 icw3 ∧
  (get_bit (wrap 8 icw1) 0 = true → pic_icw4 p' = wrap 8 icw4) ∧
  pic_read (base + 1) 1 p' = Ok mask.
Proof using Type.
  intros Hws Hicw1 Hmask.
  assert (∀ p, pic_ok p → let '(p', rs) := pic_writes ws p in
    pic_ok p' ∧ Forall (λ r, r = Ok tt) rs ∧ pic_port_base p' = pic_port_base p) as Hrun.
  { induction Hws as [|[reg v] ws Hreg _ IH]; intros p Hp; [done|]. cbn [pic_writes].
    destruct (pic_write_ok p reg 1 v Hp Hreg) as (p1 & -> & Hp1 & Hb1).
    specialize (IH p1 Hp1). destruct (pic_writes ws p1) as [p2 rs].
    destruct IH as (? & ? & ?). split_and!; [done|by constructor|congruence]. }
  specialize (Hrun (I8259Pic_new base) eq_refl).
  destruct (pic_writes ws (I8259Pic_new base)) as [p rs]. destruct Hrun as (Hp & Hrs & Hb).
  cbn in Hb. split; [done|]. split; [done|]. cbv zeta.
  rewrite <- Hb. by apply pic_init_spec.
Qed.

End pic_spec.

(** ** Specification: I/O instructions *)

(** An [IN] replaces the low bytes of the register and, but for four bytes,
    keeps the others. *)
Lemma in_result_spec (size rax value : Z) :
  is_usize rax → 0 ≤ value < 2 ^ 32 → size = 1 ∨ size = 2 ∨ size = 4 →
  in_result size rax value = Done
    (if size =? 4 then value
     else rax - rax mod 2 ^ (8 * size) + value mod 2 ^ (8 * size)).
Proof.
  intros Hrax Hv Hsize.
  assert (∀ k, 0 ≤ k < 64 → (rax .& ~. (2 ^ k - 1)) .| (value .& (2 ^ k - 1)) =
    rax - rax mod 2 ^ k + value mod 2 ^ k) as Hmerge.
  { intros k Hk. rewrite land_not_mask, land_mask by (done || lia).
    rewrite <- Z.add_nocarry_lor; [done|]. rewrite sub_mod_div by lia.
    rewrite Z.mul_comm, <- Z.shiftl_mul_pow2, <- (Z.land_ones value) by lia.
    apply Z.bits_inj'. intros n Hn. rewrite Z.bits_0, !Z.land_spec.
    destruct (decide (n < k)); [by rewrite Z.shiftl_spec_low|].
    rewrite Z.ones_spec_high by lia. by rewrite !andb_false_r. }
  destruct Hsize as [->|[->| ->]]; [| |done]; unfold in_result; f_equal; cbn [Z.eqb Pos.eqb].
  - exact (Hmerge 8 ltac:(lia)).
  - exact (Hmerge 16 ltac:(lia)).
Qed.

(** The kind of a device and its first port. *)
Inductive dev_kind := KShutdown | KUart (base : Z) | KPic (base : Z).

#[global] Instance dev_kind_eq_dec : EqDecision dev_kind.
Proof. solve_decision. Defined.

Section io_spec.
Context {BF : BitField} {H V : Type} {C : Console H} {con_in con_out : H → list Z}
  {CL : ConsoleLaws H con_in con_out} {VX : VmxVCpu V}.
Implicit Types (d : PioDevice unit) (ds : list (PioDevice unit)).

Definition kind_of d : dev_kind :=
  match d with
  | DevShutdown => KShutdown
  | DevUart u => KUart (uart_port_base u)
  | DevPic p => KPic (pic_port_base p)
  end.

Definition kind_range (k : dev_kind) : Z * Z :=
  match k with
  | KShutdown => shutdown_port_range
  | KUart base => (base, wrap 16 (base + 8))
  | KPic base => (base, wrap 16 (base + 2))
  end.

Definition x64_kinds : list dev_kind :=
  [KShutdown; KUart 0x3f8; KUart 0x2f8; KUart 0x3e8; KUart 0x2e8; KPic 0x20; KPic 0xA0].

Definition dev_ok d : Prop :=
  match d with
  | DevShutdown => True
  | DevUart u => ∃ l, fifo_holds UART_FIFO_CAPACITY (uart_fifo u) l
  | DevPic p => pic_ok p
  end.

(** The devices of a virtual CPU at any time. *)
Definition devices_ok ds : Prop := kind_of <$> ds = x64_kinds ∧ Forall dev_ok ds.

Lemma new_devices_ok : devices_ok (X64VirtDevices_new (H := H)).
Proof using Type.
  split; [done|]. repeat constructor; eexists; apply Fifo_new_holds; unfold UART_FIFO_CAPACITY; lia.
Qed.

Lemma find_by_kind ds (port : Z) :
  prod_map id kind_of <$> find_port_io_device ds port =
    list_find (λ k, range_contains (kind_range k) port = true) (kind_of <$> ds).
Proof using Type.
  unfold find_port_io_device. rewrite list_find_fmap. f_equal.
  induction ds as [|d ds IH]; [done|]. cbn. rewrite IH.
  by destruct d.
Qed.

Definition base_ok (k : dev_kind) : Prop :=
  match k with
  | KShutdown => True
  | KUart base | KPic base => 0 ≤ base < 2 ^ 16 - 8
  end.

Definition write_panics (k : dev_kind) (size port : Z) : Prop :=
  match k with KUart base => size = 1 ∧ port = base + MODEM_STATUS_REG | _ => False end.

Lemma uart_port (u : Uart16550 unit) (port : Z) :
  base_ok (KUart (uart_port_base u)) →
  range_contains (kind_range (KUart (uart_port_base u))) port = true →
  ∃ reg, 0 ≤ reg < 8 ∧ port = uart_port_base u + reg.
Proof using Type.
  unfold range_contains. cbn. intros Hb Hc. bool_to_prop.
  rewrite wrap_small in H1 by lia. exists (port - uart_port_base u). lia.
Qed.

Lemma pio_read_spec d (port size : Z) (h : H) :
  dev_ok d → base_ok (kind_of d) → range_contains (kind_range (kind_of d)) port = true →
  if decide (kind_of d = KShutdown) then pio_read port size h d = Panic
  else ∃ h' d' r, pio_read port size h d = Done (h', d', r) ∧ dev_ok d' ∧ kind_of d' = kind_of d.
Proof using CL.
  intros Hd Hb Hc. destruct d as [|u|p]; cbn [kind_of] in *; cbn [pio_read].
  - done.
  - rewrite decide_False by done. destruct (uart_port u port Hb Hc) as (reg & Hreg & ->).
    destruct Hd as [l Hf]. unfold uart_read. destruct (Z.eqb_spec size 1) as [->|]; cbn [negb].
    + rewrite uart_reg by done.
      destruct (uart_read_step h u l reg Hreg Hf) as (h' & u' & c & l' & _ & -> & Hf' & _ & _ & _ & Hu).
      eexists _, _, _. split; [done|]. split; [by exists l'|]. cbn. by rewrite Hu.
    + eexists _, _, _. split; [done|]. split; [by exists l|done].
  - rewrite decide_False by done. by eexists _, _, _.
Qed.

Lemma pio_write_spec d (port size value : Z) (h : H) :
  dev_ok d → base_ok (kind_of d) → range_contains (kind_range (kind_of d)) port = true →
  (write_panics (kind_of d) size port ∧ pio_write port size value h d = Panic) ∨
  (¬ write_panics (kind_of d) size port ∧
   ∃ h' d' r, pio_write port size value h d = Done (h', d', r) ∧ dev_ok d' ∧ kind_of d' = kind_of d).
Proof using CL.
  intros Hd Hb Hc. destruct d as [|u|p]; cbn [kind_of] in *; cbn [pio_write write_panics].
  - right. split; [by intros []|]. by eexists _, _, _.
  - destruct (uart_port u port Hb Hc) as (reg & Hreg & ->). destruct Hd as [l Hf].
    unfold uart_write, MODEM_STATUS_REG. destruct (Z.eqb_spec size 1) as [->|]; cbn [negb].
    + rewrite uart_reg by done. destruct (decide (reg = 6)) as [->|Hne]; [by left|].
      right. split; [lia|].
      destruct (uart_write_step h u l reg value Hreg Hne Hf) as (h' & u' & -> & Hf' & _ & _ & Hu).
      eexists _, _, _. split; [done|]. split; [by exists l|]. cbn. by rewrite Hu.
    + right. split; [lia|]. eexists _, _, _. split; [done|]. split; [by exists l|done].
  - right. split; [by intros []|]. cbn in Hb. unfold range_contains in Hc. cbn in Hc. bool_to_prop.
    rewrite wrap_small in H1 by lia.
    assert (∃ reg, 0 ≤ reg < 2 ∧ port = pic_port_base p + reg) as (reg & Hreg & ->)
      by (exists (port - pic_port_base p); lia).
    destruct (pic_write_ok p reg size value Hd Hreg) as (p' & -> & Hp' & Hbase).
    eexists _, _, _. split; [done|]. split; [done|]. cbn. by rewrite Hbase.
Qed.

Lemma find_device ds (port : Z) (i : nat) d :
  devices_ok ds → find_port_io_device ds port = Some (i, d) →
  dev_ok d ∧ base_ok (kind_of d) ∧ range_contains (kind_range (kind_of d)) port = true ∧
  kind_of d ∈ x64_kinds ∧ ds !! i = Some d.
Proof using Type.
  intros [Hk Hall] Hf. pose proof (find_by_kind ds port) as Hfk. rewrite Hf in Hfk. cbn in Hfk.
  symmetry in Hfk. apply list_find_Some in Hfk as (Hl & Hc & _).
  apply list_find_Some in Hf as (Hd & _ & _).
  assert (kind_of d ∈ x64_kinds) as Hin by (rewrite <- Hk; by apply list_elem_of_lookup_2 in Hl).
  split_and!; [by apply (Forall_lookup_1 _ _ _ _ Hall Hd)| |done|done|done].
  unfold x64_kinds in Hin.
  repeat (apply elem_of_cons in Hin as [->|Hin]; [by cbn; try lia|]). by apply elem_of_nil in Hin.
Qed.

Lemma devices_insert ds (i : nat) d d' :
  devices_ok ds → ds !! i = Some d → dev_ok d' → kind_of d' = kind_of d → devices_ok (<[i := d']> ds).
Proof using Type.
  intros [Hk Hall] Hd Hd' Hkd. split; [|by apply Forall_insert].
  rewrite list_fmap_insert, Hkd, list_insert_id; [done|]. by rewrite list_lookup_fmap, Hd.
Qed.

(** The modem status registers of the four serial ports. *)
Definition modem_ports : list Z := [0x3fe; 0x2fe; 0x3ee; 0x2ee].

Lemma found_kind ds (port : Z) (n : nat) (k : dev_kind) :
  devices_ok ds →
  list_find (λ k, range_contains (kind_range k) port = true) x64_kinds = Some (n, k) →
  ∃ d, find_port_io_device ds port = Some (n, d) ∧ kind_of d = k.
Proof using Type.
  intros [Hk _] Hf. pose proof (find_by_kind ds port) as Hfk. rewrite Hk, Hf in Hfk.
  destruct (find_port_io_device ds port) as [[i d]|]; [|done]. cbn in Hfk. simplify_eq. by exists d.
Qed.

Lemma shutdown_port ds (port : Z) :
  devices_ok ds →
  (∃ i d, find_port_io_device ds port = Some (i, d) ∧ kind_of d = KShutdown) ↔ port = 0x604.
Proof using Type.
  intros Hds. split.
  - intros (i & d & Hf & Hk). destruct (find_device ds port i d Hds Hf) as (_ & _ & Hc & _).
    rewrite Hk in Hc. unfold range_contains in Hc. cbn in Hc. lia.
  - intros ->. destruct (found_kind ds 0x604 0 KShutdown Hds) as (d & ? & ?); [done|]. by eexists _, _.
Qed.

Lemma modem_port ds (size port : Z) :
  devices_ok ds →
  (∃ i d, find_port_io_device ds port = Some (i, d) ∧ write_panics (kind_of d) size port) ↔
  size = 1 ∧ port ∈ modem_ports.
Proof using Type.
  intros Hds. unfold write_panics, MODEM_STATUS_REG, modem_ports. split.
  - intros (i & d & Hf & Hk). destruct (find_device ds port i d Hds Hf) as (_ & _ & _ & Hin & _).
    unfold x64_kinds in Hin.
    repeat (apply elem_of_cons in Hin as [E|Hin];
      [rewrite E in Hk; first [done|destruct Hk as [-> ->]; split; [done|];
         repeat first [by left|right]]|]).
    by apply elem_of_nil in Hin.
  - intros [-> Hin].
    apply elem_of_cons in Hin as [->|Hin].
    { destruct (found_kind ds 0x3fe 1 (KUart 0x3f8) Hds) as (d & ? & Hk); [done|].
      eexists _, d. by rewrite Hk. }
    apply elem_of_cons in Hin as [->|Hin].
    { destruct (found_kind ds 0x2fe 2 (KUart 0x2f8) Hds) as (d & ? & Hk); [done|].
      eexists _, d. by rewrite Hk. }
    apply elem_of_cons in Hin as [->|Hin].
    { destruct (found_kind ds 0x3ee 3 (KUart 0x3e8) Hds) as (d & ? & Hk); [done|].
      eexists _, d. by rewrite Hk. }
    apply list_elem_of_singleton in Hin as ->.
    destruct (found_kind ds 0x2ee 4 (KUart 0x2e8) Hds) as (d & ? & Hk); [done|].
    eexists _, d. by rewrite Hk.
Qed.

Lemma advance_done (s : io_state H unit V) :
  ∃ s' r, advance s = Done (s', r) ∧ ios_devices s' = ios_devices s.
Proof using Type. unfold advance. destruct (vx_advance_rip _ _); by eexists _, _. Qed.

(** What a guest can do to the host with an I/O instruction. *)
Definition io_panics (io : VmxIoExitInfo) : Prop :=
  io_is_string io = false ∧ io_is_repeat io = false ∧
  if io_is_in io then io_port io = 0x604
  else io_access_size io = 1 ∧ io_port io ∈ modem_ports.

Lemma access_sizes (size rax value : Z) :
  size = 1 ∨ size = 2 ∨ size = 4 →
  (∃ x, in_result size rax value = Done x) ∧ ∃ x, out_value size rax = Done x.
Proof using Type. intros [->|[->| ->]]; cbn; split; by eexists. Qed.

Lemma io_returns (s1 : io_state H unit V) (r1 : result HyperError unit) (P : Prop) :
  devices_ok (ios_devices s1) → ¬ P →
  (Done (s1, r1) = Panic ↔ P) ∧ ∀ s' r, Done (s1, r1) = Done (s', r) → devices_ok (ios_devices s').
Proof using Type. intros Hds HP. split; [done|]. intros s' r E. by injection E as <- <-. Qed.

Lemma io_crashes (P : Prop) :
  P → (Panic (T := io_state H unit V * result HyperError unit) = Panic ↔ P) ∧
    ∀ s' r, Panic (T := io_state H unit V * result HyperError unit) = Done (s', r) →
      devices_ok (ios_devices s').
Proof using Type. done. Qed.


End io_spec.

(** ** Instances *)

(** A console with a script of input: at each poll the next byte, if any. *)
Record script := { sc_next : list (option Z); sc_in : list Z; sc_out : list Z }.

#[global] Instance script_console : Console script := {|
  con_putchar c h := {| sc_next := sc_next h; sc_in := sc_in h; sc_out := sc_out h ++ [c] |};
  con_getchar h :=
    match sc_next h with
    | [] => (None, h)
    | c :: next =>
        (c, {| sc_next := next; sc_in := sc_in h ++ match c with Some c => [c] | None => [] end;
               sc_out := sc_out h |})
    end;
|}.

#[global] Instance script_console_laws : ConsoleLaws script sc_in sc_out.
Proof.
  split; cbn; [|done]. intros h c h' E. destruct (sc_next h) as [|x next]; simplify_eq; cbn; [|done].
  by rewrite app_nil_r.
Qed.

Lemma uart_preserves_bytes_witness :
  ∃ h' u' l,
    uart_run [URead 5; URead 5; URead 0; UWrite 0 72; URead 5]
      {| sc_next := [Some 65; Some 66; None]; sc_in := []; sc_out := [] |} (Uart16550_new 0x3f8) =
      Done ([65], h', u') ∧
    fifo_holds UART_FIFO_CAPACITY (uart_fifo u') l ∧ l = [66] ∧ sc_out h' = [72].
Proof.
  destruct (uart_preserves_bytes 0x3f8 [URead 5; URead 5; URead 0; UWrite 0 72; URead 5]
    {| sc_next := [Some 65; Some 66; None]; sc_in := []; sc_out := [] |})
    as (ds & h' & u' & l & Hrun & Hf & Hin & Hout).
  - repeat constructor; done.
  - vm_compute in Hrun. injection Hrun as <- <- <-. eexists _, _, l.
    split; [done|]. split; [done|]. split; [|exact Hout]. cbn in Hin. by injection Hin as <-.
Defined.

Lemma pic_protocol_witness :
  let p := (pic_writes [(0, 0x11); (1, 0x20); (1, 4); (1, 1); (1, 0xfb)] (I8259Pic_new 0x20)).1 in
  pic_offset p = 0x20 ∧ pic_read 0x21 1 p = Ok 0xfb.
Proof.
  destruct (pic_protocol (BF := bit_field_ref) 0x20 [] 0x11 0x20 4 1 0xfb)
    as (_ & _ & _ & Ho & _ & _ & Hr); [done|done|done|]. split; [exact Ho|exact Hr].
Defined.

(** A virtual CPU with the register [rax] only. *)
#[global] Instance rax_vcpu : VmxVCpu (Z * VmxIoExitInfo) := {|
  vx_rax v := v.1; vx_set_rax x v := (x, v.2);
  vx_rbx _ := 0; vx_set_rbx _ v := v;
  vx_rcx _ := 0; vx_set_rcx _ v := v;
  vx_rdx _ := 0; vx_set_rdx _ v := v;
  vx_io_exit_info v := Ok v.2;
  vx_exit_instruction_length _ := 1;
  vx_advance_rip _ v := Ok v;
  vx_lvt_timer _ := 0; vx_set_lvt_timer _ v := Ok v;
  vx_initial_count _ := 0; vx_set_initial_count _ v := Ok v;
  vx_divide _ := 0; vx_set_divide _ v := Ok v;
  vx_current_counter _ := 0;
|}.

(** [out 0x3fe, al]. *)
Definition modem_write : VmxIoExitInfo := {|
  io_access_size := 1; io_is_in := false; io_is_string := false; io_is_repeat := false;
  io_port := 0x3fe;
|}.

Definition io_demo : io_state script unit (Z * VmxIoExitInfo) := {|
  ios_console := {| sc_next := []; sc_in := []; sc_out := [] |};
  ios_devices := X64VirtDevices_new (H := script); ios_vcpu := (0, modem_write);
|}.

