(* ===== verification/Gic.v ===== *)
(** * The interrupt controller of ARM ([crates/arm_gic]) and the dispatch of
    interrupts ([modules/axhal/src/irq.rs], [crates/handler_table])

    The driver is the accesses it makes to the registers of the controller.
    The controller itself is a parameter: the class [GicHw] has the accesses
    by offset, and [GicLaws] what the architecture manual of GICv2 says about
    the settings that only software changes: which shared interrupts are
    enabled, their priorities, targets and trigger modes.  Pending and active
    interrupts change by themselves, and the laws say nothing about them. *)

From S2P Require Import Prelude.
From stdpp Require Import base numbers list.

Open Scope Z_scope.
Local Open Scope word_scope.

(** ** Words of 32 bits *)

Definition u32_max : Z := 0xffffffff.

(** [a << n] of [u32]; the release build masks the amount. *)
Definition shl32 (a n : Z) : Z := wrap 32 (Z.shiftl a (n .& 31)).

Definition not32 (a : Z) : Z := Z.lxor a u32_max.

Definition is_u32 (z : Z) : Prop := 0 ≤ z < 2 ^ 32.

Lemma u32_high a k : is_u32 a → 32 ≤ k → Z.testbit a k = false.
Proof.
  intros [Ha1 Ha2] Hk. destruct (decide (a = 0)) as [->|]; [apply Z.testbit_0_l|].
  apply Z.bits_above_log2; [done|]. apply Z.log2_lt_pow2; [lia|]. eapply Z.lt_le_trans; [exact Ha2|].
  apply Z.pow_le_mono_r; lia.
Qed.

Lemma u32_of_bits a : (∀ k, 32 ≤ k → Z.testbit a k = false) → is_u32 a.
Proof.
  intros Ha. replace a with (a mod 2 ^ 32); [by apply wrap_range|]. apply Z.bits_inj'. intros k Hk.
  destruct (decide (k < 32)); [by apply Z.mod_pow2_bits_low|].
  rewrite Z.mod_pow2_bits_high by lia. symmetry. apply Ha. lia.
Qed.

Lemma lor_u32 a b : is_u32 a → is_u32 b → is_u32 (a .| b).
Proof. intros Ha Hb. apply u32_of_bits. intros k Hk. by rewrite Z.lor_spec, !u32_high. Qed.

Lemma land_u32 a b : is_u32 a → is_u32 (a .& b).
Proof. intros Ha. apply u32_of_bits. intros k Hk. by rewrite Z.land_spec, u32_high. Qed.

Lemma shl32_u32 a n : is_u32 (shl32 a n).
Proof. by apply wrap_range. Qed.

Lemma shl32_spec a n k : 0 ≤ n < 32 → 0 ≤ k < 32 → Z.testbit (shl32 a n) k = Z.testbit a (k - n).
Proof.
  intros Hn Hk. unfold shl32, wrap. rewrite Z.mod_pow2_bits_low by lia.
  replace (n .& 31) with n by (change 31 with (Z.ones 5); rewrite Z.land_ones, Z.mod_small by lia; done).
  by rewrite Z.shiftl_spec by lia.
Qed.

Lemma shl32_bit n k : 0 ≤ n < 32 → 0 ≤ k < 32 → Z.testbit (shl32 1 n) k = bool_decide (k = n).
Proof.
  intros Hn Hk. rewrite shl32_spec by done. case_bool_decide as Hkn; [by subst; rewrite Z.sub_diag|].
  destruct (decide (k < n)); [apply Z.testbit_neg_r; lia|]. apply Z.bits_above_log2; [done|]. cbn. lia.
Qed.

Lemma not32_spec a k : 0 ≤ k < 32 → Z.testbit (not32 a) k = negb (Z.testbit a k).
Proof.
  intros Hk. unfold not32. rewrite Z.lxor_spec. change u32_max with (Z.ones 32).
  rewrite Z.ones_spec_low by lia. by destruct (Z.testbit a k).
Qed.

Lemma u32_max_bit k : 0 ≤ k < 32 → Z.testbit u32_max k = true.
Proof. intros Hk. change u32_max with (Z.ones 32). by apply Z.ones_spec_low. Qed.

(** ** Registers *)

Inductive gicd_reg :=
| CTLR | TYPER | IIDR
| IGROUPR (n : Z) | ISENABLER (n : Z) | ICENABLER (n : Z) | ISPENDR (n : Z) | ICPENDR (n : Z)
| ISACTIVER (n : Z) | ICACTIVER (n : Z) | IPRIORITYR (n : Z) | ITARGETSR (n : Z) | ICFGR (n : Z)
| SGIR | CPENDSGIR (n : Z) | SPENDSGIR (n : Z).

(** [GicDistributorRegs]. *)
Definition gicd_offset (r : gicd_reg) : Z :=
  match r with
  | CTLR => 0x0000 | TYPER => 0x0004 | IIDR => 0x0008
  | IGROUPR n => 0x0080 + 4 * n
  | ISENABLER n => 0x0100 + 4 * n | ICENABLER n => 0x0180 + 4 * n
  | ISPENDR n => 0x0200 + 4 * n | ICPENDR n => 0x0280 + 4 * n
  | ISACTIVER n => 0x0300 + 4 * n | ICACTIVER n => 0x0380 + 4 * n
  | IPRIORITYR n => 0x0400 + 4 * n | ITARGETSR n => 0x0800 + 4 * n
  | ICFGR n => 0x0c00 + 4 * n
  | SGIR => 0x0f00
  | CPENDSGIR n => 0x0f10 + 4 * n | SPENDSGIR n => 0x0f20 + 4 * n
  end.

(** The index of a register and the length of its array. *)
Definition gicd_index (r : gicd_reg) : Z * Z :=
  match r with
  | CTLR | TYPER | IIDR | SGIR => (0, 1)
  | IGROUPR n | ISENABLER n | ICENABLER n | ISPENDR n | ICPENDR n | ISACTIVER n | ICACTIVER n => (n, 0x20)
  | IPRIORITYR n | ITARGETSR n => (n, 0x100)
  | ICFGR n => (n, 0x40)
  | CPENDSGIR n | SPENDSGIR n => (n, 4)
  end.

Definition gicd_in_range (r : gicd_reg) : bool := (0 <=? (gicd_index r).1) && ((gicd_index r).1 <? (gicd_index r).2).

(** [GicCpuInterfaceRegs]. *)
Inductive gicc_reg := GICC_CTLR | GICC_PMR | GICC_IAR | GICC_EOIR | GICC_DIR.

Definition gicc_offset (r : gicc_reg) : Z :=
  match r with GICC_CTLR => 0x0000 | GICC_PMR => 0x0004 | GICC_IAR => 0x000c | GICC_EOIR => 0x0010 | GICC_DIR => 0x1000 end.

(** [GicHypervisorInterfaceRegs]. *)
Inductive gich_reg := GICH_HCR | GICH_VTR | GICH_MISR | GICH_EISR (n : Z) | GICH_ELRSR (n : Z) | GICH_APR | GICH_LR (n : Z).

Definition gich_offset (r : gich_reg) : Z :=
  match r with
  | GICH_HCR => 0x0000 | GICH_VTR => 0x0004 | GICH_MISR => 0x0010
  | GICH_EISR n => 0x0020 + 4 * n | GICH_ELRSR n => 0x0030 + 4 * n
  | GICH_APR => 0x00f0 | GICH_LR n => 0x0100 + 4 * n
  end.

Definition GIC_LIST_REGS_NUM : Z := 64.

Definition gich_in_range (r : gich_reg) : bool :=
  match r with
  | GICH_EISR n | GICH_ELRSR n => (0 <=? n) && (n <? GIC_LIST_REGS_NUM / 32)
  | GICH_LR n => (0 <=? n) && (n <? GIC_LIST_REGS_NUM)
  | _ => true
  end.

(** ** The hardware *)

(** Accesses of 32 bits to the three blocks of registers, by offset; a read
    can have an effect. *)
Class GicHw (H : Type) := {
  gicd_read : Z → H → H * Z;
  gicd_write : Z → Z → H → H;
  gicc_read : Z → H → H * Z;
  gicc_write : Z → Z → H → H;
  gich_read : Z → H → H * Z;
  gich_write : Z → Z → H → H;
}.

Definition SPI_START : Z := 32.
Definition GIC_MAX_IRQ : Z := 1024.
Definition GIC_CONFIG_BITS : Z := 2.

Inductive TriggerMode := Edge | Level.

Section driver.
Context {H : Type} `{HW : GicHw H}.
#[local] Abbreviation io := (stm H Empty_set).

(** Indexing an array of registers is checked. *)
Definition gicd_get (r : gicd_reg) : io Z := λ h,
  if gicd_in_range r then let '(h, v) := gicd_read (gicd_offset r) h in Done (h, Ok v) else Panic.

Definition gicd_set (r : gicd_reg) (v : Z) : io unit := λ h,
  if gicd_in_range r then Done (gicd_write (gicd_offset r) v h, Ok tt) else Panic.

Definition gicc_get (r : gicc_reg) : io Z := λ h,
  let '(h, v) := gicc_read (gicc_offset r) h in Done (h, Ok v).

Definition gicc_set (r : gicc_reg) (v : Z) : io unit := modify (gicc_write (gicc_offset r) v).

Definition gich_get (r : gich_reg) : io Z := λ h,
  if gich_in_range r then let '(h, v) := gich_read (gich_offset r) h in Done (h, Ok v) else Panic.

Definition gich_set (r : gich_reg) (v : Z) : io unit := λ h,
  if gich_in_range r then Done (gich_write (gich_offset r) v h, Ok tt) else Panic.

(** A [for] loop. *)
Fixpoint for_each (l : list Z) (f : Z → io unit) : io unit :=
  match l with
  | [] => mret tt
  | x :: l => _ ← f x; for_each l f
  end.

(** [(a..b).step_by(s)]. *)
Definition step_by (a b s : Z) : list Z := (λ k, a + s * k) <$> seqZ 0 ((b - a + s - 1) / s).

(** ** [GicDistributor] *)

Definition cpu_num : io Z := v ← gicd_get TYPER; mret ((v .>> 5) .& 7 + 1).

(** The method [max_irqs], not the field of that name. *)
Definition read_max_irqs : io Z := v ← gicd_get TYPER; mret ((v .& 31 + 1) * 32).

Definition configure_interrupt (max_irqs vector : Z) (tm : TriggerMode) : io unit :=
  if (max_irqs <=? vector) || (vector <? SPI_START) then mret tt
  else
    let reg_idx := vector .>> 4 in
    let bit_shift := Z.shiftl (vector .& 0xf) 1 + 1 in
    reg_val ← gicd_get (ICFGR reg_idx);
    gicd_set (ICFGR reg_idx)
      (match tm with
       | Edge => reg_val .| shl32 1 bit_shift
       | Level => reg_val .& not32 (shl32 1 bit_shift)
       end).

Definition set_enable (max_irqs vector : Z) (enable : bool) : io unit :=
  if max_irqs <=? vector then mret tt
  else
    let reg := vector / 32 in
    let mask := shl32 1 (vector mod 32) in
    gicd_set (if enable then ISENABLER reg else ICENABLER reg) mask.

Definition set_sgi (cpu_interface sgi_num : Z) : io unit :=
  let int_id := wrap 32 (sgi_num .& 15) in
  let cpu_targetlist := shl32 1 (16 ⊕ cpu_interface) in
  gicd_set SGIR (cpu_targetlist .| int_id).

(** The index and the shift of the field of eight bits of an interrupt. *)
Definition byte_idx (int_id : Z) : Z := (int_id ⊗ 8) / 32.
Definition byte_off (int_id : Z) : Z := (int_id ⊗ 8) mod 32.

(** A field of a word replaced. *)
Definition put_field (prev mask value off : Z) : Z := (prev .& not32 mask) .| (shl32 value off .& mask).

Definition get_priority (int_id : Z) : io Z :=
  v ← gicd_get (IPRIORITYR (byte_idx int_id));
  mret ((v .>> byte_off int_id) .& 0xff).

Definition set_priority (int_id priority : Z) : io unit :=
  let off := byte_off int_id in
  prev ← gicd_get (IPRIORITYR (byte_idx int_id));
  gicd_set (IPRIORITYR (byte_idx int_id)) (put_field prev (shl32 0xff off) priority off).

Definition get_target_cpu (int_id : Z) : io Z :=
  v ← gicd_get (ITARGETSR (byte_idx int_id));
  mret ((v .>> byte_off int_id) .& 0xff).

Definition set_target_cpu (int_id target : Z) : io unit :=
  let off := byte_off int_id in
  prev ← gicd_get (ITARGETSR (byte_idx int_id));
  gicd_set (ITARGETSR (byte_idx int_id)) (put_field prev (shl32 0xff off) target off).

Definition set_pend (int_id : Z) (is_pend : bool) (current_cpu_id : Z) : io unit :=
  if (0 <=? int_id) && (int_id <? 16) then
    let reg_idx := int_id / 4 in
    let offset := int_id mod 4 * 8 in
    if is_pend then gicd_set (SPENDSGIR reg_idx) (shl32 1 (offset ⊕ current_cpu_id))
    else gicd_set (CPENDSGIR reg_idx) (shl32 0xff offset)
  else
    let reg_idx := int_id / 32 in
    let mask := shl32 1 (int_id mod 32) in
    gicd_set (if is_pend then ISPENDR reg_idx else ICPENDR reg_idx) mask.

Definition set_active (int_id : Z) (is_active : bool) : io unit :=
  let reg_idx := int_id / 32 in
  let mask := shl32 1 (int_id mod 32) in
  gicd_set (if is_active then ISACTIVER reg_idx else ICACTIVER reg_idx) mask.

Definition set_state (int_id state current_cpu_id : Z) : io unit :=
  _ ← set_active int_id (negb (state .& 2 =? 0));
  set_pend int_id (negb (state .& 1 =? 0)) current_cpu_id.

Definition get_state (int_id : Z) : io Z :=
  let reg_idx := int_id / 32 in
  let mask := shl32 1 (int_id mod 32) in
  p ← gicd_get (ISPENDR reg_idx);
  a ← gicd_get (ISACTIVER reg_idx);
  mret ((if p .& mask =? 0 then 0 else 1) .| (if a .& mask =? 0 then 0 else 2)).

Definition set_icfgr (int_id cfg : Z) : io unit :=
  let reg_ind := (int_id ⊗ GIC_CONFIG_BITS) / 32 in
  let off := (int_id ⊗ GIC_CONFIG_BITS) mod 32 in
  icfgr ← gicd_get (ICFGR reg_ind);
  gicd_set (ICFGR reg_ind) (put_field icfgr (shl32 3 off) cfg off).

(** The loops of [init]. *)
Definition disable_word (i : Z) : io unit :=
  _ ← gicd_set (ICENABLER (i / 32)) u32_max;
  _ ← gicd_set (ICPENDR (i / 32)) u32_max;
  gicd_set (ICACTIVER (i / 32)) u32_max.

Definition target_word (i : Z) : io unit :=
  _ ← gicd_set (ITARGETSR (i / 4)) 0x01010101;
  gicd_set (IPRIORITYR (i / 4)) u32_max.

(** Returns the new value of the field [max_irqs]. *)
Definition gicd_init : io Z :=
  max_irqs ← read_max_irqs;
  _ ← of_outcome (assert_true (max_irqs <=? GIC_MAX_IRQ));
  _ ← for_each (step_by 0 max_irqs 32) disable_word;
  n ← cpu_num;
  _ ← (if 1 <? n then for_each (step_by SPI_START max_irqs 4) target_word else mret tt);
  _ ← for_each (seqZ SPI_START (max_irqs - SPI_START)) (λ i, configure_interrupt max_irqs i Edge);
  _ ← gicd_set CTLR 1;
  mret max_irqs.

(** ** [GicCpuInterface] *)

Definition handle_irq (handler : Z → io unit) : io unit :=
  iar ← gicc_get GICC_IAR;
  let vector := iar .& 0x3ff in
  if vector <? 1020 then
    _ ← handler vector;
    gicc_set GICC_EOIR iar
  else mret tt.

(** Without and with the feature [hv]. *)
Definition gicc_init (hv : bool) : io unit :=
  _ ← gicc_set GICC_CTLR (if hv then 1 .| 0x200 else 1);
  gicc_set GICC_PMR 0xff.

(** ** [GicHypervisorInterface] *)

Definition get_lrs_num : io Z := vtr ← gich_get GICH_VTR; mret (vtr .& 31 + 1).

Definition gich_init : io unit :=
  n ← get_lrs_num;
  _ ← for_each (seqZ 0 n) (λ i, gich_set (GICH_LR i) 0);
  hcr_prev ← gich_get GICH_HCR;
  gich_set GICH_HCR (hcr_prev .| shl32 1 2).

End driver.

(** ** What the manual says *)

(** The settings of a shared interrupt. *)
Record spi_cfg := { enabled : bool; priority : Z; targets : Z; edge : bool }.

Definition with_enabled b c := {| enabled := b; priority := priority c; targets := targets c; edge := edge c |}.
Definition with_priority p c := {| enabled := enabled c; priority := p; targets := targets c; edge := edge c |}.
Definition with_targets t c := {| enabled := enabled c; priority := priority c; targets := t; edge := edge c |}.
Definition with_edge b c := {| enabled := enabled c; priority := priority c; targets := targets c; edge := b |}.

(** The byte at [k] of a word. *)
Definition byte_of (v k : Z) : Z := (v .>> (8 * k)) .& 0xff.

(** The effect of a write on the settings of the interrupt [i].  Bits of a
    priority and of a target list that are not implemented are zero. *)
Definition gicd_effect (prio_mask cpu_mask : Z) (r : gicd_reg) (v i : Z) (c : spi_cfg) : spi_cfg :=
  match r with
  | ISENABLER n => if (i / 32 =? n) && Z.testbit v (i mod 32) then with_enabled true c else c
  | ICENABLER n => if (i / 32 =? n) && Z.testbit v (i mod 32) then with_enabled false c else c
  | IPRIORITYR n => if i / 4 =? n then with_priority (byte_of v (i mod 4) .& prio_mask) c else c
  | ITARGETSR n => if i / 4 =? n then with_targets (byte_of v (i mod 4) .& cpu_mask) c else c
  | ICFGR n => if i / 16 =? n then with_edge (Z.testbit v (2 * (i mod 16) + 1)) c else c
  | _ => c
  end.

Class GicLaws (H : Type) `{GicHw H} := {
  lines : H → Z;
  cpus : H → Z;
  spi : H → Z → spi_cfg;
  forwarding : H → bool;
  prio_mask : Z;
  cpu_mask : Z;
  read_u32 r h : gicd_in_range r = true → 0 ≤ (gicd_read (gicd_offset r) h).2 < 2 ^ 32;
  read_keeps r h : gicd_in_range r = true → let h' := (gicd_read (gicd_offset r) h).1 in
    lines h' = lines h ∧ cpus h' = cpus h ∧ forwarding h' = forwarding h ∧
    ∀ i, 32 ≤ i < lines h → spi h' i = spi h i;
  write_effect r v h : gicd_in_range r = true → 0 ≤ v < 2 ^ 32 → let h' := gicd_write (gicd_offset r) v h in
    lines h' = lines h ∧ cpus h' = cpus h ∧
    forwarding h' = (match r with CTLR => Z.testbit v 0 | _ => forwarding h end) ∧
    ∀ i, 32 ≤ i < lines h → spi h' i = gicd_effect prio_mask cpu_mask r v i (spi h i);
  typer_value h : let v := (gicd_read (gicd_offset TYPER) h).2 in
    lines h = 32 * (v .& 31 + 1) ∧ cpus h = (v .>> 5) .& 7 + 1;
  priority_value h i : 32 ≤ i < lines h →
    byte_of (gicd_read (gicd_offset (IPRIORITYR (i / 4))) h).2 (i mod 4) = priority (spi h i);
  target_value h i : 32 ≤ i < lines h →
    byte_of (gicd_read (gicd_offset (ITARGETSR (i / 4))) h).2 (i mod 4) = targets (spi h i);
  icfgr_value h i : 32 ≤ i < lines h →
    Z.testbit (gicd_read (gicd_offset (ICFGR (i / 16))) h).2 (2 * (i mod 16) + 1) = edge (spi h i);
  fields_implemented h i : 32 ≤ i < lines h →
    priority (spi h i) .& prio_mask = priority (spi h i) ∧ targets (spi h i) .& cpu_mask = targets (spi h i);
}.

Section laws.
Context {H : Type} `{HW : GicHw H} `{HL : !GicLaws H}.
Implicit Types (h : H) (i v : Z).

(** [h'] differs from [h] in the settings of the shared interrupts only,
    which are now those of [f]. *)
Record updated h h' (f : Z → spi_cfg → spi_cfg) (fwd : bool) : Prop := {
  up_lines : lines h' = lines h;
  up_cpus : cpus h' = cpus h;
  up_fwd : forwarding h' = fwd;
  up_spi i : 32 ≤ i < lines h → spi h' i = f i (spi h i);
}.

Lemma updated_trans h h1 h2 f g b1 b2 :
  updated h h1 f b1 → updated h1 h2 g b2 → updated h h2 (λ i c, g i (f i c)) b2.
Proof.
  intros [L1 C1 F1 S1] [L2 C2 F2 S2]. split; [congruence..|].
  intros i Hi. rewrite S2 by (by rewrite L1). by rewrite S1.
Qed.

Lemma updated_ext h h' f g b : updated h h' f b → (∀ i c, 32 ≤ i < lines h → f i c = g i c) → updated h h' g b.
Proof. intros [L C F S] Hfg. split; [done..|]. intros i Hi. rewrite S by done. by apply Hfg. Qed.

Lemma get_updated r h : gicd_in_range r = true →
  ∃ h' v, gicd_get r h = Done (h', Ok v) ∧ v = (gicd_read (gicd_offset r) h).2 ∧ 0 ≤ v < 2 ^ 32 ∧
    updated h h' (λ _ c, c) (forwarding h).
Proof.
  intros Hr. unfold gicd_get. rewrite Hr. pose proof (read_keeps r h Hr) as (L & C & F & S).
  pose proof (read_u32 r h Hr). destruct (gicd_read (gicd_offset r) h) as [h' v]. by exists h', v.
Qed.

Lemma set_updated r v h : gicd_in_range r = true → 0 ≤ v < 2 ^ 32 →
  ∃ h', gicd_set r v h = Done (h', Ok tt) ∧
    updated h h' (gicd_effect prio_mask cpu_mask r v) (match r with CTLR => Z.testbit v 0 | _ => forwarding h end).
Proof.
  intros Hr Hv. unfold gicd_set. rewrite Hr. eexists. split; [done|].
  by destruct (write_effect r v h Hr Hv) as (L & C & F & S).
Qed.

(** A loop whose body updates each interrupt. *)
Lemma for_each_updated (body : Z → stm H Empty_set unit) (f : Z → Z → spi_cfg → spi_cfg) (l : list Z) n : ∀ h,
  lines h = n →
  (∀ x h, x ∈ l → lines h = n → ∃ h', body x h = Done (h', Ok tt) ∧ updated h h' (f x) (forwarding h)) →
  ∃ h', for_each l body h = Done (h', Ok tt) ∧ updated h h' (λ i c, foldl (λ c x, f x i c) c l) (forwarding h).
Proof.
  induction l as [|x l IH]; intros h Hn Hb; [by exists h|].
  destruct (Hb x h ltac:(left) Hn) as (h1 & E1 & U1).
  destruct (IH h1) as (h2 & E2 & U2); [by rewrite (up_lines _ _ _ _ U1)|intros; apply Hb; [by right|done]|].
  exists h2. cbn [for_each]. unfold mbind, stm_bind. rewrite E1, E2. split; [done|].
  rewrite (up_fwd _ _ _ _ U1) in U2. by apply (updated_trans _ _ _ _ _ _ _ U1 U2).
Qed.

(** A loop over steps that each set some interrupts to the same. *)
Lemma foldl_hit {A : Type} (hit : Z → bool) (g : A → A) (l : list Z) : (∀ c, g (g c) = g c) → ∀ c,
  foldl (λ c x, if hit x then g c else c) c l = if existsb hit l then g c else c.
Proof.
  intros Hg. induction l as [|x l IH]; intros c; [done|]. cbn [foldl existsb]. rewrite IH.
  destruct (hit x); cbn [orb]; [by destruct (existsb hit l); rewrite ?Hg|done].
Qed.

Lemma existsb_step a b s i (hit : Z → bool) : 0 < s → a ≤ i < b →
  (∀ k, 0 ≤ k → a + s * k ≤ i < a + s * k + s → hit (a + s * k) = true) → existsb hit (step_by a b s) = true.
Proof.
  intros Hs Hi Hhit. pose proof (Z.div_mod (i - a) s) as Hd. pose proof (Z.mod_pos_bound (i - a) s Hs) as Hm.
  pose proof (Z.div_pos (i - a) s). apply existsb_exists. exists (a + s * ((i - a) / s)). split; [|apply Hhit; lia].
  apply list_elem_of_In, list_elem_of_fmap. exists ((i - a) / s). split; [done|]. apply elem_of_seqZ. split; [lia|].
  apply Z.le_lt_trans with ((i - a) / s); [lia|]. rewrite Z.add_0_l.
  apply Z.lt_le_trans with (((i - a) / s * s + s) / s).
  { rewrite Z.div_add_l, Z.div_same by lia. lia. }
  apply Z.div_le_mono; lia.
Qed.

Lemma step_in_range a b s x : 0 < s → x ∈ step_by a b s → ∃ k, 0 ≤ k ∧ x = a + s * k ∧ x < b.
Proof.
  intros Hs (k & -> & Hk%elem_of_seqZ)%list_elem_of_fmap. exists k. split; [lia|]. split; [done|].
  rewrite Z.add_0_l in Hk. assert (s * k < s * ((b - a + s - 1) / s)) by nia.
  pose proof (Z.mul_div_le (b - a + s - 1) s Hs).
  assert (s * (k + 1) ≤ s * ((b - a + s - 1) / s)) by nia. nia.
Qed.

(** ** The operations on one interrupt *)

Lemma lines_bounds h : 32 ≤ lines h ≤ 1024 ∧ (32 | lines h).
Proof.
  destruct (typer_value h) as [-> _]. set (v := _ .& 31).
  assert (v = v mod 32) as Hv.
  { unfold v. change 31 with (Z.ones 5). rewrite Z.land_ones by lia. by rewrite Zmod_mod. }
  pose proof (Z.mod_pos_bound v 32). split; [lia|]. exists (v + 1). lia.
Qed.

(** Interrupts of one register of a field of [2^b] interrupts. *)
Lemma same_word i x n : 0 < n → i / n = x / n → i mod n = x mod n → i = x.
Proof. intros Hn Hd Hm. rewrite (Z.div_mod i n), (Z.div_mod x n) by lia. congruence. Qed.

Lemma with_edge_id c : with_edge (edge c) c = c.
Proof. by destruct c. Qed.

Lemma set_word_updated r v h f : gicd_in_range r = true → is_u32 v →
  (match r with CTLR => False | _ => True end) →
  (∀ i, 32 ≤ i < lines h → gicd_effect prio_mask cpu_mask r v i (spi h i) = f i (spi h i)) →
  ∃ h', gicd_set r v h = Done (h', Ok tt) ∧ updated h h' f (forwarding h).
Proof.
  intros Hr Hv Hc Hf. destruct (set_updated r v h Hr Hv) as (h' & E & [L C F S]). exists h'. split; [done|].
  split; [done|done|by destruct r|]. intros i Hi. rewrite S by done. by apply Hf.
Qed.

(** A register read, changed and written back. *)
Lemma modify_updated r (g : Z → Z) h f : gicd_in_range r = true → (match r with CTLR => False | _ => True end) →
  (∀ v, is_u32 v → is_u32 (g v)) →
  (∀ i, 32 ≤ i < lines h →
     gicd_effect prio_mask cpu_mask r (g (gicd_read (gicd_offset r) h).2) i (spi h i) = f i (spi h i)) →
  ∃ h', (v ← gicd_get r; gicd_set r (g v)) h = Done (h', Ok tt) ∧ updated h h' f (forwarding h).
Proof.
  intros Hr Hc Hg Hf. destruct (get_updated r h Hr) as (h1 & v & E1 & Hv & Hvr & U1).
  destruct (set_word_updated r (g v) h1 (λ i c, if decide (32 ≤ i < lines h) then f i (spi h i) else c)) as (h2 & E2 & U2);
    [done|by apply Hg|done| |].
  { intros i Hi. rewrite (up_lines _ _ _ _ U1) in Hi. rewrite decide_True by done.
    rewrite (up_spi _ _ _ _ U1) by done. subst v. by apply Hf. }
  exists h2. unfold mbind, stm_bind. rewrite E1, E2. split; [done|]. rewrite (up_fwd _ _ _ _ U1) in U2.
  pose proof (updated_trans _ _ _ _ _ _ _ U1 U2) as [L C F S]. split; [done..|]. intros i Hi. rewrite S by done.
  by rewrite decide_True.
Qed.

Lemma configure_updated x tm h : 32 ≤ x < lines h →
  ∃ h', configure_interrupt (lines h) x tm h = Done (h', Ok tt) ∧
    updated h h' (λ i c, if i =? x then with_edge (match tm with Edge => true | Level => false end) c else c) (forwarding h).
Proof.
  intros Hx. pose proof (lines_bounds h) as [Hl _]. unfold configure_interrupt, SPI_START.
  destruct (Z.leb_spec (lines h) x), (Z.ltb_spec x 32); [lia..|]. cbn [orb].
  replace (x .>> 4) with (x / 16) by (by rewrite Z.shiftr_div_pow2).
  replace (x .& 0xf) with (x mod 16) by (change 0xf with (Z.ones 4); by rewrite Z.land_ones).
  replace (Z.shiftl (x mod 16) 1) with (2 * (x mod 16)) by (rewrite Z.shiftl_mul_pow2 by lia; lia).
  set (b := 2 * (x mod 16) + 1). pose proof (Z.mod_pos_bound x 16).
  assert (0 ≤ x / 16 < 64) as Hidx by (split; [apply Z.div_pos; lia|apply Z.div_lt_upper_bound; lia]).
  apply (modify_updated (ICFGR (x / 16))
    (λ v, match tm with Edge => v .| shl32 1 b | Level => v .& not32 (shl32 1 b) end)).
  - unfold gicd_in_range. cbn. by rewrite (proj2 (Z.leb_le _ _)), (proj2 (Z.ltb_lt _ _)) by lia.
  - done.
  - intros v Hv. destruct tm; [apply lor_u32; [done|apply shl32_u32]|by apply land_u32].
  - intros i Hi. cbn [gicd_effect]. destruct (Z.eqb_spec (i / 16) (x / 16)) as [Hw|Hw].
    2: { destruct (Z.eqb_spec i x); [congruence|done]. }
    pose proof (icfgr_value h i Hi) as Hv. rewrite Hw in Hv. pose proof (Z.mod_pos_bound i 16).
    set (k := 2 * (i mod 16) + 1) in *. assert (0 ≤ k < 32 ∧ 0 ≤ b < 32) as [Hk Hb] by (unfold k, b; lia).
    assert ((i =? x) = bool_decide (k = b)) as ->.
    { destruct (Z.eqb_spec i x) as [->|Hne]; [by rewrite bool_decide_true|]. rewrite bool_decide_false; [done|].
      intros Hkb. apply Hne, (same_word i x 16); [lia|done|unfold k, b in Hkb; lia]. }
    destruct tm; rewrite ?Z.lor_spec, ?Z.land_spec, ?not32_spec, ?shl32_bit by done; rewrite Hv;
      case_bool_decide; rewrite ?orb_true_r, ?orb_false_r, ?andb_true_r, ?andb_false_r; done || apply with_edge_id.
Qed.

Lemma index_in_range x n w : 0 < w → 0 ≤ x < w * n → (0 <=? x / w) && (x / w <? n) = true.
Proof.
  intros Hw Hx. rewrite (proj2 (Z.leb_le _ _)), (proj2 (Z.ltb_lt _ _)); [done|apply Z.div_lt_upper_bound; lia|].
  apply Z.div_pos; lia.
Qed.

Lemma u32_max_u32 : is_u32 u32_max.
Proof. unfold is_u32, u32_max. lia. Qed.

Lemma disable_updated x h : 0 ≤ x < lines h →
  ∃ h', disable_word x h = Done (h', Ok tt) ∧
    updated h h' (λ i c, if i / 32 =? x / 32 then with_enabled false c else c) (forwarding h).
Proof.
  intros Hx. pose proof (lines_bounds h) as [Hl _].
  pose proof (index_in_range x 32 32 ltac:(lia) ltac:(lia)) as Hidx.
  destruct (set_word_updated (ICENABLER (x / 32)) u32_max h (λ i c, if i / 32 =? x / 32 then with_enabled false c else c))
    as (h1 & E1 & U1); [done|apply u32_max_u32|done| |].
  { intros i Hi. cbn [gicd_effect]. pose proof (Z.mod_pos_bound i 32). by rewrite u32_max_bit, andb_true_r by lia. }
  destruct (set_word_updated (ICPENDR (x / 32)) u32_max h1 (λ _ c, c)) as (h2 & E2 & U2); [done|apply u32_max_u32|done..|].
  destruct (set_word_updated (ICACTIVER (x / 32)) u32_max h2 (λ _ c, c)) as (h3 & E3 & U3); [done|apply u32_max_u32|done..|].
  exists h3. unfold disable_word, mbind, stm_bind. rewrite E1, E2, E3. split; [done|].
  pose proof (updated_trans _ _ _ _ _ _ _ (updated_trans _ _ _ _ _ _ _ U1 U2) U3) as [L C F S]. split; [done..| |done].
  rewrite F, (up_fwd _ _ _ _ U2). apply U1.
Qed.

(** What [init] sets for a shared interrupt when there are several CPUs. *)
Definition to_cpu0 c : spi_cfg := with_priority (0xff .& prio_mask) (with_targets (1 .& cpu_mask) c).

Lemma byte_of_max k : 0 ≤ k < 4 → byte_of u32_max k = 0xff.
Proof. intros Hk. assert (k = 0 ∨ k = 1 ∨ k = 2 ∨ k = 3) as [->|[->|[->| ->]]] by lia; done. Qed.

Lemma byte_of_ones k : 0 ≤ k < 4 → byte_of 0x01010101 k = 1.
Proof. intros Hk. assert (k = 0 ∨ k = 1 ∨ k = 2 ∨ k = 3) as [->|[->|[->| ->]]] by lia; done. Qed.

Lemma target_updated x h : 0 ≤ x < lines h →
  ∃ h', target_word x h = Done (h', Ok tt) ∧
    updated h h' (λ i c, if i / 4 =? x / 4 then to_cpu0 c else c) (forwarding h).
Proof.
  intros Hx. pose proof (lines_bounds h) as [Hl _].
  pose proof (index_in_range x 256 4 ltac:(lia) ltac:(lia)) as Hidx.
  destruct (set_word_updated (ITARGETSR (x / 4)) 0x01010101 h
    (λ i c, if i / 4 =? x / 4 then with_targets (1 .& cpu_mask) c else c)) as (h1 & E1 & U1); [done|unfold is_u32; lia|done| |].
  { intros i Hi. cbn [gicd_effect]. pose proof (Z.mod_pos_bound i 4). by rewrite byte_of_ones by lia. }
  destruct (set_word_updated (IPRIORITYR (x / 4)) u32_max h1
    (λ i c, if i / 4 =? x / 4 then with_priority (0xff .& prio_mask) c else c)) as (h2 & E2 & U2); [done|apply u32_max_u32|done| |].
  { intros i Hi. cbn [gicd_effect]. pose proof (Z.mod_pos_bound i 4). by rewrite byte_of_max by lia. }
  exists h2. unfold target_word, mbind, stm_bind. rewrite E1, E2. split; [done|].
  rewrite (up_fwd _ _ _ _ U1) in U2. eapply updated_ext; [exact (updated_trans _ _ _ _ _ _ _ U1 U2)|].
  intros i c Hi. cbn. by destruct (i / 4 =? x / 4).
Qed.

(** ** [init] *)

Lemma disable_all h : ∃ h', for_each (step_by 0 (lines h) 32) disable_word h = Done (h', Ok tt) ∧
  updated h h' (λ _ c, with_enabled false c) (forwarding h).
Proof.
  destruct (for_each_updated disable_word (λ x i c, if i / 32 =? x / 32 then with_enabled false c else c)
    (step_by 0 (lines h) 32) (lines h) h eq_refl) as (h' & E & U).
  { intros x h0 (k & Hk & -> & Hlt)%step_in_range Hn; [|lia]. apply disable_updated. lia. }
  exists h'. split; [done|]. eapply updated_ext; [exact U|]. intros i c Hi. cbn beta.
  rewrite (foldl_hit (λ x, i / 32 =? x / 32)) by done. rewrite (existsb_step 0 (lines h) 32 i); [done|lia|lia|].
  intros k Hk Hik. apply Z.eqb_eq. rewrite Z.add_0_l, Z.mul_comm, Z.div_mul by lia.
  symmetry. apply (Z.div_unique_pos i 32 k (i - 32 * k)); lia.
Qed.

Lemma target_all h : ∃ h', for_each (step_by SPI_START (lines h) 4) target_word h = Done (h', Ok tt) ∧
  updated h h' (λ _ c, to_cpu0 c) (forwarding h).
Proof.
  destruct (for_each_updated target_word (λ x i c, if i / 4 =? x / 4 then to_cpu0 c else c)
    (step_by SPI_START (lines h) 4) (lines h) h eq_refl) as (h' & E & U).
  { unfold SPI_START. intros x h0 (k & Hk & -> & Hlt)%step_in_range Hn; [|lia]. apply target_updated. lia. }
  exists h'. split; [done|]. eapply updated_ext; [exact U|]. intros i c Hi. cbn beta.
  rewrite (foldl_hit (λ x, i / 4 =? x / 4)) by done. rewrite (existsb_step SPI_START (lines h) 4 i); [done|lia|unfold SPI_START; lia|].
  unfold SPI_START. intros k Hk Hik. apply Z.eqb_eq. replace (32 + 4 * k) with ((8 + k) * 4) by lia.
  rewrite Z.div_mul by lia. symmetry. apply (Z.div_unique_pos i 4 (8 + k) (i - 4 * (8 + k))); lia.
Qed.

Lemma configure_all h :
  ∃ h', for_each (seqZ SPI_START (lines h - SPI_START)) (λ i, configure_interrupt (lines h) i Edge) h = Done (h', Ok tt) ∧
    updated h h' (λ _ c, with_edge true c) (forwarding h).
Proof.
  destruct (for_each_updated (λ i, configure_interrupt (lines h) i Edge) (λ x i c, if i =? x then with_edge true c else c)
    (seqZ SPI_START (lines h - SPI_START)) (lines h) h eq_refl) as (h' & E & U).
  { unfold SPI_START. intros x h0 Hx%elem_of_seqZ Hn. rewrite <- Hn. apply (configure_updated x Edge). lia. }
  exists h'. split; [done|]. eapply updated_ext; [exact U|]. intros i c Hi. cbn beta.
  rewrite (foldl_hit (λ x, i =? x)) by done.
  assert (existsb (λ x, i =? x) (seqZ SPI_START (lines h - SPI_START)) = true) as ->; [|done].
  apply existsb_exists. exists i. split; [|apply Z.eqb_refl]. apply list_elem_of_In, elem_of_seqZ. unfold SPI_START. lia.
Qed.

Lemma read_max_irqs_eq h : ∃ h', read_max_irqs h = Done (h', Ok (lines h)) ∧ updated h h' (λ _ c, c) (forwarding h).
Proof.
  destruct (get_updated TYPER h eq_refl) as (h' & v & E & Hv & _ & U). exists h'. unfold read_max_irqs, mbind, stm_bind.
  rewrite E. split; [|done]. destruct (typer_value h) as [Hl _]. rewrite Hl, Hv. by rewrite Z.mul_comm.
Qed.

Lemma cpu_num_eq h : ∃ h', cpu_num h = Done (h', Ok (cpus h)) ∧ updated h h' (λ _ c, c) (forwarding h).
Proof.
  destruct (get_updated TYPER h eq_refl) as (h' & v & E & Hv & _ & U). exists h'. unfold cpu_num, mbind, stm_bind.
  rewrite E. split; [|done]. destruct (typer_value h) as [_ Hc]. by rewrite Hc, Hv.
Qed.

(** The initialisation of the distributor returns and leaves the number of
    interrupt lines in [max_irqs]; every shared interrupt is then disabled and
    edge-triggered, with the lowest priority and CPU 0 as its only target when
    there are several CPUs, and the distributor forwards interrupts. *)
Theorem gicd_init_configures h :
  ∃ h', gicd_init h = Done (h', Ok (lines h)) ∧ lines h' = lines h ∧ forwarding h' = true ∧
    ∀ i, 32 ≤ i < lines h → enabled (spi h' i) = false ∧ edge (spi h' i) = true ∧
      priority (spi h' i) = (if 1 <? cpus h then 0xff .& prio_mask else priority (spi h i)) ∧
      targets (spi h' i) = (if 1 <? cpus h then 1 .& cpu_mask else targets (spi h i)).
Proof.
  destruct (read_max_irqs_eq h) as (h1 & E1 & U1). destruct (lines_bounds h) as [Hl _].
  destruct (disable_all h1) as (h2 & E2 & U2). destruct (cpu_num_eq h2) as (h3 & E3 & U3).
  assert (∃ h4, (if 1 <? cpus h2 then for_each (step_by SPI_START (lines h3) 4) target_word else mret tt) h3 =
    Done (h4, Ok tt) ∧ updated h3 h4 (λ _ c, if 1 <? cpus h2 then to_cpu0 c else c) (forwarding h3)) as (h4 & E4 & U4).
  { destruct (1 <? cpus h2); [apply target_all|by exists h3]. }
  destruct (configure_all h4) as (h5 & E5 & U5).
  destruct (set_updated CTLR 1 h5 eq_refl ltac:(lia)) as (h6 & E6 & U6).
  pose proof (up_lines _ _ _ _ U1) as L1. pose proof (up_lines _ _ _ _ U2) as L2.
  pose proof (up_lines _ _ _ _ U3) as L3. pose proof (up_lines _ _ _ _ U4) as L4.
  pose proof (up_cpus _ _ _ _ U1) as C1. pose proof (up_cpus _ _ _ _ U2) as C2.
  rewrite ?L4, ?L3, ?L2, ?L1 in *. exists h6. split.
  { unfold gicd_init, mbind, stm_bind, of_outcome, assert_true. rewrite E1.
    rewrite (proj2 (Z.leb_le _ _)) by (unfold GIC_MAX_IRQ; lia). by rewrite E2, E3, E4, E5, E6. }
  pose proof (updated_trans _ _ _ _ _ _ _ U1 (updated_trans _ _ _ _ _ _ _ U2 (updated_trans _ _ _ _ _ _ _ U3
    (updated_trans _ _ _ _ _ _ _ U4 (updated_trans _ _ _ _ _ _ _ U5 U6))))) as [L _ F S].
  split; [done|]. split; [done|]. intros i Hi. rewrite (S i Hi). rewrite <- C1, <- C2.
  cbn [gicd_effect]. by destruct (1 <? cpus h2).
Qed.

(** ** Settings of one interrupt *)

(** A field of [w] bits of a word of 32. *)
Lemma put_field_bit prev w value off k : 0 ≤ off < 32 → 0 ≤ w → 0 ≤ k < 32 →
  Z.testbit (put_field prev (shl32 (Z.ones w) off) value off) k =
    if decide (off ≤ k < off + w) then Z.testbit value (k - off) else Z.testbit prev k.
Proof.
  intros Hoff Hw Hk. unfold put_field. rewrite Z.lor_spec, !Z.land_spec, not32_spec, !shl32_spec by done.
  rewrite Z.testbit_ones by lia. case_decide as Hin.
  - rewrite (proj2 (Z.leb_le _ _)), (proj2 (Z.ltb_lt _ _)) by lia. cbn. by rewrite andb_false_r, andb_true_r.
  - assert ((0 <=? k - off) && (k - off <? w) = false) as ->; [|cbn; by rewrite andb_true_r, andb_false_r, orb_false_r].
    destruct (Z.leb_spec 0 (k - off)), (Z.ltb_spec (k - off) w); try done. lia.
Qed.

Lemma put_field_u32 prev mask value off : is_u32 prev → is_u32 (put_field prev mask value off).
Proof. intros Hp. apply lor_u32; [by apply land_u32|apply land_u32, shl32_u32]. Qed.

Lemma byte_of_bit v k m : 0 ≤ k → 0 ≤ m → Z.testbit (byte_of v k) m = Z.testbit v (8 * k + m) && (m <? 8).
Proof.
  intros Hk Hm. unfold byte_of. rewrite Z.land_spec, Z.shiftr_spec by done. change 0xff with (Z.ones 8).
  rewrite Z.testbit_ones, (proj2 (Z.leb_le 0 m)) by lia. cbn. by rewrite Z.add_comm.
Qed.

Lemma byte_high p m : 0 ≤ p < 256 → 8 ≤ m → Z.testbit p m = false.
Proof.
  intros Hp Hm. destruct (decide (p = 0)) as [->|]; [apply Z.testbit_0_l|]. apply Z.bits_above_log2; [lia|].
  apply Z.log2_lt_pow2; [lia|]. eapply Z.lt_le_trans with (2 ^ 8); [lia|]. apply Z.pow_le_mono_r; lia.
Qed.

Lemma byte_of_put prev p k j : 0 ≤ p < 256 → 0 ≤ k < 4 → 0 ≤ j < 4 →
  byte_of (put_field prev (shl32 0xff (8 * k)) p (8 * k)) j = if j =? k then p else byte_of prev j.
Proof.
  intros Hp Hk Hj. change 0xff with (Z.ones 8). apply Z.bits_inj'. intros m Hm.
  rewrite byte_of_bit by lia. destruct (Z.ltb_spec m 8) as [Hm8|Hm8].
  - rewrite put_field_bit, andb_true_r by lia. destruct (Z.eqb_spec j k) as [->|Hjk].
    + rewrite decide_True by lia. f_equal. lia.
    + rewrite decide_False by lia. rewrite byte_of_bit, (proj2 (Z.ltb_lt m 8)), andb_true_r by lia. done.
  - rewrite andb_false_r. destruct (j =? k); [by rewrite byte_high|].
    rewrite byte_of_bit, (proj2 (Z.ltb_ge m 8)) by lia. by rewrite andb_false_r.
Qed.

Lemma byte_idx_eq i : 0 ≤ i < 2 ^ 60 → byte_idx i = i / 4 ∧ byte_off i = 8 * (i mod 4).
Proof.
  intros Hi. unfold byte_idx, byte_off, wmul. rewrite wrap_small by lia. change 32 with (4 * 8). split.
  - by rewrite Z.div_mul_cancel_r.
  - rewrite Z.mul_mod_distr_r by lia. lia.
Qed.

(** The interrupt [x] alone is changed. *)
Definition only (x : Z) (f : spi_cfg → spi_cfg) (i : Z) (c : spi_cfg) : spi_cfg := if i =? x then f c else c.

Lemma with_priority_id c : with_priority (priority c) c = c.
Proof. by destruct c. Qed.

Lemma with_targets_id c : with_targets (targets c) c = c.
Proof. by destruct c. Qed.

(** The condition of two interrupts of one word. *)
Lemma same_byte i x : i / 4 = x / 4 → (i mod 4 =? x mod 4) = (i =? x).
Proof.
  intros Hw. destruct (Z.eqb_spec i x) as [->|Hne]; [apply Z.eqb_refl|]. apply Z.eqb_neq. intros Hm.
  by apply Hne, (same_word i x 4).
Qed.

Lemma set_priority_updated x p h : 32 ≤ x < lines h → 0 ≤ p < 256 →
  ∃ h', set_priority x p h = Done (h', Ok tt) ∧ updated h h' (only x (with_priority (p .& prio_mask))) (forwarding h).
Proof.
  intros Hx Hp. destruct (lines_bounds h) as [Hl _]. destruct (byte_idx_eq x ltac:(lia)) as [Hi Ho].
  pose proof (Z.mod_pos_bound x 4). unfold set_priority. rewrite Hi, Ho.
  apply (modify_updated (IPRIORITYR (x / 4)) (λ v, put_field v (shl32 0xff (8 * (x mod 4))) p (8 * (x mod 4)))).
  - unfold gicd_in_range. cbn. apply (index_in_range x 256 4); lia.
  - done.
  - intros v. apply put_field_u32.
  - intros i Hi'. cbn [gicd_effect]. unfold only. destruct (Z.eqb_spec (i / 4) (x / 4)) as [Hw|Hw].
    2: { destruct (Z.eqb_spec i x); [congruence|done]. }
    pose proof (Z.mod_pos_bound i 4). rewrite byte_of_put, same_byte by (done || lia).
    destruct (i =? x); [done|]. rewrite <- Hw, priority_value by done.
    rewrite (proj1 (fields_implemented h i Hi')). apply with_priority_id.
Qed.

Lemma set_target_updated x t h : 32 ≤ x < lines h → 0 ≤ t < 256 →
  ∃ h', set_target_cpu x t h = Done (h', Ok tt) ∧ updated h h' (only x (with_targets (t .& cpu_mask))) (forwarding h).
Proof.
  intros Hx Hp. destruct (lines_bounds h) as [Hl _]. destruct (byte_idx_eq x ltac:(lia)) as [Hi Ho].
  pose proof (Z.mod_pos_bound x 4). unfold set_target_cpu. rewrite Hi, Ho.
  apply (modify_updated (ITARGETSR (x / 4)) (λ v, put_field v (shl32 0xff (8 * (x mod 4))) t (8 * (x mod 4)))).
  - unfold gicd_in_range. cbn. apply (index_in_range x 256 4); lia.
  - done.
  - intros v. apply put_field_u32.
  - intros i Hi'. cbn [gicd_effect]. unfold only. destruct (Z.eqb_spec (i / 4) (x / 4)) as [Hw|Hw].
    2: { destruct (Z.eqb_spec i x); [congruence|done]. }
    pose proof (Z.mod_pos_bound i 4). rewrite byte_of_put, same_byte by (done || lia).
    destruct (i =? x); [done|]. rewrite <- Hw, target_value by done.
    rewrite (proj2 (fields_implemented h i Hi')). apply with_targets_id.
Qed.

Lemma set_enable_updated x b h : 32 ≤ x < lines h →
  ∃ h', set_enable (lines h) x b h = Done (h', Ok tt) ∧ updated h h' (only x (with_enabled b)) (forwarding h).
Proof.
  intros Hx. destruct (lines_bounds h) as [Hl _]. unfold set_enable.
  destruct (Z.leb_spec (lines h) x); [lia|]. pose proof (Z.mod_pos_bound x 32).
  apply set_word_updated; [|apply shl32_u32|by destruct b|].
  - destruct b; unfold gicd_in_range; cbn; apply (index_in_range x 32 32); lia.
  - intros i Hi. pose proof (Z.mod_pos_bound i 32). unfold only.
    destruct b; cbn [gicd_effect]; rewrite shl32_bit by lia; destruct (Z.eqb_spec i x) as [->|Hne].
    1, 3: by rewrite Z.eqb_refl, bool_decide_true.
    all: destruct (Z.eqb_spec (i / 32) (x / 32)) as [Hw|]; [|done]; cbn; rewrite bool_decide_false; [done|].
    all: intros Hm; by apply Hne, (same_word i x 32).
Qed.

Lemma set_icfgr_updated x cfg h : 32 ≤ x < lines h →
  ∃ h', set_icfgr x cfg h = Done (h', Ok tt) ∧ updated h h' (only x (with_edge (Z.testbit cfg 1))) (forwarding h).
Proof.
  intros Hx. destruct (lines_bounds h) as [Hl _]. unfold set_icfgr, GIC_CONFIG_BITS, wmul. rewrite wrap_small by lia.
  change 32 with (16 * 2) at 1 2 3 4. rewrite Z.div_mul_cancel_r, Z.mul_mod_distr_r by lia. pose proof (Z.mod_pos_bound x 16).
  apply (modify_updated (ICFGR (x / 16)) (λ v, put_field v (shl32 3 (x mod 16 * 2)) cfg (x mod 16 * 2))).
  - unfold gicd_in_range. cbn. apply (index_in_range x 64 16); lia.
  - done.
  - intros v. apply put_field_u32.
  - intros i Hi'. cbn [gicd_effect]. unfold only. destruct (Z.eqb_spec (i / 16) (x / 16)) as [Hw|Hw].
    2: { destruct (Z.eqb_spec i x); [congruence|done]. }
    pose proof (Z.mod_pos_bound i 16). change 3 with (Z.ones 2). rewrite put_field_bit by lia.
    destruct (Z.eqb_spec i x) as [->|Hne].
    + rewrite decide_True by lia. f_equal. f_equal. lia.
    + rewrite decide_False by (intros ?; apply Hne, (same_word i x 16); lia || done).
      rewrite <- Hw, icfgr_value by done. apply with_edge_id.
Qed.

Lemma get_priority_eq x h : 32 ≤ x < lines h →
  ∃ h', get_priority x h = Done (h', Ok (priority (spi h x))) ∧ updated h h' (λ _ c, c) (forwarding h).
Proof.
  intros Hx. destruct (lines_bounds h) as [Hl _]. destruct (byte_idx_eq x ltac:(lia)) as [Hi Ho].
  unfold get_priority. rewrite Hi, Ho. destruct (get_updated (IPRIORITYR (x / 4)) h) as (h' & v & E & -> & _ & U).
  { unfold gicd_in_range. cbn. apply (index_in_range x 256 4); lia. }
  exists h'. unfold mbind, stm_bind. rewrite E. split; [|done]. unfold mret, stm_ret. do 3 f_equal. by apply priority_value.
Qed.

Lemma get_target_eq x h : 32 ≤ x < lines h →
  ∃ h', get_target_cpu x h = Done (h', Ok (targets (spi h x))) ∧ updated h h' (λ _ c, c) (forwarding h).
Proof.
  intros Hx. destruct (lines_bounds h) as [Hl _]. destruct (byte_idx_eq x ltac:(lia)) as [Hi Ho].
  unfold get_target_cpu. rewrite Hi, Ho. destruct (get_updated (ITARGETSR (x / 4)) h) as (h' & v & E & -> & _ & U).
  { unfold gicd_in_range. cbn. apply (index_in_range x 256 4); lia. }
  exists h'. unfold mbind, stm_bind. rewrite E. split; [|done]. unfold mret, stm_ret. do 3 f_equal. by apply target_value.
Qed.

(** Each setter changes one setting of one shared interrupt, and the getters
    read the settings back. *)
Theorem gicd_settings_independent x h : 32 ≤ x < lines h →
  let changes (c : stm H Empty_set unit) (f : spi_cfg → spi_cfg) :=
    ∃ h', c h = Done (h', Ok tt) ∧ updated h h' (only x f) (forwarding h) in
  (∀ b, changes (set_enable (lines h) x b) (with_enabled b)) ∧
  (∀ p, 0 ≤ p < 256 → changes (set_priority x p) (with_priority (p .& prio_mask))) ∧
  (∀ t, 0 ≤ t < 256 → changes (set_target_cpu x t) (with_targets (t .& cpu_mask))) ∧
  (∀ cfg, changes (set_icfgr x cfg) (with_edge (Z.testbit cfg 1))) ∧
  (∀ tm, changes (configure_interrupt (lines h) x tm) (with_edge (match tm with Edge => true | Level => false end))) ∧
  (∃ h', get_priority x h = Done (h', Ok (priority (spi h x))) ∧ updated h h' (λ _ c, c) (forwarding h)) ∧
  (∃ h', get_target_cpu x h = Done (h', Ok (targets (spi h x))) ∧ updated h h' (λ _ c, c) (forwarding h)).
Proof.
  intros Hx changes. split_and!; intros.
  - by apply set_enable_updated.
  - by apply set_priority_updated.
  - by apply set_target_updated.
  - by apply set_icfgr_updated.
  - by apply configure_updated.
  - by apply get_priority_eq.
  - by apply get_target_eq.
Qed.

(** The list registers that the hypervisor interface clears are all there. *)
Lemma gich_init_total h : ∃ h', gich_init h = Done (h', Ok tt).
Proof.
  assert (∃ h1 n, get_lrs_num h = Done (h1, Ok n) ∧ 1 ≤ n ≤ 32) as (h1 & n & E1 & Hn).
  { unfold get_lrs_num, mbind, stm_bind, gich_get. cbn [gich_in_range].
    destruct (gich_read (gich_offset GICH_VTR) h) as [h1 vtr]. exists h1, (vtr .& 31 + 1). split; [done|].
    change 31 with (Z.ones 5). rewrite Z.land_ones by lia. pose proof (Z.mod_pos_bound vtr (2 ^ 5)). lia. }
  assert (∀ l h, Forall (λ i, 0 ≤ i < 64) l → ∃ h', for_each l (λ i, gich_set (GICH_LR i) 0) h = Done (h', Ok tt)) as Hl.
  { induction l as [|i l IH]; intros h0 Hl; [by exists h0|]. apply Forall_cons in Hl as [Hi Hl].
    destruct (IH (gich_write (gich_offset (GICH_LR i)) 0 h0) Hl) as (h' & Hh'). exists h'.
    cbn [for_each]. unfold mbind, stm_bind, gich_set at 1. cbn [gich_in_range]. unfold GIC_LIST_REGS_NUM.
    rewrite (proj2 (Z.leb_le _ _)), (proj2 (Z.ltb_lt _ _)) by lia. exact Hh'. }
  destruct (Hl (seqZ 0 n) h1) as (h2 & E2).
  { apply Forall_forall. intros i Hi%elem_of_seqZ. lia. }
  unfold gich_init, mbind, stm_bind. rewrite E1, E2. unfold gich_get, gich_set. cbn [gich_in_range].
  destruct (gich_read (gich_offset GICH_HCR) h2) as [h3 v]. by eexists.
Qed.

End laws.

(** ** [HandlerTable] *)

(** Handlers are function pointers, 0 where there is none. *)
Definition handler_table_new (n : nat) : list Z := replicate n 0.

(** [compare_exchange(0, handler)]. *)
Definition table_register (t : list Z) (idx handler : Z) : outcome (list Z * bool) :=
  cur ← unwrap (t !! Z.to_nat idx);
  Done (if cur =? 0 then (<[Z.to_nat idx := handler]> t, true) else (t, false)).

(** ** Interrupts of the kernel *)

Definition MAX_IRQ_COUNT : Z := 1024.

(** The controller, the field [max_irqs] of the distributor and the table of
    handlers, with the rest of the system, on which handlers act. *)
Record irq_sys (H R : Type) := { hw : H; gicd_max_irqs : Z; handlers : list Z; sys_rest : R }.
Arguments hw {H R} _.
Arguments gicd_max_irqs {H R} _.
Arguments handlers {H R} _.
Arguments sys_rest {H R} _.

Section irq.
Context {H R : Type} `{HW : GicHw H}.
#[local] Abbreviation sys := (irq_sys H R).
#[local] Abbreviation ss := (stm sys Empty_set).

Definition with_hw (h : H) (s : sys) : sys :=
  {| hw := h; gicd_max_irqs := gicd_max_irqs s; handlers := handlers s; sys_rest := sys_rest s |}.
Definition with_handlers (t : list Z) (s : sys) : sys :=
  {| hw := hw s; gicd_max_irqs := gicd_max_irqs s; handlers := t; sys_rest := sys_rest s |}.
Definition with_max_irqs (n : Z) (s : sys) : sys :=
  {| hw := hw s; gicd_max_irqs := n; handlers := handlers s; sys_rest := sys_rest s |}.

(** The code of the driver runs on the whole system. *)
#[export] Instance irq_sys_hw : GicHw sys := {|
  gicd_read o s := let '(h, v) := gicd_read o (hw s) in (with_hw h s, v);
  gicd_write o v s := with_hw (gicd_write o v (hw s)) s;
  gicc_read o s := let '(h, v) := gicc_read o (hw s) in (with_hw h s, v);
  gicc_write o v s := with_hw (gicc_write o v (hw s)) s;
  gich_read o s := let '(h, v) := gich_read o (hw s) in (with_hw h s, v);
  gich_write o v s := with_hw (gich_write o v (hw s)) s;
|}.

(** What the code behind a function pointer does. *)
Context (call : Z → ss unit).

Definition table_handle (idx : Z) : ss bool :=
  handler ← (λ s, of_outcome (unwrap (handlers s !! Z.to_nat idx)) s);
  if handler =? 0 then mret false else _ ← call handler; mret true.

Definition dispatch_irq_common (irq_num : Z) : ss unit := _ ← table_handle irq_num; mret tt.

Definition irq_set_enable (irq_num : Z) (en : bool) : ss unit := λ s, set_enable (gicd_max_irqs s) irq_num en s.

Definition register_handler_common (irq_num handler : Z) : ss bool := λ s,
  if irq_num <? MAX_IRQ_COUNT then
    match table_register (handlers s) irq_num handler with
    | Panic => Panic
    | Done (t, true) => (_ ← irq_set_enable irq_num true; mret true) (with_handlers t s)
    | Done (_, false) => Done (s, Ok false)
    end
  else Done (s, Ok false).

(** [dispatch_irq] of [platform/aarch64_common/gic.rs]. *)
Definition dispatch_irq : ss unit := handle_irq dispatch_irq_common.

Definition gic_init_primary : ss unit :=
  n ← gicd_init;
  _ ← modify (with_max_irqs n);
  gicc_init false.

End irq.

Section irq_laws.
Context {H R : Type} `{HW : GicHw H} `{HL : !GicLaws H}.
#[local] Abbreviation sys := (irq_sys H R).

#[export] Instance irq_sys_laws : GicLaws sys.
Proof.
  refine {| lines s := lines (hw s); cpus s := cpus (hw s); spi s := spi (hw s); forwarding s := forwarding (hw s);
            prio_mask := prio_mask; cpu_mask := cpu_mask |}.
  - intros r s Hr. cbn. pose proof (read_u32 r (hw s) Hr). by destruct (gicd_read (gicd_offset r) (hw s)).
  - intros r s Hr. cbn. pose proof (read_keeps r (hw s) Hr). by destruct (gicd_read (gicd_offset r) (hw s)).
  - intros r v s Hr Hv. exact (write_effect r v (hw s) Hr Hv).
  - intros s. pose proof (typer_value (hw s)) as Ht. cbn in *. by destruct (gicd_read _ (hw s)).
  - intros s i Hi. rewrite <- (priority_value (hw s) i Hi). cbn. by destruct (gicd_read _ (hw s)).
  - intros s i Hi. rewrite <- (target_value (hw s) i Hi). cbn. by destruct (gicd_read _ (hw s)).
  - intros s i Hi. rewrite <- (icfgr_value (hw s) i Hi). cbn. by destruct (gicd_read _ (hw s)).
  - intros s i. apply (fields_implemented (hw s) i).
Defined.


End irq_laws.

(** ** An example of the hardware: registers that hold what was written *)

Definition regs := Z → Z.

Definition reg_put (off v : Z) (m : regs) : regs := λ o, if o =? off then v else m o.

(** 64 interrupts and 2 CPUs; interrupt 33 is always pending. *)
#[export] Instance demo_gic : GicHw regs := {|
  gicd_read o m := (m, wrap 32 (if o =? 4 then 33 else m o));
  gicd_write o v m :=
    if (0x100 <=? o) && (o <? 0x180) then reg_put o (m o .| v) m
    else if (0x180 <=? o) && (o <? 0x200) then reg_put (o - 0x80) (Z.ldiff (m (o - 0x80)) v) m
    else reg_put o v m;
  gicc_read _ m := (m, 33);
  gicc_write _ _ m := m;
  gich_read _ m := (m, 0);
  gich_write _ _ m := m;
|}.

Definition demo_spi (m : regs) (i : Z) : spi_cfg := {|
  enabled := Z.testbit (m (0x100 + 4 * (i / 32))) (i mod 32);
  priority := byte_of (wrap 32 (m (0x400 + 4 * (i / 4)))) (i mod 4);
  targets := byte_of (wrap 32 (m (0x800 + 4 * (i / 4)))) (i mod 4);
  edge := Z.testbit (wrap 32 (m (0xc00 + 4 * (i / 16)))) (2 * (i mod 16) + 1);
|}.

Lemma byte_of_land v k : byte_of v k .& 0xff = byte_of v k.
Proof. unfold byte_of. by rewrite <- Z.land_assoc, Z.land_diag. Qed.

Lemma reg_put_eq off v m : reg_put off v m off = v.
Proof. unfold reg_put. by rewrite Z.eqb_refl. Qed.

Lemma reg_put_ne off v m o : o ≠ off → reg_put off v m o = m o.
Proof. intros Hne. unfold reg_put. by rewrite (proj2 (Z.eqb_neq _ _) Hne). Qed.

(** A write to a register that none of the settings is read from. *)
Lemma demo_spi_other off v m i : off ≠ 0x100 + 4 * (i / 32) → off ≠ 0x400 + 4 * (i / 4) →
  off ≠ 0x800 + 4 * (i / 4) → off ≠ 0xc00 + 4 * (i / 16) → demo_spi (reg_put off v m) i = demo_spi m i.
Proof. intros. unfold demo_spi. by rewrite !reg_put_ne by congruence. Qed.

Lemma demo_write_effect r v m i : gicd_in_range r = true → 0 ≤ v < 2 ^ 32 → 32 ≤ i < 64 →
  demo_spi (gicd_write (gicd_offset r) v m) i = gicd_effect 0xff 0xff r v i (demo_spi m i).
Proof.
  intros Hr Hv Hi. unfold gicd_in_range in Hr. bool_to_prop.
  assert (0 ≤ i / 32 < 32 ∧ 0 ≤ i / 4 < 256 ∧ 0 ≤ i / 16 < 64) as (H1 & H2 & H3).
  { split_and!; (apply Z.div_pos; lia) || (apply Z.div_lt_upper_bound; lia). }
  destruct r; cbn [gicd_offset gicd_index fst snd] in *; cbn [gicd_write demo_gic];
    match goal with |- context [if (0x100 <=? ?o) && _ then _ else _] =>
      destruct (Z.leb_spec 0x100 o), (Z.ltb_spec o 0x180), (Z.leb_spec 0x180 o), (Z.ltb_spec o 0x200); try lia end;
    cbn [andb gicd_effect]; try (apply demo_spi_other; lia).
  - destruct (Z.eqb_spec (i / 32) n) as [Hn|Hn]; cbn [andb]; [|apply demo_spi_other; lia].
    unfold demo_spi. rewrite <- Hn, reg_put_eq, !reg_put_ne by lia. rewrite Z.lor_spec.
    destruct (Z.testbit v (i mod 32)); unfold with_enabled; cbn; by rewrite ?orb_true_r, ?orb_false_r.
  - replace (0x180 + 4 * n - 0x80) with (0x100 + 4 * n) by lia.
    destruct (Z.eqb_spec (i / 32) n) as [Hn|Hn]; cbn [andb]; [|apply demo_spi_other; lia].
    unfold demo_spi. rewrite <- Hn, reg_put_eq, !reg_put_ne by lia. rewrite Z.ldiff_spec.
    destruct (Z.testbit v (i mod 32)); unfold with_enabled; cbn; by rewrite ?andb_true_r, ?andb_false_r.
  - destruct (Z.eqb_spec (i / 4) n) as [Hn|Hn]; [|apply demo_spi_other; lia].
    unfold demo_spi. rewrite <- Hn, reg_put_eq, !reg_put_ne, (wrap_small 32 v) by lia. unfold with_priority. cbn.
    by rewrite byte_of_land.
  - destruct (Z.eqb_spec (i / 4) n) as [Hn|Hn]; [|apply demo_spi_other; lia].
    unfold demo_spi. rewrite <- Hn, reg_put_eq, !reg_put_ne, (wrap_small 32 v) by lia. unfold with_targets. cbn.
    by rewrite byte_of_land.
  - destruct (Z.eqb_spec (i / 16) n) as [Hn|Hn]; [|apply demo_spi_other; lia].
    unfold demo_spi. by rewrite <- Hn, reg_put_eq, !reg_put_ne, (wrap_small 32 v) by lia.
Qed.

Lemma demo_write_ctlr r v m : gicd_in_range r = true →
  Z.testbit (gicd_write (gicd_offset r) v m 0) 0 = match r with CTLR => Z.testbit v 0 | _ => Z.testbit (m 0) 0 end.
Proof.
  intros Hr. unfold gicd_in_range in Hr. bool_to_prop.
  destruct r; cbn [gicd_offset gicd_index fst snd] in *; cbn [gicd_write demo_gic]; try done;
    match goal with |- context [if (0x100 <=? ?o) && _ then _ else _] =>
      destruct (Z.leb_spec 0x100 o), (Z.ltb_spec o 0x180), (Z.leb_spec 0x180 o), (Z.ltb_spec o 0x200); try lia end;
    cbn [andb]; by rewrite reg_put_ne by lia.
Qed.

#[export] Instance demo_gic_laws : GicLaws regs.
Proof.
  refine {| lines _ := 64; cpus _ := 2; spi := demo_spi; forwarding m := Z.testbit (m 0) 0;
            prio_mask := 0xff; cpu_mask := 0xff |}.
  - intros r m _. by apply wrap_range.
  - intros r m _. done.
  - intros r v m Hr Hv. split_and!; [done|done|by apply demo_write_ctlr|]. intros i Hi. by apply demo_write_effect.
  - intros m. done.
  - intros m i Hi. cbn. destruct (Z.eqb_spec (0x400 + 4 * (i / 4)) 4); [|done].
    pose proof (Z.div_pos i 4). lia.
  - intros m i Hi. cbn. destruct (Z.eqb_spec (0x800 + 4 * (i / 4)) 4); [|done]. pose proof (Z.div_pos i 4). lia.
  - intros m i Hi. cbn. destruct (Z.eqb_spec (0xc00 + 4 * (i / 16)) 4); [|done]. pose proof (Z.div_pos i 16). lia.
  - intros m i Hi. cbn. by rewrite !byte_of_land.
Defined.

Definition demo_irq : irq_sys regs (list Z) :=
  {| hw := λ _, 0; gicd_max_irqs := 64; handlers := handler_table_new 1024; sys_rest := [] |}.


Lemma gicd_init_configures_witness :
  ∃ m, gicd_init (λ _, 0) = Done (m, Ok 64) ∧ enabled (demo_spi m 40) = false ∧ priority (demo_spi m 40) = 255.
Proof.
  destruct (gicd_init_configures (H := regs) (λ _, 0)) as (m & E & _ & _ & Hs). exists m. split; [exact E|].
  destruct (Hs 40 ltac:(cbn; lia)) as (He & _ & Hp & _). by split.
Defined.
